(* ===== verification/_CoqProject ===== *)
-Q . S2P
Prelude.v
JsBits.v
Number64.v
FloatLaws.v
ByteStream.v
DecodeStream.v
Ascii85.v
AsciiHex.v
RunLength.v
Predictor.v
Flate.v
Bits.v
Huffman.v
Inflate.v
Deflated.v
FlateTotal.v
Lzw.v
LzwSpec.v
Rc4.v
Decrypt.v
Aes.v
Hash.v
Md5.v
Sha256.v
Sha512.v
Primitives.v
Crypto.v
CryptoSpec.v
CryptoLegacy.v
Lexer.v
LexerSpec.v
LexerTotal.v
Writer.v
Numerals.v
Parser.v
ParserSpec.v
WriterSpec.v
Xref.v
RoundTrip.v
StreamSpec.v
ParserTotal.v
XrefTable.v
Document.v
Update.v
UpdateSpec.v
Reopen.v
XrefStreamSpec.v
Viewport.v
Highlight.v
RenderTask.v
RenderTaskSpec.v
Rendering.v
HighlightPage.v
HighlightSpec.v
ViewerUtils.v
VisibleSpec.v
PageBuffer.v
FindQuery.v
FindQuerySpec.v
FindController.v
FindSpec.v
FindNext.v
FindRun.v
TextHighlighter.v
TextHighlighterSpec.v
TextLayer.v
TextLayerClaims.v
RenderingQueue.v
RenderingQueueSpec.v
PsParser.v
PsParserSpec.v
PsTree.v
PsCompiler.v
PsInterpreter.v
PsCompilerSpec.v
PsSpec.v
PsSimplify.v
PsEvaluate.v
PsInterpreterSpec.v
PsFunction.v
