(* ===== verification/Prelude.v ===== *)
(** * Verification of the JavaScript of the Glasslab PDF viewer

    The repository deploys a research orchestrator whose static files hold a
    PDF viewer, under [src/services/research-orchestrator/static/pdfjs/]: the
    worker [build/pdf.worker.mjs], which reads PDF files, the display library
    [build/pdf.mjs], the viewer [web/viewer.mjs] and the repository's own page
    [web/highlight.mjs].  This library models, of the worker, the part that
    turns the bytes of a file into PDF objects, the part that writes objects
    back and the calculator functions; of the display library the tasks that
    draw a page; of the viewer the search, its marks in the text, the choice of
    the pages to draw and their buffer; and the highlight page.

<<
      file ---> Stream ---> Lexer ---> Parser ---> objects ---> writer
       |          |                      |  ^         |           |
       |          v                      v  |         v           v
       |      DecodeStream <------- stream objects  tables <- incremental
       |      decoders,             strings <---+   of the    update, with
       |      decrypting streams                |   file      its own table
       v                                     ciphers
      header, startxref                     (password)

      text of a calculator function ---> program ---> interpreter
                                            |
                                            v
                                  shared expressions ---> code ---> machine

      highlight page ---> PDFPageProxy.render ---> InternalRenderTask
            |                                            ^
            v                                            |
      boxes in a viewport      getVisibleElements ---> rendering queue
                                                         |
      query ---> expression ---> matches of a page       v
                                   |                 buffer of pages
                                   v
                    find controller ---> text highlighter
>>

    ** How the code is modelled

    A JavaScript number used as an integer is a [Z]; the bitwise operators
    convert to 32 bits as ECMAScript says ([.<<], [.>>], [.>>>], [.&], [.|],
    [.^] of the scope [js_scope]); [undefined] and [NaN] are the [None] of
    [jsnum].  Numbers that need not be integers are doubles, rounded at every
    operation ([Number64]): those of the viewer and of the calculator functions,
    and those that stand in a document.  A number of a document ([num] of
    Primitives) is an [NInt] or, where it is no integer, an [NReal] with its
    double; the lexer adds, multiplies and divides doubles, and the writer prints
    the ten places of the exact value of the double, so that 9713106.09 comes
    back as another number ([written_number_changes] of Numerals).  A typed array is the list of its elements with the
    language's rules for reads and writes out of range.  A method that changes
    its object or throws is a function of the state monad [M S A], the state
    type being the record of the object's fields; what it did before a throw
    stays done.  Interfaces of the program are classes: [ByteSource] (the
    methods of a stream), [Decoder] (the [readBlock] of a subclass of
    [DecodeStream]), [Seekable] (the positions the lexer asks for).  Their
    contracts are the classes [SourceSpec] and [DecoderSpec]: a client is proved
    against the contract, so that decoders, decrypting streams and plain streams
    nest.

    Code that waits (drawing, the highlight page, the search) is a state, which
    holds the callbacks that are pending, and a type of events: a call from
    outside, a timer, an animation frame, the end of a promise with what it
    brings.  Theorems on it speak of every state that some sequence of events
    leads to, in any order.

    Loops that are not structural take fuel.  Running out gives [OutOfFuel],
    which is neither a result nor an exception, so that no theorem gains from
    it: each theorem on such a loop says how much fuel gives the result.  The
    amounts are natural bounds of the code: the number of blocks for a
    decoder, of characters for the lexer (the length of the data plus 2 in the
    parser), of tokens for the parser, of bytes for a search, of pages plus 2
    for a search through a document, of characters plus 1 for the matches of a
    page, of elements for a binary search, of characters plus 1 for the program
    of a calculator function, twice the number of nodes plus 10 for a
    simplification, the index of a node plus 1 for a walk over what it is made
    of, and the number of its cells for a run of compiled code.  The hash of
    revision 6 is bounded by 288 turns.

    ** Files of pdf.worker.mjs

    - Prelude (this file): numbers, typed arrays, the monad, texts and decimal
      digits, tactics.  JsBits: the 32-bit operators bit by bit, words and their
      [Proper] instances.  Number64: doubles, [Math], [Number] and [parseInt].
      FloatLaws: exact operations, rounding, doubles up to the sign of zero.
    - ByteStream: [BaseStream], [Stream].  DecodeStream: [DecodeStream] and
      [StreamsSequenceStream], with the theorem [DS_spec] that a decoder which
      keeps its contract is a stream which keeps its contract.
    - Ascii85, AsciiHex, RunLength, Predictor: the decoding streams of these
      names.  Flate, with Bits, Huffman, Inflate, Deflated and FlateTotal:
      [FlateStream], its tables, its codes, its blocks and its termination.
      Lzw and LzwSpec: [LZWStream].
    - Rc4, Aes, Decrypt: [ARCFourCipher], [NullCipher], [AESBaseCipher] and its
      subclasses, [DecryptStream].
    - Hash, Md5, Sha256, Sha512: the hash functions.
    - Primitives: [Name], [Cmd], [Ref], [Dict], [RefSet], string conversions.
    - Crypto, CryptoSpec, CryptoLegacy: [PDFBase], [PDF17], [PDF20],
      [CipherTransform], [CipherTransformFactory].
    - Lexer, LexerSpec, LexerTotal: [Lexer], [escapePDFName], [escapeString].
    - Parser, ParserSpec, StreamSpec, ParserTotal: [Parser].
    - Writer, Numerals, WriterSpec: [writeObject] and what it calls.
    - Xref, RoundTrip: [fetchUncompressed], and the theorem that ties the
      writer, the ciphers, the lexer and the parser together.
    - XrefTable: the streams of a stream object, run on the bytes of the file;
      [readXRef], [processXRefTable], [processXRefStream].
      Document: [checkHeader], [Linearization], [startXRef].
    - Update: [incrementalUpdate], [getXRefTable], [getXRefStreamTable].
      UpdateSpec, Reopen and XrefStreamSpec: what it writes is read back.
    - Calculator functions.  PsParser: [lexer_Lexer], [ast_Parser]; PsTree:
      [PSStackToTree], its expressions on a heap with the identity of nodes;
      PsCompiler: [PsJsCompiler], its code and its machine; PsInterpreter:
      [PSStackBasedInterpreter] and [buildPostScriptJsFunction].
      PsParserSpec: the parser.
      PsSpec: the abstract specification, values on a stack.  PsCompilerSpec:
      the code computes the expressions.  PsSimplify, PsEvaluate: the
      expressions stand for the results.  PsInterpreterSpec, PsFunction: both
      kinds of functions implement the specification.

    ** Files of pdf.mjs, highlight.mjs and viewer.mjs

    - Viewport: [PageViewport] and the transforms of [Util] (pdf.mjs).
    - RenderTask: [PDFPageProxy.render], [InternalRenderTask] (pdf.mjs).
      RenderTaskSpec and Rendering: the invariant of drawing.
    - Highlight: the functions of highlight.mjs that compute.  HighlightPage:
      its page with the events.  HighlightSpec: what the page shows.
    - ViewerUtils: [binarySearchFirstItem], [getVisibleElements] (viewer.mjs,
      as all that follows).  VisibleSpec: what it finds.
    - PageBuffer: [PDFPageViewBuffer].  RenderingQueue: [PDFRenderingQueue],
      [forceRendering].  RenderingQueueSpec: the order of drawing.
    - FindQuery: the query and the matches of a page.  FindController: the rest
      of [PDFFindController], with its events.  FindQuerySpec, FindSpec,
      FindNext, FindRun: their properties.
    - TextHighlighter: the class of this name.  TextHighlighterSpec, TextLayer:
      its drawings.  TextLayerClaims: the highlighter and the find controller.

    ** What the theorems show

    - Round trips: what the writer prints of an object, encrypted or not, is
      what the fetch of its entry returns (RoundTrip); a file with an update
      appended opens again: [readXRef] finds its trailer and its objects
      (Reopen).  Both are for numbers with an exact numeral: integers below 2^53
      and doubles nearest to a decimal fraction of at most ten places below
      450,359.  So do the entries of a cross-reference stream (XrefStreamSpec);
      a printed token is read back (Numerals); encrypted strings, streams and
      blocks decrypt (CryptoSpec, Aes, Rc4, Decrypt); encoded data decodes
      (Ascii85, AsciiHex, RunLength, Predictor, Deflated, LzwSpec), over any
      stream that keeps the contract, so over chains of decoders too.
    - Equivalence: the hash functions are those of RFC 1321 and FIPS 180-4
      (Md5, Sha256, Sha512); the codes Flate reads are the canonical prefix
      codes of RFC 1951 (Huffman); the visible pages are the pages that meet
      the view, sorted as asked (VisibleSpec); the positions of a match in the text of the page
      are those a walk over the pieces of the text gives (FindQuerySpec).
    - Function: documents of revisions 2 to 6 open with the user and with the
      owner password (CryptoLegacy, CryptoSpec); stream objects are cut out
      of the file where they are (StreamSpec); the search selects the match
      nearest to the page shown, whatever the order in which the texts of the
      pages come, and then goes around the document (FindRun); the
      text layer marks exactly the matches, when they are in order (TextLayerClaims);
      the queue draws what can be seen first (RenderingQueueSpec); the boxes of
      an answer are found in each of its forms (Highlight).
    - Refinement: the functions that are made of calculator programs, compiled
      or interpreted, write what the specification of the operators computes
      (PsFunction); printed programs are parsed back (PsParserSpec).  The
      compiler simplifies, so that its results are those up to the sign of a
      zero; and it is right where all branches leave the same height, no slot
      is read on a path that does not fill it and the arrays are high enough:
      [compiles_well] decides that.
    - Invariants over all orders of events: a drawing never gets stuck
      (Rendering); the highlight page has one drawing at a time and shows the
      rectangles of its boxes (HighlightSpec); what is selected is a match, and
      a search that waits is taken up (FindRun); the buffer of pages keeps
      its bound (PageBuffer).
    - Termination: the lexer and the searches of the parser (LexerTotal,
      ParserTotal), Flate (FlateTotal), the hash of revision 6 (CryptoSpec),
      the matches of a page (FindQuerySpec), the rendering queue
      (RenderingQueueSpec), the parser and the compiler of calculator functions
      (PsParserSpec, PsFunction); and the inputs on which loops do not end
      (ParserTotal, FindQuerySpec, PsParserSpec).
    - Errors of the code, each with an input: Deflated, LzwSpec, ParserTotal,
      Reopen, Rendering, HighlightSpec, VisibleSpec, FindQuerySpec, FindRun,
      TextLayerClaims, PsParserSpec, PsFunction.

    ** What is assumed

    - The engine of regular expressions, the character classes of Unicode and
      the segmentation of words are the platform's: a record of functions
      ([Engine]) whose law [engine_ok] is that a match begins at the position
      the run starts from or later and ends inside the text, as the language has
      it.  A match may be empty.  The theorems on the search are for queries whose
      expression has no empty match ([no_empty_match], a condition on each call
      in [event_ok]): with one the loop of [match] does not end, which the
      expressions of some queries reach ([empty_word_never_ends]).
    - Pages are laid out in whole pixels; that [getVisibleElements] is exact
      needs rows, and a last page that is the lowest of its row.
    - The divs of a text layer are elements, and the matches of the page are in
      order and inside its text.  [match] gives them so ([matches_in_order]); led
      back to the text of the page they may not be so any more
      ([repeated_match_not_selected]).
    - The functions of [Math] that the language leaves to the platform (sine,
      cosine, logarithms, power, arc tangent) are the class [MathLib], without
      laws: the specification of calculator functions is undefined on them, as
      it is on [idiv], [mod], [round] and [not] of integers, which are not the
      same in folding, simplifying, compiled code and the interpreter.
    - Ciphers, hash functions and filters are definitions here: nothing is
      assumed of them.

    ** What is not modelled

    - Warnings and telemetry, which nothing reads back.
    - Image decoders (JPEG, JPEG 2000, JBIG2, CCITT, Brotli): numerical codecs,
      partly WebAssembly.  Fonts: tables of data and of the platform.
    - The asynchronous methods of streams and the [Promise]s around them: the
      synchronous ones compute the same data.  Chunked loading.
    - Of the cross-reference: object streams, the cache and the recovery of
      broken files ([indexObjects]).  Of an update: forms in XFA.
    - The catalog, annotations, forms, the evaluator of page content, colors
      and patterns: they end in calls of the browser.  Of the functions: the
      sampled, exponential and stitching ones and the compiler of calculator
      functions to WebAssembly.
    - Of drawing: what the operations draw, printing, the debugger, and the
      pages that are destroyed.
    - Of the search: [normalize], whose tables are Unicode's (the text of a page
      comes with its shifts), a second document and edited pages.  Of the queue:
      the thumbnails, which are only asked whether they draw, and the page
      views, of which only the state is kept.
    - The rest of the viewer (history, links, find bar, sidebar, preferences):
      user interface and calls of the browser.  The debugger, the sandbox and
      the generated glue of WebAssembly.
    - The files of the repository that are not JavaScript. *)

From Stdlib Require Export ZArith Lia Bool List.
From stdpp Require Export base tactics list option numbers strings.

Declare Scope js_scope.
Delimit Scope js_scope with js.
#[global] Open Scope Z_scope.

(** ** Tactics of the development *)

(** Split the boolean hypotheses and comparisons of the context into
    propositions that [lia] understands. *)
Ltac bool_hyps :=
  repeat match goal with
  | H : _ && _ = true |- _ => apply andb_true_iff in H; destruct H
  | H : _ || _ = false |- _ => apply orb_false_iff in H; destruct H
  | H : negb _ = true |- _ => apply negb_true_iff in H
  | H : negb _ = false |- _ => apply negb_false_iff in H
  | H : (_ <? _) = true |- _ => apply Z.ltb_lt in H
  | H : (_ <? _) = false |- _ => apply Z.ltb_ge in H
  | H : (_ <=? _) = true |- _ => apply Z.leb_le in H
  | H : (_ <=? _) = false |- _ => apply Z.leb_gt in H
  | H : (_ =? _) = true |- _ => apply Z.eqb_eq in H
  | H : (_ =? _) = false |- _ => apply Z.eqb_neq in H
  end.

(** Decide the integer comparison in the scrutinee of a conditional. *)
Ltac case_bool :=
  match goal with
  | |- context [if ?b then _ else _] => destruct b eqn:?
  end; bool_hyps.

(** Rewrite a boolean integer test whose value [lia] knows. *)
Ltac ztest :=
  match goal with
  | |- context [?a <? ?b] =>
      first [ rewrite (proj2 (Z.ltb_lt a b)) by lia
            | rewrite (proj2 (Z.ltb_ge a b)) by lia ]
  | |- context [?a <=? ?b] =>
      first [ rewrite (proj2 (Z.leb_le a b)) by lia
            | rewrite (proj2 (Z.leb_gt a b)) by lia ]
  | |- context [?a =? ?b] =>
      first [ rewrite (proj2 (Z.eqb_eq a b)) by lia
            | rewrite (proj2 (Z.eqb_neq a b)) by lia ]
  end.

(** ** Numbers

    A JavaScript number that the modelled code only ever uses with integer
    values below 2^53 is a [Z]: on that range the double arithmetic [+], [-],
    [*] is exact.  The bitwise operators convert their operands to 32 bits
    first, as ECMAScript's [ToInt32] and [ToUint32] do. *)

Definition to_uint32 (z : Z) : Z := z mod 2 ^ 32.

Definition to_int32 (z : Z) : Z :=
  let m := z mod 2 ^ 32 in
  if m <? 2 ^ 31 then m else m - 2 ^ 32.

Definition js_and (a b : Z) : Z := Z.land (to_int32 a) (to_int32 b).
Definition js_or (a b : Z) : Z := Z.lor (to_int32 a) (to_int32 b).
Definition js_xor (a b : Z) : Z := Z.lxor (to_int32 a) (to_int32 b).
Definition js_not (a : Z) : Z := Z.lnot (to_int32 a).
(** [a << n], [a >> n] and [a >>> n]: the shift count is taken modulo 32. *)
Definition js_shl (a n : Z) : Z := to_int32 (Z.shiftl (to_int32 a) (n mod 32)).
Definition js_sar (a n : Z) : Z := Z.shiftr (to_int32 a) (n mod 32).
Definition js_shr (a n : Z) : Z := Z.shiftr (to_uint32 a) (n mod 32).

(** The operators keep JavaScript's relative precedence: shifts bind looser
    than [+], then [&], [^] and [|]. *)
Notation "a .<< b" := (js_shl a b) (at level 52, left associativity) : js_scope.
Notation "a .>> b" := (js_sar a b) (at level 52, left associativity) : js_scope.
Notation "a .>>> b" := (js_shr a b) (at level 52, left associativity) : js_scope.
Notation "a .& b" := (js_and a b) (at level 54, left associativity) : js_scope.
Notation "a .^ b" := (js_xor a b) (at level 56, left associativity) : js_scope.
Notation "a .| b" := (js_or a b) (at level 58, left associativity) : js_scope.

(** A number read from where there may be none: [None] is [undefined] before
    an arithmetic operator and [NaN] after it. *)
Abbreviation jsnum := (option Z).

Definition jn_add (a b : jsnum) : jsnum := x ← a; y ← b; Some (x + y).
Definition jn_sub (a b : jsnum) : jsnum := x ← a; y ← b; Some (x - y).
(** [ToInt32] sends [undefined] and [NaN] to 0. *)
Definition jn_int (a : jsnum) : Z := default 0 a.
(** Comparisons with [undefined] or [NaN] are false, [===] with a number too. *)
Definition jn_lt (a b : jsnum) : bool :=
  match a, b with Some x, Some y => x <? y | _, _ => false end.
Definition jn_le (a b : jsnum) : bool :=
  match a, b with Some x, Some y => x <=? y | _, _ => false end.
Definition jn_is (a : jsnum) (k : Z) : bool :=
  match a with Some x => x =? k | None => false end.

(** [v || d]: 0, [NaN] and [undefined] are falsy. *)
Definition jn_or (v : jsnum) (d : Z) : Z :=
  match v with Some z => if z =? 0 then d else z | None => d end.

(** ** Typed arrays

    A [Uint8Array] (or another typed array) is the list of its elements; its
    length never changes.  A read out of range gives [undefined], a write out
    of range is ignored, and a write converts the value to the element type. *)

Definition len {A} (l : list A) : Z := Z.of_nat (length l).

Definition arr_get {A} (l : list A) (i : Z) : option A :=
  if i <? 0 then None else l !! Z.to_nat i.

Definition arr_set {A} (l : list A) (i : Z) (v : A) : list A :=
  if i <? 0 then l else <[Z.to_nat i := v]> l.

(** Conversion to the element type; [NaN] and [undefined] become 0. *)
Definition to_u8 (z : Z) : Z := z mod 256.
Definition to_u16 (z : Z) : Z := z mod 65536.
Definition jn_u8 (v : jsnum) : Z := to_u8 (default 0 v).

(** A relative index of [subarray], [slice] or [fill], clamped to the array. *)
Definition rel_index (n i : Z) : Z :=
  if i <? 0 then Z.max 0 (n + i) else Z.min i n.

Definition subarray {A} (l : list A) (b e : Z) : list A :=
  let b' := rel_index (len l) b in
  let e' := rel_index (len l) e in
  take (Z.to_nat (e' - b')) (drop (Z.to_nat b') l).

Definition zeros (n : Z) : list Z := replicate (Z.to_nat n) 0.

(** [dst.set(src, off)] when [src] fits; the call throws a [RangeError]
    otherwise, see [arr_put] below. *)
Definition blit {A} (dst src : list A) (off : Z) : list A :=
  take (Z.to_nat off) dst ++ src ++ drop (Z.to_nat off + length src) dst.

(** [dst.fill(v, b, e)] *)
Definition fill {A} (dst : list A) (v : A) (b e : Z) : list A :=
  let b' := rel_index (len dst) b in
  let e' := rel_index (len dst) e in
  if b' <? e' then blit dst (replicate (Z.to_nat (e' - b')) v) b' else dst.

(** ** Text

    A string is the list of its UTF-16 code units. *)

Abbreviation jstr := (list Z).

(** A string literal of the source. *)
Definition js (s : string) : jstr :=
  map (fun a => Z.of_N (Ascii.N_of_ascii a)) (String.list_ascii_of_string s).

Definition is_digit (c : Z) : bool := (0x30 <=? c) && (c <=? 0x39).

(** The decimal numeral of a natural number: [`${n}`] below 10^21. *)
Fixpoint dec_digits (fuel : nat) (n : Z) (acc : jstr) : jstr :=
  match fuel with
  | O => acc
  | S fuel =>
      let acc := 0x30 + n mod 10 :: acc in
      if n <? 10 then acc else dec_digits fuel (n / 10) acc
  end.
Definition dec (n : Z) : jstr := dec_digits (S (Z.to_nat (Z.log2 n))) n [].

(** [parseInt(digits, 10)] *)
Definition parse_dec (digits : jstr) : Z := fold_left (fun v c => v * 10 + (c - 0x30)) digits 0.

(** The longest prefix of digits, and what follows it. *)
Fixpoint span_digits (s : jstr) : jstr * jstr :=
  match s with
  | c :: s' =>
      if is_digit c then let '(d, r) := span_digits s' in (c :: d, r) else ([], s)
  | [] => ([], [])
  end.

(** ** Exceptions and state

    A method that mutates its object and may throw is a function from the
    object's state to an outcome and the state it leaves: a throw keeps the
    mutations made before it, which the callers that catch rely on. *)

(** The exceptions of the modelled code; the string is the fixed text of the
    message. *)
Inductive exn : Type :=
| FormatError (msg : string)
| ParserEOFException (msg : string)
| XRefEntryException (msg : string)
| PasswordException (msg : string) (code : Z)
| RangeError (msg : string)
| TypeError (msg : string)
| JsError (msg : string).

(** [OutOfFuel] is not an outcome of the code: it marks a loop cut short by
    the model's bound or a case the model leaves out, no [catch] stops it, and
    the theorems exclude it. *)
Inductive res (A : Type) : Type :=
| Ok (a : A)
| Throw (e : exn)
| OutOfFuel.
Arguments Ok {A} a.
Arguments Throw {A} e.
Arguments OutOfFuel {A}.

Definition M (S A : Type) : Type := S -> res A * S.

Definition mret {S A} (a : A) : M S A := fun s => (Ok a, s).

Definition mbind {S A B} (m : M S A) (k : A -> M S B) : M S B :=
  fun s =>
    match m s with
    | (Ok a, s') => k a s'
    | (Throw e, s') => (Throw e, s')
    | (OutOfFuel, s') => (OutOfFuel, s')
    end.

Definition throw {S A} (e : exn) : M S A := fun s => (Throw e, s).
Definition out_of_fuel {S A} : M S A := fun s => (OutOfFuel, s).
Definition get {S} : M S S := fun s => (Ok s, s).
Definition put {S} (s : S) : M S unit := fun _ => (Ok tt, s).
Definition modify {S} (f : S -> S) : M S unit := fun s => (Ok tt, f s).
Definition gets {S A} (f : S -> A) : M S A := fun s => (Ok (f s), s).

(** [try { m } catch (ex) { h(ex) }] *)
Definition try_catch {S A} (m : M S A) (h : exn -> M S A) : M S A :=
  fun s =>
    match m s with
    | (Throw e, s') => h e s'
    | r => r
    end.

(** Run a method of a part of the state. *)
Definition zoom {S T A} (proj : S -> T) (upd : T -> S -> S) (m : M T A) : M S A :=
  fun s => let '(r, t) := m (proj s) in (r, upd t s).

Notation "x <- m ;; k" := (mbind m (fun x => k))
  (at level 100, m at next level, right associativity) : js_scope.
Notation "'let*' p <- m ;; k" := (mbind m (fun x => match x with p => k end))
  (at level 100, p pattern, m at next level, right associativity) : js_scope.
Notation "m ;;; k" := (mbind m (fun _ => k))
  (at level 100, right associativity) : js_scope.

(** [dst.set(src, off)] *)
Definition arr_put {S A} (dst src : list A) (off : Z) : M S (list A) :=
  if (0 <=? off) && (off + len src <=? len dst) then mret (blit dst src off)
  else throw (RangeError "offset is out of bounds").

(** Run the monadic operations of the goal as far as they go. *)
Create HintDb js_m discriminated.
#[export] Hint Unfold mbind mret throw get put modify gets try_catch zoom arr_put : js_m.
Ltac m_red := repeat (progress autounfold with js_m); cbv beta iota.

Lemma mbind_ok {S A B} (m : M S A) (k : A -> M S B) s a s' :
  m s = (Ok a, s') -> mbind m k s = k a s'.
Proof. intros E. unfold mbind. by rewrite E. Qed.

(** ** Lemmas on arrays *)

Lemma len_nonneg {A} (l : list A) : 0 <= len l.
Proof. unfold len; lia. Qed.

Lemma len_nil {A} : len (@nil A) = 0.
Proof. reflexivity. Qed.

Lemma len_cons {A} (x : A) l : len (x :: l) = len l + 1.
Proof. unfold len; simpl; lia. Qed.

Lemma len_app {A} (l1 l2 : list A) : len (l1 ++ l2) = len l1 + len l2.
Proof. unfold len; rewrite length_app; lia. Qed.

Lemma len_take {A} (l : list A) n : len (take n l) = Z.min (Z.of_nat n) (len l).
Proof. unfold len; rewrite length_take; lia. Qed.

Lemma len_drop {A} (l : list A) n : len (drop n l) = Z.max 0 (len l - Z.of_nat n).
Proof. unfold len; rewrite length_drop; lia. Qed.

Lemma len_replicate {A} (x : A) n : len (replicate n x) = Z.of_nat n.
Proof. unfold len; rewrite length_replicate; lia. Qed.

Lemma len_zeros n : 0 <= n -> len (zeros n) = n.
Proof. intros; unfold zeros; rewrite len_replicate; lia. Qed.

Create Rewrite HintDb len.
#[export] Hint Rewrite @len_nil @len_cons @len_app @len_take @len_drop
  @len_replicate : len.

(** Normalise lengths, then arithmetic. *)
Ltac len_lia :=
  autorewrite with len in *;
  repeat match goal with
  | l : list ?A |- _ =>
      lazymatch goal with
      | _ : 0 <= len l |- _ => fail
      | _ => pose proof (len_nonneg l)
      end
  end; lia.

Lemma length_len {A} (l : list A) : length l = Z.to_nat (len l).
Proof. unfold len; lia. Qed.

Lemma subarray_in {A} (l : list A) b e :
  0 <= b <= e -> e <= len l ->
  subarray l b e = take (Z.to_nat (e - b)) (drop (Z.to_nat b) l).
Proof.
  intros Hb He. unfold subarray, rel_index.
  repeat ztest. rewrite !Z.min_l by lia. reflexivity.
Qed.

Lemma subarray_nil {A} (l : list A) p : 0 <= p -> subarray l p p = [].
Proof. intros. unfold subarray. rewrite Z.sub_diag. reflexivity. Qed.

Lemma arr_get_drop {A} (l : list A) p b r :
  0 <= p -> drop (Z.to_nat p) l = b :: r -> arr_get l p = Some b.
Proof.
  intros Hp H. unfold arr_get. ztest.
  rewrite <- (Nat.add_0_r (Z.to_nat p)), <- lookup_drop, H. reflexivity.
Qed.

Lemma drop_succ_cons {A} (l : list A) p b r :
  drop p l = b :: r -> drop (S p) l = r.
Proof.
  intros H. replace (S p) with (p + 1)%nat by lia.
  rewrite <- drop_drop, H. reflexivity.
Qed.

(** The bytes between two positions, one read at a time or in bulk. *)
Lemma subarray_cons {A} (l : list A) p e b r :
  0 <= p <= e -> e <= len l -> subarray l p e = b :: r ->
  p < e /\ arr_get l p = Some b /\ subarray l (p + 1) e = r.
Proof.
  intros Hp He H. rewrite subarray_in in H by lia.
  destruct (decide (p = e)) as [->|Hne].
  - rewrite Z.sub_diag in H. discriminate.
  - assert (p < e) by lia. split; [lia|].
    destruct (drop (Z.to_nat p) l) as [|b' r'] eqn:Hd.
    + rewrite take_nil in H. discriminate.
    + replace (Z.to_nat (e - p)) with (S (Z.to_nat (e - p - 1))) in H by lia.
      simpl in H. injection H as -> Hr.
      split; [eapply arr_get_drop; eauto; lia|].
      rewrite subarray_in by lia.
      replace (Z.to_nat (p + 1)) with (S (Z.to_nat p)) by lia.
      apply drop_succ_cons in Hd. rewrite Hd, <- Hr. f_equal. lia.
Qed.

Lemma subarray_split {A} (l : list A) p m e :
  0 <= p <= m -> m <= e -> e <= len l ->
  subarray l p e = subarray l p m ++ subarray l m e.
Proof.
  intros. rewrite !subarray_in by lia.
  replace (Z.to_nat (e - p)) with (Z.to_nat (m - p) + Z.to_nat (e - m))%nat by lia.
  rewrite <- take_take_drop. f_equal. rewrite drop_drop. do 2 f_equal. lia.
Qed.

Lemma len_subarray {A} (l : list A) b e :
  0 <= b <= e -> e <= len l -> len (subarray l b e) = e - b.
Proof. intros. rewrite subarray_in by lia. len_lia. Qed.

Lemma Forall_subarray {A} (P : A -> Prop) l b e :
  Forall P l -> Forall P (subarray l b e).
Proof. intros. unfold subarray. apply Forall_take, Forall_drop. done. Qed.

(** ** Lemmas on 32-bit arithmetic *)

Lemma pow32 : 2 ^ 32 = 4294967296.
Proof. reflexivity. Qed.

Lemma to_int32_eqm z : exists k, to_int32 z = z + k * 2 ^ 32.
Proof.
  unfold to_int32. pose proof (Z.div_mod z (2 ^ 32) ltac:(lia)).
  destruct (z mod 2 ^ 32 <? 2 ^ 31).
  - exists (- (z / 2 ^ 32)). lia.
  - exists (- (z / 2 ^ 32) - 1). lia.
Qed.

Lemma to_int32_range z : - 2 ^ 31 <= to_int32 z < 2 ^ 31.
Proof.
  unfold to_int32. pose proof (Z.mod_pos_bound z (2 ^ 32) ltac:(lia)).
  case_bool; lia.
Qed.

Lemma to_int32_small z : - 2 ^ 31 <= z < 2 ^ 31 -> to_int32 z = z.
Proof.
  intros. destruct (to_int32_eqm z) as [k Hk]. pose proof (to_int32_range z). nia.
Qed.

Lemma to_int32_mod z m : 0 <= m <= 32 -> to_int32 z mod 2 ^ m = z mod 2 ^ m.
Proof.
  intros Hm. destruct (to_int32_eqm z) as [k ->].
  replace 32 with ((32 - m) + m) by lia. rewrite Z.pow_add_r by lia.
  rewrite Z.mul_assoc. apply Z_mod_plus_full.
Qed.

Lemma js_and_mask z m : 0 <= m <= 31 -> js_and z (2 ^ m - 1) = z mod 2 ^ m.
Proof.
  intros Hm. unfold js_and.
  assert (2 ^ m <= 2 ^ 31) by (apply Z.pow_le_mono_r; lia).
  assert (0 < 2 ^ m) by (apply Z.pow_pos_nonneg; lia).
  rewrite (to_int32_small (2 ^ m - 1)) by lia.
  replace (2 ^ m - 1) with (Z.ones m) by (rewrite Z.ones_equiv; lia).
  rewrite Z.land_ones by lia. apply to_int32_mod. lia.
Qed.

Lemma js_and_255 z : js_and z 255 = z mod 256.
Proof. apply (js_and_mask z 8). lia. Qed.

(** Shifting right agrees with division on all the bits below [32 - n]. *)
Lemma js_sar_mod z n m :
  0 <= n < 32 -> 0 <= m -> n + m <= 32 ->
  js_sar z n mod 2 ^ m = (z / 2 ^ n) mod 2 ^ m.
Proof.
  intros Hn Hm Hnm. unfold js_sar. rewrite (Z.mod_small n) by lia.
  rewrite Z.shiftr_div_pow2 by lia. destruct (to_int32_eqm z) as [k ->].
  replace (k * 2 ^ 32) with (k * 2 ^ (32 - n - m) * 2 ^ m * 2 ^ n)
    by (rewrite <- !Z.mul_assoc, <- !Z.pow_add_r by lia; do 2 f_equal; lia).
  rewrite Z.div_add by (apply Z.pow_nonzero; lia).
  apply Z_mod_plus_full.
Qed.

(** The low bits of a quotient depend on the low bits of the dividend only. *)
Lemma div_pow2_mod_eqm x y a b :
  0 <= a -> 0 <= b -> x mod 2 ^ (a + b) = y mod 2 ^ (a + b) ->
  (x / 2 ^ a) mod 2 ^ b = (y / 2 ^ a) mod 2 ^ b.
Proof.
  intros Ha Hb H.
  assert (0 < 2 ^ (a + b)) by (apply Z.pow_pos_nonneg; lia).
  rewrite (Z.div_mod x (2 ^ (a + b))), (Z.div_mod y (2 ^ (a + b))), H by lia.
  rewrite Z.pow_add_r by lia.
  rewrite !(Z.add_comm (_ * _ * _)), <- !Z.mul_assoc, !(Z.mul_comm (2 ^ a)).
  rewrite !Z.div_add by (apply Z.pow_nonzero; lia).
  rewrite !(Z.mul_comm (2 ^ b)), !Z_mod_plus_full. done.
Qed.

Lemma to_u8_small z : 0 <= z < 256 -> to_u8 z = z.
Proof. apply Z.mod_small. Qed.

Lemma arr_set_app {A} (l1 l2 : list A) i v :
  len l1 <= i -> arr_set (l1 ++ l2) i v = l1 ++ arr_set l2 (i - len l1) v.
Proof.
  intros Hi. pose proof (len_nonneg l1). unfold arr_set. repeat ztest.
  rewrite insert_app_r_alt by (unfold len in Hi; lia).
  do 2 f_equal. unfold len. lia.
Qed.

Lemma len_arr_set {A} (l : list A) i v : len (arr_set l i v) = len l.
Proof. unfold arr_set, len. case_bool; [done|]. by rewrite length_insert. Qed.

Lemma arr_get_nat {A} (l : list A) (k : nat) : arr_get l (Z.of_nat k) = l !! k.
Proof. unfold arr_get. ztest. by rewrite Nat2Z.id. Qed.

Lemma arr_get_app_r {A} (a b : list A) i : len a <= i -> arr_get (a ++ b) i = arr_get b (i - len a).
Proof.
  intros Hi. pose proof (len_nonneg a). unfold arr_get. rewrite !(proj2 (Z.ltb_ge _ 0)) by lia.
  rewrite lookup_app_r by (unfold len in Hi; lia). f_equal. unfold len. lia.
Qed.

Lemma arr_get_set {A} (l : list A) i v k :
  0 <= i < len l -> arr_get (arr_set l i v) k = if k =? i then Some v else arr_get l k.
Proof.
  intros Hi. unfold arr_get, arr_set. ztest. destruct (k <? 0) eqn:E; bool_hyps.
  - ztest. done.
  - destruct (k =? i) eqn:Ek; bool_hyps.
    + subst. apply list_lookup_insert_eq. unfold len in Hi. lia.
    + apply list_lookup_insert_ne. lia.
Qed.

(** What is read after a write. *)
Lemma get_set_other {A} (l : list A) i v k : k <> i -> 0 <= i -> arr_get (arr_set l i v) k = arr_get l k.
Proof.
  intros Hne Hi. unfold arr_get, arr_set. rewrite (proj2 (Z.ltb_ge i 0)) by lia. destruct (k <? 0) eqn:E; [done|]. bool_hyps.
  apply list_lookup_insert_ne. lia.
Qed.

Lemma get_set_same {A} (l : list A) i v : 0 <= i < len l -> arr_get (arr_set l i v) i = Some v.
Proof. intros Hi. by rewrite arr_get_set, Z.eqb_refl. Qed.

Lemma Forall_arr_set {A} (P : A -> Prop) l i v :
  Forall P l -> P v -> Forall P (arr_set l i v).
Proof. intros. unfold arr_set. case_bool; [done|]. by apply Forall_insert. Qed.

(** ** Numerals *)

Lemma dec_digits_spec fuel n acc :
  0 <= n < 2 ^ Z.of_nat fuel -> (0 < fuel)%nat ->
  exists d, dec_digits fuel n acc = d ++ acc /\ Forall (fun c => is_digit c = true) d /\
    (forall v, fold_left (fun v c => v * 10 + (c - 0x30)) d v = v * 10 ^ len d + n) /\
    (n = 0 -> d = [0x30]) /\ d <> [].
Proof.
  revert n acc. induction fuel as [|fuel IH]; intros n acc Hn Hf; [lia|].
  cbn [dec_digits]. pose proof (Z.mod_pos_bound n 10 ltac:(lia)) as Hm.
  assert (Hd : is_digit (0x30 + n mod 10) = true).
  { unfold is_digit. apply andb_true_iff. split; apply Z.leb_le; lia. }
  destruct (Z.ltb_spec n 10) as [Hlt|Hge].
  - exists [0x30 + n mod 10]. rewrite (Z.mod_small n 10) by lia.
    split_and!; auto; [by rewrite <- (Z.mod_small n 10) at 1 by lia; constructor|..].
    + intros v. cbn [fold_left]. change (len [0x30 + n]) with 1. lia.
    + by intros ->.
  - assert (Hf' : (0 < fuel)%nat).
    { destruct fuel; [|lia]. change (2 ^ Z.of_nat 1) with 2 in Hn. lia. }
    assert (Hpow : 2 ^ Z.of_nat (S fuel) = 2 * 2 ^ Z.of_nat fuel)
      by (rewrite Nat2Z.inj_succ, Z.pow_succ_r by lia; done).
    destruct (IH (n / 10) (0x30 + n mod 10 :: acc)) as (d & He & Hall & Hv & _ & _);
      [Z.to_euclidean_division_equations; lia|done|].
    exists (d ++ [0x30 + n mod 10]). rewrite He, <- app_assoc. split_and!; auto.
    + apply Forall_app. by split; [|constructor].
    + intros v. rewrite fold_left_app, Hv. cbn [fold_left]. rewrite len_app.
      change (len [0x30 + n mod 10]) with 1. rewrite Z.pow_add_r by (try apply len_nonneg; lia).
      pose proof (Z.div_mod n 10 ltac:(lia)). lia.
    + lia.
    + by destruct d.
Qed.

Lemma dec_spec n :
  0 <= n ->
  Forall (fun c => is_digit c = true) (dec n) /\ parse_dec (dec n) = n /\
  (n = 0 -> dec n = js "0") /\ dec n <> [].
Proof.
  intros Hn. unfold dec.
  destruct (dec_digits_spec (S (Z.to_nat (Z.log2 n))) n []) as (d & -> & Hall & Hv & H0 & Hd).
  - split; [done|]. destruct (Z.eq_dec n 0) as [->|]; [simpl; lia|].
    pose proof (Z.log2_spec n ltac:(lia)). pose proof (Z.log2_nonneg n).
    rewrite Nat2Z.inj_succ, Z2Nat.id by done. lia.
  - lia.
  - rewrite app_nil_r. split_and!; auto. unfold parse_dec. rewrite Hv. lia.
Qed.

Lemma span_digits_app d r :
  Forall (fun c => is_digit c = true) d ->
  match r with c :: _ => is_digit c = false | [] => True end ->
  span_digits (d ++ r) = (d, r).
Proof.
  intros Hd Hr. induction Hd as [|c d Hc _ IH]; simpl.
  - destruct r as [|c r]; [done|]. simpl. by rewrite Hr.
  - by rewrite Hc, IH.
Qed.
