(* ===== verification/JsBits.v ===== *)
(** * The bits of 32-bit operations

    Each bitwise operator of JavaScript, seen bit by bit, and the [js_bits]
    rewriting database that reduces an equality of words to one of booleans.
    Also the arithmetic of unsigned 32-bit words, the reference against which
    the hash functions are proved. *)
From S2P Require Import Prelude.
Local Open Scope js_scope.

Lemma to_int32_bit z i : 0 <= i < 32 -> Z.testbit (to_int32 z) i = Z.testbit z i.
Proof.
  intros Hi. rewrite <- (Z.mod_pow2_bits_low (to_int32 z) 32 i) by lia.
  rewrite to_int32_mod by lia. by rewrite Z.mod_pow2_bits_low by lia.
Qed.

Lemma to_uint32_bit z i : 0 <= i < 32 -> Z.testbit (to_uint32 z) i = Z.testbit z i.
Proof. intros. unfold to_uint32. by rewrite Z.mod_pow2_bits_low by lia. Qed.

Lemma js_xor_bit a b i :
  0 <= i < 32 -> Z.testbit (a .^ b) i = xorb (Z.testbit a i) (Z.testbit b i).
Proof. intros. unfold js_xor. by rewrite Z.lxor_spec, !to_int32_bit. Qed.

Lemma js_and_bit a b i :
  0 <= i < 32 -> Z.testbit (a .& b) i = Z.testbit a i && Z.testbit b i.
Proof. intros. unfold js_and. by rewrite Z.land_spec, !to_int32_bit. Qed.

Lemma js_or_bit a b i :
  0 <= i < 32 -> Z.testbit (a .| b) i = Z.testbit a i || Z.testbit b i.
Proof. intros. unfold js_or. by rewrite Z.lor_spec, !to_int32_bit. Qed.

Lemma js_not_bit a i : 0 <= i < 32 -> Z.testbit (js_not a) i = negb (Z.testbit a i).
Proof. intros. unfold js_not. by rewrite Z.lnot_spec, to_int32_bit by lia. Qed.

Lemma js_shl_bit a n i :
  0 <= n < 32 -> 0 <= i < 32 ->
  Z.testbit (a .<< n) i = if i <? n then false else Z.testbit a (i - n).
Proof.
  intros. unfold js_shl. rewrite to_int32_bit, (Z.mod_small n) by lia.
  destruct (Z.ltb_spec i n).
  - by rewrite Z.shiftl_spec_low by lia.
  - rewrite Z.shiftl_spec by lia. by rewrite to_int32_bit by lia.
Qed.

Lemma js_shr_bit a n i :
  0 <= n < 32 -> 0 <= i < 32 ->
  Z.testbit (a .>>> n) i = if i + n <? 32 then Z.testbit a (i + n) else false.
Proof.
  intros. unfold js_shr, to_uint32. rewrite (Z.mod_small n), Z.shiftr_spec by lia.
  destruct (Z.ltb_spec (i + n) 32).
  - by rewrite Z.mod_pow2_bits_low by lia.
  - by rewrite Z.mod_pow2_bits_high by lia.
Qed.

Lemma js_sar_bit a n i :
  0 <= n < 32 -> 0 <= i -> i + n < 32 -> Z.testbit (a .>> n) i = Z.testbit a (i + n).
Proof.
  intros. unfold js_sar. rewrite (Z.mod_small n), Z.shiftr_spec by lia.
  by rewrite to_int32_bit by lia.
Qed.

(** ** Words

    [eq32 a b]: the numbers [a] and [b] are the same 32-bit word. *)

Record eq32 (a b : Z) : Prop := Eq32 { uint32_eq : to_uint32 a = to_uint32 b }.

#[export] Instance eq32_equiv : Equivalence eq32.
Proof. split; [intros a; by split|intros a b []; by split|intros a b c [] []; split; congruence]. Qed.

Lemma to_uint32_range z : 0 <= to_uint32 z < 2 ^ 32.
Proof. apply Z.mod_pos_bound. lia. Qed.

Lemma eq32_bits a b :
  eq32 a b <-> forall i, 0 <= i < 32 -> Z.testbit a i = Z.testbit b i.
Proof.
  split.
  - intros [H] i Hi. rewrite <- (to_uint32_bit a), <- (to_uint32_bit b) by lia. by rewrite H.
  - intros H. split. apply Z.bits_inj'. intros i Hi. unfold to_uint32.
    destruct (decide (i < 32)).
    + rewrite !Z.mod_pow2_bits_low by lia. apply H. lia.
    + by rewrite !Z.mod_pow2_bits_high by lia.
Qed.

Lemma eq32_int32 a : eq32 (to_int32 a) a.
Proof. split. unfold to_uint32. by rewrite to_int32_mod by lia. Qed.

Lemma eq32_uint32 a : eq32 (to_uint32 a) a.
Proof. split. unfold to_uint32. by rewrite Z.mod_mod by lia. Qed.

Lemma eq32_eq a b : 0 <= a < 2 ^ 32 -> 0 <= b < 2 ^ 32 -> eq32 a b -> a = b.
Proof. intros ? ? [H]. unfold to_uint32 in H. by rewrite !Z.mod_small in H by lia. Qed.

#[export] Instance add_proper : Proper (eq32 ==> eq32 ==> eq32) Z.add.
Proof.
  intros a a' [Ha] b b' [Hb]. split. unfold to_uint32 in *.
  rewrite (Z.add_mod a), (Z.add_mod a') by lia. by rewrite Ha, Hb.
Qed.

#[export] Instance to_int32_proper : Proper (eq32 ==> eq) to_int32.
Proof. intros a a' [Ha]. unfold to_int32. unfold to_uint32 in Ha. by rewrite Ha. Qed.

#[export] Instance to_uint32_proper : Proper (eq32 ==> eq) to_uint32.
Proof. intros a a' [Ha]. exact Ha. Qed.

#[export] Instance js_xor_proper : Proper (eq32 ==> eq32 ==> eq) js_xor.
Proof. intros a a' Ha b b' Hb. unfold js_xor. by rewrite Ha, Hb. Qed.

#[export] Instance js_and_proper : Proper (eq32 ==> eq32 ==> eq) js_and.
Proof. intros a a' Ha b b' Hb. unfold js_and. by rewrite Ha, Hb. Qed.

#[export] Instance js_or_proper : Proper (eq32 ==> eq32 ==> eq) js_or.
Proof. intros a a' Ha b b' Hb. unfold js_or. by rewrite Ha, Hb. Qed.

#[export] Instance js_not_proper : Proper (eq32 ==> eq) js_not.
Proof. intros a a' Ha. unfold js_not. by rewrite Ha. Qed.

#[export] Instance js_shl_proper : Proper (eq32 ==> eq ==> eq) js_shl.
Proof. intros a a' Ha n ? <-. unfold js_shl. by rewrite Ha. Qed.

#[export] Instance js_sar_proper : Proper (eq32 ==> eq ==> eq) js_sar.
Proof. intros a a' Ha n ? <-. unfold js_sar. by rewrite Ha. Qed.

#[export] Instance js_shr_proper : Proper (eq32 ==> eq ==> eq) js_shr.
Proof. intros a a' Ha n ? <-. unfold js_shr. by rewrite Ha. Qed.

(** The bitwise operators, as words. *)
Lemma eq32_xor a b : eq32 (a .^ b) (Z.lxor a b).
Proof. apply eq32_bits. intros. by rewrite js_xor_bit, Z.lxor_spec. Qed.

Lemma eq32_and a b : eq32 (a .& b) (Z.land a b).
Proof. apply eq32_bits. intros. by rewrite js_and_bit, Z.land_spec. Qed.

Lemma eq32_or a b : eq32 (a .| b) (Z.lor a b).
Proof. apply eq32_bits. intros. by rewrite js_or_bit, Z.lor_spec. Qed.

Lemma eq32_not a : eq32 (js_not a) (Z.lnot a).
Proof. apply eq32_bits. intros. by rewrite js_not_bit, Z.lnot_spec by lia. Qed.

(** ** The byte of a word *)

Lemma byte_ext a b :
  is_true ((0 <=? a) && (a <? 256)) -> is_true ((0 <=? b) && (b <? 256)) ->
  (forall i, 0 <= i < 8 -> Z.testbit a i = Z.testbit b i) -> a = b.
Proof.
  unfold is_true. intros Ha Hb H. bool_hyps.
  rewrite <- (Z.mod_small a (2 ^ 8)), <- (Z.mod_small b (2 ^ 8)) by lia.
  apply Z.bits_inj'. intros i Hi. destruct (decide (i < 8)).
  - rewrite !Z.mod_pow2_bits_low by lia. apply H. lia.
  - by rewrite !Z.mod_pow2_bits_high by lia.
Qed.

Lemma to_u8_bit z i : 0 <= i < 8 -> Z.testbit (to_u8 z) i = Z.testbit z i.
Proof. intros. unfold to_u8. change 256 with (2 ^ 8). by rewrite Z.mod_pow2_bits_low by lia. Qed.

(** ** Tables linear over xor *)

(** The entry of [t] at [i], from the entries at the powers of 2. *)
Definition xor_combine (t : list Z) (i : Z) : Z :=
  fold_right (fun k acc =>
    Z.lxor (if Z.testbit i (Z.of_nat k) then default 0 (arr_get t (2 ^ Z.of_nat k)) else 0) acc)
    0 (seq 0 8).

Lemma xor_combine_linear t a b :
  xor_combine t (Z.lxor a b) = Z.lxor (xor_combine t a) (xor_combine t b).
Proof.
  unfold xor_combine. generalize (seq 0 8) as ks. induction ks as [|k ks IH]; simpl; [done|].
  rewrite IH, Z.lxor_spec.
  destruct (Z.testbit a (Z.of_nat k)), (Z.testbit b (Z.of_nat k)); simpl xorb; cbv iota;
    apply Z.bits_inj'; intros i _; rewrite !Z.lxor_spec, ?Z.bits_0;
    repeat match goal with |- context [Z.testbit ?x i] => destruct (Z.testbit x i) end; done.
Qed.

Lemma testbit_small (n i : Z) : 0 <= n < 256 -> 8 <= i -> Z.testbit n i = false.
Proof.
  intros Hn Hi. rewrite <- (Z.mod_small n (2 ^ 8)) by lia.
  by rewrite Z.mod_pow2_bits_high by lia.
Qed.

(** A table check over the 256 bytes gives the property of every byte. *)
Lemma all_bytes (P : Z -> bool) :
  forallb (fun n => P (Z.of_nat n)) (seq 0 256) = true ->
  forall z, 0 <= z < 256 -> P z = true.
Proof.
  intros H z Hz. rewrite forallb_forall in H. specialize (H (Z.to_nat z)).
  rewrite Z2Nat.id in H by lia. apply H, in_seq. lia.
Qed.

(** ** Reference words

    The published definitions of the hash functions work on unsigned words;
    [rotl32] and [rotr32] are their rotations. *)

#[export] Instance lxor_proper : Proper (eq32 ==> eq32 ==> eq32) Z.lxor.
Proof.
  intros a a' Ha b b' Hb. rewrite eq32_bits in *. intros i Hi.
  by rewrite !Z.lxor_spec, Ha, Hb.
Qed.

#[export] Instance land_proper : Proper (eq32 ==> eq32 ==> eq32) Z.land.
Proof.
  intros a a' Ha b b' Hb. rewrite eq32_bits in *. intros i Hi.
  by rewrite !Z.land_spec, Ha, Hb.
Qed.

#[export] Instance lor_proper : Proper (eq32 ==> eq32 ==> eq32) Z.lor.
Proof.
  intros a a' Ha b b' Hb. rewrite eq32_bits in *. intros i Hi.
  by rewrite !Z.lor_spec, Ha, Hb.
Qed.

#[export] Instance lnot_proper : Proper (eq32 ==> eq32) Z.lnot.
Proof.
  intros a a' Ha. rewrite eq32_bits in *. intros i Hi. by rewrite !Z.lnot_spec, Ha by lia.
Qed.

Definition rotl32 (x n : Z) : Z := to_uint32 (Z.lor (Z.shiftl x n) (Z.shiftr x (32 - n))).
Definition rotr32 (x n : Z) : Z := to_uint32 (Z.lor (Z.shiftr x n) (Z.shiftl x (32 - n))).

Lemma uint32_high_bits x i : 0 <= x < 2 ^ 32 -> 32 <= i -> Z.testbit x i = false.
Proof.
  intros Hx Hi. rewrite <- (Z.mod_small x (2 ^ 32)) by lia. by apply Z.mod_pow2_bits_high.
Qed.

Lemma eq32_rotl a x n :
  0 < n < 32 -> 0 <= x < 2 ^ 32 -> eq32 a x -> eq32 ((a .<< n) .| (a .>>> 32 - n)) (rotl32 x n).
Proof.
  intros Hn Hx Ha. unfold rotl32. rewrite eq32_uint32. rewrite eq32_bits in *. intros i Hi.
  rewrite js_or_bit, js_shl_bit, js_shr_bit, Z.lor_spec, Z.shiftr_spec by lia. f_equal.
  - destruct (Z.ltb_spec i n); [by rewrite Z.shiftl_spec_low by lia|].
    rewrite Z.shiftl_spec by lia. apply Ha. lia.
  - destruct (Z.ltb_spec (i + (32 - n)) 32); [apply Ha; lia|].
    by rewrite uint32_high_bits by lia.
Qed.

Lemma eq32_rotr a x n :
  0 < n < 32 -> 0 <= x < 2 ^ 32 -> eq32 a x -> eq32 ((a .>>> n) .| (a .<< 32 - n)) (rotr32 x n).
Proof.
  intros Hn Hx Ha. unfold rotr32. rewrite eq32_uint32. rewrite eq32_bits in *. intros i Hi.
  rewrite js_or_bit, js_shl_bit, js_shr_bit, Z.lor_spec, Z.shiftr_spec by lia. f_equal.
  - destruct (Z.ltb_spec (i + n) 32); [apply Ha; lia|].
    by rewrite uint32_high_bits by lia.
  - destruct (Z.ltb_spec i (32 - n)); [by rewrite Z.shiftl_spec_low by lia|].
    rewrite Z.shiftl_spec by lia. apply Ha. lia.
Qed.

Lemma eq32_shr a x n :
  0 <= n < 32 -> 0 <= x < 2 ^ 32 -> eq32 a x -> a .>>> n = Z.shiftr x n.
Proof.
  intros Hn Hx Ha. unfold js_shr. rewrite (Z.mod_small n) by lia. rewrite Ha.
  unfold to_uint32. by rewrite Z.mod_small by lia.
Qed.

Lemma eq32_shl a n : 0 <= n < 32 -> eq32 (a .<< n) (Z.shiftl a n).
Proof.
  intros Hn. rewrite eq32_bits. intros i Hi. rewrite js_shl_bit by lia.
  destruct (Z.ltb_spec i n); [by rewrite Z.shiftl_spec_low by lia|].
  by rewrite Z.shiftl_spec by lia.
Qed.

(** Bytes put together with [|] and shifts are a sum. *)
Lemma lor_shiftl_add x y k :
  0 <= k -> 0 <= x < 2 ^ k -> Z.lor x (Z.shiftl y k) = x + y * 2 ^ k.
Proof.
  intros Hk Hx. rewrite <- Z.shiftl_mul_pow2 by lia.
  assert (Hd : Z.land x (Z.shiftl y k) = 0).
  { apply Z.bits_inj'. intros i Hi. rewrite Z.land_spec, Z.bits_0.
    destruct (Z.ltb_spec i k); [rewrite Z.shiftl_spec_low by lia; apply andb_false_r|].
    rewrite <- (Z.mod_small x (2 ^ k)), Z.mod_pow2_bits_high by lia. done. }
  rewrite Z.add_nocarry_lxor by done.
  apply Z.bits_inj'. intros i Hi. apply (f_equal (fun z => Z.testbit z i)) in Hd.
  rewrite Z.land_spec, Z.bits_0 in Hd. rewrite Z.lor_spec, Z.lxor_spec.
  by destruct (Z.testbit x i), (Z.testbit (Z.shiftl y k) i).
Qed.

(** The word of four bytes, least or most significant first. *)
Definition le32 (b0 b1 b2 b3 : Z) : Z := b0 + b1 * 2 ^ 8 + b2 * 2 ^ 16 + b3 * 2 ^ 24.
Definition be32 (b0 b1 b2 b3 : Z) : Z := le32 b3 b2 b1 b0.

Lemma eq32_le32 b0 b1 b2 b3 :
  0 <= b0 < 256 -> 0 <= b1 < 256 -> 0 <= b2 < 256 -> 0 <= b3 < 256 ->
  eq32 (b0 .| (b1 .<< 8) .| (b2 .<< 16) .| (b3 .<< 24)) (le32 b0 b1 b2 b3).
Proof.
  intros. unfold le32. rewrite !eq32_or, !eq32_shl by lia.
  rewrite (lor_shiftl_add b0), (lor_shiftl_add (b0 + _)), lor_shiftl_add by lia. reflexivity.
Qed.

Lemma eq32_be32 b0 b1 b2 b3 :
  0 <= b0 < 256 -> 0 <= b1 < 256 -> 0 <= b2 < 256 -> 0 <= b3 < 256 ->
  eq32 ((b0 .<< 24) .| (b1 .<< 16) .| (b2 .<< 8) .| b3) (be32 b0 b1 b2 b3).
Proof.
  intros. unfold be32. rewrite <- eq32_le32 by lia. rewrite eq32_bits. intros i Hi.
  rewrite !js_or_bit by lia.
  destruct (Z.testbit b3 i), (Z.testbit (b2 .<< 8) i), (Z.testbit (b1 .<< 16) i),
    (Z.testbit (b0 .<< 24) i); reflexivity.
Qed.

Lemma le32_range b0 b1 b2 b3 :
  0 <= b0 < 256 -> 0 <= b1 < 256 -> 0 <= b2 < 256 -> 0 <= b3 < 256 ->
  0 <= le32 b0 b1 b2 b3 < 2 ^ 32.
Proof. unfold le32. lia. Qed.

(** The bytes of a word. *)
Definition word_byte (x k : Z) : Z := (x / 2 ^ (8 * k)) mod 256.

Lemma word_byte_bits x k i :
  0 <= k -> 0 <= i < 8 -> Z.testbit (word_byte x k) i = Z.testbit x (i + 8 * k).
Proof.
  intros. unfold word_byte. change 256 with (2 ^ 8). rewrite Z.mod_pow2_bits_low by lia.
  by rewrite Z.div_pow2_bits by lia.
Qed.

Lemma shr_byte a x k :
  0 <= k < 4 -> eq32 a x -> (a .>>> 8 * k) .& 255 = word_byte x k.
Proof.
  intros Hk Ha. rewrite js_and_255. apply byte_ext.
  - unfold is_true. pose proof (Z.mod_pos_bound (a .>>> 8 * k) 256 ltac:(lia)). lia.
  - unfold is_true, word_byte. pose proof (Z.mod_pos_bound (x / 2 ^ (8 * k)) 256 ltac:(lia)). lia.
  - intros i Hi. rewrite word_byte_bits by lia. change 256 with (2 ^ 8).
    rewrite Z.mod_pow2_bits_low, js_shr_bit by lia. ztest. cbv iota.
    rewrite eq32_bits in Ha. apply Ha. lia.
Qed.

Lemma sar_byte a x k :
  0 <= k < 4 -> eq32 a x -> (a .>> 8 * k) .& 255 = word_byte x k.
Proof.
  intros Hk Ha. rewrite js_and_255. apply byte_ext.
  - unfold is_true. pose proof (Z.mod_pos_bound (a .>> 8 * k) 256 ltac:(lia)). lia.
  - unfold is_true, word_byte. pose proof (Z.mod_pos_bound (x / 2 ^ (8 * k)) 256 ltac:(lia)). lia.
  - intros i Hi. rewrite word_byte_bits by lia. change 256 with (2 ^ 8).
    rewrite Z.mod_pow2_bits_low, js_sar_bit by lia.
    rewrite eq32_bits in Ha. apply Ha. lia.
Qed.
