(* ===== verification/Number64.v ===== *)
(** * JavaScript numbers

    The numbers of a document and those the pages of the viewer compute with are
    IEEE doubles.  They are the [spec_float]s of the Standard Library with 53 bits
    of mantissa, so that every operation rounds as the language says; here are
    its operators, the functions of [Math] that the code uses, [Number(s)] and
    [parseInt(s, 10)]. *)
From Stdlib Require Import SpecFloat.
From S2P Require Import Prelude.

Abbreviation float := spec_float.
#[global] Instance float_eq : EqDecision spec_float.
Proof. solve_decision. Defined.
Definition fadd : float -> float -> float := SFadd 53 1024.
Definition fsub : float -> float -> float := SFsub 53 1024.
Definition fmul : float -> float -> float := SFmul 53 1024.
Definition fdiv : float -> float -> float := SFdiv 53 1024.
Definition fopp : float -> float := SFopp.
Definition flt : float -> float -> bool := SFltb.
Definition fle : float -> float -> bool := SFleb.
(** [a === b] *)
Definition feq : float -> float -> bool := SFeqb.
(** [n / d] as a literal: exact when [d] is a power of two, rounded otherwise. *)
Definition of_Z (n : Z) : float := binary_normalize 53 1024 n 0 false.
Definition lit (n d : Z) : float := fdiv (of_Z n) (of_Z d).
Definition fzero : float := S754_zero false.
Definition fone : float := of_Z 1.

Definition is_nan (x : float) : bool := match x with S754_nan => true | _ => false end.
(** [Number.isFinite(x)] of a number. *)
Definition isFinite (x : float) : bool :=
  match x with S754_zero _ | S754_finite _ _ _ => true | _ => false end.
(** A number as a condition. *)
Definition truthy_num (x : float) : bool := match x with S754_zero _ | S754_nan => false | _ => true end.

(** ** Math *)

Definition math_abs : float -> float := SFabs.

(** Of the two zeros the positive one is the greater. *)
Definition math_max (a b : float) : float :=
  if is_nan a || is_nan b then S754_nan
  else if flt a b then b
  else if flt b a then a
  else match a with S754_zero true => b | _ => a end.
Definition math_min (a b : float) : float :=
  if is_nan a || is_nan b then S754_nan
  else if flt a b then a
  else if flt b a then b
  else match a with S754_zero false => b | _ => a end.

(** The integer at or below a finite number. *)
Definition floor_Z (s : bool) (m : positive) (e : Z) : Z :=
  let m := if s then - Z.pos m else Z.pos m in
  if 0 <=? e then m * 2 ^ e else m / 2 ^ (- e).
Definition math_floor (x : float) : float :=
  match x with
  | S754_finite s m e => if 0 <=? e then x else of_Z (floor_Z s m e)
  | _ => x
  end.

(** Halves go up; a result of zero keeps the sign. *)
Definition math_round (x : float) : float :=
  match x with
  | S754_finite s m e =>
      if 0 <=? e then x
      else
        let n := (2 * (if s then - Z.pos m else Z.pos m) + 2 ^ (- e)) / 2 ^ (1 - e) in
        if (n =? 0) && s then S754_zero true else of_Z n
  | _ => x
  end.

(** [Math.ceil], [Math.trunc] and [Math.sqrt]. *)
Definition math_ceil (x : float) : float := fopp (math_floor (fopp x)).
Definition math_trunc (x : float) : float :=
  match x with
  | S754_finite true _ _ => math_ceil x
  | _ => math_floor x
  end.
Definition math_sqrt : float -> float := SFsqrt 53 1024.

(** A finite number without its fraction, and [x | 0]. *)
Definition trunc_Z (s : bool) (m : positive) (e : Z) : Z :=
  let n := if 0 <=? e then Z.pos m * 2 ^ e else Z.pos m / 2 ^ (- e) in
  if s then - n else n.
Definition float_int (x : float) : Z :=
  match x with
  | S754_finite s m e => to_int32 (trunc_Z s m e)
  | _ => 0
  end.
(** [Number.isInteger(x)] of a number. *)
Definition isInteger (x : float) : bool :=
  match x with
  | S754_zero _ => true
  | S754_finite _ m e => (0 <=? e) || (Z.pos m mod 2 ^ (- e) =? 0)
  | _ => false
  end.

(** [x % y]: the sign is that of [x], the result is exact. *)
Definition fmod (x y : float) : float :=
  match x, y with
  | S754_nan, _ | _, S754_nan | S754_infinity _, _ | _, S754_zero _ => S754_nan
  | _, S754_infinity _ | S754_zero _, _ => x
  | S754_finite s m e, S754_finite _ m' e' =>
      let low := Z.min e e' in
      match (Z.pos m * 2 ^ (e - low)) mod (Z.pos m' * 2 ^ (e' - low)) with
      | Z.pos r => binary_round 53 1024 s r low
      | _ => S754_zero s
      end
  end.

(** ** Numbers in text *)

(** White space and line terminators of the language. *)
Definition is_space (c : Z) : bool :=
  bool_decide (c ∈ [0x09; 0x0a; 0x0b; 0x0c; 0x0d; 0x20; 0xa0; 0x1680; 0x2028; 0x2029; 0x202f; 0x205f; 0x3000; 0xfeff])
  || (0x2000 <=? c) && (c <=? 0x200a).

Fixpoint trim_left (s : jstr) : jstr :=
  match s with
  | c :: s' => if is_space c then trim_left s' else s
  | [] => []
  end.
(** [s.trim()] *)
Definition trim (s : jstr) : jstr := rev (trim_left (rev (trim_left s))).

(** [(-1)^neg * n * 10^k] rounded to the nearest double. *)
Definition of_decimal (neg : bool) (n k : Z) : float :=
  if n =? 0 then S754_zero neg
  else if 0 <=? k then binary_round 53 1024 neg (Z.to_pos (n * 10 ^ k)) 0
  else
    let '(q, e, l) := SFdiv_core_binary 53 1024 n 0 (10 ^ (- k)) 0 in
    binary_round_aux 53 1024 neg q e l.

(** The exponent part that ends a literal, [None] when something else is there. *)
Definition exponent_part (s : jstr) : option Z :=
  match s with
  | [] => Some 0
  | c :: s =>
      if (c =? 0x65) || (c =? 0x45) then
        let '(sign, s) :=
          match s with
          | 0x2d :: s => (-1, s)
          | 0x2b :: s => (1, s)
          | _ => (1, s)
          end in
        match span_digits s with
        | ((_ :: _) as d, []) => Some (sign * parse_dec d)
        | _ => None
        end
      else None
  end.

(** [StrUnsignedDecimalLiteral] *)
Definition decimal_literal (neg : bool) (s : jstr) : float :=
  if bool_decide (s = js "Infinity") then S754_infinity neg
  else
    let '(whole, rest) := span_digits s in
    let '(fraction, rest) :=
      match rest with
      | 0x2e :: rest => span_digits rest
      | _ => ([], rest)
      end in
    match whole ++ fraction, exponent_part rest with
    | [], _ | _, None => S754_nan
    | digits, Some e => of_decimal neg (parse_dec digits) (e - len fraction)
    end.

Definition digit_value (c : Z) : Z :=
  if is_digit c then c - 0x30
  else if (0x61 <=? c) && (c <=? 0x7a) then c - 0x57
  else if (0x41 <=? c) && (c <=? 0x5a) then c - 0x37
  else 36.
Definition radix_literal (radix : Z) (s : jstr) : float :=
  match s with
  | [] => S754_nan
  | _ =>
      if forallb (fun c => digit_value c <? radix) s
      then of_Z (fold_left (fun v c => v * radix + digit_value c) s 0)
      else S754_nan
  end.

(** [Number(s)] *)
Definition string_to_number (s : jstr) : float :=
  match trim s with
  | [] => S754_zero false
  | 0x2d :: s => decimal_literal true s
  | 0x2b :: s => decimal_literal false s
  | 0x30 :: c :: s =>
      if (c =? 0x78) || (c =? 0x58) then radix_literal 16 s
      else if (c =? 0x6f) || (c =? 0x4f) then radix_literal 8 s
      else if (c =? 0x62) || (c =? 0x42) then radix_literal 2 s
      else decimal_literal false (0x30 :: c :: s)
  | s => decimal_literal false s
  end.

(** [Number.parseInt(s, 10)] *)
Definition parse_int (s : jstr) : float :=
  let '(neg, s) :=
    match trim_left s with
    | 0x2d :: s => (true, s)
    | 0x2b :: s => (false, s)
    | s => (false, s)
    end in
  match span_digits s with
  | ([], _) => S754_nan
  | (d, _) => of_decimal neg (parse_dec d) 0
  end.

Example numbers_sample :
  string_to_number (js " -12.5e1") = of_Z (-125) /\ string_to_number (js "0x1F") = of_Z 31 /\
  string_to_number (js ".1") = lit 1 10 /\ string_to_number (js "1e400") = S754_infinity false /\
  string_to_number (js "12a") = S754_nan /\ string_to_number [] = S754_zero false /\
  parse_int (js " 12a") = of_Z 12 /\ math_floor (lit (-5) 2) = of_Z (-3) /\ math_round (lit 5 2) = of_Z 3 /\
  math_round (lit (-5) 2) = of_Z (-2) /\ math_round (lit (-1) 4) = S754_zero true /\
  math_ceil (lit (-1) 2) = S754_zero true /\ math_trunc (lit (-7) 2) = of_Z (-3) /\ fmod (lit (-15) 2) (of_Z 2) = lit (-3) 2 /\
  float_int (of_Z (2 ^ 32 + 5)) = 5 /\ float_int (lit (-5) 2) = -2 /\ math_sqrt (of_Z 49) = of_Z 7.
Proof. vm_compute. done. Qed.

(** ** Comparisons *)

Lemma fle_refl x : is_nan x = false -> fle x x = true.
Proof.
  unfold fle, SFleb. destruct x as [|[]| |[] m e]; try done; cbn; intros _; rewrite Z.compare_refl;
    pose proof (Pos.compare_refl m) as E; unfold Pos.compare in E; by rewrite E.
Qed.

Lemma flt_fle x y : flt x y = true -> fle x y = true.
Proof. unfold flt, SFltb, fle, SFleb. by destruct (SFcompare x y) as [[]|]. Qed.

Lemma SFcompare_antisym x y : SFcompare y x = option_map CompOpp (SFcompare x y).
Proof.
  destruct x as [sx|sx| |sx mx ex], y as [sy|sy| |sy my ey]; cbn; try done; try (by destruct sx); try (by destruct sy);
    try (by destruct sx, sy).
  destruct sx, sy; try done; rewrite (Z.compare_antisym ex ey); destruct (ex ?= ey); cbn; try done;
    change (Pos.compare_cont Eq ?a ?b) with (Pos.compare a b); rewrite (Pos.compare_antisym mx my);
    by destruct (Pos.compare mx my).
Qed.

Lemma SFcompare_number x y : is_nan x = false -> is_nan y = false -> exists c, SFcompare x y = Some c.
Proof. destruct x as [[]|[]| |[] ? ?], y as [[]|[]| |[] ? ?]; try done; eauto. Qed.

(** Of two numbers one is at most the other or greater. *)
Lemma fle_not_flt x y : is_nan x = false -> is_nan y = false -> fle x y = negb (flt y x).
Proof.
  intros Hx Hy. unfold fle, flt, SFleb, SFltb. rewrite (SFcompare_antisym x y).
  destruct (SFcompare_number x y Hx Hy) as [c ->]. by destruct c.
Qed.

Lemma not_flt_fle x y : is_nan x = false -> is_nan y = false -> flt y x = false -> fle x y = true.
Proof. intros Hx Hy E. by rewrite fle_not_flt, E. Qed.

(** A number between two bounds, cut off at them. *)
Lemma clamp_bounds lo hi x : is_nan lo = false -> is_nan hi = false -> is_nan x = false -> flt lo hi = true ->
  flt hi lo = false ->
  let y := math_min hi (math_max lo x) in fle lo y = true /\ fle y hi = true.
Proof.
  intros Hlo Hhi Hx Hlt Hgt y.
  assert (Hm : math_max lo x = lo \/ math_max lo x = x /\ fle lo x = true).
  { unfold math_max. rewrite Hlo, Hx. cbn [orb]. destruct (flt lo x) eqn:E; [right; split; [done|by apply flt_fle]|].
    destruct (flt x lo) eqn:E'; [by left|].
    assert (fle lo x = true) by (by apply not_flt_fle).
    destruct lo as [[]|[]| |]; first [discriminate|by left|by right]. }
  assert (Hy : y = math_max lo x /\ fle (math_max lo x) hi = true \/ y = hi).
  { unfold y, math_min. assert (Hnan : is_nan (math_max lo x) = false) by (by destruct Hm as [->|[-> _]]).
    rewrite Hhi, Hnan. cbn [orb]. destruct (flt hi (math_max lo x)) eqn:E; [by right|].
    destruct (flt (math_max lo x) hi) eqn:E'; [left; split; [done|by apply flt_fle]|].
    assert (fle (math_max lo x) hi = true) by (by apply not_flt_fle).
    destruct hi as [[]|[]| |]; first [discriminate|by left|by right]. }
  destruct Hy as [[-> Hle] | ->].
  - split; [|done]. by destruct Hm as [->|[-> Hx2]]; [apply fle_refl|].
  - split; [by apply flt_fle|by apply fle_refl].
Qed.
