(* ===== verification/FloatLaws.v ===== *)
(** * Laws of floating-point numbers

    The identities of doubles that the simplifications of calculator functions
    rest on.  They hold up to the sign of zero: [x ≈ y] is equality of numbers
    that takes the two zeros for one, and the operations respect it.  Then the
    operations that are exact on integers below 2^53, and how a quotient of two
    of them is rounded, which the numbers of a document rest on. *)
From Stdlib Require Import SpecFloat.
From S2P Require Import Prelude Number64.

(** ** Numbers up to the sign of zero *)

Definition fequiv (x y : float) : Prop :=
  match x, y with
  | S754_zero _, S754_zero _ => True
  | _, _ => x = y
  end.
Infix "≈" := fequiv (at level 70) : js_scope.
Local Open Scope js_scope.

#[global] Instance fequiv_equivalence : Equivalence fequiv.
Proof.
  split.
  - intros []; done.
  - intros x y H. unfold fequiv in *. destruct x, y; first [done|by symmetry].
  - intros x y z. unfold fequiv. destruct x, y; try done; destruct z; try done; congruence.
Qed.

Lemma fequiv_cases x y : x ≈ y -> x = y \/ exists s t, x = S754_zero s /\ y = S754_zero t.
Proof. unfold fequiv. destruct x, y; try (by left); right; by eexists _, _. Qed.

(** Case analysis on numbers that are equal up to the sign of zero. *)
Ltac fcases H := apply fequiv_cases in H as [-> | (? & ? & -> & ->)].

(** An operation on numbers that are equal up to the sign of zero, by cases. *)
Ltac fproper :=
  repeat match goal with |- Proper _ _ => intros ? ? ? | |- (_ ==> _)%signature _ _ => intros ? ? ? end;
  repeat match goal with H : _ ≈ _ |- _ => fcases H end; try reflexivity;
  repeat match goal with x : float |- _ => destruct x as [[]|[]| |[] ? ?] end; try reflexivity;
  repeat match goal with b : bool |- _ => destruct b end; try reflexivity; try done.

#[global] Instance fadd_proper : Proper (fequiv ==> fequiv ==> fequiv) fadd.
Proof. fproper. Qed.
#[global] Instance fsub_proper : Proper (fequiv ==> fequiv ==> fequiv) fsub.
Proof. fproper. Qed.
#[global] Instance fmul_proper : Proper (fequiv ==> fequiv ==> fequiv) fmul.
Proof. fproper. Qed.
#[global] Instance fopp_proper : Proper (fequiv ==> fequiv) fopp.
Proof. fproper. Qed.
#[global] Instance math_abs_proper : Proper (fequiv ==> fequiv) math_abs.
Proof. fproper. Qed.
#[global] Instance math_floor_proper : Proper (fequiv ==> fequiv) math_floor.
Proof. fproper. Qed.
#[global] Instance math_ceil_proper : Proper (fequiv ==> fequiv) math_ceil.
Proof. fproper. Qed.
#[global] Instance math_trunc_proper : Proper (fequiv ==> fequiv) math_trunc.
Proof. fproper. Qed.
#[global] Instance math_sqrt_proper : Proper (fequiv ==> fequiv) math_sqrt.
Proof. fproper. Qed.
#[global] Instance flt_proper : Proper (fequiv ==> fequiv ==> eq) flt.
Proof. fproper. Qed.
#[global] Instance fle_proper : Proper (fequiv ==> fequiv ==> eq) fle.
Proof. fproper. Qed.
#[global] Instance feq_proper : Proper (fequiv ==> fequiv ==> eq) feq.
Proof. fproper. Qed.
#[global] Instance math_max_proper : Proper (fequiv ==> fequiv ==> fequiv) math_max.
Proof. fproper. Qed.
#[global] Instance math_min_proper : Proper (fequiv ==> fequiv ==> fequiv) math_min.
Proof. fproper. Qed.

(** ** Doubles *)

(** A finite number with the mantissa and the exponent of a double. *)
Definition is_double (x : float) : bool := isFinite x && valid_binary 53 1024 x.

Lemma is_double_finite x : is_double x = true -> isFinite x = true.
Proof. unfold is_double. intros H. by apply andb_true_iff in H as [? _]. Qed.
Lemma is_double_not_nan x : is_double x = true -> is_nan x = false.
Proof. by destruct x. Qed.
#[global] Instance is_double_proper : Proper (fequiv ==> eq) is_double.
Proof. fproper. Qed.
Lemma is_double_fopp x : is_double (fopp x) = is_double x.
Proof. by destruct x. Qed.
Lemma is_double_abs x : is_double (math_abs x) = is_double x.
Proof. by destruct x. Qed.

(** ** Rounding what is exact *)

Lemma iter_pos_nat {A} (f : A -> A) p x : SpecFloat.iter_pos f p x = Nat.iter (Pos.to_nat p) f x.
Proof.
  revert x. induction p as [p IH|p IH|]; intros x; cbn [SpecFloat.iter_pos].
  - rewrite !IH, Pos2Nat.inj_xI, Nat.iter_succ_r. replace (2 * Pos.to_nat p)%nat with (Pos.to_nat p + Pos.to_nat p)%nat by lia.
    by rewrite Nat.iter_add.
  - rewrite !IH, Pos2Nat.inj_xO, <- Nat.iter_add. f_equal. lia.
  - done.
Qed.

(** [m] with [k] zeros behind it. *)
Definition zeros_behind (k : nat) (m : positive) : positive := Nat.iter k xO m.

Lemma digits_zeros k m : Z.pos (digits2_pos (zeros_behind k m)) = Z.pos (digits2_pos m) + Z.of_nat k.
Proof.
  unfold zeros_behind. induction k as [|k IH]; cbn [Nat.iter nat_rect]; [lia|]. change (nat_rect _ m (fun _ => xO) k) with (Nat.iter k xO m).
  cbn [digits2_pos]. lia.
Qed.

Lemma shr_zeros k m : Nat.iter k shr_1 (Build_shr_record (Z.pos (zeros_behind k m)) false false) = Build_shr_record (Z.pos m) false false.
Proof. unfold zeros_behind. induction k as [|k IH]; [done|]. rewrite Nat.iter_succ_r. exact IH. Qed.

Lemma shr_nat mrs e n : 0 <= n -> shr mrs e n = (Nat.iter (Z.to_nat n) shr_1 mrs, e + n).
Proof. intros Hn. unfold shr. destruct n as [|p|p]; [by rewrite Z.add_0_r| |lia]. by rewrite iter_pos_nat. Qed.

Lemma bounded_fexp m e : bounded 53 1024 m e = true -> fexp 53 1024 (Z.pos (digits2_pos m) + e) = e /\ e <= 1024 - 53.
Proof. unfold bounded, canonical_mantissa. intros H. apply andb_true_iff in H as [H1 H2]. lia. Qed.

Lemma round_exact s m e k : bounded 53 1024 m e = true ->
  binary_round_aux 53 1024 s (Z.pos (zeros_behind k m)) (e - Z.of_nat k) loc_Exact = S754_finite s m e.
Proof.
  intros Hb. apply bounded_fexp in Hb as [He Hmax]. unfold binary_round_aux, shr_fexp. cbn [Zdigits2 shr_record_of_loc].
  rewrite digits_zeros. replace (_ + _ + _) with (Z.pos (digits2_pos m) + e) by lia. rewrite He.
  rewrite shr_nat by lia. replace (Z.to_nat _) with k by lia. rewrite shr_zeros. cbn [loc_of_shr_record round_nearest_even shr_m Zdigits2].
  replace (e - Z.of_nat k + (e - (e - Z.of_nat k))) with e by lia. rewrite He, Z.sub_diag. cbn [shr shr_record_of_loc shr_m].
  by rewrite (proj2 (Z.leb_le _ _)).
Qed.

Lemma fone_eq : of_Z 1 = S754_finite false (zeros_behind 52 1) (-52).
Proof. by vm_compute. Qed.

(** ** Laws *)

Lemma fmul_one_r x : is_double x = true -> fmul x (of_Z 1) = x.
Proof.
  intros Hx. rewrite fone_eq. destruct x as [[]|[]| |s m e]; try done. unfold fmul, SFmul. rewrite xorb_false_r.
  replace (m * zeros_behind 52 1)%positive with (zeros_behind 52 m) by (rewrite Pos.mul_comm; by cbn).
  apply (round_exact s m e 52). exact Hx.
Qed.

Lemma binary_round_aux_sign s m e l : binary_round_aux 53 1024 (negb s) m e l = fopp (binary_round_aux 53 1024 s m e l).
Proof.
  unfold binary_round_aux. destruct (shr_fexp _ _ _ _ _) as [r e1]. destruct (shr_fexp _ _ _ _ _) as [r' e2].
  destruct (shr_m r'); try done. by destruct (_ <=? _).
Qed.

Lemma fmul_fopp_r x y : fmul x (fopp y) = fopp (fmul x y).
Proof.
  destruct x as [sx|sx| |sx mx ex], y as [sy|sy| |sy my ey]; try done; cbn; rewrite ?xorb_negb_r; cbn; try by destruct sx, sy.
  rewrite <- negb_xorb_r. apply binary_round_aux_sign.
Qed.

Lemma fmul_comm x y : fmul x y = fmul y x.
Proof.
  destruct x as [sx|sx| |sx mx ex], y as [sy|sy| |sy my ey]; try done; cbn; rewrite ?(xorb_comm sx sy); try done.
  by rewrite Pos.mul_comm, Z.add_comm.
Qed.

Lemma fopp_involutive x : fopp (fopp x) = x.
Proof. destruct x; cbn; by rewrite ?negb_involutive. Qed.

Lemma fmul_minus_one_r x : is_double x = true -> fmul x (of_Z (-1)) = fopp x.
Proof. intros Hx. change (of_Z (-1)) with (fopp (of_Z 1)). by rewrite fmul_fopp_r, fmul_one_r. Qed.

Lemma fmul_zero_r x s : isFinite x = true -> fmul x (S754_zero s) ≈ S754_zero false.
Proof. by destruct x. Qed.

Lemma fadd_zero_r x s : fadd x (S754_zero s) ≈ x.
Proof. destruct x as [[]|[]| |]; destruct s; done. Qed.
Lemma fadd_zero_l x s : fadd (S754_zero s) x ≈ x.
Proof. destruct x as [[]|[]| |]; destruct s; done. Qed.
Lemma fsub_zero_r x s : fsub x (S754_zero s) ≈ x.
Proof. destruct x as [[]|[]| |]; destruct s; done. Qed.
Lemma fsub_zero_l x s : fsub (S754_zero s) x ≈ fopp x.
Proof. destruct x as [[]|[]| |]; destruct s; done. Qed.

Lemma fsub_diag x : isFinite x = true -> fsub x x ≈ S754_zero false.
Proof. destruct x as [[]|[]| |s m e]; try done. intros _. unfold fsub, SFsub. by rewrite Z.sub_diag. Qed.

Lemma binary_normalize_opp n e s : binary_normalize 53 1024 (- n) e s ≈ fopp (binary_normalize 53 1024 n e s).
Proof.
  destruct n as [|p|p]; [done| |].
  - change (binary_round 53 1024 true p e ≈ fopp (binary_round 53 1024 false p e)). unfold binary_round.
    destruct (shl_align _ _ _) as [m e']. by rewrite <- (binary_round_aux_sign false).
  - change (binary_round 53 1024 false p e ≈ fopp (binary_round 53 1024 true p e)). unfold binary_round.
    destruct (shl_align _ _ _) as [m e']. by rewrite <- (binary_round_aux_sign true).
Qed.

Lemma fsub_opp x y : fsub y x ≈ fopp (fsub x y).
Proof.
  destruct x as [[]|[]| |sx mx ex], y as [[]|[]| |sy my ey]; try done; cbn; rewrite ?negb_involutive; try done.
  rewrite Z.min_comm. unfold fsub, SFsub.
  match goal with |- binary_normalize _ _ ?n _ _ ≈ fopp (binary_normalize _ _ ?k _ _) => replace n with (- k) by lia end.
  apply binary_normalize_opp.
Qed.

Lemma math_abs_fopp x : math_abs (fopp x) = math_abs x.
Proof. by destruct x. Qed.
Lemma math_abs_idem x : math_abs (math_abs x) = math_abs x.
Proof. by destruct x. Qed.

(** ** Whole numbers *)

Lemma shl_align_zeros m d : shl_align m 0 (- Z.of_nat d) = (zeros_behind d m, - Z.of_nat d).
Proof.
  unfold shl_align. rewrite Z.sub_0_r. destruct d as [|d]; [done|]. cbn [Z.of_nat Z.opp]. f_equal. unfold zeros_behind.
  by rewrite Pos2Nat.inj_iter, SuccNat2Pos.id_succ.
Qed.

Lemma zeros_behind_value k m : Z.pos (zeros_behind k m) = Z.pos m * 2 ^ Z.of_nat k.
Proof.
  unfold zeros_behind. induction k as [|k IH]; [cbn; lia|]. rewrite Nat.iter_succ, Pos2Z.inj_xO, IH, Nat2Z.inj_succ, Z.pow_succ_r by lia. lia.
Qed.

Lemma shr_exponent mrs e n : e <= (shr mrs e n).2.
Proof. unfold shr. destruct n; cbn; lia. Qed.

(** Rounding never lowers the exponent. *)
Lemma round_exponent s m e l s' m' e' : binary_round_aux 53 1024 s m e l = S754_finite s' m' e' -> s' = s /\ e <= e'.
Proof.
  unfold binary_round_aux. unfold shr_fexp at 1. pose proof (shr_exponent (shr_record_of_loc m l) e (fexp 53 1024 (Zdigits2 m + e) - e)) as H1.
  destruct (shr _ _ _) as [r e1]. unfold shr_fexp. cbn in H1.
  match goal with |- context [shr ?a ?b ?c] => pose proof (shr_exponent a b c) as H2; destruct (shr a b c) as [r' e2] end. cbn in H2.
  destruct (shr_m r'); try done. destruct (_ <=? _); [|done]. intros [= <- <- <-]. split; [done|lia].
Qed.

(** A whole number is kept as it is, or its exponent is not negative. *)
Lemma of_pos_exact s n s' m e : binary_round 53 1024 s n 0 = S754_finite s' m e -> e < 0 ->
  s' = s /\ Z.pos m = Z.pos n * 2 ^ (- e).
Proof.
  unfold binary_round. rewrite Z.add_0_r. set (d := Z.pos (digits2_pos n)). intros E He.
  assert (Hd : d <= 52 \/ 53 <= d) by lia. assert (Hd0 : 0 < d) by (unfold d; lia).
  assert (Hf : fexp 53 1024 d = d - 53) by (unfold fexp, emin; lia).
  destruct Hd as [Hd|Hd].
  - rewrite Hf in E. replace (d - 53) with (- Z.of_nat (Z.to_nat (53 - d))) in E by lia. rewrite shl_align_zeros in E.
    pose proof (round_exact s (zeros_behind (Z.to_nat (53 - d)) n) (d - 53) 0) as R.
    replace (- Z.of_nat (Z.to_nat (53 - d))) with (d - 53 - Z.of_nat 0) in E by lia. cbn [zeros_behind Nat.iter nat_rect] in R.
    rewrite R in E.
    + injection E as <- <- <-. split; [done|]. rewrite zeros_behind_value. do 2 f_equal. lia.
    + unfold bounded, canonical_mantissa. rewrite digits_zeros. fold d. replace (d + _ + _) with d by lia. rewrite Hf. lia.
  - assert (Hs : shl_align n 0 (fexp 53 1024 d) = (n, 0)).
    { unfold shl_align. rewrite Hf, Z.sub_0_r. destruct (d - 53) eqn:Ed; [done|done|lia]. }
    rewrite Hs in E. apply round_exponent in E as [_ E]. lia.
Qed.

Lemma math_floor_idem x : math_floor (math_floor x) = math_floor x.
Proof.
  destruct x as [?|?| |s m e]; try done. cbn [math_floor]. destruct (0 <=? e) eqn:He; [cbn; by rewrite He|].
  generalize (floor_Z s m e) as n. clear. intros n. unfold of_Z. destruct n as [|p|p]; cbn [binary_normalize]; [done| |].
  all: destruct (binary_round _ _ _ _ _) as [?|?| |s m e] eqn:E; try done; cbn [math_floor]; destruct (0 <=? e) eqn:He; [done|].
  all: apply of_pos_exact in E as E'; [|lia]; destruct E' as [-> Em]; unfold floor_Z; rewrite He, Em.
  - rewrite Z.div_mul by (apply Z.pow_nonzero; lia). exact E.
  - rewrite <- Z.mul_opp_l, Z.div_mul by (apply Z.pow_nonzero; lia). exact E.
Qed.

Lemma math_ceil_idem x : math_ceil (math_ceil x) = math_ceil x.
Proof. unfold math_ceil. by rewrite fopp_involutive, math_floor_idem. Qed.

(** The whole number above a negative one is negative, or zero. *)
Lemma math_ceil_negative m e : math_trunc (math_ceil (S754_finite true m e)) = math_ceil (S754_finite true m e).
Proof.
  destruct (math_ceil (S754_finite true m e)) as [?|?| |[] m' e'] eqn:E; try done.
  - change (math_ceil (S754_finite true m' e') = S754_finite true m' e'). rewrite <- E. apply math_ceil_idem.
  - exfalso. unfold math_ceil in E. cbn [fopp SFopp negb math_floor] in E. destruct (0 <=? e) eqn:He; [done|].
    assert (Hn : 0 <= floor_Z false m e) by (unfold floor_Z; rewrite He; apply Z.div_pos; [lia|apply Z.pow_pos_nonneg; lia]).
    destruct (floor_Z false m e) as [|p|p]; [done| |lia]. unfold of_Z in E. cbn [binary_normalize] in E. unfold binary_round in E.
    destruct (shl_align _ _ _) as [m0 e0]. destruct (binary_round_aux _ _ _ _ _ _) eqn:R; try done.
    apply round_exponent in R as [-> _]. done.
Qed.

Lemma math_trunc_idem x : math_trunc (math_trunc x) = math_trunc x.
Proof.
  destruct x as [?|?| |[] m e]; try done; [apply math_ceil_negative|]. change (math_trunc (S754_finite false m e)) with (math_floor (S754_finite false m e)).
  destruct (math_floor (S754_finite false m e)) as [?|?| |[] m' e'] eqn:E; try done.
  - exfalso. cbn [math_floor] in E. destruct (0 <=? e) eqn:He; [done|].
    assert (Hn : 0 <= floor_Z false m e) by (unfold floor_Z; rewrite He; apply Z.div_pos; [lia|apply Z.pow_pos_nonneg; lia]).
    destruct (floor_Z false m e) as [|p|p]; [done| |lia]. unfold of_Z in E. cbn [binary_normalize] in E. unfold binary_round in E.
    destruct (shl_align _ _ _) as [m0 e0]. apply round_exponent in E as [Hs _]. discriminate Hs.
  - change (math_trunc (S754_finite false m' e')) with (math_floor (S754_finite false m' e')). rewrite <- E. by rewrite math_floor_idem.
Qed.

(** ** Order *)

Lemma SFcompare_refl x : is_nan x = false -> SFcompare x x = Some Eq.
Proof.
  destruct x as [[]|[]| |[] m e]; try done; cbn; intros _; rewrite Z.compare_refl;
    pose proof (Pos.compare_refl m) as E; unfold Pos.compare in E; by rewrite E.
Qed.

Lemma feq_refl x : is_nan x = false -> feq x x = true.
Proof. intros H. unfold feq, SFeqb. by rewrite SFcompare_refl. Qed.
Lemma flt_irrefl x : flt x x = false.
Proof. destruct (is_nan x) eqn:E; [by destruct x|]. unfold flt, SFltb. by rewrite SFcompare_refl. Qed.

Lemma math_min_diag x : math_min x x = x.
Proof. unfold math_min. rewrite flt_irrefl. by destruct x as [[]|[]| |[] m e]. Qed.
Lemma math_max_diag x : math_max x x = x.
Proof. unfold math_max. rewrite flt_irrefl. by destruct x as [[]|[]| |[] m e]. Qed.

(** Numbers that are at most each other are equal up to the sign of zero. *)
Lemma fle_antisym x y : fle x y = true -> fle y x = true -> x ≈ y.
Proof.
  unfold fle, SFleb. rewrite (SFcompare_antisym x y). destruct (SFcompare x y) as [[]|] eqn:E; try done. intros _ _.
  destruct x as [sx|sx| |sx mx ex], y as [sy|sy| |sy my ey]; try done; cbn in E; try (by destruct sx); try (by destruct sy);
    try (by destruct sx, sy).
  destruct sx, sy; try done; destruct (ex ?= ey) eqn:Ee; try done; apply Z.compare_eq in Ee as ->;
    change (Pos.compare_cont Eq mx my) with (mx ?= my)%positive in E; destruct (mx ?= my)%positive eqn:Em; try done;
    by apply Pos.compare_eq in Em as ->.
Qed.

Lemma math_min_le x y : is_nan x = false -> is_nan y = false -> fle x y = true -> math_min x y ≈ x.
Proof.
  intros Hx Hy Hle. unfold math_min. rewrite Hx, Hy. cbn [orb]. destruct (flt x y) eqn:E; [done|].
  rewrite fle_not_flt in Hle by done. apply negb_true_iff in Hle. rewrite Hle.
  apply not_flt_fle in E; [|done|done]. apply not_flt_fle in Hle; [|done|done]. pose proof (fle_antisym _ _ Hle E) as H.
  destruct x as [[]|?| |]; done || by symmetry.
Qed.
Lemma math_min_ge x y : is_nan x = false -> is_nan y = false -> fle y x = true -> math_min x y ≈ y.
Proof.
  intros Hx Hy Hle. unfold math_min. rewrite Hx, Hy. cbn [orb]. rewrite fle_not_flt in Hle by done. apply negb_true_iff in Hle. rewrite Hle.
  destruct (flt y x) eqn:E; [done|]. apply not_flt_fle in E; [|done|done]. apply not_flt_fle in Hle; [|done|done].
  pose proof (fle_antisym _ _ Hle E) as H. destruct x as [[]|?| |]; done || by symmetry.
Qed.
Lemma math_max_le x y : is_nan x = false -> is_nan y = false -> fle x y = true -> math_max x y ≈ y.
Proof.
  intros Hx Hy Hle. unfold math_max. rewrite Hx, Hy. cbn [orb]. destruct (flt x y) eqn:E; [done|].
  rewrite fle_not_flt in Hle by done. apply negb_true_iff in Hle. rewrite Hle.
  apply not_flt_fle in E; [|done|done]. apply not_flt_fle in Hle; [|done|done]. pose proof (fle_antisym _ _ Hle E) as H.
  destruct x as [[]|?| |]; done || by symmetry.
Qed.
Lemma math_max_ge x y : is_nan x = false -> is_nan y = false -> fle y x = true -> math_max x y ≈ x.
Proof.
  intros Hx Hy Hle. unfold math_max. rewrite Hx, Hy. cbn [orb]. rewrite fle_not_flt in Hle by done. apply negb_true_iff in Hle. rewrite Hle.
  destruct (flt y x) eqn:E; [done|]. apply not_flt_fle in E; [|done|done]. apply not_flt_fle in Hle; [|done|done].
  pose proof (fle_antisym _ _ Hle E) as H. destruct x as [[]|?| |]; done || by symmetry.
Qed.

Lemma fle_trans x y z : fle x y = true -> fle y z = true -> fle x z = true.
Proof.
  unfold fle, SFleb. destruct x as [sx|sx| |sx mx ex], y as [sy|sy| |sy my ey], z as [sz|sz| |sz mz ez]; try done;
    try destruct sx; try destruct sy; try destruct sz; try done; cbn;
    repeat match goal with |- context [Pos.compare_cont Eq ?a ?b] => change (Pos.compare_cont Eq a b) with (Pos.compare a b) end;
    destruct (Z.compare_spec ex ey), (Z.compare_spec ey ez), (Z.compare_spec ex ez); try done; try lia;
    destruct (Pos.compare_spec mx my), (Pos.compare_spec my mz), (Pos.compare_spec mx mz); cbn; try done; lia.
Qed.

(** A number that was raised to at least [b] and is cut off at [b]. *)
Lemma min_of_max y c b : is_nan y = false -> is_nan c = false -> is_nan b = false -> fle b c = true -> math_min (math_max y c) b ≈ b.
Proof.
  intros Hy Hc Hb Hle. destruct (flt y c) eqn:E.
  - apply flt_fle in E. rewrite (math_max_le y c Hy Hc E). by apply math_min_ge.
  - apply not_flt_fle in E; [|done|done]. rewrite (math_max_ge y c Hy Hc E). apply math_min_ge; [done|done|]. by eapply fle_trans.
Qed.
Lemma max_of_min y c b : is_nan y = false -> is_nan c = false -> is_nan b = false -> fle c b = true -> math_max (math_min y c) b ≈ b.
Proof.
  intros Hy Hc Hb Hle. destruct (flt c y) eqn:E.
  - apply flt_fle in E. rewrite (math_min_ge y c Hy Hc E). by apply math_max_le.
  - apply not_flt_fle in E; [|done|done]. rewrite (math_min_le y c Hy Hc E). apply math_max_le; [done|done|]. by eapply fle_trans.
Qed.

(** ** Integers of 32 bits *)

Lemma digits_bound p k : 0 <= k -> Z.pos p < 2 ^ k -> Z.pos (digits2_pos p) <= k.
Proof.
  revert k. induction p as [p IH|p IH|]; intros k Hk Hp; cbn [digits2_pos]; rewrite ?Pos2Z.inj_succ.
  - destruct (Z.eq_dec k 0) as [->|]; [cbn in Hp; lia|]. replace k with (Z.succ (k - 1)) in * by lia. rewrite Z.pow_succ_r in Hp by lia.
    specialize (IH (k - 1) ltac:(lia) ltac:(lia)). lia.
  - destruct (Z.eq_dec k 0) as [->|]; [cbn in Hp; lia|]. replace k with (Z.succ (k - 1)) in * by lia. rewrite Z.pow_succ_r in Hp by lia.
    specialize (IH (k - 1) ltac:(lia) ltac:(lia)). lia.
  - destruct (Z.eq_dec k 0) as [->|]; [cbn in Hp; lia|]. lia.
Qed.

(** A small integer is the double with as many zeros behind it as fit. *)
Lemma round_small s n : let d := Z.pos (digits2_pos n) in d <= 53 ->
  let m := zeros_behind (Z.to_nat (53 - d)) n in
  binary_round 53 1024 s n 0 = S754_finite s m (d - 53) /\ bounded 53 1024 m (d - 53) = true.
Proof.
  intros d Hd m. assert (Hd0 : 0 < d) by (unfold d; lia).
  assert (Hf : fexp 53 1024 d = d - 53) by (unfold fexp, emin; lia).
  assert (Hb : bounded 53 1024 m (d - 53) = true).
  { unfold bounded, canonical_mantissa, m. rewrite digits_zeros. fold d. replace (d + _ + _) with d by lia. rewrite Hf. lia. }
  split; [|done]. unfold binary_round. rewrite Z.add_0_r. fold d. rewrite Hf.
  replace (d - 53) with (- Z.of_nat (Z.to_nat (53 - d))) by lia. rewrite shl_align_zeros.
  replace (- Z.of_nat (Z.to_nat (53 - d))) with (d - 53 - Z.of_nat 0) by lia.
  pose proof (round_exact s m (d - 53) 0 Hb) as R. cbn [zeros_behind Nat.iter nat_rect] in R. fold m. rewrite R. f_equal. lia.
Qed.

Lemma is_double_of_Z z : - 2 ^ 53 < z < 2 ^ 53 -> is_double (of_Z z) = true.
Proof.
  intros Hz. destruct z as [|p|p]; [done| |]; cbn [of_Z binary_normalize].
  all: destruct (round_small false p) as [_ _]; [apply digits_bound; lia|].
  - change (is_double (binary_round 53 1024 false p 0) = true). destruct (round_small false p) as [-> Hb]; [apply digits_bound; lia|exact Hb].
  - change (is_double (binary_round 53 1024 true p 0) = true). destruct (round_small true p) as [-> Hb]; [apply digits_bound; lia|exact Hb].
Qed.

(** The number of an integer that a double is. *)
Lemma of_Z_trunc s m e : bounded 53 1024 m e = true -> isInteger (S754_finite s m e) = true ->
  - 2 ^ 31 <= trunc_Z s m e <= 2 ^ 31 -> of_Z (trunc_Z s m e) = S754_finite s m e /\ trunc_Z s m e <> 0.
Proof.
  intros Hb Hi Hr. pose proof (bounded_fexp _ _ Hb) as [Hf Hmax]. cbn [isInteger] in Hi.
  assert (He : e < 0).
  { destruct (Z.ltb_spec e 0) as [|He]; [done|exfalso]. unfold trunc_Z in Hr. rewrite (proj2 (Z.leb_le 0 e)) in Hr by done.
    assert (Hd : Z.pos (digits2_pos m) = 53) by (unfold fexp, emin in Hf; lia).
    assert (Hm : 2 ^ 32 <= Z.pos m).
    { destruct (Z.le_gt_cases (2 ^ 32) (Z.pos m)) as [|Hm]; [done|]. apply (digits_bound m 32 ltac:(lia)) in Hm. lia. }
    pose proof (Z.pow_pos_nonneg 2 e ltac:(lia) He). destruct s; nia. }
  rewrite (proj2 (Z.leb_gt 0 e)) in Hi by done. cbn [orb] in Hi. apply Z.eqb_eq in Hi.
  pose proof (Z.pow_pos_nonneg 2 (- e) ltac:(lia) ltac:(lia)) as Hpow. apply Z.mod_divide in Hi as [q Hq]; [|lia].
  assert (Hn : exists n, Z.pos m / 2 ^ (- e) = Z.pos n /\ m = zeros_behind (Z.to_nat (- e)) n).
  { rewrite Hq, Z.div_mul by lia. destruct q as [|n|n]; [lia| |lia]. exists n. split; [done|].
    apply Pos2Z.inj. rewrite zeros_behind_value, Hq. f_equal. f_equal. lia. }
  destruct Hn as (n & En & ->). unfold trunc_Z in *. rewrite (proj2 (Z.leb_gt 0 e)) in * by done. rewrite En in *.
  rewrite digits_zeros in Hf. replace (Z.pos (digits2_pos n) + Z.of_nat (Z.to_nat (- e)) + e) with (Z.pos (digits2_pos n)) in Hf by lia.
  assert (Hd : Z.pos (digits2_pos n) <= 32) by (apply digits_bound; [lia|destruct s; lia]).
  assert (Hfe : fexp 53 1024 (Z.pos (digits2_pos n)) = Z.pos (digits2_pos n) - 53) by (unfold fexp, emin; lia).
  split; [|by destruct s]. destruct (round_small s n) as [E _]; [lia|].
  assert (Ee : e = Z.pos (digits2_pos n) - 53) by lia. replace (Z.to_nat (- e)) with (Z.to_nat (53 - Z.pos (digits2_pos n))) by lia.
  rewrite Ee, <- E. by destruct s.
Qed.

Lemma math_trunc_int s m e : bounded 53 1024 m e = true -> isInteger (S754_finite s m e) = true ->
  - 2 ^ 31 <= trunc_Z s m e <= 2 ^ 31 -> math_trunc (S754_finite s m e) = S754_finite s m e.
Proof.
  intros Hb Hi Hr.
  assert (Hfl : math_floor (S754_finite false m e) = S754_finite false m e).
  { destruct (of_Z_trunc false m e Hb Hi) as [E _]; [unfold trunc_Z in *; destruct s; lia|].
    cbn [math_floor]. unfold floor_Z. destruct (0 <=? e) eqn:He; [done|]. unfold trunc_Z in E. by rewrite He in E. }
  destruct s; [|exact Hfl]. cbn [math_trunc math_ceil fopp SFopp negb]. unfold math_ceil. cbn [fopp SFopp negb]. by rewrite Hfl.
Qed.

(** An integer as a double is that integer. *)
Lemma of_Z_int z : - 2 ^ 31 <= z < 2 ^ 31 -> isInteger (of_Z z) = true /\ float_int (of_Z z) = z /\
  match of_Z z with S754_finite s m e => trunc_Z s m e = z | S754_zero _ => z = 0 | _ => False end.
Proof.
  intros Hz.
  assert (Hp : forall s p, Z.pos p <= 2 ^ 31 -> exists m e, binary_round 53 1024 s p 0 = S754_finite s m e /\ e < 0 /\ Z.pos m = Z.pos p * 2 ^ (- e)).
  { intros s p Hle. assert (Hd : Z.pos (digits2_pos p) <= 32) by (apply digits_bound; lia).
    destruct (round_small s p) as [E _]; [lia|]. eexists _, _. split; [exact E|]. split; [lia|]. rewrite zeros_behind_value. do 2 f_equal. lia. }
  assert (Ht : forall (s : bool) p m e, e < 0 -> Z.pos m = Z.pos p * 2 ^ (- e) ->
    isInteger (S754_finite s m e) = true /\ trunc_Z s m e = if s then Z.neg p else Z.pos p).
  { intros s p m e He Em. cbn [isInteger]. unfold trunc_Z. rewrite (proj2 (Z.leb_gt 0 e)) by done. rewrite Em, Z.mod_mul, Z.div_mul by (apply Z.pow_nonzero; lia).
    by destruct s. }
  destruct z as [|p|p]; [done| |].
  - change (of_Z (Z.pos p)) with (binary_round 53 1024 false p 0). destruct (Hp false p ltac:(lia)) as (m & e & -> & He & Em).
    destruct (Ht false p m e He Em) as [Hi E]. split; [done|]. cbn [float_int]. by rewrite E, to_int32_small by lia.
  - change (of_Z (Z.neg p)) with (binary_round 53 1024 true p 0). destruct (Hp true p ltac:(lia)) as (m & e & -> & He & Em).
    destruct (Ht true p m e He Em) as [Hi E]. split; [done|]. cbn [float_int]. by rewrite E, to_int32_small by lia.
Qed.

(** The results of the bitwise operators are integers of 32 bits. *)
Lemma int32_shiftr z : - 2 ^ 31 <= z < 2 ^ 31 <-> Z.shiftr z 31 = 0 \/ Z.shiftr z 31 = -1.
Proof. rewrite Z.shiftr_div_pow2 by done. pose proof (Z.div_mod z (2 ^ 31) ltac:(done)). pose proof (Z.mod_pos_bound z (2 ^ 31) ltac:(done)). lia. Qed.

Lemma int32_bits a b : - 2 ^ 31 <= a .& b < 2 ^ 31 /\ - 2 ^ 31 <= a .| b < 2 ^ 31 /\ - 2 ^ 31 <= a .^ b < 2 ^ 31.
Proof.
  pose proof (proj1 (int32_shiftr _) (to_int32_range a)) as Ha. pose proof (proj1 (int32_shiftr _) (to_int32_range b)) as Hb.
  unfold js_and, js_or, js_xor. rewrite !int32_shiftr, Z.shiftr_land, Z.shiftr_lor, Z.shiftr_lxor.
  destruct Ha as [-> | ->], Hb as [-> | ->]; (split; [|split]); first [left; reflexivity | right; reflexivity].
Qed.

Lemma int32_sar a n : - 2 ^ 31 <= a .>> n < 2 ^ 31.
Proof.
  unfold js_sar. rewrite Z.shiftr_div_pow2 by (apply Z.mod_pos_bound; lia). pose proof (to_int32_range a).
  pose proof (Z.pow_pos_nonneg 2 (n mod 32) ltac:(lia) ltac:(apply Z.mod_pos_bound; lia)). split.
  - apply Z.div_le_lower_bound; [lia|]. nia.
  - apply Z.div_lt_upper_bound; [lia|]. nia.
Qed.

Lemma js_or_0 z : - 2 ^ 31 <= z < 2 ^ 31 -> z .| 0 = z.
Proof. intros Hz. unfold js_or. by rewrite Z.lor_0_r, to_int32_small. Qed.

Lemma digits_above p : Z.pos p < 2 ^ Z.pos (digits2_pos p).
Proof.
  induction p as [p IH|p IH|]; cbn [digits2_pos]; [| |done]; rewrite Pos2Z.inj_succ, Z.pow_succ_r by lia; lia.
Qed.

Lemma is_double_trunc x : is_double x = true -> is_double (math_trunc x) = true.
Proof.
  destruct x as [s|s| |s m e]; try done. intros Hd. pose proof Hd as Hd'. unfold is_double in Hd'.
  apply andb_true_iff in Hd' as [_ Hb]. apply bounded_fexp in Hb as [Hf _].
  assert (Hfl : is_double (math_floor (S754_finite false m e)) = true).
  { cbn [math_floor]. unfold floor_Z. destruct (0 <=? e) eqn:He; [by rewrite <- (is_double_abs (S754_finite s m e)) in Hd|].
    apply Z.leb_gt in He. pose proof (digits_above m) as Hm.
    assert (Hm' : Z.pos m < 2 ^ 53).
    { eapply Z.lt_le_trans; [exact Hm|]. apply Z.pow_le_mono_r; [lia|]. unfold fexp in Hf. lia. }
    apply is_double_of_Z. pose proof (Z.pow_pos_nonneg 2 (- e) ltac:(lia) ltac:(lia)).
    pose proof (Z.div_pos (Z.pos m) (2 ^ (- e)) ltac:(lia) ltac:(lia)). pose proof (Z.div_le_upper_bound (Z.pos m) (2 ^ (- e)) (Z.pos m) ltac:(lia) ltac:(nia)). lia. }
  destruct s; [|exact Hfl]. cbn [math_trunc]. unfold math_ceil. by rewrite is_double_fopp.
Qed.

(** ** Safe integers

    Sums and products of integers below 2^53 are exact. *)

Definition safe (z : Z) : Prop := 0 <= z < 2 ^ 53.

Lemma of_Z_pos n : Z.pos n < 2 ^ 53 ->
  let d := Z.pos (digits2_pos n) in
  d <= 53 /\ of_Z (Z.pos n) = S754_finite false (zeros_behind (Z.to_nat (53 - d)) n) (d - 53) /\
  bounded 53 1024 (zeros_behind (Z.to_nat (53 - d)) n) (d - 53) = true.
Proof. intros Hn d. assert (Hd : d <= 53) by (apply digits_bound; lia). by split; [|apply (round_small false n)]. Qed.

Lemma zeros_behind_add j k m : zeros_behind j (zeros_behind k m) = zeros_behind (j + k) m.
Proof. apply Pos2Z.inj. rewrite !zeros_behind_value, Nat2Z.inj_add, Z.pow_add_r by lia. lia. Qed.

(** An integer with many zeros behind it, scaled back. *)
Lemma round_scaled_int n k : Z.pos n < 2 ^ 53 -> 53 - Z.pos (digits2_pos n) <= Z.of_nat k ->
  binary_round_aux 53 1024 false (Z.pos (zeros_behind k n)) (- Z.of_nat k) loc_Exact = of_Z (Z.pos n).
Proof.
  intros Hn Hk. destruct (of_Z_pos n Hn) as (Hd & -> & Hb). set (d := Z.pos (digits2_pos n)) in *.
  pose proof (round_exact false _ _ (k - Z.to_nat (53 - d)) Hb) as R. rewrite zeros_behind_add in R.
  replace (k - Z.to_nat (53 - d) + Z.to_nat (53 - d))%nat with k in R by lia.
  replace (d - 53 - Z.of_nat (k - Z.to_nat (53 - d))) with (- Z.of_nat k) in R by lia. exact R.
Qed.

Lemma shl_align_pos m e e' : e' <= e -> shl_align m e e' = (zeros_behind (Z.to_nat (e - e')) m, e').
Proof.
  intros He. unfold shl_align. destruct (e' - e) as [|p|p] eqn:E; [|lia|].
  - replace (Z.to_nat (e - e')) with 0%nat by lia. by replace e' with e by lia.
  - unfold zeros_behind. rewrite Pos2Nat.inj_iter. by replace (Pos.to_nat p) with (Z.to_nat (e - e')) by lia.
Qed.

Lemma normalize_scaled_int n k : Z.pos n < 2 ^ 53 ->
  binary_normalize 53 1024 (Z.pos n * 2 ^ Z.of_nat k) (- Z.of_nat k) false = of_Z (Z.pos n).
Proof.
  intros Hn. rewrite <- zeros_behind_value. cbn [binary_normalize]. unfold binary_round. rewrite digits_zeros.
  destruct (of_Z_pos n Hn) as (Hd & _ & _). set (d := Z.pos (digits2_pos n)) in *.
  replace (d + Z.of_nat k + - Z.of_nat k) with d by lia.
  assert (Hf : fexp 53 1024 d = d - 53) by (unfold fexp, emin; lia). rewrite Hf.
  destruct (Z.le_gt_cases (d - 53) (- Z.of_nat k)) as [Hle|Hgt].
  - rewrite shl_align_pos by done. rewrite zeros_behind_add.
    set (j := Z.to_nat _). replace (d - 53) with (- Z.of_nat (j + k)) by (unfold j; lia).
    apply round_scaled_int; [done|]. fold d. unfold j. lia.
  - replace (shl_align _ _ _) with (zeros_behind k n, - Z.of_nat k).
    + apply round_scaled_int; [done|]. fold d. lia.
    + unfold shl_align. by destruct (d - 53 - - Z.of_nat k) eqn:E; [..|lia].
Qed.

Lemma fmul_int a b : safe a -> safe b -> safe (a * b) -> fmul (of_Z a) (of_Z b) = of_Z (a * b).
Proof.
  unfold safe. intros Ha Hb Hab. destruct a as [|a|a]; [|  |lia].
  { destruct b as [|b|b]; [done| |lia]. destruct (of_Z_pos b ltac:(lia)) as (_ & -> & _). done. }
  destruct b as [|b|b]; [destruct (of_Z_pos a ltac:(lia)) as (_ & -> & _); done| |lia].
  change (Z.pos a * Z.pos b) with (Z.pos (a * b)) in *.
  destruct (of_Z_pos a ltac:(lia)) as (Hda & -> & _). destruct (of_Z_pos b ltac:(lia)) as (Hdb & -> & _).
  set (da := Z.pos (digits2_pos a)) in *. set (db := Z.pos (digits2_pos b)) in *. unfold fmul, SFmul. cbn [xorb].
  set (k := (Z.to_nat (53 - da) + Z.to_nat (53 - db))%nat).
  replace (_ * _)%positive with (zeros_behind k (a * b)).
  2: { apply Pos2Z.inj. rewrite Pos2Z.inj_mul, !zeros_behind_value. unfold k. rewrite Nat2Z.inj_add, Z.pow_add_r by lia. lia. }
  replace (da - 53 + (db - 53)) with (- Z.of_nat k) by lia. apply round_scaled_int; [lia|].
  assert (Hd : da <= Z.pos (digits2_pos (a * b))).
  { apply digits_bound; [lia|]. pose proof (digits_above (a * b)). nia. }
  unfold k. lia.
Qed.

Lemma fadd_int a b : safe a -> safe b -> safe (a + b) -> fadd (of_Z a) (of_Z b) = of_Z (a + b).
Proof.
  unfold safe. intros Ha Hb Hab. destruct a as [|a|a]; [|  |lia].
  { destruct b as [|b|b]; [done| |lia]. destruct (of_Z_pos b ltac:(lia)) as (_ & E & _). rewrite Z.add_0_l, E. done. }
  destruct b as [|b|b]; [destruct (of_Z_pos a ltac:(lia)) as (_ & E & _); rewrite Z.add_0_r, E; done| |lia].
  destruct (of_Z_pos a ltac:(lia)) as (Hda & -> & _). destruct (of_Z_pos b ltac:(lia)) as (Hdb & -> & _).
  set (da := Z.pos (digits2_pos a)) in *. set (db := Z.pos (digits2_pos b)) in *. unfold fadd, SFadd. cbn [cond_Zopp].
  set (k := Z.to_nat (- Z.min (da - 53) (db - 53))).
  assert (Hal : forall p d, d <= 53 -> Z.min (da - 53) (db - 53) <= d - 53 ->
    Z.pos (shl_align (zeros_behind (Z.to_nat (53 - d)) p) (d - 53) (Z.min (da - 53) (db - 53))).1 = Z.pos p * 2 ^ Z.of_nat k).
  { intros p d Hd Hmin. rewrite shl_align_pos by done. cbn [fst]. rewrite zeros_behind_add, zeros_behind_value.
    do 2 f_equal. unfold k. lia. }
  rewrite !Hal by lia. rewrite <- Z.mul_add_distr_r. replace (Z.min _ _) with (- Z.of_nat k) by (unfold k; lia).
  change (Z.pos a + Z.pos b) with (Z.pos (a + b)) in *. apply normalize_scaled_int. lia.
Qed.

Lemma of_Z_not_zero z : 0 < z < 2 ^ 53 -> feq (of_Z z) fzero = false.
Proof. intros Hz. destruct z as [|n|n]; [lia| |lia]. by destruct (of_Z_pos n ltac:(lia)) as (_ & -> & _). Qed.

(** A safe integer as a double has its value. *)
Lemma of_Z_value n s : Z.pos n < 2 ^ 53 -> exists m e,
  (if s : bool then fopp (of_Z (Z.pos n)) else of_Z (Z.pos n)) = S754_finite s m e /\ isInteger (S754_finite s m e) = true /\
  trunc_Z s m e = if s then - Z.pos n else Z.pos n.
Proof.
  intros Hn. destruct (of_Z_pos n Hn) as (Hd & -> & _). set (d := Z.pos (digits2_pos n)) in *.
  exists (zeros_behind (Z.to_nat (53 - d)) n), (d - 53). split; [by destruct s|].
  cbn [isInteger]. unfold trunc_Z. destruct (Z.leb_spec 0 (d - 53)) as [Hle|Hgt]; cbn [orb].
  - replace (Z.to_nat (53 - d)) with 0%nat by lia. replace (d - 53) with 0 by lia. cbn [zeros_behind Nat.iter nat_rect]. by rewrite Z.mul_1_r.
  - rewrite zeros_behind_value. replace (Z.of_nat (Z.to_nat (53 - d))) with (- (d - 53)) by lia.
    rewrite Z.mod_mul, Z.div_mul by (apply Z.pow_nonzero; lia). done.
Qed.

(** ** Rounding a quotient

    A record of the rounding holds the integer part of [X / D] and how the rest
    compares with one half; what is rounded is at most one half away. *)

Definition holds_quotient (r : shr_record) (X D : Z) : Prop :=
  match r with
  | Build_shr_record m false false => X = m * D
  | Build_shr_record m false true => m * D < X /\ 2 * (X - m * D) < D
  | Build_shr_record m true false => 2 * (X - m * D) = D
  | Build_shr_record m true true => D < 2 * (X - m * D) /\ X < (m + 1) * D
  end.

Lemma quotient_located X D : 0 < D -> holds_quotient (shr_record_of_loc (X / D) (new_location D (X mod D))) X D.
Proof.
  intros HD. pose proof (Z.div_mod X D ltac:(lia)). pose proof (Z.mod_pos_bound X D HD).
  unfold new_location, new_location_even, new_location_odd. destruct (Z.even D) eqn:Ev; destruct (Z.eqb_spec (X mod D) 0).
  1,3: cbn; lia.
  - destruct (Z.compare_spec (2 * (X mod D)) D); cbn; lia.
  - assert (Z.odd D = true) by (by rewrite <- Z.negb_even, Ev). apply Z.odd_spec in H1 as [j Hj].
    destruct (Z.compare_spec (2 * (X mod D) + 1) D); cbn; lia.
Qed.

Lemma quotient_halved r X D : 0 < D -> 0 <= shr_m r -> holds_quotient r X D ->
  holds_quotient (shr_1 r) X (2 * D) /\ shr_m (shr_1 r) = shr_m r / 2.
Proof.
  intros HD Hm Hr. destruct r as [m a b]. cbn [shr_m] in Hm.
  destruct m as [|p|p]; [|destruct p as [p|p|]|lia]; cbn [shr_1 shr_m].
  - split; [|done]. destruct a, b; cbn in *; lia.
  - split; [|rewrite Pos2Z.inj_xI; apply (Z.div_unique _ _ _ 1); lia]. rewrite Pos2Z.inj_xI in Hr. destruct a, b; cbn in *; lia.
  - split; [|rewrite Pos2Z.inj_xO; apply (Z.div_unique _ _ _ 0); lia]. rewrite Pos2Z.inj_xO in Hr. destruct a, b; cbn in *; lia.
  - split; [|done]. destruct a, b; cbn in *; lia.
Qed.

Lemma quotient_rounded r X D : 0 < D -> holds_quotient r X D ->
  let m := round_nearest_even (shr_m r) (loc_of_shr_record r) in
  shr_m r <= m <= shr_m r + 1 /\ 2 * Z.abs (m * D - X) <= D.
Proof. intros HD Hr m. subst m. destruct r as [m [] []]; cbn in *; [| destruct (Z.even m)| |]; lia. Qed.

Lemma digits_between m k : 2 ^ (k - 1) <= Z.pos m < 2 ^ k -> Z.pos (digits2_pos m) = k.
Proof.
  intros Hm. assert (0 <= k) by (destruct (Z.neg_nonneg_cases k) as [Hk|]; [rewrite (Z.pow_neg_r 2 k Hk) in Hm; lia|done]).
  pose proof (digits_bound m k ltac:(done) ltac:(lia)).
  destruct (Z.le_gt_cases k (Z.pos (digits2_pos m))) as [|Hlt]; [lia|].
  pose proof (digits_above m). pose proof (Z.pow_le_mono_r 2 (Z.pos (digits2_pos m)) (k - 1) ltac:(lia) ltac:(lia)). lia.
Qed.

(** What [binary_round_aux] makes of a quotient with 53 bits before the point,
    away from the least exponents and the greatest. *)
Lemma round_53 r X D e : 0 < D -> holds_quotient r X D -> 2 ^ 52 <= shr_m r < 2 ^ 53 -> - 1000 <= e <= 900 ->
  exists m e', 2 ^ 52 <= Z.pos m < 2 ^ 53 /\ e <= e' <= e + 1 /\ 2 * Z.abs (Z.pos m * 2 ^ (e' - e) * D - X) <= D /\
    forall s, (let '(mrs, e'') := shr_fexp 53 1024 (round_nearest_even (shr_m r) (loc_of_shr_record r)) e loc_Exact in
      match shr_m mrs with
      | Z0 => S754_zero s
      | Zpos m => if e'' <=? 1024 - 53 then S754_finite s m e'' else S754_infinity s
      | _ => S754_nan
      end) = S754_finite s m e'.
Proof.
  intros HD Hr Hm He. destruct (quotient_rounded r X D HD Hr) as [Hrange Habs].
  set (n := round_nearest_even _ _) in *. unfold shr_fexp. cbn [shr_record_of_loc].
  destruct n as [|n|n]; [lia| |lia]. cbn [Zdigits2].
  destruct (Z.eq_dec (Z.pos n) (2 ^ 53)) as [E|Hne].
  - exists (2 ^ 52)%positive, (e + 1). assert (n = xO (2 ^ 52)) as -> by (apply Pos2Z.inj; rewrite E; reflexivity). clear E. split; [done|]. split; [lia|]. replace (e + 1 - e) with 1 by lia.
    split; [lia|]. intros s. replace (Z.pos (digits2_pos _)) with 54 by done.
    replace (fexp 53 1024 (54 + e) - e) with 1 by (unfold fexp, emin; lia).
    cbn [shr iter_pos shr_1 shr_m]. change (1024 - 53) with 971. by rewrite (proj2 (Z.leb_le (e + 1) 971)) by lia.
  - exists n, e. rewrite (digits_between n 53) by lia. split; [lia|]. split; [lia|]. rewrite Z.sub_diag, Z.mul_1_r.
    split; [done|]. intros s. replace (fexp 53 1024 (53 + e) - e) with 0 by (unfold fexp, emin; lia).
    cbn [shr shr_m]. change (1024 - 53) with 971. by rewrite (proj2 (Z.leb_le e 971)) by lia.
Qed.

(** A quotient of 53 or 54 bits. *)
Lemma round_quotient X D e l : 0 < D -> holds_quotient (shr_record_of_loc (X / D) l) X D -> 2 ^ 52 <= X / D < 2 ^ 54 ->
  - 900 <= e <= 800 ->
  exists m e', binary_round_aux 53 1024 false (X / D) e l = S754_finite false m e' /\ 2 ^ 52 <= Z.pos m < 2 ^ 53 /\
    e <= e' <= e + 2 /\ 2 * Z.abs (Z.pos m * 2 ^ (e' - e) * D - X) <= 2 ^ (e' - e) * D.
Proof.
  intros HD Hr Hq He. unfold binary_round_aux. unfold shr_fexp at 1. set (r := shr_record_of_loc _ _) in *.
  assert (Em : shr_m r = X / D) by (by destruct l as [|[]]).
  destruct (X / D) as [|q|q] eqn:Eq; [lia| |lia]. cbn [Zdigits2].
  destruct (Z.le_gt_cases (2 ^ 53) (Z.pos q)) as [Hbig|Hsmall].
  - rewrite (digits_between q 54) by lia. replace (fexp 53 1024 (54 + e) - e) with 1 by (unfold fexp, emin; lia). cbn [shr iter_pos].
    destruct (quotient_halved r X D HD ltac:(lia) Hr) as [Hr2 Em2]. rewrite Em in Em2.
    destruct (round_53 (shr_1 r) X (2 * D) (e + 1)) as (m & e' & Hm & He' & Habs & E); [lia|done| |lia|].
    { rewrite Em2. split; [apply Z.div_le_lower_bound; lia|apply Z.div_lt_upper_bound; lia]. }
    exists m, e'. split; [apply E|]. split; [done|]. split; [lia|].
    replace (e' - e) with (1 + (e' - (e + 1))) by lia. rewrite Z.pow_add_r by lia. change (2 ^ 1) with 2.
    set (P := 2 ^ (e' - (e + 1))) in *. assert (0 < P) by (apply Z.pow_pos_nonneg; lia). nia.
  - rewrite (digits_between q 53) by lia. replace (fexp 53 1024 (53 + e) - e) with 0 by (unfold fexp, emin; lia). cbn [shr].
    destruct (round_53 r X D e) as (m & e' & Hm & He' & Habs & E); [done|done|lia|lia|].
    exists m, e'. split; [apply E|]. split; [done|]. split; [lia|].
    set (P := 2 ^ (e' - e)) in *. assert (0 < P) by (apply Z.pow_pos_nonneg; lia). nia.
Qed.

Lemma mantissa_bounds p : Z.pos (digits2_pos p) <= 53 ->
  2 ^ 52 <= Z.pos p * 2 ^ (53 - Z.pos (digits2_pos p)) < 2 ^ 53.
Proof.
  intros Hd. set (d := Z.pos (digits2_pos p)) in *. pose proof (digits_above p) as Hu. fold d in Hu.
  assert (Hl : 2 ^ (d - 1) <= Z.pos p).
  { destruct (Z.le_gt_cases (2 ^ (d - 1)) (Z.pos p)) as [|Hlt]; [done|]. apply digits_bound in Hlt; lia. }
  assert (0 < d) by (unfold d; lia). pose proof (Z.pow_pos_nonneg 2 (53 - d) ltac:(lia) ltac:(lia)).
  replace (2 ^ 52) with (2 ^ (d - 1) * 2 ^ (53 - d)) by (rewrite <- Z.pow_add_r by lia; f_equal; lia).
  replace (2 ^ 53) with (2 ^ d * 2 ^ (53 - d)) by (rewrite <- Z.pow_add_r by lia; f_equal; lia). nia.
Qed.

(** The quotient of two integers below 2^53 is one half of the last place away
    from the exact one at most. *)
Lemma fdiv_int a b : 0 < a < 2 ^ 53 -> 4 <= b < 2 ^ 53 ->
  exists m e, fdiv (of_Z a) (of_Z b) = S754_finite false m e /\ 2 ^ 52 <= Z.pos m < 2 ^ 53 /\ - 200 <= e <= 0 /\
    2 * Z.abs (Z.pos m * b - a * 2 ^ (- e)) <= b.
Proof.
  intros Ha Hb. destruct a as [|a|a]; [lia| |lia]. destruct b as [|b|b]; [lia| |lia].
  destruct (of_Z_pos a ltac:(lia)) as (Hda & -> & _). destruct (of_Z_pos b ltac:(lia)) as (Hdb & -> & _).
  set (da := Z.pos (digits2_pos a)) in *. set (db := Z.pos (digits2_pos b)) in *.
  set (ka := Z.to_nat (53 - da)). set (kb := Z.to_nat (53 - db)).
  unfold fdiv, SFdiv, SFdiv_core_binary. cbn [Zdigits2 xorb].
  rewrite !digits_zeros. fold da db.
  replace (fexp 53 1024 _) with (da - db - 53) by (unfold fexp, emin; lia).
  replace (Z.min _ _) with (da - db - 53) by lia. replace (da - 53 - (db - 53) - (da - db - 53)) with 53 by lia.
  set (A := Z.pos (zeros_behind ka a)). set (B := Z.pos (zeros_behind kb b)).
  assert (HA : A = Z.pos a * 2 ^ (53 - da)) by (unfold A, ka; rewrite zeros_behind_value; do 2 f_equal; lia).
  assert (HB : B = Z.pos b * 2 ^ (53 - db)) by (unfold B, kb; rewrite zeros_behind_value; do 2 f_equal; lia).
  assert (HA2 : 2 ^ 52 <= A < 2 ^ 53) by (apply mantissa_bounds in Hda; fold da in Hda; lia).
  assert (HB2 : 2 ^ 52 <= B < 2 ^ 53) by (apply mantissa_bounds in Hdb; fold db in Hdb; lia).
  rewrite (Z.shiftl_mul_pow2 A 53) by lia.
  pose proof (quotient_located (A * 2 ^ 53) B ltac:(lia)) as Hq. set (e0 := da - db - 53).
  rewrite (surjective_pairing (Z.div_eucl (A * 2 ^ 53) B)).
  change (Z.div_eucl (A * 2 ^ 53) B).1 with (A * 2 ^ 53 / B). change (Z.div_eucl (A * 2 ^ 53) B).2 with ((A * 2 ^ 53) mod B).
  assert (Hqb : 2 ^ 52 <= A * 2 ^ 53 / B < 2 ^ 54).
  { split; [apply Z.div_le_lower_bound; lia|apply Z.div_lt_upper_bound; lia]. }
  assert (Hdb3 : 3 <= db).
  { pose proof (digits_above b) as Hab. fold db in Hab. destruct (Z.le_gt_cases 3 db) as [|Hlt]; [done|].
    pose proof (Z.pow_le_mono_r 2 db 2 ltac:(lia) ltac:(lia)). lia. }
  assert (He0 : - 106 <= e0 <= -3) by (unfold e0; lia).
  destruct (round_quotient (A * 2 ^ 53) B e0 (new_location B ((A * 2 ^ 53) mod B)) ltac:(lia) Hq Hqb ltac:(lia))
    as (m & e' & Em & Hm & He' & Habs). exists m, e'. split; [exact Em|]. split; [done|]. split; [lia|].
  set (P := 2 ^ (e' - e0)) in *. assert (HP : 0 < P) by (apply Z.pow_pos_nonneg; lia).
  assert (HX : A * 2 ^ 53 = Z.pos a * 2 ^ (- e') * P * 2 ^ (53 - db)).
  { rewrite HA. unfold P. rewrite <- !Z.mul_assoc, <- !Z.pow_add_r by lia. f_equal. f_equal. unfold e0. lia. }
  rewrite HX, HB in Habs. set (Q := 2 ^ (53 - db)) in *. assert (HQ : 0 < Q) by (apply Z.pow_pos_nonneg; lia).
  assert (Hs : Z.pos m * P * (Z.pos b * Q) - Z.pos a * 2 ^ (- e') * P * Q = (Z.pos m * Z.pos b - Z.pos a * 2 ^ (- e')) * (P * Q)) by ring.
  rewrite Hs, Z.abs_mul, (Z.abs_eq (P * Q)) in Habs by lia.
  replace (P * (Z.pos b * Q)) with (Z.pos b * (P * Q)) in Habs by ring. rewrite Z.mul_assoc in Habs.
  apply Z.mul_le_mono_pos_r in Habs; [done|lia].
Qed.
