(* ===== verification/ByteStream.v ===== *)
(** * Byte streams

    [BaseStream] and [Stream] of pdf.worker.mjs: the interface every stream of
    the worker has (the class [ByteSource]), the methods [BaseStream] derives
    from it, and the in-memory [Stream].  The abstract specification of a
    stream is the list of the bytes still to be read (the class [SourceSpec]);
    clients of a stream are proved against it.  The [dict] a stream carries is
    left out: no method here reads it. *)
From S2P Require Import Prelude.
Local Open Scope js_scope.

(** The methods a stream implements itself.  A byte is -1 at the end of the
    stream; [undefined] ([None]) is what a [Stream] whose [end] lies past its
    bytes returns.  [getBytes 0] is a call without a length. *)
Class ByteSource (S : Type) := {
  getByte : M S jsnum;
  getBytes : Z -> M S (list Z);
  shift_pos : Z -> S -> S   (** [this.pos += d] *)
}.

Definition is_byte (b : Z) : Prop := 0 <= b < 256.

(** What a client may rely on: [rest s r] says that exactly the bytes [r]
    remain to be read from [s], and that reading them does not throw. *)
Class SourceSpec (S : Type) `{ByteSource S} := {
  rest : S -> list Z -> Prop;
  rest_bytes s r : rest s r -> Forall is_byte r;
  rest_nil s :
    rest s [] -> exists s', getByte s = (Ok (Some (-1)), s') /\ rest s' [];
  rest_cons s b r :
    rest s (b :: r) ->
    exists s', getByte s = (Ok (Some b), s') /\ rest s' r /\
               rest (shift_pos (-1) s') (b :: r);
  rest_getBytes s r n :
    rest s r -> 0 <= n ->
    let k := if n =? 0 then length r else Z.to_nat n in
    exists s', getBytes n s = (Ok (take k r), s') /\ rest s' (drop k r) /\
               rest (shift_pos (- len (take k r)) s') r
}.

(** ** BaseStream *)
Section BaseStream.
Context {S : Type} `{ByteSource S}.

Definition peekByte : M S jsnum :=
  peekedByte <- getByte ;;
  if jn_is peekedByte (-1) then mret peekedByte
  else modify (shift_pos (-1)) ;;; mret peekedByte.

Definition peekBytes (length : Z) : M S (list Z) :=
  bytes <- getBytes length ;;
  modify (shift_pos (- len bytes)) ;;; mret bytes.

Definition getUint16 : M S jsnum :=
  b0 <- getByte ;;
  b1 <- getByte ;;
  if jn_is b0 (-1) || jn_is b1 (-1) then mret (Some (-1))
  else mret (jn_add (Some (jn_int b0 .<< 8)) b1).

Definition getInt32 : M S jsnum :=
  b0 <- getByte ;;
  b1 <- getByte ;;
  b2 <- getByte ;;
  b3 <- getByte ;;
  mret (jn_add (Some ((jn_int b0 .<< 24) + (jn_int b1 .<< 16) + (jn_int b2 .<< 8))) b3).

(** [skip(n)]: [n || 1] *)
Definition skip (n : jsnum) : M S unit := modify (shift_pos (jn_or n 1)).
End BaseStream.

(** ** Stream *)

Record Stream := mkStream {
  s_bytes : list Z;
  s_start : Z;
  s_pos : Z;
  s_end : Z
}.

Definition set_pos (p : Z) (s : Stream) : Stream :=
  mkStream (s_bytes s) (s_start s) p (s_end s).

(** [new Stream(arrayBuffer, start, length)] *)
Definition new_Stream (bytes : list Z) (start length : jsnum) : Stream :=
  let st := jn_or start 0 in
  mkStream bytes st st (jn_or (jn_add start length) (len bytes)).

Definition stream_length (s : Stream) : Z := s_end s - s_start s.
Definition stream_isEmpty (s : Stream) : bool := stream_length s =? 0.

Definition stream_getByte : M Stream jsnum := fun s =>
  if s_end s <=? s_pos s then (Ok (Some (-1)), s)
  else (Ok (arr_get (s_bytes s) (s_pos s)), set_pos (s_pos s + 1) s).

Definition stream_getBytes (length : Z) : M Stream (list Z) := fun s =>
  let pos := s_pos s in
  let endPos := if length =? 0 then s_end s else Z.min (pos + length) (s_end s) in
  (Ok (subarray (s_bytes s) pos endPos), set_pos endPos s).

Definition stream_getByteRange (b e : Z) (s : Stream) : list Z :=
  let b := if b <? 0 then 0 else b in
  let e := if s_end s <? e then s_end s else e in
  subarray (s_bytes s) b e.

Definition stream_reset (s : Stream) : Stream := set_pos (s_start s) s.

Definition stream_moveStart (s : Stream) : Stream :=
  mkStream (s_bytes s) (s_pos s) (s_pos s) (s_end s).

Definition stream_makeSubStream (start length : jsnum) (s : Stream) : Stream :=
  new_Stream (s_bytes s) start length.

Definition stream_clone (s : Stream) : Stream :=
  new_Stream (s_bytes s) (Some (s_start s)) (Some (stream_length s)).

#[export] Instance Stream_source : ByteSource Stream := {
  getByte := stream_getByte;
  getBytes := stream_getBytes;
  shift_pos d s := set_pos (s_pos s + d) s
}.

(** A stream over data that is there: [pos] between [start] and [end], [end]
    within the bytes. *)
Record stream_ok (s : Stream) : Prop := {
  ok_start : 0 <= s_start s <= s_pos s;
  ok_pos : s_pos s <= s_end s;
  ok_end : s_end s <= len (s_bytes s);
  ok_bytes : Forall is_byte (s_bytes s)
}.

Definition stream_rest (s : Stream) (r : list Z) : Prop :=
  stream_ok s /\ r = subarray (s_bytes s) (s_pos s) (s_end s).

Lemma stream_ok_reads s r :
  stream_rest s r -> len r = s_end s - s_pos s.
Proof. intros [[] ->]. rewrite len_subarray; lia. Qed.

Lemma stream_rest_shift s p r :
  stream_ok s -> s_start s <= p <= s_end s ->
  r = subarray (s_bytes s) p (s_end s) -> stream_rest (set_pos p s) r.
Proof. intros [] ? ->. split; [split; simpl; auto; lia | reflexivity]. Qed.

Lemma set_pos_set_pos p q s : set_pos p (set_pos q s) = set_pos p s.
Proof. reflexivity. Qed.

#[export] Program Instance Stream_spec : SourceSpec Stream := {
  rest := stream_rest
}.
Next Obligation. intros s r [[] ->]. by apply Forall_subarray. Qed.
Next Obligation.
  intros s Hr. assert (He := stream_ok_reads _ _ Hr). rewrite len_nil in He.
  exists s. simpl. unfold stream_getByte. rewrite (proj2 (Z.leb_le _ _)) by lia. done.
Qed.
Next Obligation.
  intros s b r [Hok Heq].
  destruct (subarray_cons (s_bytes s) (s_pos s) (s_end s) b r) as (? & Hg & Hs);
    [destruct Hok; lia..|done|].
  exists (set_pos (s_pos s + 1) s). simpl. unfold stream_getByte.
  rewrite (proj2 (Z.leb_gt _ _)) by lia. rewrite Hg. split; [done|].
  rewrite set_pos_set_pos. pose proof Hok as [].
  split; apply stream_rest_shift; auto; try lia.
  by replace (s_pos s + 1 + -1) with (s_pos s) by lia.
Qed.
Next Obligation.
  intros s r n Hr Hn k. assert (Hl := stream_ok_reads _ _ Hr).
  destruct Hr as [Hok ->]. pose proof Hok as [].
  set (e := if n =? 0 then s_end s else Z.min (s_pos s + n) (s_end s)).
  assert (Hk : take k (subarray (s_bytes s) (s_pos s) (s_end s))
               = subarray (s_bytes s) (s_pos s) e
             /\ drop k (subarray (s_bytes s) (s_pos s) (s_end s))
               = subarray (s_bytes s) e (s_end s)
             /\ s_pos s <= e <= s_end s).
  { assert (s_pos s <= e <= s_end s) by (subst e; destruct (n =? 0) eqn:?; bool_hyps; lia).
    rewrite (subarray_split _ (s_pos s) e (s_end s)) by lia.
    assert (Hle := len_subarray (s_bytes s) (s_pos s) e ltac:(lia) ltac:(lia)).
    rewrite take_app, drop_app.
    destruct (n =? 0) eqn:?; bool_hyps; subst e k.
    - rewrite subarray_nil by lia. rewrite firstn_all, drop_all, take_nil, drop_nil.
      rewrite app_nil_r. done.
    - assert (length (subarray (s_bytes s) (s_pos s) (Z.min (s_pos s + n) (s_end s))) <= Z.to_nat n)%nat
        by (unfold len in Hle; lia).
      rewrite take_ge, drop_ge by lia.
      destruct (decide (s_pos s + n <= s_end s)) as [Hle'|Hgt].
      + replace (Z.to_nat n - _)%nat with 0%nat by (unfold len in Hle; lia).
        by rewrite take_0, drop_0, app_nil_r.
      + rewrite Z.min_r by lia. rewrite subarray_nil by lia.
        by rewrite take_nil, drop_nil, app_nil_r. }
  destruct Hk as (Ht & Hd & He).
  exists (set_pos e s). rewrite Ht, Hd. split; [done|].
  rewrite len_subarray by lia. simpl. rewrite set_pos_set_pos.
  replace (e + - (e - s_pos s)) with (s_pos s) by lia.
  split; apply stream_rest_shift; auto; lia.
Qed.
