(* ===== verification/DecodeStream.v ===== *)
(** * Decoding streams

    [DecodeStream] of pdf.worker.mjs: a growable output buffer filled block by
    block by the [readBlock] of a subclass (class [Decoder]).  The contract a
    subclass owes is [DecoderSpec]; [DecodeStream_spec] turns it into the
    stream contract [SourceSpec], so a decoder can read from another decoder.
    [StreamsSequenceStream], the concatenation of streams, is the first
    subclass. *)
From S2P Require Import Prelude ByteStream.
Local Open Scope js_scope.

(** The fields of a decoding stream: [S] is the type of the wrapped [stream],
    [X] the fields its subclass adds. *)
Record DS (S X : Type) := mkDS {
  buffer : list Z;
  bufferLength : Z;
  eof : bool;
  minBufferLength : Z;
  pos : Z;
  stream : S;
  ext : X
}.
Arguments mkDS {S X}.
Arguments buffer {S X}. Arguments bufferLength {S X}. Arguments eof {S X}.
Arguments minBufferLength {S X}. Arguments pos {S X}.
Arguments stream {S X}. Arguments ext {S X}.

Section Setters.
Context {S X : Type}.
Implicit Type d : DS S X.
Definition set_buffer (v : list Z) d := mkDS v (bufferLength d) (eof d) (minBufferLength d) (pos d) (stream d) (ext d).
Definition set_bufferLength (v : Z) d := mkDS (buffer d) v (eof d) (minBufferLength d) (pos d) (stream d) (ext d).
Definition set_eof (v : bool) d := mkDS (buffer d) (bufferLength d) v (minBufferLength d) (pos d) (stream d) (ext d).
Definition set_dpos (v : Z) d := mkDS (buffer d) (bufferLength d) (eof d) (minBufferLength d) v (stream d) (ext d).
Definition set_stream (v : S) d := mkDS (buffer d) (bufferLength d) (eof d) (minBufferLength d) (pos d) v (ext d).
Definition set_ext (v : X) d := mkDS (buffer d) (bufferLength d) (eof d) (minBufferLength d) (pos d) (stream d) v.

(** A call of a method of [this.stream]. *)
Definition on_stream {A} (m : M S A) : M (DS S X) A := zoom stream set_stream m.
End Setters.

(** [while (size < requested) size *= 2]; each turn doubles [size], so
    [log2_up requested] turns reach [requested] from any positive size. *)
Fixpoint double_until (fuel : nat) (size requested : Z) : Z :=
  match fuel with
  | O => size
  | Datatypes.S fuel' =>
      if size <? requested then double_until fuel' (size * 2) requested else size
  end.

Definition grow_size (size requested : Z) : Z :=
  double_until (Z.to_nat (Z.log2_up requested)) size requested.

(** The constructor; [maybeMinBufferLength] is only compared with integers, so
    a fractional hint is passed rounded up. *)
Definition new_DecodeStream {S X} (maybeMinBufferLength : jsnum) (s : S) (x : X) : DS S X :=
  let m := jn_or maybeMinBufferLength 0 in
  mkDS [] 0 false (if m =? 0 then 512 else grow_size 512 m) 0 s x.

Definition ensureBuffer {S X} (requested : Z) : M (DS S X) (list Z) := fun d =>
  if requested <=? len (buffer d) then (Ok (buffer d), d)
  else
    let size := grow_size (minBufferLength d) requested in
    let buffer2 := blit (zeros size) (buffer d) 0 in
    (Ok buffer2, set_buffer buffer2 d).

(** [buffer[i] = v] on the current buffer. *)
Definition buf_write {S X} (i : Z) (v : jsnum) : M (DS S X) unit :=
  modify (fun d => set_buffer (arr_set (buffer d) i (jn_u8 v)) d).

Class Decoder (S X : Type) := { readBlock : M (DS S X) unit }.

(** The methods [DecodeStream] derives from [readBlock].  [fuel] bounds the
    number of blocks one call may read. *)
Section Methods.
Context {S X : Type} `{Decoder S X} (fuel : nat).

(** [while (!this.eof && more) this.readBlock()] *)
Fixpoint read_while (n : nat) (more : DS S X -> bool) : M (DS S X) unit := fun d =>
  if negb (eof d) && more d then
    match n with
    | O => (OutOfFuel, d)
    | Datatypes.S n' => (readBlock ;;; read_while n' more) d
    end
  else (Ok tt, d).

Definition ds_isEmpty : M (DS S X) bool :=
  read_while fuel (fun d => bufferLength d =? 0) ;;;
  gets (fun d => bufferLength d =? 0).

(** [while (this.bufferLength <= pos) { if (this.eof) return -1; ... }] *)
Fixpoint getByte_loop (n : nat) (p : Z) : M (DS S X) jsnum := fun d =>
  if bufferLength d <=? p then
    if eof d then (Ok (Some (-1)), d)
    else match n with
         | O => (OutOfFuel, d)
         | Datatypes.S n' => (readBlock ;;; getByte_loop n' p) d
         end
  else (Ok (arr_get (buffer d) (pos d)), set_dpos (pos d + 1) d).

Definition ds_getByte : M (DS S X) jsnum := fun d => getByte_loop fuel (pos d) d.

Definition ds_getBytes (length : Z) : M (DS S X) (list Z) :=
  p <- gets pos ;;
  e <- (if length =? 0 then
          read_while fuel (fun _ => true) ;;; gets bufferLength
        else
          ensureBuffer (p + length) ;;;
          let e := p + length in
          read_while fuel (fun d => bufferLength d <? e) ;;;
          bufEnd <- gets bufferLength ;;
          mret (if bufEnd <? e then bufEnd else e)) ;;
  modify (set_dpos e) ;;;
  gets (fun d => subarray (buffer d) p e).

Definition ds_reset : M (DS S X) unit := modify (set_dpos 0).

Definition ds_makeSubStream (start : Z) (length : jsnum) : M (DS S X) Stream :=
  (match length with
   | None => read_while fuel (fun _ => true)
   | Some l => read_while fuel (fun d => bufferLength d <=? start + l)
   end) ;;;
  gets (fun d => new_Stream (buffer d) (Some start) length).

Definition ds_clone : M (DS S X) Stream :=
  read_while fuel (fun _ => true) ;;;
  gets (fun d => new_Stream (buffer d) (Some 0) (Some (bufferLength d))).

#[export] Instance DS_source : ByteSource (DS S X) := {
  getByte := ds_getByte;
  getBytes := ds_getBytes;
  shift_pos v d := set_dpos (pos d + v) d
}.
End Methods.

(** ** The contract of a decoder *)

(** The bytes decoded so far. *)
Definition produced {S X} (d : DS S X) : list Z :=
  take (Z.to_nat (bufferLength d)) (buffer d).

Record buf_ok {S X} (d : DS S X) : Prop := {
  buf_length : 0 <= bufferLength d <= len (buffer d);
  buf_bytes : Forall is_byte (buffer d);
  buf_min : 0 < minBufferLength d
}.

(** [d'] is [d] after a block that decoded to [chunk]. *)
Record appends {S X} (d d' : DS S X) (chunk : list Z) : Prop := {
  app_produced : produced d' = produced d ++ chunk;
  app_length : bufferLength d' = bufferLength d + len chunk;
  app_ok : buf_ok d';
  app_pos : pos d' = pos d
}.

(** [todo s x done out n]: with the wrapped stream in state [s], the
    subclass's fields in state [x] and [done] decoded so far, at most [n] more
    blocks decode to [out] without throwing. *)
Class DecoderSpec (S X : Type) `{Decoder S X} := {
  todo : S -> X -> list Z -> list Z -> nat -> Prop;
  todo_step (d : DS S X) out n :
    buf_ok d -> eof d = false -> todo (stream d) (ext d) (produced d) out n ->
    exists d' chunk out' n',
      readBlock d = (Ok tt, d') /\ appends d d' chunk /\ out = chunk ++ out' /\
      (n' < n)%nat /\
      if eof d' then out' = [] else todo (stream d') (ext d') (produced d') out' n'
}.

(** ** Growing the buffer *)

Lemma double_until_spec n size r :
  0 < size -> r <= size * 2 ^ Z.of_nat n ->
  exists k, 0 <= k /\ double_until n size r = size * 2 ^ k /\
            r <= double_until n size r /\
            (k = 0 \/ size * 2 ^ (k - 1) < r).
Proof.
  revert size. induction n as [|n IH]; intros size Hs Hr; simpl.
  - exists 0. rewrite Z.pow_0_r in *. split_and!; try lia.
  - destruct (size <? r) eqn:E; bool_hyps.
    + destruct (IH (size * 2)) as (k & Hk & He & Hle & Hmin); [lia| |].
      { rewrite Nat2Z.inj_succ, Z.pow_succ_r in Hr by lia. lia. }
      exists (k + 1). rewrite He in *. rewrite Z.pow_add_r by lia.
      split_and!; try lia. right. replace (k + 1 - 1) with k by lia.
      destruct Hmin as [->|Hmin]; [rewrite Z.pow_0_r; lia|].
      destruct (decide (k = 0)) as [->|]; [rewrite Z.pow_0_r; lia|].
      replace (size * 2 ^ k) with (size * 2 * 2 ^ (k - 1)); [lia|].
      replace k with (Z.succ (k - 1)) at 2 by lia. rewrite Z.pow_succ_r by lia. lia.
    + exists 0. rewrite Z.pow_0_r. split_and!; try lia.
Qed.

(** The least [size * 2^k] that holds [requested] bytes. *)
Lemma grow_size_spec size r :
  0 < size ->
  exists k, 0 <= k /\ grow_size size r = size * 2 ^ k /\ r <= grow_size size r /\
            (k = 0 \/ size * 2 ^ (k - 1) < r).
Proof.
  intros Hs. apply double_until_spec; [done|].
  rewrite Z2Nat.id by apply Z.log2_up_nonneg.
  destruct (decide (r <= 1)) as [|Hr].
  - pose proof (Z.pow_pos_nonneg 2 (Z.log2_up r) ltac:(lia) (Z.log2_up_nonneg r)). nia.
  - pose proof (Z.log2_up_spec r ltac:(lia)).
    pose proof (Z.pow_pos_nonneg 2 (Z.log2_up r) ltac:(lia) (Z.log2_up_nonneg r)). nia.
Qed.

Lemma len_blit {A} (dst src : list A) off :
  0 <= off -> off + len src <= len dst -> len (blit dst src off) = len dst.
Proof. intros. unfold blit. unfold len in *. rewrite !length_app, length_take, length_drop. lia. Qed.

Lemma is_byte_u8 z : is_byte (to_u8 z).
Proof. unfold is_byte, to_u8. apply Z.mod_pos_bound. lia. Qed.

Lemma is_byte_jn_u8 v : is_byte (jn_u8 v).
Proof. apply is_byte_u8. Qed.

Lemma zeros_bytes n : Forall is_byte (zeros n).
Proof. apply Forall_replicate. unfold is_byte; lia. Qed.

Lemma blit_bytes dst src off :
  Forall is_byte dst -> Forall is_byte src -> Forall is_byte (blit dst src off).
Proof. intros. unfold blit. rewrite !Forall_app. auto using Forall_take, Forall_drop. Qed.

Lemma take_blit_before {A} (dst src : list A) off n :
  Z.of_nat n <= off -> off <= len dst -> take n (blit dst src off) = take n dst.
Proof.
  intros Hn Hl. unfold blit. rewrite take_app_le, take_take.
  - f_equal. lia.
  - rewrite length_take. unfold len in Hl. lia.
Qed.

Lemma take_blit_at {A} (dst src : list A) off :
  0 <= off <= len dst ->
  take (Z.to_nat off + length src) (blit dst src off) = take (Z.to_nat off) dst ++ src.
Proof.
  intros Hl. unfold blit. rewrite app_assoc, take_app_length'; [done|].
  rewrite length_app, length_take. unfold len in Hl. lia.
Qed.

(** Writing a chunk at [bufferLength] and advancing it appends the chunk. *)
Lemma produced_blit {S X} (d d' : DS S X) chunk :
  0 <= bufferLength d <= len (buffer d) ->
  buffer d' = blit (buffer d) chunk (bufferLength d) ->
  bufferLength d' = bufferLength d + len chunk ->
  produced d' = produced d ++ chunk.
Proof.
  intros Hl Hb He. unfold produced. rewrite Hb, He.
  replace (Z.to_nat (bufferLength d + len chunk))
    with (Z.to_nat (bufferLength d) + length chunk)%nat by (unfold len; lia).
  apply take_blit_at. lia.
Qed.

Lemma len_produced {S X} (d : DS S X) : buf_ok d -> len (produced d) = bufferLength d.
Proof. intros []. unfold produced. rewrite len_take. lia. Qed.

(** [ensureBuffer] keeps what was produced and makes room. *)
Record ensured {S X} (d d' : DS S X) (requested : Z) : Prop := {
  ens_buffer : len (buffer d) <= len (buffer d') /\ requested <= len (buffer d');
  ens_prefix : take (length (buffer d)) (buffer d') = buffer d;
  ens_ok : buf_ok d';
  ens_same : bufferLength d' = bufferLength d /\ eof d' = eof d /\
             minBufferLength d' = minBufferLength d /\ pos d' = pos d /\
             stream d' = stream d /\ ext d' = ext d
}.

Lemma ensureBuffer_ok {S X} (d : DS S X) r :
  buf_ok d -> exists d', ensureBuffer r d = (Ok (buffer d'), d') /\ ensured d d' r.
Proof.
  intros [Hl Hb Hm]. unfold ensureBuffer.
  destruct (r <=? len (buffer d)) eqn:E; bool_hyps.
  - exists d. split; [done|]. split; [lia|apply firstn_all|by split|done].
  - destruct (grow_size_spec (minBufferLength d) r Hm) as (k & Hk & He & Hr & _).
    set (size := grow_size (minBufferLength d) r) in *.
    exists (set_buffer (blit (zeros size) (buffer d) 0) d). split; [done|].
    assert (Hz : len (zeros size) = size) by (apply len_zeros; lia).
    assert (Hbl : len (blit (zeros size) (buffer d) 0) = size)
      by (rewrite len_blit; rewrite ?Hz; lia).
    split; simpl; [lia| |split; simpl; try lia|done].
    + unfold blit. simpl. apply take_app_length.
    + apply blit_bytes; auto using zeros_bytes.
Qed.

Lemma ensured_produced {S X} (d d' : DS S X) r :
  buf_ok d -> ensured d d' r -> produced d' = produced d.
Proof.
  intros [] [[] Hp _ (Hb & _)]. unfold produced. rewrite Hb, <- Hp, take_take.
  f_equal. unfold len in *. lia.
Qed.

(** ** A decoder that keeps its contract is a byte stream *)

Lemma appends_refl {S X} (d : DS S X) : buf_ok d -> appends d d [].
Proof. intros. split; rewrite ?app_nil_r, ?len_nil; auto; lia. Qed.

Lemma appends_trans {S X} (d1 d2 d3 : DS S X) c1 c2 :
  appends d1 d2 c1 -> appends d2 d3 c2 -> appends d1 d3 (c1 ++ c2).
Proof.
  intros [Hp1 Hl1 _ Hq1] [Hp2 Hl2 Hok Hq2]. split; auto.
  - by rewrite Hp2, Hp1, app_assoc.
  - rewrite len_app. lia.
  - congruence.
Qed.

Section Refinement.
Context {S X : Type} `{DecoderSpec S X} (fuel : nat).
Implicit Types d : DS S X.

(** What [d] has left to decode, in at most [n] blocks. *)
Definition left_to_do d (out : list Z) (n : nat) : Prop :=
  if eof d then out = [] else todo (stream d) (ext d) (produced d) out n.

Lemma read_while_spec more n d out k :
  buf_ok d -> left_to_do d out k -> (k <= n)%nat ->
  exists d' chunk out' k',
    read_while n more d = (Ok tt, d') /\ appends d d' chunk /\ out = chunk ++ out' /\
    left_to_do d' out' k' /\ (k' <= k)%nat /\ (eof d' = true \/ more d' = false).
Proof.
  revert d out k. induction n as [|n IH]; intros d out k Hok Htodo Hk;
    simpl; destruct (eof d) eqn:Ee; simpl.
  all: try (exists d, [], out, k; split_and!; auto using appends_refl; fail).
  all: destruct (more d) eqn:Em.
  all: try (exists d, [], out, k; split_and!; auto using appends_refl; fail).
  all: pose proof Htodo as Ht; unfold left_to_do in Ht; rewrite Ee in Ht;
    destruct (todo_step d out k Hok Ee Ht) as (d1 & c1 & o1 & k1 & Hr & Ha & -> & Hk1 & H1).
  - lia.
  - destruct (IH d1 o1 k1) as (d2 & c2 & o2 & k2 & Hr2 & Ha2 & -> & H2 & Hk2 & Hdone);
      [apply Ha|exact H1|lia|].
    exists d2, (c1 ++ c2), o2, k2. unfold mbind at 1. rewrite Hr.
    split_and!; auto; [by eapply appends_trans|by rewrite app_assoc|lia].
Qed.

(** The two loops of the code agree: [getByte] reads blocks until its byte
    is there, then looks. *)
Definition getByte_end (p : Z) : M (DS S X) jsnum := fun d =>
  if bufferLength d <=? p then (Ok (Some (-1)), d)
  else (Ok (arr_get (buffer d) (pos d)), set_dpos (pos d + 1) d).

Lemma getByte_loop_read_while n p d :
  getByte_loop n p d =
  (read_while n (fun d => bufferLength d <=? p) ;;; getByte_end p) d.
Proof.
  revert d. induction n as [|n IH]; intros d; unfold mbind, getByte_end in *; simpl;
    destruct (bufferLength d <=? p) eqn:E, (eof d); simpl; rewrite ?E; try done.
  unfold mbind. destruct (readBlock d) as [[a|e|] d1]; [|done..]. apply IH.
Qed.

Lemma produced_head d :
  buf_ok d -> 0 <= pos d < bufferLength d ->
  exists b, arr_get (buffer d) (pos d) = Some b /\
    drop (Z.to_nat (pos d)) (produced d) = b :: drop (Z.to_nat (pos d + 1)) (produced d).
Proof.
  intros Hok Hp. destruct (drop (Z.to_nat (pos d)) (produced d)) as [|b r] eqn:Hd.
  - apply (f_equal len) in Hd. pose proof (len_produced d Hok). len_lia.
  - exists b. replace (Z.to_nat (pos d + 1)) with (Datatypes.S (Z.to_nat (pos d))) by lia.
    rewrite (drop_succ_cons _ _ _ _ Hd). split; [|done].
    assert (Hg : produced d !! Z.to_nat (pos d) = Some b)
      by (rewrite <- (Nat.add_0_r (Z.to_nat (pos d))), <- lookup_drop, Hd; done).
    unfold produced in Hg. rewrite lookup_take in Hg. case_decide; [|done].
    unfold arr_get. by ztest.
Qed.

(** The bytes a client can still read: those produced and not yet taken,
    then those left to decode. *)
Definition ds_rest d (r : list Z) : Prop :=
  buf_ok d /\ 0 <= pos d <= bufferLength d /\ Forall is_byte r /\
    exists out k, left_to_do d out k /\ (k <= fuel)%nat /\
    r = drop (Z.to_nat (pos d)) (produced d) ++ out.

Lemma ds_rest_set_pos d out k p :
  buf_ok d -> left_to_do d out k -> (k <= fuel)%nat -> 0 <= p <= bufferLength d ->
  Forall is_byte out ->
  ds_rest (set_dpos p d) (drop (Z.to_nat p) (produced d) ++ out).
Proof.
  intros [Hl Hb Hm] Ht Hk Hp Ho. split; [by split|]. split; [done|]. split.
  - apply Forall_app; split; [|done]. apply Forall_drop, Forall_take, Hb.
  - exists out, k. done.
Qed.

Lemma ds_rest_after_loop d1 d2 c out1 out2 p :
  buf_ok d1 -> appends d1 d2 c -> out1 = c ++ out2 ->
  0 <= p <= bufferLength d1 ->
  drop (Z.to_nat p) (produced d1) ++ out1 = drop (Z.to_nat p) (produced d2) ++ out2.
Proof.
  intros Hok [Hp _ _ _] -> Hb. rewrite Hp, app_assoc, drop_app_le; [done|].
  pose proof (len_produced d1 Hok). unfold len in *. lia.
Qed.

Lemma ds_getByte_spec d r :
  ds_rest d r ->
  exists d', ds_getByte fuel d =
    (Ok (match r with [] => Some (-1) | b :: _ => Some b end), d') /\
    ds_rest d' (tail r) /\
    match r with [] => True | _ => ds_rest (set_dpos (pos d' + -1) d') r end.
Proof.
  intros (Hok & Hp & Hb & out & k & Ht & Hk & ->).
  unfold ds_getByte. rewrite getByte_loop_read_while.
  destruct (read_while_spec (fun d' => bufferLength d' <=? pos d) fuel d out k Hok Ht Hk)
    as (d2 & c & o2 & k2 & Hr & Ha & Ho & Ht2 & Hk2 & Hstop).
  rewrite (ds_rest_after_loop d d2 c out o2 (pos d)) by auto; try lia.
  unfold mbind, getByte_end. rewrite Hr. destruct Ha as [Hpr Hl Hok2 Hpos].
  pose proof (len_nonneg c).
  assert (Ho2 : Forall is_byte o2) by (subst out; apply Forall_app in Hb as [_ Hb];
    by apply Forall_app in Hb as [_ Hb]).
  destruct (bufferLength d2 <=? pos d) eqn:E; bool_hyps.
  - destruct Hstop as [Heof|]; [|discriminate]. unfold left_to_do in Ht2.
    pose proof (len_produced d2 Hok2) as Hlp.
    rewrite Heof in Ht2. rewrite Ht2, (drop_ge (produced d2)) by (unfold len in *; lia).
    exists d2. split; [done|]. split; [|done].
    split; [done|]. split; [lia|]. split; [constructor|].
    exists [], 0%nat. unfold left_to_do. rewrite Heof. split_and!; auto; try lia.
    rewrite drop_ge; [done|unfold len in *; lia].
  - rewrite <- Hpos in *.
    destruct (produced_head d2 Hok2) as (b & Hg & Hd); [lia|].
    rewrite Hg, Hd. simpl. exists (set_dpos (pos d2 + 1) d2). split; [done|].
    split; [apply ds_rest_set_pos with k2; auto; lia|].
    simpl. replace (pos d2 + 1 + -1) with (pos d2) by lia.
    change (set_dpos _ (set_dpos _ _)) with (set_dpos (pos d2) d2).
    rewrite app_comm_cons, <- Hd. apply ds_rest_set_pos with k2; auto; lia.
Qed.

Lemma left_to_do_ensured d d' q out k :
  buf_ok d -> ensured d d' q -> left_to_do d out k -> left_to_do d' out k.
Proof.
  intros Hok He. unfold left_to_do. rewrite (ensured_produced _ _ _ Hok He).
  destruct He as [_ _ _ (_ & -> & _ & _ & -> & ->)]. done.
Qed.

(** The prefix of [getBytes] that reads the blocks, for both kinds of call:
    it leaves the end of the requested range. *)
Definition getBytes_end (p length : Z) : M (DS S X) Z :=
  if length =? 0 then
    read_while fuel (fun _ => true) ;;; gets bufferLength
  else
    ensureBuffer (p + length) ;;;
    let e := p + length in
    read_while fuel (fun d => bufferLength d <? e) ;;;
    bufEnd <- gets bufferLength ;;
    mret (if bufEnd <? e then bufEnd else e).

Lemma getBytes_end_spec d r n :
  ds_rest d r -> 0 <= n ->
  exists d' e out k,
    getBytes_end (pos d) n d = (Ok e, d') /\ buf_ok d' /\ pos d' = pos d /\
    left_to_do d' out k /\ (k <= fuel)%nat /\ Forall is_byte out /\
    r = drop (Z.to_nat (pos d)) (produced d') ++ out /\
    pos d <= e <= bufferLength d' /\
    (if n =? 0 then out = [] /\ e = bufferLength d'
     else e = pos d + n \/ out = [] /\ e = bufferLength d' /\ e <= pos d + n).
Proof.
  intros (Hok & Hp & Hb & out & k & Ht & Hk & Hr) Hn.
  assert (Hstep : forall more d1, buf_ok d1 -> produced d1 = produced d ->
    pos d1 = pos d -> bufferLength d1 = bufferLength d -> left_to_do d1 out k ->
    exists d2 o2 k2, read_while fuel more d1 = (Ok tt, d2) /\ buf_ok d2 /\
      pos d2 = pos d /\ left_to_do d2 o2 k2 /\ (k2 <= fuel)%nat /\ Forall is_byte o2 /\
      r = drop (Z.to_nat (pos d)) (produced d2) ++ o2 /\
      bufferLength d <= bufferLength d2 /\ (eof d2 = true \/ more d2 = false)).
  { intros more d1 Hok1 Hpr Hps Hbl Ht1.
    destruct (read_while_spec more fuel d1 out k Hok1 Ht1 Hk)
      as (d2 & c & o2 & k2 & Hrw & Ha & Ho & Ht2 & Hk2 & Hs).
    rewrite <- Hpr, (ds_rest_after_loop d1 d2 c out o2 (pos d)) in Hr by (auto; lia).
    destruct Ha as [_ Hl Hok2 Hps2]. pose proof (len_nonneg c).
    exists d2, o2, k2. split_and!; auto; try lia.
    rewrite Hr in Hb. by apply Forall_app in Hb as [_ Hb]. }
  unfold getBytes_end. destruct (n =? 0) eqn:En; bool_hyps.
  - destruct (Hstep (fun _ => true) d) as (d2 & o2 & k2 & Hrw & ? & ? & Ht2 & ? & ? & ? & ? & Hs);
      auto.
    destruct Hs as [He|]; [|done]. unfold left_to_do in Ht2. rewrite He in Ht2. subst o2.
    exists d2, (bufferLength d2), [], 0%nat. unfold mbind, gets. rewrite Hrw.
    split_and!; auto; try lia. unfold left_to_do. by rewrite He.
  - destruct (ensureBuffer_ok d (pos d + n) Hok) as (d1 & He & Hens).
    pose proof (ensured_produced _ _ _ Hok Hens) as Hpr.
    pose proof (left_to_do_ensured _ _ _ _ _ Hok Hens Ht) as Ht1.
    destruct Hens as [_ _ Hok1 (Hbl & _ & _ & Hps & _)].
    destruct (Hstep (fun d' => bufferLength d' <? pos d + n) d1)
      as (d2 & o2 & k2 & Hrw & ? & ? & Ht2 & ? & ? & ? & ? & Hs); auto.
    exists d2, (if bufferLength d2 <? pos d + n then bufferLength d2 else pos d + n), o2, k2.
    unfold mbind, gets, mret. rewrite He, Hrw. split_and!; auto.
    + case_bool; lia.
    + case_bool; lia.
    + destruct Hs as [Heof|Hs]; bool_hyps; [|rewrite (proj2 (Z.ltb_ge _ _)) by lia; auto].
      unfold left_to_do in Ht2. rewrite Heof in Ht2. subst o2.
      case_bool; [right; split_and!; auto; lia|by left].
Qed.

Lemma subarray_produced d p e :
  buf_ok d -> 0 <= p <= e -> e <= bufferLength d ->
  subarray (buffer d) p e =
  take (Z.to_nat (e - p)) (drop (Z.to_nat p) (produced d)).
Proof.
  intros [Hl _ _] Hp He. rewrite subarray_in by lia. unfold produced.
  rewrite skipn_firstn_comm, take_take. f_equal. lia.
Qed.

Lemma ds_getBytes_spec d r n :
  ds_rest d r -> 0 <= n ->
  let k := if n =? 0 then length r else Z.to_nat n in
  exists d', ds_getBytes fuel n d = (Ok (take k r), d') /\ ds_rest d' (drop k r) /\
             ds_rest (set_dpos (pos d' + - len (take k r)) d') r.
Proof.
  intros Hrest Hn k. pose proof Hrest as (_ & Hp & _).
  destruct (getBytes_end_spec d r n Hrest Hn)
    as (d2 & e & o2 & k2 & Hg & Hok2 & Hps & Ht2 & Hk2 & Hbo & -> & He & Hcase).
  pose proof (len_produced d2 Hok2) as Hlp.
  set (head := take (Z.to_nat (e - pos d)) (drop (Z.to_nat (pos d)) (produced d2))).
  assert (Hhl : len head = e - pos d) by (unfold head; len_lia).
  assert (Htd : take k (drop (Z.to_nat (pos d)) (produced d2) ++ o2) = head /\
                drop k (drop (Z.to_nat (pos d)) (produced d2) ++ o2) =
                drop (Z.to_nat e) (produced d2) ++ o2).
  { assert (Hdl : length (drop (Z.to_nat (pos d)) (produced d2)) =
                  Z.to_nat (bufferLength d2 - pos d))
      by (rewrite length_drop; unfold len in Hlp; lia).
    assert (Hcut : k = Z.to_nat (e - pos d) \/
      (o2 = [] /\ e = bufferLength d2 /\ (Z.to_nat (e - pos d) <= k)%nat)).
    { subst k. destruct (n =? 0).
      - right. destruct Hcase as [-> ->]. rewrite app_nil_r, Hdl. auto.
      - destruct Hcase as [->|(-> & -> & ?)]; [left; f_equal; lia|right]. split_and!; auto; lia. }
    unfold head. clearbody k. destruct Hcut as [->|(-> & -> & Hge)].
    - rewrite take_app_le, drop_app_le, drop_drop by lia. split; [done|]. do 2 f_equal. lia.
    - rewrite !app_nil_r.
      rewrite (take_ge _ k), (take_ge _ (Z.to_nat (_ - _))), (drop_ge _ k), (drop_ge (produced d2) (Z.to_nat (bufferLength d2)))
        by (rewrite ?Hdl; unfold len in Hlp; lia). done. }
  destruct Htd as [-> ->].
  exists (set_dpos e d2). split.
  - change (ds_getBytes fuel n d) with
      ((e' <- getBytes_end (pos d) n ;; modify (set_dpos e') ;;;
        gets (fun d' => subarray (buffer d') (pos d) e')) d).
    unfold mbind, modify, gets. rewrite Hg. simpl.
    by rewrite (subarray_produced d2) by (auto; lia).
  - rewrite Hhl. simpl. replace (e + - (e - pos d)) with (pos d) by lia.
    change (set_dpos (pos d) (set_dpos e d2)) with (set_dpos (pos d) d2).
    split; apply ds_rest_set_pos with k2; auto; lia.
Qed.
End Refinement.

(** A decoder that keeps its contract is a source: decoders compose. *)
#[export] Program Instance DS_spec {S X} `{DecoderSpec S X} (fuel : nat) :
  @SourceSpec (DS S X) (DS_source fuel) := {
  rest := ds_rest fuel
}.
Next Obligation. intros S X ? ? fuel d r Hr. apply Hr. Qed.
Next Obligation.
  intros S X ? ? fuel d Hr. destruct (ds_getByte_spec fuel d [] Hr) as (d' & ? & ? & _). eauto.
Qed.
Next Obligation.
  intros S X ? ? fuel d b r Hr. destruct (ds_getByte_spec fuel d _ Hr) as (d' & ? & ? & ?). eauto.
Qed.
Next Obligation. intros S X ? ? fuel d r n Hr Hn. by apply ds_getBytes_spec. Qed.

(** ** Writing decoded bytes *)

(** [buffer.set(chunk, off)] and [buffer.fill(v, b, e)] on [this.buffer]. *)
Definition buf_set {S X} (chunk : list Z) (off : Z) : M (DS S X) unit :=
  d <- get ;;
  b <- arr_put (buffer d) chunk off ;;
  modify (set_buffer b).

Definition buf_fill {S X} (v b e : Z) : M (DS S X) unit :=
  modify (fun d => set_buffer (fill (buffer d) (to_u8 v) b e) d).

(** [d'] differs from [d] in its buffer and its length only. *)
Definition same_rest {S X} (d d' : DS S X) : Prop :=
  eof d' = eof d /\ pos d' = pos d /\ stream d' = stream d /\ ext d' = ext d.

Lemma appends_blit {S X} (d d' : DS S X) chunk :
  buf_ok d -> Forall is_byte chunk ->
  bufferLength d + len chunk <= len (buffer d) ->
  buffer d' = blit (buffer d) chunk (bufferLength d) ->
  bufferLength d' = bufferLength d + len chunk ->
  pos d' = pos d -> minBufferLength d' = minBufferLength d ->
  appends d d' chunk.
Proof.
  intros [Hl Hb Hm] Hc Hle Hbuf Hbl Hp Hmin. pose proof (len_nonneg chunk).
  split; auto.
  - by apply produced_blit.
  - split; [|rewrite Hbuf; by apply blit_bytes|lia].
    rewrite Hbuf, Hbl, len_blit; lia.
Qed.

Lemma ensured_appends {S X} (d d1 d2 : DS S X) r chunk :
  buf_ok d -> ensured d d1 r -> appends d1 d2 chunk -> appends d d2 chunk.
Proof.
  intros Hok He [Hp Hl Hok2 Hq].
  pose proof (ensured_produced _ _ _ Hok He) as Hpr. destruct He as [_ _ _ (Hb & _ & _ & Hps & _)].
  split; [by rewrite Hp, Hpr|lia|done|congruence].
Qed.

(** The usual end of a [readBlock]: make room, copy the chunk, advance. *)
Definition emit {S X} (chunk : list Z) : M (DS S X) unit :=
  bufferLength <- gets bufferLength ;;
  ensureBuffer (bufferLength + len chunk) ;;;
  buf_set chunk bufferLength ;;;
  modify (set_bufferLength (bufferLength + len chunk)).

#[export] Hint Unfold buf_set buf_fill buf_write on_stream : js_m.

Lemma emit_ok {S X} (d : DS S X) chunk :
  buf_ok d -> Forall is_byte chunk ->
  exists d', emit chunk d = (Ok tt, d') /\ appends d d' chunk /\ same_rest d d'.
Proof.
  intros Hok Hc. unfold emit. m_red.
  destruct (ensureBuffer_ok d (bufferLength d + len chunk) Hok) as (d1 & He & Hens).
  rewrite He. pose proof Hens as [[_ Hroom] _ Hok1 (Hbl & Hrest)].
  rewrite <- Hbl in *. pose proof Hok1 as [[Hl1 _] _ _].
  rewrite (proj2 (Z.leb_le 0 _)), (proj2 (Z.leb_le (_ + _) _)) by lia. simpl.
  eexists. split; [reflexivity|]. split; [|by destruct Hrest as (?&?&?&?&?)].
  eapply ensured_appends; [done..|]. by apply appends_blit.
Qed.

(** ** StreamsSequenceStream *)

(** [_onError] is an optional callback; [errors] records its calls. *)
Record SeqFields := mkSeq { onError : bool; errors : list exn }.

Section StreamsSequence.
Context {S : Type} `{ByteSource S}.

(** [streams] and [maybeLength]: the constructor keeps the streams that are
    not image streams, and sums their length hints. *)
Definition new_StreamsSequenceStream (streams : list (S * bool)) (hint : S -> Z)
    (has_onError : bool) : DS (list S) SeqFields :=
  let streams := map fst (List.filter (fun si => negb (snd si)) streams) in
  let maybeLength := fold_left (fun n s => n + hint s) streams 0 in
  new_DecodeStream (Some maybeLength) streams (mkSeq has_onError []).

Definition seq_readBlock : M (DS (list S) SeqFields) unit :=
  streams <- gets stream ;;
  match streams with
  | [] => modify (set_eof true)
  | s :: streams' =>
      modify (set_stream streams') ;;;
      match fst (getBytes 0 s) with
      | Ok chunk => emit chunk
      | Throw reason =>
          x <- gets ext ;;
          if onError x
          then modify (set_ext (mkSeq true (errors x ++ [reason])))
          else throw reason
      | OutOfFuel => fun d => (OutOfFuel, d)
      end
  end.

#[export] Instance seq_decoder : Decoder (list S) SeqFields := {
  readBlock := seq_readBlock
}.
End StreamsSequence.

Lemma buf_ok_same {S X} (d d' : DS S X) :
  buffer d' = buffer d -> bufferLength d' = bufferLength d ->
  minBufferLength d' = minBufferLength d -> buf_ok d -> buf_ok d'.
Proof. intros Hb Hl Hm []. split; rewrite ?Hb, ?Hl, ?Hm; auto. Qed.

Lemma appends_nothing {S X} (d d' : DS S X) :
  buffer d' = buffer d -> bufferLength d' = bufferLength d ->
  minBufferLength d' = minBufferLength d -> pos d' = pos d -> buf_ok d ->
  appends d d' [].
Proof.
  intros Hb Hl Hm Hp Hok. split; [| | |done].
  - unfold produced. by rewrite Hb, Hl, app_nil_r.
  - rewrite Hl, len_nil. lia.
  - by eapply buf_ok_same.
Qed.

Lemma appends_set_stream {S X} (d d' : DS S X) s c :
  appends (set_stream s d) d' c -> appends d d' c.
Proof. intros [Hp Hl Hok Hq]. by split. Qed.

(** Concatenation: if each stream has its bytes left, the sequence decodes to
    all of them in order. *)
#[export] Program Instance seq_spec {S} `{SourceSpec S} :
  DecoderSpec (list S) SeqFields := {
  todo streams x done out n :=
    n = Datatypes.S (length streams) /\
    exists parts, Forall2 rest streams parts /\ out = concat parts
}.
Next Obligation.
  intros S ? ? d out n Hok He [-> (parts & Hall & ->)].
  simpl. unfold seq_readBlock.
  destruct (stream d) as [|s streams] eqn:Es; inversion Hall as [|? r ? parts' Hr Hall']; subst;
    m_red; rewrite Es; cbv beta iota.
  - exists (set_eof true d), [], [], 0%nat. split_and!; auto; [|done].
    by apply appends_nothing.
  - destruct (rest_getBytes s r 0 Hr) as (s' & Hg & _ & _); [lia|].
    rewrite Hg. simpl. rewrite firstn_all.
    destruct (emit_ok (set_stream streams d) r) as (d' & He' & Ha & Hs);
      [by apply (buf_ok_same d)|by eapply rest_bytes|].
    destruct Hs as (Hef & _ & Hst & _). simpl in *.
    exists d', r, (concat parts'), (Datatypes.S (length streams)).
    rewrite He', Hef, He, Hst.
    split_and!; try done; [by apply appends_set_stream in Ha|simpl; lia|by exists parts'].
Qed.

(** ** Reading a fresh stream to its end *)

Lemma grow_size_pos size r : 0 < size -> 0 < grow_size size r.
Proof.
  intros Hs. destruct (grow_size_spec size r Hs) as (k & Hk & -> & _).
  pose proof (Z.pow_pos_nonneg 2 k). nia.
Qed.

Lemma new_DecodeStream_ok {S X} m (s : S) (x : X) : buf_ok (new_DecodeStream m s x).
Proof.
  split; simpl; [unfold len; simpl; lia|constructor|].
  destruct (jn_or m 0 =? 0); [lia|by apply grow_size_pos].
Qed.

Lemma ds_read_all {S X} `{DecoderSpec S X} fuel m (s : S) (x : X) out n :
  todo s x [] out n -> Forall is_byte out -> (n <= fuel)%nat ->
  fst (ds_getBytes fuel 0 (new_DecodeStream m s x)) = Ok out.
Proof.
  intros Ht Hb Hn.
  destruct (ds_getBytes_spec fuel (new_DecodeStream m s x) out 0) as (d' & Hg & _); [|lia|].
  - split; [apply new_DecodeStream_ok|]. split; [simpl; lia|]. split; [done|].
    exists out, n. done.
  - rewrite Hg. simpl. by rewrite firstn_all.
Qed.

Lemma new_Stream_rest bytes :
  Forall is_byte bytes -> stream_rest (new_Stream bytes None None) bytes.
Proof.
  intros Hb. pose proof (len_nonneg bytes). split; [split; simpl; auto; lia|].
  simpl. rewrite subarray_in by lia. rewrite Z.sub_0_r. simpl. rewrite drop_0.
  rewrite take_ge; [done|unfold len; lia].
Qed.

(** A byte written in place, then a chunk after it. *)
Lemma blit_cons {A} (b : list A) v chunk i :
  0 <= i -> i < len b ->
  blit (arr_set b i v) chunk (i + 1) = blit b (v :: chunk) i.
Proof.
  intros Hi Hl. unfold blit, arr_set. ztest.
  rewrite insert_take_drop by (unfold len in Hl; lia).
  assert (Ht : length (take (Z.to_nat i) b) = Z.to_nat i)
    by (rewrite length_take; unfold len in Hl; lia).
  replace (Z.to_nat (i + 1)) with (Z.to_nat i + 1)%nat by lia.
  rewrite take_app_ge by lia. rewrite Ht.
  replace (Z.to_nat i + 1 - Z.to_nat i)%nat with 1%nat by lia.
  rewrite <- app_assoc. simpl. do 3 f_equal.
  rewrite drop_app_ge by lia. rewrite Ht.
  replace (Z.to_nat i + 1 + length chunk - Z.to_nat i)%nat
    with (S (length chunk)) by lia.
  simpl. rewrite drop_drop. f_equal. lia.
Qed.

Lemma blit_nil {A} (b : list A) i : blit b [] i = b.
Proof. unfold blit. simpl. rewrite Nat.add_0_r. apply take_drop. Qed.

Lemma blit_app {A} (b : list A) c1 c2 i :
  0 <= i -> i + len c1 + len c2 <= len b ->
  blit (blit b c1 i) c2 (i + len c1) = blit b (c1 ++ c2) i.
Proof.
  revert b i. induction c1 as [|v c1 IH]; intros b i Hi Hl.
  - rewrite len_nil, Z.add_0_r, blit_nil. done.
  - rewrite len_cons in *. pose proof (len_nonneg c1). pose proof (len_nonneg c2).
    simpl. rewrite <- !blit_cons by lia.
    replace (i + (len c1 + 1)) with (i + 1 + len c1) by lia.
    apply IH; rewrite ?len_arr_set; lia.
Qed.

(** Read the fields of a state the setters have built. *)
Ltac ds_simpl :=
  cbn [buffer bufferLength eof minBufferLength pos stream ext
       set_buffer set_bufferLength set_eof set_dpos set_stream set_ext].

(** ** A block in progress *)
Section InProgress.
Context {S X : Type}.
Implicit Type d : DS S X.

(** Reading the source leaves the decoded bytes alone. *)
Definition same_buffer d d' : Prop :=
  buffer d' = buffer d /\ bufferLength d' = bufferLength d /\ eof d' = eof d /\
  minBufferLength d' = minBufferLength d /\ pos d' = pos d.

Lemma same_buffer_refl d : same_buffer d d.
Proof. by split_and!. Qed.

Lemma same_buffer_trans d1 d2 d3 : same_buffer d1 d2 -> same_buffer d2 d3 -> same_buffer d1 d3.
Proof. intros (?&?&?&?&?) (?&?&?&?&?). split_and!; congruence. Qed.

(** The bytes [out] are written before [p], which [bufferLength] may not say
    yet. *)
Record so_far d (p : Z) (out : list Z) : Prop := {
  sf_ok : buf_ok (set_bufferLength p d);
  sf_out : produced (set_bufferLength p d) = out
}.

Lemma so_far_len d p out : so_far d p out -> len out = p.
Proof. intros [Hok <-]. by rewrite (len_produced _ Hok). Qed.

Lemma so_far_start d : buf_ok d -> so_far d (bufferLength d) (produced d).
Proof. intros Hok. split; by destruct d. Qed.

Lemma so_far_same d d' p out :
  so_far d p out -> buffer d' = buffer d -> minBufferLength d' = minBufferLength d ->
  so_far d' p out.
Proof.
  intros [Hok Hout] Hb Hm. split; [by eapply buf_ok_same; [..|exact Hok]|].
  rewrite <- Hout. unfold produced. cbn [buffer bufferLength set_bufferLength]. by rewrite Hb.
Qed.

(** A chunk written at [p]. *)
Lemma so_far_blit d p out chunk :
  so_far d p out -> p + len chunk <= len (buffer d) -> Forall is_byte chunk ->
  so_far (set_buffer (blit (buffer d) chunk p) d) (p + len chunk) (out ++ chunk).
Proof.
  intros [[Hl Hby Hm] Hout] Hroom Hc. cbn [buffer bufferLength set_bufferLength] in *.
  pose proof (len_nonneg chunk). split.
  - split; cbn [buffer bufferLength minBufferLength set_bufferLength set_buffer]; auto;
      [rewrite len_blit; lia|by apply blit_bytes].
  - rewrite <- Hout. by apply produced_blit.
Qed.

Lemma so_far_write d p out b :
  so_far d p out -> p + 1 <= len (buffer d) -> is_byte b ->
  so_far (set_buffer (arr_set (buffer d) p (jn_u8 (Some b))) d) (p + 1) (out ++ [b]).
Proof.
  intros Hsf Hroom Hb. pose proof (so_far_len _ _ _ Hsf). pose proof (len_nonneg out).
  unfold jn_u8. cbn [default from_option id]. rewrite to_u8_small by done.
  rewrite <- (blit_nil (arr_set _ _ _) (p + 1)), blit_cons by lia.
  by apply (so_far_blit d p out [b]); [| |constructor].
Qed.

(** The end of a block. *)
Lemma so_far_appends d d' chunk :
  buf_ok d -> so_far d' (bufferLength d') (produced d ++ chunk) -> pos d' = pos d ->
  appends d d' chunk.
Proof.
  intros Hok [Hok' Hout] Hp. assert (Hd : set_bufferLength (bufferLength d') d' = d') by (by destruct d').
  rewrite Hd in *. split; auto.
  rewrite <- (len_produced _ Hok'), <- (len_produced _ Hok), Hout. apply len_app.
Qed.

(** Room up to [e] keeps what is written. *)
Lemma so_far_ensure d p out e :
  so_far d p out ->
  exists d', ensureBuffer e d = (Ok (buffer d'), d') /\
    e <= len (buffer d') /\ len (buffer d) <= len (buffer d') /\ so_far d' p out /\
    bufferLength d' = bufferLength d /\ eof d' = eof d /\ pos d' = pos d /\
    stream d' = stream d /\ ext d' = ext d.
Proof.
  intros [Hok Hout]. destruct (ensureBuffer_ok (set_bufferLength p d) e Hok) as (d1 & Hrun & Hens).
  exists (set_bufferLength (bufferLength d) d1).
  pose proof (ensured_produced _ _ _ Hok Hens) as Hpr.
  destruct Hens as [[Hge He] _ Hok1 (Hbl & Hef & Hmin & Hps & Hst & Hx)].
  split_and!; auto.
  - unfold ensureBuffer in *. cbn [buffer set_bufferLength minBufferLength] in *.
    destruct (e <=? len (buffer d)); injection Hrun as _ <-; by destruct d.
  - split; [eapply buf_ok_same; [..|exact Hok1]; auto|].
    rewrite <- Hout, <- Hpr. unfold produced. cbn [bufferLength buffer set_bufferLength] in *. by rewrite Hbl.
Qed.
End InProgress.
