(* ===== verification/Ascii85.v ===== *)
(** * ASCII base-85 decoding

    [Ascii85Stream] of pdf.worker.mjs, its specification as the relation
    [a85] between the characters of an encoded text and the bytes it stands
    for, and the proof that the stream decodes every such text, whatever white
    space is mixed in. *)
From S2P Require Import Prelude ByteStream DecodeStream.
Local Open Scope js_scope.

(** [isWhiteSpace] of core_utils.js *)
Definition isWhiteSpace (ch : jsnum) : bool :=
  jn_is ch 0x20 || jn_is ch 0x09 || jn_is ch 0x0d || jn_is ch 0x0a.

Definition TILDA_CHAR : Z := 0x7e.
Definition Z_LOWER_CHAR : Z := 0x7a.
Definition EOF : Z := -1.

Section Ascii85Stream.
Context {S : Type} `{ByteSource S} (fuel : nat).

(** The field the class adds is [#input], five bytes. *)
Abbreviation st := (DS S (list Z)).

Definition new_Ascii85Stream (str : S) (maybeLength : jsnum) : st :=
  let hint := match maybeLength with
              | Some l => if l =? 0 then maybeLength else Some (- ((- 4 * l) / 5))
              | None => None
              end in
  new_DecodeStream hint str (zeros 5).

(** [c = str.getByte(); while (isWhiteSpace(c)) c = str.getByte();] *)
Fixpoint next_char (n : nat) : M st jsnum :=
  c <- on_stream getByte ;;
  if isWhiteSpace c then
    match n with
    | O => fun d => (OutOfFuel, d)
    | Datatypes.S n' => next_char n'
    end
  else mret c.

Definition input_set (i : Z) (c : jsnum) : M st unit :=
  modify (fun d => set_ext (arr_set (ext d) i (jn_u8 c)) d).

(** The loop over the other four characters of a group, [k] of them left;
    its result is the final [i]. *)
Fixpoint read_group (k : nat) : M st Z :=
  match k with
  | O => mret 5
  | Datatypes.S k' =>
      let i := 5 - Z.of_nat k in
      c <- next_char fuel ;;
      input_set i c ;;;
      if jn_is c EOF || jn_is c TILDA_CHAR then mret i else read_group k'
  end.

(** [t = t * 85 + (input[i] - 0x21)] over the five characters. *)
Definition group_value (input : list Z) : Z :=
  fold_left (fun t c => t * 85 + (c - 0x21)) (take 5 input) 0.

(** [for (i = 3; i >= 0; --i) { buffer[bufferLength + i] = t & 0xff; t >>= 8; }] *)
Fixpoint write_group (k : nat) (bufferLength t : Z) : M st unit :=
  match k with
  | O => mret tt
  | Datatypes.S k' =>
      buf_write (bufferLength + Z.of_nat k') (Some (t .& 0xff)) ;;;
      write_group k' bufferLength (t .>> 8)
  end.

(** The rest of [readBlock], once the group's [i] characters are read. *)
Definition finish_group (bufferLength i : Z) : M st unit :=
  ensureBuffer (bufferLength + i - 1) ;;;
  modify (set_bufferLength (bufferLength + (i - 1))) ;;;
  (if i <? 5 then
     modify (fun d => set_ext (fill (ext d) (0x21 + 84) i 5) d) ;;;
     modify (set_eof true)
   else mret tt) ;;;
  input <- gets ext ;;
  write_group 4 bufferLength (group_value input).

Definition a85_readBlock : M st unit :=
  c <- next_char fuel ;;
  if jn_is c EOF || jn_is c TILDA_CHAR then modify (set_eof true)
  else
    bufferLength <- gets bufferLength ;;
    if jn_is c Z_LOWER_CHAR then
      ensureBuffer (bufferLength + 4) ;;;
      buf_fill 0 bufferLength (bufferLength + 4) ;;;
      modify (set_bufferLength (bufferLength + 4))
    else
      input_set 0 c ;;;
      i <- read_group 4 ;;
      finish_group bufferLength i.

#[export] Instance a85_decoder : Decoder S (list Z) := {
  readBlock := a85_readBlock
}.
End Ascii85Stream.

(** ** What an encoded text stands for *)

Definition is_ws (b : Z) : bool := isWhiteSpace (Some b).

Definition strip (r : list Z) : list Z := List.filter (fun b => negb (is_ws b)) r.

Definition be_value (bs : list Z) : Z := fold_left (fun t b => t * 256 + b) bs 0.

(** The five base-85 digits of a 32-bit value, as characters from [!]. *)
Definition a85_digits (v : Z) : list Z :=
  [ v / 85 ^ 4 + 0x21; v / 85 ^ 3 mod 85 + 0x21; v / 85 ^ 2 mod 85 + 0x21;
    v / 85 mod 85 + 0x21; v mod 85 + 0x21 ].

Inductive a85 : list Z -> list Z -> Prop :=
| a85_end : a85 [] []
| a85_tilde t : a85 (TILDA_CHAR :: t) []
| a85_z t out : a85 t out -> a85 (Z_LOWER_CHAR :: t) (0 :: 0 :: 0 :: 0 :: out)
| a85_group b0 b1 b2 b3 t out :
    a85 t out ->
    a85 (a85_digits (be_value [b0; b1; b2; b3]) ++ t) (b0 :: b1 :: b2 :: b3 :: out)
| a85_last bs t :
    (0 < length bs < 4)%nat -> a85 t [] ->
    a85 (take (Datatypes.S (length bs))
           (a85_digits (be_value (bs ++ replicate (4 - length bs) 0))) ++ t) bs.

(** The standard encoder: groups of four bytes, [z] for a group of zeros, a
    shorter last group, and the end marker. *)
Fixpoint a85_encode (bs : list Z) : list Z :=
  match bs with
  | [] => [TILDA_CHAR; 0x3e]
  | b0 :: b1 :: b2 :: b3 :: bs' =>
      let v := be_value [b0; b1; b2; b3] in
      (if v =? 0 then [Z_LOWER_CHAR] else a85_digits v) ++ a85_encode bs'
  | _ =>
      take (Datatypes.S (length bs)) (a85_digits (be_value (bs ++ replicate (4 - length bs) 0)))
      ++ [TILDA_CHAR; 0x3e]
  end.

Example a85_text :
  a85_encode [0x4d; 0x61; 0x6e; 0x20; 0; 0; 0; 0; 0x64] =
  [57; 106; 113; 111; 94; 122; 65; 44; TILDA_CHAR; 0x3e].
Proof. reflexivity. Qed.

Example a85_run :
  fst (getBytes (ByteSource := DS_source (H := a85_decoder 10) 10) 0
    (new_Ascii85Stream
      (new_Stream [57; 32; 106; 113; 10; 111; 94; 122; 65; 44; 126; 62] None None) (Some 100)))
  = Ok [0x4d; 0x61; 0x6e; 0x20; 0; 0; 0; 0; 0x64].
Proof. vm_compute. reflexivity. Qed.

(** ** Arithmetic of a group *)

Ltac div_lia := Z.to_euclidean_division_equations; lia.

Lemma a85_quotients v :
  v / 85 ^ 2 = v / 85 / 85 /\ v / 85 ^ 3 = v / 85 / 85 / 85 /\
  v / 85 ^ 4 = v / 85 / 85 / 85 / 85.
Proof. rewrite !Z.div_div by lia. done. Qed.

Lemma group_value_digits v : group_value (a85_digits v) = v.
Proof.
  destruct (a85_quotients v) as (H2 & H3 & H4).
  unfold group_value, a85_digits. cbv [take fold_left].
  rewrite H4, H3, H2.
  pose proof (Z.div_mod v 85). pose proof (Z.div_mod (v / 85) 85).
  pose proof (Z.div_mod (v / 85 / 85) 85). pose proof (Z.div_mod (v / 85 / 85 / 85) 85). lia.
Qed.

Lemma be_value4 b0 b1 b2 b3 :
  be_value [b0; b1; b2; b3] = b0 * 2 ^ 24 + b1 * 2 ^ 16 + b2 * 2 ^ 8 + b3.
Proof. unfold be_value. cbv [fold_left]. lia. Qed.

(** The bytes [write_group] stores, most significant first. *)
Definition group_bytes (t : Z) : list Z :=
  [ t / 2 ^ 24 mod 256; t / 2 ^ 16 mod 256; t / 2 ^ 8 mod 256; t mod 256 ].

Lemma group_bytes_be b0 b1 b2 b3 :
  Forall is_byte [b0; b1; b2; b3] ->
  group_bytes (be_value [b0; b1; b2; b3]) = [b0; b1; b2; b3].
Proof.
  intros Hb. rewrite !Forall_cons in Hb. unfold is_byte in Hb.
  rewrite be_value4. unfold group_bytes.
  change (2 ^ 24) with 16777216. change (2 ^ 16) with 65536. change (2 ^ 8) with 256.
  repeat f_equal; div_lia.
Qed.

(** A short group: padding with the digit 84 keeps the leading bytes. *)
Lemma group_bytes_short bs :
  (0 < length bs < 4)%nat -> Forall is_byte bs ->
  take (length bs) (group_bytes (group_value
    (take (Datatypes.S (length bs)) (a85_digits (be_value (bs ++ replicate (4 - length bs) 0)))
     ++ replicate (4 - length bs) (0x21 + 84)))) = bs.
Proof.
  intros Hl Hb. destruct bs as [|b0 [|b1 [|b2 [|]]]]; simpl in Hl; try lia;
    rewrite !Forall_cons in Hb; unfold is_byte in Hb;
    cbn [length app replicate Nat.sub take]; rewrite be_value4;
    match goal with |- context [a85_digits ?v] => set (v' := v) end;
    destruct (a85_quotients v') as (H2 & H3 & H4);
    unfold a85_digits, group_value; cbn [take app fold_left];
    rewrite H4, H3, ?H2; unfold group_bytes; cbn [take];
    change (2 ^ 24) with 16777216 in *; change (2 ^ 16) with 65536 in *;
    change (2 ^ 8) with 256 in *;
    pose proof (Z.div_mod (v' / 85) 85); pose proof (Z.div_mod (v' / 85 / 85) 85);
    pose proof (Z.div_mod (v' / 85 / 85 / 85) 85);
    repeat f_equal; subst v'; div_lia.
Qed.

Lemma sar8_mod t m : 0 <= m <= 24 -> (t .>> 8) mod 2 ^ m = (t / 2 ^ 8) mod 2 ^ m.
Proof. intros. apply js_sar_mod; lia. Qed.

Lemma sar8_chain t :
  (t .>> 8) mod 256 = t / 2 ^ 8 mod 256 /\
  (t .>> 8 .>> 8) mod 256 = t / 2 ^ 16 mod 256 /\
  (t .>> 8 .>> 8 .>> 8) mod 256 = t / 2 ^ 24 mod 256.
Proof.
  assert (H2 : (t .>> 8 .>> 8) mod 2 ^ 16 = t / 2 ^ 16 mod 2 ^ 16).
  { rewrite sar8_mod by lia. rewrite (div_pow2_mod_eqm _ (t / 2 ^ 8) 8 16) by (try lia; by apply sar8_mod).
    by rewrite Z.div_div by lia. }
  split_and!.
  - by apply (sar8_mod t 8).
  - change 256 with (2 ^ 8). rewrite sar8_mod by lia.
    rewrite (div_pow2_mod_eqm _ (t / 2 ^ 8) 8 8) by (try lia; by apply (sar8_mod t 16)).
    by rewrite Z.div_div by lia.
  - change 256 with (2 ^ 8). rewrite sar8_mod by lia.
    rewrite (div_pow2_mod_eqm _ (t / 2 ^ 16) 8 8) by (try lia; done).
    by rewrite Z.div_div by lia.
Qed.

(** ** The loops of [readBlock] *)

Section Loops.
Context {S : Type} `{SourceSpec S} (fuel : nat).
Implicit Types d : DS S (list Z).

(** [next_char] returns the first character of the stripped text, -1 at
    its end. *)
Definition char_of (r : list Z) : jsnum :=
  match strip r with [] => Some EOF | c :: _ => Some c end.

Lemma next_char_ok n d r :
  rest (stream d) r -> (length r <= n)%nat ->
  exists s' r', next_char n d = (Ok (char_of r), set_stream s' d) /\
    rest s' r' /\ strip r' = tail (strip r) /\ (length r' <= length r)%nat /\
    (strip r <> [] -> (length r' < length r)%nat).
Proof.
  revert d r. induction n as [|n IH]; intros d [|b r] Hr Hn; simpl in Hn; try lia.
  1,2: destruct (rest_nil _ Hr) as (s' & Hg & Hr');
    exists s', []; unfold char_of; simpl; m_red; rewrite Hg; split_and!; auto; done.
  destruct (rest_cons _ _ _ Hr) as (s' & Hg & Hr' & _).
  unfold char_of. simpl. m_red. rewrite Hg. change (isWhiteSpace (Some b)) with (is_ws b).
  destruct (is_ws b) eqn:Eb; simpl.
  - destruct (IH (set_stream s' d) r Hr' ltac:(lia)) as (s2 & r2 & Hn2 & Hr2 & Hs2 & Hl2 & Hl3).
    exists s2, r2. rewrite Hn2. split_and!; auto; lia.
  - exists s', r. split_and!; auto; lia.
Qed.

Lemma fill_pad (x : list Z) i :
  length x = 5%nat -> 0 <= i <= 5 ->
  fill x (0x21 + 84) i 5 = take (Z.to_nat i) x ++ replicate (5 - Z.to_nat i) (0x21 + 84).
Proof.
  intros Hx Hi. destruct x as [|x0 [|x1 [|x2 [|x3 [|x4 [|]]]]]]; try discriminate Hx.
  assert (i = 0 \/ i = 1 \/ i = 2 \/ i = 3 \/ i = 4 \/ i = 5) as Hc by lia.
  destruct Hc as [->|[->|[->|[->|[->| ->]]]]]; reflexivity.
Qed.

Lemma arr_set_front (x : list Z) i c :
  length x = 5%nat -> 0 <= i < 5 ->
  take (Datatypes.S (Z.to_nat i)) (arr_set x i c) = take (Z.to_nat i) x ++ [c] /\
  length (arr_set x i c) = 5%nat.
Proof.
  intros Hx Hi. destruct x as [|x0 [|x1 [|x2 [|x3 [|x4 [|]]]]]]; try discriminate Hx.
  assert (i = 0 \/ i = 1 \/ i = 2 \/ i = 3 \/ i = 4) as Hc by lia.
  destruct Hc as [->|[->|[->|[->| ->]]]]; split; reflexivity.
Qed.

(** Reading a group: [cs] is what the loop takes before the end marker, or
    all [k] characters. *)
Lemma read_group_ok k d r cs t :
  (k <= 4)%nat -> rest (stream d) r -> (length r <= fuel)%nat -> length (ext d) = 5%nat ->
  strip r = cs ++ t -> Forall (fun c => is_byte c /\ c <> TILDA_CHAR) cs ->
  (length cs = k \/ (length cs < k)%nat /\ (t = [] \/ exists t', t = TILDA_CHAR :: t')) ->
  exists s' r' x', read_group fuel k d =
      (Ok (5 - Z.of_nat k + len cs), set_ext x' (set_stream s' d)) /\
    rest s' r' /\ (length r' <= length r)%nat /\ length x' = 5%nat /\
    (length cs = k -> strip r' = t) /\
    take (5 - k + length cs) x' = take (5 - k) (ext d) ++ cs.
Proof.
  revert d r cs. induction k as [|k IH]; intros d r cs Hk Hr Hl Hx Hs Hcs Hcase.
  - destruct cs; [|exfalso; simpl in Hcase; lia].
    exists (stream d), r, (ext d). simpl. rewrite app_nil_r. split_and!; auto; try lia.
    destruct d. done.
  - cbn [read_group]. unfold mbind at 1.
    destruct (next_char_ok fuel d r Hr Hl) as (s1 & r1 & Hn & Hr1 & Hs1 & Hl1 & _).
    rewrite Hn. unfold char_of. rewrite Hs in *.
    set (i := 5 - Z.of_nat (Datatypes.S k)).
    assert (Hi : Z.to_nat i = (4 - k)%nat) by (unfold i; lia).
    destruct cs as [|c cs].
    + destruct Hcase as [|[_ Ht]]; [done|]. exists s1, r1.
      assert (Hstop : exists c, match ([] ++ t) with [] => Some EOF | c :: _ => Some c end = Some c
                /\ jn_is (Some c) EOF || jn_is (Some c) TILDA_CHAR = true).
      { destruct Ht as [->|[t' ->]]; simpl; eauto. }
      destruct Hstop as (c & -> & Hc). m_red. simpl in *. unfold input_set. m_red.
      exists (arr_set (ext d) i (jn_u8 (Some c))). rewrite Hc.
      destruct (arr_set_front (ext d) i (jn_u8 (Some c)) Hx) as [Hf Hlen]; [unfold i; lia|].
      split_and!; auto.
      * rewrite len_nil, Z.add_0_r. done.
      * done.
      * rewrite app_nil_r, Nat.add_0_r. apply (f_equal (take (4 - k))) in Hf.
        rewrite Hi, take_take, Nat.min_l, take_app_le, take_take, Nat.min_id in Hf
          by (rewrite ?length_take; lia). exact Hf.
    + apply Forall_cons in Hcs as [[Hbc Htc] Hcs]. unfold is_byte in Hbc.
      cbn [app]. m_red. unfold input_set. m_red. cbn [jn_is].
      unfold EOF, TILDA_CHAR in *. repeat ztest. simpl orb. cbv iota.
      change (jn_u8 (Some c)) with (to_u8 c). rewrite to_u8_small by lia.
      destruct (arr_set_front (ext d) i c Hx) as [Hf Hlen]; [unfold i; lia|].
      destruct (IH (set_ext (arr_set (ext d) i c) (set_stream s1 d)) r1 cs)
        as (s2 & r2 & x2 & Hg & Hr2 & Hl2 & Hx2 & Hs2 & Ht2);
        [lia|exact Hr1|lia|exact Hlen|by rewrite Hs1|exact Hcs| |].
      { destruct Hcase as [Hc|[Hc Ht]]; [left|right; split; [|exact Ht]]; simpl in Hc; lia. }
      simpl in Ht2 |- *.
      exists s2, r2, x2. rewrite Hg. split_and!; auto; try lia.
      * f_equal. f_equal. rewrite len_cons. lia.
      * replace (4 - k + Datatypes.S (length cs))%nat with (5 - k + length cs)%nat by lia.
        rewrite Ht2. replace (5 - k)%nat with (Datatypes.S (Z.to_nat i)) by lia.
        rewrite Hf, Hi, <- app_assoc. done.
Qed.
End Loops.

(** ** The end of a block *)

Lemma write_group_ok {S} (d : DS S (list Z)) bl t :
  write_group 4 bl t d =
  (Ok tt, set_buffer
     (arr_set (arr_set (arr_set (arr_set (buffer d)
        (bl + 3) (t mod 256)) (bl + 2) (t / 2 ^ 8 mod 256))
        (bl + 1) (t / 2 ^ 16 mod 256)) (bl + 0) (t / 2 ^ 24 mod 256)) d).
Proof.
  destruct (sar8_chain t) as (H1 & H2 & H3).
  cbn [write_group]. m_red. simpl.
  change (jn_u8 (Some ?z)) with (to_u8 z). unfold to_u8.
  rewrite !js_and_255, !Z.mod_mod by lia. rewrite H1, H2, H3. done.
Qed.

Lemma take_sets (buf : list Z) bl m b0 b1 b2 b3 :
  0 <= bl -> (m <= 4)%nat -> bl + Z.of_nat m <= len buf ->
  take (Z.to_nat bl + m)
    (arr_set (arr_set (arr_set (arr_set buf (bl + 3) b3) (bl + 2) b2) (bl + 1) b1) (bl + 0) b0)
  = take (Z.to_nat bl) buf ++ take m [b0; b1; b2; b3].
Proof.
  intros Hbl Hm Hle. rewrite <- (take_drop (Z.to_nat bl) buf) at 1.
  set (p := take (Z.to_nat bl) buf). set (x := drop (Z.to_nat bl) buf).
  assert (Hp : len p = bl) by (unfold p; rewrite len_take; lia).
  assert (Hx : (m <= length x)%nat)
    by (unfold x; rewrite length_drop; unfold len in Hle; lia).
  rewrite !arr_set_app by lia. rewrite Hp.
  replace (bl + 3 - bl) with 3 by lia. replace (bl + 2 - bl) with 2 by lia.
  replace (bl + 1 - bl) with 1 by lia. replace (bl + 0 - bl) with 0 by lia.
  replace (Z.to_nat bl) with (length p) by (unfold len in Hp; lia).
  rewrite take_app_add. f_equal. clearbody x p. clear -Hm Hx.
  destruct m as [|[|[|[|[|]]]]]; [..|lia]; destruct x as [|x0 [|x1 [|x2 [|x3 x]]]];
    simpl in Hx; try lia; reflexivity.
Qed.

Lemma group_bytes_ok t : Forall is_byte (group_bytes t).
Proof. unfold group_bytes. repeat constructor; apply is_byte_u8. Qed.

Lemma finish_group_ok {S} (d : DS S (list Z)) cs :
  buf_ok d -> length (ext d) = 5%nat -> (0 < length cs <= 5)%nat ->
  take (length cs) (ext d) = cs ->
  let out := take (length cs - 1)
    (group_bytes (group_value (cs ++ replicate (5 - length cs) (0x21 + 84)))) in
  exists d', finish_group (bufferLength d) (len cs) d = (Ok tt, d') /\
    appends d d' out /\ eof d' = (if len cs <? 5 then true else eof d) /\
    stream d' = stream d /\ length (ext d') = 5%nat.
Proof.
  intros Hok Hx Hcs Ht out. set (bl := bufferLength d).
  assert (Hol : len out = len cs - 1).
  { unfold out. rewrite len_take. unfold len. simpl. lia. }
  destruct (ensureBuffer_ok d (bl + len cs - 1) Hok) as (d1 & He & Hens).
  pose proof Hens as [[_ Hroom] _ Hok1 (Hbl & Heof & Hmin & Hpos & Hst & Hext)].
  assert (Hin : (if len cs <? 5 then fill (ext d) (0x21 + 84) (len cs) 5 else ext d)
                = cs ++ replicate (5 - length cs) (0x21 + 84)).
  { destruct (len cs <? 5) eqn:E; bool_hyps.
    - rewrite fill_pad by (auto; unfold len in *; lia). unfold len. by rewrite Nat2Z.id, Ht.
    - replace (5 - length cs)%nat with 0%nat by (unfold len in E; lia).
      rewrite app_nil_r, <- Ht. rewrite take_ge; [done|]. unfold len in E. lia. }
  set (input := cs ++ replicate (5 - length cs) (0x21 + 84)) in *.
  assert (Hil : length input = 5%nat)
    by (unfold input; rewrite length_app, length_replicate; lia).
  set (t := group_value input).
  exists (mkDS (arr_set (arr_set (arr_set (arr_set (buffer d1)
        (bl + 3) (t mod 256)) (bl + 2) (t / 2 ^ 8 mod 256))
        (bl + 1) (t / 2 ^ 16 mod 256)) (bl + 0) (t / 2 ^ 24 mod 256))
      (bl + (len cs - 1)) (if len cs <? 5 then true else eof d) (minBufferLength d)
      (pos d) (stream d) input).
  split; [|split; [|done]].
  - unfold finish_group. m_red. fold bl. rewrite He.
    destruct (len cs <? 5); rewrite <- ?Hin in *; rewrite write_group_ok; simpl;
      rewrite Hext, ?Hin; unfold set_buffer; simpl; do 2 f_equal; congruence.
  - eapply ensured_appends; [done..|].
    pose proof Hok1 as [[Hb0 Hb1] Hbb Hbm]. rewrite Hbl in *. fold bl in Hb0, Hb1.
    split; simpl; auto; try lia.
    + unfold produced. simpl. rewrite Hbl. fold bl.
      replace (Z.to_nat (bl + (len cs - 1))) with (Z.to_nat bl + (length cs - 1))%nat
        by (unfold len; lia).
      rewrite take_sets by (unfold len in *; lia). done.
    + split; simpl; rewrite ?len_arr_set; [unfold len in *; lia| |lia].
      repeat apply Forall_arr_set; auto; apply is_byte_u8.
Qed.

(** ** The contract *)

Lemma a85_digit_char v k :
  0 <= v < 2 ^ 32 -> k ∈ a85_digits v -> is_byte k /\ k <> TILDA_CHAR /\ k <> Z_LOWER_CHAR.
Proof.
  intros Hv Hk. unfold a85_digits, is_byte, TILDA_CHAR, Z_LOWER_CHAR in *.
  change (85 ^ 4) with 52200625 in *. change (85 ^ 3) with 614125 in *.
  change (85 ^ 2) with 7225 in *. change (2 ^ 32) with 4294967296 in *.
  rewrite !elem_of_cons in Hk. destruct Hk as [->|[->|[->|[->|[->|Hk]]]]];
    [div_lia..|by apply not_elem_of_nil in Hk].
Qed.

Lemma be_value4_range b0 b1 b2 b3 :
  Forall is_byte [b0; b1; b2; b3] -> 0 <= be_value [b0; b1; b2; b3] < 2 ^ 32.
Proof.
  intros Hb. rewrite !Forall_cons in Hb. unfold is_byte in Hb. rewrite be_value4.
  change (2 ^ 24) with 16777216. change (2 ^ 16) with 65536. change (2 ^ 8) with 256.
  change (2 ^ 32) with 4294967296. lia.
Qed.

Lemma a85_done t : a85 t [] -> t = [] \/ exists t', t = TILDA_CHAR :: t'.
Proof.
  intros H. inversion H as [|t'| | |bs t' Hl]; subst; eauto. simpl in Hl. lia.
Qed.

Lemma pad4_bytes bs :
  (0 < length bs < 4)%nat -> Forall is_byte bs ->
  exists b0 b1 b2 b3, bs ++ replicate (4 - length bs) 0 = [b0; b1; b2; b3] /\
    Forall is_byte [b0; b1; b2; b3].
Proof.
  intros Hl Hb. assert (Hz : is_byte 0) by (unfold is_byte; lia).
  destruct bs as [|c0 [|c1 [|c2 [|]]]]; simpl in Hl; try lia;
    rewrite ?Forall_cons in Hb; destruct_and?; eexists _, _, _, _; split; try reflexivity;
    rewrite !Forall_cons; auto.
Qed.

(** A group of the text: its characters [c :: cs], what follows, and the
    bytes the group stands for. *)
Lemma a85_cases txt out :
  a85 txt out -> Forall is_byte out ->
  (out = [] /\ (txt = [] \/ exists t, txt = TILDA_CHAR :: t)) \/
  (exists t out', txt = Z_LOWER_CHAR :: t /\ out = [0; 0; 0; 0] ++ out' /\ a85 t out') \/
  (exists cs t out1 out2, txt = cs ++ t /\ out = out1 ++ out2 /\
     (0 < length cs <= 5)%nat /\ Forall (fun c => is_byte c /\ c <> TILDA_CHAR) cs /\
     Forall (fun c => c <> Z_LOWER_CHAR) cs /\ (length out1 = length cs - 1)%nat /\
     out1 <> [] /\
     take (length cs - 1) (group_bytes (group_value (cs ++ replicate (5 - length cs) (0x21 + 84))))
       = out1 /\
     (length cs = 5%nat /\ a85 t out2 \/ (length cs < 5)%nat /\ out2 = [] /\ a85 t [])).
Proof.
  intros Ha Hb. destruct Ha as [|t|t out Ha|b0 b1 b2 b3 t out Ha|bs t Hl Ha]; eauto.
  - right; left. exists t, out. done.
  - right; right. exists (a85_digits (be_value [b0; b1; b2; b3])), t, [b0; b1; b2; b3], out.
    rewrite !Forall_cons in Hb. destruct Hb as (? & ? & ? & ? & ?).
    assert (Hb4 : Forall is_byte [b0; b1; b2; b3]) by (rewrite !Forall_cons; auto).
    pose proof (be_value4_range _ _ _ _ Hb4) as Hv.
    assert (Hd := fun k => a85_digit_char _ k Hv).
    split_and!; try done; try (simpl; lia).
    + apply Forall_forall. intros k Hk. destruct (Hd k Hk) as (? & ? & ?). done.
    + apply Forall_forall. intros k Hk. by destruct (Hd k Hk) as (? & ? & ?).
    + cbn [length a85_digits Nat.sub replicate]. rewrite app_nil_r.
      fold (a85_digits (be_value [b0; b1; b2; b3])).
      rewrite group_value_digits, group_bytes_be by done. done.
    + left. done.
  - right; right.
    destruct (pad4_bytes bs Hl Hb) as (b0 & b1 & b2 & b3 & Hp & Hb4).
    pose proof (be_value4_range _ _ _ _ Hb4) as Hv. rewrite <- Hp in Hv.
    assert (Hd := fun k => a85_digit_char _ k Hv).
    set (dg := a85_digits (be_value (bs ++ replicate (4 - length bs) 0))) in *.
    assert (Hlc : length (take (Datatypes.S (length bs)) dg) = Datatypes.S (length bs))
      by (rewrite length_take; simpl; lia).
    exists (take (Datatypes.S (length bs)) dg), t, bs, []. rewrite Hlc, app_nil_r.
    split_and!; try done; try lia.
    + apply Forall_take, Forall_forall. intros k Hk. destruct (Hd k Hk) as (? & ? & ?). done.
    + apply Forall_take, Forall_forall. intros k Hk. by destruct (Hd k Hk) as (? & ? & ?).
    + by destruct bs; simpl in Hl; [lia|].
    + replace (Datatypes.S (length bs) - 1)%nat with (length bs) by lia.
      by apply group_bytes_short.
    + right. split_and!; auto. lia.
Qed.

Section Contract.
Context {S : Type} `{SourceSpec S} (fuel : nat).

Definition a85_todo (s : S) (x done out : list Z) (n : nat) : Prop :=
  exists r, rest s r /\ (length r <= fuel)%nat /\ length x = 5%nat /\
    a85 (strip r) out /\ Forall is_byte out /\ n = Datatypes.S (length out).

Lemma a85_step_group (d : DS S (list Z)) (r : list Z) r1 s1 c cs t :
  buf_ok d -> eof d = false -> length (ext d) = 5%nat ->
  next_char fuel d = (Ok (Some c), set_stream s1 d) -> rest s1 r1 ->
  (length r1 <= fuel)%nat -> (length r1 <= length r)%nat ->
  strip r1 = cs ++ t -> Forall (fun c => is_byte c /\ c <> TILDA_CHAR) (c :: cs) ->
  c <> Z_LOWER_CHAR ->
  (length cs = 4%nat \/ (length cs < 4)%nat /\ (t = [] \/ exists t', t = TILDA_CHAR :: t')) ->
  let out1 := take (length cs) (group_bytes
    (group_value ((c :: cs) ++ replicate (4 - length cs) (0x21 + 84)))) in
  exists d' r', a85_readBlock fuel d = (Ok tt, d') /\ appends d d' out1 /\
    eof d' = (if len cs <? 4 then true else false) /\ rest (stream d') r' /\
    (length r' <= length r)%nat /\ length (ext d') = 5%nat /\
    (length cs = 4%nat -> strip r' = t).
Proof.
  intros Hok He Hx Hn Hr1 Hl1 Hl Hs Hcs Hz Hcase out1.
  pose proof Hcs as Hcs'. apply Forall_cons in Hcs as [[Hc Ht] Hcs]. unfold is_byte in Hc.
  assert (Hci : jn_is (Some c) EOF || jn_is (Some c) TILDA_CHAR = false)
    by (unfold EOF in *; simpl; apply orb_false_iff; split; apply Z.eqb_neq; lia).
  assert (Hcz : jn_is (Some c) Z_LOWER_CHAR = false) by (simpl; apply Z.eqb_neq; done).
  set (d1 := set_ext (arr_set (ext d) 0 c) (set_stream s1 d)).
  destruct (arr_set_front (ext d) 0 c Hx) as [Hf Hlen]; [lia|].
  destruct (read_group_ok fuel 4 d1 r1 cs t) as (s2 & r2 & x2 & Hg & Hr2 & Hl2 & Hx2 & Hs2 & Ht2);
    auto.
  set (d2 := set_ext x2 (set_stream s2 d1)) in *.
  assert (Hlc : (length cs <= 4)%nat) by lia.
  destruct (finish_group_ok d2 (c :: cs)) as (d3 & Hfin & Ha & Heof & Hst & Hext);
    [by apply (buf_ok_same d)|done|simpl; lia| |].
  { change (length (c :: cs)) with (5 - 4 + length cs)%nat. simpl ext. rewrite Ht2.
    change (5 - 4)%nat with (Datatypes.S (Z.to_nat 0)). simpl ext. rewrite Hf. done. }
  exists d3, r2. rewrite Hst. split_and!; auto; try lia.
  - unfold a85_readBlock. m_red. rewrite Hn. cbv beta iota. rewrite Hci, Hcz. unfold input_set.
    m_red. change (jn_u8 (Some c)) with (to_u8 c). rewrite to_u8_small by lia.
    change (set_ext (arr_set (ext (set_stream s1 d)) 0 c) (set_stream s1 d)) with d1.
    rewrite Hg. change (bufferLength (set_stream s1 d)) with (bufferLength d2).
    replace (5 - Z.of_nat 4 + len cs) with (len (c :: cs)) by (rewrite len_cons; lia).
    exact Hfin.
  - simpl in Ha. rewrite Nat.sub_0_r in Ha. destruct Ha as [? ? ? ?]. by split.
  - rewrite Heof, len_cons. simpl. rewrite He. repeat case_bool; done || lia.
Qed.

Lemma a85_step_end (d : DS S (list Z)) r :
  buf_ok d -> rest (stream d) r -> (length r <= fuel)%nat ->
  (strip r = [] \/ exists t, strip r = TILDA_CHAR :: t) ->
  exists d', a85_readBlock fuel d = (Ok tt, d') /\ appends d d' [] /\ eof d' = true.
Proof.
  intros Hok Hr Hl Hs.
  destruct (next_char_ok fuel d r Hr Hl) as (s1 & r1 & Hn & _).
  exists (set_eof true (set_stream s1 d)). split_and!; [|by apply appends_nothing|done].
  unfold a85_readBlock. m_red. rewrite Hn. unfold char_of.
  destruct Hs as [->|[t ->]]; done.
Qed.

Lemma a85_step_z (d : DS S (list Z)) r t :
  buf_ok d -> eof d = false -> rest (stream d) r -> (length r <= fuel)%nat ->
  strip r = Z_LOWER_CHAR :: t ->
  exists d' r', a85_readBlock fuel d = (Ok tt, d') /\ appends d d' [0; 0; 0; 0] /\
    eof d' = false /\ rest (stream d') r' /\ (length r' <= length r)%nat /\
    ext d' = ext d /\ strip r' = t.
Proof.
  intros Hok He Hr Hl Hs.
  destruct (next_char_ok fuel d r Hr Hl) as (s1 & r1 & Hn & Hr1 & Hs1 & Hl1 & _).
  unfold char_of in Hn. rewrite Hs in Hn, Hs1.
  assert (Hok1 : buf_ok (set_stream s1 d)) by by apply (buf_ok_same d).
  destruct (ensureBuffer_ok (set_stream s1 d) (bufferLength d + 4) Hok1)
    as (d2 & He2 & Hens).
  pose proof Hens as [[_ Hroom] _ [[Hb0 _] _ _] (Hbl & Heof & Hmin & Hpos & Hst & Hext)].
  simpl in *.
  exists (set_bufferLength (bufferLength d + 4)
    (set_buffer (fill (buffer d2) (to_u8 0) (bufferLength d) (bufferLength d + 4)) d2)), r1.
  split_and!; [| |simpl; congruence|simpl; by rewrite Hst|done|done|done].
  - unfold a85_readBlock. m_red. rewrite Hn. simpl. rewrite He2. reflexivity.
  - eapply (appends_set_stream d _ s1), ensured_appends; [done..|].
    apply appends_blit; auto; try apply Hens.
    + repeat constructor; unfold is_byte; lia.
    + change (len [0; 0; 0; 0]) with 4. lia.
    + simpl. unfold fill, rel_index. rewrite <- Hbl in *. repeat ztest.
      rewrite !Z.min_l by lia.
      replace (Z.to_nat (bufferLength d2 + 4 - bufferLength d2)) with 4%nat by lia. done.
    + simpl. change (len [0; 0; 0; 0]) with 4. lia.
Qed.
End Contract.

#[export] Program Instance a85_spec {S} `{SourceSpec S} (fuel : nat) :
  @DecoderSpec S (list Z) (a85_decoder fuel) := {
  todo := a85_todo fuel
}.
Next Obligation.
  intros S ? ? fuel d out n Hok He (r & Hr & Hl & Hx & Ha & Hb & ->). simpl.
  destruct (a85_cases _ _ Ha Hb) as
    [[-> Hend]|[(t & out' & Hs & -> & Ha')|(cs & t & out1 & out2 & Hs & -> & Hcs)]].
  - destruct (a85_step_end fuel d r Hok Hr Hl Hend) as (d' & Hrb & Happ & Heof).
    exists d', [], [], 0%nat. rewrite Heof. split_and!; auto; simpl; lia.
  - destruct (a85_step_z fuel d r t Hok He Hr Hl Hs)
      as (d' & r' & Hrb & Happ & Heof & Hr' & Hl' & Hext & Hs').
    exists d', [0; 0; 0; 0], out', (Datatypes.S (length out')). rewrite Heof.
    split_and!; auto; [simpl; lia|].
    apply Forall_app in Hb as [_ Hb]. exists r'. rewrite Hext, Hs'. split_and!; auto. lia.
  - destruct Hcs as (Hlen & Hcs & Hz & Hlo & Hne & Hout & Hcase).
    destruct cs as [|c cs]; [simpl in Hlen; lia|].
    apply Forall_cons in Hz as [Hz _]. simpl in Hlen, Hlo, Hcase.
    destruct (next_char_ok fuel d r Hr Hl) as (s1 & r1 & Hn & Hr1 & Hs1 & Hl1 & _).
    unfold char_of in Hn. rewrite Hs in Hn, Hs1. cbn [app tail] in Hn, Hs1.
    destruct (a85_step_group fuel d r r1 s1 c cs t)
      as (d' & r' & Hrb & Happ & Heof & Hr' & Hl' & Hx' & Hs'); auto; try lia.
    { destruct Hcase as [[Hc _]|(Hc & _ & Hd)]; [left; lia|right]. split; [lia|]. by apply a85_done. }
    replace (length (c :: cs) - 1)%nat with (length cs) in Hout by (simpl; lia).
    change (5 - length (c :: cs))%nat with (4 - length cs)%nat in Hout. rewrite Hout in Happ.
    exists d', out1, out2, (Datatypes.S (length out2)). rewrite Heof.
    apply Forall_app in Hb as [_ Hb].
    split_and!; auto.
    + rewrite length_app. destruct out1; [done|simpl; lia].
    + destruct Hcase as [[Hc Hrec]|(Hc & Hnil & _)];
        (destruct (len cs <? 4) eqn:E; bool_hyps; [|]); auto; try (unfold len in E; lia).
      exists r'. rewrite Hs' by lia. split_and!; auto; lia.
Qed.

(** The encoder's output is an encoded text. *)
Lemma a85_encode_ok bs : Forall is_byte bs -> a85 (a85_encode bs) bs.
Proof.
  assert (Hgen : forall n bs, (length bs <= n)%nat -> Forall is_byte bs -> a85 (a85_encode bs) bs).
  { induction n as [|n IH]; intros l Hl Hb.
    - destruct l; [|simpl in Hl; lia]. apply a85_tilde.
    - destruct l as [|b0 [|b1 [|b2 [|b3 l]]]]; [apply a85_tilde|..].
      1-3: apply a85_last; [simpl; lia|apply a85_tilde].
      cbn [a85_encode]. rewrite !Forall_cons in Hb. destruct Hb as (H0 & H1 & H2 & H3 & Hb).
      assert (Ha : a85 (a85_encode l) l) by (apply IH; [simpl in Hl; lia|done]).
      destruct (be_value [b0; b1; b2; b3] =? 0) eqn:E; bool_hyps; [|by apply a85_group].
      rewrite be_value4 in E. unfold is_byte in *.
      assert (b0 = 0 /\ b1 = 0 /\ b2 = 0 /\ b3 = 0) as (-> & -> & -> & ->) by lia.
      by apply a85_z. }
  intros. by apply (Hgen (length bs)).
Qed.

(** Decoding inverts encoding: for any bytes [bs] and any text that is the
    ASCII base-85 encoding of [bs] once its white space is removed, reading an
    [Ascii85Stream] over the text to its end returns exactly [bs], whatever
    length hint the stream was created with. *)
Theorem ascii85_roundtrip (fuel : nat) text bs hint
  (Hbs : Forall is_byte bs) (Htext : Forall is_byte text)
  (Henc : strip text = a85_encode bs)
  (Hfuel : (length text <= fuel)%nat) (Hfuel' : (length bs < fuel)%nat) :
  fst (getBytes (ByteSource := DS_source (H := a85_decoder fuel) fuel) 0
         (new_Ascii85Stream (new_Stream text None None) hint)) = Ok bs.
Proof.
  simpl getBytes. apply ds_read_all with (Datatypes.S (length bs)); [|done|lia].
  exists text. split_and!; auto.
  - by apply new_Stream_rest.
  - rewrite Henc. by apply a85_encode_ok.
Qed.

Lemma ascii85_roundtrip_witness :
  Forall is_byte [0; 1; 255; 7; 9] /\
  fst (getBytes (ByteSource := DS_source (H := a85_decoder 20) 20) 0
         (new_Ascii85Stream (new_Stream [33; 10; 33; 51; 32; 42; 41; 35; 108; 126; 62] None None) None))
    = Ok [0; 1; 255; 7; 9].
Proof.
  split; [|apply ascii85_roundtrip].
  all: try (repeat constructor; unfold is_byte; lia).
  all: try (vm_compute; reflexivity).
  all: simpl; lia.
Defined.
