(* ===== verification/AsciiHex.v ===== *)
(** * Hexadecimal decoding

    [AsciiHexStream] of pdf.worker.mjs.  A block is up to 8000 source bytes; a
    digit left over at the end of a block waits in [firstDigit].  The stream
    is proved to decode to [hex_out], a one-pass reading of the whole source,
    so where the blocks end does not matter and no digit is lost. *)
From S2P Require Import Prelude ByteStream DecodeStream.
Local Open Scope js_scope.

Section AsciiHexStream.
Context {S : Type} `{ByteSource S}.

(** The field the class adds is [firstDigit]. *)
Abbreviation st := (DS S Z).

Definition new_AsciiHexStream (str : S) (maybeLength : jsnum) : st :=
  let hint := match maybeLength with
              | Some l => if l =? 0 then maybeLength else Some (- ((- l) / 2))
              | None => None
              end in
  new_DecodeStream hint str (-1).

Definition UPSTREAM_BLOCK_SIZE : Z := 8000.

(** The value of a hexadecimal digit, [None] for any other character. *)
Definition hex_digit (ch : Z) : option Z :=
  if (0x30 <=? ch) && (ch <=? 0x39) then Some (ch .& 0x0f)
  else if (0x41 <=? ch) && (ch <=? 0x46) || (0x61 <=? ch) && (ch <=? 0x66)
  then Some ((ch .& 0x0f) + 9)
  else None.

(** The [for (const ch of bytes)] loop; its result is the final
    [bufferLength] and [firstDigit]. *)
Fixpoint hex_loop (bytes : list Z) (bufferLength firstDigit : Z) : M st (Z * Z) :=
  match bytes with
  | [] => mret (bufferLength, firstDigit)
  | ch :: bytes' =>
      match hex_digit ch with
      | Some digit =>
          if firstDigit <? 0 then hex_loop bytes' bufferLength digit
          else
            buf_write bufferLength (Some ((firstDigit .<< 4) .| digit)) ;;;
            hex_loop bytes' (bufferLength + 1) (-1)
      | None =>
          if ch =? 0x3e then
            modify (set_eof true) ;;; mret (bufferLength, firstDigit)
          else hex_loop bytes' bufferLength firstDigit
      end
  end.

Definition hex_readBlock : M st unit :=
  bytes <- on_stream (getBytes UPSTREAM_BLOCK_SIZE) ;;
  if len bytes =? 0 then modify (set_eof true)
  else
    let maxDecodeLength := (len bytes + 1) .>> 1 in
    bufferLength0 <- gets bufferLength ;;
    ensureBuffer (bufferLength0 + maxDecodeLength) ;;;
    firstDigit0 <- gets ext ;;
    let* (bufferLength1, firstDigit1) <- hex_loop bytes bufferLength0 firstDigit0 ;;
    ended <- gets eof ;;
    if (0 <=? firstDigit1) && ended then
      buf_write bufferLength1 (Some (firstDigit1 .<< 4)) ;;;
      modify (set_ext (-1)) ;;;
      modify (set_bufferLength (bufferLength1 + 1))
    else
      modify (set_ext firstDigit1) ;;;
      modify (set_bufferLength bufferLength1).

#[export] Instance hex_decoder : Decoder S Z := { readBlock := hex_readBlock }.
End AsciiHexStream.

(** ** Specification *)

(** What the source [r] stands for when [fd] is the pending digit, -1 for
    none.  A pending digit is completed by 0 at the end mark [>]; at an end of
    the source without the mark it is dropped, as the code does. *)
Fixpoint hex_out (fd : Z) (r : list Z) : list Z :=
  match r with
  | [] => []
  | ch :: r' =>
      match hex_digit ch with
      | Some digit =>
          if fd <? 0 then hex_out digit r' else (fd * 16 + digit) :: hex_out (-1) r'
      | None => if ch =? 0x3e then (if fd <? 0 then [] else [fd * 16]) else hex_out fd r'
      end
  end.

Example hex_run :
  fst (getBytes (ByteSource := DS_source (H := hex_decoder) 10) 0
    (new_AsciiHexStream
      (new_Stream [0x34; 0x38; 0x20; 0x36; 0x35; 0x66; 0x46; 0x37; 0x3e; 0x31] None None) None))
  = Ok [0x48; 0x65; 0xff; 0x70].
Proof. vm_compute. reflexivity. Qed.

Lemma hex_digit_range ch d : hex_digit ch = Some d -> 0 <= d < 16.
Proof.
  unfold hex_digit. assert (Hm : js_and ch 15 = ch mod 16) by (apply (js_and_mask ch 4); lia).
  rewrite !Hm.
  destruct (Z.leb_spec 0x30 ch), (Z.leb_spec ch 0x39), (Z.leb_spec 0x41 ch),
    (Z.leb_spec ch 0x46), (Z.leb_spec 0x61 ch), (Z.leb_spec ch 0x66);
    simpl; intros; simplify_eq; Z.to_euclidean_division_equations; lia.
Qed.

Lemma hex_pair fd d : 0 <= fd < 16 -> 0 <= d < 16 -> (fd .<< 4) .| d = fd * 16 + d.
Proof.
  intros. assert (Hall : forall a b : nat, (a < 16)%nat -> (b < 16)%nat ->
    (((Z.of_nat a .<< 4) .| Z.of_nat b) =? Z.of_nat a * 16 + Z.of_nat b) = true).
  { assert (Hc : forallb (fun a => forallb (fun b =>
      ((Z.of_nat a .<< 4) .| Z.of_nat b) =? Z.of_nat a * 16 + Z.of_nat b) (seq 0 16)) (seq 0 16) = true)
      by (vm_compute; reflexivity).
    intros a b Ha Hb. rewrite forallb_forall in Hc. specialize (Hc a).
    rewrite forallb_forall in Hc. apply Hc; apply in_seq; lia. }
  specialize (Hall (Z.to_nat fd) (Z.to_nat d)).
  rewrite !Z2Nat.id in Hall by lia. apply Z.eqb_eq, Hall; lia.
Qed.

Lemma hex_single fd : 0 <= fd < 16 -> fd .<< 4 = fd * 16.
Proof.
  intros. unfold js_shl. rewrite (to_int32_small fd) by lia. change (4 mod 32) with 4.
  rewrite Z.shiftl_mul_pow2 by lia. apply to_int32_small. lia.
Qed.

(** One block: its output, the pending digit it leaves, and whether it met
    the end mark. *)
Fixpoint hex_pass (fd : Z) (r : list Z) : list Z * Z * bool :=
  match r with
  | [] => ([], fd, false)
  | ch :: r' =>
      match hex_digit ch with
      | Some digit =>
          if fd <? 0 then hex_pass digit r'
          else let '(o, fd', e) := hex_pass (-1) r' in ((fd * 16 + digit) :: o, fd', e)
      | None => if ch =? 0x3e then ([], fd, true) else hex_pass fd r'
      end
  end.

Definition hex_flush (fd : Z) : list Z := if fd <? 0 then [] else [fd * 16].

(** Splitting the source anywhere. *)
Lemma hex_out_app fd r1 r2 :
  hex_out fd (r1 ++ r2) =
  let '(o, fd', ended) := hex_pass fd r1 in
  o ++ (if ended then hex_flush fd' else hex_out fd' r2).
Proof.
  revert fd. induction r1 as [|ch r1 IH]; intros fd; simpl; [done|].
  destruct (hex_digit ch) as [d|].
  - destruct (fd <? 0); [apply IH|]. rewrite IH. by destruct (hex_pass (-1) r1) as [[o fd'] e].
  - destruct (ch =? 0x3e); [done|]. apply IH.
Qed.

Definition pending (fd : Z) : Z := if fd <? 0 then 0 else 1.

(** The room [readBlock] asks for is enough, the end digit included. *)
Lemma hex_pass_room fd r o fd' e :
  -1 <= fd < 16 -> hex_pass fd r = (o, fd', e) ->
  -1 <= fd' < 16 /\ Forall is_byte o /\
  2 * len o + pending fd' + (if e then 1 else 0) <= pending fd + len r.
Proof.
  revert fd o. induction r as [|ch r IH]; intros fd o Hfd H; simpl in H.
  - simplify_eq. repeat split; auto; unfold len; simpl; lia.
  - rewrite len_cons. pose proof (len_nonneg r).
    destruct (hex_digit ch) as [d|] eqn:Ed.
    + pose proof (hex_digit_range _ _ Ed). destruct (fd <? 0) eqn:E; bool_hyps.
      * destruct (IH d o) as (? & ? & Hl); [lia|done|].
        repeat split; auto; try lia.
        unfold pending in *. destruct (Z.ltb_spec fd 0), (Z.ltb_spec d 0); lia.
      * destruct (hex_pass (-1) r) as [[o1 fd1] e1] eqn:E1. simplify_eq.
        destruct (IH (-1) o1) as (? & ? & Hl); [lia|done|]. rewrite len_cons.
        repeat split; auto; try lia.
        -- constructor; [unfold is_byte; lia|done].
        -- unfold pending in *. destruct (Z.ltb_spec fd 0); simpl in Hl; lia.
    + destruct (ch =? 0x3e).
      { simplify_eq. repeat split; auto; unfold len in *; simpl; lia. }
      destruct (IH fd o) as (? & ? & Hl); [done..|]. repeat split; auto; lia.
Qed.

Lemma hex_loop_ok {S} (d : DS S Z) r bl fd o fd' e :
  -1 <= fd < 16 -> hex_pass fd r = (o, fd', e) -> 0 <= bl -> bl + len o <= len (buffer d) ->
  hex_loop r bl fd d =
  (Ok (bl + len o, fd'),
   set_eof (eof d || e) (set_buffer (blit (buffer d) o bl) d)).
Proof.
  assert (Hid : forall d : DS S Z, set_eof (eof d || false) (set_buffer (blit (buffer d) [] bl) d) = d)
    by (intros []; unfold set_eof, set_buffer; simpl; by rewrite blit_nil, orb_false_r).
  revert d bl fd o Hid. induction r as [|ch r IH]; intros d bl fd o Hid Hfd H Hbl Hl; simpl in *.
  - simplify_eq. rewrite Hid, len_nil, Z.add_0_r. done.
  - destruct (hex_digit ch) as [dg|] eqn:Ed.
    + pose proof (hex_digit_range _ _ Ed). destruct (fd <? 0) eqn:E; bool_hyps;
        [by apply IH; auto; lia|].
      destruct (hex_pass (-1) r) as [[o1 fd1] e1] eqn:E1. simplify_eq.
      rewrite len_cons in *. pose proof (len_nonneg o1). m_red.
      change (jn_u8 (Some ?z)) with (to_u8 z). rewrite hex_pair, to_u8_small by lia.
      rewrite (IH _ (bl + 1) (-1) o1); simpl; rewrite ?len_arr_set; auto; try lia.
      * rewrite blit_cons by lia. unfold set_buffer, set_eof. simpl. do 3 f_equal. lia.
      * intros []; unfold set_eof, set_buffer; simpl; by rewrite blit_nil, orb_false_r.
    + destruct (ch =? 0x3e); [|by apply IH].
      simplify_eq. m_red. rewrite len_nil, Z.add_0_r. f_equal.
      destruct d; unfold set_eof, set_buffer; simpl. by rewrite blit_nil, orb_true_r.
Qed.


Lemma hex_flush_pending fd : len (hex_flush fd) = pending fd.
Proof. unfold hex_flush, pending. destruct (fd <? 0); reflexivity. Qed.

Lemma sar1 z : 0 <= z < 2 ^ 31 -> z .>> 1 = z / 2.
Proof.
  intros. unfold js_sar. change (1 mod 32) with 1. rewrite to_int32_small by lia.
  by rewrite Z.shiftr_div_pow2 by lia.
Qed.

Section Contract.
Context {S : Type} `{SourceSpec S}.
Implicit Type d : DS S Z.

(** A block that decodes [bytes], the source being read up to [s']. *)
Lemma hex_block d bytes s' o fd' e :
  buf_ok d -> eof d = false -> bytes <> [] -> len bytes <= 8000 -> -1 <= ext d < 16 ->
  getBytes 8000 (stream d) = (Ok bytes, s') -> hex_pass (ext d) bytes = (o, fd', e) ->
  exists d', hex_readBlock d = (Ok tt, d') /\
    appends d d' (o ++ if e then hex_flush fd' else []) /\
    eof d' = e /\ stream d' = s' /\ (e = false -> ext d' = fd').
Proof.
  intros Hok He Hne Hlb Hx Hg Hp.
  destruct (hex_pass_room _ _ _ _ _ Hx Hp) as (Hx' & Hbo & Hroom).
  assert (0 < len bytes) by (destruct bytes; [done|len_lia]).
  set (want := bufferLength d + ((len bytes + 1) .>> 1)).
  assert (Hok1 : buf_ok (set_stream s' d)) by (by apply (buf_ok_same d)).
  destruct (ensureBuffer_ok (set_stream s' d) want Hok1) as (d2 & He2 & Hens).
  pose proof Hens as [[_ Hr2] _ Hok2 (Hbl & Hef & Hmin & Hpos & Hst & Hext)]. simpl in *.
  assert (Hw : want = bufferLength d2 + (len bytes + 1) / 2)
    by (unfold want; rewrite sar1 by lia; lia).
  assert (pending fd' <= 1 /\ 0 <= pending fd' /\ pending (ext d) <= 1)
    by (unfold pending; destruct (fd' <? 0), (ext d <? 0); lia).
  pose proof Hok2 as [[Hb0 _] _ _]. pose proof (len_nonneg o).
  assert (2 * (len o + (if e then pending fd' else 0)) <= len bytes + 1)
    by (destruct e; lia).
  assert (len o + (if e then pending fd' else 0) <= (len bytes + 1) / 2)
    by (apply Z.div_le_lower_bound; lia).
  assert (Hloop := hex_loop_ok d2 bytes (bufferLength d) (ext d) o fd' e Hx Hp).
  rewrite <- Hbl in Hloop.
  specialize (Hloop Hb0 ltac:(destruct e; lia)).
  assert (Hrun : hex_readBlock d =
    (if (0 <=? fd') && (eof d2 || e) then
       buf_write (bufferLength d2 + len o) (Some (fd' .<< 4)) ;;;
       modify (set_ext (-1)) ;;; modify (set_bufferLength (bufferLength d2 + len o + 1))
     else modify (set_ext fd') ;;; modify (set_bufferLength (bufferLength d2 + len o)))
    (set_eof (eof d2 || e) (set_buffer (blit (buffer d2) o (bufferLength d2)) d2))).
  { unfold hex_readBlock, UPSTREAM_BLOCK_SIZE. m_red. rewrite Hg. cbv beta iota.
    repeat ztest. cbn [bufferLength set_stream]. fold want. rewrite He2, Hext, <- Hbl, Hloop. done. }
  rewrite Hrun, Hef, He. clear Hrun. unfold hex_flush. simpl orb.
  destruct e; simpl andb; [destruct (Z.leb_spec 0 fd')|rewrite andb_false_r];
    (eexists; split; [m_red; reflexivity|]); simpl; split_and!; auto; try done.
  - repeat ztest. eapply (appends_set_stream d _ s'), ensured_appends; [done..|].
    unfold pending in *. rewrite (proj2 (Z.ltb_ge fd' 0)) in * by lia.
    apply appends_blit; simpl; auto.
    + rewrite Forall_app. split; [done|]. repeat constructor; unfold is_byte; lia.
    + len_lia.
    + change (jn_u8 (Some ?z)) with (to_u8 z).
      rewrite hex_single, to_u8_small by lia.
      rewrite <- blit_app by len_lia.
      rewrite <- (blit_cons _ (fd' * 16) [] (_ + _)) by (rewrite ?len_blit; lia).
      by rewrite blit_nil.
    + len_lia.
  - repeat ztest. rewrite app_nil_r. eapply (appends_set_stream d _ s'), ensured_appends; [done..|].
    apply appends_blit; simpl; auto. lia.
  - rewrite app_nil_r. eapply (appends_set_stream d _ s'), ensured_appends; [done..|].
    apply appends_blit; simpl; auto. lia.
Qed.
End Contract.

#[export] Program Instance hex_spec {S} `{SourceSpec S} : DecoderSpec S Z := {
  todo s x done out n :=
    exists r, rest s r /\ -1 <= x < 16 /\ out = hex_out x r /\ n = Datatypes.S (length r)
}.
Next Obligation.
  intros S ? ? d out n Hok He (r & Hr & Hx & -> & ->). simpl.
  destruct (rest_getBytes (stream d) r 8000 Hr) as (s' & Hg & Hr' & _); [lia|].
  simpl in Hg, Hr'. change (Pos.to_nat 8000) with (Z.to_nat 8000) in *.
  destruct r as [|ch r].
  - exists (set_eof true (set_stream s' d)), [], [], 0%nat.
    split_and!; [|by apply appends_nothing|done|simpl; lia|done].
    unfold hex_readBlock, UPSTREAM_BLOCK_SIZE. m_red. rewrite Hg. rewrite take_nil. done.
  - assert (Hout := hex_out_app (ext d) (take (Z.to_nat 8000) (ch :: r)) (drop (Z.to_nat 8000) (ch :: r))).
    rewrite take_drop in Hout. rewrite Hout.
    destruct (hex_pass (ext d) (take (Z.to_nat 8000) (ch :: r))) as [[o fd'] e] eqn:Hp.
    destruct (hex_pass_room _ _ _ _ _ Hx Hp) as (Hx' & _).
    destruct (hex_block d (take (Z.to_nat 8000) (ch :: r)) s' o fd' e)
      as (d' & Hrun & Ha & He' & Hs' & Hx2); auto; [rewrite len_take; lia|].
    exists d', (o ++ if e then hex_flush fd' else []),
      (if e then [] else hex_out fd' (drop (Z.to_nat 8000) (ch :: r))),
      (Datatypes.S (length (drop (Z.to_nat 8000) (ch :: r)))).
    rewrite He'. split_and!; auto.
    + destruct e; by rewrite <- ?app_assoc, ?app_nil_r.
    + rewrite length_drop. assert (8 <= Z.to_nat 8000)%nat by lia. simpl length. lia.
    + destruct e; [done|]. rewrite Hs', Hx2 by done. eauto.
Qed.

(** ** Round trip *)

Definition hex_char (d : Z) : Z := if d <? 10 then 0x30 + d else 0x61 + (d - 10).

Definition hex_encode (bs : list Z) : list Z :=
  flat_map (fun b => [hex_char (b / 16); hex_char (b mod 16)]) bs.

(** A character the decoder skips. *)
Definition hex_skipped (ch : Z) : bool :=
  match hex_digit ch with Some _ => false | None => negb (ch =? 0x3e) end.

Lemma hex_digit_char d : 0 <= d < 16 -> hex_digit (hex_char d) = Some d.
Proof.
  intros Hd. assert (Hall : forallb (fun n => match hex_digit (hex_char (Z.of_nat n)) with
    Some v => v =? Z.of_nat n | None => false end) (seq 0 16) = true) by (vm_compute; reflexivity).
  rewrite forallb_forall in Hall. specialize (Hall (Z.to_nat d)).
  rewrite Z2Nat.id in Hall by lia.
  destruct (hex_digit (hex_char d)) as [v|]; [|discriminate Hall; apply in_seq; lia].
  f_equal. apply Z.eqb_eq, Hall, in_seq. lia.
Qed.

(** Skipped characters may stand anywhere in the text. *)
Lemma hex_out_skip text fd :
  hex_out fd text = hex_out fd (List.filter (fun ch => negb (hex_skipped ch)) text).
Proof.
  revert fd. induction text as [|ch text IH]; intros fd; simpl; [done|].
  unfold hex_skipped at 1. destruct (hex_digit ch) as [d|] eqn:Ed; simpl.
  - rewrite Ed. case_bool; by rewrite IH.
  - destruct (ch =? 0x3e) eqn:E; simpl; rewrite ?Ed, ?E; auto.
Qed.

Lemma hex_out_encode bs t :
  Forall is_byte bs -> hex_out (-1) (hex_encode bs ++ t) = bs ++ hex_out (-1) t.
Proof.
  induction 1 as [|b bs Hb _ IH]; [done|]. unfold is_byte in Hb.
  assert (0 <= b / 16 < 16) by (Z.to_euclidean_division_equations; lia).
  assert (0 <= b mod 16 < 16) by (apply Z.mod_pos_bound; lia).
  simpl. rewrite !hex_digit_char by lia. simpl. ztest.
  fold (hex_encode bs). rewrite IH. f_equal. pose proof (Z.div_mod b 16). lia.
Qed.

(** Decoding inverts hexadecimal encoding across any block boundaries: for
    bytes [bs] and any text that is their two-digit encoding and the end mark
    [>], with any skipped characters between, whatever follows the mark,
    reading an [AsciiHexStream] over any stream that holds the text returns
    exactly [bs]. *)
Theorem ascii_hex_roundtrip {S} `{SourceSpec S} (fuel : nat) (s : S) text after bs hint
  (Hbs : Forall is_byte bs) (Hrest : rest s (text ++ 0x3e :: after))
  (Henc : List.filter (fun ch => negb (hex_skipped ch)) text = hex_encode bs)
  (Hfuel : (length (text ++ 0x3e%Z :: after) < fuel)%nat) :
  fst (getBytes (ByteSource := DS_source (H := hex_decoder) fuel) 0
         (new_AsciiHexStream s hint)) = Ok bs.
Proof.
  apply ds_read_all with (Datatypes.S (length (text ++ 0x3e :: after))); [|done|lia].
  exists (text ++ 0x3e :: after). split_and!; auto; try lia.
  rewrite hex_out_skip, List.filter_app, Henc, hex_out_encode by done. simpl.
  by rewrite app_nil_r.
Qed.

Lemma ascii_hex_roundtrip_witness :
  Forall is_byte [0x48; 0xff] /\
  fst (getBytes (ByteSource := DS_source (H := hex_decoder) 20) 0
         (new_AsciiHexStream
            (new_Stream ([0x34; 0x20; 0x38; 0x66; 0x66] ++ 0x3e :: [0x41]) None None) None))
    = Ok [0x48; 0xff].
Proof.
  split; [repeat constructor; unfold is_byte; lia|].
  apply (ascii_hex_roundtrip 20 _ [0x34; 0x20; 0x38; 0x66; 0x66] [0x41]).
  - repeat constructor; unfold is_byte; lia.
  - apply new_Stream_rest. repeat constructor; unfold is_byte; lia.
  - vm_compute. reflexivity.
  - simpl. lia.
Defined.
