(* ===== verification/RunLength.v ===== *)
(** * Run-length decoding

    [RunLengthStream] of pdf.worker.mjs and its specification: a source is a
    sequence of packets, literal or repeated, up to the end packet 128. *)
From S2P Require Import Prelude ByteStream DecodeStream.
Local Open Scope js_scope.

Section RunLengthStream.
Context {S : Type} `{ByteSource S}.
Abbreviation st := (DS S unit).

Definition new_RunLengthStream (str : S) (maybeLength : jsnum) : st :=
  new_DecodeStream maybeLength str tt.

Definition rl_readBlock : M st unit :=
  repeatHeader <- on_stream (getBytes 2) ;;
  if (len repeatHeader <? 2) || jn_is (arr_get repeatHeader 0) 128 then
    modify (set_eof true)
  else
    bufferLength <- gets bufferLength ;;
    let n := jn_int (arr_get repeatHeader 0) in
    let value := jn_int (arr_get repeatHeader 1) in
    if n <? 128 then
      ensureBuffer (bufferLength + n + 1) ;;;
      buf_write bufferLength (Some value) ;;;
      let bufferLength := bufferLength + 1 in
      if 0 <? n then
        source <- on_stream (getBytes n) ;;
        buf_set source bufferLength ;;;
        modify (set_bufferLength (bufferLength + n))
      else modify (set_bufferLength bufferLength)
    else
      let n := 257 - n in
      ensureBuffer (bufferLength + n + 1) ;;;
      buf_fill value bufferLength (bufferLength + n) ;;;
      modify (set_bufferLength (bufferLength + n)).

#[export] Instance rl_decoder : Decoder S unit := { readBlock := rl_readBlock }.
End RunLengthStream.

(** A packet: 1 to 128 literal bytes, or one byte 2 to 128 times. *)
Inductive packet : Type :=
| Literal (bs : list Z)
| Run (n : nat) (b : Z).

Definition packet_ok (p : packet) : Prop :=
  match p with
  | Literal bs => (1 <= length bs <= 128)%nat /\ Forall is_byte bs
  | Run n b => (2 <= n <= 128)%nat /\ is_byte b
  end.

Definition packet_encode (p : packet) : list Z :=
  match p with
  | Literal bs => (len bs - 1) :: bs
  | Run n b => [257 - Z.of_nat n; b]
  end.

Definition packet_bytes (p : packet) : list Z :=
  match p with Literal bs => bs | Run n b => replicate n b end.

Definition rl_encode (ps : list packet) : list Z :=
  flat_map packet_encode ps ++ [128].

Example rl_run :
  fst (getBytes (ByteSource := DS_source (H := rl_decoder) 10) 0
    (new_RunLengthStream
      (new_Stream (rl_encode [Literal [1; 2; 3]; Run 4 9; Literal [7]]) None None) None))
  = Ok [1; 2; 3; 9; 9; 9; 9; 7].
Proof. vm_compute. reflexivity. Qed.

(** ** Contract *)
Section Contract.
Context {S : Type} `{SourceSpec S}.
Implicit Type d : DS S unit.

Definition rl_text (ps : list packet) (after : list Z) : list Z :=
  flat_map packet_encode ps ++ 128 :: after.

(** The end packet, with or without data after it. *)
Lemma rl_step_end d after :
  buf_ok d -> rest (stream d) (rl_text [] after) ->
  exists d', rl_readBlock d = (Ok tt, d') /\ appends d d' [] /\ eof d' = true.
Proof.
  intros Hok Hr. destruct (rest_getBytes (stream d) _ 2 Hr) as (s' & Hg & _); [lia|].
  exists (set_eof true (set_stream s' d)). split_and!; [|by apply appends_nothing|done].
  unfold rl_readBlock. m_red. rewrite Hg. by destruct after.
Qed.

(** The two-byte header of a packet. *)
Lemma rl_header s h v t :
  rest s (h :: v :: t) ->
  exists s', getBytes 2 s = (Ok [h; v], s') /\ rest s' t.
Proof.
  intros Hr. destruct (rest_getBytes s _ 2 Hr) as (s' & Hg & Hr' & _); [lia|]. eauto.
Qed.

Lemma rl_step_literal d v vs t :
  buf_ok d -> (length vs < 128)%nat -> Forall is_byte (v :: vs) ->
  rest (stream d) (len vs :: v :: vs ++ t) ->
  exists d', rl_readBlock d = (Ok tt, d') /\ appends d d' (v :: vs) /\
    eof d' = eof d /\ rest (stream d') t.
Proof.
  intros Hok Hl Hb Hr. destruct (rl_header _ _ _ _ Hr) as (s1 & Hg & Hr1).
  assert (Hlen : 0 <= len vs < 128) by (unfold len; lia).
  assert (Hv : to_u8 v = v) by (apply Forall_cons in Hb as [? _]; by apply to_u8_small).
  destruct (ensureBuffer_ok (set_stream s1 d) (bufferLength d + len vs + 1))
    as (d1 & He1 & Hens); [by apply (buf_ok_same d)|].
  pose proof Hens as [[_ Hroom] _ Hok1 (Hbl & Hef & Hmin & Hps & Hst & _)].
  simpl in *. rewrite <- Hbl in *. pose proof Hok1 as [[Hl1 _] _ _].
  assert (Happ : forall d', buffer d' = blit (buffer d1) (v :: vs) (bufferLength d1) ->
    bufferLength d' = bufferLength d1 + len vs + 1 -> pos d' = pos d1 ->
    minBufferLength d' = minBufferLength d1 -> appends d d' (v :: vs)).
  { intros d' ? ? ? ?. eapply (appends_set_stream d _ s1), ensured_appends;
      [by apply (buf_ok_same d)|done|]. apply appends_blit; rewrite ?len_cons; auto; lia. }
  unfold rl_readBlock. m_red. rewrite Hg. simpl.
  repeat ztest. simpl. rewrite <- Hbl, He1. unfold jn_u8. simpl. rewrite Hv.
  destruct (0 <? len vs) eqn:E; bool_hyps.
  - destruct (rest_getBytes s1 _ (len vs) Hr1) as (s2 & Hg2 & Hr2 & _); [lia|].
    rewrite (proj2 (Z.eqb_neq _ 0)) in Hg2, Hr2 by lia.
    replace (Z.to_nat (len vs)) with (length vs) in Hg2, Hr2 by (unfold len; lia).
    rewrite take_app_length in Hg2. rewrite drop_app_length in Hr2.
    ds_simpl. rewrite Hst, Hg2. simpl. rewrite len_arr_set.
    rewrite (proj2 (Z.leb_le 0 _)), (proj2 (Z.leb_le (_ + _) _)) by lia. simpl.
    eexists. split; [reflexivity|]. simpl. split_and!; auto.
    apply Happ; simpl; auto; [|lia]. by rewrite blit_cons by lia.
  - destruct vs as [|? ?]; [|len_lia]. eexists. split; [reflexivity|]. simpl.
    rewrite Hst. split_and!; auto. apply Happ; simpl; auto; [|unfold len; simpl; lia].
    rewrite <- blit_cons by lia. by rewrite blit_nil.
Qed.

Lemma rl_step_run d n b t :
  buf_ok d -> (2 <= n <= 128)%nat -> is_byte b ->
  rest (stream d) (257 - Z.of_nat n :: b :: t) ->
  exists d', rl_readBlock d = (Ok tt, d') /\ appends d d' (replicate n b) /\
    eof d' = eof d /\ rest (stream d') t.
Proof.
  intros Hok Hn Hb Hr. destruct (rl_header _ _ _ _ Hr) as (s1 & Hg & Hr1).
  destruct (ensureBuffer_ok (set_stream s1 d) (bufferLength d + Z.of_nat n + 1))
    as (d1 & He1 & Hens); [by apply (buf_ok_same d)|].
  pose proof Hens as [[_ Hroom] _ Hok1 (Hbl & Hef & Hmin & Hps & Hst & _)].
  simpl in *. rewrite <- Hbl in *. pose proof Hok1 as [[Hl1 _] _ _].
  unfold rl_readBlock. m_red. rewrite Hg.
  change (arr_get (?x :: ?y) 0) with (Some x). change (arr_get [?x; ?y] 1) with (Some y).
  cbn [jn_is jn_int default from_option id].
  rewrite (proj2 (Z.eqb_neq (257 - Z.of_nat n) 128)) by lia.
  change (len [?x; ?y] <? 2) with false. cbn [orb].
  rewrite (proj2 (Z.ltb_ge (257 - Z.of_nat n) 128)) by lia.
  cbn [bufferLength set_stream]. replace (257 - (257 - Z.of_nat n)) with (Z.of_nat n) by lia.
  rewrite <- Hbl, He1. eexists. split; [reflexivity|]. simpl. rewrite Hst.
  split_and!; auto. eapply (appends_set_stream d _ s1), ensured_appends;
    [by apply (buf_ok_same d)|done|].
  apply appends_blit; simpl; rewrite ?len_replicate; auto; try lia.
  - by apply Forall_replicate.
  - rewrite to_u8_small by done. unfold fill, rel_index. repeat ztest.
    rewrite !Z.min_l by lia. do 2 f_equal. lia.
Qed.
End Contract.

#[export] Program Instance rl_spec {S} `{SourceSpec S} : DecoderSpec S unit := {
  todo s x done out n :=
    exists ps after, Forall packet_ok ps /\ rest s (rl_text ps after) /\
      out = flat_map packet_bytes ps /\ n = Datatypes.S (length ps)
}.
Next Obligation.
  intros S ? ? d out n Hok He (ps & after & Hps & Hr & -> & ->). simpl.
  destruct ps as [|p ps].
  - destruct (rl_step_end d after Hok Hr) as (d' & Hrun & Ha & He').
    exists d', [], [], 0%nat. rewrite He'. split_and!; auto; simpl; lia.
  - apply Forall_cons in Hps as [Hp Hps]. unfold rl_text in Hr. simpl in Hr.
    rewrite <- app_assoc in Hr. fold (rl_text ps after) in Hr.
    assert (Hstep : exists d', rl_readBlock d = (Ok tt, d') /\
      appends d d' (packet_bytes p) /\ eof d' = eof d /\ rest (stream d') (rl_text ps after)).
    { destruct p as [bs|k b]; destruct Hp as [Hl Hb].
      - destruct bs as [|v vs]; [simpl in Hl; lia|].
        apply rl_step_literal; auto; [simpl in Hl; lia|].
        cbn [packet_encode app] in Hr. rewrite len_cons in Hr.
        by replace (len vs + 1 - 1) with (len vs) in Hr by lia.
      - by apply rl_step_run. }
    destruct Hstep as (d' & Hrun & Ha & He' & Hr').
    exists d', (packet_bytes p), (flat_map packet_bytes ps), (Datatypes.S (length ps)).
    rewrite He', He. split_and!; auto. by exists ps, after.
Qed.

Lemma packets_bytes ps :
  Forall packet_ok ps -> Forall is_byte (flat_map packet_bytes ps).
Proof.
  induction 1 as [|[bs|n b] ps [Hl Hb] _ IH]; simpl; [constructor|..];
    rewrite Forall_app; split; auto. by apply Forall_replicate.
Qed.

(** A run-length stream decodes a sequence of literal and repeat packets
    to the concatenation of what they stand for, and stops at the end packet
    128 whatever follows it, over any stream that holds the encoded text. *)
Theorem run_length_decodes {S} `{SourceSpec S} (fuel : nat) (s : S) ps after hint
  (Hps : Forall packet_ok ps) (Hrest : rest s (rl_text ps after))
  (Hfuel : (length ps < fuel)%nat) :
  fst (getBytes (ByteSource := DS_source (H := rl_decoder) fuel) 0
         (new_RunLengthStream s hint)) = Ok (flat_map packet_bytes ps).
Proof.
  apply ds_read_all with (Datatypes.S (length ps)); [|by apply packets_bytes|lia].
  exists ps, after. done.
Qed.

Lemma run_length_decodes_witness :
  Forall packet_ok [Literal [1; 2; 3]; Run 4 9; Literal [7]] /\
  fst (getBytes (ByteSource := DS_source (H := rl_decoder) 10) 0
    (new_RunLengthStream
      (new_Stream [2; 1; 2; 3; 253; 9; 0; 7; 128; 5] None None) None))
    = Ok [1; 2; 3; 9; 9; 9; 9; 7].
Proof.
  assert (Hp : Forall packet_ok [Literal [1; 2; 3]; Run 4 9; Literal [7]])
    by (repeat constructor; unfold is_byte; simpl; lia).
  split; [exact Hp|].
  apply (run_length_decodes 10 _ [Literal [1; 2; 3]; Run 4 9; Literal [7]] [5]); auto.
  - apply (new_Stream_rest [2; 1; 2; 3; 253; 9; 0; 7; 128; 5]).
    repeat constructor; unfold is_byte; lia.
  - simpl. lia.
Defined.
