(* ===== verification/Predictor.v ===== *)
(** * Predictors

    [PredictorStream] of pdf.worker.mjs, the TIFF and PNG predictors.  The
    specification is the encoder of the PNG specification: each byte is sent
    as its difference, modulo 256, from a prediction made of its left, upper
    and upper-left neighbours.  Decoding a filtered image is proved to give
    the image back. *)
From S2P Require Import Prelude ByteStream DecodeStream.
Local Open Scope js_scope.

(** What [params.get] returns for the four keys the constructor reads. *)
Record PredictorParams := mkParams {
  p_Predictor : jsnum; p_Colors : jsnum; p_BPC : jsnum; p_Columns : jsnum
}.

(** The fields the class adds. *)
Record Pred := mkPred {
  predictor : Z; colors : Z; bits : Z; columns : Z; pixBytes : Z; rowBytes : Z
}.

(** [for (...; ++i) buffer[j++] = expr], [n] times, from [i] and [j]. *)
Fixpoint write_loop (n : nat) (i j : Z) (expr : list Z -> Z -> Z -> jsnum)
    (b : list Z) : list Z :=
  match n with
  | O => b
  | S n' => write_loop n' (i + 1) (j + 1) expr (arr_set b j (jn_u8 (expr b i j)))
  end.

Definition jn_abs (a : jsnum) : jsnum := Z.abs <$> a.

Section PredictorStream.
Context {S : Type} `{ByteSource S}.
Abbreviation st := (DS S Pred).

(** The constructor returns the stream [str] itself ([inl]) when there is
    nothing to undo. *)
Definition new_PredictorStream (str : S) (maybeLength : jsnum)
    (params : option PredictorParams) : res (S + st) :=
  match params with
  | None => Ok (inl str)
  | Some params =>
      let predictor := jn_or (p_Predictor params) 1 in
      if predictor <=? 1 then Ok (inl str)
      else if negb (predictor =? 2) && ((predictor <? 10) || (15 <? predictor))
      then Throw (FormatError "Unsupported predictor")
      else
        let colors := jn_or (p_Colors params) 1 in
        let bits := jn_or (p_BPC params) 8 in
        let columns := jn_or (p_Columns params) 1 in
        Ok (inr (new_DecodeStream maybeLength str
          (mkPred predictor colors bits columns
             (colors * bits + 7 .>> 3) (columns * colors * bits + 7 .>> 3))))
  end.

(** ** readBlockTiff *)

(** One bit per pixel: each byte is turned into its running parity. *)
Fixpoint tiff1_loop (n : nat) (rawBytes : list Z) (i pos inbuf : Z) (b : list Z) : list Z :=
  match n with
  | O => b
  | Datatypes.S n' =>
      let c := jn_int (arr_get rawBytes i) .^ inbuf in
      let c := c .^ (c .>> 1) in
      let c := c .^ (c .>> 2) in
      let c := c .^ (c .>> 4) in
      tiff1_loop n' rawBytes (i + 1) (pos + 1) ((c .& 1) .<< 7)
        (arr_set b pos (to_u8 c))
  end.

(** Two bytes per component. *)
Fixpoint tiff16_loop (fuel : nat) (rowBytes : Z) (rawBytes : list Z) (bytesPerPixel i pos : Z)
    (b : list Z) : list Z :=
  match fuel with
  | O => b
  | Datatypes.S fuel' =>
      if i <? rowBytes then
        let sum := ((jn_int (arr_get rawBytes i) .& 0xff) .<< 8)
                   + (jn_int (arr_get rawBytes (i + 1)) .& 0xff)
                   + ((jn_int (arr_get b (pos - bytesPerPixel)) .& 0xff) .<< 8)
                   + (jn_int (arr_get b (pos - bytesPerPixel + 1)) .& 0xff) in
        let b := arr_set b pos (to_u8 ((sum .>> 8) .& 0xff)) in
        let b := arr_set b (pos + 1) (to_u8 (sum .& 0xff)) in
        tiff16_loop fuel' rowBytes rawBytes bytesPerPixel (i + 2) (pos + 2) b
      else b
  end.

(** Any other depth: the state of the inner loop. *)
Record TiffBits := mkTiffBits {
  t_inbuf : Z; t_inbits : Z; t_outbuf : Z; t_outbits : Z;
  t_j : Z; t_k : Z; t_comp : list Z; t_buffer : list Z
}.

Definition tiff_component (bits bitMask : Z) (rawBytes : list Z) (kk : Z)
    (t : TiffBits) : TiffBits :=
  let need := t_inbits t <? bits in
  let inbuf := if need
    then (t_inbuf t .<< 8) .| (jn_int (arr_get rawBytes (t_j t)) .& 0xff)
    else t_inbuf t in
  let j := if need then t_j t + 1 else t_j t in
  let inbits := if need then t_inbits t + 8 else t_inbits t in
  let c := (jn_int (arr_get (t_comp t) kk) + (inbuf .>> inbits - bits)) .& bitMask in
  let comp := arr_set (t_comp t) kk (to_u8 c) in
  let inbits := inbits - bits in
  let outbuf := (t_outbuf t .<< bits) .| jn_int (arr_get comp kk) in
  let outbits := t_outbits t + bits in
  if 8 <=? outbits then
    mkTiffBits inbuf inbits outbuf (outbits - 8) j (t_k t + 1) comp
      (arr_set (t_buffer t) (t_k t) (to_u8 ((outbuf .>> outbits - 8) .& 0xff)))
  else mkTiffBits inbuf inbits outbuf outbits j (t_k t) comp (t_buffer t).

Definition tiff_bits_loop (p : Pred) (rawBytes : list Z) (bufferLength : Z)
    (b : list Z) : list Z :=
  let bitMask := (1 .<< bits p) - 1 in
  let components := map Z.of_nat (seq 0 (Z.to_nat (colors p))) in
  let pixel t := fold_left (fun t kk => tiff_component (bits p) bitMask rawBytes kk t) components t in
  let t := Nat.iter (Z.to_nat (columns p)) pixel
             (mkTiffBits 0 0 0 0 0 bufferLength (zeros (colors p + 1)) b) in
  if 0 <? t_outbits t then
    arr_set (t_buffer t) (t_k t)
      (to_u8 ((t_outbuf t .<< 8 - t_outbits t)
              + (t_inbuf t .& (1 .<< 8 - t_outbits t) - 1)))
  else t_buffer t.

Definition readBlockTiff : M st unit :=
  p <- gets ext ;;
  let rowBytes := rowBytes p in
  bufferLength <- gets bufferLength ;;
  ensureBuffer (bufferLength + rowBytes) ;;;
  let bits := bits p in
  let colors := colors p in
  rawBytes <- on_stream (getBytes rowBytes) ;;
  modify (set_eof (len rawBytes =? 0)) ;;;
  if len rawBytes =? 0 then mret tt
  else
    modify (fun d => set_buffer (
      let raw _ i _ := arr_get rawBytes i in
      if (bits =? 1) && (colors =? 1) then
        tiff1_loop (Z.to_nat rowBytes) rawBytes 0 bufferLength 0 (buffer d)
      else if bits =? 8 then
        write_loop (Z.to_nat (rowBytes - colors)) colors (bufferLength + colors)
          (fun b i pos => jn_add (arr_get b (pos - colors)) (arr_get rawBytes i))
          (write_loop (Z.to_nat colors) 0 bufferLength raw (buffer d))
      else if bits =? 16 then
        let bytesPerPixel := colors * 2 in
        tiff16_loop (Z.to_nat rowBytes) rowBytes rawBytes bytesPerPixel bytesPerPixel
          (bufferLength + bytesPerPixel)
          (write_loop (Z.to_nat bytesPerPixel) 0 bufferLength raw (buffer d))
      else tiff_bits_loop p rawBytes bufferLength (buffer d)) d) ;;;
    modify (set_bufferLength (bufferLength + rowBytes)).

(** ** readBlockPng *)

(** The prediction of filter 4, from [left], [up] and [upLeft]. *)
Definition paeth (left up upLeft : jsnum) : jsnum :=
  let p := jn_sub (jn_add left up) upLeft in
  let pa := jn_abs (jn_sub p left) in
  let pb := jn_abs (jn_sub p up) in
  let pc := jn_abs (jn_sub p upLeft) in
  if jn_le pa pb && jn_le pa pc then left
  else if jn_le pb pc then up
  else upLeft.

(** The [switch] on the filter type of the row. *)
Definition png_row (rowBytes pixBytes bufferLength : Z) (filter : jsnum)
    (rawBytes prevRow b : list Z) : option (list Z) :=
  let n := Z.to_nat rowBytes in
  let n1 := Z.to_nat pixBytes in
  let n2 := Z.to_nat (rowBytes - pixBytes) in
  let raw _ i _ := arr_get rawBytes i in
  let masked v := Some (jn_int v .& 0xff) in
  let rest expr b := write_loop n2 pixBytes (bufferLength + pixBytes) expr b in
  match filter with
  | Some 0 => Some (write_loop n 0 bufferLength raw b)
  | Some 1 => Some (rest
      (fun b i j => masked (jn_add (arr_get b (j - pixBytes)) (arr_get rawBytes i)))
      (write_loop n1 0 bufferLength raw b))
  | Some 2 => Some (write_loop n 0 bufferLength
      (fun _ i _ => masked (jn_add (arr_get prevRow i) (arr_get rawBytes i))) b)
  | Some 3 => Some (rest
      (fun b i j => masked
         (jn_add (Some (jn_int (jn_add (arr_get prevRow i) (arr_get b (j - pixBytes))) .>> 1))
            (arr_get rawBytes i)))
      (write_loop n1 0 bufferLength
         (fun _ i _ => jn_add (Some (jn_int (arr_get prevRow i) .>> 1)) (arr_get rawBytes i)) b))
  | Some 4 => Some (rest
      (fun b i j => jn_add
         (paeth (arr_get b (j - pixBytes)) (arr_get prevRow i) (arr_get prevRow (i - pixBytes)))
         (arr_get rawBytes i))
      (write_loop n1 0 bufferLength
         (fun _ i _ => jn_add (arr_get prevRow i) (arr_get rawBytes i)) b))
  | _ => None
  end.

Definition readBlockPng : M st unit :=
  p <- gets ext ;;
  let rowBytes := rowBytes p in
  let pixBytes := pixBytes p in
  predictor <- on_stream getByte ;;
  rawBytes <- on_stream (getBytes rowBytes) ;;
  modify (set_eof (len rawBytes =? 0)) ;;;
  if len rawBytes =? 0 then mret tt
  else
    bufferLength <- gets bufferLength ;;
    ensureBuffer (bufferLength + rowBytes) ;;;
    buffer <- gets buffer ;;
    let prevRow := subarray buffer (bufferLength - rowBytes) bufferLength in
    let prevRow := if len prevRow =? 0 then zeros rowBytes else prevRow in
    match png_row rowBytes pixBytes bufferLength predictor rawBytes prevRow buffer with
    | Some b =>
        modify (set_buffer b) ;;;
        modify (set_bufferLength (bufferLength + rowBytes))
    | None => throw (FormatError "Unsupported predictor")
    end.

(** The constructor chooses the method. *)
Definition pred_readBlock : M st unit :=
  p <- gets ext ;;
  if predictor p =? 2 then readBlockTiff else readBlockPng.

#[export] Instance pred_decoder : Decoder S Pred := { readBlock := pred_readBlock }.
End PredictorStream.

(** ** The PNG filters *)

(** The prediction of the PNG specification, over integers. *)
Definition png_predict (ft : Z) (left up upLeft : Z) : Z :=
  match ft with
  | 1 => left
  | 2 => up
  | 3 => (left + up) / 2
  | 4 =>
      let p := left + up - upLeft in
      if (Z.abs (p - left) <=? Z.abs (p - up)) && (Z.abs (p - left) <=? Z.abs (p - upLeft))
      then left
      else if Z.abs (p - up) <=? Z.abs (p - upLeft) then up else upLeft
  | _ => 0
  end.

(** The byte of [row] at [i], 0 to the left of the row. *)
Definition at0 (row : list Z) (i : Z) : Z := default 0 (arr_get row i).

(** Filtering [row], with [prev] the row above it. *)
Definition png_filter (ft pix : Z) (prev row : list Z) : list Z :=
  imap (fun i v => (v - png_predict ft (at0 row (Z.of_nat i - pix)) (at0 prev (Z.of_nat i))
                          (at0 prev (Z.of_nat i - pix))) mod 256) row.

(** A filtered image: a filter byte before each row. *)
Fixpoint png_encode (pix : Z) (prev : list Z) (rows : list (Z * list Z)) : list Z :=
  match rows with
  | [] => []
  | (ft, row) :: rows' => ft :: png_filter ft pix prev row ++ png_encode pix row rows'
  end.

Definition row_ok (rowBytes : Z) (fr : Z * list Z) : Prop :=
  0 <= fst fr <= 4 /\ len (snd fr) = rowBytes /\ Forall is_byte (snd fr).

(** ** The loops write the row *)

Lemma arr_get_is_Some (l : list Z) i : 0 <= i < len l -> arr_get l i = Some (at0 l i).
Proof.
  intros Hi. unfold at0. destruct (arr_get l i) eqn:E; [done|].
  unfold arr_get in E. rewrite (proj2 (Z.ltb_ge i 0)) in E by lia.
  apply lookup_ge_None in E. unfold len in Hi. lia.
Qed.

Lemma at0_left (l : list Z) i : i < 0 -> at0 l i = 0.
Proof. intros. unfold at0, arr_get. by ztest. Qed.

Lemma at0_byte l i : Forall is_byte l -> is_byte (at0 l i).
Proof.
  intros Hl. unfold at0. destruct (arr_get l i) eqn:E; simpl; [|unfold is_byte; lia].
  unfold arr_get in E. destruct (i <? 0); [done|]. by eapply Forall_lookup_1.
Qed.

Lemma arr_get_blit (b c : list Z) off m :
  0 <= off -> off + len c <= len b -> 0 <= m < len c ->
  arr_get (blit b c off) (off + m) = arr_get c m.
Proof.
  intros Ho Hb Hm. unfold arr_get, blit. repeat ztest. unfold len in *.
  assert (length (take (Z.to_nat off) b) = Z.to_nat off) by (rewrite length_take; lia).
  rewrite lookup_app_r by lia. rewrite lookup_app_l by lia. f_equal. lia.
Qed.

Lemma blit_snoc (b row : list Z) off k v :
  0 <= off -> off + len row <= len b -> row !! k = Some v ->
  arr_set (blit b (take k row) off) (off + Z.of_nat k) v = blit b (take (Datatypes.S k) row) off.
Proof.
  intros Ho Hb Hv. assert (k < length row)%nat by (by eapply lookup_lt_Some).
  erewrite take_S_r by done. unfold len in *.
  rewrite <- blit_app by (try unfold len; rewrite ?length_take; simpl; lia).
  unfold len. rewrite length_take, Nat.min_l by lia.
  rewrite <- (blit_nil (arr_set _ _ _) (off + Z.of_nat k + 1)). apply blit_cons; [lia|].
  rewrite len_blit; unfold len; rewrite ?length_take; lia.
Qed.

(** The loop invariant: up to [i] the row is in the buffer. *)
Lemma write_loop_row b row off expr n i :
  0 <= off -> off + len row <= len b -> (i + n <= length row)%nat ->
  (forall k v, (i <= k < i + n)%nat -> row !! k = Some v ->
    jn_u8 (expr (blit b (take k row) off) (Z.of_nat k) (off + Z.of_nat k)) = v) ->
  write_loop n (Z.of_nat i) (off + Z.of_nat i) expr (blit b (take i row) off) =
  blit b (take (i + n) row) off.
Proof.
  intros Ho Hb. revert i. induction n as [|n IH]; intros i Hn Hexpr; simpl.
  - by rewrite Nat.add_0_r.
  - destruct (lookup_lt_is_Some_2 row i ltac:(lia)) as [v Hv].
    rewrite (Hexpr i v) by (done || lia). rewrite blit_snoc by done.
    replace (Z.of_nat i + 1) with (Z.of_nat (Datatypes.S i)) by lia.
    replace (off + Z.of_nat i + 1) with (off + Z.of_nat (Datatypes.S i)) by lia.
    rewrite IH; [f_equal; f_equal; lia|lia|]. intros k w Hk. apply Hexpr. lia.
Qed.

(** The whole row, in one loop or two. *)
Lemma write_row b row off expr :
  0 <= off -> off + len row <= len b ->
  (forall k v, row !! k = Some v ->
    jn_u8 (expr (blit b (take k row) off) (Z.of_nat k) (off + Z.of_nat k)) = v) ->
  write_loop (Z.to_nat (len row)) 0 off expr b = blit b row off.
Proof.
  intros Ho Hb Hexpr. pose proof (write_loop_row b row off expr (length row) 0 Ho Hb) as H.
  change (Z.of_nat 0) with 0 in H. rewrite take_0, blit_nil, Z.add_0_r in H. rewrite <- length_len.
  rewrite H; [|lia|intros; by apply Hexpr]. simpl. by rewrite firstn_all.
Qed.

Lemma write_row2 b row off pix expr1 expr2 :
  0 <= off -> off + len row <= len b -> 0 <= pix <= len row ->
  (forall k v, Z.of_nat k < pix -> row !! k = Some v ->
    jn_u8 (expr1 (blit b (take k row) off) (Z.of_nat k) (off + Z.of_nat k)) = v) ->
  (forall k v, pix <= Z.of_nat k -> row !! k = Some v ->
    jn_u8 (expr2 (blit b (take k row) off) (Z.of_nat k) (off + Z.of_nat k)) = v) ->
  write_loop (Z.to_nat (len row - pix)) pix (off + pix) expr2
    (write_loop (Z.to_nat pix) 0 off expr1 b) = blit b row off.
Proof.
  intros Ho Hb Hp H1 H2. unfold len in Hp.
  pose proof (write_loop_row b row off expr1 (Z.to_nat pix) 0 Ho Hb) as E1.
  change (Z.of_nat 0) with 0 in E1. rewrite take_0, blit_nil, Z.add_0_r in E1.
  rewrite E1, Nat.add_0_l; [|lia|intros k v Hk; apply H1; lia].
  pose proof (write_loop_row b row off expr2 (Z.to_nat (len row - pix)) (Z.to_nat pix) Ho Hb) as E2.
  rewrite Z2Nat.id in E2 by lia.
  rewrite E2; [|unfold len; lia|intros k v Hk; apply H2; lia].
  replace (Z.to_nat pix + Z.to_nat (len row - pix))%nat with (length row) by (unfold len; lia).
  by rewrite firstn_all.
Qed.

Lemma to_u8_and z : to_u8 (z .& 255) = to_u8 z.
Proof. rewrite js_and_255. unfold to_u8. by rewrite Z.mod_mod by lia. Qed.

Lemma to_u8_undo a p : is_byte a -> to_u8 (p + (a - p) mod 256) = a.
Proof.
  intros Ha. unfold to_u8. rewrite Zplus_mod_idemp_r.
  replace (p + (a - p)) with a by lia. by apply Z.mod_small.
Qed.

Lemma to_u8_undo' a p : is_byte a -> to_u8 ((a - p) mod 256 + p) = a.
Proof. intros. rewrite Z.add_comm. by apply to_u8_undo. Qed.

Lemma sar_half z : 0 <= z < 2 ^ 31 -> z .>> 1 = z / 2.
Proof.
  intros. unfold js_sar. change (1 mod 32) with 1. rewrite to_int32_small by lia.
  by rewrite Z.shiftr_div_pow2 by lia.
Qed.

Lemma png_filter_get ft pix prev row k v :
  row !! k = Some v ->
  arr_get (png_filter ft pix prev row) (Z.of_nat k) =
  Some ((v - png_predict ft (at0 row (Z.of_nat k - pix)) (at0 prev (Z.of_nat k))
               (at0 prev (Z.of_nat k - pix))) mod 256).
Proof. intros Hv. rewrite arr_get_nat. unfold png_filter. by rewrite list_lookup_imap, Hv. Qed.

(** The byte to the left, as the buffer holds it. *)
Lemma blit_left b (row : list Z) off k pix :
  0 <= off -> off + len row <= len b -> 0 < pix <= Z.of_nat k -> (k < length row)%nat ->
  arr_get (blit b (take k row) off) (off + Z.of_nat k - pix) =
  Some (at0 row (Z.of_nat k - pix)).
Proof.
  intros Ho Hb Hp Hk.
  assert (Hl : len (take k row) = Z.of_nat k) by (rewrite len_take; unfold len; lia).
  unfold len in Hb. replace (off + Z.of_nat k - pix) with (off + (Z.of_nat k - pix)) by lia.
  rewrite arr_get_blit by (unfold len in *; lia).
  rewrite <- arr_get_is_Some by (unfold len; lia).
  unfold arr_get. ztest. apply lookup_take_lt. lia.
Qed.

Lemma paeth_some l u ul : paeth (Some l) (Some u) (Some ul) = Some (png_predict 4 l u ul).
Proof.
  unfold paeth, png_predict, jn_abs, jn_sub, jn_add. cbn.
  destruct (_ && _); [done|]. by destruct (Z.abs _ <=? Z.abs _).
Qed.

(** Filter 4 at the left edge predicts the byte above. *)
Lemma paeth_edge u : png_predict 4 0 u 0 = u.
Proof. unfold png_predict. repeat case_bool; lia. Qed.

Section Rows.
Variables (rowBytes pix bufferLength : Z) (prev row b : list Z).
Hypothesis Hpix : 0 < pix <= rowBytes.
Hypothesis Hrow : len row = rowBytes.
Hypothesis Hprev : len prev = rowBytes.
Hypothesis Hbytes : Forall is_byte row.
Hypothesis Hpbytes : Forall is_byte prev.
Hypothesis Hroom : bufferLength + rowBytes <= len b.
Hypothesis Hbl : 0 <= bufferLength.

(** Undoing the filter of a row writes the row. *)
Lemma png_row_undo ft :
  0 <= ft <= 4 ->
  png_row rowBytes pix bufferLength (Some ft) (png_filter ft pix prev row) prev b =
  Some (blit b row bufferLength).
Proof.
  intros Hft.
  assert (Hk : forall k v, row !! k = Some v ->
    (k < length row)%nat /\ is_byte v /\ Z.of_nat k < rowBytes).
  { intros k v Hv. assert (k < length row)%nat by (by eapply lookup_lt_Some).
    split_and!; [done| |unfold len in Hrow; lia]. exact (Forall_lookup_1 _ _ _ _ Hbytes Hv). }
  assert (Hup : forall k, 0 <= k < rowBytes -> arr_get prev k = Some (at0 prev k))
    by (intros; apply arr_get_is_Some; lia).
  assert (Hedge : forall k, Z.of_nat k < pix ->
    at0 row (Z.of_nat k - pix) = 0 /\ at0 prev (Z.of_nat k - pix) = 0)
    by (split; apply at0_left; lia).
  assert (Hb : forall l k, Forall is_byte l -> 0 <= at0 l k < 256)
    by (intros; by apply at0_byte).
  assert (ft = 0 \/ ft = 1 \/ ft = 2 \/ ft = 3 \/ ft = 4) as [->|[->|[->|[->| ->]]]] by lia;
    unfold png_row; rewrite <- Hrow; f_equal;
    (apply write_row || apply write_row2); rewrite ?Hrow; auto; try lia; intros k v.
  all: try (intros Hkp Hv); try (intros Hv); destruct (Hk k v Hv) as (Hlt & Hv1 & Hk3).
  all: rewrite (png_filter_get _ _ _ _ k v Hv); change (jn_u8 ?z) with (to_u8 (jn_int z)).
  all: try rewrite (proj1 (Hedge k Hkp)); try rewrite (proj2 (Hedge k Hkp)).
  all: rewrite ?blit_left, ?Hup by (done || lia).
  all: rewrite ?paeth_some, ?paeth_edge.
  all: cbn -[Z.modulo Z.div png_predict at0 to_u8 js_and js_sar].
  all: rewrite ?to_u8_and, ?sar_half
    by (pose proof (Hb prev (Z.of_nat k) Hpbytes);
        pose proof (Hb row (Z.of_nat k - pix) Hbytes); lia).
  all: try by apply to_u8_undo.
  1-2: by apply (to_u8_undo v 0).
  rewrite (Z.add_comm (at0 prev _)). by apply to_u8_undo.
Qed.
End Rows.

(** ** Contract *)

(** The row above the next one: the last of what was produced. *)
Definition row_above (rowBytes : Z) (done : list Z) : list Z :=
  if len done =? 0 then zeros rowBytes else drop (Z.to_nat (len done - rowBytes)) done.

(** The TIFF predictor for bytes: the difference to the same component of the
    pixel to the left. *)
Definition tiff_encode (colors : Z) (rows : list (Z * list Z)) : list Z :=
  flat_map (fun fr => png_filter 1 colors [] (snd fr)) rows.

Lemma len_png_filter ft pix prev row : len (png_filter ft pix prev row) = len row.
Proof. unfold png_filter, len. by rewrite length_imap. Qed.

Lemma row_above_ok rb done :
  0 <= rb -> (done = [] \/ rb <= len done) -> Forall is_byte done ->
  len (row_above rb done) = rb /\ Forall is_byte (row_above rb done).
Proof.
  intros Hrb Hd Hb. unfold row_above. destruct (len done =? 0) eqn:E; bool_hyps.
  - split; [by apply len_zeros|apply zeros_bytes].
  - destruct Hd as [->|Hd]; [done|]. split; [|by apply Forall_drop].
    rewrite len_drop. lia.
Qed.

Lemma row_above_app rb done row :
  0 < rb -> len row = rb -> row_above rb (done ++ row) = row.
Proof.
  intros Hrb Hl. pose proof (len_nonneg done). unfold row_above. rewrite len_app. ztest.
  replace (Z.to_nat (len done + len row - rb)) with (length done) by (unfold len in *; lia).
  apply drop_app_length.
Qed.

(** What the code takes for the row above. *)
Lemma prev_row_code b bl rb :
  0 <= rb -> 0 <= bl <= len b -> (bl = 0 \/ rb <= bl) ->
  (let prevRow := subarray b (bl - rb) bl in
   if len prevRow =? 0 then zeros rb else prevRow) = row_above rb (take (Z.to_nat bl) b).
Proof.
  intros Hrb Hbl Hc. cbv zeta. unfold row_above. rewrite len_take.
  rewrite Z2Nat.id by lia. rewrite Z.min_l by lia.
  destruct (Z.eqb_spec bl 0) as [->|Hne].
  - replace (subarray b (0 - rb) 0) with (@nil Z); [done|].
    symmetry. unfold subarray.
    replace (Z.to_nat _) with 0%nat; [done|]. unfold rel_index. pose proof (len_nonneg b).
    destruct (Z.ltb_spec (0 - rb) 0); simpl; lia.
  - rewrite len_subarray by lia. replace (bl - (bl - rb)) with rb by lia.
    rewrite subarray_in by lia. rewrite skipn_firstn_comm.
    destruct (Z.eqb_spec rb 0) as [->|]; [|f_equal; lia].
    rewrite Z.sub_0_r, Nat.sub_diag. done.
Qed.

#[local] Arguments png_row : simpl never.

Section Contract.
Context {S : Type} `{SourceSpec S}.
Implicit Type d : DS S Pred.

(** What both methods do at the end of the source. *)
Lemma pred_end d :
  buf_ok d -> 0 < rowBytes (ext d) -> rest (stream d) [] ->
  exists d', pred_readBlock d = (Ok tt, d') /\ appends d d' [] /\ eof d' = true.
Proof.
  intros Hok Hrb Hr. unfold pred_readBlock, readBlockTiff, readBlockPng. m_red.
  destruct (predictor (ext d) =? 2).
  - destruct (ensureBuffer_ok d (bufferLength d + rowBytes (ext d)) Hok) as (d1 & He1 & Hens).
    rewrite He1. pose proof Hens as [_ _ Hok1 (_ & _ & _ & _ & Hst & _)].
    destruct (rest_getBytes (stream d1) [] (rowBytes (ext d))) as (s' & Hg & _); [by rewrite Hst|lia|].
    rewrite take_nil in Hg. rewrite Hg. eexists. split; [reflexivity|]. split; [|done].
    eapply ensured_appends; [done..|]. by apply appends_nothing.
  - destruct (rest_nil (stream d) Hr) as (s1 & Hg1 & Hr1). rewrite Hg1.
    ds_simpl. destruct (rest_getBytes s1 [] (rowBytes (ext d)) Hr1) as (s2 & Hg2 & _); [lia|].
    rewrite take_nil in Hg2. rewrite Hg2. eexists. split; [reflexivity|]. split; [|done].
    by apply appends_nothing.
Qed.

Lemma rest_row s rb row t :
  rest s (row ++ t) -> len row = rb -> 0 < rb ->
  exists s', getBytes rb s = (Ok row, s') /\ rest s' t.
Proof.
  intros Hr Hl Hrb. destruct (rest_getBytes s _ rb Hr) as (s' & Hg & Hr' & _); [lia|].
  rewrite (proj2 (Z.eqb_neq rb 0)) in Hg, Hr' by lia.
  replace (Z.to_nat rb) with (length row) in Hg, Hr' by (unfold len in Hl; lia).
  rewrite take_app_length in Hg. rewrite drop_app_length in Hr'. eauto.
Qed.

Lemma png_step d ft row t :
  let p := ext d in
  buf_ok d -> predictor p <> 2 -> 0 < pixBytes p <= rowBytes p ->
  row_ok (rowBytes p) (ft, row) -> (bufferLength d = 0 \/ rowBytes p <= bufferLength d) ->
  rest (stream d) (ft :: png_filter ft (pixBytes p) (row_above (rowBytes p) (produced d)) row ++ t) ->
  exists d', pred_readBlock d = (Ok tt, d') /\ appends d d' row /\
    eof d' = false /\ ext d' = p /\ rest (stream d') t.
Proof.
  intros p Hok Hp Hpix (Hft & Hlr & Hbr) Hbl Hr. simpl in Hft, Hlr, Hbr.
  unfold pred_readBlock, readBlockPng. m_red. fold p.
  rewrite (proj2 (Z.eqb_neq (predictor p) 2)) by done.
  destruct (rest_cons _ _ _ Hr) as (s1 & Hg1 & Hr1 & _). rewrite Hg1. ds_simpl. fold p.
  destruct (rest_row s1 (rowBytes p) _ _ Hr1) as (s2 & Hg2 & Hr2);
    [by rewrite len_png_filter|lia|]. rewrite Hg2. ds_simpl. fold p.
  rewrite len_png_filter, Hlr. repeat ztest.
  set (d0 := set_eof false (set_stream s2 (set_stream s1 d))).
  assert (Hok0 : buf_ok d0) by (by apply (buf_ok_same d)).
  destruct (ensureBuffer_ok d0 (bufferLength d + rowBytes p) Hok0) as (d1 & He1 & Hens).
  change (bufferLength d0) with (bufferLength d). rewrite He1.
  pose proof (ensured_produced _ _ _ Hok0 Hens) as Hpr.
  pose proof Hens as [[_ Hroom] _ Hok1 (Hb1 & He & Hm & Hps & Hst & Hx)]. simpl in *.
  destruct Hok as [Hbd Hbb _]. rewrite <- Hb1 in *.
  destruct Hok1 as [[H10 H1l] H1b H1m].
  assert (Hab := prev_row_code (buffer d1) (bufferLength d1) (rowBytes p)
    ltac:(lia) ltac:(lia) Hbl). cbv zeta in Hab.
  rewrite Hab. change (take (Z.to_nat (bufferLength d1)) (buffer d1)) with (produced d1).
  rewrite Hpr. change (produced d0) with (produced d).
  destruct (row_above_ok (rowBytes p) (produced d)) as [Hal Hab2]; [lia| | |].
  { unfold produced. rewrite Hb1 in Hbl. rewrite len_take. destruct Hbl as [E|?]; [left|right; lia].
    rewrite E. apply take_0. }
  { by apply Forall_take. }
  rewrite png_row_undo by (auto; lia).
  eexists. split; [reflexivity|]. simpl. rewrite Hst, Hx, He. split_and!; auto.
  apply (appends_set_stream d _ s1), (appends_set_stream _ _ s2).
  assert (Ha : appends d0 (set_bufferLength (bufferLength d1 + rowBytes p)
    (set_buffer (blit (buffer d1) row (bufferLength d1)) d1)) row).
  { eapply ensured_appends; [done..|]. apply appends_blit; simpl; auto; try lia. by split. }
  destruct Ha as [? ? ? ?]. by split.
Qed.

(** The byte case of [readBlockTiff]. *)
Lemma tiff8_row_undo c bl row b :
  0 < c <= len row -> 0 <= bl -> bl + len row <= len b -> Forall is_byte row ->
  let raw := png_filter 1 c [] row in
  write_loop (Z.to_nat (len row - c)) c (bl + c)
    (fun b i pos => jn_add (arr_get b (pos - c)) (arr_get raw i))
    (write_loop (Z.to_nat c) 0 bl (fun _ i _ => arr_get raw i) b) = blit b row bl.
Proof.
  intros Hc Hbl Hroom Hb raw.
  apply write_row2; auto; try lia; intros k v Hk Hv; unfold raw;
    rewrite (png_filter_get _ _ _ _ k v Hv); simpl png_predict;
    assert (k < length row)%nat by (by eapply lookup_lt_Some);
    assert (is_byte v) by exact (Forall_lookup_1 _ _ _ _ Hb Hv).
  - rewrite at0_left by lia. by apply (to_u8_undo v 0).
  - rewrite blit_left by (done || lia). by apply to_u8_undo.
Qed.

Lemma tiff_step d ft row t :
  let p := ext d in
  buf_ok d -> predictor p = 2 -> bits p = 8 -> 0 < colors p <= rowBytes p ->
  row_ok (rowBytes p) (ft, row) ->
  rest (stream d) (png_filter 1 (colors p) [] row ++ t) ->
  exists d', pred_readBlock d = (Ok tt, d') /\ appends d d' row /\
    eof d' = false /\ ext d' = p /\ rest (stream d') t.
Proof.
  intros p Hok Hp Hbits Hcol (_ & Hlr & Hbr) Hr. simpl in Hlr, Hbr.
  unfold pred_readBlock, readBlockTiff. m_red. fold p. rewrite Hp. cbv zeta. 
  change (2 =? 2) with true. cbv beta iota. change (ext d) with p. rewrite Hbits.
  change (8 =? 1) with false. change (8 =? 8) with true. cbn [andb].
  destruct (ensureBuffer_ok d (bufferLength d + rowBytes p) Hok) as (d1 & He1 & Hens).
  rewrite He1. pose proof Hens as [[_ Hroom] _ Hok1 (Hb1 & He & Hm & Hps & Hst & Hx)].
  destruct (rest_row (stream d1) (rowBytes p) (png_filter 1 (colors p) [] row) t)
    as (s2 & Hg2 & Hr2); [by rewrite Hst|by rewrite len_png_filter|lia|].
  rewrite Hg2, len_png_filter, Hlr. rewrite (proj2 (Z.eqb_neq (rowBytes p) 0)) by lia.
  ds_simpl. pose proof Hok1 as [[? ?] _ _]. rewrite <- Hb1 in *.
  assert (Hundo := tiff8_row_undo (colors p) (bufferLength d1) row (buffer d1)
    ltac:(lia) ltac:(lia) ltac:(lia) Hbr). cbv zeta in Hundo. rewrite Hlr in Hundo.
  rewrite Hundo.
  eexists. split; [reflexivity|]. ds_simpl. split_and!; auto; [].
  eapply ensured_appends; [done..|]. apply appends_blit; simpl; auto; lia.
Qed.
End Contract.

(** The parameters of a row. *)
Definition pred_todo {S} `{SourceSpec S} (s : S) (p : Pred) (done : list Z)
    (rows : list (Z * list Z)) : Prop :=
  (predictor p <> 2 /\ 0 < pixBytes p <= rowBytes p /\ (done = [] \/ rowBytes p <= len done) /\
     rest s (png_encode (pixBytes p) (row_above (rowBytes p) done) rows))
  \/ (predictor p = 2 /\ bits p = 8 /\ 0 < colors p <= rowBytes p /\
     rest s (tiff_encode (colors p) rows)).

#[export] Program Instance pred_spec {S} `{SourceSpec S} : DecoderSpec S Pred := {
  todo s p done out n :=
    exists rows, pred_todo s p done rows /\ Forall (row_ok (rowBytes p)) rows /\
      out = concat (map snd rows) /\ n = Datatypes.S (length rows)
}.
Next Obligation.
  intros S ? ? d out n Hok He (rows & Ht & Hrows & -> & ->). simpl.
  assert (Hrb : 0 < rowBytes (ext d)) by (destruct Ht as [(_ & ? & _)|(_ & _ & ? & _)]; lia).
  destruct rows as [|[ft row] rows].
  - destruct (pred_end d Hok Hrb) as (d' & Hrun & Ha & He').
    { by destruct Ht as [(_ & _ & _ & Hr)|(_ & _ & _ & Hr)]. }
    exists d', [], [], 0%nat. rewrite He'. split_and!; auto; simpl; lia.
  - apply Forall_cons in Hrows as [Hrow Hrows].
    assert (Hstep : exists d', pred_readBlock d = (Ok tt, d') /\ appends d d' row /\
      eof d' = false /\ ext d' = ext d /\ pred_todo (stream d') (ext d) (produced d') rows).
    { pose proof Hrow as (_ & Hlr & _). simpl in Hlr.
      destruct Ht as [(Hp & Hpix & Hdone & Hr)|(Hp & Hb & Hcol & Hr)].
      - simpl in Hr. assert (Hbl : bufferLength d = 0 \/ rowBytes (ext d) <= bufferLength d)
          by (rewrite <- (len_produced d Hok); destruct Hdone as [->|?]; auto).
        destruct (png_step d ft row _ Hok Hp Hpix Hrow Hbl Hr)
          as (d' & Hrun & Ha & He' & Hx & Hr').
        exists d'. split_and!; auto. left.
        rewrite (app_produced _ _ _ Ha), row_above_app by lia.
        split_and!; auto; try lia. right. rewrite len_app.
        pose proof (len_nonneg (produced d)). lia.
      - simpl in Hr. destruct (tiff_step d ft row _ Hok Hp Hb Hcol Hrow Hr)
          as (d' & Hrun & Ha & He' & Hx & Hr').
        exists d'. split_and!; auto. right. done. }
    destruct Hstep as (d' & Hrun & Ha & He' & Hx & Ht').
    exists d', row, (concat (map snd rows)), (Datatypes.S (length rows)).
    rewrite He', Hx. split_and!; auto. exists rows. done.
Qed.

Lemma rows_bytes rb rows :
  Forall (row_ok rb) rows -> Forall is_byte (concat (map snd rows)).
Proof.
  induction 1 as [|[ft row] rows (_ & _ & Hb) _ IH]; simpl; [constructor|].
  by rewrite Forall_app.
Qed.

(** C33. Undoing PNG prediction: for any rows of [rowBytes] bytes, each with
    any of the five filter types, reading a PNG predictor stream over the
    filtered image returns the image, for every pixel width. *)
Theorem png_predictor_undo {S} `{SourceSpec S} (fuel : nat) (s : S) hint params str rows
  (Hnew : new_PredictorStream s hint (Some params) = Ok (inr str))
  (Hpng : jn_or (p_Predictor params) 1 <> 2)
  (Hpix : 0 < pixBytes (ext str) <= rowBytes (ext str))
  (Hrows : Forall (row_ok (rowBytes (ext str))) rows)
  (Hrest : rest s (png_encode (pixBytes (ext str)) (zeros (rowBytes (ext str))) rows))
  (Hfuel : (length rows < fuel)%nat) :
  fst (getBytes (ByteSource := DS_source (H := pred_decoder) fuel) 0 str) =
  Ok (concat (map snd rows)).
Proof.
  simpl in Hnew. destruct (_ <=? 1); [done|]. destruct (_ && _); [done|]. injection Hnew as <-.
  apply ds_read_all with (Datatypes.S (length rows)); [|by eapply rows_bytes|lia].
  exists rows. split_and!; auto. left. split_and!; auto; apply Hpix.
Qed.

Lemma png_predictor_undo_witness :
  fst (getBytes (ByteSource := DS_source (H := pred_decoder) 5) 0
    (new_DecodeStream None
      (new_Stream [4; 1; 2; 3; 3; 7; 8; 9; 1; 5; 251; 0] None None) (mkPred 12 1 8 3 1 3)))
    = Ok [1; 3; 6; 7; 13; 18; 5; 0; 0].
Proof.
  apply (png_predictor_undo 5
    (new_Stream [4; 1; 2; 3; 3; 7; 8; 9; 1; 5; 251; 0] None None)
    None (mkParams (Some 12) None (Some 8) (Some 3)) _
    [(4, [1; 3; 6]); (3, [7; 13; 18]); (1, [5; 0; 0])]).
  - vm_compute. reflexivity.
  - vm_compute. discriminate.
  - vm_compute. split; [reflexivity|discriminate].
  - repeat constructor; unfold is_byte; simpl; lia.
  - apply (new_Stream_rest [4; 1; 2; 3; 3; 7; 8; 9; 1; 5; 251; 0]).
    repeat constructor; unfold is_byte; lia.
  - simpl. lia.
Defined.
