(* ===== verification/Flate.v ===== *)
(** * Inflating

    [FlateStream] of pdf.worker.mjs: the bits of the source are read least
    significant first through [codeBuf], which holds [codeSize] of them; a
    Huffman code is looked up in a table indexed by the next [maxLen] bits,
    whose entries are [len << 16 | value].  The messages passed to [info] are
    left out.  [asyncGetBytes] and [getImageData] are not modelled: they await
    the browser's own decompression and fall back on this code. *)
From S2P Require Import Prelude ByteStream DecodeStream.
Local Open Scope js_scope.

(** ** Tables *)

Definition codeLenCodeMap : list Z := [
  16; 17; 18; 0; 8; 7; 9; 6; 10; 5;
  11; 4; 12; 3; 13; 2; 14; 1; 15].

Definition lengthDecode : list Z := [
  0x00003; 0x00004; 0x00005; 0x00006; 0x00007; 0x00008; 0x00009; 0x0000a; 0x1000b; 0x1000d;
  0x1000f; 0x10011; 0x20013; 0x20017; 0x2001b; 0x2001f; 0x30023; 0x3002b; 0x30033; 0x3003b;
  0x40043; 0x40053; 0x40063; 0x40073; 0x50083; 0x500a3; 0x500c3; 0x500e3; 0x00102; 0x00102;
  0x00102].

Definition distDecode : list Z := [
  0x00001; 0x00002; 0x00003; 0x00004; 0x10005; 0x10007; 0x20009; 0x2000d; 0x30011; 0x30019;
  0x40021; 0x40031; 0x50041; 0x50061; 0x60081; 0x600c1; 0x70101; 0x70181; 0x80201; 0x80301;
  0x90401; 0x90601; 0xa0801; 0xa0c01; 0xb1001; 0xb1801; 0xc2001; 0xc3001; 0xd4001; 0xd6001].

Definition fixedLitCodes : list Z := [
  0x70100; 0x80050; 0x80010; 0x80118; 0x70110; 0x80070; 0x80030; 0x900c0; 0x70108; 0x80060;
  0x80020; 0x900a0; 0x80000; 0x80080; 0x80040; 0x900e0; 0x70104; 0x80058; 0x80018; 0x90090;
  0x70114; 0x80078; 0x80038; 0x900d0; 0x7010c; 0x80068; 0x80028; 0x900b0; 0x80008; 0x80088;
  0x80048; 0x900f0; 0x70102; 0x80054; 0x80014; 0x8011c; 0x70112; 0x80074; 0x80034; 0x900c8;
  0x7010a; 0x80064; 0x80024; 0x900a8; 0x80004; 0x80084; 0x80044; 0x900e8; 0x70106; 0x8005c;
  0x8001c; 0x90098; 0x70116; 0x8007c; 0x8003c; 0x900d8; 0x7010e; 0x8006c; 0x8002c; 0x900b8;
  0x8000c; 0x8008c; 0x8004c; 0x900f8; 0x70101; 0x80052; 0x80012; 0x8011a; 0x70111; 0x80072;
  0x80032; 0x900c4; 0x70109; 0x80062; 0x80022; 0x900a4; 0x80002; 0x80082; 0x80042; 0x900e4;
  0x70105; 0x8005a; 0x8001a; 0x90094; 0x70115; 0x8007a; 0x8003a; 0x900d4; 0x7010d; 0x8006a;
  0x8002a; 0x900b4; 0x8000a; 0x8008a; 0x8004a; 0x900f4; 0x70103; 0x80056; 0x80016; 0x8011e;
  0x70113; 0x80076; 0x80036; 0x900cc; 0x7010b; 0x80066; 0x80026; 0x900ac; 0x80006; 0x80086;
  0x80046; 0x900ec; 0x70107; 0x8005e; 0x8001e; 0x9009c; 0x70117; 0x8007e; 0x8003e; 0x900dc;
  0x7010f; 0x8006e; 0x8002e; 0x900bc; 0x8000e; 0x8008e; 0x8004e; 0x900fc; 0x70100; 0x80051;
  0x80011; 0x80119; 0x70110; 0x80071; 0x80031; 0x900c2; 0x70108; 0x80061; 0x80021; 0x900a2;
  0x80001; 0x80081; 0x80041; 0x900e2; 0x70104; 0x80059; 0x80019; 0x90092; 0x70114; 0x80079;
  0x80039; 0x900d2; 0x7010c; 0x80069; 0x80029; 0x900b2; 0x80009; 0x80089; 0x80049; 0x900f2;
  0x70102; 0x80055; 0x80015; 0x8011d; 0x70112; 0x80075; 0x80035; 0x900ca; 0x7010a; 0x80065;
  0x80025; 0x900aa; 0x80005; 0x80085; 0x80045; 0x900ea; 0x70106; 0x8005d; 0x8001d; 0x9009a;
  0x70116; 0x8007d; 0x8003d; 0x900da; 0x7010e; 0x8006d; 0x8002d; 0x900ba; 0x8000d; 0x8008d;
  0x8004d; 0x900fa; 0x70101; 0x80053; 0x80013; 0x8011b; 0x70111; 0x80073; 0x80033; 0x900c6;
  0x70109; 0x80063; 0x80023; 0x900a6; 0x80003; 0x80083; 0x80043; 0x900e6; 0x70105; 0x8005b;
  0x8001b; 0x90096; 0x70115; 0x8007b; 0x8003b; 0x900d6; 0x7010d; 0x8006b; 0x8002b; 0x900b6;
  0x8000b; 0x8008b; 0x8004b; 0x900f6; 0x70103; 0x80057; 0x80017; 0x8011f; 0x70113; 0x80077;
  0x80037; 0x900ce; 0x7010b; 0x80067; 0x80027; 0x900ae; 0x80007; 0x80087; 0x80047; 0x900ee;
  0x70107; 0x8005f; 0x8001f; 0x9009e; 0x70117; 0x8007f; 0x8003f; 0x900de; 0x7010f; 0x8006f;
  0x8002f; 0x900be; 0x8000f; 0x8008f; 0x8004f; 0x900fe; 0x70100; 0x80050; 0x80010; 0x80118;
  0x70110; 0x80070; 0x80030; 0x900c1; 0x70108; 0x80060; 0x80020; 0x900a1; 0x80000; 0x80080;
  0x80040; 0x900e1; 0x70104; 0x80058; 0x80018; 0x90091; 0x70114; 0x80078; 0x80038; 0x900d1;
  0x7010c; 0x80068; 0x80028; 0x900b1; 0x80008; 0x80088; 0x80048; 0x900f1; 0x70102; 0x80054;
  0x80014; 0x8011c; 0x70112; 0x80074; 0x80034; 0x900c9; 0x7010a; 0x80064; 0x80024; 0x900a9;
  0x80004; 0x80084; 0x80044; 0x900e9; 0x70106; 0x8005c; 0x8001c; 0x90099; 0x70116; 0x8007c;
  0x8003c; 0x900d9; 0x7010e; 0x8006c; 0x8002c; 0x900b9; 0x8000c; 0x8008c; 0x8004c; 0x900f9;
  0x70101; 0x80052; 0x80012; 0x8011a; 0x70111; 0x80072; 0x80032; 0x900c5; 0x70109; 0x80062;
  0x80022; 0x900a5; 0x80002; 0x80082; 0x80042; 0x900e5; 0x70105; 0x8005a; 0x8001a; 0x90095;
  0x70115; 0x8007a; 0x8003a; 0x900d5; 0x7010d; 0x8006a; 0x8002a; 0x900b5; 0x8000a; 0x8008a;
  0x8004a; 0x900f5; 0x70103; 0x80056; 0x80016; 0x8011e; 0x70113; 0x80076; 0x80036; 0x900cd;
  0x7010b; 0x80066; 0x80026; 0x900ad; 0x80006; 0x80086; 0x80046; 0x900ed; 0x70107; 0x8005e;
  0x8001e; 0x9009d; 0x70117; 0x8007e; 0x8003e; 0x900dd; 0x7010f; 0x8006e; 0x8002e; 0x900bd;
  0x8000e; 0x8008e; 0x8004e; 0x900fd; 0x70100; 0x80051; 0x80011; 0x80119; 0x70110; 0x80071;
  0x80031; 0x900c3; 0x70108; 0x80061; 0x80021; 0x900a3; 0x80001; 0x80081; 0x80041; 0x900e3;
  0x70104; 0x80059; 0x80019; 0x90093; 0x70114; 0x80079; 0x80039; 0x900d3; 0x7010c; 0x80069;
  0x80029; 0x900b3; 0x80009; 0x80089; 0x80049; 0x900f3; 0x70102; 0x80055; 0x80015; 0x8011d;
  0x70112; 0x80075; 0x80035; 0x900cb; 0x7010a; 0x80065; 0x80025; 0x900ab; 0x80005; 0x80085;
  0x80045; 0x900eb; 0x70106; 0x8005d; 0x8001d; 0x9009b; 0x70116; 0x8007d; 0x8003d; 0x900db;
  0x7010e; 0x8006d; 0x8002d; 0x900bb; 0x8000d; 0x8008d; 0x8004d; 0x900fb; 0x70101; 0x80053;
  0x80013; 0x8011b; 0x70111; 0x80073; 0x80033; 0x900c7; 0x70109; 0x80063; 0x80023; 0x900a7;
  0x80003; 0x80083; 0x80043; 0x900e7; 0x70105; 0x8005b; 0x8001b; 0x90097; 0x70115; 0x8007b;
  0x8003b; 0x900d7; 0x7010d; 0x8006b; 0x8002b; 0x900b7; 0x8000b; 0x8008b; 0x8004b; 0x900f7;
  0x70103; 0x80057; 0x80017; 0x8011f; 0x70113; 0x80077; 0x80037; 0x900cf; 0x7010b; 0x80067;
  0x80027; 0x900af; 0x80007; 0x80087; 0x80047; 0x900ef; 0x70107; 0x8005f; 0x8001f; 0x9009f;
  0x70117; 0x8007f; 0x8003f; 0x900df; 0x7010f; 0x8006f; 0x8002f; 0x900bf; 0x8000f; 0x8008f;
  0x8004f; 0x900ff].

Definition fixedDistCodes : list Z := [
  0x50000; 0x50010; 0x50008; 0x50018; 0x50004; 0x50014; 0x5000c; 0x5001c; 0x50002; 0x50012;
  0x5000a; 0x5001a; 0x50006; 0x50016; 0x5000e; 0x00000; 0x50001; 0x50011; 0x50009; 0x50019;
  0x50005; 0x50015; 0x5000d; 0x5001d; 0x50003; 0x50013; 0x5000b; 0x5001b; 0x50007; 0x50017;
  0x5000f; 0x00000].


(** A table [codes, maxLen]. *)
Abbreviation table := (list Z * Z)%type.

Definition fixedLitCodeTab : table := (fixedLitCodes, 9).
Definition fixedDistCodeTab : table := (fixedDistCodes, 5).

(** ** Huffman tables *)

(** [for (i = 0; i < len; ++i) { code2 = code2 << 1 | t & 1; t >>= 1; }] *)
Fixpoint reverse_code (n : nat) (code2 t : Z) : Z :=
  match n with
  | O => code2
  | Datatypes.S n' => reverse_code n' (code2 .<< 1 .| t .& 1) (t .>> 1)
  end.

(** [for (i = code2; i < size; i += skip) codes[i] = v] *)
Fixpoint fill_codes (fuel : nat) (codes : list Z) (i skip v : Z) : list Z :=
  match fuel with
  | O => codes
  | Datatypes.S fuel' =>
      if i <? len codes then fill_codes fuel' (arr_set codes i v) (i + skip) skip v
      else codes
  end.

(** [for (val = 0; val < n; ++val) if (lengths[val] === len) ...] over the
    lengths from [val] on; it leaves [codes] and [code]. *)
Fixpoint table_of_length (len skip : Z) (lengths : list Z) (val : Z) (codes : list Z) (code : Z)
  {struct lengths} : list Z * Z :=
  match lengths with
  | [] => (codes, code)
  | l :: lengths' =>
      if l =? len then
        let code2 := reverse_code (Z.to_nat len) 0 code in
        let codes := fill_codes (length codes) codes code2 skip (len .<< 16 .| val) in
        table_of_length len skip lengths' (val + 1) codes (code + 1)
      else table_of_length len skip lengths' (val + 1) codes code
  end.

(** [for (len = 1, code = 0, skip = 2; len <= maxLen; ++len, ...)], [turns] of
    them left. *)
Fixpoint table_loop (turns : nat) (lengths : list Z) (len code skip : Z) (codes : list Z)
  {struct turns} : list Z :=
  match turns with
  | O => codes
  | Datatypes.S turns' =>
      let '(codes, code) := table_of_length len skip lengths 0 codes code in
      table_loop turns' lengths (len + 1) (code .<< 1) (skip .<< 1) codes
  end.

Definition generateHuffmanTable (lengths : list Z) : table :=
  let maxLen := fold_left (fun m l => if m <? l then l else m) lengths 0 in
  let size := 1 .<< maxLen in
  (table_loop (Z.to_nat maxLen) lengths 1 0 2 (zeros size), maxLen).

(** ** The stream *)

(** The fields a [FlateStream] adds. *)
Record FlateFields := mkFlate { codeSize : Z; codeBuf : Z }.

(** The constructor's checks of the two bytes of the header. *)
Definition flate_header {S} (cmf flg : jsnum) : M S unit :=
  if jn_is cmf (-1) || jn_is flg (-1) then throw (FormatError "Invalid header in flate stream")
  else if negb (jn_int cmf .& 0x0f =? 0x08)
  then throw (FormatError "Unknown compression method in flate stream")
  else if negb (match jn_add (Some (jn_int cmf .<< 8)) flg with
                | Some v => Z.rem v 31 =? 0
                | None => false
                end)
  then throw (FormatError "Bad FCHECK in flate stream")
  else if negb (jn_int flg .& 0x20 =? 0) then throw (FormatError "FDICT bit set in flate stream")
  else mret tt.

Section FlateStream.
Context {S : Type} `{ByteSource S}.
Abbreviation st := (DS S FlateFields).

(** It reads the header from [str] and keeps [str]. *)
Definition new_FlateStream (maybeLength : jsnum) : M S st :=
  cmf <- getByte ;;
  flg <- getByte ;;
  flate_header cmf flg ;;;
  gets (fun str => new_DecodeStream maybeLength str (mkFlate 0 0)).

Definition bad_encoding : exn := FormatError "Bad encoding in flate stream".

(** [while (codeSize < bits) { ... codeBuf |= b << codeSize; codeSize += 8; }];
    a turn adds 8 bits, so [bits] turns are enough.  [at_end] is what the loop
    does at the end of the source. *)
Fixpoint fill_bits (n : nat) (at_end : Z -> Z -> M st (Z * Z)) (bits size buf : Z) :
    M st (Z * Z) :=
  if size <? bits then
    match n with
    | O => out_of_fuel
    | Datatypes.S n' =>
        b <- on_stream getByte ;;
        if jn_is b (-1) then at_end size buf
        else fill_bits n' at_end bits (size + 8) (buf .| (jn_int b .<< size))
    end
  else mret (size, buf).

Definition getBits (bits : Z) : M st Z :=
  x <- gets ext ;;
  let* (size, buf) <- fill_bits (Z.to_nat bits) (fun _ _ => throw bad_encoding)
                        bits (codeSize x) (codeBuf x) ;;
  modify (set_ext (mkFlate (size - bits) (buf .>> bits))) ;;;
  mret (buf .& (1 .<< bits) - 1).

Definition getCode (tab : table) : M st Z :=
  let '(codes, maxLen) := tab in
  x <- gets ext ;;
  let* (size, buf) <- fill_bits (Z.to_nat maxLen) (fun size buf => mret (size, buf))
                        maxLen (codeSize x) (codeBuf x) ;;
  let code := jn_int (arr_get codes (buf .& (1 .<< maxLen) - 1)) in
  let codeLen := code .>> 16 in
  let codeVal := code .& 0xffff in
  if (codeLen <? 1) || (size <? codeLen) then throw bad_encoding
  else
    modify (set_ext (mkFlate (size - codeLen) (buf .>> codeLen))) ;;;
    mret codeVal.

(** [this.#endsStreamOnError(message)] *)
Definition endsStreamOnError : M st unit := modify (set_eof true).

(** An uncompressed block, [hdr === 0]. *)
Definition stored_block : M st unit :=
  b0 <- on_stream getByte ;;
  if jn_is b0 (-1) then endsStreamOnError else
  b1 <- on_stream getByte ;;
  if jn_is b1 (-1) then endsStreamOnError else
  let blockLen := jn_int b0 .| (jn_int b1 .<< 8) in
  b2 <- on_stream getByte ;;
  if jn_is b2 (-1) then endsStreamOnError else
  b3 <- on_stream getByte ;;
  if jn_is b3 (-1) then endsStreamOnError else
  let check := jn_int b2 .| (jn_int b3 .<< 8) in
  if negb (check =? js_not blockLen .& 0xffff) && (negb (blockLen =? 0) || negb (check =? 0))
  then throw (FormatError "Bad uncompressed block length in flate stream")
  else
    modify (set_ext (mkFlate 0 0)) ;;;
    bufferLength <- gets bufferLength ;;
    let e := bufferLength + blockLen in
    ensureBuffer e ;;;
    modify (set_bufferLength e) ;;;
    if blockLen =? 0 then
      b <- on_stream peekByte ;;
      if jn_is b (-1) then modify (set_eof true) else mret tt
    else
      block <- on_stream (getBytes blockLen) ;;
      buf_set block bufferLength ;;;
      if len block <? blockLen then modify (set_eof true) else mret tt.

(** [for (i = 0; i < numCodeLenCodes; ++i)], over the rest of the map. *)
Fixpoint read_code_lengths (order : list Z) (codeLenCodeLengths : list Z) : M st (list Z) :=
  match order with
  | [] => mret codeLenCodeLengths
  | k :: order' =>
      v <- getBits 3 ;;
      read_code_lengths order' (arr_set codeLenCodeLengths k v)
  end.

(** [while (repeatLength-- > 0) codeLengths[i++] = what] *)
Fixpoint repeat_length (n : nat) (codeLengths : list Z) (i what : Z) : list Z * Z :=
  match n with
  | O => (codeLengths, i)
  | Datatypes.S n' => repeat_length n' (arr_set codeLengths i (to_u8 what)) (i + 1) what
  end.

(** [while (i < codes)]: a turn adds at least 1 to [i]. *)
Fixpoint read_lengths (n : nat) (tab : table) (codes i prev : Z) (codeLengths : list Z)
  {struct n} : M st (list Z) :=
  if i <? codes then
    match n with
    | O => out_of_fuel
    | Datatypes.S n' =>
        code <- getCode tab ;;
        let repeat bitsLength bitsOffset what :=
          r <- getBits bitsLength ;;
          let '(codeLengths, i) :=
            repeat_length (Z.to_nat (r + bitsOffset)) codeLengths i what in
          read_lengths n' tab codes i what codeLengths in
        if code =? 16 then repeat 2 3 prev
        else if code =? 17 then repeat 3 3 0
        else if code =? 18 then repeat 7 11 0
        else read_lengths n' tab codes (i + 1) code (arr_set codeLengths i (to_u8 code))
    end
  else mret codeLengths.

(** The tables of a dynamic block, [hdr === 2]. *)
Definition dynamic_tables : M st (table * table) :=
  a <- getBits 5 ;;
  let numLitCodes := a + 257 in
  b <- getBits 5 ;;
  let numDistCodes := b + 1 in
  c <- getBits 4 ;;
  let numCodeLenCodes := c + 4 in
  codeLenCodeLengths <- read_code_lengths (take (Z.to_nat numCodeLenCodes) codeLenCodeMap)
                          (zeros (len codeLenCodeMap)) ;;
  let codeLenCodeTab := generateHuffmanTable codeLenCodeLengths in
  let codes := numLitCodes + numDistCodes in
  codeLengths <- read_lengths (Z.to_nat codes) codeLenCodeTab codes 0 0 (zeros codes) ;;
  mret (generateHuffmanTable (subarray codeLengths 0 numLitCodes),
        generateHuffmanTable (subarray codeLengths numLitCodes codes)).

(** [if (e >= limit) { buffer = this.ensureBuffer(e); limit = buffer.length; }] *)
Definition room_for (e limit : Z) : M st Z :=
  if limit <=? e then buffer <- ensureBuffer e ;; mret (len buffer) else mret limit.

(** [for (k = 0; k < len; ++k, ++pos) buffer[pos] = buffer[pos - dist]] *)
Fixpoint copy_back (n : nat) (pos dist : Z) (b : list Z) : list Z :=
  match n with
  | O => b
  | Datatypes.S n' =>
      copy_back n' (pos + 1) dist (arr_set b pos (jn_u8 (arr_get b (pos - dist))))
  end.

(** A base and extra bits: [entry & 0xffff] plus [getBits(entry >> 16)]. *)
Definition with_extra (entry : jsnum) : M st Z :=
  let code2 := jn_int entry .>> 16 in
  extra <- (if 0 <? code2 then getBits code2 else mret code2) ;;
  mret ((jn_int entry .& 0xffff) + extra).

(** [while (true)]: every turn reads a code of one bit at least. *)
Fixpoint codes_loop (n : nat) (lit dist : table) (limit pos : Z) {struct n} : M st unit :=
  match n with
  | O => out_of_fuel
  | Datatypes.S n' =>
      code1 <- getCode lit ;;
      if code1 <? 256 then
        limit <- room_for (pos + 1) limit ;;
        buf_write pos (Some code1) ;;;
        codes_loop n' lit dist limit (pos + 1)
      else if code1 =? 256 then modify (set_bufferLength pos)
      else
        length <- with_extra (arr_get lengthDecode (code1 - 257)) ;;
        code1 <- getCode dist ;;
        d <- with_extra (arr_get distDecode code1) ;;
        limit <- room_for (pos + length) limit ;;
        modify (fun s => set_buffer (copy_back (Z.to_nat length) pos d (buffer s)) s) ;;;
        codes_loop n' lit dist limit (pos + length)
  end.

Definition coded_block (fuel : nat) (tabs : table * table) : M st unit :=
  limit <- gets (fun s => len (buffer s)) ;;
  pos <- gets bufferLength ;;
  codes_loop fuel (fst tabs) (snd tabs) limit pos.

(** [fuel] bounds the codes of one block. *)
Definition flate_readBlock (fuel : nat) : M st unit :=
  hdr <- try_catch (h <- getBits 3 ;; mret (Some h)) (fun _ => endsStreamOnError ;;; mret None) ;;
  match hdr with
  | None => mret tt
  | Some hdr =>
      (if hdr .& 1 =? 0 then mret tt else modify (set_eof true)) ;;;
      let hdr := hdr .>> 1 in
      if hdr =? 0 then stored_block
      else if hdr =? 1 then coded_block fuel (fixedLitCodeTab, fixedDistCodeTab)
      else if hdr =? 2 then tabs <- dynamic_tables ;; coded_block fuel tabs
      else throw (FormatError "Unknown block type in flate stream")
  end.
End FlateStream.

Definition flate_decoder {S} `{ByteSource S} (fuel : nat) : Decoder S FlateFields :=
  {| readBlock := flate_readBlock fuel |}.
