(* ===== verification/Bits.v ===== *)
(** * Bits of a stream

    A number read bit by bit, least significant first, as a list of booleans;
    the 32-bit operators on numbers small enough not to overflow. *)
From S2P Require Import Prelude JsBits.
Local Open Scope js_scope.

(** ** Small numbers *)

Lemma js_shl_small a n :
  0 <= n < 32 -> 0 <= a -> a * 2 ^ n < 2 ^ 31 -> a .<< n = a * 2 ^ n.
Proof.
  intros Hn Ha Hl. assert (0 < 2 ^ n) by (apply Z.pow_pos_nonneg; lia).
  unfold js_shl. rewrite (Z.mod_small n), (to_int32_small a) by nia.
  rewrite Z.shiftl_mul_pow2 by lia. apply to_int32_small. nia.
Qed.

Lemma js_sar_small a n : 0 <= n < 32 -> 0 <= a < 2 ^ 31 -> a .>> n = a / 2 ^ n.
Proof.
  intros Hn Ha. unfold js_sar. rewrite (Z.mod_small n), to_int32_small by lia.
  by rewrite Z.shiftr_div_pow2 by lia.
Qed.

Lemma js_and_small a m : 0 <= m <= 30 -> a .& (1 .<< m) - 1 = a mod 2 ^ m.
Proof.
  intros Hm. assert (2 ^ m <= 2 ^ 30) by (apply Z.pow_le_mono_r; lia).
  rewrite js_shl_small by lia. rewrite Z.mul_1_l. apply js_and_mask. lia.
Qed.

(** [x .| y] when the bits of [y] start where those of [x] end. *)
Lemma js_or_shifted x y k :
  0 <= k < 32 -> 0 <= x < 2 ^ k -> 0 <= y -> x + y * 2 ^ k < 2 ^ 31 ->
  x .| (y .<< k) = x + y * 2 ^ k.
Proof.
  intros Hk Hx Hy Hl. assert (0 < 2 ^ k) by (apply Z.pow_pos_nonneg; lia).
  rewrite js_shl_small by nia. unfold js_or. rewrite !to_int32_small by nia.
  rewrite <- Z.shiftl_mul_pow2 by lia. rewrite lor_shiftl_add by lia.
  by rewrite Z.shiftl_mul_pow2 by lia.
Qed.

(** The same with the operands in the other order. *)
Lemma js_or_low x y k :
  0 <= k < 32 -> 0 <= x < 2 ^ k -> 0 <= y -> y * 2 ^ k < 2 ^ 31 ->
  (y .<< k) .| x = x + y * 2 ^ k.
Proof.
  intros Hk Hx Hy Hl. assert (0 < 2 ^ k) by (apply Z.pow_pos_nonneg; lia).
  assert (Hlt : x + y * 2 ^ k < 2 ^ 31).
  { assert (E : 2 ^ 31 = 2 ^ (31 - k) * 2 ^ k) by (rewrite <- Z.pow_add_r by lia; f_equal; lia).
    rewrite E in *. apply Z.mul_lt_mono_pos_r in Hl; nia. }
  rewrite <- js_or_shifted by lia. unfold js_or. apply Z.lor_comm.
Qed.

Lemma mod_pow2_mod z a b : 0 <= a <= b -> (z mod 2 ^ b) mod 2 ^ a = z mod 2 ^ a.
Proof.
  intros Hab. apply Z.mod_mod_divide. exists (2 ^ (b - a)). rewrite <- Z.pow_add_r by lia. f_equal. lia.
Qed.

(** ** Lists of bits *)

Fixpoint bits (n : nat) (z : Z) : list bool :=
  match n with
  | O => []
  | S n' => Z.odd z :: bits n' (z / 2)
  end.

Fixpoint num_of (l : list bool) : Z :=
  match l with
  | [] => 0
  | b :: l' => Z.b2z b + 2 * num_of l'
  end.

(** The bits of bytes. *)
Definition stream_bits (bytes : list Z) : list bool := flat_map (bits 8) bytes.

Lemma length_bits n z : length (bits n z) = n.
Proof. revert z. induction n; intros z; simpl; congruence. Qed.

Lemma num_of_range l : 0 <= num_of l < 2 ^ len l.
Proof.
  induction l as [|b l IH]; [simpl; unfold len; simpl; lia|].
  rewrite len_cons, Z.pow_add_r by (try apply len_nonneg; lia).
  simpl. destruct b; simpl; lia.
Qed.

Lemma num_of_bits n z : num_of (bits n z) = z mod 2 ^ Z.of_nat n.
Proof.
  revert z. induction n as [|n IH]; intros z; [simpl; by rewrite Z.mod_1_r|].
  cbn [bits num_of]. rewrite IH, Nat2Z.inj_succ, Z.pow_succ_r by lia.
  rewrite Z.rem_mul_r by lia. rewrite (Zmod_odd z). by destruct (Z.odd z).
Qed.

Lemma num_of_bits_small n z : 0 <= z < 2 ^ Z.of_nat n -> num_of (bits n z) = z.
Proof. intros. by rewrite num_of_bits, Z.mod_small. Qed.

Lemma bits_num_of l : bits (length l) (num_of l) = l.
Proof.
  induction l as [|b l IH]; [done|]. cbn [length bits num_of]. f_equal.
  - rewrite Z.odd_add_mul_2. by destruct b.
  - rewrite (Z.mul_comm 2), Z.div_add by lia.
    replace (Z.b2z b / 2) with 0 by (by destruct b). exact IH.
Qed.

Lemma bits_inj n l l' : length l = n -> length l' = n -> num_of l = num_of l' -> l = l'.
Proof. intros Hl Hl' H. rewrite <- (bits_num_of l), <- (bits_num_of l'), Hl, Hl'. congruence. Qed.

Lemma num_of_app l1 l2 : num_of (l1 ++ l2) = num_of l1 + num_of l2 * 2 ^ len l1.
Proof.
  induction l1 as [|b l1 IH]; [cbn [app num_of]; change (len (@nil bool)) with 0; rewrite Z.pow_0_r; lia|].
  rewrite len_cons, Z.pow_add_r by (try apply len_nonneg; lia).
  cbn [app num_of]. rewrite IH. ring.
Qed.

Lemma bits_app n m z : bits (n + m) z = bits n z ++ bits m (z / 2 ^ Z.of_nat n).
Proof.
  revert z. induction n as [|n IH]; intros z; [simpl; by rewrite Z.div_1_r|].
  cbn [Nat.add bits app]. rewrite IH. do 2 f_equal.
  rewrite Nat2Z.inj_succ, Z.pow_succ_r by lia. by rewrite Z.div_div by lia.
Qed.

Lemma bits_mod n m z : (n <= m)%nat -> bits n (z mod 2 ^ Z.of_nat m) = bits n z.
Proof.
  intros Hn. apply (bits_inj n); rewrite ?length_bits; auto.
  rewrite !num_of_bits. replace m with (n + (m - n))%nat by lia.
  rewrite Nat2Z.inj_add, Z.pow_add_r, Z.rem_mul_r by lia.
  rewrite Z.mul_comm, Z_mod_plus_full. apply Z.mod_mod. lia.
Qed.

(** Bits in front of others. *)
Lemma bits_cat n m x y :
  0 <= x < 2 ^ Z.of_nat n -> bits (n + m) (x + y * 2 ^ Z.of_nat n) = bits n x ++ bits m y.
Proof.
  intros Hx. rewrite bits_app. f_equal.
  - rewrite <- (bits_mod n n), Z_mod_plus_full by lia. by rewrite Z.mod_small.
  - f_equal. rewrite Z.div_add by lia. by rewrite Z.div_small by lia.
Qed.

(** ** The bits of bytes *)

Lemma stream_bits_app a b : stream_bits (a ++ b) = stream_bits a ++ stream_bits b.
Proof. apply flat_map_app. Qed.

Lemma len_stream_bits a : len (stream_bits a) = 8 * len a.
Proof.
  unfold stream_bits. induction a as [|x a IH]; [done|].
  cbn [flat_map]. rewrite len_app, len_cons, IH. unfold len at 1. rewrite length_bits. lia.
Qed.

(** Bytes at the front of the bits are bytes at the front of the bytes. *)
Lemma stream_bits_prefix r a t :
  Forall (fun b => 0 <= b < 256) r -> Forall (fun b => 0 <= b < 256) a ->
  stream_bits r = stream_bits a ++ t -> exists r', r = a ++ r' /\ t = stream_bits r'.
Proof.
  intros Hr Ha. revert r Hr. induction Ha as [|x a Hx Ha IH]; intros r Hr Heq; [by exists r|].
  destruct Hr as [|y r Hy Hr]; [discriminate Heq|].
  unfold stream_bits in Heq. cbn [flat_map] in Heq. rewrite <- app_assoc in Heq.
  apply app_inj_1 in Heq as [Hxy Heq]; [|by rewrite !length_bits].
  apply (f_equal num_of) in Hxy. rewrite !num_of_bits_small in Hxy by (simpl; lia). subst y.
  destruct (IH r Hr Heq) as (r' & -> & ->). by exists r'.
Qed.

(** A check of the numbers below [n], one by one. *)
Lemma check_below (n : nat) (P : Z -> bool) :
  forallb (fun i => P (Z.of_nat i)) (seq 0 n) = true ->
  forall k, 0 <= k < Z.of_nat n -> P k = true.
Proof.
  intros Hall k Hk. rewrite forallb_forall in Hall.
  assert (Hin : In (Z.to_nat k) (seq 0 n)) by (apply in_seq; lia).
  specialize (Hall _ Hin). by rewrite Z2Nat.id in Hall by lia.
Qed.
