(* ===== verification/Huffman.v ===== *)
(** * Canonical prefix codes

    The codes of RFC 1951, section 3.2.2: a list of lengths determines the
    code of each value.  [generateHuffmanTable] is proved to make the table
    that reads these codes, and the tables of the fixed codes to be two of
    these tables. *)
From S2P Require Import Prelude JsBits ByteStream DecodeStream Flate Bits.
Local Open Scope js_scope.

(** ** The codes of a list of lengths *)

(** [bl_count]: how many of the lengths are [l]. *)
Definition bl_count (lengths : list Z) (l : Z) : Z := len (List.filter (Z.eqb l) lengths).

(** The smallest code of each length; a length of 0 means no code. *)
Fixpoint next_code (lengths : list Z) (n : nat) : Z :=
  match n with
  | O => 0
  | S n' => (next_code lengths n' + (if (n' =? 0)%nat then 0 else bl_count lengths (Z.of_nat n'))) * 2
  end.

Definition length_of (lengths : list Z) (v : Z) : Z := jn_int (arr_get lengths v).

(** Values with codes of one length have consecutive codes. *)
Definition code_of (lengths : list Z) (v : Z) : Z :=
  let l := length_of lengths v in
  next_code lengths (Z.to_nat l) + bl_count (take (Z.to_nat v) lengths) l.

(** The bits of a code, most significant first. *)
Definition codeword (lengths : list Z) (v : Z) : list bool :=
  rev (bits (Z.to_nat (length_of lengths v)) (code_of lengths v)).

(** Lengths up to 15, no more codes of a length than there is room for. *)
Definition codes_fit (lengths : list Z) : bool :=
  forallb (fun l => (0 <=? l) && (l <=? 15)) lengths &&
  forallb (fun n => next_code lengths n + bl_count lengths (Z.of_nat n) <=? 2 ^ Z.of_nat n)
    (seq 1 15) &&
  (len lengths <=? 65536).

Definition has_code (lengths : list Z) (v : Z) : bool :=
  (0 <=? v) && (0 <? length_of lengths v).

(** The longest code. *)
Definition max_length (lengths : list Z) : Z := fold_left Z.max lengths 0.

(** The table reads [v] wherever the next bits start with [w]. *)
Record reads_code (tab : table) (w : list bool) (v : Z) : Prop := {
  rc_length : 0 < len w <= snd tab;
  rc_max : snd tab <= 15;
  rc_value : 0 <= v < 65536;
  rc_lookup i : 0 <= i < 2 ^ snd tab -> i mod 2 ^ len w = num_of w ->
    arr_get (fst tab) i = Some (v + len w * 65536)
}.

Example fixed_tables :
  generateHuffmanTable (replicate 144 8 ++ replicate 112 9 ++ replicate 24 7 ++ replicate 8 8)
    = fixedLitCodeTab /\
  generateHuffmanTable (replicate 30 5) = fixedDistCodeTab.
Proof. split; vm_compute; reflexivity. Qed.

(** ** Codes *)

Lemma bl_count_app a b l : bl_count (a ++ b) l = bl_count a l + bl_count b l.
Proof. unfold bl_count. by rewrite List.filter_app, len_app. Qed.

Lemma bl_count_nonneg a l : 0 <= bl_count a l.
Proof. apply len_nonneg. Qed.

Lemma bl_count_cons x a l : bl_count (x :: a) l = (if l =? x then 1 else 0) + bl_count a l.
Proof. unfold bl_count. simpl. destruct (l =? x); rewrite ?len_cons; lia. Qed.

Lemma next_code_nonneg lengths n : 0 <= next_code lengths n.
Proof.
  induction n; simpl; [lia|]. pose proof (bl_count_nonneg lengths (Z.of_nat n)).
  destruct (n =? 0)%nat; lia.
Qed.

(** ** Filling the entries of a code *)

Lemma reverse_code_bits n acc t :
  (n <= 15)%nat -> 0 <= t < 2 ^ 15 -> 0 <= acc -> (acc + 1) * 2 ^ Z.of_nat n <= 2 ^ 30 ->
  reverse_code n acc t = num_of (rev (bits n t)) + acc * 2 ^ Z.of_nat n.
Proof.
  revert acc t. induction n as [|n IH]; intros acc t Hn Ht Ha Hl.
  - cbn [reverse_code bits rev num_of]. rewrite Z.mul_1_r. lia.
  - cbn [reverse_code bits rev]. rewrite Nat2Z.inj_succ, Z.pow_succ_r in * by lia.
    assert (0 < 2 ^ Z.of_nat n) by (apply Z.pow_pos_nonneg; lia).
    change (t .& 1) with (t .& (1 .<< 1) - 1).
    rewrite js_and_small, js_sar_small by lia. change (2 ^ 1) with 2.
    pose proof (Z.mod_pos_bound t 2 ltac:(lia)).
    rewrite js_or_low by nia. change (2 ^ 1) with 2.
    assert (Ho : t mod 2 = Z.b2z (Z.odd t)) by (rewrite Zmod_odd; by destruct (Z.odd t)).
    rewrite IH; [|lia| |lia|].
    + rewrite num_of_app. unfold len. rewrite length_rev, length_bits. cbn [num_of].
      rewrite Ho. ring.
    + pose proof (Z.div_lt_upper_bound t 2 (2 ^ 15)). pose proof (Z.div_pos t 2). lia.
    + nia.
Qed.

Lemma len_fill_codes n codes i skip v : len (fill_codes n codes i skip v) = len codes.
Proof.
  revert codes i. induction n as [|n IH]; intros codes i; simpl; [done|].
  case_bool; [|done]. by rewrite IH, len_arr_set.
Qed.

(** The entries the loop writes: those [skip] apart, from [i] on. *)
Lemma fill_codes_get n codes i skip v k :
  0 < skip -> 0 <= i -> len codes <= i + Z.of_nat n * skip -> 0 <= k < len codes ->
  arr_get (fill_codes n codes i skip v) k =
  if (i <=? k) && ((k - i) mod skip =? 0) then Some v else arr_get codes k.
Proof.
  intros Hs. revert codes i. induction n as [|n IH]; intros codes i Hi Hn Hk.
  { simpl. ztest. done. }
  simpl. destruct (i <? len codes) eqn:E; bool_hyps; [|ztest; done].
  rewrite IH; rewrite ?len_arr_set; try lia. rewrite arr_get_set by lia.
  assert (Hm : (k - (i + skip)) mod skip = (k - i) mod skip).
  { replace (k - (i + skip)) with (k - i + (-1) * skip) by lia. apply Z_mod_plus_full. }
  rewrite Hm. destruct (k =? i) eqn:Ei; bool_hyps.
  - subst. rewrite Z.sub_diag, Z.mod_0_l by lia. repeat ztest. done.
  - destruct (i + skip <=? k) eqn:E1; bool_hyps; [ztest; done|].
    destruct (i <=? k) eqn:E2; bool_hyps; [|done].
    rewrite Z.mod_small by lia. ztest. done.
Qed.

(** ** The table *)

(** The first [l] bits of an index, read as a code. *)
Definition top (l i : Z) : Z := num_of (rev (bits (Z.to_nat l) i)).

Lemma top_div l1 l2 i : 0 <= l1 <= l2 -> top l2 i / 2 ^ (l2 - l1) = top l1 i.
Proof.
  intros Hl. unfold top. replace (Z.to_nat l2) with (Z.to_nat l1 + Z.to_nat (l2 - l1))%nat by lia.
  rewrite bits_app, rev_app_distr, num_of_app.
  set (hi := rev (bits (Z.to_nat (l2 - l1)) _)).
  assert (Hh : len hi = l2 - l1) by (unfold hi, len; rewrite length_rev, length_bits; lia).
  pose proof (num_of_range hi) as Hr. rewrite Hh in *.
  rewrite Z.div_add by lia. by rewrite Z.div_small by lia.
Qed.

Lemma top_code l i c :
  0 <= l -> 0 <= c < 2 ^ l ->
  top l i = c <-> i mod 2 ^ l = num_of (rev (bits (Z.to_nat l) c)).
Proof.
  intros Hl Hc.
  assert (Hn : 2 ^ Z.of_nat (Z.to_nat l) = 2 ^ l) by (f_equal; lia).
  rewrite <- Hn, <- num_of_bits. unfold top. split; intros H.
  - f_equal. rewrite <- (rev_involutive (bits (Z.to_nat l) i)). f_equal.
    apply (bits_inj (Z.to_nat l)); rewrite ?length_rev, ?length_bits; auto.
    rewrite H. symmetry. apply num_of_bits_small. lia.
  - apply (bits_inj (Z.to_nat l)) in H; rewrite ?length_rev, ?length_bits; auto.
    rewrite H, rev_involutive. apply num_of_bits_small. lia.
Qed.

Section Table.
Context (lengths : list Z) (m : Z).
Context (Hm : 0 <= m <= 15) (Hlen : len lengths <= 65536).
Context (Hfit : forall l, 0 < l <= m ->
  next_code lengths (Z.to_nat l) + bl_count lengths l <= 2 ^ l).

(** The codes of length below [l], and those of length [l] of the values
    below [val], are in the table, and all end before [code]. *)
Record filled (l val code : Z) (codes : list Z) : Prop := {
  fd_len : len codes = 2 ^ m;
  fd_code v :
    let l' := length_of lengths v in
    has_code lengths v = true -> l' < l \/ l' = l /\ v < val ->
    (code_of lengths v + 1) * 2 ^ (l - l') <= code /\
    forall i, 0 <= i < 2 ^ m -> top l' i = code_of lengths v ->
      arr_get codes i = Some (v + l' * 65536);
  fd_none i :
    0 <= i < 2 ^ m ->
    (forall v, has_code lengths v = true ->
      length_of lengths v < l \/ length_of lengths v = l /\ v < val ->
      top (length_of lengths v) i <> code_of lengths v) ->
    arr_get codes i = Some 0
}.

(** The entry of a code, and the table with this code filled in. *)
Lemma fill_entry l val c codes :
  0 < l <= m -> 0 <= val < 65536 -> 0 <= c < 2 ^ l -> len codes = 2 ^ m ->
  let codes' := fill_codes (length codes) codes (reverse_code (Z.to_nat l) 0 c)
                  (2 ^ l) (l .<< 16 .| val) in
  len codes' = 2 ^ m /\
  forall i, 0 <= i < 2 ^ m ->
    arr_get codes' i = if top l i =? c then Some (val + l * 65536) else arr_get codes i.
Proof.
  intros Hl Hv Hc Hlc codes'.
  assert (H2l : 0 < 2 ^ l) by (apply Z.pow_pos_nonneg; lia).
  assert (H2 : 2 ^ l <= 2 ^ 15) by (apply Z.pow_le_mono_r; lia).
  assert (Hlm : 2 ^ l <= 2 ^ m) by (apply Z.pow_le_mono_r; lia).
  split; [unfold codes'; by rewrite len_fill_codes|].
  intros i Hi. unfold codes'.
  rewrite reverse_code_bits by (rewrite ?Z2Nat.id by lia; lia).
  rewrite Z.add_0_r, js_or_low by lia. change (2 ^ 16) with 65536.
  set (w := rev _). assert (Hw : len w = l)
    by (unfold w, len; rewrite length_rev, length_bits; lia).
  pose proof (num_of_range w) as Hr. rewrite Hw in Hr.
  rewrite fill_codes_get; [|lia|lia|unfold len in *; nia|lia].
  assert (Heq : ((num_of w <=? i) && ((i - num_of w) mod 2 ^ l =? 0)) = (top l i =? c)).
  { apply eq_true_iff_eq. rewrite Z.eqb_eq, (top_code l i c) by lia. fold w.
    rewrite andb_true_iff, Z.leb_le, Z.eqb_eq. split.
    - intros [Hle H0]. apply Z.mod_divide in H0 as [k Hk]; [|lia].
      replace i with (num_of w + k * 2 ^ l) by lia.
      rewrite Z_mod_plus_full. by apply Z.mod_small.
    - intros H0. pose proof (Z.div_mod i (2 ^ l) ltac:(lia)).
      pose proof (Z.div_pos i (2 ^ l) ltac:(lia) ltac:(lia)). split; [nia|].
      replace (i - num_of w) with (i / 2 ^ l * 2 ^ l) by lia. apply Z.mod_mul. lia. }
  rewrite Heq. reflexivity.
Qed.

(** A code that ends before another is not a prefix of it. *)
Lemma codes_apart l l' c c' i :
  0 <= l' <= l -> (c' + 1) * 2 ^ (l - l') <= c -> top l i = c -> top l' i <> c'.
Proof.
  intros Hl Hlt <- <-. rewrite <- (top_div l' l) in Hlt by lia.
  assert (0 < 2 ^ (l - l')) by (apply Z.pow_pos_nonneg; lia).
  pose proof (Z.mul_succ_div_gt (top l i) (2 ^ (l - l')) ltac:(lia)). lia.
Qed.

Lemma filled_step l val c codes :
  0 < l <= m -> 0 <= val < 65536 -> 0 <= c < 2 ^ l ->
  length_of lengths val = l -> code_of lengths val = c -> filled l val c codes ->
  filled l (val + 1) (c + 1)
    (fill_codes (length codes) codes (reverse_code (Z.to_nat l) 0 c)
       (2 ^ l) (l .<< 16 .| val)).
Proof.
  intros Hl Hv Hc Hlv Hcv [Hlc Hold Hnone].
  destruct (fill_entry l val c codes Hl Hv Hc Hlc) as [Hlc' Hget].
  split; [done| |].
  2: { intros i Hi Hnot. rewrite Hget by done.
    destruct (top l i =? c) eqn:E; bool_hyps.
    - exfalso. apply (Hnot val); [unfold has_code; lia|lia|congruence].
    - apply Hnone; [done|]. intros v Hhas Hb. apply Hnot; [done|lia]. }
  intros v l' Hhas Hbefore.
  destruct (decide (v = val)) as [->|Hne].
  - unfold l' in *. rewrite Hlv, Hcv, Z.sub_diag in *. split; [lia|].
    intros i Hi Ht. rewrite Hget, Ht, Z.eqb_refl by done. done.
  - destruct (Hold v Hhas) as [Hend Hcode]; [fold l'; lia|]. fold l' in Hend, Hcode.
    split; [lia|]. intros i Hi Ht. rewrite Hget by done.
    destruct (top l i =? c) eqn:E; bool_hyps; [|by apply Hcode].
    unfold has_code in Hhas. fold l' in Hhas. bool_hyps.
    exfalso. by apply (codes_apart l l' c (code_of lengths v) i) in Ht; [|lia|..].
Qed.

Lemma filled_skip l val c codes :
  length_of lengths val <> l -> filled l val c codes -> filled l (val + 1) c codes.
Proof.
  intros Hne [Hlc Hold Hnone]. split; [done| |].
  2: { intros i Hi Hnot. apply Hnone; [done|]. intros v Hhas Hb. apply Hnot; [done|lia]. }
  intros v l' Hhas Hbefore. apply Hold; [done|].
  destruct (decide (v = val)) as [->|]; [|fold l'; lia]. fold l'. unfold l' in Hbefore. lia.
Qed.

Lemma length_of_app pre x suf : length_of (pre ++ x :: suf) (len pre) = x.
Proof.
  unfold length_of, arr_get. pose proof (len_nonneg pre). ztest.
  unfold len. rewrite Nat2Z.id. by rewrite list_lookup_middle.
Qed.

Lemma code_of_app pre x suf :
  code_of (pre ++ x :: suf) (len pre) =
  next_code (pre ++ x :: suf) (Z.to_nat x) + bl_count pre x.
Proof.
  unfold code_of. rewrite length_of_app. do 2 f_equal.
  unfold len. rewrite Nat2Z.id. by rewrite take_app_length.
Qed.

Lemma table_of_length_filled l suf : forall pre codes,
  lengths = pre ++ suf -> 0 < l <= m ->
  filled l (len pre) (next_code lengths (Z.to_nat l) + bl_count pre l) codes ->
  let '(codes', code') := table_of_length l (2 ^ l) suf (len pre) codes
    (next_code lengths (Z.to_nat l) + bl_count pre l) in
  code' = next_code lengths (Z.to_nat l) + bl_count lengths l /\
  filled l (len lengths) code' codes'.
Proof.
  induction suf as [|x suf IH]; intros pre codes Hsplit Hl Hfill.
  { rewrite app_nil_r in Hsplit. subst pre. simpl. done. }
  assert (Hnext : lengths = (pre ++ [x]) ++ suf) by (by rewrite <- app_assoc).
  assert (Hlen1 : len (pre ++ [x]) = len pre + 1) by (by rewrite len_app, len_cons, len_nil).
  assert (Hcnt : bl_count (pre ++ [x]) l = bl_count pre l + (if l =? x then 1 else 0)).
  { rewrite bl_count_app, bl_count_cons. change (bl_count [] l) with 0. lia. }
  assert (Hx : length_of lengths (len pre) = x) by (rewrite Hsplit; apply length_of_app).
  assert (Hlp : 0 <= len pre < 65536).
  { pose proof (len_nonneg pre). pose proof (len_nonneg suf).
    rewrite Hsplit, len_app, len_cons in Hlen. lia. }
  pose proof (bl_count_nonneg pre l). pose proof (next_code_nonneg lengths (Z.to_nat l)).
  cbn [table_of_length]. specialize (IH (pre ++ [x])). rewrite Hlen1, Hcnt, Z.add_assoc in IH.
  destruct (x =? l) eqn:E; bool_hyps.
  - assert (l = x) as -> by lia. rewrite Z.eqb_refl in IH. apply IH; auto.
    apply filled_step; auto.
    + specialize (Hfit x Hl). rewrite Hsplit, bl_count_app, bl_count_cons, Z.eqb_refl in Hfit.
      rewrite <- Hsplit in Hfit. pose proof (bl_count_nonneg suf x). lia.
    + pose proof (code_of_app pre x suf) as Hc. by rewrite <- Hsplit in Hc.
  - replace (l =? x) with false in IH by lia. rewrite Z.add_0_r in IH. apply IH; auto.
    apply filled_skip; [congruence|done].
Qed.

Lemma has_code_lt v : has_code lengths v = true -> v < len lengths.
Proof.
  intros Hhas. unfold has_code, length_of, arr_get in Hhas. bool_hyps.
  destruct (v <? 0) eqn:?; [done|]. destruct (lengths !! Z.to_nat v) eqn:Hg; [|done].
  apply lookup_lt_Some in Hg. unfold len. lia.
Qed.

Lemma filled_next l c codes :
  0 <= l -> filled l (len lengths) c codes -> filled (l + 1) 0 (c * 2) codes.
Proof.
  intros Hl [Hlc Hold Hnone]. split; [done| |].
  2: { intros i Hi Hnot. apply Hnone; [done|]. intros v Hhas Hb. apply Hnot; [done|lia]. }
  intros v l' Hhas Hb. pose proof (has_code_lt v Hhas) as Hv.
  assert (Hpos : 0 <= v) by (unfold has_code in Hhas; bool_hyps; lia).
  destruct (Hold v Hhas) as [He Hg]; [fold l'; lia|]. split; [|done]. fold l' in He |- *.
  assert (Hll : l' <= l) by lia.
  replace (l + 1 - l') with (l - l' + 1) by lia. rewrite Z.pow_add_r by lia. lia.
Qed.

Lemma table_loop_filled n : forall l codes,
  l = m + 1 - Z.of_nat n -> 0 < l ->
  filled l 0 (next_code lengths (Z.to_nat l)) codes ->
  exists c, filled (m + 1) 0 c
    (table_loop n lengths l (next_code lengths (Z.to_nat l)) (2 ^ l) codes).
Proof.
  induction n as [|n IH]; intros l codes Hl Hl0 Hf.
  { replace (m + 1) with l by lia. simpl. eauto. }
  pose proof (table_of_length_filled l lengths [] codes eq_refl ltac:(lia)) as Hstep.
  change (len (@nil Z)) with 0 in Hstep. change (bl_count [] l) with 0 in Hstep.
  rewrite Z.add_0_r in Hstep. specialize (Hstep Hf). cbn [table_loop].
  destruct (table_of_length _ _ _ _ _ _) as [codes' code']. destruct Hstep as [-> Hf'].
  assert (Hnx : next_code lengths (Z.to_nat (l + 1)) =
                (next_code lengths (Z.to_nat l) + bl_count lengths l) * 2).
  { replace (Z.to_nat (l + 1)) with (S (Z.to_nat l)) by lia. cbn [next_code].
    replace (Z.to_nat l =? 0)%nat with false by (symmetry; apply Nat.eqb_neq; lia).
    by rewrite Z2Nat.id by lia. }
  assert (Hp : 2 ^ (l + 1) = 2 ^ l * 2) by (rewrite Z.pow_add_r by lia; reflexivity).
  assert (2 ^ l <= 2 ^ 15) by (apply Z.pow_le_mono_r; lia).
  assert (0 < 2 ^ l) by (apply Z.pow_pos_nonneg; lia).
  specialize (Hfit l ltac:(lia)).
  pose proof (next_code_nonneg lengths (Z.to_nat l)). pose proof (bl_count_nonneg lengths l).
  rewrite !js_shl_small by lia. change (2 ^ 1) with 2. rewrite <- Hnx, <- Hp.
  apply IH; [lia|lia|]. rewrite Hnx. apply filled_next; [lia|done].
Qed.
End Table.

Lemma fold_max_spec (ls : list Z) m0 :
  let m := fold_left (fun m l => if m <? l then l else m) ls m0 in
  m0 <= m /\ Forall (fun l => l <= m) ls /\ (m = m0 \/ m ∈ ls).
Proof.
  revert m0. induction ls as [|x ls IH]; intros m0; simpl.
  { split_and!; [lia|constructor|auto]. }
  destruct (IH (if m0 <? x then x else m0)) as (Hle & Hall & Hin).
  set (m := fold_left _ _ _) in *. split_and!.
  - destruct (m0 <? x) eqn:?; bool_hyps; lia.
  - constructor; [destruct (m0 <? x) eqn:?; bool_hyps; lia|done].
  - destruct Hin as [Heq|]; [|right; by constructor].
    destruct (m0 <? x); [right; rewrite Heq; constructor|auto].
Qed.

Lemma length_of_in lengths v : 0 < length_of lengths v -> length_of lengths v ∈ lengths.
Proof.
  unfold length_of, arr_get. destruct (v <? 0); [done|].
  destruct (lengths !! Z.to_nat v) eqn:E; [|done]. intros _. simpl.
  by eapply list_elem_of_lookup_2.
Qed.

Lemma codes_fit_next lengths l :
  codes_fit lengths = true -> 0 < l <= 15 ->
  next_code lengths (Z.to_nat l) + bl_count lengths l <= 2 ^ l.
Proof.
  intros Hf Hl. unfold codes_fit in Hf. bool_hyps.
  match goal with H : forallb _ (seq 1 15) = true |- _ => rewrite forallb_forall in H;
    specialize (H (Z.to_nat l)); rewrite Z2Nat.id in H by lia; apply Z.leb_le, H end.
  apply in_seq. lia.
Qed.

Lemma code_fits lengths v :
  codes_fit lengths = true -> has_code lengths v = true ->
  0 <= code_of lengths v < 2 ^ length_of lengths v.
Proof.
  intros Hf Hv. unfold has_code in Hv. bool_hyps.
  pose proof (length_of_in lengths v ltac:(lia)) as Hin.
  assert (Hl : length_of lengths v <= 15).
  { unfold codes_fit in Hf. bool_hyps.
    match goal with H : forallb _ lengths = true |- _ => rewrite forallb_forall in H;
      specialize (H _ (proj1 (list_elem_of_In _ _) Hin)) end. bool_hyps. lia. }
  pose proof (codes_fit_next lengths (length_of lengths v) Hf ltac:(lia)).
  unfold code_of. pose proof (next_code_nonneg lengths (Z.to_nat (length_of lengths v))).
  pose proof (bl_count_nonneg (take (Z.to_nat v) lengths) (length_of lengths v)).
  split; [lia|].
  assert (Hsplit : lengths = take (Z.to_nat v) lengths ++ length_of lengths v :: drop (S (Z.to_nat v)) lengths).
  { symmetry. apply take_drop_middle. unfold length_of, arr_get in *.
    destruct (v <? 0) eqn:?; bool_hyps; [lia|]. by destruct (lengths !! Z.to_nat v). }
  assert (Hb : bl_count lengths (length_of lengths v) =
    bl_count (take (Z.to_nat v) lengths) (length_of lengths v) +
    (1 + bl_count (drop (S (Z.to_nat v)) lengths) (length_of lengths v))).
  { rewrite Hsplit at 1. rewrite bl_count_app, bl_count_cons, Z.eqb_refl. done. }
  pose proof (bl_count_nonneg (drop (S (Z.to_nat v)) lengths) (length_of lengths v)). lia.
Qed.

Lemma len_codeword lengths v : 0 < length_of lengths v -> len (codeword lengths v) = length_of lengths v.
Proof. intros. unfold codeword, len. rewrite length_rev, length_bits. lia. Qed.

Lemma max_length_fold lengths :
  fold_left (fun m l => if m <? l then l else m) lengths 0 = max_length lengths.
Proof.
  unfold max_length. generalize 0. induction lengths as [|x ls IH]; intros m; simpl; [done|].
  rewrite IH. f_equal. destruct (m <? x) eqn:?; bool_hyps; lia.
Qed.

Lemma max_length_snd lengths : snd (generateHuffmanTable lengths) = max_length lengths.
Proof. apply max_length_fold. Qed.

Lemma codes_fit_bounds lengths :
  codes_fit lengths = true ->
  0 <= max_length lengths <= 15 /\ len lengths <= 65536 /\
  forall v, length_of lengths v <= max_length lengths.
Proof.
  intros Hf. rewrite <- max_length_fold.
  destruct (fold_max_spec lengths 0) as (Hm0 & Hall & Hmin).
  set (m := fold_left _ _ _) in *. unfold codes_fit in Hf. bool_hyps.
  assert (H15 : forall l, l ∈ lengths -> l <= 15).
  { intros l Hin. match goal with H : forallb _ lengths = true |- _ => rewrite forallb_forall in H;
      specialize (H _ (proj1 (list_elem_of_In _ _) Hin)) end. bool_hyps. lia. }
  rewrite Forall_forall in Hall. split_and!; auto; [destruct Hmin as [->|Hmin]; [lia|by apply H15]|].
  intros v. destruct (decide (0 < length_of lengths v)) as [Hv|]; [|lia].
  by apply Hall, length_of_in.
Qed.

(** What the table holds. *)
Lemma table_filled lengths :
  codes_fit lengths = true ->
  exists c, filled lengths (max_length lengths) (max_length lengths + 1) 0 c
    (fst (generateHuffmanTable lengths)).
Proof.
  intros Hf. destruct (codes_fit_bounds lengths Hf) as (Hm & Hlen & Hle).
  unfold generateHuffmanTable. rewrite max_length_fold. cbn [fst]. set (m := max_length lengths) in *.
  assert (2 ^ m <= 2 ^ 15) by (apply Z.pow_le_mono_r; lia).
  assert (0 < 2 ^ m) by (apply Z.pow_pos_nonneg; lia).
  rewrite js_shl_small, Z.mul_1_l by lia.
  apply (table_loop_filled lengths m ltac:(lia) Hlen); try lia.
  - intros l Hl. apply codes_fit_next; [done|lia].
  - split; [apply len_zeros; lia| |].
    + intros w l' Hw [|[-> ?]]; unfold has_code in Hw; bool_hyps; lia.
    + intros i Hi _. unfold zeros, arr_get. ztest. by rewrite lookup_replicate_2 by lia.
Qed.

Lemma table_reads lengths v :
  codes_fit lengths = true -> has_code lengths v = true ->
  reads_code (generateHuffmanTable lengths) (codeword lengths v) v.
Proof.
  intros Hf Hv. destruct (codes_fit_bounds lengths Hf) as (Hm & Hlen & Hle).
  destruct (table_filled lengths Hf) as (c & [_ Hcode _]). specialize (Hle v).
  pose proof (has_code_lt lengths v Hv) as Hlt.
  pose proof Hv as Hv'. unfold has_code in Hv'. bool_hyps.
  destruct (Hcode v Hv) as [_ Hget]; [lia|].
  split; rewrite ?max_length_snd, ?len_codeword by lia; try lia.
  intros i Hi Hmod. apply Hget; [done|]. apply top_code; [lia|by apply code_fits|done].
Qed.

(** ** The table as a search *)

(** What the bits of [i] start with, by trying each code in turn; 0 if none
    fits. *)
Definition search_code (lengths : list Z) (i : Z) : Z :=
  match List.find (fun v => has_code lengths v &&
      (i mod 2 ^ length_of lengths v =? num_of (codeword lengths v)))
    (map Z.of_nat (seq 0 (length lengths))) with
  | Some v => v + length_of lengths v * 65536
  | None => 0
  end.

(** C17. [generateHuffmanTable] makes, of any code lengths that leave room for
    their codes, the table of the canonical code of RFC 1951: each entry is the
    value and the length of the code its index starts with, found by a search
    over the codes, or 0 where there is none. *)
Theorem generateHuffmanTable_canonical (lengths : list Z)
  (Hfit : codes_fit lengths = true) :
  generateHuffmanTable lengths =
  (map (fun i => search_code lengths (Z.of_nat i)) (seq 0 (Z.to_nat (2 ^ max_length lengths))),
   max_length lengths).
Proof.
  destruct (codes_fit_bounds lengths Hfit) as (Hm & Hlen & Hle).
  destruct (table_filled lengths Hfit) as (c & [Hlc _ Hnone]).
  pose proof (max_length_snd lengths) as Hsnd.
  pose proof (fun v => table_reads lengths v Hfit) as Hreads.
  destruct (generateHuffmanTable lengths) as [codes m]. cbn [fst snd] in *. subst m.
  f_equal. apply list_eq. intros k. rewrite list_lookup_fmap.
  destruct (decide (k < Z.to_nat (2 ^ max_length lengths))%nat) as [Hk|Hk].
  2: { rewrite !lookup_ge_None_2; [done|rewrite length_seq; lia|unfold len in Hlc; lia]. }
  rewrite lookup_seq_lt by done. cbn [fmap option_fmap option_map Nat.add].
  assert (Hget : forall e, arr_get codes (Z.of_nat k) = Some e -> codes !! k = Some e).
  { intros e. unfold arr_get. ztest. by rewrite Nat2Z.id. }
  apply Hget. unfold search_code.
  destruct (List.find _ _) as [v|] eqn:Hfind.
  - apply find_some in Hfind as [_ Hv]. bool_hyps. specialize (Hreads v ltac:(done)).
    assert (Hl : len (codeword lengths v) = length_of lengths v)
      by (apply len_codeword; unfold has_code in *; bool_hyps; lia).
    rewrite <- Hl. apply (rc_lookup _ _ _ Hreads); [cbn [snd]; lia|by rewrite Hl].
  - apply Hnone; [lia|]. intros v Hv _ Ht. pose proof (has_code_lt lengths v Hv).
    pose proof Hv as Hv'. unfold has_code in Hv'. bool_hyps.
    apply top_code in Ht; [|lia|by apply code_fits].
    assert (Hin : In v (map Z.of_nat (seq 0 (length lengths)))).
    { apply in_map_iff. exists (Z.to_nat v). split; [lia|]. apply in_seq. unfold len in *. lia. }
    pose proof (find_none _ _ Hfind v Hin) as Hno. cbv beta in Hno.
    unfold codeword in Hno. rewrite Hv, Ht, Z.eqb_refl in Hno. discriminate Hno.
Qed.

Lemma generateHuffmanTable_canonical_witness :
  codes_fit [2; 1; 3; 3] = true /\
  generateHuffmanTable [2; 1; 3; 3] =
  (map (fun i => search_code [2; 1; 3; 3] (Z.of_nat i)) (seq 0 (Z.to_nat (2 ^ 3))), 3).
Proof.
  split; [vm_compute; reflexivity|].
  apply (generateHuffmanTable_canonical [2; 1; 3; 3]). vm_compute. reflexivity.
Defined.
