(* ===== verification/Inflate.v ===== *)
(** * Inflating a deflated stream

    The format of RFC 1951 as lists of bits: blocks of literals and matches
    coded with canonical prefix codes, and stored blocks, which start at a
    byte.  [FlateStream] is proved to decode every deflated text to the bytes
    it stands for, as long as no stored block comes when the stream has read
    whole bytes ahead; there it loses these bytes. *)
From S2P Require Import Prelude JsBits ByteStream DecodeStream Flate Bits Huffman.
Local Open Scope js_scope.

#[local] Opaque bits Z.pow.

(** ** Reading bits *)
Section Reader.
Context {S : Type} `{SourceSpec S}.
Implicit Type d : DS S FlateFields.

(** The bits [t] are left to read, at most [c] of them already in
    [codeBuf]. *)
Record ready d (c : Z) (t : list bool) : Prop := {
  rd_size : 0 <= codeSize (ext d) <= c;
  rd_max : c <= 22;
  rd_buf : 0 <= codeBuf (ext d) < 2 ^ codeSize (ext d);
  rd_bits : exists r, rest (stream d) r /\
    t = bits (Z.to_nat (codeSize (ext d))) (codeBuf (ext d)) ++ stream_bits r
}.

Lemma ready_weaken d c c' t : ready d c t -> c <= c' -> c' <= 22 -> ready d c' t.
Proof. intros [] ? ?. split; auto; lia. Qed.

Lemma fill_bits_ok n at_end need : forall size buf d r,
  rest (stream d) r -> 0 <= size <= 22 -> 0 <= buf < 2 ^ size -> need <= 15 ->
  need <= size + 8 * Z.of_nat n ->
  exists s' r' size' buf',
    rest s' r' /\ 0 <= buf' < 2 ^ size' /\ size <= size' <= Z.max size (need + 7) /\
    bits (Z.to_nat size') buf' ++ stream_bits r' = bits (Z.to_nat size) buf ++ stream_bits r /\
    fill_bits n at_end need size buf d =
      (if need <=? size' then mret (size', buf') else at_end size' buf') (set_stream s' d) /\
    (need <= size' \/ r' = []).
Proof.
  induction n as [|n IH]; intros size buf d r Hr Hs Hb Hneed Hn.
  all: cbn [fill_bits]; destruct (size <? need) eqn:E; bool_hyps; [|
    exists (stream d), r, size, buf; rewrite (proj2 (Z.leb_le _ _)) by lia;
    split_and!; auto; try lia; by destruct d].
  - lia.
  - destruct r as [|b r].
    + destruct (rest_nil (stream d) Hr) as (s' & Hg & Hr').
      exists s', [], size, buf. rewrite (proj2 (Z.leb_gt _ _)) by lia.
      split_and!; auto; try lia.
      unfold mbind, on_stream, zoom. rewrite Hg. done.
    + destruct (rest_cons (stream d) b r Hr) as (s1 & Hg & Hr1 & _).
      pose proof (rest_bytes _ _ Hr) as Hby. apply Forall_cons in Hby as [Hby _].
      unfold is_byte in Hby.
      assert (Hp : 2 ^ (size + 8) = 2 ^ size * 256) by (rewrite Z.pow_add_r by lia; reflexivity).
      assert (2 ^ size <= 2 ^ 14) by (apply Z.pow_le_mono_r; lia).
      assert (Hor : buf .| (b .<< size) = buf + b * 2 ^ size) by (apply js_or_shifted; nia).
      destruct (IH (size + 8) (buf + b * 2 ^ size) (set_stream s1 d) r)
        as (s' & r' & size' & buf' & Hr' & Hb' & Hs' & Hbits & Hrun & Hend); auto; try nia.
      exists s', r', size', buf'. split_and!; auto; try lia.
      * rewrite Hbits. replace (Z.to_nat (size + 8)) with (Z.to_nat size + 8)%nat by lia.
        replace (2 ^ size) with (2 ^ Z.of_nat (Z.to_nat size)) in * by (f_equal; lia).
        rewrite bits_cat, <- app_assoc by lia. done.
      * unfold mbind at 1, on_stream, zoom. rewrite Hg. cbn [jn_is jn_int default from_option id].
        rewrite (proj2 (Z.eqb_neq b (-1))) by lia. rewrite Hor. exact Hrun.
Qed.

(** Bits at the front of [size] bits in a number. *)
Lemma bits_front w t r size buf :
  0 <= size -> 0 <= buf < 2 ^ size -> len w <= size ->
  bits (Z.to_nat size) buf ++ stream_bits r = w ++ t ->
  buf mod 2 ^ len w = num_of w /\ 0 <= buf / 2 ^ len w < 2 ^ (size - len w) /\
  t = bits (Z.to_nat (size - len w)) (buf / 2 ^ len w) ++ stream_bits r.
Proof.
  intros Hs Hb Hw Heq. pose proof (len_nonneg w).
  replace (Z.to_nat size) with (length w + Z.to_nat (size - len w))%nat in Heq
    by (unfold len in *; lia).
  rewrite bits_app, <- app_assoc in Heq.
  apply app_inj_1 in Heq as [Hw' <-]; [|by rewrite length_bits].
  fold (len w) in *. rewrite <- Hw' at 2. rewrite num_of_bits. split_and!; try done.
  - apply Z.div_pos; [lia|]. apply Z.pow_pos_nonneg; lia.
  - apply Z.div_lt_upper_bound; [apply Z.pow_pos_nonneg; lia|].
    rewrite <- Z.pow_add_r by lia. replace (len w + (size - len w)) with size by lia. lia.
Qed.

Lemma getBits_ok d c w t :
  ready d c (w ++ t) -> len w <= 15 ->
  exists d', getBits (len w) d = (Ok (num_of w), d') /\
    ready d' (Z.max (c - len w) 7) t /\ same_buffer d d'.
Proof.
  intros [Hs Hc Hb (r & Hr & Ht)] Hw. pose proof (len_nonneg w).
  destruct (fill_bits_ok (Z.to_nat (len w)) (fun _ _ => throw bad_encoding) (len w)
    (codeSize (ext d)) (codeBuf (ext d)) d r) as
    (s' & r' & size' & buf' & Hr' & Hb' & Hs' & Hbits & Hrun & Hend); auto; try lia.
  rewrite <- Hbits in Ht.
  assert (Hle : len w <= size').
  { destruct Hend as [Hend| ->]; [lia|]. apply (f_equal len) in Ht.
    rewrite !len_app, len_stream_bits in Ht. change (len (@nil Z)) with 0 in Ht.
    unfold len at 3 in Ht. rewrite length_bits in Ht. pose proof (len_nonneg t). lia. }
  destruct (bits_front w t r' size' buf') as (Hv & Hq & Ht'); auto; [lia|].
  rewrite (proj2 (Z.leb_le _ _)) in Hrun by lia.
  assert (2 ^ size' <= 2 ^ 22) by (apply Z.pow_le_mono_r; lia).
  unfold getBits. eexists. split; [|split].
  - unfold mbind at 1, gets at 1. cbv beta iota. erewrite mbind_ok by exact Hrun.
    m_red. rewrite js_and_small, Hv by lia. reflexivity.
  - cbn [ext set_ext set_stream]. rewrite js_sar_small by lia.
    split; cbn [ext set_ext set_stream codeSize codeBuf stream]; auto; try lia.
    exists r'. done.
  - done.
Qed.

(** A code of the table, when it is next. *)
Lemma getCode_ok d c tab w v t :
  reads_code tab w v -> ready d c (w ++ t) ->
  exists d', getCode tab d = (Ok v, d') /\
    ready d' (Z.max c (snd tab + 7) - len w) t /\ same_buffer d d'.
Proof.
  destruct tab as [codes m]. intros [Hlw Hm Hval Hget] [Hs Hc Hb (r & Hr & Ht)].
  cbn [fst snd] in *.
  destruct (fill_bits_ok (Z.to_nat m) (fun size buf => mret (size, buf)) m
    (codeSize (ext d)) (codeBuf (ext d)) d r) as
    (s' & r' & size' & buf' & Hr' & Hb' & Hs' & Hbits & Hrun & Hend); auto; try lia.
  rewrite <- Hbits in Ht.
  assert (Hle : len w <= size').
  { destruct Hend as [Hend| ->]; [lia|]. apply (f_equal len) in Ht.
    rewrite !len_app, len_stream_bits in Ht. change (len (@nil Z)) with 0 in Ht.
    unfold len at 3 in Ht. rewrite length_bits in Ht. pose proof (len_nonneg t). lia. }
  destruct (bits_front w t r' size' buf') as (Hv & Hq & Ht'); auto; [lia|].
  assert (Hrun' : fill_bits (Z.to_nat m) (fun size buf => mret (size, buf)) m
    (codeSize (ext d)) (codeBuf (ext d)) d = (Ok (size', buf'), set_stream s' d))
    by (rewrite Hrun; by destruct (m <=? size')).
  assert (2 ^ size' <= 2 ^ 22) by (apply Z.pow_le_mono_r; lia).
  assert (Hcode : arr_get codes (buf' mod 2 ^ m) = Some (v + len w * 65536)).
  { apply Hget; [apply Z.mod_pos_bound, Z.pow_pos_nonneg; lia|].
    rewrite <- Hv. replace m with (len w + (m - len w)) by lia.
    rewrite Z.pow_add_r, Z.rem_mul_r by (try apply Z.pow_pos_nonneg; lia).
    rewrite Z.mul_comm, Z_mod_plus_full. apply Z.mod_mod, Z.pow_nonzero; lia. }
  unfold getCode. eexists. split; [|split].
  - unfold mbind at 1, gets at 1. cbv beta iota. erewrite mbind_ok by exact Hrun'.
    cbv beta iota zeta. rewrite js_and_small, Hcode by lia. cbn [jn_int default from_option id].
    rewrite js_sar_small by lia. change 0xffff with (2 ^ 16 - 1). rewrite js_and_mask by lia.
    change (2 ^ 16) with 65536. rewrite Z.div_add, Z.div_small, Z.add_0_l by lia.
    rewrite Z_mod_plus_full, Z.mod_small by lia.
    rewrite (proj2 (Z.ltb_ge (len w) 1)), (proj2 (Z.ltb_ge size' (len w))) by lia.
    cbn [orb]. m_red. reflexivity.
  - rewrite js_sar_small by lia.
    split; cbn [ext set_ext set_stream codeSize codeBuf stream]; auto; try lia.
    exists r'. done.
  - done.
Qed.
End Reader.

(** ** The format: literals and matches *)

(** The extra bits and the base of a length code 257 + [k], and of a distance
    code [k]. *)
Definition length_code (k : Z) : Z * Z :=
  if k <? 8 then (0, 3 + k)
  else if k <? 28 then let e := k / 4 - 1 in (e, 3 + (4 + k mod 4) * 2 ^ e)
  else (0, 258).

Definition dist_code (k : Z) : Z * Z :=
  if k <? 4 then (0, 1 + k)
  else let e := k / 2 - 1 in (e, 1 + (2 + k mod 2) * 2 ^ e).

(** A literal byte, or a match: its length code less 257, its distance code,
    and the extra bits of each. *)
Inductive token : Type :=
| Lit (b : Z)
| Match (lcode : Z) (lextra : list bool) (dcode : Z) (dextra : list bool).

Definition token_ok (lit dist : list Z) (tok : token) : bool :=
  match tok with
  | Lit b => (0 <=? b) && (b <? 256) && has_code lit b
  | Match lc le dc de =>
      (0 <=? lc) && (lc <? 29) && has_code lit (257 + lc) && (len le =? fst (length_code lc)) &&
      (0 <=? dc) && (dc <? 30) && has_code dist dc && (len de =? fst (dist_code dc))
  end.

Definition token_bits (lit dist : list Z) (tok : token) : list bool :=
  match tok with
  | Lit b => codeword lit b
  | Match lc le dc de => codeword lit (257 + lc) ++ le ++ codeword dist dc ++ de
  end.

(** [n] bytes, each the byte [d] places before. *)
Fixpoint copy_from (n : nat) (d : Z) (out : list Z) : list Z :=
  match n with
  | O => out
  | S n' => copy_from n' d (out ++ [jn_int (arr_get out (len out - d))])
  end.

Definition match_length (lc : Z) (le : list bool) : Z := snd (length_code lc) + num_of le.
Definition match_dist (dc : Z) (de : list bool) : Z := snd (dist_code dc) + num_of de.

Definition token_out (out : list Z) (tok : token) : list Z :=
  match tok with
  | Lit b => out ++ [b]
  | Match lc le dc de => copy_from (Z.to_nat (match_length lc le)) (match_dist dc de) out
  end.

Definition tokens_out (out : list Z) (toks : list token) : list Z := fold_left token_out toks out.

(** No match reaches back before the first byte. *)
Fixpoint distances_ok (out : list Z) (toks : list token) : bool :=
  match toks with
  | [] => true
  | tok :: toks' =>
      match tok with Lit _ => true | Match _ _ dc de => match_dist dc de <=? len out end &&
      distances_ok (token_out out tok) toks'
  end.

Lemma copy_from_app n d out : exists chunk, copy_from n d out = out ++ chunk.
Proof.
  revert out. induction n as [|n IH]; intros out; simpl; [exists []; by rewrite app_nil_r|].
  destruct (IH (out ++ [jn_int (arr_get out (len out - d))])) as [c ->].
  rewrite <- app_assoc. eauto.
Qed.

Lemma tokens_out_app toks out : exists chunk, tokens_out out toks = out ++ chunk.
Proof.
  revert out. induction toks as [|tok toks IH]; intros out; simpl; [exists []; by rewrite app_nil_r|].
  assert (exists c, token_out out tok = out ++ c) as [c Hc]
    by (destruct tok; simpl; [eauto|apply copy_from_app]).
  fold (tokens_out (token_out out tok) toks). rewrite Hc.
  destruct (IH (out ++ c)) as [c' ->]. rewrite <- app_assoc. eauto.
Qed.

(** The tables of the code hold the bases and extra bits. *)
Definition entry_of (eb : Z * Z) : Z := snd eb + fst eb * 65536.

Lemma length_entry k : 0 <= k < 29 -> arr_get lengthDecode k = Some (entry_of (length_code k)).
Proof.
  intros Hk. apply (bool_decide_eq_true_1 _). revert k Hk.
  apply (check_below 29). vm_compute. reflexivity.
Qed.

Lemma dist_entry k : 0 <= k < 30 -> arr_get distDecode k = Some (entry_of (dist_code k)).
Proof.
  intros Hk. apply (bool_decide_eq_true_1 _). revert k Hk.
  apply (check_below 30). vm_compute. reflexivity.
Qed.

Lemma length_code_bounds k :
  0 <= k < 29 -> 0 <= fst (length_code k) <= 5 /\ 3 <= snd (length_code k) <= 258.
Proof.
  intros Hk. assert (H : (0 <=? fst (length_code k)) && (fst (length_code k) <=? 5) &&
    (3 <=? snd (length_code k)) && (snd (length_code k) <=? 258) = true); [|bool_hyps; lia].
  revert k Hk. apply (check_below 29). vm_compute. reflexivity.
Qed.

Lemma dist_code_bounds k :
  0 <= k < 30 -> 0 <= fst (dist_code k) <= 13 /\ 1 <= snd (dist_code k) <= 24577.
Proof.
  intros Hk. assert (H : (0 <=? fst (dist_code k)) && (fst (dist_code k) <=? 13) &&
    (1 <=? snd (dist_code k)) && (snd (dist_code k) <=? 24577) = true); [|bool_hyps; lia].
  revert k Hk. apply (check_below 30). vm_compute. reflexivity.
Qed.

(** ** The loop over the codes *)
Section Codes.
Context {S : Type} `{SourceSpec S}.
Implicit Type d : DS S FlateFields.

Lemma with_extra_ok d c eb w t :
  fst eb = len w -> fst eb <= 15 -> 0 <= snd eb < 65536 -> ready d c (w ++ t) ->
  exists d', with_extra (Some (entry_of eb)) d = (Ok (snd eb + num_of w), d') /\
    ready d' (Z.max c 7) t /\ same_buffer d d'.
Proof.
  intros Hw Hle Hb Hr. pose proof (len_nonneg w). unfold with_extra, entry_of.
  cbn [jn_int default from_option id].
  rewrite js_sar_small by lia. change 0xffff with (2 ^ 16 - 1). rewrite js_and_mask by lia.
  change (2 ^ 16) with 65536. rewrite Z.div_add, Z.div_small, Z.add_0_l by lia.
  rewrite Z_mod_plus_full, Z.mod_small, Hw by lia.
  pose proof (rd_max _ _ _ Hr) as Hc.
  destruct (0 <? len w) eqn:E; bool_hyps.
  - destruct (getBits_ok d c w t Hr) as (d' & Hg & Hr' & Hs); [lia|].
    exists d'. split; [|split; [eapply ready_weaken; eauto; lia|done]].
    unfold mbind at 1. rewrite Hg. done.
  - destruct w as [|? ?]; [|rewrite len_cons in *; pose proof (len_nonneg w); lia].
    exists d. cbn [num_of app] in *. split; [|split; [eapply ready_weaken; eauto; lia|]].
    + m_red. reflexivity.
    + apply same_buffer_refl.
Qed.

Lemma copy_back_ok n : forall p dist b,
  0 < dist <= p -> p + Z.of_nat n <= len b -> Forall is_byte b ->
  take (Z.to_nat (p + Z.of_nat n)) (copy_back n p dist b) =
    copy_from n dist (take (Z.to_nat p) b) /\
  len (copy_back n p dist b) = len b /\ Forall is_byte (copy_back n p dist b).
Proof.
  induction n as [|n IH]; intros p dist b Hd Hp Hb; cbn [copy_back copy_from].
  { replace (p + Z.of_nat 0) with p by lia. done. }
  set (v := jn_u8 (arr_get b (p - dist))).
  destruct (IH (p + 1) dist (arr_set b p v)) as (Ht & Hl & Hby);
    [lia|rewrite len_arr_set; lia|by apply Forall_arr_set, is_byte_jn_u8|].
  rewrite len_arr_set in Hl. split_and!; auto.
  replace (p + Z.of_nat (Datatypes.S n)) with (p + 1 + Z.of_nat n) by lia. rewrite Ht. f_equal.
  assert (Hlp : len (take (Z.to_nat p) b) = p) by len_lia.
  rewrite Hlp. unfold arr_set. ztest.
  assert (Hlt : (Z.to_nat p < length b)%nat) by (unfold len in Hp; lia).
  replace (Z.to_nat (p + 1)) with (Datatypes.S (Z.to_nat p)) by lia.
  erewrite take_S_r; [|by apply list_lookup_insert_eq]. rewrite take_insert_ge by lia.
  do 2 f_equal. unfold v, arr_get. ztest. rewrite lookup_take_lt by lia.
  destruct (b !! Z.to_nat (p - dist)) as [x|] eqn:E; [|done].
  rewrite Forall_lookup in Hb. unfold jn_u8. simpl. by apply to_u8_small, (Hb _ _ E).
Qed.

Lemma so_far_room d p out e :
  so_far d p out ->
  exists d', room_for e (len (buffer d)) d = (Ok (len (buffer d')), d') /\
    e <= len (buffer d') /\ so_far d' p out /\
    eof d' = eof d /\ pos d' = pos d /\ stream d' = stream d /\ ext d' = ext d.
Proof.
  intros Hsf. unfold room_for. destruct (len (buffer d) <=? e) eqn:E; bool_hyps.
  - destruct (so_far_ensure d p out e Hsf) as (d' & Hrun & He & _ & Hsf' & _ & Hrest).
    exists d'. rewrite (mbind_ok _ _ _ _ _ Hrun). split_and!; try done; apply Hrest.
  - exists d. split_and!; auto. lia.
Qed.

Lemma so_far_copy d p out n dist :
  so_far d p out -> 0 < dist <= p -> p + Z.of_nat n <= len (buffer d) ->
  so_far (set_buffer (copy_back n p dist (buffer d)) d) (p + Z.of_nat n) (copy_from n dist out).
Proof.
  intros [[Hl Hby Hm] Hout] Hd Hroom. cbn [buffer bufferLength set_bufferLength] in *.
  destruct (copy_back_ok n p dist (buffer d) Hd Hroom Hby) as (Ht & Hlen & Hby').
  split.
  - split; cbn [buffer bufferLength minBufferLength set_bufferLength set_buffer]; auto; lia.
  - rewrite <- Hout. exact Ht.
Qed.
End Codes.

(** A table that reads the codes of [lengths]. *)
Definition table_for (tab : Flate.table) (lengths : list Z) : Prop :=
  0 <= snd tab <= 15 /\
  forall v, has_code lengths v = true -> reads_code tab (codeword lengths v) v.

Section Loop.
Context {S : Type} `{SourceSpec S}.
Implicit Type d : DS S FlateFields.
Context (lit dist : list Z) (lt dt : Flate.table) (B : Z).
Context (Hlt : table_for lt lit) (Hdt : table_for dt dist).
Context (HB : B <= 22) (Hlb : snd lt + 7 <= B) (Hdb : snd dt + 7 <= B).
Context (Heob : has_code lit 256 = true).

(** A code of one of the tables, the bound kept. *)
Lemma getCode_lit d v t :
  has_code lit v = true -> ready d B (codeword lit v ++ t) ->
  exists d', getCode lt d = (Ok v, d') /\ ready d' (B - len (codeword lit v)) t /\ same_buffer d d'.
Proof.
  intros Hv Hr. destruct (getCode_ok d B lt _ v t (proj2 Hlt v Hv) Hr) as (d' & Hg & Hr' & Hs).
  rewrite Z.max_l in Hr' by lia. eauto.
Qed.

Lemma getCode_dist d v t :
  has_code dist v = true -> ready d B (codeword dist v ++ t) ->
  exists d', getCode dt d = (Ok v, d') /\ ready d' B t /\ same_buffer d d'.
Proof.
  intros Hv Hr. destruct (getCode_ok d B dt _ v t (proj2 Hdt v Hv) Hr) as (d' & Hg & Hr' & Hs).
  rewrite Z.max_l in Hr' by lia. exists d'. split_and!; auto.
  apply (ready_weaken _ _ _ _ Hr'); [|lia]. pose proof (len_nonneg (codeword dist v)). lia.
Qed.

(** The codes of a match, up to the copy. *)
Lemma match_codes_ok n d lc le dc de t p out :
  0 <= lc < 29 -> has_code lit (257 + lc) = true -> len le = fst (length_code lc) ->
  0 <= dc < 30 -> has_code dist dc = true -> len de = fst (dist_code dc) -> so_far d p out ->
  ready d B ((codeword lit (257 + lc) ++ le ++ codeword dist dc ++ de) ++ t) ->
  exists d',
    codes_loop (Datatypes.S n) lt dt (len (buffer d)) p d =
      (limit <- room_for (p + match_length lc le) (len (buffer d)) ;;
       modify (fun s => set_buffer (copy_back (Z.to_nat (match_length lc le)) p
         (match_dist dc de) (buffer s)) s) ;;;
       codes_loop n lt dt limit (p + match_length lc le)) d' /\
    ready d' B t /\ so_far d' p out /\ buffer d' = buffer d /\ eof d' = eof d /\ pos d' = pos d.
Proof.
  intros Hlc Hcl Hle Hdc Hcd Hde Hsf Hr. rewrite <- !app_assoc in Hr.
  pose proof (length_code_bounds lc Hlc). pose proof (dist_code_bounds dc Hdc).
  pose proof (len_nonneg (codeword lit (257 + lc))). destruct Hlt as [Hlt0 _].
  destruct (getCode_lit d _ _ Hcl Hr) as (d1 & Hg1 & Hr1 & Hs1).
  apply (ready_weaken _ _ B) in Hr1; [|lia..].
  destruct (with_extra_ok d1 B (length_code lc) le _ ltac:(lia) ltac:(lia) ltac:(lia) Hr1)
    as (d2 & Hg2 & Hr2 & Hs2). rewrite Z.max_l in Hr2 by lia.
  destruct (getCode_dist d2 _ _ Hcd Hr2) as (d3 & Hg3 & Hr3 & Hs3).
  destruct (with_extra_ok d3 B (dist_code dc) de _ ltac:(lia) ltac:(lia) ltac:(lia) Hr3)
    as (d4 & Hg4 & Hr4 & Hs4). rewrite Z.max_l in Hr4 by lia.
  pose proof (same_buffer_trans _ _ _ (same_buffer_trans _ _ _ Hs1 Hs2)
    (same_buffer_trans _ _ _ Hs3 Hs4)) as (Hb & _ & He & Hm & Hp).
  exists d4. split_and!; auto; [|by apply (so_far_same d)].
  cbn [codes_loop]. rewrite (mbind_ok _ _ _ _ _ Hg1). repeat ztest. cbv iota.
  replace (257 + lc - 257) with lc by lia. rewrite length_entry by done.
  rewrite (mbind_ok _ _ _ _ _ Hg2), (mbind_ok _ _ _ _ _ Hg3), dist_entry by done.
  rewrite (mbind_ok _ _ _ _ _ Hg4). reflexivity.
Qed.

Lemma codes_loop_ok toks : forall n p d out t,
  forallb (token_ok lit dist) toks = true -> distances_ok out toks = true ->
  (length toks < n)%nat -> so_far d p out ->
  ready d B (flat_map (token_bits lit dist) toks ++ codeword lit 256 ++ t) ->
  exists d',
    codes_loop n lt dt (len (buffer d)) p d = (Ok tt, d') /\
    so_far d' (bufferLength d') (tokens_out out toks) /\
    eof d' = eof d /\ pos d' = pos d /\ ready d' (B - len (codeword lit 256)) t.
Proof.
  induction toks as [|tok toks IH]; intros n p d out t Hok Hdist Hn Hsf Hr;
    (destruct n as [|n]; [simpl in Hn; lia|]).
  - cbn [flat_map app] in Hr. destruct (getCode_lit d 256 t Heob Hr) as (d1 & Hg & Hr1 & Hs).
    exists (set_bufferLength p d1). cbn [codes_loop]. rewrite (mbind_ok _ _ _ _ _ Hg).
    destruct Hs as (Hb & _ & He & Hm & Hp). split_and!; auto.
    + cbn [bufferLength set_bufferLength]. apply (so_far_same _ _ _ _ Hsf); done.
    + destruct Hr1. by split.
  - cbn [forallb] in Hok. apply andb_true_iff in Hok as [Htok Hok].
    cbn [distances_ok] in Hdist. apply andb_true_iff in Hdist as [Hd1 Hdist].
    cbn [flat_map] in Hr. rewrite <- app_assoc in Hr. cbn [length] in Hn.
    pose proof (so_far_len _ _ _ Hsf) as Hlp.
    destruct tok as [b|lc le dc de]; unfold token_ok in Htok; bool_hyps; cbn [token_bits] in Hr.
    + destruct (getCode_lit d b _ ltac:(done) Hr) as (d1 & Hg & Hr1 & (Hb1 & _ & He1 & Hm1 & Hp1)).
      assert (Hsf1 : so_far d1 p out) by (by apply (so_far_same d)).
      destruct (so_far_room d1 p out (p + 1) Hsf1) as (d2 & Hrun2 & Hroom & Hsf2 & He2 & Hp2 & Hst2 & Hx2).
      destruct (IH n (p + 1) (set_buffer (arr_set (buffer d2) p (jn_u8 (Some b))) d2) (out ++ [b]) t)
        as (d' & Hrun & Hsf' & He' & Hp' & Hr'); auto; [lia|by apply so_far_write|..].
      { apply (ready_weaken _ _ B) in Hr1; [|pose proof (len_nonneg (codeword lit b)); lia|lia].
        destruct Hr1 as [? ? ? Hbits]. split; cbn [ext stream set_buffer]; rewrite ?Hx2, ?Hst2; auto. }
      exists d'. cbn [codes_loop]. rewrite (mbind_ok _ _ _ _ _ Hg). ztest. cbv iota.
      rewrite <- Hb1, (mbind_ok _ _ _ _ _ Hrun2). cbn [buffer set_buffer] in Hrun.
      rewrite len_arr_set in Hrun. unfold mbind at 1, buf_write, modify. cbv beta iota.
      split_and!; auto; cbn [eof pos set_buffer] in *; congruence.
    + destruct (match_codes_ok n d lc le dc de _ p out ltac:(lia) ltac:(done) ltac:(lia)
        ltac:(lia) ltac:(done) ltac:(lia) Hsf Hr) as
        (d1 & Hrun1 & Hr1 & Hsf1 & Hb1 & He1 & Hp1).
      pose proof (num_of_range le). pose proof (num_of_range de).
      pose proof (length_code_bounds lc ltac:(lia)). pose proof (dist_code_bounds dc ltac:(lia)).
      assert (0 < match_length lc le) by (unfold match_length; lia).
      destruct (so_far_room d1 p out (p + match_length lc le) Hsf1)
        as (d2 & Hrun2 & Hroom & Hsf2 & He2 & Hp2 & Hst2 & Hx2).
      assert (Hpn : p + Z.of_nat (Z.to_nat (match_length lc le)) = p + match_length lc le) by lia.
      pose proof (so_far_copy d2 p out (Z.to_nat (match_length lc le)) (match_dist dc de) Hsf2) as Hcopy.
      rewrite Hpn in Hcopy.
      specialize (Hcopy ltac:(unfold match_dist in *; lia) Hroom).
      destruct (IH n _ _ _ t Hok Hdist ltac:(lia) Hcopy) as (d' & Hrun & Hsf' & He' & Hp' & Hr').
      { destruct Hr1 as [? ? ? Hbits]. split; cbn [ext stream set_buffer]; rewrite ?Hx2, ?Hst2; auto. }
      assert (Hlc : len (copy_back (Z.to_nat (match_length lc le)) p (match_dist dc de) (buffer d2))
        = len (buffer d2)).
      { destruct Hsf2 as [[? ? ?] ?]. apply copy_back_ok; auto; unfold match_dist in *; lia. }
      exists d'. split_and!; auto; cbn [eof pos set_buffer] in *; try congruence.
      rewrite Hrun1, <- Hb1. rewrite (mbind_ok _ _ _ _ _ Hrun2). cbn [buffer set_buffer] in Hrun.
      rewrite Hlc in Hrun. exact Hrun.
Qed.
End Loop.
