(* ===== verification/Deflated.v ===== *)
(** * Inflating a deflated stream: blocks

    The blocks of RFC 1951 and their texts, as lists of bits, and the theorem
    that [FlateStream] decodes a text to the bytes its blocks stand for.  A
    stored block starts at a byte; the code drops the bits it holds there,
    which must then be less than a byte: [next_held] bounds how many bits it
    can hold after a block, and the theorem asks that a stored block only
    follows when they are few enough.  [flate_loses_bytes] is a text where they
    are not. *)
From S2P Require Import Prelude JsBits ByteStream DecodeStream Flate Bits Huffman Inflate.
Local Open Scope js_scope.

(** ** The format: the lengths of dynamic codes *)

(** An item of the list of lengths: a length, the length before 3 to 6 times,
    or 3 to 10 or 11 to 138 zeros. *)
Inductive item : Type :=
| ILen (l : Z)
| IPrev (extra : list bool)
| IZeros3 (extra : list bool)
| IZeros11 (extra : list bool).

Definition item_ok (cl : list Z) (it : item) : bool :=
  match it with
  | ILen l => (l <=? 15) && has_code cl l
  | IPrev e => (len e =? 2) && has_code cl 16
  | IZeros3 e => (len e =? 3) && has_code cl 17
  | IZeros11 e => (len e =? 7) && has_code cl 18
  end.

Definition item_bits (cl : list Z) (it : item) : list bool :=
  match it with
  | ILen l => codeword cl l
  | IPrev e => codeword cl 16 ++ e
  | IZeros3 e => codeword cl 17 ++ e
  | IZeros11 e => codeword cl 18 ++ e
  end.

(** The lengths of an item after the length [prev]; the last is the next
    [prev]. *)
Definition item_lengths (prev : Z) (it : item) : list Z * Z :=
  match it with
  | ILen l => ([l], l)
  | IPrev e => (replicate (Z.to_nat (num_of e + 3)) prev, prev)
  | IZeros3 e => (replicate (Z.to_nat (num_of e + 3)) 0, 0)
  | IZeros11 e => (replicate (Z.to_nat (num_of e + 11)) 0, 0)
  end.

Fixpoint items_lengths (prev : Z) (its : list item) : list Z :=
  match its with
  | [] => []
  | it :: its' =>
      let '(ls, prev') := item_lengths prev it in ls ++ items_lengths prev' its'
  end.

(** The header of a dynamic block: the lengths of the code for lengths, in the
    order they are sent, the items, and the number of literal codes. *)
Record header := mkHeader {
  h_sent : list Z;
  h_items : list item;
  h_nlit : Z
}.

Definition cl_lengths (sent : list Z) : list Z :=
  fold_left (fun acc kv => arr_set acc (fst kv) (snd kv)) (combine codeLenCodeMap sent)
    (zeros (len codeLenCodeMap)).

Definition h_lengths (h : header) : list Z := items_lengths 0 (h_items h).
Definition h_lit (h : header) : list Z := take (Z.to_nat (h_nlit h)) (h_lengths h).
Definition h_dist (h : header) : list Z := drop (Z.to_nat (h_nlit h)) (h_lengths h).

Definition header_ok (h : header) : bool :=
  (4 <=? len (h_sent h)) && (len (h_sent h) <=? 19) &&
  forallb (fun v => (0 <=? v) && (v <? 8)) (h_sent h) &&
  codes_fit (cl_lengths (h_sent h)) &&
  forallb (item_ok (cl_lengths (h_sent h))) (h_items h) &&
  (257 <=? h_nlit h) && (h_nlit h <=? 288) &&
  (1 <=? len (h_lengths h) - h_nlit h) && (len (h_lengths h) - h_nlit h <=? 32) &&
  codes_fit (h_lit h) && codes_fit (h_dist h) && has_code (h_lit h) 256.

Definition header_bits (h : header) : list bool :=
  bits 5 (h_nlit h - 257) ++ bits 5 (len (h_lengths h) - h_nlit h - 1) ++
  bits 4 (len (h_sent h) - 4) ++ flat_map (bits 3) (h_sent h) ++
  flat_map (item_bits (cl_lengths (h_sent h))) (h_items h).

(** ** The format: blocks *)

Definition fixed_lit : list Z :=
  replicate 144 8 ++ replicate 112 9 ++ replicate 24 7 ++ replicate 8 8.
Definition fixed_dist : list Z := replicate 30 5.

Inductive block : Type :=
| Stored (pad : list bool) (bs : list Z)
| Fixed (toks : list token)
| Dynamic (h : header) (toks : list token).

Definition le16 (n : Z) : list Z := [n mod 256; n / 256].

Definition codes_bits (lit dist : list Z) (toks : list token) : list bool :=
  flat_map (token_bits lit dist) toks ++ codeword lit 256.

Definition block_bits (final : bool) (b : block) : list bool :=
  final ::
  match b with
  | Stored pad bs =>
      [false; false] ++ pad ++ stream_bits (le16 (len bs) ++ le16 (65535 - len bs) ++ bs)
  | Fixed toks => [true; false] ++ codes_bits fixed_lit fixed_dist toks
  | Dynamic h toks => [false; true] ++ header_bits h ++ codes_bits (h_lit h) (h_dist h) toks
  end.

(** The last block is marked. *)
Fixpoint deflated (bs : list block) : list bool :=
  match bs with
  | [] => []
  | b :: bs' => block_bits (match bs' with [] => true | _ => false end) b ++ deflated bs'
  end.

Definition block_out (out : list Z) (b : block) : list Z :=
  match b with
  | Stored _ bs => out ++ bs
  | Fixed toks | Dynamic _ toks => tokens_out out toks
  end.

Definition inflated (out : list Z) (bs : list block) : list Z := fold_left block_out bs out.

(** How many bits the stream can hold after a block, when it holds at most [c]
    before. *)
Definition next_held (c : Z) (b : block) : Z :=
  let c := Z.max (c - 3) 7 in
  match b with
  | Stored _ _ => 0
  | Fixed _ => Z.max c 16 - 7
  | Dynamic h _ =>
      Z.max (Z.max c 14) (Z.max (max_length (h_lit h)) (max_length (h_dist h)) + 7) -
      length_of (h_lit h) 256
  end.

(** The block [b] at bit [pos], after [out], with at most [c] bits held. *)
Definition block_ok (pos c : Z) (out : list Z) (b : block) : bool :=
  match b with
  | Stored pad bs =>
      (len pad <? 8) && ((pos + 3 + len pad) mod 8 =? 0) && (len bs <? 65536) &&
      forallb (fun v => (0 <=? v) && (v <? 256)) bs && (c <=? 10)
  | Fixed toks => forallb (token_ok fixed_lit fixed_dist) toks && distances_ok out toks
  | Dynamic h toks =>
      header_ok h && forallb (token_ok (h_lit h) (h_dist h)) toks && distances_ok out toks
  end.

Fixpoint blocks_ok (pos c : Z) (out : list Z) (bs : list block) : bool :=
  match bs with
  | [] => true
  | b :: bs' =>
      block_ok pos c out b &&
      blocks_ok (pos + len (block_bits false b)) (next_held c b) (block_out out b) bs'
  end.

(** The number of codes of a block. *)
Definition block_codes (b : block) : nat :=
  match b with
  | Stored _ _ => 0
  | Fixed toks | Dynamic _ toks => Datatypes.S (length toks)
  end.

#[local] Opaque bits Z.pow.

(** ** Tables *)

Lemma table_for_lengths lengths :
  codes_fit lengths = true -> table_for (generateHuffmanTable lengths) lengths.
Proof.
  intros Hf. split; [|intros v Hv; by apply table_reads].
  rewrite max_length_snd. by destruct (codes_fit_bounds lengths Hf).
Qed.

Lemma table_for_fixed :
  table_for fixedLitCodeTab fixed_lit /\ table_for fixedDistCodeTab fixed_dist.
Proof.
  assert (H1 : generateHuffmanTable fixed_lit = fixedLitCodeTab) by (vm_compute; reflexivity).
  assert (H2 : generateHuffmanTable fixed_dist = fixedDistCodeTab) by (vm_compute; reflexivity).
  rewrite <- H1, <- H2.
  split; apply table_for_lengths; vm_compute; reflexivity.
Qed.

(** ** Stored blocks *)

Section Blocks.
Context {S : Type} `{SourceSpec S}.
Implicit Type d : DS S FlateFields.

Lemma le16_bytes n : 0 <= n < 65536 -> Forall is_byte (le16 n).
Proof.
  intros Hn. unfold le16, is_byte. repeat constructor; try (apply Z.mod_pos_bound; lia);
    [apply Z.div_pos|apply Z.div_lt_upper_bound]; lia.
Qed.

(** Less than a byte held, and bytes next: the stream is at a byte. *)
Lemma ready_at_byte d pad bytes t :
  ready d 7 (pad ++ stream_bits bytes ++ t) -> len pad < 8 -> len t mod 8 = 0 ->
  Forall is_byte bytes ->
  exists r, rest (stream d) (bytes ++ r) /\ t = stream_bits r.
Proof.
  intros [Hs _ Hb (r & Hr & Ht)] Hpad Hmod Hby.
  assert (Hlen : codeSize (ext d) = len pad).
  { pose proof (f_equal len Ht) as Hl. rewrite !len_app, !len_stream_bits in Hl.
    unfold len at 4 in Hl. rewrite length_bits in Hl.
    pose proof (Z.div_mod (len t) 8 ltac:(lia)). pose proof (len_nonneg pad). lia. }
  replace (Z.to_nat (codeSize (ext d))) with (length pad) in Ht by (unfold len in Hlen; lia).
  symmetry in Ht. apply app_inj_1 in Ht as [_ Ht]; [|by rewrite length_bits].
  apply stream_bits_prefix in Ht as (r' & -> & ->); [eauto| |done].
  exact (rest_bytes _ _ Hr).
Qed.

Lemma le16_value n : 0 <= n < 65536 -> n mod 256 .| (n / 256 .<< 8) = n.
Proof.
  intros Hn. pose proof (Z.mod_pos_bound n 256 ltac:(lia)). pose proof (Z.div_mod n 256 ltac:(lia)).
  rewrite js_or_shifted by (change (2 ^ 8) with 256; lia). change (2 ^ 8) with 256. lia.
Qed.

(** The four bytes of the length. *)
Lemma next_byte d b r :
  rest (stream d) (b :: r) ->
  exists s', on_stream getByte d = (Ok (Some b), set_stream s' d) /\ rest s' r /\ jn_is (Some b) (-1) = false.
Proof.
  intros Hr. destruct (rest_cons _ _ _ Hr) as (s' & Hg & Hr' & _). exists s'.
  pose proof (rest_bytes _ _ Hr) as Hby. apply Forall_cons in Hby as [Hb _]. unfold is_byte in Hb.
  unfold on_stream, zoom. rewrite Hg. split_and!; auto. simpl. ztest. done.
Qed.

Lemma stored_block_ok d pad bs t :
  ready d 7 (pad ++ stream_bits (le16 (len bs) ++ le16 (65535 - len bs) ++ bs) ++ t) ->
  len pad < 8 -> len t mod 8 = 0 -> len bs < 65536 -> Forall is_byte bs -> buf_ok d ->
  exists d', stored_block d = (Ok tt, d') /\ appends d d' bs /\ ready d' 0 t /\
    (eof d = true -> eof d' = true) /\ (t <> [] -> eof d' = eof d).
Proof.
  intros Hr Hpad Hmod Hlen Hby Hok. pose proof (len_nonneg bs) as Hn.
  apply ready_at_byte in Hr as (r & Hr & ->); auto;
    [|repeat apply Forall_app_2; auto; apply le16_bytes; lia].
  rewrite <- !app_assoc in Hr. unfold le16 in Hr. cbn [app] in Hr.
  destruct (next_byte d _ _ Hr) as (s0 & Hg0 & Hr0 & Hn0).
  destruct (next_byte (set_stream s0 d) _ _ Hr0) as (s1 & Hg1 & Hr1 & Hn1).
  destruct (next_byte (set_stream s1 d) _ _ Hr1) as (s2 & Hg2 & Hr2 & Hn2).
  destruct (next_byte (set_stream s2 d) _ _ Hr2) as (s3 & Hg3 & Hr3 & Hn3).
  unfold stored_block.
  rewrite (mbind_ok _ _ _ _ _ Hg0), Hn0, (mbind_ok _ _ _ _ _ Hg1), Hn1,
    (mbind_ok _ _ _ _ _ Hg2), Hn2, (mbind_ok _ _ _ _ _ Hg3), Hn3.
  cbn [jn_int default from_option id]. rewrite !le16_value by lia.
  assert (Hck : js_not (len bs) .& 65535 = 65535 - len bs).
  { change 65535 with (2 ^ 16 - 1) at 1. rewrite js_and_mask by lia. change (2 ^ 16) with 65536.
    unfold js_not, Z.lnot. rewrite to_int32_small by lia.
    replace (Z.pred (- len bs)) with (65535 - len bs + (-1) * 65536) by lia.
    rewrite Z_mod_plus_full. apply Z.mod_small. lia. }
  rewrite Hck, Z.eqb_refl. cbn [negb andb].
  set (d3 := set_ext (mkFlate 0 0) (set_stream s3 (set_stream s2 d))).
  assert (Hok3 : buf_ok d3) by (by apply (buf_ok_same d)).
  destruct (ensureBuffer_ok d3 (bufferLength d + len bs) Hok3) as (d4 & Hrun4 & Hens).
  pose proof Hens as [[_ Hroom] _ Hok4 (Hbl & Hef & Hmin & Hps & Hst & Hx)].
  unfold mbind at 1, modify at 1. fold d3. cbv beta iota. unfold mbind at 1, gets at 1. cbv beta iota.
  change (bufferLength d3) with (bufferLength d) in *. rewrite (mbind_ok _ _ _ _ _ Hrun4).
  set (d5 := set_bufferLength (bufferLength d + len bs) d4).
  assert (Happ : forall d', buffer d' = blit (buffer d4) bs (bufferLength d4) ->
    bufferLength d' = bufferLength d4 + len bs -> pos d' = pos d4 ->
    minBufferLength d' = minBufferLength d4 -> appends d d' bs).
  { intros d' ? ? ? ?. pose proof (appends_blit d4 d' bs Hok4 Hby ltac:(lia)) as Ha.
    specialize (Ha ltac:(done) ltac:(done) ltac:(done) ltac:(done)).
    destruct (ensured_appends d3 d4 d' _ bs Hok3 Hens Ha) as [? ? ? ?]. by split. }
  unfold mbind at 1, modify at 1. fold d5. cbv beta iota.
  assert (Hst5 : stream d5 = s3) by exact Hst.
  assert (Hx5 : ext d5 = mkFlate 0 0) by exact Hx.
  assert (Hef5 : eof d5 = eof d) by exact Hef.
  assert (Hready : forall d', ext d' = mkFlate 0 0 -> rest (stream d') r -> ready d' 0 (stream_bits r)).
  { intros d' Hx' Hrr. split; rewrite ?Hx'; cbn [codeSize codeBuf]; try lia. exists r. done. }
  destruct (len bs =? 0) eqn:E; bool_hyps.
  - destruct bs as [|? ?]; [|rewrite len_cons in *; pose proof (len_nonneg bs); lia].
    cbn [app] in Hr3. assert (Happ' : forall d', buffer d' = buffer d4 -> bufferLength d' = bufferLength d5 ->
      pos d' = pos d4 -> minBufferLength d' = minBufferLength d4 -> appends d d' []).
    { intros d' Hb' Hl' ? ?. apply Happ; auto; [by rewrite blit_nil|].
      rewrite Hl'. unfold d5. cbn [bufferLength set_bufferLength]. lia. }
    unfold mbind at 1, on_stream, zoom, peekByte, mbind at 1. rewrite Hst5.
    destruct r as [|b r].
    + destruct (rest_nil s3 Hr3) as (s4 & -> & Hr4). cbn. eexists. split; [reflexivity|].
      split; [by apply Happ'|]. split; [by apply Hready|]. split; [done|]. by intros [].
    + destruct (rest_cons s3 b r Hr3) as (s4 & -> & _ & Hr4).
      pose proof (rest_bytes _ _ Hr3) as Hby3. apply Forall_cons in Hby3 as [Hb _]. unfold is_byte in Hb.
      cbn [jn_is]. replace (b =? -1) with false by lia. m_red. cbn [jn_is].
      replace (b =? -1) with false by lia. eexists. split; [reflexivity|].
      split; [by apply Happ'|]. split; [by apply Hready|].
      split; intros ?; cbn [eof set_stream]; congruence.
  - destruct (rest_getBytes s3 _ (len bs) Hr3) as (s4 & Hg4 & Hr4 & _); [lia|].
    rewrite (proj2 (Z.eqb_neq _ 0)) in Hg4, Hr4 by lia.
    replace (Z.to_nat (len bs)) with (length bs) in Hg4, Hr4 by (unfold len; lia).
    rewrite take_app_length in Hg4. rewrite drop_app_length in Hr4.
    unfold mbind at 1, on_stream, zoom. rewrite Hst5, Hg4.
    m_red. cbn [buffer set_stream set_bufferLength d5].
    rewrite (proj2 (Z.leb_le 0 _)), (proj2 (Z.leb_le (_ + _) _)), Z.ltb_irrefl
      by (destruct Hok as [[? ?] ? ?]; lia).
    cbn [andb]. eexists. split; [reflexivity|].
    split; [apply Happ; auto; rewrite Hbl; done|]. split; [by apply Hready|].
    split; intros ?; cbn [eof set_buffer set_stream set_bufferLength]; congruence.
Qed.

(** ** The tables of a dynamic block *)

Lemma getBits_num d c k v t :
  ready d c (bits (Z.to_nat k) v ++ t) -> 0 <= k <= 15 -> 0 <= v < 2 ^ k ->
  exists d', getBits k d = (Ok v, d') /\ ready d' (Z.max (c - k) 7) t /\ same_buffer d d'.
Proof.
  intros Hr Hk Hv. assert (Hl : len (bits (Z.to_nat k) v) = k) by (unfold len; rewrite length_bits; lia).
  destruct (getBits_ok d c _ t Hr) as (d' & Hg & Hr' & Hs); [lia|].
  rewrite Hl, num_of_bits_small in * by (rewrite ?Z2Nat.id; lia). eauto.
Qed.

Lemma read_code_lengths_ok order : forall sent acc d c t,
  length sent = length order -> forallb (fun v => (0 <=? v) && (v <? 8)) sent = true -> 7 <= c ->
  ready d c (flat_map (bits 3) sent ++ t) ->
  exists d', read_code_lengths order acc d =
      (Ok (fold_left (fun acc kv => arr_set acc (fst kv) (snd kv)) (combine order sent) acc), d') /\
    ready d' c t /\ same_buffer d d'.
Proof.
  induction order as [|k order IH]; intros [|v sent] acc d c t Hl Hv Hc Hr; try discriminate Hl.
  - exists d. split_and!; auto using same_buffer_refl.
  - cbn [forallb] in Hv. bool_hyps. cbn [flat_map] in Hr. rewrite <- app_assoc in Hr.
    destruct (getBits_num d c 3 v _ Hr ltac:(lia) ltac:(lia)) as (d1 & Hg & Hr1 & Hs1).
    apply (ready_weaken _ _ c) in Hr1; [|lia|by destruct Hr].
    destruct (IH sent (arr_set acc k v) d1 c t) as (d' & Hrun & Hr' & Hs'); auto.
    exists d'. cbn [read_code_lengths]. rewrite (mbind_ok _ _ _ _ _ Hg).
    split_and!; auto. by eapply same_buffer_trans.
Qed.

Lemma repeat_length_ok n : forall acc k w,
  (n <= k)%nat -> is_byte w ->
  repeat_length n (acc ++ replicate k 0) (len acc) w =
  (acc ++ replicate n w ++ replicate (k - n) 0, len acc + Z.of_nat n).
Proof.
  induction n as [|n IH]; intros acc k w Hn Hw.
  { simpl. by rewrite Nat.sub_0_r, Z.add_0_r. }
  destruct k as [|k]; [lia|]. cbn [repeat_length replicate].
  rewrite arr_set_app, Z.sub_diag, to_u8_small by (done || lia).
  change (arr_set (0 :: replicate k 0) 0 w) with (w :: replicate k 0).
  replace (acc ++ w :: replicate k 0) with ((acc ++ [w]) ++ replicate k 0)
    by (by rewrite <- app_assoc).
  replace (len acc + 1) with (len (acc ++ [w])) by len_lia.
  rewrite IH by (done || lia). f_equal; [by rewrite <- app_assoc|len_lia].
Qed.

Section Lengths.
Context (cl : list Z) (tab : Flate.table).
Context (Htab : table_for tab cl) (Hmax : snd tab <= 7).

(** A code for lengths, then its extra bits. *)
Lemma getCode_cl d c v t :
  has_code cl v = true -> 14 <= c -> ready d c (codeword cl v ++ t) ->
  exists d', getCode tab d = (Ok v, d') /\ ready d' c t /\ same_buffer d d'.
Proof.
  intros Hv Hc Hr. destruct (getCode_ok d c tab _ v t (proj2 Htab v Hv) Hr) as (d' & Hg & Hr' & Hs).
  exists d'. split_and!; auto. pose proof (len_nonneg (codeword cl v)).
  apply (ready_weaken _ _ _ _ Hr'); [lia|by destruct Hr].
Qed.

Lemma getBits_extra d c k e t :
  len e = k -> k <= 7 -> 14 <= c -> ready d c (e ++ t) ->
  exists d', getBits k d = (Ok (num_of e), d') /\ ready d' c t /\ same_buffer d d'.
Proof.
  intros <- Hk Hc Hr. destruct (getBits_ok d c e t Hr) as (d' & Hg & Hr' & Hs); [lia|].
  exists d'. split_and!; auto. pose proof (len_nonneg e).
  apply (ready_weaken _ _ _ _ Hr'); [lia|by destruct Hr].
Qed.

Lemma item_lengths_spec prev it :
  item_ok cl it = true -> 0 <= prev <= 15 ->
  let '(ls, prev') := item_lengths prev it in
  0 < len ls /\ 0 <= prev' <= 15 /\ Forall (fun l => 0 <= l <= 15) ls.
Proof.
  intros Hok Hp.
  destruct it as [l|e|e|e]; unfold item_ok in Hok; bool_hyps; cbn [item_lengths];
    [unfold has_code in *; bool_hyps; change (len [l]) with 1;
       split_and!; try lia; repeat constructor; lia|..];
    pose proof (num_of_range e); rewrite len_replicate;
    (split_and!; [lia..|apply Forall_replicate; lia]).
Qed.

Lemma read_lengths_ok its : forall n prev acc d c t,
  forallb (item_ok cl) its = true -> 0 <= prev <= 15 -> 14 <= c ->
  len (items_lengths prev its) <= Z.of_nat n ->
  ready d c (flat_map (item_bits cl) its ++ t) ->
  exists d', read_lengths n tab (len acc + len (items_lengths prev its)) (len acc) prev
      (acc ++ zeros (len (items_lengths prev its))) d =
      (Ok (acc ++ items_lengths prev its), d') /\
    ready d' c t /\ same_buffer d d'.
Proof.
  induction its as [|it its IH]; intros n prev acc d c t Hok Hp Hc Hn Hr.
  { exists d. cbn [items_lengths]. change (len (@nil Z)) with 0.
    destruct n; cbn [read_lengths]; rewrite Z.add_0_r, Z.ltb_irrefl;
      split_and!; auto using same_buffer_refl. }
  cbn [forallb] in Hok. apply andb_true_iff in Hok as [Hit Hok].
  cbn [flat_map] in Hr. rewrite <- app_assoc in Hr. cbn [items_lengths] in *.
  pose proof (item_lengths_spec prev it Hit Hp) as Hspec.
  destruct (item_lengths prev it) as [ls prev'] eqn:Eit. destruct Hspec as (Hls & Hp' & Hall).
  set (more := items_lengths prev' its) in *. rewrite len_app in *. pose proof (len_nonneg more).
  destruct n as [|n]; [lia|]. cbn [read_lengths].
  rewrite (proj2 (Z.ltb_lt (len acc) _)) by lia. cbv iota.
  specialize (IH n prev' (acc ++ ls)). rewrite len_app, <- !app_assoc in IH.
  (* what is left to do after the item's own lengths *)
  assert (Hgo : forall d1, ready d1 c (flat_map (item_bits cl) its ++ t) -> same_buffer d d1 ->
    exists d', read_lengths n tab (len acc + (len ls + len more)) (len acc + len ls) prev'
      (acc ++ ls ++ zeros (len more)) d1 = (Ok (acc ++ ls ++ more), d') /\
      ready d' c t /\ same_buffer d d').
  { intros d1 Hr1 Hs1. destruct (IH d1 c t) as (d' & Hrun & Hr' & Hs'); auto; [fold more; lia|].
    exists d'. rewrite Z.add_assoc. split_and!; auto. by eapply same_buffer_trans. }
  clear IH.
  assert (Hrep : forall k e w off v,
    len e = k -> k <= 7 -> has_code cl v = true -> 0 <= w <= 15 -> 0 < off -> prev' = w ->
    ls = replicate (Z.to_nat (num_of e + off)) w -> item_bits cl it = codeword cl v ++ e ->
    exists d1 d', getCode tab d = (Ok v, d1) /\
      (r <- getBits k ;;
       let '(codeLengths, i) := repeat_length (Z.to_nat (r + off))
         (acc ++ zeros (len ls + len more)) (len acc) w in
       read_lengths n tab (len acc + (len ls + len more)) i w codeLengths) d1 =
        (Ok (acc ++ ls ++ more), d') /\ ready d' c t /\ same_buffer d d').
  { intros k e w off v He Hk Hv Hw Hoff -> Hlw Hbits. rewrite Hbits, <- app_assoc in Hr.
    destruct (getCode_cl d c v _ Hv Hc Hr) as (d1 & Hg1 & Hr1 & Hs1).
    destruct (getBits_extra d1 c k e _ He Hk Hc Hr1) as (d2 & Hg2 & Hr2 & Hs2).
    destruct (Hgo d2 Hr2) as (d' & Hrun & Hr' & Hs'); [by eapply same_buffer_trans|].
    exists d1, d'. split_and!; auto. rewrite (mbind_ok _ _ _ _ _ Hg2).
    pose proof (num_of_range e). unfold zeros.
    assert (Hll : len ls = num_of e + off) by (rewrite Hlw, len_replicate; lia).
    rewrite repeat_length_ok by (unfold is_byte; lia).
    rewrite <- Hlw. replace (Z.of_nat _) with (len ls) by lia.
    replace (Z.to_nat (len ls + len more) - _)%nat with (Z.to_nat (len more)) by lia. exact Hrun. }
  destruct it as [l|e|e|e]; unfold item_ok in Hit; bool_hyps; cbn [item_lengths] in Eit;
    injection Eit as Els Epr.
  - cbn [item_bits] in Hr. subst ls prev'. assert (Hl : 0 <= l <= 15) by (by inversion Hall).
    destruct (getCode_cl d c l _ ltac:(done) Hc Hr) as (d1 & Hg1 & Hr1 & Hs1).
    destruct (Hgo d1 Hr1 Hs1) as (d' & Hrun & Hr' & Hs').
    exists d'. split_and!; auto. rewrite (mbind_ok _ _ _ _ _ Hg1). repeat ztest. cbv iota.
    rewrite arr_set_app, Z.sub_diag, to_u8_small by lia. change (len [l]) with 1 in *.
    replace (zeros (1 + len more)) with (0 :: zeros (len more))
      by (unfold zeros; replace (Z.to_nat (1 + len more)) with (Datatypes.S (Z.to_nat (len more))) by lia; done).
    exact Hrun.
  - destruct (Hrep 2 e prev 3 16) as (d1 & d' & Hg & Hrun & Hr' & Hs'); auto; try lia.
    exists d'. split_and!; auto. rewrite (mbind_ok _ _ _ _ _ Hg). exact Hrun.
  - destruct (Hrep 3 e 0 3 17) as (d1 & d' & Hg & Hrun & Hr' & Hs'); auto; try lia.
    exists d'. split_and!; auto. rewrite (mbind_ok _ _ _ _ _ Hg). exact Hrun.
  - destruct (Hrep 7 e 0 11 18) as (d1 & d' & Hg & Hrun & Hr' & Hs'); auto; try lia.
    exists d'. split_and!; auto. rewrite (mbind_ok _ _ _ _ _ Hg). exact Hrun.
Qed.
End Lengths.

Lemma cl_lengths_small sent :
  forallb (fun v => (0 <=? v) && (v <? 8)) sent = true ->
  Forall (fun l => l <= 7) (cl_lengths sent).
Proof.
  intros Hs. unfold cl_lengths.
  assert (Hz : Forall (fun l => l <= 7) (zeros (len codeLenCodeMap))) by (by apply Forall_replicate).
  revert Hz. generalize (zeros (len codeLenCodeMap)). generalize codeLenCodeMap.
  induction sent as [|v sent IH]; intros [|k order] acc Hacc; cbn [combine fold_left]; auto.
  cbn [forallb] in Hs. bool_hyps. apply IH; [done|]. apply Forall_arr_set; simpl; [done|lia].
Qed.

Lemma combine_take {A B} (l : list A) (l' : list B) : combine (take (length l') l) l' = combine l l'.
Proof.
  revert l. induction l' as [|y l' IH]; intros [|x l]; simpl; [done..|]. by rewrite IH.
Qed.

Lemma dynamic_tables_ok d c h t :
  header_ok h = true -> ready d c (header_bits h ++ t) ->
  exists d', dynamic_tables d =
      (Ok (generateHuffmanTable (h_lit h), generateHuffmanTable (h_dist h)), d') /\
    ready d' (Z.max c 14) t /\ same_buffer d d'.
Proof.
  intros Hh Hr. unfold header_ok in Hh. bool_hyps. unfold header_bits in Hr.
  pose proof (rd_max _ _ _ Hr) as Hc. rewrite <- !app_assoc in Hr.
  apply (ready_weaken _ _ (Z.max c 14)) in Hr; [|lia..].
  set (B := Z.max c 14) in *. assert (HB : 14 <= B <= 22) by lia.
  destruct (getBits_num d B 5 _ _ Hr ltac:(lia) ltac:(lia)) as (d1 & Hg1 & Hr1 & Hs1).
  apply (ready_weaken _ _ B) in Hr1; [|lia..].
  destruct (getBits_num d1 B 5 _ _ Hr1 ltac:(lia) ltac:(lia)) as (d2 & Hg2 & Hr2 & Hs2).
  apply (ready_weaken _ _ B) in Hr2; [|lia..].
  destruct (getBits_num d2 B 4 _ _ Hr2 ltac:(lia) ltac:(lia)) as (d3 & Hg3 & Hr3 & Hs3).
  apply (ready_weaken _ _ B) in Hr3; [|lia..].
  assert (Hn : Z.to_nat (len (h_sent h) - 4 + 4) = length (h_sent h)) by (unfold len; lia).
  destruct (read_code_lengths_ok (take (Z.to_nat (len (h_sent h) - 4 + 4)) codeLenCodeMap)
    (h_sent h) (zeros (len codeLenCodeMap)) d3 B
    (flat_map (item_bits (cl_lengths (h_sent h))) (h_items h) ++ t))
    as (d4 & Hg4 & Hr4 & Hs4); auto; [|lia|].
  { rewrite length_take, Hn. change (length codeLenCodeMap) with 19%nat. unfold len in *. lia. }
  rewrite Hn, combine_take in Hg4. fold (cl_lengths (h_sent h)) in Hg4.
  assert (Hcl7 : snd (generateHuffmanTable (cl_lengths (h_sent h))) <= 7).
  { rewrite max_length_snd, <- max_length_fold.
    destruct (fold_max_spec (cl_lengths (h_sent h)) 0) as (_ & _ & Hin).
    pose proof (cl_lengths_small (h_sent h) ltac:(done)) as Hall. rewrite Forall_forall in Hall.
    set (m := fold_left _ _ _) in *. destruct Hin as [->|Hin]; [lia|by apply Hall]. }
  destruct (read_lengths_ok (cl_lengths (h_sent h)) _ (table_for_lengths (cl_lengths (h_sent h)) ltac:(done)) Hcl7 (h_items h)
    (Z.to_nat (len (h_lengths h))) 0 [] d4 B t) as (d5 & Hg5 & Hr5 & Hs5); auto; try lia.
  { fold (h_lengths h). lia. }
  fold (h_lengths h) in Hg5. change (len (@nil Z)) with 0 in Hg5. cbn [app] in Hg5.
  rewrite Z.add_0_l in Hg5.
  exists d5. split_and!; auto.
  - unfold dynamic_tables. rewrite (mbind_ok _ _ _ _ _ Hg1), (mbind_ok _ _ _ _ _ Hg2), (mbind_ok _ _ _ _ _ Hg3).
    rewrite Hn, (mbind_ok _ _ _ _ _ Hg4). cbv zeta.
    replace (h_nlit h - 257 + 257) with (h_nlit h) by lia.
    replace (h_nlit h + (len (h_lengths h) - h_nlit h - 1 + 1)) with (len (h_lengths h)) by lia.
    rewrite (mbind_ok _ _ _ _ _ Hg5). unfold mret, h_lit, h_dist. do 4 f_equal.
    + rewrite subarray_in by lia. by rewrite Z.sub_0_r.
    + rewrite subarray_in by lia. f_equal. apply take_ge. rewrite length_drop. unfold len in *. lia.
  - eapply same_buffer_trans; [eapply same_buffer_trans;
      [eapply same_buffer_trans; [eapply same_buffer_trans|]|]|]; eassumption.
Qed.

(** ** A block *)

Lemma coded_block_ok fuel lit dist lt dt d B toks t :
  table_for lt lit -> table_for dt dist -> B <= 22 -> snd lt + 7 <= B -> snd dt + 7 <= B ->
  has_code lit 256 = true -> forallb (token_ok lit dist) toks = true ->
  distances_ok (produced d) toks = true -> (length toks < fuel)%nat -> buf_ok d ->
  ready d B (codes_bits lit dist toks ++ t) ->
  exists d' chunk, coded_block fuel (lt, dt) d = (Ok tt, d') /\ appends d d' chunk /\
    tokens_out (produced d) toks = produced d ++ chunk /\ eof d' = eof d /\
    ready d' (B - length_of lit 256) t.
Proof.
  intros Hlt Hdt HB Hlb Hdb Heob Htoks Hdist Hf Hok Hr. unfold codes_bits in Hr.
  rewrite <- app_assoc in Hr.
  destruct (codes_loop_ok lit dist lt dt B Hlt Hdt HB Hlb Hdb Heob toks fuel (bufferLength d) d
    (produced d) t) as (d' & Hrun & [Hok' Hout] & He & Hp & Hr'); auto.
  { split; by destruct d. }
  destruct (tokens_out_app toks (produced d)) as [chunk Hchunk].
  assert (Hd' : set_bufferLength (bufferLength d') d' = d') by (by destruct d').
  rewrite Hd' in *. exists d', chunk. unfold has_code in Heob. bool_hyps.
  rewrite len_codeword in Hr' by lia. split_and!; auto.
  - split; auto; [congruence|].
    rewrite <- (len_produced _ Hok'), <- (len_produced _ Hok), Hout, Hchunk. apply len_app.
Qed.

(** The three bits at the front of a block. *)
Lemma hdr_bits final b0 b1 :
  (num_of [final; b0; b1] .& 1 =? 0) = negb final /\
  num_of [final; b0; b1] .>> 1 = num_of [b0; b1].
Proof. destruct final, b0, b1; split; vm_compute; reflexivity. Qed.

(** After the three bits: the block without them. *)
Definition after_hdr (fuel : nat) (hdr : Z) : M (DS S FlateFields) unit :=
  if hdr =? 0 then stored_block
  else if hdr =? 1 then coded_block fuel (fixedLitCodeTab, fixedDistCodeTab)
  else if hdr =? 2 then tabs <- dynamic_tables ;; coded_block fuel tabs
  else throw (FormatError "Unknown block type in flate stream").

Lemma readBlock_hdr fuel d c final b0 b1 t :
  ready d c (final :: b0 :: b1 :: t) ->
  exists d', flate_readBlock fuel d = after_hdr fuel (num_of [b0; b1]) d' /\
    ready d' (Z.max (c - 3) 7) t /\ buffer d' = buffer d /\ bufferLength d' = bufferLength d /\
    minBufferLength d' = minBufferLength d /\ pos d' = pos d /\ eof d' = final || eof d.
Proof.
  intros Hr. destruct (getBits_ok d c [final; b0; b1] t Hr) as (d1 & Hg & Hr1 & (Hb & Hl & He & Hm & Hp));
    [change (len [final; b0; b1]) with 3; lia|].
  change (len [final; b0; b1]) with 3 in *.
  destruct (hdr_bits final b0 b1) as [H1 Hsar]. unfold flate_readBlock.
  assert (Htry : try_catch (h <- getBits 3 ;; mret (Some h)) (fun _ => endsStreamOnError ;;; mret None) d =
    (Ok (Some (num_of [final; b0; b1])), d1)).
  { unfold try_catch. by rewrite (mbind_ok _ _ _ _ _ Hg). }
  rewrite (mbind_ok _ _ _ _ _ Htry). rewrite H1, Hsar. fold (after_hdr fuel (num_of [b0; b1])).
  destruct final; cbn [negb orb].
  - exists (set_eof true d1). split; [reflexivity|]. split_and!; auto. destruct Hr1. by split.
  - exists d1. split_and!; auto.
Qed.

Lemma flate_block_ok fuel d c at_bit final b t :
  block_ok at_bit c (produced d) b = true -> (block_codes b <= fuel)%nat -> buf_ok d -> eof d = false ->
  (at_bit + len (block_bits final b ++ t)) mod 8 = 0 -> ready d c (block_bits final b ++ t) ->
  exists d' chunk, flate_readBlock fuel d = (Ok tt, d') /\ appends d d' chunk /\
    block_out (produced d) b = produced d ++ chunk /\ ready d' (next_held c b) t /\
    (final = true -> eof d' = true) /\ (final = false -> t <> [] -> eof d' = false).
Proof.
  intros Hbok Hf Hok He Hpos Hr. unfold block_bits in Hr. pose proof (rd_max _ _ _ Hr) as Hc.
  assert (Hsame : forall d1, buffer d1 = buffer d -> bufferLength d1 = bufferLength d ->
    minBufferLength d1 = minBufferLength d -> pos d1 = pos d ->
    buf_ok d1 /\ produced d1 = produced d /\
    forall d' chunk, appends d1 d' chunk -> appends d d' chunk).
  { intros d1 Hb Hl Hm Hp. assert (Hpr : produced d1 = produced d) by (unfold produced; congruence).
    split_and!; [by apply (buf_ok_same d)|done|].
    intros d' chunk [Ha1 Ha2 Ha3 Ha4]. split; auto; congruence. }
  destruct b as [pad bs|toks|h toks]; cbn [app] in Hr;
    destruct (readBlock_hdr fuel d c _ _ _ _ Hr) as (d1 & Hrun & Hr1 & Hb1 & Hl1 & Hm1 & Hp1 & He1);
    destruct (Hsame d1 Hb1 Hl1 Hm1 Hp1) as (Hok1 & Hpr1 & Happ);
    rewrite He, orb_false_r in He1; unfold block_ok in Hbok; bool_hyps;
    rewrite Hrun; unfold block_out, next_held, after_hdr; cbv zeta.
  - change (num_of [false; false] =? 0) with true. cbv iota.
    assert (Hby : Forall is_byte bs).
    { apply Forall_forall. intros v Hin. unfold is_byte.
      match goal with H : forallb _ bs = true |- _ => rewrite forallb_forall in H;
        specialize (H v (proj1 (list_elem_of_In _ _) Hin)) end. bool_hyps. lia. }
    rewrite Z.max_r in Hr1 by lia. rewrite <- app_assoc in Hr1.
    assert (Hmod : len t mod 8 = 0).
    { unfold block_bits in Hpos. rewrite len_app in Hpos. cbn [app] in Hpos.
      rewrite !len_cons, !len_app, len_stream_bits in Hpos.
      set (k := len (le16 (len bs) ++ le16 (65535 - len bs) ++ bs)) in Hpos.
      replace (at_bit + (len pad + 8 * k + 1 + 1 + 1 + len t))
        with (len t + (at_bit + 3 + len pad + k * 8)) in Hpos by lia.
      match goal with H : (at_bit + 3 + len pad) mod 8 = 0 |- _ =>
        apply Z.mod_divide in H as [q Hq]; [|lia] end.
      rewrite Hq, <- Z.mul_add_distr_r, Z_mod_plus_full in Hpos. done. }
    destruct (stored_block_ok d1 pad bs t Hr1) as (d' & Hrun' & Ha & Hr' & He' & He''); auto.
    exists d', bs. split_and!; auto; [by intros ->; apply He'|intros -> Ht; by rewrite He''].
  - change (num_of [true; false] =? 0) with false. change (num_of [true; false] =? 1) with true.
    cbv iota. destruct table_for_fixed as [Hlt Hdt].
    apply (ready_weaken _ _ (Z.max (Z.max (c - 3) 7) 16)) in Hr1; [|lia..].
    destruct (coded_block_ok fuel fixed_lit fixed_dist _ _ d1
      (Z.max (Z.max (c - 3) 7) 16) toks t Hlt Hdt) as (d' & chunk & Hrun' & Ha & Hout & He' & Hr');
      rewrite ?Hpr1; auto; try (cbn [snd fixedLitCodeTab fixedDistCodeTab]; lia).
    exists d', chunk. rewrite Hpr1 in Hout. split_and!; auto; congruence.
  - change (num_of [false; true] =? 0) with false. change (num_of [false; true] =? 1) with false.
    change (num_of [false; true] =? 2) with true. cbv iota. rewrite <- app_assoc in Hr1.
    destruct (dynamic_tables_ok d1 _ h _ ltac:(done) Hr1) as (d2 & Hg2 & Hr2 & (Hb2 & Hl2 & He2 & Hm2 & Hp2)).
    match goal with H : header_ok h = true |- _ => unfold header_ok in H end. bool_hyps.
    pose proof (table_for_lengths (h_lit h) ltac:(done)) as Hlt.
    pose proof (table_for_lengths (h_dist h) ltac:(done)) as Hdt.
    destruct (Hsame d2) as (Hok2 & Hpr2 & Happ2); try congruence.
    pose proof (max_length_snd (h_lit h)) as Hml. pose proof (max_length_snd (h_dist h)) as Hmd.
    destruct Hlt as [Hl15 Hlt], Hdt as [Hd15 Hdt].
    set (B := Z.max (Z.max (Z.max (c - 3) 7) 14)
      (Z.max (max_length (h_lit h)) (max_length (h_dist h)) + 7)).
    apply (ready_weaken _ _ B) in Hr2; [|lia..].
    destruct (coded_block_ok fuel (h_lit h) (h_dist h) _ _ d2 B toks t (conj Hl15 Hlt) (conj Hd15 Hdt))
      as (d' & chunk & Hrun' & Ha & Hout & He' & Hr'); rewrite ?Hpr2; auto; try lia.
    rewrite (mbind_ok _ _ _ _ _ Hg2). exists d', chunk. rewrite Hpr2 in Hout. split_and!; auto; congruence.
Qed.
End Blocks.

(** ** The contract *)

(** The state of a stream and its bits, without the buffer. *)
Definition ready_at {S} `{SourceSpec S} (s : S) (x : FlateFields) (c : Z) (t : list bool) : Prop :=
  ready (new_DecodeStream None s x) c t.

Lemma ready_at_iff {S} `{SourceSpec S} (d : DS S FlateFields) c t :
  ready_at (stream d) (ext d) c t <-> ready d c t.
Proof. split; intros [? ? ? ?]; by split. Qed.

Lemma deflated_nonempty bs after : bs <> [] -> deflated bs ++ after <> [].
Proof. by destruct bs. Qed.

#[export] Program Instance flate_spec {S} `{SourceSpec S} (fuel : nat) :
  @DecoderSpec S FlateFields (flate_decoder fuel) := {
  todo s x done out n :=
    exists at_bit c blocks after,
      blocks <> [] /\ blocks_ok at_bit c done blocks = true /\
      Forall (fun b => (block_codes b <= fuel)%nat) blocks /\
      (at_bit + len (deflated blocks ++ after)) mod 8 = 0 /\
      ready_at s x c (deflated blocks ++ after) /\
      inflated done blocks = done ++ out /\ n = length blocks
}.
Next Obligation.
  intros S ? ? fuel d out n Hok He (at_bit & c & blocks & after & Hne & Hbs & Hf & Hpos & Hr & Hout & ->).
  apply (proj1 (ready_at_iff d c _)) in Hr. destruct blocks as [|b bs]; [done|]. clear Hne.
  cbn [deflated blocks_ok inflated fold_left] in *. fold (inflated (block_out (produced d) b) bs) in Hout.
  apply andb_true_iff in Hbs as [Hb Hbs]. apply Forall_cons in Hf as [Hf1 Hf].
  set (final := match bs with [] => true | _ => false end) in *.
  rewrite <- app_assoc in Hr, Hpos.
  destruct (flate_block_ok fuel d c at_bit final b _ Hb Hf1 Hok He Hpos Hr)
    as (d' & chunk & Hrun & Ha & Hbo & Hr' & Hlast & Hmore).
  rewrite Hbo in Hout, Hbs. destruct bs as [|b' bs]; subst final.
  - exists d', chunk, [], 0%nat. rewrite (Hlast eq_refl). cbn [inflated fold_left] in Hout.
    apply app_inv_head in Hout. split_and!; auto. by rewrite app_nil_r.
  - assert (exists out', inflated (produced d ++ chunk) (b' :: bs) = (produced d ++ chunk) ++ out') as [out' Hout'].
    { clear. generalize (produced d ++ chunk) as o. generalize (b' :: bs) as l. clear.
      induction l as [|b l IH]; intros o; cbn [inflated fold_left]; [exists []; by rewrite app_nil_r|].
      fold (inflated (block_out o b) l).
      assert (exists c, block_out o b = o ++ c) as [c Hc]
        by (destruct b; cbn [block_out]; [eauto|apply tokens_out_app..]).
      rewrite Hc. destruct (IH (o ++ c)) as [c' ->]. rewrite <- app_assoc. eauto. }
    exists d', chunk, out', (length (b' :: bs)). rewrite (Hmore eq_refl) by done.
    rewrite Hout', <- app_assoc in Hout. apply app_inv_head in Hout as <-.
    split; [done|]. split; [done|]. split; [done|]. split; [simpl; lia|].
    exists (at_bit + len (block_bits false b)), (next_held c b), (b' :: bs), after.
    rewrite (app_produced _ _ _ Ha). split_and!; auto; [|by apply (proj2 (ready_at_iff d' _ _))].
    rewrite len_app, Z.add_assoc in Hpos. exact Hpos.
Qed.

Lemma tokens_bytes lit dist toks : forall out,
  Forall is_byte out -> forallb (token_ok lit dist) toks = true -> Forall is_byte (tokens_out out toks).
Proof.
  assert (Hcopy : forall n d out, Forall is_byte out -> Forall is_byte (copy_from n d out)).
  { induction n as [|n IH]; intros d out Hout; cbn [copy_from]; [done|]. apply IH.
    apply Forall_app_2; [done|]. constructor; [|constructor].
    unfold arr_get. destruct (_ <? 0); [unfold is_byte; simpl; lia|].
    destruct (out !! _) as [x|] eqn:E; [|unfold is_byte; simpl; lia].
    rewrite Forall_lookup in Hout. by apply (Hout _ _ E). }
  induction toks as [|tok toks IH]; intros out Hout Hok; [done|].
  cbn [forallb] in Hok. apply andb_true_iff in Hok as [Ht Hok]. apply IH; [|done].
  destruct tok; cbn [token_out]; [|by apply Hcopy].
  unfold token_ok in Ht. bool_hyps. apply Forall_app_2; [done|].
  constructor; [unfold is_byte; lia|constructor].
Qed.

Lemma inflated_bytes blocks : forall at_bit c out,
  Forall is_byte out -> blocks_ok at_bit c out blocks = true -> Forall is_byte (inflated out blocks).
Proof.
  induction blocks as [|b bs IH]; intros at_bit c out Hout Hok; [done|].
  cbn [blocks_ok] in Hok. apply andb_true_iff in Hok as [Hb Hok].
  cbn [inflated fold_left]. refine (IH _ _ _ _ Hok).
  destruct b as [pad bs'|toks|h toks]; unfold block_ok in Hb; bool_hyps; cbn [block_out];
    [|by eapply tokens_bytes..].
  apply Forall_app_2; [done|]. apply Forall_forall. intros v Hin. unfold is_byte.
  match goal with H : forallb _ bs' = true |- _ => rewrite forallb_forall in H;
    specialize (H v (proj1 (list_elem_of_In _ _) Hin)) end. bool_hyps. lia.
Qed.

Lemma flate_header_ok {S} (s : S) cmf flg :
  0 <= cmf < 256 -> 0 <= flg < 256 ->
  cmf mod 16 = 8 -> (cmf * 256 + flg) mod 31 = 0 -> Z.testbit flg 5 = false ->
  flate_header (Some cmf) (Some flg) s = (Ok tt, s).
Proof.
  intros Hc Hf Hm H31 Hd. unfold flate_header. cbn [jn_is jn_int default from_option id jn_add].
  repeat ztest. cbn [orb]. change 15 with (2 ^ 4 - 1). rewrite js_and_mask by lia.
  change (2 ^ 4) with 16. rewrite Hm, Z.eqb_refl. cbn [negb].
  rewrite js_shl_small by (change (2 ^ 8) with 256; lia). change (2 ^ 8) with 256. simpl.
  rewrite Z.rem_mod_nonneg, H31 by lia. simpl.
  assert (H32 : flg .& 32 = 0).
  { apply Z.bits_inj'. intros i Hi. unfold js_and. rewrite !to_int32_small by lia.
    rewrite Z.land_spec, Z.bits_0. change 32 with (2 ^ 5). rewrite Z.pow2_bits_eqb by lia.
    destruct (Z.eqb_spec 5 i) as [<-|]; [by rewrite Hd|by rewrite andb_false_r]. }
  by rewrite H32.
Qed.

(** C6. A deflated text, the header and blocks of any kind, opens as a stream
    and reads back as the bytes its blocks stand for, whatever follows it and
    over any source stream; the blocks are well formed, and a stored block only
    comes where the stream holds less than a byte ahead. *)
Theorem flate_inflates {S} `{SourceSpec S} (fuel codes : nat) (s : S) cmf flg r blocks after hint
  (Hrest : rest s (cmf :: flg :: r))
  (Hheader : cmf mod 16 = 8 /\ (cmf * 256 + flg) mod 31 = 0 /\ Z.testbit flg 5 = false)
  (Htext : stream_bits r = deflated blocks ++ after)
  (Hblocks : blocks <> [] /\ blocks_ok 0 0 [] blocks = true)
  (Hfuel : (length blocks <= fuel)%nat)
  (Hcodes : Forall (fun b => (block_codes b <= codes)%nat) blocks) :
  exists d s', new_FlateStream hint s = (Ok d, s') /\
    fst (getBytes (ByteSource := DS_source (H := flate_decoder codes) fuel) 0 d)
      = Ok (inflated [] blocks).
Proof.
  destruct Hheader as (Hm & H31 & Hd), Hblocks as [Hne Hok].
  pose proof (rest_bytes _ _ Hrest) as Hby.
  inversion Hby as [|? ? Hb1 Hby1]; subst. inversion Hby1 as [|? ? Hb2 Hby2]; subst. unfold is_byte in Hb1, Hb2.
  destruct (rest_cons _ _ _ Hrest) as (s1 & Hg1 & Hr1 & _).
  destruct (rest_cons _ _ _ Hr1) as (s2 & Hg2 & Hr2 & _).
  exists (new_DecodeStream hint s2 (mkFlate 0 0)), s2. split.
  - unfold new_FlateStream. rewrite (mbind_ok _ _ _ _ _ Hg1), (mbind_ok _ _ _ _ _ Hg2).
    by rewrite (mbind_ok _ _ _ _ _ (flate_header_ok s2 cmf flg Hb1 Hb2 Hm H31 Hd)).
  - apply (ds_read_all (H0 := flate_spec codes)) with (length blocks); [|by eapply inflated_bytes|done].
    exists 0, 0, blocks, after. rewrite <- Htext. split_and!; auto.
    + rewrite Z.add_0_l, len_stream_bits, Z.mul_comm. by apply Z.mod_mul.
    + split; cbn; try lia. by exists r.
Qed.

(** A fixed block, a stored one and a dynamic one. *)
Definition sample_header : header :=
  mkHeader [0; 0; 1; 0; 0; 0; 0; 0; 0; 0; 0; 0; 0; 0; 0; 0; 0; 1]
    [IZeros11 (bits 7 86); ILen 1; IZeros11 (bits 7 127); IZeros11 (bits 7 9); ILen 1; ILen 1] 257.

Definition sample_blocks : list block :=
  [Fixed [Lit 97; Lit 98; Match 0 [] 1 []]; Stored (bits 7 0) [1; 2; 3];
   Dynamic sample_header [Lit 97; Lit 97]].

Definition sample_text : list Z :=
  [74; 76; 2; 66; 0; 0; 3; 0; 252; 255; 1; 2; 3; 5; 192; 129; 0; 0; 0; 0; 0; 144; 86; 255; 19; 16].

Lemma flate_inflates_witness :
  blocks_ok 0 0 [] sample_blocks = true /\
  exists d s', new_FlateStream None (new_Stream (120 :: 156 :: sample_text ++ [7]) None None) = (Ok d, s') /\
    fst (getBytes (ByteSource := DS_source (H := flate_decoder 9) 3) 0 d)
      = Ok [97; 98; 97; 98; 97; 1; 2; 3; 97; 97].
Proof.
  split; [vm_compute; reflexivity|].
  apply (flate_inflates 3 9 (new_Stream (120 :: 156 :: sample_text ++ [7]) None None) 120 156
    (sample_text ++ [7]) sample_blocks (bits 3 0 ++ bits 8 7) None).
  - apply (new_Stream_rest (120 :: 156 :: sample_text ++ [7])).
    repeat constructor; unfold is_byte; lia.
  - split_and!; vm_compute; reflexivity.
  - vm_compute. reflexivity.
  - split; [done|vm_compute; reflexivity].
  - simpl. lia.
  - repeat constructor; simpl; lia.
Defined.

(** ** A text that is not decoded *)

(** A complete code with an end-of-block code of one bit and codes of 12. *)
Definition uneven_header : header :=
  mkHeader [0; 0; 3; 0; 4; 4; 4; 4; 4; 4; 4; 4; 4; 4; 0; 3; 0; 3]
    (map ILen [2; 3; 4; 5; 6; 7; 8; 9; 10; 11; 12; 12] ++
     [IZeros11 (bits 7 127); IZeros11 (bits 7 95); ILen 1; ILen 1]) 257.

Definition uneven_blocks : list block :=
  [Dynamic uneven_header [Lit 0]; Stored (bits 2 0) [10; 20; 30]].

Definition uneven_text : list Z :=
  [4; 192; 129; 129; 36; 73; 146; 196; 48; 154; 71; 86; 207; 222; 191; 254; 250; 2; 9; 3; 0;
   252; 255; 10; 20; 30].

(** The bytes the stream has read ahead when a stored block comes are lost:
    on a text of a dynamic block whose end-of-block code is short and of a
    stored block, each well formed on its own, [readBlock] takes the length of
    the stored block one byte or more too late, and the text, which stands for
    four bytes, ends in an exception. *)
Theorem flate_loses_bytes :
  stream_bits uneven_text = deflated uneven_blocks /\
  block_ok 0 0 [] (Dynamic uneven_header [Lit 0]) = true /\
  block_ok 147 0 [0] (Stored (bits 2 0) [10; 20; 30]) = true /\
  len (block_bits false (Dynamic uneven_header [Lit 0])) = 147 /\
  inflated [] uneven_blocks = [0; 10; 20; 30] /\
  exists d s', new_FlateStream None (new_Stream (120 :: 156 :: uneven_text) None None) = (Ok d, s') /\
    fst (getBytes (ByteSource := DS_source (H := flate_decoder 2) 2) 0 d)
      = Throw (FormatError "Bad uncompressed block length in flate stream").
Proof.
  do 5 (split; [vm_compute; reflexivity|]).
  eexists _, _. split; [reflexivity|]. vm_compute. reflexivity.
Qed.
