(* ===== verification/FlateTotal.v ===== *)
(** * Inflating always answers

    On every source, well formed or not, reading a [FlateStream] ends: each
    code, each block takes at least one bit of the source.  It gives bytes, or
    throws a [FormatError] and nothing else. *)
From S2P Require Import Prelude JsBits ByteStream DecodeStream Flate Bits Huffman Inflate.
Local Open Scope js_scope.

Section Total.
Context {S : Type} `{SourceSpec S}.
Implicit Type d : DS S FlateFields.

(** From [d], [m] gives a result and a state in [Q], or throws a
    [FormatError]. *)
Definition holds {A} (m : M (DS S FlateFields) A) d (Q : A -> DS S FlateFields -> Prop) : Prop :=
  match m d with
  | (Ok a, d') => Q a d'
  | (Throw (FormatError _), _) => True
  | _ => False
  end.

Lemma holds_bind {A B} (m : M _ A) (k : A -> M _ B) d
    (Q : B -> DS S FlateFields -> Prop) :
  holds m d (fun a d' => holds (k a) d' Q) -> holds (mbind m k) d Q.
Proof. unfold holds, mbind. destruct (m d) as [[a|[]|] d']; auto. Qed.

Lemma holds_mono {A} (m : M _ A) d (Q Q' : A -> DS S FlateFields -> Prop) :
  holds m d Q -> (forall a d', Q a d' -> Q' a d') -> holds m d Q'.
Proof. unfold holds. destruct (m d) as [[a|[]|] d']; auto. Qed.

Lemma holds_ret {A} (a : A) d (Q : A -> DS S FlateFields -> Prop) : Q a d -> holds (mret a) d Q.
Proof. done. Qed.

(** At most [k] bits are left, in the source and read ahead. *)
Definition bits_left d (k : Z) : Prop :=
  exists r, rest (stream d) r /\ 0 <= codeSize (ext d) /\ codeSize (ext d) + 8 * len r <= k.

Lemma bits_left_weaken d k k' : bits_left d k -> k <= k' -> bits_left d k'.
Proof. intros (r & ? & ? & ?) ?. exists r. split_and!; auto; lia. Qed.

Lemma bits_left_nonneg d k : bits_left d k -> 0 <= k.
Proof. intros (r & _ & ? & ?). pose proof (len_nonneg r). lia. Qed.

Lemma fill_bits_total n at_end need : forall size buf d r,
  rest (stream d) r -> 0 <= size -> need <= size + 8 * Z.of_nat n ->
  exists s' r' size' buf',
    rest s' r' /\ size <= size' /\ size' + 8 * len r' = size + 8 * len r /\
    fill_bits n at_end need size buf d =
      (if need <=? size' then mret (size', buf') else at_end size' buf') (set_stream s' d).
Proof.
  induction n as [|n IH]; intros size buf d r Hr Hs Hn.
  all: cbn [fill_bits]; destruct (size <? need) eqn:E; bool_hyps; [|
    exists (stream d), r, size, buf; rewrite (proj2 (Z.leb_le _ _)) by lia;
    split_and!; auto; try lia; by destruct d].
  - lia.
  - destruct r as [|b r].
    + destruct (rest_nil (stream d) Hr) as (s' & Hg & Hr').
      exists s', [], size, buf. rewrite (proj2 (Z.leb_gt _ _)) by lia.
      split_and!; auto; try lia. unfold mbind, on_stream, zoom. by rewrite Hg.
    + destruct (rest_cons (stream d) b r Hr) as (s1 & Hg & Hr1 & _).
      pose proof (rest_bytes _ _ Hr) as Hby. apply Forall_cons in Hby as [Hb _].
      unfold is_byte in Hb. rewrite len_cons.
      destruct (IH (size + 8) (buf .| (jn_int (Some b) .<< size)) (set_stream s1 d) r)
        as (s' & r' & size' & buf' & Hr' & Hs' & Hm & Hrun); auto; try lia.
      exists s', r', size', buf'. split_and!; auto; try lia.
      unfold mbind at 1, on_stream, zoom. rewrite Hg. cbn [jn_is].
      rewrite (proj2 (Z.eqb_neq b (-1))) by lia. exact Hrun.
Qed.

Lemma getBits_total d k n :
  bits_left d k -> 0 <= n <= 30 ->
  match getBits n d with
  | (Ok v, d') => 0 <= v /\ same_buffer d d' /\ bits_left d' (k - n)
  | (Throw e, d') => e = bad_encoding /\ same_buffer d d' /\ bits_left d' k
  | (OutOfFuel, _) => False
  end.
Proof.
  intros (r & Hr & Hs & Hk) Hn. unfold getBits, mbind at 1, gets at 1. cbv beta iota.
  destruct (fill_bits_total (Z.to_nat n) (fun _ _ => throw bad_encoding) n
    (codeSize (ext d)) (codeBuf (ext d)) d r) as (s' & r' & size' & buf' & Hr' & Hs' & Hm & Hrun);
    auto; try lia.
  unfold mbind at 1. rewrite Hrun. destruct (n <=? size') eqn:E; bool_hyps.
  - m_red. split_and!.
    + rewrite js_and_small by lia. apply Z.mod_pos_bound, Z.pow_pos_nonneg; lia.
    + done.
    + exists r'. cbn [stream ext set_ext set_stream codeSize]. split_and!; auto; lia.
  - m_red. split_and!; [done..|]. exists r'. cbn [stream ext set_stream]. split_and!; auto.
    pose proof (len_nonneg r). lia.
Qed.

Lemma getBits_holds d k n :
  bits_left d k -> 0 <= n <= 30 ->
  holds (getBits n) d (fun v d' => 0 <= v /\ same_buffer d d' /\ bits_left d' (k - n)).
Proof.
  intros Hk Hn. pose proof (getBits_total d k n Hk Hn) as Ht. unfold holds.
  destruct (getBits n d) as [[v|e|] d']; auto. by destruct Ht as [-> _].
Qed.

(** A code takes a bit at least, whatever the table. *)
Lemma getCode_holds d k tab :
  bits_left d k ->
  holds (getCode tab) d (fun v d' => 0 <= v < 65536 /\ same_buffer d d' /\ bits_left d' (k - 1)).
Proof.
  intros (r & Hr & Hs & Hk). destruct tab as [codes m]. unfold getCode.
  unfold holds, mbind at 1, gets at 1. cbv beta iota.
  destruct (fill_bits_total (Z.to_nat m) (fun size buf => mret (size, buf)) m
    (codeSize (ext d)) (codeBuf (ext d)) d r) as (s' & r' & size' & buf' & Hr' & Hs' & Hm & Hrun);
    auto; try lia.
  assert (Hrun' : fill_bits (Z.to_nat m) (fun size buf => mret (size, buf)) m
    (codeSize (ext d)) (codeBuf (ext d)) d = (Ok (size', buf'), set_stream s' d))
    by (rewrite Hrun; by destruct (m <=? size')).
  rewrite (mbind_ok _ _ _ _ _ Hrun'). cbv beta iota zeta.
  set (code := jn_int _). destruct ((code .>> 16 <? 1) || (size' <? code .>> 16)) eqn:E; [done|].
  bool_hyps. m_red. split; [|split; [done|]].
  { change 65535 with (2 ^ 16 - 1). rewrite js_and_mask by lia. by apply Z.mod_pos_bound. }
  exists r'. cbn [stream ext set_ext set_stream codeSize]. split_and!; auto; lia.
Qed.

Lemma with_extra_holds d k entry :
  bits_left d k -> (forall e, entry = Some e -> 0 <= e < 30 * 65536) ->
  holds (with_extra entry) d (fun v d' => 0 <= v /\ same_buffer d d' /\ bits_left d' k).
Proof.
  intros Hk He. unfold with_extra. cbv zeta.
  assert (Hent : 0 <= jn_int entry < 30 * 65536)
    by (destruct entry as [e|]; [by apply He|simpl; lia]).
  rewrite js_sar_small by lia.
  assert (Hcode : 0 <= jn_int entry / 2 ^ 16 <= 30).
  { change (2 ^ 16) with 65536. split; [apply Z.div_pos; lia|].
    apply Z.lt_succ_r, Z.div_lt_upper_bound; lia. }
  assert (Hlow : 0 <= jn_int entry .& 65535).
  { change 65535 with (2 ^ 16 - 1). rewrite js_and_mask by lia. apply Z.mod_pos_bound. lia. }
  apply holds_bind. destruct (0 <? jn_int entry / 2 ^ 16) eqn:E; bool_hyps.
  - eapply holds_mono; [apply (getBits_holds d k); [done|lia]|].
    intros v d' (Hv & Hs & Hl). apply holds_ret. split_and!; [lia|done|].
    eapply bits_left_weaken; [done|lia].
  - apply holds_ret, holds_ret. split_and!; [lia|apply same_buffer_refl|done].
Qed.

(** ** The tables of a dynamic block *)

(** [m] reads bits and leaves the decoded bytes alone. *)
Definition reads {A} (m : M (DS S FlateFields) A) : Prop :=
  forall d k, bits_left d k -> holds m d (fun _ d' => same_buffer d d' /\ bits_left d' k).

Lemma quiet_bind {A B} (m : M _ A) (f : A -> M _ B) :
  reads m -> (forall a, reads (f a)) -> reads (mbind m f).
Proof.
  intros Hm Hf d k Hk. apply holds_bind. eapply holds_mono; [by apply Hm|].
  intros a d1 [Hs1 Hk1]. eapply holds_mono; [by apply Hf|].
  intros b d2 [Hs2 Hk2]. split; [by eapply same_buffer_trans|done].
Qed.

Lemma quiet_ret {A} (a : A) : reads (mret a).
Proof. intros d k Hk. split; [apply same_buffer_refl|done]. Qed.

Lemma reads_getBits n : 0 <= n <= 30 -> reads (getBits n).
Proof.
  intros Hn d k Hk. eapply holds_mono; [by apply getBits_holds|].
  intros v d' (_ & Hs & Hl). split; [done|]. eapply bits_left_weaken; [done|lia].
Qed.

Lemma read_code_lengths_reads order : forall acc, reads (read_code_lengths order acc).
Proof.
  induction order as [|x order IH]; intros acc; [apply quiet_ret|].
  apply quiet_bind; [by apply reads_getBits|intros v; apply IH].
Qed.

Lemma repeat_length_index n : forall cl i w, snd (repeat_length n cl i w) = i + Z.of_nat n.
Proof.
  induction n as [|n IH]; intros cl i w; cbn [repeat_length]; [simpl; lia|]. rewrite IH. lia.
Qed.

(** Each turn of [read_lengths] moves on in the list of lengths. *)
Lemma read_lengths_reads n tab codes : forall i prev cl,
  codes - i <= Z.of_nat n -> reads (read_lengths n tab codes i prev cl).
Proof.
  induction n as [|n IH]; intros i prev cl Hn d k Hk; cbn [read_lengths];
    destruct (i <? codes) eqn:E; bool_hyps; try apply quiet_ret; auto; [lia|].
  assert (Hrep : forall len off w d1, 0 <= len <= 30 -> 0 < off -> bits_left d1 k -> same_buffer d d1 ->
    holds (r <- getBits len ;;
       let '(cl, i) := repeat_length (Z.to_nat (r + off)) cl i w in
       read_lengths n tab codes i w cl) d1 (fun _ d' => same_buffer d d' /\ bits_left d' k)).
  { intros len off w d1 Hlen Hoff Hk1 Hs1. apply holds_bind.
    eapply holds_mono; [by apply (getBits_holds d1 k)|]. intros r d2 (Hr & Hs2 & Hk2).
    pose proof (repeat_length_index (Z.to_nat (r + off)) cl i w) as Hi.
    destruct (repeat_length _ _ _ _) as [cl' i']. cbn [snd] in Hi.
    eapply holds_mono; [apply (IH i' w cl' ltac:(lia) d2 k); eapply bits_left_weaken; [done|lia]|].
    intros _ d3 [Hs3 Hk3]. split; [|done]. eapply same_buffer_trans; [exact Hs1|].
    by eapply same_buffer_trans. }
  apply holds_bind. eapply holds_mono; [by apply (getCode_holds d k)|].
  intros code d1 (Hc & Hs1 & Hk1). apply (bits_left_weaken _ _ k) in Hk1; [|lia].
  destruct (code =? 16); [by apply Hrep|]. destruct (code =? 17); [by apply Hrep|].
  destruct (code =? 18); [by apply Hrep|].
  eapply holds_mono; [by apply (IH (i + 1) code _ ltac:(lia) d1 k)|].
  intros _ d2 [Hs2 Hk2]. split; [by eapply same_buffer_trans|done].
Qed.

Lemma dynamic_tables_reads : reads dynamic_tables.
Proof.
  unfold dynamic_tables.
  repeat (cbv zeta; apply quiet_bind;
    [first [ by apply reads_getBits | apply read_code_lengths_reads
           | apply read_lengths_reads; lia ]|intros ?]).
  apply quiet_ret.
Qed.

(** ** The loop over the codes *)

Lemma copy_back_total n : forall p dist b,
  Forall is_byte b ->
  len (copy_back n p dist b) = len b /\ Forall is_byte (copy_back n p dist b).
Proof.
  induction n as [|n IH]; intros p dist b Hb; cbn [copy_back]; [done|].
  destruct (IH (p + 1) dist (arr_set b p (jn_u8 (arr_get b (p - dist))))) as [Hl Hby].
  - apply Forall_arr_set; [done|apply is_byte_jn_u8].
  - by rewrite len_arr_set in Hl.
Qed.

Lemma decode_entry t i e :
  forallb (fun e => (0 <=? e) && (e <? 30 * 65536)) t = true -> arr_get t i = Some e ->
  0 <= e < 30 * 65536.
Proof.
  intros Ht He. unfold arr_get in He. destruct (i <? 0); [done|].
  rewrite forallb_forall in Ht. apply list_elem_of_lookup_2 in He.
  specialize (Ht e (proj1 (list_elem_of_In _ _) He)). bool_hyps. lia.
Qed.

Lemma codes_loop_total lt dt n : forall p d k,
  buf_ok (set_bufferLength p d) -> bits_left d k -> k < Z.of_nat n ->
  holds (codes_loop n lt dt (len (buffer d)) p) d
    (fun _ d' => buf_ok d' /\ bits_left d' k).
Proof.
  induction n as [|n IH]; intros p d k Hok Hk Hn.
  { pose proof (bits_left_nonneg d k Hk). lia. }
  cbn [codes_loop]. apply holds_bind. eapply holds_mono; [by apply (getCode_holds d k)|].
  intros code d1 (Hc & (Hb1 & Hl1 & He1 & Hm1 & Hp1) & Hk1). rewrite <- Hb1.
  assert (Hok1 : buf_ok (set_bufferLength p d1)) by (eapply buf_ok_same; [..|exact Hok]; done).
  (* room, a write that keeps the length of the buffer, and on *)
  assert (Hgo : forall q d2 f, 0 <= p <= q -> bits_left d2 (k - 1) -> buffer d2 = buffer d1 ->
    buf_ok (set_bufferLength p d2) ->
    (forall b, Forall is_byte b -> len (f b) = len b /\ Forall is_byte (f b)) ->
    holds (limit <- room_for q (len (buffer d2)) ;;
      modify (fun s => set_buffer (f (buffer s)) s) ;;; codes_loop n lt dt limit q) d2
      (fun _ d' => buf_ok d' /\ bits_left d' k)).
  { intros q d2 f Hq Hk2 Hb2 Hok2 Hf.
    destruct (so_far_room d2 p _ q {| sf_ok := Hok2; sf_out := eq_refl |})
      as (d3 & Hrun & Hroom & [Hok3 _] & _ & _ & Hst & Hx).
    unfold holds at 1. rewrite (mbind_ok _ _ _ _ _ Hrun). unfold mbind, modify. cbv beta iota.
    destruct Hok3 as [Hl3 Hby3 Hm3]. cbn [buffer bufferLength minBufferLength set_bufferLength] in *.
    destruct (Hf (buffer d3) Hby3) as [Hlen Hby].
    rewrite <- Hlen. change (f (buffer d3)) with (buffer (set_buffer (f (buffer d3)) d3)) at 1.
    eapply holds_mono; [apply (IH q _ (k - 1))|].
    - split; cbn [buffer bufferLength minBufferLength set_bufferLength set_buffer]; auto; lia.
    - destruct Hk2 as (r & ? & ? & ?). exists r. cbn [stream ext set_buffer]. by rewrite Hst, Hx.
    - lia.
    - intros _ d' [? ?]. split; [done|]. eapply bits_left_weaken; [done|lia]. }
  pose proof Hok1 as [Hlp _ _]. cbn [bufferLength buffer set_bufferLength] in Hlp.
  destruct (code <? 256) eqn:E1; bool_hyps.
  - apply (Hgo (p + 1) d1 (fun b => arr_set b p (jn_u8 (Some code)))); auto; [lia|].
    intros b Hb. split; [apply len_arr_set|apply Forall_arr_set; [done|apply is_byte_jn_u8]].
  - destruct (code =? 256) eqn:E2; bool_hyps.
    + unfold holds, modify. split; [done|]. apply (bits_left_weaken _ _ k) in Hk1; [|lia]. exact Hk1.
    + apply holds_bind. eapply holds_mono; [apply (with_extra_holds d1 (k - 1)); [done|]|].
      { intros e. apply decode_entry. vm_compute. reflexivity. }
      intros length d2 (Hlen & Hs2 & Hk2). apply holds_bind.
      eapply holds_mono; [by apply (getCode_holds d2 (k - 1))|]. intros code2 d3 (_ & Hs3 & Hk3).
      apply (bits_left_weaken _ _ (k - 1)) in Hk3; [|lia]. apply holds_bind.
      eapply holds_mono; [apply (with_extra_holds d3 (k - 1)); [done|]|].
      { intros e. apply decode_entry. vm_compute. reflexivity. }
      intros dist d4 (Hdist & Hs4 & Hk4).
      destruct (same_buffer_trans _ _ _ (same_buffer_trans _ _ _ Hs2 Hs3) Hs4)
        as (Hb & Hl & _ & Hm & _).
      rewrite <- Hb. apply (Hgo (p + length) d4 (copy_back (Z.to_nat length) p dist)); auto; [lia| |].
      * eapply buf_ok_same; [..|exact Hok1]; done.
      * intros b Hby. by apply copy_back_total.
Qed.

(** ** Blocks *)

(** The next byte of a stream, or its end. *)
Lemma getByte_total d k :
  bits_left d k ->
  exists v d', on_stream getByte d = (Ok v, d') /\ bits_left d' k /\ same_buffer d d' /\
    ext d' = ext d /\ exists z, v = Some z /\ -1 <= z < 256.
Proof.
  intros (r & Hr & Hs & Hk). unfold on_stream, zoom. destruct r as [|b r].
  - destruct (rest_nil _ Hr) as (s' & Hg & Hr'). rewrite Hg. exists (Some (-1)), (set_stream s' d).
    split_and!; try done; [|exists (-1); split; [done|lia]]. by exists [].
  - destruct (rest_cons _ _ _ Hr) as (s' & Hg & Hr' & _). rewrite Hg.
    pose proof (rest_bytes _ _ Hr) as Hby. apply Forall_cons in Hby as [Hb _]. unfold is_byte in Hb.
    exists (Some b), (set_stream s' d). split_and!; try done; [|exists b; split; [done|lia]].
    exists r. rewrite len_cons in Hk. cbn [stream ext set_stream]. split_and!; auto. lia.
Qed.

Lemma byte_then {A} d k (f : jsnum -> M _ A) (Q : A -> DS S FlateFields -> Prop) :
  bits_left d k ->
  (forall z d', -1 <= z < 256 -> bits_left d' k -> same_buffer d d' -> holds (f (Some z)) d' Q) ->
  holds (b <- on_stream getByte ;; f b) d Q.
Proof.
  intros Hk Hf. destruct (getByte_total d k Hk) as (v & d' & Hg & Hk' & Hs & _ & z & -> & Hz).
  unfold holds. rewrite (mbind_ok _ _ _ _ _ Hg). by apply Hf.
Qed.

Lemma word_bound a b :
  -1 <= a < 256 -> -1 <= b < 256 -> (a =? -1) = false -> (b =? -1) = false ->
  0 <= a .| (b .<< 8) < 65536.
Proof.
  intros Ha Hb Ha' Hb'. bool_hyps.
  rewrite js_or_shifted by (change (2 ^ 8) with 256; lia). change (2 ^ 8) with 256. lia.
Qed.

Lemma buf_ok_same_buffer d d' : same_buffer d d' -> buf_ok d -> buf_ok d'.
Proof. intros (? & ? & _ & ? & _). by apply buf_ok_same. Qed.

Lemma stored_block_total d k :
  buf_ok d -> bits_left d k ->
  holds stored_block d (fun _ d' => buf_ok d' /\ bits_left d' k).
Proof.
  intros Hok Hk. unfold stored_block.
  assert (Hend : forall d1, bits_left d1 k -> same_buffer d d1 ->
    holds endsStreamOnError d1 (fun _ d' => buf_ok d' /\ bits_left d' k)).
  { intros d1 Hk1 Hs1. split; [apply (buf_ok_same_buffer _ _ Hs1) in Hok; by apply (buf_ok_same d1)|].
    exact Hk1. }
  apply (byte_then d k); [done|]. intros a d1 Ha Hk1 Hs1. cbn [jn_is].
  destruct (a =? -1) eqn:Ea; [by apply Hend|].
  apply (byte_then d1 k); [done|]. intros b d2 Hb Hk2 Hs2. cbn [jn_is].
  pose proof (same_buffer_trans _ _ _ Hs1 Hs2) as Hs02.
  destruct (b =? -1) eqn:Eb; [by apply Hend|]. cbn [jn_int default from_option id].
  pose proof (word_bound a b Ha Hb Ea Eb) as Hlen. set (n := a .| (b .<< 8)) in *. clearbody n.
  apply (byte_then d2 k); [done|]. intros c d3 Hc Hk3 Hs3. cbn [jn_is].
  pose proof (same_buffer_trans _ _ _ Hs02 Hs3) as Hs03.
  destruct (c =? -1) eqn:Ec; [by apply Hend|].
  apply (byte_then d3 k); [done|]. intros e d4 He Hk4 Hs4. cbn [jn_is].
  pose proof (same_buffer_trans _ _ _ Hs03 Hs4) as Hs04.
  destruct (e =? -1) eqn:Ee; [by apply Hend|].
  destruct (_ && _); [done|].
  destruct Hk4 as (r & Hr & Hsz & Hkr). pose proof (len_nonneg r).
  unfold holds, mbind at 1, modify at 1. cbv beta iota. set (d5 := set_ext (mkFlate 0 0) d4).
  assert (Hok5 : buf_ok d5) by (apply (buf_ok_same_buffer _ _ Hs04) in Hok; by apply (buf_ok_same d4)).
  unfold mbind at 1, gets at 1. cbv beta iota.
  destruct (ensureBuffer_ok d5 (bufferLength d5 + n) Hok5) as (d6 & Hrun & Hens).
  rewrite (mbind_ok _ _ _ _ _ Hrun).
  destruct Hens as [[_ Hroom] _ [Hl6 Hby6 Hm6] (Hbl & _ & _ & _ & Hst & Hx)].
  destruct Hok5 as [Hl5 _ _].
  unfold mbind at 1, modify at 1. cbv beta iota. set (d7 := set_bufferLength (bufferLength d5 + n) d6).
  assert (Hok7 : buf_ok d7) by (split; cbn [buffer bufferLength minBufferLength set_bufferLength d7]; auto; lia).
  assert (Hr7 : rest (stream d7) r) by (change (stream d7) with (stream d6); by rewrite Hst).
  assert (Hx7 : ext d7 = mkFlate 0 0) by exact Hx.
  destruct (n =? 0) eqn:En; bool_hyps.
  - unfold mbind at 1, on_stream, zoom, peekByte, mbind at 1. destruct r as [|x r].
    + destruct (rest_nil _ Hr7) as (s' & -> & Hr'). m_red. cbn [jn_is]. rewrite Z.eqb_refl.
      split; [by apply (buf_ok_same d7)|].
      exists []. cbn [stream ext set_stream set_eof]. rewrite Hx7. split_and!; auto; cbn [codeSize]; lia.
    + destruct (rest_cons _ _ _ Hr7) as (s' & -> & _ & Hr').
      pose proof (rest_bytes _ _ Hr7) as Hby. apply Forall_cons in Hby as [Hxb _]. unfold is_byte in Hxb.
      cbn [jn_is]. replace (x =? -1) with false by lia. m_red. cbn [jn_is].
      replace (x =? -1) with false by lia. split; [by apply (buf_ok_same d7)|].
      exists (x :: r). cbn [stream ext set_stream]. rewrite Hx7. split_and!; auto; cbn [codeSize]; lia.
  - destruct (rest_getBytes (stream d7) r n Hr7) as (s' & Hg & Hr' & _); [lia|].
    rewrite (proj2 (Z.eqb_neq n 0)) in Hg, Hr' by lia.
    set (chunk := take (Z.to_nat n) r) in *.
    assert (Hlc : len chunk <= n) by (unfold chunk; len_lia). pose proof (len_nonneg chunk).
    unfold mbind at 1, on_stream, zoom. rewrite Hg. m_red.
    cbn [buffer set_stream set_bufferLength d7].
    rewrite (proj2 (Z.leb_le 0 _)), (proj2 (Z.leb_le (_ + len chunk) _)) by lia. cbn [andb].
    assert (Hby : Forall is_byte chunk) by (apply Forall_take; exact (rest_bytes _ _ Hr7)).
    set (bf := blit _ _ _). assert (Hlb : len bf = len (buffer d6)) by (unfold bf; rewrite len_blit; lia).
    assert (Hbb : Forall is_byte bf) by (by apply blit_bytes).
    assert (Hout : forall f, let d8 := set_buffer bf (set_stream s' d7) in
      f = d8 \/ f = set_eof true d8 -> buf_ok f /\ bits_left f k).
    { intros f d8 Hf. split.
      - destruct Hok7 as [? ? ?]. destruct Hf as [->| ->];
          split; cbn [buffer bufferLength minBufferLength set_bufferLength set_buffer set_stream set_eof d8 d7] in *;
          auto; lia.
      - exists (drop (Z.to_nat n) r). pose proof (len_drop r (Z.to_nat n)).
        destruct Hf as [->| ->]; cbn [stream ext set_buffer set_stream set_eof d8];
          rewrite Hx7; cbn [codeSize]; split_and!; auto; lia. }
    destruct (len chunk <? n); apply Hout; auto.
Qed.

Lemma readBlock_total d k codes :
  buf_ok d -> bits_left d k -> k < Z.of_nat codes ->
  holds (flate_readBlock codes) d
    (fun _ d' => buf_ok d' /\ (eof d' = true \/ bits_left d' (k - 3))).
Proof.
  intros Hok Hk Hc. unfold flate_readBlock.
  pose proof (getBits_total d k 3 Hk ltac:(lia)) as Hg.
  unfold holds, mbind at 1, try_catch, mbind at 1.
  destruct (getBits 3 d) as [[v|e|] d1]; [| |done].
  2: { destruct Hg as (-> & Hs & Hk1). m_red. split; [|by left].
    apply (buf_ok_same_buffer _ _ Hs) in Hok. by apply (buf_ok_same d1). }
  destruct Hg as (Hv & Hs & Hk1). unfold mret at 1. cbv beta iota.
  apply (buf_ok_same_buffer _ _ Hs) in Hok.
  assert (Hhdr : forall d2, buf_ok d2 -> bits_left d2 (k - 3) ->
    holds (let hdr := v .>> 1 in
      if hdr =? 0 then stored_block
      else if hdr =? 1 then coded_block codes (fixedLitCodeTab, fixedDistCodeTab)
      else if hdr =? 2 then tabs <- dynamic_tables ;; coded_block codes tabs
      else throw (FormatError "Unknown block type in flate stream")) d2
      (fun _ d' => buf_ok d' /\ (eof d' = true \/ bits_left d' (k - 3)))).
  { intros d2 Hok2 Hk2. cbv zeta.
    assert (Hcoded : forall tabs d3, buf_ok d3 -> bits_left d3 (k - 3) ->
      holds (coded_block codes tabs) d3 (fun _ d' => buf_ok d' /\ (eof d' = true \/ bits_left d' (k - 3)))).
    { intros [lt dt] d3 Hok3 Hk3. unfold coded_block, holds, mbind, gets. cbv beta iota.
      eapply holds_mono; [apply (codes_loop_total lt dt codes (bufferLength d3) d3 (k - 3));
        [by destruct d3|done|lia]|]. intros _ d' [? ?]. auto. }
    destruct (_ =? 0).
    { eapply holds_mono; [by apply (stored_block_total d2 (k - 3))|]. intros _ d' [? ?]. auto. }
    destruct (_ =? 1); [by apply Hcoded|]. destruct (_ =? 2); [|done].
    apply holds_bind. eapply holds_mono; [by apply dynamic_tables_reads|].
    intros tabs d3 [Hs3 Hk3]. apply Hcoded; [|done]. by apply (buf_ok_same_buffer _ _ Hs3). }
  destruct (v .& 1 =? 0); unfold mbind at 1, mret, modify.
  - by apply Hhdr.
  - apply (Hhdr (set_eof true d1)); [by apply (buf_ok_same d1)|exact Hk1].
Qed.
End Total.

(** Opening a stream. *)
Lemma open_total {S} `{SourceSpec S} (s : S) r hint :
  rest s r ->
  (exists msg, fst (new_FlateStream hint s) = Throw (FormatError msg)) \/
  exists s' r', new_FlateStream hint s = (Ok (new_DecodeStream hint s' (mkFlate 0 0)), s') /\
    rest s' r' /\ len r' <= len r.
Proof.
  intros Hr. assert (Hbyte : forall s r, rest s r -> exists v s' r',
    getByte s = (Ok v, s') /\ rest s' r' /\ len r' <= len r).
  { intros s1 r1 Hr1. destruct r1 as [|b r1].
    - destruct (rest_nil _ Hr1) as (s' & Hg & Hr'). exists (Some (-1)), s', []. split_and!; auto; lia.
    - destruct (rest_cons _ _ _ Hr1) as (s' & Hg & Hr' & _). exists (Some b), s', r1.
      rewrite len_cons. split_and!; auto; lia. }
  destruct (Hbyte s r Hr) as (cmf & s1 & r1 & Hg1 & Hr1 & Hl1).
  destruct (Hbyte s1 r1 Hr1) as (flg & s2 & r2 & Hg2 & Hr2 & Hl2).
  unfold new_FlateStream. rewrite (mbind_ok _ _ _ _ _ Hg1), (mbind_ok _ _ _ _ _ Hg2).
  unfold mbind at 1 2, flate_header.
  destruct (_ || _); [left; eexists; reflexivity|].
  destruct (negb (_ =? 0x08)); [left; eexists; reflexivity|].
  destruct (negb (match _ with Some _ => _ | None => _ end)); [left; eexists; reflexivity|].
  destruct (negb _); [left; eexists; reflexivity|].
  right. exists s2, r2. split_and!; [reflexivity|done|lia].
Qed.

Lemma read_while_total {S} `{SourceSpec S} codes more n : forall d k,
  buf_ok d -> eof d = true \/ bits_left d k -> k < Z.of_nat codes -> k < Z.of_nat n ->
  holds (read_while (H := flate_decoder codes) n more) d (fun _ d' => buf_ok d').
Proof.
  induction n as [|n IH]; intros d k Hok Hk Hc Hn; cbn [read_while];
    destruct (negb (eof d) && more d) eqn:E; unfold holds; try rewrite E; auto.
  - bool_hyps. destruct Hk as [|Hk]; [congruence|]. apply bits_left_nonneg in Hk. lia.
  - bool_hyps. destruct Hk as [|Hk]; [congruence|]. apply holds_bind.
    eapply holds_mono; [by apply (readBlock_total d k codes)|].
    intros _ d' [Hok' Hk']. apply (IH d' (k - 3)); auto; lia.
Qed.

(** C30. Whatever the source holds, opening a [FlateStream] on it and reading it
    to the end comes to an end, with as many codes and blocks as the source has
    bits: it gives bytes, or throws a [FormatError] and nothing else. *)
Theorem flate_answers {S} `{SourceSpec S} (fuel codes : nat) (s : S) r hint
  (Hrest : rest s r) (Hfuel : 8 * len r < Z.of_nat fuel) (Hcodes : 8 * len r < Z.of_nat codes) :
  match fst (new_FlateStream hint s) with
  | Ok d =>
      match fst (getBytes (ByteSource := DS_source (H := flate_decoder codes) fuel) 0 d) with
      | Ok out => Forall is_byte out
      | Throw (FormatError _) => True
      | _ => False
      end
  | Throw (FormatError _) => True
  | _ => False
  end.
Proof.
  destruct (open_total s r hint Hrest) as [(msg & ->)|(s2 & r2 & -> & Hr2 & Hlen)]; [done|].
  cbn [fst]. set (d := new_DecodeStream _ _ _).
  assert (Hok : buf_ok d) by apply new_DecodeStream_ok.
  assert (Hread : holds (read_while (H := flate_decoder codes) fuel (fun _ => true)) d
    (fun _ d' => buf_ok d')).
  { apply (read_while_total codes _ fuel d (8 * len r)); auto.
    right. exists r2. split_and!; [done|cbn; lia|cbn; lia]. }
  unfold getBytes, DS_source, ds_getBytes.
  unfold mbind at 1, gets at 1. cbv beta iota. change (0 =? 0) with true. cbv iota.
  unfold mbind at 1 2, gets at 1. unfold holds in Hread.
  destruct (read_while fuel (fun _ => true) d) as [[[]|[]|] d']; cbv beta iota; try done.
  cbn. apply Forall_subarray, Hread.
Qed.

Lemma flate_answers_witness :
  8 * len [120; 156; 3; 255] < Z.of_nat 33 /\
  match fst (new_FlateStream None (new_Stream [120; 156; 3; 255] None None)) with
  | Ok d =>
      match fst (getBytes (ByteSource := DS_source (H := flate_decoder 33) 33) 0 d) with
      | Ok out => Forall is_byte out
      | Throw (FormatError _) => True
      | _ => False
      end
  | Throw (FormatError _) => True
  | _ => False
  end.
Proof.
  split; [reflexivity|].
  apply (flate_answers 33 33 (new_Stream [120; 156; 3; 255] None None) [120; 156; 3; 255] None);
    [|reflexivity..].
  apply (new_Stream_rest [120; 156; 3; 255]). repeat constructor; unfold is_byte; lia.
Defined.
