(* ===== verification/Lzw.v ===== *)
(** * LZW decoding

    [LZWStream] of pdf.worker.mjs.  The dictionary is four arrays: the last
    byte, the length and the code of the rest of each sequence, and the
    sequence decoded last; the proof relates them to the sequences themselves.
    [Math.log(n) / Math.LN2 + 1] is only computed of powers of two, where the
    division is exact and [| 0] leaves [log2 n + 1]. *)
From S2P Require Import Prelude JsBits ByteStream DecodeStream Bits.
Local Open Scope js_scope.

(** [this.lzwState] *)
Record LzwState := mkLzw {
  earlyChange : Z;
  codeLength : Z;
  nextCode : Z;
  prevCode : jsnum;
  dictionaryValues : list Z;
  dictionaryLengths : list Z;
  dictionaryPrevCodes : list Z;
  currentSequence : list Z;
  currentSequenceLength : Z
}.

(** The fields of the stream; [lzwState] is deleted at the end of the data. *)
Record LzwFields := mkLzwFields {
  cachedData : Z;
  bitsCached : Z;
  lzwState : option LzwState
}.

Definition maxLzwDictionarySize : Z := 4096.

(** The constructor: the first 256 sequences are the bytes. *)
Definition initial_lzw (earlyChange : Z) : LzwState :=
  let bytes := map Z.of_nat (seq 0 256) in
  mkLzw earlyChange 9 258 None
    (blit (zeros maxLzwDictionarySize) bytes 0)
    (blit (zeros maxLzwDictionarySize) (replicate 256 1) 0)
    (zeros maxLzwDictionarySize) (zeros maxLzwDictionarySize) 0.

(** The local variables of [readBlock]; the arrays stay those of the state. *)
Record Locals := mkLocals {
  l_state : LzwState;
  decodedLength : Z;
  estimatedDecodedSize : Z;
  currentBufferLength : Z
}.

(** [for (j = n - 1, q = code; j >= 0; j--) { ... }] *)
Fixpoint unwind (n : nat) (values prevCodes seq : list Z) (q : jsnum) : list Z :=
  match n with
  | O => seq
  | Datatypes.S j =>
      let at_q (t : list Z) : jsnum := i ← q; arr_get t i in
      unwind j values prevCodes (arr_set seq (Z.of_nat j) (jn_u8 (at_q values))) (at_q prevCodes)
  end.

(** The next code length, when the dictionary grows. *)
Definition next_length (codeLength nextCode earlyChange : Z) : Z :=
  if negb ((nextCode + earlyChange) .& (nextCode + earlyChange - 1) =? 0) then codeLength
  else Z.min (Z.log2 (nextCode + earlyChange) + 1) 12.

(** [if (hasPrev) { ... }] *)
Definition grow (st : LzwState) : LzwState :=
  let n := nextCode st in
  let len1 := jn_add (p ← prevCode st; arr_get (dictionaryLengths st) p) (Some 1) in
  mkLzw (earlyChange st) (next_length (codeLength st) (n + 1) (earlyChange st)) (n + 1) (prevCode st)
    (arr_set (dictionaryValues st) n (jn_u8 (arr_get (currentSequence st) 0)))
    (arr_set (dictionaryLengths st) n (to_u16 (default 0 len1)))
    (arr_set (dictionaryPrevCodes st) n (to_u16 (default 0 (prevCode st))))
    (currentSequence st) (currentSequenceLength st).

Definition set_sequence (seq : list Z) (n : Z) (st : LzwState) : LzwState :=
  mkLzw (earlyChange st) (codeLength st) (nextCode st) (prevCode st) (dictionaryValues st)
    (dictionaryLengths st) (dictionaryPrevCodes st) seq n.

Definition set_prevCode (c : jsnum) (st : LzwState) : LzwState :=
  mkLzw (earlyChange st) (codeLength st) (nextCode st) c (dictionaryValues st)
    (dictionaryLengths st) (dictionaryPrevCodes st) (currentSequence st) (currentSequenceLength st).

(** [code === 256] *)
Definition clear_codes (st : LzwState) : LzwState :=
  mkLzw (earlyChange st) 9 258 (prevCode st) (dictionaryValues st)
    (dictionaryLengths st) (dictionaryPrevCodes st) (currentSequence st) 0.

(** The sequence of a code other than 256 and 257; [None] is [null], which
    [code < 256] takes for 0. *)
Definition sequence_of (code : option Z) (st : LzwState) : LzwState :=
  match code with
  | None => set_sequence (arr_set (currentSequence st) 0 0) 1 st
  | Some code =>
      if code <? 256 then set_sequence (arr_set (currentSequence st) 0 (to_u8 code)) 1 st
      else if code <? nextCode st then
        let n := jn_int (arr_get (dictionaryLengths st) code) in
        set_sequence (unwind (Z.to_nat n) (dictionaryValues st) (dictionaryPrevCodes st)
          (currentSequence st) (Some code)) n st
      else
        set_sequence (arr_set (currentSequence st) (currentSequenceLength st)
          (jn_u8 (arr_get (currentSequence st) 0))) (currentSequenceLength st + 1) st
  end.

(** [do { estimated += 512 } while (estimated < decoded)]; a turn adds 512. *)
Fixpoint estimate (n : nat) (estimated decoded : Z) : Z :=
  match n with
  | O => estimated
  | Datatypes.S n' =>
      let estimated := estimated + 512 in
      if estimated <? decoded then estimate n' estimated decoded else estimated
  end.

Section LZWStream.
Context {S : Type} `{ByteSource S}.
Abbreviation st := (DS S LzwFields).

Definition new_LZWStream (str : S) (maybeLength : jsnum) (earlyChange : Z) : st :=
  new_DecodeStream maybeLength str (mkLzwFields 0 0 (Some (initial_lzw earlyChange))).

Definition set_lzwState (s : option LzwState) (x : LzwFields) : LzwFields :=
  mkLzwFields (cachedData x) (bitsCached x) s.

(** [while (bitsCached < n)]; [None] at the end of the source. *)
Fixpoint cache_bits (fuel : nat) (n cached data : Z) : M st (option (Z * Z)) :=
  if cached <? n then
    match fuel with
    | O => out_of_fuel
    | Datatypes.S fuel' =>
        c <- on_stream getByte ;;
        if jn_is c (-1) then modify (set_eof true) ;;; mret None
        else cache_bits fuel' n (cached + 8) ((data .<< 8) .| jn_int c)
    end
  else mret (Some (cached, data)).

(** [None] is [null]; a turn adds 8 bits, so [n] turns are enough. *)
Definition readBits (n : Z) : M st (option Z) :=
  x <- gets ext ;;
  r <- cache_bits (Z.to_nat n) n (bitsCached x) (cachedData x) ;;
  match r with
  | None => mret None
  | Some (cached, data) =>
      let cached := cached - n in
      modify (fun d => set_ext (mkLzwFields data cached (lzwState (ext d))) d) ;;;
      mret (Some ((data .>>> cached) .& (1 .<< n) - 1))
  end.

(** [for (j = 0; j < currentSequenceLength; j++)
    buffer[currentBufferLength++] = currentSequence[j]] *)
Fixpoint put_sequence (n : nat) (seq : list Z) (j i : Z) (b : list Z) : list Z :=
  match n with
  | O => b
  | Datatypes.S n' => put_sequence n' seq (j + 1) (i + 1) (arr_set b i (jn_u8 (arr_get seq j)))
  end.

(** A code other than 256 and 257, from [code < 256] to the end of the turn. *)
Definition lzw_code (code : option Z) (l : Locals) : M st Locals :=
  let s := l_state l in
  let hasPrev := 0 <? currentSequenceLength s in
  let s := sequence_of code s in
  let s := if hasPrev then grow s else s in
  let s := set_prevCode code s in
  let n := currentSequenceLength s in
  let decoded := decodedLength l + n in
  e <- (if estimatedDecodedSize l <? decoded then
          let e := estimate (Z.to_nat decoded) (estimatedDecodedSize l) decoded in
          bufferLength <- gets bufferLength ;;
          ensureBuffer (bufferLength + e) ;;; mret e
        else mret (estimatedDecodedSize l)) ;;
  modify (fun d => set_buffer (put_sequence (Z.to_nat n) (currentSequence s) 0
    (currentBufferLength l) (buffer d)) d) ;;;
  mret (mkLocals s decoded e (currentBufferLength l + n)).

(** [for (i = 0; i < blockSize; i++)], [turns] left. *)
Fixpoint lzw_loop (turns : nat) (l : Locals) : M st Locals :=
  match turns with
  | O => mret l
  | Datatypes.S turns' =>
      code <- readBits (codeLength (l_state l)) ;;
      if jn_is code 256 then
        lzw_loop turns' (mkLocals (clear_codes (l_state l)) (decodedLength l)
          (estimatedDecodedSize l) (currentBufferLength l))
      else if jn_is code 257 then
        modify (set_eof true) ;;;
        modify (fun d => set_ext (set_lzwState None (ext d)) d) ;;;
        mret l
      else l <- lzw_code code l ;; lzw_loop turns' l
  end.

(** The state is an object: it stays deleted when the loop deletes it. *)
Definition lzw_readBlock : M st unit :=
  x <- gets ext ;;
  match lzwState x with
  | None => throw (TypeError "Cannot read properties of undefined")
  | Some s =>
      bufferLength <- gets bufferLength ;;
      ensureBuffer (bufferLength + 1024) ;;;
      l <- lzw_loop 512 (mkLocals s 0 1024 bufferLength) ;;
      modify (fun d => set_ext (set_lzwState
        (match lzwState (ext d) with None => None | Some _ => Some (l_state l) end) (ext d)) d) ;;;
      modify (set_bufferLength (currentBufferLength l))
  end.

#[export] Instance lzw_decoder : Decoder S LzwFields := { readBlock := lzw_readBlock }.
End LZWStream.

Example lzw_sample :
  fst (getBytes (ByteSource := DS_source (H := lzw_decoder) 10) 0
    (new_LZWStream (new_Stream [0x80; 0x0B; 0x60; 0x50; 0x22; 0x0C; 0x0C; 0x85; 0x01] None None) None 1))
  = Ok [45; 45; 45; 45; 45; 65; 45; 45; 45; 66].
Proof. vm_compute. reflexivity. Qed.
