(* ===== verification/LzwSpec.v ===== *)
(** * LZW decoding: the dictionary and the contract

    The code as sequences: a dictionary is the list of the sequences of the
    codes from 258 on, a code stands for one of them, and its width follows
    from their number.  [LZWStream] is proved to decode every text of codes up
    to the end-of-data code 257. *)
From S2P Require Import Prelude JsBits ByteStream DecodeStream Bits Lzw.
Local Open Scope js_scope.

(** ** The format *)

(** The sequences of the codes from 258 on, and the last one decoded. *)
Record dictionary := mkDictionary {
  lz_entries : list (list Z);
  lz_last : option (list Z)
}.

Definition lz_empty : dictionary := mkDictionary [] None.

(** A byte, an entry, or the entry about to be made. *)
Definition lz_sequence (r : dictionary) (c : Z) : option (list Z) :=
  if (c <? 0) || (4096 <=? c) then None
  else if c <? 256 then Some [c]
  else if c <? 258 then None
  else if c <? 258 + len (lz_entries r) then arr_get (lz_entries r) (c - 258)
  else if c =? 258 + len (lz_entries r) then p ← lz_last r; Some (p ++ take 1 p)
  else None.

Definition lz_step (r : dictionary) (c : Z) : option (dictionary * list Z) :=
  if c =? 256 then Some (lz_empty, [])
  else
    s ← lz_sequence r c;
    let entries := match lz_last r with
                   | Some p => lz_entries r ++ [p ++ take 1 s]
                   | None => lz_entries r
                   end in
    Some (mkDictionary entries (Some s), s).

(** What the codes stand for. *)
Fixpoint lz_decode (r : dictionary) (codes : list Z) : option (list Z) :=
  match codes with
  | [] => Some []
  | c :: codes' =>
      match lz_step r c with
      | Some (r', s) => out ← lz_decode r' codes'; Some (s ++ out)
      | None => None
      end
  end.

(** The width of the next code; with an early change it grows one code
    sooner. *)
Definition code_width (early : Z) (r : dictionary) : Z :=
  let n := 258 + len (lz_entries r) + early in
  if n <? 512 then 9 else if n <? 1024 then 10 else if n <? 2048 then 11 else 12.

(** The bits of a number, most significant first. *)
Definition msb_bits (n z : Z) : list bool := rev (bits (Z.to_nat n) z).

Definition lz_bits (early : Z) : dictionary -> list Z -> list bool :=
  fix go r codes :=
    match codes with
    | [] => msb_bits (code_width early r) 257
    | c :: codes' =>
        msb_bits (code_width early r) c ++
        match lz_step r c with Some (r', _) => go r' codes' | None => [] end
    end.

Definition msb_stream (bytes : list Z) : list bool := flat_map (msb_bits 8) bytes.

Example lz_sample :
  lz_decode lz_empty [256; 45; 258; 258; 65; 259; 66] = Some [45; 45; 45; 45; 45; 65; 45; 45; 45; 66] /\
  lz_bits 1 lz_empty [256; 45; 258; 258; 65; 259; 66] =
    msb_stream [0x80; 0x0B; 0x60; 0x50; 0x22; 0x0C; 0x0C; 0x85; 0x01].
Proof. vm_compute. split; reflexivity. Qed.

#[local] Opaque bits Z.pow.

(** ** Reading codes *)

Lemma length_msb n z : 0 <= n -> len (msb_bits n z) = n.
Proof. intros. unfold msb_bits, len. rewrite length_rev, length_bits. lia. Qed.

Lemma msb_mod n z z' : 0 <= n -> z mod 2 ^ n = z' mod 2 ^ n -> msb_bits n z = msb_bits n z'.
Proof.
  intros Hn Hz. unfold msb_bits. f_equal.
  apply (bits_inj (Z.to_nat n)); rewrite ?length_bits; auto.
  rewrite !num_of_bits, Z2Nat.id by lia. exact Hz.
Qed.

Lemma msb_split n k z : 0 <= n -> 0 <= k -> msb_bits (n + k) z = msb_bits n (z / 2 ^ k) ++ msb_bits k z.
Proof.
  intros Hn Hk. unfold msb_bits. replace (Z.to_nat (n + k)) with (Z.to_nat k + Z.to_nat n)%nat by lia.
  rewrite bits_app, rev_app_distr. by rewrite Z2Nat.id by lia.
Qed.

Lemma msb_inj n z z' : 0 <= n -> msb_bits n z = msb_bits n z' -> z mod 2 ^ n = z' mod 2 ^ n.
Proof.
  intros Hn H. unfold msb_bits in H. apply (f_equal (@rev bool)) in H. rewrite !rev_involutive in H.
  apply (f_equal num_of) in H. by rewrite !num_of_bits, Z2Nat.id in H by lia.
Qed.

(** A byte shifted in. *)
Lemma msb_shift_in k data c :
  0 <= k <= 24 -> 0 <= c < 256 ->
  msb_bits (k + 8) ((data .<< 8) .| c) = msb_bits k data ++ msb_bits 8 c.
Proof.
  intros Hk Hc.
  assert (Heq : eq32 ((data .<< 8) .| c) (c + data * 2 ^ 8)).
  { rewrite eq32_or, eq32_shl by lia. rewrite Z.lor_comm, lor_shiftl_add by lia. reflexivity. }
  destruct Heq as [Heq]. unfold to_uint32 in Heq.
  assert (Hmod : ((data .<< 8) .| c) mod 2 ^ (k + 8) = (c + data * 2 ^ 8) mod 2 ^ (k + 8)).
  { rewrite <- (mod_pow2_mod _ (k + 8) 32), Heq by lia. apply mod_pow2_mod. lia. }
  rewrite (msb_mod (k + 8) _ _ ltac:(lia) Hmod), msb_split by lia.
  rewrite Z.div_add, (Z.div_small c), Z.add_0_l by (change (2 ^ 8) with 256; lia).
  f_equal. apply msb_mod; [lia|]. by rewrite Z_mod_plus_full.
Qed.

Section Reader.
Context {S : Type} `{SourceSpec S}.
Implicit Type d : DS S LzwFields.

(** The bits [t] are left to read, less than a byte of them cached. *)
Record ready d (t : list bool) : Prop := {
  rd_cached : 0 <= bitsCached (ext d) < 8;
  rd_bits : exists r, rest (stream d) r /\
    t = msb_bits (bitsCached (ext d)) (cachedData (ext d)) ++ msb_stream r
}.

Lemma cache_bits_ok fuel n : forall cached data d r t,
  rest (stream d) r -> 0 <= cached < n + 8 -> n <= 12 -> n <= cached + 8 * Z.of_nat fuel ->
  n <= len t -> t = msb_bits cached data ++ msb_stream r ->
  exists s' r' cached' data',
    cache_bits fuel n cached data d = (Ok (Some (cached', data')), set_stream s' d) /\
    rest s' r' /\ n <= cached' < n + 8 /\ t = msb_bits cached' data' ++ msb_stream r'.
Proof.
  induction fuel as [|fuel IH]; intros cached data d r t Hr Hc Hn Hf Hl Ht.
  all: cbn [cache_bits]; destruct (cached <? n) eqn:E; bool_hyps; [|
    exists (stream d), r, cached, data; split_and!; auto; try lia; by destruct d].
  - lia.
  - destruct r as [|b r].
    { rewrite Ht, len_app, length_msb in Hl by lia. change (len (msb_stream [])) with 0 in Hl. lia. }
    destruct (rest_cons (stream d) b r Hr) as (s1 & Hg & Hr1 & _).
    pose proof (rest_bytes _ _ Hr) as Hby. apply Forall_cons in Hby as [Hb _]. unfold is_byte in Hb.
    destruct (IH (cached + 8) ((data .<< 8) .| b) (set_stream s1 d) r t)
      as (s' & r' & cached' & data' & Hrun & Hr' & Hc' & Ht'); auto; try lia.
    { rewrite msb_shift_in, <- app_assoc by lia. exact Ht. }
    exists s', r', cached', data'. split_and!; auto; try lia.
    unfold mbind at 1, on_stream, zoom. rewrite Hg. cbn [jn_is jn_int default from_option id].
    rewrite (proj2 (Z.eqb_neq b (-1))) by lia. exact Hrun.
Qed.

Lemma readBits_ok d n c t :
  0 <= n <= 12 -> 0 <= c < 2 ^ n -> ready d (msb_bits n c ++ t) ->
  exists d', readBits n d = (Ok (Some c), d') /\ ready d' t /\ same_buffer d d' /\
    lzwState (ext d') = lzwState (ext d).
Proof.
  intros Hn Hc [Hs (r & Hr & Ht)].
  destruct (cache_bits_ok (Z.to_nat n) n (bitsCached (ext d)) (cachedData (ext d)) d r
    (msb_bits n c ++ t) Hr) as (s' & r' & cached & data & Hrun & Hr' & Hcd & Ht'); auto; try lia.
  { rewrite len_app, length_msb by lia. pose proof (len_nonneg t). lia. }
  replace cached with (n + (cached - n)) in Ht' by lia. rewrite msb_split, <- app_assoc in Ht' by lia.
  apply app_inj_1 in Ht' as [Hv ->].
  2: { pose proof (length_msb n c ltac:(lia)). pose proof (length_msb n (data / 2 ^ (cached - n)) ltac:(lia)).
       unfold len in *. lia. }
  apply msb_inj in Hv; [|lia]. rewrite Z.mod_small in Hv by lia.
  exists (set_ext (mkLzwFields data (cached - n) (lzwState (ext d))) (set_stream s' d)).
  split_and!; try done.
  - unfold readBits, mbind at 1, gets at 1. cbv beta iota. rewrite (mbind_ok _ _ _ _ _ Hrun).
    m_red. cbn [ext set_stream]. do 3 f_equal.
    rewrite js_and_small by lia. unfold js_shr, to_uint32. rewrite (Z.mod_small (cached - n)) by lia.
    rewrite Z.shiftr_div_pow2 by lia. rewrite Hv.
    apply div_pow2_mod_eqm; [lia..|].
    apply mod_pow2_mod. lia.
  - split; cbn [ext set_ext set_stream bitsCached cachedData stream]; [lia|]. by exists r'.
Qed.
End Reader.

(** ** The dictionary in the arrays *)

(** The sequence [s], last byte first, is found from the code [q] by the codes
    of its beginnings, all below [n]. *)
Fixpoint chain (values prevCodes : list Z) (n q : Z) (s : list Z) : Prop :=
  match s with
  | [] => False
  | x :: s' =>
      0 <= q < n /\ arr_get values q = Some x /\
      match s' with
      | [] => True
      | _ => exists q', arr_get prevCodes q = Some q' /\ chain values prevCodes n q' s'
      end
  end.

Lemma chain_more values prevCodes n n' s : forall q,
  n <= n' -> chain values prevCodes n q s -> chain values prevCodes n' q s.
Proof.
  induction s as [|x [|y s] IH]; intros q Hn Hc; [done|..]; cbn [chain] in *.
  - destruct Hc as (? & ? & _). split_and!; auto; lia.
  - destruct Hc as (? & ? & q' & ? & Hc). split; [lia|]. split; [done|]. exists q'. split; [done|].
    by apply IH.
Qed.

(** A write at or after [n] is not seen. *)
Lemma chain_write values prevCodes n s v w i : forall q,
  n <= i -> chain values prevCodes n q s ->
  chain (arr_set values i v) (arr_set prevCodes i w) n q s.
Proof.
  assert (Hget : forall (l : list Z) k x, k < n <= i -> 0 <= k -> arr_get (arr_set l i x) k = arr_get l k).
  { intros l k x Hk Hk0. unfold arr_get, arr_set. repeat ztest. apply list_lookup_insert_ne. lia. }
  induction s as [|x [|y s] IH]; intros q Hn Hc; [done|..]; cbn [chain] in *.
  - destruct Hc as (? & ? & _). split; [lia|]. split; [by rewrite Hget by lia|done].
  - destruct Hc as (? & ? & q' & ? & Hc). split; [lia|]. split; [by rewrite Hget by lia|].
    exists q'. split; [by rewrite Hget by lia|]. by apply IH.
Qed.

(** Walking the chain writes the sequence. *)
Lemma unwind_chain values prevCodes n s : forall seq q,
  Forall is_byte s -> chain values prevCodes n q s -> len s <= len seq ->
  unwind (length s) values prevCodes seq (Some q) = rev s ++ drop (length s) seq.
Proof.
  induction s as [|x s IH]; intros seq q Hb Hc Hl; [done|].
  apply Forall_cons in Hb as [Hx Hb]. rewrite len_cons in Hl. pose proof (len_nonneg s).
  assert (Hset : forall t, length t = length s ->
    t ++ drop (length s) (arr_set seq (Z.of_nat (length s)) x) = t ++ [x] ++ drop (S (length s)) seq).
  { intros t Ht. f_equal. unfold arr_set. ztest. rewrite Nat2Z.id.
    rewrite (drop_S _ x); [by rewrite drop_insert_lt by lia|].
    apply list_lookup_insert_eq. unfold len in *. lia. }
  destruct Hc as (Hq & Hv & Hrest). cbn [length unwind rev].
  unfold base.mbind, option_bind. rewrite Hv. unfold jn_u8. cbn [default from_option id].
  rewrite to_u8_small by done. rewrite <- app_assoc. cbn [app].
  destruct s as [|y s].
  - cbn [length unwind rev app]. specialize (Hset [] eq_refl). exact Hset.
  - destruct Hrest as (q' & Hp & Hc). rewrite Hp. rewrite IH; auto.
    + apply Hset. by rewrite length_rev.
    + rewrite len_arr_set. lia.
Qed.

(** How the arrays hold a dictionary. *)
Record holds_dictionary (early : Z) (st : LzwState) (r : dictionary) : Prop := {
  hd_early : earlyChange st = early;
  hd_next : nextCode st = 258 + len (lz_entries r);
  hd_width : codeLength st = code_width early r;
  hd_sizes : len (dictionaryValues st) = 4096 /\ len (dictionaryLengths st) = 4096 /\
             len (dictionaryPrevCodes st) = 4096 /\ len (currentSequence st) = 4096;
  hd_bytes c : 0 <= c < 256 ->
    arr_get (dictionaryValues st) c = Some c /\ arr_get (dictionaryLengths st) c = Some 1;
  hd_entry i s : 0 <= i < 3838 -> arr_get (lz_entries r) i = Some s ->
    1 <= len s <= i + 2 /\ Forall is_byte s /\
    arr_get (dictionaryLengths st) (258 + i) = Some (len s) /\
    chain (dictionaryValues st) (dictionaryPrevCodes st) (nextCode st) (258 + i) (rev s);
  hd_last : match lz_last r with
    | None => currentSequenceLength st = 0 /\ lz_entries r = []
    | Some p => currentSequenceLength st = len p /\ 1 <= len p <= Z.min (len (lz_entries r) + 1) 3839 /\
        Forall is_byte p /\ take (length p) (currentSequence st) = p /\
        exists pc, prevCode st = Some pc /\ 0 <= pc < 4096 /\ arr_get (dictionaryLengths st) pc = Some (len p) /\
          chain (dictionaryValues st) (dictionaryPrevCodes st) (nextCode st) pc (rev p)
    end
}.

Lemma initial_holds early : 0 <= early <= 1 -> holds_dictionary early (initial_lzw early) lz_empty.
Proof.
  intros He. split; cbn [earlyChange nextCode codeLength initial_lzw lz_entries lz_last lz_empty
    dictionaryValues dictionaryLengths dictionaryPrevCodes currentSequence currentSequenceLength]; try done.
  - unfold code_width. cbn [lz_entries lz_empty]. change (len (@nil (list Z))) with 0. by repeat ztest.
  - intros c Hc. unfold blit, arr_get. ztest. cbn [Z.to_nat take app]. rewrite take_0. cbn [app].
    split; rewrite lookup_app_l by (rewrite ?length_map, ?length_seq, ?length_replicate; lia).
    + rewrite list_lookup_fmap, lookup_seq_lt by lia. cbn [fmap option_fmap option_map]. f_equal. lia.
    + apply lookup_replicate_2. lia.
  - intros i s Hi Hs. unfold arr_get in Hs. destruct (i <? 0); done.
Qed.

(** ** One code *)

Lemma rev_take_head (s : list Z) : take 1 s = match arr_get s 0 with Some x => [x] | None => [] end.
Proof. by destruct s. Qed.

(** The sequence of a code, its code if it has one yet. *)
Lemma sequence_of_ok early st r c s :
  holds_dictionary early st r -> lz_sequence r c = Some s ->
  let st' := sequence_of (Some c) st in
  0 <= c < 4096 /\ 1 <= len s <= Z.min (len (lz_entries r) + 2) 3840 /\ Forall is_byte s /\
  (c < nextCode st -> len s <= Z.min (len (lz_entries r) + 1) 3839) /\
  currentSequenceLength st' = len s /\ take (length s) (currentSequence st') = s /\
  len (currentSequence st') = 4096 /\ st' = set_sequence (currentSequence st') (len s) st /\
  (c < nextCode st -> arr_get (dictionaryLengths st) c = Some (len s) /\
     chain (dictionaryValues st) (dictionaryPrevCodes st) (nextCode st) c (rev s)) /\
  (nextCode st <= c -> c = nextCode st /\ exists p, lz_last r = Some p /\ s = p ++ take 1 p).
Proof.
  intros [He Hn Hw (Hv & Hl & Hp & Hs) Hb Hent Hlast] Hseq st'. pose proof (len_nonneg (lz_entries r)).
  unfold lz_sequence in Hseq. destruct ((c <? 0) || (4096 <=? c)) eqn:Ec; [done|]. bool_hyps.
  unfold st', sequence_of. destruct (c <? 256) eqn:E1; bool_hyps.
  { injection Hseq as <-. destruct (Hb c ltac:(lia)) as [Hbv Hbl].
    rewrite to_u8_small by lia. cbn [currentSequence currentSequenceLength set_sequence].
    change (len [c]) with 1. rewrite len_arr_set. split_and!; auto; try lia.
    - repeat constructor; unfold is_byte; lia.
    - destruct (currentSequence st) as [|y l]; [discriminate Hs|]. done.
    - intros _. split; [done|]. cbn [rev app chain]. split_and!; auto; lia. }
  destruct (c <? 258) eqn:E2; [done|]; bool_hyps. rewrite Hn in *.
  destruct (c <? 258 + len (lz_entries r)) eqn:E3; bool_hyps.
  - destruct (Hent (c - 258) s ltac:(lia) Hseq) as (Hls & Hby & Hlen & Hch).
    replace (258 + (c - 258)) with c in * by lia. rewrite Hlen. cbn [jn_int default from_option id].
    cbn [currentSequence currentSequenceLength set_sequence].
    replace (Z.to_nat (len s)) with (length (rev s)) by (rewrite length_rev; unfold len; lia).
    assert (Hlr : len (rev s) = len s) by (unfold len; by rewrite length_rev).
    rewrite (unwind_chain _ _ _ (rev s) (currentSequence st) c (Forall_rev Hby) Hch) by lia.
    rewrite rev_involutive, length_rev. split_and!; auto; try lia.
    + apply take_app_length.
    + rewrite len_app, len_drop; unfold len in *; lia.
  - destruct (c =? 258 + len (lz_entries r)) eqn:E4; [|done]. bool_hyps.
    destruct (lz_last r) as [p|] eqn:Elast; [|done]. injection Hseq as <-.
    destruct Hlast as (Hcl & Hlp & Hby & Htk & pc & Hpc & _).
    destruct p as [|x p]; [rewrite len_nil in Hlp; lia|].
    assert (Hx : arr_get (currentSequence st) 0 = Some x).
    { destruct (currentSequence st) as [|y l]; [done|]. cbn in Htk. by injection Htk as -> _. }
    apply Forall_cons in Hby as [Hxb Hby]. rewrite Hx. unfold jn_u8. cbn [default from_option id].
    rewrite to_u8_small by done. change (take 1 (x :: p)) with [x].
    cbn [currentSequence currentSequenceLength set_sequence].
    rewrite len_app. change (len [x]) with 1. rewrite Hcl, len_arr_set.
    split; [lia|]. split; [lia|]. split; [apply Forall_app_2; constructor; auto|].
    split; [lia|]. split; [lia|]. split; [|split; [lia|split; [done|split; [lia|]]]].
    + rewrite length_app. unfold arr_set. ztest.
      assert (Hn2 : Z.to_nat (len (x :: p)) = length (x :: p)) by (unfold len; lia). rewrite Hn2.
      rewrite Nat.add_1_r. erewrite take_S_r; [|apply list_lookup_insert_eq; unfold len in *; lia].
      by rewrite take_insert_ge, Htk by lia.
    + intros _. split; [lia|]. by exists (x :: p).
Qed.

(** ** The width of the codes *)

Definition width_of (n : Z) : Z :=
  if n <? 512 then 9 else if n <? 1024 then 10 else if n <? 2048 then 11 else 12.

Lemma no_power_of_two k n : 0 <= k <= 12 -> 2 ^ k < n < 2 ^ (k + 1) -> (n .& n - 1 =? 0) = false.
Proof.
  intros Hk Hn. apply Z.eqb_neq. intros Hz.
  assert (2 ^ (k + 1) <= 2 ^ 13) by (apply Z.pow_le_mono_r; lia).
  assert (0 < 2 ^ k) by (apply Z.pow_pos_nonneg; lia).
  unfold js_and in Hz. rewrite !to_int32_small in Hz by lia.
  apply (f_equal (fun z => Z.testbit z k)) in Hz. rewrite Z.land_spec, Z.bits_0 in Hz.
  pose proof (Z.bit_log2 n ltac:(lia)) as H1. pose proof (Z.bit_log2 (n - 1) ltac:(lia)) as H2.
  rewrite (Z.log2_unique n k) in H1 by lia. rewrite (Z.log2_unique (n - 1) k) in H2 by lia.
  by rewrite H1, H2 in Hz.
Qed.

Lemma next_length_width n : 259 <= n -> next_length (width_of (n - 1)) n 0 = width_of n.
Proof.
  intros Hn. assert (Hc : n = 512 \/ n = 1024 \/ n = 2048 \/ 4096 <= n \/
    exists k, 8 <= k <= 11 /\ 2 ^ k < n < 2 ^ (k + 1) /\ width_of (n - 1) = width_of n).
  { assert (Hk : forall k, 8 <= k <= 11 -> 2 ^ k < n < 2 ^ (k + 1) -> width_of (n - 1) = width_of n ->
      exists k, 8 <= k <= 11 /\ 2 ^ k < n < 2 ^ (k + 1) /\ width_of (n - 1) = width_of n)
      by (intros k ? ? ?; by exists k).
    destruct (Z.lt_trichotomy n 512) as [|[|]]; [do 4 right; apply (Hk 8)|by left|].
    1-3: try lia; try (unfold width_of; repeat ztest; done).
    destruct (Z.lt_trichotomy n 1024) as [|[|]]; [do 4 right; apply (Hk 9)|tauto|].
    1-3: try lia; try (unfold width_of; repeat ztest; done).
    destruct (Z.lt_trichotomy n 2048) as [|[|]]; [do 4 right; apply (Hk 10)|tauto|].
    1-3: try lia; try (unfold width_of; repeat ztest; done).
    destruct (Z.lt_ge_cases n 4096); [do 4 right; apply (Hk 11)|tauto].
    all: try lia; unfold width_of; repeat ztest; done. }
  destruct Hc as [->|[->|[->|[Hc|(k & Hk & Hb & Hw)]]]]; [vm_compute; reflexivity..| |];
    unfold next_length; rewrite !Z.add_0_r.
  - unfold width_of. repeat ztest. destruct (negb _); [done|].
    assert (12 <= Z.log2 n) by (apply Z.log2_le_pow2; lia). lia.
  - by rewrite (no_power_of_two k n) by lia.
Qed.

Lemma grow_width early r e :
  0 <= early <= 1 ->
  next_length (code_width early r) (258 + len (lz_entries r) + 1) early =
  code_width early (mkDictionary (lz_entries r ++ [e]) (lz_last r)).
Proof.
  intros He. pose proof (len_nonneg (lz_entries r)).
  unfold code_width. cbn [lz_entries]. rewrite len_app. change (len [e]) with 1.
  set (n := 258 + len (lz_entries r) + early). cbv zeta.
  replace (258 + (len (lz_entries r) + 1) + early) with (n + 1) by lia.
  pose proof (next_length_width (n + 1) ltac:(lia)) as Hw.
  replace (n + 1 - 1) with n in Hw by lia. unfold width_of in Hw. rewrite <- Hw.
  unfold next_length. rewrite !Z.add_0_r.
  by replace (258 + len (lz_entries r) + 1 + early) with (n + 1) by lia.
Qed.

Lemma code_width_last early es p q :
  code_width early (mkDictionary es p) = code_width early (mkDictionary es q).
Proof. reflexivity. Qed.

(** ** A turn keeps the dictionary *)

Lemma clear_holds early st r :
  0 <= early <= 1 -> holds_dictionary early st r -> holds_dictionary early (clear_codes st) lz_empty.
Proof.
  intros He [H1 _ _ H4 H5 _ _]. split; cbn [clear_codes earlyChange nextCode codeLength dictionaryValues
    dictionaryLengths dictionaryPrevCodes currentSequence currentSequenceLength lz_entries lz_last lz_empty]; auto.
  - unfold code_width. cbn [lz_entries lz_empty]. change (len (@nil (list Z))) with 0. by repeat ztest.
  - intros i s Hi Hs. unfold arr_get in Hs. destruct (i <? 0); done.
Qed.

Lemma arr_get_app {A} (l : list A) x i :
  arr_get (l ++ [x]) i = if i =? len l then Some x else arr_get l i.
Proof.
  unfold arr_get. pose proof (len_nonneg l). destruct (i =? len l) eqn:E; bool_hyps.
  - subst. ztest. unfold len. rewrite Nat2Z.id. by apply list_lookup_middle.
  - destruct (i <? 0) eqn:?; bool_hyps; [done|].
    destruct (decide (i < len l)).
    + apply lookup_app_l. unfold len in *. lia.
    + rewrite !lookup_ge_None_2; [done|..]; rewrite ?length_app; simpl; unfold len in *; lia.
Qed.

(** A first code: no entry is made. *)
Lemma first_code_ok early st r c s :
  holds_dictionary early st r -> lz_last r = None -> lz_sequence r c = Some s ->
  holds_dictionary early (set_prevCode (Some c) (sequence_of (Some c) st))
    (mkDictionary (lz_entries r) (Some s)).
Proof.
  intros Hst Hlast Hseq. pose proof (sequence_of_ok early st r c s Hst Hseq) as Hok. cbv zeta in Hok.
  destruct Hok as (Hc & Hls & Hby & Hshort & Hcl & Htk & Hlen & -> & Hlt & Hge).
  destruct Hst as [H1 H2 H3 (Hv & Hl & Hp & _) H5 H6 H7].
  split; cbn [set_prevCode set_sequence earlyChange nextCode codeLength dictionaryValues
    dictionaryLengths dictionaryPrevCodes currentSequence currentSequenceLength lz_entries lz_last]; auto.
  destruct (decide (c < nextCode st)) as [Hcn|Hcn].
  - destruct (Hlt Hcn) as [Hdl Hch]. split; [done|]. split; [by specialize (Hshort Hcn); lia|].
    split; [done|]. split; [done|]. exists c. split_and!; auto; lia.
  - destruct Hge as (_ & p & Hp' & _); [lia|congruence].
Qed.

(** A code after another: the entry of the other and its first byte is made. *)
Lemma next_code_ok early st r c s p :
  0 <= early <= 1 -> holds_dictionary early st r -> lz_last r = Some p -> lz_sequence r c = Some s ->
  holds_dictionary early (set_prevCode (Some c) (grow (sequence_of (Some c) st)))
    (mkDictionary (lz_entries r ++ [p ++ take 1 s]) (Some s)).
Proof.
  intros He Hst Hlast Hseq. pose proof (sequence_of_ok early st r c s Hst Hseq) as Hok. cbv zeta in Hok.
  destruct Hok as (Hc & Hls & Hby & Hshort & Hcl & Htk & Hlen & -> & Hlt & Hge).
  destruct Hst as [H1 H2 H3 (Hv & Hl & Hp & _) H5 H6 H7]. rewrite Hlast in H7.
  destruct H7 as (Hpl & Hpb & Hpby & Hptk & pc & Hpc & Hpcr & Hpcl & Hpch).
  pose proof (len_nonneg (lz_entries r)) as Hne.
  destruct s as [|x s']; [rewrite len_nil in Hls; lia|]. change (take 1 (x :: s')) with [x].
  pose proof Hby as Hby'. apply Forall_cons in Hby' as [Hx _].
  assert (Hcs0 : arr_get (currentSequence (sequence_of (Some c) st)) 0 = Some x).
  { destruct (currentSequence (sequence_of (Some c) st)) as [|y l]; [done|]. cbn in Htk. by injection Htk as -> _. }
  set (cs := currentSequence (sequence_of (Some c) st)) in *.
  assert (Hu : to_u16 (len p + 1) = len p + 1 /\ to_u16 pc = pc)
    by (unfold to_u16; split; apply Z.mod_small; lia).
  destruct Hu as [Hu1 Hu2].
  assert (Hchain : forall q l, chain (dictionaryValues st) (dictionaryPrevCodes st) (nextCode st) q l ->
    chain (arr_set (dictionaryValues st) (nextCode st) x) (arr_set (dictionaryPrevCodes st) (nextCode st) pc)
      (nextCode st + 1) q l).
  { intros q l Hch. apply (chain_more _ _ (nextCode st)); [lia|]. by apply chain_write. }
  (* the new entry *)
  assert (Hnew : nextCode st < 4096 ->
    arr_get (arr_set (dictionaryLengths st) (nextCode st) (len p + 1)) (nextCode st) = Some (len p + 1) /\
    chain (arr_set (dictionaryValues st) (nextCode st) x) (arr_set (dictionaryPrevCodes st) (nextCode st) pc)
      (nextCode st + 1) (nextCode st) (rev (p ++ [x]))).
  { intros Hn. split; [apply get_set_same; lia|]. rewrite rev_app_distr. cbn [rev app chain].
    split; [lia|]. split; [apply get_set_same; lia|].
    destruct (rev p) as [|y l] eqn:Er; [done|]. exists pc.
    split; [apply get_set_same; lia|]. by apply Hchain. }
  unfold grow. cbn [set_sequence prevCode earlyChange nextCode codeLength dictionaryValues
    dictionaryLengths dictionaryPrevCodes currentSequence currentSequenceLength].
  rewrite Hpc, Hcs0. unfold base.mbind, option_bind. rewrite Hpcl. unfold jn_u8.
  cbn [jn_add default from_option id base.mbind option_bind]. rewrite to_u8_small, Hu1, Hu2 by done.
  split; cbn [set_prevCode earlyChange nextCode codeLength dictionaryValues
    dictionaryLengths dictionaryPrevCodes currentSequence currentSequenceLength lz_entries lz_last]; auto.
  - rewrite len_app. change (len [p ++ [x]]) with 1. lia.
  - rewrite H3, H1, H2. by apply (grow_width early r).
  - rewrite !len_arr_set. done.
  - intros b Hb. rewrite !get_set_other by lia. by apply H5.
  - intros i t Hi Ht. rewrite arr_get_app in Ht. destruct (i =? len (lz_entries r)) eqn:Ei; bool_hyps.
    + injection Ht as <-. rewrite len_app. change (len [x]) with 1.
      replace (258 + i) with (nextCode st) by lia. destruct (Hnew ltac:(lia)) as [Hn1 Hn2].
      split_and!; auto; try lia. apply Forall_app_2; [done|by constructor].
    + destruct (H6 i t Hi Ht) as (Hlt' & Hbt & Hdl & Hch).
      assert (Hil : i < len (lz_entries r)).
      { unfold arr_get in Ht. destruct (i <? 0); [done|]. apply lookup_lt_Some in Ht. unfold len. lia. }
      rewrite get_set_other by lia. split_and!; auto; lia.
  - rewrite len_app. change (len [p ++ [x]]) with 1. split; [done|].
    destruct (decide (c < nextCode st)) as [Hcn|Hcn].
    + destruct (Hlt Hcn) as [Hdl Hch]. specialize (Hshort Hcn). split; [lia|]. split; [done|]. split; [done|].
      exists c. rewrite get_set_other by lia. split_and!; auto; lia.
    + destruct Hge as (-> & p' & Hp' & Hs); [lia|]. rewrite Hlast in Hp'. injection Hp' as <-.
      assert (Hxs : x :: s' = p ++ [x]).
      { destruct p as [|y p]; [rewrite len_nil in Hpb; lia|]. cbn in Hs. injection Hs as -> ->. done. }
      destruct (Hnew ltac:(lia)) as [Hn1 Hn2]. rewrite <- Hxs in Hn2.
      assert (Hlx : len (x :: s') = len p + 1) by (rewrite Hxs, len_app; done).
      split; [lia|]. split; [done|]. split; [done|]. exists (nextCode st). rewrite Hlx. split_and!; auto; lia.
Qed.

(** ** A block *)

Lemma put_sequence_blit sq s : forall j i b,
  Forall is_byte s -> 0 <= j -> 0 <= i -> i + len s <= len b ->
  take (length s) (drop (Z.to_nat j) sq) = s ->
  put_sequence (length s) sq j i b = blit b s i.
Proof.
  induction s as [|x s IH]; intros j i b Hby Hj Hi Hroom Hs; cbn [length put_sequence]; [by rewrite blit_nil|].
  apply Forall_cons in Hby as [Hx Hby]. rewrite len_cons in Hroom. pose proof (len_nonneg s).
  destruct (drop (Z.to_nat j) sq) as [|y l] eqn:Ed; [done|]. cbn [length take] in Hs.
  injection Hs as -> Hs. rewrite (arr_get_drop _ _ _ _ Hj Ed).
  unfold jn_u8. cbn [default from_option id]. rewrite to_u8_small by done.
  apply drop_succ_cons in Ed.
  rewrite IH; rewrite ?len_arr_set; auto; try lia.
  - rewrite <- blit_cons by lia. done.
  - replace (Z.to_nat (j + 1)) with (Datatypes.S (Z.to_nat j)) by lia. by rewrite Ed.
Qed.

Lemma estimate_spec n e dec :
  0 <= e -> dec <= e + 512 * Z.of_nat n -> (0 < n)%nat -> e <= estimate n e dec /\ dec <= estimate n e dec.
Proof.
  revert e. induction n as [|n IH]; intros e He Hd Hn; [lia|]. cbn [estimate]. cbv zeta.
  destruct (e + 512 <? dec) eqn:E; bool_hyps; [|lia].
  destruct n as [|n]; [lia|]. destruct (IH (e + 512)) as [? ?]; lia.
Qed.

Section Block.
Context {S : Type} `{SourceSpec S} (early : Z) (Hearly : 0 <= early <= 1).
Implicit Type d : DS S LzwFields.

(** The locals of [readBlock] in the middle of a block that has decoded to
    [out], all earlier blocks included. *)
Record in_block d (l : Locals) (out : list Z) : Prop := {
  ib_so_far : so_far d (currentBufferLength l) out;
  ib_position : currentBufferLength l = bufferLength d + decodedLength l;
  ib_decoded : 0 <= decodedLength l <= estimatedDecodedSize l;
  ib_room : bufferLength d + estimatedDecodedSize l <= len (buffer d)
}.

Lemma in_block_same d d' l out : in_block d l out -> same_buffer d d' -> in_block d' l out.
Proof.
  intros [] (Hb & Hl & _ & Hm & _). split; rewrite ?Hl, ?Hb; auto. by apply (so_far_same d).
Qed.

Lemma lzw_code_ok d l out c s r r' :
  holds_dictionary early (l_state l) r -> c <> 256 -> lz_step r c = Some (r', s) -> in_block d l out ->
  exists d' l',
    lzw_code (Some c) l d = (Ok l', d') /\ holds_dictionary early (l_state l') r' /\
    in_block d' l' (out ++ s) /\ bufferLength d' = bufferLength d /\ eof d' = eof d /\ pos d' = pos d /\
    stream d' = stream d /\ ext d' = ext d.
Proof.
  intros Hst Hc Hstep [Hsf Hpos Hdec Hroom]. unfold lz_step in Hstep.
  rewrite (proj2 (Z.eqb_neq _ _) Hc) in Hstep. unfold base.mbind, option_bind in Hstep.
  destruct (lz_sequence r c) as [s0|] eqn:Eseq; [|done]. injection Hstep as <- <-.
  set (st := l_state l) in *.
  set (st' := set_prevCode (Some c) (if 0 <? currentSequenceLength st
    then grow (sequence_of (Some c) st) else sequence_of (Some c) st)).
  assert (Hst' : holds_dictionary early st' (mkDictionary
    (match lz_last r with Some p => lz_entries r ++ [p ++ take 1 s0] | None => lz_entries r end) (Some s0))).
  { unfold st'. pose proof (hd_last _ _ _ Hst) as Hlast. destruct (lz_last r) as [p|] eqn:El.
    - destruct Hlast as (Hcl & Hpl & _). rewrite Hcl. rewrite (proj2 (Z.ltb_lt 0 _)) by lia.
      by apply next_code_ok.
    - destruct Hlast as [Hcl _]. rewrite Hcl. change (0 <? 0) with false. by apply first_code_ok. }
  pose proof (hd_last _ _ _ Hst') as Hlast. cbn [lz_last] in Hlast.
  destruct Hlast as (Hcl & Hls & Hby & Htk & _). unfold lzw_code. fold st. fold st'. cbv zeta.
  rewrite Hcl. replace (Z.to_nat (len s0)) with (length s0) by (unfold len; lia).
  assert (Hest : exists e d1, (if estimatedDecodedSize l <? decodedLength l + len s0
      then let e := estimate (Z.to_nat (decodedLength l + len s0)) (estimatedDecodedSize l)
             (decodedLength l + len s0) in
           bufferLength <- gets bufferLength ;; ensureBuffer (bufferLength + e) ;;; mret e
      else mret (estimatedDecodedSize l)) d = (Ok e, d1) /\
    decodedLength l + len s0 <= e /\ bufferLength d + e <= len (buffer d1) /\
    so_far d1 (currentBufferLength l) out /\ bufferLength d1 = bufferLength d /\ eof d1 = eof d /\
    pos d1 = pos d /\ stream d1 = stream d /\ ext d1 = ext d).
  { destruct (estimatedDecodedSize l <? decodedLength l + len s0) eqn:E; bool_hyps.
    - cbv zeta. set (e := estimate _ _ _).
      destruct (so_far_ensure d _ out (bufferLength d + e) Hsf) as (d1 & Hrun & He & _ & Hsf1 & Hrest).
      exists e, d1. unfold mbind at 1, gets. cbv beta iota. rewrite (mbind_ok _ _ _ _ _ Hrun).
      destruct (estimate_spec (Z.to_nat (decodedLength l + len s0)) (estimatedDecodedSize l)
        (decodedLength l + len s0)) as [_ Hd]; [lia..|]. fold e in Hd. split_and!; auto; apply Hrest.
    - exists (estimatedDecodedSize l), d. split_and!; auto. }
  destruct Hest as (e & d1 & Hrun & Hde & Hroom1 & Hsf1 & Hbl1 & He1 & Hp1 & Hs1 & Hx1).
  pose proof (so_far_len _ _ _ Hsf) as Hlo. pose proof (len_nonneg out).
  rewrite (mbind_ok _ _ _ _ _ Hrun). unfold mbind, modify, mret.
  rewrite (put_sequence_blit _ s0) by (auto; lia).
  eexists _, _. split; [reflexivity|]. cbn [l_state currentBufferLength decodedLength estimatedDecodedSize].
  split; [exact Hst'|]. split; [|by split_and!].
  split; cbn [currentBufferLength decodedLength estimatedDecodedSize bufferLength set_buffer buffer].
  - apply so_far_blit; auto. lia.
  - lia.
  - lia.
  - rewrite len_blit by lia. lia.
Qed.

Lemma ready_same d d' t : ready d t -> stream d' = stream d -> ext d' = ext d -> ready d' t.
Proof. intros [Hc Hb] Hs Hx. split; by rewrite ?Hs, ?Hx. Qed.

Lemma lz_bits_cons r c codes :
  lz_bits early r (c :: codes) = msb_bits (code_width early r) c ++
    match lz_step r c with Some (r', _) => lz_bits early r' codes | None => [] end.
Proof. reflexivity. Qed.

Lemma code_width_range r : 9 <= code_width early r <= 12.
Proof. unfold code_width. cbv zeta. repeat case_bool; lia. Qed.

(** A code that can be next fits in the width. *)
Lemma code_fits_width r c r' s :
  lz_step r c = Some (r', s) -> 0 <= c < 2 ^ code_width early r.
Proof.
  intros Hstep. pose proof (len_nonneg (lz_entries r)) as Hn.
  assert (Hc : 0 <= c < 4096 /\ (c <= 256 \/ c <= 258 + len (lz_entries r))).
  { unfold lz_step in Hstep. destruct (c =? 256) eqn:E; bool_hyps; [lia|].
    unfold base.mbind, option_bind, lz_sequence in Hstep.
    destruct ((c <? 0) || (4096 <=? c)) eqn:E1; [done|]. bool_hyps. split; [lia|].
    destruct (c <? 256) eqn:E2; bool_hyps; [lia|]. destruct (c <? 258) eqn:E3; [done|].
    destruct (c <? 258 + len (lz_entries r)) eqn:E4; bool_hyps; [lia|].
    destruct (c =? _) eqn:E5; [|done]. bool_hyps. lia. }
  unfold code_width. cbv zeta. change (2 ^ 9) with 512.
  repeat case_bool; [change (2 ^ 9) with 512|change (2 ^ 10) with 1024|change (2 ^ 11) with 2048
    |change (2 ^ 12) with 4096]; lia.
Qed.

(** [turns] turns of the loop: to the end of the data, or over as many codes. *)
Lemma lzw_loop_ok turns : forall d l r codes out more after,
  holds_dictionary early (l_state l) r -> in_block d l out -> buf_ok d -> lzwState (ext d) <> None ->
  lz_decode r codes = Some more -> ready d (lz_bits early r codes ++ after) ->
  exists d' l' chunk, lzw_loop turns l d = (Ok l', d') /\ in_block d' l' (out ++ chunk) /\
    bufferLength d' = bufferLength d /\ pos d' = pos d /\
    ((eof d' = true /\ more = chunk /\ lzwState (ext d') = None) \/
     (eof d' = eof d /\ lzwState (ext d') <> None /\ exists codes' r' more',
        (length codes' + turns = length codes)%nat /\ holds_dictionary early (l_state l') r' /\
        lz_decode r' codes' = Some more' /\ more = chunk ++ more' /\
        ready d' (lz_bits early r' codes' ++ after))).
Proof.
  induction turns as [|turns IH]; intros d l r codes out more after Hst Hin Hok Hx Hdec Hr.
  { exists d, l, []. rewrite app_nil_r. split_and!; auto. right. split_and!; auto.
    exists codes, r, more. rewrite Nat.add_0_r. split_and!; auto. }
  cbn [lzw_loop]. pose proof (code_width_range r) as Hw. rewrite (hd_width _ _ _ Hst).
  destruct codes as [|c codes].
  - cbn [lz_decode] in Hdec. injection Hdec as <-. cbn [lz_bits] in Hr.
    assert (H257 : 0 <= 257 < 2 ^ code_width early r).
    { assert (2 ^ 9 <= 2 ^ code_width early r) by (apply Z.pow_le_mono_r; lia).
      change (2 ^ 9) with 512 in *. lia. }
    destruct (readBits_ok d (code_width early r) 257 after ltac:(lia) H257 Hr) as (d1 & Hg & Hr1 & Hs1 & Hx1).
    rewrite (mbind_ok _ _ _ _ _ Hg). change (jn_is (Some 257) 256) with false.
    change (jn_is (Some 257) 257) with true. cbv iota. unfold mbind, modify, mret.
    pose proof (in_block_same _ _ _ _ Hin Hs1) as Hin1. destruct Hs1 as (_ & Hl1 & _ & _ & Hp1).
    eexists _, l, []. split; [reflexivity|]. rewrite app_nil_r. split; [|split; [done|split; [done|]]].
    + destruct Hin1 as [Hsf1 ? ? ?]. split; auto. by apply (so_far_same d1).
    + left. done.
  - rewrite lz_bits_cons, <- app_assoc in Hr. cbn [lz_decode] in Hdec.
    destruct (lz_step r c) as [[r' s]|] eqn:Estep; [|done].
    destruct (lz_decode r' codes) as [more'|] eqn:Emore; [|done]. cbn in Hdec. injection Hdec as <-.
    destruct (readBits_ok d (code_width early r) c _ ltac:(lia) (code_fits_width _ _ _ _ Estep) Hr)
      as (d1 & Hg & Hr1 & Hs1 & Hx1).
    rewrite (mbind_ok _ _ _ _ _ Hg). pose proof (in_block_same _ _ _ _ Hin Hs1) as Hin1.
    pose proof Hs1 as (Hb1 & Hl1 & He1 & Hm1 & Hp1).
    assert (Hok1 : buf_ok d1) by (by apply (buf_ok_same d)).
    assert (Hc257 : c <> 257).
    { intros ->. unfold lz_step, lz_sequence in Estep. done. }
    cbn [jn_is]. destruct (c =? 256) eqn:E256; bool_hyps.
    + subst c. unfold lz_step in Estep. change (256 =? 256) with true in Estep. injection Estep as <- <-.
      edestruct (IH d1 (mkLocals (clear_codes (l_state l)) (decodedLength l) (estimatedDecodedSize l)
        (currentBufferLength l)) lz_empty codes out more' after)
        as (d' & l' & chunk & Hrun & Hin' & Hl' & Hp' & Hend); auto; try congruence.
      { by apply (clear_holds early _ r). }
      { destruct Hin1. by split. }
      exists d', l', chunk. split_and!; auto; try congruence.
      destruct Hend as [?|(He' & Hx' & codes' & r'' & more'' & Hlen & Hrest)]; [by left|right].
      split_and!; auto; [congruence|]. exists codes', r'', more''. split; [simpl; lia|done].
    + rewrite (proj2 (Z.eqb_neq _ _) Hc257).
      destruct (lzw_code_ok d1 l out c s r r' Hst E256 Estep Hin1)
        as (d2 & l2 & Hrun2 & Hst2 & Hin2 & Hl2 & He2 & Hp2 & Hsr2 & Hx2).
      rewrite (mbind_ok _ _ _ _ _ Hrun2).
      assert (Hok2 : buf_ok d2).
      { destruct Hin2 as [[[Hlb Hby Hm] _] Hpos Hdl Hroom]. destruct Hok as [[Hl0 _] _ _].
        cbn [bufferLength buffer minBufferLength set_bufferLength] in *. split; auto. lia. }
      destruct (IH d2 l2 r' codes (out ++ s) more' after)
        as (d' & l' & chunk & Hrun & Hin' & Hl' & Hp' & Hend); auto; try congruence.
      { by apply (ready_same d1). }
      exists d', l', (s ++ chunk). rewrite app_assoc. split_and!; auto; try congruence.
      destruct Hend as [(? & -> & ?)|(He' & Hx' & codes' & r'' & more'' & Hlen & Hh & Hd & -> & Hrd)].
      * left. done.
      * right. split_and!; auto; [congruence|]. exists codes', r'', more''.
        split; [simpl; lia|]. split_and!; auto. by rewrite app_assoc.
Qed.
End Block.

#[export] Program Instance lzw_spec {S} `{SourceSpec S} : DecoderSpec S LzwFields := {
  todo s x done out n :=
    exists early st r codes after,
      0 <= early <= 1 /\ lzwState x = Some st /\ holds_dictionary early st r /\
      lz_decode r codes = Some out /\ ready (new_DecodeStream None s x) (lz_bits early r codes ++ after) /\
      n = Datatypes.S (length codes)
}.
Next Obligation.
  intros S ? ? d out n Hok He (early & st & r & codes & after & Hearly & Hx & Hst & Hdec & Hr & ->).
  unfold readBlock, lzw_decoder, lzw_readBlock, mbind at 1, gets at 1. cbv beta iota. rewrite Hx.
  unfold mbind at 1, gets at 1. cbv beta iota.
  pose proof (so_far_start d Hok) as Hsf.
  destruct (so_far_ensure d _ _ (bufferLength d + 1024) Hsf)
    as (d1 & Hrun1 & Hroom1 & _ & Hsf1 & Hl1 & He1 & Hp1 & Hs1 & Hx1).
  rewrite (mbind_ok _ _ _ _ _ Hrun1).
  destruct (lzw_loop_ok early Hearly 512 d1 (mkLocals st 0 1024 (bufferLength d)) r codes (produced d) out after)
    as (d2 & l & chunk & Hrun2 & [Hsf2 Hpos2 Hdec2 Hroom2] & Hl2 & Hp2 & Hend); auto.
  { split; cbn [currentBufferLength decodedLength estimatedDecodedSize]; auto; lia. }
  { destruct Hsf1 as [[? ? ?] _]. split; auto. rewrite Hl1.
    cbn [bufferLength set_bufferLength buffer] in *. lia. }
  { by rewrite Hx1, Hx. }
  { destruct Hr as [Hc Hb]. cbn [ext stream new_DecodeStream] in *. split; by rewrite ?Hx1, ?Hs1. }
  rewrite (mbind_ok _ _ _ _ _ Hrun2). unfold mbind, modify. cbv beta iota.
  set (x2 := set_lzwState _ _).
  assert (Ha : appends d (set_bufferLength (currentBufferLength l) (set_ext x2 d2)) chunk).
  { apply so_far_appends; auto; [|cbn; congruence].
    cbn [bufferLength set_bufferLength]. destruct Hsf2 as [[? ? ?] ?]. by split. }
  destruct Hend as [(He2 & -> & Hx2)|(He2 & Hx2 & codes' & r' & more' & Hlen & Hst' & Hdec' & -> & Hr')].
  - exists (set_bufferLength (currentBufferLength l) (set_ext x2 d2)), chunk, [], 0%nat.
    cbn [eof set_bufferLength set_ext]. rewrite He2. split_and!; auto; [by rewrite app_nil_r|lia].
  - exists (set_bufferLength (currentBufferLength l) (set_ext x2 d2)), chunk, more', (Datatypes.S (length codes')).
    cbn [eof stream ext set_bufferLength set_ext]. rewrite He2, He1, He. split; [done|]. split; [done|]. split; [done|].
    split; [lia|]. exists early, (l_state l), r', codes', after. split_and!; auto; try lia.
    + unfold x2. destruct (lzwState (ext d2)); done.
    + destruct Hr' as [Hc Hb]. by split.
Qed.

Lemma lz_decode_bytes codes : forall r out,
  (forall p, lz_last r = Some p -> Forall is_byte p) -> Forall (Forall is_byte) (lz_entries r) ->
  lz_decode r codes = Some out -> Forall is_byte out.
Proof.
  induction codes as [|c codes IH]; intros r out Hp He Hdec; cbn [lz_decode] in Hdec.
  { injection Hdec as <-. constructor. }
  destruct (lz_step r c) as [[r' s]|] eqn:Estep; [|done].
  destruct (lz_decode r' codes) as [more|] eqn:Emore; [|done]. cbn in Hdec. injection Hdec as <-.
  assert (Hs : Forall is_byte s /\ (forall p, lz_last r' = Some p -> Forall is_byte p) /\
    Forall (Forall is_byte) (lz_entries r')).
  { unfold lz_step in Estep. destruct (c =? 256); [injection Estep as <- <-; by split_and!|].
    unfold base.mbind, option_bind in Estep. destruct (lz_sequence r c) as [t|] eqn:Et; [|done].
    injection Estep as <- <-.
    assert (Ht : Forall is_byte t).
    { unfold lz_sequence in Et. destruct ((c <? 0) || (4096 <=? c)) eqn:E0; [done|]. bool_hyps.
      destruct (c <? 256) eqn:E1; bool_hyps; [injection Et as <-; repeat constructor; lia|].
      destruct (c <? 258); [done|]. destruct (c <? 258 + len (lz_entries r)).
      - unfold arr_get in Et. destruct (_ <? 0); [done|]. rewrite Forall_lookup in He. by eapply He.
      - destruct (_ =? _); [|done]. unfold base.mbind, option_bind in Et.
        destruct (lz_last r) as [p|] eqn:El; [|done]. injection Et as <-. specialize (Hp p eq_refl).
        apply Forall_app_2; [done|by apply Forall_take]. }
    split; [done|]. cbn [lz_last lz_entries]. split; [intros p [= <-]; done|].
    destruct (lz_last r) as [p|]; [|done]. apply Forall_app_2; [done|]. repeat constructor.
    apply Forall_app_2; [by apply Hp|by apply Forall_take]. }
  destruct Hs as (Hs & Hp' & He'). apply Forall_app_2; [done|]. by apply (IH r').
Qed.

(** C15. An LZW stream decodes any text of codes, of 9 to 12 bits as the
    dictionary grows, with or without early change, up to the end-of-data code:
    it reads back as the sequences the codes stand for, over any source stream
    and whatever follows. *)
Theorem lzw_decodes {S} `{SourceSpec S} (fuel : nat) (s : S) r early codes out after hint
  (Hearly : 0 <= early <= 1) (Hrest : rest s r)
  (Htext : msb_stream r = lz_bits early lz_empty codes ++ after)
  (Hcodes : lz_decode lz_empty codes = Some out) (Hfuel : (length codes < fuel)%nat) :
  fst (getBytes (ByteSource := DS_source (H := lzw_decoder) fuel) 0 (new_LZWStream s hint early)) = Ok out.
Proof.
  apply ds_read_all with (Datatypes.S (length codes)); [| |lia].
  - exists early, (initial_lzw early), lz_empty, codes, after. split_and!; auto; try lia.
    + by apply initial_holds.
    + split; cbn [ext stream new_DecodeStream bitsCached cachedData]; [lia|].
      exists r. by rewrite <- Htext.
  - by apply (lz_decode_bytes codes lz_empty).
Qed.

Lemma lzw_decodes_witness :
  lz_decode lz_empty [256; 45; 258; 258; 65; 259; 66] = Some [45; 45; 45; 45; 45; 65; 45; 45; 45; 66] /\
  fst (getBytes (ByteSource := DS_source (H := lzw_decoder) 8) 0
    (new_LZWStream (new_Stream [0x80; 0x0B; 0x60; 0x50; 0x22; 0x0C; 0x0C; 0x85; 0x01; 7] None None) None 1))
    = Ok [45; 45; 45; 45; 45; 65; 45; 45; 45; 66].
Proof.
  split; [vm_compute; reflexivity|].
  apply (lzw_decodes 8 _ [0x80; 0x0B; 0x60; 0x50; 0x22; 0x0C; 0x0C; 0x85; 0x01; 7] 1
    [256; 45; 258; 258; 65; 259; 66] _ (msb_bits 8 7)); [lia| |vm_compute; reflexivity..|simpl; lia].
  apply (new_Stream_rest [0x80; 0x0B; 0x60; 0x50; 0x22; 0x0C; 0x0C; 0x85; 0x01; 7]).
  repeat constructor; unfold is_byte; lia.
Defined.

(** At the end of a source without the end-of-data code [readBits] gives
    [null], which [code < 256] takes for the byte 0: the rest of the block of
    512 codes is filled with zeros that are not in the data. *)
Theorem lzw_truncated_pads :
  msb_stream [0x80; 0x10; 0x40] = msb_bits 9 256 ++ msb_bits 9 65 ++ replicate 6 false /\
  lz_decode lz_empty [256; 65] = Some [65] /\
  fst (getBytes (ByteSource := DS_source (H := lzw_decoder) 2) 0
    (new_LZWStream (new_Stream [0x80; 0x10; 0x40] None None) None 1)) = Ok (65 :: replicate 510 0).
Proof. split_and!; vm_compute; reflexivity. Qed.
