(* ===== verification/Rc4.v ===== *)
(** * RC4

    [ARCFourCipher] and [NullCipher] of pdf.worker.mjs.  A cipher object is
    its permutation [s] and its two indices; encrypting is XOR with the
    keystream the object produces, so a second object with the same key undoes
    it however the data is cut into blocks. *)
From S2P Require Import Prelude ByteStream DecodeStream.
Local Open Scope js_scope.

(** The element of a byte array at an index the code knows to be in range. *)
Definition at_ (l : list Z) (i : Z) : Z := jn_int (arr_get l i).

Record ARCFourCipher := mkRc4 { rc_a : Z; rc_b : Z; rc_s : list Z }.

(** One turn of the key schedule, on [s] and [j]. *)
Definition rc4_schedule_step (key : list Z) (sj : list Z * Z) (i : Z) : list Z * Z :=
  let '(s, j) := sj in
  let tmp := at_ s i in
  let j := jn_int (jn_add (Some (j + tmp)) (arr_get key (i mod len key))) .& 0xff in
  let s := arr_set s i (at_ s j) in
  let s := arr_set s j tmp in
  (s, j).

Definition indices (n : Z) : list Z := map Z.of_nat (seq 0 (Z.to_nat n)).

Definition new_ARCFourCipher (key : list Z) : ARCFourCipher :=
  let s := indices 256 in
  let '(s, _) := fold_left (rc4_schedule_step key) (indices 256) (s, 0) in
  mkRc4 0 0 s.

(** One byte of [encryptBlock]. *)
Definition rc4_byte (c : ARCFourCipher) (d : Z) : Z * ARCFourCipher :=
  let s := rc_s c in
  let a := (rc_a c + 1) .& 0xff in
  let tmp := at_ s a in
  let b := (rc_b c + tmp) .& 0xff in
  let tmp2 := at_ s b in
  let s := arr_set s a tmp2 in
  let s := arr_set s b tmp in
  (to_u8 (d .^ at_ s ((tmp + tmp2) .& 0xff)), mkRc4 a b s).

Fixpoint rc4_encryptBlock (c : ARCFourCipher) (data : list Z) : list Z * ARCFourCipher :=
  match data with
  | [] => ([], c)
  | d :: data' =>
      let '(o, c1) := rc4_byte c d in
      let '(os, c2) := rc4_encryptBlock c1 data' in
      (o :: os, c2)
  end.

Definition rc4_decryptBlock := rc4_encryptBlock.
Definition rc4_encrypt := rc4_encryptBlock.

(** [NullCipher] *)
Definition null_decryptBlock (data : list Z) : list Z := data.
Definition null_encrypt (data : list Z) : list Z := data.

(** The published vector for the key "Key". *)
Example rc4_vector :
  fst (rc4_encrypt (new_ARCFourCipher [75; 101; 121])
         [80; 108; 97; 105; 110; 116; 101; 120; 116]) =
  [0xBB; 0xF3; 0x16; 0xE8; 0xD9; 0x40; 0xAF; 0x0A; 0xD3].
Proof. vm_compute. reflexivity. Qed.

(** ** Encrypting block by block *)

Fixpoint rc4_blocks (c : ARCFourCipher) (blocks : list (list Z)) : list (list Z) :=
  match blocks with
  | [] => []
  | b :: blocks' =>
      let '(o, c') := rc4_encryptBlock c b in o :: rc4_blocks c' blocks'
  end.

Lemma rc4_app c l1 l2 :
  rc4_encryptBlock c (l1 ++ l2) =
  let '(o1, c1) := rc4_encryptBlock c l1 in
  let '(o2, c2) := rc4_encryptBlock c1 l2 in (o1 ++ o2, c2).
Proof.
  revert c. induction l1 as [|d l1 IH]; intros c; cbn [app rc4_encryptBlock].
  - by destruct (rc4_encryptBlock c l2).
  - destruct (rc4_byte c d) as [o c0]. rewrite IH.
    destruct (rc4_encryptBlock c0 l1) as [o1 c1]. by destruct (rc4_encryptBlock c1 l2).
Qed.

Lemma rc4_blocks_concat c blocks :
  concat (rc4_blocks c blocks) = fst (rc4_encryptBlock c (concat blocks)).
Proof.
  revert c. induction blocks as [|b blocks IH]; intros c; simpl; [done|].
  rewrite rc4_app. destruct (rc4_encryptBlock c b) as [o c1]. simpl. rewrite IH.
  by destruct (rc4_encryptBlock c1 (concat blocks)).
Qed.

(** ** The keystream does not depend on the data *)

Lemma lxor_byte a b : is_byte a -> is_byte b -> is_byte (Z.lxor a b).
Proof.
  unfold is_byte. intros Ha Hb. split; [apply Z.lxor_nonneg; lia|].
  destruct (Z.eq_dec (Z.lxor a b) 0) as [->|Hne]; [lia|].
  assert (Hp : 0 < Z.lxor a b) by (pose proof (proj2 (Z.lxor_nonneg a b)); lia).
  apply (Z.log2_lt_pow2 _ 8); [lia|].
  pose proof (Z.log2_lxor a b ltac:(lia) ltac:(lia)).
  assert (Hlog : forall z, 0 <= z < 256 -> Z.log2 z < 8).
  { intros z Hz. destruct (Z.eq_dec z 0) as [->|]; [reflexivity|].
    apply Z.log2_lt_pow2; lia. }
  pose proof (Hlog a Ha). pose proof (Hlog b Hb). lia.
Qed.

Lemma js_xor_byte a b : is_byte a -> is_byte b -> to_u8 (a .^ b) = Z.lxor a b.
Proof.
  unfold is_byte. intros. unfold js_xor. rewrite !to_int32_small by lia.
  apply to_u8_small. by apply lxor_byte.
Qed.

(** The permutation holds bytes. *)
Definition rc4_ok (c : ARCFourCipher) : Prop := Forall is_byte (rc_s c).

Lemma at_byte l i : Forall is_byte l -> is_byte (at_ l i).
Proof.
  intros Hl. unfold at_, jn_int, arr_get. destruct (i <? 0); [unfold is_byte; simpl; lia|].
  destruct (l !! Z.to_nat i) eqn:E; simpl; [|unfold is_byte; lia].
  exact (Forall_lookup_1 _ _ _ _ Hl E).
Qed.

Lemma rc4_byte_ok c d : rc4_ok c -> rc4_ok (snd (rc4_byte c d)).
Proof. intros Hc. unfold rc4_byte, rc4_ok. simpl. auto using Forall_arr_set, at_byte. Qed.

(** Enciphering a byte twice from the same state gives it back, and the
    state after a byte does not depend on the byte. *)
Lemma rc4_byte_involutive c d :
  rc4_ok c -> is_byte d ->
  rc4_byte c (fst (rc4_byte c d)) = (d, snd (rc4_byte c d)).
Proof.
  intros Hc Hd. pose proof (rc4_byte_ok c d Hc) as Hok. unfold rc4_ok, rc4_byte in *.
  cbv zeta in *. cbn [fst snd rc_s] in *. f_equal.
  assert (Hk := at_byte _ ((at_ (rc_s c) ((rc_a c + 1) .& 255) +
    at_ (rc_s c) ((rc_b c + at_ (rc_s c) ((rc_a c + 1) .& 255)) .& 255)) .& 255) Hok).
  rewrite (js_xor_byte d) by done. rewrite js_xor_byte by auto using lxor_byte.
  by rewrite Z.lxor_assoc, Z.lxor_nilpotent, Z.lxor_0_r.
Qed.

Lemma rc4_involutive c data :
  rc4_ok c -> Forall is_byte data ->
  fst (rc4_encryptBlock c (fst (rc4_encryptBlock c data))) = data.
Proof.
  intros Hc Hd. revert c Hc. induction Hd as [|d data Hd _ IH]; intros c Hc; [done|].
  cbn [rc4_encryptBlock]. pose proof (rc4_byte_involutive c d Hc Hd) as Hinv.
  pose proof (rc4_byte_ok c d Hc) as Hok.
  destruct (rc4_byte c d) as [o c1] eqn:E1. cbn [fst snd] in Hinv, Hok.
  pose proof (IH c1 Hok) as IH1.
  destruct (rc4_encryptBlock c1 data) as [os c2]. cbn [fst rc4_encryptBlock] in *.
  rewrite Hinv. destruct (rc4_encryptBlock c1 os) as [ds c3]. simpl in *. by rewrite IH1.
Qed.

Lemma indices_bytes n : n <= 256 -> Forall is_byte (indices n).
Proof.
  intros Hn. unfold indices. apply Forall_map, Forall_forall. intros k Hk.
  apply elem_of_seq in Hk. unfold is_byte, compose. lia.
Qed.

Lemma rc4_schedule_ok key l sj :
  Forall is_byte (fst sj) -> Forall is_byte (fst (fold_left (rc4_schedule_step key) l sj)).
Proof.
  revert sj. induction l as [|i l IH]; intros [s j] Hs; simpl in *; [done|].
  apply IH. simpl. auto using Forall_arr_set, at_byte.
Qed.

Lemma new_rc4_ok key : rc4_ok (new_ARCFourCipher key).
Proof.
  unfold rc4_ok, new_ARCFourCipher.
  pose proof (rc4_schedule_ok key (indices 256) (indices 256, 0) (indices_bytes 256 ltac:(lia))) as H.
  by destruct (fold_left _ _ _).
Qed.

(** A second RC4 object made from the same key decrypts what the first
    encrypted, whatever the key and however the plaintext and the ciphertext
    are cut into blocks. *)
Theorem rc4_roundtrip key plain cipher
  (Hbytes : Forall is_byte (concat plain))
  (Hcut : concat cipher = concat (rc4_blocks (new_ARCFourCipher key) plain)) :
  concat (rc4_blocks (new_ARCFourCipher key) cipher) = concat plain.
Proof.
  rewrite rc4_blocks_concat, Hcut, rc4_blocks_concat.
  apply rc4_involutive; [apply new_rc4_ok|done].
Qed.

Lemma rc4_roundtrip_witness :
  concat (rc4_blocks (new_ARCFourCipher [75; 101; 121])
    [[0xBB; 0xF3]; []; [0x16; 0xE8; 0xD9; 0x40; 0xAF]; [0x0A; 0xD3]]) =
  [80; 108; 97; 105; 110; 116; 101; 120; 116].
Proof.
  apply (rc4_roundtrip [75; 101; 121] [[80; 108; 97; 105]; [110; 116; 101; 120; 116]]).
  - repeat constructor; unfold is_byte; lia.
  - vm_compute. reflexivity.
Defined.
