(* ===== verification/Decrypt.v ===== *)
(** * Decrypting streams

    [DecryptStream] of pdf.worker.mjs: the source is cut into blocks of
    [chunkSize] bytes, read one ahead so that the cipher is told which block
    is the last.  The cipher is a function on the cipher object's state, so
    the stream is proved once for every cipher: it decodes to what the cipher
    makes of the blocks in order, the last one finalised. *)
From S2P Require Import Prelude ByteStream DecodeStream Rc4.
Local Open Scope js_scope.

Definition chunkSize : Z := 512.

(** [decrypt(data, finalize)] on the state of the cipher object. *)
Class Cipher (C : Type) := { decryptBlock : list Z -> bool -> C -> list Z * C }.

(** The fields the class adds: the chunk read ahead and the cipher. *)
Record Dec (C : Type) := mkDec { nextChunk : option (list Z); cipher : C }.
Arguments mkDec {C}. Arguments nextChunk {C}. Arguments cipher {C}.

Section DecryptStream.
Context {S : Type} `{ByteSource S} {C : Type} `{Cipher C}.
Abbreviation st := (DS S (Dec C)).

Definition new_DecryptStream (str : S) (maybeLength : jsnum) (c : C) : st :=
  new_DecodeStream maybeLength str (mkDec None c).

Definition dec_readBlock : M st unit :=
  x <- gets ext ;;
  chunk <- (match nextChunk x with
            | Some chunk => mret chunk
            | None => on_stream (getBytes chunkSize)
            end) ;;
  if len chunk =? 0 then modify (set_eof true)
  else
    next <- on_stream (getBytes chunkSize) ;;
    let hasMoreData := 0 <? len next in
    let '(chunk, c) := decryptBlock chunk (negb hasMoreData) (cipher x) in
    modify (set_ext (mkDec (Some next) c)) ;;;
    emit chunk.

#[export] Instance dec_decoder : Decoder S (Dec C) := { readBlock := dec_readBlock }.
End DecryptStream.

(** ** Specification *)
Section Spec.
Context {C : Type} `{Cipher C}.

(** The source cut into chunks, each decrypted in turn. *)
Fixpoint decrypt_chunks (fuel : nat) (c : C) (r : list Z) : list Z :=
  match fuel, r with
  | O, _ | _, [] => []
  | Datatypes.S fuel', _ =>
      let n := Z.to_nat chunkSize in
      let '(o, c') := decryptBlock (take n r) (len (drop n r) =? 0) c in
      o ++ decrypt_chunks fuel' c' (drop n r)
  end.

Definition decrypt_all (c : C) (r : list Z) : list Z := decrypt_chunks (length r) c r.

Lemma decrypt_chunks_fuel f1 f2 c r :
  (length r <= f1)%nat -> (length r <= f2)%nat ->
  decrypt_chunks f1 c r = decrypt_chunks f2 c r.
Proof.
  revert f2 c r. induction f1 as [|f1 IH]; intros [|f2] c r H1 H2;
    try (destruct r; [done|simpl in *; lia]).
  simpl. destruct r as [|b r]; [done|].
  destruct (decryptBlock _ _ c) as [o c']. f_equal. change (Pos.to_nat 512) with (Z.to_nat 512).
  assert (1 <= Z.to_nat 512)%nat by lia.
  apply IH; rewrite length_drop; simpl in *; lia.
Qed.

(** The cipher maps bytes to bytes. *)
Class CipherBytes := {
  cipher_ok : C -> Prop;
  cipher_bytes c data fin :
    cipher_ok c -> Forall is_byte data ->
    Forall is_byte (fst (decryptBlock data fin c)) /\ cipher_ok (snd (decryptBlock data fin c))
}.
End Spec.
Arguments CipherBytes C {_}.

(** ** Contract *)
Section Contract.
Context {S : Type} `{SourceSpec S} {C : Type} `{CipherBytes C}.
Implicit Type d : DS S (Dec C).

(** What is left of the source, the chunk read ahead included. *)
Definition dec_source (s : S) (x : Dec C) (full : list Z) : Prop :=
  match nextChunk x with
  | None => rest s full
  | Some chunk =>
      chunk = take (Z.to_nat chunkSize) full /\ rest s (drop (Z.to_nat chunkSize) full)
  end.

Lemma read_chunk s r :
  rest s r -> exists s', getBytes chunkSize s = (Ok (take (Z.to_nat chunkSize) r), s') /\
    rest s' (drop (Z.to_nat chunkSize) r).
Proof.
  intros Hr. destruct (rest_getBytes s r chunkSize Hr) as (s' & ? & ? & _); [done|]. eauto.
Qed.

(** Whether the chunk was read ahead or is read now. *)
Lemma dec_chunk d full :
  dec_source (stream d) (ext d) full ->
  exists s1, (match nextChunk (ext d) with
              | Some chunk => mret chunk
              | None => on_stream (getBytes chunkSize)
              end) d = (Ok (take (Z.to_nat chunkSize) full), set_stream s1 d) /\
    rest s1 (drop (Z.to_nat chunkSize) full).
Proof.
  unfold dec_source. destruct (nextChunk (ext d)) as [chunk|].
  - intros [-> Hr]. exists (stream d). by destruct d.
  - intros Hr. destruct (read_chunk _ _ Hr) as (s1 & Hg & Hr1).
    exists s1. m_red. by rewrite Hg.
Qed.

Lemma chunk_bytes s x full : dec_source s x full -> cipher_ok (cipher x) ->
  Forall is_byte (take (Z.to_nat chunkSize) full) -> Forall is_byte full.
Proof.
  unfold dec_source. intros Hs _ Ht.
  rewrite <- (take_drop (Z.to_nat chunkSize) full). apply Forall_app. split; [done|].
  destruct (nextChunk x) as [c|]; [destruct Hs as [_ Hr]; by eapply rest_bytes|].
  apply Forall_drop. by eapply rest_bytes.
Qed.

Lemma take_all_nil {A} (l : list A) : take (Z.to_nat chunkSize) l = [] -> l = [].
Proof.
  assert (1 <= Z.to_nat chunkSize)%nat by (unfold chunkSize; lia).
  destruct l, (Z.to_nat chunkSize); simpl; try done; lia.
Qed.

Lemma dec_step d full :
  buf_ok d -> eof d = false -> dec_source (stream d) (ext d) full -> full <> [] ->
  Forall is_byte full -> cipher_ok (cipher (ext d)) ->
  let '(o, c') := decryptBlock (take (Z.to_nat chunkSize) full)
                    (len (drop (Z.to_nat chunkSize) full) =? 0) (cipher (ext d)) in
  exists d', dec_readBlock d = (Ok tt, d') /\ appends d d' o /\ eof d' = false /\
    dec_source (stream d') (ext d') (drop (Z.to_nat chunkSize) full) /\
    cipher (ext d') = c'.
Proof.
  intros Hok He Hs Hne Hb Hc.
  destruct (dec_chunk d full Hs) as (s1 & Hchunk & Hr1).
  destruct (read_chunk s1 _ Hr1) as (s2 & Hnext & Hr2).
  set (k := Z.to_nat chunkSize) in *.
  destruct (cipher_bytes (cipher (ext d)) (take k full) (len (drop k full) =? 0) Hc)
    as [Hob Hc']; [by apply Forall_take|].
  destruct (decryptBlock (take k full) (len (drop k full) =? 0) (cipher (ext d)))
    as [o c'] eqn:Ed. simpl in Hob, Hc'.
  assert (Hlast : negb (0 <? len (take k (drop k full))) = (len (drop k full) =? 0)).
  { destruct (drop k full) as [|b r] eqn:Edr; [by rewrite take_nil|].
    destruct (take k (b :: r)) as [|b' r'] eqn:Et; [by apply take_all_nil in Et|].
    rewrite !len_cons. pose proof (len_nonneg r). pose proof (len_nonneg r').
    by repeat ztest. }
  destruct (emit_ok (set_ext (mkDec (Some (take k (drop k full))) c')
    (set_stream s2 (set_stream s1 d))) o) as (d' & Hemit & Ha & Hsame);
    [by apply (buf_ok_same d)|done|].
  exists d'. split.
  - unfold dec_readBlock. unfold mbind at 1, gets at 1. unfold mbind at 1.
    rewrite Hchunk. assert (Hlen : (len (take k full) =? 0) = false).
    { destruct (take k full) as [|b r] eqn:Et; [by apply take_all_nil in Et|].
      rewrite len_cons. pose proof (len_nonneg r). by ztest. }
    rewrite Hlen. m_red. ds_simpl. rewrite Hnext, Hlast, Ed. exact Hemit.
  - destruct Hsame as (Hef & _ & Hst & Hx). simpl in Hef, Hst, Hx.
    rewrite Hst, Hx, Hef. split_and!; auto.
    + destruct Ha as [? ? ? ?]. by split.
    + by split.
Qed.
End Contract.

#[export] Program Instance dec_spec {S} `{SourceSpec S} {C} `{CipherBytes C} :
  DecoderSpec S (Dec C) := {
  todo s x done out n :=
    exists full, dec_source s x full /\ Forall is_byte full /\ cipher_ok (cipher x) /\
      out = decrypt_all (cipher x) full /\ n = Datatypes.S (length full)
}.
Next Obligation.
  intros S ? ? C ? ? d out n Hok He (full & Hs & Hb & Hc & -> & ->). simpl.
  destruct (decide (full = [])) as [->|Hne].
  - destruct (dec_chunk d [] Hs) as (s1 & Hchunk & _).
    exists (set_eof true (set_stream s1 d)), [], [], 0%nat.
    split_and!; [|by apply appends_nothing|done|simpl; lia|done].
    unfold dec_readBlock. unfold mbind at 1, gets at 1. unfold mbind at 1.
    rewrite Hchunk. by rewrite take_nil.
  - pose proof (dec_step d full Hok He Hs Hne Hb Hc) as Hstep.
    pose proof (cipher_bytes (cipher (ext d)) (take (Z.to_nat chunkSize) full)
      (len (drop (Z.to_nat chunkSize) full) =? 0) Hc ltac:(by apply Forall_take)) as [_ Hc'].
    unfold decrypt_all. destruct full as [|b full]; [done|].
    cbn [length decrypt_chunks]. set (k := Z.to_nat chunkSize) in *.
    assert (1 <= k)%nat by (unfold k, chunkSize; lia).
    destruct (decryptBlock _ _ (cipher (ext d))) as [o c'] eqn:Ed. simpl in Hc'.
    destruct Hstep as (d' & Hrun & Ha & He' & Hs' & Hx).
    exists d', o, (decrypt_all c' (drop k (b :: full))),
      (Datatypes.S (length (drop k (b :: full)))).
    rewrite He', Hx. split_and!; auto.
    + f_equal. apply decrypt_chunks_fuel; [rewrite length_drop; simpl; lia|done].
    + rewrite length_drop. simpl. lia.
    + exists (drop k (b :: full)). split_and!; auto; by apply Forall_drop.
Qed.

(** ** RC4 *)

#[export] Instance rc4_cipher : Cipher ARCFourCipher := {
  decryptBlock data _ c := rc4_decryptBlock c data
}.

Lemma rc4_block_ok c data :
  rc4_ok c -> Forall is_byte data ->
  Forall is_byte (fst (rc4_encryptBlock c data)) /\ rc4_ok (snd (rc4_encryptBlock c data)).
Proof.
  intros Hc Hd. revert c Hc. induction Hd as [|d data Hd _ IH]; intros c Hc; [done|].
  cbn [rc4_encryptBlock]. pose proof (rc4_byte_ok c d Hc) as Hok.
  assert (Hb : is_byte (fst (rc4_byte c d))) by apply is_byte_u8.
  destruct (rc4_byte c d) as [o c1]. simpl in *. destruct (IH c1 Hok) as [IH1 IH2].
  destruct (rc4_encryptBlock c1 data). simpl in *. auto.
Qed.

#[export] Program Instance rc4_cipher_bytes : CipherBytes ARCFourCipher := {
  cipher_ok := rc4_ok
}.
Next Obligation. intros. by apply rc4_block_ok. Qed.

Lemma rc4_decrypt_all fuel c r :
  (length r <= fuel)%nat -> decrypt_chunks fuel c r = fst (rc4_encryptBlock c r).
Proof.
  revert c r. induction fuel as [|fuel IH]; intros c r Hl.
  - destruct r; [done|simpl in Hl; lia].
  - destruct r as [|b r]; [done|]. cbn [decrypt_chunks].
    set (k := Z.to_nat chunkSize). assert (1 <= k)%nat by (unfold k, chunkSize; lia).
    assert (Happ := rc4_app c (take k (b :: r)) (drop k (b :: r))).
    rewrite take_drop in Happ. rewrite Happ.
    cbn [decryptBlock rc4_cipher]. unfold rc4_decryptBlock.
    destruct (rc4_encryptBlock c (take k (b :: r))) as [o c1].
    rewrite IH by (rewrite length_drop; simpl in *; lia).
    by destruct (rc4_encryptBlock c1 (drop k (b :: r))).
Qed.

(** A decrypting stream over an RC4-encrypted source returns the
    plaintext: chunking the source, reading a chunk ahead and the growing
    buffer lose and duplicate nothing, over any stream. *)
Theorem rc4_stream_decrypts {S} `{SourceSpec S} (fuel : nat) (s : S) hint key plain
  (Hbytes : Forall is_byte plain)
  (Hrest : rest s (fst (rc4_encrypt (new_ARCFourCipher key) plain)))
  (Hfuel : (length plain < fuel)%nat) :
  fst (getBytes (ByteSource := DS_source (H := dec_decoder) fuel) 0
         (new_DecryptStream s hint (new_ARCFourCipher key))) = Ok plain.
Proof.
  assert (Hlen : forall c l, length (fst (rc4_encryptBlock c l)) = length l).
  { intros c l. revert c. induction l as [|d l IH]; intros c; [done|].
    cbn [rc4_encryptBlock]. destruct (rc4_byte c d) as [o c1]. specialize (IH c1).
    destruct (rc4_encryptBlock c1 l). simpl in *. congruence. }
  pose proof (rc4_block_ok _ plain (new_rc4_ok key) Hbytes) as [Hcb _].
  unfold rc4_encrypt in Hrest.
  apply ds_read_all with (Datatypes.S (length plain)); [|done|lia].
  exists (fst (rc4_encryptBlock (new_ARCFourCipher key) plain)).
  split_and!; auto; [apply new_rc4_ok|].
  simpl. unfold decrypt_all. rewrite rc4_decrypt_all by done. symmetry.
  apply rc4_involutive; [apply new_rc4_ok|done].
Qed.

Lemma rc4_stream_decrypts_witness :
  fst (getBytes (ByteSource := DS_source (H := dec_decoder) 10) 0
    (new_DecryptStream
      (new_Stream [0xBB; 0xF3; 0x16; 0xE8; 0xD9; 0x40; 0xAF; 0x0A; 0xD3] None None) None
      (new_ARCFourCipher [75; 101; 121])))
    = Ok [80; 108; 97; 105; 110; 116; 101; 120; 116].
Proof.
  apply (rc4_stream_decrypts 10).
  - repeat constructor; unfold is_byte; lia.
  - replace (fst (rc4_encrypt _ _)) with [0xBB; 0xF3; 0x16; 0xE8; 0xD9; 0x40; 0xAF; 0x0A; 0xD3]
      by (vm_compute; reflexivity).
    apply new_Stream_rest. repeat constructor; unfold is_byte; lia.
  - simpl. lia.
Defined.
