(* ===== verification/Aes.v ===== *)
(** * AES

    [AESBaseCipher], [AES128Cipher] and [AES256Cipher] of pdf.worker.mjs: the
    block cipher with its tables, the CBC modes with the padding removed from
    the last block, and the key schedules.  Decryption is proved to invert
    encryption, block by block and for whole messages. *)
From Stdlib Require Import Btauto.
From S2P Require Import Prelude JsBits ByteStream DecodeStream Rc4 Decrypt.
Local Open Scope js_scope.

(** ** Tables *)

Definition aes_s : list Z := [
   0x63; 0x7c; 0x77; 0x7b; 0xf2; 0x6b; 0x6f; 0xc5; 0x30; 0x1; 0x67; 0x2b; 0xfe; 0xd7; 0xab;
   0x76; 0xca; 0x82; 0xc9; 0x7d; 0xfa; 0x59; 0x47; 0xf0; 0xad; 0xd4; 0xa2; 0xaf; 0x9c; 0xa4;
   0x72; 0xc0; 0xb7; 0xfd; 0x93; 0x26; 0x36; 0x3f; 0xf7; 0xcc; 0x34; 0xa5; 0xe5; 0xf1; 0x71;
   0xd8; 0x31; 0x15; 0x4; 0xc7; 0x23; 0xc3; 0x18; 0x96; 0x5; 0x9a; 0x7; 0x12; 0x80; 0xe2; 0xeb;
   0x27; 0xb2; 0x75; 0x9; 0x83; 0x2c; 0x1a; 0x1b; 0x6e; 0x5a; 0xa0; 0x52; 0x3b; 0xd6; 0xb3;
   0x29; 0xe3; 0x2f; 0x84; 0x53; 0xd1; 0x0; 0xed; 0x20; 0xfc; 0xb1; 0x5b; 0x6a; 0xcb; 0xbe;
   0x39; 0x4a; 0x4c; 0x58; 0xcf; 0xd0; 0xef; 0xaa; 0xfb; 0x43; 0x4d; 0x33; 0x85; 0x45; 0xf9;
   0x2; 0x7f; 0x50; 0x3c; 0x9f; 0xa8; 0x51; 0xa3; 0x40; 0x8f; 0x92; 0x9d; 0x38; 0xf5; 0xbc;
   0xb6; 0xda; 0x21; 0x10; 0xff; 0xf3; 0xd2; 0xcd; 0xc; 0x13; 0xec; 0x5f; 0x97; 0x44; 0x17;
   0xc4; 0xa7; 0x7e; 0x3d; 0x64; 0x5d; 0x19; 0x73; 0x60; 0x81; 0x4f; 0xdc; 0x22; 0x2a; 0x90;
   0x88; 0x46; 0xee; 0xb8; 0x14; 0xde; 0x5e; 0xb; 0xdb; 0xe0; 0x32; 0x3a; 0xa; 0x49; 0x6; 0x24;
   0x5c; 0xc2; 0xd3; 0xac; 0x62; 0x91; 0x95; 0xe4; 0x79; 0xe7; 0xc8; 0x37; 0x6d; 0x8d; 0xd5;
   0x4e; 0xa9; 0x6c; 0x56; 0xf4; 0xea; 0x65; 0x7a; 0xae; 0x8; 0xba; 0x78; 0x25; 0x2e; 0x1c;
   0xa6; 0xb4; 0xc6; 0xe8; 0xdd; 0x74; 0x1f; 0x4b; 0xbd; 0x8b; 0x8a; 0x70; 0x3e; 0xb5; 0x66;
   0x48; 0x3; 0xf6; 0xe; 0x61; 0x35; 0x57; 0xb9; 0x86; 0xc1; 0x1d; 0x9e; 0xe1; 0xf8; 0x98;
   0x11; 0x69; 0xd9; 0x8e; 0x94; 0x9b; 0x1e; 0x87; 0xe9; 0xce; 0x55; 0x28; 0xdf; 0x8c; 0xa1;
   0x89; 0xd; 0xbf; 0xe6; 0x42; 0x68; 0x41; 0x99; 0x2d; 0xf; 0xb0; 0x54; 0xbb; 0x16].

Definition aes_inv_s : list Z := [
   0x52; 0x9; 0x6a; 0xd5; 0x30; 0x36; 0xa5; 0x38; 0xbf; 0x40; 0xa3; 0x9e; 0x81; 0xf3; 0xd7;
   0xfb; 0x7c; 0xe3; 0x39; 0x82; 0x9b; 0x2f; 0xff; 0x87; 0x34; 0x8e; 0x43; 0x44; 0xc4; 0xde;
   0xe9; 0xcb; 0x54; 0x7b; 0x94; 0x32; 0xa6; 0xc2; 0x23; 0x3d; 0xee; 0x4c; 0x95; 0xb; 0x42;
   0xfa; 0xc3; 0x4e; 0x8; 0x2e; 0xa1; 0x66; 0x28; 0xd9; 0x24; 0xb2; 0x76; 0x5b; 0xa2; 0x49;
   0x6d; 0x8b; 0xd1; 0x25; 0x72; 0xf8; 0xf6; 0x64; 0x86; 0x68; 0x98; 0x16; 0xd4; 0xa4; 0x5c;
   0xcc; 0x5d; 0x65; 0xb6; 0x92; 0x6c; 0x70; 0x48; 0x50; 0xfd; 0xed; 0xb9; 0xda; 0x5e; 0x15;
   0x46; 0x57; 0xa7; 0x8d; 0x9d; 0x84; 0x90; 0xd8; 0xab; 0x0; 0x8c; 0xbc; 0xd3; 0xa; 0xf7;
   0xe4; 0x58; 0x5; 0xb8; 0xb3; 0x45; 0x6; 0xd0; 0x2c; 0x1e; 0x8f; 0xca; 0x3f; 0xf; 0x2; 0xc1;
   0xaf; 0xbd; 0x3; 0x1; 0x13; 0x8a; 0x6b; 0x3a; 0x91; 0x11; 0x41; 0x4f; 0x67; 0xdc; 0xea;
   0x97; 0xf2; 0xcf; 0xce; 0xf0; 0xb4; 0xe6; 0x73; 0x96; 0xac; 0x74; 0x22; 0xe7; 0xad; 0x35;
   0x85; 0xe2; 0xf9; 0x37; 0xe8; 0x1c; 0x75; 0xdf; 0x6e; 0x47; 0xf1; 0x1a; 0x71; 0x1d; 0x29;
   0xc5; 0x89; 0x6f; 0xb7; 0x62; 0xe; 0xaa; 0x18; 0xbe; 0x1b; 0xfc; 0x56; 0x3e; 0x4b; 0xc6;
   0xd2; 0x79; 0x20; 0x9a; 0xdb; 0xc0; 0xfe; 0x78; 0xcd; 0x5a; 0xf4; 0x1f; 0xdd; 0xa8; 0x33;
   0x88; 0x7; 0xc7; 0x31; 0xb1; 0x12; 0x10; 0x59; 0x27; 0x80; 0xec; 0x5f; 0x60; 0x51; 0x7f;
   0xa9; 0x19; 0xb5; 0x4a; 0xd; 0x2d; 0xe5; 0x7a; 0x9f; 0x93; 0xc9; 0x9c; 0xef; 0xa0; 0xe0;
   0x3b; 0x4d; 0xae; 0x2a; 0xf5; 0xb0; 0xc8; 0xeb; 0xbb; 0x3c; 0x83; 0x53; 0x99; 0x61; 0x17;
   0x2b; 0x4; 0x7e; 0xba; 0x77; 0xd6; 0x26; 0xe1; 0x69; 0x14; 0x63; 0x55; 0x21; 0xc; 0x7d].

Definition aes_mix : list Z := [
   0x0; 0xe090d0b; 0x1c121a16; 0x121b171d; 0x3824342c; 0x362d3927; 0x24362e3a; 0x2a3f2331;
   0x70486858; 0x7e416553; 0x6c5a724e; 0x62537f45; 0x486c5c74; 0x4665517f; 0x547e4662;
   0x5a774b69; 0xe090d0b0; 0xee99ddbb; 0xfc82caa6; 0xf28bc7ad; 0xd8b4e49c; 0xd6bde997;
   0xc4a6fe8a; 0xcaaff381; 0x90d8b8e8; 0x9ed1b5e3; 0x8ccaa2fe; 0x82c3aff5; 0xa8fc8cc4;
   0xa6f581cf; 0xb4ee96d2; 0xbae79bd9; 0xdb3bbb7b; 0xd532b670; 0xc729a16d; 0xc920ac66;
   0xe31f8f57; 0xed16825c; 0xff0d9541; 0xf104984a; 0xab73d323; 0xa57ade28; 0xb761c935;
   0xb968c43e; 0x9357e70f; 0x9d5eea04; 0x8f45fd19; 0x814cf012; 0x3bab6bcb; 0x35a266c0;
   0x27b971dd; 0x29b07cd6; 0x38f5fe7; 0xd8652ec; 0x1f9d45f1; 0x119448fa; 0x4be30393;
   0x45ea0e98; 0x57f11985; 0x59f8148e; 0x73c737bf; 0x7dce3ab4; 0x6fd52da9; 0x61dc20a2;
   0xad766df6; 0xa37f60fd; 0xb16477e0; 0xbf6d7aeb; 0x955259da; 0x9b5b54d1; 0x894043cc;
   0x87494ec7; 0xdd3e05ae; 0xd33708a5; 0xc12c1fb8; 0xcf2512b3; 0xe51a3182; 0xeb133c89;
   0xf9082b94; 0xf701269f; 0x4de6bd46; 0x43efb04d; 0x51f4a750; 0x5ffdaa5b; 0x75c2896a;
   0x7bcb8461; 0x69d0937c; 0x67d99e77; 0x3daed51e; 0x33a7d815; 0x21bccf08; 0x2fb5c203;
   0x58ae132; 0xb83ec39; 0x1998fb24; 0x1791f62f; 0x764dd68d; 0x7844db86; 0x6a5fcc9b;
   0x6456c190; 0x4e69e2a1; 0x4060efaa; 0x527bf8b7; 0x5c72f5bc; 0x605bed5; 0x80cb3de;
   0x1a17a4c3; 0x141ea9c8; 0x3e218af9; 0x302887f2; 0x223390ef; 0x2c3a9de4; 0x96dd063d;
   0x98d40b36; 0x8acf1c2b; 0x84c61120; 0xaef93211; 0xa0f03f1a; 0xb2eb2807; 0xbce2250c;
   0xe6956e65; 0xe89c636e; 0xfa877473; 0xf48e7978; 0xdeb15a49; 0xd0b85742; 0xc2a3405f;
   0xccaa4d54; 0x41ecdaf7; 0x4fe5d7fc; 0x5dfec0e1; 0x53f7cdea; 0x79c8eedb; 0x77c1e3d0;
   0x65daf4cd; 0x6bd3f9c6; 0x31a4b2af; 0x3fadbfa4; 0x2db6a8b9; 0x23bfa5b2; 0x9808683;
   0x7898b88; 0x15929c95; 0x1b9b919e; 0xa17c0a47; 0xaf75074c; 0xbd6e1051; 0xb3671d5a;
   0x99583e6b; 0x97513360; 0x854a247d; 0x8b432976; 0xd134621f; 0xdf3d6f14; 0xcd267809;
   0xc32f7502; 0xe9105633; 0xe7195b38; 0xf5024c25; 0xfb0b412e; 0x9ad7618c; 0x94de6c87;
   0x86c57b9a; 0x88cc7691; 0xa2f355a0; 0xacfa58ab; 0xbee14fb6; 0xb0e842bd; 0xea9f09d4;
   0xe49604df; 0xf68d13c2; 0xf8841ec9; 0xd2bb3df8; 0xdcb230f3; 0xcea927ee; 0xc0a02ae5;
   0x7a47b13c; 0x744ebc37; 0x6655ab2a; 0x685ca621; 0x42638510; 0x4c6a881b; 0x5e719f06;
   0x5078920d; 0xa0fd964; 0x406d46f; 0x161dc372; 0x1814ce79; 0x322bed48; 0x3c22e043;
   0x2e39f75e; 0x2030fa55; 0xec9ab701; 0xe293ba0a; 0xf088ad17; 0xfe81a01c; 0xd4be832d;
   0xdab78e26; 0xc8ac993b; 0xc6a59430; 0x9cd2df59; 0x92dbd252; 0x80c0c54f; 0x8ec9c844;
   0xa4f6eb75; 0xaaffe67e; 0xb8e4f163; 0xb6edfc68; 0xc0a67b1; 0x2036aba; 0x10187da7;
   0x1e1170ac; 0x342e539d; 0x3a275e96; 0x283c498b; 0x26354480; 0x7c420fe9; 0x724b02e2;
   0x605015ff; 0x6e5918f4; 0x44663bc5; 0x4a6f36ce; 0x587421d3; 0x567d2cd8; 0x37a10c7a;
   0x39a80171; 0x2bb3166c; 0x25ba1b67; 0xf853856; 0x18c355d; 0x13972240; 0x1d9e2f4b;
   0x47e96422; 0x49e06929; 0x5bfb7e34; 0x55f2733f; 0x7fcd500e; 0x71c45d05; 0x63df4a18;
   0x6dd64713; 0xd731dcca; 0xd938d1c1; 0xcb23c6dc; 0xc52acbd7; 0xef15e8e6; 0xe11ce5ed;
   0xf307f2f0; 0xfd0efffb; 0xa779b492; 0xa970b999; 0xbb6bae84; 0xb562a38f; 0x9f5d80be;
   0x91548db5; 0x834f9aa8; 0x8d4697a3].

(** [_mixCol]: [i < 128 ? i << 1 : i << 1 ^ 0x1b], stored as bytes. *)
Definition aes_mixCol : list Z :=
  map (fun i => to_u8 (if i <? 128 then i .<< 1 else (i .<< 1) .^ 0x1b)) (indices 256).

Definition aes_rcon : list Z := [
   0x8d; 0x1; 0x2; 0x4; 0x8; 0x10; 0x20; 0x40; 0x80; 0x1b; 0x36; 0x6c; 0xd8; 0xab; 0x4d; 0x9a;
   0x2f; 0x5e; 0xbc; 0x63; 0xc6; 0x97; 0x35; 0x6a; 0xd4; 0xb3; 0x7d; 0xfa; 0xef; 0xc5; 0x91;
   0x39; 0x72; 0xe4; 0xd3; 0xbd; 0x61; 0xc2; 0x9f; 0x25; 0x4a; 0x94; 0x33; 0x66; 0xcc; 0x83;
   0x1d; 0x3a; 0x74; 0xe8; 0xcb; 0x8d; 0x1; 0x2; 0x4; 0x8; 0x10; 0x20; 0x40; 0x80; 0x1b; 0x36;
   0x6c; 0xd8; 0xab; 0x4d; 0x9a; 0x2f; 0x5e; 0xbc; 0x63; 0xc6; 0x97; 0x35; 0x6a; 0xd4; 0xb3;
   0x7d; 0xfa; 0xef; 0xc5; 0x91; 0x39; 0x72; 0xe4; 0xd3; 0xbd; 0x61; 0xc2; 0x9f; 0x25; 0x4a;
   0x94; 0x33; 0x66; 0xcc; 0x83; 0x1d; 0x3a; 0x74; 0xe8; 0xcb; 0x8d; 0x1; 0x2; 0x4; 0x8; 0x10;
   0x20; 0x40; 0x80; 0x1b; 0x36; 0x6c; 0xd8; 0xab; 0x4d; 0x9a; 0x2f; 0x5e; 0xbc; 0x63; 0xc6;
   0x97; 0x35; 0x6a; 0xd4; 0xb3; 0x7d; 0xfa; 0xef; 0xc5; 0x91; 0x39; 0x72; 0xe4; 0xd3; 0xbd;
   0x61; 0xc2; 0x9f; 0x25; 0x4a; 0x94; 0x33; 0x66; 0xcc; 0x83; 0x1d; 0x3a; 0x74; 0xe8; 0xcb;
   0x8d; 0x1; 0x2; 0x4; 0x8; 0x10; 0x20; 0x40; 0x80; 0x1b; 0x36; 0x6c; 0xd8; 0xab; 0x4d; 0x9a;
   0x2f; 0x5e; 0xbc; 0x63; 0xc6; 0x97; 0x35; 0x6a; 0xd4; 0xb3; 0x7d; 0xfa; 0xef; 0xc5; 0x91;
   0x39; 0x72; 0xe4; 0xd3; 0xbd; 0x61; 0xc2; 0x9f; 0x25; 0x4a; 0x94; 0x33; 0x66; 0xcc; 0x83;
   0x1d; 0x3a; 0x74; 0xe8; 0xcb; 0x8d; 0x1; 0x2; 0x4; 0x8; 0x10; 0x20; 0x40; 0x80; 0x1b; 0x36;
   0x6c; 0xd8; 0xab; 0x4d; 0x9a; 0x2f; 0x5e; 0xbc; 0x63; 0xc6; 0x97; 0x35; 0x6a; 0xd4; 0xb3;
   0x7d; 0xfa; 0xef; 0xc5; 0x91; 0x39; 0x72; 0xe4; 0xd3; 0xbd; 0x61; 0xc2; 0x9f; 0x25; 0x4a;
   0x94; 0x33; 0x66; 0xcc; 0x83; 0x1d; 0x3a; 0x74; 0xe8; 0xcb; 0x8d].

(** An entry of a table. *)
Definition tbl (t : list Z) (i : Z) : Z := at_ t i.

(** ** One block *)

(** [for (let j = 0; j < 16; ++j) state[j] = f(j, state[j])] *)
Definition for16 (f : Z -> Z -> Z) (state : list Z) : list Z :=
  fold_left (fun state j => arr_set state j (to_u8 (f j (at_ state j)))) (indices 16) state.

(** [state[j] ^= key[k]], from [k = k0] *)
Definition aes_add_key (key : list Z) (k0 : Z) (state : list Z) : list Z :=
  for16 (fun j v => v .^ at_ key (k0 + j)) state.

Definition aes_inv_shift_rows (state : list Z) : list Z :=
  let t := at_ state 13 in
  let state := arr_set state 13 (at_ state 9) in
  let state := arr_set state 9 (at_ state 5) in
  let state := arr_set state 5 (at_ state 1) in
  let state := arr_set state 1 t in
  let t := at_ state 14 in
  let u := at_ state 10 in
  let state := arr_set state 14 (at_ state 6) in
  let state := arr_set state 10 (at_ state 2) in
  let state := arr_set state 6 t in
  let state := arr_set state 2 u in
  let t := at_ state 15 in
  let u := at_ state 11 in
  let v := at_ state 7 in
  let state := arr_set state 15 (at_ state 3) in
  let state := arr_set state 11 t in
  let state := arr_set state 7 u in
  let state := arr_set state 3 v in
  state.

Definition aes_shift_rows (state : list Z) : list Z :=
  let v := at_ state 1 in
  let state := arr_set state 1 (at_ state 5) in
  let state := arr_set state 5 (at_ state 9) in
  let state := arr_set state 9 (at_ state 13) in
  let state := arr_set state 13 v in
  let v := at_ state 2 in
  let u := at_ state 6 in
  let state := arr_set state 2 (at_ state 10) in
  let state := arr_set state 6 (at_ state 14) in
  let state := arr_set state 10 v in
  let state := arr_set state 14 u in
  let v := at_ state 3 in
  let u := at_ state 7 in
  let t := at_ state 11 in
  let state := arr_set state 3 (at_ state 15) in
  let state := arr_set state 7 v in
  let state := arr_set state 11 u in
  let state := arr_set state 15 t in
  state.

(** The column at [j] in [_decrypt]. *)
Definition aes_inv_mix_column (state : list Z) (j : Z) : list Z :=
  let s0 := tbl aes_mix (at_ state j) in
  let s1 := tbl aes_mix (at_ state (j + 1)) in
  let s2 := tbl aes_mix (at_ state (j + 2)) in
  let s3 := tbl aes_mix (at_ state (j + 3)) in
  let t := s0 .^ (s1 .>>> 8) .^ (s1 .<< 24) .^ (s2 .>>> 16) .^ (s2 .<< 16)
           .^ (s3 .>>> 24) .^ (s3 .<< 8) in
  let state := arr_set state j (to_u8 ((t .>>> 24) .& 0xff)) in
  let state := arr_set state (j + 1) (to_u8 ((t .>> 16) .& 0xff)) in
  let state := arr_set state (j + 2) (to_u8 ((t .>> 8) .& 0xff)) in
  arr_set state (j + 3) (to_u8 (t .& 0xff)).

(** The column at [j] in [_encrypt]. *)
Definition aes_mix_column (state : list Z) (j : Z) : list Z :=
  let s0 := at_ state j in
  let s1 := at_ state (j + 1) in
  let s2 := at_ state (j + 2) in
  let s3 := at_ state (j + 3) in
  let t := s0 .^ s1 .^ s2 .^ s3 in
  let state := arr_set state j (to_u8 (s0 .^ (t .^ tbl aes_mixCol (s0 .^ s1)))) in
  let state := arr_set state (j + 1) (to_u8 (s1 .^ (t .^ tbl aes_mixCol (s1 .^ s2)))) in
  let state := arr_set state (j + 2) (to_u8 (s2 .^ (t .^ tbl aes_mixCol (s2 .^ s3)))) in
  arr_set state (j + 3) (to_u8 (s3 .^ (t .^ tbl aes_mixCol (s3 .^ s0)))).

(** [for (let j = 0; j < 16; j += 4)] *)
Definition columns4 : list Z := [0; 4; 8; 12].

Section Block.
(** [_cyclesOfRepetition] and [_keySize]. *)
Variables (cyclesOfRepetition keySize : Z).

(** The values of [i] from 1 to [cyclesOfRepetition - 1]. *)
Definition rounds : list Z := map (fun i => i + 1) (indices (cyclesOfRepetition - 1)).

Definition aes_decrypt_round (key : list Z) (state : list Z) (i : Z) : list Z :=
  let state := aes_inv_shift_rows state in
  let state := for16 (fun _ v => tbl aes_inv_s v) state in
  let state := aes_add_key key (i * 16) state in
  fold_left aes_inv_mix_column columns4 state.

Definition aes_decrypt (input key : list Z) : list Z :=
  let state := blit (zeros 16) input 0 in
  let state := aes_add_key key keySize state in
  let state := fold_left (aes_decrypt_round key) (rev rounds) state in
  let state := aes_inv_shift_rows state in
  for16 (fun j v => to_u8 (tbl aes_inv_s v) .^ at_ key j) state.

Definition aes_encrypt_round (key : list Z) (state : list Z) (i : Z) : list Z :=
  let state := for16 (fun _ v => tbl aes_s v) state in
  let state := aes_shift_rows state in
  let state := fold_left aes_mix_column columns4 state in
  aes_add_key key (i * 16) state.

Definition aes_encrypt (input key : list Z) : list Z :=
  let state := blit (zeros 16) input 0 in
  let state := aes_add_key key 0 state in
  let state := fold_left (aes_encrypt_round key) rounds state in
  let state := for16 (fun _ v => tbl aes_s v) state in
  let state := aes_shift_rows state in
  aes_add_key key keySize state.
End Block.

(** ** Key schedules *)

(** The inner loop: four columns of four bytes, each XORed with the byte
    [back] before it. *)
Fixpoint expand_columns (n : nat) (back : Z) (result : list Z) (j t1 t2 t3 t4 : Z)
    : list Z * Z * (Z * Z * Z * Z) :=
  match n with
  | O => (result, j, (t1, t2, t3, t4))
  | S n' =>
      let t1 := t1 .^ at_ result (j - back) in
      let result := arr_set result j (to_u8 t1) in let j := j + 1 in
      let t2 := t2 .^ at_ result (j - back) in
      let result := arr_set result j (to_u8 t2) in let j := j + 1 in
      let t3 := t3 .^ at_ result (j - back) in
      let result := arr_set result j (to_u8 t3) in let j := j + 1 in
      let t4 := t4 .^ at_ result (j - back) in
      let result := arr_set result j (to_u8 t4) in let j := j + 1 in
      expand_columns n' back result j t1 t2 t3 t4
  end.

(** [AES128Cipher._expandKey]; ten turns fill the 176 bytes. *)
Fixpoint expand128_loop (fuel : nat) (result : list Z) (j i : Z) : list Z :=
  match fuel with
  | O => result
  | S fuel' =>
      if j <? 176 then
        let t1 := tbl aes_s (at_ result (j - 3)) in
        let t2 := tbl aes_s (at_ result (j - 2)) in
        let t3 := tbl aes_s (at_ result (j - 1)) in
        let t4 := tbl aes_s (at_ result (j - 4)) in
        let t1 := t1 .^ at_ aes_rcon i in
        let '(result, j, _) := expand_columns 4 16 result j t1 t2 t3 t4 in
        expand128_loop fuel' result j (i + 1)
      else result
  end.

Definition aes128_expandKey (cipherKey : list Z) : list Z :=
  expand128_loop 10 (blit (zeros 176) cipherKey 0) 16 1.

(** [AES256Cipher._expandKey]; thirteen turns fill the 240 bytes.  [t] keeps
    the four bytes of the last column from one turn to the next. *)
Fixpoint expand256_loop (fuel : nat) (result : list Z) (j r : Z) (t : Z * Z * Z * Z) : list Z :=
  match fuel with
  | O => result
  | S fuel' =>
      if j <? 240 then
        let '(t1, t2, t3, t4) := t in
        let '(t1, t2, t3, t4, r) :=
          if j mod 32 =? 16 then
            (tbl aes_s t1, tbl aes_s t2, tbl aes_s t3, tbl aes_s t4, r)
          else if j mod 32 =? 0 then
            let r' := r .<< 1 in
            (tbl aes_s (at_ result (j - 3)) .^ r, tbl aes_s (at_ result (j - 2)),
             tbl aes_s (at_ result (j - 1)), tbl aes_s (at_ result (j - 4)),
             if 256 <=? r' then (r' .^ 0x1b) .& 0xff else r')
          else (t1, t2, t3, t4, r) in
        let '(result, j, t) := expand_columns 4 32 result j t1 t2 t3 t4 in
        expand256_loop fuel' result j r t
      else result
  end.

Definition aes256_expandKey (cipherKey : list Z) : list Z :=
  expand256_loop 13 (blit (zeros 240) cipherKey 0) 32 1 (0, 0, 0, 0).

(** The test vectors of FIPS 197. *)
Example aes128_vector :
  aes_encrypt 10 160 (map (fun i => i * 17) (indices 16)) (aes128_expandKey (indices 16)) =
  [0x69; 0xc4; 0xe0; 0xd8; 0x6a; 0x7b; 0x04; 0x30; 0xd8; 0xcd; 0xb7; 0x80; 0x70; 0xb4; 0xc5; 0x5a].
Proof. vm_compute. reflexivity. Qed.

Example aes256_vector :
  aes_encrypt 14 224 (map (fun i => i * 17) (indices 16)) (aes256_expandKey (indices 32)) =
  [0x8e; 0xa2; 0xb7; 0xca; 0x51; 0x67; 0x45; 0xbf; 0xea; 0xfc; 0x49; 0x90; 0x4b; 0x49; 0x60; 0x89].
Proof. vm_compute. reflexivity. Qed.

(** ** The cipher object *)

(** [aes_started]: the first call of [decryptBlock] that has its
    initialisation vector replaces the method by [_decryptBlock2].  Both
    methods start at [bufferPosition] and save their position in
    [bufferLength], so [bufferPosition] stays 0. *)
Record AES := mkAES {
  aes_cyclesOfRepetition : Z;
  aes_keySize : Z;
  aes_key : list Z;
  aes_iv : list Z;
  aes_buffer : list Z;
  aes_bufferPosition : Z;
  aes_bufferLength : jsnum;
  aes_started : bool
}.

Definition new_AES128Cipher (key : list Z) : AES :=
  mkAES 10 160 (aes128_expandKey key) [] (zeros 16) 0 None false.

Definition new_AES256Cipher (key : list Z) : AES :=
  mkAES 14 224 (aes256_expandKey key) [] (zeros 16) 0 None false.

Definition set_aes (iv buffer : list Z) (bufferLength : Z) (started : bool) (c : AES) : AES :=
  mkAES (aes_cyclesOfRepetition c) (aes_keySize c) (aes_key c) iv buffer
    (aes_bufferPosition c) (Some bufferLength) started.

Definition aes_xor (block iv : list Z) : list Z := for16 (fun j v => v .^ at_ iv j) block.

(** The loop over the data: the buffer, its length, the chaining block and
    the blocks produced. *)
Fixpoint cbc_decrypt_loop (c : AES) (data buffer : list Z) (bufferLength : Z) (iv : list Z) {struct data}
    : list Z * Z * list Z * list (list Z) :=
  match data with
  | [] => (buffer, bufferLength, iv, [])
  | v :: data' =>
      let buffer := arr_set buffer bufferLength v in
      let bufferLength := bufferLength + 1 in
      if bufferLength <? 16 then cbc_decrypt_loop c data' buffer bufferLength iv
      else
        let plain := aes_decrypt (aes_cyclesOfRepetition c) (aes_keySize c) buffer (aes_key c) in
        let plain := aes_xor plain iv in
        let '(b, n, iv', result) := cbc_decrypt_loop c data' (zeros 16) 0 buffer in
        (b, n, iv', plain :: result)
  end.

(** The padding of the last block: the bytes to remove, 0 when they do not
    all hold the count, [None] when the count is over 16. *)
Definition padding_length (lastBlock : list Z) : option Z :=
  let psLen := at_ lastBlock 15 in
  if psLen <=? 16 then
    Some (if forallb (fun i => at_ lastBlock i =? psLen)
               (map (fun k => 15 - k) (indices psLen))
          then psLen else 0)
  else None.

(** [output.set(result[i], j)] for each block, [j] growing by 16. *)
Definition join_blocks (result : list (list Z)) (outputLength : Z) : list Z :=
  fst (fold_left (fun '(output, j) block => (blit output block j, j + 16)) result
         (zeros outputLength, 0)).

Definition aes_decryptBlock2 (data : list Z) (finalize : bool) (c : AES) : list Z * AES :=
  let '(buffer, bufferLength, iv, result) :=
    cbc_decrypt_loop c data (aes_buffer c) (aes_bufferPosition c) (aes_iv c) in
  let c := set_aes iv buffer bufferLength (aes_started c) c in
  match rev result with
  | [] => ([], c)
  | lastBlock :: before =>
      let outputLength := 16 * len result in
      let '(result, outputLength) :=
        match (if finalize then padding_length lastBlock else None) with
        | Some psLen =>
            (rev before ++ [subarray lastBlock 0 (16 - psLen)], outputLength - psLen)
        | None => (result, outputLength)
        end in
      (join_blocks result outputLength, c)
  end.

(** [for (i = 0; bufferLength < 16 && i < sourceLength; ...)] *)
Fixpoint fill_iv (data buffer : list Z) (bufferLength : Z) : list Z * Z :=
  match data with
  | [] => (buffer, bufferLength)
  | v :: data' =>
      if bufferLength <? 16 then fill_iv data' (arr_set buffer bufferLength v) (bufferLength + 1)
      else (buffer, bufferLength)
  end.

Definition aes_decryptBlock (data : list Z) (finalize : bool) (iv : option (list Z))
    (c : AES) : list Z * AES :=
  if aes_started c then aes_decryptBlock2 data finalize c
  else
    match iv with
    | Some iv => aes_decryptBlock2 data finalize (set_aes iv (zeros 16) 0 true c)
    | None =>
        let '(buffer, bufferLength) := fill_iv data (aes_buffer c) (aes_bufferPosition c) in
        if bufferLength <? 16 then ([], set_aes (aes_iv c) buffer bufferLength false c)
        else
          aes_decryptBlock2 (subarray data 16 (len data)) finalize
            (set_aes buffer (zeros 16) 0 true c)
    end.

Fixpoint cbc_encrypt_loop (c : AES) (data buffer : list Z) (bufferLength : Z) (iv : list Z) {struct data}
    : list Z * Z * list Z * list (list Z) :=
  match data with
  | [] => (buffer, bufferLength, iv, [])
  | v :: data' =>
      let buffer := arr_set buffer bufferLength v in
      let bufferLength := bufferLength + 1 in
      if bufferLength <? 16 then cbc_encrypt_loop c data' buffer bufferLength iv
      else
        let buffer := aes_xor buffer iv in
        let cipher := aes_encrypt (aes_cyclesOfRepetition c) (aes_keySize c) buffer (aes_key c) in
        let '(b, n, iv', result) := cbc_encrypt_loop c data' (zeros 16) 0 cipher in
        (b, n, iv', cipher :: result)
  end.

Definition aes_encrypt_data (data : list Z) (iv : option (list Z)) (c : AES) : list Z * AES :=
  let iv := default (zeros 16) iv in
  let '(buffer, bufferLength, iv, result) :=
    cbc_encrypt_loop c data (aes_buffer c) (aes_bufferPosition c) iv in
  let c := set_aes iv buffer bufferLength (aes_started c) c in
  (join_blocks result (16 * len result), c).

(** ** Decryption of a block inverts encryption *)

(** A block: 16 bytes. *)
Definition is_block (b : list Z) : Prop := length b = 16%nat /\ Forall is_byte b.

Lemma block_cases (b : list Z) :
  length b = 16%nat ->
  exists v0 v1 v2 v3 v4 v5 v6 v7 v8 v9 v10 v11 v12 v13 v14 v15,
    b = [v0; v1; v2; v3; v4; v5; v6; v7; v8; v9; v10; v11; v12; v13; v14; v15].
Proof.
  intros H. do 16 (destruct b as [|? b]; [discriminate|]).
  destruct b; [|discriminate]. do 16 eexists. reflexivity.
Qed.

Ltac block_elems H :=
  let Hl := fresh in
  pose proof H as Hl; apply block_cases in Hl;
  destruct Hl as (?v&?v&?v&?v&?v&?v&?v&?v&?v&?v&?v&?v&?v&?v&?v&?v& ->); clear H.

Lemma for16_elems f v0 v1 v2 v3 v4 v5 v6 v7 v8 v9 v10 v11 v12 v13 v14 v15 :
  for16 f [v0; v1; v2; v3; v4; v5; v6; v7; v8; v9; v10; v11; v12; v13; v14; v15] =
  [to_u8 (f 0 v0); to_u8 (f 1 v1); to_u8 (f 2 v2); to_u8 (f 3 v3);
   to_u8 (f 4 v4); to_u8 (f 5 v5); to_u8 (f 6 v6); to_u8 (f 7 v7);
   to_u8 (f 8 v8); to_u8 (f 9 v9); to_u8 (f 10 v10); to_u8 (f 11 v11);
   to_u8 (f 12 v12); to_u8 (f 13 v13); to_u8 (f 14 v14); to_u8 (f 15 v15)].
Proof. reflexivity. Qed.

Lemma for16_block f b : length b = 16%nat -> is_block (for16 f b).
Proof.
  intros H. block_elems H. rewrite for16_elems.
  split; [done|]. repeat constructor; apply is_byte_u8.
Qed.

Lemma for16_id f g b :
  length b = 16%nat ->
  (forall j v, In v b -> to_u8 (g j (to_u8 (f j v))) = v) ->
  for16 g (for16 f b) = b.
Proof.
  intros H Hid. block_elems H. rewrite !for16_elems.
  repeat (rewrite Hid by (simpl; tauto)). reflexivity.
Qed.

Lemma block_in b v : is_block b -> In v b -> is_byte v.
Proof. intros [_ Hb] Hin. rewrite List.Forall_forall in Hb. by apply Hb. Qed.

Lemma xor_cancel v k : is_byte v -> to_u8 (to_u8 (v .^ k) .^ k) = v.
Proof.
  intros Hv. apply byte_ext; [| |].
  - unfold is_true. pose proof (is_byte_u8 (to_u8 (v .^ k) .^ k)). unfold is_byte in *.
    apply andb_true_iff. split; [apply Z.leb_le|apply Z.ltb_lt]; lia.
  - unfold is_true, is_byte in *. apply andb_true_iff. split; [apply Z.leb_le|apply Z.ltb_lt]; lia.
  - intros i Hi. rewrite to_u8_bit, js_xor_bit, to_u8_bit, js_xor_bit by lia.
    destruct (Z.testbit v i), (Z.testbit k i); reflexivity.
Qed.

Lemma add_key_twice key k0 b : is_block b -> aes_add_key key k0 (aes_add_key key k0 b) = b.
Proof.
  intros Hb. apply for16_id; [apply Hb|]. intros j v Hin. by apply xor_cancel, (block_in b).
Qed.

Lemma inv_s_s v : is_byte v -> to_u8 (tbl aes_inv_s (to_u8 (tbl aes_s v))) = v.
Proof.
  intros Hv. apply Z.eqb_eq. revert v Hv.
  apply (all_bytes (fun v => to_u8 (tbl aes_inv_s (to_u8 (tbl aes_s v))) =? v)).
  vm_compute. reflexivity.
Qed.

Lemma inv_sub_sub b :
  is_block b -> for16 (fun _ v => tbl aes_inv_s v) (for16 (fun _ v => tbl aes_s v) b) = b.
Proof.
  intros Hb. apply (for16_id (fun _ v => tbl aes_s v) (fun _ v => tbl aes_inv_s v)); [apply Hb|].
  intros j v Hin. by apply inv_s_s, (block_in b).
Qed.

Lemma inv_shift_shift b : length b = 16%nat -> aes_inv_shift_rows (aes_shift_rows b) = b.
Proof. intros H. block_elems H. reflexivity. Qed.

Lemma shift_block b : is_block b -> is_block (aes_shift_rows b).
Proof.
  intros [H Hb]. block_elems H. repeat rewrite Forall_cons in Hb.
  split; [reflexivity|]. unfold aes_shift_rows, at_, arr_get, arr_set. simpl.
  rewrite !Forall_cons. tauto.
Qed.

(** ** Mixing columns

    Both column operations are linear over xor, so that one undoes the other
    is checked on the bytes of one column position at a time. *)

Definition mix4 (s0 s1 s2 s3 : Z) : list Z :=
  let t := s0 .^ s1 .^ s2 .^ s3 in
  [to_u8 (s0 .^ (t .^ tbl aes_mixCol (s0 .^ s1)));
   to_u8 (s1 .^ (t .^ tbl aes_mixCol (s1 .^ s2)));
   to_u8 (s2 .^ (t .^ tbl aes_mixCol (s2 .^ s3)));
   to_u8 (s3 .^ (t .^ tbl aes_mixCol (s3 .^ s0)))].

Definition inv_mix4 (m0 m1 m2 m3 : Z) : list Z :=
  let s0 := tbl aes_mix m0 in
  let s1 := tbl aes_mix m1 in
  let s2 := tbl aes_mix m2 in
  let s3 := tbl aes_mix m3 in
  let t := s0 .^ (s1 .>>> 8) .^ (s1 .<< 24) .^ (s2 .>>> 16) .^ (s2 .<< 16)
           .^ (s3 .>>> 24) .^ (s3 .<< 8) in
  [to_u8 ((t .>>> 24) .& 0xff); to_u8 ((t .>> 16) .& 0xff);
   to_u8 ((t .>> 8) .& 0xff); to_u8 (t .& 0xff)].

Lemma mix_columns v0 v1 v2 v3 v4 v5 v6 v7 v8 v9 v10 v11 v12 v13 v14 v15 :
  fold_left aes_mix_column columns4
    [v0; v1; v2; v3; v4; v5; v6; v7; v8; v9; v10; v11; v12; v13; v14; v15] =
  mix4 v0 v1 v2 v3 ++ mix4 v4 v5 v6 v7 ++ mix4 v8 v9 v10 v11 ++ mix4 v12 v13 v14 v15.
Proof. reflexivity. Qed.

Lemma inv_mix_columns v0 v1 v2 v3 v4 v5 v6 v7 v8 v9 v10 v11 v12 v13 v14 v15 :
  fold_left aes_inv_mix_column columns4
    [v0; v1; v2; v3; v4; v5; v6; v7; v8; v9; v10; v11; v12; v13; v14; v15] =
  inv_mix4 v0 v1 v2 v3 ++ inv_mix4 v4 v5 v6 v7 ++ inv_mix4 v8 v9 v10 v11
    ++ inv_mix4 v12 v13 v14 v15.
Proof. reflexivity. Qed.

(** The tables agree with their linear extension on bytes. *)
Lemma mixCol_linear a : is_byte a -> tbl aes_mixCol a = xor_combine aes_mixCol a.
Proof.
  intros Ha. apply Z.eqb_eq. revert a Ha.
  apply (all_bytes (fun a => tbl aes_mixCol a =? xor_combine aes_mixCol a)).
  vm_compute. reflexivity.
Qed.

Lemma mix_linear a : is_byte a -> tbl aes_mix a = xor_combine aes_mix a.
Proof.
  intros Ha. apply Z.eqb_eq. revert a Ha.
  apply (all_bytes (fun a => tbl aes_mix a =? xor_combine aes_mix a)).
  vm_compute. reflexivity.
Qed.

Lemma mixCol_byte a : is_byte (tbl aes_mixCol a).
Proof.
  apply at_byte. unfold aes_mixCol. apply Forall_map, Forall_forall.
  intros. apply is_byte_u8.
Qed.

Abbreviation X := (xor_combine aes_mixCol).
Abbreviation W := (xor_combine aes_mix).

Lemma js_xor_lxor a b : is_byte a -> is_byte b -> a .^ b = Z.lxor a b.
Proof. unfold is_byte. intros. unfold js_xor. by rewrite !to_int32_small by lia. Qed.

(** The column as a sum of one term per byte. *)
Lemma mix4_sum s0 s1 s2 s3 :
  is_byte s0 -> is_byte s1 -> is_byte s2 -> is_byte s3 ->
  mix4 s0 s1 s2 s3 =
  let s := Z.lxor (Z.lxor (Z.lxor s0 s1) s2) s3 in
  [Z.lxor s0 (Z.lxor s (Z.lxor (X s0) (X s1))); Z.lxor s1 (Z.lxor s (Z.lxor (X s1) (X s2)));
   Z.lxor s2 (Z.lxor s (Z.lxor (X s2) (X s3))); Z.lxor s3 (Z.lxor s (Z.lxor (X s3) (X s0)))].
Proof.
  intros H0 H1 H2 H3. unfold mix4. cbv zeta.
  assert (Hx : forall a b, is_byte a -> is_byte b ->
    tbl aes_mixCol (a .^ b) = Z.lxor (X a) (X b) /\ is_byte (Z.lxor (X a) (X b))).
  { intros a b Ha Hb. rewrite js_xor_lxor by done.
    rewrite <- xor_combine_linear, <- mixCol_linear by (by apply lxor_byte).
    split; [done|apply mixCol_byte]. }
  assert (Hs : s0 .^ s1 .^ s2 .^ s3 = Z.lxor (Z.lxor (Z.lxor s0 s1) s2) s3 /\
    is_byte (Z.lxor (Z.lxor (Z.lxor s0 s1) s2) s3)).
  { pose proof (lxor_byte _ _ H0 H1). pose proof (lxor_byte _ _ (lxor_byte _ _ H0 H1) H2).
    rewrite (js_xor_lxor s0), (js_xor_lxor (Z.lxor s0 s1)), js_xor_lxor by done.
    split; [done|]. by apply lxor_byte. }
  destruct Hs as [-> Hs]. set (s := Z.lxor (Z.lxor (Z.lxor s0 s1) s2) s3) in *.
  assert (Hm : forall a b c, is_byte a -> is_byte b -> is_byte c ->
    to_u8 (a .^ (s .^ tbl aes_mixCol (b .^ c))) = Z.lxor a (Z.lxor s (Z.lxor (X b) (X c)))).
  { intros a b c Ha Hb Hc. destruct (Hx b c Hb Hc) as [-> Hbc].
    rewrite (js_xor_lxor s), js_xor_lxor by auto using lxor_byte.
    apply to_u8_small. apply lxor_byte; [done|]. by apply lxor_byte. }
  by rewrite !Hm.
Qed.

(** The byte of the undone column whose bits start at [24 - 8 k] of [t]. *)
Lemma inv_mix4_bits m0 m1 m2 m3 i :
  0 <= i < 8 ->
  Forall2 (fun out ms =>
    let '(a, b, c, d) := ms in
    Z.testbit out i =
    xorb (Z.testbit (tbl aes_mix a) (24 + i))
      (xorb (Z.testbit (tbl aes_mix b) i)
        (xorb (Z.testbit (tbl aes_mix c) (8 + i)) (Z.testbit (tbl aes_mix d) (16 + i)))))
    (inv_mix4 m0 m1 m2 m3)
    [(m0, m1, m2, m3); (m1, m2, m3, m0); (m2, m3, m0, m1); (m3, m0, m1, m2)].
Proof.
  intros Hi. unfold inv_mix4. cbv zeta.
  assert (H255 : Z.testbit 255 i = true).
  { change 255 with (Z.ones 8). apply Z.ones_spec_low. lia. }
  repeat constructor; rewrite to_u8_bit, js_and_bit, H255, andb_true_r by lia;
    rewrite ?js_shr_bit, ?js_sar_bit by lia;
    repeat (ztest; cbv iota); repeat (rewrite js_xor_bit by lia);
    repeat (rewrite js_shr_bit by lia); repeat (rewrite js_shl_bit by lia);
    repeat (ztest; cbv iota).
  all: rewrite ?Z.add_simpl_r.
  all: try replace (i + 24 - 16) with (8 + i) by lia; try replace (i + 24 - 8) with (16 + i) by lia;
    try replace (i + 16 + 8) with (24 + i) by lia; try replace (i + 16 - 8) with (8 + i) by lia;
    try replace (i + 8 + 8) with (16 + i) by lia; try replace (i + 8 + 16) with (24 + i) by lia;
    rewrite ?(Z.add_comm i).
  all: repeat match goal with |- context [Z.testbit ?x ?k] => destruct (Z.testbit x k) end;
    reflexivity.
Qed.

(** One byte through both operations: what it adds to a byte of the result,
    [k] places further in the column. *)
Definition mix_term (k : Z) (s i : Z) : bool :=
  let m e := match e with
             | 0 => X s
             | 3 => Z.lxor s (X s)
             | _ => s
             end in
  let at_off e off := Z.testbit (tbl aes_mix (m (e mod 4))) (off + i) in
  xorb (at_off k 24) (xorb (at_off (k + 1) 0) (xorb (at_off (k + 2) 8) (at_off (k + 3) 16))).

Lemma mix_term_ok k s i :
  0 <= k < 4 -> is_byte s -> 0 <= i < 8 ->
  mix_term k s i = if k =? 0 then Z.testbit s i else false.
Proof.
  intros Hk Hs Hi.
  assert (Hc : forallb (fun s => forallb (fun k => forallb (fun i =>
    eqb (mix_term k s i) (if k =? 0 then Z.testbit s i else false))
      [0; 1; 2; 3; 4; 5; 6; 7]) [0; 1; 2; 3]) (indices 256) = true) by (vm_compute; reflexivity).
  rewrite forallb_forall in Hc. specialize (Hc s).
  rewrite forallb_forall in Hc. specialize (Hc ltac:(
    unfold indices; apply in_map_iff; exists (Z.to_nat s); unfold is_byte in Hs;
    split; [lia|apply in_seq; lia]) k).
  rewrite forallb_forall in Hc. apply eqb_prop, Hc; simpl; lia.
Qed.

(** The terms of the four bytes add up to the byte itself. *)
Lemma mix_terms_sum s0 s1 s2 s3 i :
  is_byte s0 -> is_byte s1 -> is_byte s2 -> is_byte s3 -> 0 <= i < 8 ->
  xorb (mix_term 0 s0 i) (xorb (mix_term 3 s1 i) (xorb (mix_term 2 s2 i) (mix_term 1 s3 i))) =
  Z.testbit s0 i.
Proof.
  intros. rewrite !mix_term_ok by (done || lia). by destruct (Z.testbit s0 i).
Qed.

(** The first byte of a column that was mixed and is unmixed. *)
Lemma mixed_bit s0 s1 s2 s3 s i :
  is_byte s0 -> is_byte s1 -> is_byte s2 -> is_byte s3 -> 0 <= i < 8 ->
  s = Z.lxor (Z.lxor (Z.lxor s0 s1) s2) s3 ->
  let m a b := Z.lxor a (Z.lxor s (Z.lxor (X a) (X b))) in
  is_byte (m s0 s1) -> is_byte (m s1 s2) -> is_byte (m s2 s3) -> is_byte (m s3 s0) ->
  xorb (Z.testbit (tbl aes_mix (m s0 s1)) (24 + i))
    (xorb (Z.testbit (tbl aes_mix (m s1 s2)) i)
      (xorb (Z.testbit (tbl aes_mix (m s2 s3)) (8 + i))
        (Z.testbit (tbl aes_mix (m s3 s0)) (16 + i)))) = Z.testbit s0 i.
Proof.
  intros H0 H1 H2 H3 Hi Hs m Hm0 Hm1 Hm2 Hm3.
  rewrite <- (mix_terms_sum s0 s1 s2 s3 i) by done.
  assert (HX : forall a, is_byte a -> is_byte (X a))
    by (intros; rewrite <- mixCol_linear by done; apply mixCol_byte).
  unfold mix_term. change (0 mod 4) with 0. change ((0 + 1) mod 4) with 1.
  change ((0 + 2) mod 4) with 2. change ((0 + 3) mod 4) with 3. change (3 mod 4) with 3.
  change ((3 + 1) mod 4) with 0. change ((3 + 2) mod 4) with 1. change ((3 + 3) mod 4) with 2.
  change (2 mod 4) with 2. change ((2 + 1) mod 4) with 3. change ((2 + 2) mod 4) with 0.
  change ((2 + 3) mod 4) with 1. change (1 mod 4) with 1. change ((1 + 1) mod 4) with 2.
  change ((1 + 2) mod 4) with 3. change ((1 + 3) mod 4) with 0. cbv iota.
  rewrite !mix_linear by auto using lxor_byte. unfold m. rewrite Hs.
  rewrite !(xor_combine_linear aes_mix), !Z.lxor_spec, !Z.add_0_l. btauto.
Qed.

(** [InvMixColumns] undoes [MixColumns]. *)
Lemma inv_mix4_mix4 s0 s1 s2 s3 :
  is_byte s0 -> is_byte s1 -> is_byte s2 -> is_byte s3 ->
  match mix4 s0 s1 s2 s3 with
  | [m0; m1; m2; m3] => inv_mix4 m0 m1 m2 m3 = [s0; s1; s2; s3]
  | _ => False
  end.
Proof.
  intros H0 H1 H2 H3.
  assert (Hmb : Forall is_byte (mix4 s0 s1 s2 s3)) by (repeat constructor; apply is_byte_u8).
  rewrite mix4_sum in * by done. cbv zeta in *.
  repeat rewrite Forall_cons in Hmb. destruct Hmb as (Hm0 & Hm1 & Hm2 & Hm3 & _).
  set (s := Z.lxor (Z.lxor (Z.lxor s0 s1) s2) s3) in *.
  assert (Hrot : forall a b c d, s = Z.lxor (Z.lxor (Z.lxor a b) c) d ->
    s = Z.lxor (Z.lxor (Z.lxor b c) d) a).
  { intros a b c d ->. rewrite (Z.lxor_comm _ a). by rewrite <- !Z.lxor_assoc. }
  assert (Hs0 : s = Z.lxor (Z.lxor (Z.lxor s0 s1) s2) s3) by done.
  pose proof (Hrot _ _ _ _ Hs0) as Hs1. pose proof (Hrot _ _ _ _ Hs1) as Hs2.
  pose proof (Hrot _ _ _ _ Hs2) as Hs3. clearbody s.
  assert (Hout : forall out v, is_byte out -> is_byte v ->
    (forall i, 0 <= i < 8 -> Z.testbit out i = Z.testbit v i) -> out = v).
  { intros out v Ho Hv. apply byte_ext; unfold is_true, is_byte in *;
      apply andb_true_iff; split; first [apply Z.leb_le|apply Z.ltb_lt]; lia. }
  match goal with |- inv_mix4 ?a ?b ?c ?d = _ =>
    pose proof (fun i => inv_mix4_bits a b c d i) as Hbits;
    assert (Hob : Forall is_byte (inv_mix4 a b c d)) by (repeat constructor; apply is_byte_u8);
    destruct (inv_mix4 a b c d) as [|o0 [|o1 [|o2 [|o3 [|]]]]];
    try (specialize (Hbits 0 ltac:(lia)); inversion Hbits; subst;
         repeat match goal with H : Forall2 _ _ _ |- _ => inversion H; clear H; subst end; fail)
  end.
  repeat rewrite Forall_cons in Hob. destruct Hob as (Ho0 & Ho1 & Ho2 & Ho3 & _).
  f_equal; [|f_equal; [|f_equal; [|f_equal]]]; apply Hout; auto; intros i Hi;
    specialize (Hbits i Hi);
    repeat match goal with H : Forall2 _ (_ :: _) _ |- _ => inversion H; clear H; subst end;
    match goal with H : Z.testbit ?o i = _ |- Z.testbit ?o i = _ => rewrite H end;
    (eapply mixed_bit; [..|done|done|done|done]; done).
Qed.

Lemma inv_mix_mix b :
  is_block b ->
  fold_left aes_inv_mix_column columns4 (fold_left aes_mix_column columns4 b) = b.
Proof.
  intros [H Hb]. block_elems H. repeat rewrite Forall_cons in Hb.
  rewrite mix_columns.
  assert (Hm : forall s0 s1 s2 s3, is_byte s0 -> is_byte s1 -> is_byte s2 -> is_byte s3 ->
    exists m0 m1 m2 m3, mix4 s0 s1 s2 s3 = [m0; m1; m2; m3] /\
      inv_mix4 m0 m1 m2 m3 = [s0; s1; s2; s3]).
  { intros s0 s1 s2 s3 ? ? ? ?. do 4 eexists. split; [reflexivity|].
    by apply (inv_mix4_mix4 s0 s1 s2 s3). }
  destruct Hb as (?&?&?&?&?&?&?&?&?&?&?&?&?&?&?&?&_).
  destruct (Hm v v0 v1 v2) as (?&?&?&?& -> & E0); [assumption..|].
  destruct (Hm v3 v4 v5 v6) as (?&?&?&?& -> & E1); [assumption..|].
  destruct (Hm v7 v8 v9 v10) as (?&?&?&?& -> & E2); [assumption..|].
  destruct (Hm v11 v12 v13 v14) as (?&?&?&?& -> & E3); [assumption..|].
  cbn [app]. by rewrite inv_mix_columns, E0, E1, E2, E3.
Qed.

Lemma mix_block b : length b = 16%nat -> is_block (fold_left aes_mix_column columns4 b).
Proof.
  intros H. block_elems H. rewrite mix_columns. split; [done|].
  repeat (apply Forall_app; split); repeat constructor; apply is_byte_u8.
Qed.

#[local] Opaque for16 aes_shift_rows aes_inv_shift_rows aes_mix_column aes_inv_mix_column.

(** Steps that keep [P], and their undoing in the reverse order. *)
Lemma fold_keeps {A B} (P : A -> Prop) (E : A -> B -> A) :
  (forall i b, P b -> P (E b i)) -> forall l b, P b -> P (fold_left E l b).
Proof. intros HE l. induction l as [|i l IH]; intros b Hb; simpl; auto. Qed.

Lemma fold_undo {A B C} (P : A -> Prop) (D : C -> B -> C) (E : A -> B -> A) (T : A -> C) :
  (forall i b, P b -> P (E b i)) -> (forall i b, P b -> D (T (E b i)) i = T b) ->
  forall l b, P b -> fold_left D (rev l) (T (fold_left E l b)) = T b.
Proof.
  intros HE HD l. induction l as [|i l IH]; intros b Hb; simpl; [done|].
  rewrite fold_left_app, IH by auto. simpl. auto.
Qed.

Section BlockInverse.
Variables (cycles keySize : Z) (key : list Z).

(** The part of a round before the columns are mixed. *)
Definition sub_shift (b : list Z) : list Z :=
  aes_shift_rows (for16 (fun _ v => tbl aes_s v) b).

Lemma sub_shift_block b : is_block b -> is_block (sub_shift b).
Proof. intros [H _]. by apply shift_block, for16_block. Qed.

Lemma inv_sub_shift b :
  is_block b -> for16 (fun _ v => tbl aes_inv_s v) (aes_inv_shift_rows (sub_shift b)) = b.
Proof.
  intros Hb. unfold sub_shift. rewrite inv_shift_shift by (apply for16_block, Hb).
  by apply inv_sub_sub.
Qed.

Lemma encrypt_round_block i b : is_block b -> is_block (aes_encrypt_round key b i).
Proof.
  intros Hb. apply for16_block, mix_block. apply (sub_shift_block b Hb).
Qed.

Lemma decrypt_round_undoes i b :
  is_block b -> aes_decrypt_round key (sub_shift (aes_encrypt_round key b i)) i = sub_shift b.
Proof.
  intros Hb. unfold aes_decrypt_round.
  rewrite inv_sub_shift by (by apply encrypt_round_block).
  unfold aes_encrypt_round. fold (sub_shift b). pose proof (sub_shift_block b Hb) as Hs.
  rewrite add_key_twice by (by apply mix_block, Hs). by apply inv_mix_mix.
Qed.

Lemma decrypt_rounds_undo l b :
  is_block b ->
  fold_left (aes_decrypt_round key) (rev l)
    (sub_shift (fold_left (aes_encrypt_round key) l b)) = sub_shift b.
Proof.
  apply (fold_undo is_block); intros; [by apply encrypt_round_block|by apply decrypt_round_undoes].
Qed.

Lemma rounds_block l b :
  is_block b -> is_block (fold_left (aes_encrypt_round key) l b).
Proof. apply (fold_keeps is_block). intros. by apply encrypt_round_block. Qed.

Lemma blit_whole b : length b = 16%nat -> blit (zeros 16) b 0 = b.
Proof. intros H. unfold blit. rewrite H. simpl. apply app_nil_r. Qed.

Lemma aes_encrypt_block b : length b = 16%nat -> is_block (aes_encrypt cycles keySize b key).
Proof.
  intros H. unfold aes_encrypt. rewrite blit_whole by done.
  apply for16_block. apply sub_shift_block, rounds_block, for16_block. done.
Qed.

(** The last step of [_decrypt] does the substitution and the key in one loop. *)
Lemma last_loop b :
  length b = 16%nat ->
  for16 (fun j v => to_u8 (tbl aes_inv_s v) .^ at_ key j) b =
  aes_add_key key 0 (for16 (fun _ v => tbl aes_inv_s v) b).
Proof. intros H. block_elems H. unfold aes_add_key. by rewrite !for16_elems. Qed.

Lemma aes_decrypt_encrypt b :
  is_block b ->
  aes_decrypt cycles keySize (aes_encrypt cycles keySize b key) key = b.
Proof.
  intros Hb. pose proof (aes_encrypt_block b (proj1 Hb)) as He.
  unfold aes_decrypt. rewrite blit_whole by apply He. clear He.
  unfold aes_encrypt. rewrite blit_whole by apply Hb.
  assert (H0 : is_block (aes_add_key key 0 b)) by apply for16_block, Hb.
  fold (sub_shift (fold_left (aes_encrypt_round key) (rounds cycles) (aes_add_key key 0 b))).
  rewrite add_key_twice by (by apply sub_shift_block, rounds_block).
  rewrite decrypt_rounds_undo by done.
  rewrite last_loop.
  - rewrite inv_sub_shift by done. by apply add_key_twice.
  - pose proof (sub_shift_block _ H0) as [Hl _]. revert Hl. generalize (sub_shift (aes_add_key key 0 b)).
    intros l Hl. by block_elems Hl.
Qed.
End BlockInverse.

(** ** Cipher block chaining *)

(** The modes over whole blocks. *)
Fixpoint cbc_enc (c : AES) (iv : list Z) (blocks : list (list Z)) {struct blocks} : list (list Z) :=
  match blocks with
  | [] => []
  | b :: blocks' =>
      let e := aes_encrypt (aes_cyclesOfRepetition c) (aes_keySize c) (aes_xor b iv) (aes_key c) in
      e :: cbc_enc c e blocks'
  end.

Fixpoint cbc_dec (c : AES) (iv : list Z) (blocks : list (list Z)) {struct blocks} : list (list Z) :=
  match blocks with
  | [] => []
  | b :: blocks' =>
      aes_xor (aes_decrypt (aes_cyclesOfRepetition c) (aes_keySize c) b (aes_key c)) iv
      :: cbc_dec c b blocks'
  end.

#[local] Opaque aes_encrypt aes_decrypt aes_xor.

(** Bytes that do not complete the buffer are only stored. *)
Lemma cbc_encrypt_fill c vs rest buffer n iv :
  0 <= n -> n + len vs < 16 -> length buffer = 16%nat ->
  cbc_encrypt_loop c (vs ++ rest) buffer n iv =
  cbc_encrypt_loop c rest (blit buffer vs n) (n + len vs) iv.
Proof.
  revert buffer n. induction vs as [|v vs IH]; intros buffer n Hn Hl Hb.
  - by rewrite blit_nil, len_nil, Z.add_0_r.
  - rewrite len_cons in *. pose proof (len_nonneg vs). cbn [app cbc_encrypt_loop]. ztest.
    rewrite IH by (rewrite ?length_len, ?len_arr_set; unfold len in *; lia).
    rewrite blit_cons by (unfold len in *; lia). f_equal. lia.
Qed.

Lemma cbc_decrypt_fill c vs rest buffer n iv :
  0 <= n -> n + len vs < 16 -> length buffer = 16%nat ->
  cbc_decrypt_loop c (vs ++ rest) buffer n iv =
  cbc_decrypt_loop c rest (blit buffer vs n) (n + len vs) iv.
Proof.
  revert buffer n. induction vs as [|v vs IH]; intros buffer n Hn Hl Hb.
  - by rewrite blit_nil, len_nil, Z.add_0_r.
  - rewrite len_cons in *. pose proof (len_nonneg vs). cbn [app cbc_decrypt_loop]. ztest.
    rewrite IH by (rewrite ?length_len, ?len_arr_set; unfold len in *; lia).
    rewrite blit_cons by (unfold len in *; lia). f_equal. lia.
Qed.

(** Fifteen bytes and the one that completes the block. *)
Lemma fill_block (block buffer : list Z) :
  length buffer = 16%nat -> length block = 16%nat ->
  exists vs v, block = vs ++ [v] /\ len vs = 15 /\ arr_set (blit buffer vs 0) 15 v = block.
Proof.
  intros Hb Hl. destruct (exists_last (l := block)) as (vs & v & ->); [by destruct block|].
  rewrite length_app in Hl. simpl in Hl. assert (Hv : len vs = 15) by (unfold len; lia).
  exists vs, v. split_and!; auto. unfold blit. simpl.
  replace (Z.to_nat 15) with 15%nat by done. rewrite arr_set_app by lia.
  rewrite Hv. replace (length vs) with 15%nat by lia.
  do 16 (destruct buffer as [|? buffer]; [discriminate|]). destruct buffer; [|discriminate].
  reflexivity.
Qed.

Lemma cbc_encrypt_step c block rest buffer iv :
  length buffer = 16%nat -> length block = 16%nat ->
  cbc_encrypt_loop c (block ++ rest) buffer 0 iv =
  let cipher := aes_encrypt (aes_cyclesOfRepetition c) (aes_keySize c) (aes_xor block iv) (aes_key c) in
  let '(b, n, iv', result) := cbc_encrypt_loop c rest (zeros 16) 0 cipher in
  (b, n, iv', cipher :: result).
Proof.
  intros Hb Hl. destruct (fill_block block buffer Hb Hl) as (vs & v & -> & Hv & Hfill).
  rewrite <- app_assoc, cbc_encrypt_fill by (done || lia). rewrite Hv, Z.add_0_l.
  cbn [app cbc_encrypt_loop]. change (15 + 1 <? 16) with false. by rewrite Hfill.
Qed.

Lemma cbc_decrypt_step c block rest buffer iv :
  length buffer = 16%nat -> length block = 16%nat ->
  cbc_decrypt_loop c (block ++ rest) buffer 0 iv =
  let plain := aes_xor (aes_decrypt (aes_cyclesOfRepetition c) (aes_keySize c) block (aes_key c)) iv in
  let '(b, n, iv', result) := cbc_decrypt_loop c rest (zeros 16) 0 block in
  (b, n, iv', plain :: result).
Proof.
  intros Hb Hl. destruct (fill_block block buffer Hb Hl) as (vs & v & -> & Hv & Hfill).
  rewrite <- app_assoc, cbc_decrypt_fill by (done || lia). rewrite Hv, Z.add_0_l.
  cbn [app cbc_decrypt_loop]. change (15 + 1 <? 16) with false. by rewrite Hfill.
Qed.

Abbreviation blocks16 := (Forall (fun b : list Z => length b = 16%nat)).

Lemma cbc_encrypt_blocks c blocks buffer iv :
  length buffer = 16%nat -> blocks16 blocks ->
  exists b iv', length b = 16%nat /\
    cbc_encrypt_loop c (concat blocks) buffer 0 iv = (b, 0, iv', cbc_enc c iv blocks).
Proof.
  intros Hb Hbl. revert buffer iv Hb. induction Hbl as [|block blocks Hl _ IH]; intros buffer iv Hb.
  - by exists buffer, iv.
  - cbn [concat]. rewrite cbc_encrypt_step by done. cbv zeta.
    destruct (IH (zeros 16) (aes_encrypt (aes_cyclesOfRepetition c) (aes_keySize c)
      (aes_xor block iv) (aes_key c)) eq_refl) as (b & iv' & Hb' & ->). by exists b, iv'.
Qed.

(** The chaining block after decrypting [blocks] is the last of them. *)
Lemma cbc_decrypt_blocks c blocks buffer iv :
  length buffer = 16%nat -> blocks16 blocks ->
  exists b, length b = 16%nat /\
    cbc_decrypt_loop c (concat blocks) buffer 0 iv =
    (b, 0, default iv (last blocks), cbc_dec c iv blocks).
Proof.
  intros Hb Hbl. revert buffer iv Hb. induction Hbl as [|block blocks Hl _ IH]; intros buffer iv Hb.
  - by exists buffer.
  - cbn [concat]. rewrite cbc_decrypt_step by done. cbv zeta.
    destruct (IH (zeros 16) block eq_refl) as (b & Hb' & ->). exists b. split; [done|].
    rewrite last_cons. by destruct (last blocks).
Qed.

Lemma xor_block_cancel b iv : is_block b -> aes_xor (aes_xor b iv) iv = b.
Proof.
  Transparent aes_xor. intros Hb. unfold aes_xor.
  apply (for16_id (fun j v => v .^ at_ iv j) (fun j v => v .^ at_ iv j)); [apply Hb|].
  intros j v Hin. by apply xor_cancel, (block_in b).
Qed.

Lemma xor_block b iv : length b = 16%nat -> is_block (aes_xor b iv).
Proof. intros. by apply for16_block. Qed.
#[local] Opaque aes_xor.

Lemma cbc_dec_enc c iv blocks :
  Forall is_block blocks -> cbc_dec c iv (cbc_enc c iv blocks) = blocks.
Proof.
  intros Hb. revert iv. induction Hb as [|b blocks Hb _ IH]; intros iv; simpl; [done|].
  rewrite aes_decrypt_encrypt by (apply xor_block, Hb). by rewrite xor_block_cancel, IH.
Qed.

Lemma cbc_enc_blocks c iv blocks : blocks16 blocks -> Forall is_block (cbc_enc c iv blocks).
Proof.
  intros Hb. revert iv. induction Hb as [|b blocks Hb _ IH]; intros iv; simpl; constructor; auto.
  apply aes_encrypt_block, xor_block, Hb.
Qed.

Lemma len_cbc_dec c iv blocks : length (cbc_dec c iv blocks) = length blocks.
Proof. revert iv. induction blocks; intros; simpl; auto. Qed.

(** ** Joining the blocks and removing the padding *)

Lemma blit_zeros (done block : list Z) n :
  (length block <= n)%nat ->
  blit (done ++ replicate n 0) block (len done) = (done ++ block) ++ replicate (n - length block) 0.
Proof.
  intros Hn. unfold blit. replace (Z.to_nat (len done)) with (length done) by (unfold len; lia).
  rewrite take_app_length, <- app_assoc. do 2 f_equal.
  rewrite drop_app_ge by lia.
  replace (length done + length block - length done)%nat with (length block) by lia.
  by rewrite drop_replicate.
Qed.

Lemma join_fold bs done n p :
  blocks16 bs -> (length p <= 16)%nat -> n = (16 * length bs + length p)%nat ->
  fst (fold_left (fun '(output, j) block => (blit output block j, j + 16)) (bs ++ [p])
    (done ++ replicate n 0, len done)) = done ++ concat bs ++ p.
Proof.
  intros Hb Hp. revert done n. induction Hb as [|b bs Hb _ IH]; intros done n Hn; simpl.
  - rewrite blit_zeros by (simpl in Hn; lia). replace (n - length p)%nat with 0%nat by (simpl in Hn; lia).
    by rewrite app_nil_r.
  - rewrite blit_zeros by (simpl in Hn; lia).
    replace (len done + 16) with (len (done ++ b)) by (rewrite len_app; unfold len; lia).
    rewrite IH by (simpl in Hn; lia). by rewrite <- !app_assoc.
Qed.

(** Blocks of 16 bytes and a last one that may be shorter. *)
Lemma join_blocks_last bs p :
  blocks16 bs -> (length p <= 16)%nat ->
  join_blocks (bs ++ [p]) (16 * len bs + len p) = concat bs ++ p.
Proof.
  intros Hb Hp. unfold join_blocks, zeros.
  pose proof (join_fold bs [] (Z.to_nat (16 * len bs + len p)) p Hb Hp) as Hj.
  change (len []) with 0 in Hj. rewrite !app_nil_l in Hj. apply Hj. unfold len; lia.
Qed.

Lemma join_blocks_whole bs : blocks16 bs -> join_blocks bs (16 * len bs) = concat bs.
Proof.
  intros Hb. destruct bs as [|b bs] using rev_ind; [done|].
  apply Forall_app in Hb as [Hb Hl]. apply Forall_cons in Hl as [Hl _].
  rewrite concat_app. simpl. rewrite app_nil_r, len_app.
  replace (16 * (len bs + len [b])) with (16 * len bs + len b) by (unfold len; simpl; lia).
  apply join_blocks_last; [done|lia].
Qed.

(** The padding of [encryptString]: 1 to 16 bytes that hold their count. *)
Definition pad16 (data : list Z) : list Z :=
  let pad := 16 - len data mod 16 in
  data ++ replicate (Z.to_nat pad) pad.

Lemma at_app_r l1 l2 i : len l1 <= i -> at_ (l1 ++ l2) i = at_ l2 (i - len l1).
Proof.
  intros Hi. pose proof (len_nonneg l1). unfold at_, arr_get. repeat ztest.
  rewrite lookup_app_r by (unfold len in Hi; lia). do 3 f_equal. unfold len. lia.
Qed.

Lemma at_replicate n (v : Z) i : 0 <= i < Z.of_nat n -> at_ (replicate n v) i = v.
Proof.
  intros Hi. unfold at_, arr_get. ztest.
  by rewrite lookup_replicate_2 by lia.
Qed.

Lemma padding_found q pad :
  1 <= pad <= 16 -> len q = 16 - pad ->
  padding_length (q ++ replicate (Z.to_nat pad) pad) = Some pad.
Proof.
  intros Hp Hq. unfold padding_length.
  assert (Hat : forall k, 0 <= k < pad -> at_ (q ++ replicate (Z.to_nat pad) pad) (15 - k) = pad).
  { intros k Hk. rewrite at_app_r by lia. apply at_replicate. lia. }
  replace (at_ (q ++ replicate (Z.to_nat pad) pad) 15) with pad
    by (symmetry; apply (Hat 0); lia).
  ztest. rewrite (proj2 (forallb_forall _ _)); [done|].
  intros x Hx. apply in_map_iff in Hx as (k & <- & Hk). unfold indices in Hk.
  apply in_map_iff in Hk as (k' & <- & Hk'). apply in_seq in Hk'.
  apply Z.eqb_eq, Hat. lia.
Qed.

(** The padded data, as blocks: whole ones and the padded last one. *)
Lemma pad16_blocks (data : list Z) :
  exists bs q, data = concat bs ++ q /\ blocks16 bs /\ (length q < 16)%nat /\
    pad16 data = concat (bs ++ [q ++ replicate (16 - length q) (16 - len q)]).
Proof.
  assert (Hgen : forall n (l : list Z), (length l <= n)%nat ->
    exists bs q, l = concat bs ++ q /\ blocks16 bs /\ (length q < 16)%nat).
  { induction n as [|n IH]; intros l Hl.
    - exists [], l. simpl. split_and!; auto. lia.
    - destruct (decide (length l < 16)%nat); [by exists [], l|].
      destruct (IH (drop 16 l)) as (bs & q & Hd & Hb & Hq); [rewrite length_drop; lia|].
      exists (take 16 l :: bs), q. simpl. rewrite <- app_assoc, <- Hd, take_drop.
      split_and!; auto. constructor; [rewrite length_take; lia|done]. }
  destruct (Hgen (length data) data) as (bs & q & -> & Hb & Hq); [lia|].
  exists bs, q. split_and!; auto. unfold pad16.
  assert (Hm : len (concat bs ++ q) mod 16 = len q).
  { rewrite len_app. assert (Hc : len (concat bs) = len bs * 16).
    { clear Hq. induction Hb as [|b bs Hl _ IH]; [done|]. simpl. rewrite len_app, len_cons, IH.
      unfold len at 1. lia. }
    rewrite Hc, Z.add_comm, Z_mod_plus_full. apply Z.mod_small. unfold len; lia. }
  rewrite Hm, concat_app. simpl. rewrite app_nil_r, <- app_assoc. do 3 f_equal. unfold len; lia.
Qed.

(** ** Decrypting what was encrypted *)

(** An object between two calls: the position is back at 0. *)
Definition aes_idle (c : AES) : Prop := length (aes_buffer c) = 16%nat /\ aes_bufferPosition c = 0.

Definition unpad_blocks (bs : list (list Z)) : list Z :=
  match rev bs with
  | [] => []
  | lastBlock :: before =>
      concat (rev before) ++
        match padding_length lastBlock with
        | Some psLen => subarray lastBlock 0 (16 - psLen)
        | None => lastBlock
        end
  end.

Lemma cbc_dec_same c c' iv bs :
  aes_cyclesOfRepetition c' = aes_cyclesOfRepetition c -> aes_keySize c' = aes_keySize c ->
  aes_key c' = aes_key c -> cbc_dec c' iv bs = cbc_dec c iv bs.
Proof.
  intros Hc Hs Hk. revert iv. induction bs as [|b bs IH]; intros iv; simpl; [done|].
  by rewrite Hc, Hs, Hk, IH.
Qed.

Lemma cbc_dec_app c iv l1 l2 :
  cbc_dec c iv (l1 ++ l2) = cbc_dec c iv l1 ++ cbc_dec c (default iv (last l1)) l2.
Proof.
  revert iv. induction l1 as [|b l1 IH]; intros iv; [done|].
  cbn [app cbc_dec]. rewrite IH. f_equal. f_equal. rewrite last_cons. by destruct (last l1).
Qed.

Lemma aes_encrypt_data_blocks c iv blocks :
  aes_idle c -> blocks16 blocks ->
  fst (aes_encrypt_data (concat blocks) (Some iv) c) = concat (cbc_enc c iv blocks).
Proof.
  intros [Hb Hp] Hbl. unfold aes_encrypt_data. rewrite Hp. cbn [default from_option id].
  destruct (cbc_encrypt_blocks c blocks (aes_buffer c) iv Hb Hbl) as (b & iv' & Hb' & ->).
  cbn [fst]. apply join_blocks_whole.
  eapply Forall_impl; [by apply cbc_enc_blocks|]. by intros ? [].
Qed.

Lemma padding_length_range l n :
  Forall is_byte l -> padding_length l = Some n -> 0 <= n <= 16.
Proof.
  intros Hl. unfold padding_length. pose proof (at_byte l 15 Hl) as Hb. unfold is_byte in Hb.
  destruct (at_ l 15 <=? 16) eqn:E; bool_hyps; [|done].
  case_match; intros; simplify_eq; lia.
Qed.

(** A call on whole blocks: it returns the decrypted blocks and leaves the
    object ready for the next ones. *)
Lemma decryptBlock2_blocks c bs fin :
  aes_idle c -> blocks16 bs -> Forall is_block (cbc_dec c (aes_iv c) bs) ->
  exists c', aes_decryptBlock2 (concat bs) fin c =
    ((if fin then unpad_blocks else @concat Z) (cbc_dec c (aes_iv c) bs), c') /\
    aes_idle c' /\ aes_iv c' = default (aes_iv c) (last bs) /\
    aes_started c' = aes_started c /\
    forall iv l, cbc_dec c' iv l = cbc_dec c iv l.
Proof.
  intros [Hb Hp] Hbs Hdec. unfold aes_decryptBlock2. rewrite Hp.
  destruct (cbc_decrypt_blocks c bs (aes_buffer c) (aes_iv c) Hb Hbs) as (b & Hb' & ->).
  set (iv' := default (aes_iv c) (last bs)).
  set (c' := set_aes iv' b 0 (aes_started c) c).
  assert (Hc' : aes_idle c' /\ aes_iv c' = iv' /\ aes_started c' = aes_started c /\
    forall iv l, cbc_dec c' iv l = cbc_dec c iv l).
  { unfold c', aes_idle, set_aes. simpl. split_and!; auto. intros. by apply cbc_dec_same. }
  destruct (cbc_dec c (aes_iv c) bs) as [|lb before _] eqn:E using rev_ind.
  { exists c'. cbn [rev]. split; [by destruct fin|exact Hc']. }
  clear E. apply Forall_app in Hdec as [Hbefore Hlb]. apply Forall_cons in Hlb as [[Hlb Hlbb] _].
  assert (Hb16 : blocks16 before) by (eapply Forall_impl; [done|]; by intros ? []).
  unfold unpad_blocks. rewrite rev_app_distr. cbn [rev app]. rewrite rev_involutive, len_app.
  replace (16 * (len before + len [lb])) with (16 * len before + len lb)
    by (unfold len; simpl; lia).
  exists c'. split; [|exact Hc'].
  destruct fin; [destruct (padding_length lb) as [n|] eqn:En|].
  - pose proof (padding_length_range lb n Hlbb En).
    assert (Hsub : len (subarray lb 0 (16 - n)) = 16 - n) by (rewrite len_subarray; unfold len; lia).
    replace (16 * len before + len lb - n) with (16 * len before + len (subarray lb 0 (16 - n)))
      by (rewrite Hsub; unfold len; lia).
    f_equal. rewrite rev_app_distr. cbn [rev app]. rewrite rev_involutive, En.
    apply join_blocks_last; [done|unfold len in Hsub; lia].
  - f_equal. rewrite rev_app_distr. cbn [rev app]. rewrite rev_involutive, En.
    by rewrite join_blocks_last by (done || lia).
  - f_equal. rewrite join_blocks_last by (done || lia). rewrite concat_app. simpl.
    by rewrite app_nil_r.
Qed.

(** The first call takes the initialisation vector from the data. *)
Lemma fill_iv_block block rest buffer :
  length buffer = 16%nat -> length block = 16%nat ->
  fill_iv (block ++ rest) buffer 0 = (block, 16).
Proof.
  intros Hb Hl.
  assert (Hgen : forall vs n buf, 0 <= n -> n + len vs <= 16 -> length buf = 16%nat ->
    fill_iv (vs ++ rest) buf n =
    if n + len vs <? 16 then fill_iv rest (blit buf vs n) (n + len vs)
    else (blit buf vs n, n + len vs)).
  { induction vs as [|v vs IH]; intros n buf Hn Hv Hbuf.
    - rewrite blit_nil, len_nil, Z.add_0_r. cbn [app]. destruct (n <? 16) eqn:E; [done|].
      destruct rest; cbn [fill_iv]; by rewrite ?E.
    - rewrite len_cons in *. pose proof (len_nonneg vs). cbn [app fill_iv]. ztest.
      rewrite IH by (rewrite ?length_len, ?len_arr_set; unfold len in *; lia).
      rewrite blit_cons by (unfold len in *; lia). by replace (n + 1 + len vs) with (n + (len vs + 1)) by lia. }
  rewrite Hgen by (unfold len; lia). rewrite Z.add_0_l.
  replace (len block) with 16 by (unfold len; lia). change (16 <? 16) with false. cbv iota. f_equal.
  unfold blit. simpl. rewrite drop_ge by lia. apply app_nil_r.
Qed.

Lemma first_decryptBlock c iv data fin :
  aes_idle c -> aes_started c = false -> length iv = 16%nat ->
  aes_decryptBlock (iv ++ data) fin None c =
  aes_decryptBlock2 data fin (set_aes iv (zeros 16) 0 true c).
Proof.
  intros [Hb Hp] Hs Hiv. unfold aes_decryptBlock. rewrite Hs, Hp, fill_iv_block by done.
  change (16 <? 16) with false. cbv iota. f_equal.
  rewrite subarray_in by (rewrite len_app; unfold len; lia).
  replace (Z.to_nat 16) with (length iv) by lia. rewrite drop_app_length.
  apply take_ge. rewrite len_app. unfold len. lia.
Qed.

(** Removing the padding [encryptString] adds. *)
Lemma unpad_pad bs q :
  (length q < 16)%nat ->
  unpad_blocks (bs ++ [q ++ replicate (16 - length q) (16 - len q)]) = concat bs ++ q.
Proof.
  intros Hq. unfold unpad_blocks. rewrite rev_app_distr. cbn [rev app]. rewrite rev_involutive.
  f_equal. replace (16 - length q)%nat with (Z.to_nat (16 - len q)) by (unfold len; lia).
  rewrite padding_found by (unfold len; lia).
  replace (16 - (16 - len q)) with (len q) by lia.
  rewrite subarray_in by (rewrite ?len_app; pose proof (len_nonneg q); len_lia).
  rewrite Z.sub_0_r. simpl. rewrite drop_0. apply take_app_length'. unfold len. lia.
Qed.

Lemma pad16_is_block bs q :
  Forall is_byte (concat bs ++ q) -> blocks16 bs -> (length q < 16)%nat ->
  Forall is_block (bs ++ [q ++ replicate (16 - length q) (16 - len q)]).
Proof.
  intros Hb Hbs Hq. apply Forall_app in Hb as [Hb Hqb]. apply Forall_app. split.
  - induction Hbs as [|b bs Hl _ IH]; [done|]. simpl in Hb. apply Forall_app in Hb as [? ?].
    constructor; [by split|auto].
  - repeat constructor; [rewrite length_app, length_replicate; lia|].
    apply Forall_app. split; [done|]. apply Forall_replicate. unfold is_byte, len. lia.
Qed.

(** ** AES as the cipher of a decrypting stream *)

#[local] Transparent for16 aes_shift_rows aes_inv_shift_rows aes_mix_column
  aes_inv_mix_column aes_decrypt aes_xor.

Lemma for16_bytes f b : Forall is_byte b -> Forall is_byte (for16 f b).
Proof.
  unfold for16. generalize (indices 16) as js. intros js. revert b.
  induction js as [|j js IH]; intros b Hb; simpl; auto using Forall_arr_set, is_byte_u8.
Qed.

Lemma inv_shift_bytes b : Forall is_byte b -> Forall is_byte (aes_inv_shift_rows b).
Proof. intros Hb. unfold aes_inv_shift_rows. repeat apply Forall_arr_set; auto 30 using at_byte, Forall_arr_set. Qed.

Lemma inv_mix_bytes b : Forall is_byte b -> Forall is_byte (fold_left aes_inv_mix_column columns4 b).
Proof.
  intros Hb. apply (fold_keeps (Forall is_byte)); [|done]. clear b Hb. intros j b Hb.
  unfold aes_inv_mix_column. auto 10 using Forall_arr_set, is_byte_u8.
Qed.

Lemma aes_decrypt_bytes cycles keySize b key :
  Forall is_byte b -> Forall is_byte (aes_decrypt cycles keySize b key).
Proof.
  intros Hb. unfold aes_decrypt. apply for16_bytes, inv_shift_bytes.
  apply (fold_keeps (Forall is_byte)).
  - intros i s Hs. unfold aes_decrypt_round, aes_add_key.
    by apply inv_mix_bytes, for16_bytes, for16_bytes, inv_shift_bytes.
  - unfold aes_add_key. apply for16_bytes, blit_bytes; [apply zeros_bytes|done].
Qed.
#[local] Opaque aes_decrypt.

Lemma cbc_decrypt_bytes c data buffer n iv :
  Forall is_byte data -> Forall is_byte buffer ->
  let '(b, _, _, result) := cbc_decrypt_loop c data buffer n iv in
  Forall is_byte b /\ Forall (Forall is_byte) result.
Proof.
  intros Hd. revert buffer n iv. induction Hd as [|v data Hv _ IH]; intros buffer n iv Hb; simpl.
  - by split.
  - pose proof (Forall_arr_set _ buffer n v Hb Hv) as Hb'. destruct (n + 1 <? 16); [by apply IH|].
    pose proof (IH (zeros 16) 0 (arr_set buffer n v) (zeros_bytes 16)) as H.
    destruct (cbc_decrypt_loop c data (zeros 16) 0 (arr_set buffer n v)) as [[[? ?] ?] ?].
    destruct H as [? ?]. split; [done|]. constructor; [|done].
    by apply for16_bytes, aes_decrypt_bytes.
Qed.

Lemma join_bytes result n : Forall (Forall is_byte) result -> Forall is_byte (join_blocks result n).
Proof.
  intros Hr. unfold join_blocks. generalize 0 as j. pose proof (zeros_bytes n) as Hz.
  revert Hz. generalize (zeros n) as o.
  induction Hr as [|b bs Hb _ IH]; intros o Ho j; simpl; [done|]. apply IH. by apply blit_bytes.
Qed.

Lemma decryptBlock2_bytes c data fin :
  Forall is_byte data -> Forall is_byte (aes_buffer c) ->
  Forall is_byte (fst (aes_decryptBlock2 data fin c)) /\
  Forall is_byte (aes_buffer (snd (aes_decryptBlock2 data fin c))).
Proof.
  intros Hd Hb. unfold aes_decryptBlock2.
  pose proof (cbc_decrypt_bytes c data (aes_buffer c) (aes_bufferPosition c) (aes_iv c) Hd Hb) as H.
  destruct (cbc_decrypt_loop _ _ _ _ _) as [[[b n] iv] result]. destruct H as [Hb' Hr].
  destruct (rev result) as [|lb before] eqn:E; [by split|].
  assert (Hrev : Forall (Forall is_byte) (lb :: before)) by (rewrite <- E; by apply Forall_rev).
  apply Forall_cons in Hrev as [Hlb Hbefore].
  destruct (if fin then padding_length lb else None); split; try exact Hb'; simpl; apply join_bytes.
  - apply Forall_app. split; [by apply Forall_rev|]. repeat constructor. by apply Forall_subarray.
  - done.
Qed.

Lemma fill_iv_bytes data buffer n :
  Forall is_byte data -> Forall is_byte buffer -> Forall is_byte (fst (fill_iv data buffer n)).
Proof.
  intros Hd. revert buffer n. induction Hd as [|v data Hv _ IH]; intros buffer n Hb; simpl; [done|].
  destruct (n <? 16); [|done]. apply IH. by apply Forall_arr_set.
Qed.

#[export] Instance aes_cipher : Cipher AES := {
  decryptBlock data finalize c := aes_decryptBlock data finalize None c
}.

#[export] Program Instance aes_cipher_bytes : CipherBytes AES := {
  cipher_ok c := Forall is_byte (aes_buffer c)
}.
Next Obligation.
  intros c data fin Hb Hd. simpl. unfold aes_decryptBlock.
  destruct (aes_started c); [by apply decryptBlock2_bytes|].
  pose proof (fill_iv_bytes data (aes_buffer c) (aes_bufferPosition c) Hd Hb) as Hf.
  destruct (fill_iv data (aes_buffer c) (aes_bufferPosition c)) as [b n]. simpl in Hf.
  destruct (n <? 16); [by split|].
  apply decryptBlock2_bytes; [by apply Forall_subarray|apply zeros_bytes].
Qed.

(** Chunks of 512 bytes are 32 blocks. *)
Lemma take_blocks n bs : blocks16 bs -> take (n * 16) (concat bs) = concat (take n bs).
Proof.
  intros Hb. revert n. induction Hb as [|b bs Hl _ IH]; intros n; [by simpl; rewrite !take_nil|].
  destruct n as [|n]; [done|]. cbn [concat take]. rewrite <- IH.
  replace (S n * 16)%nat with (length b + n * 16)%nat by lia. by rewrite take_app_add.
Qed.

Lemma drop_blocks n bs : blocks16 bs -> drop (n * 16) (concat bs) = concat (drop n bs).
Proof.
  intros Hb. revert n. induction Hb as [|b bs Hl _ IH]; intros n; [by simpl; rewrite !drop_nil|].
  destruct n as [|n]; [done|]. cbn [concat drop]. rewrite <- IH.
  replace (S n * 16)%nat with (length b + n * 16)%nat by lia. by rewrite drop_app_add.
Qed.

Lemma concat_nil_blocks bs : blocks16 bs -> concat bs = [] -> bs = [].
Proof.
  intros Hb. destruct Hb as [|b bs Hl _]; [done|]. simpl. intros Hc.
  apply app_nil in Hc as [-> _]. discriminate.
Qed.

Lemma unpad_app l1 l2 : l2 <> [] -> unpad_blocks (l1 ++ l2) = concat l1 ++ unpad_blocks l2.
Proof.
  intros Hne. destruct l2 as [|b l2 _] using rev_ind; [done|]. unfold unpad_blocks.
  rewrite app_assoc, !rev_app_distr. cbn [rev app]. rewrite !rev_involutive.
  rewrite <- !rev_app_distr, ?rev_involutive, concat_app. by rewrite <- app_assoc.
Qed.

Lemma started_chunks fuel c bs :
  aes_idle c -> aes_started c = true -> blocks16 bs ->
  Forall is_block (cbc_dec c (aes_iv c) bs) -> (length (concat bs) <= fuel)%nat ->
  decrypt_chunks fuel c (concat bs) = unpad_blocks (cbc_dec c (aes_iv c) bs).
Proof.
  revert c bs. induction fuel as [|fuel IH]; intros c bs Hi Hs Hb Hd Hl.
  - assert (concat bs = []) as Hn by (destruct (concat bs); [done|simpl in Hl; lia]).
    by rewrite (concat_nil_blocks bs Hb Hn).
  - destruct (concat bs) as [|v vs] eqn:Ec; [by rewrite (concat_nil_blocks bs Hb Ec)|].
    cbn [decrypt_chunks]. rewrite <- Ec in *. clear Ec v vs.
    change (Z.to_nat chunkSize) with (32 * 16)%nat.
    rewrite take_blocks, drop_blocks by done. cbn [decryptBlock aes_cipher].
    unfold aes_decryptBlock. rewrite Hs.
    rewrite <- (take_drop 32 bs) in Hd. rewrite cbc_dec_app in Hd.
    apply Forall_app in Hd as [Hd1 Hd2].
    destruct (decryptBlock2_blocks c (take 32 bs) (len (concat (drop 32 bs)) =? 0) Hi)
      as (c' & -> & Hi' & Hiv' & Hs' & Hsame); [by apply Forall_take|done|].
    assert (Hall : cbc_dec c (aes_iv c) bs = cbc_dec c (aes_iv c) (take 32 bs) ++
      cbc_dec c (default (aes_iv c) (last (take 32 bs))) (drop 32 bs))
      by (by rewrite <- cbc_dec_app, take_drop).
    rewrite Hall.
    destruct (decide (drop 32 bs = [])) as [En|En].
    + rewrite En. change (len (concat []) =? 0) with true. cbn [concat cbc_dec]. cbv iota.
      assert (decrypt_chunks fuel c' [] = []) as -> by (by destruct fuel).
      by rewrite !app_nil_r.
    + assert (Hne : (len (concat (drop 32 bs)) =? 0) = false).
      { apply Z.eqb_neq. intros Hz. apply En, concat_nil_blocks; [by apply Forall_drop|].
        destruct (concat (drop 32 bs)); [done|]. unfold len in Hz. simpl in Hz. lia. }
      rewrite Hne. rewrite unpad_app.
      * f_equal. rewrite IH; auto; rewrite ?Hsame, ?Hiv', ?Hs'; auto; [by apply Forall_drop|].
        rewrite <- drop_blocks by done. rewrite length_drop. lia.
      * intros Hz. apply (f_equal length) in Hz. rewrite len_cbc_dec in Hz.
        by destruct (drop 32 bs).
Qed.

(** From the first chunk on, which also holds the initialisation vector. *)
Lemma fresh_chunks c iv bs :
  aes_idle c -> aes_started c = false -> length iv = 16%nat -> blocks16 bs ->
  Forall is_block (cbc_dec c iv bs) ->
  decrypt_all c (iv ++ concat bs) = unpad_blocks (cbc_dec c iv bs).
Proof.
  intros Hi Hs Hiv Hb Hd. unfold decrypt_all.
  assert (Hne : exists v vs, iv ++ concat bs = v :: vs) by (destruct iv; [discriminate|by do 2 eexists]).
  destruct Hne as (v & vs & Ev). rewrite Ev. cbn [length decrypt_chunks]. rewrite <- Ev.
  assert (Hlen : (length (concat (drop 31 bs)) <= length vs)%nat).
  { rewrite <- (drop_blocks 31) by done. rewrite length_drop.
    apply (f_equal length) in Ev. rewrite length_app in Ev. simpl in Ev. lia. }
  clear Ev v. change (Z.to_nat chunkSize) with (32 * 16)%nat.
  change (iv ++ concat bs) with (concat (iv :: bs)).
  rewrite take_blocks, drop_blocks by (by constructor).
  change (drop 32 (iv :: bs)) with (drop 31 bs).
  change (concat (take 32 (iv :: bs))) with (iv ++ concat (take 31 bs)).
  cbn [decryptBlock aes_cipher]. rewrite first_decryptBlock by done.
  set (c0 := set_aes iv (zeros 16) 0 true c).
  assert (Hi0 : aes_idle c0) by (split; [done|apply Hi]).
  assert (Hsame0 : forall iv l, cbc_dec c0 iv l = cbc_dec c iv l) by (intros; by apply cbc_dec_same).
  assert (Hall : cbc_dec c iv bs = cbc_dec c iv (take 31 bs) ++
    cbc_dec c (default iv (last (take 31 bs))) (drop 31 bs))
    by (by rewrite <- cbc_dec_app, take_drop).
  rewrite Hall in Hd |- *. apply Forall_app in Hd as [Hd1 Hd2].
  destruct (decryptBlock2_blocks c0 (take 31 bs) (len (concat (drop 31 bs)) =? 0) Hi0)
    as (c' & -> & Hi' & Hiv' & Hs' & Hsame); [by apply Forall_take|by rewrite Hsame0|].
  rewrite Hsame0. change (aes_iv c0) with iv in *.
  destruct (decide (drop 31 bs = [])) as [En|En].
  - rewrite En. change (len (concat []) =? 0) with true. cbn [concat cbc_dec]. cbv iota.
    assert (decrypt_chunks (length vs) c' [] = []) as -> by (by destruct (length vs)).
    by rewrite !app_nil_r.
  - assert (Hne : (len (concat (drop 31 bs)) =? 0) = false).
    { apply Z.eqb_neq. intros Hz. apply En, concat_nil_blocks; [by apply Forall_drop|].
      destruct (concat (drop 31 bs)); [done|]. unfold len in Hz. simpl in Hz. lia. }
    rewrite Hne, unpad_app.
    + f_equal. rewrite started_chunks; auto; rewrite ?Hsame, ?Hsame0, ?Hiv'; auto.
      by apply Forall_drop.
    + intros Hz. apply (f_equal length) in Hz. rewrite len_cbc_dec in Hz. by destruct (drop 31 bs).
Qed.

(** The two ciphers as they are built. *)
Inductive new_AES (key : list Z) : AES -> Prop :=
| new_aes128 : new_AES key (new_AES128Cipher key)
| new_aes256 : new_AES key (new_AES256Cipher key).

(** Encrypting padded data and decrypting the chunks. *)
Lemma aes_decrypt_all_encrypted key c iv plain :
  new_AES key c -> length iv = 16%nat -> Forall is_byte plain ->
  decrypt_all c (iv ++ fst (aes_encrypt_data (pad16 plain) (Some iv) c)) = plain.
Proof.
  intros Hc Hiv Hb.
  assert (Hi : aes_idle c /\ aes_started c = false) by (by destruct Hc).
  destruct Hi as [Hi Hs].
  destruct (pad16_blocks plain) as (bs & q & -> & Hbs & Hq & ->).
  pose proof (pad16_is_block bs q Hb Hbs Hq) as Hblocks.
  assert (Hb16 : blocks16 (bs ++ [q ++ replicate (16 - length q) (16 - len q)]))
    by (eapply Forall_impl; [exact Hblocks|]; by intros ? []).
  rewrite aes_encrypt_data_blocks by done.
  rewrite fresh_chunks; auto.
  - rewrite cbc_dec_enc by done. by apply unpad_pad.
  - eapply Forall_impl; [by apply cbc_enc_blocks|]. by intros ? [].
  - by rewrite cbc_dec_enc.
Qed.

(** C18. The decrypting stream inverts AES in CBC mode with padding: over any
    stream that holds an initialisation vector and the encryption of any bytes
    [plain] padded to whole blocks, it returns [plain].  The key schedules,
    the tables, the chaining across chunks of 512 bytes and the removal of the
    padding from the last chunk only are all part of it, for both AES-128 and
    AES-256 and for every key. *)
Theorem aes_stream_decrypts {S} `{SourceSpec S} (fuel : nat) (s : S) hint key c iv plain
  (Hc : new_AES key c) (Hiv : length iv = 16%nat) (Hbytes : Forall is_byte plain)
  (Hrest : rest s (iv ++ fst (aes_encrypt_data (pad16 plain) (Some iv) c)))
  (Hfuel : (length (iv ++ fst (aes_encrypt_data (pad16 plain) (Some iv) c)) < fuel)%nat) :
  fst (getBytes (ByteSource := DS_source (H := dec_decoder) fuel) 0
         (new_DecryptStream s hint c)) = Ok plain.
Proof.
  apply ds_read_all with (Datatypes.S (length (iv ++ fst (aes_encrypt_data (pad16 plain) (Some iv) c))));
    [|done|lia].
  exists (iv ++ fst (aes_encrypt_data (pad16 plain) (Some iv) c)). split_and!; auto.
  - by eapply rest_bytes.
  - simpl. destruct Hc; apply zeros_bytes.
  - symmetry. by apply (aes_decrypt_all_encrypted key).
Qed.

Lemma aes_stream_decrypts_witness :
  fst (getBytes (ByteSource := DS_source (H := dec_decoder) 40) 0
    (new_DecryptStream (new_Stream
      (indices 16 ++ fst (aes_encrypt_data (pad16 [1; 2; 3]) (Some (indices 16))
                            (new_AES128Cipher (indices 16)))) None None) None
      (new_AES128Cipher (indices 16)))) = Ok [1; 2; 3].
Proof.
  apply (aes_stream_decrypts 40 _ _ (indices 16) _ (indices 16)).
  - apply new_aes128.
  - reflexivity.
  - repeat constructor; unfold is_byte; lia.
  - apply new_Stream_rest. vm_compute. repeat constructor; discriminate.
  - vm_compute. lia.
Defined.
