(* ===== verification/Hash.v ===== *)
(** * What the hash functions share

    The copy of the message into the padded buffer, the loop over its blocks
    and the bytes of the length, with the lemmas that relate them to the
    published definitions: a padded message is cut into pieces and folded. *)
From S2P Require Import Prelude JsBits ByteStream DecodeStream Rc4.
Local Open Scope js_scope.

(** [for (i = 0; i < length; ++i) padded[i] = data[offset++]] *)
Fixpoint copy_data (n : nat) (data : list Z) (offset i : Z) (padded : list Z) : list Z :=
  match n with
  | O => padded
  | S n' => copy_data n' data (offset + 1) (i + 1) (arr_set padded i (jn_u8 (arr_get data offset)))
  end.

(** The values of a loop counter from [a] to [b - 1]. *)
Definition range (a b : Z) : list Z := map (fun k => a + k) (indices (b - a)).

(** [for (i = 0; i < paddedLength;)], where a turn handles the block at [i]
    and advances [i] by [size]; the length of the message is fuel enough. *)
Fixpoint block_loop {H} (size : Z) (block : list Z -> Z -> H -> H) (fuel : nat)
    (padded : list Z) (i : Z) (h : H) : H :=
  match fuel with
  | O => h
  | S fuel' =>
      if i <? len padded
      then block_loop size block fuel' padded (i + size) (block padded i h)
      else h
  end.

(** The constants of FIPS 180-4: the first [n] primes, and the first [bits]
    bits of the fractional part of a root of a prime. *)
Definition is_prime (p : Z) : bool := forallb (fun d => negb (p mod d =? 0)) (range 2 p).
Definition primes (n : nat) : list Z := take n (List.filter is_prime (range 2 412)).

(** The largest [r] with [r ^ k <= x], from its highest bit down. *)
Fixpoint integer_root (k : Z) (fuel : nat) (x acc : Z) : Z :=
  match fuel with
  | O => acc
  | S i =>
      let a := acc + 2 ^ Z.of_nat i in
      integer_root k i x (if a ^ k <=? x then a else acc)
  end.
Definition root_bits (k bits p : Z) : Z := integer_root k 80 (p * 2 ^ (k * bits)) 0 mod 2 ^ bits.

(** The message cut into pieces of [size] bytes. *)
Fixpoint pieces (fuel size : nat) (l : list Z) : list (list Z) :=
  match fuel, l with
  | O, _ | _, [] => []
  | S fuel', _ => take size l :: pieces fuel' size (drop size l)
  end.

Lemma copy_data_blit n data offset i padded :
  0 <= offset -> offset + Z.of_nat n <= len data -> Forall is_byte data ->
  0 <= i -> i + Z.of_nat n <= len padded ->
  copy_data n data offset i padded = blit padded (subarray data offset (offset + Z.of_nat n)) i.
Proof.
  intros Ho Hd Hb. revert offset i padded Ho Hd. induction n as [|n IH]; intros offset i padded Ho Hd Hi Hp.
  - simpl. by rewrite Z.add_0_r, subarray_nil, blit_nil by lia.
  - cbn [copy_data]. rewrite IH by (rewrite ?len_arr_set; lia).
    destruct (subarray data offset (offset + Z.of_nat (S n))) as [|b r] eqn:E.
    { apply (f_equal len) in E. rewrite len_subarray in E by lia. change (len []) with 0 in E. lia. }
    destruct (subarray_cons data offset (offset + Z.of_nat (S n)) b r ltac:(lia) ltac:(lia) E) as (_ & Hg & Hr).
    rewrite Hg. assert (Hbb : is_byte b).
    { pose proof (Forall_subarray is_byte data offset (offset + Z.of_nat (S n)) Hb) as Hs.
      rewrite E in Hs. by apply Forall_cons in Hs as [? _]. }
    change (jn_u8 (Some b)) with (to_u8 b). rewrite to_u8_small by done.
    replace (offset + Z.of_nat (S n)) with (offset + 1 + Z.of_nat n) in Hr by lia.
    rewrite Hr. rewrite blit_cons by lia. done.
Qed.

Lemma zeros_app a b : 0 <= a -> 0 <= b -> zeros (a + b) = zeros a ++ zeros b.
Proof. intros. unfold zeros. rewrite Z2Nat.inj_add by lia. apply replicate_add. Qed.

(** What the copy leaves: the message and zeros. *)
Lemma copied data offset length N :
  0 <= offset -> 0 <= length -> offset + length <= len data -> Forall is_byte data -> length <= N ->
  copy_data (Z.to_nat length) data offset 0 (zeros N) =
  subarray data offset (offset + length) ++ zeros (N - length).
Proof.
  intros Ho Hl Hd Hb HN. rewrite copy_data_blit by (rewrite ?len_zeros; (done || lia)).
  rewrite Z2Nat.id by lia. set (msg := subarray data offset (offset + length)).
  assert (Hm : len msg = length) by (unfold msg; rewrite len_subarray; lia).
  unfold blit. simpl. f_equal. unfold zeros. rewrite drop_replicate. f_equal.
  unfold len in Hm. lia.
Qed.

(** A byte of the length. *)
Lemma length_byte_sar x k :
  0 <= x < 2 ^ 32 -> 1 <= k < 4 -> (x .>> (8 * k - 3)) .& 255 = word_byte (8 * x) k.
Proof.
  intros Hx Hk. rewrite js_and_255. apply byte_ext.
  - unfold is_true. pose proof (Z.mod_pos_bound (x .>> (8 * k - 3)) 256 ltac:(lia)). lia.
  - unfold is_true, word_byte. pose proof (Z.mod_pos_bound (8 * x / 2 ^ (8 * k)) 256 ltac:(lia)). lia.
  - intros i Hi. rewrite word_byte_bits by lia. change 256 with (2 ^ 8).
    rewrite Z.mod_pow2_bits_low, js_sar_bit by lia.
    replace (8 * x) with (x * 2 ^ 3) by lia. rewrite Z.mul_pow2_bits by lia. f_equal. lia.
Qed.

Lemma length_byte_0 x : 0 <= x -> (x .<< 3) .& 255 = word_byte (8 * x) 0.
Proof.
  intros Hx. rewrite js_and_255. apply byte_ext.
  - unfold is_true. pose proof (Z.mod_pos_bound (x .<< 3) 256 ltac:(lia)). lia.
  - unfold is_true, word_byte. pose proof (Z.mod_pos_bound (8 * x / 2 ^ (8 * 0)) 256 ltac:(lia)). lia.
  - intros i Hi. rewrite word_byte_bits by lia. change 256 with (2 ^ 8).
    rewrite Z.mod_pow2_bits_low, js_shl_bit by lia.
    replace (8 * x) with (x * 2 ^ 3) by lia. rewrite Z.add_0_r.
    destruct (Z.ltb_spec i 3); [by rewrite Z.mul_pow2_bits_low by lia|].
    by rewrite Z.mul_pow2_bits by lia.
Qed.

Lemma length_byte_4 x : 0 <= x < 2 ^ 32 -> (x .>>> 29) .& 255 = word_byte (8 * x) 4.
Proof.
  intros Hx. rewrite js_and_255. apply byte_ext.
  - unfold is_true. pose proof (Z.mod_pos_bound (x .>>> 29) 256 ltac:(lia)). lia.
  - unfold is_true, word_byte. pose proof (Z.mod_pos_bound (8 * x / 2 ^ (8 * 4)) 256 ltac:(lia)). lia.
  - intros i Hi. rewrite word_byte_bits by lia. change 256 with (2 ^ 8).
    rewrite Z.mod_pow2_bits_low, js_shr_bit by lia.
    replace (8 * x) with (x * 2 ^ 3) by lia. rewrite Z.mul_pow2_bits by lia.
    destruct (Z.ltb_spec (i + 29) 32); [f_equal; lia|].
    symmetry. apply uint32_high_bits; lia.
Qed.

Lemma length_byte_high x k : 0 <= x < 2 ^ 32 -> 5 <= k -> word_byte (8 * x) k = 0.
Proof.
  intros Hx Hk. unfold word_byte. rewrite Z.div_small; [done|].
  assert (2 ^ 40 <= 2 ^ (8 * k)) by (apply Z.pow_le_mono_r; lia). lia.
Qed.

Lemma arr_set_next {A} (l1 l2 : list A) i v :
  i = len l1 -> arr_set (l1 ++ l2) i v = l1 ++ arr_set l2 0 v.
Proof. intros ->. rewrite arr_set_app by lia. by rewrite Z.sub_diag. Qed.

(** Two folds whose states stay related. *)
Lemma fold_related {A B} (R : A -> B -> Prop) (P : Z -> Prop) f g l a b :
  (forall x y j, P j -> R x y -> R (f x j) (g y j)) -> Forall P l -> R a b ->
  R (fold_left f l a) (fold_left g l b).
Proof.
  intros Hstep Hl. revert a b. induction Hl as [|j l Hj _ IH]; intros a b Hab; simpl; auto.
Qed.

Lemma indices_range n : Forall (fun j => 0 <= j < n) (indices n).
Proof.
  unfold indices. apply Forall_map, Forall_forall. intros k Hk. apply elem_of_seq in Hk.
  unfold compose. lia.
Qed.

Lemma at_subarray l i n k :
  0 <= i -> 0 <= k < n -> i + n <= len l -> at_ (subarray l i (i + n)) k = at_ l (i + k).
Proof.
  intros Hi Hk Hl. unfold at_, arr_get. repeat ztest. rewrite subarray_in by lia.
  rewrite lookup_take_lt, lookup_drop by lia. do 2 f_equal. lia.
Qed.

Lemma word_sum x x' y y' :
  eq32 x x' -> eq32 y y' ->
  eq32 (to_int32 (x + y)) (to_uint32 (x' + y')) /\ 0 <= to_uint32 (x' + y') < 2 ^ 32.
Proof.
  intros Hx Hy. split; [|apply to_uint32_range]. by rewrite eq32_int32, eq32_uint32, Hx, Hy.
Qed.

(** The loop over the padded message is the fold over its pieces, when the
    blocks keep the states related. *)
Lemma block_loop_pieces {H H'} (R : H -> H' -> Prop) size block (rblock : H' -> list Z -> H')
    padded :
  0 < size ->
  (forall i h h', 0 <= i -> i + size <= len padded -> R h h' ->
    R (block padded i h) (rblock h' (subarray padded i (i + size)))) ->
  forall fuel fuel' i h h',
  0 <= i -> (len padded - i) mod size = 0 -> len padded - i <= Z.of_nat fuel ->
  len padded - i <= Z.of_nat fuel' -> i <= len padded -> R h h' ->
  R (block_loop size block fuel padded i h)
    (fold_left rblock (pieces fuel' (Z.to_nat size) (drop (Z.to_nat i) padded)) h').
Proof.
  intros Hsize Hblock fuel.
  induction fuel as [|fuel IH]; intros fuel' i h h' Hi Hm Hf Hf' Hl Hh.
  - assert (i = len padded) as -> by lia. rewrite drop_ge by (unfold len; lia). by destruct fuel'.
  - cbn [block_loop]. destruct (Z.ltb_spec i (len padded)).
    + assert (Hle : i + size <= len padded).
      { apply Z.mod_divide in Hm as [k Hk]; [|lia]. assert (1 <= k) by nia. nia. }
      destruct fuel' as [|fuel']; [lia|].
      destruct (drop (Z.to_nat i) padded) as [|b r] eqn:E.
      { apply (f_equal length) in E. rewrite length_drop in E. unfold len in *. simpl in E. lia. }
      cbn [pieces fold_left]. rewrite <- E. rewrite drop_drop.
      replace (Z.to_nat i + Z.to_nat size)%nat with (Z.to_nat (i + size)) by lia.
      replace (take (Z.to_nat size) (drop (Z.to_nat i) padded)) with (subarray padded i (i + size))
        by (rewrite subarray_in by lia; f_equal; lia).
      apply IH; try lia; [|by apply Hblock].
      replace (len padded - (i + size)) with (len padded - i + (-1) * size) by lia.
      by rewrite Z_mod_plus_full.
    + assert (i = len padded) as -> by lia. rewrite drop_ge by (unfold len; lia). by destruct fuel'.
Qed.

(** The whole message. *)
Lemma block_loop_message {H H'} (R : H -> H' -> Prop) size block (rblock : H' -> list Z -> H')
    padded h h' :
  0 < size -> len padded mod size = 0 ->
  (forall i h h', 0 <= i -> i + size <= len padded -> R h h' ->
    R (block padded i h) (rblock h' (subarray padded i (i + size)))) ->
  R h h' ->
  R (block_loop size block (Z.to_nat (len padded)) padded 0 h)
    (fold_left rblock (pieces (length padded) (Z.to_nat size) padded) h').
Proof.
  intros Hs Hm Hb Hh. pose proof (len_nonneg padded).
  pose proof (block_loop_pieces R size block rblock padded Hs Hb (Z.to_nat (len padded))
    (length padded) 0 h h') as Hl.
  change (drop (Z.to_nat 0) padded) with padded in Hl.
  rewrite Z.sub_0_r in Hl. apply Hl; (done || (unfold len; lia)).
Qed.

(** Two folds over a range whose states stay related at each index. *)
Lemma fold_range {A B} (R : Z -> A -> B -> Prop) f g a b x y :
  a <= b -> (forall x y j, a <= j < b -> R j x y -> R (j + 1) (f x j) (g y j)) ->
  R a x y -> R b (fold_left f (range a b) x) (fold_left g (range a b) y).
Proof.
  intros Hab Hstep Hxy. unfold range, indices. remember (Z.to_nat (b - a)) as n eqn:Hn.
  assert (Hb : b = a + Z.of_nat n) by lia. clear Hn. subst b.
  rewrite !map_map. revert a x y Hab Hstep Hxy. induction n as [|n IH]; intros a x y Hab Hstep Hxy.
  - simpl. by rewrite Z.add_0_r.
  - simpl. replace (a + Z.of_nat 0) with a by lia. rewrite <- seq_shift, !map_map.
    replace (a + Z.of_nat (S n)) with (a + 1 + Z.of_nat n) by lia.
    rewrite (map_ext (fun k => a + Z.of_nat (S k)) (fun k => a + 1 + Z.of_nat k)) by lia.
    apply IH; [lia|intros; apply Hstep; [lia|done]|apply Hstep; [lia|done]].
Qed.

Lemma at_cons_pos (x : Z) xs i : 0 < i -> at_ (x :: xs) i = at_ xs (i - 1).
Proof.
  intros Hi. unfold at_, arr_get. repeat ztest.
  by replace (Z.to_nat i) with (S (Z.to_nat (i - 1))) by lia.
Qed.

Lemma at_arr_set l i v : 0 <= i < len l -> at_ (arr_set l i v) i = v.
Proof.
  intros Hi. unfold at_, arr_get, arr_set. ztest. rewrite list_lookup_insert_eq by (unfold len in Hi; lia).
  done.
Qed.

Lemma at_arr_set_ne l i k v : i <> k -> 0 <= i -> 0 <= k -> at_ (arr_set l i v) k = at_ l k.
Proof.
  intros Hne Hi Hk. unfold at_, arr_get, arr_set. repeat ztest.
  by rewrite list_lookup_insert_ne by lia.
Qed.

Lemma at_snoc l v i : i = len l -> at_ (l ++ [v]) i = v.
Proof.
  intros ->. unfold at_, arr_get. pose proof (len_nonneg l). ztest.
  rewrite lookup_app_r by (unfold len; lia).
  by replace (Z.to_nat (len l) - length l)%nat with 0%nat by (unfold len; lia).
Qed.

Lemma at_app_l l1 l2 i : 0 <= i < len l1 -> at_ (l1 ++ l2) i = at_ l1 i.
Proof. intros Hi. unfold at_, arr_get. ztest. by rewrite lookup_app_l by (unfold len in Hi; lia). Qed.
