(* ===== verification/Md5.v ===== *)
(** * MD5

    [calculateMD5] of pdf.worker.mjs, proved equal to the definition of
    RFC 1321: padding, little-endian words and four rounds of 16 steps on
    unsigned words modulo 2^32.  The code works on signed 32-bit integers and
    on sums that overflow them; the proof carries the equality of words. *)
From S2P Require Import Prelude JsBits ByteStream DecodeStream Rc4 Hash.
Local Open Scope js_scope.

(** ** The code *)

Definition md5_r : list Z := [
   7; 12; 17; 22; 7; 12; 17; 22; 7; 12; 17; 22; 7; 12; 17; 22; 5; 9; 14; 20; 5; 9; 14; 20; 5;
   9; 14; 20; 5; 9; 14; 20; 4; 11; 16; 23; 4; 11; 16; 23; 4; 11; 16; 23; 4; 11; 16; 23; 6; 10;
   15; 21; 6; 10; 15; 21; 6; 10; 15; 21; 6; 10; 15; 21].

Definition md5_k : list Z := [
   -680876936; -389564586; 606105819; -1044525330; -176418897; 1200080426; -1473231341;
   -45705983; 1770035416; -1958414417; -42063; -1990404162; 1804603682; -40341101; -1502002290;
   1236535329; -165796510; -1069501632; 643717713; -373897302; -701558691; 38016083;
   -660478335; -405537848; 568446438; -1019803690; -187363961; 1163531501; -1444681467;
   -51403784; 1735328473; -1926607734; -378558; -2022574463; 1839030562; -35309556;
   -1530992060; 1272893353; -155497632; -1094730640; 681279174; -358537222; -722521979;
   76029189; -640364487; -421815835; 530742520; -995338651; -198630844; 1126891415;
   -1416354905; -57434055; 1700485571; -1894986606; -1051523; -2054922799; 1873313359;
   -30611744; -1560198380; 1309151649; -145523070; -1120210379; 718787259; -343485551].

(** The padded message. *)
Definition md5_padded (data : list Z) (offset length : Z) : list Z :=
  let paddedLength := (length + 72) .& js_not 63 in
  let padded := copy_data (Z.to_nat length) data offset 0 (zeros paddedLength) in
  let i := length in
  let padded := arr_set padded i 0x80 in let i := i + 1 in
  let n := paddedLength - 8 in
  let i := if i <? n then n else i in
  let padded := arr_set padded i (to_u8 ((length .<< 3) .& 0xff)) in let i := i + 1 in
  let padded := arr_set padded i (to_u8 ((length .>> 5) .& 0xff)) in let i := i + 1 in
  let padded := arr_set padded i (to_u8 ((length .>> 13) .& 0xff)) in let i := i + 1 in
  let padded := arr_set padded i (to_u8 ((length .>> 21) .& 0xff)) in let i := i + 1 in
  arr_set padded i (to_u8 ((length .>>> 29) .& 0xff)).

(** The words of the block at [i]. *)
Definition md5_words (padded : list Z) (i : Z) : list Z :=
  map (fun j => let i := i + 4 * j in
         at_ padded i .| (at_ padded (i + 1) .<< 8) .| (at_ padded (i + 2) .<< 16)
         .| (at_ padded (i + 3) .<< 24)) (indices 16).

Abbreviation quad := (Z * Z * Z * Z)%type.

(** One of the 64 steps. *)
Definition md5_step (w : list Z) (s : quad) (j : Z) : quad :=
  let '(a, b, c, d) := s in
  let '(f, g) :=
    if j <? 16 then ((b .& c) .| (js_not b .& d), j)
    else if j <? 32 then ((d .& b) .| (js_not d .& c), (5 * j + 1) .& 15)
    else if j <? 48 then (b .^ c .^ d, (3 * j + 5) .& 15)
    else (c .^ (b .| js_not d), (7 * j) .& 15) in
  let tmp := d in
  let rotateArg := to_int32 (a + f + at_ md5_k j + at_ w g) in
  let rotate := at_ md5_r j in
  (tmp, to_int32 (b + ((rotateArg .<< rotate) .| (rotateArg .>>> 32 - rotate))), b, c).

Definition md5_block (padded : list Z) (i : Z) (h : quad) : quad :=
  let '(h0, h1, h2, h3) := h in
  let w := md5_words padded i in
  let '(a, b, c, d) := fold_left (md5_step w) (indices 64) (h0, h1, h2, h3) in
  (to_int32 (h0 + a), to_int32 (h1 + b), to_int32 (h2 + c), to_int32 (h3 + d)).

(** The four bytes of a word of the result. *)
Definition md5_bytes (h : Z) : list Z :=
  [to_u8 (h .& 0xff); to_u8 ((h .>> 8) .& 0xff); to_u8 ((h .>> 16) .& 0xff);
   to_u8 ((h .>>> 24) .& 0xff)].

Definition calculateMD5 (data : list Z) (offset length : Z) : list Z :=
  let padded := md5_padded data offset length in
  let '(h0, h1, h2, h3) :=
    block_loop 64 md5_block (Z.to_nat (len padded)) padded 0
      (1732584193, -271733879, -1732584194, 271733878) in
  md5_bytes h0 ++ md5_bytes h1 ++ md5_bytes h2 ++ md5_bytes h3.

(** ** RFC 1321 *)

(** The integer part of [4294967296 * abs(sin(i + 1))]. *)
Definition rfc_T : list Z := [
   0xd76aa478; 0xe8c7b756; 0x242070db; 0xc1bdceee; 0xf57c0faf; 0x4787c62a; 0xa8304613;
   0xfd469501; 0x698098d8; 0x8b44f7af; 0xffff5bb1; 0x895cd7be; 0x6b901122; 0xfd987193;
   0xa679438e; 0x49b40821; 0xf61e2562; 0xc040b340; 0x265e5a51; 0xe9b6c7aa; 0xd62f105d;
   0x2441453; 0xd8a1e681; 0xe7d3fbc8; 0x21e1cde6; 0xc33707d6; 0xf4d50d87; 0x455a14ed;
   0xa9e3e905; 0xfcefa3f8; 0x676f02d9; 0x8d2a4c8a; 0xfffa3942; 0x8771f681; 0x6d9d6122;
   0xfde5380c; 0xa4beea44; 0x4bdecfa9; 0xf6bb4b60; 0xbebfbc70; 0x289b7ec6; 0xeaa127fa;
   0xd4ef3085; 0x4881d05; 0xd9d4d039; 0xe6db99e5; 0x1fa27cf8; 0xc4ac5665; 0xf4292244;
   0x432aff97; 0xab9423a7; 0xfc93a039; 0x655b59c3; 0x8f0ccc92; 0xffeff47d; 0x85845dd1;
   0x6fa87e4f; 0xfe2ce6e0; 0xa3014314; 0x4e0811a1; 0xf7537e82; 0xbd3af235; 0x2ad7d2bb;
   0xeb86d391].

(** The message, a 1 bit, zeros up to 56 bytes modulo 64, and the length in
    bits as 64 bits, least significant byte first. *)
Definition rfc_pad (msg : list Z) : list Z :=
  msg ++ 0x80 :: zeros ((55 - len msg) mod 64)
  ++ map (word_byte (8 * len msg)) (indices 8).

(** The block as 16 little-endian words. *)
Fixpoint rfc_words (l : list Z) : list Z :=
  match l with
  | b0 :: b1 :: b2 :: b3 :: l' => le32 b0 b1 b2 b3 :: rfc_words l'
  | _ => []
  end.

Definition rfc_F (x y z : Z) : Z := Z.lor (Z.land x y) (Z.land (Z.lnot x) z).
Definition rfc_G (x y z : Z) : Z := Z.lor (Z.land x z) (Z.land y (Z.lnot z)).
Definition rfc_H (x y z : Z) : Z := Z.lxor (Z.lxor x y) z.
Definition rfc_I (x y z : Z) : Z := Z.lxor y (Z.lor x (Z.lnot z)).

(** Step [j]: [a = b + ((a + f(b,c,d) + X[k] + T[j]) <<< s)], then the
    registers move round. *)
Definition rfc_step (X : list Z) (s : quad) (j : Z) : quad :=
  let '(a, b, c, d) := s in
  let '(f, k, shifts) :=
    if j <? 16 then (rfc_F b c d, j, [7; 12; 17; 22])
    else if j <? 32 then (rfc_G b c d, (5 * j + 1) mod 16, [5; 9; 14; 20])
    else if j <? 48 then (rfc_H b c d, (3 * j + 5) mod 16, [4; 11; 16; 23])
    else (rfc_I b c d, (7 * j) mod 16, [6; 10; 15; 21]) in
  let sum := to_uint32 (a + f + at_ X k + at_ rfc_T j) in
  (d, to_uint32 (b + rotl32 sum (at_ shifts (j mod 4))), b, c).

Definition rfc_block (h : quad) (block : list Z) : quad :=
  let '(h0, h1, h2, h3) := h in
  let '(a, b, c, d) := fold_left (rfc_step (rfc_words block)) (indices 64) (h0, h1, h2, h3) in
  (to_uint32 (h0 + a), to_uint32 (h1 + b), to_uint32 (h2 + c), to_uint32 (h3 + d)).

Definition rfc_md5 (msg : list Z) : list Z :=
  let l := rfc_pad msg in
  let '(h0, h1, h2, h3) :=
    fold_left rfc_block (pieces (length l) 64 l)
      (0x67452301, 0xefcdab89, 0x98badcfe, 0x10325476) in
  flat_map (fun h => map (word_byte h) (indices 4)) [h0; h1; h2; h3].

(** The test suite of the RFC: "abc". *)
Example rfc_abc :
  rfc_md5 [97; 98; 99] =
  [0x90; 0x01; 0x50; 0x98; 0x3c; 0xd2; 0x4f; 0xb0; 0xd6; 0x96; 0x3f; 0x7d; 0x28; 0xe1; 0x7f; 0x72].
Proof. vm_compute. reflexivity. Qed.

Example md5_abc : calculateMD5 [0; 97; 98; 99; 7] 1 3 = rfc_md5 [97; 98; 99].
Proof. vm_compute. reflexivity. Qed.

(** ** The padded message *)

Lemma align64 x : 0 <= x < 2 ^ 31 -> x .& js_not 63 = x - x mod 64.
Proof.
  intros Hx. change (js_not 63) with (Z.lnot (Z.ones 6)). unfold js_and.
  rewrite (to_int32_small x) by lia. change (to_int32 (Z.lnot (Z.ones 6))) with (Z.lnot (Z.ones 6)).
  rewrite <- Z.ldiff_land, Z.ldiff_ones_r by lia.
  rewrite Z.shiftl_mul_pow2, Z.shiftr_div_pow2 by lia. change (2 ^ 6) with 64.
  pose proof (Z.div_mod x 64). lia.
Qed.

Lemma md5_padded_rfc data offset length :
  0 <= offset -> 0 <= length -> offset + length <= len data -> Forall is_byte data ->
  length + 72 < 2 ^ 31 ->
  md5_padded data offset length = rfc_pad (subarray data offset (offset + length)).
Proof.
  intros Ho Hl Hd Hb Hmax. unfold md5_padded, rfc_pad.
  set (msg := subarray data offset (offset + length)).
  assert (Hm : len msg = length) by (unfold msg; rewrite len_subarray; lia).
  rewrite align64, Hm by lia. set (z := (55 - length) mod 64).
  assert (Hz : 0 <= z < 64) by (apply Z.mod_pos_bound; lia).
  assert (HN : length + 72 - (length + 72) mod 64 = length + (1 + z + 8)).
  { unfold z. Z.to_euclidean_division_equations; lia. }
  rewrite HN. rewrite copied by (done || lia). fold msg.
  replace (length + (1 + z + 8) - length) with (1 + (z + 8)) by lia.
  rewrite !zeros_app by lia. rewrite arr_set_next by lia.
  change (arr_set (zeros 1 ++ zeros z ++ zeros 8) 0 128) with (128 :: zeros z ++ zeros 8).
  replace (if length + 1 <? length + (1 + z + 8) - 8 then length + (1 + z + 8) - 8 else length + 1)
    with (len (msg ++ 128 :: zeros z))
    by (rewrite len_app, len_cons, len_zeros by lia; case_bool; lia).
  rewrite !js_and_255.
  change (msg ++ 128 :: zeros z ++ zeros 8) with (msg ++ (128 :: zeros z) ++ zeros 8).
  rewrite app_assoc. set (pre := msg ++ 128 :: zeros z).
  repeat (rewrite (arr_set_app pre) by lia).
  replace (len pre - len pre) with 0 by lia.
  replace (len pre + 1 - len pre) with 1 by lia.
  replace (len pre + 1 + 1 - len pre) with 2 by lia.
  replace (len pre + 1 + 1 + 1 - len pre) with 3 by lia.
  replace (len pre + 1 + 1 + 1 + 1 - len pre) with 4 by lia.
  rewrite <- !js_and_255.
  unfold pre. rewrite <- app_assoc. cbn [app]. do 3 f_equal.
  change 5 with (8 * 1 - 3). change 13 with (8 * 2 - 3). change 21 with (8 * 3 - 3).
  rewrite !length_byte_sar, length_byte_0, length_byte_4 by lia.
  assert (Hu : forall k, to_u8 (word_byte (8 * length) k) = word_byte (8 * length) k).
  { intros k. apply to_u8_small. apply Z.mod_pos_bound. lia. }
  rewrite !Hu. change (indices 8) with [0; 1; 2; 3; 4; 5; 6; 7]. cbn [map].
  by rewrite (length_byte_high length 5), (length_byte_high length 6), (length_byte_high length 7) by lia.
Qed.

(** ** The steps *)

Definition quad_eq (s s' : quad) : Prop :=
  let '(a, b, c, d) := s in
  let '(a', b', c', d') := s' in
  (eq32 a a' /\ 0 <= a' < 2 ^ 32) /\ (eq32 b b' /\ 0 <= b' < 2 ^ 32) /\
  (eq32 c c' /\ 0 <= c' < 2 ^ 32) /\ (eq32 d d' /\ 0 <= d' < 2 ^ 32).

(** The tables of the code are those of the RFC. *)
Lemma md5_tables j :
  0 <= j < 64 ->
  eq32 (at_ md5_k j) (at_ rfc_T j) /\
  at_ md5_r j = at_ (if j <? 16 then [7; 12; 17; 22] else if j <? 32 then [5; 9; 14; 20]
                     else if j <? 48 then [4; 11; 16; 23] else [6; 10; 15; 21]) (j mod 4) /\
  0 < at_ md5_r j < 32 /\
  (5 * j + 1) .& 15 = (5 * j + 1) mod 16 /\ (3 * j + 5) .& 15 = (3 * j + 5) mod 16 /\
  (7 * j) .& 15 = (7 * j) mod 16.
Proof.
  intros Hj.
  assert (Hc : forallb (fun j => (to_uint32 (at_ md5_k j) =? to_uint32 (at_ rfc_T j)) &&
    (at_ md5_r j =? at_ (if j <? 16 then [7; 12; 17; 22] else if j <? 32 then [5; 9; 14; 20]
                     else if j <? 48 then [4; 11; 16; 23] else [6; 10; 15; 21]) (j mod 4)) &&
    (0 <? at_ md5_r j) && (at_ md5_r j <? 32)) (indices 64) = true) by (vm_compute; reflexivity).
  rewrite forallb_forall in Hc. specialize (Hc j). destruct (andb_prop _ _ (Hc ltac:(
    unfold indices; apply in_map_iff; exists (Z.to_nat j); split; [lia|apply in_seq; lia])))
    as [Hc1 H32]. bool_hyps.
  split; [by split|]. split_and!; auto; apply (js_and_mask _ 4); lia.
Qed.

Lemma md5_step_rfc w X s s' j :
  0 <= j < 64 -> (forall g, 0 <= g < 16 -> eq32 (at_ w g) (at_ X g)) ->
  quad_eq s s' -> quad_eq (md5_step w s j) (rfc_step X s' j).
Proof.
  destruct s as [[[a b] c] d], s' as [[[a' b'] c'] d'].
  intros Hj Hw ([Ha Ha'] & [Hb Hb'] & [Hc Hc'] & [Hd Hd']).
  destruct (md5_tables j Hj) as (Hk & Hr & Hr32 & H5 & H3 & H7).
  assert (Hgen : forall f f' g, eq32 f f' -> 0 <= g < 16 ->
    quad_eq (d, to_int32 (b + ((to_int32 (a + f + at_ md5_k j + at_ w g) .<< at_ md5_r j) .|
      (to_int32 (a + f + at_ md5_k j + at_ w g) .>>> 32 - at_ md5_r j))), b, c)
    (d', to_uint32 (b' + rotl32 (to_uint32 (a' + f' + at_ X g + at_ rfc_T j)) (at_ md5_r j)), b', c')).
  { intros f f' g Hf Hg. unfold quad_eq.
    split; [by split|split; [split; [|apply to_uint32_range]|split; by split]].
    rewrite eq32_int32, eq32_uint32.
    rewrite (eq32_rotl _ (to_uint32 (a' + f' + at_ X g + at_ rfc_T j)));
      [by rewrite Hb|done|apply to_uint32_range|].
    rewrite eq32_int32, eq32_uint32, Ha, Hf, Hk, (Hw g Hg).
    replace (a' + f' + at_ X g + at_ rfc_T j) with (a' + f' + at_ rfc_T j + at_ X g) by lia.
    reflexivity. }
  unfold md5_step, rfc_step. rewrite H5, H3, H7. rewrite Hr in Hgen |- *.
  destruct (j <? 16) eqn:E1; [|destruct (j <? 32) eqn:E2; [|destruct (j <? 48) eqn:E3]];
    bool_hyps; apply Hgen; try (apply Z.mod_pos_bound; lia); try lia.
  - rewrite eq32_or, !eq32_and, eq32_not, Hb, Hc, Hd. reflexivity.
  - rewrite eq32_or, !eq32_and, eq32_not, Hb, Hc, Hd. unfold rfc_G.
    rewrite (Z.land_comm d' b'), (Z.land_comm (Z.lnot d') c'). reflexivity.
  - rewrite !eq32_xor, Hb, Hc, Hd. reflexivity.
  - rewrite eq32_xor, eq32_or, eq32_not, Hb, Hc, Hd. reflexivity.
Qed.

(** The words of a block. *)
Lemma rfc_words_at n l j :
  (length l = 4 * n)%nat -> 0 <= j < Z.of_nat n -> 
  at_ (rfc_words l) j =
  le32 (at_ l (4 * j)) (at_ l (4 * j + 1)) (at_ l (4 * j + 2)) (at_ l (4 * j + 3)).
Proof.
  revert l j. induction n as [|n IH]; intros l j Hl Hj; [lia|].
  do 4 (destruct l as [|? l]; [simpl in Hl; lia|]). simpl rfc_words.
  destruct (decide (j = 0)) as [->|Hne]; [reflexivity|].
  rewrite !at_cons_pos by lia. rewrite IH by (simpl in Hl; lia). f_equal; f_equal; lia.
Qed.

Lemma md5_words_rfc padded i g :
  Forall is_byte padded -> 0 <= i -> i + 64 <= len padded -> 0 <= g < 16 ->
  eq32 (at_ (md5_words padded i) g) (at_ (rfc_words (subarray padded i (i + 64))) g).
Proof.
  intros Hb Hi Hl Hg.
  rewrite (rfc_words_at 16) by (try lia; rewrite length_len, len_subarray by lia; lia).
  rewrite !at_subarray by lia.
  assert (Hw : at_ (md5_words padded i) g =
    let i := i + 4 * g in
    at_ padded i .| (at_ padded (i + 1) .<< 8) .| (at_ padded (i + 2) .<< 16)
    .| (at_ padded (i + 3) .<< 24)).
  { unfold at_ at 1, md5_words. unfold arr_get. ztest.
    unfold indices. rewrite list_lookup_fmap, list_lookup_fmap, lookup_seq_lt by lia. simpl.
    by replace (Z.of_nat (Z.to_nat g)) with g by lia. }
  rewrite Hw. cbv zeta. rewrite eq32_le32 by (by apply at_byte).
  rewrite !Z.add_assoc. reflexivity.
Qed.

(** ** The blocks *)

Lemma md5_block_rfc padded i h h' :
  Forall is_byte padded -> 0 <= i -> i + 64 <= len padded -> quad_eq h h' ->
  quad_eq (md5_block padded i h) (rfc_block h' (subarray padded i (i + 64))).
Proof.
  intros Hb Hi Hl Hh. unfold md5_block, rfc_block.
  destruct h as [[[h0 h1] h2] h3], h' as [[[h0' h1'] h2'] h3'].
  set (w := md5_words padded i). set (X := rfc_words (subarray padded i (i + 64))).
  assert (Hw : forall g, 0 <= g < 16 -> eq32 (at_ w g) (at_ X g))
    by (intros; by apply md5_words_rfc).
  assert (Hf := fold_related quad_eq (fun j => 0 <= j < 64) (md5_step w) (rfc_step X)
    (indices 64) (h0, h1, h2, h3) (h0', h1', h2', h3')
    (fun x y j Hj => md5_step_rfc w X x y j Hj Hw) (indices_range 64) Hh).
  destruct (fold_left (md5_step w) _ _) as [[[a b] c] d].
  destruct (fold_left (rfc_step X) _ _) as [[[a' b'] c'] d'].
  destruct Hh as ([H0 _] & [H1 _] & [H2 _] & [H3 _]).
  destruct Hf as ([Ha _] & [Hb' _] & [Hc _] & [Hd _]).
  unfold quad_eq. auto using word_sum.
Qed.

Lemma md5_bytes_rfc h h' : eq32 h h' -> md5_bytes h = map (word_byte h') (indices 4).
Proof.
  intros Hh. unfold md5_bytes. change (indices 4) with [0; 1; 2; 3]. cbn [map].
  assert (Hu : forall k, to_u8 (word_byte h' k) = word_byte h' k).
  { intros k. apply to_u8_small. apply Z.mod_pos_bound. lia. }
  assert (H0 : h .& 255 = word_byte h' 0).
  { rewrite <- (sar_byte h h' 0) by (done || lia). change (8 * 0) with 0.
    rewrite !js_and_255. change 256 with (2 ^ 8). rewrite (js_sar_mod h 0 8) by lia.
    by rewrite Z.div_1_r. }
  change 16 with (8 * 2). change 24 with (8 * 3). change (h .>> 8) with (h .>> 8 * 1).
  rewrite H0, !(sar_byte h h'), (shr_byte h h') by (done || lia). by rewrite !Hu.
Qed.

Lemma rfc_pad_ok msg :
  Forall is_byte msg -> Forall is_byte (rfc_pad msg) /\ len (rfc_pad msg) mod 64 = 0.
Proof.
  intros Hb. unfold rfc_pad. split.
  - apply Forall_app. split; [done|]. constructor; [unfold is_byte; lia|].
    apply Forall_app. split; [apply zeros_bytes|]. apply Forall_map, Forall_forall.
    intros. apply Z.mod_pos_bound. lia.
  - pose proof (Z.mod_pos_bound (55 - len msg) 64 ltac:(lia)).
    rewrite len_app, len_cons, len_app, len_zeros by lia.
    change (len (map _ (indices 8))) with 8. Z.to_euclidean_division_equations; lia.
Qed.

(** [calculateMD5] is the MD5 of RFC 1321 of the bytes it is asked for:
    for every slice of every byte array shorter than 2^31 - 72, the signed
    arithmetic, the padding and the block loop of the code give the digest
    that the RFC defines on unsigned words. *)
Theorem calculateMD5_rfc1321 data offset length
  (Hbytes : Forall is_byte data) (Hoff : 0 <= offset) (Hlen : 0 <= length)
  (Hend : offset + length <= len data) (Hmax : length + 72 < 2 ^ 31) :
  calculateMD5 data offset length = rfc_md5 (subarray data offset (offset + length)).
Proof.
  unfold calculateMD5, rfc_md5. rewrite md5_padded_rfc by done.
  destruct (rfc_pad_ok (subarray data offset (offset + length))) as [Hb Hm];
    [by apply Forall_subarray|].
  set (padded := rfc_pad _) in *.
  assert (Hloop := block_loop_message quad_eq 64 md5_block rfc_block padded
    (1732584193, -271733879, -1732584194, 271733878)
    (0x67452301, 0xefcdab89, 0x98badcfe, 0x10325476) ltac:(lia) Hm
    (fun i h h' => md5_block_rfc padded i h h' Hb) ltac:(repeat split; (reflexivity || lia))).
  change (Z.to_nat 64) with 64%nat in Hloop.
  destruct (block_loop _ _ _ _ _ _) as [[[h0 h1] h2] h3].
  destruct (fold_left rfc_block _ _) as [[[h0' h1'] h2'] h3'].
  destruct Hloop as ([H0 _] & [H1 _] & [H2 _] & [H3 _]).
  rewrite (md5_bytes_rfc h0 h0'), (md5_bytes_rfc h1 h1'), (md5_bytes_rfc h2 h2'),
    (md5_bytes_rfc h3 h3') by done.
  cbn [flat_map]. by rewrite app_nil_r.
Qed.

Lemma calculateMD5_rfc1321_witness :
  calculateMD5 [0; 97; 98; 99; 7] 1 3 =
  [0x90; 0x01; 0x50; 0x98; 0x3c; 0xd2; 0x4f; 0xb0; 0xd6; 0x96; 0x3f; 0x7d; 0x28; 0xe1; 0x7f; 0x72].
Proof.
  rewrite calculateMD5_rfc1321.
  - vm_compute. reflexivity.
  - repeat constructor; unfold is_byte; lia.
  - lia.
  - lia.
  - vm_compute. discriminate.
  - lia.
Defined.
