(* ===== verification/Sha256.v ===== *)
(** * SHA-256

    [calculateSHA256] of pdf.worker.mjs, proved equal to SHA-256 as FIPS 180-4
    defines it on unsigned 32-bit words. *)
From S2P Require Import Prelude JsBits ByteStream DecodeStream Rc4 Hash.
Local Open Scope js_scope.

(** ** The code *)

(** The constants, in decimal. *)
Definition sha256_k : list Z := [
   1116352408; 1899447441; 3049323471; 3921009573; 961987163; 1508970993; 2453635748;
   2870763221; 3624381080; 310598401; 607225278; 1426881987; 1925078388; 2162078206; 2614888103;
   3248222580; 3835390401; 4022224774; 264347078; 604807628; 770255983; 1249150122; 1555081692;
   1996064986; 2554220882; 2821834349; 2952996808; 3210313671; 3336571891; 3584528711;
   113926993; 338241895; 666307205; 773529912; 1294757372; 1396182291; 1695183700; 1986661051;
   2177026350; 2456956037; 2730485921; 2820302411; 3259730800; 3345764771; 3516065817;
   3600352804; 4094571909; 275423344; 430227734; 506948616; 659060556; 883997877; 958139571;
   1322822218; 1537002063; 1747873779; 1955562222; 2024104815; 2227730452; 2361852424;
   2428436474; 2756734187; 3204031479; 3329325298].

Definition rotr (x n : Z) : Z := (x .>>> n) .| (x .<< 32 - n).
Definition sha256_ch (x y z : Z) : Z := (x .& y) .^ (js_not x .& z).
Definition sha256_maj (x y z : Z) : Z := (x .& y) .^ (x .& z) .^ (y .& z).
Definition sha256_sigma (x : Z) : Z := rotr x 2 .^ rotr x 13 .^ rotr x 22.
Definition sha256_sigmaPrime (x : Z) : Z := rotr x 6 .^ rotr x 11 .^ rotr x 25.
Definition sha256_littleSigma (x : Z) : Z := rotr x 7 .^ rotr x 18 .^ (x .>>> 3).
Definition sha256_littleSigmaPrime (x : Z) : Z := rotr x 17 .^ rotr x 19 .^ (x .>>> 10).

(** The padded message; [Math.ceil] is of an exact quotient. *)
Definition sha256_padded (data : list Z) (offset length : Z) : list Z :=
  let paddedLength := (length + 9 + 63) / 64 * 64 in
  let padded := copy_data (Z.to_nat length) data offset 0 (zeros paddedLength) in
  let i := length in
  let padded := arr_set padded i 0x80 in let i := i + 1 in
  let n := paddedLength - 8 in
  let i := if i <? n then n else i in
  let i := i + 3 in
  let padded := arr_set padded i (to_u8 ((length .>>> 29) .& 0xff)) in let i := i + 1 in
  let padded := arr_set padded i (to_u8 ((length .>> 21) .& 0xff)) in let i := i + 1 in
  let padded := arr_set padded i (to_u8 ((length .>> 13) .& 0xff)) in let i := i + 1 in
  let padded := arr_set padded i (to_u8 ((length .>> 5) .& 0xff)) in let i := i + 1 in
  arr_set padded i (to_u8 ((length .<< 3) .& 0xff)).

(** [w], a [Uint32Array]: the words of the block at [i], then the schedule. *)
Definition sha256_word (padded : list Z) (i : Z) (w : list Z) (j : Z) : list Z :=
  let i := i + 4 * j in
  arr_set w j (to_uint32 ((at_ padded i .<< 24) .| (at_ padded (i + 1) .<< 16)
    .| (at_ padded (i + 2) .<< 8) .| at_ padded (i + 3))).

Definition sha256_extend (w : list Z) (j : Z) : list Z :=
  arr_set w j (to_uint32 (to_int32
    (sha256_littleSigmaPrime (at_ w (j - 2)) + at_ w (j - 7)
     + sha256_littleSigma (at_ w (j - 15)) + at_ w (j - 16)))).

Abbreviation octet8 := (Z * Z * Z * Z * Z * Z * Z * Z)%type.

Definition sha256_step (w : list Z) (s : octet8) (j : Z) : octet8 :=
  let '(a, b, c, d, e, f, g, h) := s in
  let t1 := h + sha256_sigmaPrime e + sha256_ch e f g + at_ sha256_k j + at_ w j in
  let t2 := sha256_sigma a + sha256_maj a b c in
  (to_int32 (t1 + t2), a, b, c, to_int32 (d + t1), e, f, g).

Definition sha256_block (padded : list Z) (i : Z) (hs : octet8 * list Z) : octet8 * list Z :=
  let '(h, w) := hs in
  let w := fold_left (sha256_word padded i) (range 0 16) w in
  let w := fold_left sha256_extend (range 16 64) w in
  let '(h0, h1, h2, h3, h4, h5, h6, h7) := h in
  let '(a, b, c, d, e, f, g, h) := fold_left (sha256_step w) (range 0 64) h in
  (to_int32 (h0 + a), to_int32 (h1 + b), to_int32 (h2 + c), to_int32 (h3 + d),
   to_int32 (h4 + e), to_int32 (h5 + f), to_int32 (h6 + g), to_int32 (h7 + h), w).

Definition sha256_bytes (h : Z) : list Z :=
  [to_u8 ((h .>> 24) .& 0xff); to_u8 ((h .>> 16) .& 0xff); to_u8 ((h .>> 8) .& 0xff);
   to_u8 (h .& 0xff)].

Definition calculateSHA256 (data : list Z) (offset length : Z) : list Z :=
  let padded := sha256_padded data offset length in
  let '(h0, h1, h2, h3, h4, h5, h6, h7, _) :=
    block_loop 64 sha256_block (Z.to_nat (len padded)) padded 0
      (0x6a09e667, 0xbb67ae85, 0x3c6ef372, 0xa54ff53a,
       0x510e527f, 0x9b05688c, 0x1f83d9ab, 0x5be0cd19, zeros 64) in
  sha256_bytes h0 ++ sha256_bytes h1 ++ sha256_bytes h2 ++ sha256_bytes h3
  ++ sha256_bytes h4 ++ sha256_bytes h5 ++ sha256_bytes h6 ++ sha256_bytes h7.

(** ** FIPS 180-4 *)

(** The first 32 bits of the fractional parts of the cube roots of the first
    64 primes. *)
Definition fips_K256 : list Z := map (root_bits 3 32) (primes 64).

Definition fips_Ch (x y z : Z) : Z := Z.lxor (Z.land x y) (Z.land (Z.lnot x) z).
Definition fips_Maj (x y z : Z) : Z :=
  Z.lxor (Z.lxor (Z.land x y) (Z.land x z)) (Z.land y z).
Definition fips_Sigma0 (x : Z) : Z := Z.lxor (Z.lxor (rotr32 x 2) (rotr32 x 13)) (rotr32 x 22).
Definition fips_Sigma1 (x : Z) : Z := Z.lxor (Z.lxor (rotr32 x 6) (rotr32 x 11)) (rotr32 x 25).
Definition fips_sigma0 (x : Z) : Z := Z.lxor (Z.lxor (rotr32 x 7) (rotr32 x 18)) (Z.shiftr x 3).
Definition fips_sigma1 (x : Z) : Z := Z.lxor (Z.lxor (rotr32 x 17) (rotr32 x 19)) (Z.shiftr x 10).

Definition fips_pad (msg : list Z) : list Z :=
  msg ++ 0x80 :: zeros ((55 - len msg) mod 64)
  ++ rev (map (word_byte (8 * len msg)) (indices 8)).

Fixpoint fips_words (l : list Z) : list Z :=
  match l with
  | b0 :: b1 :: b2 :: b3 :: l' => be32 b0 b1 b2 b3 :: fips_words l'
  | _ => []
  end.

(** The message schedule. *)
Definition fips_extend (W : list Z) (t : Z) : list Z :=
  W ++ [to_uint32 (fips_sigma1 (at_ W (t - 2)) + at_ W (t - 7)
                   + fips_sigma0 (at_ W (t - 15)) + at_ W (t - 16))].

Definition fips_step (W : list Z) (s : octet8) (t : Z) : octet8 :=
  let '(a, b, c, d, e, f, g, h) := s in
  let T1 := h + fips_Sigma1 e + fips_Ch e f g + at_ fips_K256 t + at_ W t in
  let T2 := fips_Sigma0 a + fips_Maj a b c in
  (to_uint32 (T1 + T2), a, b, c, to_uint32 (d + T1), e, f, g).

Definition fips_block (H : octet8) (block : list Z) : octet8 :=
  let W := fold_left fips_extend (range 16 64) (fips_words block) in
  let '(h0, h1, h2, h3, h4, h5, h6, h7) := H in
  let '(a, b, c, d, e, f, g, h) := fold_left (fips_step W) (range 0 64) H in
  (to_uint32 (h0 + a), to_uint32 (h1 + b), to_uint32 (h2 + c), to_uint32 (h3 + d),
   to_uint32 (h4 + e), to_uint32 (h5 + f), to_uint32 (h6 + g), to_uint32 (h7 + h)).

(** The initial value: the square roots of the first eight primes. *)
Definition fips_sha256 (msg : list Z) : list Z :=
  let l := fips_pad msg in
  let '(h0, h1, h2, h3, h4, h5, h6, h7) :=
    fold_left fips_block (pieces (length l) 64 l)
      (0x6a09e667, 0xbb67ae85, 0x3c6ef372, 0xa54ff53a,
       0x510e527f, 0x9b05688c, 0x1f83d9ab, 0x5be0cd19) in
  flat_map (fun h => rev (map (word_byte h) (indices 4))) [h0; h1; h2; h3; h4; h5; h6; h7].

Example fips_abc :
  fips_sha256 [97; 98; 99] =
  [0xba; 0x78; 0x16; 0xbf; 0x8f; 0x01; 0xcf; 0xea; 0x41; 0x41; 0x40; 0xde; 0x5d; 0xae; 0x22; 0x23;
   0xb0; 0x03; 0x61; 0xa3; 0x96; 0x17; 0x7a; 0x9c; 0xb4; 0x10; 0xff; 0x61; 0xf2; 0x00; 0x15; 0xad].
Proof. vm_compute. reflexivity. Qed.

Example sha256_abc : calculateSHA256 [97; 98; 99] 0 3 = fips_sha256 [97; 98; 99].
Proof. vm_compute. reflexivity. Qed.

(** ** The functions on words *)

Definition word_eq (a a' : Z) : Prop := eq32 a a' /\ 0 <= a' < 2 ^ 32.

Lemma rotr_fips x x' n : 0 < n < 32 -> word_eq x x' -> eq32 (rotr x n) (rotr32 x' n).
Proof. intros Hn [Hx Hr]. by apply eq32_rotr. Qed.

Lemma ch_fips x x' y y' z z' :
  eq32 x x' -> eq32 y y' -> eq32 z z' -> eq32 (sha256_ch x y z) (fips_Ch x' y' z').
Proof.
  intros Hx Hy Hz. unfold sha256_ch. rewrite eq32_xor, !eq32_and, eq32_not, Hx, Hy, Hz. reflexivity.
Qed.

Lemma maj_fips x x' y y' z z' :
  eq32 x x' -> eq32 y y' -> eq32 z z' -> eq32 (sha256_maj x y z) (fips_Maj x' y' z').
Proof.
  intros Hx Hy Hz. unfold sha256_maj. rewrite !eq32_xor, !eq32_and, Hx, Hy, Hz. reflexivity.
Qed.

Lemma sigma_fips x x' : word_eq x x' -> eq32 (sha256_sigma x) (fips_Sigma0 x').
Proof.
  intros Hx. unfold sha256_sigma. rewrite !eq32_xor.
  rewrite (rotr_fips x x' 2), (rotr_fips x x' 13), (rotr_fips x x' 22) by (done || lia). reflexivity.
Qed.

Lemma sigmaPrime_fips x x' : word_eq x x' -> eq32 (sha256_sigmaPrime x) (fips_Sigma1 x').
Proof.
  intros Hx. unfold sha256_sigmaPrime. rewrite !eq32_xor.
  rewrite (rotr_fips x x' 6), (rotr_fips x x' 11), (rotr_fips x x' 25) by (done || lia). reflexivity.
Qed.

Lemma littleSigma_fips x x' : word_eq x x' -> eq32 (sha256_littleSigma x) (fips_sigma0 x').
Proof.
  intros Hx. unfold sha256_littleSigma. rewrite !eq32_xor.
  rewrite (rotr_fips x x' 7), (rotr_fips x x' 18) by (done || lia).
  destruct Hx as [Hx Hr]. rewrite (eq32_shr x x' 3) by (done || lia). reflexivity.
Qed.

Lemma littleSigmaPrime_fips x x' : word_eq x x' -> eq32 (sha256_littleSigmaPrime x) (fips_sigma1 x').
Proof.
  intros Hx. unfold sha256_littleSigmaPrime. rewrite !eq32_xor.
  rewrite (rotr_fips x x' 17), (rotr_fips x x' 19) by (done || lia).
  destruct Hx as [Hx Hr]. rewrite (eq32_shr x x' 10) by (done || lia). reflexivity.
Qed.

Lemma word_eq_refl a : 0 <= a < 2 ^ 32 -> word_eq a a.
Proof. by split. Qed.

(** ** The schedule *)

(** The words below [j] are there. *)
Definition sched (j : Z) (w W : list Z) : Prop :=
  len w = 64 /\ forall g, 0 <= g < j -> at_ w g = at_ W g /\ 0 <= at_ W g < 2 ^ 32.

Lemma fips_words_at n l j :
  (length l = 4 * n)%nat -> 0 <= j < Z.of_nat n ->
  at_ (fips_words l) j =
  be32 (at_ l (4 * j)) (at_ l (4 * j + 1)) (at_ l (4 * j + 2)) (at_ l (4 * j + 3)).
Proof.
  revert l j. induction n as [|n IH]; intros l j Hl Hj; [lia|].
  do 4 (destruct l as [|? l]; [simpl in Hl; lia|]). simpl fips_words.
  destruct (decide (j = 0)) as [->|Hne]; [reflexivity|].
  rewrite !at_cons_pos by lia. rewrite IH by (simpl in Hl; lia). f_equal; f_equal; lia.
Qed.

Lemma length_fips_words n l : (length l = 4 * n)%nat -> length (fips_words l) = n.
Proof.
  revert l. induction n as [|n IH]; intros l Hl; [by destruct l|].
  do 4 (destruct l as [|? l]; [simpl in Hl; lia|]). simpl. rewrite IH by (simpl in Hl; lia). done.
Qed.

Section Block.
Variables (padded : list Z) (i : Z).
Hypothesis Hb : Forall is_byte padded.
Hypothesis Hi : 0 <= i /\ i + 64 <= len padded.

Abbreviation block := (subarray padded i (i + 64)).

Lemma block_words : length (fips_words block) = 16%nat.
Proof. apply length_fips_words. rewrite length_len, len_subarray by lia. lia. Qed.

Lemma sha256_words w :
  len w = 64 -> sched 16 (fold_left (sha256_word padded i) (range 0 16) w) (fips_words block).
Proof.
  intros Hw. apply (fold_range (fun j w (_ : unit) => sched j w (fips_words block))
    (sha256_word padded i) (fun u _ => u) 0 16 w tt); [lia| |].
  - intros x [] j Hj [Hl Hx]. unfold sha256_word. split; [by rewrite len_arr_set|].
    intros g Hg. destruct (decide (g = j)) as [->|Hne].
    + rewrite at_arr_set by lia.
      rewrite (fips_words_at 16) by (try lia; rewrite length_len, len_subarray by lia; lia).
      rewrite !at_subarray by lia. rewrite !Z.add_assoc.
      assert (Hr : 0 <= be32 (at_ padded (i + 4 * j)) (at_ padded (i + 4 * j + 1))
        (at_ padded (i + 4 * j + 2)) (at_ padded (i + 4 * j + 3)) < 2 ^ 32)
        by (apply le32_range; by apply at_byte).
      split; [|done]. apply eq32_eq; [apply to_uint32_range|done|].
      rewrite eq32_uint32. by apply eq32_be32; apply at_byte.
    + rewrite at_arr_set_ne by lia. apply Hx. lia.
  - split; [done|lia].
Qed.

Lemma sha256_schedule w :
  sched 16 w (fips_words block) ->
  sched 64 (fold_left sha256_extend (range 16 64) w)
    (fold_left fips_extend (range 16 64) (fips_words block)).
Proof.
  intros Hw. enough (H : sched 64 (fold_left sha256_extend (range 16 64) w)
    (fold_left fips_extend (range 16 64) (fips_words block)) /\
    len (fold_left fips_extend (range 16 64) (fips_words block)) = 64) by apply H.
  apply (fold_range (fun j w W => sched j w W /\ len W = j)); [lia| |].
  - clear w Hw. intros w W j Hj [[Hl Hw] HW].
    assert (Hword : forall k, 0 < k <= 16 -> word_eq (at_ w (j - k)) (at_ W (j - k)))
      by (intros k Hk; destruct (Hw (j - k)) as [-> ?]; [lia|by apply word_eq_refl]).
    split; [|unfold fips_extend; rewrite len_app; unfold len at 2; simpl; lia].
    split; [unfold sha256_extend; by rewrite len_arr_set|].
    intros g Hg. unfold sha256_extend, fips_extend. destruct (decide (g = j)) as [->|Hne].
    + rewrite at_arr_set, at_snoc by lia. split; [|apply to_uint32_range].
      apply uint32_eq. rewrite eq32_int32.
      rewrite (littleSigmaPrime_fips _ (at_ W (j - 2))), (littleSigma_fips _ (at_ W (j - 15)))
        by (apply Hword; lia).
      by rewrite (proj1 (Hw (j - 7) ltac:(lia))), (proj1 (Hw (j - 16) ltac:(lia))).
    + rewrite at_arr_set_ne, at_app_l by lia. apply Hw. lia.
  - split; [done|]. pose proof block_words. unfold len. lia.
Qed.
End Block.

(** ** The steps and the blocks *)

Definition octet_eq (s s' : octet8) : Prop :=
  let '(a, b, c, d, e, f, g, h) := s in
  let '(a', b', c', d', e', f', g', h') := s' in
  word_eq a a' /\ word_eq b b' /\ word_eq c c' /\ word_eq d d' /\
  word_eq e e' /\ word_eq f f' /\ word_eq g g' /\ word_eq h h'.

Lemma sha256_k_fips : sha256_k = fips_K256.
Proof. vm_compute. reflexivity. Qed.

Lemma sha256_step_fips w W s s' j :
  sched 64 w W -> 0 <= j < 64 -> octet_eq s s' ->
  octet_eq (sha256_step w s j) (fips_step W s' j).
Proof.
  destruct s as [[[[[[[a b] c] d] e] f] g] h], s' as [[[[[[[a' b'] c'] d'] e'] f'] g'] h'].
  intros [_ Hw] Hj (Ha & Hb & Hc & Hd & He & Hf & Hg & Hh).
  destruct (Hw j Hj) as [Hwj _].
  assert (HT1 : eq32 (h + sha256_sigmaPrime e + sha256_ch e f g + at_ sha256_k j + at_ w j)
    (h' + fips_Sigma1 e' + fips_Ch e' f' g' + at_ fips_K256 j + at_ W j)).
  { rewrite Hwj, sha256_k_fips, (sigmaPrime_fips e e' He).
    rewrite (ch_fips e e' f f' g g' (proj1 He) (proj1 Hf) (proj1 Hg)). by rewrite (proj1 Hh). }
  assert (HT2 : eq32 (sha256_sigma a + sha256_maj a b c) (fips_Sigma0 a' + fips_Maj a' b' c')).
  { rewrite (sigma_fips a a' Ha).
    by rewrite (maj_fips a a' b b' c c' (proj1 Ha) (proj1 Hb) (proj1 Hc)). }
  unfold sha256_step, fips_step, octet_eq.
  split; [by apply word_sum|]. split; [done|]. split; [done|]. split; [done|].
  split; [apply word_sum; [apply Hd|done]|]. done.
Qed.

Definition block_eq (hs : octet8 * list Z) (H : octet8) : Prop :=
  octet_eq (fst hs) H /\ len (snd hs) = 64.

Lemma sha256_block_fips padded i hs H :
  Forall is_byte padded -> 0 <= i -> i + 64 <= len padded -> block_eq hs H ->
  block_eq (sha256_block padded i hs) (fips_block H (subarray padded i (i + 64))).
Proof.
  intros Hb Hi Hl [Hh Hw]. destruct hs as [h w]. cbn [fst snd] in *.
  unfold sha256_block, fips_block.
  pose proof (sha256_schedule padded i (conj Hi Hl) _
    (sha256_words padded i Hb (conj Hi Hl) w Hw)) as Hs.
  set (w' := fold_left sha256_extend _ _) in *. set (W := fold_left fips_extend _ _) in *.
  destruct h as [[[[[[[h0 h1] h2] h3] h4] h5] h6] h7],
    H as [[[[[[[h0' h1'] h2'] h3'] h4'] h5'] h6'] h7'].
  assert (Hf := fold_range (fun _ => octet_eq) (sha256_step w') (fips_step W) 0 64 _ _
    ltac:(lia) (fun x y j Hj => sha256_step_fips w' W x y j Hs Hj) Hh).
  destruct (fold_left (sha256_step w') _ _) as [[[[[[[a b] c] d] e] f] g] h].
  destruct (fold_left (fips_step W) _ _) as [[[[[[[a' b'] c'] d'] e'] f'] g'] h'].
  destruct Hh as ([H0 _] & [H1 _] & [H2 _] & [H3 _] & [H4 _] & [H5 _] & [H6 _] & [H7 _]).
  destruct Hf as ([Ha _] & [Hb' _] & [Hc _] & [Hd _] & [He _] & [Hff _] & [Hg _] & [Hhh _]).
  split; [|apply Hs]. cbn [fst]. unfold octet_eq, word_eq. auto 10 using word_sum.
Qed.

(** ** The padded message *)

Lemma sha256_padded_fips data offset length :
  0 <= offset -> 0 <= length -> offset + length <= len data -> Forall is_byte data ->
  length + 72 < 2 ^ 31 ->
  sha256_padded data offset length = fips_pad (subarray data offset (offset + length)).
Proof.
  intros Ho Hl Hd Hb Hmax. unfold sha256_padded, fips_pad.
  set (msg := subarray data offset (offset + length)).
  assert (Hm : len msg = length) by (unfold msg; rewrite len_subarray; lia).
  rewrite Hm. set (z := (55 - length) mod 64).
  assert (Hz : 0 <= z < 64) by (apply Z.mod_pos_bound; lia).
  assert (HN : (length + 9 + 63) / 64 * 64 = length + (1 + z + 8)).
  { unfold z. Z.to_euclidean_division_equations; lia. }
  rewrite HN. rewrite copied by (done || lia). fold msg.
  replace (length + (1 + z + 8) - length) with (1 + (z + 8)) by lia.
  rewrite !zeros_app by lia. rewrite arr_set_next by lia.
  change (arr_set (zeros 1 ++ zeros z ++ zeros 8) 0 128) with (128 :: zeros z ++ zeros 8).
  replace (if length + 1 <? length + (1 + z + 8) - 8 then length + (1 + z + 8) - 8 else length + 1)
    with (len (msg ++ 128 :: zeros z))
    by (rewrite len_app, len_cons, len_zeros by lia; case_bool; lia).
  change (msg ++ 128 :: zeros z ++ zeros 8) with (msg ++ (128 :: zeros z) ++ zeros 8).
  rewrite app_assoc. set (pre := msg ++ 128 :: zeros z).
  repeat (rewrite (arr_set_app pre) by lia).
  replace (len pre + 3 - len pre) with 3 by lia.
  replace (len pre + 3 + 1 - len pre) with 4 by lia.
  replace (len pre + 3 + 1 + 1 - len pre) with 5 by lia.
  replace (len pre + 3 + 1 + 1 + 1 - len pre) with 6 by lia.
  replace (len pre + 3 + 1 + 1 + 1 + 1 - len pre) with 7 by lia.
  unfold pre. rewrite <- app_assoc. cbn [app]. do 3 f_equal.
  rewrite length_byte_0, length_byte_4 by lia.
  change (length .>> 5) with (length .>> (8 * 1 - 3)).
  change (length .>> 13) with (length .>> (8 * 2 - 3)).
  change (length .>> 21) with (length .>> (8 * 3 - 3)).
  rewrite !length_byte_sar by lia.
  assert (Hu : forall k, to_u8 (word_byte (8 * length) k) = word_byte (8 * length) k).
  { intros k. apply to_u8_small. apply Z.mod_pos_bound. lia. }
  rewrite !Hu. change (indices 8) with [0; 1; 2; 3; 4; 5; 6; 7]. cbn [map rev app].
  by rewrite (length_byte_high length 5), (length_byte_high length 6),
    (length_byte_high length 7) by lia.
Qed.

Lemma fips_pad_ok msg :
  Forall is_byte msg -> Forall is_byte (fips_pad msg) /\ len (fips_pad msg) mod 64 = 0.
Proof.
  intros Hb. unfold fips_pad. split.
  - apply Forall_app. split; [done|]. constructor; [unfold is_byte; lia|].
    apply Forall_app. split; [apply zeros_bytes|]. apply Forall_rev, Forall_map, Forall_forall.
    intros. apply Z.mod_pos_bound. lia.
  - pose proof (Z.mod_pos_bound (55 - len msg) 64 ltac:(lia)).
    rewrite len_app, len_cons, len_app, len_zeros by lia.
    change (len (rev (map _ (indices 8)))) with 8. Z.to_euclidean_division_equations; lia.
Qed.

Lemma sha256_bytes_fips h h' : eq32 h h' -> sha256_bytes h = rev (map (word_byte h') (indices 4)).
Proof.
  intros Hh. unfold sha256_bytes. change (indices 4) with [0; 1; 2; 3]. cbn [map rev app].
  assert (Hu : forall k, to_u8 (word_byte h' k) = word_byte h' k).
  { intros k. apply to_u8_small. apply Z.mod_pos_bound. lia. }
  assert (H0 : h .& 255 = word_byte h' 0).
  { rewrite <- (sar_byte h h' 0) by (done || lia). change (8 * 0) with 0.
    rewrite !js_and_255. change 256 with (2 ^ 8). rewrite (js_sar_mod h 0 8) by lia.
    by rewrite Z.div_1_r. }
  change 16 with (8 * 2). change 24 with (8 * 3). change (h .>> 8) with (h .>> 8 * 1).
  rewrite H0, !(sar_byte h h') by (done || lia). by rewrite !Hu.
Qed.

(** C35. [calculateSHA256] is SHA-256: for every slice of every byte array
    shorter than 2^31 - 72 it returns the digest FIPS 180-4 defines on
    unsigned 32-bit words, whatever the signs and the overflowing sums of the
    intermediate numbers. *)
Theorem calculateSHA256_fips180 data offset length
  (Hbytes : Forall is_byte data) (Hoff : 0 <= offset) (Hlen : 0 <= length)
  (Hend : offset + length <= len data) (Hmax : length + 72 < 2 ^ 31) :
  calculateSHA256 data offset length = fips_sha256 (subarray data offset (offset + length)).
Proof.
  unfold calculateSHA256, fips_sha256. rewrite sha256_padded_fips by done.
  destruct (fips_pad_ok (subarray data offset (offset + length))) as [Hb Hm];
    [by apply Forall_subarray|].
  set (padded := fips_pad _) in *.
  match goal with |- context [block_loop 64 sha256_block _ padded 0 ?h0] =>
    match goal with |- context [fold_left fips_block _ ?h0'] =>
    assert (Hloop := block_loop_message block_eq 64 sha256_block fips_block padded h0 h0'
      ltac:(lia) Hm (fun i h h' => sha256_block_fips padded i h h' Hb)
      ltac:(repeat split; (reflexivity || lia))) end end.
  change (Z.to_nat 64) with 64%nat in Hloop.
  destruct (block_loop _ _ _ _ _ _) as [[[[[[[[h0 h1] h2] h3] h4] h5] h6] h7] w].
  destruct (fold_left fips_block _ _) as [[[[[[[h0' h1'] h2'] h3'] h4'] h5'] h6'] h7'].
  destruct Hloop as [([H0 _] & [H1 _] & [H2 _] & [H3 _] & [H4 _] & [H5 _] & [H6 _] & [H7 _]) _].
  rewrite (sha256_bytes_fips h0 h0'), (sha256_bytes_fips h1 h1'), (sha256_bytes_fips h2 h2'),
    (sha256_bytes_fips h3 h3'), (sha256_bytes_fips h4 h4'), (sha256_bytes_fips h5 h5'),
    (sha256_bytes_fips h6 h6'), (sha256_bytes_fips h7 h7') by done.
  cbn [flat_map]. by rewrite app_nil_r.
Qed.

Lemma calculateSHA256_fips180_witness :
  calculateSHA256 [7; 97; 98; 99] 1 3 = fips_sha256 [97; 98; 99].
Proof.
  apply (calculateSHA256_fips180 [7; 97; 98; 99] 1 3).
  - repeat constructor; unfold is_byte; lia.
  - lia.
  - lia.
  - vm_compute. discriminate.
  - lia.
Defined.
