(* ===== verification/Sha512.v ===== *)
(** * SHA-512 and SHA-384

    [Word64] and [calculateSHA512] of pdf.worker.mjs, proved equal to SHA-512
    and SHA-384 as FIPS 180-4 defines them on 64-bit words.  A [Word64] is a
    mutable pair of signed 32-bit halves, and the registers a to h of the
    compression are eight such objects whose references move round while two
    of them are updated in place: the model keeps the store of objects and the
    references, and the proof shows that the references never meet. *)
From S2P Require Import Prelude JsBits ByteStream DecodeStream Rc4 Hash.
Local Open Scope js_scope.

(** ** Word64 *)

Record Word64 := mkWord64 { high : Z; low : Z }.

Definition new_Word64 (highInteger lowInteger : Z) : Word64 :=
  mkWord64 (to_int32 highInteger) (to_int32 lowInteger).

(** The methods, as functions from the object's old value to its new one. *)
Definition w_and (w word : Word64) : Word64 :=
  mkWord64 (high w .& high word) (low w .& low word).
Definition w_xor (w word : Word64) : Word64 :=
  mkWord64 (high w .^ high word) (low w .^ low word).
Definition w_shiftRight (w : Word64) (places : Z) : Word64 :=
  mkWord64 (to_int32 (high w .>>> places)) ((low w .>>> places) .| (high w .<< 32 - places)).
Definition w_rotateRight (w : Word64) (places : Z) : Word64 :=
  let swap := negb ((places .& 32) =? 0) in
  let hi := if swap then low w else high w in
  let lo := if swap then high w else low w in
  let places := places .& 31 in
  mkWord64 ((hi .>>> places) .| (lo .<< 32 - places)) ((lo .>>> places) .| (hi .<< 32 - places)).
Definition w_not (w : Word64) : Word64 := mkWord64 (js_not (high w)) (js_not (low w)).
Definition w_add (w word : Word64) : Word64 :=
  let lowAdd := (low w .>>> 0) + (low word .>>> 0) in
  let highAdd := (high w .>>> 0) + (high word .>>> 0) in
  let highAdd := if 0xffffffff <? lowAdd then highAdd + 1 else highAdd in
  mkWord64 (to_int32 highAdd) (to_int32 lowAdd).
(** [copyTo], the eight bytes it writes. *)
Definition w_bytes (w : Word64) : list Z :=
  map to_u8 [(high w .>>> 24) .& 0xff; (high w .>> 16) .& 0xff; (high w .>> 8) .& 0xff;
             high w .& 0xff;
             (low w .>>> 24) .& 0xff; (low w .>> 16) .& 0xff; (low w .>> 8) .& 0xff;
             low w .& 0xff].

Definition sha512_k : list Word64 := [
   new_Word64 0x428a2f98 0xd728ae22; new_Word64 0x71374491 0x23ef65cd;
   new_Word64 0xb5c0fbcf 0xec4d3b2f; new_Word64 0xe9b5dba5 0x8189dbbc;
   new_Word64 0x3956c25b 0xf348b538; new_Word64 0x59f111f1 0xb605d019;
   new_Word64 0x923f82a4 0xaf194f9b; new_Word64 0xab1c5ed5 0xda6d8118;
   new_Word64 0xd807aa98 0xa3030242; new_Word64 0x12835b01 0x45706fbe;
   new_Word64 0x243185be 0x4ee4b28c; new_Word64 0x550c7dc3 0xd5ffb4e2;
   new_Word64 0x72be5d74 0xf27b896f; new_Word64 0x80deb1fe 0x3b1696b1;
   new_Word64 0x9bdc06a7 0x25c71235; new_Word64 0xc19bf174 0xcf692694;
   new_Word64 0xe49b69c1 0x9ef14ad2; new_Word64 0xefbe4786 0x384f25e3;
   new_Word64 0x0fc19dc6 0x8b8cd5b5; new_Word64 0x240ca1cc 0x77ac9c65;
   new_Word64 0x2de92c6f 0x592b0275; new_Word64 0x4a7484aa 0x6ea6e483;
   new_Word64 0x5cb0a9dc 0xbd41fbd4; new_Word64 0x76f988da 0x831153b5;
   new_Word64 0x983e5152 0xee66dfab; new_Word64 0xa831c66d 0x2db43210;
   new_Word64 0xb00327c8 0x98fb213f; new_Word64 0xbf597fc7 0xbeef0ee4;
   new_Word64 0xc6e00bf3 0x3da88fc2; new_Word64 0xd5a79147 0x930aa725;
   new_Word64 0x06ca6351 0xe003826f; new_Word64 0x14292967 0x0a0e6e70;
   new_Word64 0x27b70a85 0x46d22ffc; new_Word64 0x2e1b2138 0x5c26c926;
   new_Word64 0x4d2c6dfc 0x5ac42aed; new_Word64 0x53380d13 0x9d95b3df;
   new_Word64 0x650a7354 0x8baf63de; new_Word64 0x766a0abb 0x3c77b2a8;
   new_Word64 0x81c2c92e 0x47edaee6; new_Word64 0x92722c85 0x1482353b;
   new_Word64 0xa2bfe8a1 0x4cf10364; new_Word64 0xa81a664b 0xbc423001;
   new_Word64 0xc24b8b70 0xd0f89791; new_Word64 0xc76c51a3 0x0654be30;
   new_Word64 0xd192e819 0xd6ef5218; new_Word64 0xd6990624 0x5565a910;
   new_Word64 0xf40e3585 0x5771202a; new_Word64 0x106aa070 0x32bbd1b8;
   new_Word64 0x19a4c116 0xb8d2d0c8; new_Word64 0x1e376c08 0x5141ab53;
   new_Word64 0x2748774c 0xdf8eeb99; new_Word64 0x34b0bcb5 0xe19b48a8;
   new_Word64 0x391c0cb3 0xc5c95a63; new_Word64 0x4ed8aa4a 0xe3418acb;
   new_Word64 0x5b9cca4f 0x7763e373; new_Word64 0x682e6ff3 0xd6b2b8a3;
   new_Word64 0x748f82ee 0x5defb2fc; new_Word64 0x78a5636f 0x43172f60;
   new_Word64 0x84c87814 0xa1f0ab72; new_Word64 0x8cc70208 0x1a6439ec;
   new_Word64 0x90befffa 0x23631e28; new_Word64 0xa4506ceb 0xde82bde9;
   new_Word64 0xbef9a3f7 0xb2c67915; new_Word64 0xc67178f2 0xe372532b;
   new_Word64 0xca273ece 0xea26619c; new_Word64 0xd186b8c7 0x21c0c207;
   new_Word64 0xeada7dd6 0xcde0eb1e; new_Word64 0xf57d4f7f 0xee6ed178;
   new_Word64 0x06f067aa 0x72176fba; new_Word64 0x0a637dc5 0xa2c898a6;
   new_Word64 0x113f9804 0xbef90dae; new_Word64 0x1b710b35 0x131c471b;
   new_Word64 0x28db77f5 0x23047d84; new_Word64 0x32caab7b 0x40c72493;
   new_Word64 0x3c9ebe0a 0x15c9bebc; new_Word64 0x431d67c4 0x9c100d4c;
   new_Word64 0x4cc5d4be 0xcb3e42b6; new_Word64 0x597f299c 0xfc657e2a;
   new_Word64 0x5fcb6fab 0x3ad6faec; new_Word64 0x6c44198c 0x4a475817].

(** ** The functions; [tmp] is assigned before each use, so it is a local. *)
Definition ch (x y z : Word64) : Word64 :=
  let result := w_and x y in
  let tmp := w_and (w_not x) z in
  w_xor result tmp.
Definition maj (x y z : Word64) : Word64 :=
  let result := w_and x y in
  let result := w_xor result (w_and x z) in
  w_xor result (w_and y z).
Definition sigma (x : Word64) : Word64 :=
  w_xor (w_xor (w_rotateRight x 28) (w_rotateRight x 34)) (w_rotateRight x 39).
Definition sigmaPrime (x : Word64) : Word64 :=
  w_xor (w_xor (w_rotateRight x 14) (w_rotateRight x 18)) (w_rotateRight x 41).
Definition littleSigma (x : Word64) : Word64 :=
  w_xor (w_xor (w_rotateRight x 1) (w_rotateRight x 8)) (w_shiftRight x 7).
Definition littleSigmaPrime (x : Word64) : Word64 :=
  w_xor (w_xor (w_rotateRight x 19) (w_rotateRight x 61)) (w_shiftRight x 6).

(** ** calculateSHA512 *)

Definition sha512_padded (data : list Z) (offset length : Z) : list Z :=
  let paddedLength := (length + 17 + 127) / 128 * 128 in
  let padded := copy_data (Z.to_nat length) data offset 0 (zeros paddedLength) in
  let i := length in
  let padded := arr_set padded i 0x80 in let i := i + 1 in
  let n := paddedLength - 16 in
  let i := if i <? n then n else i in
  let i := i + 11 in
  let padded := arr_set padded i (to_u8 ((length .>>> 29) .& 0xff)) in let i := i + 1 in
  let padded := arr_set padded i (to_u8 ((length .>> 21) .& 0xff)) in let i := i + 1 in
  let padded := arr_set padded i (to_u8 ((length .>> 13) .& 0xff)) in let i := i + 1 in
  let padded := arr_set padded i (to_u8 ((length .>> 5) .& 0xff)) in let i := i + 1 in
  arr_set padded i (to_u8 ((length .<< 3) .& 0xff)).

(** The object of an array at an index the code knows to be in range. *)
Definition obj (w : list Word64) (i : Z) : Word64 := default (mkWord64 0 0) (arr_get w i).

(** Word [j] of the block at [i]. *)
Definition sha512_word (padded : list Z) (i : Z) (w : list Word64) (j : Z) : list Word64 :=
  let i := i + 8 * j in
  arr_set w j (mkWord64
    ((at_ padded i .<< 24) .| (at_ padded (i + 1) .<< 16) .| (at_ padded (i + 2) .<< 8)
     .| at_ padded (i + 3))
    ((at_ padded (i + 4) .<< 24) .| (at_ padded (i + 5) .<< 16) .| (at_ padded (i + 6) .<< 8)
     .| at_ padded (i + 7))).

Definition sha512_extend (w : list Word64) (j : Z) : list Word64 :=
  let tmp3 := littleSigmaPrime (obj w (j - 2)) in
  let tmp3 := w_add tmp3 (obj w (j - 7)) in
  let tmp3 := w_add tmp3 (littleSigma (obj w (j - 15))) in
  arr_set w j (w_add tmp3 (obj w (j - 16))).

(** The references [a] to [h] into the store of the eight register objects. *)
Record Regs := mkRegs {
  store : list Word64;
  ra : Z; rb : Z; rc : Z; rd : Z; re : Z; rf : Z; rg : Z; rh : Z
}.

Definition sha512_step (w : list Word64) (s : Regs) (j : Z) : Regs :=
  let o r := obj (store s) r in
  let t1 := o (rh s) in
  let t1 := w_add t1 (sigmaPrime (o (re s))) in
  let t1 := w_add t1 (ch (o (re s)) (o (rf s)) (o (rg s))) in
  let t1 := w_add t1 (obj sha512_k j) in
  let t1 := w_add t1 (obj w j) in
  let t2 := sigma (o (ra s)) in
  let t2 := w_add t2 (maj (o (ra s)) (o (rb s)) (o (rc s))) in
  let tmp3 := rh s in
  let store1 := arr_set (store s) (rd s) (w_add (o (rd s)) t1) in
  let store2 := arr_set store1 tmp3 t1 in
  let store3 := arr_set store2 tmp3 (w_add (obj store2 tmp3) t2) in
  mkRegs store3 tmp3 (ra s) (rb s) (rc s) (rd s) (re s) (rf s) (rg s).

(** [h0] to [h7], the registers and the schedule, from one block to the next. *)
Record Sha512 := mkSha512 { s_h : list Word64; s_regs : Regs; s_w : list Word64 }.

Definition sha512_block (padded : list Z) (i : Z) (s : Sha512) : Sha512 :=
  let w := fold_left (sha512_word padded i) (range 0 16) (s_w s) in
  let w := fold_left sha512_extend (range 16 80) w in
  let r := s_regs s in
  let h k := obj (s_h s) k in
  let assign st p v := arr_set st p v in
  let st := assign (store r) (ra r) (h 0) in
  let st := assign st (rb r) (h 1) in
  let st := assign st (rc r) (h 2) in
  let st := assign st (rd r) (h 3) in
  let st := assign st (re r) (h 4) in
  let st := assign st (rf r) (h 5) in
  let st := assign st (rg r) (h 6) in
  let st := assign st (rh r) (h 7) in
  let r := mkRegs st (ra r) (rb r) (rc r) (rd r) (re r) (rf r) (rg r) (rh r) in
  let r := fold_left (sha512_step w) (range 0 80) r in
  let o p := obj (store r) p in
  mkSha512
    [w_add (h 0) (o (ra r)); w_add (h 1) (o (rb r)); w_add (h 2) (o (rc r)); w_add (h 3) (o (rd r));
     w_add (h 4) (o (re r)); w_add (h 5) (o (rf r)); w_add (h 6) (o (rg r)); w_add (h 7) (o (rh r))]
    r w.

Definition sha512_init (mode384 : bool) : list Word64 :=
  if mode384 then [
   new_Word64 0xcbbb9d5d 0xc1059ed8; new_Word64 0x629a292a 0x367cd507;
   new_Word64 0x9159015a 0x3070dd17; new_Word64 0x152fecd8 0xf70e5939;
   new_Word64 0x67332667 0xffc00b31; new_Word64 0x8eb44a87 0x68581511;
   new_Word64 0xdb0c2e0d 0x64f98fa7; new_Word64 0x47b5481d 0xbefa4fa4]
  else [
   new_Word64 0x6a09e667 0xf3bcc908; new_Word64 0xbb67ae85 0x84caa73b;
   new_Word64 0x3c6ef372 0xfe94f82b; new_Word64 0xa54ff53a 0x5f1d36f1;
   new_Word64 0x510e527f 0xade682d1; new_Word64 0x9b05688c 0x2b3e6c1f;
   new_Word64 0x1f83d9ab 0xfb41bd6b; new_Word64 0x5be0cd19 0x137e2179].

Definition zero64 (n : nat) : list Word64 := replicate n (new_Word64 0 0).

Definition calculateSHA512 (data : list Z) (offset length : Z) (mode384 : bool) : list Z :=
  let padded := sha512_padded data offset length in
  let s := block_loop 128 sha512_block (Z.to_nat (len padded)) padded 0
             (mkSha512 (sha512_init mode384) (mkRegs (zero64 8) 0 1 2 3 4 5 6 7) (zero64 80)) in
  flat_map w_bytes (take (if mode384 then 6 else 8) (s_h s)).

Definition calculateSHA384 (data : list Z) (offset length : Z) : list Z :=
  calculateSHA512 data offset length true.

(** ** FIPS 180-4 *)

(** The first 64 bits of the fractional parts of the cube roots of the first
    80 primes. *)
Definition fips_K512 : list Z := map (root_bits 3 64) (primes 80).

Definition u64 (x : Z) : Z := x mod 2 ^ 64.
Definition rotr64 (x n : Z) : Z := u64 (Z.lor (Z.shiftr x n) (Z.shiftl x (64 - n))).

Definition fips512_Ch (x y z : Z) : Z := Z.lxor (Z.land x y) (Z.land (u64 (Z.lnot x)) z).
Definition fips512_Maj (x y z : Z) : Z := Z.lxor (Z.lxor (Z.land x y) (Z.land x z)) (Z.land y z).
Definition fips512_Sigma0 (x : Z) : Z := Z.lxor (Z.lxor (rotr64 x 28) (rotr64 x 34)) (rotr64 x 39).
Definition fips512_Sigma1 (x : Z) : Z := Z.lxor (Z.lxor (rotr64 x 14) (rotr64 x 18)) (rotr64 x 41).
Definition fips512_sigma0 (x : Z) : Z := Z.lxor (Z.lxor (rotr64 x 1) (rotr64 x 8)) (Z.shiftr x 7).
Definition fips512_sigma1 (x : Z) : Z := Z.lxor (Z.lxor (rotr64 x 19) (rotr64 x 61)) (Z.shiftr x 6).

Definition fips512_pad (msg : list Z) : list Z :=
  msg ++ 0x80 :: zeros ((111 - len msg) mod 128)
  ++ rev (map (word_byte (8 * len msg)) (indices 16)).

Fixpoint fips512_words (l : list Z) : list Z :=
  match l with
  | b0 :: b1 :: b2 :: b3 :: b4 :: b5 :: b6 :: b7 :: l' =>
      be32 b0 b1 b2 b3 * 2 ^ 32 + be32 b4 b5 b6 b7 :: fips512_words l'
  | _ => []
  end.

Definition fips512_extend (W : list Z) (t : Z) : list Z :=
  W ++ [u64 (fips512_sigma1 (at_ W (t - 2)) + at_ W (t - 7)
             + fips512_sigma0 (at_ W (t - 15)) + at_ W (t - 16))].

Abbreviation octet8 := (Z * Z * Z * Z * Z * Z * Z * Z)%type.

Definition fips512_step (W : list Z) (s : octet8) (t : Z) : octet8 :=
  let '(a, b, c, d, e, f, g, h) := s in
  let T1 := h + fips512_Sigma1 e + fips512_Ch e f g + at_ fips_K512 t + at_ W t in
  let T2 := fips512_Sigma0 a + fips512_Maj a b c in
  (u64 (T1 + T2), a, b, c, u64 (d + T1), e, f, g).

Definition fips512_block (H : octet8) (block : list Z) : octet8 :=
  let W := fold_left fips512_extend (range 16 80) (fips512_words block) in
  let '(h0, h1, h2, h3, h4, h5, h6, h7) := H in
  let '(a, b, c, d, e, f, g, h) := fold_left (fips512_step W) (range 0 80) H in
  (u64 (h0 + a), u64 (h1 + b), u64 (h2 + c), u64 (h3 + d),
   u64 (h4 + e), u64 (h5 + f), u64 (h6 + g), u64 (h7 + h)).

(** The initial values: square roots of the first and second eight primes. *)
Definition fips512_init (mode384 : bool) : octet8 :=
  if mode384 then
    (0xcbbb9d5dc1059ed8,
     0x629a292a367cd507,
     0x9159015a3070dd17,
     0x152fecd8f70e5939,
     0x67332667ffc00b31,
     0x8eb44a8768581511,
     0xdb0c2e0d64f98fa7,
     0x47b5481dbefa4fa4)
  else
    (0x6a09e667f3bcc908,
     0xbb67ae8584caa73b,
     0x3c6ef372fe94f82b,
     0xa54ff53a5f1d36f1,
     0x510e527fade682d1,
     0x9b05688c2b3e6c1f,
     0x1f83d9abfb41bd6b,
     0x5be0cd19137e2179).

Definition fips_sha512 (mode384 : bool) (msg : list Z) : list Z :=
  let l := fips512_pad msg in
  let '(h0, h1, h2, h3, h4, h5, h6, h7) :=
    fold_left fips512_block (pieces (length l) 128 l) (fips512_init mode384) in
  flat_map (fun h => rev (map (word_byte h) (indices 8)))
    (take (if mode384 then 6 else 8) [h0; h1; h2; h3; h4; h5; h6; h7]).

Example fips512_abc :
  take 8 (fips_sha512 false [97; 98; 99]) = [0xdd; 0xaf; 0x35; 0xa1; 0x93; 0x61; 0x7a; 0xba]
  /\ take 8 (fips_sha512 true [97; 98; 99]) = [0xcb; 0x00; 0x75; 0x3f; 0x45; 0xa3; 0x5e; 0x8b].
Proof. vm_compute. split; reflexivity. Qed.

Example sha512_abc :
  calculateSHA512 [97; 98; 99] 0 3 false = fips_sha512 false [97; 98; 99]
  /\ calculateSHA384 [97; 98; 99] 0 3 = fips_sha512 true [97; 98; 99].
Proof. vm_compute. split; reflexivity. Qed.

(** ** Word64 objects are 64-bit words *)

Definition val (w : Word64) : Z := to_uint32 (high w) * 2 ^ 32 + to_uint32 (low w).

Lemma val_range w : 0 <= val w < 2 ^ 64.
Proof.
  unfold val. pose proof (to_uint32_range (high w)). pose proof (to_uint32_range (low w)).
  change (2 ^ 64) with (2 ^ 32 * 2 ^ 32). nia.
Qed.

Lemma val_bit w i :
  0 <= i < 64 ->
  Z.testbit (val w) i = if i <? 32 then Z.testbit (low w) i else Z.testbit (high w) (i - 32).
Proof.
  intros Hi. unfold val. pose proof (to_uint32_range (low w)).
  rewrite Z.add_comm, <- lor_shiftl_add by lia. rewrite Z.lor_spec.
  destruct (Z.ltb_spec i 32).
  - rewrite Z.shiftl_spec_low by lia. rewrite to_uint32_bit by lia. apply orb_false_r.
  - rewrite Z.shiftl_spec by lia. rewrite uint32_high_bits by lia. by rewrite to_uint32_bit by lia.
Qed.

Lemma word64_ext a b :
  0 <= a < 2 ^ 64 -> 0 <= b < 2 ^ 64 ->
  (forall i, 0 <= i < 64 -> Z.testbit a i = Z.testbit b i) -> a = b.
Proof.
  intros Ha Hb H. rewrite <- (Z.mod_small a (2 ^ 64)), <- (Z.mod_small b (2 ^ 64)) by lia.
  apply Z.bits_inj'. intros i Hi. destruct (decide (i < 64)).
  - rewrite !Z.mod_pow2_bits_low by lia. apply H. lia.
  - by rewrite !Z.mod_pow2_bits_high by lia.
Qed.

Lemma u64_range x : 0 <= u64 x < 2 ^ 64.
Proof. apply Z.mod_pos_bound. lia. Qed.

Lemma u64_bit x i : 0 <= i < 64 -> Z.testbit (u64 x) i = Z.testbit x i.
Proof. intros. unfold u64. by rewrite Z.mod_pow2_bits_low by lia. Qed.

Lemma high_bit_64 x i : 0 <= x < 2 ^ 64 -> 64 <= i -> Z.testbit x i = false.
Proof.
  intros Hx Hi. rewrite <- (Z.mod_small x (2 ^ 64)) by lia. by apply Z.mod_pow2_bits_high.
Qed.

Lemma bitwise_range f a b :
  (forall x y i, Z.testbit (f x y) i = true -> Z.testbit x i = true \/ Z.testbit y i = true) ->
  (forall x y, 0 <= x -> 0 <= y -> 0 <= f x y) ->
  0 <= a < 2 ^ 64 -> 0 <= b < 2 ^ 64 -> 0 <= f a b < 2 ^ 64.
Proof.
  intros Hbit Hpos Ha Hb. assert (Hf := Hpos a b ltac:(lia) ltac:(lia)). split; [done|].
  destruct (Z.eq_dec (f a b) 0) as [->|Hne]; [lia|].
  apply Z.log2_lt_pow2; [lia|]. destruct (Z.lt_ge_cases (Z.log2 (f a b)) 64) as [|Hge]; [done|].
  exfalso. assert (Ht := Z.bit_log2 (f a b) ltac:(lia)).
  apply Hbit in Ht as [Ht|Ht]; rewrite high_bit_64 in Ht; (done || lia).
Qed.

Lemma lxor_range a b : 0 <= a < 2 ^ 64 -> 0 <= b < 2 ^ 64 -> 0 <= Z.lxor a b < 2 ^ 64.
Proof.
  apply bitwise_range; [|intros; by apply Z.lxor_nonneg].
  intros x y i. rewrite Z.lxor_spec. destruct (Z.testbit x i), (Z.testbit y i); auto.
Qed.

Lemma land_range a b : 0 <= a < 2 ^ 64 -> 0 <= b < 2 ^ 64 -> 0 <= Z.land a b < 2 ^ 64.
Proof.
  apply bitwise_range; [|intros; apply Z.land_nonneg; lia].
  intros x y i. rewrite Z.land_spec. destruct (Z.testbit x i), (Z.testbit y i); auto.
Qed.

Lemma shiftr_range a n : 0 <= n -> 0 <= a < 2 ^ 64 -> 0 <= Z.shiftr a n < 2 ^ 64.
Proof.
  intros Hn Ha. rewrite Z.shiftr_div_pow2 by lia.
  assert (0 < 2 ^ n) by (apply Z.pow_pos_nonneg; lia).
  split; [apply Z.div_pos; lia|]. apply Z.div_lt_upper_bound; nia.
Qed.

Lemma val_and w v : val (w_and w v) = Z.land (val w) (val v).
Proof.
  apply word64_ext; auto using val_range, land_range. intros i Hi.
  rewrite Z.land_spec, !val_bit by lia. simpl.
  destruct (Z.ltb_spec i 32); by rewrite js_and_bit by lia.
Qed.

Lemma val_xor w v : val (w_xor w v) = Z.lxor (val w) (val v).
Proof.
  apply word64_ext; auto using val_range, lxor_range. intros i Hi.
  rewrite Z.lxor_spec, !val_bit by lia. simpl.
  destruct (Z.ltb_spec i 32); by rewrite js_xor_bit by lia.
Qed.

Lemma val_not w : val (w_not w) = u64 (Z.lnot (val w)).
Proof.
  apply word64_ext; auto using val_range, u64_range. intros i Hi.
  rewrite u64_bit, Z.lnot_spec, !val_bit by lia. simpl.
  destruct (Z.ltb_spec i 32); by rewrite js_not_bit by lia.
Qed.

Lemma val_rotate_small w n :
  0 < n < 32 -> val (w_rotateRight w n) = rotr64 (val w) n.
Proof.
  intros Hn. pose proof (val_range w).
  apply word64_ext; auto using val_range; [apply u64_range|]. intros i Hi.
  unfold rotr64. rewrite u64_bit, Z.lor_spec, Z.shiftr_spec, val_bit by lia.
  unfold w_rotateRight. replace (n .& 32) with 0.
  2: { symmetry. apply Z.bits_inj'. intros k Hk. rewrite Z.bits_0. unfold js_and.
       rewrite to_int32_small by lia. change (to_int32 32) with (2 ^ 5).
       rewrite Z.land_spec, Z.pow2_bits_eqb by lia.
       destruct (Z.eqb_spec 5 k); [|apply andb_false_r]. subst k.
       rewrite <- (Z.mod_small n (2 ^ 5)) by lia. by rewrite Z.mod_pow2_bits_high by lia. }
  change (negb (0 =? 0)) with false. cbv iota zeta. cbn [high low].
  replace (n .& 31) with n
    by (change 31 with (2 ^ 5 - 1); rewrite js_and_mask by lia; by rewrite Z.mod_small by lia).
  destruct (Z.ltb_spec i 32); rewrite js_or_bit, js_shr_bit, js_shl_bit by lia.
  - rewrite Z.shiftl_spec_low by lia. rewrite orb_false_r, val_bit by lia.
    destruct (Z.ltb_spec (i + n) 32).
    + rewrite (proj2 (Z.ltb_lt i (32 - n))) by lia. apply orb_false_r.
    + rewrite (proj2 (Z.ltb_ge i (32 - n))) by lia. simpl. f_equal. lia.
  - destruct (Z.ltb_spec (i - 32 + n) 32).
    + rewrite (proj2 (Z.ltb_lt (i - 32) (32 - n))) by lia.
      rewrite Z.shiftl_spec_low by lia. rewrite val_bit by lia. ztest. do 2 f_equal. lia.
    + rewrite (proj2 (Z.ltb_ge (i - 32) (32 - n))) by lia.
      rewrite (high_bit_64 (val w)) by lia. rewrite Z.shiftl_spec, val_bit by lia. ztest. simpl. f_equal. lia.
Qed.

(** A rotation by 32 or more is one of the exchanged halves. *)
Lemma rotr64_bit x n i :
  0 <= x < 2 ^ 64 -> 0 < n < 64 -> 0 <= i < 64 ->
  Z.testbit (rotr64 x n) i = Z.testbit x (if i + n <? 64 then i + n else i + n - 64).
Proof.
  intros Hx Hn Hi. unfold rotr64. rewrite u64_bit, Z.lor_spec, Z.shiftr_spec by lia.
  destruct (Z.ltb_spec (i + n) 64).
  - rewrite Z.shiftl_spec_low by lia. apply orb_false_r.
  - rewrite high_bit_64, Z.shiftl_spec by lia. simpl. f_equal. lia.
Qed.

Lemma rotate_swap w n :
  32 < n < 64 -> w_rotateRight w n = w_rotateRight (mkWord64 (low w) (high w)) (n - 32).
Proof.
  intros Hn. unfold w_rotateRight. cbn [high low].
  assert (H32 : ((n .& 32) =? 0) = false /\ ((n - 32 .& 32) =? 0) = true /\
    (n .& 31) = (n - 32 .& 31)).
  { assert (Hc : forallb (fun n => negb ((n .& 32) =? 0) && ((n - 32 .& 32) =? 0)
      && ((n .& 31) =? (n - 32 .& 31))) (range 33 64) = true) by (vm_compute; reflexivity).
    rewrite forallb_forall in Hc. specialize (Hc n). destruct (andb_prop _ _ (Hc ltac:(
      unfold range, indices; apply in_map_iff; exists (n - 33); split; [lia|];
      apply in_map_iff; exists (Z.to_nat (n - 33)); split; [lia|apply in_seq; lia]))) as [H1 H2].
    apply andb_prop in H1 as [H1 H3]. apply negb_true_iff in H1. apply Z.eqb_eq in H2. done. }
  destruct H32 as (-> & -> & ->). reflexivity.
Qed.

Lemma val_rotate w n :
  0 < n < 64 -> n <> 32 -> val (w_rotateRight w n) = rotr64 (val w) n.
Proof.
  intros Hn Hne. destruct (decide (n < 32)) as [|Hge]; [apply val_rotate_small; lia|].
  rewrite rotate_swap, val_rotate_small by lia.
  apply word64_ext; try apply u64_range. intros i Hi.
  pose proof (val_range w). pose proof (val_range (mkWord64 (low w) (high w))).
  rewrite !rotr64_bit by lia.
  destruct (Z.ltb_spec (i + (n - 32)) 64), (Z.ltb_spec (i + n) 64); try lia;
    rewrite !val_bit by lia; cbn [high low];
    match goal with |- (if ?a <? 32 then _ else _) = _ => destruct (Z.ltb_spec a 32) end;
    match goal with |- _ = (if ?a <? 32 then _ else _) => destruct (Z.ltb_spec a 32) end;
    try lia; f_equal; lia.
Qed.

Lemma val_shift w n : 0 < n < 32 -> val (w_shiftRight w n) = Z.shiftr (val w) n.
Proof.
  intros Hn. pose proof (val_range w).
  apply word64_ext; auto using val_range; [apply shiftr_range; lia|]. intros i Hi.
  rewrite Z.shiftr_spec, val_bit by lia. unfold w_shiftRight. cbn [high low].
  destruct (Z.ltb_spec i 32).
  - rewrite js_or_bit, js_shr_bit, js_shl_bit by lia. rewrite val_bit by lia.
    destruct (Z.ltb_spec (i + n) 32).
    + rewrite (proj2 (Z.ltb_lt i (32 - n))) by lia. apply orb_false_r.
    + rewrite (proj2 (Z.ltb_ge i (32 - n))) by lia. simpl. f_equal. lia.
  - rewrite to_int32_bit, js_shr_bit by lia. destruct (Z.ltb_spec (i - 32 + n) 32).
    + rewrite val_bit by lia. ztest. f_equal. lia.
    + by rewrite (high_bit_64 (val w)) by lia.
Qed.

Lemma val_add w v : val (w_add w v) = u64 (val w + val v).
Proof.
  unfold val, w_add, u64. cbn [high low].
  assert (Hs : forall a, a .>>> 0 = to_uint32 a) by (intros; unfold js_shr; apply Z.shiftr_0_r).
  rewrite !Hs.
  assert (Hi : forall a, to_uint32 (to_int32 a) = to_uint32 a) by (intros; apply uint32_eq, eq32_int32).
  rewrite !Hi. pose proof (to_uint32_range (low w)). pose proof (to_uint32_range (low v)).
  pose proof (to_uint32_range (high w)). pose proof (to_uint32_range (high v)).
  set (lw := to_uint32 (low w)) in *. set (lv := to_uint32 (low v)) in *.
  set (hw := to_uint32 (high w)) in *. set (hv := to_uint32 (high v)) in *.
  unfold to_uint32.
  destruct (Z.ltb_spec 4294967295 (lw + lv)); Z.to_euclidean_division_equations; lia.
Qed.

Lemma val_new h l : val (new_Word64 h l) = to_uint32 h * 2 ^ 32 + to_uint32 l.
Proof.
  unfold val, new_Word64. cbn [high low].
  by rewrite !(uint32_eq _ _ (eq32_int32 _)).
Qed.

(** ** The functions *)

Lemma val_ch x y z : val (ch x y z) = fips512_Ch (val x) (val y) (val z).
Proof. unfold ch, fips512_Ch. by rewrite val_xor, !val_and, val_not. Qed.

Lemma val_maj x y z : val (maj x y z) = fips512_Maj (val x) (val y) (val z).
Proof. unfold maj, fips512_Maj. by rewrite !val_xor, !val_and. Qed.

Lemma val_sigma x : val (sigma x) = fips512_Sigma0 (val x).
Proof. unfold sigma, fips512_Sigma0. by rewrite !val_xor, !val_rotate by lia. Qed.

Lemma val_sigmaPrime x : val (sigmaPrime x) = fips512_Sigma1 (val x).
Proof. unfold sigmaPrime, fips512_Sigma1. by rewrite !val_xor, !val_rotate by lia. Qed.

Lemma val_littleSigma x : val (littleSigma x) = fips512_sigma0 (val x).
Proof. unfold littleSigma, fips512_sigma0. by rewrite !val_xor, !val_rotate, val_shift by lia. Qed.

Lemma val_littleSigmaPrime x : val (littleSigmaPrime x) = fips512_sigma1 (val x).
Proof. unfold littleSigmaPrime, fips512_sigma1. by rewrite !val_xor, !val_rotate, val_shift by lia. Qed.

Lemma u64_add_l a b : u64 (u64 a + b) = u64 (a + b).
Proof. unfold u64. apply Zplus_mod_idemp_l. Qed.

Lemma u64_add_r a b : u64 (a + u64 b) = u64 (a + b).
Proof. unfold u64. apply Zplus_mod_idemp_r. Qed.

Lemma u64_sum3 a b c d : u64 (u64 (u64 (a + b) + c) + d) = u64 (a + b + c + d).
Proof. by rewrite (u64_add_l (a + b) c), u64_add_l. Qed.

Lemma u64_sum4 a b c d e : u64 (u64 (u64 (u64 (a + b) + c) + d) + e) = u64 (a + b + c + d + e).
Proof. by rewrite (u64_sum3 a b c d), u64_add_l. Qed.

Lemma sha512_k_fips j : 0 <= j < 80 -> val (obj sha512_k j) = at_ fips_K512 j.
Proof.
  intros Hj. assert (Hc : forallb (fun j => val (obj sha512_k j) =? at_ fips_K512 j) (indices 80) = true)
    by (vm_compute; reflexivity).
  rewrite forallb_forall in Hc. apply Z.eqb_eq, Hc. unfold indices. apply in_map_iff.
  exists (Z.to_nat j). split; [lia|apply in_seq; lia].
Qed.

(** ** The schedule *)

Definition sched512 (j : Z) (w : list Word64) (W : list Z) : Prop :=
  len w = 80 /\ forall g, 0 <= g < j -> val (obj w g) = at_ W g.

Lemma obj_set (w : list Word64) i v : 0 <= i < len w -> obj (arr_set w i v) i = v.
Proof.
  intros Hi. unfold obj, arr_get, arr_set. ztest.
  by rewrite list_lookup_insert_eq by (unfold len in Hi; lia).
Qed.

Lemma obj_set_ne (w : list Word64) i k v :
  i <> k -> 0 <= i -> 0 <= k -> obj (arr_set w i v) k = obj w k.
Proof.
  intros Hne Hi Hk. unfold obj, arr_get, arr_set. repeat ztest.
  by rewrite list_lookup_insert_ne by lia.
Qed.

Lemma fips512_words_at n l j :
  (length l = 8 * n)%nat -> 0 <= j < Z.of_nat n ->
  at_ (fips512_words l) j =
  be32 (at_ l (8 * j)) (at_ l (8 * j + 1)) (at_ l (8 * j + 2)) (at_ l (8 * j + 3)) * 2 ^ 32
  + be32 (at_ l (8 * j + 4)) (at_ l (8 * j + 5)) (at_ l (8 * j + 6)) (at_ l (8 * j + 7)).
Proof.
  revert l j. induction n as [|n IH]; intros l j Hl Hj; [lia|].
  do 8 (destruct l as [|? l]; [simpl in Hl; lia|]). simpl fips512_words.
  destruct (decide (j = 0)) as [->|Hne]; [reflexivity|].
  rewrite !at_cons_pos by lia. rewrite IH by (simpl in Hl; lia).
  f_equal; [f_equal|]; f_equal; f_equal; lia.
Qed.

Lemma length_fips512_words n l : (length l = 8 * n)%nat -> length (fips512_words l) = n.
Proof.
  revert l. induction n as [|n IH]; intros l Hl; [by destruct l|].
  do 8 (destruct l as [|? l]; [simpl in Hl; lia|]). simpl. rewrite IH by (simpl in Hl; lia). done.
Qed.

Section Block.
Variables (padded : list Z) (i : Z).
Hypothesis Hb : Forall is_byte padded.
Hypothesis Hi : 0 <= i /\ i + 128 <= len padded.

Abbreviation block := (subarray padded i (i + 128)).

Lemma block512_words : length (fips512_words block) = 16%nat.
Proof. apply length_fips512_words. rewrite length_len, len_subarray by lia. lia. Qed.

Lemma sha512_words w :
  len w = 80 -> sched512 16 (fold_left (sha512_word padded i) (range 0 16) w) (fips512_words block).
Proof.
  intros Hw. apply (fold_range (fun j w (_ : unit) => sched512 j w (fips512_words block))
    (sha512_word padded i) (fun u _ => u) 0 16 w tt); [lia| |].
  - intros x [] j Hj [Hl Hx]. unfold sha512_word. split; [by rewrite len_arr_set|].
    intros g Hg. destruct (decide (g = j)) as [->|Hne].
    + rewrite obj_set by lia.
      rewrite (fips512_words_at 16) by (try lia; rewrite length_len, len_subarray by lia; lia).
      rewrite !at_subarray by lia. rewrite !Z.add_assoc.
      assert (Hbe : forall k, to_uint32 ((at_ padded k .<< 24) .| (at_ padded (k + 1) .<< 16)
        .| (at_ padded (k + 2) .<< 8) .| at_ padded (k + 3)) =
        be32 (at_ padded k) (at_ padded (k + 1)) (at_ padded (k + 2)) (at_ padded (k + 3))).
      { intros k. apply eq32_eq; [apply to_uint32_range|apply le32_range; by apply at_byte|].
        rewrite eq32_uint32. apply eq32_be32; by apply at_byte. }
      unfold val. cbn [high low]. rewrite Hbe.
      replace (i + 8 * j + 5) with (i + 8 * j + 4 + 1) by lia.
      replace (i + 8 * j + 6) with (i + 8 * j + 4 + 2) by lia.
      replace (i + 8 * j + 7) with (i + 8 * j + 4 + 3) by lia. by rewrite Hbe.
    + rewrite obj_set_ne by lia. apply Hx. lia.
  - split; [done|lia].
Qed.

Lemma sha512_schedule w :
  sched512 16 w (fips512_words block) ->
  sched512 80 (fold_left sha512_extend (range 16 80) w)
    (fold_left fips512_extend (range 16 80) (fips512_words block)).
Proof.
  intros Hw. enough (H : sched512 80 (fold_left sha512_extend (range 16 80) w)
    (fold_left fips512_extend (range 16 80) (fips512_words block)) /\
    len (fold_left fips512_extend (range 16 80) (fips512_words block)) = 80) by apply H.
  apply (fold_range (fun j w W => sched512 j w W /\ len W = j)); [lia| |].
  - clear w Hw. intros w W j Hj [[Hl Hw] HW].
    split; [|unfold fips512_extend; rewrite len_app; unfold len at 2; simpl; lia].
    split; [unfold sha512_extend; by rewrite len_arr_set|].
    intros g Hg. unfold sha512_extend, fips512_extend. destruct (decide (g = j)) as [->|Hne].
    + rewrite obj_set, at_snoc by lia. rewrite !val_add, val_littleSigma, val_littleSigmaPrime.
      rewrite !Hw by lia. apply u64_sum3.
    + rewrite obj_set_ne, at_app_l by lia. apply Hw. lia.
  - split; [done|]. pose proof block512_words. unfold len. lia.
Qed.
End Block.

(** ** The registers *)

Definition refs (r : Regs) : list Z := [ra r; rb r; rc r; rd r; re r; rf r; rg r; rh r].

(** The eight references point to eight different objects of the store. *)
Definition regs_ok (r : Regs) : Prop :=
  len (store r) = 8 /\ NoDup (refs r) /\ Forall (fun p => 0 <= p < 8) (refs r).

Definition regs_eq (r : Regs) (s : octet8) : Prop :=
  regs_ok r /\
  let '(a, b, c, d, e, f, g, h) := s in
  let o p := val (obj (store r) p) in
  o (ra r) = a /\ o (rb r) = b /\ o (rc r) = c /\ o (rd r) = d /\
  o (re r) = e /\ o (rf r) = f /\ o (rg r) = g /\ o (rh r) = h.

(** References of an intact set are different and in range. *)
Ltac refs_split H :=
  let Hnd := fresh "Hnd" in let Hrange := fresh "Hrange" in let Hlen := fresh "Hlen" in
  destruct H as (Hlen & Hnd & Hrange); unfold refs in Hnd, Hrange;
  repeat rewrite NoDup_cons in Hnd; repeat rewrite not_elem_of_cons in Hnd;
  repeat rewrite Forall_cons in Hrange;
  cbn [store ra rb rc rd re rf rg rh] in *; destruct_and? Hnd; destruct_and? Hrange.

(** The store after the updates of a step. *)
Lemma step_store st pd ph x t1 t2 :
  0 <= pd < len st -> 0 <= ph < len st -> pd <> ph ->
  let st2 := arr_set (arr_set st pd x) ph t1 in
  let st3 := arr_set st2 ph (w_add (obj st2 ph) t2) in
  obj st3 ph = w_add t1 t2 /\ obj st3 pd = x /\
  forall p, 0 <= p < 8 -> p <> ph -> p <> pd -> obj st3 p = obj st p.
Proof.
  intros Hd Hh Hne st2 st3. unfold st3, st2. split_and!.
  - by rewrite !obj_set by (rewrite ?len_arr_set; lia).
  - rewrite !(obj_set_ne _ ph pd) by lia. by rewrite obj_set by lia.
  - intros p Hp Hph Hpd. by rewrite !obj_set_ne by lia.
Qed.

Lemma sha512_step_fips w W r s j :
  sched512 80 w W -> 0 <= j < 80 -> regs_eq r s -> regs_eq (sha512_step w r j) (fips512_step W s j).
Proof.
  destruct s as [[[[[[[a b] c] d] e] f] g] h], r as [st pa pb pc pd pe pf pg ph].
  intros [_ Hw] Hj [Hok Hv]. pose proof Hok as Hok'. cbn [store ra rb rc rd re rf rg rh] in *.
  destruct Hv as (Ha & Hb & Hc & Hd & He & Hf & Hg & Hh).
  set (t1 := w_add (w_add (w_add (w_add (obj st ph) (sigmaPrime (obj st pe)))
    (ch (obj st pe) (obj st pf) (obj st pg))) (obj sha512_k j)) (obj w j)).
  set (t2 := w_add (sigma (obj st pa)) (maj (obj st pa) (obj st pb) (obj st pc))).
  assert (HT1 : val t1 = u64 (h + fips512_Sigma1 e + fips512_Ch e f g + at_ fips_K512 j + at_ W j)).
  { unfold t1. rewrite !val_add, val_sigmaPrime, val_ch, sha512_k_fips, Hw by lia.
    rewrite He, Hf, Hg, Hh. apply u64_sum4. }
  assert (HT2 : val t2 = u64 (fips512_Sigma0 a + fips512_Maj a b c)).
  { unfold t2. by rewrite val_add, val_sigma, val_maj, Ha, Hb, Hc. }
  refs_split Hok. unfold sha512_step, fips512_step. cbn [store ra rb rc rd re rf rg rh].
  fold t1 t2. split.
  - destruct Hok' as (_ & Hnd' & Hr'). unfold regs_ok, refs in *.
    cbn [store ra rb rc rd re rf rg rh] in *. rewrite !len_arr_set. split; [done|].
    assert (Hp : [ph; pa; pb; pc; pd; pe; pf; pg] ≡ₚ [pa; pb; pc; pd; pe; pf; pg; ph])
      by (change [pa; pb; pc; pd; pe; pf; pg; ph] with ([pa; pb; pc; pd; pe; pf; pg] ++ [ph]);
          apply Permutation_cons_append).
    rewrite Hp. done.
  - cbn [store ra rb rc rd re rf rg rh].
    destruct (step_store st pd ph (w_add (obj st pd) t1) t1 t2) as (Eh & Ed & Ene);
      [by rewrite Hlen|by rewrite Hlen|done|].
    rewrite Eh, Ed, !Ene by done.
    rewrite !val_add, HT1, HT2, Hd, u64_add_l, !u64_add_r. done.
Qed.

(** ** The blocks *)

(** The eight words [h0] to [h7]. *)
Definition hs_eq (hs : list Word64) (H : octet8) : Prop :=
  let '(a, b, c, d, e, f, g, h) := H in map val hs = [a; b; c; d; e; f; g; h].

Definition state_eq (s : Sha512) (H : octet8) : Prop :=
  hs_eq (s_h s) H /\ regs_ok (s_regs s) /\ len (s_w s) = 80.

(** [a.assign(h0)] to [h.assign(h7)]: each object gets its word. *)
Definition assign_regs (h : Z -> Word64) (r : Regs) : Regs :=
  let st := arr_set (store r) (ra r) (h 0) in
  let st := arr_set st (rb r) (h 1) in
  let st := arr_set st (rc r) (h 2) in
  let st := arr_set st (rd r) (h 3) in
  let st := arr_set st (re r) (h 4) in
  let st := arr_set st (rf r) (h 5) in
  let st := arr_set st (rg r) (h 6) in
  let st := arr_set st (rh r) (h 7) in
  mkRegs st (ra r) (rb r) (rc r) (rd r) (re r) (rf r) (rg r) (rh r).

Lemma obj_set_in (w : list Word64) i k v :
  0 <= i < len w -> 0 <= k -> obj (arr_set w i v) k = if k =? i then v else obj w k.
Proof.
  intros Hi Hk. destruct (Z.eqb_spec k i) as [->|Hne]; [by apply obj_set|].
  apply obj_set_ne; lia.
Qed.

Lemma assign_regs_fips hs H r :
  hs_eq hs H -> regs_ok r -> regs_eq (assign_regs (obj hs) r) H.
Proof.
  destruct H as [[[[[[[a b] c] d] e] f] g] h], r as [st pa pb pc pd pe pf pg ph].
  intros Hh Hok. unfold hs_eq in Hh.
  do 8 (destruct hs as [|? hs]; [discriminate|]). destruct hs; [|discriminate].
  injection Hh as Ha Hb Hc Hd He Hf Hg Hh.
  split.
  - destruct Hok as (Hl & Hnd & Hr). unfold regs_ok, assign_regs, refs in *.
    cbn [store ra rb rc rd re rf rg rh] in *. by rewrite !len_arr_set.
  - refs_split Hok. unfold assign_regs. cbn [store ra rb rc rd re rf rg rh].
    repeat match goal with Hr : _ <= _ < _ |- _ => destruct Hr end.
    split_and!; rewrite !obj_set_in by (rewrite ?len_arr_set, ?Hlen; auto);
      repeat match goal with
      | |- context [?p =? ?p] => rewrite (Z.eqb_refl p)
      | Hne : ?p <> ?q |- context [?p =? ?q] => rewrite (proj2 (Z.eqb_neq p q) Hne)
      end; assumption.
Qed.

Lemma eight_words hs a b c d e f g h :
  hs_eq hs (a, b, c, d, e, f, g, h) ->
  exists w0 w1 w2 w3 w4 w5 w6 w7, hs = [w0; w1; w2; w3; w4; w5; w6; w7] /\
    val w0 = a /\ val w1 = b /\ val w2 = c /\ val w3 = d /\
    val w4 = e /\ val w5 = f /\ val w6 = g /\ val w7 = h.
Proof.
  unfold hs_eq. intros Hh. do 8 (destruct hs as [|? hs]; [discriminate|]).
  destruct hs; [|discriminate]. injection Hh as <- <- <- <- <- <- <- <-. by do 8 eexists.
Qed.

Lemma sha512_block_fips padded i s H :
  Forall is_byte padded -> 0 <= i -> i + 128 <= len padded -> state_eq s H ->
  state_eq (sha512_block padded i s) (fips512_block H (subarray padded i (i + 128))).
Proof.
  intros Hb Hi Hl (Hh & Hr & Hw). destruct s as [hs r w]. cbn [s_h s_regs s_w] in *.
  pose proof (sha512_schedule padded i (conj Hi Hl) _
    (sha512_words padded i Hb (conj Hi Hl) w Hw)) as Hs.
  unfold sha512_block, fips512_block. cbn [s_h s_regs s_w]. cbv zeta.
  set (w' := fold_left sha512_extend _ _) in *. set (W := fold_left fips512_extend _ _) in *.
  match goal with |- context [fold_left (sha512_step w') (range 0 80) ?r0] =>
    change r0 with (assign_regs (obj hs) r) end.
  assert (Hf := fold_range (fun _ => regs_eq) (sha512_step w') (fips512_step W) 0 80 _ _
    ltac:(lia) (fun x y j Hj => sha512_step_fips w' W x y j Hs Hj) (assign_regs_fips hs H r Hh Hr)).
  set (r' := fold_left (sha512_step w') _ _) in *.
  destruct H as [[[[[[[h0 h1] h2] h3] h4] h5] h6] h7].
  destruct (fold_left (fips512_step W) _ _) as [[[[[[[a b] c] d] e] f] g] h].
  destruct Hf as [Hok (Ha & Hb' & Hc & Hd & He & Hff & Hg & Hhh)].
  destruct (eight_words _ _ _ _ _ _ _ _ _ Hh)
    as (w0 & w1 & w2 & w3 & w4 & w5 & w6 & w7 & -> & H0 & H1 & H2 & H3 & H4 & H5 & H6 & H7).
  split; [|split; [done|apply Hs]]. cbn [s_h]. unfold hs_eq. cbn [map].
  rewrite !val_add, Ha, Hb', Hc, Hd, He, Hff, Hg, Hhh.
  set (hs := [w0; w1; w2; w3; w4; w5; w6; w7]).
  change (val (obj hs 0) = h0) in H0. change (val (obj hs 1) = h1) in H1.
  change (val (obj hs 2) = h2) in H2. change (val (obj hs 3) = h3) in H3.
  change (val (obj hs 4) = h4) in H4. change (val (obj hs 5) = h5) in H5.
  change (val (obj hs 6) = h6) in H6. change (val (obj hs 7) = h7) in H7.
  by rewrite H0, H1, H2, H3, H4, H5, H6, H7.
Qed.

(** ** The padded message *)

Lemma sha512_padded_fips data offset length :
  0 <= offset -> 0 <= length -> offset + length <= len data -> Forall is_byte data ->
  length + 144 < 2 ^ 31 ->
  sha512_padded data offset length = fips512_pad (subarray data offset (offset + length)).
Proof.
  intros Ho Hl Hd Hb Hmax. unfold sha512_padded, fips512_pad.
  set (msg := subarray data offset (offset + length)).
  assert (Hm : len msg = length) by (unfold msg; rewrite len_subarray; lia).
  rewrite Hm. set (z := (111 - length) mod 128).
  assert (Hz : 0 <= z < 128) by (apply Z.mod_pos_bound; lia).
  assert (HN : (length + 17 + 127) / 128 * 128 = length + (1 + z + 16)).
  { unfold z. Z.to_euclidean_division_equations; lia. }
  rewrite HN. rewrite copied by (done || lia). fold msg.
  replace (length + (1 + z + 16) - length) with (1 + (z + 16)) by lia.
  rewrite !zeros_app by lia. rewrite arr_set_next by lia.
  change (arr_set (zeros 1 ++ zeros z ++ zeros 16) 0 128) with (128 :: zeros z ++ zeros 16).
  replace (if length + 1 <? length + (1 + z + 16) - 16 then length + (1 + z + 16) - 16 else length + 1)
    with (len (msg ++ 128 :: zeros z))
    by (rewrite len_app, len_cons, len_zeros by lia; case_bool; lia).
  change (msg ++ 128 :: zeros z ++ zeros 16) with (msg ++ (128 :: zeros z) ++ zeros 16).
  rewrite app_assoc. set (pre := msg ++ 128 :: zeros z).
  repeat (rewrite (arr_set_app pre) by lia).
  replace (len pre + 11 - len pre) with 11 by lia.
  replace (len pre + 11 + 1 - len pre) with 12 by lia.
  replace (len pre + 11 + 1 + 1 - len pre) with 13 by lia.
  replace (len pre + 11 + 1 + 1 + 1 - len pre) with 14 by lia.
  replace (len pre + 11 + 1 + 1 + 1 + 1 - len pre) with 15 by lia.
  unfold pre. rewrite <- app_assoc. cbn [app]. do 3 f_equal.
  rewrite length_byte_0, length_byte_4 by lia.
  change (length .>> 5) with (length .>> (8 * 1 - 3)).
  change (length .>> 13) with (length .>> (8 * 2 - 3)).
  change (length .>> 21) with (length .>> (8 * 3 - 3)).
  rewrite !length_byte_sar by lia.
  assert (Hu : forall k, to_u8 (word_byte (8 * length) k) = word_byte (8 * length) k).
  { intros k. apply to_u8_small. apply Z.mod_pos_bound. lia. }
  rewrite !Hu. change (indices 16) with [0; 1; 2; 3; 4; 5; 6; 7; 8; 9; 10; 11; 12; 13; 14; 15].
  cbn [map rev app]. pose proof (length_byte_high length) as Hh.
  rewrite (Hh 5), (Hh 6), (Hh 7), (Hh 8), (Hh 9), (Hh 10), (Hh 11), (Hh 12), (Hh 13), (Hh 14),
    (Hh 15) by lia. reflexivity.
Qed.

Lemma fips512_pad_ok msg :
  Forall is_byte msg -> Forall is_byte (fips512_pad msg) /\ len (fips512_pad msg) mod 128 = 0.
Proof.
  intros Hb. unfold fips512_pad. split.
  - apply Forall_app. split; [done|]. constructor; [unfold is_byte; lia|].
    apply Forall_app. split; [apply zeros_bytes|]. apply Forall_rev, Forall_map, Forall_forall.
    intros. apply Z.mod_pos_bound. lia.
  - pose proof (Z.mod_pos_bound (111 - len msg) 128 ltac:(lia)).
    rewrite len_app, len_cons, len_app, len_zeros by lia.
    change (len (rev (map _ (indices 16)))) with 16. Z.to_euclidean_division_equations; lia.
Qed.

(** The bytes [copyTo] writes are those of the word, most significant first. *)
Lemma w_bytes_fips w : w_bytes w = rev (map (word_byte (val w)) (indices 8)).
Proof.
  change (indices 8) with [0; 1; 2; 3; 4; 5; 6; 7]. cbn [map rev app]. unfold w_bytes. cbn [map].
  assert (Hu : forall z k, to_u8 (word_byte z k) = word_byte z k).
  { intros z k. apply to_u8_small. apply Z.mod_pos_bound. lia. }
  assert (H0 : forall h, h .& 255 = word_byte h 0).
  { intros h. rewrite js_and_255. unfold word_byte. change (2 ^ (8 * 0)) with 1. by rewrite Z.div_1_r. }
  assert (Hv : forall k, 0 <= k < 8 ->
    word_byte (val w) k = if k <? 4 then word_byte (low w) k else word_byte (high w) (k - 4)).
  { intros k Hk. apply byte_ext.
    - unfold is_true, word_byte. pose proof (Z.mod_pos_bound (val w / 2 ^ (8 * k)) 256 ltac:(lia)). lia.
    - unfold is_true, word_byte. pose proof (Z.mod_pos_bound (low w / 2 ^ (8 * k)) 256 ltac:(lia)).
      pose proof (Z.mod_pos_bound (high w / 2 ^ (8 * (k - 4))) 256 ltac:(lia)). case_bool; lia.
    - intros i Hi. rewrite word_byte_bits, val_bit by lia.
      destruct (Z.ltb_spec k 4); ztest; rewrite word_byte_bits by lia; f_equal; lia. }
  change 16 with (8 * 2). change 24 with (8 * 3). 
  change (high w .>> 8) with (high w .>> 8 * 1). change (low w .>> 8) with (low w .>> 8 * 1).
  rewrite !(sar_byte (high w) (high w)), !(sar_byte (low w) (low w)), !(shr_byte (high w) (high w)),
    !(shr_byte (low w) (low w)), !H0 by (reflexivity || lia).
  rewrite !Hv by lia. cbn -[word_byte to_u8]. by rewrite !Hu.
Qed.

(** C34. [calculateSHA512] and [calculateSHA384] are the hash functions of
    FIPS 180-4: for every slice of every byte array shorter than 2^31 - 144
    they return the digest defined on 64-bit words.  The 64-bit arithmetic on
    pairs of signed 32-bit halves and the reuse of the eight register objects
    are right on every input. *)
Theorem calculateSHA512_fips180 data offset length mode384
  (Hbytes : Forall is_byte data) (Hoff : 0 <= offset) (Hlen : 0 <= length)
  (Hend : offset + length <= len data) (Hmax : length + 144 < 2 ^ 31) :
  calculateSHA512 data offset length mode384 =
  fips_sha512 mode384 (subarray data offset (offset + length)).
Proof.
  unfold calculateSHA512, fips_sha512. rewrite sha512_padded_fips by done.
  destruct (fips512_pad_ok (subarray data offset (offset + length))) as [Hb Hm];
    [by apply Forall_subarray|].
  set (padded := fips512_pad _) in *.
  assert (Hinit : state_eq (mkSha512 (sha512_init mode384)
    (mkRegs (zero64 8) 0 1 2 3 4 5 6 7) (zero64 80)) (fips512_init mode384)).
  { split; [by destruct mode384; vm_compute|]. split; [|done]. split; [done|].
    split; [unfold refs; cbn; apply (bool_decide_unpack _); vm_compute; done|].
    repeat constructor; cbn; lia. }
  assert (Hloop := block_loop_message state_eq 128 sha512_block fips512_block padded _ _
    ltac:(lia) Hm (fun i h h' => sha512_block_fips padded i h h' Hb) Hinit).
  change (Z.to_nat 128) with 128%nat in Hloop.
  destruct (block_loop _ _ _ _ _ _) as [hs r w].
  destruct (fold_left fips512_block _ _) as [[[[[[[h0 h1] h2] h3] h4] h5] h6] h7].
  destruct Hloop as [Hh _]. cbn [s_h] in *. unfold hs_eq in Hh.
  rewrite <- Hh, firstn_map. generalize (take (if mode384 then 6 else 8) hs) as l.
  induction l as [|x l IH]; cbn [flat_map map]; [done|]. by rewrite w_bytes_fips, IH.
Qed.

Lemma calculateSHA512_fips180_witness :
  calculateSHA512 [7; 97; 98; 99] 1 3 true = fips_sha512 true [97; 98; 99].
Proof.
  apply (calculateSHA512_fips180 [7; 97; 98; 99] 1 3 true).
  - repeat constructor; unfold is_byte; lia.
  - lia.
  - lia.
  - vm_compute. discriminate.
  - lia.
Defined.
