(* ===== verification/Primitives.v ===== *)
(** * PDF objects

    The primitive objects of pdf.worker.mjs ([Name], [Cmd], [Ref], [Dict],
    [RefSet], [RefMap]) and the conversions between strings and bytes.  A
    string is the list of its UTF-16 code units.  A [Dict] keeps its entries
    in insertion order, as the [Map] under it does; the cross-reference table
    a dictionary resolves its references with is the parameter [fetch].  A number
    is an integer, or a double that is none. *)
From stdpp Require Import gmap.
From Stdlib Require Import SpecFloat.
From S2P Require Import Prelude ByteStream Number64.
Local Open Scope js_scope.

(** ** Strings *)

Definition stringToBytes (str : jstr) : list Z := map (fun c => c .& 0xff) str.

(** [String.fromCharCode] of each byte. *)
Definition bytesToString (bytes : list Z) : jstr := bytes.

Definition isArrayEqual (arr1 arr2 : list Z) : bool :=
  if len arr1 =? len arr2 then bool_decide (arr1 = arr2) else false.

(** ** References *)

Record Ref := mkRef { ref_str : jstr; ref_num : Z; ref_gen : Z }.

(** [RefCache] *)
Abbreviation RefCache := (gmap jstr Ref).

Definition ref_toString (r : Ref) : jstr := ref_str r.

Definition cached (str : jstr) (r : Ref) : M RefCache Ref := fun cache =>
  match cache !! str with
  | Some r' => (Ok r', cache)
  | None => (Ok r, <[str := r]> cache)
  end.

Definition Ref_get (num gen : Z) : M RefCache Ref :=
  let str := if gen =? 0 then dec num ++ js "R" else dec num ++ js "R" ++ dec gen in
  cached str (mkRef str num gen).

(** The match of the regular expression for a reference: one digit or more,
    [R], any number of digits, and the end. *)
Definition match_ref (str : jstr) : option (jstr * jstr) :=
  match span_digits str with
  | (m1, 0x52 :: rest) =>
      match m1, span_digits rest with
      | _ :: _, (m2, []) => Some (m1, m2)
      | _, _ => None
      end
  | _ => None
  end.

Definition Ref_fromString (str : jstr) : M RefCache (option Ref) := fun cache =>
  match cache !! str with
  | Some r => (Ok (Some r), cache)
  | None =>
      match match_ref str with
      | None => (Ok None, cache)
      | Some (m1, m2) =>
          if bool_decide (m1 = js "0") then (Ok None, cache)
          else
            let num := parse_dec m1 in
            let gen := match m2 with [] => 0 | _ => parse_dec m2 end in
            let r := mkRef str num gen in
            (Ok (Some r), <[str := r]> cache)
      end
  end.

Definition isRefsEqual (v1 v2 : Ref) : bool :=
  (ref_num v1 =? ref_num v2) && (ref_gen v1 =? ref_gen v2).

(** [RefSet] *)
Abbreviation RefSet := (gset jstr).
Definition refset_has (s : RefSet) (r : Ref) : bool := bool_decide (ref_toString r ∈ s).
Definition refset_put (s : RefSet) (r : Ref) : RefSet := {[ ref_toString r ]} ∪ s.
Definition refset_remove (s : RefSet) (r : Ref) : RefSet := s ∖ {[ ref_toString r ]}.
Definition refset_clear (s : RefSet) : RefSet := ∅.

(** ** Objects *)

(** A number of the language: a double that is an integer is kept as that
    integer ([-0] as 0, which the code never tells apart), any other as the
    double itself. *)
Inductive num :=
| NInt (z : Z)
| NReal (f : float).

Definition num_of_float (f : float) : num :=
  match f with
  | S754_zero _ => NInt 0
  | S754_finite s m e => if isInteger f then NInt (trunc_Z s m e) else NReal f
  | _ => NReal f
  end.
Definition num_float (n : num) : float := match n with NInt z => of_Z z | NReal f => f end.

(** [Number.isInteger(n)], with its value. *)
Definition num_int (n : num) : option Z := match n with NInt z => Some z | NReal _ => None end.

(** [ToInt32] truncates first; what is not finite becomes 0. *)
Definition num_trunc (n : num) : Z :=
  match n with
  | NInt z => z
  | NReal (S754_finite s m e) => trunc_Z s m e
  | NReal _ => 0
  end.

(** [n === z], [n < z] and [n >= z] *)
Definition num_is (n : num) (z : Z) : bool := match n with NInt n => n =? z | NReal _ => false end.
Definition num_lt (n : num) (z : Z) : bool := match n with NInt n => n <? z | NReal f => flt f (of_Z z) end.
Definition num_le (z : Z) (n : num) : bool := match n with NInt n => z <=? n | NReal f => fle (of_Z z) f end.

Record DictOf (V : Type) := mkDict {
  d_map : list (jstr * V);
  d_xref : bool;                 (** has a cross-reference table *)
  suppressEncryption : bool
}.
Arguments mkDict {V}. Arguments d_map {V}. Arguments d_xref {V}.
Arguments suppressEncryption {V}.

(** The filter a [DecodeStream] undoes, with the parameters it was made with;
    a [Crypt] filter carries the name of the crypt filter. *)
Inductive FilterKind (V : Type) :=
| KFlate
| KLZW (earlyChange : option V)
| KPredictor (params : V)
| KJpeg (params : option V)
| KJpx
| KAscii85
| KAsciiHex
| KCCITTFax (params : option V)
| KRunLength
| KJbig2 (params : option V)
| KBrotli
| KCrypt (cryptFilterName : option V).
Arguments KFlate {V}. Arguments KLZW {V}. Arguments KPredictor {V}. Arguments KJpeg {V}.
Arguments KJpx {V}. Arguments KAscii85 {V}. Arguments KAsciiHex {V}. Arguments KCCITTFax {V}.
Arguments KRunLength {V}. Arguments KJbig2 {V}. Arguments KBrotli {V}. Arguments KCrypt {V}.

(** The stream of a stream object: a part of the file, and the filters put on
    it, with the [maybeLength] given to each. *)
Inductive StreamOf (V : Type) :=
| SubStream (start length : Z)
| NullStream
| FilterStream (kind : FilterKind V) (stream : StreamOf V) (maybeLength : option Z).
Arguments SubStream {V}. Arguments NullStream {V}. Arguments FilterStream {V}.

Inductive obj : Type :=
| ONull
| OBool (b : bool)
| ONum (n : num)
| OStr (s : jstr)
| OName (name : jstr)
| OCmd (cmd : jstr)
| ORef (num gen : Z)
| OArr (l : list obj)
| ODict (d : DictOf obj)
| OStream (dict : DictOf obj) (stream : StreamOf obj) (cacheKey : option Z)
| OEOF.

Abbreviation Dict := (DictOf obj).
(** A value that may be [undefined]. *)
Abbreviation value := (option obj).

Definition OInt (z : Z) : obj := ONum (NInt z).

Definition isName (v : value) (name : jstr) : bool :=
  match v with Some (OName n) => bool_decide (n = name) | _ => false end.
Definition isCmd (v : value) (cmd : jstr) : bool :=
  match v with Some (OCmd c) => bool_decide (c = cmd) | _ => false end.

Definition truthy (v : value) : bool :=
  match v with
  | None | Some ONull => false
  | Some (OBool b) => b
  | Some (ONum (NInt z)) => negb (z =? 0)
  | Some (ONum (NReal f)) => truthy_num f
  | Some (OStr s) => negb (len s =? 0)
  | Some _ => true
  end.

(** ** Dictionaries *)

Section Entries.
Context {V : Type}.

(** [Map.get], [Map.set] and [Map.delete]: a key keeps its place. *)
Fixpoint map_get (m : list (jstr * V)) (key : jstr) : option V :=
  match m with
  | [] => None
  | (k, v) :: m' => if bool_decide (k = key) then Some v else map_get m' key
  end.
Fixpoint map_set (m : list (jstr * V)) (key : jstr) (v : V) : list (jstr * V) :=
  match m with
  | [] => [(key, v)]
  | (k, v') :: m' =>
      if bool_decide (k = key) then (k, v) :: m' else (k, v') :: map_set m' key v
  end.
Definition map_delete (m : list (jstr * V)) (key : jstr) : list (jstr * V) :=
  List.filter (fun e => negb (bool_decide (e.1 = key))) m.

Definition new_Dict (xref : bool) : DictOf V := mkDict [] xref false.
Definition dict_upd (f : list (jstr * V) -> list (jstr * V)) (d : DictOf V) : DictOf V :=
  mkDict (f (d_map d)) (d_xref d) (suppressEncryption d).

Definition dict_size (d : DictOf V) : Z := len (d_map d).
Definition getRaw (d : DictOf V) (key : jstr) : option V := map_get (d_map d) key.
Definition getKeys (d : DictOf V) : list jstr := (d_map d).*1.
Definition dict_has (d : DictOf V) (key : jstr) : bool := bool_decide (is_Some (getRaw d key)).
Definition dict_set (d : DictOf V) (key : jstr) (v : V) : DictOf V :=
  dict_upd (fun m => map_set m key v) d.
Definition setIfNotExists (d : DictOf V) (key : jstr) (v : V) : DictOf V :=
  if dict_has d key then d else dict_set d key v.
Definition dict_delete (d : DictOf V) (key : jstr) : DictOf V :=
  dict_upd (fun m => map_delete m key) d.
Definition dict_clone (d : DictOf V) : DictOf V :=
  fold_left (fun dict '(key, v) => dict_set dict key v) (d_map d) (new_Dict (d_xref d)).
End Entries.

Definition setIfNumber (d : Dict) (key : jstr) (v : value) : Dict :=
  match v with Some (ONum n) => dict_set d key (ONum n) | _ => d end.
Definition setIfDefined (d : Dict) (key : jstr) (v : value) : Dict :=
  match v with None | Some ONull => d | Some v => dict_set d key v end.
Definition setIfName (d : Dict) (key : jstr) (v : value) : Dict :=
  match v with
  | Some (OStr s) => dict_set d key (OName s)
  | Some (OName n) => dict_set d key (OName n)
  | _ => d
  end.
Definition setIfDict (d : Dict) (key : jstr) (v : value) : Dict :=
  match v with Some (ODict d') => dict_set d key (ODict d') | _ => d end.

(** [new_Dict null], which [merge] returns when it has nothing to hold. *)
Definition Dict_empty : Dict := new_Dict false.

Section Lookup.
(** [xref.fetch(ref, suppressEncryption)] *)
Context (fetch : Z -> Z -> bool -> res value).

Definition resolve (d : Dict) (v : value) : res value :=
  match v with
  | Some (ORef num gen) => if d_xref d then fetch num gen (suppressEncryption d) else Ok v
  | _ => Ok v
  end.

Definition dict_get2 (d : Dict) (key1 : jstr) (key2 : option jstr) : res value :=
  let v := getRaw d key1 in
  let v := match v, key2 with None, Some key2 => getRaw d key2 | _, _ => v end in
  resolve d v.

Definition dict_get (d : Dict) (key : jstr) : res value := dict_get2 d key None.
End Lookup.

(** The properties of [merge], in the order their keys were first met: a key
    collects the first value, and with [mergeSubDicts] the dictionaries after
    it. *)
Definition merge_entry (mergeSubDicts : bool) (properties : list (jstr * list obj))
    (e : jstr * obj) : list (jstr * list obj) :=
  let '(key, v) := e in
  let property := default [] (map_get properties key) in
  let is_dict := match v with ODict _ => true | _ => false end in
  if negb (len property =? 0) && negb (mergeSubDicts && is_dict)
  then map_set properties key property
  else map_set properties key (property ++ [v]).

Definition dicts_of (l : list obj) : list Dict :=
  omap (fun o => match o with ODict d => Some d | _ => None end) l.

(** [dict.getRawEntries()] of each value; the first is a dictionary and so,
    by [merge_entry], are the others. *)
Definition merge_sub (xref : bool) (values : list obj) : Dict :=
  fold_left (fun subDict '(key, v) => setIfNotExists subDict key v)
    (concat (map d_map (dicts_of values))) (new_Dict xref).

Definition merge_property (xref : bool) (mergedDict : Dict) (p : jstr * list obj) : Dict :=
  let '(name, values) := p in
  match values with
  | ODict d :: _ :: _ =>
      let subDict := merge_sub xref values in
      if 0 <? dict_size subDict then dict_set mergedDict name (ODict subDict) else mergedDict
  | v :: _ => dict_set mergedDict name v
  | [] => mergedDict
  end.

Definition Dict_merge (xref : bool) (dictArray : list obj) (mergeSubDicts : bool) : Dict :=
  let properties :=
    fold_left (merge_entry mergeSubDicts) (concat (map d_map (dicts_of dictArray))) [] in
  let mergedDict := fold_left (merge_property xref) properties (new_Dict xref) in
  if 0 <? dict_size mergedDict then mergedDict else Dict_empty.

(** ** Lemmas on numbers and strings *)

Lemma len_stringToBytes str : len (stringToBytes str) = len str.
Proof. unfold len, stringToBytes. by rewrite length_map. Qed.

Lemma stringToBytes_bytes str : Forall is_byte (stringToBytes str).
Proof.
  apply Forall_map, Forall_forall. intros c _. simpl. rewrite js_and_255.
  by apply Z.mod_pos_bound.
Qed.

Lemma stringToBytes_id bytes : Forall is_byte bytes -> stringToBytes bytes = bytes.
Proof.
  induction 1 as [|b l Hb _ IH]; [done|]. cbn [stringToBytes map]. fold (stringToBytes l).
  rewrite IH, js_and_255, Z.mod_small by done. done.
Qed.

Lemma isArrayEqual_spec a b : isArrayEqual a b = true <-> a = b.
Proof.
  unfold isArrayEqual. destruct (Z.eqb_spec (len a) (len b)) as [_|Hne].
  - apply bool_decide_eq_true.
  - split; [done|]. intros ->. done.
Qed.

(** ** References and their strings *)

Definition ref_string (num gen : Z) : jstr :=
  if gen =? 0 then dec num ++ js "R" else dec num ++ js "R" ++ dec gen.

Lemma match_ref_string num gen :
  0 <= num -> 0 <= gen ->
  match_ref (ref_string num gen) = Some (dec num, if gen =? 0 then [] else dec gen).
Proof.
  intros Hn Hg. destruct (dec_spec num Hn) as (Hd & _ & _ & Hne).
  destruct (dec_spec gen Hg) as (Hd' & _ & _ & Hne').
  unfold match_ref, ref_string. destruct (gen =? 0).
  - rewrite span_digits_app by done. simpl. by destruct (dec num).
  - rewrite span_digits_app by done. simpl.
    rewrite <- (app_nil_r (dec gen)), span_digits_app by done. rewrite app_nil_r.
    by destruct (dec num).
Qed.

(** What the cache holds: the references their strings denote. *)
Definition cache_ok (cache : RefCache) : Prop :=
  forall str r, cache !! str = Some r ->
    exists m1 m2, match_ref str = Some (m1, m2) /\
      r = mkRef str (parse_dec m1) (match m2 with [] => 0 | _ => parse_dec m2 end).

Lemma cache_ok_empty : cache_ok ∅.
Proof. intros str r. by rewrite lookup_empty. Qed.

Lemma cache_ok_insert cache str m1 m2 r :
  cache_ok cache -> match_ref str = Some (m1, m2) ->
  r = mkRef str (parse_dec m1) (match m2 with [] => 0 | _ => parse_dec m2 end) ->
  cache_ok (<[str := r]> cache).
Proof.
  intros Hc Hm Hr str' r' Hl. apply lookup_insert_Some in Hl as [[<- <-]|[_ Hl]].
  - by exists m1, m2.
  - by apply Hc.
Qed.

Lemma dec_gen gen : 0 <= gen ->
  match (if gen =? 0 then [] else dec gen) with [] => 0 | _ :: _ => parse_dec (if gen =? 0 then [] else dec gen) end = gen.
Proof.
  intros Hg. destruct (dec_spec gen Hg) as (_ & Hp & _ & Hne).
  destruct (Z.eqb_spec gen 0) as [->|]; [done|]. destruct (dec gen) eqn:E; [done|]. done.
Qed.

Lemma Ref_get_spec num gen cache :
  0 <= num -> 0 <= gen -> cache_ok cache ->
  exists cache', Ref_get num gen cache = (Ok (mkRef (ref_string num gen) num gen), cache') /\
    cache_ok cache' /\ cache' !! ref_string num gen = Some (mkRef (ref_string num gen) num gen).
Proof.
  intros Hn Hg Hc. unfold Ref_get. fold (ref_string num gen). unfold cached.
  pose proof (match_ref_string num gen Hn Hg) as Hm.
  destruct (dec_spec num Hn) as (_ & Hp & _).
  assert (Hr : mkRef (ref_string num gen) num gen =
    mkRef (ref_string num gen) (parse_dec (dec num))
      (match (if gen =? 0 then [] else dec gen) with [] => 0
       | _ :: _ => parse_dec (if gen =? 0 then [] else dec gen) end))
    by (rewrite Hp, dec_gen by done; done).
  destruct (cache !! ref_string num gen) as [r|] eqn:El.
  - exists cache. destruct (Hc _ _ El) as (m1 & m2 & Hm' & ->). rewrite Hm in Hm'.
    injection Hm' as <- <-. rewrite <- Hr in *. by split_and!.
  - eexists. split; [done|]. split; [by eapply cache_ok_insert|]. by rewrite lookup_insert_eq.
Qed.

Lemma ref_string_inj num gen num' gen' :
  0 <= num -> 0 <= gen -> 0 <= num' -> 0 <= gen' ->
  ref_string num gen = ref_string num' gen' -> num = num' /\ gen = gen'.
Proof.
  intros Hn Hg Hn' Hg' He. pose proof (match_ref_string num gen Hn Hg) as Hm.
  rewrite He, match_ref_string in Hm by done. injection Hm as H1 H2.
  destruct (dec_spec num Hn) as (_ & Hp & _). destruct (dec_spec num' Hn') as (_ & Hp' & _).
  pose proof (dec_gen gen Hg) as G. pose proof (dec_gen gen' Hg') as G'.
  split; [congruence|]. rewrite <- G, <- G', H2. done.
Qed.

(** References and their strings: [Ref.get] gives the reference of its
    arguments whatever the cache holds, [Ref.fromString] of its string gives
    the same reference back, in the cache at hand and in a fresh one, and both
    keep the cache right; [RefSet] membership is equality of number and
    generation. *)
Theorem ref_string_roundtrip (num gen num' gen' : Z) (cache : RefCache) (refs : RefSet)
  (Hnum : 0 < num) (Hgen : 0 <= gen) (Hnum' : 0 < num') (Hgen' : 0 <= gen')
  (Hcache : cache_ok cache) :
  exists r cache', Ref_get num gen cache = (Ok r, cache') /\ cache_ok cache' /\
    ref_num r = num /\ ref_gen r = gen /\
    Ref_fromString (ref_toString r) cache' = (Ok (Some r), cache') /\
    fst (Ref_fromString (ref_toString r) ∅) = Ok (Some r) /\
    forall r', fst (Ref_get num' gen' cache') = Ok r' ->
      refset_has (refset_put refs r) r' = isRefsEqual r r' || refset_has refs r'.
Proof.
  destruct (Ref_get_spec num gen cache) as (cache' & Hg & Hc & Hl); [lia|done|done|].
  exists (mkRef (ref_string num gen) num gen), cache'. split_and!; auto.
  - unfold Ref_fromString, ref_toString. cbn [ref_str]. by rewrite Hl.
  - unfold Ref_fromString, ref_toString. cbn [ref_str]. rewrite lookup_empty.
    rewrite match_ref_string by lia. destruct (dec_spec num) as (_ & Hp & _); [lia|].
    rewrite bool_decide_eq_false_2.
    + cbv beta zeta iota. unfold fst. by rewrite dec_gen, Hp by done.
    + intros He. rewrite He in Hp. vm_compute in Hp. lia.
  - intros r' Hr'. destruct (Ref_get_spec num' gen' cache') as (c2 & Hg2 & _); [lia|done|done|].
    rewrite Hg2 in Hr'. injection Hr' as <-. unfold refset_has, refset_put, isRefsEqual, ref_toString.
    cbn [ref_str ref_num ref_gen].
    destruct (Z.eqb_spec num num') as [->|Hne]; [destruct (Z.eqb_spec gen gen') as [->|Hne]|].
    + apply bool_decide_eq_true_2. set_solver.
    + simpl. apply bool_decide_ext. rewrite elem_of_union, elem_of_singleton. split; [|auto].
      intros [He|]; [|done]. apply ref_string_inj in He; [|lia..]. lia.
    + simpl. apply bool_decide_ext. rewrite elem_of_union, elem_of_singleton. split; [|auto].
      intros [He|]; [|done]. apply ref_string_inj in He; [|lia..]. lia.
Qed.

Lemma ref_string_roundtrip_witness :
  exists r cache', Ref_get 12 3 ∅ = (Ok r, cache') /\ cache_ok cache' /\
    ref_num r = 12 /\ ref_gen r = 3 /\
    Ref_fromString (ref_toString r) cache' = (Ok (Some r), cache') /\
    fst (Ref_fromString (ref_toString r) ∅) = Ok (Some r) /\
    forall r', fst (Ref_get 12 0 cache') = Ok r' ->
      refset_has (refset_put ∅ r) r' = isRefsEqual r r' || refset_has ∅ r'.
Proof. apply (ref_string_roundtrip 12 3 12 0 ∅ ∅); try lia. apply cache_ok_empty. Defined.

(** ** Lemmas on entries *)

Section EntryLemmas.
Context {V : Type}.
Implicit Types (m : list (jstr * V)) (v : V).

Lemma map_get_set m (key key' : jstr) v :
  map_get (map_set m key v) key' = if bool_decide (key = key') then Some v else map_get m key'.
Proof.
  induction m as [|[k v'] m IH]; simpl; [done|].
  repeat (case_bool_decide; simpl; subst); try done; congruence.
Qed.

Lemma elem_map_set m key v : forall k, k ∈ (map_set m key v).*1 <-> k = key \/ k ∈ m.*1.
Proof.
  intros k. induction m as [|[k' v'] m IH]; simpl; [set_solver|].
  case_bool_decide; simpl; set_solver.
Qed.

Lemma NoDup_map_set m key v : NoDup m.*1 -> NoDup (map_set m key v).*1.
Proof.
  induction m as [|[k' v'] m IH]; simpl; intros Hnd.
  - apply NoDup_cons_2; [set_solver|constructor].
  - case_bool_decide; simpl; apply NoDup_cons in Hnd as [Hni Hnd]; apply NoDup_cons_2; auto.
    rewrite elem_map_set. set_solver.
Qed.

Lemma map_get_None m key : map_get m key = None <-> key ∉ m.*1.
Proof.
  induction m as [|[k v] m IH]; simpl; [set_solver|].
  case_bool_decide; [subst; set_solver|]. rewrite IH. set_solver.
Qed.

(** The entries a sequence of [set] leaves: the last value of each key. *)
Lemma map_get_fold_set l m key :
  NoDup l.*1 ->
  map_get (fold_left (fun m '(k, v) => map_set m k v) l m) key =
  match map_get l key with Some v => Some v | None => map_get m key end.
Proof.
  revert m. induction l as [|[k v] l IH]; intros m Hnd; [done|].
  simpl in Hnd. apply NoDup_cons in Hnd as [Hni Hnd]. simpl. rewrite IH by done.
  rewrite map_get_set. case_bool_decide as Hk; [|done]. subst.
  by rewrite (proj2 (map_get_None l key)).
Qed.
End EntryLemmas.

(** A dictionary as the code makes them: its keys are distinct. *)
Definition dict_ok {V} (d : DictOf V) : Prop := NoDup (d_map d).*1.

Lemma dict_set_ok {V} (d : DictOf V) key v : dict_ok d -> dict_ok (dict_set d key v).
Proof. apply NoDup_map_set. Qed.

Lemma getRaw_set {V} (d : DictOf V) key key' v :
  getRaw (dict_set d key v) key' = if bool_decide (key = key') then Some v else getRaw d key'.
Proof. apply map_get_set. Qed.

(** ** Merging dictionaries *)

(** The first value of a key among dictionaries. *)
Definition first_value (ds : list Dict) (key : jstr) : value :=
  head (omap (fun d : Dict => getRaw d key) ds).

Definition is_dict (o : obj) : bool := match o with ODict _ => true | _ => false end.

(** The values that [merge] collects for a key out of all its values. *)
Definition collect (mergeSubDicts : bool) (vs : list obj) : list obj :=
  match vs with
  | [] => []
  | v :: vs => v :: (if mergeSubDicts then List.filter is_dict vs else [])
  end.

Definition vals (key : jstr) (entries : list (jstr * obj)) : list obj :=
  omap (fun '(k, v) => if bool_decide (k = key) then Some v else None) entries.

Definition push (msd : bool) (property : list obj) (v : obj) : list obj :=
  if negb (len property =? 0) && negb (msd && is_dict v) then property else property ++ [v].

Lemma merge_entry_eq msd P k v :
  merge_entry msd P (k, v) = map_set P k (push msd (default [] (map_get P k)) v).
Proof. unfold merge_entry, push, is_dict. by case_match. Qed.

Lemma push_nonempty msd p v : push msd p v <> [].
Proof. unfold push. case_match eqn:E; [|by destruct p]. by destruct p. Qed.

Lemma push_collect msd p vs :
  p <> [] -> fold_left (push msd) vs p = p ++ (if msd then List.filter is_dict vs else []).
Proof.
  revert p. induction vs as [|v vs IH]; intros p Hp; simpl.
  - destruct msd; by rewrite app_nil_r.
  - assert (Hl : (len p =? 0) = false) by (destruct p; [done|apply Z.eqb_neq; len_lia]).
    unfold push at 2. rewrite Hl. simpl. destruct msd; simpl.
    + destruct (is_dict v); simpl; [|by rewrite IH].
      rewrite IH by (by destruct p). by rewrite <- app_assoc.
    + by rewrite IH.
Qed.

Lemma fold_merge_entry msd entries P key :
  map_get (fold_left (merge_entry msd) entries P) key =
  match vals key entries with
  | [] => map_get P key
  | vs => Some (fold_left (push msd) vs (default [] (map_get P key)))
  end.
Proof.
  revert P. induction entries as [|[k v] entries IH]; intros P; [done|].
  cbn [fold_left]. rewrite IH, merge_entry_eq. unfold vals in *. cbn [omap list_omap].
  rewrite map_get_set. case_bool_decide as Hk; [subst k|done].
  destruct (omap _ entries); done.
Qed.

Lemma fold_merge_entry_inv msd entries P :
  NoDup P.*1 -> Forall (fun p => p.2 <> []) P ->
  NoDup (fold_left (merge_entry msd) entries P).*1 /\
  Forall (fun p => p.2 <> []) (fold_left (merge_entry msd) entries P).
Proof.
  revert P. induction entries as [|[k v] entries IH]; intros P Hnd Hne; [done|].
  cbn [fold_left]. rewrite merge_entry_eq. apply IH; [by apply NoDup_map_set|].
  clear -Hne. generalize (push_nonempty msd (default [] (map_get P k)) v).
  generalize (push msd (default [] (map_get P k)) v) as p. intros p Hp.
  induction Hne as [|[k' p'] P Hp' Hne IH]; simpl; [by repeat constructor|].
  case_bool_decide; by constructor.
Qed.

Lemma vals_dicts key (ds : list Dict) :
  Forall dict_ok ds -> vals key (concat (map d_map ds)) = omap (fun d : Dict => getRaw d key) ds.
Proof.
  induction 1 as [|d ds Hd _ IH]; [done|]. unfold vals in *. cbn [map concat].
  rewrite omap_app, IH. simpl. unfold getRaw, dict_ok in *. clear IH.
  assert (H : omap (fun '(k, v) => if bool_decide (k = key) then Some v else None) (d_map d)
    = match map_get (d_map d) key with Some v => [v] | None => [] end).
  { induction (d_map d) as [|[k v] m IH]; [done|]. simpl in *.
    apply NoDup_cons in Hd as [Hni Hnd]. specialize (IH Hnd).
    unfold omap in IH. case_bool_decide; [subst k|done].
    by rewrite IH, (proj2 (map_get_None m key)). }
  rewrite H. by destruct (map_get (d_map d) key).
Qed.

Lemma getRaw_merge_sub xref (values : list obj) key :
  Forall dict_ok (dicts_of values) ->
  getRaw (merge_sub xref values) key = first_value (dicts_of values) key.
Proof.
  intros Hok. unfold merge_sub, first_value. rewrite <- vals_dicts by done.
  assert (Hgen : forall entries (d : Dict),
    getRaw (fold_left (fun subDict '(k, v) => setIfNotExists subDict k v) entries d) key =
    match getRaw d key with Some v => Some v | None => head (vals key entries) end).
  { induction entries as [|[k v] entries IH]; intros d; simpl; [by destruct (getRaw d key)|].
    rewrite IH. unfold setIfNotExists, dict_has.
    destruct (getRaw d k) as [v'|] eqn:Ek.
    - rewrite bool_decide_eq_true_2 by done. case_bool_decide as Hk; [subst k|done].
      by rewrite Ek.
    - rewrite bool_decide_eq_false_2 by (by intros []). rewrite getRaw_set.
      case_bool_decide as Hk; [subst k|done]. by rewrite Ek. }
  by rewrite Hgen.
Qed.

(** What [merge] makes of the values of a key. *)
Definition merged_value (xref : bool) (values : list obj) : value :=
  match values with
  | ODict _ :: _ :: _ =>
      let subDict := merge_sub xref values in
      if 0 <? dict_size subDict then Some (ODict subDict) else None
  | v :: _ => Some v
  | [] => None
  end.

Lemma fold_merge_property xref P (d : Dict) key :
  NoDup P.*1 ->
  getRaw (fold_left (merge_property xref) P d) key =
  match map_get P key with
  | Some values =>
      match merged_value xref values with Some v => Some v | None => getRaw d key end
  | None => getRaw d key
  end.
Proof.
  revert d. induction P as [|[k values] P IH]; intros d Hnd; [done|].
  simpl in Hnd. apply NoDup_cons in Hnd as [Hni Hnd]. cbn [fold_left map_get]. rewrite IH by done.
  assert (Hd : getRaw (merge_property xref d (k, values)) key =
    if bool_decide (k = key)
    then match merged_value xref values with Some v => Some v | None => getRaw d key end
    else getRaw d key).
  { unfold merge_property, merged_value.
    repeat (case_match; rewrite ?getRaw_set; try done); case_bool_decide; try done; congruence. }
  rewrite Hd. case_bool_decide as Hk; [|done]. subst k. by rewrite (proj2 (map_get_None P key)).
Qed.

(** [Dict.merge]: a key of the merged dictionary has its first value
    among the dictionaries of the array, in order; when sub-dictionaries are
    merged too and that value is a dictionary, the key has the dictionary
    whose own keys have their first values among the sub-dictionaries found
    under the key (or no value, when they are all empty).  Entries of the array
    that are not dictionaries are skipped. *)
Theorem Dict_merge_spec (xref : bool) (dictArray : list obj) (mergeSubDicts : bool) (key : jstr)
  (Hok : Forall dict_ok (dicts_of dictArray))
  (Hsub : forall d d' : Dict, d ∈ dicts_of dictArray -> getRaw d key = Some (ODict d') -> dict_ok d') :
  let values := collect mergeSubDicts (omap (fun d : Dict => getRaw d key) (dicts_of dictArray)) in
  getRaw (Dict_merge xref dictArray mergeSubDicts) key = merged_value xref values /\
  (forall d vs, values = ODict d :: vs -> forall key2,
    getRaw (merge_sub xref values) key2 = first_value (dicts_of values) key2).
Proof.
  set (entries := concat (map d_map (dicts_of dictArray))).
  assert (Hv : omap (fun d : Dict => getRaw d key) (dicts_of dictArray) = vals key entries)
    by (unfold entries; by rewrite vals_dicts).
  intros values. unfold values. rewrite Hv. split.
  - destruct (fold_merge_entry_inv mergeSubDicts entries []) as [Hnd _]; [constructor|constructor|].
    assert (Hg : getRaw (fold_left (merge_property xref)
      (fold_left (merge_entry mergeSubDicts) entries []) (new_Dict xref)) key =
      merged_value xref (collect mergeSubDicts (vals key entries))).
    { rewrite fold_merge_property, fold_merge_entry by done.
      destruct (vals key entries) as [|v vs]; [done|]. cbn [map_get default fold_left].
      unfold push at 2. cbn [negb andb len length Z.of_nat Z.eqb app].
      rewrite push_collect by done. cbn [app collect].
      by destruct (merged_value xref _). }
    rewrite <- Hg. unfold Dict_merge. fold entries. cbv zeta.
    set (merged := fold_left _ _ (new_Dict xref)).
    destruct (Z.ltb_spec 0 (dict_size merged)) as [|Hz]; [done|].
    unfold dict_size in Hz. unfold getRaw. destruct (d_map merged); [done|len_lia].
  - intros d vs He key2. apply getRaw_merge_sub.
    apply List.Forall_forall. intros d' Hin. unfold dicts_of in Hin.
    apply list_elem_of_In, list_elem_of_omap in Hin as (o & Ho & Ed).
    destruct o; try discriminate. injection Ed as ->.
    assert (Hin : ODict d' ∈ vals key entries).
    { clear -Ho. destruct (vals key entries) as [|v vs]; simpl in Ho; [set_solver|].
      apply elem_of_cons in Ho as [->|Ho]; [set_solver|]. destruct mergeSubDicts; [|set_solver].
      apply list_elem_of_In, filter_In in Ho as [Ho _]. apply list_elem_of_In in Ho. set_solver. }
    rewrite <- Hv in Hin. apply list_elem_of_omap in Hin as (d0 & Hd0 & E0). by eapply Hsub.
Qed.

Lemma Dict_merge_spec_witness :
  let d1 := dict_set (new_Dict true) (js "Font") (ODict (dict_set (new_Dict true) (js "F1") (OInt 1))) in
  let d2 := dict_set (new_Dict true) (js "Font") (ODict (dict_set (new_Dict true) (js "F2") (OInt 2))) in
  let values := collect true (omap (fun d : Dict => getRaw d (js "Font")) (dicts_of [ODict d1; ONull; ODict d2])) in
  getRaw (Dict_merge true [ODict d1; ONull; ODict d2] true) (js "Font") = merged_value true values /\
  (forall d vs, values = ODict d :: vs -> forall key2,
    getRaw (merge_sub true values) key2 = first_value (dicts_of values) key2).
Proof.
  intros d1 d2. apply (Dict_merge_spec true [ODict d1; ONull; ODict d2] true (js "Font")).
  - vm_compute dicts_of. repeat apply List.Forall_cons; try apply List.Forall_nil; vm_compute; apply NoDup_singleton.
  - intros d d' Hd Hg. assert (Hd' : d = d1 \/ d = d2) by (clear -Hd; set_solver).
    destruct Hd' as [-> | ->]; vm_compute in Hg; injection Hg as <-; apply NoDup_singleton.
Defined.
