(* ===== verification/Crypto.v ===== *)
(** * Document encryption

    The password algorithms ([PDFBase], [PDF17], [PDF20]), [CipherTransform]
    and [CipherTransformFactory] of pdf.worker.mjs.  Unicode normalisation and
    the conversion of strings and arrays to numbers belong to the language and
    are parameters; so are the cross-reference table ([fetch]) and the random
    initialisation vector of [encryptString]. *)
From stdpp Require Import gmap.
From S2P Require Import Prelude JsBits ByteStream DecodeStream Rc4 Decrypt Aes Hash Md5.
From S2P Require Import Sha256 Sha512 Primitives.
Local Open Scope js_scope.

Definition lift {S A} (r : res A) : M S A := fun s => (r, s).

(** ** Passwords of 256-bit encryption *)

Inductive PdfAlgorithm := PDF17 | PDF20.

Definition combine_repeated (password k userBytes : list Z) : list Z :=
  concat (replicate 64 (password ++ k ++ userBytes)).

(** A turn of the loop of [PDF20._hash]: the new [k] and [e]. *)
Definition pdf20_turn (password userBytes k : list Z) : list Z * list Z :=
  let k1 := combine_repeated password k userBytes in
  let cipher := new_AES128Cipher (subarray k 0 16) in
  let e := fst (aes_encrypt_data k1 (Some (subarray k 16 32)) cipher) in
  let remainder := fold_left Z.add (subarray e 0 16) 0 mod 3 in
  let k :=
    if remainder =? 0 then calculateSHA256 e 0 (len e)
    else if remainder =? 1 then calculateSHA384 e 0 (len e)
    else calculateSHA512 e 0 (len e) false in
  (k, e).

Fixpoint pdf20_loop (fuel : nat) (password userBytes k e : list Z) (i : Z) : res (list Z) :=
  if (i <? 64) || jn_lt (Some (i - 32)) (last e) then
    match fuel with
    | O => OutOfFuel
    | S fuel =>
        let '(k, e) := pdf20_turn password userBytes k in
        pdf20_loop fuel password userBytes k e (i + 1)
    end
  else Ok (subarray k 0 32).

(** [_hash]; the loop of [PDF20] is over by turn 288. *)
Definition pdf_hash (alg : PdfAlgorithm) (password input userBytes : list Z) : res (list Z) :=
  match alg with
  | PDF17 => Ok (calculateSHA256 input 0 (len input))
  | PDF20 =>
      pdf20_loop 288 password userBytes (subarray (calculateSHA256 input 0 (len input)) 0 32) [0] 0
  end.

Section PDFBase.
Context (alg : PdfAlgorithm).

Definition owner_data (password salt userBytes : list Z) : list Z :=
  blit (blit (blit (zeros (len password + 56)) password 0) salt (len password))
    userBytes (len password + len salt).

Definition user_data (password salt : list Z) : list Z :=
  blit (blit (zeros (len password + 8)) password 0) salt (len password).

Definition checkOwnerPassword (password ownerValidationSalt userBytes ownerPassword : list Z)
    : M unit bool :=
  result <- lift (pdf_hash alg password (owner_data password ownerValidationSalt userBytes) userBytes) ;;
  mret (isArrayEqual result ownerPassword).

Definition checkUserPassword (password userValidationSalt userPassword : list Z) : M unit bool :=
  result <- lift (pdf_hash alg password (user_data password userValidationSalt) []) ;;
  mret (isArrayEqual result userPassword).

Definition getOwnerKey (password ownerKeySalt userBytes ownerEncryption : list Z)
    : M unit (list Z) :=
  key <- lift (pdf_hash alg password (owner_data password ownerKeySalt userBytes) userBytes) ;;
  mret (fst (aes_decryptBlock ownerEncryption false (Some (zeros 16)) (new_AES256Cipher key))).

Definition getUserKey (password userKeySalt userEncryption : list Z) : M unit (list Z) :=
  key <- lift (pdf_hash alg password (user_data password userKeySalt) []) ;;
  mret (fst (aes_decryptBlock userEncryption false (Some (zeros 16)) (new_AES256Cipher key))).
End PDFBase.

(** ** Ciphers of a document *)

(** The classes [resolveCipher] returns, with the key they are bound to. *)
Inductive CipherClass :=
| ClassNull
| ClassARCFour (key : list Z)
| ClassAES128 (key : list Z)
| ClassAES256 (key : list Z).

Inductive CipherObj :=
| CNull
| CARCFour (c : ARCFourCipher)
| CAES (c : AES).

Definition new_cipher (k : CipherClass) : CipherObj :=
  match k with
  | ClassNull => CNull
  | ClassARCFour key => CARCFour (new_ARCFourCipher key)
  | ClassAES128 key => CAES (new_AES128Cipher key)
  | ClassAES256 key => CAES (new_AES256Cipher key)
  end.

Definition cipher_decryptBlock (data : list Z) (finalize : bool) (c : CipherObj)
    : list Z * CipherObj :=
  match c with
  | CNull => (null_decryptBlock data, CNull)
  | CARCFour c => let '(o, c) := rc4_decryptBlock c data in (o, CARCFour c)
  | CAES c => let '(o, c) := aes_decryptBlock data finalize None c in (o, CAES c)
  end.

#[export] Instance cipher_obj : Cipher CipherObj := { decryptBlock := cipher_decryptBlock }.

Record CipherTransform := mkTransform {
  resolveCipher : value -> res CipherClass;
  cipherCache : gmap jstr CipherClass;
  embeddedFilterName : value;
  streamFilterName : value;
  stringFilterName : value
}.

Definition new_CipherTransform (resolve : value -> res CipherClass) (stringFilter streamFilter : value)
    : CipherTransform := mkTransform resolve ∅ None streamFilter stringFilter.

Definition getCipher (filterName : value) : M CipherTransform CipherClass := fun t =>
  let key := match filterName with Some (OName name) => name | _ => js "__default__" end in
  match cipherCache t !! key with
  | Some c => (Ok c, t)
  | None =>
      match resolveCipher t filterName with
      | Ok c => (Ok c, mkTransform (resolveCipher t) (<[key := c]> (cipherCache t))
                         (embeddedFilterName t) (streamFilterName t) (stringFilterName t))
      | Throw e => (Throw e, t)
      | OutOfFuel => (OutOfFuel, t)
      end
  end.

(** [embedded]: the stream's dictionary has type [EmbeddedFile]. *)
Definition createStream {S} (stream : S) (embedded : bool) (length : jsnum) (cryptFilterName : value)
    : M CipherTransform (DS S (Dec CipherObj)) :=
  t <- get ;;
  let defaultFilterName :=
    if truthy (embeddedFilterName t) && embedded then embeddedFilterName t else streamFilterName t in
  c <- getCipher (if truthy cryptFilterName then cryptFilterName else defaultFilterName) ;;
  mret (new_DecryptStream stream length (new_cipher c)).

Definition decryptString (s : jstr) : M CipherTransform jstr :=
  t <- get ;;
  c <- getCipher (stringFilterName t) ;;
  mret (bytesToString (fst (cipher_decryptBlock (stringToBytes s) true (new_cipher c)))).

Definition encryptString (iv : list Z) (s : jstr) : M CipherTransform jstr :=
  t <- get ;;
  c <- getCipher (stringFilterName t) ;;
  mret match new_cipher c with
  | CAES c =>
      let pad := 16 - len s mod 16 in
      let data := stringToBytes (s ++ replicate (Z.to_nat pad) pad) in
      let data := fst (aes_encrypt_data data (Some iv) c) in
      bytesToString (blit (blit (zeros (16 + len data)) iv 0) data 16)
  | CARCFour c => bytesToString (fst (rc4_encrypt c (stringToBytes s)))
  | CNull => bytesToString (null_encrypt (stringToBytes s))
  end.

(** ** Keys of 40- to 128-bit encryption *)

Definition defaultPasswordBytes : list Z := [
  0x28; 0xbf; 0x4e; 0x5e; 0x4e; 0x75; 0x8a; 0x41; 0x64; 0x00; 0x4e; 0x56; 0xff; 0xfa; 0x01; 0x08;
  0x2e; 0x2e; 0x00; 0xb6; 0xd0; 0x68; 0x3e; 0x80; 0x2f; 0x0c; 0xa9; 0xfe; 0x64; 0x53; 0x69; 0x7a]%Z.

(** The first 32 bytes of [hashData]: the password, then the default bytes. *)
Definition padded_password (password : list Z) : list Z :=
  let n := Z.min 32 (len password) in
  subarray password 0 n ++ subarray defaultPasswordBytes 0 (32 - n).

(** [derivedKey[k] = encryptionKey[k] ^ j] for [n] bytes. *)
Definition derived_key (n : Z) (encryptionKey : list Z) (j : Z) : list Z :=
  map (fun k => to_u8 (at_ encryptionKey k .^ j)) (indices n).

Definition rc4_once (data key : list Z) : list Z :=
  fst (rc4_encryptBlock (new_ARCFourCipher key) data).

(** [revision >= n] *)
Definition num_ge (v : option num) (n : Z) : bool :=
  match v with Some r => num_le n r | None => false end.

Definition flag_bytes (flags : Z) : list Z :=
  [flags .& 0xff; flags .>> 8 .& 0xff; flags .>> 16 .& 0xff; flags .>>> 24 .& 0xff].

(** [hashData] filled for the first hash, and the number of bytes used. *)
Definition key_hash_data (fileId : list Z) (password : option (list Z)) (ownerPassword : list Z)
    (flags : Z) (revision : option num) (encryptMetadata : bool) : list Z * Z :=
  let hashData := zeros (40 + len ownerPassword + len fileId) in
  let hashData := blit hashData (padded_password (default [] password)) 0 in
  let i := 32 in
  let hashData := blit hashData ownerPassword i in
  let i := i + len ownerPassword in
  let hashData := blit hashData (flag_bytes flags) i in
  let i := i + 4 in
  let hashData := blit hashData fileId i in
  let i := i + len fileId in
  if num_ge revision 4 && negb encryptMetadata then (fill hashData 0xff i (i + 4), i + 4)
  else (hashData, i).

(** [checkData], what the user entry should be for the key. *)
Definition check_data (fileId : list Z) (revision : option num) (hashData encryptionKey : list Z)
    : list Z :=
  if num_ge revision 3 then
    let hashData := blit (blit hashData defaultPasswordBytes 0) fileId 32 in
    let checkData := rc4_once (calculateMD5 hashData 0 (32 + len fileId)) encryptionKey in
    fold_left (fun data j => rc4_once data (derived_key (len encryptionKey) encryptionKey j))
      (range 1 20) checkData
  else rc4_once defaultPasswordBytes encryptionKey.

Definition prepareKeyData (fileId : list Z) (password : option (list Z))
    (ownerPassword userPassword : list Z) (flags : Z) (revision : option num) (keyLength : Z)
    (encryptMetadata : bool) : option (list Z) :=
  let '(hashData, i) :=
    key_hash_data fileId password ownerPassword flags revision encryptMetadata in
  let hash := calculateMD5 hashData 0 i in
  let keyLengthInBytes := keyLength .>> 3 in
  let hash :=
    if num_ge revision 3
    then Nat.iter 50 (fun hash => calculateMD5 hash 0 keyLengthInBytes) hash else hash in
  let encryptionKey := subarray hash 0 keyLengthInBytes in
  let checkData := check_data fileId revision hashData encryptionKey in
  if forallb (fun k => jn_is (arr_get userPassword k) (at_ checkData k)) (indices (len checkData))
  then Some encryptionKey else None.

Definition decodeUserPassword (password ownerPassword : list Z) (revision : option num)
    (keyLength : Z) : list Z :=
  let hash := calculateMD5 (padded_password password) 0 32 in
  let keyLengthInBytes := keyLength .>> 3 in
  let hash :=
    if num_ge revision 3 then Nat.iter 50 (fun hash => calculateMD5 hash 0 (len hash)) hash
    else hash in
  if num_ge revision 3 then
    fold_left (fun userPassword j => rc4_once userPassword (derived_key keyLengthInBytes hash j))
      (map (fun k => 19 - k) (indices 20)) ownerPassword
  else rc4_once ownerPassword (subarray hash 0 keyLengthInBytes).

Definition buildObjectKey (num gen : Z) (encryptionKey : list Z) (isAes : bool) : list Z :=
  let n := len encryptionKey in
  let key := blit (zeros (n + 9)) encryptionKey 0 in
  let key := blit key
    [num .& 0xff; num .>> 8 .& 0xff; num .>> 16 .& 0xff; gen .& 0xff; gen .>> 8 .& 0xff] n in
  let i := n + 5 in
  let '(key, i) :=
    if isAes then (blit key [0x73; 0x41; 0x6c; 0x54]%Z i, i + 4) else (key, i) in
  let hash := calculateMD5 key 0 i in
  subarray hash 0 (Z.min (n + 5) 16).

Definition createEncryptionKey20 (revision6 : bool) (password : option (list Z))
    (ownerPassword ownerValidationSalt ownerKeySalt uBytes userPassword userValidationSalt
     userKeySalt ownerEncryption userEncryption : list Z) : M unit (option (list Z)) :=
  let password :=
    match password with Some p => subarray p 0 (Z.min 127 (len p)) | None => [] end in
  let alg := if revision6 then PDF20 else PDF17 in
  user <- checkUserPassword alg password userValidationSalt userPassword ;;
  if user : bool then
    key <- getUserKey alg password userKeySalt userEncryption ;; mret (Some key)
  else
    owner <- (if len password =? 0 then mret false
              else checkOwnerPassword alg password ownerValidationSalt uBytes ownerPassword) ;;
    if owner : bool then
      key <- getOwnerKey alg password ownerKeySalt uBytes ownerEncryption ;; mret (Some key)
    else mret None.

(** ** Passwords as strings *)

Definition NON_ASCII_SPACES : list Z := [
  0x00a0; 0x1680; 0x2000; 0x2001; 0x2002; 0x2003; 0x2004; 0x2005; 0x2006; 0x2007; 0x2008; 0x2009;
  0x200a; 0x200b; 0x202f; 0x205f; 0x3000]%Z.

Definition COMMONLY_MAPPED_TO_NOTHING : list Z := [
  0x00ad; 0x034f; 0x1806; 0x180b; 0x180c; 0x180d; 0x200b; 0x200c; 0x200d; 0x2060; 0xfe00; 0xfe01;
  0xfe02; 0xfe03; 0xfe04; 0xfe05; 0xfe06; 0xfe07; 0xfe08; 0xfe09; 0xfe0a; 0xfe0b; 0xfe0c; 0xfe0d;
  0xfe0e; 0xfe0f; 0xfeff]%Z.

(** The characters of a string ([for (const char of str)]) with their code
    points; a surrogate without its pair is a character of its own. *)
Definition high_surrogate (c : Z) : bool := (0xd800 <=? c) && (c <=? 0xdbff).
Definition low_surrogate (c : Z) : bool := (0xdc00 <=? c) && (c <=? 0xdfff).

Fixpoint code_points (str : jstr) : list (Z * jstr) :=
  match str with
  | [] => []
  | c :: rest =>
      match rest with
      | d :: rest' =>
          if high_surrogate c && low_surrogate d
          then (0x10000 + (c - 0xd800) * 0x400 + (d - 0xdc00), [c; d]) :: code_points rest'
          else (c, [c]) :: code_points rest
      | [] => [(c, [c])]
      end
  end.

(** [unescape(encodeURIComponent(str))]: the UTF-8 bytes, or [None] for the
    error a lone surrogate raises. *)
Definition utf8_char (c : Z) : option (list Z) :=
  if c <? 0x80 then Some [c]
  else if c <? 0x800 then Some [0xc0 + c / 0x40; 0x80 + c mod 0x40]
  else if high_surrogate c || low_surrogate c then None
  else if c <? 0x10000 then
    Some [0xe0 + c / 0x1000; 0x80 + c / 0x40 mod 0x40; 0x80 + c mod 0x40]
  else Some [0xf0 + c / 0x40000; 0x80 + c / 0x1000 mod 0x40; 0x80 + c / 0x40 mod 0x40;
             0x80 + c mod 0x40].

Definition utf8StringToString (str : jstr) : option jstr :=
  (@concat Z) <$> mapM (fun '(c, _) => utf8_char c) (code_points str).

Definition utf8PasswordToBytes (password : jstr) : list Z :=
  stringToBytes (default password (utf8StringToString password)).

(** ** The factory *)

Record Factory := mkFactory {
  f_dict : Dict;
  f_fileId : jstr;
  f_algorithm : Z;
  f_cf : value;
  f_stmf : value;
  f_strf : value;
  f_eff : value;
  f_encryptMetadata : bool;
  f_encryptionKey : option (list Z)
}.

Definition NEED_PASSWORD : Z := 1.
Definition INCORRECT_PASSWORD : Z := 2.
Definition no_password : exn := PasswordException "No password given" NEED_PASSWORD.

Section Factory.
(** [fetch]: the cross-reference table.  [ToNumber]: the conversion to a
    number of the strings and arrays of the language.  [normalize]:
    [String.prototype.normalize("NFKC")]. *)
Context (fetch : Z -> Z -> bool -> res value) (ToNumber : obj -> option num)
  (normalize : jstr -> jstr).
Abbreviation E := (M unit).

Definition saslPrep (str : jstr) : jstr :=
  normalize (concat (map (fun '(code, char) =>
    if bool_decide (code ∈ NON_ASCII_SPACES) then js " "
    else if bool_decide (code ∈ COMMONLY_MAPPED_TO_NOTHING) then [] else char)
    (code_points str))).

Definition dget (d : Dict) (key : jstr) : E value := lift (dict_get fetch d key).

(** [v?.get(key)] *)
Definition opt_get (v : value) (key : jstr) : E value :=
  match v with
  | None | Some ONull => mret None
  | Some (ODict d) => dget d key
  | Some _ => throw (TypeError "get is not a function")
  end.

(** [v || d] *)
Definition v_or (v : value) (d : obj) : obj :=
  match v with Some o => if truthy v then o else d | None => d end.

Definition to_number (v : value) : option num :=
  match v with
  | Some (ONum n) => Some n
  | Some ONull => Some (NInt 0)
  | Some (OBool b) => Some (NInt (if b then 1 else 0))
  | Some (OStr s) => ToNumber (OStr s)
  | Some (OArr l) => ToNumber (OArr l)
  | _ => None
  end.
Definition to_int (v : value) : Z :=
  match to_number v with Some n => num_trunc n | None => 0 end.

Definition as_integer (v : value) : option Z :=
  match v with Some (ONum n) => num_int n | _ => None end.

(** [stringToBytes(v)]; another type is an error. *)
Definition string_bytes (v : value) : E (list Z) :=
  match v with
  | Some (OStr s) => mret (stringToBytes s)
  | _ => throw (JsError "Invalid argument for stringToBytes")
  end.

Definition suppress (v : value) : value :=
  match v with
  | Some (ODict d) => Some (ODict (mkDict (d_map d) (d_xref d) true))
  | _ => v
  end.

Definition supported_algorithm (V : value) : option Z :=
  match as_integer V with
  | Some a => if (a =? 1) || (a =? 2) || (a =? 4) || (a =? 5) then Some a else None
  | None => None
  end.

Definition valid_keyLength (keyLength : value) : option Z :=
  match as_integer keyLength with
  | Some n => if (n <? 40) || negb (n mod 8 =? 0) then None else Some n
  | None => None
  end.

(** The [Length] entry, or the length the algorithm or its crypt filter
    implies. *)
Definition key_length (dict : Dict) (algorithm : Z) : E value :=
  keyLength <- dget dict (js "Length") ;;
  if truthy keyLength then mret keyLength
  else if algorithm <=? 3 then mret (Some (OInt 40))
  else
    cfDict <- dget dict (js "CF") ;;
    streamCryptoName <- dget dict (js "StmF") ;;
    match suppress cfDict, streamCryptoName with
    | Some (ODict cf), Some (OName name) =>
        handlerDict <- dget cf name ;;
        keyLength <- opt_get handlerDict (js "Length") ;;
        let keyLength := v_or keyLength (OInt 128) in
        match to_number (Some keyLength) with
        | Some n =>
            if num_lt n 40 then mret (Some (OInt (num_trunc n .<< 3)))
            else mret (Some keyLength)
        | None => mret (Some keyLength)
        end
    | _, _ => mret keyLength
    end.

(** The candidates in turn, until one gives a key. *)
Fixpoint try_candidates (create : option (list Z) -> E (option (list Z)))
    (candidates : list (option (list Z))) : E (option (list Z)) :=
  match candidates with
  | [] => mret None
  | candidate :: rest =>
      key <- create candidate ;;
      match key with Some key => mret (Some key) | None => try_candidates create rest end
  end.

(** [passwordBytes] and [rawPasswordBytes] *)
Definition password_bytes (password : jstr) (revision : value) (algorithm : Z)
    : option (list Z) * option (list Z) :=
  if len password =? 0 then (None, None)
  else if match revision with Some (ONum n) => num_is n 6 | _ => false end then
    let preppedPassword := saslPrep password in
    (Some (utf8PasswordToBytes preppedPassword),
     if bool_decide (preppedPassword = password) then None else Some (utf8PasswordToBytes password))
  else if algorithm =? 5 then (Some (utf8PasswordToBytes password), None)
  else (Some (stringToBytes password), None).

(** The key for the password given, before any owner password is tried. *)
Definition first_key (dict : Dict) (algorithm : Z) (revision : value) (flags keyLength : Z)
    (encryptMetadata : bool) (fileIdBytes ownerBytes userBytes : list Z)
    (passwordBytes rawPasswordBytes : option (list Z)) : E (option (list Z)) :=
  let ownerPassword := subarray ownerBytes 0 32 in
  let userPassword := subarray userBytes 0 32 in
  if negb (algorithm =? 5) then
    mret (prepareKeyData fileIdBytes passwordBytes ownerPassword userPassword flags
            (to_number revision) keyLength encryptMetadata)
  else
    OE <- dget dict (js "OE") ;; ownerEncryption <- string_bytes OE ;;
    UE <- dget dict (js "UE") ;; userEncryption <- string_bytes UE ;;
    Perms <- dget dict (js "Perms") ;; perms <- string_bytes Perms ;;
    let revision6 :=
      match revision with Some (ONum n) => num_is n 6 | _ => false end in
    try_candidates
      (fun candidate =>
        createEncryptionKey20 revision6 candidate ownerPassword
          (subarray ownerBytes 32 40) (subarray ownerBytes 40 48) (subarray userBytes 0 48)
          userPassword (subarray userBytes 32 40) (subarray userBytes 40 48)
          ownerEncryption userEncryption)
      (match rawPasswordBytes with
       | Some raw => [passwordBytes; Some raw]
       | None => [passwordBytes]
       end).

(** No password and no key: a document whose streams and strings are not
    encrypted is opened anyway. *)
Definition opens_without_key (algorithm : Z) (cf stmf strf eff : value) : E bool :=
  if (4 <=? algorithm) && isName stmf (js "Identity") && isName strf (js "Identity") then
    effCF <- (match eff with
              | Some (OName name) => opt_get cf name
              | _ => match cf with
                     | None | Some ONull | Some (ODict _) => mret None
                     | Some _ => throw (TypeError "get is not a function")
                     end
              end) ;;
    authEvent <- opt_get effCF (js "AuthEvent") ;;
    mret (isName authEvent (js "EFOpen"))
  else mret false.

Definition new_CipherTransformFactory (dict : Dict) (fileId password : jstr) : E Factory :=
  filter <- dget dict (js "Filter") ;;
  if negb (isName filter (js "Standard")) then throw (FormatError "unknown encryption method")
  else
  V <- dget dict (js "V") ;;
  match supported_algorithm V with
  | None => throw (FormatError "unsupported encryption algorithm")
  | Some algorithm =>
  keyLength <- key_length dict algorithm ;;
  match valid_keyLength keyLength with
  | None => throw (FormatError "invalid key length")
  | Some keyLength =>
  let identity := OName (js "Identity") in
  let* (cf, stmf, strf, eff) <-
    (if 4 <=? algorithm then
       cf <- dget dict (js "CF") ;;
       stmf <- dget dict (js "StmF") ;;
       strf <- dget dict (js "StrF") ;;
       eff <- dget dict (js "EFF") ;;
       let stmf := v_or stmf identity in
       mret (suppress cf, Some stmf, Some (v_or strf identity), Some (v_or eff stmf))
     else mret (Some ONull, Some identity, Some identity, Some identity)) ;;
  O <- dget dict (js "O") ;; ownerBytes <- string_bytes O ;;
  U <- dget dict (js "U") ;; userBytes <- string_bytes U ;;
  let ownerPassword := subarray ownerBytes 0 32 in
  let userPassword := subarray userBytes 0 32 in
  P <- dget dict (js "P") ;;
  revision <- dget dict (js "R") ;;
  EncryptMetadata <-
    (if (algorithm =? 4) || (algorithm =? 5) then dget dict (js "EncryptMetadata")
     else mret (Some (OBool false))) ;;
  let encryptMetadata := match EncryptMetadata with Some (OBool false) => false | _ => true end in
  let flags := to_int P in
  let fileIdBytes := stringToBytes fileId in
  let '(passwordBytes, rawPasswordBytes) := password_bytes password revision algorithm in
  let factory := mkFactory dict fileId algorithm cf stmf strf eff encryptMetadata in
  encryptionKey <- first_key dict algorithm revision flags keyLength encryptMetadata fileIdBytes
                     ownerBytes userBytes passwordBytes rawPasswordBytes ;;
  let finish (encryptionKey : list Z) : E Factory :=
    mret (factory (Some
      (if (algorithm =? 4) && (len encryptionKey <? 16) then blit (zeros 16) encryptionKey 0
       else encryptionKey))) in
  match encryptionKey, passwordBytes with
  | Some encryptionKey, _ => finish encryptionKey
  | None, None =>
      opens <- opens_without_key algorithm cf stmf strf eff ;;
      if opens : bool then mret (factory None) else throw no_password
  | None, Some passwordBytes =>
      let decodedPassword :=
        decodeUserPassword passwordBytes ownerPassword (to_number revision) keyLength in
      match prepareKeyData fileIdBytes (Some decodedPassword) ownerPassword userPassword flags
              (to_number revision) keyLength encryptMetadata with
      | Some encryptionKey => finish encryptionKey
      | None => throw (PasswordException "Incorrect Password" INCORRECT_PASSWORD)
      end
  end
  end
  end.

Definition setPassword (f : Factory) (password : jstr) : E Factory :=
  transform <- new_CipherTransformFactory (f_dict f) (f_fileId f) password ;;
  mret (mkFactory (f_dict f) (f_fileId f) (f_algorithm f) (f_cf f) (f_stmf f) (f_strf f) (f_eff f)
          (f_encryptMetadata f) (f_encryptionKey transform)).

(** The closure [resolveCipher] of a document with crypt filters. *)
Definition resolve_filter (f : Factory) (num gen : Z) (filterName : value) : E CipherClass :=
  match filterName with
  | Some (OName name) =>
      cryptFilter <- (match f_cf f with
                      | Some (ODict cf) => dget cf name
                      | _ => throw (TypeError "get is not a function")
                      end) ;;
      cfm <- opt_get cryptFilter (js "CFM") ;;
      if negb (truthy cfm) || isName cfm (js "None") then mret ClassNull
      else
        match f_encryptionKey f with
        | None => throw no_password
        | Some key =>
            if (f_algorithm f =? 5) || isName cfm (js "AESV3") then mret (ClassAES256 key)
            else if isName cfm (js "V2") then
              mret (ClassARCFour (buildObjectKey num gen key false))
            else if isName cfm (js "AESV2") then
              mret (ClassAES128 (buildObjectKey num gen key true))
            else throw (FormatError "Unknown crypto method")
        end
  | _ => throw (FormatError "Invalid crypt filter name.")
  end.

Definition createCipherTransform (f : Factory) (num gen : Z) : CipherTransform :=
  if (f_algorithm f =? 4) || (f_algorithm f =? 5) then
    mkTransform (fun name => fst (resolve_filter f num gen name tt)) ∅ (f_eff f) (f_stmf f) (f_strf f)
  else
    new_CipherTransform (fun _ =>
      match f_encryptionKey f with
      | Some key => Ok (ClassARCFour (buildObjectKey num gen key false))
      | None => Throw (TypeError "Cannot read properties of null")
      end) (Some ONull) (Some ONull).
End Factory.
