(* ===== verification/CryptoSpec.v ===== *)
(** * Document encryption: theorems

    What the definitions of [Crypto] do: strings come back from their
    encryption, the hash of revision 6 terminates, a 256-bit document gives up
    its key to the right password, and an older document opens with its user
    password and with its owner password. *)
From stdpp Require Import gmap.
From S2P Require Import Prelude JsBits ByteStream DecodeStream Rc4 Decrypt Aes Hash Md5.
From S2P Require Import Sha256 Sha512 Primitives Crypto.
Local Open Scope js_scope.

#[local] Opaque aes_decrypt aes_encrypt aes128_expandKey aes256_expandKey.

(** ** One call of a cipher *)

(** [decryptBlock] of an initialisation vector and a padded encryption. *)
Lemma aes_decrypt_once key c iv plain :
  new_AES key c -> length iv = 16%nat -> Forall is_byte plain ->
  fst (aes_decryptBlock (iv ++ fst (aes_encrypt_data (pad16 plain) (Some iv) c)) true None c) = plain.
Proof.
  intros Hc Hiv Hb.
  assert (Hi : aes_idle c /\ aes_started c = false) by (by destruct Hc). destruct Hi as [Hi Hs].
  destruct (pad16_blocks plain) as (bs & q & -> & Hbs & Hq & ->).
  pose proof (pad16_is_block bs q Hb Hbs Hq) as Hblocks.
  set (blocks := bs ++ _) in *.
  assert (Hb16 : blocks16 blocks) by (eapply Forall_impl; [exact Hblocks|]; by intros ? []).
  assert (Henc : blocks16 (cbc_enc c iv blocks))
    by (eapply Forall_impl; [by apply cbc_enc_blocks|]; by intros ? []).
  rewrite aes_encrypt_data_blocks, first_decryptBlock by done.
  set (c1 := set_aes iv (zeros 16) 0 true c).
  assert (Hsame : forall l, cbc_dec c1 iv l = cbc_dec c iv l) by (intros; by apply cbc_dec_same).
  destruct (decryptBlock2_blocks c1 (cbc_enc c iv blocks) true) as (c' & -> & _).
  - by split; [|apply Hi].
  - done.
  - change (aes_iv c1) with iv. by rewrite Hsame, cbc_dec_enc.
  - change (aes_iv c1) with iv. cbn [fst]. rewrite Hsame, cbc_dec_enc by done. by apply unpad_pad.
Qed.

(** [decryptBlock] with an initialisation vector and no padding. *)
Lemma aes_decrypt_nopad key iv blocks :
  length iv = 16%nat -> Forall is_block blocks ->
  fst (aes_decryptBlock (fst (aes_encrypt_data (concat blocks) (Some iv) (new_AES256Cipher key)))
         false (Some iv) (new_AES256Cipher key)) = concat blocks.
Proof.
  intros Hiv Hblocks. set (c := new_AES256Cipher key).
  assert (Hi : aes_idle c) by done.
  assert (Hb16 : blocks16 blocks) by (eapply Forall_impl; [exact Hblocks|]; by intros ? []).
  assert (Henc : blocks16 (cbc_enc c iv blocks))
    by (eapply Forall_impl; [by apply cbc_enc_blocks|]; by intros ? []).
  rewrite aes_encrypt_data_blocks by done.
  unfold aes_decryptBlock. change (aes_started c) with false. cbv iota.
  set (c1 := set_aes iv (zeros 16) 0 true c).
  assert (Hsame : forall l, cbc_dec c1 iv l = cbc_dec c iv l) by (intros; by apply cbc_dec_same).
  destruct (decryptBlock2_blocks c1 (cbc_enc c iv blocks) false) as (c' & -> & _).
  - done.
  - done.
  - change (aes_iv c1) with iv. by rewrite Hsame, cbc_dec_enc.
  - change (aes_iv c1) with iv. cbn [fst]. by rewrite Hsame, cbc_dec_enc.
Qed.

Lemma rc4_once_bytes data key : Forall is_byte data -> Forall is_byte (rc4_once data key).
Proof. intros Hd. apply rc4_block_ok; [apply new_rc4_ok|done]. Qed.

Lemma rc4_once_involutive data key : Forall is_byte data -> rc4_once (rc4_once data key) key = data.
Proof. intros Hd. unfold rc4_once. apply rc4_involutive; [apply new_rc4_ok|done]. Qed.

(** ** Strings *)

(** A second call of [#getCipher] gives the class the first one cached. *)
Lemma getCipher_again t name c t' :
  getCipher name t = (Ok c, t') ->
  getCipher name t' = (Ok c, t') /\ stringFilterName t' = stringFilterName t.
Proof.
  unfold getCipher. set (key := match name with Some (OName n) => n | _ => _ end).
  destruct (cipherCache t !! key) as [c0|] eqn:El.
  - intros [= -> <-]. by rewrite El.
  - destruct (resolveCipher t name); intros [= <- <-]. cbn. by rewrite lookup_insert_eq.
Qed.

Lemma bytes_pad16 s : Forall is_byte s -> Forall is_byte (pad16 s).
Proof.
  intros Hs. apply Forall_app. split; [done|]. apply Forall_replicate.
  pose proof (Z.mod_pos_bound (len s) 16 ltac:(lia)). unfold is_byte. lia.
Qed.

Lemma blocks_bytes bs : Forall is_block bs -> Forall is_byte (concat bs).
Proof. intros H. apply Forall_concat. eapply Forall_impl; [done|]. by intros ? []. Qed.

Lemma aes_data_bytes c blocks iv :
  aes_idle c -> blocks16 blocks ->
  Forall is_byte (fst (aes_encrypt_data (concat blocks) (Some iv) c)) /\
  len (fst (aes_encrypt_data (concat blocks) (Some iv) c)) = 16 * len blocks.
Proof.
  intros Hi Hb. rewrite aes_encrypt_data_blocks by done.
  pose proof (cbc_enc_blocks c iv blocks Hb) as Hc. split; [by apply blocks_bytes|].
  assert (Hl : len (cbc_enc c iv blocks) = len blocks).
  { clear. revert iv. induction blocks as [|b bs IH]; intros iv; [done|]. cbn [cbc_enc].
    by rewrite !len_cons, IH. }
  rewrite <- Hl. clear -Hc. induction Hc as [|b bs [Hb _] _ IH]; [done|].
  cbn [concat]. rewrite len_app, len_cons, IH. unfold len at 1. lia.
Qed.

Lemma blit_pieces iv data :
  length iv = 16%nat -> blit (blit (zeros (16 + len data)) iv 0) data 16 = iv ++ data.
Proof.
  intros Hiv. unfold blit at 2. change (Z.to_nat 0) with 0%nat. rewrite take_0. cbn [app].
  rewrite Hiv. rewrite zeros_app by (try apply len_nonneg; lia).
  rewrite drop_app_length' by done. unfold blit.
  change (Z.to_nat 16) with 16%nat. rewrite <- Hiv at 1. rewrite take_app_length. f_equal.
  rewrite drop_app_ge by lia. rewrite drop_ge; [by rewrite app_nil_r|].
  unfold zeros. rewrite length_replicate. unfold len. lia.
Qed.

Lemma encrypted_string_aes key c iv s :
  new_AES key c -> length iv = 16%nat -> Forall is_byte iv -> Forall is_byte s ->
  let pad := 16 - len s mod 16 in
  let data := fst (aes_encrypt_data (stringToBytes (s ++ replicate (Z.to_nat pad) pad)) (Some iv) c) in
  let out := blit (blit (zeros (16 + len data)) iv 0) data 16 in
  Forall is_byte out /\ fst (cipher_decryptBlock (stringToBytes out) true (CAES c)) = s.
Proof.
  intros Hc Hiv Hivb Hs pad. change (s ++ replicate (Z.to_nat pad) pad) with (pad16 s).
  rewrite stringToBytes_id by (by apply bytes_pad16).
  pose proof (aes_decrypt_once key c iv s Hc Hiv Hs) as Hd. intros data. fold data in Hd.
  assert (Hdb : Forall is_byte data).
  { unfold data. destruct (pad16_blocks s) as (bs & q & -> & Hbs & Hq & ->).
    apply aes_data_bytes; [by destruct Hc|].
    eapply Forall_impl; [by apply pad16_is_block|]. by intros ? []. }
  intros out. unfold out. rewrite blit_pieces by done. split; [by apply Forall_app_2|].
  rewrite stringToBytes_id by (by apply Forall_app_2).
  unfold cipher_decryptBlock. by destruct (aes_decryptBlock (iv ++ data) true None c).
Qed.

(** What a cipher class makes of an encrypted string. *)
Definition decrypt_with (cls : CipherClass) (s : jstr) : jstr :=
  bytesToString (fst (cipher_decryptBlock (stringToBytes s) true (new_cipher cls))).

(** An encrypted string is made of bytes, and the class it was encrypted for
    decrypts it. *)
Lemma encryptString_spec t iv s cls :
  fst (getCipher (stringFilterName t) t) = Ok cls ->
  length iv = 16%nat -> Forall is_byte iv -> Forall is_byte s ->
  exists c t', encryptString iv s t = (Ok c, t') /\ Forall is_byte c /\ decrypt_with cls c = s /\
    getCipher (stringFilterName t') t' = (Ok cls, t').
Proof.
  intros Hcls Hiv Hivb Hs.
  destruct (getCipher (stringFilterName t) t) as [r t'] eqn:Eg. simpl in Hcls. subst r.
  destruct (getCipher_again _ _ _ _ Eg) as [Eg' Hn].
  unfold encryptString, decrypt_with. m_red. rewrite Eg. do 2 eexists. split; [reflexivity|].
  rewrite Hn, Eg'. unfold bytesToString.
  destruct cls as [|key|key|key]; cbn [new_cipher cipher_decryptBlock].
  - unfold null_encrypt, null_decryptBlock. cbn [fst]. by rewrite !(stringToBytes_id s).
  - unfold rc4_encrypt, rc4_decryptBlock. fold (rc4_once (stringToBytes s) key).
    rewrite (stringToBytes_id s) by done.
    pose proof (rc4_once_bytes s key Hs) as Hb. rewrite (stringToBytes_id (rc4_once s key)) by done.
    pose proof (rc4_once_involutive s key Hs) as Hinv. unfold rc4_once at 1 in Hinv.
    destruct (rc4_encryptBlock (new_ARCFourCipher key) (rc4_once s key)). done.
  - destruct (encrypted_string_aes _ _ iv s (new_aes128 key) Hiv Hivb Hs). done.
  - destruct (encrypted_string_aes _ _ iv s (new_aes256 key) Hiv Hivb Hs). done.
Qed.

(** Encrypting a string and decrypting the result gives the string back,
    under every cipher the document's filters resolve to (none, RC4, AES-128,
    AES-256), for every key and every random initialisation vector. *)
Theorem encryptString_roundtrip t iv s cls
  (Hcls : fst (getCipher (stringFilterName t) t) = Ok cls)
  (Hiv : length iv = 16%nat) (Hivb : Forall is_byte iv) (Hs : Forall is_byte s) :
  exists c t', encryptString iv s t = (Ok c, t') /\ decryptString c t' = (Ok s, t').
Proof.
  destruct (encryptString_spec t iv s cls Hcls Hiv Hivb Hs) as (c & t' & E & _ & Hd & Eg).
  exists c, t'. split; [done|]. unfold decryptString. m_red. rewrite Eg. by rewrite <- Hd.
Qed.

Lemma encryptString_roundtrip_witness :
  let t := new_CipherTransform (fun _ => Ok (ClassAES128 (indices 16))) None None in
  exists c t', encryptString (indices 16) [72; 105; 255] t = (Ok c, t') /\
    decryptString c t' = (Ok [72; 105; 255], t').
Proof.
  apply (encryptString_roundtrip _ (indices 16) [72; 105; 255] (ClassAES128 (indices 16))).
  - reflexivity.
  - reflexivity.
  - repeat constructor; unfold is_byte; lia.
  - repeat constructor; unfold is_byte; lia.
Defined.

(** ** The hash of revision 6 *)

(** What a turn encrypts is made of whole blocks. *)
Lemma whole_blocks n : forall l : list Z, length l = (16 * n)%nat ->
  exists bs, l = concat bs /\ blocks16 bs /\ length bs = n.
Proof.
  induction n as [|n IH]; intros l Hl.
  - destruct l; [by exists []|simpl in Hl; lia].
  - destruct (IH (drop 16 l)) as (bs & Hd & Hb & Hn); [rewrite length_drop; lia|].
    exists (take 16 l :: bs). simpl. rewrite <- Hd, take_drop, Hn. split_and!; auto.
    constructor; [rewrite length_take; lia|done].
Qed.

Lemma length_combined password k userBytes :
  length (combine_repeated password k userBytes) =
  (16 * (4 * length (password ++ k ++ userBytes)))%nat.
Proof.
  unfold combine_repeated. generalize (password ++ k ++ userBytes) as l. intros l.
  assert (H : forall n, length (concat (replicate n l)) = (n * length l)%nat).
  { induction n as [|n IH]; [done|]. simpl. rewrite length_app, IH. lia. }
  rewrite H. lia.
Qed.

(** The condition of the loop holds for at most 287 turns: the last byte of
    [e] is at most 255. *)
Lemma pdf20_turn_bytes password userBytes k :
  Forall is_byte (snd (pdf20_turn password userBytes k)).
Proof.
  unfold pdf20_turn. cbv zeta. cbn [snd].
  destruct (whole_blocks _ _ (length_combined password k userBytes)) as (bs & -> & Hb & _).
  by apply aes_data_bytes.
Qed.

Lemma last_bound e j : Forall is_byte e -> 255 <= j -> jn_lt (Some j) (last e) = false.
Proof.
  intros He Hj. destruct (last e) as [b|] eqn:El; [|done].
  apply last_Some in El as [l ->]. apply Forall_app in He as [_ Hb].
  apply Forall_cons in Hb as [Hb _]. unfold is_byte in Hb. simpl. apply Z.ltb_ge. lia.
Qed.

#[local] Opaque pdf20_turn.

Lemma pdf20_loop_ends fuel fuel' password userBytes k e i :
  Forall is_byte e -> 0 <= i -> 287 <= i + Z.of_nat fuel -> (fuel <= fuel')%nat ->
  exists r, pdf20_loop fuel password userBytes k e i = Ok r /\
    pdf20_loop fuel' password userBytes k e i = Ok r.
Proof.
  revert fuel' k e i. induction fuel as [|fuel IH]; intros fuel' k e i He Hi Hf Hle.
  - assert (Hc : (i <? 64) || jn_lt (Some (i - 32)) (last e) = false).
    { apply orb_false_iff. split; [apply Z.ltb_ge; lia|]. apply last_bound; [done|lia]. }
    exists (subarray k 0 32). destruct fuel'; cbn [pdf20_loop]; by rewrite Hc.
  - destruct fuel' as [|fuel']; [lia|]. cbn [pdf20_loop].
    destruct ((i <? 64) || _); [|by eexists].
    pose proof (pdf20_turn_bytes password userBytes k) as Hb.
    destruct (pdf20_turn password userBytes k) as [k' e']. simpl in Hb. apply IH; auto; lia.
Qed.

(** The hash of revision 6 ends: whatever the password, the data and the
    user bytes, the loop that re-encrypts until the last byte of its output is
    small enough stops before turn 288, so the bound of the model is never
    reached and a larger one changes nothing. *)
Theorem pdf20_hash_terminates password input userBytes fuel (Hfuel : (288 <= fuel)%nat) :
  exists k, pdf_hash PDF20 password input userBytes = Ok k /\
    pdf20_loop fuel password userBytes
      (subarray (calculateSHA256 input 0 (len input)) 0 32) [0] 0 = Ok k.
Proof.
  apply pdf20_loop_ends; [|lia|lia|done]. repeat constructor; unfold is_byte; lia.
Qed.

Lemma pdf20_hash_terminates_witness :
  exists k, pdf_hash PDF20 [112; 119] [1] [] = Ok k /\
    pdf20_loop 300 [112; 119] [] (subarray (calculateSHA256 [1] 0 (len [1])) 0 32) [0] 0 = Ok k.
Proof. apply (pdf20_hash_terminates [112; 119] [1] [] 300). lia. Defined.

(** ** 256-bit encryption *)

Lemma blit_zeros_next (l1 l2 : list Z) n :
  (length l2 <= n)%nat ->
  blit (l1 ++ replicate n 0) l2 (len l1) = l1 ++ l2 ++ replicate (n - length l2) 0.
Proof.
  intros Hn. unfold blit. replace (Z.to_nat (len l1)) with (length l1) by (unfold len; lia).
  rewrite take_app_length, drop_app_add, drop_replicate. done.
Qed.

Lemma user_data_app password salt : length salt = 8%nat -> user_data password salt = password ++ salt.
Proof.
  intros Hs. unfold user_data, zeros.
  replace (replicate _ 0) with ([] ++ replicate (length password + 8) 0)
    by (simpl; f_equal; unfold len; lia).
  change (blit ([] ++ ?l) password 0) with (blit ([] ++ l) password (len (@nil Z))).
  rewrite blit_zeros_next by lia. cbn [app]. rewrite blit_zeros_next by lia.
  replace (length password + 8 - length password - length salt)%nat with 0%nat by lia.
  by rewrite app_nil_r.
Qed.

Lemma owner_data_app password salt u :
  length salt = 8%nat -> length u = 48%nat -> owner_data password salt u = password ++ salt ++ u.
Proof.
  intros Hs Hu. unfold owner_data, zeros.
  replace (replicate _ 0) with ([] ++ replicate (length password + 56) 0)
    by (simpl; f_equal; unfold len; lia).
  change (blit ([] ++ ?l) password 0) with (blit ([] ++ l) password (len (@nil Z))).
  rewrite blit_zeros_next by lia. cbn [app]. rewrite blit_zeros_next by lia.
  rewrite app_assoc, <- len_app. rewrite blit_zeros_next by lia.
  replace (length password + 56 - length password - length salt - length u)%nat with 0%nat by lia.
  by rewrite app_nil_r, <- app_assoc.
Qed.

(** The file key as a document stores it: encrypted with AES-256 in CBC mode,
    no padding, a zero initialisation vector. *)
Definition stored_key (key fileKey : list Z) : list Z :=
  fst (aes_encrypt_data fileKey (Some (zeros 16)) (new_AES256Cipher key)).

Lemma stored_key_decrypts key fileKey :
  length fileKey = 32%nat -> Forall is_byte fileKey ->
  fst (aes_decryptBlock (stored_key key fileKey) false (Some (zeros 16)) (new_AES256Cipher key)) =
  fileKey.
Proof.
  intros Hl Hb. destruct (whole_blocks 2 fileKey Hl) as (bs & -> & H16 & _). unfold stored_key.
  apply aes_decrypt_nopad; [done|]. apply Forall_forall. intros b Hin. split.
  - by apply (proj1 (Forall_forall _ _) H16).
  - apply Forall_forall. intros x Hx. apply (proj1 (Forall_forall _ _) Hb).
    apply list_elem_of_In, in_concat. exists b. split; by apply list_elem_of_In.
Qed.

#[local] Opaque pdf_hash stored_key.

Section Keys20.
Context (revision6 : bool) (fileKey uBytes ovs oks uvs uks : list Z).
Let alg := if revision6 then PDF20 else PDF17.
Hypothesis Hkey : length fileKey = 32%nat /\ Forall is_byte fileKey.
Hypothesis Hu : length uBytes = 48%nat.
Hypothesis Hsalts : Forall (fun salt : list Z => length salt = 8%nat) [ovs; oks; uvs; uks].

Lemma salts : length ovs = 8%nat /\ length oks = 8%nat /\ length uvs = 8%nat /\ length uks = 8%nat.
Proof. pose proof Hsalts as H. rewrite !Forall_cons in H. tauto. Qed.

Lemma user_key_opens pw O UH OE uKey :
  len pw <= 127 ->
  pdf_hash alg pw (pw ++ uvs) [] = Ok UH -> pdf_hash alg pw (pw ++ uks) [] = Ok uKey ->
  createEncryptionKey20 revision6 (Some pw) O ovs oks uBytes UH uvs uks OE
    (stored_key uKey fileKey) tt = (Ok (Some fileKey), tt).
Proof.
  intros Hl Hh Hk. destruct salts as (_ & _ & Hs1 & Hs2). unfold createEncryptionKey20. cbv zeta.
  assert (Hp : subarray pw 0 (Z.min 127 (len pw)) = pw).
  { pose proof (len_nonneg pw). rewrite subarray_in by lia.
    change (Z.to_nat 0) with 0%nat. rewrite drop_0. apply take_ge. unfold len in *. lia. }
  rewrite Hp. unfold checkUserPassword, getUserKey, lift. m_red. fold alg.
  rewrite !user_data_app by done. rewrite Hh, Hk.
  rewrite (proj2 (isArrayEqual_spec _ _)) by done.
  destruct Hkey as [Hkl Hkb]. by rewrite stored_key_decrypts.
Qed.

Lemma owner_key_opens pw OH UP UE uH oKey :
  0 < len pw <= 127 ->
  pdf_hash alg pw (pw ++ uvs) [] = Ok uH -> uH <> UP ->
  pdf_hash alg pw (pw ++ ovs ++ uBytes) uBytes = Ok OH ->
  pdf_hash alg pw (pw ++ oks ++ uBytes) uBytes = Ok oKey ->
  createEncryptionKey20 revision6 (Some pw) OH ovs oks uBytes UP uvs uks (stored_key oKey fileKey)
    UE tt = (Ok (Some fileKey), tt).
Proof.
  intros Hl Hh Hne Ho Hk. destruct salts as (Hs1 & Hs2 & Hs3 & Hs4).
  unfold createEncryptionKey20. cbv zeta.
  assert (Hp : subarray pw 0 (Z.min 127 (len pw)) = pw).
  { rewrite subarray_in by lia.
    change (Z.to_nat 0) with 0%nat. rewrite drop_0. apply take_ge. unfold len in *. lia. }
  rewrite Hp. unfold checkUserPassword, checkOwnerPassword, getOwnerKey, lift. m_red. fold alg.
  rewrite !user_data_app by done. rewrite Hh.
  destruct (isArrayEqual uH UP) eqn:Eu; [by apply isArrayEqual_spec in Eu|]. ztest.
  rewrite !owner_data_app by done. rewrite Ho, Hk.
  rewrite (proj2 (isArrayEqual_spec _ _)) by done.
  destruct Hkey as [Hkl Hkb]. by rewrite stored_key_decrypts.
Qed.
End Keys20.

(** C16. 256-bit encryption, revisions 5 and 6: when a document stores its
    32-byte key encrypted for the user password and for the owner password as
    the format prescribes (each password's validation hash and key hash over
    its salt, the owner's also over the user entry), either password makes
    [#createEncryptionKey20] return that key. *)
Theorem createEncryptionKey20_opens revision6 fileKey uBytes ovs oks uvs uks pw opw UH uKey OH oKey uH'
  (Hkey : length fileKey = 32%nat /\ Forall is_byte fileKey) (Hu : length uBytes = 48%nat)
  (Hsalts : Forall (fun salt : list Z => length salt = 8%nat) [ovs; oks; uvs; uks])
  (Hpw : len pw <= 127) (Hopw : 0 < len opw <= 127) :
  let hash := pdf_hash (if revision6 : bool then PDF20 else PDF17) in
  hash pw (pw ++ uvs) [] = Ok UH -> hash pw (pw ++ uks) [] = Ok uKey ->
  hash opw (opw ++ ovs ++ uBytes) uBytes = Ok OH ->
  hash opw (opw ++ oks ++ uBytes) uBytes = Ok oKey ->
  hash opw (opw ++ uvs) [] = Ok uH' -> uH' <> UH ->
  let create password :=
    createEncryptionKey20 revision6 (Some password) OH ovs oks uBytes UH uvs uks
      (stored_key oKey fileKey) (stored_key uKey fileKey) tt in
  create pw = (Ok (Some fileKey), tt) /\ create opw = (Ok (Some fileKey), tt).
Proof.
  intros hash H1 H2 H3 H4 H5 Hne create. split.
  - by apply user_key_opens.
  - by apply owner_key_opens with uH'.
Qed.

Transparent pdf_hash stored_key aes_decrypt aes_encrypt aes128_expandKey aes256_expandKey.

Lemma createEncryptionKey20_opens_witness :
  let hash := pdf_hash PDF17 in
  let sha l := calculateSHA256 l 0 (len l) in
  let u := indices 48 in
  let create password :=
    createEncryptionKey20 false (Some password) (sha ([111] ++ indices 8 ++ u)) (indices 8) (indices 8) u
      (sha ([117] ++ indices 8)) (indices 8) (indices 8)
      (stored_key (sha ([111] ++ indices 8 ++ u)) (indices 32))
      (stored_key (sha ([117] ++ indices 8)) (indices 32)) tt in
  create [117] = (Ok (Some (indices 32)), tt) /\ create [111] = (Ok (Some (indices 32)), tt).
Proof.
  intros hash sha u. apply (createEncryptionKey20_opens false (indices 32) u (indices 8) (indices 8)
    (indices 8) (indices 8) [117] [111] _ _ _ _ (sha ([111] ++ indices 8))).
  - split; [reflexivity|]. apply indices_bytes. lia.
  - reflexivity.
  - repeat constructor.
  - vm_compute. discriminate.
  - split; [reflexivity|vm_compute; discriminate].
  - reflexivity.
  - reflexivity.
  - reflexivity.
  - reflexivity.
  - reflexivity.
  - vm_compute. discriminate.
Defined.
