(* ===== verification/CryptoLegacy.v ===== *)
(** * Opening documents with 40- to 128-bit encryption

    The algorithms of the standard security handler for revisions 2 to 4 (the
    file key, the owner entry and the user entry of a document) on lists of
    bytes, and the proof that [CipherTransformFactory] opens a document made by
    them, with its user password and with its owner password. *)
From S2P Require Import Prelude JsBits ByteStream DecodeStream Rc4 Decrypt Hash Md5 Primitives.
From S2P Require Import Crypto CryptoSpec.
Local Open Scope js_scope.

(** ** The algorithms of the format *)

Definition md5 (l : list Z) : list Z := calculateMD5 l 0 (len l).

(** The password cut or padded to 32 bytes. *)
Definition pad32 (password : list Z) : list Z := take 32 (password ++ defaultPasswordBytes).

(** A key whose bytes are combined with the number of the pass. *)
Definition xor_key (key : list Z) (j : Z) : list Z := map (fun b => Z.lxor b j) key.

(** The file key. *)
Definition std_file_key (R n : Z) (ownerEntry : list Z) (P : Z) (ID : list Z) (metadata : bool)
    (password : list Z) : list Z :=
  let h := md5 (pad32 password ++ ownerEntry ++ map (word_byte P) (indices 4) ++ ID
                ++ (if (4 <=? R) && negb metadata then replicate 4 255 else [])) in
  let h := if 3 <=? R then Nat.iter 50 (fun h => md5 (take (Z.to_nat n) h)) h else h in
  take (Z.to_nat n) h.

Definition std_owner_key (R n : Z) (ownerPassword : list Z) : list Z :=
  let h := md5 (pad32 ownerPassword) in
  take (Z.to_nat n) (if 3 <=? R then Nat.iter 50 md5 h else h).

(** Twenty passes of RC4 (one before revision 3). *)
Definition std_passes (R : Z) (key data : list Z) : list Z :=
  if 3 <=? R
  then fold_left (fun data j => rc4_once data (xor_key key j)) (indices 20) data
  else rc4_once data key.

Definition std_owner_entry (R n : Z) (ownerPassword userPassword : list Z) : list Z :=
  std_passes R (std_owner_key R n ownerPassword) (pad32 userPassword).

(** The user entry; the last 16 bytes are arbitrary from revision 3 on. *)
Definition std_user_entry (R : Z) (key ID filler : list Z) : list Z :=
  if 3 <=? R then std_passes R key (md5 (defaultPasswordBytes ++ ID)) ++ filler
  else std_passes R key defaultPasswordBytes.

(** ** Lemmas *)

Lemma md5_digest data offset length :
  Forall is_byte (calculateMD5 data offset length) /\ len (calculateMD5 data offset length) = 16.
Proof.
  unfold calculateMD5. destruct (block_loop _ _ _ _ _ _) as [[[h0 h1] h2] h3].
  split; [|done]. unfold md5_bytes. cbn [app].
  repeat (apply Forall_cons; split; [apply is_byte_u8|]). constructor.
Qed.

Lemma copy_data_prefix n data m offset i padded :
  0 <= offset -> offset + Z.of_nat n <= Z.of_nat m ->
  copy_data n (take m data) offset i padded = copy_data n data offset i padded.
Proof.
  revert offset i padded. induction n as [|n IH]; intros offset i padded Ho Hm; [done|].
  cbn [copy_data]. rewrite IH by lia. do 3 f_equal. unfold arr_get. ztest.
  apply lookup_take_lt. lia.
Qed.

Lemma calculateMD5_prefix data n :
  0 <= n <= len data -> calculateMD5 data 0 n = md5 (take (Z.to_nat n) data).
Proof.
  intros Hn. unfold md5. replace (len (take (Z.to_nat n) data)) with n by (rewrite len_take; lia).
  unfold calculateMD5. assert (H : md5_padded data 0 n = md5_padded (take (Z.to_nat n) data) 0 n).
  { unfold md5_padded. by rewrite copy_data_prefix by lia. }
  by rewrite H.
Qed.

Lemma rc4_once_length data key : length (rc4_once data key) = length data.
Proof.
  unfold rc4_once. generalize (new_ARCFourCipher key) as c.
  induction data as [|d data IH]; intros c; [done|].
  cbn [rc4_encryptBlock]. destruct (rc4_byte c d) as [o c1]. specialize (IH c1).
  destruct (rc4_encryptBlock c1 data). simpl in *. congruence.
Qed.

#[local] Opaque calculateMD5 rc4_once.

Lemma padded_password_pad32 pw : padded_password pw = pad32 pw.
Proof.
  unfold padded_password, pad32. pose proof (len_nonneg pw).
  rewrite take_app, !subarray_in by (change (len defaultPasswordBytes) with 32; lia).
  change (Z.to_nat 0) with 0%nat. rewrite !drop_0. rewrite !Z.sub_0_r.
  destruct (Z.le_gt_cases 32 (len pw)).
  - rewrite Z.min_l by lia. f_equal. f_equal. unfold len in *. lia.
  - rewrite Z.min_r by lia. rewrite !(take_ge pw) by (unfold len in *; lia). f_equal. f_equal.
    unfold len. lia.
Qed.

Lemma len_pad32 pw : len (pad32 pw) = 32.
Proof.
  unfold pad32. rewrite len_take, len_app. change (len defaultPasswordBytes) with 32.
  pose proof (len_nonneg pw). lia.
Qed.

Lemma pad32_pad32 pw : pad32 (pad32 pw) = pad32 pw.
Proof. unfold pad32 at 1. apply take_app_length'. pose proof (len_pad32 pw). unfold len in *. lia. Qed.

Lemma default_bytes : Forall is_byte defaultPasswordBytes.
Proof. repeat constructor; unfold is_byte; lia. Qed.

Lemma pad32_bytes pw : Forall is_byte pw -> Forall is_byte (pad32 pw).
Proof. intros H. apply Forall_take, Forall_app. split; [done|apply default_bytes]. Qed.

Lemma flag_bytes_le P : flag_bytes P = map (word_byte P) (indices 4).
Proof.
  unfold flag_bytes. change (indices 4) with [0; 1; 2; 3]. cbn [map].
  change (P .>> 8) with (P .>> 8 * 1). change (P .>> 16) with (P .>> 8 * 2).
  change (P .>>> 24) with (P .>>> 8 * 3).
  rewrite !(sar_byte P P), (shr_byte P P), js_and_255 by (reflexivity || lia).
  unfold word_byte at 4. change (2 ^ (8 * 0)) with 1. by rewrite Z.div_1_r.
Qed.

Lemma map_at_indices l : map (at_ l) (indices (len l)) = l.
Proof.
  unfold indices. replace (Z.to_nat (len l)) with (length l) by (unfold len; lia).
  apply list_eq_same_length with (length l); [done|by rewrite !length_map, length_seq|].
  intros i x y Hi Hx Hy. rewrite list_lookup_fmap, list_lookup_fmap, lookup_seq_lt in Hx by lia.
  injection Hx as <-. unfold at_, arr_get, compose. ztest. simpl. by rewrite Nat2Z.id, Hy.
Qed.

Lemma derived_key_xor key j :
  Forall is_byte key -> is_byte j -> derived_key (len key) key j = xor_key key j.
Proof.
  intros Hk Hj. unfold derived_key, xor_key.
  transitivity (map (fun b => Z.lxor b j) (map (at_ key) (indices (len key))));
    [rewrite map_map|by rewrite map_at_indices]. apply map_ext_in. intros k Hin. apply js_xor_byte; [by apply at_byte|done].
Qed.

Lemma derived_key_take n key j :
  0 <= n <= len key -> Forall is_byte key -> is_byte j ->
  derived_key n key j = xor_key (take (Z.to_nat n) key) j.
Proof.
  intros Hn Hk Hj. assert (Hl : len (take (Z.to_nat n) key) = n) by (rewrite len_take; lia).
  rewrite <- derived_key_xor by (try apply Forall_take; done). rewrite Hl.
  unfold derived_key. apply map_ext_in. intros k Hin.
  apply in_map_iff in Hin as (k' & <- & Hk'). apply in_seq in Hk'.
  do 2 f_equal. unfold at_, arr_get. ztest. f_equal. symmetry. apply lookup_take_lt. lia.
Qed.

Lemma xor_key_0 key : xor_key key 0 = key.
Proof. unfold xor_key. erewrite map_ext; [apply map_id|]. intros. apply Z.lxor_0_r. Qed.

Lemma fold_left_ext_in {A B} (f g : A -> B -> A) l a :
  (forall x y, In y l -> f x y = g x y) -> fold_left f l a = fold_left g l a.
Proof.
  revert a. induction l as [|b l IH]; intros a H; [done|]. simpl in *. rewrite H by auto. auto.
Qed.

(** ** The passes undone *)

Lemma passes_bytes key js data :
  Forall is_byte data -> Forall is_byte (fold_left (fun d j => rc4_once d (xor_key key j)) js data).
Proof.
  revert data. induction js as [|j js IH]; intros data Hd; [done|]. apply IH. by apply rc4_once_bytes.
Qed.

Lemma passes_undone key js data :
  Forall is_byte data ->
  fold_left (fun d j => rc4_once d (xor_key key j)) (rev js)
    (fold_left (fun d j => rc4_once d (xor_key key j)) js data) = data.
Proof.
  revert data. induction js as [|j js IH]; intros data Hd; [done|].
  cbn [fold_left rev]. rewrite fold_left_app, IH by (by apply rc4_once_bytes). cbn [fold_left].
  by apply rc4_once_involutive.
Qed.

Lemma std_passes_bytes R key data : Forall is_byte data -> Forall is_byte (std_passes R key data).
Proof.
  intros Hd. unfold std_passes. case_bool; [by apply passes_bytes|by apply rc4_once_bytes].
Qed.

Lemma std_passes_length R key data : length (std_passes R key data) = length data.
Proof.
  unfold std_passes. case_bool; [|apply rc4_once_length].
  generalize (indices 20) as js. intros js. revert data.
  induction js as [|j js IH]; intros data; [done|]. cbn [fold_left]. by rewrite IH, rc4_once_length.
Qed.

Lemma num_ge_int R k : num_ge (Some (NInt R)) k = (k <=? R).
Proof. done. Qed.

Lemma keyLength_shift n : 0 <= n < 2 ^ 28 -> (8 * n) .>> 3 = n.
Proof.
  intros Hn. unfold js_sar. rewrite to_int32_small by lia. change (3 mod 32) with 3.
  rewrite Z.shiftr_div_pow2 by lia. change (2 ^ 3) with 8. rewrite Z.mul_comm. by apply Z.div_mul.
Qed.

Lemma iter_md5_digest k f h :
  (forall h, exists l, f h = md5 l) -> (exists l, h = md5 l) -> exists l, Nat.iter k f h = md5 l.
Proof. intros Hf Hh. induction k; simpl; auto. Qed.

Lemma owner_hash_digest R pw :
  exists l, (if 3 <=? R then Nat.iter 50 md5 (md5 (pad32 pw)) else md5 (pad32 pw)) = md5 l.
Proof. case_bool; [apply iter_md5_digest; eauto|eauto]. Qed.

(** [#decodeUserPassword] undoes the making of the owner entry. *)
Lemma decode_owner_entry R n opw upw :
  0 <= n <= 16 -> Forall is_byte upw ->
  decodeUserPassword opw (std_owner_entry R n opw upw) (Some (NInt R)) (8 * n) = pad32 upw.
Proof.
  intros Hn Hu. unfold decodeUserPassword, std_owner_entry. cbv zeta.
  rewrite keyLength_shift, !num_ge_int, padded_password_pad32 by lia.
  assert (Hm : calculateMD5 (pad32 opw) 0 32 = md5 (pad32 opw)).
  { unfold md5. by rewrite len_pad32. }
  rewrite Hm. change (Nat.iter 50 (fun hash => calculateMD5 hash 0 (len hash))) with (Nat.iter 50 md5).
  unfold std_owner_key. set (h := if 3 <=? R then _ else md5 (pad32 opw)).
  destruct (owner_hash_digest R opw) as [l Hl]. fold h in Hl.
  destruct (md5_digest l 0 (len l)) as [Hb Hlen]. fold (md5 l) in Hb, Hlen. rewrite <- Hl in Hb, Hlen.
  pose proof (pad32_bytes upw Hu) as Hup. unfold std_passes.
  destruct (3 <=? R) eqn:HR; unfold h in *; rewrite ?HR in *.
  - change (map (fun k => 19 - k) (indices 20)) with (rev (indices 20)).
    set (hash := Nat.iter 50 md5 _) in *.
    rewrite (fold_left_ext_in _ (fun d j => rc4_once d (xor_key (take (Z.to_nat n) hash) j))).
    + by apply passes_undone.
    + intros d j Hj. f_equal. apply in_rev in Hj. apply derived_key_take; [lia|done|].
      by apply (proj1 (List.Forall_forall _ _) (indices_bytes 20 ltac:(lia))).
  - rewrite subarray_in by lia. change (Z.to_nat 0) with 0%nat. rewrite drop_0, Z.sub_0_r.
    by apply rc4_once_involutive.
Qed.

(** ** The key of a password *)

(** [hashData] once filled. *)
Lemma blit_next (l1 l2 l3 src : list Z) :
  length src = length l2 -> blit (l1 ++ l2 ++ l3) src (len l1) = (l1 ++ src) ++ l3.
Proof.
  intros Hl. unfold blit. replace (Z.to_nat (len l1)) with (length l1) by (unfold len; lia).
  rewrite take_app_length, Hl, drop_app_add, drop_app_length. by rewrite app_assoc.
Qed.

Lemma blit_start (l2 l3 src : list Z) : length src = length l2 -> blit (l2 ++ l3) src 0 = src ++ l3.
Proof. apply (blit_next []). Qed.

Lemma zeros_len_app (l1 : list Z) m :
  0 <= m -> exists l2, zeros (len l1 + m) = l2 ++ zeros m /\ length l2 = length l1.
Proof.
  intros Hm. exists (zeros (len l1)). rewrite zeros_app by (try apply len_nonneg; lia).
  split; [done|]. unfold zeros. rewrite length_replicate. unfold len. lia.
Qed.

(** Four arrays set one after the other at the front of a zero array. *)
Lemma blit_four (a b c d : list Z) m :
  0 <= m ->
  blit (blit (blit (blit (zeros (len a + (len b + (len c + (len d + m))))) a 0) b (len a)) c
    (len a + len b)) d (len a + len b + len c) = (a ++ b ++ c ++ d) ++ zeros m.
Proof.
  intros Hm. pose proof (len_nonneg a). pose proof (len_nonneg b). pose proof (len_nonneg c).
  pose proof (len_nonneg d).
  destruct (zeros_len_app a (len b + (len c + (len d + m)))) as (za & -> & Ha); [lia|].
  rewrite blit_start by done.
  destruct (zeros_len_app b (len c + (len d + m))) as (zb & -> & Hb); [lia|].
  rewrite (blit_next a zb) by done.
  destruct (zeros_len_app c (len d + m)) as (zc & -> & Hc); [lia|].
  rewrite <- (len_app a b), (blit_next (a ++ b) zc) by done.
  destruct (zeros_len_app d m) as (zd & -> & Hd); [lia|].
  rewrite <- (len_app (a ++ b) c), (blit_next ((a ++ b) ++ c) zd) by done.
  by rewrite <- !app_assoc.
Qed.

Lemma fill_tail (l : list Z) : fill (l ++ zeros 4) 255 (len l) (len l + 4) = l ++ replicate 4 255.
Proof.
  pose proof (len_nonneg l). unfold fill, rel_index. rewrite len_app, len_zeros by lia.
  repeat ztest. rewrite !Z.min_l by lia. repeat ztest.
  replace (len l + 4 - len l) with 4 by lia. change (Z.to_nat 4) with 4%nat.
  rewrite <- (app_nil_r (zeros 4)), (blit_next l (zeros 4) []) by done. apply app_nil_r.
Qed.

Lemma forallb_user_check c r :
  forallb (fun k => jn_is (arr_get (c ++ r) k) (at_ c k)) (indices (len c)) = true.
Proof.
  apply forallb_forall. intros k Hk. apply in_map_iff in Hk as (i & <- & Hi). apply in_seq in Hi.
  assert (Hlt : (i < length c)%nat) by (unfold len in Hi; lia).
  unfold at_, arr_get. ztest. rewrite Nat2Z.id, lookup_app_l by done.
  destruct (lookup_lt_is_Some_2 c i Hlt) as [v ->]. simpl. apply Z.eqb_refl.
Qed.

Section FileKey.
Context (R n P : Z) (O ID : list Z) (metadata : bool) (password filler : list Z).
Hypothesis HR : 2 <= R.
Hypothesis Hn : 0 <= n <= 16.
Hypothesis HO : length O = 32%nat.

Let key := std_file_key R n O P ID metadata password.

Lemma file_key_hash : exists l, length key = Z.to_nat n /\ Forall is_byte key /\
  key = take (Z.to_nat n) (md5 l).
Proof.
  unfold key, std_file_key. cbv zeta. set (h0 := md5 (pad32 password ++ _)).
  assert (H : exists l,
    (if 3 <=? R then Nat.iter 50 (fun h => md5 (take (Z.to_nat n) h)) h0 else h0) = md5 l).
  { case_bool; [apply iter_md5_digest; unfold h0; eauto|unfold h0; eauto]. }
  destruct H as [l ->]. exists l. destruct (md5_digest l 0 (len l)) as [Hb Hl].
  fold (md5 l) in Hb, Hl. split_and!; auto; [|by apply Forall_take].
  rewrite length_take. unfold len in Hl. lia.
Qed.

(** The message hashed first. *)
Definition key_message : list Z :=
  pad32 password ++ O ++ map (word_byte P) (indices 4) ++ ID
  ++ (if (4 <=? R) && negb metadata then replicate 4 255 else []).

Lemma key_hash_data_message :
  exists rest, key_hash_data ID (Some password) O P (Some (NInt R)) metadata =
    (key_message ++ rest, len key_message).
Proof.
  pose proof (len_nonneg ID) as HID. assert (HlO : len O = 32) by (unfold len; lia).
  unfold key_hash_data, key_message. cbv zeta.
  rewrite num_ge_int, padded_password_pad32, <- flag_bytes_le. cbn [default from_option id].
  set (pw := pad32 password). assert (Hpw : len pw = 32) by apply len_pad32.
  set (fl := flag_bytes P). assert (Hfl : len fl = 4) by done.
  replace (40 + len O + len ID) with (len pw + (len O + (len fl + (len ID + 4)))) by lia.
  replace (blit (blit (blit (blit _ pw 0) O 32) fl (32 + len O)) ID (32 + len O + 4))
    with ((pw ++ O ++ fl ++ ID) ++ zeros 4).
  - replace (32 + len O + 4 + len ID) with (len (pw ++ O ++ fl ++ ID)) by (rewrite !len_app; lia).
    destruct ((4 <=? R) && negb metadata).
    + exists []. rewrite fill_tail, app_nil_r. rewrite !(app_assoc _ _ (replicate 4 255)).
      rewrite <- !app_assoc. f_equal. rewrite !len_app, len_replicate. lia.
    + exists (zeros 4). by rewrite app_nil_r.
  - rewrite <- (blit_four pw O fl ID 4) by lia. rewrite Hpw. do 2 f_equal; lia.
Qed.

Lemma iter_prefix k l :
  Nat.iter k (fun hash => calculateMD5 hash 0 n) (md5 l) =
  Nat.iter k (fun h => md5 (take (Z.to_nat n) h)) (md5 l).
Proof.
  induction k as [|k IH]; [done|]. rewrite !Nat.iter_succ, IH.
  destruct (iter_md5_digest k (fun h => md5 (take (Z.to_nat n) h)) (md5 l)) as [l' ->]; [eauto..|].
  apply calculateMD5_prefix. destruct (md5_digest l' 0 (len l')) as [_ Hl]. unfold md5. lia.
Qed.

Lemma check_data_passes rest k :
  Forall is_byte k ->
  check_data ID (Some (NInt R)) (key_message ++ rest) k =
  std_passes R k (if 3 <=? R then md5 (defaultPasswordBytes ++ ID) else defaultPasswordBytes).
Proof.
  intros Hk. unfold check_data, std_passes. rewrite num_ge_int.
  destruct (3 <=? R); [|done]. cbv zeta. pose proof (len_nonneg ID) as HID.
  assert (Hmsg : exists m1 m2 m3, key_message ++ rest = m1 ++ m2 ++ m3 /\
    length m1 = 32%nat /\ length m2 = length ID).
  { pose proof (len_pad32 password) as Hpw.
    assert (HlO : (length ID <= length (O ++ map (word_byte P) (indices 4) ++ ID))%nat)
      by (rewrite !length_app; lia).
    exists (pad32 password). unfold key_message. rewrite <- app_assoc.
    set (t := (O ++ _) ++ rest). exists (take (length ID) t), (drop (length ID) t).
    rewrite take_drop. split_and!; [done|unfold len in Hpw; lia|].
    rewrite length_take. unfold t. rewrite !length_app in *. lia. }
  destruct Hmsg as (m1 & m2 & m3 & -> & Hm1 & Hm2).
  rewrite blit_start by (by rewrite Hm1). replace 32 with (len defaultPasswordBytes) at 1 by done.
  rewrite blit_next by done.
  rewrite calculateMD5_prefix by (rewrite !len_app; change (len defaultPasswordBytes) with 32;
    pose proof (len_nonneg m3); lia).
  rewrite take_app_length' by (rewrite length_app; unfold len; simpl; lia).
  change (indices 20) with (0 :: range 1 20). cbn [fold_left]. rewrite xor_key_0.
  apply fold_left_ext_in. intros d j Hj. f_equal. apply derived_key_xor; [done|].
  apply in_map_iff in Hj as (j' & <- & Hj). apply in_map_iff in Hj as (j'' & <- & Hj).
  apply in_seq in Hj. unfold is_byte. lia.
Qed.

(** [#prepareKeyData] returns the file key when the user entry is the one the
    key gives. *)
Lemma prepareKeyData_key :
  prepareKeyData ID (Some password) O (subarray (std_user_entry R key ID filler) 0 32) P
    (Some (NInt R)) (8 * n) metadata = Some key.
Proof.
  destruct key_hash_data_message as (rest & Hd). unfold prepareKeyData. rewrite Hd.
  cbv zeta. rewrite num_ge_int, keyLength_shift by lia.
  rewrite calculateMD5_prefix by (rewrite len_app; pose proof (len_nonneg rest);
    pose proof (len_nonneg key_message); lia).
  rewrite take_app_length' by (unfold len; lia). rewrite iter_prefix.
  assert (Hkey : key = subarray (if 3 <=? R
    then Nat.iter 50 (fun h => md5 (take (Z.to_nat n) h)) (md5 key_message)
    else md5 key_message) 0 n).
  { unfold key, std_file_key. fold key_message. cbv zeta.
    destruct file_key_hash as (l & _). set (h := if 3 <=? R then _ else _).
    assert (Hh : exists l, h = md5 l) by (unfold h; case_bool; [apply iter_md5_digest; eauto|eauto]).
    destruct Hh as [l' Hh]. destruct (md5_digest l' 0 (len l')) as [_ Hl']. fold (md5 l') in Hl'.
    rewrite <- Hh in Hl'. rewrite subarray_in by lia. change (Z.to_nat 0) with 0%nat.
    by rewrite drop_0, Z.sub_0_r. }
  rewrite <- Hkey. destruct file_key_hash as (_ & _ & Hkb & _).
  rewrite check_data_passes by done.
  set (c := std_passes R key _).
  assert (Hc : exists r, subarray (std_user_entry R key ID filler) 0 32 = c ++ r).
  { assert (Hlc : (length c <= 32)%nat).
    { unfold c. rewrite std_passes_length. case_bool; [|by vm_compute; lia].
      destruct (md5_digest (defaultPasswordBytes ++ ID) 0 (len (defaultPasswordBytes ++ ID))) as [_ Hl].
      unfold md5, len in *. lia. }
    assert (He : exists f, std_user_entry R key ID filler = c ++ f).
    { unfold std_user_entry, c. destruct (3 <=? R); [by exists filler|]. exists []. by rewrite app_nil_r. }
    destruct He as [f ->]. exists (take (32 - length c) f). unfold subarray, rel_index.
    pose proof (len_nonneg (c ++ f)). repeat ztest. rewrite (Z.min_l 0) by lia.
    destruct (Z.le_gt_cases 32 (len (c ++ f))).
    - rewrite Z.min_l by lia. change (Z.to_nat (32 - 0)) with 32%nat.
      change (Z.to_nat 0) with 0%nat. rewrite drop_0, take_app. by rewrite take_ge.
    - rewrite Z.min_r by lia. change (Z.to_nat 0) with 0%nat.
      rewrite drop_0, take_ge by (unfold len; lia). f_equal. symmetry. apply take_ge.
      rewrite len_app in *. unfold len in *. lia. }
  destruct Hc as [r ->]. by rewrite forallb_user_check.
Qed.
End FileKey.

(** ** A document made by the algorithms *)

(** The encryption dictionary of a document. *)
Definition standard_dict (V R n P : Z) (O U : list Z) : Dict :=
  mkDict [(js "Filter", OName (js "Standard")); (js "V", OInt V); (js "R", OInt R);
          (js "Length", OInt (8 * n)); (js "P", OInt P); (js "O", OStr O); (js "U", OStr U)]
    true false.

Definition is_ref (v : value) : bool := match v with Some (ORef _ _) => true | _ => false end.

(** Steps of a method, at the head of the goal. *)
Lemma run_bind {S A B} (Q : res B * S -> Prop) (m : M S A) (k : A -> M S B) s s' a :
  m s = (Ok a, s') -> Q (k a s') -> Q (mbind m k s).
Proof. intros Hm Hk. unfold mbind. by rewrite Hm. Qed.

(** The method returns a value with a property. *)
Definition returns {A} (Q : A -> Prop) (r : res A * unit) : Prop :=
  exists a, r = (Ok a, tt) /\ Q a.

Lemma run_dget fetch d key v s :
  getRaw d key = v -> is_ref v = false -> dget fetch d key s = (Ok v, s).
Proof.
  intros Hv Hr. unfold dget, lift, dict_get, dict_get2, resolve. rewrite Hv. destruct v as [[]|]; done.
Qed.

(** The key as the factory keeps it: at least 16 bytes with crypt filters. *)
Definition kept_key (V : Z) (key : list Z) : list Z :=
  if (V =? 4) && (len key <? 16) then blit (zeros 16) key 0 else key.

(** The key of a password in such a document. *)
Definition std_prepare (V R n P : Z) (ID O U : list Z) (password : option (list Z))
    : option (list Z) :=
  prepareKeyData ID password O (subarray U 0 32) P (Some (NInt R)) (8 * n) (V =? 4).

Section Opening.
Context (fetch : Z -> Z -> bool -> res value) (ToNumber : obj -> option num) (normalize : jstr -> jstr).
Context (V R n P : Z) (ID O U : list Z).
Hypothesis HVR : (V = 1 /\ R = 2) \/ (V = 2 /\ R = 3) \/ (V = 4 /\ R = 4).
Hypothesis Hn : 5 <= n <= 16.
Hypothesis HID : Forall is_byte ID.
Hypothesis HO : length O = 32%nat /\ Forall is_byte O.
Hypothesis HU : Forall is_byte U.

(** Evaluate the next read of the dictionary. *)
Ltac read_entry :=
  simple eapply (run_bind (returns _));
    [simple eapply run_dget; [vm_compute; reflexivity|reflexivity]|]; cbv beta.

Lemma valid_key_length : valid_keyLength (Some (OInt (8 * n))) = Some (8 * n).
Proof.
  unfold valid_keyLength, as_integer, OInt. cbn [num_int].
  rewrite (proj2 (Z.ltb_ge (8 * n) 40)) by lia.
  by rewrite (Z.mul_comm 8 n), Z_mod_mult.
Qed.

Lemma key_length_read dict algorithm :
  getRaw dict (js "Length") = Some (OInt (8 * n)) ->
  key_length fetch ToNumber dict algorithm tt = (Ok (Some (OInt (8 * n))), tt).
Proof.
  intros Hd. unfold key_length.
  apply (run_bind (fun r => r = _) _ _ tt tt (Some (OInt (8 * n)))); [by apply run_dget|].
  cbv beta. assert (Ht : truthy (Some (OInt (8 * n))) = true).
  { unfold truthy, OInt. by rewrite (proj2 (Z.eqb_neq (8 * n) 0)) by lia. }
  by rewrite Ht.
Qed.

Lemma read_string s : string_bytes (Some (OStr s)) tt = (Ok (stringToBytes s), tt).
Proof. reflexivity. Qed.

Lemma owner_password_read : subarray (stringToBytes O) 0 32 = O.
Proof.
  destruct HO as [Hl Hb]. rewrite stringToBytes_id by done.
  rewrite subarray_in by (unfold len; lia). change (Z.to_nat 0) with 0%nat. rewrite drop_0.
  apply take_ge. rewrite Hl. by vm_compute.
Qed.

Lemma plain_passwords password revision :
  Forall is_byte password -> R <> 6 -> V <> 5 -> revision = Some (OInt R) ->
  password_bytes normalize password revision V =
  (if len password =? 0 then None else Some password, None).
Proof.
  intros Hpw HR HV ->. unfold password_bytes, OInt. destruct (len password =? 0); [done|].
  cbn [num_is]. rewrite (proj2 (Z.eqb_neq R 6)), (proj2 (Z.eqb_neq V 5)) by lia.
  by rewrite stringToBytes_id.
Qed.

(** The constructor when some key is found. *)
Lemma factory_opens (password : jstr) (key : list Z) :
  Forall is_byte password ->
  (std_prepare V R n P ID O U (if len password =? 0 then None else Some password) = Some key \/
   len password <> 0 /\ std_prepare V R n P ID O U (Some password) = None /\
   std_prepare V R n P ID O U
     (Some (decodeUserPassword password O (Some (NInt R)) (8 * n))) = Some key) ->
  returns (fun f => f_encryptionKey f = Some (kept_key V key) /\ f_algorithm f = V)
    (new_CipherTransformFactory fetch ToNumber normalize (standard_dict V R n P O U) ID password tt).
Proof.
  intros Hpw Hkey. unfold new_CipherTransformFactory.
  assert (HV : supported_algorithm (Some (OInt V)) = Some V).
  { unfold supported_algorithm, as_integer, OInt. cbn [num_int].
    by destruct HVR as [[-> _]|[[-> _]|[-> _]]]. }
  read_entry. change (isName _ (js "Standard")) with true. cbn [negb].
  read_entry. change (supported_algorithm _) with (supported_algorithm (Some (OInt V))). rewrite HV.
  simple eapply (run_bind (returns _)); [by apply key_length_read|]. cbv beta.
  rewrite valid_key_length. cbv zeta.
  match goal with |- returns _ (mbind ?m _ tt) =>
    assert (Hm : exists t, m tt = (Ok t, tt)) by (destruct (4 <=? V); eexists; reflexivity) end.
  destruct Hm as [[[[cf stmf] strf] eff] Hm]. simple eapply (run_bind (returns _)); [exact Hm|]. clear Hm.
  cbv beta iota. read_entry. simple eapply (run_bind (returns _)); [apply read_string|]. cbv beta.
  read_entry. simple eapply (run_bind (returns _)); [apply read_string|]. cbv beta.
  read_entry. read_entry.
  match goal with |- returns _ (mbind ?m _ tt) =>
    assert (Hm : exists t, m tt = (Ok t, tt) /\
      match t with Some (OBool false) => false | _ => true end = (V =? 4))
      by (destruct HVR as [[-> _]|[[-> _]|[-> _]]]; eexists; (split; [reflexivity|done])) end.
  destruct Hm as (EM & Hm & HEM). simple eapply (run_bind (returns _)); [exact Hm|]. clear Hm. cbv beta.
  rewrite HEM, owner_password_read, !(stringToBytes_id ID), !(stringToBytes_id U) by done.
  rewrite plain_passwords by (done || lia).
  assert (HP : to_int ToNumber (Some (ONum (NInt P))) = P) by done. rewrite HP.
  cbn [to_number]. unfold first_key. rewrite (proj2 (Z.eqb_neq V 5)) by lia. cbv zeta. cbn [negb].
  rewrite owner_password_read. cbn [to_number]. simple eapply (run_bind (returns _)); [reflexivity|].
  cbv beta. unfold std_prepare in Hkey. destruct Hkey as [-> | (Hne & Hnone & Hkey)].
  - eexists. split; [reflexivity|done].
  - rewrite (proj2 (Z.eqb_neq (len password) 0)), Hnone, Hkey by done. eexists. split; [reflexivity|done].
Qed.
End Opening.

(** C13. The standard security handler, revisions 2, 3 and 4 with keys of 40 to
    128 bits: a document whose owner entry and user entry were made by the
    format's algorithms opens with its user password (the empty one included)
    and with its owner password, and the factory then holds the file key the
    format defines.  (An owner password that happens to pass as the user
    password is excluded: the code tries it as such first.) *)
Theorem standard_handler_opens fetch ToNumber normalize V R n P ID opw upw filler
  (HVR : (V = 1 /\ R = 2) \/ (V = 2 /\ R = 3) \/ (V = 4 /\ R = 4)) (Hn : 5 <= n <= 16)
  (HID : Forall is_byte ID) (Hupw : Forall is_byte upw) (Hopw : Forall is_byte opw)
  (Hopw0 : opw <> []) (Hfiller : Forall is_byte filler) :
  let O := std_owner_entry R n opw upw in
  let key := std_file_key R n O P ID (V =? 4) upw in
  let U := std_user_entry R key ID filler in
  std_prepare V R n P ID O U (Some opw) = None ->
  let opens password :=
    exists f, new_CipherTransformFactory fetch ToNumber normalize (standard_dict V R n P O U) ID
        password tt = (Ok f, tt) /\
      f_encryptionKey f = Some (kept_key V key) /\ f_algorithm f = V in
  opens upw /\ opens opw.
Proof.
  intros O key U Hnone.
  assert (HO : length O = 32%nat /\ Forall is_byte O).
  { unfold O, std_owner_entry. rewrite std_passes_length. split.
    - pose proof (len_pad32 upw). unfold len in *. lia.
    - by apply std_passes_bytes, pad32_bytes. }
  assert (HU : Forall is_byte U).
  { unfold U, std_user_entry. case_bool.
    - apply Forall_app. split; [|done]. apply std_passes_bytes, md5_digest.
    - apply std_passes_bytes, default_bytes. }
  assert (Hup : std_prepare V R n P ID O U (Some upw) = Some key).
  { apply prepareKeyData_key; [lia|apply HO]. }
  split; apply factory_opens; auto.
  - left. destruct (Z.eqb_spec (len upw) 0) as [Hz|]; [|done].
    destruct upw; [exact Hup|unfold len in Hz; simpl in Hz; lia].
  - right. split; [destruct opw; [done|unfold len; simpl; lia]|]. split; [done|].
    unfold O at 2. rewrite decode_owner_entry by (done || lia).
    rewrite <- Hup. unfold std_prepare, prepareKeyData, key_hash_data.
    cbn [default from_option id]. by rewrite !padded_password_pad32, pad32_pad32.
Qed.

Lemma standard_handler_opens_witness :
  let O := std_owner_entry 3 16 [111] [117] in
  let key := std_file_key 3 16 O (-4) [1; 2] false [117] in
  let U := std_user_entry 3 key [1; 2] (zeros 16) in
  let opens password :=
    exists f, new_CipherTransformFactory (fun _ _ _ => Ok None) (fun _ => None) (fun s => s)
        (standard_dict 2 3 16 (-4) O U) [1; 2] password tt = (Ok f, tt) /\
      f_encryptionKey f = Some (kept_key 2 key) /\ f_algorithm f = 2 in
  opens [117] /\ opens [111].
Proof.
  apply (standard_handler_opens (fun _ _ _ => Ok None) (fun _ => None) (fun s => s) 2 3 16 (-4) [1; 2]
    [111] [117] (zeros 16)).
  - lia.
  - lia.
  - repeat constructor; unfold is_byte; lia.
  - repeat constructor; unfold is_byte; lia.
  - repeat constructor; unfold is_byte; lia.
  - discriminate.
  - repeat constructor; unfold is_byte; lia.
  - vm_compute. reflexivity.
Defined.
