(* ===== verification/Lexer.v ===== *)
(** * The lexer

    [Lexer] of pdf.worker.mjs over any byte stream, with [escapePDFName] and
    [escapeString], which print what it reads.  The lexer always holds the
    character after the token it returned.  A number is computed with
    doubles, digit by digit, as the code does.  A read of [undefined], which only
    a [Stream] longer than its bytes gives, is outside the model;
    warnings are left out. *)
From Stdlib Require Import SpecFloat.
From S2P Require Import Prelude ByteStream DecodeStream Ascii85 Number64 Primitives.
Local Open Scope js_scope.

(** The position of a stream ([stream.pos]), read and set by its users. *)
Class Seekable (S : Type) := { tell : S -> Z; seek : Z -> S -> S }.
#[export] Instance Stream_seekable : Seekable Stream := { tell := s_pos; seek := set_pos }.
#[export] Instance DS_seekable {S X} : Seekable (DS S X) := { tell := pos; seek := set_dpos }.

(** ** Printing *)

Definition hex_char (d : Z) : Z := if d <? 10 then 0x30 + d else 0x61 + (d - 10).

(** [char.toString(16).padStart(2, "0")] of a code unit below 256. *)
Definition hex2 (c : Z) : jstr := [hex_char (c / 16); hex_char (c mod 16)].
(** [char.toString(16)] of a larger one. *)
Definition hex_units (c : Z) : jstr :=
  if c <? 0x100 then hex2 c
  else if c <? 0x1000 then [hex_char (c / 0x100); hex_char (c / 16 mod 16); hex_char (c mod 16)]
  else [hex_char (c / 0x1000); hex_char (c / 0x100 mod 16); hex_char (c / 16 mod 16); hex_char (c mod 16)].

Definition name_escaped (char : Z) : bool :=
  (char <? 0x21) || (0x7e <? char) ||
  bool_decide (char ∈ [0x23; 0x28; 0x29; 0x3c; 0x3e; 0x5b; 0x5d; 0x7b; 0x7d; 0x2f; 0x25]).

Definition escapePDFName (str : jstr) : jstr :=
  flat_map (fun char => if name_escaped char then 0x23 :: hex_units char else [char]) str.

Definition escapeString (str : jstr) : jstr :=
  flat_map (fun c =>
    if c =? 0x0a then [0x5c; 0x6e]
    else if c =? 0x0d then [0x5c; 0x72]
    else if (c =? 0x28) || (c =? 0x29) || (c =? 0x5c) then [0x5c; c]
    else [c]) str.

(** ** Reading *)

Definition specialChars : list Z := [
  1; 0; 0; 0; 0; 0; 0; 0; 0; 1; 1; 0; 1; 1; 0; 0; 0; 0; 0; 0; 0; 0; 0; 0; 0; 0; 0; 0; 0; 0; 0; 0;
  1; 0; 0; 0; 0; 2; 0; 0; 2; 2; 0; 0; 0; 0; 0; 2; 0; 0; 0; 0; 0; 0; 0; 0; 0; 0; 0; 0; 2; 0; 2; 0;
  0; 0; 0; 0; 0; 0; 0; 0; 0; 0; 0; 0; 0; 0; 0; 0; 0; 0; 0; 0; 0; 0; 0; 0; 0; 0; 0; 2; 0; 2; 0; 0;
  0; 0; 0; 0; 0; 0; 0; 0; 0; 0; 0; 0; 0; 0; 0; 0; 0; 0; 0; 0; 0; 0; 0; 0; 0; 0; 0; 2; 0; 2; 0; 0;
  0; 0; 0; 0; 0; 0; 0; 0; 0; 0; 0; 0; 0; 0; 0; 0; 0; 0; 0; 0; 0; 0; 0; 0; 0; 0; 0; 0; 0; 0; 0; 0;
  0; 0; 0; 0; 0; 0; 0; 0; 0; 0; 0; 0; 0; 0; 0; 0; 0; 0; 0; 0; 0; 0; 0; 0; 0; 0; 0; 0; 0; 0; 0; 0;
  0; 0; 0; 0; 0; 0; 0; 0; 0; 0; 0; 0; 0; 0; 0; 0; 0; 0; 0; 0; 0; 0; 0; 0; 0; 0; 0; 0; 0; 0; 0; 0;
  0; 0; 0; 0; 0; 0; 0; 0; 0; 0; 0; 0; 0; 0; 0; 0; 0; 0; 0; 0; 0; 0; 0; 0; 0; 0; 0; 0; 0; 0; 0; 0].
(** [specialChars[ch]]; falsy outside the table. *)
Definition special (ch : Z) : Z := default 0 (arr_get specialChars ch).

Definition toHexDigit (ch : Z) : Z :=
  if (0x30 <=? ch) && (ch <=? 0x39) then ch .& 0x0f
  else if ((0x41 <=? ch) && (ch <=? 0x46)) || ((0x61 <=? ch) && (ch <=? 0x66)) then (ch .& 0x0f) + 9
  else -1.

(** An entry of [knownCommands]. *)
Record Command := mkCommand { numArgs : Z; variableArgs : bool }.

Record Lex (S : Type) := mkLex { lx_stream : S; currentChar : Z; beginInlineImagePos : Z }.
Arguments mkLex {S}. Arguments lx_stream {S}. Arguments currentChar {S}.
Arguments beginInlineImagePos {S}.

Section Lexer.
Context {S : Type} `{ByteSource S} `{Seekable S}.
(** [knownCommands], [None] when the lexer has none. *)
Context (knownCommands : option (jstr -> option Command)).
Abbreviation L := (M (Lex S)).

Definition set_lx_stream (s : S) (l : Lex S) : Lex S := mkLex s (currentChar l) (beginInlineImagePos l).
Definition on_lx {A} (m : M S A) : L A := zoom lx_stream set_lx_stream m.

Definition nextChar : L Z :=
  c <- on_lx getByte ;;
  match c with
  | Some c => modify (fun l => mkLex (lx_stream l) c (beginInlineImagePos l)) ;;; mret c
  | None => out_of_fuel
  end.

Definition peekChar : L Z :=
  c <- on_lx peekByte ;;
  match c with
  | Some c => mret c
  | None => out_of_fuel
  end.

(** [new Lexer(stream, knownCommands)] reads the first character. *)
Definition new_Lexer (stream : S) : res (Lex S) :=
  match nextChar (mkLex stream 0 (-1)) with
  | (Ok _, l) => Ok l
  | (Throw e, _) => Throw e
  | (OutOfFuel, _) => OutOfFuel
  end.

Fixpoint skip_newlines (fuel : nat) (ch : Z) : L Z :=
  match fuel with
  | O => out_of_fuel
  | Datatypes.S fuel =>
      if (ch =? 0x0a) || (ch =? 0x0d) then ch <- nextChar ;; skip_newlines fuel ch else mret ch
  end.

(** The digits after the first; [baseValue] and [divideBy]. *)
Fixpoint number_loop (fuel : nat) (baseValue divideBy : float) : L (float * float) :=
  match fuel with
  | O => out_of_fuel
  | Datatypes.S fuel =>
      ch <- nextChar ;;
      if ch <? 0 then mret (baseValue, divideBy)
      else if (0x30 <=? ch) && (ch <=? 0x39) then
        number_loop fuel (fadd (fmul baseValue (of_Z 10)) (of_Z (ch - 0x30)))
          (if feq divideBy fzero then divideBy else fmul divideBy (of_Z 10))
      else if ch =? 0x2e then
        if feq divideBy fzero then number_loop fuel baseValue (of_Z 1) else mret (baseValue, divideBy)
      else if ch =? 0x2d then number_loop fuel baseValue divideBy
      else mret (baseValue, divideBy)
  end.

(** A number whose sign has been read; [ch] comes next. *)
Definition number_after_sign (fuel : nat) (sign ch : Z) : L num :=
  ch <- skip_newlines fuel ch ;;
  let* (ch, divideBy) <-
    (if ch =? 0x2e then ch <- nextChar ;; mret (ch, of_Z 10) else mret (ch, fzero)) ;;
  if (ch <? 0x30) || (0x39 <? ch) then
    if isWhiteSpace (Some ch) || (ch =? 0x28) || (ch =? 0x3c) || (ch =? -1) then mret (NInt 0)
    else throw (FormatError "Invalid number")
  else
    let* (baseValue, divideBy) <- number_loop fuel (of_Z (ch - 0x30)) divideBy ;;
    let baseValue := if feq divideBy fzero then baseValue else fdiv baseValue divideBy in
    mret (num_of_float (fmul (of_Z sign) baseValue)).

Definition getNumber (fuel : nat) : L num :=
  ch <- gets currentChar ;;
  if ch =? 0x2d then
    ch <- nextChar ;;
    ch <- (if ch =? 0x2d then nextChar else mret ch) ;;
    number_after_sign fuel (-1) ch
  else if ch =? 0x2b then ch <- nextChar ;; number_after_sign fuel 1 ch
  else number_after_sign fuel 1 ch.

(** An octal escape whose first digit is [ch]: its value, the character after
    it and whether that one is still to be handled. *)
Definition octal_escape (ch : Z) : L (Z * Z * bool) :=
  let x := ch .& 0x0f in
  ch <- nextChar ;;
  if (0x30 <=? ch) && (ch <=? 0x37) then
    let x := (x .<< 3) + (ch .& 0x0f) in
    ch <- nextChar ;;
    if (0x30 <=? ch) && (ch <=? 0x37) then mret ((x .<< 3) + (ch .& 0x0f), ch, false)
    else mret (x, ch, true)
  else mret (x, ch, true).

(** The characters a backslash and [ch] stand for; [None] ends the string.
    The last two are [ch] and [charBuffered]. *)
Definition escape (ch : Z) : L (option jstr * Z * bool) :=
  if ch =? -1 then mret (None, ch, false)
  else if ch =? 0x6e then mret (Some [0x0a], ch, false)
  else if ch =? 0x72 then mret (Some [0x0d], ch, false)
  else if ch =? 0x74 then mret (Some [0x09], ch, false)
  else if ch =? 0x62 then mret (Some [0x08], ch, false)
  else if ch =? 0x66 then mret (Some [0x0c], ch, false)
  else if (ch =? 0x5c) || (ch =? 0x28) || (ch =? 0x29) then mret (Some [ch], ch, false)
  else if (0x30 <=? ch) && (ch <=? 0x37) then
    let* (x, ch, charBuffered) <- octal_escape ch ;; mret (Some [x], ch, charBuffered)
  else if ch =? 0x0d then
    c <- peekChar ;;
    (if c =? 0x0a then nextChar ;;; mret tt else mret tt) ;;;
    mret (Some [], ch, false)
  else if ch =? 0x0a then mret (Some [], ch, false)
  else mret (Some [ch], ch, false).

Fixpoint string_loop (fuel : nat) (numParen : Z) (strBuf : jstr) (ch : Z) : L jstr :=
  match fuel with
  | O => out_of_fuel
  | Datatypes.S fuel =>
      let next numParen strBuf := ch <- nextChar ;; string_loop fuel numParen strBuf ch in
      if ch =? -1 then mret strBuf
      else if ch =? 0x28 then next (numParen + 1) (strBuf ++ [0x28])
      else if ch =? 0x29 then
        if numParen - 1 =? 0 then nextChar ;;; mret strBuf
        else next (numParen - 1) (strBuf ++ [0x29])
      else if ch =? 0x5c then
        ch <- nextChar ;;
        let* (chars, ch, charBuffered) <- escape ch ;;
        match chars with
        | None => mret strBuf
        | Some chars =>
            if charBuffered : bool then string_loop fuel numParen (strBuf ++ chars) ch
            else next numParen (strBuf ++ chars)
        end
      else next numParen (strBuf ++ [ch])
  end.

Definition getString (fuel : nat) : L jstr := ch <- nextChar ;; string_loop fuel 1 [] ch.

Fixpoint name_loop (fuel : nat) (strBuf : jstr) : L jstr :=
  match fuel with
  | O => out_of_fuel
  | Datatypes.S fuel =>
      ch <- nextChar ;;
      if (ch <? 0) || negb (special ch =? 0) then mret strBuf
      else if ch =? 0x23 then
        ch <- nextChar ;;
        if negb (special ch =? 0) then mret (strBuf ++ [0x23])
        else
          let x := toHexDigit ch in
          if x =? -1 then name_loop fuel (strBuf ++ [0x23; to_u16 ch])
          else
            let previousCh := ch in
            ch <- nextChar ;;
            let x2 := toHexDigit ch in
            if x2 =? -1 then
              let strBuf := strBuf ++ [0x23; previousCh] in
              if negb (special ch =? 0) then mret strBuf
              else name_loop fuel (strBuf ++ [to_u16 ch])
            else name_loop fuel (strBuf ++ [(x .<< 4) .| x2])
      else name_loop fuel (strBuf ++ [ch])
  end.

Definition getName (fuel : nat) : L jstr := name_loop fuel [].

Fixpoint hex_string_loop (fuel : nat) (strBuf : jstr) (firstDigit ch : Z) : L jstr :=
  match fuel with
  | O => out_of_fuel
  | Datatypes.S fuel =>
      let finish := if firstDigit =? -1 then strBuf else strBuf ++ [firstDigit .<< 4] in
      if ch <? 0 then mret finish
      else if ch =? 0x3e then nextChar ;;; mret finish
      else if special ch =? 1 then ch <- nextChar ;; hex_string_loop fuel strBuf firstDigit ch
      else
        let digit := toHexDigit ch in
        let '(strBuf, firstDigit) :=
          if digit =? -1 then (strBuf, firstDigit)
          else if firstDigit =? -1 then (strBuf, digit)
          else (strBuf ++ [(firstDigit .<< 4) .| digit], -1) in
        ch <- nextChar ;; hex_string_loop fuel strBuf firstDigit ch
  end.

Definition getHexString (fuel : nat) : L jstr :=
  ch <- gets currentChar ;; hex_string_loop fuel [] (-1) ch.

(** Skip white space and comments; [None] at the end of the data. *)
Fixpoint skip_blanks (fuel : nat) (comment : bool) (ch : Z) : L (option Z) :=
  match fuel with
  | O => out_of_fuel
  | Datatypes.S fuel =>
      let next comment := ch <- nextChar ;; skip_blanks fuel comment ch in
      if ch <? 0 then mret None
      else if comment then next (negb ((ch =? 0x0a) || (ch =? 0x0d)))
      else if ch =? 0x25 then next true
      else if negb (special ch =? 1) then mret (Some ch)
      else next false
  end.

Definition known (str : jstr) : bool :=
  match knownCommands with Some f => bool_decide (is_Some (f str)) | None => false end.

Fixpoint command_loop (fuel : nat) (str : jstr) (knownCommandFound : bool) : L jstr :=
  match fuel with
  | O => out_of_fuel
  | Datatypes.S fuel =>
      ch <- nextChar ;;
      if (ch <? 0) || negb (special ch =? 0) then mret str
      else
        let possibleCommand := str ++ [ch] in
        if knownCommandFound && negb (known possibleCommand) then mret str
        else if len str =? 128 then throw (FormatError "Command token too long")
        else command_loop fuel possibleCommand (known possibleCommand)
  end.

Definition getCommand (fuel : nat) (ch : Z) : L obj :=
  let str := [ch] in
  early <- (if (ch <? 0x20) || (0x7f <? ch) then
              nextCh <- peekChar ;;
              if (0x20 <=? nextCh) && (nextCh <=? 0x7f) then nextChar ;;; mret true else mret false
            else mret false) ;;
  if early : bool then mret (OCmd str)
  else
    str <- command_loop fuel str (known str) ;;
    if bool_decide (str = js "true") then mret (OBool true)
    else if bool_decide (str = js "false") then mret (OBool false)
    else if bool_decide (str = js "null") then mret ONull
    else
      (if bool_decide (str = js "BI")
       then modify (fun l => mkLex (lx_stream l) (currentChar l) (tell (lx_stream l))) else mret tt) ;;;
      mret (OCmd str).

(** The token whose first character is [ch]. *)
Definition lex_token (fuel : nat) (ch : Z) : L obj :=
  if ((0x30 <=? ch) && (ch <=? 0x39)) || (ch =? 0x2b) || (ch =? 0x2d) || (ch =? 0x2e) then
    n <- getNumber fuel ;; mret (ONum n)
  else if ch =? 0x28 then s <- getString fuel ;; mret (OStr s)
  else if ch =? 0x2f then n <- getName fuel ;; mret (OName n)
  else if ch =? 0x5b then nextChar ;;; mret (OCmd (js "["))
  else if ch =? 0x5d then nextChar ;;; mret (OCmd (js "]"))
  else if ch =? 0x3c then
    ch <- nextChar ;;
    if ch =? 0x3c then nextChar ;;; mret (OCmd (js "<<"))
    else s <- getHexString fuel ;; mret (OStr s)
  else if ch =? 0x3e then
    ch <- nextChar ;;
    if ch =? 0x3e then nextChar ;;; mret (OCmd (js ">>")) else mret (OCmd (js ">"))
  else if ch =? 0x7b then nextChar ;;; mret (OCmd (js "{"))
  else if ch =? 0x7d then nextChar ;;; mret (OCmd (js "}"))
  else if ch =? 0x29 then nextChar ;;; throw (FormatError "Illegal character")
  else getCommand fuel ch.

Definition lex_getObj (fuel : nat) : L obj :=
  ch <- gets currentChar ;;
  ch <- skip_blanks fuel false ch ;;
  match ch with
  | None => mret OEOF
  | Some ch => lex_token fuel ch
  end.

Fixpoint skip_to_next_line (fuel : nat) (ch : Z) : L unit :=
  match fuel with
  | O => out_of_fuel
  | Datatypes.S fuel =>
      if ch <? 0 then mret tt
      else if ch =? 0x0d then
        ch <- nextChar ;;
        if ch =? 0x0a then nextChar ;;; mret tt else mret tt
      else if ch =? 0x0a then nextChar ;;; mret tt
      else ch <- nextChar ;; skip_to_next_line fuel ch
  end.

Definition skipToNextLine (fuel : nat) : L unit :=
  ch <- gets currentChar ;; skip_to_next_line fuel ch.
End Lexer.

(** ** Runs of the lexer on a text *)

Section Runs.
Context {S : Type} `{SourceSpec S} `{Seekable S}.
Context (kc : option (jstr -> option Command)).

(** The text left to a lexer: its current character and what the stream
    still has. *)
Definition at_text (l : Lex S) (t : list Z) : Prop :=
  match t with
  | [] => currentChar l = -1 /\ rest (lx_stream l) []
  | c :: r => currentChar l = c /\ rest (lx_stream l) r
  end.

(** The character at the front of a text. *)
Definition front (t : list Z) : Z := match t with [] => -1 | c :: _ => c end.

(** [m] run on the text [t] returns [a] and leaves the text [t']. *)
Definition reads {A} (m : M (Lex S) A) (t : list Z) (a : A) (t' : list Z) : Prop :=
  forall l, at_text l t -> exists l', m l = (Ok a, l') /\ at_text l' t'.

Lemma reads_ret {A} (a : A) t : reads (mret a) t a t.
Proof. intros l Hl. by exists l. Qed.

Lemma reads_bind {A B} (m : M (Lex S) A) (k : A -> M (Lex S) B) t a t' b t'' :
  reads m t a t' -> reads (k a) t' b t'' -> reads (mbind m k) t b t''.
Proof.
  intros Hm Hk l Hl. destruct (Hm l Hl) as (l' & E & Hl'). unfold mbind. rewrite E. by apply Hk.
Qed.

Lemma reads_current t : reads (gets currentChar) t (front t) t.
Proof.
  intros l Hl. exists l. split; [|done]. unfold gets. do 2 f_equal.
  by destruct t; destruct Hl as [Hc _].
Qed.

Lemma at_text_bytes l t : at_text l t -> Forall is_byte (tail t).
Proof. destruct t; [done|]. intros [_ Hr]. by eapply rest_bytes. Qed.

Lemma reads_next c t : reads nextChar (c :: t) (front t) t.
Proof.
  intros l [Hc Hr]. unfold nextChar, on_lx. m_red. destruct t as [|b t].
  - destruct (rest_nil _ Hr) as (s' & -> & Hs). eexists. split; [reflexivity|]. done.
  - destruct (rest_cons _ _ _ Hr) as (s' & -> & Hs & _). eexists. split; [reflexivity|]. done.
Qed.

Lemma reads_step t : reads nextChar t (front (tail t)) (tail t).
Proof.
  destruct t as [|c t]; [|apply reads_next]. intros l [Hc Hr]. unfold nextChar, on_lx. m_red.
  destruct (rest_nil _ Hr) as (s' & -> & Hs). eexists. split; [reflexivity|]. done.
Qed.

Lemma reads_peek c t : reads peekChar (c :: t) (front t) (c :: t).
Proof.
  intros l [Hc Hr]. unfold peekChar, on_lx, peekByte. m_red. destruct t as [|b t].
  - destruct (rest_nil _ Hr) as (s' & -> & Hs). simpl. eexists. split; [reflexivity|]. by split.
  - pose proof (rest_bytes _ _ Hr) as Hb. apply Forall_cons in Hb as [Hb _]. unfold is_byte in Hb.
    destruct (rest_cons _ _ _ Hr) as (s' & -> & _ & Hs). cbn [jn_is].
    rewrite (proj2 (Z.eqb_neq b (-1))) by lia. eexists. split; [reflexivity|]. by split.
Qed.
End Runs.
