(* ===== verification/LexerSpec.v ===== *)
(** * The lexer reads what is printed

    Each kind of token, read back from its printed form whatever follows it:
    integers, strings escaped by [escapeString], names escaped by
    [escapePDFName], punctuation and keywords. *)
From Stdlib Require Import SpecFloat.
From S2P Require Import Prelude JsBits ByteStream DecodeStream Ascii85 Number64 FloatLaws Primitives Lexer.
Local Open Scope js_scope.

Section Tokens.
Context {S : Type} `{SourceSpec S} `{Seekable S}.
Context (kc : option (jstr -> option Command)).
Abbreviation reads := (reads (S := S)).

Ltac next := eapply reads_bind; [apply reads_next|].
Ltac peek := eapply reads_bind; [apply reads_peek|].

(** ** Numbers *)

(** What may follow a number. *)
Definition ends_number (r : list Z) : Prop :=
  match r with [] => True | c :: _ => is_digit c = false /\ c <> 0x2e /\ c <> 0x2d /\ 0 <= c end.

Lemma digit_range c : is_digit c = true <-> 0x30 <= c <= 0x39.
Proof. unfold is_digit. rewrite andb_true_iff, !Z.leb_le. done. Qed.

(** One more digit. *)
Definition push_digit (v : float) (c : Z) : float := fadd (fmul v (of_Z 10)) (of_Z (c - 0x30)).

Lemma fold_digits_ge d v : Forall (fun c => is_digit c = true) d -> 0 <= v ->
  v <= fold_left (fun v c => v * 10 + (c - 0x30)) d v.
Proof.
  intros Hd. revert v. induction Hd as [|c d Hc _ IH]; intros v Hv; [done|]. apply digit_range in Hc. cbn [fold_left].
  specialize (IH (v * 10 + (c - 48)) ltac:(lia)). lia.
Qed.

(** The digits of a number below 2^53 are pushed without rounding. *)
Lemma push_digits d v : Forall (fun c => is_digit c = true) d -> 0 <= v ->
  fold_left (fun v c => v * 10 + (c - 0x30)) d v < 2 ^ 53 ->
  fold_left push_digit d (of_Z v) = of_Z (fold_left (fun v c => v * 10 + (c - 0x30)) d v).
Proof.
  intros Hd. revert v. induction Hd as [|c d Hc Hd IH]; intros v Hv Hlt; [done|]. apply digit_range in Hc. cbn [fold_left] in *.
  pose proof (fold_digits_ge d (v * 10 + (c - 48)) Hd ltac:(lia)). unfold push_digit at 2.
  rewrite fmul_int, fadd_int by (unfold safe; lia). apply IH; lia.
Qed.

(** The number a sign and an integer below 2^53 are. *)
Lemma signed_int sign n : sign = 1 \/ sign = -1 -> 0 <= n < 2 ^ 53 ->
  num_of_float (fmul (of_Z sign) (of_Z n)) = NInt (sign * n).
Proof.
  intros Hs Hn. rewrite fmul_comm.
  destruct Hs as [-> | ->]; [rewrite fmul_one_r by (apply is_double_of_Z; lia)|rewrite fmul_minus_one_r by (apply is_double_of_Z; lia)];
    (destruct n as [|n|n]; [done| |lia]).
  - destruct (of_Z_value n false ltac:(lia)) as (m & e & -> & Hi & Ht). unfold num_of_float. by rewrite Hi, Ht, Z.mul_1_l.
  - destruct (of_Z_value n true ltac:(lia)) as (m & e & -> & Hi & Ht). unfold num_of_float. by rewrite Hi, Ht.
Qed.

Lemma number_loop_digits fuel c d r base :
  Forall (fun c => is_digit c = true) d -> ends_number r -> (length d < fuel)%nat ->
  reads (number_loop fuel base fzero) (c :: d ++ r) (fold_left push_digit d base, fzero) r.
Proof.
  intros Hd Hr. revert fuel c base. induction Hd as [|x d Hx _ IH]; intros fuel c base Hf;
    (destruct fuel as [|fuel]; [simpl in Hf; lia|]); cbn [number_loop app fold_left].
  - next. destruct r as [|y r]; [apply reads_ret|]. cbn [front].
    destruct Hr as (Hy & Hy1 & Hy2 & Hy3). rewrite (proj2 (Z.ltb_ge y 0)) by lia.
    change ((48 <=? y) && (y <=? 57)) with (is_digit y). rewrite Hy.
    rewrite (proj2 (Z.eqb_neq y 46)), (proj2 (Z.eqb_neq y 45)) by done. apply reads_ret.
  - next. cbn [front]. apply digit_range in Hx as Hx'. rewrite (proj2 (Z.ltb_ge x 0)) by lia.
    change ((48 <=? x) && (x <=? 57)) with (is_digit x). rewrite Hx. change (feq fzero fzero) with true. cbv iota.
    apply IH. simpl in Hf. lia.
Qed.

(** The digits of a number, after its sign. *)
Lemma reads_digits fuel sign c d r :
  sign = 1 \/ sign = -1 -> parse_dec (c :: d) < 2 ^ 53 ->
  Forall (fun c => is_digit c = true) (c :: d) -> ends_number r -> (length (c :: d) < fuel)%nat ->
  reads (number_after_sign fuel sign c) (c :: d ++ r) (NInt (sign * parse_dec (c :: d))) r.
Proof.
  intros Hs Hlt Hd Hr Hf. apply Forall_cons in Hd as [Hc Hd]. apply digit_range in Hc.
  destruct fuel as [|fuel]; [simpl in Hf; lia|].
  eapply reads_bind.
  { cbn [skip_newlines]. rewrite (proj2 (Z.eqb_neq c 10)), (proj2 (Z.eqb_neq c 13)) by lia.
    apply reads_ret. }
  rewrite (proj2 (Z.eqb_neq c 46)) by lia. eapply reads_bind; [apply reads_ret|]. cbv iota beta.
  rewrite (proj2 (Z.ltb_ge c 48)), (proj2 (Z.ltb_ge 57 c)) by lia. cbn [orb].
  eapply reads_bind; [apply number_loop_digits; [done|done|simpl in Hf; lia]|].
  cbv iota beta. change (feq fzero fzero) with true. cbv iota zeta. unfold parse_dec in *. cbn [fold_left] in *. rewrite Z.mul_0_l, Z.add_0_l in *.
  pose proof (fold_digits_ge d (c - 48) Hd ltac:(lia)).
  rewrite push_digits, signed_int by (done || lia). apply reads_ret.
Qed.

Lemma reads_getNumber fuel n r :
  0 <= n < 2 ^ 53 -> ends_number r -> (length (dec n) < fuel)%nat ->
  reads (getNumber fuel) (dec n ++ r) (NInt n) r.
Proof.
  intros Hn Hr Hf. destruct (dec_spec n ltac:(lia)) as (Hd & Hp & _ & Hne).
  destruct (dec n) as [|c d] eqn:E; [done|]. pose proof Hd as Hd'.
  apply Forall_cons in Hd' as [Hc _]. apply digit_range in Hc.
  unfold getNumber. eapply reads_bind; [apply reads_current|]. cbn [front app].
  rewrite (proj2 (Z.eqb_neq c 45)), (proj2 (Z.eqb_neq c 43)) by lia.
  rewrite <- Hp, <- (Z.mul_1_l (parse_dec (c :: d))). apply reads_digits; [by left|lia|done|done|done].
Qed.

Lemma reads_getNumber_neg fuel n r :
  0 <= n < 2 ^ 53 -> ends_number r -> (length (dec n) < fuel)%nat ->
  reads (getNumber fuel) (0x2d :: dec n ++ r) (NInt (- n)) r.
Proof.
  intros Hn Hr Hf. destruct (dec_spec n ltac:(lia)) as (Hd & Hp & _ & Hne).
  destruct (dec n) as [|c d] eqn:E; [done|]. pose proof Hd as Hd'.
  apply Forall_cons in Hd' as [Hc _]. apply digit_range in Hc.
  unfold getNumber. eapply reads_bind; [apply reads_current|]. cbn [front app].
  cbn [Z.eqb]. next. cbn [front]. rewrite (proj2 (Z.eqb_neq c 45)) by lia.
  eapply reads_bind; [apply reads_ret|].
  replace (- n) with (-1 * parse_dec (c :: d)) by lia. apply reads_digits; [by right|lia|done|done|done].
Qed.

(** ** Strings *)

Lemma reads_string_loop fuel s buf r :
  Forall is_byte s -> (length s < fuel)%nat ->
  reads (string_loop fuel 1 buf (front (escapeString s ++ 0x29 :: r)))
    (escapeString s ++ 0x29 :: r) (buf ++ s) r.
Proof.
  intros Hs. revert fuel buf. induction Hs as [|c s Hc _ IH]; intros fuel buf Hf;
    (destruct fuel as [|fuel]; [simpl in Hf; lia|]).
  - cbn [escapeString flat_map app front string_loop Z.eqb Z.sub]. rewrite app_nil_r.
    next. apply reads_ret.
  - simpl in Hf. unfold is_byte in Hc.
    assert (Hnext : forall x buf', reads
      (ch <- nextChar ;; string_loop fuel 1 buf' ch) (x :: escapeString s ++ 0x29 :: r)
      (buf' ++ s) r).
    { intros x buf'. next. apply IH. lia. }
    replace (buf ++ c :: s) with ((buf ++ [c]) ++ s) by (by rewrite <- app_assoc).
    assert (Hesc : forall e, reads (escape e) (e :: escapeString s ++ 0x29 :: r)
        (Some [c], e, false) (e :: escapeString s ++ 0x29 :: r) ->
      reads (string_loop (Datatypes.S fuel) 1 buf 0x5c) (0x5c :: e :: escapeString s ++ 0x29 :: r)
        ((buf ++ [c]) ++ s) r).
    { intros e He. cbn [string_loop Z.eqb]. next. eapply reads_bind; [exact He|].
      cbv iota beta. apply Hnext. }
    cbn [escapeString flat_map]. change (flat_map _ s) with (escapeString s).
    destruct (Z.eqb_spec c 10) as [->|]; [apply Hesc, reads_ret|].
    destruct (Z.eqb_spec c 13) as [->|]; [apply Hesc, reads_ret|].
    destruct (Z.eqb_spec c 40) as [->|]; [apply Hesc, reads_ret|].
    destruct (Z.eqb_spec c 41) as [->|]; [apply Hesc, reads_ret|].
    destruct (Z.eqb_spec c 92) as [->|]; [apply Hesc, reads_ret|].
    cbn [orb app front string_loop].
    rewrite (proj2 (Z.eqb_neq c (-1))), (proj2 (Z.eqb_neq c 40)), (proj2 (Z.eqb_neq c 41)),
      (proj2 (Z.eqb_neq c 92)) by (done || lia).
    apply Hnext.
Qed.

Lemma reads_getString fuel s r :
  Forall is_byte s -> (length s < fuel)%nat ->
  reads (getString fuel) (0x28 :: escapeString s ++ 0x29 :: r) s r.
Proof. intros Hs Hf. unfold getString. next. by apply (reads_string_loop fuel s []). Qed.

(** ** Names *)

(** What may follow a name or a keyword: a delimiter or the end. *)
Definition ends_word (r : list Z) : Prop :=
  match r with [] => True | c :: _ => special c <> 0 end.

(** A plain character of a name; the two digits of an escaped one. *)
Definition name_char_ok (c : Z) : bool :=
  if name_escaped c then
    (special (hex_char (c / 16)) =? 0) && negb (toHexDigit (hex_char (c / 16)) =? -1) &&
    negb (toHexDigit (hex_char (c mod 16)) =? -1) &&
    ((toHexDigit (hex_char (c / 16)) .<< 4) .| toHexDigit (hex_char (c mod 16)) =? c)
  else (special c =? 0) && negb (c =? 0x23) && negb (c <? 0).

Lemma name_chars_ok c : is_byte c -> name_char_ok c = true.
Proof. apply all_bytes. vm_compute. reflexivity. Qed.

Lemma reads_name_loop fuel s buf x r :
  Forall is_byte s -> ends_word r -> (length s < fuel)%nat ->
  reads (name_loop fuel buf) (x :: escapePDFName s ++ r) (buf ++ s) r.
Proof.
  intros Hs Hr. revert fuel buf x. induction Hs as [|c s Hc _ IH]; intros fuel buf x Hf;
    (destruct fuel as [|fuel]; [simpl in Hf; lia|]); cbn [name_loop].
  - cbn [escapePDFName flat_map app]. rewrite app_nil_r. next.
    destruct r as [|y r]; [apply reads_ret|]. cbn [front].
    simpl in Hr. apply Z.eqb_neq in Hr. rewrite Hr, orb_true_r. apply reads_ret.
  - simpl in Hf. replace (buf ++ c :: s) with ((buf ++ [c]) ++ s) by (by rewrite <- app_assoc).
    pose proof (name_chars_ok c Hc) as Hok. unfold name_char_ok in Hok.
    cbn [escapePDFName flat_map]. change (flat_map _ s) with (escapePDFName s).
    destruct (name_escaped c) eqn:Ee; bool_hyps.
    + unfold is_byte in Hc. unfold hex_units. rewrite (proj2 (Z.ltb_lt c 256)) by lia.
      cbn [hex2 app]. next. cbn [front]. change (special 35) with 0. cbn [Z.eqb negb orb].
      next. cbn [front].
      rewrite (proj2 (Z.eqb_eq (special (hex_char (c / 16))) 0)) by done. cbn [negb].
      rewrite (proj2 (Z.eqb_neq (toHexDigit (hex_char (c / 16))) (-1))) by done.
      next. cbn [front].
      rewrite (proj2 (Z.eqb_neq (toHexDigit (hex_char (c mod 16))) (-1))) by done.
      match goal with Hx : _ = c |- _ => rewrite Hx end. apply IH. lia.
    + cbn [app]. next. cbn [front].
      rewrite (proj2 (Z.ltb_ge c 0)) by lia.
      rewrite (proj2 (Z.eqb_eq (special c) 0)) by done. cbn [negb orb].
      rewrite (proj2 (Z.eqb_neq c 35)) by done. apply IH. lia.
Qed.

Lemma reads_getName fuel s r :
  Forall is_byte s -> ends_word r -> (length s < fuel)%nat ->
  reads (getName fuel) (0x2f :: escapePDFName s ++ r) s r.
Proof. intros. by apply (reads_name_loop fuel s []). Qed.

(** ** Blanks *)

(** White space and comments. *)
Inductive blank : list Z -> Prop :=
| blank_nil : blank []
| blank_white c b : special c = 1 -> blank b -> blank (c :: b)
| blank_comment body eol b :
    Forall (fun c => 0 <= c /\ c <> 0x0a /\ c <> 0x0d) body -> eol = 0x0a \/ eol = 0x0d ->
    blank b -> blank (0x25 :: body ++ eol :: b).

(** A character that starts a token. *)
Definition starts_token (c : Z) : Prop := 0 <= c /\ c <> 0x25 /\ special c <> 1.

Lemma special_nonneg c : special c = 1 -> 0 <= c.
Proof. unfold special, arr_get. destruct (Z.ltb_spec c 0); [discriminate|lia]. Qed.

Lemma reads_comment body eol b fuel c r :
  Forall (fun c => 0 <= c /\ c <> 0x0a /\ c <> 0x0d) body -> eol = 0x0a \/ eol = 0x0d ->
  reads (skip_blanks fuel false (front b)) b c r ->
  reads (skip_blanks (Datatypes.S (length body) + fuel) true (front (body ++ eol :: b)))
    (body ++ eol :: b) c r.
Proof.
  intros Hb He Hr. induction Hb as [|x body (Hx & Hx1 & Hx2) _ IH];
    cbn [app front length Nat.add skip_blanks].
  - rewrite (proj2 (Z.ltb_ge eol 0)) by (destruct He; lia).
    replace (negb _) with false by (destruct He as [-> | ->]; done). next. apply Hr.
  - rewrite (proj2 (Z.ltb_ge x 0)), (proj2 (Z.eqb_neq x 10)), (proj2 (Z.eqb_neq x 13)) by done.
    cbn [orb negb]. next. apply IH.
Qed.

(** More fuel does not change what the loop over blanks returns. *)
Lemma skip_blanks_mono m fuel comment ch l a l' :
  (fuel <= m)%nat -> skip_blanks fuel comment ch l = (Ok a, l') ->
  skip_blanks m comment ch l = (Ok a, l').
Proof.
  revert m comment ch l. induction fuel as [|fuel IH]; intros m comment ch l Hm; [discriminate|].
  destruct m as [|m]; [lia|]. cbn [skip_blanks].
  assert (Hn : forall com, (ch <- nextChar ;; skip_blanks fuel com ch) l = (Ok a, l') ->
    (ch <- nextChar ;; skip_blanks m com ch) l = (Ok a, l')).
  { intros com. m_red. destruct (nextChar l) as [[x|e|] l1]; [|done..].
    intros E. apply IH; [lia|done]. }
  repeat case_match; auto.
Qed.

Lemma reads_blanks b c t fuel :
  blank b -> starts_token c -> (length (b ++ c :: t) <= fuel)%nat ->
  reads (skip_blanks fuel false (front (b ++ c :: t))) (b ++ c :: t) (Some c) (c :: t).
Proof.
  intros Hb (Hc0 & Hc1 & Hc2). revert fuel. induction Hb as [|x b Hx _ IH|body eol b Hbody Heol _ IH];
    intros fuel Hf.
  - destruct fuel as [|fuel]; [simpl in Hf; lia|]. cbn [app front skip_blanks].
    rewrite (proj2 (Z.ltb_ge c 0)), (proj2 (Z.eqb_neq c 0x25)), (proj2 (Z.eqb_neq _ 1)) by done.
    apply reads_ret.
  - pose proof (special_nonneg x Hx). destruct fuel as [|fuel]; [simpl in Hf; lia|].
    cbn [app front skip_blanks]. rewrite (proj2 (Z.ltb_ge x 0)) by done.
    destruct (Z.eqb_spec x 0x25) as [->|_]; [discriminate|]. rewrite Hx. cbn [Z.eqb Pos.eqb negb].
    next. apply IH. simpl in Hf. lia.
  - destruct fuel as [|fuel]; [simpl in Hf; lia|].
    rewrite app_comm_cons, <- app_assoc. cbn [app front skip_blanks Z.ltb Z.compare Z.eqb Pos.eqb].
    next. intros l Hl.
    cbn [app length] in Hf. rewrite !length_app in Hf. cbn [length] in Hf.
    edestruct (reads_comment body eol (b ++ c :: t) (length (b ++ c :: t)) (Some c) (c :: t) Hbody Heol)
      as (l' & El & Hl'); [by apply IH|exact Hl|].
    exists l'. split; [|done]. revert El. apply skip_blanks_mono. rewrite length_app in *. cbn [length] in *. lia.
Qed.

(** ** Tokens *)

(** The text [t], before [r], is the token [o]. *)
Definition lexes (t : list Z) (o : obj) (r : list Z) : Prop :=
  (exists c t', t = c :: t' /\ starts_token c) /\
  forall fuel, (length (t ++ r) < fuel)%nat ->
    reads (lex_token kc fuel (front t)) (t ++ r) o r.

Lemma reads_lex_getObj b t o r fuel :
  blank b -> lexes t o r -> (length (b ++ t ++ r) < fuel)%nat ->
  reads (lex_getObj kc fuel) (b ++ t ++ r) o r.
Proof.
  intros Hb [(c & t' & -> & Hc) Hlex] Hf. unfold lex_getObj.
  eapply reads_bind; [apply reads_current|].
  eapply reads_bind; [apply (reads_blanks b c (t' ++ r)); [done|done|by apply Nat.lt_le_incl]|].
  cbv iota beta. apply (Hlex fuel). rewrite length_app in Hf. lia.
Qed.

Lemma reads_eof b fuel :
  blank b -> (length b < fuel)%nat ->
  reads (lex_getObj kc fuel) b OEOF [].
Proof.
  intros Hb Hf. unfold lex_getObj. eapply reads_bind; [apply reads_current|].
  eapply (reads_bind _ _ _ None); [|apply reads_ret].
  revert fuel Hf. induction Hb as [|x b Hx Hb IH|body eol b Hbody Heol Hb IH]; intros fuel Hf;
    (destruct fuel as [|fuel]; [simpl in Hf; lia|]).
  - apply reads_ret.
  - pose proof (special_nonneg x Hx). cbn [front skip_blanks].
    rewrite (proj2 (Z.ltb_ge x 0)) by done.
    destruct (Z.eqb_spec x 0x25) as [->|_]; [discriminate|]. rewrite Hx. cbn [Z.eqb Pos.eqb negb].
    next. apply IH. simpl in Hf. lia.
  - cbn [front skip_blanks Z.ltb Z.compare Z.eqb Pos.eqb]. next. intros l Hl.
    cbn [length] in Hf. rewrite length_app in Hf. cbn [length] in Hf.
    edestruct (reads_comment body eol b (Datatypes.S (length b)) None [] Hbody Heol)
      as (l' & El & Hl'); [apply IH; lia|exact Hl|].
    exists l'. split; [|done]. revert El. apply skip_blanks_mono. lia.
Qed.

Lemma lexes_intro c t o r :
  starts_token c ->
  (forall fuel, (length (c :: t ++ r) < fuel)%nat ->
    reads (lex_token kc fuel c) (c :: t ++ r) o r) ->
  lexes (c :: t) o r.
Proof. intros Hc Ht. split; [by exists c, t|]. exact Ht. Qed.

Lemma starts_visible c : is_byte c -> 0x25 < c -> starts_token c.
Proof.
  intros Hb Hc. apply (all_bytes (fun c => (c <=? 0x25) || negb (special c =? 1))) in Hb;
    [|vm_compute; reflexivity].
  rewrite (proj2 (Z.leb_gt c 37)) in Hb by lia. bool_hyps. unfold starts_token. split_and!; lia.
Qed.

Lemma dec_first n : 0 <= n -> exists c d, dec n = c :: d /\ 0x30 <= c <= 0x39.
Proof.
  intros Hn. destruct (dec_spec n Hn) as (Hd & _ & _ & Hne).
  destruct (dec n) as [|c d]; [done|]. exists c, d. split; [done|].
  apply Forall_cons in Hd as [Hc _]. by apply digit_range.
Qed.

Lemma lexes_nat n r : 0 <= n < 2 ^ 53 -> ends_number r -> lexes (dec n) (OInt n) r.
Proof.
  intros Hn Hr. destruct (dec_first n ltac:(lia)) as (c & d & E & Hc).
  pose proof (reads_getNumber) as Hnum. rewrite E. apply lexes_intro.
  { apply starts_visible; unfold is_byte; lia. }
  intros fuel Hf. unfold lex_token.
  rewrite (proj2 (Z.leb_le 48 c)), (proj2 (Z.leb_le c 57)) by lia. cbn [andb orb].
  eapply reads_bind; [|apply reads_ret].
  change (c :: d ++ r) with ((c :: d) ++ r). rewrite <- E. apply reads_getNumber; [done|done|].
  rewrite E. cbn [length] in *. rewrite length_app in Hf. lia.
Qed.

Lemma lexes_neg n r : 0 <= n < 2 ^ 53 -> ends_number r -> lexes (0x2d :: dec n) (OInt (- n)) r.
Proof.
  intros Hn Hr. apply lexes_intro.
  { apply starts_visible; unfold is_byte; lia. }
  intros fuel Hf. unfold lex_token. cbn [Z.leb Z.compare Z.eqb Pos.eqb Pos.compare Pos.compare_cont andb orb].
  eapply reads_bind; [|apply reads_ret]. apply reads_getNumber_neg; [done|done|].
  cbn [length] in Hf. rewrite length_app in Hf. lia.
Qed.

Lemma escapeString_length s : (length s <= length (escapeString s))%nat.
Proof.
  induction s as [|c s IH]; [done|]. cbn [escapeString flat_map]. rewrite length_app.
  change (flat_map _ s) with (escapeString s).
  cbn [length]. destruct (c =? 10), (c =? 13), ((c =? 40) || (c =? 41) || (c =? 92));
    cbn [length]; lia.
Qed.

Lemma lexes_string s r :
  Forall is_byte s -> lexes (0x28 :: escapeString s ++ [0x29]) (OStr s) r.
Proof.
  intros Hs. apply lexes_intro.
  { apply starts_visible; unfold is_byte; lia. }
  intros fuel Hf. unfold lex_token. rewrite <- app_assoc in *. cbn [app] in *.
  eapply reads_bind; [|apply reads_ret]. apply reads_getString; [done|].
  pose proof (escapeString_length s). cbn [length] in Hf. rewrite length_app in Hf. lia.
Qed.

Lemma escapePDFName_length s : (length s <= length (escapePDFName s))%nat.
Proof.
  induction s as [|c s IH]; [done|]. cbn [escapePDFName flat_map]. rewrite length_app.
  change (flat_map _ s) with (escapePDFName s).
  destruct (name_escaped c); simpl length; lia.
Qed.

Lemma lexes_name s r :
  Forall is_byte s -> ends_word r -> lexes (0x2f :: escapePDFName s) (OName s) r.
Proof.
  intros Hs Hr. apply lexes_intro.
  { apply starts_visible; unfold is_byte; lia. }
  intros fuel Hf. unfold lex_token.
  eapply reads_bind; [|apply reads_ret]. apply reads_getName; [done|done|].
  pose proof (escapePDFName_length s). cbn [length] in Hf. rewrite length_app in Hf. lia.
Qed.

(** The four brackets. *)
Lemma lexes_open_array r : lexes (js "[") (OCmd (js "[")) r.
Proof.
  apply (lexes_intro 0x5b []); [apply starts_visible; unfold is_byte; lia|]. intros fuel _.
  unfold lex_token. cbn -[reads nextChar]. next. apply reads_ret.
Qed.
Lemma lexes_close_array r : lexes (js "]") (OCmd (js "]")) r.
Proof.
  apply (lexes_intro 0x5d []); [apply starts_visible; unfold is_byte; lia|]. intros fuel _.
  unfold lex_token. cbn -[reads nextChar]. next. apply reads_ret.
Qed.
Lemma lexes_open_dict r : lexes (js "<<") (OCmd (js "<<")) r.
Proof.
  apply (lexes_intro 0x3c [0x3c]); [apply starts_visible; unfold is_byte; lia|]. intros fuel _.
  unfold lex_token. cbn -[reads nextChar getHexString]. next. cbn [front Z.eqb Pos.eqb].
  next. apply reads_ret.
Qed.
Lemma lexes_close_dict r : lexes (js ">>") (OCmd (js ">>")) r.
Proof.
  apply (lexes_intro 0x3e [0x3e]); [apply starts_visible; unfold is_byte; lia|]. intros fuel _.
  unfold lex_token. cbn -[reads nextChar getHexString]. next. cbn [front Z.eqb Pos.eqb].
  next. apply reads_ret.
Qed.

(** ** Keywords *)

(** What a word other than a number means. *)
Definition word_obj (w : jstr) : obj :=
  if bool_decide (w = js "true") then OBool true
  else if bool_decide (w = js "false") then OBool false
  else if bool_decide (w = js "null") then ONull
  else OCmd w.

(** A plain word: no delimiter in it, no number, below the length limit. *)
Definition plain_word (w : jstr) : bool :=
  forallb (fun c => (special c =? 0) && (0x21 <=? c) && (c <=? 0x7f)) w &&
  match w with
  | c :: _ => negb (is_digit c || (c =? 0x2b) || (c =? 0x2d) || (c =? 0x2e))
  | [] => false
  end && (len w <=? 128).

Context (Hkc : forall p, known kc p = false).

Lemma reads_command_loop fuel str x w r :
  Forall (fun c => special c = 0 /\ 0x21 <= c <= 0x7f) w -> ends_word r ->
  len str + len w <= 128 -> (length w < fuel)%nat ->
  reads (command_loop kc fuel str false) (x :: w ++ r) (str ++ w) r.
Proof.
  intros Hw Hr. revert fuel str x. induction Hw as [|c w [Hc1 Hc2] _ IH]; intros fuel str x Hl Hf;
    (destruct fuel as [|fuel]; [simpl in Hf; lia|]); cbn [command_loop app].
  - rewrite app_nil_r. next. destruct r as [|y r]; [apply reads_ret|]. cbn [front].
    simpl in Hr. apply Z.eqb_neq in Hr. rewrite Hr, orb_true_r. apply reads_ret.
  - next. cbn [front]. rewrite (proj2 (Z.ltb_ge c 0)) by lia.
    rewrite (proj2 (Z.eqb_eq (special c) 0)) by done. cbn [negb orb andb].
    rewrite len_cons in Hl. pose proof (len_nonneg w).
    rewrite (proj2 (Z.eqb_neq (len str) 128)) by lia. rewrite Hkc.
    replace (str ++ c :: w) with ((str ++ [c]) ++ w) by (by rewrite <- app_assoc).
    apply IH; [len_lia|]. simpl in Hf. lia.
Qed.

Lemma reads_modify_bip (f : Lex S -> Z) t :
  reads (modify (fun l => mkLex (lx_stream l) (currentChar l) (f l))) t tt t.
Proof. intros l Hl. eexists. split; [reflexivity|]. by destruct t. Qed.

Lemma lexes_word w r : plain_word w = true -> ends_word r -> lexes w (word_obj w) r.
Proof.
  intros Hw Hr. unfold plain_word in Hw. apply andb_true_iff in Hw as [Hw Hlen].
  apply andb_true_iff in Hw as [Hall Hfirst]. destruct w as [|c w]; [done|].
  apply Z.leb_le in Hlen.
  assert (Hw : Forall (fun c => special c = 0 /\ 0x21 <= c <= 0x7f) (c :: w)).
  { apply Is_true_true, forallb_True in Hall. eapply Forall_impl; [exact Hall|].
    intros x Hx. apply Is_true_true in Hx. bool_hyps. lia. }
  apply Forall_cons in Hw as [[Hc1 Hc2] Hw].
  assert (Hne : forall x, special x <> 0 -> c <> x) by (by intros x Hx ->).
  apply lexes_intro.
  { split_and!; [lia|by apply Hne|lia]. }
  intros fuel Hf. unfold lex_token. unfold is_digit in Hfirst.
  apply negb_true_iff in Hfirst. rewrite Hfirst.
  rewrite !(proj2 (Z.eqb_neq c _)) by (by apply Hne).
  unfold getCommand. rewrite (proj2 (Z.ltb_ge c 32)), (proj2 (Z.ltb_ge 127 c)) by lia. cbn [orb].
  eapply reads_bind; [apply reads_ret|]. cbv iota beta. rewrite Hkc.
  eapply reads_bind.
  { apply (reads_command_loop fuel [c]); [done|done| |].
    - rewrite len_cons in Hlen. change (len [c]) with 1. lia.
    - cbn [length] in Hf. rewrite length_app in Hf. lia. }
  cbn [app]. unfold word_obj. repeat (case_match; [apply reads_ret|]).
  eapply reads_bind; [|apply reads_ret].
  case_match; [apply (reads_modify_bip (fun l => tell (lx_stream l)))|apply reads_ret].
Qed.
End Tokens.
