(* ===== verification/LexerTotal.v ===== *)
(** * The lexer always answers

    On every text the lexer returns a token or throws, with as much fuel as
    the text has characters, and what it leaves is a suffix of the text. *)
From S2P Require Import Prelude JsBits ByteStream DecodeStream Ascii85 Primitives Lexer LexerSpec.
Local Open Scope js_scope.

Section Total.
Context {S : Type} `{SourceSpec S} `{Seekable S}.
Context (kc : option (jstr -> option Command)).

(** From the text [t], [m] answers, leaves a suffix of [t] as the text, and a
    result [a] with the text [t'] left satisfies [P a t']. *)
Definition answers {A} (m : M (Lex S) A) (t : list Z) (P : A -> list Z -> Prop) : Prop :=
  forall l, at_text l t -> exists r l' t',
    m l = (r, l') /\ at_text l' t' /\ suffix t' t /\ r <> OutOfFuel /\
    forall a, r = Ok a -> P a t'.

Definition any {A} : A -> list Z -> Prop := fun _ _ => True.
(** No more than [t] is left. *)
Definition within {A} (t : list Z) : A -> list Z -> Prop :=
  fun _ t' => (length t' <= length t)%nat.

Lemma answers_ret {A} (a : A) t (P : A -> list Z -> Prop) : P a t -> answers (mret a) t P.
Proof.
  intros Ha l Hl. exists (Ok a), l, t. split_and!; [done|done|done|done|]. by intros ? [= <-].
Qed.

Lemma answers_throw {A} e t (P : A -> list Z -> Prop) : answers (throw e) t P.
Proof. intros l Hl. exists (Throw e), l, t. split_and!; done. Qed.

Lemma answers_bind {A B} (m : M (Lex S) A) (k : A -> M (Lex S) B) t P Q :
  answers m t P -> (forall a t', suffix t' t -> P a t' -> answers (k a) t' Q) ->
  answers (mbind m k) t Q.
Proof.
  intros Hm Hk l Hl. destruct (Hm l Hl) as (r & l1 & t1 & E & Hl1 & Hs & Hr & HP).
  unfold mbind. rewrite E. destruct r as [a|e|]; [|by exists (Throw e), l1, t1|done].
  destruct (Hk a t1 Hs (HP a eq_refl) l1 Hl1) as (r & l2 & t2 & E2 & Hl2 & Hs2 & Hr2 & HQ).
  exists r, l2, t2. split_and!; [done|done|by transitivity t1|done|done].
Qed.

Lemma answers_weaken {A} (m : M (Lex S) A) t (P Q : A -> list Z -> Prop) :
  answers m t P -> (forall a t', suffix t' t -> P a t' -> Q a t') -> answers m t Q.
Proof.
  intros Hm HPQ l Hl. destruct (Hm l Hl) as (r & l1 & t1 & E & Hl1 & Hs & Hr & HP).
  exists r, l1, t1. split_and!; auto.
Qed.

Lemma reads_answers {A} (m : M (Lex S) A) t a t' (P : A -> list Z -> Prop) :
  reads m t a t' -> suffix t' t -> P a t' -> answers m t P.
Proof.
  intros Hm Hs HP l Hl. destruct (Hm l Hl) as (l' & E & Hl').
  exists (Ok a), l', t'. split_and!; [done|done|done|done|]. by intros ? [= <-].
Qed.

Lemma suffix_tail (t : list Z) : suffix (tail t) t.
Proof. destruct t; [done|]. by apply suffix_cons_r. Qed.

Lemma answers_next t : answers nextChar t (fun c t' => c = front t' /\ t' = tail t).
Proof. eapply reads_answers; [apply reads_step|apply suffix_tail|done]. Qed.

Lemma answers_peek t : answers peekChar t (fun c t' => c = front (tail t) /\ t' = t).
Proof.
  destruct t as [|c t]; [|eapply reads_answers; [apply reads_peek|done|done]].
  intros l [Hc Hr]. unfold peekChar, on_lx, peekByte. m_red.
  destruct (rest_nil _ Hr) as (s' & -> & Hs). simpl.
  do 2 eexists. exists []. split_and!; [reflexivity|done|done|done|]. by intros ? [= <-].
Qed.

Lemma answers_current t : answers (gets currentChar) t (fun c t' => c = front t /\ t' = t).
Proof. eapply reads_answers; [apply reads_current|done|done]. Qed.

(** A character that is not the end is there, so that reading on makes the
    text shorter. *)
Lemma front_tail_lt t : front t <> -1 -> (length (tail t) < length t)%nat.
Proof. destruct t; [done|]. simpl. lia. Qed.

Lemma tail_le (t : list Z) : (length (tail t) <= length t)%nat.
Proof. destruct t; simpl; lia. Qed.

Lemma front_tail_shorter t : front (tail t) <> -1 -> (length (tail t) < length t)%nat.
Proof. destruct t as [|c t]; [done|]. simpl. lia. Qed.

Ltac next := eapply answers_bind; [apply answers_next|]; intros ? ? _ [-> ->]; cbv beta iota.
Ltac peek := eapply answers_bind; [apply answers_peek|]; intros ? ? _ [-> ->]; cbv beta iota.
Ltac cur := eapply answers_bind; [apply answers_current|]; intros ? ? _ [-> ->]; cbv beta iota.
Ltac leaf :=
  first [ apply answers_throw | apply answers_ret; done | apply answers_ret; unfold within; lia ].
Ltac shorter t :=
  pose proof (front_tail_lt t); pose proof (front_tail_shorter t); pose proof (tail_le t); lia.

(** A loop that reads a character first leaves less than it found. *)
Lemma answers_again {A} (m : M (Lex S) A) t u :
  answers m t (within (tail t)) -> (length t <= length u)%nat -> answers m t (within u).
Proof.
  intros Hm Hu. eapply answers_weaken; [exact Hm|]. unfold within. intros _ t' _ Ht'.
  pose proof (tail_le t). lia.
Qed.
Ltac again IH := eapply answers_again; [apply IH; lia|lia].

Lemma answers_skip_newlines fuel t :
  (length t < fuel)%nat ->
  answers (skip_newlines fuel (front t)) t (fun c t' => c = front t').
Proof.
  revert t. induction fuel as [|fuel IH]; intros t Hf; [lia|]. cbn [skip_newlines].
  destruct (_ || _) eqn:E; [|leaf]. next. apply IH.
  assert (front t <> -1) by (intros E'; rewrite E' in E; discriminate). shorter t.
Qed.

Lemma answers_number_loop fuel t b d :
  (length t < fuel)%nat -> answers (number_loop fuel b d) t (within (tail t)).
Proof.
  revert t b d. induction fuel as [|fuel IH]; intros t b d Hf; [lia|]. cbn [number_loop].
  next.
  destruct (Z.ltb_spec (front (tail t)) 0) as [|Hc]; [leaf|].
  assert (length (tail t) < fuel)%nat by (shorter t).
  repeat case_match; first [leaf | again IH].
Qed.

(** A sign may have been read before; without it, a digit or a point must be
    next. *)
Lemma answers_number_after_sign fuel t sign :
  (length t < fuel)%nat ->
  answers (number_after_sign fuel sign (front t)) t (fun _ t' =>
    is_digit (front t) || (front t =? 0x2e) = true -> (length t' <= length (tail t))%nat).
Proof.
  intros Hf. unfold number_after_sign.
  eapply (answers_bind _ _ _ (fun ch t' => ch = front t' /\
    (is_digit (front t) || (front t =? 0x2e) = true -> t' = t))).
  { destruct fuel as [|fuel]; [lia|]. cbn [skip_newlines]. destruct (_ || _) eqn:E.
    - next. eapply answers_weaken; [apply answers_skip_newlines|].
      + assert (front t <> -1) by (intros E'; rewrite E' in E; discriminate). shorter t.
      + intros ch t' _ ->. split; [done|]. intros Hd. exfalso.
        unfold is_digit in Hd. apply orb_true_iff in E as [E|E]; bool_hyps;
          rewrite E in Hd; discriminate.
    - by apply answers_ret. }
  intros ch t1 Hs1 [-> Ht1]. apply suffix_length in Hs1.
  eapply (answers_bind _ _ _ (fun a t' => a.1 = front t' /\ (length t' <= length t)%nat /\
    (is_digit (front t) || (front t =? 0x2e) = true -> front t <> 0x2e -> t' = t) /\
    (front t = 0x2e -> (length t' <= length (tail t))%nat))).
  { pose proof (tail_le t1). case_bool; [next|]; apply answers_ret; cbn [fst];
      (split_and!; [done|lia| |]).
    - intros Hd Hne. exfalso. apply Hne. by rewrite <- (Ht1 Hd).
    - intros E. rewrite E in Ht1. by rewrite (Ht1 eq_refl).
    - intros Hd _. by apply Ht1.
    - intros E. rewrite E in Ht1. specialize (Ht1 eq_refl). by subst t1. }
  intros [ch div] t2 _ (Hch & Hl2 & Hsame & Hdot). cbn [fst] in Hch. subst ch. cbv iota beta.
  assert (Hdone : ((front t2 <? 48) || (57 <? front t2)) = true ->
    is_digit (front t) || (front t =? 0x2e) = true -> (length t2 <= length (tail t))%nat).
  { intros Hr Hd. destruct (Z.eq_dec (front t) 0x2e) as [E|E]; [by apply Hdot|].
    rewrite (Hsame Hd E) in Hr. apply orb_true_iff in Hd as [Hd|Hd]; [|by bool_hyps].
    unfold is_digit in Hd. bool_hyps. apply orb_true_iff in Hr as [Hr|Hr]; bool_hyps; lia. }
  destruct ((front t2 <? 48) || (57 <? front t2)) eqn:Er;
    [case_bool; [|leaf]; apply answers_ret; by apply Hdone|].
  eapply answers_bind; [apply answers_number_loop; lia|]. intros [? ?] t3 _ Hl3. cbv iota beta.
  apply answers_ret. intros Hd. unfold within in Hl3.
  destruct (Z.eq_dec (front t) 0x2e) as [E|E].
  - pose proof (tail_le t2). specialize (Hdot E). lia.
  - rewrite (Hsame Hd E) in Hl3. done.
Qed.

Lemma answers_getNumber fuel t :
  (length t < fuel)%nat ->
  is_digit (front t) || (front t =? 0x2b) || (front t =? 0x2d) || (front t =? 0x2e) = true ->
  answers (getNumber fuel) t (within (tail t)).
Proof.
  intros Hf Ht. unfold getNumber. cur. pose proof (tail_le t).
  assert (Hsign : forall u sign, (length u <= length (tail t))%nat ->
    answers (number_after_sign fuel sign (front u)) u (within (tail t))).
  { intros u sign Hu. eapply answers_weaken; [apply answers_number_after_sign; lia|].
    intros a t' Hs _. apply suffix_length in Hs. unfold within. lia. }
  case_bool.
  - next. eapply (answers_bind _ _ _ (fun a t' => a = front t' /\ (length t' <= length (tail t))%nat)).
    + case_bool; [|by apply answers_ret].
      eapply answers_weaken; [apply answers_next|]. intros ? ? _ [-> ->]. split; [done|].
      pose proof (tail_le (tail t)). lia.
    + intros a t' _ [-> Ht']. by apply Hsign.
  - case_bool; [next; by apply Hsign|].
    eapply answers_weaken; [by apply answers_number_after_sign|]. intros a t' _ Hl. apply Hl.
    destruct (is_digit (front t)); [done|]. cbn [orb] in *.
    exact Ht.
Qed.

(** The loop of a string goes on after an escape with less text. *)
Lemma answers_escape t :
  answers (escape (front t)) t (fun a t' =>
    match a with
    | (None, _, _) => True
    | (Some _, ch, buffered) =>
        (length t' <= length t)%nat /\ t <> [] /\
        (if buffered : bool then ch = front t' /\ (length t' < length t)%nat else True)
    end).
Proof.
  unfold escape. destruct (Z.eqb_spec (front t) (-1)) as [|Hne]; [by apply answers_ret|].
  assert (Ht : t <> []) by (by intros ->). pose proof (front_tail_lt t Hne) as Hlt.
  repeat (case_bool; [by apply answers_ret|]).
  case_bool.
  - unfold octal_escape. eapply (answers_bind _ _ _ (fun a t' => a.1.2 = front t' /\
      (length t' <= length (tail t))%nat)).
    + next. case_bool; [|apply answers_ret; done].
      next. pose proof (tail_le (tail t)). case_bool; apply answers_ret; done.
    + intros [[x ch] b] t' _ [Hch Hl]. simpl in Hch. subst ch. cbv iota beta.
      apply answers_ret. split_and!; [lia|done|]. destruct b; [|done]. split; [done|lia].
  - case_bool; [|case_bool; by apply answers_ret]. peek.
    eapply (answers_bind _ _ _ (fun _ t' => (length t' <= length t)%nat)).
    + case_bool; [|by apply answers_ret]. next. apply answers_ret. lia.
    + intros _ t' _ Hl. apply answers_ret. done.
Qed.

Lemma answers_string_loop fuel t n buf :
  (length t < fuel)%nat -> answers (string_loop fuel n buf (front t)) t any.
Proof.
  revert t n buf. induction fuel as [|fuel IH]; intros t n buf Hf; [lia|]. cbn [string_loop].
  destruct (Z.eqb_spec (front t) (-1)) as [|Hne]; [leaf|].
  pose proof (front_tail_lt t Hne) as Hlt.
  assert (Hn : forall n buf, answers (ch <- nextChar ;; string_loop fuel n buf ch) t any).
  { intros n' buf'. next. apply IH. lia. }
  case_bool; [apply Hn|]. case_bool; [case_bool; [next; leaf|apply Hn]|].
  case_bool; [clear Hn|apply Hn].
  next. eapply answers_bind; [apply answers_escape|].
  intros [[[chars|] ch] b] t' _ HP; cbv iota beta; [|leaf]. destruct HP as (Hl & Hne' & Hb).
  destruct b.
  - destruct Hb as [-> Hb]. apply IH. lia.
  - next. apply IH. pose proof (tail_le t'). lia.
Qed.

Lemma answers_getString fuel t : (length t < fuel)%nat -> answers (getString fuel) t any.
Proof.
  intros. unfold getString. next. apply answers_string_loop. pose proof (tail_le t). lia.
Qed.

Lemma answers_name_loop fuel t buf :
  (length t < fuel)%nat -> answers (name_loop fuel buf) t (within (tail t)).
Proof.
  revert t buf. induction fuel as [|fuel IH]; intros t buf Hf; [lia|]. cbn [name_loop].
  next.
  destruct (Z.ltb_spec (front (tail t)) 0) as [|Hc]; [leaf|]. cbn [orb].
  assert (length (tail t) < length t)%nat by (shorter t).
  case_bool; [leaf|]. case_bool; [|again IH]. next.
  pose proof (tail_le (tail t)). pose proof (tail_le (tail (tail t))).
  case_bool; [leaf|]. case_bool; [again IH|]. next.
  repeat case_match; first [leaf | again IH].
Qed.

Lemma answers_hex_string_loop fuel t buf d :
  (length t < fuel)%nat -> answers (hex_string_loop fuel buf d (front t)) t any.
Proof.
  revert t buf d. induction fuel as [|fuel IH]; intros t buf d Hf; [lia|]. cbn [hex_string_loop].
  destruct (Z.ltb_spec (front t) 0) as [|Hc]; [leaf|].
  assert (length (tail t) < length t)%nat by (shorter t).
  case_bool; [next; leaf|]. case_bool; [next; apply IH; lia|].
  match goal with |- context [let '(_, _) := ?p in _] => destruct p end.
  next. apply IH. lia.
Qed.

(** Skipping blanks leaves the visible character in front. *)
Lemma answers_skip_blanks fuel comment t :
  (length t < fuel)%nat ->
  answers (skip_blanks fuel comment (front t)) t (fun c t' =>
    match c with Some c => c = front t' /\ 0 <= c | None => True end).
Proof.
  revert comment t. induction fuel as [|fuel IH]; intros comment t Hf; [lia|]. cbn [skip_blanks].
  destruct (Z.ltb_spec (front t) 0) as [|Hc]; [leaf|].
  assert (length (tail t) < length t)%nat by (shorter t).
  repeat case_match; first [apply answers_ret; done | next; apply IH; lia].
Qed.

Lemma answers_command_loop fuel t str b :
  (length t < fuel)%nat -> answers (command_loop kc fuel str b) t (within (tail t)).
Proof.
  revert t str b. induction fuel as [|fuel IH]; intros t str b Hf; [lia|]. cbn [command_loop].
  next.
  destruct (Z.ltb_spec (front (tail t)) 0) as [|Hc]; [leaf|]. cbn [orb].
  assert (length (tail t) < length t)%nat by (shorter t).
  repeat case_match; first [leaf | again IH].
Qed.

Lemma answers_shorten {A} (m : M (Lex S) A) t u :
  answers m t any -> (length t <= length u)%nat -> answers m t (within u).
Proof.
  intros Hm Hu. eapply answers_weaken; [exact Hm|]. intros a t' Hs _.
  apply suffix_length in Hs. unfold within. lia.
Qed.

Lemma answers_modify_bip (f : Lex S -> Z) t :
  answers (modify (fun l => mkLex (lx_stream l) (currentChar l) (f l))) t (within t).
Proof. eapply reads_answers; [apply reads_modify_bip|done|unfold within; lia]. Qed.

Lemma answers_getCommand fuel t :
  (length t < fuel)%nat -> answers (getCommand kc fuel (front t)) t (within (tail t)).
Proof.
  intros Hf. unfold getCommand. pose proof (tail_le t).
  eapply (answers_bind _ _ _ (fun b t' => if b : bool then t' = tail t else t' = t)).
  { case_bool; [|by apply answers_ret]. peek. case_bool; [|by apply answers_ret].
    next. by apply answers_ret. }
  intros b t1 _ Hb. destruct b; subst t1; [apply answers_ret; unfold within; lia|].
  eapply answers_bind; [by apply answers_command_loop|]. intros str t2 _ Ht2.
  unfold within in Ht2. repeat (case_bool; [leaf|]).
  eapply (answers_bind _ _ _ (within t2)); [|intros ? t3 _ Ht3; unfold within in Ht3; leaf].
  case_bool; [apply (answers_modify_bip (fun l => tell (lx_stream l)))|leaf].
Qed.

Lemma answers_lex_token fuel t :
  (length t < fuel)%nat -> answers (lex_token kc fuel (front t)) t (within (tail t)).
Proof.
  intros Hf. unfold lex_token. pose proof (tail_le t) as Hl. pose proof (tail_le (tail t)) as Hl2.
  assert (Hret : forall (o : obj) u, (length u <= length (tail t))%nat ->
    answers (mret o) u (within (tail t))) by (intros; by apply answers_ret).
  case_bool.
  { eapply answers_bind; [apply answers_getNumber; [done|]|].
    - unfold is_digit. done.
    - intros n u _ Hu. by apply Hret. }
  case_bool.
  { unfold getString. eapply (answers_bind _ _ _ (within (tail t))).
    - next. apply answers_shorten; [|done]. apply answers_string_loop. lia.
    - intros s u _ Hu. by apply Hret. }
  case_bool.
  { eapply answers_bind; [by apply answers_name_loop|]. intros s u _ Hu. by apply Hret. }
  do 2 (case_bool; [next; by apply Hret|]).
  case_bool.
  { next. case_bool; [next; by apply Hret|]. unfold getHexString.
    eapply (answers_bind _ _ _ (within (tail t))).
    - cur. apply answers_shorten; [|done]. apply answers_hex_string_loop. lia.
    - intros s u _ Hu. by apply Hret. }
  case_bool; [next; case_bool; [next|]; by apply Hret|].
  do 2 (case_bool; [next; by apply Hret|]).
  case_bool; [next; leaf|]. by apply answers_getCommand.
Qed.

(** Reading a token takes a character at least, except at the end. *)
Lemma answers_lex_getObj fuel t :
  (length t < fuel)%nat ->
  answers (lex_getObj kc fuel) t (fun o t' => o = OEOF \/ (length t' < length t)%nat).
Proof.
  intros Hf. unfold lex_getObj. cur.
  eapply answers_bind; [by apply answers_skip_blanks|]. intros [c|] t1 Hs HP.
  - destruct HP as [-> Hc]. apply suffix_length in Hs.
    eapply answers_weaken; [apply answers_lex_token; lia|]. intros o t2 _ Ht2. right.
    unfold within in Ht2. destruct t1 as [|x t1]; [simpl in Hc; lia|]. simpl in *. lia.
  - apply answers_ret. by left.
Qed.

End Total.

(** C31. The lexer always answers: on a text of [n] characters fuel [n + 1] is
    enough for a token or an exception, what is left is a suffix of the text,
    and it is shorter unless the end of the data was reached. *)
Theorem lexer_answers {S} `{SourceSpec S} `{Seekable S} kc fuel (l : Lex S) t
  (Hl : at_text l t) (Hfuel : (length t < fuel)%nat) :
  exists r l' t', lex_getObj kc fuel l = (r, l') /\ at_text l' t' /\ suffix t' t /\
    r <> OutOfFuel /\ forall o, r = Ok o -> o = OEOF \/ (length t' < length t)%nat.
Proof. by apply answers_lex_getObj. Qed.

Lemma lexer_answers_witness : exists r l' t',
  lex_getObj None 8 (mkLex (new_Stream (js "12 ]") None None) 0x20 (-1)) = (r, l') /\
  at_text l' t' /\ suffix t' (js " 12 ]") /\ r <> OutOfFuel /\
  forall o, r = Ok o -> o = OEOF \/ (length t' < length (js " 12 ]"))%nat.
Proof.
  apply lexer_answers.
  - split; [reflexivity|]. apply new_Stream_rest. repeat constructor; unfold is_byte; lia.
  - vm_compute. lia.
Defined.
