(* ===== verification/Writer.v ===== *)
(** * The writer of objects

    [writeObject] and the functions under it of pdf.worker.mjs: the text of an
    object, with its strings encrypted when a cipher transform is given, and
    the numbers of a cross-reference stream.  The buffer is the text pushed so
    far.  [crypto.getRandomValues] is the oracle [random], one draw after the
    other; [CompressionStream] is the parameter [deflate], [None] when it
    throws; the bytes a [SubStream] is a part of are [file]. *)
From stdpp Require Import gmap.
From Stdlib Require Import SpecFloat.
From S2P Require Import Prelude ByteStream DecodeStream Number64 Primitives Crypto Lexer.
Local Open Scope js_scope.

(** ** Numbers *)

(** [w] decimal digits of [n]. *)
Fixpoint digits (w : nat) (n : Z) : jstr :=
  match w with
  | O => []
  | S w => digits w (n / 10) ++ [0x30 + n mod 10]
  end.

(** The integer nearest to [m * 2^e * scale], the larger of two. *)
Definition round_scaled (scale : Z) (m : positive) (e : Z) : Z :=
  if 0 <=? e then Z.pos m * 2 ^ e * scale else (2 * Z.pos m * scale + 2 ^ (- e)) / 2 ^ (1 - e).

(** [toFixed(10)]: the tenth decimal of the exact value of the double is
    rounded half up. *)
Definition fixed_text (negative : bool) (n : Z) : jstr :=
  (if negative then js "-" else []) ++ dec (n / 10 ^ 10) ++ js "." ++ digits 10 (n mod 10 ^ 10).
Definition toFixed10 (v : num) : jstr :=
  match v with
  | NInt z => fixed_text (z <? 0) (Z.abs z * 10 ^ 10)
  | NReal (S754_finite s m e) => fixed_text s (round_scaled (10 ^ 10) m e)
  | NReal (S754_zero _) => fixed_text false 0
  | NReal (S754_infinity s) => if s then js "-Infinity" else js "Infinity"
  | NReal S754_nan => js "NaN"
  end.

(** The characters of a string from its end, without the zeros there. *)
Fixpoint strip_zeros (rev_str : jstr) : jstr :=
  match rev_str with
  | 0x30 :: r => strip_zeros r
  | _ => rev_str
  end.

Definition numberToPDFString (v : num) : jstr :=
  match num_int v with
  | Some z =>
      if 10 ^ 21 <=? Z.abs z then (** [BigInt(value).toString()] *)
        (if z <? 0 then js "-" else []) ++ dec (Z.abs z)
      else rev (match strip_zeros (rev (toFixed10 v)) with 0x2e :: r => r | r => r end)
  | None => rev (match strip_zeros (rev (toFixed10 v)) with 0x2e :: r => r | r => r end)
  end.

(** [`${num} ${gen} R`] of a reference. *)
Definition ref_text (num gen : Z) : jstr := dec num ++ js " " ++ dec gen ++ js " R".

(** ** Objects *)

Record WriterState := mkWriter {
  w_buffer : jstr;
  w_transform : option CipherTransform;
  w_draws : nat
}.

Section Writer.
Context (fetch : Z -> Z -> bool -> res value) (random : nat -> list Z)
  (deflate : list Z -> option (list Z)) (file : list Z).
Abbreviation W := (M WriterState).

(** [buffer.push(text)] *)
Definition push (text : jstr) : W unit :=
  modify (fun w => mkWriter (w_buffer w ++ text) (w_transform w) (w_draws w)).

(** [if (transform) value = transform.encryptString(value)] *)
Definition encrypted (s : jstr) : W jstr := fun w =>
  match w_transform w with
  | None => (Ok s, w)
  | Some t =>
      let '(r, t) := encryptString (random (w_draws w)) s t in
      (r, mkWriter (w_buffer w) (Some t) (S (w_draws w)))
  end.

(** The stream under the filters, and its bytes. *)
Fixpoint getOriginalStream (s : StreamOf obj) : StreamOf obj :=
  match s with FilterStream _ s' _ => getOriginalStream s' | _ => s end.
Definition original_bytes (s : StreamOf obj) : W (list Z) :=
  match s with
  | SubStream start length =>
      fun w => (fst (stream_getBytes 0 (new_Stream file (Some start) (Some length))), w)
  | _ => mret []
  end.

Definition is_one_of (v : value) (names : list string) : bool :=
  existsb (fun n => isName v (js n)) names.

(** The dictionary of a stream whose bytes were compressed. *)
Definition compressed_dict (dict : Dict) (filter params : value) (isFilterZeroFlateDecode : bool)
    : Dict :=
  let flate := OName (js "FlateDecode") in
  let newFilter :=
    if negb (truthy filter) then Some flate
    else if negb isFilterZeroFlateDecode then
      match filter with
      | Some (OArr l) => Some (OArr (flate :: l))
      | Some f => Some (OArr [flate; f])
      | None => None
      end
    else None in
  let newParams :=
    if truthy filter && negb isFilterZeroFlateDecode && truthy params then
      match params with
      | Some (OArr l) => Some (OArr (ONull :: l))
      | Some p => Some (OArr [ONull; p])
      | None => None
      end
    else None in
  let dict := match newFilter with Some f => dict_set dict (js "Filter") f | None => dict end in
  match newParams with Some p => dict_set dict (js "DecodeParms") p | None => dict end.

Definition MIN_LENGTH_FOR_COMPRESSING : Z := 256.

(** The bytes and the dictionary [writeStream] writes. *)
Definition compress (dict : Dict) (bytes : list Z) : W (Dict * list Z) :=
  filter <- lift (dict_get fetch dict (js "Filter")) ;;
  params <- lift (dict_get fetch dict (js "DecodeParms")) ;;
  filterZero <- (match filter with
                 | Some (OArr l) =>
                     match head l with
                     | Some (ORef num gen) => lift (fetch num gen false)
                     | v => mret v
                     end
                 | v => mret v
                 end) ;;
  let isFilterZeroFlateDecode := isName filterZero (js "FlateDecode") in
  let isFilterZeroCompressedObject :=
    isFilterZeroFlateDecode ||
    is_one_of filterZero ["DCTDecode"; "JPXDecode"; "JBIG2Decode"; "CCITTFaxDecode"; "LZWDecode";
      "BrotliDecode"]%string in
  if negb isFilterZeroCompressedObject && (MIN_LENGTH_FOR_COMPRESSING <=? len bytes) then
    match deflate bytes with
    | Some bytes => mret (compressed_dict dict filter params isFilterZeroFlateDecode, bytes)
    | None => mret (dict, bytes)
    end
  else mret (dict, bytes).

(** The elements of an array between brackets. *)
Fixpoint write_elements (writeValue : obj -> W unit) (l : list obj) : W unit :=
  match l with
  | [] => mret tt
  | [v] => writeValue v
  | v :: l => writeValue v ;;; push (js " ") ;;; write_elements writeValue l
  end.
Definition writeArray (writeValue : obj -> W unit) (array : list obj) : W unit :=
  push (js "[") ;;; write_elements writeValue array ;;; push (js "]").

Fixpoint write_entries (writeValue : obj -> W unit) (entries : list (jstr * obj)) : W unit :=
  match entries with
  | [] => mret tt
  | (key, rawObj) :: entries =>
      push (js " /" ++ escapePDFName key ++ js " ") ;;;
      writeValue rawObj ;;; write_entries writeValue entries
  end.
Definition writeDict (writeValue : obj -> W unit) (dict : Dict) : W unit :=
  push (js "<<") ;;; write_entries writeValue (d_map dict) ;;; push (js ">>").

Definition writeStream (writeValue : obj -> W unit) (dict : Dict) (stream : StreamOf obj) : W unit :=
  bytes <- original_bytes (getOriginalStream stream) ;;
  let* (dict, bytes) <- compress dict bytes ;;
  string <- encrypted (bytesToString bytes) ;;
  let dict := dict_set dict (js "Length") (OInt (len string)) in
  writeDict writeValue dict ;;;
  push (js " stream" ++ [0x0a] ++ string ++ [0x0a] ++ js "endstream").

(** [fuel] bounds the nesting of the value. *)
Fixpoint writeValue (fuel : nat) (v : obj) : W unit :=
  match fuel with
  | O => out_of_fuel
  | S fuel =>
      match v with
      | OName name => push (js "/" ++ escapePDFName name)
      | ORef num gen => push (ref_text num gen)
      | OArr l => writeArray (writeValue fuel) l
      | OStr s => s <- encrypted s ;; push (js "(" ++ escapeString s ++ js ")")
      | ONum n => push (numberToPDFString n)
      | OBool b => push (if b then js "true" else js "false")
      | ODict d => writeDict (writeValue fuel) d
      | OStream d s _ => writeStream (writeValue fuel) d s
      | ONull => push (js "null")
      | OCmd _ | OEOF => mret tt
      end
  end.

(** [transform] is the transform of the object's number, or none. *)
Definition writeObject (fuel : nat) (num gen : Z) (v : obj) : W unit :=
  push (dec num ++ js " " ++ dec gen ++ js " obj" ++ [0x0a]) ;;;
  writeValue fuel v ;;;
  push ([0x0a] ++ js "endobj" ++ [0x0a]).
End Writer.

(** ** Integers and strings in a byte buffer *)

(** [for (i = size + offset - 1; i > offset - 1; i--)] *)
Fixpoint write_int_loop (n : nat) (number offset : Z) (buffer : list Z) : list Z :=
  match n with
  | O => buffer
  | S n => write_int_loop n (number .>> 8) offset (arr_set buffer (offset + Z.of_nat n) (number .& 0xff))
  end.
Definition writeInt (number size offset : Z) (buffer : list Z) : Z * list Z :=
  (offset + size, write_int_loop (Z.to_nat size) number offset buffer).

Fixpoint write_string_loop (string : jstr) (offset : Z) (buffer : list Z) : list Z :=
  match string with
  | [] => buffer
  | c :: string => write_string_loop string (offset + 1) (arr_set buffer offset (c .& 0xff))
  end.
Definition writeString (string : jstr) (offset : Z) (buffer : list Z) : Z * list Z :=
  (offset + len string, write_string_loop string offset buffer).
