(* ===== verification/Numerals.v ===== *)
(** * Numbers as text

    What [numberToPDFString] prints of an integer below 2^53, or of the double
    nearest to a decimal fraction of at most ten places and below 450,359 (2^52
    units of the tenth place), and that the lexer reads the same double back.
    Greater fractions are printed and read too, but need not come back the same:
    [written_number_changes]. *)
From Stdlib Require Import SpecFloat.
From S2P Require Import Prelude JsBits ByteStream DecodeStream Ascii85 Number64 FloatLaws Primitives Lexer LexerSpec.
From S2P Require Import Writer.
Local Open Scope js_scope.

(** The double nearest to [n / 10^k]. *)
Definition nearest (s : bool) (n : Z) (k : nat) : float :=
  fmul (of_Z (if s then -1 else 1)) (fdiv (of_Z n) (of_Z (10 ^ Z.of_nat k))).

(** A number the printed text stands for: an integer below 2^53, or the double
    nearest to a decimal fraction of ten places at most, in lowest terms and
    below 2^52 in units of the tenth place. *)
Definition decimal_fraction (f : float) : bool :=
  match f with
  | S754_finite s m e =>
      existsb (fun k =>
        let n := round_scaled (10 ^ Z.of_nat k) m e in
        (0 <? n) && negb (n mod 10 =? 0) && (n * 10 ^ Z.of_nat (10 - k) <? 2 ^ 52) && bool_decide (f = nearest s n k))
        (seq 1 10)
  | _ => false
  end.
Definition exact_numeral (v : num) : bool :=
  match v with NInt z => Z.abs z <? 2 ^ 53 | NReal f => decimal_fraction f end.

Lemma exact_cases v : exact_numeral v = true ->
  (exists z, v = NInt z /\ Z.abs z < 2 ^ 53) \/
  exists s n k, (0 < k <= 10)%nat /\ 0 < n /\ n mod 10 <> 0 /\ n * 10 ^ Z.of_nat (10 - k) < 2 ^ 52 /\ v = NReal (nearest s n k).
Proof.
  destruct v as [z|f]; cbn [exact_numeral]; intros H; [left; bool_hyps; eauto|right].
  destruct f as [?|?| |s m e]; try done. unfold decimal_fraction in H. apply existsb_exists in H as (k & Hin & H).
  cbv zeta in H. bool_hyps. apply in_seq in Hin. apply bool_decide_eq_true in H0.
  eexists s, _, k. split; [lia|]. split; [eassumption|]. split; [eassumption|]. split; [eassumption|]. by f_equal.
Qed.

(** The double of such a fraction: its place in the binary expansion is below
    the tenth decimal, so the decimal text of the fraction is told from it. *)
Lemma nearest_value s n k : (0 < k <= 10)%nat -> 0 < n -> n mod 10 <> 0 -> n * 10 ^ Z.of_nat (10 - k) < 2 ^ 52 ->
  exists m e, nearest s n k = S754_finite s m e /\ isInteger (S754_finite s m e) = false /\
    round_scaled (10 ^ 10) m e = n * 10 ^ Z.of_nat (10 - k).
Proof.
  intros Hk Hn Hmod Hlt. set (K := 10 ^ Z.of_nat k). set (J := 10 ^ Z.of_nat (10 - k)) in *.
  assert (HK : 10 <= K) by (unfold K; change 10 with (10 ^ 1) at 1; apply Z.pow_le_mono_r; lia).
  assert (HJ : 0 < J) by (apply Z.pow_pos_nonneg; lia).
  assert (HKJ : K * J = 10 ^ 10) by (unfold K, J; rewrite <- Z.pow_add_r by lia; f_equal; lia).
  destruct (fdiv_int n K) as (m & e & E & Hm & He & Habs); [nia|nia|].
  assert (Hd : is_double (S754_finite false m e) = true).
  { unfold is_double, valid_binary, bounded, canonical_mantissa. rewrite (digits_between m 53) by lia. cbn [isFinite andb].
    apply andb_true_iff. unfold fexp, emin. lia. }
  assert (HJn : 2 * Z.abs (Z.pos m * 10 ^ 10 - n * J * 2 ^ (- e)) <= 10 ^ 10).
  { rewrite <- HKJ. replace (Z.pos m * (K * J) - n * J * 2 ^ (- e)) with ((Z.pos m * K - n * 2 ^ (- e)) * J) by ring.
    rewrite Z.abs_mul, (Z.abs_eq J) by lia. nia. }
  assert (Hneg : e <= -34).
  { destruct (Z.le_gt_cases e (-34)) as [|Hge]; [done|exfalso].
    pose proof (Z.pow_le_mono_r 2 (- e) 33 ltac:(lia) ltac:(lia)). nia. }
  assert (HP : 2 ^ 34 <= 2 ^ (- e)) by (apply Z.pow_le_mono_r; lia). set (P := 2 ^ (- e)) in *.
  exists m, e. split_and!.
  - unfold nearest. fold K. rewrite E, fmul_comm.
    destruct s; [by rewrite fmul_minus_one_r|by rewrite fmul_one_r].
  - cbn [isInteger]. rewrite (proj2 (Z.leb_gt 0 e)) by lia. fold P. cbn [orb]. apply Z.eqb_neq. intros Hz.
    apply Z.mod_divide in Hz as [j Hj]; [|lia]. rewrite Hj in HJn, Habs.
    assert (Hjn : n = j * K).
    { replace (j * P * 10 ^ 10 - n * J * P) with ((j * K - n) * J * P) in HJn by (rewrite <- HKJ; ring).
      rewrite !Z.abs_mul, (Z.abs_eq J), (Z.abs_eq P) in HJn by lia. nia. }
    apply Hmod. rewrite Hjn. unfold K. replace (Z.of_nat k) with (1 + (Z.of_nat k - 1)) by lia.
    rewrite Z.pow_add_r by lia. rewrite (Z.mul_comm (10 ^ 1)), Z.mul_assoc. apply Z.mod_mul. lia.
  - unfold round_scaled. rewrite (proj2 (Z.leb_gt 0 e)) by lia. fold P.
    replace (2 ^ (1 - e)) with (2 * P) by (unfold P; replace (1 - e) with (1 + - e) by lia; rewrite Z.pow_add_r by lia; done).
    symmetry. apply (Z.div_unique _ _ _ (2 * Z.pos m * 10 ^ 10 + P - 2 * P * (n * J))); [left|]; lia.
Qed.

(** ** Digits *)

Lemma length_digits w n : length (digits w n) = w.
Proof.
  revert n. induction w as [|w IH]; intros n; [done|]. cbn [digits]. rewrite length_app, IH. simpl. lia.
Qed.

Lemma digits_digit w n : Forall (fun c => is_digit c = true) (digits w n).
Proof.
  revert n. induction w as [|w IH]; intros n; [constructor|]. cbn [digits].
  apply Forall_app. split; [done|]. constructor; [|constructor]. apply digit_range.
  pose proof (Z.mod_pos_bound n 10 ltac:(lia)). lia.
Qed.

Lemma fold_digits w n v : 0 <= n ->
  fold_left (fun v c => v * 10 + (c - 0x30)) (digits w n) v = v * 10 ^ Z.of_nat w + n mod 10 ^ Z.of_nat w.
Proof.
  revert n. induction w as [|w IH]; intros n Hn.
  - change (10 ^ Z.of_nat 0) with 1. rewrite Z.mod_1_r. simpl. lia.
  - cbn [digits]. rewrite fold_left_app, IH by (apply Z.div_pos; lia). cbn [fold_left].
    rewrite Nat2Z.inj_succ, Z.pow_succ_r by lia.
    rewrite (Z.rem_mul_r n 10) by lia. lia.
Qed.

(** The digits of a multiple of a power of ten end in zeros. *)
Lemma digits_shift w j m :
  digits (w + j) (m * 10 ^ Z.of_nat j) = digits w m ++ replicate j 0x30.
Proof.
  induction j as [|j IH].
  - rewrite Nat.add_0_r. change (10 ^ Z.of_nat 0) with 1. by rewrite Z.mul_1_r, app_nil_r.
  - rewrite Nat.add_succ_r. cbn [digits]. rewrite Nat2Z.inj_succ, Z.pow_succ_r by lia.
    replace (m * (10 * 10 ^ Z.of_nat j)) with (m * 10 ^ Z.of_nat j * 10) by lia.
    rewrite Z.div_mul, Z.mod_mul, IH, <- app_assoc, Z.add_0_r by lia. f_equal.
    symmetry. apply (replicate_cons_app j).
Qed.

Lemma strip_zeros_replicate x j : strip_zeros (rev (x ++ replicate j 0x30)) = strip_zeros (rev x).
Proof.
  rewrite rev_app_distr. induction j as [|j IH]; [done|].
  rewrite replicate_S_end, rev_app_distr. exact IH.
Qed.

Lemma strip_integer x :
  rev (match strip_zeros (rev (x ++ js "." ++ replicate 10 0x30)) with 0x2e :: r => r | r => r end) = x.
Proof.
  rewrite app_assoc, strip_zeros_replicate, rev_app_distr. cbn [rev app js String.list_ascii_of_string map].
  apply rev_involutive.
Qed.

Lemma strip_fraction x w m j : m mod 10 <> 0 ->
  rev (match strip_zeros (rev (x ++ digits (S w) m ++ replicate j 0x30)) with 0x2e :: r => r | r => r end)
  = x ++ digits (S w) m.
Proof.
  intros Hm. rewrite app_assoc, strip_zeros_replicate. cbn [digits]. rewrite !rev_app_distr. cbn [rev app].
  pose proof (Z.mod_pos_bound m 10 ltac:(lia)).
  assert (Hd : 48 + m mod 10 <> 48 /\ 48 + m mod 10 <> 46) by lia.
  set (c := 48 + m mod 10) in *.
  assert (Hstrip : strip_zeros (c :: rev (digits w (m / 10)) ++ rev x)
                   = c :: rev (digits w (m / 10)) ++ rev x).
  { cbn [strip_zeros]. repeat (case_match; try done). lia. }
  rewrite Hstrip.
  assert (Hdot : forall r : list Z, match c :: r with 0x2e :: r => r | r => r end = c :: r).
  { intros r. repeat (case_match; try done). lia. }
  rewrite Hdot. cbn [rev]. rewrite rev_app_distr, !rev_involutive. by rewrite <- app_assoc.
Qed.

(** ** Printing *)

Lemma print_integer z :
  numberToPDFString (NInt z) = (if z <? 0 then js "-" else []) ++ dec (Z.abs z).
Proof.
  unfold numberToPDFString. cbn [num_int]. case_bool; [done|].
  unfold toFixed10, fixed_text. rewrite Z.div_mul, Z.mod_mul by lia. change (digits 10 0) with (replicate 10 0x30).
  rewrite app_assoc. apply strip_integer.
Qed.

Lemma print_fraction s n k : (0 < k <= 10)%nat -> 0 < n -> n mod 10 <> 0 -> n * 10 ^ Z.of_nat (10 - k) < 2 ^ 52 ->
  numberToPDFString (NReal (nearest s n k)) =
  (if s then js "-" else []) ++ dec (n / 10 ^ Z.of_nat k) ++ js "." ++ digits k (n mod 10 ^ Z.of_nat k).
Proof.
  intros Hk Hn Hmod Hlt. destruct (nearest_value s n k Hk Hn Hmod Hlt) as (m & e & -> & _ & Hr).
  unfold numberToPDFString. cbn [num_int toFixed10]. rewrite Hr. unfold fixed_text.
  set (j := (10 - k)%nat). assert (Hpj : 0 < 10 ^ Z.of_nat j) by (apply Z.pow_pos_nonneg; lia).
  assert (Hp : 0 < 10 ^ Z.of_nat k) by (apply Z.pow_pos_nonneg; lia).
  assert (H10 : 10 ^ 10 = 10 ^ Z.of_nat k * 10 ^ Z.of_nat j)
    by (rewrite <- Z.pow_add_r by lia; f_equal; lia).
  rewrite H10, Z.div_mul_cancel_r, Z.mul_mod_distr_r by lia.
  replace 10%nat with (k + j)%nat by lia. rewrite digits_shift. rewrite !app_assoc.
  rewrite <- (app_assoc _ (digits k _)). destruct k as [|k]; [lia|]. apply strip_fraction.
  rewrite Nat2Z.inj_succ, Z.pow_succ_r, Z.rem_mul_r by lia.
  by rewrite (Z.mul_comm 10), Z.mod_add, Z.mod_mod by lia.
Qed.

(** ** Reading *)

Section Read.
Context {S : Type} `{SourceSpec S} `{Seekable S}.
Context (kc : option (jstr -> option Command)).

Ltac next := eapply reads_bind; [apply reads_next|].

(** The digits after the point. *)
Lemma number_loop_fraction fuel c d r base div :
  Forall (fun c => is_digit c = true) d -> ends_number r -> 0 < div -> div * 10 ^ len d < 2 ^ 53 -> (length d < fuel)%nat ->
  reads (number_loop fuel base (of_Z div)) (c :: d ++ r)
    (fold_left push_digit d base, of_Z (div * 10 ^ len d)) r.
Proof.
  intros Hd Hr. revert fuel c base div. induction Hd as [|x d Hx _ IH]; intros fuel c base div Hdiv Hlt Hf;
    (destruct fuel as [|fuel]; [simpl in Hf; lia|]); cbn [number_loop app fold_left].
  - change (10 ^ len []) with 1. rewrite Z.mul_1_r.
    next. destruct r as [|y r]; [apply reads_ret|]. cbn [front].
    destruct Hr as (Hy & Hy1 & Hy2 & Hy3). rewrite (proj2 (Z.ltb_ge y 0)) by lia.
    change ((48 <=? y) && (y <=? 57)) with (is_digit y). rewrite Hy.
    rewrite (proj2 (Z.eqb_neq y 46)), (proj2 (Z.eqb_neq y 45)) by done. apply reads_ret.
  - rewrite len_cons, Z.pow_add_r in * by (pose proof (len_nonneg d); lia).
    assert (Hp : 0 < 10 ^ len d) by (apply Z.pow_pos_nonneg; [lia|apply len_nonneg]).
    next. cbn [front]. apply digit_range in Hx as Hx'. rewrite (proj2 (Z.ltb_ge x 0)) by lia.
    change ((48 <=? x) && (x <=? 57)) with (is_digit x). rewrite Hx.
    rewrite of_Z_not_zero by nia. rewrite fmul_int by (unfold safe; nia).
    replace (div * (10 ^ len d * 10 ^ 1)) with (div * 10 * 10 ^ len d) in * by lia.
    apply IH; [lia|done|]. simpl in Hf. lia.
Qed.

Lemma number_loop_decimal fuel c d e r base :
  Forall (fun c => is_digit c = true) d -> Forall (fun c => is_digit c = true) e ->
  ends_number r -> 10 ^ len e < 2 ^ 53 -> (length (d ++ e) + 1 < fuel)%nat ->
  reads (number_loop fuel base fzero) (c :: d ++ 0x2e :: e ++ r)
    (fold_left push_digit (d ++ e) base, of_Z (10 ^ len e)) r.
Proof.
  intros Hd He Hr Hlt. revert fuel c base. induction Hd as [|x d Hx _ IH]; intros fuel c base Hf;
    (destruct fuel as [|fuel]; [simpl in Hf; lia|]); cbn [number_loop app fold_left].
  - next. cbn [front Z.ltb Z.compare Z.leb Z.eqb Pos.eqb Pos.compare Pos.compare_cont andb].
    change (feq fzero fzero) with true. cbv iota. rewrite <- (Z.mul_1_l (10 ^ len e)).
    apply number_loop_fraction; [done|done|lia|lia|]. simpl in Hf. lia.
  - next. cbn [front]. apply digit_range in Hx as Hx'. rewrite (proj2 (Z.ltb_ge x 0)) by lia.
    change ((48 <=? x) && (x <=? 57)) with (is_digit x). rewrite Hx. change (feq fzero fzero) with true. cbv iota.
    apply IH. simpl in Hf. lia.
Qed.

(** A numeral with a fraction is read as the quotient, in doubles, of its
    digits by the power of ten. *)
Lemma reads_decimal fuel s c d e r :
  Forall (fun c => is_digit c = true) (c :: d) -> Forall (fun c => is_digit c = true) e ->
  ends_number r -> parse_dec (c :: d ++ e) < 2 ^ 53 -> 10 ^ len e < 2 ^ 53 -> (length (c :: d ++ e) + 1 < fuel)%nat ->
  reads (number_after_sign fuel (if s : bool then -1 else 1) c) (c :: d ++ 0x2e :: e ++ r)
    (num_of_float (nearest s (parse_dec (c :: d ++ e)) (length e))) r.
Proof.
  intros Hd He Hr Hlt Hlt' Hf. apply Forall_cons in Hd as [Hc Hd]. apply digit_range in Hc.
  destruct fuel as [|fuel]; [simpl in Hf; lia|]. unfold number_after_sign.
  eapply reads_bind.
  { cbn [skip_newlines]. rewrite (proj2 (Z.eqb_neq c 10)), (proj2 (Z.eqb_neq c 13)) by lia.
    apply reads_ret. }
  rewrite (proj2 (Z.eqb_neq c 46)) by lia. eapply reads_bind; [apply reads_ret|]. cbv iota beta.
  rewrite (proj2 (Z.ltb_ge c 48)), (proj2 (Z.ltb_ge 57 c)) by lia. cbn [orb].
  eapply reads_bind; [apply number_loop_decimal; [done|done|done|done|simpl in Hf; lia]|].
  assert (Hp : 0 < 10 ^ len e) by (apply Z.pow_pos_nonneg; [lia|apply len_nonneg]).
  cbv iota beta. rewrite of_Z_not_zero by lia. unfold parse_dec in *. cbn [fold_left] in *. rewrite Z.mul_0_l, Z.add_0_l in *.
  assert (Hde : Forall (fun c => is_digit c = true) (d ++ e)) by (by apply Forall_app).
  rewrite push_digits by (done || lia). apply reads_ret.
Qed.

(** The numeral of a number, after a sign. *)
Lemma lexes_signed (n : num) (neg : bool) c d r s :
  is_digit c = true ->
  (forall fuel, (length (c :: d ++ r) < fuel)%nat ->
     reads (number_after_sign fuel (if neg then -1 else 1) c) (c :: d ++ r) n r) ->
  s = (if neg then js "-" else []) -> lexes kc (s ++ c :: d) (ONum n) r.
Proof.
  intros Hc Hn ->. apply digit_range in Hc.
  assert (Hnum : forall fuel, (length (c :: d ++ r) < fuel)%nat ->
    reads (getNumber fuel) ((if neg then js "-" else []) ++ c :: d ++ r) n r).
  { intros fuel Hf. unfold getNumber. eapply reads_bind; [apply reads_current|].
    destruct neg; cbn [js String.list_ascii_of_string map app front].
    - cbn [Z.eqb Z.of_N Ascii.N_of_ascii Ascii.N_of_digits]. next. cbn [front].
      rewrite (proj2 (Z.eqb_neq c 45)) by lia. eapply reads_bind; [apply reads_ret|]. by apply Hn.
    - rewrite (proj2 (Z.eqb_neq c 45)), (proj2 (Z.eqb_neq c 43)) by lia. by apply Hn. }
  assert (Hlex : forall x, 0x30 <= x <= 0x39 \/ x = 0x2d -> forall fuel t,
    reads (getNumber fuel) t n r -> reads (lex_token kc fuel x) t (ONum n) r).
  { intros x Hx fuel t Ht. unfold lex_token.
    replace (_ || _ || _ || _) with true.
    - eapply reads_bind; [exact Ht|apply reads_ret].
    - symmetry. destruct Hx as [Hx | ->]; [|done].
      by rewrite (proj2 (Z.leb_le 48 x)), (proj2 (Z.leb_le x 57)) by lia. }
  destruct neg.
  - apply (lexes_intro kc 0x2d (c :: d)); [apply starts_visible; unfold is_byte; lia|].
    intros fuel Hf. apply Hlex; [by right|]. apply Hnum. cbn [app length] in *. lia.
  - apply (lexes_intro kc c d); [apply starts_visible; unfold is_byte; lia|].
    intros fuel Hf. apply Hlex; [by left|]. by apply Hnum.
Qed.

(** The text of a number is read as that number. *)
Lemma lexes_integer z r : Z.abs z < 2 ^ 53 -> ends_number r -> lexes kc (numberToPDFString (NInt z)) (OInt z) r.
Proof.
  intros Hz Hr. rewrite print_integer. destruct (dec_first (Z.abs z) ltac:(lia)) as (c & d & E & Hc).
  destruct (dec_spec (Z.abs z) ltac:(lia)) as (Hd & Hp & _). rewrite E in *.
  apply (lexes_signed (NInt z) (z <? 0)); [by apply Forall_cons in Hd as [? _]| |done].
  intros fuel Hf. replace z with ((if z <? 0 then -1 else 1) * parse_dec (c :: d)) at 2 by (rewrite Hp; case_bool; lia).
  apply reads_digits; [case_bool; auto|lia|done|done|].
  cbn [length] in *. rewrite length_app in Hf. lia.
Qed.

Lemma lexes_number v r : exact_numeral v = true -> ends_number r -> lexes kc (numberToPDFString v) (ONum v) r.
Proof.
  intros Hl Hr. destruct (exact_cases v Hl) as [(z & -> & Hz)|(s & n & k & Hk & Hn & Hmod & Hlt & ->)]; [by apply lexes_integer|].
  rewrite print_fraction by done. set (p := 10 ^ Z.of_nat k). set (J := 10 ^ Z.of_nat (10 - k)) in *.
  assert (Hpp : 0 < p) by (apply Z.pow_pos_nonneg; lia). assert (HJ : 0 < J) by (apply Z.pow_pos_nonneg; lia).
  assert (Hpk : p <= 10 ^ 10) by (apply Z.pow_le_mono_r; lia).
  destruct (dec_first (n / p)) as (c & d & E & Hc); [apply Z.div_pos; lia|].
  destruct (dec_spec (n / p)) as (Hd & Hp & _); [apply Z.div_pos; lia|]. rewrite E in *.
  change ((c :: d) ++ js "." ++ digits k (n mod p)) with (c :: (d ++ 0x2e :: digits k (n mod p))).
  apply (lexes_signed _ s); [by apply Forall_cons in Hd as [? _]| |done].
  intros fuel Hf. assert (Hlen : length (digits k (n mod p)) = k) by apply length_digits.
  assert (Hval : parse_dec (c :: d ++ digits k (n mod p)) = n).
  { change (c :: d ++ digits k (n mod p)) with ((c :: d) ++ digits k (n mod p)).
    unfold parse_dec in *. rewrite fold_left_app, Hp, fold_digits by (apply Z.mod_pos_bound; lia).
    fold p. rewrite Z.mod_mod by lia. pose proof (Z.div_mod n p ltac:(lia)). lia. }
  destruct (nearest_value s n k Hk Hn Hmod Hlt) as (m & e & Em & Hi & _).
  replace (NReal (nearest s n k)) with (num_of_float (nearest s (parse_dec (c :: d ++ digits k (n mod p))) (length (digits k (n mod p))))).
  2: { rewrite Hval, Hlen, Em. unfold num_of_float. by rewrite Hi. }
  rewrite <- app_assoc. cbn [app]. apply reads_decimal; [done|apply digits_digit|done|rewrite Hval; nia| |].
  - unfold len. rewrite Hlen. fold p. lia.
  - cbn [length] in *. rewrite !length_app in *. cbn [length] in *. lia.
Qed.
End Read.

(** ** Printed tokens *)

(** A token as the writer prints it, and what it needs after it. *)
Inductive printed_token : list Z -> obj -> list Z -> Prop :=
| printed_string s r :
    Forall is_byte s -> printed_token (0x28 :: escapeString s ++ [0x29]) (OStr s) r
| printed_name s r :
    Forall is_byte s -> ends_word r -> printed_token (0x2f :: escapePDFName s) (OName s) r
| printed_number n r :
    exact_numeral n = true -> ends_number r -> printed_token (numberToPDFString n) (ONum n) r
| printed_word w r :
    plain_word w = true -> ends_word r -> printed_token w (word_obj w) r
| printed_bracket w r :
    w ∈ [js "["; js "]"; js "<<"; js ">>"] -> printed_token w (OCmd w) r.

Lemma printed_lexes {S} `{SourceSpec S} `{Seekable S} kc t o r :
  (forall p, known kc p = false) -> printed_token t o r -> lexes (S := S) kc t o r.
Proof.
  intros Hkc [s r' Hs|s r' Hs Hr|n r' Hn Hr|w r' Hw Hr|w r' Hw].
  - by apply lexes_string.
  - by apply lexes_name.
  - by apply lexes_number.
  - by apply lexes_word.
  - rewrite !elem_of_cons in Hw. destruct Hw as [->|[->|[->|[->|Hw]]]].
    + apply lexes_open_array.
    + apply lexes_close_array.
    + apply lexes_open_dict.
    + apply lexes_close_dict.
    + by apply elem_of_nil in Hw.
Qed.

(** A document's number 9713106.09 is written with the digits of its double
    and read back as another double: the digits exceed 2^53, and the lexer
    rounds them before it divides. *)
Definition read_text (text : jstr) : option obj :=
  match new_Lexer (new_Stream text None None) with
  | Ok l => match lex_getObj None 40 l with (Ok o, _) => Some o | _ => None end
  | _ => None
  end.

Example written_number_changes :
  let x := lit 971310609 100 in
  read_text (js "9713106.09") = Some (ONum (NReal x)) /\ numberToPDFString (NReal x) = js "9713106.0899999999" /\
  match read_text (js "9713106.0899999999") with Some (ONum (NReal y)) => flt x y = true | _ => False end.
Proof. vm_compute. done. Qed.

(** C19. The lexer inverts printing: over any byte stream, after any white
    space and comments, a string escaped by [escapeString], a name escaped by
    [escapePDFName], a number printed by [numberToPDFString], a keyword or a
    bracket is read as the object it was printed from, and the text after it is
    left.  The numbers are the integers below 2^53 and the doubles nearest to a
    decimal fraction of ten places at most and below 2^52 units of the tenth;
    greater fractions need not come back the same. *)
Theorem lexer_reads_printed {S} `{SourceSpec S} `{Seekable S} kc b t o r fuel (l : Lex S)
  (Hkc : forall p, known kc p = false) (Hblank : blank b) (Ht : printed_token t o r)
  (Hl : at_text l (b ++ t ++ r)) (Hfuel : (length (b ++ t ++ r) < fuel)%nat) :
  exists l', lex_getObj kc fuel l = (Ok o, l') /\ at_text l' r.
Proof.
  apply (reads_lex_getObj kc b t o r fuel Hblank); [by apply printed_lexes|done|done].
Qed.

Lemma lexer_reads_printed_witness : exists l',
  lex_getObj None 40 (mkLex (new_Stream (js " % x" ++ [0x0a] ++ js "(a\(\\)/B") None None) 0x20 (-1)) =
    (Ok (OStr (js "a(\")), l') /\ at_text l' (js "/B").
Proof.
  apply (lexer_reads_printed None (js "  % x" ++ [0x0a]) (0x28 :: escapeString (js "a(\") ++ [0x29])
    (OStr (js "a(\")) (js "/B") 40).
  - reflexivity.
  - apply blank_white; [reflexivity|]. apply blank_white; [reflexivity|].
    apply (blank_comment [0x20; 0x78] 0x0a []); [|by left|constructor].
    repeat constructor; lia.
  - constructor. repeat constructor; unfold is_byte; lia.
  - split; [reflexivity|]. apply new_Stream_rest. repeat constructor; unfold is_byte; lia.
  - vm_compute. lia.
Defined.
