(* ===== verification/Parser.v ===== *)
(** * The parser of objects

    [Parser] of pdf.worker.mjs over an in-memory [Stream]: arrays,
    dictionaries, references, stream objects with their filters, and inline
    images.  The stream of a stream object is kept as the constructors the code
    calls ([StreamOf]); [header] gives the two bytes at the front of a stream
    that is itself filtered, which the constructor of [FlateStream] checks.
    The [cipherTransform] argument of [getObj] is the field [p_transform]: all
    the calls below it pass it on.  [fuel] bounds the nesting and the loops of
    a call; the fuel of the lexer is the length of the data. *)
From stdpp Require Import gmap.
From S2P Require Import Prelude ByteStream DecodeStream Ascii85 Predictor Flate Primitives Crypto Lexer.
Local Open Scope js_scope.

Record Parser := mkParser {
  p_lexer : Lex Stream;
  buf1 : obj;
  buf2 : obj;
  p_transform : option CipherTransform;
  imageCache : list (jstr * obj);
  imageId : Z
}.
Abbreviation P := (M Parser).

Definition set_lexer (l : Lex Stream) (p : Parser) : Parser :=
  mkParser l (buf1 p) (buf2 p) (p_transform p) (imageCache p) (imageId p).
Definition set_buf1 (o : obj) (p : Parser) : Parser :=
  mkParser (p_lexer p) o (buf2 p) (p_transform p) (imageCache p) (imageId p).
Definition set_buf2 (o : obj) (p : Parser) : Parser :=
  mkParser (p_lexer p) (buf1 p) o (p_transform p) (imageCache p) (imageId p).
Definition set_transform (t : option CipherTransform) (p : Parser) : Parser :=
  mkParser (p_lexer p) (buf1 p) (buf2 p) t (imageCache p) (imageId p).

Definition on_lexer {A} (m : M (Lex Stream) A) : P A := zoom p_lexer set_lexer m.
Definition on_stream {A} (m : M Stream A) : P A := on_lexer (on_lx m).
Definition stream_of (p : Parser) : Stream := lx_stream (p_lexer p).
Definition set_stream_pos (pos : Z) : P unit := on_stream (modify (set_pos pos)).

(** The fuel of the lexer: what it has to read is in the stream. *)
Definition lex_fuel (l : Lex Stream) : nat := (length (s_bytes (lx_stream l)) + 2)%nat.

Definition is_cmd (o : obj) (cmd : string) : bool := isCmd (Some o) (js cmd).
Definition is_eof (o : obj) : bool := match o with OEOF => true | _ => false end.
Definition is_int (o : obj) : option Z := match o with ONum n => num_int n | _ => None end.

Definition MAX_LENGTH_TO_CACHE : Z := 1000.

(** The units of two bytes, and a last single one. *)
Fixpoint cache_units (bytes : list Z) : jstr :=
  match bytes with
  | b :: b' :: bytes => to_u16 ((b .<< 8) .| b') :: cache_units bytes
  | [b] => [to_u16 b]
  | [] => []
  end.
Definition getInlineImageCacheKey (bytes : list Z) : jstr :=
  dec (len bytes) ++ js "_" ++ cache_units bytes.

(** ** Finding the end of an inline image *)

Section Ends.
Context (knownCommands : option (jstr -> option Command)).
Abbreviation T := (M Stream).

(** [skip(n)] of the stream and a byte read. *)
Definition skip_by (n : Z) : T unit := skip (Some n).
Definition char_E : Z := 0x45.
Definition char_I : Z := 0x49.
Definition SPACE : Z := 0x20.
Definition LF : Z := 0x0a.
Definition CR : Z := 0x0d.
Definition NUL : Z := 0x00.

(** Whether the bytes after a possible [EI] may be text. *)
Fixpoint text_follows (followingBytes : list Z) : bool :=
  match followingBytes with
  | [] => true
  | ch :: rest =>
      if (ch =? NUL) && negb (jn_is (head rest) NUL) then text_follows rest
      else if negb (ch =? LF) && negb (ch =? CR) && ((ch <? SPACE) || (0x7f <? ch)) then false
      else text_follows rest
  end.

(** Whether the objects of [tmpLexer] start like the operators of a content
    stream: a command with the arguments it takes. *)
Fixpoint commands_follow (fuel : nat) (commands : jstr -> option Command) (numArgs_ : Z)
    (tmpLexer : Lex Stream) : res bool :=
  match fuel with
  | O => OutOfFuel
  | S fuel =>
      match lex_getObj (Some commands) (lex_fuel tmpLexer) tmpLexer with
      | (Ok nextObj, tmpLexer) =>
          match nextObj with
          | OEOF => Ok false
          | OCmd cmd =>
              match commands cmd with
              | None => Ok false
              | Some knownCommand =>
                  if (if variableArgs knownCommand then numArgs_ <=? numArgs knownCommand
                      else numArgs_ =? numArgs knownCommand)
                  then Ok true else commands_follow fuel commands 0 tmpLexer
              end
          | _ => commands_follow fuel commands (numArgs_ + 1) tmpLexer
          end
      | (Throw e, _) => Throw e
      | (OutOfFuel, _) => OutOfFuel
      end
  end.

(** The search for [EI] and white space; [true] when it ended at the end of
    the stream, with the last position after an [EI]. *)
Fixpoint find_EI (fuel : nat) (state : Z) (maybeEIPos : Z) : T (bool * Z) :=
  match fuel with
  | O => out_of_fuel
  | S fuel =>
      ch <- getByte ;;
      if jn_is ch (-1) then mret (true, maybeEIPos)
      else if state =? 0 then find_EI fuel (if jn_is ch char_E then 1 else 0) maybeEIPos
      else if state =? 1 then find_EI fuel (if jn_is ch char_I then 2 else 0) maybeEIPos
      else if jn_is ch SPACE || jn_is ch LF || jn_is ch CR then
        maybeEIPos <- gets s_pos ;;
        followingBytes <- peekBytes 15 ;;
        if len followingBytes =? 0 then mret (false, maybeEIPos)
        else if negb (text_follows followingBytes) then find_EI fuel 0 maybeEIPos
        else
          match knownCommands with
          | None => find_EI fuel 2 maybeEIPos
          | Some commands =>
              bytes <- peekBytes (5 * 15) ;;
              tmpLexer <- lift (new_Lexer (new_Stream bytes None None)) ;;
              found <- lift (commands_follow (length bytes + 2) commands 0 tmpLexer) ;;
              if found : bool then mret (false, maybeEIPos) else find_EI fuel 0 maybeEIPos
          end
      else find_EI fuel 0 maybeEIPos
  end.

Definition findDefaultInlineStreamEnd (fuel : nat) : T Z :=
  startPos <- gets s_pos ;;
  let* (at_end, maybeEIPos) <- find_EI fuel 0 0 ;;
  (if at_end && negb (maybeEIPos =? 0)
   then pos <- gets s_pos ;; skip_by (- (pos - maybeEIPos)) else mret tt) ;;;
  skip_by (-4) ;;;
  ch <- peekByte ;;
  skip_by 4 ;;;
  let endOffset := if negb (isWhiteSpace ch) then 3 else 4 in
  pos <- gets s_pos ;;
  mret (pos - endOffset - startPos).

(** [inlineStreamSkipEI] *)
Fixpoint skip_EI (fuel : nat) (state : Z) : T unit :=
  match fuel with
  | O => out_of_fuel
  | S fuel =>
      ch <- getByte ;;
      if jn_is ch (-1) then mret tt
      else if state =? 0 then skip_EI fuel (if jn_is ch char_E then 1 else 0)
      else if state =? 1 then skip_EI fuel (if jn_is ch char_I then 2 else 0)
      else mret tt
  end.
Definition inlineStreamSkipEI (fuel : nat) : T unit := skip_EI fuel 0.

(** The markers of a JPEG image that a length follows. *)
Definition marker_with_length (b : jsnum) : bool :=
  match b with
  | Some b =>
      ((0xc0 <=? b) && (b <=? 0xcf) && negb (b =? 0xc8)) ||
      ((0xda <=? b) && (b <=? 0xef)) || (b =? 0xfe)
  | None => false
  end.

(** The end-of-image marker; [false] at the end of the stream. *)
Fixpoint find_EOI (fuel : nat) : T bool :=
  match fuel with
  | O => out_of_fuel
  | S fuel =>
      b <- getByte ;;
      if jn_is b (-1) then mret false
      else if negb (jn_is b 0xff) then find_EOI fuel
      else
        marker <- getByte ;;
        if jn_is marker 0xd9 then mret true
        else if jn_is marker 0xff then skip_by (-1) ;;; find_EOI fuel
        else if marker_with_length marker then
          markerLength <- getUint16 ;;
          (if jn_lt (Some 2) markerLength then skip (jn_sub markerLength (Some 2))
           else skip_by (-2)) ;;;
          find_EOI fuel
        else find_EOI fuel
  end.

(** When the marker is missing, start again and look for [EI]. *)
Definition ends_or_default (fuel : nat) (startPos : Z) (found : bool) : T Z :=
  pos <- gets s_pos ;;
  let length := pos - startPos in
  if found then inlineStreamSkipEI fuel ;;; mret length
  else skip_by (- length) ;;; findDefaultInlineStreamEnd fuel.

Definition findDCTDecodeInlineStreamEnd (fuel : nat) : T Z :=
  startPos <- gets s_pos ;; found <- find_EOI fuel ;; ends_or_default fuel startPos found.

Fixpoint skip_white (fuel : nat) : T jsnum :=
  match fuel with
  | O => out_of_fuel
  | S fuel =>
      ch <- peekByte ;;
      if isWhiteSpace ch then skip None ;;; skip_white fuel else mret ch
  end.

Fixpoint find_tilde (fuel : nat) : T bool :=
  match fuel with
  | O => out_of_fuel
  | S fuel =>
      ch <- getByte ;;
      if jn_is ch (-1) then mret false
      else if jn_is ch 0x7e then
        tildePos <- gets s_pos ;;
        ch <- skip_white fuel ;;
        if jn_is ch 0x3e then skip None ;;; mret true
        else
          pos <- gets s_pos ;;
          if tildePos <? pos then
            maybeEI <- peekBytes 2 ;;
            if jn_is (arr_get maybeEI 0) 0x45 && jn_is (arr_get maybeEI 1) 0x49
            then mret (negb (jn_is ch (-1))) else find_tilde fuel
          else find_tilde fuel
      else find_tilde fuel
  end.

Definition findASCII85DecodeInlineStreamEnd (fuel : nat) : T Z :=
  startPos <- gets s_pos ;; found <- find_tilde fuel ;; ends_or_default fuel startPos found.

Fixpoint find_gt (fuel : nat) : T bool :=
  match fuel with
  | O => out_of_fuel
  | S fuel =>
      ch <- getByte ;;
      if jn_is ch (-1) then mret false else if jn_is ch 0x3e then mret true else find_gt fuel
  end.

Definition findASCIIHexDecodeInlineStreamEnd (fuel : nat) : T Z :=
  startPos <- gets s_pos ;; found <- find_gt fuel ;; ends_or_default fuel startPos found.
End Ends.

(** ** Finding the end of a stream *)

Definition SCAN_BLOCK_LENGTH : Z := 2048.
Definition signatureLength : Z := 9.
Definition END_SIGNATURE : list Z := [0x65; 0x6e; 0x64].
Definition endLength : Z := 3.
Definition normalLength : Z := signatureLength - endLength.
Definition PARTIAL_SIGNATURE : list (list Z) :=
  [[0x73; 0x74; 0x72; 0x65; 0x61; 0x6d]; [0x73; 0x74; 0x65; 0x61; 0x6d]; [0x73; 0x74; 0x72; 0x65; 0x61]].

(** How many bytes of [part] stand at [at_]. *)
Fixpoint match_length (scanBytes : list Z) (at_ : Z) (part : list Z) : Z :=
  match part with
  | [] => 0
  | b :: part =>
      if jn_is (arr_get scanBytes at_) b then 1 + match_length scanBytes (at_ + 1) part else 0
  end.

Fixpoint partial_match (scanBytes : list Z) (at_ : Z) (parts : list (list Z)) : bool :=
  match parts with
  | [] => false
  | part :: parts =>
      let k := match_length scanBytes at_ part in
      if normalLength <=? k then true
      else if len part <=? k then isWhiteSpace (arr_get scanBytes (at_ + k))
      else partial_match scanBytes at_ parts
  end.

(** Where [endstream] starts, from position [pos] of the block on, [n]
    positions being left. *)
Fixpoint scan_block (n : nat) (scanBytes : list Z) (pos : Z) : option Z :=
  match n with
  | O => None
  | S n =>
      let j := match_length scanBytes pos END_SIGNATURE in
      if (endLength <=? j) && partial_match scanBytes (pos + j) PARTIAL_SIGNATURE then Some pos
      else scan_block n scanBytes (pos + 1)
  end.

Fixpoint scan_stream (fuel : nat) (startPos : Z) : M Stream Z :=
  match fuel with
  | O => out_of_fuel
  | S fuel =>
      s <- get ;;
      if s_pos s <? s_end s then
        scanBytes <- peekBytes SCAN_BLOCK_LENGTH ;;
        let scanLength := len scanBytes - signatureLength in
        if scanLength <=? 0 then mret (-1)
        else
          match scan_block (Z.to_nat scanLength) scanBytes 0 with
          | Some pos =>
              modify (fun s => set_pos (s_pos s + pos) s) ;;;
              p <- gets s_pos ;; mret (p - startPos)
          | None =>
              modify (fun s => set_pos (s_pos s + scanLength) s) ;;; scan_stream fuel startPos
          end
      else mret (-1)
  end.

Definition findStreamLength (fuel : nat) (startPos : Z) : M Stream Z :=
  modify (set_pos startPos) ;;; scan_stream fuel startPos.

(** ** The parser *)

Section Parser.
(** [lexer.knownCommands]; whether there is an [xref], and its [fetch]. *)
Context (knownCommands : option (jstr -> option Command)) (xref : bool)
  (fetch : Z -> Z -> bool -> res value) (header : StreamOf obj -> res (jsnum * jsnum))
  (allowStreams recoveryMode : bool).

Definition lexer_getObj : P obj := fun p => on_lexer (lex_getObj knownCommands (lex_fuel (p_lexer p))) p.

Definition refill : P unit :=
  o <- lexer_getObj ;; modify (set_buf1 o) ;;; o <- lexer_getObj ;; modify (set_buf2 o).

Definition shift : P unit :=
  p <- get ;;
  if is_cmd (buf2 p) "ID" then modify (set_buf1 (buf2 p)) ;;; modify (set_buf2 ONull)
  else modify (set_buf1 (buf2 p)) ;;; o <- lexer_getObj ;; modify (set_buf2 o).

Definition tryShift : P bool := try_catch (shift ;;; mret true) (fun _ => mret false).

(** [new Parser({ lexer, xref, allowStreams, recoveryMode })] *)
Definition new_Parser (lexer : Lex Stream) (transform : option CipherTransform) : res Parser :=
  match refill (mkParser lexer ONull ONull transform [] 0) with
  | (Ok _, p) => Ok p
  | (Throw e, _) => Throw e
  | (OutOfFuel, _) => OutOfFuel
  end.

(** [cipherTransform.m(...)] when there is one. *)
Definition on_transform {A} (m : M CipherTransform A) (default : A) : P A := fun p =>
  match p_transform p with
  | None => (Ok default, p)
  | Some t => let '(r, t) := m t in (r, set_transform (Some t) p)
  end.

Definition get2 {S} (dict : Dict) (key1 key2 : string) : M S value :=
  lift (dict_get2 fetch dict (js key1) (Some (js key2))).

Definition fetchIfRef (v : value) : P value :=
  match v with
  | Some (ORef num gen) => if xref then lift (fetch num gen false) else mret v
  | _ => mret v
  end.

Fixpoint some_crypt (l : list obj) : P bool :=
  match l with
  | [] => mret false
  | f :: l => f <- fetchIfRef (Some f) ;; if isName f (js "Crypt") then mret true else some_crypt l
  end.
Definition hasCryptFilter (filter : value) : P bool :=
  match filter with
  | Some (OArr l) => some_crypt l
  | _ => mret (isName filter (js "Crypt"))
  end.

(** ** Filters *)

(** A [NullStream] and the filters on it have no dictionary. *)
Fixpoint has_dict (stream : StreamOf obj) : bool :=
  match stream with
  | SubStream _ _ => true
  | NullStream => false
  | FilterStream _ stream _ => has_dict stream
  end.

(** [this.embeddedFilterName && isDict(stream.dict, "EmbeddedFile")] *)
Definition is_embedded (dict : Dict) (stream : StreamOf obj) (t : CipherTransform) : P bool :=
  if truthy (embeddedFilterName t) && has_dict stream then
    v <- lift (dict_get fetch dict (js "Type")) ;; mret (isName v (js "EmbeddedFile"))
  else mret false.

(** [cipherTransform.createStream(stream, length, name)]; the stream is known
    by the name of the crypt filter that was resolved. *)
Definition createStream_on (dict : Dict) (stream : StreamOf obj) (length : option Z) (name : value)
    : P (StreamOf obj) :=
  p <- get ;;
  match p_transform p with
  | None => mret stream
  | Some t =>
      embedded <- is_embedded dict stream t ;;
      on_transform (createStream stream embedded length name ;;; mret tt) tt ;;;
      let default := if embedded : bool then embeddedFilterName t else streamFilterName t in
      mret (FilterStream (KCrypt (if truthy name then name else default)) stream length)
  end.

(** The two bytes [stream.getByte()] gives first. *)
Definition first_two (stream : StreamOf obj) : P (jsnum * jsnum) := fun p =>
  match stream with
  | SubStream start length =>
      (fst ((cmf <- stream_getByte ;; flg <- stream_getByte ;; mret (cmf, flg))
              (stream_makeSubStream (Some start) (Some length) (stream_of p))), p)
  | NullStream => (Ok (Some (-1), Some (-1)), p)
  | FilterStream _ _ _ => (header stream, p)
  end.

(** [new FlateStream(stream, maybeLength)] checks the header. *)
Definition make_flate (stream : StreamOf obj) (maybeLength : option Z) : P (StreamOf obj) :=
  let* (cmf, flg) <- first_two stream ;;
  flate_header cmf flg ;;;
  mret (FilterStream KFlate stream maybeLength).

(** An integer parameter of a predictor; another kind of value is outside the
    model. *)
Definition int_param {S} (v : value) : M S jsnum :=
  match v with
  | None | Some ONull => mret None
  | Some (ONum n) => match num_int n with Some z => mret (Some z) | None => out_of_fuel end
  | Some _ => out_of_fuel
  end.

(** What the constructor of [PredictorStream] reads of its [params]. *)
Definition predictor_params {S} (params : obj) : M S (option PredictorParams) :=
  match params with
  | ODict d =>
      predictor <- lift (dict_get fetch d (js "Predictor")) ;; predictor <- int_param predictor ;;
      colors <- lift (dict_get fetch d (js "Colors")) ;; colors <- int_param colors ;;
      bits <- get2 d "BPC" "BitsPerComponent" ;; bits <- int_param bits ;;
      columns <- lift (dict_get fetch d (js "Columns")) ;; columns <- int_param columns ;;
      mret (Some (mkParams predictor colors bits columns))
  | _ => mret None
  end.

(** [new PredictorStream(stream, maybeLength, params)] *)
Definition make_predictor (stream : StreamOf obj) (maybeLength : option Z) (params : obj)
    : P (StreamOf obj) :=
  preds <- predictor_params params ;;
  r <- lift (new_PredictorStream stream maybeLength preds) ;;
  mret match r with
       | inl stream => stream
       | inr _ => FilterStream (KPredictor params) stream maybeLength
       end.

(** [if (params) new PredictorStream(stream, ...)] *)
Definition with_predictor (stream : StreamOf obj) (maybeLength : option Z) (params : value)
    : P (StreamOf obj) :=
  match params with
  | Some params =>
      if truthy (Some params) then make_predictor stream maybeLength params else mret stream
  | None => mret stream
  end.

(** The [EarlyChange] of the parameters; only a dictionary has the methods. *)
Definition early_change (params : value) : P value :=
  match params with
  | Some (ODict d) =>
      if dict_has d (js "EarlyChange") then
        lift (dict_get fetch d (js "EarlyChange"))
      else mret (Some (OInt 1))
  | _ => if truthy params then throw (TypeError "params.has is not a function") else mret (Some (OInt 1))
  end.

Definition named (name : jstr) (names : list string) : bool :=
  existsb (fun n => bool_decide (name = js n)) names.

(** The [switch] of [makeFilter]. *)
Definition make_named_filter (dict : Dict) (stream : StreamOf obj) (name : jstr)
    (maybeLength : option Z) (params : value) : P (StreamOf obj) :=
  if named name ["Fl"; "FlateDecode"]%string then
    s <- make_flate stream maybeLength ;; with_predictor s maybeLength params
  else if named name ["LZW"; "LZWDecode"]%string then
    earlyChange <- early_change params ;;
    with_predictor (FilterStream (KLZW earlyChange) stream maybeLength) maybeLength params
  else if named name ["DCT"; "DCTDecode"]%string then mret (FilterStream (KJpeg params) stream maybeLength)
  else if named name ["JPX"; "JPXDecode"]%string then mret (FilterStream KJpx stream maybeLength)
  else if named name ["A85"; "ASCII85Decode"]%string then mret (FilterStream KAscii85 stream maybeLength)
  else if named name ["AHx"; "ASCIIHexDecode"]%string then mret (FilterStream KAsciiHex stream maybeLength)
  else if named name ["CCF"; "CCITTFaxDecode"]%string then mret (FilterStream (KCCITTFax params) stream maybeLength)
  else if named name ["RL"; "RunLengthDecode"]%string then mret (FilterStream KRunLength stream maybeLength)
  else if named name ["JBIG2Decode"]%string then mret (FilterStream (KJbig2 params) stream maybeLength)
  else if named name ["BrotliDecode"]%string then mret (FilterStream KBrotli stream maybeLength)
  else if named name ["Crypt"]%string then
    p <- get ;;
    match p_transform p with
    | None => mret stream
    | Some _ =>
        param <- match params with
                 | Some (ODict d) => lift (dict_get fetch d (js "Name"))
                 | _ => mret None
                 end ;;
        createStream_on dict stream maybeLength
          (match param with Some (OName n) => Some (OName n) | _ => Some (OName (js "Identity")) end)
    end
  else mret stream.

Definition makeFilter (dict : Dict) (stream : StreamOf obj) (name : jstr) (maybeLength : option Z)
    (params : value) : P (StreamOf obj) :=
  if jn_is maybeLength 0 then mret NullStream
  else try_catch (make_named_filter dict stream name maybeLength params) (fun _ => mret NullStream).

Fixpoint filter_loop (dict : Dict) (stream : StreamOf obj) (filterArray : list obj)
    (paramsArray : list obj) (maybeLength : option Z) : P (StreamOf obj) :=
  match filterArray with
  | [] => mret stream
  | f :: filterArray =>
      filter <- fetchIfRef (Some f) ;;
      match filter with
      | Some (OName name) =>
          params <- match paramsArray with v :: _ => fetchIfRef (Some v) | [] => mret (Some ONull) end ;;
          stream <- makeFilter dict stream name maybeLength params ;;
          filter_loop dict stream filterArray (tail paramsArray) None
      | _ => throw (FormatError "Bad filter name")
      end
  end.

Definition filter_stream (stream : StreamOf obj) (dict : Dict) (length : Z) : P (StreamOf obj) :=
  filter <- get2 dict "F" "Filter" ;;
  params <- get2 dict "DP" "DecodeParms" ;;
  match filter with
  | Some (OName name) => makeFilter dict stream name (Some length) params
  | Some (OArr l) =>
      filter_loop dict stream l (match params with Some (OArr ps) => ps | _ => [] end) (Some length)
  | _ => mret stream
  end.

(** The cipher and the filters on the data of a stream object. *)
Definition open_stream (dict : Dict) (stream : StreamOf obj) (length : Z) : P (StreamOf obj) :=
  filter <- get2 dict "F" "Filter" ;;
  p <- get ;;
  crypt <- match p_transform p with Some _ => hasCryptFilter filter | None => mret true end ;;
  stream <- (if crypt : bool then mret stream else createStream_on dict stream (Some length) None) ;;
  filter_stream stream dict length.

(** ** Stream objects *)

Definition makeStream (dict : Dict) : P obj :=
  p <- get ;;
  on_lexer (skipToNextLine (lex_fuel (p_lexer p))) ;;;
  p <- get ;;
  let startPos := s_pos (stream_of p) - 1 in
  length <- lift (dict_get fetch dict (js "Length")) ;;
  let length := match length with Some o => default 0 (is_int o) | None => 0 end in
  set_stream_pos (startPos + length) ;;;
  on_lexer nextChar ;;;
  shifted <- tryShift ;;
  p <- get ;;
  length <- (if shifted && is_cmd (buf2 p) "endstream" then shift ;;; mret length
             else
               length <- on_stream (findStreamLength (lex_fuel (p_lexer p)) startPos) ;;
               if length <? 0 then throw (FormatError "Missing endstream command.")
               else on_lexer nextChar ;;; shift ;;; shift ;;; mret length) ;;
  shift ;;;
  stream <- open_stream dict (SubStream startPos length) length ;;
  mret (OStream dict stream None).

(** ** Inline images *)

(** The entries of a dictionary up to the command [stop]. *)
Fixpoint image_dict_loop (fuel : nat) (getObj : P obj) (dict : Dict) : P Dict :=
  match fuel with
  | O => out_of_fuel
  | S fuel =>
      p <- get ;;
      if is_cmd (buf1 p) "ID" || is_eof (buf1 p) then mret dict
      else
        match buf1 p with
        | OName key =>
            shift ;;;
            p <- get ;;
            if is_eof (buf1 p) then mret dict
            else v <- getObj ;; image_dict_loop fuel getObj (dict_set dict key v)
        | _ => throw (FormatError "Dictionary key must be a name object")
        end
  end.

(** The name of the first filter. *)
Definition first_filter (filter : value) : P (option jstr) :=
  match filter with
  | Some (OName n) => mret (Some n)
  | Some (OArr l) =>
      filterZero <- fetchIfRef (head l) ;;
      mret match filterZero with Some (OName n) => Some n | _ => None end
  | _ => mret None
  end.

Definition find_image_end (filterName : option jstr) : P Z := fun p =>
  let fuel := lex_fuel (p_lexer p) in
  let find :=
    match filterName with
    | Some name =>
        if named name ["DCT"; "DCTDecode"]%string then findDCTDecodeInlineStreamEnd knownCommands fuel
        else if named name ["A85"; "ASCII85Decode"]%string then findASCII85DecodeInlineStreamEnd knownCommands fuel
        else if named name ["AHx"; "ASCIIHexDecode"]%string then findASCIIHexDecodeInlineStreamEnd knownCommands fuel
        else findDefaultInlineStreamEnd knownCommands fuel
    | None => findDefaultInlineStreamEnd knownCommands fuel
    end in
  on_stream find p.

(** [this.buf2 = Cmd.get("EI"); this.shift();] *)
Definition end_image : P unit := modify (set_buf2 (OCmd (js "EI"))) ;;; shift.

Definition makeInlineImage (fuel : nat) (getObj : P obj) : P obj :=
  dict <- image_dict_loop fuel getObj (new_Dict xref) ;;
  p <- get ;;
  let begin := beginInlineImagePos (p_lexer p) in
  let dictLength := if begin =? -1 then None else Some (s_pos (stream_of p) - begin) in
  filter <- get2 dict "F" "Filter" ;;
  filterName <- first_filter filter ;;
  startPos <- gets (fun p => s_pos (stream_of p)) ;;
  length <- find_image_end filterName ;;
  cacheKey <-
    (match dictLength with
     | Some dictLength =>
         if (length <? MAX_LENGTH_TO_CACHE) && (0 <? dictLength) then
           initialStreamPos <- gets (fun p => s_pos (stream_of p)) ;;
           set_stream_pos begin ;;;
           bytes <- on_stream (stream_getBytes (dictLength + length)) ;;
           set_stream_pos initialStreamPos ;;;
           mret (Some (getInlineImageCacheKey bytes))
         else mret None
     | None => mret None
     end) ;;
  p <- get ;;
  match (key ← cacheKey; map_get (imageCache p) key) with
  | Some cacheEntry => end_image ;;; mret cacheEntry
  | None =>
      stream <- open_stream dict (SubStream startPos length) length ;;
      image <-
        (match cacheKey with
         | Some key => fun p =>
             let image := OStream dict stream (Some (imageId p + 1)) in
             (Ok image, mkParser (p_lexer p) (buf1 p) (buf2 p) (p_transform p)
                          (map_set (imageCache p) key image) (imageId p + 1))
         | None => mret (OStream dict stream None)
         end) ;;
      end_image ;;; mret image
  end.

(** ** Objects *)

Fixpoint array_loop (fuel : nat) (getObj : P obj) (array : list obj) : P (list obj) :=
  match fuel with
  | O => out_of_fuel
  | S fuel =>
      p <- get ;;
      if is_cmd (buf1 p) "]" || is_eof (buf1 p) then mret array
      else v <- getObj ;; array_loop fuel getObj (array ++ [v])
  end.

Fixpoint dict_loop (fuel : nat) (getObj : P obj) (dict : Dict) : P Dict :=
  match fuel with
  | O => out_of_fuel
  | S fuel =>
      p <- get ;;
      if is_cmd (buf1 p) ">>" || is_eof (buf1 p) then mret dict
      else
        match buf1 p with
        | OName key =>
            shift ;;;
            p <- get ;;
            if is_eof (buf1 p) then mret dict
            else v <- getObj ;; dict_loop fuel getObj (dict_set dict key v)
        | _ => shift ;;; dict_loop fuel getObj dict
        end
  end.

(** The object whose first token was [first], which has been shifted out. *)
Definition object_from (fuel : nat) (getObj : P obj) (first : obj) : P obj :=
  match first with
  | OCmd cmd =>
      if bool_decide (cmd = js "BI") then makeInlineImage fuel getObj
      else if bool_decide (cmd = js "[") then
        array <- array_loop fuel getObj [] ;;
        p <- get ;;
        if is_eof (buf1 p) then
          if recoveryMode then mret (OArr array)
          else throw (ParserEOFException "End of file inside array.")
        else shift ;;; mret (OArr array)
      else if bool_decide (cmd = js "<<") then
        dict <- dict_loop fuel getObj (new_Dict xref) ;;
        p <- get ;;
        if is_eof (buf1 p) then
          if recoveryMode then mret (ODict dict)
          else throw (ParserEOFException "End of file inside dictionary.")
        else if is_cmd (buf2 p) "stream" then
          if allowStreams then makeStream dict else mret (ODict dict)
        else shift ;;; mret (ODict dict)
      else mret first
  | ONum n =>
      p <- get ;;
      match num_int n, is_int (buf1 p) with
      | Some num, Some gen =>
          if is_cmd (buf2 p) "R" then shift ;;; shift ;;; mret (ORef num gen) else mret first
      | _, _ => mret first
      end
  | OStr s => s <- on_transform (decryptString s) s ;; mret (OStr s)
  | _ => mret first
  end.

Fixpoint getObj (fuel : nat) : P obj :=
  match fuel with
  | O => out_of_fuel
  | S fuel =>
      first <- gets buf1 ;; shift ;;; object_from fuel (getObj fuel) first
  end.
End Parser.
