(* ===== verification/ParserSpec.v ===== *)
(** * The parser on a sequence of tokens

    The abstract specification of [getObj]: on the tokens of an object,
    whatever quiet tokens follow, it returns the object with its strings
    decrypted and leaves the tokens that follow.  A parser is at the tokens
    [ts] when its two buffers hold the first two and its lexer gives the
    others. *)
From stdpp Require Import gmap.
From S2P Require Import Prelude JsBits ByteStream DecodeStream Ascii85 Predictor Primitives Crypto.
From S2P Require Import CryptoSpec Lexer LexerSpec Parser.
Local Open Scope js_scope.

(** ** The tokens of an object *)

Fixpoint tokens (o : obj) : list obj :=
  match o with
  | ORef num gen => [OInt num; OInt gen; OCmd (js "R")]
  | OArr l => OCmd (js "[") :: flat_map tokens l ++ [OCmd (js "]")]
  | ODict (mkDict m _ _) =>
      OCmd (js "<<") :: flat_map (fun e => OName e.1 :: tokens e.2) m ++ [OCmd (js ">>")]
  | _ => [o]
  end.

(** An object a file can hold outside of streams, in a parser with or without
    a cross-reference table. *)
Fixpoint readable (xref : bool) (o : obj) : bool :=
  match o with
  | OCmd _ | OEOF | OStream _ _ _ => false
  | OArr l => forallb (readable xref) l
  | ODict (mkDict m x s) =>
      Bool.eqb x xref && negb s && bool_decide (NoDup m.*1) && forallb (fun e => readable xref e.2) m
  | _ => true
  end.

(** The object with [f] applied to its strings. *)
Fixpoint map_strings (f : jstr -> jstr) (o : obj) : obj :=
  match o with
  | OStr s => OStr (f s)
  | OArr l => OArr (map (map_strings f) l)
  | ODict (mkDict m x s) => ODict (mkDict (map (fun e => (e.1, map_strings f e.2)) m) x s)
  | _ => o
  end.

(** The token at a place. *)
Definition tok (ts : list obj) (i : nat) : obj := default OEOF (ts !! i).

Definition stray (o : obj) : bool := is_cmd o "ID" || is_cmd o "R" || is_cmd o "stream".
(** Two tokens or more that do not change the meaning of an object before
    them: the parser reads two ahead. *)
Definition quiet (ts : list obj) : Prop :=
  (2 <= length ts)%nat /\ stray (tok ts 0) = false /\ stray (tok ts 1) = false.

Lemma quiet_cons o ts : stray o = false -> quiet ts -> quiet (o :: ts).
Proof. intros Ho (Hl & Ht & _). split; [simpl; lia|]. by split. Qed.

Lemma quiet_flat {A} (f : A -> list obj) l ts :
  (forall x ts, x ∈ l -> quiet ts -> quiet (f x ++ ts)) -> quiet ts -> quiet (flat_map f l ++ ts).
Proof.
  intros Hf Hts. induction l as [|x l IH]; [done|]. cbn [flat_map]. rewrite <- app_assoc.
  apply Hf; [by left|]. apply IH. intros y ts' Hy. apply Hf. by right.
Qed.

Lemma tokens_pos o : (0 < length (tokens o))%nat.
Proof. destruct o as [| | | | | | | |[m x s]| |]; simpl; lia. Qed.

Lemma flat_tokens_length {A} (f : A -> list obj) l x :
  x ∈ l -> (length (f x) <= length (flat_map f l))%nat.
Proof.
  induction 1 as [x l|x y l _ IH]; cbn [flat_map]; rewrite length_app; lia.
Qed.

Lemma flat_count {A} (f : A -> list obj) l :
  (forall x, 0 < length (f x))%nat -> (length l <= length (flat_map f l))%nat.
Proof.
  intros Hf. induction l as [|x l IH]; [done|]. cbn [flat_map length]. rewrite length_app.
  specialize (Hf x). lia.
Qed.

Lemma forallb_elem {A} (f : A -> bool) l x : forallb f l = true -> x ∈ l -> f x = true.
Proof. intros Hl Hx. rewrite forallb_forall in Hl. by apply Hl, list_elem_of_In. Qed.

Lemma quiet_tokens_n n xref o ts :
  (length (tokens o) <= n)%nat -> readable xref o = true -> quiet ts -> quiet (tokens o ++ ts).
Proof.
  revert o ts. induction n as [|n IH]; intros o ts Hn Ho Hts; [pose proof (tokens_pos o); lia|].
  destruct o as [| | | | | |num gen|l|[m x s]| |]; try discriminate;
    try (by apply quiet_cons); cbn [tokens app].
  - split; [simpl; lia|done].
  - apply quiet_cons; [done|]. rewrite <- app_assoc. apply quiet_flat; [|by apply quiet_cons].
    intros v ts' Hv. apply IH; [|by eapply (forallb_elem (readable xref))].
    cbn [tokens length] in Hn. rewrite length_app in Hn.
    pose proof (flat_tokens_length tokens l v Hv). simpl in Hn. lia.
  - apply quiet_cons; [done|]. rewrite <- app_assoc. apply quiet_flat; [|by apply quiet_cons].
    intros e ts' He Hts'. cbn [app]. apply quiet_cons; [done|]. cbn [readable] in Ho. bool_hyps.
    apply IH; [|by eapply (forallb_elem (fun e => readable xref e.2))|done].
    cbn [tokens length] in Hn. rewrite length_app in Hn.
    pose proof (flat_tokens_length (fun e => OName e.1 :: tokens e.2) m e He). simpl in *. lia.
Qed.

Lemma quiet_tokens xref o ts : readable xref o = true -> quiet ts -> quiet (tokens o ++ ts).
Proof. by apply (quiet_tokens_n (length (tokens o))). Qed.

(** ** Driving the parser *)

(** The function on strings of a parser without or with a transform. *)
Definition plain (tr : option CipherClass) : jstr -> jstr :=
  match tr with None => id | Some cls => decrypt_with cls end.

(** The transform gives strings the cipher [cls]. *)
Definition strings_by (tr : option CipherClass) (t : option CipherTransform) : Prop :=
  match tr, t with
  | None, None => True
  | Some cls, Some t => fst (getCipher (stringFilterName t) t) = Ok cls
  | _, _ => False
  end.

Section Drive.
Context (kc : option (jstr -> option Command)) (Hkc : forall p, known kc p = false).
Context (xref : bool) (fetch : Z -> Z -> bool -> res value)
  (header : StreamOf obj -> res (jsnum * jsnum)) (allowStreams recoveryMode : bool).
Context (tr : option CipherClass).
Abbreviation getObj := (getObj kc xref fetch header allowStreams recoveryMode).
Abbreviation shift := (shift kc).

(** The next tokens a lexer gives. *)
Fixpoint yields (l : Lex Stream) (ts : list obj) : Prop :=
  match ts with
  | [] => True
  | o :: ts => exists l', lex_getObj kc (lex_fuel l) l = (Ok o, l') /\ yields l' ts
  end.

Definition p_at (p : Parser) (ts : list obj) : Prop :=
  buf1 p = tok ts 0 /\ buf2 p = tok ts 1 /\ yields (p_lexer p) (drop 2 ts) /\
  strings_by tr (p_transform p).

(** From the tokens [ts], [m] returns [a] and leaves the tokens [ts']. *)
Definition drives {A} (m : P A) (ts : list obj) (a : A) (ts' : list obj) : Prop :=
  forall p, p_at p ts -> exists p', m p = (Ok a, p') /\ p_at p' ts'.

Lemma drives_ret {A} (a : A) ts : drives (mret a) ts a ts.
Proof. intros p Hp. by exists p. Qed.

Lemma drives_bind {A B} (m : P A) (k : A -> P B) ts a ts' b ts'' :
  drives m ts a ts' -> drives (k a) ts' b ts'' -> drives (mbind m k) ts b ts''.
Proof.
  intros Hm Hk p Hp. destruct (Hm p Hp) as (p' & E & Hp'). unfold mbind. rewrite E. by apply Hk.
Qed.

(** Reading the state: what is known of it are its buffers. *)
Lemma drives_get {B} (k : Parser -> P B) ts b ts' :
  (forall p, p_at p ts -> drives (k p) ts b ts') -> drives (mbind get k) ts b ts'.
Proof. intros Hk p Hp. unfold mbind, get. by apply Hk. Qed.

(** The text of a lexer is no longer than the data of its stream. *)
Lemma at_text_length (l : Lex Stream) t : at_text l t -> (length t < lex_fuel l)%nat.
Proof.
  unfold lex_fuel. destruct t as [|c t]; [simpl; lia|]. intros [_ Hl].
  pose proof (stream_ok_reads _ _ Hl) as Hlen. destruct Hl as [[] _]. unfold len in *.
  simpl length. lia.
Qed.

Lemma drives_shift ts :
  (2 < length ts)%nat -> is_cmd (tok ts 1) "ID" = false -> drives shift ts tt (tail ts).
Proof.
  intros Hl Hid p (H1 & H2 & Hy & Ht). unfold shift. m_red. rewrite H2, Hid.
  destruct ts as [|o1 [|o2 [|o3 ts]]]; [simpl in Hl; lia..|].
  destruct Hy as (l' & E & Hy'). unfold lexer_getObj, on_lexer, zoom. cbn [p_lexer set_buf1].
  rewrite E. eexists. split; [reflexivity|]. by split_and!.
Qed.

Lemma getCipher_class t cls : fst (getCipher (stringFilterName t) t) = Ok cls ->
  exists t', getCipher (stringFilterName t) t = (Ok cls, t') /\
    fst (getCipher (stringFilterName t') t') = Ok cls.
Proof.
  destruct (getCipher (stringFilterName t) t) as [r t'] eqn:Eg. simpl. intros ->.
  destruct (getCipher_again _ _ _ _ Eg) as [Eg' Hn]. exists t'. split; [done|].
  by rewrite Hn, Eg'.
Qed.

Lemma drives_decrypt s ts : drives (on_transform (decryptString s) s) ts (plain tr s) ts.
Proof.
  intros p (H1 & H2 & Hy & Ht). unfold on_transform, p_at.
  destruct tr as [cls|] eqn:Etr, (p_transform p) as [t|] eqn:Et; try done.
  - destruct (getCipher_class t cls Ht) as (t' & Eg & Ht'). unfold decryptString. m_red.
    rewrite Eg. eexists. split; [reflexivity|]. by split_and!.
  - exists p. rewrite Et. by split_and!.
Qed.

(** Enough tokens follow. *)
Ltac enough_tokens := rewrite ?length_app; cbn [length]; rewrite ?length_app; cbn [length]; lia.
Ltac shifted := eapply drives_bind; [apply drives_shift; [try enough_tokens|]|]; cbn [tail].
Ltac look := apply drives_get; intros p (Hb1 & Hb2 & _ & _); rewrite ?Hb1, ?Hb2; clear p Hb1 Hb2.

Lemma drives_array_loop get fuel l f acc ts :
  (forall v ts, v ∈ l -> quiet ts -> drives get (tokens v ++ ts) (f v) ts) ->
  (forall v, v ∈ l -> readable xref v = true) ->
  quiet ts -> (length l < fuel)%nat ->
  drives (array_loop fuel get acc) (flat_map tokens l ++ OCmd (js "]") :: ts)
    (acc ++ map f l) (OCmd (js "]") :: ts).
Proof.
  intros Hget Hr Hts. revert fuel acc. induction l as [|v l IH]; intros fuel acc Hf;
    (destruct fuel as [|fuel]; [simpl in Hf; lia|]); cbn [array_loop flat_map map app].
  - rewrite app_nil_r. look. apply drives_ret.
  - rewrite <- app_assoc.
    assert (Hq : quiet (flat_map tokens l ++ OCmd (js "]") :: ts)).
    { apply quiet_flat; [|by apply quiet_cons]. intros x ts' Hx. apply (quiet_tokens xref), Hr. by right. }
    assert (Hfirst : is_cmd (tok (tokens v ++ flat_map tokens l ++ OCmd (js "]") :: ts) 0) "]"
      || is_eof (tok (tokens v ++ flat_map tokens l ++ OCmd (js "]") :: ts) 0) = false).
    { assert (Hv : readable xref v = true) by (apply Hr; by left).
      destruct v as [| | | | | | | |[m x s]| |]; try discriminate; reflexivity. }
    look. rewrite Hfirst. eapply drives_bind; [apply Hget; [by left|done]|].
    replace (acc ++ f v :: map f l) with ((acc ++ [f v]) ++ map f l) by (by rewrite <- app_assoc).
    apply IH; [intros; apply Hget; [by right|done]|intros; apply Hr; by right|simpl in Hf; lia].
Qed.

Lemma map_set_new {V} (m : list (jstr * V)) k v : k ∉ m.*1 -> map_set m k v = m ++ [(k, v)].
Proof.
  induction m as [|[k' v'] m IH]; [done|]. cbn [fmap list_fmap map_set]. rewrite not_elem_of_cons.
  intros [Hk Hm]. rewrite bool_decide_eq_false_2 by done. cbn [app]. by rewrite IH.
Qed.

Definition entry_tokens (e : jstr * obj) : list obj := OName e.1 :: tokens e.2.

Lemma drives_dict_loop get fuel m f acc ts :
  (forall e ts, e ∈ m -> quiet ts -> drives get (tokens e.2 ++ ts) (f e.2) ts) ->
  (forall e, e ∈ m -> readable xref e.2 = true) ->
  NoDup (acc.*1 ++ m.*1) -> quiet ts -> (length m < fuel)%nat ->
  drives (dict_loop kc fuel get (mkDict acc xref false))
    (flat_map entry_tokens m ++ OCmd (js ">>") :: ts)
    (mkDict (acc ++ map (fun e => (e.1, f e.2)) m) xref false) (OCmd (js ">>") :: ts).
Proof.
  intros Hget Hr Hnd Hts. revert fuel acc Hnd. induction m as [|[k v] m IH]; intros fuel acc Hnd Hf;
    (destruct fuel as [|fuel]; [simpl in Hf; lia|]); cbn [dict_loop flat_map map app entry_tokens fst snd].
  - rewrite app_nil_r. look. apply drives_ret.
  - rewrite <- app_assoc.
    assert (Hv : readable xref v = true) by (apply (Hr (k, v)); by left).
    assert (Hq : quiet (flat_map entry_tokens m ++ OCmd (js ">>") :: ts)).
    { apply quiet_flat; [|by apply quiet_cons]. intros e ts' He Hq. apply quiet_cons; [done|].
      by apply (quiet_tokens xref); [apply Hr; right|]. }
    assert (Hfirst : stray (tok (tokens v ++ flat_map entry_tokens m ++ OCmd (js ">>") :: ts) 0) = false)
      by (by apply (quiet_tokens xref)).
    look. cbn [tok lookup list_lookup default is_cmd isCmd is_eof orb].
    shifted. { destruct Hts. enough_tokens. } { unfold stray in Hfirst. bool_hyps. done. }
    assert (Heof : is_eof (tok (tokens v ++ flat_map entry_tokens m ++ OCmd (js ">>") :: ts) 0) = false).
    { destruct v as [| | | | | | | |[m' x s]| |]; try discriminate; reflexivity. }
    look. rewrite Heof. eapply drives_bind; [apply (Hget (k, v)); [by left|done]|].
    cbn [fmap list_fmap fst] in Hnd.
    assert (Hk : k ∉ acc.*1).
    { apply NoDup_app in Hnd as (_ & Hd & _). intros Hk. apply (Hd k Hk). by left. }
    unfold dict_set, dict_upd. cbn [d_map d_xref suppressEncryption]. rewrite map_set_new by done.
    replace (acc ++ (k, f v) :: map (fun e => (e.1, f e.2)) m)
      with ((acc ++ [(k, f v)]) ++ map (fun e => (e.1, f e.2)) m) by (by rewrite <- app_assoc).
    apply IH; [intros; apply Hget; [by right|done]|intros; apply Hr; by right| |simpl in Hf; lia].
    rewrite fmap_app. cbn [fmap list_fmap fst]. by rewrite <- app_assoc.
Qed.

(** On the tokens of an object, [getObj] returns the object. *)
Lemma drives_getObj fuel o ts :
  readable xref o = true -> quiet ts -> (length (tokens o) <= fuel)%nat ->
  drives (getObj fuel) (tokens o ++ ts) (map_strings (plain tr) o) ts.
Proof.
  revert o ts. induction fuel as [|fuel IH]; intros o ts Ho Hts Hf; [pose proof (tokens_pos o); lia|].
  assert (Hq : quiet (tokens o ++ ts)) by (by apply (quiet_tokens xref)).
  cbn [getObj]. intros p Hp. unfold mbind at 1. unfold gets. rewrite (proj1 Hp).
  revert p Hp. change (drives (shift ;;; object_from kc xref fetch header allowStreams recoveryMode
    fuel (getObj fuel) (tok (tokens o ++ ts) 0)) (tokens o ++ ts) (map_strings (plain tr) o) ts).
  shifted.
  { destruct Hts. pose proof (tokens_pos o). enough_tokens. }
  { destruct Hq as (_ & _ & Hq). unfold stray in Hq. by bool_hyps. }
  clear Hq. destruct Hts as (Hl & Ht0 & Ht1). pose proof (conj Hl (conj Ht0 Ht1)) as Hts. unfold stray in Ht0, Ht1. bool_hyps.
  destruct o as [|b|n|s|n|cmd|num gen|l|[m x s]| |]; try discriminate;
    cbn [tokens app tail tok lookup list_lookup default from_option id object_from map_strings];
    try apply drives_ret.
  - (* a number that no reference starts with *)
    look. destruct (num_int n), (is_int (tok ts 0)); try apply drives_ret.
    match goal with H : is_cmd (tok ts 1) "R" = false |- _ => rewrite H end. apply drives_ret.
  - eapply drives_bind; [apply drives_decrypt|apply drives_ret].
  - look. cbn [is_int id OInt tok lookup list_lookup default from_option]. unfold OInt. cbn [num_int].
    change (is_cmd (OCmd (js "R")) "R") with true. cbn iota.
    shifted; [done|]. shifted; [done|]. apply drives_ret.
  - rewrite bool_decide_eq_false_2 by done. rewrite bool_decide_eq_true_2 by done.
    rewrite <- app_assoc. cbn [tokens app length] in *. rewrite length_app in Hf. simpl in Hf.
    pose proof (flat_count tokens l tokens_pos) as Hc.
    eapply drives_bind.
    { apply (drives_array_loop (getObj fuel) fuel l (map_strings (plain tr))); [| |done|lia].
      - intros v ts' Hv Hts'. apply IH; [by eapply (forallb_elem (readable xref))|done|].
        pose proof (flat_tokens_length tokens l v Hv). lia.
      - intros v Hv. by eapply (forallb_elem (readable xref)). }
    look. cbn [tok lookup list_lookup default from_option id is_eof]. shifted; [done|]. apply drives_ret.
  - do 2 rewrite bool_decide_eq_false_2 by done. rewrite bool_decide_eq_true_2 by done.
    rewrite <- app_assoc. cbn [tokens app length] in *. rewrite length_app in Hf. simpl in Hf.
    change (flat_map _ m) with (flat_map entry_tokens m) in *.
    pose proof (flat_count entry_tokens m (fun e => Nat.lt_0_succ _)) as Hc.
    cbn [readable] in Ho. apply andb_true_iff in Ho as [Ho Hall].
    apply andb_true_iff in Ho as [Ho Hnd]. apply andb_true_iff in Ho as [Hx Hs].
    apply Bool.eqb_prop in Hx as ->. destruct s; [done|]. apply bool_decide_eq_true in Hnd.
    eapply drives_bind.
    { apply (drives_dict_loop (getObj fuel) fuel m (map_strings (plain tr)) []); [| |done|done|lia].
      - intros e ts' He Hts'. apply IH; [by eapply (forallb_elem (fun e => readable xref e.2))|done|].
        pose proof (flat_tokens_length entry_tokens m e He). simpl in *. lia.
      - intros e He. by eapply (forallb_elem (fun e => readable xref e.2)). }
    look. cbn [tok lookup list_lookup default from_option id is_eof].
    match goal with
    | Hs : is_cmd (tok ts 0) "stream" = false |- context [is_cmd ?x "stream"] =>
        change x with (tok ts 0); rewrite Hs
    end.
    shifted; [done|]. apply drives_ret.
Qed.
End Drive.
