(* ===== verification/WriterSpec.v ===== *)
(** * The writer and the parser agree

    Every text the writer makes of an object spells the tokens of the object,
    with its strings encrypted, whatever is appended to it after a delimiter;
    the parser therefore reads the object back, if its numbers have an exact
    numeral. *)
From stdpp Require Import gmap.
From S2P Require Import Prelude JsBits ByteStream DecodeStream Ascii85 Predictor Primitives Crypto.
From S2P Require Import CryptoSpec Lexer LexerSpec Parser ParserSpec Writer Numerals.
Local Open Scope js_scope.

(** ** Texts of tokens *)

Section Spelling.
Context (kc : option (jstr -> option Command)) (Hkc : forall p, known kc p = false).

(** [text] starts with the tokens [ts], with white space and comments between
    them. *)
Inductive spells : list Z -> list obj -> Prop :=
| spells_start text : spells text []
| spells_eof b : blank b -> spells b [OEOF]
| spells_token b t o r ts :
    blank b -> lexes (S := Stream) kc t o r -> spells r ts -> spells (b ++ t ++ r) (o :: ts).

Lemma spells_yields text ts l : spells text ts -> at_text l text -> yields kc l ts.
Proof.
  intros Hs. revert l. induction Hs as [text|b Hb|b t o r ts Hb Ht _ IH]; intros l Hl; [done| |].
  { destruct (reads_eof kc b (lex_fuel l) Hb) with (l := l) as (l' & E & _); [|done|].
    - by apply at_text_length.
    - by exists l'. }
  destruct (reads_lex_getObj kc b t o r (lex_fuel l) Hb Ht) with (l := l) as (l' & E & Hl'); [|done|].
  - by apply at_text_length.
  - exists l'. split; [done|]. by apply IH.
Qed.

(** What may follow any token: the end or a delimiter. *)
Lemma special_ends_number c : special c <> 0 -> is_digit c = false /\ c <> 0x2e /\ c <> 0x2d /\ 0 <= c.
Proof.
  intros Hc. assert (Hb : is_byte c).
  { unfold special, arr_get in Hc. destruct (Z.ltb_spec c 0); [done|].
    destruct (specialChars !! Z.to_nat c) eqn:E; [|done]. apply lookup_lt_Some in E.
    change (length specialChars) with 256%nat in E. unfold is_byte. lia. }
  apply (all_bytes (fun c => (special c =? 0) ||
    negb (is_digit c) && negb (c =? 0x2e) && negb (c =? 0x2d))) in Hb; [|vm_compute; reflexivity].
  apply Z.eqb_neq in Hc. rewrite Hc in Hb. cbn [orb] in Hb.
  assert (0 <= c) by (destruct (Z.ltb_spec c 0); [|lia]; unfold special, arr_get in Hc;
    by rewrite (proj2 (Z.ltb_lt c 0)) in Hc by done).
  bool_hyps. done.
Qed.

Lemma ends_word_number r : ends_word r -> ends_number r.
Proof. destruct r as [|c r]; [done|]. apply special_ends_number. Qed.

(** A token in front, without and with white space before it. *)
Lemma spells_cons t o r ts :
  lexes (S := Stream) kc t o r -> spells r ts -> spells (t ++ r) (o :: ts).
Proof. intros Ht Hr. apply (spells_token []); [constructor|done|done]. Qed.

Lemma spells_blank c r ts : special c = 1 -> spells r ts -> spells (c :: r) ts.
Proof.
  intros Hc Hs. destruct Hs as [text|b Hb|b t o r ts Hb Ht Hr].
  - apply spells_start.
  - apply spells_eof. by constructor.
  - apply (spells_token (c :: b)); [by constructor|done|done].
Qed.

(** ** Printable objects *)

Definition bytes_only (s : jstr) : bool := forallb (fun c => (0 <=? c) && (c <? 256)) s.

(** Strings and names of bytes, numbers with an exact numeral, references whose
    numbers are not negative and below 2^53. *)
Fixpoint printable (o : obj) : bool :=
  match o with
  | ONum n => exact_numeral n
  | OStr s | OName s => bytes_only s
  | ORef num gen => (0 <=? num) && (num <? 2 ^ 53) && (0 <=? gen) && (gen <? 2 ^ 53)
  | OArr l => forallb printable l
  | ODict (mkDict m _ _) => forallb (fun e => bytes_only e.1 && printable e.2) m
  | _ => true
  end.

Lemma bytes_only_spec s : bytes_only s = true <-> Forall is_byte s.
Proof.
  unfold bytes_only. rewrite Forall_forall, forallb_forall. split; intros Hs c Hc.
  - apply list_elem_of_In, Hs in Hc. bool_hyps. done.
  - apply list_elem_of_In, Hs in Hc. unfold is_byte in Hc.
    rewrite (proj2 (Z.leb_le 0 c)), (proj2 (Z.ltb_lt c 256)) by lia. done.
Qed.

(** Printed text is made of bytes. *)
Lemma digit_bytes d : Forall (fun c => is_digit c = true) d -> Forall is_byte d.
Proof.
  intros Hd. eapply Forall_impl; [exact Hd|]. intros c Hc. apply digit_range in Hc.
  unfold is_byte. lia.
Qed.

Lemma dec_bytes n : 0 <= n -> Forall is_byte (dec n).
Proof. intros Hn. by apply digit_bytes, dec_spec. Qed.

Lemma flat_map_bytes (f : Z -> jstr) s :
  forallb (fun n => bytes_only (f (Z.of_nat n))) (seq 0 256) = true ->
  Forall is_byte s -> Forall is_byte (flat_map f s).
Proof.
  intros Hf. pose proof (all_bytes (fun c => bytes_only (f c)) Hf) as Hb. clear Hf. induction 1 as [|c s Hc _ IH]; [constructor|]. cbn [flat_map]. apply Forall_app.
  split; [|done]. apply bytes_only_spec. by apply Hb.
Qed.

Lemma escapeString_bytes s : Forall is_byte s -> Forall is_byte (escapeString s).
Proof. apply flat_map_bytes. vm_compute. reflexivity. Qed.

Lemma escapePDFName_bytes s : Forall is_byte s -> Forall is_byte (escapePDFName s).
Proof. apply flat_map_bytes. vm_compute. reflexivity. Qed.

(** A literal of the source. *)
Lemma literal_bytes s : Forall is_byte (js s).
Proof.
  unfold js. apply Forall_map, Forall_forall. intros a _. unfold is_byte.
  pose proof (Ascii.N_ascii_bounded a). lia.
Qed.

Lemma number_bytes n : exact_numeral n = true -> Forall is_byte (numberToPDFString n).
Proof.
  intros Hl. assert (Hsign : forall b : bool, Forall is_byte (if b then js "-" else [])).
  { intros []; [apply literal_bytes|constructor]. }
  destruct (exact_cases n Hl) as [(z & -> & _)|(s & m & k & Hk & Hm & Hmod & Hlt & ->)].
  - rewrite print_integer. apply Forall_app. split; [done|]. apply dec_bytes. lia.
  - rewrite print_fraction by done. repeat (apply Forall_app; split); [done| |apply literal_bytes|].
    + apply dec_bytes, Z.div_pos; [lia|]. by apply Z.pow_pos_nonneg; lia.
    + apply digit_bytes, digits_digit.
Qed.

(** ** The text of a value *)

Section Write.
Context (xref : bool) (fetch : Z -> Z -> bool -> res value) (random : nat -> list Z)
  (deflate : list Z -> option (list Z)) (file : list Z) (tr : option CipherClass).
Hypothesis random_iv : forall n, length (random n) = 16%nat /\ Forall is_byte (random n).
Abbreviation writeValue := (writeValue fetch random deflate file).

(** [m] pushes a text that spells the tokens [g] in front of what follows. *)
Definition writes (m : M WriterState unit) (text : jstr) : Prop :=
  forall w, strings_by tr (w_transform w) -> exists w',
    m w = (Ok tt, w') /\ w_buffer w' = w_buffer w ++ text /\ strings_by tr (w_transform w').

Definition in_front (text : jstr) (g : list obj) : Prop :=
  Forall is_byte text /\
  forall r ts, ends_word r -> spells r ts -> spells (text ++ r) (g ++ ts).

(** What writing the value [v] does: the text spells the tokens of an object
    that is [v] with its strings encrypted. *)
Definition written (m : M WriterState unit) (v : obj) : Prop :=
  forall w, strings_by tr (w_transform w) -> exists w' text o,
    m w = (Ok tt, w') /\ w_buffer w' = w_buffer w ++ text /\ strings_by tr (w_transform w') /\
    readable xref o = true /\ map_strings (plain tr) o = v /\ in_front text (tokens o).

Lemma writes_push text : writes (push text) text.
Proof. intros w Hw. eexists. split; [reflexivity|]. done. Qed.

Lemma writes_bind m m' text text' :
  writes m text -> writes m' text' -> writes (m ;;; m') (text ++ text').
Proof.
  intros Hm Hm' w Hw. destruct (Hm w Hw) as (w1 & E & Hb & Hw1).
  destruct (Hm' w1 Hw1) as (w2 & E2 & Hb2 & Hw2). exists w2. unfold mbind. rewrite E. split; [done|].
  by rewrite Hb2, Hb, <- app_assoc.
Qed.

Lemma in_front_one t o :
  Forall is_byte t -> (forall r, ends_word r -> lexes (S := Stream) kc t o r) -> in_front t [o].
Proof. intros Hb Ht. split; [done|]. intros r ts Hr Hs. apply spells_cons; [by apply Ht|done]. Qed.

Lemma written_atom text o :
  readable xref o = true -> map_strings (plain tr) o = o -> in_front text (tokens o) ->
  written (push text) o.
Proof.
  intros Ho Hp Ht w Hw. destruct (writes_push text w Hw) as (w' & E & Hb & Hw').
  exists w', text, o. done.
Qed.

Lemma in_front_word w o : plain_word w = true -> word_obj w = o -> in_front w [o].
Proof.
  intros Hw <-. apply in_front_one; [|intros r Hr; by apply lexes_word].
  unfold plain_word in Hw. rewrite !andb_true_iff in Hw. destruct Hw as [[Hw _] _].
  apply Forall_forall. intros c Hc. pose proof (forallb_elem _ _ _ Hw Hc). cbn in *. bool_hyps.
  unfold is_byte. lia.
Qed.

Lemma ends_blank c r : special c = 1 -> ends_word (c :: r).
Proof. intros Hc. simpl. by rewrite Hc. Qed.

Lemma in_front_ref num gen : 0 <= num < 2 ^ 53 -> 0 <= gen < 2 ^ 53 -> in_front (ref_text num gen) (tokens (ORef num gen)).
Proof.
  intros Hn Hg. split.
  { unfold ref_text.
    repeat (apply Forall_app; split); first [apply dec_bytes; lia | apply literal_bytes]. }
  intros r ts Hr Hs. unfold ref_text. rewrite <- !app_assoc. cbn [tokens app].
  apply spells_cons; [apply lexes_nat; [done|by apply ends_word_number, ends_blank]|].
  apply spells_blank; [done|].
  apply spells_cons; [apply lexes_nat; [done|by apply ends_word_number, ends_blank]|].
  apply spells_blank; [done|]. apply (spells_cons (js "R")); [by apply lexes_word|done].
Qed.

Lemma written_string s : bytes_only s = true ->
  written (s <- encrypted random s ;; push (js "(" ++ escapeString s ++ js ")")) (OStr s).
Proof.
  intros Hs w Hw. apply bytes_only_spec in Hs.
  assert (He : exists c w1, encrypted random s w = (Ok c, w1) /\ w_buffer w1 = w_buffer w /\
    strings_by tr (w_transform w1) /\ Forall is_byte c /\ plain tr c = s).
  { unfold encrypted, strings_by in *. destruct (w_transform w) as [t|] eqn:Et.
    - destruct tr as [cls|]; [|done]. destruct (random_iv (w_draws w)) as [Hi Hib].
      destruct (encryptString_spec t (random (w_draws w)) s cls Hw Hi Hib Hs)
        as (c & t' & E & Hc & Hd & Eg).
      rewrite E. do 2 eexists. split; [reflexivity|]. cbn. rewrite Eg. done.
    - destruct tr as [cls|]; [done|]. exists s, w. rewrite Et. done. }
  destruct He as (c & w1 & E & Hb & Hw1 & Hc & Hp).
  destruct (writes_push (js "(" ++ escapeString c ++ js ")") w1 Hw1) as (w2 & E2 & Hb2 & Hw2).
  exists w2, (js "(" ++ escapeString c ++ js ")"), (OStr c). unfold mbind. rewrite E.
  split_and!; [done|by rewrite Hb2, Hb|done|done|cbn; by rewrite Hp|].
  apply in_front_one; [|intros r _; by apply lexes_string].
  repeat (apply Forall_app; split); first [apply literal_bytes | by apply escapeString_bytes].
Qed.

(** Values one after the other: [glue] is pushed before each, [spell] are its
    tokens. *)
Lemma written_entries get m :
  (forall e, e ∈ m -> written (get e.2) e.2) ->
  forallb (fun e => bytes_only e.1) m = true ->
  forall w, strings_by tr (w_transform w) -> exists w' text m',
    write_entries get m w = (Ok tt, w') /\ w_buffer w' = w_buffer w ++ text /\
    strings_by tr (w_transform w') /\
    forallb (fun e => readable xref e.2) m' = true /\ m'.*1 = m.*1 /\
    map (fun e => (e.1, map_strings (plain tr) e.2)) m' = m /\
    Forall is_byte text /\ forall r ts, ends_word r -> spells r ts ->
      ends_word (text ++ r) /\ spells (text ++ r) (flat_map entry_tokens m' ++ ts).
Proof.
  intros Hget Hk. induction m as [|[k v] m IH]; intros w Hw.
  - exists w, [], []. rewrite app_nil_r. cbn. split_and!; done.
  - cbn [forallb fst] in Hk. apply andb_true_iff in Hk as [Hk Hks]. apply bytes_only_spec in Hk.
    destruct (writes_push (js " /" ++ escapePDFName k ++ js " ") w Hw) as (w1 & E1 & Hb1 & Hw1).
    destruct (Hget (k, v) ltac:(by left) w1 Hw1) as (w2 & tv & o & E2 & Hb2 & Hw2 & Ho & Hm & Hbv & Hf).
    destruct (IH ltac:(intros; apply Hget; by right) Hks w2 Hw2)
      as (w3 & text & m' & E3 & Hb3 & Hw3 & Hr & Hkeys & Hmap & Hbt & Hsp).
    exists w3, (js " /" ++ escapePDFName k ++ js " " ++ tv ++ text), ((k, o) :: m').
    cbn [write_entries]. unfold mbind. rewrite E1. cbn [snd] in E2. rewrite E2, E3.
    split_and!; [done| |done|by cbn; rewrite Ho| | | |].
    + rewrite Hb3, Hb2, Hb1. by rewrite <- !app_assoc.
    + cbn. by rewrite Hkeys.
    + cbn in *. by rewrite Hm, Hmap.
    + repeat (apply Forall_app; split);
        first [done | apply literal_bytes | by apply escapePDFName_bytes].
    + intros r ts Hr' Hs. destruct (Hsp r ts Hr' Hs) as [Hend Hspell]. split; [done|].
      rewrite <- !app_assoc. cbn [js String.list_ascii_of_string map app flat_map entry_tokens fst snd].
      apply spells_blank; [done|].
      change (spells ((0x2f :: escapePDFName k) ++ 32 :: tv ++ text ++ r)
        (OName k :: (tokens o ++ flat_map entry_tokens m') ++ ts)).
      apply spells_cons; [apply lexes_name; [done|by apply ends_blank]|].
      apply spells_blank; [done|]. rewrite <- app_assoc. by apply Hf.
Qed.

Lemma written_elements get l :
  (forall v, v ∈ l -> written (get v) v) ->
  forall w, strings_by tr (w_transform w) -> exists w' text l',
    write_elements get l w = (Ok tt, w') /\ w_buffer w' = w_buffer w ++ text /\
    strings_by tr (w_transform w') /\
    forallb (readable xref) l' = true /\ map (map_strings (plain tr)) l' = l /\
    in_front text (flat_map tokens l').
Proof.
  intros Hget. induction l as [|v l IH]; intros w Hw.
  - exists w, [], []. rewrite app_nil_r. split_and!; try done.
  - destruct (Hget v ltac:(by left) w Hw) as (w1 & tv & o & E1 & Hb1 & Hw1 & Ho & Hm & Hbv & Hf).
    destruct l as [|v' l].
    + exists w1, tv, [o]. cbn. rewrite Ho, Hm, app_nil_r. by split_and!.
    + destruct (writes_push (js " ") w1 Hw1) as (w2 & E2 & Hb2 & Hw2).
      destruct (IH ltac:(intros; apply Hget; by right) w2 Hw2)
        as (w3 & text & l' & E3 & Hb3 & Hw3 & Hr & Hmap & Hbt & Hsp).
      exists w3, (tv ++ js " " ++ text), (o :: l').
      split_and!.
      * change (write_elements get (v :: v' :: l))
          with (get v ;;; push (js " ") ;;; write_elements get (v' :: l)).
        unfold mbind. by rewrite E1, E2, E3.
      * rewrite Hb3, Hb2, Hb1. by rewrite <- !app_assoc.
      * done.
      * cbn. by rewrite Ho.
      * cbn [map]. by rewrite Hm, Hmap.
      * split; [repeat (apply Forall_app; split); first [done | apply literal_bytes]|].
        intros r ts Hr' Hs. rewrite <- !app_assoc. cbn [flat_map]. rewrite <- app_assoc.
        apply Hf; [by apply ends_blank|]. apply spells_blank; [done|]. by apply Hsp.
Qed.

(** The nesting of a value. *)
Fixpoint depth (o : obj) : nat :=
  match o with
  | OArr l => S (fold_right (fun v n => max (depth v) n) 0%nat l)
  | ODict (mkDict m _ _) => S (fold_right (fun e n => max (depth e.2) n) 0%nat m)
  | _ => 1%nat
  end.

Lemma fold_max {A} (f : A -> nat) l x :
  x ∈ l -> (f x <= fold_right (fun v n => max (f v) n) 0%nat l)%nat.
Proof. induction 1; simpl; lia. Qed.

Lemma written_value fuel v :
  printable v = true -> readable xref v = true -> (depth v <= fuel)%nat ->
  written (writeValue fuel v) v.
Proof.
  revert v. induction fuel as [|fuel IH]; intros v Hp Hr Hd;
    [destruct v as [| | | | | | | |[m x s]| |]; simpl in Hd; lia|].
  destruct v as [|b|n|s|n|cmd|num gen|l|[m x s]| |]; try discriminate; cbn [Writer.writeValue].
  - apply written_atom; [done|done|by apply in_front_word].
  - apply written_atom; [done|done|]. destruct b; by apply in_front_word.
  - apply written_atom; [done|done|]. apply in_front_one; [by apply number_bytes|]. intros r Hr'.
    by apply lexes_number, ends_word_number.
  - by apply written_string.
  - apply written_atom; [done|done|]. apply bytes_only_spec in Hp.
    apply (in_front_one (0x2f :: escapePDFName n)).
    { constructor; [unfold is_byte; lia|by apply escapePDFName_bytes]. }
    intros r Hr'. by apply lexes_name.
  - cbn [printable] in Hp. bool_hyps. apply written_atom; [done|done|by apply in_front_ref].
  - intros w Hw. cbn [printable readable depth] in *.
    destruct (writes_push (js "[") w Hw) as (w1 & E1 & Hb1 & Hw1).
    destruct (written_elements (writeValue fuel) l) with (w := w1)
      as (w2 & text & l' & E2 & Hb2 & Hw2 & Hrl & Hmap & Hbt & Hsp); [|done|].
    { intros v Hv. apply IH; [by eapply forallb_elem|by eapply forallb_elem|].
      pose proof (fold_max depth l v Hv). lia. }
    destruct (writes_push (js "]") w2 Hw2) as (w3 & E3 & Hb3 & Hw3).
    exists w3, (js "[" ++ text ++ js "]"), (OArr l'). unfold writeArray, mbind. rewrite E1, E2.
    split_and!; [done| |done|done|cbn [map_strings]; by rewrite Hmap|].
    + rewrite Hb3, Hb2, Hb1. by rewrite <- !app_assoc.
    + split; [repeat (apply Forall_app; split); first [done | apply literal_bytes]|].
      intros r ts Hr' Hs. rewrite <- !app_assoc. cbn [tokens app]. rewrite <- app_assoc.
      apply (spells_cons (js "[")); [apply lexes_open_array|]. apply Hsp; [done|].
      apply (spells_cons (js "]")); [apply lexes_close_array|done].
  - intros w Hw. cbn [printable readable depth] in *. bool_hyps.
    destruct (writes_push (js "<<") w Hw) as (w1 & E1 & Hb1 & Hw1).
    destruct (written_entries (writeValue fuel) m) with (w := w1)
      as (w2 & text & m' & E2 & Hb2 & Hw2 & Hrm & Hkeys & Hmap & Hbt & Hsp); [| |done|].
    { intros e He. pose proof (fold_max (fun e => depth e.2) m e He).
      pose proof (forallb_elem _ m e Hp He). cbn in *. bool_hyps.
      apply IH; [done|by apply (forallb_elem (fun e => readable xref e.2) m e)|lia]. }
    { clear -Hp. induction m as [|e m IH]; [done|]. cbn [forallb] in *. bool_hyps.
      apply andb_true_iff. split; [done|by apply IH]. }
    destruct (writes_push (js ">>") w2 Hw2) as (w3 & E3 & Hb3 & Hw3).
    exists w3, (js "<<" ++ text ++ js ">>"), (ODict (mkDict m' x s)). unfold writeDict, mbind.
    cbn [d_map]. rewrite E1, E2. split_and!; [done| |done| |cbn [map_strings]; by rewrite Hmap|].
    + rewrite Hb3, Hb2, Hb1. by rewrite <- !app_assoc.
    + cbn [readable]. rewrite Hkeys, Hrm. rewrite !andb_true_iff. split_and!; [done| |done|done].
      by rewrite negb_true_iff.
    + split; [repeat (apply Forall_app; split); first [done | apply literal_bytes]|].
      intros r ts Hr' Hs. rewrite <- !app_assoc. cbn [tokens app]. rewrite <- app_assoc.
      apply (spells_cons (js "<<")); [apply lexes_open_dict|]. apply Hsp; [done|].
      apply (spells_cons (js ">>")); [apply lexes_close_dict|done].
Qed.
End Write.
End Spelling.
