(* ===== verification/Xref.v ===== *)
(** * Fetching an object of the file

    [XRef.fetchUncompressed] of pdf.worker.mjs: the object at the offset of its
    cross-reference entry.  The cache of fetched objects is left out; [fetch]
    is the table the parser resolves references with. *)
From stdpp Require Import gmap.
From S2P Require Import Prelude ByteStream DecodeStream Ascii85 Predictor Primitives Crypto Lexer Parser.
Local Open Scope js_scope.

Record XRefEntry := mkEntry { e_offset : Z; e_gen : Z; e_free : bool; e_uncompressed : bool }.

(** [parseInt(str, 10)], [None] for [NaN]: white space, a sign, digits. *)
Fixpoint trim_start (str : jstr) : jstr :=
  match str with
  | c :: str' =>
      if bool_decide (c ∈ [0x09; 0x0a; 0x0b; 0x0c; 0x0d; 0x20; 0xa0]) then trim_start str' else str
  | [] => []
  end.
Definition parseInt (str : jstr) : option Z :=
  let '(sign, str) :=
    match trim_start str with
    | 0x2d :: str => (-1, str)
    | 0x2b :: str => (1, str)
    | str => (1, str)
    end in
  match span_digits str with
  | ([], _) => None
  | (d, _) => Some (sign * parse_dec d)
  end.

(** [obj === n] for an integer [n]. *)
Definition is_number (o : obj) (n : Z) : bool := bool_decide (is_int o = Some n).

Section Fetch.
Context (fetch : Z -> Z -> bool -> res value) (header : StreamOf obj -> res (jsnum * jsnum)).
(** [this._generationFallback], and [this.encrypt.createCipherTransform]. *)
Context (generationFallback : bool) (encrypt : option (Z -> Z -> CipherTransform)).

Definition bad_entry : exn := XRefEntryException "Bad (uncompressed) XRef entry".

(** The object after [num gen obj]. *)
Definition object_after_header (fuel : nat) (num gen : Z) (suppressEncryption : bool) : P obj :=
  let getObj := getObj None true fetch header true false fuel in
  obj1 <- getObj ;;
  obj2 <- getObj ;;
  obj3 <- getObj ;;
  match is_number obj1 num && is_number obj2 gen, obj3 with
  | true, OCmd cmd =>
      if bool_decide (cmd = js "obj") then
        (match encrypt with
         | Some create =>
             if suppressEncryption then mret tt else modify (set_transform (Some (create num gen)))
         | None => mret tt
         end) ;;;
        getObj
      else if bool_decide (take 3 cmd = js "obj") then
        match parseInt (drop 3 cmd) with
        | Some num => mret (OInt num)
        | None => throw bad_entry
        end
      else throw bad_entry
  | _, _ => throw bad_entry
  end.

Definition fetch_at (fuel : nat) (stream : Stream) (num gen : Z) (xrefEntry : XRefEntry)
    (suppressEncryption : bool) : res obj :=
  let stream := stream_makeSubStream (Some (e_offset xrefEntry + s_start stream)) None stream in
  match new_Lexer stream with
  | Ok lexer =>
      match new_Parser None lexer None with
      | Ok parser => fst (object_after_header fuel num gen suppressEncryption parser)
      | Throw e => Throw e
      | OutOfFuel => OutOfFuel
      end
  | Throw e => Throw e
  | OutOfFuel => OutOfFuel
  end.

Definition fetchUncompressed (fuel : nat) (stream : Stream) (num gen : Z) (xrefEntry : XRefEntry)
    (suppressEncryption : bool) : res obj :=
  if e_gen xrefEntry =? gen then fetch_at fuel stream num gen xrefEntry suppressEncryption
  else if generationFallback && (e_gen xrefEntry <? gen)
  then fetch_at fuel stream num (e_gen xrefEntry) xrefEntry suppressEncryption
  else Throw (XRefEntryException "Inconsistent generation in XRef").
End Fetch.
