(* ===== verification/RoundTrip.v ===== *)
(** * An object written to a file is fetched from it

    The writer, the lexer, the parser, the ciphers and the cross-reference
    table together: what [writeObject] appends to a file, encrypted or not,
    [fetchUncompressed] reads back. *)
From stdpp Require Import gmap.
From S2P Require Import Prelude JsBits Number64 ByteStream DecodeStream Ascii85 Predictor Primitives Crypto.
From S2P Require Import CryptoSpec Lexer LexerSpec Parser ParserSpec Writer Numerals WriterSpec Xref.
Local Open Scope js_scope.

Lemma no_commands p : known None p = false.
Proof. reflexivity. Qed.

Lemma tokens_map_strings f o : length (tokens (map_strings f o)) = length (tokens o).
Proof.
  enough (forall n o, (length (tokens o) <= n)%nat ->
    length (tokens (map_strings f o)) = length (tokens o)) by eauto.
  clear o. induction n as [|n IH]; intros o Hn; [pose proof (tokens_pos o); lia|].
  assert (Hflat : forall {A} (g h : A -> list obj) l,
    (forall x, x ∈ l -> length (g x) = length (h x)) ->
    length (flat_map g l) = length (flat_map h l)).
  { intros A g h l. induction l as [|x l IHl]; intros Hg; [done|]. cbn [flat_map].
    rewrite !length_app, Hg, IHl; [done| |by left]. intros; apply Hg; by right. }
  destruct o as [| | | | | | |l|[m x s]| |]; try done; cbn [map_strings tokens length] in *;
    rewrite !length_app in *; do 2 f_equal; simpl in Hn.
  - rewrite flat_map_concat_map, map_map, <- flat_map_concat_map. apply Hflat. intros v Hv.
    apply IH. pose proof (flat_tokens_length tokens l v Hv). lia.
  - rewrite flat_map_concat_map, map_map, <- flat_map_concat_map. apply Hflat. intros e He.
    cbn. f_equal. apply IH.
    pose proof (flat_tokens_length entry_tokens m e He). unfold entry_tokens in *. simpl in *. lia.
Qed.

(** A new parser is at the tokens of its text. *)
Lemma new_Parser_at kc tr t (s : Stream) text o1 o2 ts :
  rest s text -> spells kc text (o1 :: o2 :: ts) -> strings_by tr t ->
  exists l p, new_Lexer s = Ok l /\ new_Parser kc l t = Ok p /\ p_at kc tr p (o1 :: o2 :: ts).
Proof.
  intros Hr Hs Ht. destruct (reads_next (S := Stream) 0 text (mkLex s 0 (-1))) as (l & E & Hl); [done|].
  destruct (spells_yields kc _ _ _ Hs Hl) as (l1 & E1 & l2 & E2 & Hy).
  unfold new_Lexer. rewrite E. exists l. unfold new_Parser, refill, lexer_getObj, on_lexer, zoom. m_red.
  cbn [p_lexer]. rewrite E1. cbn [p_lexer set_buf1 set_lexer]. rewrite E2.
  eexists. split; [done|]. split; [reflexivity|]. by split_and!.
Qed.

(** A command that opens nothing is returned as it is. *)
Lemma drives_command kc xref fetch header allowStreams recoveryMode tr fuel cmd ts :
  quiet ts -> cmd ∉ [js "BI"; js "["; js "<<"] ->
  drives kc tr (getObj kc xref fetch header allowStreams recoveryMode (S fuel)) (OCmd cmd :: ts)
    (OCmd cmd) ts.
Proof.
  intros (Hl & Ht & _) Hc p Hp. rewrite !not_elem_of_cons in Hc. destruct Hc as (H1 & H2 & H3 & _).
  cbn [getObj]. unfold mbind at 1, gets. rewrite (proj1 Hp). cbn [tok lookup list_lookup default from_option id].
  revert p Hp. eapply drives_bind.
  - apply drives_shift; [simpl; lia|]. unfold stray in Ht. by bool_hyps.
  - cbn [object_from tail]. rewrite !bool_decide_eq_false_2 by done. apply drives_ret.
Qed.

Lemma rest_at bytes off :
  Forall is_byte bytes -> 0 <= off <= len bytes ->
  rest (new_Stream bytes (Some off) None) (drop (Z.to_nat off) bytes).
Proof.
  intros Hb Ho. assert (Hs : new_Stream bytes (Some off) None = mkStream bytes off off (len bytes)).
  { unfold new_Stream, jn_or. cbn [jn_add option_bind mbind]. destruct (Z.eqb_spec off 0) as [->|]; done. }
  rewrite Hs. split; [split; cbn; auto; lia|]. cbn. rewrite subarray_in by lia.
  rewrite take_ge; [done|]. rewrite length_drop. unfold len. lia.
Qed.

(** The text of an indirect object, in front of the rest of the file. *)
Lemma written_object xref fetch random deflate file tr
    (random_iv : forall n, length (random n) = 16%nat /\ Forall is_byte (random n)) fuel num gen v w :
  0 <= num < 2 ^ 53 -> 0 <= gen < 2 ^ 53 -> printable v = true -> readable xref v = true -> (depth v <= fuel)%nat ->
  strings_by tr (w_transform w) ->
  exists w' text o, writeObject fetch random deflate file fuel num gen v w = (Ok tt, w') /\
    w_buffer w' = w_buffer w ++ text /\ Forall is_byte text /\
    readable xref o = true /\ map_strings (plain tr) o = v /\
    forall suffix ts, spells None suffix ts ->
      spells None (text ++ suffix)
        (OInt num :: OInt gen :: OCmd (js "obj") :: tokens o ++ OCmd (js "endobj") :: ts).
Proof.
  intros Hnum Hgen Hp Hr Hd Ht.
  set (head := dec num ++ js " " ++ dec gen ++ js " obj" ++ [0x0a]).
  set (tl := [0x0a] ++ js "endobj" ++ [0x0a]).
  destruct (writes_push tr head w Ht) as (w1 & E1 & Hb1 & Hw1).
  destruct (written_value None no_commands xref fetch random deflate file tr random_iv fuel v Hp Hr
    Hd w1 Hw1) as (w2 & text & o & E2 & Hb2 & Hw2 & Ho & Hm & Hbt & Hsp).
  destruct (writes_push tr tl w2 Hw2) as (w3 & E3 & Hb3 & Hw3).
  exists w3, (head ++ text ++ tl), o. unfold writeObject, mbind. fold head tl. rewrite E1, E2.
  split_and!; [done| | |done|done|].
  - by rewrite Hb3, Hb2, Hb1, <- !app_assoc.
  - repeat (apply Forall_app; split); first [done | apply dec_bytes; lia | apply literal_bytes
      | constructor; [unfold is_byte; lia|constructor]].
  - intros suffix ts Hs. unfold head, tl. rewrite <- !app_assoc.
    apply spells_cons; [apply lexes_nat; [done|by apply ends_word_number, ends_blank]|].
    apply spells_blank; [done|].
    apply spells_cons; [apply lexes_nat; [done|by apply ends_word_number, ends_blank]|].
    apply spells_blank; [done|]. apply (spells_cons None (js "obj")).
    { apply lexes_word; [apply no_commands|done|by apply ends_blank]. }
    apply spells_blank; [done|]. apply Hsp; [by apply ends_blank|].
    apply spells_blank; [done|]. apply (spells_cons None (js "endobj")).
    { apply lexes_word; [apply no_commands|done|by apply ends_blank]. }
    by apply spells_blank.
Qed.

(** The transform of an object, on the side of the writer and of the reader. *)
Definition transform_of (encrypt : option (Z -> Z -> CipherTransform)) (num gen : Z)
  : option CipherTransform := create ← encrypt; Some (create num gen).

Lemma is_number_int n : is_number (OInt n) n = true.
Proof. unfold is_number, is_int, OInt. cbn [num_int]. by apply bool_decide_eq_true. Qed.

(** The header of an indirect object, then the object with its cipher. *)
Lemma header_then_object fetch header encrypt tr fuel num gen o next p :
  readable true o = true -> strings_by tr (transform_of encrypt num gen) ->
  (length (tokens o) <= fuel)%nat -> stray next = false ->
  p_at None None p
    (OInt num :: OInt gen :: OCmd (js "obj") :: tokens o ++ [OCmd (js "endobj"); next]) ->
  exists p', object_after_header fetch header encrypt fuel num gen false p =
    (Ok (map_strings (plain tr) o), p').
Proof.
  intros Ho Ht Hf Hn Hp. pose proof (tokens_pos o) as Hpos. destruct fuel as [|fuel]; [lia|].
  set (ts := [OCmd (js "endobj"); next]) in *.
  assert (Hq : quiet ts) by (split; [simpl; lia|done]).
  assert (Hq1 : quiet (tokens o ++ ts)) by (by apply (quiet_tokens true)).
  assert (Hq2 : quiet (OCmd (js "obj") :: tokens o ++ ts)) by (by apply quiet_cons).
  assert (Hq3 : quiet (OInt gen :: OCmd (js "obj") :: tokens o ++ ts)) by (by apply quiet_cons).
  unfold object_after_header. unfold mbind at 1.
  destruct (drives_getObj None true fetch header true false None (S fuel) (OInt num) _ eq_refl Hq3
    ltac:(simpl; lia) p Hp) as (p1 & -> & Hp1).
  unfold mbind at 1.
  destruct (drives_getObj None true fetch header true false None (S fuel) (OInt gen) _ eq_refl Hq2
    ltac:(simpl; lia) p1 Hp1) as (p2 & -> & Hp2).
  unfold mbind at 1.
  destruct (drives_command None true fetch header true false None fuel (js "obj") _ Hq1
    ltac:(by rewrite !not_elem_of_cons; split_and!; [..|apply not_elem_of_nil]) p2 Hp2)
    as (p3 & -> & Hp3).
  cbn [map_strings OInt]. change (ONum (NInt num)) with (OInt num). change (ONum (NInt gen)) with (OInt gen).
  rewrite !is_number_int. cbn [andb]. rewrite bool_decide_eq_true_2 by done.
  assert (Hset : exists p4, p_at None tr p4 (tokens o ++ ts) /\
    (match encrypt with
     | Some create => modify (set_transform (Some (create num gen)))
     | None => mret tt
     end) p3 = (Ok tt, p4)).
  { destruct Hp3 as (H1 & H2 & Hy & Ht3). unfold transform_of in Ht.
    destruct encrypt as [create|]; cbn in Ht.
    - eexists. split; [|reflexivity]. by split_and!.
    - exists p3. split; [|done]. destruct tr; [done|]. by split_and!. }
  destruct Hset as (p4 & Hp4 & E4). unfold mbind at 1. rewrite E4.
  destruct (drives_getObj None true fetch header true false tr (S fuel) o _ Ho Hq Hf p4 Hp4)
    as (p5 & -> & _). by exists p5.
Qed.

(** The object whose tokens stand at the offset of its entry. *)
Lemma fetch_spelled fetch header generationFallback encrypt tr fuel num gen o next before text :
  readable true o = true -> strings_by tr (transform_of encrypt num gen) ->
  (length (tokens o) <= fuel)%nat -> stray next = false ->
  Forall is_byte before -> Forall is_byte text ->
  spells None text
    (OInt num :: OInt gen :: OCmd (js "obj") :: tokens o ++ [OCmd (js "endobj"); next]) ->
  fetchUncompressed fetch header generationFallback encrypt fuel
    (new_Stream (before ++ text) None None) num gen (mkEntry (len before) gen false true) false
  = Ok (map_strings (plain tr) o).
Proof.
  intros Ho Hcipher Hfuel Hstray Hbefore Htext Hsp.
  unfold fetchUncompressed. cbn [e_gen]. rewrite Z.eqb_refl.
  unfold fetch_at, stream_makeSubStream. cbn [e_offset]. change (s_start _) with 0. rewrite Z.add_0_r.
  change (s_bytes _) with (before ++ text).
  assert (Hr : rest (new_Stream (before ++ text) (Some (len before)) None) text).
  { replace text with (drop (Z.to_nat (len before)) (before ++ text)) at 2
      by (rewrite drop_app_length'; [done|unfold len; lia]).
    apply rest_at; [by apply Forall_app|]. len_lia. }
  destruct (new_Parser_at None None None _ _ _ _ _ Hr Hsp) as (l & p & El & Ep & Hp); [done|].
  rewrite El, Ep.
  destruct (header_then_object fetch header encrypt tr fuel num gen o next p) as [p' ->]; done.
Qed.

(** C2. What is written is fetched: an object (null, a boolean, an integer below
    2^53, the double nearest to a decimal fraction of at most ten places and
    below 2^52 units of the tenth, a string, a name, a reference, or an array or
    dictionary of such, nested as deep as one likes) that [writeObject] appends to a file, its strings
    encrypted for its number when the file is encrypted, is the object
    [fetchUncompressed] returns for its cross-reference entry, whatever comes
    before it in the file and whatever token follows it. *)
Theorem fetch_written_object (fetch : Z -> Z -> bool -> res value) header generationFallback
    (encrypt : option (Z -> Z -> CipherTransform)) (tr : option CipherClass)
    random deflate doc fuel num gen v before after next
  (Hnum : 0 <= num < 2 ^ 53) (Hgen : 0 <= gen < 2 ^ 53)
  (Hprint : printable v = true) (Hread : readable true v = true)
  (Hcipher : strings_by tr (transform_of encrypt num gen))
  (Hrandom : forall n, length (random n) = 16%nat /\ Forall is_byte (random n))
  (Hbefore : Forall is_byte before) (Hafter : Forall is_byte after)
  (Hnext : spells None after [next]) (Hstray : stray next = false)
  (Hfuel : (length (tokens v) <= fuel)%nat) :
  exists w,
    writeObject fetch random deflate doc (depth v) num gen v
      (mkWriter [] (transform_of encrypt num gen) 0) = (Ok tt, w) /\
    fetchUncompressed fetch header generationFallback encrypt fuel
      (new_Stream (before ++ w_buffer w ++ after) None None) num gen
      (mkEntry (len before) gen false true) false = Ok v.
Proof.
  destruct (written_object true fetch random deflate doc tr Hrandom (depth v) num gen v
    (mkWriter [] (transform_of encrypt num gen) 0) Hnum Hgen Hprint Hread (le_n _) Hcipher)
    as (w & text & o & E & Hw & Hb & Ho & Hm & Hsp).
  exists w. split; [done|]. rewrite Hw. cbn [w_buffer app]. subst v. rewrite tokens_map_strings in Hfuel.
  apply (fetch_spelled _ _ _ _ _ _ _ _ _ next); try done; [by apply Forall_app|]. by apply Hsp.
Qed.

Lemma fetch_written_object_witness :
  let create := fun _ _ => new_CipherTransform (fun _ => Ok (ClassARCFour [1; 2; 3; 4; 5])) None None in
  let v := OArr [OInt (-7); ONum (NReal (lit 310609 100)); OStr [40; 200; 10]; ODict (mkDict [(js "A B", ORef 12 0)] true false)] in
  exists w,
    writeObject (fun _ _ _ => Ok None) (fun _ => replicate 16 0) (fun _ => None) [] 3 4 0 v
      (mkWriter [] (Some (create 4 0)) 0) = (Ok tt, w) /\
    fetchUncompressed (fun _ _ _ => Ok None) (fun _ => OutOfFuel) false (Some create) 40
      (new_Stream ([0x25; 0x0a] ++ w_buffer w ++ [0x20]) None None) 4 0
      (mkEntry 2 0 false true) false = Ok v.
Proof.
  intros create v.
  apply (fetch_written_object (fun _ _ _ => Ok None) (fun _ => OutOfFuel) false (Some create)
    (Some (ClassARCFour [1; 2; 3; 4; 5])) (fun _ => replicate 16 0) (fun _ => None) [] 40 4 0 v
    [0x25; 0x0a] [0x20] OEOF).
  - lia.
  - lia.
  - vm_compute. reflexivity.
  - vm_compute. reflexivity.
  - vm_compute. reflexivity.
  - intros n. split; [reflexivity|]. repeat constructor; unfold is_byte; lia.
  - repeat constructor; unfold is_byte; lia.
  - repeat constructor; unfold is_byte; lia.
  - apply spells_eof. by constructor; [|constructor].
  - reflexivity.
  - simpl. lia.
Defined.
