(* ===== verification/StreamSpec.v ===== *)
(** * Stream objects

    What [makeStream] does on a stream object whose [/Length] is right: the
    stream opened is the part of the file between the end of the line of
    [stream] and [endstream].  And what the search for [endstream] finds when
    the length is wrong. *)
From stdpp Require Import gmap.
From S2P Require Import Prelude JsBits ByteStream DecodeStream Ascii85 Predictor Primitives Crypto.
From S2P Require Import CryptoSpec Lexer LexerSpec Parser ParserSpec Writer Numerals WriterSpec.
Local Open Scope js_scope.

(** ** The text in the data *)

(** The text of a lexer is in its stream, its current character too. *)
Definition at_data (l : Lex Stream) (t : list Z) : Prop :=
  at_text l t /\ (t <> [] -> rest (shift_pos (-1) (lx_stream l)) t).

Definition reaches {A} (m : M (Lex Stream) A) (t : list Z) (a : A) (t' : list Z) : Prop :=
  forall l, at_text l t -> exists l', m l = (Ok a, l') /\ at_data l' t' /\
    s_bytes (lx_stream l') = s_bytes (lx_stream l) /\ s_end (lx_stream l') = s_end (lx_stream l).

Lemma next_data c t (l : Lex Stream) : at_text l (c :: t) ->
  exists l', nextChar l = (Ok (front t), l') /\ at_data l' t /\
    s_bytes (lx_stream l') = s_bytes (lx_stream l) /\ s_end (lx_stream l') = s_end (lx_stream l).
Proof.
  intros [Hc Hr]. unfold nextChar, on_lx. m_red.
  assert (Hsame : forall r s', getByte (lx_stream l) = (r, s') ->
    s_bytes s' = s_bytes (lx_stream l) /\ s_end s' = s_end (lx_stream l)).
  { intros r s'. simpl. unfold stream_getByte. by destruct (_ <=? _); intros [= _ <-]. }
  destruct t as [|b t].
  - destruct (rest_nil _ Hr) as (s' & E & Hs). destruct (Hsame _ _ E). rewrite E.
    eexists. split; [reflexivity|]. split_and!; [by split|done|done].
  - destruct (rest_cons _ _ _ Hr) as (s' & E & Hs & Hb). destruct (Hsame _ _ E). rewrite E.
    eexists. split; [reflexivity|]. split_and!; [split; [done|by intros _]|done|done].
Qed.

Lemma reaches_next {A} (k : Z -> M (Lex Stream) A) c t a t' :
  (forall l l', at_data l' t -> s_bytes (lx_stream l') = s_bytes (lx_stream l) ->
     s_end (lx_stream l') = s_end (lx_stream l) -> exists l'', k (front t) l' = (Ok a, l'') /\
     at_data l'' t' /\ s_bytes (lx_stream l'') = s_bytes (lx_stream l) /\
     s_end (lx_stream l'') = s_end (lx_stream l)) ->
  reaches (mbind nextChar k) (c :: t) a t'.
Proof.
  intros Hk l Hl. destruct (next_data c t l Hl) as (l' & E & Hd & Hb & He).
  unfold mbind. rewrite E. by apply Hk.
Qed.

Lemma reaches_then {A} (k : Z -> M (Lex Stream) A) c t a t' :
  reaches (k (front t)) t a t' -> reaches (mbind nextChar k) (c :: t) a t'.
Proof.
  intros Hk. apply reaches_next. intros l l' [Ht _] Hb He.
  destruct (Hk l' Ht) as (l'' & E & Hd & Hb' & He'). exists l''. split_and!; congruence.
Qed.

Lemma reaches_last {A} (a : A) c t : reaches (mbind nextChar (fun _ => mret a)) (c :: t) a t.
Proof. apply reaches_next. intros l l' Hd Hb He. by exists l'. Qed.

(** ** The line of the keyword *)

Definition line_end (eol : list Z) : Prop := eol = [0x0a] \/ eol = [0x0d; 0x0a].

Lemma reaches_next_line fuel junk eol r :
  Forall (fun c => 0 <= c /\ c <> 0x0a /\ c <> 0x0d) junk -> line_end eol ->
  (length junk < fuel)%nat -> reaches (skipToNextLine fuel) (junk ++ eol ++ r) tt r.
Proof.
  intros Hj He Hf.
  enough (Hloop : reaches (skip_to_next_line fuel (front (junk ++ eol ++ r))) (junk ++ eol ++ r) tt r).
  { intros l Hl. unfold skipToNextLine. unfold mbind at 1, gets.
    destruct (reads_current _ l Hl) as (l1 & [= E <-] & _). rewrite E. by apply Hloop. }
  revert fuel Hf. induction Hj as [|c junk (Hc & Ha & Hd) _ IH]; intros fuel Hf;
    (destruct fuel as [|fuel]; [simpl in Hf; lia|]).
  - destruct He as [-> | ->]; cbn [app front skip_to_next_line Z.ltb Z.compare Z.eqb Pos.eqb].
    + apply reaches_last.
    + apply reaches_then. cbn [front Z.eqb Pos.eqb]. apply reaches_last.
  - cbn [app front skip_to_next_line]. rewrite (proj2 (Z.ltb_ge c 0)) by done.
    rewrite (proj2 (Z.eqb_neq c 0x0d)), (proj2 (Z.eqb_neq c 0x0a)) by done.
    apply reaches_then. apply IH. simpl in Hf. lia.
Qed.

(** ** Jumping over the data *)

Lemma at_data_pos (l : Lex Stream) t : at_data l t -> t <> [] ->
  let s := lx_stream l in
  0 <= s_start s <= s_pos s - 1 /\ s_end s <= len (s_bytes s) /\ Forall is_byte (s_bytes s) /\
  t = subarray (s_bytes s) (s_pos s - 1) (s_end s) /\ s_end s = s_pos s - 1 + len t.
Proof.
  intros [_ Hr] Ht s. specialize (Hr Ht). pose proof (stream_ok_reads _ _ Hr) as Hlen.
  destruct Hr as [[Hst Hp He Hb] E]. cbn in *. fold s in Hst, Hp, He, Hb, E, Hlen.
  split_and!; try lia; try done.
Qed.

(** Set the position to the end of the data and read on. *)
Lemma jump_over (l : Lex Stream) data c r :
  at_data l (data ++ c :: r) ->
  let s := lx_stream l in let start := s_pos s - 1 in
  subarray (s_bytes s) start (start + len data) = data /\ 0 <= start /\
  start + len data <= len (s_bytes s) /\
  exists l', nextChar (set_lx_stream (set_pos (start + len data) s) l) = (Ok c, l') /\
    at_text l' (c :: r).
Proof.
  intros Hl s start. destruct (at_data_pos l _ Hl) as (Hst & He & Hb & Ht & Hend);
    [by destruct data|]. fold s start in Hst, He, Hb, Ht, Hend.
  assert (Hlen : s_end s = start + len data + len (c :: r)) by (rewrite Hend; len_lia).
  pose proof (len_nonneg data). pose proof (len_nonneg (c :: r)).
  rewrite (subarray_split _ start (start + len data)) in Ht by lia.
  assert (Hd : subarray (s_bytes s) start (start + len data) = data /\
               subarray (s_bytes s) (start + len data) (s_end s) = c :: r).
  { apply app_inj_1 in Ht as [<- <-]; [done|]. rewrite !length_len, len_subarray; lia. }
  destruct Hd as [Hd Hr]. split_and!; [done|lia|lia|].
  destruct (reads_next (S := Stream) 0 (c :: r) (mkLex (set_pos (start + len data) s) 0
    (beginInlineImagePos l))) as (l' & E & Hl').
  { split; [done|]. split; [split; cbn; auto; lia|]. cbn. by rewrite Hr. }
  exists l'. split; [|done]. revert E. unfold nextChar, on_lx. m_red.
  cbn [lx_stream set_lx_stream currentChar beginInlineImagePos front].
  destruct (getByte _) as [[[x|]|e|] s']; cbn; intros [= <- <-]; done.
Qed.

(** ** A stream object with the right length *)

Section Make.
Context (kc : option (jstr -> option Command)) (xref : bool)
  (fetch : Z -> Z -> bool -> res value) (header : StreamOf obj -> res (jsnum * jsnum))
  (tr : option CipherClass).

Lemma shift_reads p o l' :
  is_cmd (buf2 p) "ID" = false -> lex_getObj kc (lex_fuel (p_lexer p)) (p_lexer p) = (Ok o, l') ->
  shift kc p = (Ok tt, mkParser l' (buf2 p) o (p_transform p) (imageCache p) (imageId p)).
Proof.
  intros Hid E. unfold shift, lexer_getObj, on_lexer, zoom. m_red. rewrite Hid.
  cbn [p_lexer set_buf1]. by rewrite E.
Qed.

Lemma makeStream_right_length dict p junk eol data rest_ o1 o2 :
  let s := stream_of p in
  buf2 p = OCmd (js "stream") -> strings_by tr (p_transform p) ->
  at_text (p_lexer p) (junk ++ eol ++ data ++ rest_) ->
  Forall (fun c => 0 <= c /\ c <> 0x0a /\ c <> 0x0d) junk -> line_end eol ->
  dict_get fetch dict (js "Length") = Ok (Some (OInt (len data))) ->
  spells kc rest_ [OCmd (js "endstream"); o1; o2] -> is_cmd o1 "ID" = false ->
  exists p' start,
    makeStream kc xref fetch header dict p =
      (stream <- open_stream xref fetch header dict (SubStream start (len data)) (len data) ;;
       mret (OStream dict stream None)) p' /\
    p_at kc tr p' [o1; o2] /\ 0 <= start /\ start + len data <= len (s_bytes s) /\
    subarray (s_bytes s) start (start + len data) = data.
Proof.
  intros s Hb2 Htr Hl Hj He Hlen Hsp Hid.
  pose proof (at_text_length _ _ Hl) as Hfuel.
  destruct (reaches_next_line (lex_fuel (p_lexer p)) junk eol (data ++ rest_) Hj He) with (l := p_lexer p)
    as (l1 & E1 & Hd1 & Hbytes & Hend); [rewrite length_app in Hfuel; lia|done|].
  assert (Hrest : rest_ <> []).
  { inversion Hsp as [| |b t o r ts _ [(c & t' & -> & _) _] _]; subst. by destruct b. }
  destruct rest_ as [|c r]; [done|].
  destruct (jump_over l1 data c r Hd1) as (Hdata & Hs0 & Hsn & l2 & E2 & Hl2).
  set (start := s_pos (lx_stream l1) - 1) in *.
  destruct (spells_yields kc _ _ _ Hsp Hl2) as (l3 & E3 & l4 & E4 & l5 & E5 & _).
  eexists (mkParser l5 o1 o2 (p_transform p) (imageCache p) (imageId p)), start.
  split.
  - unfold makeStream. rewrite (mbind_ok _ _ _ p p) by done.
    rewrite (mbind_ok _ _ _ tt (set_lexer l1 p)) by (unfold on_lexer, zoom; by rewrite E1).
    rewrite (mbind_ok _ _ _ (set_lexer l1 p) (set_lexer l1 p)) by done. cbv zeta.
    rewrite (mbind_ok _ _ _ (Some (OInt (len data))) (set_lexer l1 p)) by (unfold lift; by rewrite Hlen).
    change (s_pos (stream_of (set_lexer l1 p)) - 1) with start.
    unfold OInt. cbn [is_int num_int]. cbn [default from_option id].
    erewrite mbind_ok by reflexivity. erewrite mbind_ok.
    2: { unfold on_lexer, zoom. cbn [p_lexer set_lexer]. rewrite E2. reflexivity. }
    rewrite (mbind_ok _ _ _ true (mkParser l3 (buf2 p) (OCmd (js "endstream")) (p_transform p)
      (imageCache p) (imageId p))).
    2: { unfold tryShift, try_catch. erewrite mbind_ok; [reflexivity|].
         match goal with |- shift kc ?q = _ => apply (shift_reads q) end; [by cbn; rewrite Hb2|exact E3]. }
    erewrite mbind_ok by reflexivity. cbn [andb buf2].
    change (is_cmd (OCmd (js "endstream")) "endstream") with true. cbn iota.
    rewrite (mbind_ok _ _ _ (len data) (mkParser l4 (OCmd (js "endstream")) o1 (p_transform p)
      (imageCache p) (imageId p))).
    2: { erewrite mbind_ok; [reflexivity|].
         match goal with |- shift kc ?q = _ => apply (shift_reads q) end; [done|exact E4]. }
    erewrite mbind_ok; [reflexivity|].
    match goal with |- shift kc ?q = _ => apply (shift_reads q) end; [done|exact E5].
  - split; [by split_and!|]. split_and!; [lia| |].
    + unfold s, stream_of. rewrite <- Hbytes. exact Hsn.
    + unfold s, stream_of. rewrite <- Hbytes. exact Hdata.
Qed.
End Make.

(** C27. A stream object whose [/Length] is right: after the line of the
    keyword [stream], the data of that many bytes and [endstream], [makeStream]
    opens, with the cipher and the filters of the dictionary, the part of the
    file that holds exactly the data, and leaves the two tokens that follow.
    Any bytes may be in the data. *)
Theorem makeStream_reads kc xref fetch header tr dict p junk eol data after o1 o2
  (Hstream : buf2 p = OCmd (js "stream")) (Htr : strings_by tr (p_transform p))
  (Htext : at_text (p_lexer p) (junk ++ eol ++ data ++ after))
  (Hjunk : Forall (fun c => 0 <= c /\ c <> 0x0a /\ c <> 0x0d) junk) (Heol : line_end eol)
  (Hlength : dict_get fetch dict (js "Length") = Ok (Some (OInt (len data))))
  (Hafter : spells kc after [OCmd (js "endstream"); o1; o2]) (Hid : is_cmd o1 "ID" = false) :
  exists p' start,
    makeStream kc xref fetch header dict p =
      (stream <- open_stream xref fetch header dict (SubStream start (len data)) (len data) ;;
       mret (OStream dict stream None)) p' /\
    p_at kc tr p' [o1; o2] /\ 0 <= start /\ start + len data <= len (s_bytes (stream_of p)) /\
    subarray (s_bytes (stream_of p)) start (start + len data) = data.
Proof. by apply (makeStream_right_length kc xref fetch header tr dict p junk eol data after). Qed.

Lemma makeStream_reads_witness :
  let dict := mkDict [(js "Length", OInt 4)] true false in
  let p := mkParser (mkLex (set_pos 20 (new_Stream (js "<</Length 4>>stream" ++ [0x0a] ++
    [0xff; 0x28; 0x0a; 0] ++ [0x0a] ++ js "endstream endobj") None None)) 0x0a (-1))
    (OCmd (js ">>")) (OCmd (js "stream")) None [] 0 in
  exists p' start,
    makeStream None true (fun _ _ _ => Ok None) (fun _ => OutOfFuel) dict p =
      (stream <- open_stream true (fun _ _ _ => Ok None) (fun _ => OutOfFuel) dict (SubStream start 4) 4 ;;
       mret (OStream dict stream None)) p' /\
    p_at None None p' [OCmd (js "endobj"); OEOF] /\ 0 <= start /\
    start + 4 <= len (s_bytes (stream_of p)) /\
    subarray (s_bytes (stream_of p)) start (start + 4) = [0xff; 0x28; 0x0a; 0].
Proof.
  intros dict p.
  apply (makeStream_reads None true (fun _ _ _ => Ok None) (fun _ => OutOfFuel) None dict p [] [0x0a]
    [0xff; 0x28; 0x0a; 0] ([0x0a] ++ js "endstream" ++ [0x20] ++ js "endobj" ++ [])).
  - reflexivity.
  - exact I.
  - split; [reflexivity|]. split; [split; vm_compute; intuition discriminate || auto|].
    + repeat constructor; discriminate.
    + vm_compute. reflexivity.
  - constructor.
  - by left.
  - reflexivity.
  - apply (spells_token None [0x0a]); [by constructor; [|constructor]|by apply lexes_word|].
    apply (spells_token None [0x20]); [by constructor; [|constructor]|by apply lexes_word|].
    apply spells_eof. constructor.
  - reflexivity.
Defined.

(** ** The search for [endstream] *)

(** The signature the search looks for, at a position of the data. *)
Definition signature (bytes : list Z) (p : Z) : bool :=
  (endLength <=? match_length bytes p END_SIGNATURE) &&
  partial_match bytes (p + match_length bytes p END_SIGNATURE) PARTIAL_SIGNATURE.

Lemma arr_get_subarray {A} (l : list A) b e i :
  0 <= b <= e -> e <= len l -> 0 <= i < e - b -> arr_get (subarray l b e) i = arr_get l (b + i).
Proof.
  intros Hb He Hi. rewrite subarray_in by lia. unfold arr_get. repeat ztest.
  rewrite lookup_take_lt by lia. rewrite lookup_drop. f_equal. lia.
Qed.

Section Block.
Context (bytes : list Z) (b e : Z).
Hypothesis (Hb : 0 <= b <= e) (He : e <= len bytes).
Abbreviation block := (subarray bytes b e).

Lemma match_length_block part at_ :
  0 <= at_ -> at_ + len part <= e - b -> match_length block at_ part = match_length bytes (b + at_) part.
Proof.
  revert at_. induction part as [|x part IH]; intros at_ H0 Hl; [done|]. rewrite len_cons in Hl.
  pose proof (len_nonneg part). cbn [match_length].
  rewrite arr_get_subarray by lia. rewrite IH by lia. by rewrite Z.add_assoc.
Qed.

Lemma match_length_bounds l at_ part : 0 <= match_length l at_ part <= len part.
Proof.
  revert at_. induction part as [|x part IH]; intros at_; [done|]. cbn [match_length].
  rewrite len_cons. specialize (IH (at_ + 1)). pose proof (len_nonneg part). case_match; lia.
Qed.

Lemma partial_match_block parts at_ :
  Forall (fun part => len part <= 6) parts -> 0 <= at_ -> at_ + 6 < e - b ->
  partial_match block at_ parts = partial_match bytes (b + at_) parts.
Proof.
  intros Hp H0 Hl. induction Hp as [|part parts Hpart _ IH]; [done|]. cbn [partial_match].
  rewrite match_length_block by lia. pose proof (match_length_bounds bytes (b + at_) part).
  rewrite arr_get_subarray by lia. by rewrite IH, Z.add_assoc.
Qed.

Lemma signature_block p : 0 <= p -> p + 9 < e - b -> signature block p = signature bytes (b + p).
Proof.
  intros H0 Hl. unfold signature. rewrite match_length_block by (try change (len END_SIGNATURE) with 3; lia).
  pose proof (match_length_bounds bytes (b + p) END_SIGNATURE) as Hm. change (len END_SIGNATURE) with 3 in Hm.
  rewrite partial_match_block; [by rewrite Z.add_assoc| |lia|lia].
  repeat constructor; vm_compute; discriminate.
Qed.

(** The scan of a block finds the first signature in it. *)
Lemma scan_block_spec n pos :
  0 <= pos -> pos + Z.of_nat n + 9 <= e - b ->
  match scan_block n block pos with
  | Some p => pos <= p < pos + Z.of_nat n /\ signature bytes (b + p) = true /\
              (forall q, pos <= q < p -> signature bytes (b + q) = false)
  | None => forall q, pos <= q < pos + Z.of_nat n -> signature bytes (b + q) = false
  end.
Proof.
  revert pos. induction n as [|n IH]; intros pos H0 Hl; cbn [scan_block]; [intros q Hq; lia|].
  fold (signature block pos). rewrite signature_block by lia.
  destruct (signature bytes (b + pos)) eqn:Es.
  - split_and!; [lia|lia|done|intros q Hq; lia].
  - specialize (IH (pos + 1) ltac:(lia) ltac:(lia)).
    assert (Hstep : forall q, pos <= q -> q < pos + 1 \/ pos + 1 <= q) by lia.
    destruct (scan_block n block (pos + 1)) as [p|].
    + destruct IH as (Hp & Hsig & Hbefore). split_and!; [lia|lia|done|]. intros q Hq.
      destruct (Hstep q ltac:(lia)); [by replace q with pos by lia|apply Hbefore; lia].
    + intros q Hq. destruct (Hstep q ltac:(lia)); [by replace q with pos by lia|apply IH; lia].
Qed.
End Block.

Lemma peek_block n s :
  stream_ok s -> 0 < n ->
  peekBytes n s = (Ok (subarray (s_bytes s) (s_pos s) (Z.min (s_pos s + n) (s_end s))), s).
Proof.
  intros [Hst Hp He Hb] Hn. unfold peekBytes. m_red. simpl. unfold stream_getBytes.
  rewrite (proj2 (Z.eqb_neq n 0)) by lia. rewrite len_subarray by lia. cbn [s_pos set_pos].
  rewrite set_pos_set_pos. do 2 f_equal. replace (_ + - _) with (s_pos s) by lia. by destruct s.
Qed.

(** What the search answers from a position on. *)
Definition first_signature (s : Stream) (from startPos : Z) (r : res Z * Stream) : Prop :=
  (exists p, from <= p < s_end s - 9 /\ signature (s_bytes s) p = true /\
     (forall q, from <= q < p -> signature (s_bytes s) q = false) /\
     r = (Ok (p - startPos), set_pos p s)) \/
  (exists s', r = (Ok (-1), s') /\
     forall q, from <= q < s_end s - 9 -> signature (s_bytes s) q = false).

Lemma scan_stream_spec fuel startPos s :
  stream_ok s -> s_end s - s_pos s < Z.of_nat fuel ->
  first_signature s (s_pos s) startPos (scan_stream fuel startPos s).
Proof.
  revert s. induction fuel as [|fuel IH]; intros s Hs Hf; [destruct Hs; lia|].
  pose proof Hs as [Hst Hp He Hb]. cbn [scan_stream]. rewrite (mbind_ok _ _ _ s s) by done.
  destruct (Z.ltb_spec (s_pos s) (s_end s)) as [Hlt|Hge].
  - rewrite (mbind_ok _ _ _ _ _ (peek_block SCAN_BLOCK_LENGTH s Hs eq_refl)).
    set (e := Z.min (s_pos s + SCAN_BLOCK_LENGTH) (s_end s)).
    assert (Hend : e = s_end s \/ e = s_pos s + 2048) by (unfold e, SCAN_BLOCK_LENGTH; lia).
    assert (Hle : s_pos s <= e <= s_end s) by (unfold e, SCAN_BLOCK_LENGTH; lia). clearbody e.
    rewrite len_subarray by lia. unfold signatureLength. case_bool.
    + right. exists s. split; [done|]. intros q Hq. lia.
    + pose proof (scan_block_spec (s_bytes s) (s_pos s) e ltac:(lia) ltac:(lia)
        (Z.to_nat (e - s_pos s - 9)) 0 ltac:(lia) ltac:(lia)) as Hscan.
      destruct (scan_block _ _ _) as [p|].
      * destruct Hscan as (Hpr & Hsig & Hbefore). left. exists (s_pos s + p). split_and!; [lia|lia|done| |].
        -- intros q Hq. replace q with (s_pos s + (q - s_pos s)) by lia. apply Hbefore. lia.
        -- done.
      * unfold mbind at 1, modify.
        set (s2 := set_pos (s_pos s + (e - s_pos s - 9)) s).
        assert (Hs2 : stream_ok s2) by (split; cbn; auto; lia).
        assert (Hskip : forall q, s_pos s <= q < s_pos s2 -> signature (s_bytes s) q = false).
        { intros q Hq. cbn in Hq. replace q with (s_pos s + (q - s_pos s)) by lia. apply Hscan. lia. }
        destruct (IH s2 Hs2) as [(p & Hpr & Hsig & Hbefore & ->)|(s' & -> & Hnone)].
        -- cbn. lia.
        -- left. exists p. cbn in Hpr, Hsig, Hbefore. split_and!; [lia|lia|done| |done].
           intros q Hq. destruct (Z.lt_ge_cases q (s_pos s2)); [apply Hskip; lia|apply Hbefore; cbn in *; lia].
        -- right. exists s'. split; [done|]. intros q Hq. cbn in Hnone.
           destruct (Z.lt_ge_cases q (s_pos s2)); [apply Hskip; lia|apply Hnone; cbn in *; lia].
  - right. exists s. split; [done|]. intros q Hq. lia.
Qed.

(** C14. The search for the end of a stream whose [/Length] is wrong ends, and
    its answer is the first place, from the start of the data on and ten bytes
    at least before the end of the file, where [endstream] stands, or a
    misspelling of it that is tolerated; the block size of 2048 does not show.
    Without such a place the answer is -1. *)
Theorem findStreamLength_first fuel startPos s
  (Hok : stream_ok (set_pos startPos s)) (Hfuel : s_end s - startPos < Z.of_nat fuel) :
  first_signature s startPos startPos (findStreamLength fuel startPos s).
Proof.
  unfold findStreamLength, mbind, modify.
  exact (scan_stream_spec fuel startPos (set_pos startPos s) Hok Hfuel).
Qed.

Lemma findStreamLength_first_witness :
  let s := new_Stream (js "0123endstreXX endstream endobj") None None in
  first_signature s 2 2 (findStreamLength 40 2 s).
Proof.
  intros s. apply findStreamLength_first.
  - split; [vm_compute; intuition discriminate|vm_compute; discriminate|vm_compute; discriminate|].
    repeat constructor; unfold is_byte; lia.
  - reflexivity.
Defined.
