(* ===== verification/ParserTotal.v ===== *)
(** * The searches for the end of an inline image end

    With as much fuel as there are bytes, each search of [Parser] for the end
    of an inline image answers, except on data that stops right after a JPEG
    marker: there the search for the end-of-image marker goes on for ever. *)
From stdpp Require Import gmap.
From S2P Require Import Prelude JsBits ByteStream DecodeStream Ascii85 Primitives Crypto.
From S2P Require Import Lexer LexerSpec LexerTotal Parser ParserSpec Writer.
Local Open Scope js_scope.

(** A stream within its data, at any position that is not negative. *)
Record within_data (s : Stream) : Prop := {
  wd_pos : 0 <= s_pos s;
  wd_end : s_end s <= len (s_bytes s);
  wd_bytes : Forall is_byte (s_bytes s)
}.

(** The stream [s] at another position. *)
Definition moved (s s' : Stream) : Prop := exists p, 0 <= p /\ s' = set_pos p s.

Lemma moved_refl s : within_data s -> moved s s.
Proof. intros []. exists (s_pos s). split; [done|]. by destruct s. Qed.

Lemma moved_trans s s' s'' : moved s s' -> moved s' s'' -> moved s s''.
Proof. intros (p & _ & ->) (q & Hq & ->). by exists q. Qed.

Lemma moved_within s s' : within_data s -> moved s s' -> within_data s'.
Proof. intros [] (p & Hp & ->). by split. Qed.

(** How many bytes are left. *)
Definition left_ (s : Stream) : Z := Z.max 0 (s_end s - s_pos s).

(** [m] answers on [s], and moves the stream only. *)
Definition ends {A} (m : M Stream A) (s : Stream) (Q : res A -> Stream -> Prop) : Prop :=
  exists r s', m s = (r, s') /\ moved s s' /\ r <> OutOfFuel /\ Q r s'.
Definition ok_and {A} (Q : A -> Stream -> Prop) : res A -> Stream -> Prop :=
  fun r s => forall a, r = Ok a -> Q a s.

Lemma ends_ret {A} (a : A) s (Q : A -> Stream -> Prop) :
  within_data s -> Q a s -> ends (mret a) s (ok_and Q).
Proof.
  intros Hs Ha. exists (Ok a), s. split_and!; [done|by apply moved_refl|done|]. by intros ? [= <-].
Qed.

Lemma ends_bind {A B} (m : M Stream A) (k : A -> M Stream B) s P (Q : B -> Stream -> Prop) :
  ends m s (ok_and P) -> (forall a s', moved s s' -> P a s' -> ends (k a) s' (ok_and Q)) ->
  ends (mbind m k) s (ok_and Q).
Proof.
  intros (r & s1 & E & Hm & Hr & HP) Hk. unfold ends, mbind. rewrite E.
  destruct r as [a|e|]; [|exists (Throw e), s1; done|done].
  destruct (Hk a s1 Hm (HP a eq_refl)) as (r & s2 & E2 & Hm2 & Hr2 & HQ). exists r, s2.
  split_and!; [done|by eapply moved_trans|done|done].
Qed.

Definition anywhere {A} : A -> Stream -> Prop := fun _ _ => True.

(** A byte read: the end, or a byte and one byte less. *)
Lemma ends_getByte s : within_data s ->
  ends getByte s (ok_and (fun c s' =>
    (c = Some (-1) /\ s' = s /\ left_ s = 0) \/
    (exists b, c = Some b /\ is_byte b /\ s_pos s < s_end s /\ s' = set_pos (s_pos s + 1) s /\
               arr_get (s_bytes s) (s_pos s) = Some b))).
Proof.
  intros Hs. pose proof Hs as [Hp He Hb]. unfold ends. simpl. unfold stream_getByte.
  destruct (Z.leb_spec (s_end s) (s_pos s)) as [Hle|Hlt].
  - exists (Ok (Some (-1))), s. split_and!; [done|by apply moved_refl|done|].
    intros ? [= <-]. left. unfold left_. split_and!; [done|done|lia].
  - destruct (lookup_lt_is_Some_2 (s_bytes s) (Z.to_nat (s_pos s))) as [b Eb];
      [unfold len in He; lia|].
    assert (Eg : arr_get (s_bytes s) (s_pos s) = Some b) by (unfold arr_get; by ztest).
    rewrite Eg. eexists _, _. split_and!; [reflexivity|by exists (s_pos s + 1); split; [lia|]|done|].
    intros ? [= <-]. right. exists b. rewrite Forall_lookup in Hb. split_and!; eauto.
Qed.

Lemma ends_modify f s : 0 <= f s -> within_data s ->
  ends (modify (fun s => set_pos (f s) s)) s (ok_and (fun _ s' => s' = set_pos (f s) s)).
Proof.
  intros Hf Hs. exists (Ok tt), (set_pos (f s) s). split_and!; [done|by exists (f s)|done|].
  by intros ? [= <-].
Qed.

Lemma ends_gets {A} (f : Stream -> A) s : within_data s ->
  ends (gets f) s (ok_and (fun a s' => a = f s /\ s' = s)).
Proof. intros Hs. exists (Ok (f s)), s. split_and!; [done|by apply moved_refl|done|]. by intros ? [= <-]. Qed.

(** Looking at the next bytes moves nothing. *)
Lemma ends_peekBytes n s : within_data s -> s_pos s <= s_end s -> 0 < n ->
  ends (peekBytes n) s (ok_and (fun bytes s' => s' = s /\ Forall is_byte bytes)).
Proof.
  intros Hs Hle Hn. pose proof Hs as [Hp He Hb]. unfold ends, peekBytes. m_red. simpl.
  unfold stream_getBytes. rewrite (proj2 (Z.eqb_neq n 0)) by lia.
  set (e := Z.min (s_pos s + n) (s_end s)). rewrite len_subarray by lia. cbn [s_pos set_pos].
  rewrite set_pos_set_pos. replace (e + - (e - s_pos s)) with (s_pos s) by lia.
  replace (set_pos (s_pos s) s) with s by (by destruct s).
  eexists _, s. split_and!; [reflexivity|by apply moved_refl|done|]. intros ? [= <-].
  split; [done|by apply Forall_subarray].
Qed.

(** ** A lexer on the bytes that follow *)

Lemma new_Lexer_answers bytes : Forall is_byte bytes ->
  exists l, new_Lexer (new_Stream bytes None None) = Ok l /\ at_text l bytes /\
    s_bytes (lx_stream l) = bytes.
Proof.
  intros Hb. destruct (reads_next (S := Stream) 0 bytes (mkLex (new_Stream bytes None None) 0 (-1)))
    as (l & E & Hl); [split; [done|by apply new_Stream_rest]|].
  unfold new_Lexer. rewrite E. exists l. split_and!; [done|done|].
  revert E. unfold nextChar, on_lx, zoom. m_red. simpl. unfold stream_getByte.
  destruct (_ <=? _); [intros [= _ <-]; done|].
  destruct (arr_get _ _); intros [= _ <-]; done.
Qed.

(** The data of a lexer stays the same. *)
Lemma lex_fuel_text (l : Lex Stream) t : at_text l t -> (length t < lex_fuel l)%nat.
Proof. apply at_text_length. Qed.

Lemma commands_follow_answers commands fuel n l t :
  at_text l t -> (length t < fuel)%nat -> commands_follow fuel commands n l <> OutOfFuel.
Proof.
  revert n l t. induction fuel as [|fuel IH]; intros n l t Hl Hf; [lia|]. cbn [commands_follow].
  destruct (answers_lex_getObj (Some commands) (lex_fuel l) t (lex_fuel_text l t Hl) l Hl)
    as (r & l' & t' & -> & Hl' & _ & Hr & Hshort).
  destruct r as [o|e|]; [|done|done].
  destruct (Hshort o eq_refl) as [-> | Hlt]; [done|].
  assert (forall m, commands_follow fuel commands m l' <> OutOfFuel) as Hrec
    by (intros m; apply (IH m l' t'); [done|lia]).
  destruct o; try apply Hrec; [|done]. repeat case_match; try done; apply Hrec.
Qed.

(** ** The searches *)

Section Searches.
Context (kc : option (jstr -> option Command)).

Ltac read :=
  eapply ends_bind; [by apply ends_getByte|];
  intros ? ? ? [(-> & -> & ?)|(? & -> & ? & ? & -> & ?)]; cbn [jn_is].
Ltac posn := unfold left_ in *; cbn [s_pos s_end set_pos] in *; lia.

Lemma ends_find_EI fuel state pos s :
  within_data s -> 0 <= pos -> left_ s < Z.of_nat fuel ->
  ends (find_EI kc fuel state pos) s (ok_and (fun a s' => 0 <= a.2 /\ s_pos s <= s_pos s')).
Proof.
  revert state pos s. induction fuel as [|fuel IH]; intros state pos s Hs Hp Hf; [posn|].
  cbn [find_EI]. read; [apply ends_ret; [done|cbn; lia]|].
  match goal with H : is_byte ?b |- _ => rename b into c; unfold is_byte in H end.
  rewrite (proj2 (Z.eqb_neq c (-1))) by lia.
  set (s1 := set_pos (s_pos s + 1) s) in *.
  assert (Hs1 : within_data s1) by (by eapply moved_within).
  assert (Hrec : forall state pos, 0 <= pos ->
    ends (find_EI kc fuel state pos) s1 (ok_and (fun a s' => 0 <= a.2 /\ s_pos s <= s_pos s'))).
  { intros st p Hp'. destruct (IH st p s1 Hs1 Hp' ltac:(subst s1; posn)) as (r & s' & E & Hm & Hr & HP).
    exists r, s'. split_and!; [done|done|done|]. intros a ->. destruct (HP a eq_refl) as [Ha Hle].
    split; [done|]. subst s1. cbn in Hle. lia. }
  case_bool; [by apply Hrec|]. case_bool; [by apply Hrec|]. case_bool; [|by apply Hrec].
  eapply ends_bind; [by apply ends_gets|]. intros p s2 _ [-> ->].
  assert (0 <= s_pos s1) by apply Hs1.
  eapply ends_bind; [apply ends_peekBytes; [done|subst s1; posn|lia]|]. intros bytes s2 _ [-> Hb].
  case_bool; [apply ends_ret; [done|cbn; subst s1; split; [posn|posn]]|].
  case_bool; [by apply Hrec|]. destruct kc as [commands|]; [|by apply Hrec].
  eapply ends_bind; [apply ends_peekBytes; [done|subst s1; posn|lia]|]. intros bytes' s2 _ [-> Hb'].
  destruct (new_Lexer_answers bytes' Hb') as (l & -> & Hl & _).
  eapply (ends_bind _ _ _ (fun a s' => a = l /\ s' = s1)).
  { exists (Ok l), s1. split_and!; [done|by apply moved_refl|done|]. by intros ? [= <-]. }
  intros ? ? _ [-> ->].
  pose proof (commands_follow_answers commands (length bytes' + 2) 0 l bytes' Hl ltac:(lia)) as Hc.
  eapply (ends_bind _ _ _ (fun a s' => s' = s1)).
  { exists (commands_follow (length bytes' + 2) commands 0 l), s1.
    split_and!; [done|by apply moved_refl|done|done]. }
  intros found s2 _ ->. destruct found; [apply ends_ret; [done|cbn; subst s1; split; [posn|posn]]|].
  by apply Hrec.
Qed.

(** Operations without a loop answer everywhere. *)
Definition total {A} (m : M Stream A) : Prop := forall s, fst (m s) <> OutOfFuel.

Lemma total_bind {A B} (m : M Stream A) (k : A -> M Stream B) :
  total m -> (forall a, total (k a)) -> total (mbind m k).
Proof.
  intros Hm Hk s. specialize (Hm s). unfold mbind. destruct (m s) as [[a|e|] s']; [apply Hk|done|done].
Qed.
Lemma total_ret {A} (a : A) : total (mret a).
Proof. done. Qed.
Lemma total_skip d : total (skip_by d).
Proof. done. Qed.
Lemma total_gets {A} (f : Stream -> A) : total (gets f).
Proof. done. Qed.
Lemma total_getByte : total (getByte (S := Stream)).
Proof. intros s. simpl. unfold stream_getByte. by destruct (_ <=? _). Qed.
Lemma total_peekByte : total (peekByte (S := Stream)).
Proof.
  apply total_bind; [apply total_getByte|]. intros a. case_match; [done|]. by apply total_bind.
Qed.

Lemma ends_then {A B} (m : M Stream A) (k : A -> M Stream B) s P :
  ends m s (ok_and P) -> (forall a s', moved s s' -> P a s' -> fst (k a s') <> OutOfFuel) ->
  fst (mbind m k s) <> OutOfFuel.
Proof.
  intros (r & s1 & E & Hm & Hr & HP) Hk. unfold mbind. rewrite E.
  destruct r as [a|e|]; [by apply Hk; [|apply HP]|done|done].
Qed.

Lemma default_end_answers fuel s :
  within_data s -> left_ s < Z.of_nat fuel ->
  fst (findDefaultInlineStreamEnd kc fuel s) <> OutOfFuel.
Proof.
  intros Hs Hf. unfold findDefaultInlineStreamEnd.
  eapply ends_then; [by apply ends_gets|]. intros ? ? _ [-> ->].
  eapply ends_then; [by apply ends_find_EI|]. intros [at_end pos] s1 _ _.
  apply total_bind; [|intros _; apply total_bind; [apply total_skip|intros _;
    apply total_bind; [apply total_peekByte|intros ch; apply total_bind; [apply total_skip|]]]].
  - case_match; [|apply total_ret]. apply total_bind; [apply total_gets|]. intros ?. apply total_skip.
  - intros _. apply total_bind; [apply total_gets|]. intros ?. apply total_ret.
Qed.

Lemma ends_skip_EI fuel state s :
  within_data s -> left_ s < Z.of_nat fuel -> fst (skip_EI fuel state s) <> OutOfFuel.
Proof.
  revert state s. induction fuel as [|fuel IH]; intros state s Hs Hf; [posn|]. cbn [skip_EI].
  eapply ends_then; [by apply ends_getByte|].
  intros ? ? Hm [(-> & -> & ?)|(c & -> & Hc & ? & -> & ?)]; cbn [jn_is]; [done|].
  unfold is_byte in Hc. rewrite (proj2 (Z.eqb_neq c (-1))) by lia.
  pose proof (moved_within _ _ Hs Hm).
  repeat (case_bool; [apply IH; [done|posn]|]). done.
Qed.

Lemma ends_or_default_answers fuel startPos found s :
  within_data s -> 0 <= startPos -> s_end s < Z.of_nat fuel -> (0 < fuel)%nat ->
  fst (ends_or_default kc fuel startPos found s) <> OutOfFuel.
Proof.
  intros Hs Hst Hf Hpos. pose proof Hs as []. unfold ends_or_default.
  eapply ends_then; [by apply ends_gets|]. intros ? ? _ [-> ->]. destruct found.
  - unfold mbind, inlineStreamSkipEI.
    pose proof (ends_skip_EI fuel 0 s Hs ltac:(unfold left_; lia)) as Hk.
    destruct (skip_EI fuel 0 s) as [[a|e|] s']; done.
  - unfold mbind, skip_by, skip, modify. apply default_end_answers.
    + split; [|done|done]. cbn. unfold jn_or. case_bool; lia.
    + cbn. unfold left_, jn_or. cbn. case_bool; lia.
Qed.

Lemma ends_find_gt fuel s :
  within_data s -> left_ s < Z.of_nat fuel -> ends (find_gt fuel) s (ok_and anywhere).
Proof.
  revert s. induction fuel as [|fuel IH]; intros s Hs Hf; [posn|]. cbn [find_gt].
  read; [by apply ends_ret|].
  match goal with H : is_byte ?b |- _ => rename b into c; unfold is_byte in H end.
  rewrite (proj2 (Z.eqb_neq c (-1))) by lia.
  assert (Hs1 : within_data (set_pos (s_pos s + 1) s)) by (by eapply moved_within).
  case_bool; [by apply ends_ret|]. apply IH; [done|posn].
Qed.

Lemma ends_peekByte s : within_data s ->
  ends peekByte s (ok_and (fun c s' => s' = s /\
    (c = Some (-1) \/ exists b, c = Some b /\ is_byte b /\ s_pos s < s_end s))).
Proof.
  intros Hs. unfold peekByte. read.
  - cbn [Z.eqb Pos.eqb]. apply ends_ret; [done|]. split; [done|by left].
  - match goal with H : is_byte ?b |- _ => rename b into c end. pose proof Hs as [Hp _ _].
    match goal with H : is_byte c |- _ => rename H into Hc end. pose proof Hc as Hc'. unfold is_byte in Hc'.
    rewrite (proj2 (Z.eqb_neq c (-1))) by lia.
    eapply (ends_bind _ _ _ (fun _ s' => s' = s)).
    + exists (Ok tt), s. split_and!; [|by exists (s_pos s); split; [lia|destruct s]|done|by intros ? _].
      unfold modify. do 2 f_equal. cbn. rewrite set_pos_set_pos.
      replace (s_pos s + 1 + -1) with (s_pos s) by lia. by destruct s.
    + intros _ ? _ ->. apply ends_ret; [done|]. split; [done|]. right. eauto.
Qed.

Lemma ends_skip_one s : within_data s ->
  ends (skip None) s (ok_and (fun _ s' => s' = set_pos (s_pos s + 1) s)).
Proof.
  intros []. exists (Ok tt), (set_pos (s_pos s + 1) s).
  split_and!; [done|by exists (s_pos s + 1); split; [lia|]|done|by intros ? _].
Qed.

Lemma ends_skip_white fuel s :
  within_data s -> left_ s < Z.of_nat fuel -> s_pos s <= s_end s ->
  ends (skip_white fuel) s (ok_and (fun _ s' => s_pos s <= s_pos s' <= s_end s')).
Proof.
  revert s. induction fuel as [|fuel IH]; intros s Hs Hf Hle; [posn|]. cbn [skip_white].
  eapply ends_bind; [by apply ends_peekByte|]. intros ch ? _ [-> Hch].
  destruct (isWhiteSpace ch) eqn:Ew; [|apply ends_ret; [done|lia]].
  destruct Hch as [-> | (b & -> & Hb & Hlt)]; [discriminate|].
  eapply ends_bind; [by apply ends_skip_one|]. intros ? ? Hm ->.
  destruct (IH (set_pos (s_pos s + 1) s)) as (r & s' & E & Hm' & Hr & HP);
    [by eapply moved_within|posn|posn|].
  exists r, s'. split_and!; [done|done|done|]. intros x ->. pose proof (HP x eq_refl) as Hp.
  cbn in Hp. lia.
Qed.

Lemma ends_find_tilde fuel s :
  within_data s -> left_ s < Z.of_nat fuel -> ends (find_tilde fuel) s (ok_and anywhere).
Proof.
  revert s. induction fuel as [|fuel IH]; intros s Hs Hf; [posn|]. cbn [find_tilde].
  read; [by apply ends_ret|].
  match goal with H : is_byte ?b |- _ => rename b into c; unfold is_byte in H end.
  rewrite (proj2 (Z.eqb_neq c (-1))) by lia.
  assert (Hs1 : within_data (set_pos (s_pos s + 1) s)) by (by eapply moved_within).
  case_bool; [|apply IH; [done|posn]].
  eapply ends_bind; [by apply ends_gets|]. intros ? ? _ [-> ->].
  eapply ends_bind; [apply ends_skip_white; [done|posn|posn]|]. intros ch s2 Hm Hle.
  assert (Hs2 : within_data s2) by (by eapply moved_within).
  assert (Hend : s_end s2 = s_end s) by (destruct Hm as (? & _ & ->); done).
  cbn [s_pos set_pos] in Hle. assert (Hrec : left_ s2 < Z.of_nat fuel) by (unfold left_ in *; lia).
  case_bool.
  { eapply ends_bind; [by apply ends_skip_one|]. intros ? ? ? ->. apply ends_ret; [|done].
    by eapply moved_within. }
  eapply ends_bind; [by apply ends_gets|]. intros ? ? _ [-> ->].
  case_bool; [|by apply IH].
  eapply ends_bind; [by apply ends_peekBytes; [|lia|lia]|]. intros bytes ? _ [-> _].
  case_bool; [by apply ends_ret|by apply IH].
Qed.

(** A JPEG marker that a length follows, at the very end of the data. *)
Definition truncated (s : Stream) : Prop :=
  exists b, marker_with_length (Some b) = true /\
    arr_get (s_bytes s) (s_end s - 2) = Some 0xff /\ arr_get (s_bytes s) (s_end s - 1) = Some b.

(** The two bytes of a length, when they are there. *)
Lemma ends_getUint16 s : within_data s -> s_pos s <= s_end s ->
  ends getUint16 s (ok_and (fun n s' =>
    (n = Some (-1) /\ s_end s <= s_pos s + 1 /\ s_pos s' = s_end s) \/
    (exists v, n = Some v /\ 0 <= v /\ s_pos s' = s_pos s + 2))).
Proof.
  intros Hs Hle. pose proof Hs as [Hp He _]. unfold getUint16.
  eapply ends_bind; [by apply ends_getByte|]. intros b0 s1 Hm H0.
  assert (Hs1 : within_data s1) by (by eapply moved_within).
  eapply ends_bind; [by apply ends_getByte|]. intros b1 s2 Hm2 H1.
  assert (Hs2 : within_data s2) by (by eapply moved_within).
  destruct H0 as [(-> & -> & Hz)|(x & -> & Hx & Hlt & -> & _)].
  - destruct H1 as [(-> & -> & _)|(y & _ & _ & Hlt & _)]; [|posn].
    apply ends_ret; [done|]. left. split_and!; [done|posn|posn].
  - unfold is_byte in Hx. cbn [jn_is]. rewrite (proj2 (Z.eqb_neq x (-1))) by lia.
    destruct H1 as [(-> & -> & Hz)|(y & -> & Hy & _ & -> & _)].
    + apply ends_ret; [done|]. left. split_and!; [done|posn|posn].
    + unfold is_byte in Hy. cbn [jn_is]. rewrite (proj2 (Z.eqb_neq y (-1))) by lia. cbn [orb].
      apply ends_ret; [done|]. right. eexists. split_and!; [reflexivity| |cbn; lia].
      cbn [jn_int default from_option id]. unfold js_shl. change (8 mod 32) with 8.
      rewrite Z.shiftl_mul_pow2, !to_int32_small; rewrite ?to_int32_small; lia.
Qed.

Lemma ends_find_EOI fuel s :
  within_data s -> left_ s < Z.of_nat fuel -> ~ truncated s ->
  ends (find_EOI fuel) s (ok_and anywhere).
Proof.
  revert s. induction fuel as [|fuel IH]; intros s Hs Hf Ht; [posn|]. cbn [find_EOI].
  read; [by apply ends_ret|].
  match goal with H : is_byte ?b |- _ => rename b into c; unfold is_byte in H end.
  rewrite (proj2 (Z.eqb_neq c (-1))) by lia. pose proof Hs as [Hp _ _].
  assert (Hmove : forall s' q, moved s s' -> s_pos s < s_pos s' -> q = s' ->
    ends (find_EOI fuel) q (ok_and anywhere)).
  { intros s' q Hm Hlt ->. assert (within_data s') by (by eapply moved_within).
    destruct Hm as (p & Hp' & ->). apply IH; [done|posn|done]. }
  set (s1 := set_pos (s_pos s + 1) s) in *. assert (Hm1 : moved s s1) by done.
  assert (Hs1 : within_data s1) by (by eapply moved_within).
  case_bool; [by apply (Hmove s1); [|subst s1; cbn; lia|]|].
  match goal with H : negb _ = false |- _ => clear H | _ => idtac end.
  eapply ends_bind; [by apply ends_getByte|]. intros marker s2 Hm2 Hmk.
  pose proof (moved_trans _ _ _ Hm1 Hm2) as Hm02.
  assert (Hs2 : within_data s2) by (by eapply moved_within).
  assert (Hend2 : s_end s2 = s_end s) by (by destruct Hm02 as (? & _ & ->)).
  assert (Hlt2 : s_pos s < s_pos s2).
  { destruct Hmk as [(_ & -> & _)|(? & _ & _ & _ & -> & _)]; subst s1; cbn; lia. }
  case_bool; [by apply ends_ret|].
  case_bool.
  { (* a padding byte: one byte back *)
    destruct Hmk as [(-> & _)|(m & -> & _ & _ & -> & _)]; [discriminate|].
    eapply ends_bind; [apply (ends_modify (fun s => s_pos s + -1)); [subst s1; cbn; lia|done]|].
    intros ? ? Hm ->. refine (Hmove _ _ (moved_trans _ _ _ Hm02 Hm) _ eq_refl). subst s1. cbn. lia. }
  case_bool; [|by apply (Hmove s2)].
  destruct Hmk as [(-> & _)|(m & -> & Hm & Hlt & -> & Hget)]; [discriminate|].
  eapply ends_bind; [apply ends_getUint16; [done|subst s1; cbn in *; lia]|].
  intros n s3 Hm3 Hn. assert (Hs3 : within_data s3) by (by eapply moved_within).
  pose proof (moved_trans _ _ _ Hm02 Hm3) as Hm03.
  assert (Hdone : forall d, s_pos s < s_pos s3 + d ->
    ends (modify (shift_pos d) ;;; find_EOI fuel) s3 (ok_and anywhere)).
  { intros d Hd. eapply ends_bind; [apply (ends_modify (fun s => s_pos s + d)); [lia|done]|].
    intros ? ? Hm4 ->. refine (Hmove _ _ (moved_trans _ _ _ Hm03 Hm4) _ eq_refl). cbn. lia. }
  destruct Hn as [(-> & Hle & Hp3)|(v & -> & Hv & Hp3)].
  - cbn [jn_lt]. ztest. apply (Hdone (-2)). cbn in Hle. subst s1. cbn in *.
    destruct (Z.eq_dec (s_end s) (s_pos s + 2)) as [E|E]; [|lia]. exfalso. apply Ht. exists m.
    split_and!; [done| |].
    + replace (s_end s - 2) with (s_pos s) by lia.
      match goal with H : arr_get _ (s_pos s) = Some c |- _ => rewrite H end. f_equal.
      match goal with H : c = 255 |- _ => exact H | _ => lia end.
    + replace (s_end s - 1) with (s_pos s + 1) by lia. done.
  - cbn [jn_lt]. subst s1. cbn in Hp3. case_bool.
    + assert (Hskip : jn_or (jn_sub (Some v) (Some 2)) 1 = v - 2).
      { unfold jn_or. simpl. by rewrite (proj2 (Z.eqb_neq (v - 2) 0)) by lia. }
      unfold skip. rewrite Hskip. apply Hdone. lia.
    + apply (Hdone (-2)). lia.
Qed.

Lemma search_answers {A} (m : M Stream A) (k : Z -> A -> M Stream Z) s :
  within_data s -> ends m s (ok_and anywhere) ->
  (forall a s', moved s s' -> fst (k (s_pos s) a s') <> OutOfFuel) ->
  fst ((startPos <- gets s_pos ;; found <- m ;; k startPos found) s) <> OutOfFuel.
Proof.
  intros Hs Hm Hk. eapply ends_then; [by apply ends_gets|]. intros ? ? _ [-> ->].
  eapply ends_then; [exact Hm|]. intros a s' Hm' _. by apply Hk.
Qed.

Lemma fallback_answers fuel s found s' :
  within_data s -> s_end s < Z.of_nat fuel -> (0 < fuel)%nat -> moved s s' ->
  fst (ends_or_default kc fuel (s_pos s) found s') <> OutOfFuel.
Proof.
  intros Hs Hf H0 Hm. apply ends_or_default_answers; [by eapply moved_within|apply Hs| |done].
  destruct Hm as (p & _ & ->). exact Hf.
Qed.
End Searches.

(** C32. The searches for the end of an inline image end: with fuel for the
    bytes of the stream they answer, from every position, whatever the data;
    the one for a JPEG image does so unless the data ends with a marker whose
    length is missing. *)
Theorem inline_searches_answer kc s (fuel := (length (s_bytes s) + 2)%nat)
  (Hs : within_data s) :
  fst (findDefaultInlineStreamEnd kc fuel s) <> OutOfFuel /\
  fst (findASCII85DecodeInlineStreamEnd kc fuel s) <> OutOfFuel /\
  fst (findASCIIHexDecodeInlineStreamEnd kc fuel s) <> OutOfFuel /\
  (~ truncated s -> fst (findDCTDecodeInlineStreamEnd kc fuel s) <> OutOfFuel).
Proof.
  assert (Hend : s_end s < Z.of_nat fuel).
  { destruct Hs as [_ He _]. unfold len in He. subst fuel. lia. }
  assert (Hl : left_ s < Z.of_nat fuel).
  { pose proof (wd_pos s Hs). unfold left_. lia. }
  assert (H0 : (0 < fuel)%nat) by lia. clearbody fuel. split_and!.
  - by apply default_end_answers.
  - apply search_answers; [done|by apply ends_find_tilde|]. intros. by apply fallback_answers.
  - apply search_answers; [done|by apply ends_find_gt|]. intros. by apply fallback_answers.
  - intros Ht. apply search_answers; [done|by apply ends_find_EOI|]. intros. by apply fallback_answers.
Qed.

Lemma inline_searches_answer_witness :
  let s := new_Stream [0xff; 0xd8; 0xff; 0xe0; 0; 4; 1; 2; 0xff; 0xd9; 0x45; 0x49; 0x20] None None in
  fst (findDCTDecodeInlineStreamEnd None 15 s) <> OutOfFuel.
Proof.
  intros s. destruct (inline_searches_answer None s) as (_ & _ & _ & Hd).
  - split; [vm_compute; discriminate|vm_compute; discriminate|].
    repeat constructor; unfold is_byte; lia.
  - apply Hd. intros (b & _ & Hb & _). vm_compute in Hb. discriminate.
Defined.

(** The search in a JPEG image whose data stops right after a marker with
    a length, at that marker, never ends: [getUint16] gives -1, the two bytes
    skipped back are the marker, and no fuel is enough. *)
Theorem truncated_marker_loops kc s fuel
  (Hs : within_data s) (Hpos : s_pos s = s_end s - 2) (Ht : truncated s) :
  fst (findDCTDecodeInlineStreamEnd kc fuel s) = OutOfFuel.
Proof.
  enough (Hloop : fst (find_EOI fuel s) = OutOfFuel).
  { unfold findDCTDecodeInlineStreamEnd. m_red. destruct (find_EOI fuel s) as [[a|e|] s']; done. }
  destruct Ht as (b & Hb & H0 & H1). pose proof Hs as [Hp _ Hbytes].
  assert (Hbb : is_byte b).
  { unfold arr_get in H1. rewrite (proj2 (Z.ltb_ge _ _)) in H1 by lia.
    rewrite Forall_lookup in Hbytes. by eapply Hbytes. }
  unfold is_byte in Hbb.
  induction fuel as [|fuel IH]; [done|]. rewrite <- IH. cbn [find_EOI]. m_red. simpl.
  unfold stream_getByte at 1. rewrite (proj2 (Z.leb_gt (s_end s) (s_pos s))) by lia.
  rewrite Hpos, H0. cbn [jn_is]. cbn [Z.eqb Pos.eqb negb s_pos set_pos].
  unfold stream_getByte at 1. cbn [s_end s_pos s_bytes set_pos].
  rewrite (proj2 (Z.leb_gt (s_end s) (s_end s - 2 + 1))) by lia.
  replace (s_end s - 2 + 1) with (s_end s - 1) by lia. rewrite H1. cbn [jn_is].
  assert (Hmark : b <> 0xd9 /\ b <> 0xff).
  { split; intros ->; discriminate. }
  destruct Hmark as [Hd9 Hff]. apply Z.eqb_neq in Hd9, Hff. rewrite Hd9, Hff, Hb.
  unfold getUint16. m_red. simpl. unfold stream_getByte. cbn [s_end s_pos s_bytes set_pos].
  replace (s_end s - 1 + 1) with (s_end s) by lia. rewrite !Z.leb_refl. cbn.
  unfold set_pos. cbn.
  replace (s_end s + -2) with (s_pos s) by lia. by destruct s.
Qed.

Lemma truncated_marker_loops_witness :
  fst (findDCTDecodeInlineStreamEnd None 1000 (new_Stream [0xff; 0xe0] None None)) = OutOfFuel.
Proof.
  apply truncated_marker_loops.
  - split; [vm_compute; discriminate|vm_compute; discriminate|].
    repeat constructor; unfold is_byte; lia.
  - reflexivity.
  - exists 0xe0. repeat split; reflexivity.
Defined.

(** ** A stream whose length is negative *)

(** An array with a stray [endstream] before a stream object whose [/Length]
    leads back to it. *)
Definition negative_length_data : list Z :=
  js "[ endstream <</Length -32>>stream" ++ [0x0a; 0; 0; 0].

(** The parser after the stray command, and after every stream. *)
Definition looping_parser : Parser :=
  mkParser (mkLex (set_pos 22 (new_Stream negative_length_data None None)) 0x20 (-1))
    (OCmd (js "<<")) (OName (js "Length")) None [] 0.

Section NegativeLength.
Context (fetch : Z -> Z -> bool -> res value) (header : StreamOf obj -> res (jsnum * jsnum)).
Abbreviation getObj := (getObj None true fetch header true false).

Lemma stream_again n : exists o, getObj (6 + n) looping_parser = (Ok o, looping_parser).
Proof. eexists. vm_compute. reflexivity. Qed.

Lemma array_never_ends fuel n acc :
  fst (array_loop fuel (getObj (6 + n)) acc looping_parser) = OutOfFuel.
Proof.
  revert acc. induction fuel as [|fuel IH]; intros acc; [done|]. cbn [array_loop]. unfold mbind at 1, get.
  change (is_cmd (buf1 looping_parser) "]" || is_eof (buf1 looping_parser)) with false. cbn iota.
  unfold mbind at 1. destruct (stream_again n) as [o ->]. apply IH.
Qed.
End NegativeLength.

(** A stream whose [/Length] is negative sends the parser back: on an
    array with such a stream after a stray [endstream] command, [getObj] reads
    the stream again and again and never returns, whatever the fuel. *)
Theorem negative_length_loops fetch header fuel p
  (Hp : (lexer <- lift (new_Lexer (new_Stream negative_length_data None None)) ;;
         lift (new_Parser None lexer None)) tt = (Ok p, tt)) :
  fst (getObj None true fetch header true false fuel p) = OutOfFuel.
Proof.
  vm_compute in Hp. injection Hp as <-.
  destruct (decide (fuel < 8)%nat) as [Hlt|Hge].
  - do 8 (destruct fuel as [|fuel]; [vm_compute; reflexivity|]). lia.
  - replace fuel with (S (S (6 + (fuel - 8))))%nat by lia. generalize (fuel - 8)%nat as n. intros n.
    change (S (S (6 + n))) with (S (7 + n)).
    assert (E : exists q, shift None (mkParser (mkLex (set_pos 12
        (new_Stream negative_length_data None None)) 0x20 (-1)) (OCmd (js "[")) (OCmd (js "endstream"))
        None [] 0) = (Ok tt, q) /\
      getObj None true fetch header true false (7 + n) q = (Ok (OCmd (js "endstream")), looping_parser)
      /\ is_cmd (buf1 q) "]" || is_eof (buf1 q) = false).
    { eexists. split_and!; [vm_compute; reflexivity|vm_compute; reflexivity|reflexivity]. }
    destruct E as (q & Es & Eg & Eb). cbn [getObj]. unfold mbind at 1, gets. cbn [buf1].
    unfold mbind at 1.
    replace (shift None _) with (Ok tt, q) by (symmetry; exact Es). unfold object_from.
    rewrite bool_decide_eq_false_2, bool_decide_eq_true_2 by done. unfold mbind at 1.
    pose proof (array_never_ends fetch header (6 + n) (S n) ([] ++ [OCmd (js "endstream")])) as Hloop.
    change (array_loop (7 + n)) with (array_loop (S (6 + n))). cbn [array_loop].
    unfold mbind at 1, get. rewrite Eb. unfold mbind at 1. rewrite Eg.
    replace (6 + S n)%nat with (7 + n)%nat in Hloop by lia. revert Hloop.
    match goal with |- context [array_loop ?a ?g ?l ?s] => destruct (array_loop a g l s) as [[x|e|] s'] end;
      done.
Qed.

Lemma negative_length_loops_witness : exists p,
  (lexer <- lift (new_Lexer (new_Stream negative_length_data None None)) ;;
   lift (new_Parser None lexer None)) tt = (Ok p, tt) /\
  fst (getObj None true (fun _ _ _ => Ok None) (fun _ => OutOfFuel) true false 5000 p) = OutOfFuel.
Proof.
  eexists. split; [vm_compute; reflexivity|].
  apply negative_length_loops. vm_compute. reflexivity.
Defined.
