(* ===== verification/XrefTable.v ===== *)
(** * Reading the cross-reference table

    The tables of [XRef] of pdf.worker.mjs: [readXRef] follows the sections of
    a file from the one [startxref] names, [processXRefTable] reads a section
    in text form and [processXRefStream] one in a stream.  [_tableState] and
    [streamState], where reading resumes after data was missing, are fields
    here too: they stay when a section ends in another error.  [fetch]
    resolves the references in the dictionaries. *)
From stdpp Require Import gmap.
From S2P Require Import Prelude ByteStream DecodeStream Ascii85 AsciiHex RunLength Predictor Flate Lzw Primitives Crypto Lexer Parser Xref.
Local Open Scope js_scope.

(** ** The data of a stream object

    The parser keeps the stream of a stream object as the constructors the code
    calls ([StreamOf]).  Here these constructors are run on the bytes of the
    file: a chain of decoding streams over a part of the file, each of them a
    byte source over the one below. *)

(** A stream object of some class, with the methods of its class. *)
Record Source := mkSource {
  src_type : Type;
  src_bytes : ByteSource src_type;
  src_seek : Seekable src_type;
  src : src_type
}.
#[export] Existing Instance src_bytes.
#[export] Existing Instance src_seek.
Arguments mkSource {src_type} _ _ _.

Definition of_stream (s : Stream) : Source := mkSource Stream_source Stream_seekable s.
Definition of_decoder {S X} (decoder : Decoder S X) (fuel : nat) (d : DS S X) : Source :=
  mkSource (DS_source fuel) DS_seekable d.

Section Open.
Context (fetch : Z -> Z -> bool -> res value).
(** The file, and a bound on the blocks and the codes of a decoder. *)
Context (file : list Z) (fuel : nat).

(** [new PredictorStream(stream, maybeLength, params)] on a source. *)
Definition open_predictor (stream : Source) (maybeLength : jsnum) (params : obj) : res Source :=
  match fst (predictor_params fetch params tt) with
  | Ok preds =>
      match new_PredictorStream (src stream) maybeLength preds with
      | Ok (inl _) => Ok stream
      | Ok (inr d) => Ok (of_decoder pred_decoder fuel d)
      | Throw e => Throw e
      | OutOfFuel => OutOfFuel
      end
  | Throw e => Throw e
  | OutOfFuel => OutOfFuel
  end.

(** A filter on a source.  The ciphers, whose keys a [StreamOf] does not hold,
    and the image filters are outside this model. *)
Definition open_filter (kind : FilterKind obj) (stream : Source) (maybeLength : jsnum) : res Source :=
  match kind with
  | KFlate =>
      match fst (new_FlateStream maybeLength (src stream)) with
      | Ok d => Ok (of_decoder (flate_decoder fuel) fuel d)
      | Throw e => Throw e
      | OutOfFuel => OutOfFuel
      end
  | KLZW earlyChange =>
      match fst (int_param (S := unit) earlyChange tt) with
      | Ok (Some early) => Ok (of_decoder lzw_decoder fuel (new_LZWStream (src stream) maybeLength early))
      | _ => OutOfFuel
      end
  | KPredictor params => open_predictor stream maybeLength params
  | KAscii85 => Ok (of_decoder (a85_decoder fuel) fuel (new_Ascii85Stream (src stream) maybeLength))
  | KAsciiHex => Ok (of_decoder hex_decoder fuel (new_AsciiHexStream (src stream) maybeLength))
  | KRunLength => Ok (of_decoder rl_decoder fuel (new_RunLengthStream (src stream) maybeLength))
  | _ => OutOfFuel
  end.

Fixpoint open (stream : StreamOf obj) : res Source :=
  match stream with
  | SubStream start length => Ok (of_stream (new_Stream file (Some start) (Some length)))
  | NullStream => Ok (of_stream (new_Stream [] None None))
  | FilterStream kind stream maybeLength =>
      match open stream with
      | Ok stream => open_filter kind stream maybeLength
      | r => r
      end
  end.

(** The bytes a filter reads first: what the parser asks of a filtered stream
    to check the header of the next one. *)
Definition first_bytes (stream : StreamOf obj) : res (jsnum * jsnum) :=
  match open stream with
  | Ok source => fst ((cmf <- getByte ;; flg <- getByte ;; mret (cmf, flg)) (src source))
  | Throw e => Throw e
  | OutOfFuel => OutOfFuel
  end.

(** [stream.getBytes()] *)
Definition contents (stream : StreamOf obj) : res (list Z) :=
  match open stream with
  | Ok source => fst (getBytes 0 (src source))
  | Throw e => Throw e
  | OutOfFuel => OutOfFuel
  end.
End Open.

(** [Hi] in hexadecimal digits, in run-length packets, in base 85. *)
Example open_sample :
  contents (fun _ _ _ => Ok None) (js "xx" ++ [0x22] ++ js ">i(r3Bd~>") 20
    (FilterStream KAsciiHex (FilterStream KRunLength (FilterStream KAscii85 (SubStream 2 10) None) None) None)
  = Ok (js "Hi").
Proof. vm_compute. reflexivity. Qed.

(** ** The tables *)

Record TableState := mkTable {
  t_entryNum : Z;
  t_streamPos : Z;
  t_parserBuf1 : obj;
  t_parserBuf2 : obj;
  firstEntryNum : value;
  entryCount : value
}.

Record StreamState := mkStreamState {
  entryRanges : value;
  byteWidths : value;
  s_entryNum : Z;
  s_streamPos : Z
}.

Record XRef := mkXRef {
  entries : gmap Z XRefEntry;
  tableState : option TableState;
  streamState : option StreamState;
  startXRefQueue : list Z;
  topDict : option Dict;
  xrefStms : gset Z;
  xrefSectionOffsets : gset Z;
  xrefSectionsComplete : bool;
  parsedWithRecovery : bool
}.

Definition new_XRef : XRef := mkXRef ∅ None None [] None ∅ ∅ true false.

Definition set_entries v x := mkXRef v (tableState x) (streamState x) (startXRefQueue x) (topDict x) (xrefStms x) (xrefSectionOffsets x) (xrefSectionsComplete x) (parsedWithRecovery x).
Definition set_tableState v x := mkXRef (entries x) v (streamState x) (startXRefQueue x) (topDict x) (xrefStms x) (xrefSectionOffsets x) (xrefSectionsComplete x) (parsedWithRecovery x).
Definition set_streamState v x := mkXRef (entries x) (tableState x) v (startXRefQueue x) (topDict x) (xrefStms x) (xrefSectionOffsets x) (xrefSectionsComplete x) (parsedWithRecovery x).
Definition set_queue v x := mkXRef (entries x) (tableState x) (streamState x) v (topDict x) (xrefStms x) (xrefSectionOffsets x) (xrefSectionsComplete x) (parsedWithRecovery x).
Definition set_topDict v x := mkXRef (entries x) (tableState x) (streamState x) (startXRefQueue x) v (xrefStms x) (xrefSectionOffsets x) (xrefSectionsComplete x) (parsedWithRecovery x).
Definition set_xrefStms v x := mkXRef (entries x) (tableState x) (streamState x) (startXRefQueue x) (topDict x) v (xrefSectionOffsets x) (xrefSectionsComplete x) (parsedWithRecovery x).
Definition set_sectionOffsets v x := mkXRef (entries x) (tableState x) (streamState x) (startXRefQueue x) (topDict x) (xrefStms x) v (xrefSectionsComplete x) (parsedWithRecovery x).
Definition set_complete v x := mkXRef (entries x) (tableState x) (streamState x) (startXRefQueue x) (topDict x) (xrefStms x) (xrefSectionOffsets x) v (parsedWithRecovery x).

Definition setStartXRef (startXRef : Z) : XRef -> XRef := set_queue [startXRef].

(** [this.#entries[num] ??= entry] *)
Definition add_entry (num : Z) (entry : XRefEntry) (x : XRef) : XRef :=
  match entries x !! num with
  | Some _ => x
  | None => set_entries (<[num := entry]> (entries x)) x
  end.

Definition getEntry (x : XRef) (i : Z) : option XRefEntry :=
  match entries x !! i with
  | Some entry => if negb (e_free entry) && negb (e_offset entry =? 0) then Some entry else None
  | None => None
  end.

Section Read.
Context (fetch : Z -> Z -> bool -> res value) (fuel : nat).

(** ** Tables in text form *)

(** The table, and the parser that reads it. *)
Record Reader := mkReader { r_xref : XRef; r_parser : Parser }.
Abbreviation Rd := (M Reader).
Definition set_xref (x : XRef) (r : Reader) : Reader := mkReader x (r_parser r).
Definition set_parser (p : Parser) (r : Reader) : Reader := mkReader (r_xref r) p.
Definition on_xref {A} (m : M XRef A) : Rd A := zoom r_xref set_xref m.
Definition on_parser {A} (m : P A) : Rd A := zoom r_parser set_parser m.

Definition header_of : StreamOf obj -> Parser -> res (jsnum * jsnum) := fun stream p =>
  first_bytes fetch (s_bytes (stream_of p)) fuel stream.
(** [parser.getObj()] *)
Definition parser_getObj : Rd obj := on_parser (fun p => getObj None true fetch (fun s => header_of s p) true false fuel p).

(** [this._tableState] *)
Definition get_table : Rd TableState := fun r =>
  match tableState (r_xref r) with
  | Some t => (Ok t, r)
  | None => (Throw (TypeError "tableState is undefined"), r)
  end.
Definition set_table (t : TableState) : Rd unit := on_xref (modify (set_tableState (Some t))).

Definition set_firstEntryNum (v : value) (t : TableState) : TableState :=
  mkTable (t_entryNum t) (t_streamPos t) (t_parserBuf1 t) (t_parserBuf2 t) v (entryCount t).
Definition set_entryCount (v : value) (t : TableState) : TableState :=
  mkTable (t_entryNum t) (t_streamPos t) (t_parserBuf1 t) (t_parserBuf2 t) (firstEntryNum t) v.

(** Where reading is: entry [i], the position and the tokens of the parser. *)
Definition mark_table (i : Z) : Rd unit :=
  t <- get_table ;;
  p <- gets r_parser ;;
  set_table (mkTable i (s_pos (stream_of p)) (buf1 p) (buf2 p) (firstEntryNum t) (entryCount t)).

Definition read_entry : Rd XRefEntry :=
  offset <- parser_getObj ;;
  gen <- parser_getObj ;;
  type <- parser_getObj ;;
  let free := isCmd (Some type) (js "f") in
  let uncompressed := isCmd (Some type) (js "n") in
  match is_int offset, is_int gen with
  | Some offset, Some gen =>
      if free || uncompressed then mret (mkEntry offset gen free uncompressed)
      else throw (FormatError "Invalid entry in XRef subsection")
  | _, _ => throw (FormatError "Invalid entry in XRef subsection")
  end.

(** [for (i = ...; i < count; i++)], [n] entries from [i] on. *)
Fixpoint read_entries (n : nat) (i first : Z) : Rd unit :=
  match n with
  | O => mret tt
  | S n =>
      mark_table i ;;;
      entry <- read_entry ;;
      let first := if (i =? 0) && e_free entry && (first =? 1) then 0 else first in
      on_xref (modify (add_entry (first + i) entry)) ;;;
      read_entries n (i + 1) first
  end.

(** The two numbers in front of a subsection, or the command [trailer]. *)
Definition subsection_header : Rd (option obj) :=
  t <- get_table ;;
  match firstEntryNum t, entryCount t with
  | Some _, Some _ => mret None
  | _, _ =>
      obj <- parser_getObj ;;
      if isCmd (Some obj) (js "trailer") then mret (Some obj)
      else
        set_table (set_firstEntryNum (Some obj) t) ;;;
        count <- parser_getObj ;;
        set_table (set_entryCount (Some count) (set_firstEntryNum (Some obj) t)) ;;;
        mret None
  end.

Definition int_of (v : value) : option Z := o ← v; is_int o.

(** [while (true)] of [readXRefTable]: a subsection a turn. *)
Fixpoint subsections (turns : nat) : Rd obj :=
  match turns with
  | O => out_of_fuel
  | S turns =>
      stop <- subsection_header ;;
      match stop with
      | Some obj => mret obj
      | None =>
          t <- get_table ;;
          match int_of (firstEntryNum t), int_of (entryCount t) with
          | Some first, Some count =>
              read_entries (Z.to_nat (count - t_entryNum t)) (t_entryNum t) first ;;;
              mark_table 0 ;;;
              t <- get_table ;;
              set_table (set_entryCount None (set_firstEntryNum None t)) ;;;
              subsections turns
          | _, _ => throw (FormatError "Invalid XRef table: wrong types in subsection header")
          end
      end
  end.

Definition readXRefTable : Rd obj :=
  t <- get_table ;;
  on_parser (set_stream_pos (t_streamPos t)) ;;;
  on_parser (modify (set_buf1 (t_parserBuf1 t))) ;;;
  on_parser (modify (set_buf2 (t_parserBuf2 t))) ;;;
  obj <- subsections fuel ;;
  x <- gets r_xref ;;
  match entries x !! 0 with
  | Some entry =>
      if e_free entry then mret obj
      else throw (FormatError "Invalid XRef table: unexpected first object")
  | None => mret obj
  end.

Definition processXRefTable : Rd Dict :=
  r <- get ;;
  (match tableState (r_xref r) with
   | Some _ => mret tt
   | None =>
       let p := r_parser r in
       set_table (mkTable 0 (s_pos (stream_of p)) (buf1 p) (buf2 p) None None)
   end) ;;;
  obj <- readXRefTable ;;
  if negb (isCmd (Some obj) (js "trailer")) then
    throw (FormatError "Invalid XRef table: could not find trailer dictionary")
  else
    dict <- parser_getObj ;;
    match dict with
    | OStream dict _ _ | ODict dict => on_xref (modify (set_tableState None)) ;;; mret dict
    | _ => throw (FormatError "Invalid XRef table: could not parse trailer dictionary")
    end.

(** ** Tables in a stream *)

Section Streams.
Context {S : Type} `{ByteSource S} `{Seekable S}.
Abbreviation Rs := (M (XRef * S)).
Definition on_src {A} (m : M S A) : Rs A := zoom snd (fun s x => (fst x, s)) m.
Definition on_table {A} (m : M XRef A) : Rs A := zoom fst (fun x s => (x, snd s)) m.

(** A big-endian field of [width] bytes, its bytes shifted into a 32-bit
    integer. *)
Fixpoint read_field (width : nat) (acc : Z) (name : string) : Rs Z :=
  match width with
  | O => mret acc
  | Datatypes.S width =>
      b <- on_src getByte ;;
      if jn_is b (-1) then throw (FormatError name)
      else read_field width ((acc .<< 8) .| jn_int b) name
  end.

Definition read_stream_entry (typeFieldWidth offsetFieldWidth generationFieldWidth : Z) : Rs XRefEntry :=
  type <- read_field (Z.to_nat typeFieldWidth) 0 "Invalid XRef byteWidths 'type'." ;;
  let type := if typeFieldWidth =? 0 then 1 else type in
  offset <- read_field (Z.to_nat offsetFieldWidth) 0 "Invalid XRef byteWidths 'offset'." ;;
  generation <- read_field (Z.to_nat generationFieldWidth) 0 "Invalid XRef byteWidths 'generation'." ;;
  if type =? 0 then mret (mkEntry offset generation true false)
  else if type =? 1 then mret (mkEntry offset generation false true)
  else if type =? 2 then mret (mkEntry offset generation false false)
  else throw (FormatError "Invalid XRef entry type").

Definition set_stream (t : StreamState) : Rs unit := on_table (modify (set_streamState (Some t))).

(** [for (i = streamState.entryNum; i < n; ++i)] *)
Fixpoint read_stream_entries (n : nat) (i first w0 w1 w2 : Z) (t : StreamState) : Rs unit :=
  match n with
  | O => mret tt
  | Datatypes.S n =>
      s <- gets snd ;;
      set_stream (mkStreamState (entryRanges t) (byteWidths t) i (tell s)) ;;;
      entry <- read_stream_entry w0 w1 w2 ;;
      on_table (modify (add_entry (first + i) entry)) ;;;
      read_stream_entries n (i + 1) first w0 w1 w2 t
  end.

(** The turns of [while (entryRanges.length > 0)] on the elements of an array;
    a pair is cut off when its entries are read. *)
Fixpoint read_ranges (turns : nat) (l : list obj) (w0 w1 w2 : value) (t : StreamState) : Rs unit :=
  match turns, l with
  | _, [] => mret tt
  | O, _ => out_of_fuel
  | Datatypes.S turns, first :: l' =>
      match is_int first, int_of (head l') with
      | Some first, Some n =>
          match int_of w0, int_of w1, int_of w2 with
          | Some w0', Some w1', Some w2' =>
              read_stream_entries (Z.to_nat (n - s_entryNum t)) (s_entryNum t) first w0' w1' w2' t ;;;
              s <- gets snd ;;
              let t := mkStreamState (Some (OArr (drop 2 l))) (byteWidths t) 0 (tell s) in
              set_stream t ;;;
              read_ranges turns (drop 2 l) w0 w1 w2 t
          | _, _, _ => throw (FormatError "Invalid XRef entry fields length")
          end
      | _, _ => throw (FormatError "Invalid XRef range fields")
      end
  end.

(** [const [a, b, c] = v]: the elements of an array; those of a string and of
    a dictionary are no integers; nothing else can be iterated. *)
Definition three (v : value) : res (value * value * value) :=
  match v with
  | Some (OArr l) => Ok (l !! 0%nat, l !! 1%nat, l !! 2%nat)
  | Some (OStr _) | Some (ODict _) => Ok (None, None, None)
  | _ => Throw (TypeError "not iterable")
  end.

(** Of the values that are no arrays only a string has a length. *)
Definition readXRefStream (t : StreamState) : Rs unit :=
  on_src (modify (seek (s_streamPos t))) ;;;
  let* (w0, w1, w2) <- lift (three (byteWidths t)) ;;
  match entryRanges t with
  | Some (OArr l) => read_ranges (length l) l w0 w1 w2 t
  | Some (OStr (_ :: _)) => throw (FormatError "Invalid XRef range fields")
  | _ => mret tt
  end.

(** [const range = dict.get("Index") || [0, dict.get("Size")]] *)
Definition ranges_of (dict : Dict) : res value :=
  match dict_get fetch dict (js "Index") with
  | Ok v =>
      if truthy v then Ok v
      else
        match dict_get fetch dict (js "Size") with
        | Ok (Some size) => Ok (Some (OArr [OInt 0; size]))
        | Ok None => Ok (Some (OArr [OInt 0; ONull]))
        | Throw e => Throw e
        | OutOfFuel => OutOfFuel
        end
  | r => r
  end.

Definition processXRefStream (dict : Dict) : Rs Dict :=
  x <- gets fst ;;
  t <- (match streamState x with
        | Some t => mret t
        | None =>
            s <- gets snd ;;
            byteWidths <- lift (dict_get fetch dict (js "W")) ;;
            range <- lift (ranges_of dict) ;;
            let t := mkStreamState range byteWidths 0 (tell s) in
            set_stream t ;;; mret t
        end) ;;
  readXRefStream t ;;;
  on_table (modify (set_streamState None)) ;;;
  mret dict.
End Streams.

(** ** The sections of a file *)

(** [this.topDict ||= dict] *)
Definition keep_topDict (dict : Dict) (x : XRef) : XRef :=
  match topDict x with Some _ => x | None => set_topDict (Some dict) x end.

Definition push_queue (n : Z) (x : XRef) : XRef := set_queue (startXRefQueue x ++ [n]) x.

(** [dict.get(key)] *)
Definition dget (dict : Dict) (key : string) : Rd value := lift (dict_get fetch dict (js key)).

Definition hybrid_stream (dict : Dict) : Rd unit :=
  obj <- dget dict "XRefStm" ;;
  x <- gets r_xref ;;
  match int_of obj with
  | Some obj =>
      if bool_decide (obj ∈ xrefStms x) then mret tt
      else
        on_xref (modify (fun x => set_xrefStms ({[obj]} ∪ xrefStms x) x)) ;;;
        on_xref (modify (push_queue obj))
  | None => mret tt
  end.

(** A section in a stream object, whose number was read. *)
Definition stream_section : Rd Dict :=
  o1 <- parser_getObj ;;
  match is_int o1 with
  | None => throw (FormatError "Invalid XRef stream")
  | Some _ =>
      o2 <- parser_getObj ;;
      if negb (isCmd (Some o2) (js "obj")) then throw (FormatError "Invalid XRef stream")
      else
        o3 <- parser_getObj ;;
        match o3 with
        | OStream dict stream _ => fun r =>
            match open fetch (s_bytes (stream_of (r_parser r))) fuel stream with
            | Ok source =>
                let '(d, (x, _)) := processXRefStream dict (r_xref r, src source) in (d, set_xref x r)
            | Throw e => (Throw e, r)
            | OutOfFuel => (OutOfFuel, r)
            end
        | _ => throw (FormatError "Invalid XRef stream")
        end
  end.

(** The body of the [try] of [readXRef], from the parser on. *)
Definition read_section (startXRef : Z) : Rd unit :=
  obj <- parser_getObj ;;
  dict <-
    (if isCmd (Some obj) (js "xref") then
       dict <- processXRefTable ;;
       on_xref (modify (keep_topDict dict)) ;;;
       hybrid_stream dict ;;;
       mret dict
     else if bool_decide (is_Some (is_int obj)) then
       dict <- stream_section ;;
       on_xref (modify (keep_topDict dict)) ;;;
       mret dict
     else throw (FormatError "Invalid XRef stream header")) ;;
  on_xref (modify (fun x => set_sectionOffsets ({[startXRef]} ∪ xrefSectionOffsets x) x)) ;;;
  obj <- dget dict "Prev" ;;
  match obj with
  | Some (ORef num _) => on_xref (modify (push_queue num))
  | _ =>
      match int_of obj with
      | Some n => on_xref (modify (push_queue n))
      | None => mret tt
      end
  end.

(** A turn on the section at [startXRef]; an exception only marks the list of
    sections as incomplete. *)
Definition section_at (stream : Stream) (startXRef : Z) (x : XRef) : res unit * XRef :=
  let stream := set_pos (startXRef + s_start stream) stream in
  let incomplete x := (Ok tt, set_complete false x) in
  match new_Lexer stream with
  | Ok lexer =>
      match new_Parser None lexer None with
      | Ok p =>
          match read_section startXRef (mkReader x p) with
          | (Ok _, r) => (Ok tt, r_xref r)
          | (Throw _, r) => incomplete (r_xref r)
          | (OutOfFuel, r) => (OutOfFuel, r_xref r)
          end
      | Throw _ => incomplete x
      | OutOfFuel => (OutOfFuel, x)
      end
  | Throw _ => incomplete x
  | OutOfFuel => (OutOfFuel, x)
  end.

(** [while (this.startXRefQueue.length)] *)
Fixpoint sections (turns : nat) (stream : Stream) (parsed : gset Z) : M XRef unit := fun x =>
  match startXRefQueue x with
  | [] => (Ok tt, x)
  | startXRef :: queue =>
      match turns with
      | O => (OutOfFuel, x)
      | S turns =>
          if bool_decide (startXRef ∈ parsed) then sections turns stream parsed (set_queue queue x)
          else
            (section_at stream startXRef ;;;
             modify (fun x => set_queue (tail (startXRefQueue x)) x) ;;;
             sections turns stream ({[startXRef]} ∪ parsed)) x
      end
  end.

Definition XRefParseException : exn := JsError "XRefParseException".

Definition readXRef (turns : nat) (stream : Stream) (recoveryMode : bool) : M XRef (option Dict) :=
  sections turns stream ∅ ;;;
  x <- get ;;
  match topDict x with
  | Some dict => mret (Some dict)
  | None => if recoveryMode then mret None else throw XRefParseException
  end.
End Read.

(** How many sections were appended after [offset]; [null] when that is not
    known. *)
Definition countUpdatesAfter (start offset : Z) (x : XRef) : option Z :=
  if parsedWithRecovery x || negb (xrefSectionsComplete x) then None
  else
    let relativeOffset := offset - start in
    Some (len (filter (fun sectionOffset => relativeOffset <= sectionOffset /\ sectionOffset ∉ xrefStms x)
      (elements (xrefSectionOffsets x)))).
