(* ===== verification/Document.v ===== *)
(** * Opening a document

    The part of [PDFDocument] of pdf.worker.mjs that looks at the bytes of the
    file: its header, whether it is linearized ([Linearization.create]), and
    where its last cross-reference section is ([startXRef]). *)
From stdpp Require Import gmap.
From S2P Require Import Prelude ByteStream DecodeStream Ascii85 Number64 Primitives Crypto Lexer Parser Xref.
Local Open Scope js_scope.

Definition PDF_HEADER_SIGNATURE : list Z := [0x25; 0x50; 0x44; 0x46; 0x2d].
Definition STARTXREF_SIGNATURE : list Z := [0x73; 0x74; 0x61; 0x72; 0x74; 0x78; 0x72; 0x65; 0x66].
Definition ENDOBJ_SIGNATURE : list Z := [0x65; 0x6e; 0x64; 0x6f; 0x62; 0x6a].

(** ** Finding a signature *)

(** [while (j < signatureLength && scanBytes[pos + j] === signature[j]) j++],
    and whether the loop got to the end of the signature. *)
Fixpoint matches_at (scanBytes signature : list Z) (pos : Z) : bool :=
  match signature with
  | [] => true
  | b :: signature => jn_is (arr_get scanBytes pos) b && matches_at scanBytes signature (pos + 1)
  end.

(** The same from the last byte of the signature back, [pos] being where it
    should be. *)
Definition matches_back (scanBytes signature : list Z) (pos : Z) : bool :=
  (fix go (rev_signature : list Z) (pos : Z) : bool :=
     match rev_signature with
     | [] => true
     | b :: rev_signature => jn_is (arr_get scanBytes pos) b && go rev_signature (pos - 1)
     end) (rev signature) pos.

(** [while (pos >= signatureEnd)], [n] positions being left. *)
Fixpoint find_back (n : nat) (scanBytes signature : list Z) (pos : Z) : option Z :=
  match n with
  | O => None
  | S n =>
      if matches_back scanBytes signature pos then Some (pos - (len signature - 1))
      else find_back n scanBytes signature (pos - 1)
  end.

(** [while (pos <= scanLength)], [n] positions being left. *)
Fixpoint find_forward (n : nat) (scanBytes signature : list Z) (pos : Z) : option Z :=
  match n with
  | O => None
  | S n =>
      if matches_at scanBytes signature pos then Some pos
      else find_forward n scanBytes signature (pos + 1)
  end.

Definition find (signature : list Z) (limit : Z) (backwards : bool) : M Stream bool :=
  scanBytes <- peekBytes limit ;;
  let scanLength := len scanBytes - len signature in
  if scanLength <=? 0 then mret false
  else
    let found :=
      if backwards then find_back (Z.to_nat (scanLength + 1)) scanBytes signature (len scanBytes - 1)
      else find_forward (Z.to_nat (scanLength + 1)) scanBytes signature 0 in
    match found with
    | Some pos => modify (fun s => set_pos (s_pos s + pos) s) ;;; mret true
    | None => mret false
    end.

(** ** The header *)

(** [/^[1-9]\.\d$/] *)
Definition is_version (version : jstr) : bool :=
  match version with
  | [a; b; c] => (0x31 <=? a) && (a <=? 0x39) && (b =? 0x2e) && is_digit c
  | _ => false
  end.

(** [while ((ch = stream.getByte()) > 0x20 && version.length < 7)] *)
Fixpoint read_version (n : nat) (version : jstr) : M Stream jstr :=
  ch <- getByte ;;
  match ch with
  | Some c =>
      if 0x20 <? c then
        match n with
        | O => mret version
        | S n => read_version n (version ++ [c])
        end
      else mret version
  | None => mret version
  end.

(** The version of the header, [None] when there is none. *)
Definition checkHeader : M Stream (option jstr) :=
  modify stream_reset ;;;
  found <- find PDF_HEADER_SIGNATURE 1024 false ;;
  if found : bool then
    modify stream_moveStart ;;;
    skip (Some (len PDF_HEADER_SIGNATURE)) ;;;
    version <- read_version 7 [] ;;
    mret (if is_version version then Some version else None)
  else mret None.

(** ** Linearization *)

Record Linearization := mkLinearization {
  l_length : Z;
  hints : list Z;
  objectNumberFirst : Z;
  endFirst : Z;
  l_numPages : Z;
  mainXRefEntriesOffset : Z;
  pageFirst : Z
}.

(** [linDict.get(key)]: the parser has no table to resolve references with. *)
Definition lin_get (linDict : Dict) (key : string) : value := getRaw linDict (js key).

Definition getInt (linDict : Dict) (name : string) (allowZeroValue : bool) : res Z :=
  match (o ← lin_get linDict name; is_int o) with
  | Some n =>
      if (if allowZeroValue then 0 <=? n else 0 <? n) then Ok n
      else Throw (JsError "The parameter in the linearization dictionary is invalid.")
  | None => Throw (JsError "The parameter in the linearization dictionary is invalid.")
  end.

Definition positive_int (o : obj) : option Z := n ← is_int o; if 0 <? n then Some n else None.

Definition getHints (linDict : Dict) : res (list Z) :=
  match lin_get linDict "H" with
  | Some (OArr l) =>
      if (len l =? 2) || (len l =? 4) then
        match mapM positive_int l with
        | Some hints => Ok hints
        | None => Throw (JsError "Hint in the linearization dictionary is invalid.")
        end
      else Throw (JsError "Hint array in the linearization dictionary is invalid.")
  | _ => Throw (JsError "Hint array in the linearization dictionary is invalid.")
  end.

(** [typeof obj === "number" && obj > 0] *)
Definition positive_number (v : value) : bool :=
  match v with Some (ONum (NInt z)) => 0 <? z | Some (ONum (NReal f)) => flt fzero f | _ => false end.

Definition lin_fields (linDict : Dict) (streamLength : Z) : M Stream (option Linearization) :=
  length <- lift (getInt linDict "L" false) ;;
  if negb (length =? streamLength) then
    throw (JsError "The L parameter does not equal the stream length.")
  else
    hints <- lift (getHints linDict) ;;
    objectNumberFirst <- lift (getInt linDict "O" false) ;;
    endFirst <- lift (getInt linDict "E" false) ;;
    numPages <- lift (getInt linDict "N" false) ;;
    mainXRefEntriesOffset <- lift (getInt linDict "T" false) ;;
    pageFirst <- (if dict_has linDict (js "P") then lift (getInt linDict "P" true) else mret 0) ;;
    mret (Some (mkLinearization length hints objectNumberFirst endFirst numPages mainXRefEntriesOffset pageFirst)).

(** The four objects in front of a linearized file. *)
Definition four_objects (fuel : nat) : P (obj * obj * obj * obj) :=
  let getObj := getObj None false (fun _ _ _ => Ok None) (fun _ => OutOfFuel) false false fuel in
  obj1 <- getObj ;; obj2 <- getObj ;; obj3 <- getObj ;; linDict <- getObj ;;
  mret (obj1, obj2, obj3, linDict).

Definition linearization_create (fuel : nat) : M Stream (option Linearization) := fun s =>
  match new_Lexer s with
  | Ok lexer =>
      match new_Parser None lexer None with
      | Ok p =>
          match four_objects fuel p with
          | (Ok (obj1, obj2, obj3, linDict), p) =>
              let s' := stream_of p in
              match is_int obj1, is_int obj2, isCmd (Some obj3) (js "obj"), linDict with
              | Some _, Some _, true, ODict d =>
                  if positive_number (lin_get d "Linearized") then lin_fields d (stream_length s') s'
                  else (Ok None, s')
              | _, _, _, _ => (Ok None, s')
              end
          | (Throw e, p) => (Throw e, stream_of p)
          | (OutOfFuel, p) => (OutOfFuel, stream_of p)
          end
      | Throw e => (Throw e, s)
      | OutOfFuel => (OutOfFuel, s)
      end
  | Throw e => (Throw e, s)
  | OutOfFuel => (OutOfFuel, s)
  end.

(** [PDFDocument.linearization] *)
Definition linearization (fuel : nat) : M Stream (option Linearization) :=
  try_catch (linearization_create fuel) (fun _ => mret None).

(** ** The last cross-reference section *)

Definition step : Z := 1024.

(** [while (!found && pos > 0)] *)
Fixpoint find_startxref (turns : nat) (pos : Z) : M Stream bool :=
  if 0 <? pos then
    match turns with
    | O => out_of_fuel
    | S turns =>
        let pos := Z.max 0 (pos - (step - len STARTXREF_SIGNATURE)) in
        modify (set_pos pos) ;;;
        found <- find STARTXREF_SIGNATURE step true ;;
        if found : bool then mret true else find_startxref turns pos
    end
  else mret false.

(** [do ch = stream.getByte(); while (isWhiteSpace(ch))] *)
Fixpoint first_visible (fuel : nat) : M Stream jsnum :=
  match fuel with
  | O => out_of_fuel
  | S fuel => ch <- getByte ;; if isWhiteSpace ch then first_visible fuel else mret ch
  end.

(** [while (ch >= 0x20 && ch <= 0x39)] *)
Fixpoint number_text (fuel : nat) (ch : jsnum) (str : jstr) : M Stream jstr :=
  match fuel with
  | O => out_of_fuel
  | S fuel =>
      match ch with
      | Some c =>
          if (0x20 <=? c) && (c <=? 0x39) then ch <- getByte ;; number_text fuel ch (str ++ [c])
          else mret str
      | None => mret str
      end
  end.

(** [while (isWhiteSpace(ch)) { stream.pos++; ch = stream.peekByte(); }] *)
Fixpoint skip_blank (fuel : nat) (ch : jsnum) : M Stream unit :=
  match fuel with
  | O => out_of_fuel
  | S fuel =>
      if isWhiteSpace ch then
        modify (fun s => set_pos (s_pos s + 1) s) ;;; ch <- peekByte ;; skip_blank fuel ch
      else mret tt
  end.

(** The getter [startXRef]; [fuel] is for the text after a signature. *)
Definition startXRef (fuel : nat) : M Stream Z :=
  lin <- linearization fuel ;;
  match lin with
  | Some _ =>
      modify stream_reset ;;;
      found <- find ENDOBJ_SIGNATURE 1024 false ;;
      if found : bool then
        skip (Some 6) ;;;
        ch <- peekByte ;;
        skip_blank fuel ch ;;;
        gets (fun s => s_pos s - s_start s)
      else mret 0
  | None =>
      s <- get ;;
      found <- find_startxref (Z.to_nat (s_end s)) (s_end s) ;;
      if found : bool then
        skip (Some 9) ;;;
        ch <- first_visible fuel ;;
        str <- number_text fuel ch [] ;;
        mret (default 0 (parseInt str))
      else mret 0
  end.

Example startXRef_sample :
  fst (startXRef 20 (new_Stream (js "%PDF-1.4 startxref 17 startxref" ++ [0x0a] ++ js " 123" ++ [0x0a] ++ js "%%EOF") None None))
  = Ok 123 /\
  fst (checkHeader (new_Stream (js "x %PDF-1.7 4 0 obj") None None)) = Ok (Some (js "1.7")).
Proof. vm_compute. done. Qed.
