(* ===== verification/Update.v ===== *)
(** * Incremental updates

    [incrementalUpdate] of pdf.worker.mjs and what it calls: the changed
    objects are written after the original data, then a cross-reference section
    for them, as a table or as a stream, and its trailer.  The text of a
    [changes] entry that is no object is written as it is; an entry of an object
    stream has no data of its own.  [time] is [Date.now() / 1000] rounded down.
    Forms in XFA ([updateXFA]) are left out. *)
From stdpp Require Import gmap.
From S2P Require Import Prelude ByteStream DecodeStream Primitives Crypto Lexer Writer Hash Md5.
Local Open Scope js_scope.

(** ** Changes *)

Inductive Payload : Type :=
| Value (v : obj)
| Text (s : jstr)
| Deleted
| InObjStream (objStreamNum index : Z).

(** [RefMap]: the references in the order they were first put. *)
Abbreviation RefMap V := (list ((Z * Z) * V)).
Fixpoint refmap_put {V} (m : RefMap V) (ref : Z * Z) (v : V) : RefMap V :=
  match m with
  | [] => [(ref, v)]
  | (r, v') :: m => if bool_decide (r = ref) then (r, v) :: m else (r, v') :: refmap_put m ref v
  end.
Fixpoint refmap_get {V} (m : RefMap V) (ref : Z * Z) : option V :=
  match m with
  | [] => None
  | (r, v) :: m => if bool_decide (r = ref) then Some v else refmap_get m ref
  end.
Definition refmap_has {V} (m : RefMap V) (ref : Z * Z) : bool := bool_decide (is_Some (refmap_get m ref)).
Definition refmap_putAlias {V} (m : RefMap (option V)) (ref aliasRef : Z * Z) : RefMap (option V) :=
  refmap_put m ref (v ← refmap_get m aliasRef; v).

(** An element of [newRefs]; [nr_data] is [null] for none. *)
Record NewRef := mkNewRef {
  nr_num : Z;
  nr_gen : Z;
  nr_data : option jstr;
  nr_objStream : option (Z * Z)      (** [objStreamRef.num] and [index] *)
}.

(** [newRefs.sort((a, b) => a.ref.num - b.ref.num)], a stable sort. *)
Fixpoint insert_ref (r : NewRef) (l : list NewRef) : list NewRef :=
  match l with
  | [] => [r]
  | r' :: l' => if nr_num r <=? nr_num r' then r :: l else r' :: insert_ref r l'
  end.
Definition sort_refs (l : list NewRef) : list NewRef := fold_right insert_ref [] l.

Record XRefInfo := mkXRefInfo {
  rootRef : value;
  infoRef : value;
  encryptRef : value;
  newRef : Z * Z;
  fileIds : value;
  startXRef : value;
  filename : option jstr;
  infoMap : list (jstr * jstr)
}.

(** ** Sizes and identifiers *)

(** [Math.ceil(Math.ceil(Math.log2(1 + x)) / 8)], exact below 2^47. *)
Definition getSizeInBytes (x : Z) : Z := (Z.log2_up (1 + x) + 7) / 8.

Section Update.
Context (time : Z).

(** [`${n}`] of an integer. *)
Definition int_text (n : Z) : jstr := (if n <? 0 then js "-" else []) ++ dec (Z.abs n).

(** The strings one after the other in a byte array. *)
Definition write_strings (l : list jstr) (offset : Z) (array : list Z) : Z * list Z :=
  fold_left (fun '(offset, array) str => writeString str offset array) l (offset, array).

Definition computeMD5 (filesize : Z) (xrefInfo : XRefInfo) : jstr :=
  let md5Buffer := int_text time :: default [] (filename xrefInfo) :: int_text filesize :: (infoMap xrefInfo).*2 in
  let md5BufferLen := fold_right Z.add 0 (map len md5Buffer) in
  let '(_, array) := write_strings md5Buffer 0 (zeros md5BufferLen) in
  bytesToString (calculateMD5 array 0 (len array)).

Definition computeIDs (baseOffset : Z) (xrefInfo : XRefInfo) (newXref : Dict) : Dict :=
  match fileIds xrefInfo with
  | Some (OArr (id :: _)) =>
      let md5 := OStr (computeMD5 baseOffset xrefInfo) in
      dict_set newXref (js "ID") (OArr [if truthy (Some id) then id else md5; md5])
  | _ => newXref
  end.

(** ** The sections *)

(** [indexes.at(-k)] *)
Definition at_end (l : list Z) (k : Z) : jsnum := arr_get l (len l - k).

Fixpoint index_loop (newRefs : list NewRef) (indexes : list Z) : list Z :=
  match newRefs with
  | [] => indexes
  | r :: newRefs =>
      let next := jn_add (at_end indexes 2) (at_end indexes 1) in
      index_loop newRefs
        (if jn_is next (nr_num r)
         then arr_set indexes (len indexes - 1) (jn_int (at_end indexes 1) + 1)
         else indexes ++ [nr_num r; 1])
  end.
Definition getIndexes (newRefs : list NewRef) : list Z := index_loop newRefs [].

(** [str.padStart(width, "0")] *)
Definition padStart (width : Z) (str : jstr) : jstr := replicate (Z.to_nat (width - len str)) 0x30 ++ str.

Definition entry_text (offset gen : Z) (keyword : string) : jstr :=
  padStart 10 (int_text offset) ++ js " " ++ padStart 5 (int_text gen) ++ js " " ++ js keyword ++ [0x0d; 0x0a].

(** The lines of the table; [indexes] are the numbers that are left. *)
Fixpoint table_lines (newRefs : list NewRef) (indexes : list Z) (baseOffset : Z) : M WriterState Z :=
  match newRefs with
  | [] => mret baseOffset
  | r :: newRefs =>
      let* (text, indexes) <-
        mret (match indexes with
              | num :: count :: indexes' =>
                  if nr_num r =? num
                  then (int_text num ++ js " " ++ int_text count ++ [0x0a], indexes')
                  else ([], indexes)
              | _ => ([], indexes)
              end) ;;
      push text ;;;
      match nr_data r with
      | Some data =>
          push (entry_text baseOffset (Z.min (nr_gen r) 0xffff) "n") ;;;
          table_lines newRefs indexes (baseOffset + len data)
      | None =>
          push (entry_text 0 (Z.min (nr_gen r + 1) 0xffff) "f") ;;;
          table_lines newRefs indexes baseOffset
      end
  end.

Section Tables.
Context (fetch : Z -> Z -> bool -> res value) (random : nat -> list Z)
  (deflate : list Z -> option (list Z)) (depth : nat).

Definition getXRefTable (xrefInfo : XRefInfo) (baseOffset : Z) (newRefs : list NewRef) (newXref : Dict)
    : M WriterState unit :=
  push (js "xref" ++ [0x0a]) ;;;
  baseOffset <- table_lines newRefs (getIndexes newRefs) baseOffset ;;
  let newXref := computeIDs baseOffset xrefInfo newXref in
  push (js "trailer" ++ [0x0a]) ;;;
  modify (fun w => mkWriter (w_buffer w) None (w_draws w)) ;;;
  writeDict (writeValue fetch random deflate [] depth) newXref ;;;
  push ([0x0a] ++ js "startxref" ++ [0x0a]) ;;; push (int_text baseOffset) ;;;
  push ([0x0a] ++ js "%%EOF" ++ [0x0a]).

(** The rows of the stream, and the greatest offset and generation. *)
Fixpoint table_rows (newRefs : list NewRef) (baseOffset maxOffset maxGen : Z) (rows : list (Z * Z * Z))
    : Z * Z * Z * list (Z * Z * Z) :=
  match newRefs with
  | [] => (baseOffset, maxOffset, maxGen, rows)
  | r :: newRefs =>
      let maxOffset := Z.max maxOffset baseOffset in
      match nr_objStream r, nr_data r with
      | Some (objStreamNum, index), _ =>
          table_rows newRefs baseOffset maxOffset (Z.max maxGen index) (rows ++ [(2, objStreamNum, index)])
      | None, Some data =>
          let gen := Z.min (nr_gen r) 0xffff in
          table_rows newRefs (baseOffset + len data) maxOffset (Z.max maxGen gen) (rows ++ [(1, baseOffset, gen)])
      | None, None =>
          let gen := Z.min (nr_gen r + 1) 0xffff in
          table_rows newRefs baseOffset maxOffset (Z.max maxGen gen) (rows ++ [(0, 0, gen)])
      end
  end.

Fixpoint write_rows (rows : list (Z * Z * Z)) (w0 w1 w2 offset : Z) (data : list Z) : list Z :=
  match rows with
  | [] => data
  | (type, objOffset, gen) :: rows =>
      let '(offset, data) := writeInt type w0 offset data in
      let '(offset, data) := writeInt objOffset w1 offset data in
      let '(offset, data) := writeInt gen w2 offset data in
      write_rows rows w0 w1 w2 offset data
  end.

(** The data of the stream, and its dictionary. *)
Definition xref_stream (xrefInfo : XRefInfo) (baseOffset : Z) (newRefs : list NewRef) (newXref : Dict)
    : Z * Dict * list Z :=
  let '(baseOffset, maxOffset, maxGen, rows) := table_rows newRefs baseOffset 0 0 [] in
  let newXref := dict_set newXref (js "Index") (OArr (map OInt (getIndexes newRefs))) in
  let offsetSize := getSizeInBytes maxOffset in
  let maxGenSize := getSizeInBytes maxGen in
  let newXref := dict_set newXref (js "W") (OArr [OInt 1; OInt offsetSize; OInt maxGenSize]) in
  let newXref := computeIDs baseOffset xrefInfo newXref in
  let structSize := 1 + offsetSize + maxGenSize in
  (baseOffset, newXref, write_rows rows 1 offsetSize maxGenSize 0 (zeros (structSize * len rows))).

Definition getXRefStreamTable (xrefInfo : XRefInfo) (baseOffset : Z) (newRefs : list NewRef) (newXref : Dict)
    : M WriterState unit :=
  let '(baseOffset, dict, data) := xref_stream xrefInfo baseOffset newRefs newXref in
  let '(num, gen) := newRef xrefInfo in
  modify (fun w => mkWriter (w_buffer w) None (w_draws w)) ;;;
  writeObject fetch random deflate data depth num gen (OStream dict (SubStream 0 (len data)) None) ;;;
  push (js "startxref" ++ [0x0a]) ;;; push (int_text baseOffset) ;;; push ([0x0a] ++ js "%%EOF" ++ [0x0a]).
End Tables.

Definition getTrailerDict (xrefInfo : XRefInfo) (changes : RefMap Payload) (useXrefStream : bool)
    : Dict * RefMap Payload :=
  let d := setIfDefined (new_Dict false) (js "Prev") (startXRef xrefInfo) in
  let ref := newRef xrefInfo in
  let '(d, changes) :=
    if useXrefStream then
      (setIfName (dict_set d (js "Size") (OInt (fst ref + 1))) (js "Type") (Some (OStr (js "XRef"))),
       refmap_put changes ref (Text []))
    else (dict_set d (js "Size") (OInt (fst ref)), changes) in
  let d := setIfDefined d (js "Root") (rootRef xrefInfo) in
  let d := setIfDefined d (js "Info") (infoRef xrefInfo) in
  (setIfDefined d (js "Encrypt") (encryptRef xrefInfo), changes).

(** ** The update *)

Section Write.
Context (fetch : Z -> Z -> bool -> res value) (random : nat -> list Z)
  (deflate : list Z -> option (list Z)) (file : list Z) (depth : nat).
(** [xref.encrypt.createCipherTransform] and [xref.encryptRef]. *)
Context (encrypt : option (Z -> Z -> CipherTransform)) (encrypt_ref : option (Z * Z)).

(** [encrypt && encryptRef !== ref ? encrypt.createCipherTransform(...) : null] *)
Definition object_transform (num gen : Z) : option CipherTransform :=
  match encrypt with
  | Some create => if bool_decide (encrypt_ref = Some (num, gen)) then None else Some (create num gen)
  | None => None
  end.

(** One entry of [changes]; the buffer is emptied after an object. *)
Definition write_change (change : (Z * Z) * Payload) : M WriterState NewRef :=
  let '((num, gen), payload) := change in
  match payload with
  | InObjStream objStreamNum index => mret (mkNewRef num gen None (Some (objStreamNum, index)))
  | Text s => mret (mkNewRef num gen (Some s) None)
  | Deleted => mret (mkNewRef num gen None None)
  | Value v =>
      modify (fun w => mkWriter (w_buffer w) (object_transform num gen) (w_draws w)) ;;;
      writeObject fetch random deflate file depth num gen v ;;;
      text <- gets w_buffer ;;
      modify (fun w => mkWriter [] (w_transform w) (w_draws w)) ;;;
      mret (mkNewRef num gen (Some text) None)
  end.

Fixpoint write_all (changes : RefMap Payload) : M WriterState (list NewRef) :=
  match changes with
  | [] => mret []
  | c :: changes => r <- write_change c ;; newRefs <- write_all changes ;; mret (r :: newRefs)
  end.
Definition writeChanges (changes : RefMap Payload) : M WriterState (list NewRef) :=
  newRefs <- write_all changes ;; mret (sort_refs newRefs).

(** [updateAcroform] of a document without XFA. *)
Definition updateAcroform (acroForm : Dict) (acroFormRef : Z * Z) (needAppearances : bool)
    (changes : RefMap Payload) : RefMap Payload :=
  if needAppearances then
    refmap_put changes acroFormRef
      (Value (ODict (dict_set (dict_clone acroForm) (js "NeedAppearances") (OBool true))))
  else changes.

Definition incrementalUpdate (originalData : list Z) (xrefInfo : XRefInfo) (changes : RefMap Payload)
    (acroForm : Dict) (acroFormRef : Z * Z) (needAppearances useXrefStream : bool) : M WriterState (list Z) :=
  let changes := updateAcroform acroForm acroFormRef needAppearances changes in
  let '(newXref, changes) := getTrailerDict xrefInfo changes useXrefStream in
  newRefs <- writeChanges changes ;;
  let lastByte := arr_get originalData (len originalData - 1) in
  let newline := negb (jn_is lastByte 0x0a) && negb (jn_is lastByte 0x0d) in
  (if newline then push [0x0a] else mret tt) ;;;
  let baseOffset := if newline then len originalData + 1 else len originalData in
  push (concat (omap nr_data newRefs)) ;;;
  (if useXrefStream then getXRefStreamTable fetch random deflate depth xrefInfo baseOffset newRefs newXref
   else getXRefTable fetch random deflate depth xrefInfo baseOffset newRefs newXref) ;;;
  text <- gets w_buffer ;;
  mret (snd (writeString text (len originalData) (originalData ++ zeros (len text)))).
End Write.
End Update.
