(* ===== verification/UpdateSpec.v ===== *)
(** * An incremental update is read back

    The section [getXRefTable] writes is the one [readXRef] reads: its
    subsections are the runs of consecutive numbers, each line becomes the
    entry of its object, and the objects of the update are fetched from where
    these entries say they are.  Older sections, read after it, keep the entries
    that are there. *)
From stdpp Require Import gmap.
From S2P Require Import Prelude JsBits ByteStream DecodeStream Ascii85 Predictor Primitives Crypto CryptoSpec.
From S2P Require Import Lexer LexerSpec Parser ParserSpec Writer Numerals WriterSpec Xref RoundTrip XrefTable Update.
Local Open Scope js_scope.

(** ** Runs of consecutive numbers *)

Fixpoint runs (l : list NewRef) : list (list NewRef) :=
  match l with
  | [] => []
  | r :: l =>
      match runs l with
      | (r' :: run) :: rest =>
          if nr_num r' =? nr_num r + 1 then (r :: r' :: run) :: rest else [r] :: (r' :: run) :: rest
      | rest => [r] :: rest
      end
  end.

Definition run_first (run : list NewRef) : Z := default 0 (nr_num <$> head run).
Definition run_index (run : list NewRef) : list Z := [run_first run; len run].

Lemma runs_head r l : exists run rest, runs (r :: l) = (r :: run) :: rest.
Proof.
  cbn [runs]. destruct (runs l) as [|[|r' run] rest]; [by eexists _, _..|].
  destruct (nr_num r' =? nr_num r + 1); by eexists _, _.
Qed.

Lemma concat_runs l : concat (runs l) = l.
Proof.
  induction l as [|r l IH]; [done|]. cbn [runs].
  destruct (runs l) as [|[|r' run] rest]; [by rewrite <- IH..|].
  destruct (nr_num r' =? nr_num r + 1); cbn [concat app] in *; by rewrite <- IH.
Qed.

(** The entries of [indexes] from the end of a list. *)
Lemma at_end_last pre f c : at_end (pre ++ [f; c]) 2 = Some f /\ at_end (pre ++ [f; c]) 1 = Some c.
Proof.
  unfold at_end, arr_get. rewrite len_app. change (len [f; c]) with 2.
  pose proof (len_nonneg pre). rewrite !(proj2 (Z.ltb_ge _ 0)) by lia.
  rewrite !lookup_app_r by (unfold len; lia).
  replace (Z.to_nat (len pre + 2 - 2) - length pre)%nat with 0%nat by (unfold len; lia).
  replace (Z.to_nat (len pre + 2 - 1) - length pre)%nat with 1%nat by (unfold len; lia). done.
Qed.

Lemma set_last (pre : list Z) f c v : arr_set (pre ++ [f; c]) (len (pre ++ [f; c]) - 1) v = pre ++ [f; v].
Proof.
  rewrite len_app. change (len [f; c]) with 2. pose proof (len_nonneg pre).
  rewrite arr_set_app by lia. do 2 f_equal. unfold arr_set.
  rewrite (proj2 (Z.ltb_ge _ 0)) by lia.
  by replace (Z.to_nat (len pre + 2 - 1 - len pre)) with 1%nat by lia.
Qed.

Lemma index_loop_runs l pre f c :
  index_loop l (pre ++ [f; c]) =
  match runs l with
  | (r :: run) :: rest =>
      if nr_num r =? f + c then pre ++ [f; c + len (r :: run)] ++ flat_map run_index rest
      else pre ++ [f; c] ++ flat_map run_index (runs l)
  | _ => pre ++ [f; c]
  end.
Proof.
  revert pre f c. induction l as [|r l IH]; intros pre f c; [done|].
  cbn [index_loop]. destruct (at_end_last pre f c) as [-> ->]. change (jn_is (jn_add (Some f) (Some c)) (nr_num r)) with (f + c =? nr_num r).
  change (jn_int (Some c)) with c. destruct (runs_head r l) as (run & rest & Hr). rewrite Hr.
  rewrite (Z.eqb_sym (nr_num r) (f + c)).
  assert (Hnext : match runs l with
    | (r' :: run') :: rest' =>
        if nr_num r' =? nr_num r + 1 then run = r' :: run' /\ rest = rest' else run = [] /\ rest = runs l
    | _ => run = [] /\ rest = []
    end).
  { cbn [runs] in Hr. destruct l as [|r1 l1]; [by inversion Hr|].
    destruct (runs_head r1 l1) as (run1 & rest1 & H1). rewrite H1 in *.
    destruct (nr_num r1 =? nr_num r + 1); by inversion Hr. }
  destruct (Z.eqb_spec (f + c) (nr_num r)) as [E|E].
  - rewrite set_last, IH. destruct (runs l) as [|[|r' run'] rest'].
    + destruct Hnext as [-> ->]. done.
    + destruct Hnext as [-> ->]. done.
    + replace (f + (c + 1)) with (nr_num r + 1) by lia.
      destruct (nr_num r' =? nr_num r + 1); destruct Hnext as [-> ->]; [|done].
      by replace (c + 1 + len (r' :: run')) with (c + len (r :: r' :: run')) by (rewrite (len_cons r); lia).
  - change (pre ++ [f; c] ++ flat_map run_index ((r :: run) :: rest))
      with (pre ++ [f; c] ++ [nr_num r; len (r :: run)] ++ flat_map run_index rest).
    rewrite (app_assoc pre), IH. destruct (runs l) as [|[|r' run'] rest'].
    + by destruct Hnext as [-> ->].
    + by destruct Hnext as [-> ->].
    + destruct (nr_num r' =? nr_num r + 1); destruct Hnext as [-> ->]; [|done].
      by replace (1 + len (r' :: run')) with (len (r :: r' :: run')) by (rewrite (len_cons r); lia).
Qed.

Lemma getIndexes_runs l : getIndexes l = flat_map run_index (runs l).
Proof.
  destruct l as [|r l]; [done|]. unfold getIndexes. cbn [index_loop].
  change (jn_is (jn_add (at_end [] 2) (at_end [] 1)) (nr_num r)) with false. cbv iota.
  change ([] ++ [nr_num r; 1]) with ([] ++ [nr_num r; 1] : list Z). rewrite index_loop_runs.
  destruct l as [|r' l]; [done|]. destruct (runs_head r' l) as (run' & rest' & Hr).
  change (runs (r :: r' :: l)) with
    (match runs (r' :: l) with
     | (r' :: run) :: rest =>
         if nr_num r' =? nr_num r + 1 then (r :: r' :: run) :: rest else [r] :: (r' :: run) :: rest
     | rest => [r] :: rest
     end).
  rewrite Hr. destruct (nr_num r' =? nr_num r + 1); [|done].
  cbn [app flat_map run_index run_first head fmap option_fmap option_map default from_option id].
  by replace (1 + len (r' :: run')) with (len (r :: r' :: run')) by (rewrite (len_cons r); lia).
Qed.

(** ** The text of a table *)

Definition line_text (r : NewRef) (off : Z) : jstr :=
  match nr_data r with
  | Some _ => entry_text off (Z.min (nr_gen r) 0xffff) "n"
  | None => entry_text 0 (Z.min (nr_gen r + 1) 0xffff) "f"
  end.
Definition next_offset (off : Z) (r : NewRef) : Z := off + len (default [] (nr_data r)).
Definition offset_after (l : list NewRef) (off : Z) : Z := fold_left next_offset l off.

Fixpoint lines_text (l : list NewRef) (off : Z) : jstr :=
  match l with [] => [] | r :: l => line_text r off ++ lines_text l (next_offset off r) end.
Definition run_header (run : list NewRef) : jstr :=
  int_text (run_first run) ++ js " " ++ int_text (len run) ++ [0x0a].
Fixpoint runs_text (rl : list (list NewRef)) (off : Z) : jstr :=
  match rl with
  | [] => []
  | run :: rl => run_header run ++ lines_text run off ++ runs_text rl (offset_after run off)
  end.

Definition pushed (w : WriterState) (text : jstr) : WriterState :=
  mkWriter (w_buffer w ++ text) (w_transform w) (w_draws w).

Lemma pushed_pushed w a b : pushed (pushed w a) b = pushed w (a ++ b).
Proof. unfold pushed. cbn. by rewrite app_assoc. Qed.

Lemma table_lines_line r rest idx off w :
  table_lines (r :: rest) idx off w =
  let '(text, idx) := match idx with
    | num :: count :: idx' =>
        if nr_num r =? num then (int_text num ++ js " " ++ int_text count ++ [0x0a], idx') else ([], idx)
    | _ => ([], idx)
    end in
  table_lines rest idx (next_offset off r) (pushed w (text ++ line_text r off)).
Proof.
  cbn [table_lines]. unfold next_offset, line_text.
  assert (Hgo : forall text (k : M WriterState Z),
    (push text ;;; (push (line_text r off) ;;; k)) w = k (pushed w (text ++ line_text r off))).
  { intros text k. unfold push. m_red. cbn. by rewrite <- app_assoc. }
  unfold line_text in Hgo. unfold mbind at 1, mret at 1.
  destruct idx as [|num [|count idx']]; cbv iota beta; [..|destruct (nr_num r =? num)];
    destruct (nr_data r) as [data|]; cbn [default from_option id] in *;
    rewrite Hgo; rewrite ?len_nil, ?Z.add_0_r; done.
Qed.

Lemma table_lines_run run rest idx off w :
  match idx with num :: _ => num ∉ map nr_num run | [] => True end ->
  table_lines (run ++ rest) idx off w =
  table_lines rest idx (offset_after run off) (pushed w (lines_text run off)).
Proof.
  revert off w. induction run as [|r run IH]; intros off w Hidx.
  - cbn. unfold pushed. rewrite app_nil_r. by destruct w.
  - cbn [app offset_after fold_left lines_text]. rewrite table_lines_line.
    assert (Hi : match idx with num :: _ => nr_num r <> num /\ num ∉ map nr_num run | [] => True end).
    { destruct idx; [done|]. cbn [map] in Hidx. rewrite not_elem_of_cons in Hidx. intuition. }
    assert (Hh : forall A (x y z : A), match idx with
        | num :: _ :: _ => if nr_num r =? num then x else y | _ => y end = y).
    { intros A x y z. destruct idx as [|num [|? ?]]; [done..|]. destruct Hi as [Hi _].
      by rewrite (proj2 (Z.eqb_neq _ _) Hi). }
    destruct idx as [|num [|count idx']]; [| |rewrite (proj2 (Z.eqb_neq _ _) (proj1 Hi))];
      rewrite IH by first [done | apply Hi]; by rewrite pushed_pushed.
Qed.

Lemma table_lines_runs rl off w :
  Forall (fun run => run <> []) rl -> NoDup (map nr_num (concat rl)) ->
  table_lines (concat rl) (flat_map run_index rl) off w =
  (Ok (offset_after (concat rl) off), pushed w (runs_text rl off)).
Proof.
  revert off w. induction rl as [|run rl IH]; intros off w Hne Hnd.
  { cbn. unfold pushed. rewrite app_nil_r. by destruct w. }
  apply Forall_cons in Hne as [Hrun Hne]. destruct run as [|r run]; [done|].
  change (concat ((r :: run) :: rl)) with ((r :: run) ++ concat rl) in *.
  rewrite map_app in Hnd. apply NoDup_app in Hnd as (_ & Hd & Hnd). cbn [flat_map app run_index].
  rewrite table_lines_line. unfold run_first at 1. cbn [head fmap option_fmap option_map default from_option id].
  rewrite Z.eqb_refl. cbv iota.
  rewrite table_lines_run.
  - unfold offset_after. cbn [app fold_left]. rewrite fold_left_app. rewrite IH by done.
    rewrite !pushed_pushed. cbn [runs_text lines_text]. unfold run_header, offset_after, run_first.
    cbn [head fmap option_fmap option_map default from_option id fold_left].
    do 2 f_equal. by rewrite <- !app_assoc.
  - destruct rl as [|run2 rl]; [done|]. cbn [flat_map run_index app]. intros Hin.
    apply (Hd (run_first run2)); [cbn; by right|]. apply Forall_cons in Hne as [Hr2 _].
    destruct run2 as [|r2 run2]; [done|]. cbn. by left.
Qed.

(** ** The tokens of a table *)

Definition line_tokens (r : NewRef) (off : Z) : list obj :=
  match nr_data r with
  | Some _ => [OInt off; OInt (Z.min (nr_gen r) 0xffff); OCmd (js "n")]
  | None => [OInt 0; OInt (Z.min (nr_gen r + 1) 0xffff); OCmd (js "f")]
  end.
Fixpoint lines_tokens (l : list NewRef) (off : Z) : list obj :=
  match l with [] => [] | r :: l => line_tokens r off ++ lines_tokens l (next_offset off r) end.
Fixpoint runs_tokens (rl : list (list NewRef)) (off : Z) : list obj :=
  match rl with
  | [] => []
  | run :: rl =>
      OInt (run_first run) :: OInt (len run) :: lines_tokens run off ++ runs_tokens rl (offset_after run off)
  end.

(** Consecutive numbers from [first] on. *)
Definition consecutive (first : Z) (l : list NewRef) : Prop :=
  forall k r, l !! k = Some r -> nr_num r = first + Z.of_nat k.

Lemma runs_consecutive l : Forall (fun run => run <> [] /\ consecutive (run_first run) run) (runs l).
Proof.
  induction l as [|r l IH]; [constructor|]. cbn [runs].
  assert (Hone : [r] <> [] /\ consecutive (run_first [r]) [r]).
  { split; [done|]. intros [|k] r' Hk; [injection Hk as <-; cbn; lia|done]. }
  destruct (runs l) as [|[|r' run] rest]; [by constructor|by constructor|].
  apply Forall_cons in IH as [[_ Hc] IH].
  destruct (Z.eqb_spec (nr_num r') (nr_num r + 1)) as [E|E]; [|by constructor; [|constructor]].
  constructor; [|done]. split; [done|]. intros [|k] r2 Hk; [injection Hk as <-; cbn; lia|].
  specialize (Hc k r2 Hk). cbn in Hc |- *. lia.
Qed.

(** Digits, with zeros in front or not. *)
Lemma lexes_digits d r : Forall (fun c => is_digit c = true) d -> d <> [] -> parse_dec d < 2 ^ 53 -> ends_number r ->
  lexes (S := Stream) None d (OInt (parse_dec d)) r.
Proof.
  intros Hd Hne Hlt Hr. destruct d as [|c d]; [done|].
  pose proof Hd as Hd'. apply Forall_cons in Hd' as [Hc _].
  apply (lexes_signed None (NInt (parse_dec (c :: d))) false c d r []); [done| |done].
  intros fuel Hf. rewrite <- (Z.mul_1_l (parse_dec (c :: d))). apply reads_digits; [by left|done|done|done|].
  cbn [length] in *. rewrite length_app in Hf. lia.
Qed.

Lemma int_text_dec n : 0 <= n -> int_text n = dec n.
Proof. intros Hn. unfold int_text. rewrite (proj2 (Z.ltb_ge _ _)), Z.abs_eq by done. done. Qed.

Lemma padStart_dec w n : 0 <= n ->
  Forall (fun c => is_digit c = true) (padStart w (int_text n)) /\ padStart w (int_text n) <> [] /\
  parse_dec (padStart w (int_text n)) = n.
Proof.
  intros Hn. rewrite int_text_dec by done. destruct (dec_spec n Hn) as (Hd & Hp & _ & Hne).
  unfold padStart. split_and!.
  - apply Forall_app. split; [|done]. by apply Forall_replicate.
  - by destruct (dec n), (replicate _ _).
  - unfold parse_dec in *. rewrite fold_left_app.
    replace (fold_left _ (replicate _ _) 0) with 0; [done|]. generalize (Z.to_nat (w - len (dec n))).
    by intros k; induction k.
Qed.

Lemma lexes_padded w n r : 0 <= n < 2 ^ 53 -> ends_number r ->
  lexes (S := Stream) None (padStart w (int_text n)) (OInt n) r.
Proof.
  intros Hn Hr. destruct (padStart_dec w n ltac:(lia)) as (Hd & Hne & Hp). rewrite <- Hp at 2. apply lexes_digits; [done|done|lia|done].
Qed.

Lemma spells_number n c r ts : 0 <= n < 2 ^ 53 -> special c = 1 -> spells None r ts ->
  spells None (int_text n ++ c :: r) (OInt n :: ts).
Proof.
  intros Hn Hc Hr. rewrite int_text_dec by lia.
  apply spells_cons; [apply lexes_nat; [done|by apply ends_word_number, ends_blank]|by apply spells_blank].
Qed.

Lemma spells_padded w n c r ts : 0 <= n < 2 ^ 53 -> special c = 1 -> spells None r ts ->
  spells None (padStart w (int_text n) ++ c :: r) (OInt n :: ts).
Proof.
  intros Hn Hc Hr.
  apply spells_cons; [apply lexes_padded; [done|by apply ends_word_number, ends_blank]|by apply spells_blank].
Qed.

Lemma spells_command cmd c r ts :
  plain_word cmd = true -> word_obj cmd = OCmd cmd -> special c = 1 -> spells None r ts ->
  spells None (cmd ++ c :: r) (OCmd cmd :: ts).
Proof.
  intros Hp Hw Hc Hr. rewrite <- Hw. apply spells_cons; [|by apply spells_blank].
  by apply lexes_word; [apply no_commands|done|apply ends_blank].
Qed.

Lemma spells_entry off gen kw r ts :
  0 <= off < 2 ^ 53 -> 0 <= gen < 2 ^ 53 -> plain_word (js kw) = true -> word_obj (js kw) = OCmd (js kw) -> spells None r ts ->
  spells None (entry_text off gen kw ++ r) (OInt off :: OInt gen :: OCmd (js kw) :: ts).
Proof.
  intros Ho Hg Hp Hw Hr. unfold entry_text. rewrite <- !app_assoc.
  apply (spells_padded 10 off 0x20); [done|done|]. apply (spells_padded 5 gen 0x20); [done|done|].
  apply (spells_command _ 0x0d); [done|done|done|]. by apply spells_blank.
Qed.

(** References whose numbers are the indices of an array. *)
Definition refs_ok (l : list NewRef) : Prop := Forall (fun r => 0 <= nr_num r < 2 ^ 32 /\ 0 <= nr_gen r) l.

Lemma consecutive_length l : refs_ok l -> consecutive (run_first l) l -> len l <= 2 ^ 32.
Proof.
  intros Hl Hc. destruct (decide (l = [])) as [->|Hne]; [done|].
  assert (Hpos : (0 < length l)%nat) by (destruct l; [done|cbn; lia]).
  destruct (lookup_lt_is_Some_2 l (length l - 1)) as [r Hr]; [lia|].
  pose proof (Hc _ _ Hr) as En. pose proof (proj1 (Forall_forall _ _) Hl r ltac:(by eapply list_elem_of_lookup_2)) as [Hn _].
  assert (0 <= run_first l).
  { destruct l as [|x l]; [done|]. apply Forall_cons in Hl as [[Hx _] _]. cbn. lia. }
  unfold len. lia.
Qed.

Lemma next_offset_le off r : off <= next_offset off r.
Proof. unfold next_offset. pose proof (len_nonneg (default [] (nr_data r))). lia. Qed.

Lemma offset_after_le l off : off <= offset_after l off.
Proof.
  revert off. induction l as [|x l IH]; intros off; [done|]. unfold offset_after in *. cbn [fold_left].
  pose proof (next_offset_le off x). specialize (IH (next_offset off x)). lia.
Qed.

Lemma spells_lines l off r ts : refs_ok l -> 0 <= off -> offset_after l off < 2 ^ 53 -> spells None r ts ->
  spells None (lines_text l off ++ r) (lines_tokens l off ++ ts).
Proof.
  intros Hl. revert off. induction Hl as [|x l [_ Hg] _ IH]; intros off Ho Ha Hr; [done|].
  cbn [lines_text lines_tokens]. rewrite <- !app_assoc. pose proof (next_offset_le off x).
  change (offset_after (x :: l) off) with (offset_after l (next_offset off x)) in Ha.
  pose proof (offset_after_le l (next_offset off x)).
  unfold line_text, line_tokens. destruct (nr_data x); apply spells_entry; try done; try lia; apply IH; done || lia.
Qed.

Lemma spells_runs rl off r ts :
  Forall (fun run => run <> [] /\ consecutive (run_first run) run) rl -> refs_ok (concat rl) -> 0 <= off ->
  offset_after (concat rl) off < 2 ^ 53 -> spells None r ts ->
  spells None (runs_text rl off ++ r) (runs_tokens rl off ++ ts).
Proof.
  intros Hne. revert off. induction Hne as [|run rl [Hrun Hc] _ IH]; intros off Hl Ho Ha Hr; [done|].
  cbn [concat] in Hl, Ha. apply Forall_app in Hl as [Hl1 Hl2]. unfold offset_after in Ha. rewrite fold_left_app in Ha.
  fold (offset_after run off) in Ha. fold (offset_after (concat rl) (offset_after run off)) in Ha.
  pose proof (offset_after_le (concat rl) (offset_after run off)). pose proof (consecutive_length run Hl1 Hc).
  cbn [runs_text runs_tokens]. unfold run_header. rewrite <- !app_assoc. cbn [app].
  apply (spells_number _ 0x20); [|done|].
  { destruct run as [|x run]; [done|]. apply Forall_cons in Hl1 as [[Hx _] _]. cbn. lia. }
  apply (spells_number _ 0x0a); [pose proof (len_nonneg run); lia|done|].
  rewrite <- app_assoc. apply spells_lines; [done|done|lia|].
  pose proof (offset_after_le run off). apply IH; [done|lia|done|done].
Qed.

Lemma int_text_bytes n : 0 <= n -> Forall is_byte (int_text n).
Proof. intros Hn. rewrite int_text_dec by done. by apply dec_bytes. Qed.

Lemma padded_bytes w n : 0 <= n -> Forall is_byte (padStart w (int_text n)).
Proof. intros Hn. by apply digit_bytes, padStart_dec. Qed.

#[local] Opaque padStart int_text.

Lemma lines_bytes l off : refs_ok l -> 0 <= off -> Forall is_byte (lines_text l off).
Proof.
  intros Hl. revert off. induction Hl as [|x l [_ Hg] _ IH]; intros off Ho; [constructor|].
  cbn [lines_text]. pose proof (next_offset_le off x). apply Forall_app. split; [|apply IH; lia].
  unfold line_text, entry_text. destruct (nr_data x);
    repeat (apply Forall_app; split); first [apply padded_bytes; lia | apply literal_bytes
      | repeat (constructor; [unfold is_byte; lia|]); constructor].
Qed.

Lemma runs_bytes rl off : Forall (fun run => run <> []) rl -> refs_ok (concat rl) -> 0 <= off ->
  Forall is_byte (runs_text rl off).
Proof.
  intros Hne. revert off. induction Hne as [|run rl Hrun _ IH]; intros off Hl Ho; [constructor|].
  cbn [concat] in Hl. apply Forall_app in Hl as [Hl1 Hl2]. cbn [runs_text]. unfold run_header.
  pose proof (offset_after_le run off).
  repeat (apply Forall_app; split); try apply literal_bytes.
  - apply int_text_bytes. destruct run as [|x run]; [done|]. apply Forall_cons in Hl1 as [[Hx _] _]. cbn. lia.
  - apply int_text_bytes, len_nonneg.
  - repeat (constructor; [unfold is_byte; lia|]); constructor.
  - by apply lines_bytes.
  - apply IH; [done|lia].
Qed.

(** ** Reading the table *)

(** The entry of a line. *)
Definition line_entry (r : NewRef) (off : Z) : XRefEntry :=
  match nr_data r with
  | Some _ => mkEntry off (Z.min (nr_gen r) 0xffff) false true
  | None => mkEntry 0 (Z.min (nr_gen r + 1) 0xffff) true false
  end.
(** The entries of a list of changed objects, the first of a number wins. *)
Fixpoint add_lines (l : list NewRef) (off : Z) (x : XRef) : XRef :=
  match l with
  | [] => x
  | r :: l => add_lines l (next_offset off r) (add_entry (nr_num r) (line_entry r off) x)
  end.

Section Read.
Context (fetch : Z -> Z -> bool -> res value) (fuel : nat).

(** The reader is at the tokens [ts], with the table [x] but for where it is
    in it. *)
Definition reader_at (r : Reader) (ts : list obj) (x : XRef) (e : Z) (f c : value) : Prop :=
  p_at None None (r_parser r) ts /\ set_tableState None (r_xref r) = x /\
  exists t, tableState (r_xref r) = Some t /\ t_entryNum t = e /\ firstEntryNum t = f /\ entryCount t = c.

Definition reads_table {A} (m : M Reader A) ts x e f c (a : A) ts' x' e' f' c' : Prop :=
  forall r, reader_at r ts x e f c -> exists r', m r = (Ok a, r') /\ reader_at r' ts' x' e' f' c'.

Lemma reads_table_bind {A B} (m : M Reader A) (k : A -> M Reader B) ts x e f c a ts1 x1 e1 f1 c1 b ts2 x2 e2 f2 c2 :
  reads_table m ts x e f c a ts1 x1 e1 f1 c1 -> reads_table (k a) ts1 x1 e1 f1 c1 b ts2 x2 e2 f2 c2 ->
  reads_table (mbind m k) ts x e f c b ts2 x2 e2 f2 c2.
Proof.
  intros Hm Hk r Hr. destruct (Hm r Hr) as (r' & E & Hr'). unfold mbind. rewrite E. by apply Hk.
Qed.

Lemma reads_table_ret {A} (a : A) ts x e f c : reads_table (mret a) ts x e f c a ts x e f c.
Proof. intros r Hr. by exists r. Qed.

Lemma reads_parser {A} (m : P A) ts (a : A) ts' x e f c :
  drives None None m ts a ts' -> reads_table (on_parser m) ts x e f c a ts' x e f c.
Proof.
  intros Hm r (Hp & Hx & Ht). destruct (Hm _ Hp) as (p' & E & Hp').
  unfold on_parser, zoom. rewrite E. eexists. split; [done|]. by split_and!.
Qed.

Lemma reads_int n ts x e f c : quiet ts -> (0 < fuel)%nat ->
  reads_table (parser_getObj fetch fuel) (OInt n :: ts) x e f c (OInt n) ts x e f c.
Proof.
  intros Hq Hf. apply reads_parser. intros p Hp.
  by apply (drives_getObj None true fetch _ true false None fuel (OInt n) ts eq_refl Hq ltac:(simpl; lia)).
Qed.

Lemma reads_cmd cmd ts x e f c : quiet ts -> (0 < fuel)%nat -> cmd ∉ [js "BI"; js "["; js "<<"] ->
  reads_table (parser_getObj fetch fuel) (OCmd cmd :: ts) x e f c (OCmd cmd) ts x e f c.
Proof.
  intros Hq Hf Hc. apply reads_parser. intros p Hp. destruct fuel as [|n]; [lia|].
  by apply (drives_command None true fetch _ true false None n cmd ts Hq Hc).
Qed.

Lemma reads_mark i ts x e f c : reads_table (mark_table i) ts x e f c tt ts x i f c.
Proof.
  intros r (Hp & Hx & t & Et & He & Hf & Hc). unfold mark_table, get_table, set_table, on_xref. m_red. rewrite Et.
  eexists. split; [reflexivity|]. split_and!; [done|by subst x|].
  eexists. cbn. by split_and!.
Qed.
Lemma reads_add n v ts x e f c :
  reads_table (on_xref (modify (add_entry n v))) ts x e f c tt ts (add_entry n v x) e f c.
Proof.
  intros r (Hp & Hx & t & Et & He & Hf & Hc). unfold on_xref. m_red. eexists. split; [reflexivity|]. split_and!; [done| |].
  - subst x. unfold add_entry. cbn. by destruct (entries (r_xref r) !! n).
  - exists t. unfold add_entry. cbn. by destruct (entries (r_xref r) !! n).
Qed.

Lemma is_int_OInt n : is_int (OInt n) = Some n.
Proof. done. Qed.

Lemma int_of_OInt n : int_of (Some (OInt n)) = Some n.
Proof. apply is_int_OInt. Qed.

Lemma quiet_line r off ts : quiet ts -> quiet (line_tokens r off ++ ts).
Proof. intros Hq. unfold line_tokens. destruct (nr_data r); cbn [app]; by repeat apply quiet_cons. Qed.

Lemma quiet_lines l off ts : quiet ts -> quiet (lines_tokens l off ++ ts).
Proof.
  intros Hq. revert off. induction l as [|r l IH]; intros off; [done|]. cbn [lines_tokens].
  rewrite <- app_assoc. apply quiet_line, IH.
Qed.

Lemma quiet_runs rl off ts : quiet ts -> quiet (runs_tokens rl off ++ ts).
Proof.
  intros Hq. revert off. induction rl as [|run rl IH]; intros off; [done|]. cbn [runs_tokens app].
  repeat apply quiet_cons; [done..|]. rewrite <- app_assoc. apply quiet_lines, IH.
Qed.

Lemma reads_line r off ts x e f c : quiet ts -> (0 < fuel)%nat ->
  reads_table (read_entry fetch fuel) (line_tokens r off ++ ts) x e f c (line_entry r off) ts x e f c.
Proof.
  intros Hq Hf. unfold read_entry, line_tokens, line_entry. destruct (nr_data r); cbn [app];
    (eapply reads_table_bind; [apply reads_int; [by repeat apply quiet_cons|done]|];
     eapply reads_table_bind; [apply reads_int; [by repeat apply quiet_cons|done]|];
     eapply reads_table_bind; [apply reads_cmd; [done|done|]|];
     [rewrite !not_elem_of_cons; split_and!; [done..|apply not_elem_of_nil]
     |rewrite !is_int_OInt; apply reads_table_ret]).
Qed.

(** The reader takes the first entry of a subsection that starts at 1 for the
    one of object 0 when it is free. *)
Definition not_taken_for_0 (first : Z) (l : list NewRef) : Prop :=
  first = 1 -> forall r, head l = Some r -> nr_data r <> None.

(** The last entry number marked. *)
Definition marked (e i : Z) (l : list NewRef) : Z := match l with [] => e | _ => i + len l - 1 end.

Lemma reads_entries l i first off ts x e f c : quiet ts -> (0 < fuel)%nat -> 0 <= i ->
  consecutive (first + i) l -> (i = 0 -> not_taken_for_0 first l) ->
  reads_table (read_entries fetch fuel (length l) i first) (lines_tokens l off ++ ts) x e f c tt ts
    (add_lines l off x) (marked e i l) f c.
Proof.
  intros Hq Hf. revert i off x e. induction l as [|r l IH]; intros i off x e Hi Hc H0; [apply reads_table_ret|].
  cbn [length read_entries lines_tokens add_lines]. rewrite <- app_assoc.
  eapply reads_table_bind; [apply reads_mark|].
  eapply reads_table_bind; [apply reads_line; [by apply quiet_lines|done]|].
  replace (if (i =? 0) && e_free (line_entry r off) && (first =? 1) then 0 else first) with first.
  - eapply reads_table_bind; [apply reads_add|].
    rewrite (Hc 0%nat r eq_refl), Z.add_0_r. replace (marked e i (r :: l)) with (marked i (i + 1) l)
      by (unfold marked; rewrite len_cons; destruct l; [rewrite len_nil|rewrite len_cons]; lia).
    apply IH; [lia| |lia].
    intros k r' Hk. rewrite (Hc (S k) r' Hk). lia.
  - destruct (Z.eqb_spec i 0) as [Hi0|]; [|done]. destruct (Z.eqb_spec first 1) as [Hf1|]; [|by rewrite andb_false_r].
    specialize (H0 Hi0 Hf1 r eq_refl). unfold line_entry. by destruct (nr_data r).
Qed.

Lemma reads_subsection_header obj ts x e f c c0 :
  isCmd (Some obj) (js "trailer") = false ->
  reads_table (parser_getObj fetch fuel) (obj :: c0 :: ts) x e None None obj (c0 :: ts) x e None None ->
  reads_table (parser_getObj fetch fuel) (c0 :: ts) x e (Some obj) None c0 ts x e (Some obj) None ->
  f = Some obj -> c = Some c0 ->
  reads_table (subsection_header fetch fuel) (obj :: c0 :: ts) x e None None None ts x e f c.
Proof.
  intros Hobj H1 H2 -> -> r Hr. pose proof Hr as (_ & _ & t & Et & He & Hf & Hc).
  unfold subsection_header. unfold mbind at 1, get_table at 1. rewrite Et, Hf. unfold mbind at 1.
  destruct (H1 r Hr) as (r1 & -> & Hr1). rewrite Hobj. unfold mbind at 1.
  destruct Hr1 as (Hp1 & Hx1 & t1 & Et1 & He1 & Hf1 & Hc1).
  set (r2 := set_xref (set_tableState (Some (set_firstEntryNum (Some obj) t)) (r_xref r1)) r1).
  change (set_table (set_firstEntryNum (Some obj) t) r1) with (Ok tt, r2) at 1. cbv iota beta.
  destruct (H2 r2) as (r3 & E3 & Hp3 & Hx3 & _).
  { split_and!; [done|by rewrite <- Hx1|]. by eexists. }
  unfold mbind at 1. rewrite E3. unfold set_table, on_xref. m_red. eexists. split; [reflexivity|].
  split_and!; [done|by rewrite <- Hx3|]. eexists. by split_and!.
Qed.
Definition run_ok (run : list NewRef) : Prop :=
  run <> [] /\ consecutive (run_first run) run /\ not_taken_for_0 (run_first run) run.

Lemma add_lines_app l l' off x : add_lines (l ++ l') off x = add_lines l' (offset_after l off) (add_lines l off x).
Proof. revert off x. induction l as [|r l IH]; intros off x; [done|]. apply IH. Qed.

Lemma reads_header run off ts x e : quiet ts -> (0 < fuel)%nat ->
  reads_table (subsection_header fetch fuel) (OInt (run_first run) :: OInt (len run) :: lines_tokens run off ++ ts)
    x e None None None (lines_tokens run off ++ ts) x e (Some (OInt (run_first run))) (Some (OInt (len run))).
Proof.
  intros Hq Hf. apply reads_subsection_header; [done| | |done|done]; apply reads_int;
    [by apply quiet_cons, quiet_lines|done|by apply quiet_lines|done].
Qed.

Lemma reads_next_subsection ts x e f c :
  reads_table (t <- get_table ;; set_table (set_entryCount None (set_firstEntryNum None t))) ts x e f c
    tt ts x e None None.
Proof.
  intros r (Hp & Hx & t & Et & He & Hf & Hc). unfold get_table, set_table, on_xref. m_red. rewrite Et.
  eexists. split; [reflexivity|]. split_and!; [done|by subst x|]. eexists. by cbn.
Qed.

Lemma reads_runs rl off ts x turns : quiet ts -> (0 < fuel)%nat -> Forall run_ok rl -> (length rl < turns)%nat ->
  reads_table (subsections fetch fuel turns) (runs_tokens rl off ++ OCmd (js "trailer") :: ts) x 0 None None
    (OCmd (js "trailer")) ts (add_lines (concat rl) off x) 0 None None.
Proof.
  intros Hq Hf Hrl. revert off x turns.
  induction Hrl as [|run rl (Hne & Hc & H0) _ IH]; intros off x turns Ht; (destruct turns as [|turns]; [simpl in Ht; lia|]);
    cbn [subsections runs_tokens app].
  - apply reads_table_bind with (Some (OCmd (js "trailer"))) ts x 0 None None; [|apply reads_table_ret].
    intros r Hr. pose proof Hr as (_ & _ & t & Et & He & Hfi & Hco).
    unfold subsection_header. unfold mbind at 1, get_table at 1. rewrite Et, Hfi. unfold mbind at 1.
    destruct (reads_cmd (js "trailer") ts x 0 None None Hq Hf) with (r := r) as (r1 & -> & Hr1); [|done|].
    { rewrite !not_elem_of_cons. by split_and!; [..|apply not_elem_of_nil]. }
    by exists r1.
  - assert (Hq' : quiet (runs_tokens rl (offset_after run off) ++ OCmd (js "trailer") :: ts))
      by (by apply quiet_runs, quiet_cons).
    rewrite <- app_assoc. eapply reads_table_bind; [by apply reads_header|]. cbv iota.
    intros r Hr. pose proof Hr as (_ & _ & t & Et & He & Hfi & Hco).
    unfold mbind at 1, get_table at 1. rewrite Et, Hfi, Hco, He. rewrite !int_of_OInt. clear Et He Hfi Hco. revert r Hr.
    replace (Z.to_nat (len run - 0)) with (length run) by (unfold len; lia).
    eapply reads_table_bind; [apply reads_entries; [done|done|lia|by rewrite Z.add_0_r|done]|].
    eapply reads_table_bind; [apply reads_mark|].
    intros r Hr. destruct (reads_next_subsection _ _ _ _ _ r Hr) as (r1 & E1 & Hr1).
    unfold mbind in E1 |- *. destruct (get_table r) as [[t1| |] r0]; try done. rewrite E1.
    change (concat (run :: rl)) with (run ++ concat rl). rewrite add_lines_app.
    apply IH; [simpl in Ht; lia|done].
Qed.
(** ** A section *)

Lemma reads_readXRefTable rl off ts x : quiet ts -> Forall run_ok rl -> (length rl < fuel)%nat ->
  tableState x = None ->
  match entries (add_lines (concat rl) off x) !! 0 with Some v => e_free v = true | None => True end ->
  forall p, p_at None None p (runs_tokens rl off ++ OCmd (js "trailer") :: ts) ->
  exists r', readXRefTable fetch fuel
      (mkReader (set_tableState (Some (mkTable 0 (s_pos (stream_of p)) (buf1 p) (buf2 p) None None)) x) p)
      = (Ok (OCmd (js "trailer")), r') /\
    reader_at r' ts (add_lines (concat rl) off x) 0 None None.
Proof.
  intros Hq Hrl Hf Hx H0 p Hp. unfold readXRefTable. unfold mbind at 1, get_table at 1. cbn [r_xref tableState set_tableState].
  do 3 (unfold mbind at 1, on_parser at 1, zoom at 1).
  unfold set_stream_pos, Parser.on_stream, on_lexer, on_lx, zoom, modify.
  cbn [r_parser set_parser t_streamPos t_parserBuf1 t_parserBuf2 p_lexer lx_stream].
  unfold set_parser. cbn [r_xref r_parser].
  match goal with |- context [mkReader _ ?q] => replace q with p end; [|by destruct p as [[[] ? ?] ? ? ? ? ?]].
  destruct (reads_runs rl off ts x fuel Hq ltac:(lia) Hrl Hf) with
    (r := mkReader (set_tableState (Some (mkTable 0 (s_pos (stream_of p)) (buf1 p) (buf2 p) None None)) x) p)
    as (r' & E & Hr').
  { split_and!; [done| |by eexists]. cbn. rewrite <- Hx. by destruct x. }
  unfold mbind. rewrite E. unfold gets. exists r'. split; [|done].
  assert (He : entries (r_xref r') = entries (add_lines (concat rl) off x)) by (destruct Hr' as (_ & <- & _); done).
  rewrite He. destruct (entries (add_lines (concat rl) off x) !! 0) as [v|]; [by rewrite H0|done].
Qed.
(** The table, then its trailer. *)
Lemma reads_processXRefTable rl off o d ts x : quiet ts -> Forall run_ok rl ->
  (length rl + length (tokens o) < fuel)%nat -> tableState x = None ->
  readable true o = true -> map_strings (plain None) o = ODict d ->
  match entries (add_lines (concat rl) off x) !! 0 with Some v => e_free v = true | None => True end ->
  forall p, p_at None None p (runs_tokens rl off ++ OCmd (js "trailer") :: tokens o ++ ts) ->
  exists p', processXRefTable fetch fuel (mkReader x p) =
    (Ok d, mkReader (add_lines (concat rl) off x) p').
Proof.
  intros Hq Hrl Hf Hx Ho Hd H0 p Hp. unfold processXRefTable. unfold mbind at 1, get at 1. cbn [r_xref]. rewrite Hx.
  unfold mbind at 1, set_table at 1, on_xref at 1, zoom at 1, modify at 1. unfold set_xref. cbn [r_xref r_parser].
  destruct (reads_readXRefTable rl off (tokens o ++ ts) x) with (p := p) as (r1 & E1 & Hp1 & Hx1 & t1 & Et1 & _);
    [by apply (quiet_tokens true)|done|lia|done|done|done|].
  unfold mbind at 1. rewrite E1. change (negb (isCmd (Some (OCmd (js "trailer"))) (js "trailer"))) with false. cbv iota.
  destruct (drives_getObj None true fetch (fun s => header_of fetch fuel s (r_parser r1)) true false None fuel o ts Ho Hq ltac:(lia)
    (r_parser r1) Hp1) as (p2 & E2 & _).
  unfold mbind at 1, parser_getObj at 1, on_parser at 1, zoom at 1. rewrite E2, Hd.
  unfold on_xref, modify. m_red. exists p2. unfold set_xref, set_parser. cbn [r_xref r_parser]. by rewrite Hx1.
Qed.

(** What a section does to the table: its entries, its dictionary, its
    position, and the section before it. *)
Definition prev_section (d : Dict) (queue : list Z) : list Z :=
  match getRaw d (js "Prev") with Some (ONum n) => match num_int n with Some p => queue ++ [p] | None => queue end | _ => queue end.

Definition with_section (start : Z) (d : Dict) (x : XRef) : XRef :=
  let x := keep_topDict d x in
  let x := set_sectionOffsets ({[start]} ∪ xrefSectionOffsets x) x in
  set_queue (prev_section d (startXRefQueue x)) x.

(** A dictionary without [XRefStm], whose [Prev] is no reference. *)
Definition plain_trailer (d : Dict) : Prop :=
  getRaw d (js "XRefStm") = None /\
  match getRaw d (js "Prev") with Some (ORef _ _) => False | _ => True end.

Lemma prev_step start d x p : plain_trailer d ->
  (on_xref (modify (fun x => set_sectionOffsets ({[start]} ∪ xrefSectionOffsets x) x)) ;;;
   obj <- dget fetch d "Prev" ;;
   match obj with
   | Some (ORef num _) => on_xref (modify (push_queue num))
   | _ => match int_of obj with Some n => on_xref (modify (push_queue n)) | None => mret tt end
   end) (mkReader (keep_topDict d x) p) = (Ok tt, mkReader (with_section start d x) p).
Proof.
  intros [_ Hp]. unfold on_xref, dget, lift, dict_get, dict_get2. m_red. unfold set_xref, with_section, prev_section. cbn [r_xref r_parser].
  assert (Hres : resolve fetch d (getRaw d (js "Prev")) = Ok (getRaw d (js "Prev"))).
  { unfold resolve. by destruct (getRaw d (js "Prev")) as [[]|]. }
  destruct (getRaw d (js "Prev")) as [v|]; rewrite Hres; [|by destruct x].
  destruct v as [| |n| | | | | | | |]; try done; cbn [int_of is_int option_bind mbind base.mbind]; try by destruct x.
  destruct (num_int n); by destruct x.
Qed.

Lemma reads_section start rl off o d ts x : quiet ts -> Forall run_ok rl ->
  (length rl + length (tokens o) < fuel)%nat -> tableState x = None ->
  readable true o = true -> map_strings (plain None) o = ODict d -> plain_trailer d ->
  match entries (add_lines (concat rl) off x) !! 0 with Some v => e_free v = true | None => True end ->
  forall p, p_at None None p (OCmd (js "xref") :: runs_tokens rl off ++ OCmd (js "trailer") :: tokens o ++ ts) ->
  exists p', read_section fetch fuel start (mkReader x p) =
    (Ok tt, mkReader (with_section start d (add_lines (concat rl) off x)) p').
Proof.
  intros Hq Hrl Hf Hx Ho Hd Hpt H0 p Hp. unfold read_section.
  assert (Hq' : quiet (runs_tokens rl off ++ OCmd (js "trailer") :: tokens o ++ ts))
    by (apply quiet_runs, quiet_cons; [done|by apply (quiet_tokens true)]).
  destruct fuel as [|n] eqn:Hfu; [lia|]. rewrite <- Hfu in *.
  destruct (drives_command None true fetch (fun s => header_of fetch fuel s p) true false None n (js "xref") _ Hq'
    ltac:(rewrite !not_elem_of_cons; by split_and!; [..|apply not_elem_of_nil]) p Hp) as (p1 & E1 & Hp1).
  rewrite <- Hfu in E1. unfold mbind at 1, parser_getObj at 1, on_parser at 1, zoom at 1. cbn [r_parser]. rewrite E1.
  unfold set_parser. cbn [r_xref]. change (isCmd (Some (OCmd (js "xref"))) (js "xref")) with true. cbv iota.
  destruct (reads_processXRefTable rl off o d ts x Hq Hrl Hf Hx Ho Hd H0 p1 Hp1) as (p2 & E2).
  exists p2. rewrite <- (prev_step start d _ p2 Hpt). unfold mbind at 1 2 3 4. rewrite E2.
  unfold on_xref at 1, zoom at 1, modify at 1. unfold set_xref. cbn [r_xref r_parser].
  unfold hybrid_stream, dget at 1, lift, dict_get, dict_get2. rewrite (proj1 Hpt).
  unfold mbind, gets, mret. cbn [resolve int_of option_bind base.mbind]. done.
Qed.
End Read.

(** ** What older sections cannot change

    Entries are only added where there are none, and the first dictionary stays
    the top one: whatever [readXRef] does later, exceptions included, it keeps
    what a section gave. *)

Definition extends (x x' : XRef) : Prop :=
  (forall n e, entries x !! n = Some e -> entries x' !! n = Some e) /\
  (forall d, topDict x = Some d -> topDict x' = Some d).

#[global] Instance extends_preorder : PreOrder extends.
Proof. split; [by split|]. intros x y z [H1 H2] [H3 H4]. split; eauto. Qed.

Lemma extends_add n v x : extends x (add_entry n v x).
Proof.
  split; unfold add_entry; [intros m e Hm|intros d Hd]; destruct (entries x !! n) eqn:E; try done.
  cbn. rewrite lookup_insert_ne; [done|]. intros ->. congruence.
Qed.

Lemma extends_keep d x : extends x (keep_topDict d x).
Proof. unfold keep_topDict. split; [by destruct (topDict x)|]. intros d' E. by rewrite E. Qed.

(** A method whose effect on the table [view s] of its state is an extension,
    however it ends. *)
Definition keeps {S A} (view : S -> XRef) (m : M S A) : Prop := forall s, extends (view s) (view (m s).2).

Section Keeps.
Context {S : Type} (view : S -> XRef).

Lemma entries_bind {A B} (m : M S A) (k : A -> M S B) : keeps view m -> (forall a, keeps view (k a)) -> keeps view (mbind m k).
Proof.
  intros Hm Hk s. specialize (Hm s). unfold mbind. destruct (m s) as [[a| |] s']; try done. etrans; [exact Hm|apply Hk].
Qed.
Lemma keeps_pure {A} (m : M S A) : (forall s, (m s).2 = s) -> keeps view m.
Proof. intros Hm s. by rewrite Hm. Qed.
Lemma entries_modify f : (forall s, extends (view s) (view (f s))) -> keeps view (modify f).
Proof. intros Hf s. apply Hf. Qed.
Lemma keeps_lift {A} (r : res A) : keeps view (lift r).
Proof. apply keeps_pure. by destruct r. Qed.
Lemma keeps_zoom {T A} (proj : S -> T) upd (sub : T -> XRef) (m : M T A) :
  keeps sub m -> (forall s, sub (proj s) = view s) -> (forall t s, view (upd t s) = sub t) -> keeps view (zoom proj upd m).
Proof. intros Hm Hp Hu s. unfold zoom. specialize (Hm (proj s)). destruct (m (proj s)) as [r t]. cbn in *. by rewrite Hu, <- Hp. Qed.
(** A method of a part of the state that is no table. *)
Lemma keeps_zoom_other {T A} (proj : S -> T) upd (m : M T A) :
  (forall t s, view (upd t s) = view s) -> keeps view (zoom proj upd m).
Proof. intros Hu s. unfold zoom. destruct (m (proj s)) as [r t]. cbn. by rewrite Hu. Qed.
End Keeps.

Create HintDb entries.
#[export] Hint Resolve keeps_lift : entries.
#[export] Hint Extern 1 (keeps _ (mret _)) => by apply keeps_pure : entries.
#[export] Hint Extern 1 (keeps _ (throw _)) => by apply keeps_pure : entries.
#[export] Hint Extern 1 (keeps _ out_of_fuel) => by apply keeps_pure : entries.
#[export] Hint Extern 1 (keeps _ get) => by apply keeps_pure : entries.
#[export] Hint Extern 1 (keeps _ (gets _)) => by apply keeps_pure : entries.
(** Binds, case distinctions, and the lemmas of the methods. *)
Ltac keep := repeat first [ progress eauto 2 with entries nocore | apply entries_bind; [|intros ?] | case_match ].

Section ReadKeeps.
Context (fetch : Z -> Z -> bool -> res value) (fuel : nat).

Lemma keeps_on_parser {A} (m : P A) : keeps r_xref (on_parser m).
Proof. by apply keeps_zoom_other. Qed.
Lemma keeps_on_xref {A} (m : M XRef A) : keeps id m -> keeps r_xref (on_xref m).
Proof. intros Hm. by apply (keeps_zoom _ _ _ id). Qed.
Lemma keeps_parser_getObj : keeps r_xref (parser_getObj fetch fuel).
Proof. apply keeps_on_parser. Qed.
Lemma keeps_set_table t : keeps r_xref (set_table t).
Proof. apply keeps_on_xref, entries_modify. by intros []. Qed.
Lemma keeps_get_table : keeps r_xref get_table.
Proof. apply keeps_pure. intros r. unfold get_table. by destruct (tableState (r_xref r)). Qed.
Lemma keeps_dget d k : keeps r_xref (dget fetch d k).
Proof. apply keeps_lift. Qed.
#[local] Hint Resolve keeps_on_parser keeps_parser_getObj keeps_set_table keeps_get_table keeps_dget : entries.

Lemma keeps_add n v : keeps r_xref (on_xref (modify (add_entry n v))).
Proof. apply keeps_on_xref, entries_modify. intros x. apply extends_add. Qed.
Lemma keeps_top d : keeps r_xref (on_xref (modify (keep_topDict d))).
Proof. apply keeps_on_xref, entries_modify. intros x. apply extends_keep. Qed.
(** A step that touches neither entries nor top dictionary. *)
Lemma keeps_other f : (forall x, entries (f x) = entries x /\ topDict (f x) = topDict x) -> keeps r_xref (on_xref (modify f)).
Proof. intros Hf. apply keeps_on_xref, entries_modify. intros x. destruct (Hf x) as [H1 H2]. unfold extends, id. by rewrite H1, H2. Qed.
#[local] Hint Resolve keeps_add keeps_top : entries.
#[local] Hint Extern 2 (keeps r_xref (on_xref (modify _))) => by apply keeps_other : entries.

Lemma keeps_mark i : keeps r_xref (mark_table i).
Proof. unfold mark_table. keep. Qed.
Lemma keeps_read_entry : keeps r_xref (read_entry fetch fuel).
Proof. unfold read_entry. keep. Qed.
#[local] Hint Resolve keeps_mark keeps_read_entry : entries.
Lemma keeps_read_entries n i first : keeps r_xref (read_entries fetch fuel n i first).
Proof. revert i first. induction n as [|n IH]; intros i first; cbn [read_entries]; keep. Qed.
Lemma keeps_header : keeps r_xref (subsection_header fetch fuel).
Proof. unfold subsection_header. keep. Qed.
#[local] Hint Resolve keeps_read_entries keeps_header : entries.
Lemma keeps_subsections turns : keeps r_xref (subsections fetch fuel turns).
Proof. induction turns as [|turns IH]; cbn [subsections]; keep. Qed.
#[local] Hint Resolve keeps_subsections : entries.
Lemma keeps_table : keeps r_xref (processXRefTable fetch fuel).
Proof. unfold processXRefTable, readXRefTable. keep. Qed.
Lemma keeps_hybrid d : keeps r_xref (hybrid_stream fetch d).
Proof. unfold hybrid_stream. keep. Qed.
#[local] Hint Resolve keeps_table keeps_hybrid : entries.

Section Streams.
Context {S : Type} `{ByteSource S} `{Seekable S}.
Abbreviation table := (@fst XRef S).
Lemma keeps_on_src {A} (m : M S A) : keeps table (on_src m).
Proof. by apply keeps_zoom_other. Qed.
Lemma keeps_on_table f : (forall x, extends x (f x)) -> keeps table (on_table (modify f)).
Proof. intros Hf. apply (keeps_zoom _ _ _ id); [|done|done]. by apply entries_modify. Qed.
Lemma keeps_set_stream t : keeps table (set_stream t).
Proof. apply keeps_on_table. by intros []. Qed.
#[local] Hint Resolve keeps_on_src keeps_set_stream : entries.
#[local] Hint Extern 2 (keeps table (on_table (modify (add_entry _ _)))) => apply keeps_on_table, extends_add : entries.
#[local] Hint Extern 2 (keeps table (on_table (modify (set_streamState None)))) => apply keeps_on_table; by intros [] : entries.
Lemma keeps_field width acc name : keeps table (read_field width acc name).
Proof. revert acc. induction width as [|width IH]; intros acc; cbn [read_field]; keep. Qed.
#[local] Hint Resolve keeps_field : entries.
Lemma keeps_stream_entry w0 w1 w2 : keeps table (read_stream_entry w0 w1 w2).
Proof. unfold read_stream_entry. keep. Qed.
#[local] Hint Resolve keeps_stream_entry : entries.
Lemma keeps_stream_entries n i first w0 w1 w2 t : keeps table (read_stream_entries n i first w0 w1 w2 t).
Proof. revert i. induction n as [|n IH]; intros i; cbn [read_stream_entries]; keep. Qed.
#[local] Hint Resolve keeps_stream_entries : entries.
Lemma keeps_ranges turns l w0 w1 w2 t : keeps table (read_ranges turns l w0 w1 w2 t).
Proof. revert l t. induction turns as [|turns IH]; intros l t; destruct l; cbn [read_ranges]; keep. Qed.
#[local] Hint Resolve keeps_ranges : entries.
Lemma keeps_stream dict : keeps table (processXRefStream fetch dict).
Proof. unfold processXRefStream, readXRefStream. keep. Qed.
End Streams.

Lemma keeps_stream_section : keeps r_xref (stream_section fetch fuel).
Proof.
  unfold stream_section. keep. intros r. destruct (open _ _ _ _) as [source| |]; try done.
  pose proof (keeps_stream dict (r_xref r, src source)) as Hk. by destruct (processXRefStream fetch dict _) as [d0 [x s0]].
Qed.
#[local] Hint Resolve keeps_stream_section : entries.
Lemma keeps_read_section pos : keeps r_xref (read_section fetch fuel pos).
Proof. unfold read_section. keep. Qed.

Lemma keeps_section_at stream pos : keeps id (section_at fetch fuel stream pos).
Proof.
  intros x. unfold section_at. assert (Hinc : extends x (set_complete false x)) by (by destruct x).
  destruct (new_Lexer _) as [l| |]; try done. destruct (new_Parser None l None) as [p| |]; try done.
  pose proof (keeps_read_section pos (mkReader x p)) as Hk.
  destruct (read_section fetch fuel pos (mkReader x p)) as [[u| |] r]; try done.
Qed.

Lemma keeps_sections turns stream parsed : keeps id (sections fetch fuel turns stream parsed).
Proof.
  revert parsed. induction turns as [|turns IH]; intros parsed x; cbn [sections]; destruct (startXRefQueue x); try done.
  case_bool_decide; [exact (IH parsed (set_queue _ x))|].
  apply entries_bind; [apply keeps_section_at|intros _]. apply entries_bind; [by apply entries_modify|intros _; apply IH].
Qed.
End ReadKeeps.
