(* ===== verification/Reopen.v ===== *)
(** * An updated file is opened again

    What [incrementalUpdate] returns, opened as [PDFDocument] and [XRef] do:
    [startXRef] finds the section of the update, [readXRef] reads its entries,
    and these lead to the objects that were written, while the original data
    stays as it was. *)
From stdpp Require Import gmap.
From S2P Require Import Prelude JsBits ByteStream DecodeStream Ascii85 Predictor Primitives Crypto CryptoSpec CryptoLegacy.
From S2P Require Import Lexer LexerSpec Parser ParserSpec Writer Numerals WriterSpec Xref RoundTrip XrefTable Document Update UpdateSpec Md5.
Local Open Scope js_scope.

#[local] Opaque padStart int_text.

(** ** The objects of the update *)

Section Objects.
Context (fetch : Z -> Z -> bool -> res value) (random : nat -> list Z)
  (deflate : list Z -> option (list Z)) (file : list Z) (fuel : nat).
Context (encrypt : option (Z -> Z -> CipherTransform)) (encrypt_ref : option (Z * Z))
  (tr : option CipherClass).

(** A change of this theory: an object that can be written and read, whose
    number is an index of an array and 1 at least, or the deletion of another
    object than number 1. *)
Definition change_ok (c : (Z * Z) * Payload) : Prop :=
  0 <= c.1.2 /\ c.1.1 < 2 ^ 32 /\
  match c.2 with
  | Value v =>
      0 < c.1.1 /\ c.1.2 <= 0xffff /\ printable v = true /\ readable true v = true /\ (depth v <= fuel)%nat /\
      encrypt_ref <> Some c.1 /\ strings_by tr (transform_of encrypt c.1.1 c.1.2)
  | Deleted => 0 <= c.1.1 /\ c.1.1 <> 1
  | _ => False
  end.

(** What is known of an object that was written. *)
Record written_as (c : (Z * Z) * Payload) (r : NewRef) : Prop := {
  wa_num : nr_num r = c.1.1;
  wa_gen : nr_gen r = c.1.2;
  wa_data : match c.2, nr_data r with
    | Value v, Some text =>
        Forall is_byte text /\ exists o, readable true o = true /\ map_strings (plain tr) o = v /\
        forall suffix ts, spells None suffix ts ->
          spells None (text ++ suffix)
            (OInt (nr_num r) :: OInt (nr_gen r) :: OCmd (js "obj") :: tokens o ++ OCmd (js "endobj") :: ts)
    | Deleted, None => True
    | _, _ => False
    end
}.

Context (random_iv : forall n, length (random n) = 16%nat /\ Forall is_byte (random n)).

Lemma write_change_ok c w : change_ok c -> w_buffer w = [] ->
  exists r w', write_change fetch random deflate file fuel encrypt encrypt_ref c w = (Ok r, w') /\
    w_buffer w' = [] /\ written_as c r.
Proof.
  destruct c as [[num gen] p]. intros (Hg & Hi & Hc) Hw. unfold write_change. cbn [fst snd] in *.
  destruct p as [v| | |]; try done; cbn [fst snd] in *.
  - destruct Hc as (Hn & Hm & Hp & Hr & Hd & He & Ht).
    set (w0 := mkWriter (w_buffer w) (object_transform encrypt encrypt_ref num gen) (w_draws w)).
    assert (Ht0 : strings_by tr (w_transform w0)).
    { unfold w0, object_transform, transform_of in *. cbn [w_transform]. destruct encrypt; [|done].
      by rewrite bool_decide_eq_false_2. }
    destruct (written_object true fetch random deflate file tr random_iv fuel num gen v w0 ltac:(lia) ltac:(lia) Hp Hr Hd Ht0)
      as (w' & text & o & E & Hb & Hbytes & Ho & Hm' & Hsp).
    unfold mbind at 1, modify at 1. fold w0. unfold mbind at 1. rewrite E. m_red.
    eexists _, _. split; [reflexivity|]. split; [done|].
    assert (Hb' : w_buffer w' = text) by (rewrite Hb; unfold w0; cbn [w_buffer]; by rewrite Hw).
    rewrite Hb'. split; [done|done|]. cbn. split; [done|]. by exists o.
  - eexists _, _. split; [reflexivity|]. split; [done|]. by split.
Qed.

Lemma write_all_ok changes w : Forall change_ok changes -> w_buffer w = [] ->
  exists l w', write_all fetch random deflate file fuel encrypt encrypt_ref changes w = (Ok l, w') /\
    w_buffer w' = [] /\ Forall2 written_as changes l.
Proof.
  intros Hc. revert w. induction Hc as [|c changes Hc _ IH]; intros w Hw.
  - eexists _, _. split; [reflexivity|]. by split; [|constructor].
  - destruct (write_change_ok c w Hc Hw) as (r & w1 & E1 & Hw1 & Hr).
    destruct (IH w1 Hw1) as (l & w2 & E2 & Hw2 & Hl). exists (r :: l), w2. cbn [write_all]. unfold mbind at 1. rewrite E1.
    unfold mbind at 1. rewrite E2. split; [done|]. split; [done|]. by constructor.
Qed.
End Objects.

Lemma insert_ref_perm r l : insert_ref r l ≡ₚ r :: l.
Proof.
  induction l as [|r' l IH]; [done|]. cbn [insert_ref]. destruct (nr_num r <=? nr_num r'); [done|].
  rewrite IH. apply Permutation_swap.
Qed.

Lemma sort_refs_perm l : sort_refs l ≡ₚ l.
Proof. induction l as [|r l IH]; [done|]. unfold sort_refs in *. cbn [fold_right]. by rewrite insert_ref_perm, IH. Qed.

(** ** The layout of the file *)

Definition data_of (l : list NewRef) : jstr := concat (omap nr_data l).

Lemma data_of_app l l' : data_of (l ++ l') = data_of l ++ data_of l'.
Proof. unfold data_of. by rewrite omap_app, concat_app. Qed.

Lemma len_data l off : offset_after l off = off + len (data_of l).
Proof.
  revert off. induction l as [|r l IH]; intros off; [cbn; rewrite len_nil; lia|].
  change (offset_after (r :: l) off) with (offset_after l (next_offset off r)). rewrite IH.
  unfold next_offset, data_of. cbn [omap list_omap]. destruct (nr_data r); cbn [concat default from_option id];
    rewrite ?len_app, ?len_nil; lia.
Qed.

Lemma spells_prefix text o ts : spells None text (o :: ts) -> o <> OEOF -> spells None text [o].
Proof.
  intros Hs Ho. inversion Hs as [|b Hb|b t o' r ts' Hb Ht Hr]; subst; [done|].
  apply spells_token; [done|done|]. apply spells_start.
Qed.

(** Every element comes from a change. *)
Definition from_changes fuel encrypt encrypt_ref tr (changes : RefMap Payload) (l : list NewRef) : Prop :=
  Forall (fun r => exists c, c ∈ changes /\ change_ok fuel encrypt encrypt_ref tr c /\ written_as tr c r) l.

Lemma next_token fuel encrypt encrypt_ref tr changes l table cmd :
  from_changes fuel encrypt encrypt_ref tr changes l -> spells None table [OCmd cmd] -> stray (OCmd cmd) = false ->
  exists next, spells None (data_of l ++ table) [next] /\ stray next = false.
Proof.
  intros Hl Ht Hs. induction Hl as [|r l (c & _ & _ & [_ _ Hd]) _ IH]; [by exists (OCmd cmd)|].
  unfold data_of. cbn [omap list_omap]. destruct (nr_data r) as [text|]; [|done].
  cbn [concat]. exists (OInt (nr_num r)). split; [|done]. rewrite <- app_assoc.
  destruct c as [ref [v| | |]]; try done. cbn in Hd. destruct Hd as (_ & o & _ & _ & Hsp).
  apply (spells_prefix _ _ _ (Hsp (data_of l ++ table) [] (spells_start None _))). done.
Qed.

Lemma data_bytes fuel encrypt encrypt_ref tr changes l :
  from_changes fuel encrypt encrypt_ref tr changes l -> Forall is_byte (data_of l).
Proof.
  induction 1 as [|r l (c & _ & _ & [_ _ Hd]) _ IH]; [constructor|].
  unfold data_of. cbn [omap list_omap]. destruct (nr_data r) as [text|]; [|done]. cbn [concat].
  apply Forall_app. split; [|done]. destruct c as [ref [v| | |]]; try done. apply Hd.
Qed.

(** An object of the update is fetched from its place. *)
Lemma fetch_updated fetch header generationFallback encrypt encrypt_ref tr fuel fuel' changes front l1 r l2 table num gen v :
  from_changes fuel encrypt encrypt_ref tr changes (l1 ++ r :: l2) ->
  spells None table [OCmd (js "xref")] -> Forall is_byte front -> Forall is_byte table ->
  change_ok fuel encrypt encrypt_ref tr ((num, gen), Value v) -> written_as tr ((num, gen), Value v) r ->
  (length (tokens v) <= fuel')%nat ->
  fetchUncompressed fetch header generationFallback encrypt fuel'
    (new_Stream (front ++ data_of (l1 ++ r :: l2) ++ table) None None) num gen
    (mkEntry (offset_after l1 (len front)) gen false true) false = Ok v.
Proof.
  intros Hl Ht Hfront Htable (Hg & _ & Hn & _ & _ & _ & _ & _ & Hcipher) [Hnum Hgen Hd] Hf.
  apply Forall_app in Hl as [Hl1 Hl2]. apply Forall_cons in Hl2 as [Hr Hl2].
  destruct (next_token _ _ _ _ _ l2 table (js "xref") Hl2 Ht eq_refl) as (next & Hnext & Hstray).
  cbn in Hd. destruct (nr_data r) as [text|] eqn:Edata; [|done]. destruct Hd as (Hbytes & o & Ho & Hv & Hsp).
  assert (Hsplit : front ++ data_of (l1 ++ r :: l2) ++ table =
    (front ++ data_of l1) ++ (text ++ (data_of l2 ++ table))).
  { rewrite data_of_app. unfold data_of at 2. cbn [omap list_omap]. rewrite Edata. cbn [concat].
    fold (data_of l2). by rewrite <- !app_assoc. }
  rewrite Hsplit. replace (offset_after l1 (len front)) with (len (front ++ data_of l1))
    by (rewrite len_data, len_app; done).
  cbn in Hnum, Hgen. subst v num gen. rewrite tokens_map_strings in Hf.
  apply (fetch_spelled fetch header generationFallback encrypt tr fuel' _ _ o next); try done.
  - apply Forall_app. split; [done|]. by eapply data_bytes.
  - apply Forall_app. split; [done|]. apply Forall_app. split; [by eapply data_bytes|done].
  - by apply Hsp.
Qed.

(** ** The trailer *)

Section Trailer.
Context (fuel : nat).

(** A value the trailer may hold: one that can be written and read. *)
Definition trailer_value (o : obj) : Prop :=
  printable o = true /\ readable true o = true /\ (depth o <= fuel)%nat.
Definition info_ok (info : XRefInfo) : Prop :=
  Forall trailer_value (omap id [rootRef info; infoRef info; encryptRef info]) /\
  match fileIds info with
  | Some (OArr (id :: _)) => printable id = true /\ readable true id = true /\ (depth id < fuel)%nat
  | _ => True
  end /\
  match startXRef info with None => True | Some v => exists n, v = OInt n /\ Z.abs n < 2 ^ 53 end /\
  0 <= (newRef info).1 < 2 ^ 53 /\ (2 <= fuel)%nat.

(** The trailer as the reader sees it, with a table to resolve references. *)
Definition seen (d : Dict) : Dict := mkDict (d_map d) true false.

(** A dictionary without double keys whose values can be written and read. *)
Definition trailer_ok (d : Dict) : Prop :=
  NoDup (d_map d).*1 /\ Forall (fun e => bytes_only e.1 = true /\ trailer_value e.2) (d_map d).

Lemma map_set_keys {V} (m : list (jstr * V)) k v : NoDup m.*1 ->
  NoDup (map_set m k v).*1 /\ forall x, x ∈ (map_set m k v).*1 <-> x = k \/ x ∈ m.*1.
Proof.
  induction m as [|[k' v'] m IH]; intros Hn.
  { cbn. split; [apply NoDup_singleton|]. intros x. rewrite elem_of_cons, elem_of_nil. tauto. }
  cbn [fmap list_fmap fst map_set] in *. apply NoDup_cons in Hn as [Hk Hn]. destruct (IH Hn) as [IH1 IH2].
  case_bool_decide as E; cbn [fmap list_fmap fst].
  - subst k'. split; [by constructor|]. intros x. rewrite !elem_of_cons. tauto.
  - split.
    + constructor; [|done]. rewrite IH2. intros [->|?]; done.
    + intros x. rewrite !elem_of_cons, IH2. tauto.
Qed.

Lemma map_set_Forall {V} (P : jstr * V -> Prop) m k v : Forall P m -> P (k, v) -> Forall P (map_set m k v).
Proof.
  intros Hm Hp. induction Hm as [|[k' v'] m Hx Hm IH]; cbn [map_set]; [by constructor|].
  case_bool_decide; [subst k'|]; by constructor.
Qed.

Lemma trailer_set d k v : trailer_ok d -> bytes_only k = true -> trailer_value v -> trailer_ok (dict_set d k v).
Proof.
  intros [Hn Hm] Hk Hv. split; [apply (proj1 (map_set_keys _ _ _ Hn))|]. by apply map_set_Forall.
Qed.

Lemma trailer_setIfDefined d k v : trailer_ok d -> bytes_only k = true ->
  match v with Some o => trailer_value o | None => True end -> trailer_ok (setIfDefined d k v).
Proof. intros Hd Hk Hv. destruct v as [[]|]; try done; by apply trailer_set. Qed.

Lemma setIfDefined_get d k v k' : getRaw (setIfDefined d k v) k' = getRaw d k' \/ k = k'.
Proof.
  destruct (decide (k = k')) as [|Hk]; [by right|]. left.
  destruct v as [[]|]; try done; cbn; unfold getRaw; cbn; by rewrite map_get_set, bool_decide_eq_false_2.
Qed.

Lemma setIfDefined_Prev d k v : k <> js "Prev" -> getRaw (setIfDefined d k v) (js "Prev") = getRaw d (js "Prev").
Proof. intros Hk. by destruct (setIfDefined_get d k v (js "Prev")). Qed.
Lemma setIfDefined_XRefStm d k v : k <> js "XRefStm" ->
  getRaw (setIfDefined d k v) (js "XRefStm") = getRaw d (js "XRefStm").
Proof. intros Hk. by destruct (setIfDefined_get d k v (js "XRefStm")). Qed.

Lemma depth_list {A} (f : A -> nat) l n : Forall (fun x => (f x <= n)%nat) l ->
  (fold_right (fun v m => max (f v) m) 0%nat l <= n)%nat.
Proof. induction 1; cbn; lia. Qed.

Lemma trailer_dict d : trailer_ok d ->
  printable (ODict (seen d)) = true /\ readable true (ODict (seen d)) = true /\
  (depth (ODict (seen d)) <= S fuel)%nat.
Proof.
  intros [Hn Hm]. unfold seen. cbn [printable readable depth]. split_and!.
  - apply forallb_forall. intros e He. apply list_elem_of_In in He.
    pose proof (proj1 (Forall_forall _ _) Hm e He) as [Hk [Hp _]]. by rewrite Hk, Hp.
  - rewrite bool_decide_eq_true_2 by done. cbn. apply forallb_forall. intros e He. apply list_elem_of_In in He.
    by pose proof (proj1 (Forall_forall _ _) Hm e He) as [_ [_ [Hr _]]].
  - apply le_n_S. apply (depth_list (fun e : jstr * obj => depth e.2)). eapply Forall_impl; [exact Hm|].
    intros e [_ [_ [_ Hd]]]. exact Hd.
Qed.

Lemma trailer_keep d k v : getRaw d (js "XRefStm") = None -> k <> js "XRefStm" ->
  getRaw (setIfDefined d k v) (js "XRefStm") = None.
Proof. intros Hd Hk. by rewrite setIfDefined_XRefStm. Qed.

(** The trailer of an update written as a table. *)
Lemma trailer_of_update info changes : info_ok info ->
  let '(d, changes') := getTrailerDict info changes false in
  changes' = changes /\ trailer_ok d /\ getRaw d (js "XRefStm") = None /\ getRaw d (js "Prev") = startXRef info.
Proof.
  intros (Hv & _ & Hs & Hnum & Hf). unfold getTrailerDict. split; [done|].
  assert (Hvalue : forall v, v ∈ [rootRef info; infoRef info; encryptRef info] ->
    match v with Some o => trailer_value o | None => True end).
  { intros v Hin. destruct v as [o|]; [|done]. apply (proj1 (Forall_forall _ _) Hv).
    apply list_elem_of_omap. by exists (Some o). }
  assert (Hint : forall n, Z.abs n < 2 ^ 53 -> trailer_value (OInt n)).
  { intros n Hn. unfold trailer_value. split_and!; [by apply Z.ltb_lt|done|cbn; lia]. }
  split.
  - repeat (apply trailer_setIfDefined; [|done|apply Hvalue; by rewrite !elem_of_cons; auto]).
    apply trailer_set; [|done|apply Hint; lia]. apply trailer_setIfDefined; [|done|].
    + split; [constructor|constructor].
    + destruct (startXRef info); [|done]. destruct Hs as (n & -> & Hn). by apply Hint.
  - split.
    + repeat (apply trailer_keep; [|done]). unfold getRaw, dict_set, dict_upd. cbn [d_map].
      rewrite map_get_set, bool_decide_eq_false_2 by done. by destruct (startXRef info) as [[]|].
    + rewrite !setIfDefined_Prev by done. unfold getRaw, dict_set, dict_upd. cbn [d_map].
      rewrite map_get_set, bool_decide_eq_false_2 by done.
      destruct (startXRef info); [|done]. by destruct Hs as (n & -> & _).
Qed.

Context (time : Z).

Lemma computed_id_bytes n info : bytes_only (computeMD5 time n info) = true.
Proof.
  apply bytes_only_spec. unfold computeMD5. destruct (write_strings _ _ _) as [o a]. unfold bytesToString.
  apply md5_digest.
Qed.

Lemma computeIDs_get n info d k : k <> js "ID" -> getRaw (computeIDs time n info d) k = getRaw d k.
Proof.
  intros Hk. unfold computeIDs. destruct (fileIds info) as [[| | | | | | |[|id l]| | |]|]; try done.
  unfold getRaw, dict_set, dict_upd. cbn [d_map]. rewrite map_get_set, bool_decide_eq_false_2; congruence.
Qed.

(** What the trailer of an update holds: the previous section, the number of
    objects, the entries taken over from the document, and the identifiers, of
    which the second is new. *)
Definition defined (v : value) : value := match v with Some ONull => None | _ => v end.
Definition new_ids (pos : Z) (info : XRefInfo) : value :=
  match fileIds info with
  | Some (OArr (id :: _)) =>
      let md5 := OStr (computeMD5 time pos info) in Some (OArr [if truthy (Some id) then id else md5; md5])
  | _ => None
  end.
Definition trailer_entry (pos : Z) (info : XRefInfo) (k : jstr) : value :=
  if bool_decide (k = js "Prev") then defined (startXRef info)
  else if bool_decide (k = js "Size") then Some (OInt (newRef info).1)
  else if bool_decide (k = js "Root") then defined (rootRef info)
  else if bool_decide (k = js "Info") then defined (infoRef info)
  else if bool_decide (k = js "Encrypt") then defined (encryptRef info)
  else if bool_decide (k = js "ID") then new_ids pos info
  else None.

Lemma getRaw_setIfDefined d k v k' :
  getRaw (setIfDefined d k v) k' =
  if bool_decide (k = k') then match defined v with Some o => Some o | None => getRaw d k' end else getRaw d k'.
Proof. destruct v as [[]|]; cbn [setIfDefined defined]; rewrite ?getRaw_set; try done; by case_bool_decide. Qed.
Lemma getRaw_computeIDs pos info d k :
  getRaw (computeIDs time pos info d) k =
  if bool_decide (js "ID" = k) then match new_ids pos info with Some o => Some o | None => getRaw d k end else getRaw d k.
Proof.
  unfold computeIDs, new_ids. destruct (fileIds info) as [[| | | | | | |[|id l]| | |]|]; rewrite ?getRaw_set; try done;
    by case_bool_decide.
Qed.

Lemma trailer_entries pos info changes k :
  getRaw (seen (computeIDs time pos info (getTrailerDict info changes false).1)) k = trailer_entry pos info k.
Proof.
  unfold seen. change (getRaw (mkDict (d_map ?d) true false) k) with (getRaw d k).
  change (getRaw (computeIDs time pos info (getTrailerDict info changes false).1) k = trailer_entry pos info k).
  unfold getTrailerDict. cbn [fst]. rewrite getRaw_computeIDs, !getRaw_setIfDefined, getRaw_set, getRaw_setIfDefined.
  change (getRaw (new_Dict false) k) with (@None obj). unfold trailer_entry.
  destruct (decide (k ∈ [js "ID"; js "Encrypt"; js "Info"; js "Root"; js "Size"; js "Prev"])) as [Hk|Hk];
    rewrite !elem_of_cons, elem_of_nil in Hk; [destruct Hk as [->|[->|[->|[->|[->|[->|[]]]]]]]|].
  7: repeat (rewrite bool_decide_eq_false_2 by (intros ?; apply Hk; subst k; tauto)); done.
  all: repeat match goal with |- context [bool_decide (?a = ?b)] =>
    first [rewrite (bool_decide_eq_true_2 (a = b)) by done | rewrite (bool_decide_eq_false_2 (a = b)) by done] end; try done.
  - by destruct (new_ids pos info).
  - by destruct (defined (encryptRef info)).
  - by destruct (defined (infoRef info)).
  - by destruct (defined (rootRef info)).
  - by destruct (defined (startXRef info)).
Qed.

Lemma trailer_IDs n info d : trailer_ok d -> info_ok info -> trailer_ok (computeIDs time n info d).
Proof.
  intros Hd (_ & Hid & _ & _ & Hf). unfold computeIDs.
  destruct (fileIds info) as [[| | | | | | |[|id l]| | |]|]; try done.
  destruct Hid as (Hp & Hr & Hdep). pose proof (computed_id_bytes n info) as Hm.
  apply trailer_set; [done|done|]. unfold trailer_value. cbn [printable readable depth forallb fold_right].
  assert (Hv : forall b : bool, printable (if b then id else OStr (computeMD5 time n info)) = true /\
    readable true (if b then id else OStr (computeMD5 time n info)) = true /\
    (depth (if b then id else OStr (computeMD5 time n info)) < fuel)%nat).
  { intros []; [done|]. cbn. rewrite Hm. split_and!; [done|done|lia]. }
  destruct (Hv (truthy (Some id))) as (H1 & H2 & H3). rewrite H1, H2, Hm. split_and!; [done|done|].
  revert H3. generalize (depth (if truthy (Some id) then id else OStr (computeMD5 time n info))). cbn. lia.
Qed.

Definition end_of_file (pos : Z) : jstr :=
  [0x0a] ++ js "startxref" ++ [0x0a] ++ int_text pos ++ [0x0a] ++ js "%%EOF" ++ [0x0a].

Definition table_text (l : list NewRef) (base : Z) (trailer : jstr) (pos : Z) : jstr :=
  js "xref" ++ [0x0a] ++ runs_text (runs l) base ++ js "trailer" ++ [0x0a] ++ trailer ++ end_of_file pos.

Lemma runs_nonempty l : Forall (fun run => run <> []) (runs l).
Proof.
  induction l as [|r l IH]; [constructor|]. cbn [runs].
  destruct (runs l) as [|[|r' run] rest]; [by constructor|by constructor|].
  destruct (nr_num r' =? nr_num r + 1); [|by constructor]. apply Forall_cons in IH as [_ IH]. by constructor.
Qed.

Context (fetch : Z -> Z -> bool -> res value) (random : nat -> list Z) (deflate : list Z -> option (list Z)).
Context (random_iv : forall n, length (random n) = 16%nat /\ Forall is_byte (random n)).

Lemma getXRefTable_writes info base l d w : info_ok info -> trailer_ok d -> NoDup (map nr_num l) ->
  let pos := offset_after l base in
  let d' := computeIDs time pos info d in
  exists trailer o w', getXRefTable time fetch random deflate fuel info base l d w = (Ok tt, w') /\
    w_buffer w' = w_buffer w ++ table_text l base trailer pos /\
    Forall is_byte trailer /\ readable true o = true /\ map_strings (plain None) o = ODict (seen d') /\
    forall r ts, ends_word r -> spells None r ts -> spells None (trailer ++ r) (tokens o ++ ts).
Proof.
  intros Hinfo Hd Hn pos d'.
  destruct (trailer_dict d' (trailer_IDs pos info d Hd Hinfo)) as (Hp & Hr & Hdep).
  unfold getXRefTable, mbind at 1, push at 1, modify at 1. unfold mbind at 1.
  rewrite getIndexes_runs. pose proof (fun w => table_lines_runs (runs l) base w (runs_nonempty l)) as Hlines.
  rewrite concat_runs in Hlines. rewrite Hlines by done.
  fold pos d'. unfold mbind at 1, push at 1, modify at 1. unfold mbind at 1, modify at 1.
  match goal with |- context [mkWriter ?b None ?n] => set (w1 := mkWriter b None n) end.
  destruct (written_value None no_commands true fetch random deflate [] None random_iv (S fuel) (ODict (seen d')) Hp Hr Hdep w1
    ltac:(done)) as (w2 & text & o & E & Hb & _ & Ho & Hm & Hbytes & Hsp).
  change (writeValue fetch random deflate [] (S fuel) (ODict (seen d')) w1)
    with (writeDict (writeValue fetch random deflate [] fuel) d' w1) in E.
  exists text, o. unfold mbind at 1. rewrite E. unfold push. m_red. eexists. split; [reflexivity|].
  split; [|done]. cbn [w_buffer]. rewrite Hb. unfold w1, table_text, end_of_file, pushed. cbn [w_buffer].
  by rewrite <- !app_assoc.
Qed.
End Trailer.

(** ** The entries of the update *)

Lemma add_entry_lookup n v x m :
  entries (add_entry n v x) !! m =
  match entries x !! m with Some u => Some u | None => if bool_decide (n = m) then Some v else None end.
Proof.
  unfold add_entry. destruct (entries x !! n) as [u|] eqn:E.
  - destruct (entries x !! m) eqn:E'; [done|]. case_bool_decide; congruence.
  - cbn. case_bool_decide as Hn.
    + subst m. by rewrite E, lookup_insert_eq.
    + rewrite lookup_insert_ne by done. by destruct (entries x !! m).
Qed.

Lemma add_lines_present l off x m u : entries x !! m = Some u -> entries (add_lines l off x) !! m = Some u.
Proof.
  revert off x. induction l as [|r l IH]; intros off x Hm; [done|]. cbn [add_lines]. apply IH.
  by rewrite add_entry_lookup, Hm.
Qed.

Lemma add_lines_absent l off x m : m ∉ map nr_num l -> entries (add_lines l off x) !! m = entries x !! m.
Proof.
  revert off x. induction l as [|r l IH]; intros off x Hm; [done|]. cbn [map] in Hm.
  rewrite not_elem_of_cons in Hm. cbn [add_lines]. rewrite IH by apply Hm. rewrite add_entry_lookup.
  rewrite bool_decide_eq_false_2 by (destruct Hm; congruence). by destruct (entries x !! m).
Qed.

Lemma add_lines_at l1 r l2 off x : nr_num r ∉ map nr_num l1 -> entries x !! nr_num r = None ->
  entries (add_lines (l1 ++ r :: l2) off x) !! nr_num r = Some (line_entry r (offset_after l1 off)).
Proof.
  intros Hr Hx. rewrite add_lines_app. cbn [add_lines]. apply add_lines_present.
  by rewrite add_entry_lookup, add_lines_absent, Hx, bool_decide_eq_true_2.
Qed.

Lemma add_lines_fields l off x :
  tableState (add_lines l off x) = tableState x /\ topDict (add_lines l off x) = topDict x /\
  startXRefQueue (add_lines l off x) = startXRefQueue x /\
  xrefSectionsComplete (add_lines l off x) = xrefSectionsComplete x.
Proof.
  revert off x. induction l as [|r l IH]; intros off x; [done|]. cbn [add_lines].
  destruct (IH (next_offset off r) (add_entry (nr_num r) (line_entry r off) x)) as (-> & -> & -> & ->).
  unfold add_entry. by destruct (entries x !! nr_num r).
Qed.

(** The first free entry of a run is not the one of object 1. *)
Definition first_kept (l : list NewRef) : Prop := Forall (fun r => nr_num r = 1 -> nr_data r <> None) l.

Lemma runs_ok l : first_kept l -> Forall run_ok (runs l).
Proof.
  intros Hk. apply Forall_forall. intros run Hrun.
  destruct (proj1 (Forall_forall _ _) (runs_consecutive l) run Hrun) as [Hne Hc]. split_and!; [done|done|].
  intros Hf r Hh. destruct run as [|q run]; [done|]. injection Hh as ->.
  apply (proj1 (Forall_forall _ _) Hk); [|exact Hf].
  rewrite <- (concat_runs l). apply list_elem_of_In, in_concat. exists (r :: run). split; [by apply list_elem_of_In|by left].
Qed.

Lemma runs_length l : (length (runs l) <= length l)%nat.
Proof.
  induction l as [|r l IH]; [done|]. cbn [runs]. destruct (runs l) as [|[|r' run] rest]; cbn [length] in *; [lia|lia|].
  destruct (nr_num r' =? nr_num r + 1); cbn [length] in *; lia.
Qed.

(** ** The section of the update *)

Lemma spells_section l base trailer o pos : refs_ok l -> 0 <= base -> offset_after l base <= pos < 2 ^ 53 ->
  (forall r ts, ends_word r -> spells None r ts -> spells None (trailer ++ r) (tokens o ++ ts)) ->
  spells None (table_text l base trailer pos)
    (OCmd (js "xref") :: runs_tokens (runs l) base ++ OCmd (js "trailer") :: tokens o ++
     [OCmd (js "startxref"); OInt pos]).
Proof.
  intros Hl Hb Hpos Ht. pose proof (offset_after_le l base). unfold table_text.
  apply (spells_command _ 0x0a); [done|done|done|].
  apply spells_runs; [apply runs_consecutive|by rewrite concat_runs|done|rewrite concat_runs; lia|].
  apply (spells_command _ 0x0a); [done|done|done|].
  apply Ht; [done|]. unfold end_of_file. apply spells_blank; [done|].
  apply (spells_command _ 0x0a); [done|done|done|]. apply (spells_number _ 0x0a); [lia|done|]. apply spells_start.
Qed.

Lemma table_bytes l base trailer pos : refs_ok l -> 0 <= base -> 0 <= pos -> Forall is_byte trailer ->
  Forall is_byte (table_text l base trailer pos).
Proof.
  intros Hl Hb Hp Ht. unfold table_text, end_of_file.
  repeat (apply Forall_app; split); first [apply literal_bytes | done
    | apply runs_bytes; [apply runs_nonempty|by rewrite concat_runs|done]
    | by apply int_text_bytes
    | repeat (constructor; [unfold is_byte; lia|]); constructor].
Qed.

Lemma section_of_update fetch fuel front l trailer o d x :
  let base := len front + len (data_of l) in
  let text := table_text l (len front) trailer base in
  Forall is_byte front -> Forall is_byte (data_of l) -> Forall is_byte trailer ->
  refs_ok l -> NoDup (map nr_num l) -> first_kept l ->
  Forall (fun r => nr_num r = 0 -> nr_data r = None) l ->
  readable true o = true -> map_strings (plain None) o = ODict d -> plain_trailer d ->
  (forall r ts, ends_word r -> spells None r ts -> spells None (trailer ++ r) (tokens o ++ ts)) ->
  base < 2 ^ 53 -> (length l + length (tokens o) < fuel)%nat ->
  tableState x = None -> entries x !! 0 = None ->
  section_at fetch fuel (new_Stream (front ++ data_of l ++ text) None None) base x =
    (Ok tt, with_section base d (add_lines l (len front) x)).
Proof.
  intros base text Hfront Hdata Htrailer Hl Hnd Hk Hzero Ho Hd Hpt Hsp Hb Hf Hx Hx0.
  pose proof (len_nonneg front). pose proof (len_nonneg (data_of l)).
  assert (Htext : Forall is_byte text) by (apply table_bytes; [done|lia|lia|done]).
  pose proof (spells_section l (len front) trailer o base Hl ltac:(lia) ltac:(rewrite len_data; fold base; lia) Hsp) as Hspell.
  fold text in Hspell. clearbody text. set (bytes := front ++ data_of l ++ text).
  assert (Hbytes : Forall is_byte bytes).
  { apply Forall_app. split; [done|]. apply Forall_app. by split. }
  unfold section_at. change (s_start _) with 0. rewrite Z.add_0_r.
  assert (Hpos : set_pos base (new_Stream bytes None None) = mkStream bytes 0 base (len bytes)) by done.
  rewrite Hpos.
  assert (Hr : rest (mkStream bytes 0 base (len bytes)) text).
  { assert (Hlen : len bytes = base + len text) by (unfold bytes, base; len_lia).
    pose proof (len_nonneg text). split; [split; cbn; auto; lia|]. cbn. rewrite subarray_in by lia.
    assert (Hdrop : drop (Z.to_nat base) bytes = text).
    { unfold bytes. rewrite app_assoc. apply drop_app_length'. unfold base, len. rewrite length_app. lia. }
    rewrite Hdrop, Hlen, Z.add_simpl_l, take_ge; [done|]. unfold len. lia. }
  assert (Hparser : exists lx p, new_Lexer (mkStream bytes 0 base (len bytes)) = Ok lx /\
    new_Parser None lx None = Ok p /\ p_at None None p (OCmd (js "xref") :: runs_tokens (runs l) (len front) ++
        OCmd (js "trailer") :: tokens o ++ [OCmd (js "startxref"); OInt base])).
  { destruct (runs l); by eapply new_Parser_at. }
  destruct Hparser as (lx & p & El & Ep & Hp).
  rewrite El, Ep.
  destruct (reads_section fetch fuel base (runs l) (len front) o d [OCmd (js "startxref"); OInt base] x) with (p := p)
    as (p' & E); try done.
  - by apply runs_ok.
  - pose proof (runs_length l). lia.
  - rewrite concat_runs. destruct (decide (0 ∈ map nr_num l)) as [Hin|Hin].
    + apply list_elem_of_fmap in Hin as (r & Hr0 & Hin). apply list_elem_of_split in Hin as (l1 & l2 & ->).
      assert (Hd0 : nr_data r = None).
      { apply Forall_app in Hzero as [_ Hz]. apply Forall_cons in Hz as [Hz _]. by apply Hz. }
      rewrite Hr0, add_lines_at.
      * unfold line_entry. by rewrite Hd0.
      * rewrite map_app in Hnd. apply NoDup_app in Hnd as (_ & Hdis & _). intros Hin. apply (Hdis _ Hin). by left.
      * by rewrite <- Hr0.
    + rewrite add_lines_absent by done. by rewrite Hx0.
  - rewrite E. cbn [r_xref]. by rewrite concat_runs.
Qed.

(** ** The bytes of the file *)

Lemma write_string_appends str a : Forall is_byte str ->
  write_string_loop str (len a) (a ++ zeros (len str)) = a ++ str.
Proof.
  intros Hs. revert a. induction Hs as [|c str Hc Hs IH]; intros a; [done|]. cbn [write_string_loop].
  assert (Hz : zeros (len (c :: str)) = 0 :: zeros (len str)).
  { unfold zeros. rewrite len_cons. pose proof (len_nonneg str).
    by replace (Z.to_nat (len str + 1)) with (S (Z.to_nat (len str))) by lia. }
  rewrite Hz, arr_set_app, Z.sub_diag by lia. change (arr_set (0 :: zeros (len str)) 0 (c .& 255))
    with ((c .& 255) :: zeros (len str)).
  rewrite js_and_255, Z.mod_small by done.
  change (c :: zeros (len str)) with ([c] ++ zeros (len str)). change (c :: str) with ([c] ++ str).
  rewrite !app_assoc. replace (len a + 1) with (len (a ++ [c])) by (rewrite len_app; done). apply IH.
Qed.

(** A text is at least as long as its tokens are many. *)
Lemma spells_length text ts : spells None text ts -> OEOF ∉ ts -> (length ts <= length text)%nat.
Proof.
  induction 1 as [text|b Hb|b t o r ts Hb Ht _ IH]; intros Hn; [cbn; lia|by destruct Hn; left|].
  rewrite not_elem_of_cons in Hn. destruct Ht as [(c & t' & -> & _) _]. specialize (IH (proj2 Hn)).
  rewrite !length_app. cbn. lia.
Qed.

Lemma tokens_not_eof xref o : readable xref o = true -> OEOF ∉ tokens o.
Proof.
  enough (forall n o, (length (tokens o) <= n)%nat -> readable xref o = true -> OEOF ∉ tokens o) by eauto.
  clear o. induction n as [|n IH]; intros o Hn Ho; [pose proof (tokens_pos o); lia|].
  assert (Hflat : forall {A} (g : A -> list obj) l, (forall x, x ∈ l -> OEOF ∉ g x) -> OEOF ∉ flat_map g l).
  { intros A g l Hg Hin. apply list_elem_of_In, in_flat_map in Hin as (x & Hx & Hin).
    apply (Hg x); by apply list_elem_of_In. }
  destruct o as [| | | | | |num gen|l|[m x s]| |]; try discriminate; cbn [tokens] in *;
    rewrite ?not_elem_of_cons, ?not_elem_of_app, ?not_elem_of_cons; try (split_and!; [done..|apply not_elem_of_nil]).
  - cbn in Hn. rewrite length_app in Hn. split_and!; [done| |done|apply not_elem_of_nil]. apply Hflat.
    intros v Hv. pose proof (flat_tokens_length tokens l v Hv). apply IH; [lia|]. by apply (forallb_elem _ l).
  - cbn in Hn. rewrite length_app in Hn. cbn in Ho. bool_hyps.
    split_and!; [done| |done|apply not_elem_of_nil]. apply (Hflat _ (fun e : jstr * obj => OName e.1 :: tokens e.2)).
    intros e He. pose proof (flat_tokens_length (fun e : jstr * obj => OName e.1 :: tokens e.2) m e He) as Hle. cbn in Hle.
    rewrite not_elem_of_cons. split; [done|]. apply IH; [lia|].
    by apply (forallb_elem (fun e => readable xref e.2) m).
Qed.

Lemma lines_count l off : (length l <= length (lines_tokens l off))%nat /\ OEOF ∉ lines_tokens l off.
Proof.
  revert off. induction l as [|r l IH]; intros off; [split; [done|apply not_elem_of_nil]|].
  cbn [lines_tokens]. destruct (IH (next_offset off r)) as [H1 H2]. rewrite length_app, not_elem_of_app.
  unfold line_tokens. destruct (nr_data r); cbn [length]; (split; [lia|]); (split; [|done]);
    rewrite !not_elem_of_cons; by split_and!; [..|apply not_elem_of_nil].
Qed.

Lemma runs_count rl off : (length (concat rl) <= length (runs_tokens rl off))%nat /\ OEOF ∉ runs_tokens rl off.
Proof.
  revert off. induction rl as [|run rl IH]; intros off; [split; [done|apply not_elem_of_nil]|].
  cbn [runs_tokens concat]. destruct (IH (offset_after run off)) as [H1 H2]. destruct (lines_count run off) as [H3 H4].
  cbn [length]. rewrite !length_app, !not_elem_of_cons, not_elem_of_app. split; [lia|by split_and!].
Qed.

Lemma table_length l base trailer o pos : refs_ok l -> 0 <= base -> offset_after l base <= pos < 2 ^ 53 -> readable true o = true ->
  (forall r ts, ends_word r -> spells None r ts -> spells None (trailer ++ r) (tokens o ++ ts)) ->
  (length l + length (tokens o) < length (table_text l base trailer pos))%nat.
Proof.
  intros Hl Hb Hp Ho Hsp. pose proof (spells_length _ _ (spells_section l base trailer o pos Hl Hb Hp Hsp)) as Hlen.
  destruct (runs_count (runs l) base) as [H1 H2]. rewrite concat_runs in H1.
  cbn [length] in Hlen. rewrite length_app in Hlen. cbn [length] in Hlen. rewrite length_app in Hlen. cbn [length] in Hlen.
  enough (OEOF ∉ OCmd (js "xref") :: runs_tokens (runs l) base ++ OCmd (js "trailer") :: tokens o ++ [OCmd (js "startxref"); OInt pos])
    by (specialize (Hlen H); lia).
  rewrite !not_elem_of_cons, !not_elem_of_app, !not_elem_of_cons, !not_elem_of_app, !not_elem_of_cons.
  split_and!; try done; [by eapply tokens_not_eof|apply not_elem_of_nil].
Qed.

(** ** Where the last section is *)

(** A signature that starts with bytes that are not its last one is found
    where it stands last. *)
Lemma find_back_last a tail n : 0x66 ∉ tail -> (length tail < n)%nat ->
  find_back n (a ++ STARTXREF_SIGNATURE ++ tail) STARTXREF_SIGNATURE (len (a ++ STARTXREF_SIGNATURE ++ tail) - 1)
  = Some (len a).
Proof.
  intros Ht. set (scan := a ++ STARTXREF_SIGNATURE ++ tail).
  pose proof (len_nonneg a) as Ha.
  enough (Hgo : forall k n, (k <= length tail)%nat -> (k < n)%nat ->
    find_back n scan STARTXREF_SIGNATURE (len a + 8 + Z.of_nat k) = Some (len a)).
  { intros Hn. replace (len scan - 1) with (len a + 8 + Z.of_nat (length tail)); [by apply Hgo|].
    unfold scan. rewrite !len_app. change (len STARTXREF_SIGNATURE) with 9. unfold len. lia. }
  intros k. induction k as [|k IH]; intros m Hk Hm; (destruct m as [|m]; [lia|]); cbn [find_back].
  - replace (matches_back scan STARTXREF_SIGNATURE (len a + 8 + Z.of_nat 0)) with true.
    { f_equal. change (len STARTXREF_SIGNATURE) with 9. lia. }
    symmetry. unfold matches_back. cbn [rev STARTXREF_SIGNATURE app].
    assert (Hg : forall i, 0 <= i < 9 -> arr_get scan (len a + i) = arr_get (STARTXREF_SIGNATURE ++ tail) i).
    { intros i Hi. unfold scan. rewrite arr_get_app_r by lia. f_equal. lia. }
    replace (len a + 8 + Z.of_nat 0) with (len a + 8) by lia.
    replace (len a + 8 - 1) with (len a + 7) by lia. replace (len a + 7 - 1) with (len a + 6) by lia.
    replace (len a + 6 - 1) with (len a + 5) by lia. replace (len a + 5 - 1) with (len a + 4) by lia.
    replace (len a + 4 - 1) with (len a + 3) by lia. replace (len a + 3 - 1) with (len a + 2) by lia.
    replace (len a + 2 - 1) with (len a + 1) by lia. replace (len a + 1 - 1) with (len a + 0) by lia.
    rewrite !Hg by lia. reflexivity.
  - replace (matches_back scan STARTXREF_SIGNATURE (len a + 8 + Z.of_nat (S k))) with false.
    { replace (len a + 8 + Z.of_nat (S k) - 1) with (len a + 8 + Z.of_nat k) by lia. apply IH; lia. }
    symmetry. unfold matches_back. cbn [rev STARTXREF_SIGNATURE app].
    assert (Hg : arr_get scan (len a + 8 + Z.of_nat (S k)) = tail !! k).
    { unfold scan. rewrite app_assoc, arr_get_app_r by (rewrite len_app; change (len STARTXREF_SIGNATURE) with 9; lia).
      rewrite <- arr_get_nat. f_equal. rewrite len_app. change (len STARTXREF_SIGNATURE) with 9. lia. }
    rewrite Hg. destruct (tail !! k) as [c|] eqn:E; [|done]. cbn [jn_is].
    rewrite (proj2 (Z.eqb_neq c 102)); [done|]. intros ->. apply Ht. by eapply list_elem_of_lookup_2.
Qed.

(** The text after the signature: the number and the end of the file. *)
Lemma dec_length n : (length (dec n) <= S (Z.to_nat (Z.log2 n)))%nat.
Proof.
  unfold dec. generalize (S (Z.to_nat (Z.log2 n))). intros fuel.
  enough (forall acc, (length (dec_digits fuel n acc) <= fuel + length acc)%nat) as Hgo.
  { specialize (Hgo []). cbn in Hgo. lia. }
  revert n. induction fuel as [|fuel IH]; intros n acc; cbn [dec_digits]; [lia|].
  destruct (n <? 10); cbn [length]; [lia|]. etrans; [apply IH|]. cbn [length]. lia.
Qed.

Lemma number_text_digits fuel c d r str (s : Stream) :
  Forall (fun c => is_digit c = true) (c :: d) -> rest s (d ++ 0x0a :: r) -> (length d + 1 < fuel)%nat ->
  fst (number_text fuel (Some c) str s) = Ok (str ++ c :: d).
Proof.
  revert fuel c str s. induction d as [|c' d IH]; intros fuel c str s Hd Hr Hf;
    (destruct fuel as [|fuel]; [lia|]); cbn [number_text];
    apply Forall_cons in Hd as [Hc Hd]; apply digit_range in Hc;
    rewrite (proj2 (Z.leb_le 32 c)), (proj2 (Z.leb_le c 57)) by lia; cbn [andb];
    destruct (rest_cons _ _ _ Hr) as (s' & E & Hr' & _); unfold mbind; rewrite E.
  - destruct fuel as [|fuel]; [cbn in Hf; lia|]. reflexivity.
  - rewrite IH; [by rewrite <- app_assoc|done|done|cbn in Hf; lia].
Qed.

Lemma parseInt_dec n : 0 <= n -> parseInt (dec n) = Some n.
Proof.
  intros Hn. destruct (dec_spec n Hn) as (Hd & Hp & _ & Hne). unfold parseInt.
  destruct (dec n) as [|c d] eqn:E; [done|]. pose proof Hd as Hd'. apply Forall_cons in Hd' as [Hc _].
  apply digit_range in Hc.
  assert (Htrim : trim_start (c :: d) = c :: d).
  { cbn [trim_start]. rewrite bool_decide_eq_false_2; [done|]. rewrite !not_elem_of_cons.
    split_and!; try lia. apply not_elem_of_nil. }
  rewrite Htrim.
  assert (Hsign : match c :: d with 0x2d :: str => (-1, str) | 0x2b :: str => (1, str) | str => (1, str) end = (1, c :: d)).
  { repeat (case_match; try done); lia. }
  rewrite Hsign. pose proof (span_digits_app (c :: d) [] Hd I) as Hspan. rewrite app_nil_r in Hspan.
  rewrite Hspan, Hp. f_equal. lia.
Qed.

(** The window from [pos1] to the end of the file. *)
Lemma find_last_signature a tail pos1 :
  let bytes := a ++ STARTXREF_SIGNATURE ++ tail in
  0x66 ∉ tail -> tail <> [] -> 0 <= pos1 <= len a -> len bytes <= pos1 + 1024 ->
  find STARTXREF_SIGNATURE 1024 true (mkStream bytes 0 pos1 (len bytes)) =
  (Ok true, mkStream bytes 0 (len a) (len bytes)).
Proof.
  intros bytes Ht Hne Hpos Hend. pose proof (len_nonneg a).
  assert (Hlen : len bytes = len a + 9 + len tail) by (unfold bytes; rewrite !len_app; change (len STARTXREF_SIGNATURE) with 9; lia).
  assert (0 < len tail) by (destruct tail; [done|rewrite len_cons; len_lia]).
  set (a' := drop (Z.to_nat pos1) a).
  assert (Ha' : len a' = len a - pos1) by (unfold a'; rewrite len_drop; lia).
  assert (Hscan : subarray bytes pos1 (len bytes) = a' ++ STARTXREF_SIGNATURE ++ tail).
  { rewrite subarray_in by lia. unfold bytes at 2. rewrite drop_app_le by (unfold len in *; lia). apply take_ge.
    change (drop (Z.to_nat pos1) a) with a'. rewrite length_len. apply Z2Nat.inj_le; [apply len_nonneg|lia|].
    rewrite !len_app. change (len STARTXREF_SIGNATURE) with 9. lia. }
  assert (Hscanlen : len (a' ++ STARTXREF_SIGNATURE ++ tail) = len a' + 9 + len tail)
    by (rewrite !len_app; change (len STARTXREF_SIGNATURE) with 9; lia).
  set (scan := a' ++ STARTXREF_SIGNATURE ++ tail) in *.
  assert (Hpeek : peekBytes 1024 (mkStream bytes 0 pos1 (len bytes)) = (Ok scan, mkStream bytes 0 pos1 (len bytes))).
  { unfold peekBytes, modify, mret, mbind. cbn [getBytes shift_pos Stream_source]. unfold stream_getBytes.
    cbn [s_pos s_end s_bytes]. rewrite (proj2 (Z.eqb_neq 1024 0)), Z.min_r, Hscan by lia.
    unfold set_pos. cbn [s_pos s_end s_bytes s_start]. do 2 f_equal. lia. }
  unfold find. unfold mbind at 1. rewrite Hpeek. cbv zeta.
  change (len STARTXREF_SIGNATURE) with 9. rewrite (proj2 (Z.leb_gt _ 0)) by lia.
  unfold scan at 2 3. rewrite find_back_last; [|done|fold scan; unfold len in *; lia].
  unfold set_pos. cbn [s_pos s_bytes s_start s_end]. m_red. cbn [s_pos s_bytes s_start s_end]. fold scan.
  do 2 f_equal. lia.
Qed.

Lemma startXRef_finds front pos p fuel :
  let s := new_Stream (front ++ end_of_file pos) None None in
  Forall is_byte front -> 0 <= pos < 2 ^ 900 -> (length (front ++ end_of_file pos) < fuel)%nat ->
  linearization fuel s = (Ok None, set_pos p s) ->
  fst (Document.startXRef fuel s) = Ok pos.
Proof.
  intros s Hfront Hpos Hfuel Hlin.
  set (a := front ++ [0x0a]). set (tail := [0x0a] ++ dec pos ++ [0x0a] ++ js "%%EOF" ++ [0x0a]).
  destruct (dec_spec pos ltac:(lia)) as (Hd & _ & _ & Hne).
  assert (Hbytes : front ++ end_of_file pos = a ++ STARTXREF_SIGNATURE ++ tail).
  { unfold a, tail, end_of_file. rewrite int_text_dec, <- app_assoc by lia. done. }
  assert (Htail : (length tail <= 909)%nat).
  { unfold tail. rewrite !length_app. cbn [length js map String.list_ascii_of_string].
    pose proof (dec_length pos). assert (Z.log2 pos < 900); [|lia].
    destruct (Z.eq_dec pos 0) as [->|]; [done|]. apply Z.log2_lt_pow2; lia. }
  assert (Ht66 : 0x66 ∉ tail).
  { unfold tail. rewrite !not_elem_of_app. split_and!; try (apply (bool_decide_unpack _); by vm_compute).
    intros Hin. pose proof (proj1 (Forall_forall _ _) Hd _ Hin) as Hc. done. }
  assert (Hall : Forall is_byte (a ++ STARTXREF_SIGNATURE ++ tail)).
  { rewrite <- Hbytes. unfold end_of_file. apply Forall_app. split; [done|].
    repeat (apply Forall_app; split); first [apply literal_bytes | apply int_text_bytes; lia
      | repeat (constructor; [unfold is_byte; lia|]); constructor]. }
  unfold s in *. rewrite Hbytes in *. clear Hbytes. set (bytes := a ++ STARTXREF_SIGNATURE ++ tail) in *.
  assert (Hlen : len bytes = len a + 9 + len tail) by (unfold bytes; rewrite !len_app; change (len STARTXREF_SIGNATURE) with 9; lia).
  pose proof (len_nonneg a). assert (0 < len tail <= 909) by (unfold len in *; unfold tail in *; cbn [length app] in *; lia).
  unfold Document.startXRef. unfold mbind at 1. rewrite Hlin. unfold mbind at 1, get at 1.
  change (set_pos p (new_Stream bytes None None)) with (mkStream bytes 0 p (len bytes)). cbn [s_end].
  destruct (Z.to_nat (len bytes)) as [|turns] eqn:Et; [lia|]. cbn [find_startxref].
  rewrite (proj2 (Z.ltb_lt 0 _)) by lia.
  set (pos1 := Z.max 0 (len bytes - (step - len STARTXREF_SIGNATURE))).
  assert (Hpos1 : pos1 = Z.max 0 (len bytes - 1015)) by done. clearbody pos1.
  assert (Hfind := find_last_signature a tail pos1 Ht66 ltac:(discriminate) ltac:(lia) ltac:(fold bytes; lia)).
  cbv zeta in Hfind. fold bytes in Hfind.
  unfold mbind at 1 2, modify at 1. unfold set_pos at 1. cbn [s_bytes s_start s_pos s_end]. unfold mbind at 1.
  change step with 1024. rewrite Hfind. cbv iota. unfold mret at 1.
  unfold mbind at 1, skip at 1, modify at 1. change (jn_or (Some 9) 1) with 9. cbn [shift_pos Stream_source].
  unfold set_pos at 1. cbn [s_bytes s_start s_pos s_end].
  assert (Hr : rest (mkStream bytes 0 (len a + 9) (len bytes)) tail).
  { split; [split; cbn; auto; lia|]. change (tail = subarray bytes (len a + 9) (len bytes)). rewrite subarray_in by lia.
    unfold bytes at 2. rewrite app_assoc, drop_app_length' by (unfold len; rewrite length_app; cbn; lia).
    rewrite take_ge; [done|]. unfold len in *. lia. }
  destruct (dec pos) as [|c d] eqn:Edec; [done|]. unfold tail in Hr. cbn [app] in Hr.
  destruct (rest_cons _ _ _ Hr) as (s1 & E1 & Hr1 & _). destruct (rest_cons _ _ _ Hr1) as (s2 & E2 & Hr2 & _).
  destruct fuel as [|[|fuel]]; [lia|unfold len in *; lia|]. cbn [first_visible].
  unfold mbind at 1 2. rewrite E1. cbn [isWhiteSpace]. change (isWhiteSpace (Some 10)) with true. cbv iota.
  unfold mbind at 1. rewrite E2. pose proof Hd as Hd'. apply Forall_cons in Hd' as [Hc _]. apply digit_range in Hc.
  replace (isWhiteSpace (Some c)) with false.
  - unfold mret at 1, mbind at 1.
    destruct (number_text (S (S fuel)) (Some c) [] s2) as [res s3] eqn:En.
    assert (Hnum : fst (number_text (S (S fuel)) (Some c) [] s2) = Ok ([] ++ c :: d)).
    { apply (number_text_digits _ _ _ (js "%%EOF" ++ [0x0a])); [done|exact Hr2|].
      unfold tail in Hlen. unfold len in *. rewrite !length_app in Hlen. cbn in Hlen. lia. }
    rewrite En in Hnum. cbn in Hnum. subst res. unfold mret. cbn [fst app]. rewrite <- Edec, parseInt_dec by lia. done.
  - unfold isWhiteSpace. cbn [jn_is]. by rewrite !(proj2 (Z.eqb_neq c _)) by lia.
Qed.

(** ** The updated file *)

Section Updated.
Context (time : Z) (fetch : Z -> Z -> bool -> res value) (random : nat -> list Z)
  (deflate : list Z -> option (list Z)) (file : list Z) (fuel : nat).
Context (encrypt : option (Z -> Z -> CipherTransform)) (encrypt_ref : option (Z * Z))
  (tr : option CipherClass).
Context (random_iv : forall n, length (random n) = 16%nat /\ Forall is_byte (random n)).

(** The original data, ended by a line break. *)
Definition ended (orig : list Z) : list Z :=
  let lastByte := arr_get orig (len orig - 1) in
  if negb (jn_is lastByte 0x0a) && negb (jn_is lastByte 0x0d) then orig ++ [0x0a] else orig.

(** The changed objects as they were written, in any order. *)
Record written_list (changes : RefMap Payload) (l : list NewRef) : Prop := {
  wl_from : from_changes fuel encrypt encrypt_ref tr changes l;
  wl_all : forall c, c ∈ changes -> exists r, r ∈ l /\ written_as tr c r;
  wl_nodup : NoDup (map nr_num l);
  wl_refs : refs_ok l;
  wl_first : first_kept l;
  wl_zero : Forall (fun r => nr_num r = 0 -> nr_data r = None) l
}.

Lemma from_one_change (P : NewRef -> Prop) changes l :
  from_changes fuel encrypt encrypt_ref tr changes l ->
  (forall c r, change_ok fuel encrypt encrypt_ref tr c -> written_as tr c r -> P r) -> Forall P l.
Proof. intros Hl HP. eapply Forall_impl; [exact Hl|]. intros r (c & _ & Hc & Hw). by eapply HP. Qed.

Lemma written_is changes l : Forall (change_ok fuel encrypt encrypt_ref tr) changes ->
  NoDup (map (fun c => c.1.1) changes) -> Forall2 (written_as tr) changes l -> written_list changes (sort_refs l).
Proof.
  intros Hok Hnd Hl. pose proof (sort_refs_perm l) as Hperm.
  assert (Hnums : map nr_num l = map (fun c => c.1.1) changes).
  { clear - Hl. induction Hl as [|c r changes l [Hn _ _] _ IH]; [done|]. cbn [map]. by rewrite Hn, IH. }
  assert (Hfrom : from_changes fuel encrypt encrypt_ref tr changes (sort_refs l)).
  { unfold from_changes. rewrite Hperm. clear - Hok Hl. apply Forall_forall. intros r Hr.
    apply list_elem_of_lookup in Hr as [i Hi]. apply (Forall2_lookup_r _ _ _ _ _ Hl) in Hi as (c & Hc & Hw).
    exists c. split; [by eapply list_elem_of_lookup_2|]. split; [|done].
    apply (proj1 (Forall_forall _ _) Hok). by eapply list_elem_of_lookup_2. }
  split; [done| | | | |].
  - intros c Hc. apply list_elem_of_lookup in Hc as [i Hi].
    destruct (Forall2_lookup_l _ _ _ _ _ Hl Hi) as (r & Hr & Hw). exists r. split; [|done].
    rewrite Hperm. by eapply list_elem_of_lookup_2.
  - apply (Permutation_map nr_num) in Hperm. rewrite Hperm, Hnums. done.
  - apply (from_one_change _ changes); [done|]. intros c r (Hg & Hi & Hc) [-> -> _]. destruct c as [[num gen] [v| | |]]; try done;
      cbn in *; lia.
  - apply (from_one_change _ changes); [done|]. intros c r (Hg & Hi & Hc) [-> _ Hd] H1 Hnone.
    destruct c as [[num gen] [v| | |]]; try done; cbn in *; [by rewrite Hnone in Hd|lia].
  - apply (from_one_change _ changes); [done|]. intros c r (Hg & Hi & Hc) [-> _ Hd] H0.
    destruct c as [[num gen] [v| | |]]; try done; cbn in *; [lia|]. by destruct (nr_data r).
Qed.

Lemma incremental_update_written info changes acroForm acroFormRef orig :
  info_ok fuel info -> Forall is_byte orig -> Forall (change_ok fuel encrypt encrypt_ref tr) changes ->
  NoDup (map (fun c => c.1.1) changes) ->
  exists l trailer o w,
    let pos := len (ended orig) + len (data_of l) in
    let d := seen (computeIDs time pos info (getTrailerDict info changes false).1) in
    incrementalUpdate time fetch random deflate file fuel encrypt encrypt_ref orig info changes acroForm acroFormRef
      false false (mkWriter [] None 0) =
      (Ok (ended orig ++ data_of l ++ table_text l (len (ended orig)) trailer pos), w) /\
    written_list changes l /\ Forall is_byte trailer /\ readable true o = true /\
    map_strings (plain None) o = ODict d /\ plain_trailer d /\
    (forall q, prev_section d q = q ++ match startXRef info with Some (ONum n) => option_list (num_int n) | _ => [] end) /\
    (forall r ts, ends_word r -> spells None r ts -> spells None (trailer ++ r) (tokens o ++ ts)).
Proof.
  intros Hinfo Horig Hchanges Hnd.
  pose proof (trailer_of_update fuel info changes Hinfo) as Htr. unfold incrementalUpdate, updateAcroform.
  destruct (getTrailerDict info changes false) as [d0 changes'] eqn:Etr. destruct Htr as (-> & Hd0 & Hstm & Hprev).
  destruct (write_all_ok fetch random deflate file fuel encrypt encrypt_ref tr random_iv changes (mkWriter [] None 0) Hchanges eq_refl)
    as (l0 & w0 & E0 & Hw0 & Hl0).
  pose proof (written_is changes l0 Hchanges Hnd Hl0) as Hl. set (l := sort_refs l0) in *.
  unfold writeChanges. unfold mbind at 1 2. rewrite E0. unfold mret at 1. fold l. unfold ended.
  set (newline := negb _ && negb _). set (front := if newline then orig ++ [10] else orig).
  assert (Hbase : (if newline then len orig + 1 else len orig) = len front)
    by (unfold front; destruct newline; rewrite ?len_app; done).
  rewrite Hbase. set (nl := if newline then [10] else [] : list Z).
  assert (Hfront : front = orig ++ nl) by (unfold front, nl; destruct newline; by rewrite ?app_nil_r).
  assert (Hpush : (if newline then push [10] else mret tt) w0 = (Ok tt, pushed w0 nl)).
  { unfold nl. destruct newline; [done|]. unfold mret, pushed. rewrite app_nil_r. by destruct w0. }
  unfold mbind at 1. rewrite Hpush. change (concat (omap nr_data l)) with (data_of l).
  unfold mbind at 1, push at 1, modify at 1.
  destruct (getXRefTable_writes fuel time fetch random deflate random_iv info (len front) l d0
    (pushed (pushed w0 nl) (data_of l)) Hinfo Hd0 (wl_nodup _ _ Hl)) as (trailer & o & w1 & E1 & Hw1 & Htb & Ho & Hm & Hsp).
  rewrite len_data in Hw1, Hm. set (pos := len front + len (data_of l)) in *.
  exists l, trailer, o, w1. cbv zeta. cbn [fst]. fold pos.
  unfold mbind at 1. change (mkWriter _ _ _) with (pushed (pushed w0 nl) (data_of l)). rewrite E1.
  unfold mbind at 1, gets at 1, mret at 1. split_and!; try done.
  - f_equal. f_equal. rewrite Hw1. unfold pushed. cbn [w_buffer]. rewrite Hw0. cbn [app].
    unfold writeString. cbn [snd]. rewrite write_string_appends.
    + by rewrite Hfront, <- !app_assoc.
    + pose proof (len_nonneg front). pose proof (len_nonneg (data_of l)).
      apply Forall_app. split; [apply Forall_app; split|].
      * unfold nl. destruct newline; repeat constructor; unfold is_byte; lia.
      * by eapply data_bytes, wl_from.
      * apply table_bytes; [by apply Hl|lia|unfold pos; lia|done].
  - unfold plain_trailer, seen, getRaw. cbn [d_map]. fold (getRaw (computeIDs time pos info d0) (js "XRefStm")).
    fold (getRaw (computeIDs time pos info d0) (js "Prev")). rewrite !computeIDs_get, Hstm, Hprev by done.
    split; [done|]. destruct Hinfo as (_ & _ & Hs & _). destruct (startXRef info); [|done]. by destruct Hs as (n & -> & _).
  - intros q. unfold prev_section, seen, getRaw. cbn [d_map].
    fold (getRaw (computeIDs time pos info d0) (js "Prev")). rewrite computeIDs_get, Hprev by done.
    destruct (startXRef info) as [[]|]; rewrite ?app_nil_r; try done. by destruct (num_int n); rewrite ?app_nil_r.
Qed.
End Updated.

(** The object of a change stands in the file, at the offset of its entry. *)
Lemma updated_object fetch header generationFallback fuel encrypt encrypt_ref tr changes l front table num gen v x fuel' :
  let s := new_Stream (front ++ data_of l ++ table) None None in
  written_list fuel encrypt encrypt_ref tr changes l -> Forall (change_ok fuel encrypt encrypt_ref tr) changes ->
  ((num, gen), Value v) ∈ changes ->
  spells None table [OCmd (js "xref")] -> Forall is_byte front -> Forall is_byte table -> 0 < len front ->
  (length (front ++ data_of l ++ table) < fuel')%nat -> entries x !! num = None ->
  exists e, getEntry (add_lines l (len front) x) num = Some e /\
    fetchUncompressed fetch header generationFallback encrypt fuel' s num gen e false = Ok v.
Proof.
  intros s Hl Hok Hin Ht Hfront Htable Hpos Hf Hx.
  pose proof (proj1 (Forall_forall _ _) Hok _ Hin) as Hc. destruct (wl_all _ _ _ _ _ _ Hl _ Hin) as (r & Hr & Hw).
  apply list_elem_of_split in Hr as (l1 & l2 & ->). pose proof Hw as [Hnum Hgen Hd]. cbn in Hnum, Hgen, Hd.
  exists (mkEntry (offset_after l1 (len front)) gen false true). split.
  - unfold getEntry. rewrite <- Hnum. rewrite add_lines_at; [|..].
    + unfold line_entry. destruct (nr_data r); [|done]. cbn. rewrite Hgen, Z.min_l by apply Hc.
      rewrite (proj2 (Z.eqb_neq _ 0)); [done|]. pose proof (offset_after_le l1 (len front)). lia.
    + pose proof (wl_nodup _ _ _ _ _ _ Hl) as Hnd. rewrite map_app in Hnd. apply NoDup_app in Hnd as (_ & Hdis & _).
      intros Hin'. apply (Hdis _ Hin'). by left.
    + by rewrite Hnum.
  - apply (fetch_updated fetch header generationFallback encrypt encrypt_ref tr fuel fuel' changes); try done; [apply Hl|].
    destruct (nr_data r) as [text|] eqn:Edata; [|done]. destruct Hd as (_ & o & Ho & Hv & Hsp).
    pose proof (spells_length _ _ (Hsp [] [] (spells_start None _))) as Hlen. subst v. rewrite tokens_map_strings.
    rewrite app_nil_r in Hlen. cbn [length] in Hlen. rewrite length_app in Hlen.
    assert (Hd : (length text <= length (data_of (l1 ++ r :: l2)))%nat).
    { rewrite data_of_app. unfold data_of at 2. cbn [omap list_omap]. rewrite Edata. cbn [concat]. rewrite !length_app. lia. }
    rewrite !length_app in Hf.
    enough (OEOF ∉ OInt (nr_num r) :: OInt (nr_gen r) :: OCmd (js "obj") :: tokens o ++ [OCmd (js "endobj")])
      by (specialize (Hlen H); lia).
    rewrite !not_elem_of_cons, not_elem_of_app, not_elem_of_cons. split_and!; try done; [|apply not_elem_of_nil].
    by eapply tokens_not_eof.
Qed.

Lemma deleted_object fuel encrypt encrypt_ref tr changes l off num gen x :
  written_list fuel encrypt encrypt_ref tr changes l -> ((num, gen), Deleted) ∈ changes -> entries x !! num = None ->
  exists e, entries (add_lines l off x) !! num = Some e /\ e_free e = true.
Proof.
  intros Hl Hin Hx. destruct (wl_all _ _ _ _ _ _ Hl _ Hin) as (r & Hr & [Hnum Hgen Hd]). cbn in Hnum, Hgen, Hd.
  apply list_elem_of_split in Hr as (l1 & l2 & ->). rewrite <- Hnum. eexists. split.
  - apply add_lines_at; [|by rewrite Hnum].
    pose proof (wl_nodup _ _ _ _ _ _ Hl) as Hnd. rewrite map_app in Hnd. apply NoDup_app in Hnd as (_ & Hdis & _).
    intros Hin'. apply (Hdis _ Hin'). by left.
  - unfold line_entry. by destruct (nr_data r).
Qed.

Lemma getEntry_extends x x' n e : extends x x' -> getEntry x n = Some e -> getEntry x' n = Some e.
Proof.
  intros [He _] Hg. unfold getEntry in *. destruct (entries x !! n) as [e'|] eqn:E; [|done]. by rewrite (He _ _ E).
Qed.

(** [startXRef] finds the section of the update. *)
Lemma startXRef_of_update fuel front l trailer p :
  let pos := len front + len (data_of l) in
  let bytes := front ++ data_of l ++ table_text l (len front) trailer pos in
  let s := new_Stream bytes None None in
  Forall is_byte bytes -> (length bytes < fuel)%nat -> len bytes < 2 ^ 53 -> linearization fuel s = (Ok None, set_pos p s) ->
  fst (Document.startXRef fuel s) = Ok pos.
Proof.
  intros pos bytes s Hall Hf H53 Hlin. pose proof (len_nonneg front). pose proof (len_nonneg (data_of l)).
  set (F := front ++ data_of l ++ js "xref" ++ [0x0a] ++ runs_text (runs l) (len front) ++ js "trailer" ++ [0x0a] ++ trailer).
  assert (HF : bytes = F ++ end_of_file pos) by (unfold F, bytes, table_text; by rewrite <- !app_assoc).
  unfold s in *. rewrite HF in *. apply (startXRef_finds F pos p); [|split|done|done].
  - by apply Forall_app in Hall as [? _].
  - unfold pos. lia.
  - assert (pos <= len F) by (unfold pos, F; rewrite !len_app; repeat match goal with |- context [len ?u] =>
      lazymatch goal with _ : 0 <= len u |- _ => fail | _ => pose proof (len_nonneg u) end end; lia).
    rewrite len_app in H53. pose proof (len_nonneg (end_of_file pos)).
    assert (2 ^ 53 < 2 ^ 900) by (apply Z.pow_lt_mono_r; lia). lia.
Qed.

Lemma ended_facts orig : Forall is_byte orig -> Forall is_byte (ended orig) /\ 0 < len (ended orig) /\
  take (length orig) (ended orig) = orig.
Proof.
  intros Ho. unfold ended. destruct orig as [|b orig].
  { split_and!; [by repeat constructor; unfold is_byte; lia|done|done]. }
  destruct (negb _ && negb _); split_and!; try done; try (unfold len; cbn; lia).
  - apply Forall_app. split; [done|]. repeat constructor; unfold is_byte; lia.
  - apply take_app_length.
  - apply firstn_all.
Qed.

(** [readXRef] after its first section: what that one gave stays, whatever older
    sections hold. *)
Lemma sections_end fetch fuel turns stream parsed x :
  (sections fetch fuel turns stream parsed x).1 = Ok tt \/ (sections fetch fuel turns stream parsed x).1 = OutOfFuel.
Proof.
  revert parsed x. induction turns as [|turns IH]; intros parsed x; cbn [sections]; destruct (startXRefQueue x) as [|pos queue]; auto.
  case_bool_decide; [apply IH|]. unfold mbind, modify.
  assert (Hone : (section_at fetch fuel stream pos x).1 = Ok tt \/ (section_at fetch fuel stream pos x).1 = OutOfFuel).
  { unfold section_at. destruct (new_Lexer _) as [l| |]; auto. destruct (new_Parser None l None) as [p| |]; auto.
    destruct (read_section _ _ _ _) as [[u| |] r]; auto. }
  destruct (section_at fetch fuel stream pos x) as [r x1]. destruct Hone as [E|E]; cbn in E; subst r; [apply IH|auto].
Qed.

Lemma readXRef_first fetch fuel turns stream recoveryMode pos x x1 d :
  startXRefQueue x = [pos] -> section_at fetch fuel stream pos x = (Ok tt, x1) -> topDict x1 = Some d ->
  exists r x2, readXRef fetch fuel (S turns) stream recoveryMode x = (r, x2) /\ extends x1 x2 /\
    (r = Ok (Some d) \/ r = OutOfFuel /\ tail (startXRefQueue x1) <> []).
Proof.
  intros Hq E Hd. unfold readXRef. cbn [sections]. unfold mbind at 1. rewrite Hq. rewrite bool_decide_eq_false_2 by set_solver.
  unfold mbind at 1. rewrite E. unfold mbind at 1, modify at 1.
  set (x1' := set_queue (tail (startXRefQueue x1)) x1).
  pose proof (keeps_sections fetch fuel turns stream ({[pos]} ∪ ∅) x1') as Hk.
  pose proof (sections_end fetch fuel turns stream ({[pos]} ∪ ∅) x1') as He.
  assert (Hempty : tail (startXRefQueue x1) = [] -> sections fetch fuel turns stream ({[pos]} ∪ ∅) x1' = (Ok tt, x1')).
  { intros Ht. unfold x1'. rewrite Ht. by destruct turns. }
  destruct (sections fetch fuel turns stream ({[pos]} ∪ ∅) x1') as [r x2]. cbn [fst snd id] in *.
  assert (Hx : extends x1 x2) by (etrans; [|exact Hk]; by split).
  destruct He as [->| ->].
  - unfold mbind, get. rewrite (proj2 Hx d Hd). exists (Ok (Some d)), x2. auto.
  - exists OutOfFuel, x2. split_and!; [done|done|]. right. split; [done|]. intros Ht. by specialize (Hempty Ht).
Qed.

(** C1. An updated document opens at its update.  [incrementalUpdate] on the
    bytes of a document and changed objects (those of C2, encrypted or not; or
    deletions), written as a table, returns bytes that start with the original
    ones and in which [startXRef] finds the new section.  [readXRef] from there
    returns the trailer of the update, whose entries are those of
    [trailer_entry]; its table has an entry for each changed object, from which
    [fetchUncompressed] returns the object as it was written, and free entries
    for the deleted ones.  This holds whatever the older sections of the file
    hold, broken ones included; only reading these may take longer than the
    turns or fuel given.  The file is shorter than 2^53 bytes. *)
Theorem updated_file_reopens time fetch random deflate file fuel encrypt encrypt_ref tr header generationFallback
    info changes acroForm acroFormRef orig
  (Hrandom : forall n, length (random n) = 16%nat /\ Forall is_byte (random n))
  (Hinfo : info_ok fuel info) (Horig : Forall is_byte orig)
  (Hchanges : Forall (change_ok fuel encrypt encrypt_ref tr) changes)
  (Hnodup : NoDup (map (fun c => c.1.1) changes)) :
  exists bytes pos w,
    incrementalUpdate time fetch random deflate file fuel encrypt encrypt_ref orig info changes acroForm acroFormRef
      false false (mkWriter [] None 0) = (Ok bytes, w) /\
    take (length orig) bytes = orig /\
    forall fuel' turns recoveryMode, (length bytes < fuel')%nat -> (0 < turns)%nat -> len bytes < 2 ^ 53 ->
    let s := new_Stream bytes None None in
    (forall p, linearization fuel' s = (Ok None, set_pos p s) -> fst (Document.startXRef fuel' s) = Ok pos) /\
    exists d r x, readXRef fetch fuel' turns s recoveryMode (setStartXRef pos new_XRef) = (r, x) /\
      (r = Ok (Some d) \/ r = OutOfFuel /\ startXRef info <> None) /\ topDict x = Some d /\
      (forall k, getRaw d k = trailer_entry time pos info k) /\
      (forall num gen v, ((num, gen), Value v) ∈ changes ->
        exists e, getEntry x num = Some e /\
          fetchUncompressed fetch header generationFallback encrypt fuel' s num gen e false = Ok v) /\
      (forall num gen, ((num, gen), Deleted) ∈ changes ->
        exists e, entries x !! num = Some e /\ e_free e = true).
Proof.
  destruct (incremental_update_written time fetch random deflate file fuel encrypt encrypt_ref tr Hrandom info changes
    acroForm acroFormRef orig Hinfo Horig Hchanges Hnodup) as (l & trailer & o & w & E & Hl & Htr & Ho & Hm & Hpt & Hprev & Hsp).
  destruct (ended_facts orig Horig) as (Hfront & Hpos & Htake).
  eexists _, _, w. split; [exact E|]. split.
  { rewrite take_app_le; [done|]. rewrite <- Htake at 1. rewrite length_take. lia. }
  set (front := ended orig) in *. set (pos := len front + len (data_of l)) in *.
  intros fuel' turns recoveryMode Hf Hturns H53 s. pose proof (len_nonneg (data_of l)) as Hdl.
  assert (Hlast : pos < 2 ^ 53).
  { rewrite !len_app in H53. pose proof (len_nonneg (table_text l (len front) trailer pos)). unfold pos. lia. }
  assert (Htable : Forall is_byte (table_text l (len front) trailer pos)) by (apply table_bytes; [by apply Hl|lia|lia|done]).
  assert (Hdata : Forall is_byte (data_of l)) by (by eapply data_bytes, wl_from).
  assert (Hxref : spells None (table_text l (len front) trailer pos) [OCmd (js "xref")]).
  { eapply spells_prefix; [|done].
    apply (spells_section l (len front) trailer o pos (wl_refs _ _ _ _ _ _ Hl)); [lia|rewrite len_data; unfold pos in *; lia|done]. }
  split.
  { intros p Hlin. apply (startXRef_of_update fuel' front l trailer p); try done. apply Forall_app. split; [done|]. by apply Forall_app. }
  destruct (add_lines_fields l (len front) (setStartXRef pos new_XRef)) as (Ht & Htop & Hq & _).
  set (d := seen (computeIDs time pos info (getTrailerDict info changes false).1)) in *.
  set (x1 := with_section pos d (add_lines l (len front) (setStartXRef pos new_XRef))).
  assert (E1 : section_at fetch fuel' s pos (setStartXRef pos new_XRef) = (Ok tt, x1)).
  { pose proof (wl_refs _ _ _ _ _ _ Hl) as Hrefs.
    pose proof (table_length l (len front) trailer o pos Hrefs ltac:(lia) ltac:(rewrite len_data; unfold pos in *; lia) Ho Hsp).
    apply (section_of_update fetch fuel' front l trailer o d); try done; try apply Hl.
    rewrite !length_app in Hf. lia. }
  destruct turns as [|turns]; [lia|].
  destruct (readXRef_first fetch fuel' turns s recoveryMode pos (setStartXRef pos new_XRef) x1 d eq_refl E1)
    as (r & x & Er & Hx & Hr).
  { unfold x1, with_section, keep_topDict. by rewrite Htop. }
  exists d, r, x. split; [done|]. split; [|split; [|split; [|split]]].
  - destruct Hr as [->|[-> Hne]]; [by left|right; split; [done|]]. intros Hn. apply Hne.
    assert (Hwq : startXRefQueue x1 = prev_section d (startXRefQueue (add_lines l (len front) (setStartXRef pos new_XRef))))
      by (unfold x1, with_section, keep_topDict; by rewrite Htop).
    rewrite Hwq, Hprev, Hq, Hn. done.
  - apply Hx. unfold x1, with_section, keep_topDict. by rewrite Htop.
  - intros k. apply trailer_entries.
  - intros num gen v Hin.
    destruct (updated_object fetch header generationFallback fuel encrypt encrypt_ref tr changes l front
      (table_text l (len front) trailer pos) num gen v (setStartXRef pos new_XRef) fuel') as (e & He & Hfetch); try done.
    exists e. split; [|done]. apply (getEntry_extends x1); [done|]. unfold x1, with_section, keep_topDict. by rewrite Htop.
  - intros num gen Hin. destruct (deleted_object fuel encrypt encrypt_ref tr changes l (len front) num gen (setStartXRef pos new_XRef) Hl Hin eq_refl)
      as (e & He & Hfree).
    exists e. split; [|done]. apply Hx. unfold x1, with_section, keep_topDict. by rewrite Htop.
Qed.

(** A document with a form field to change, an annotation to delete and an
    object in RC4. *)
Definition sample_info : XRefInfo :=
  mkXRefInfo (Some (ORef 2 0)) None None (9, 0) (Some (OArr [ONull; ONull])) (Some (OInt 116)) None [].
Definition sample_cipher : Z -> Z -> CipherTransform :=
  fun _ _ => new_CipherTransform (fun _ => Ok (ClassARCFour [1; 2; 3; 4; 5])) None None.
Definition sample_changes : RefMap Payload :=
  [((3, 0), Value (OArr [OStr (js "hi"); OInt 7])); ((7, 1), Deleted); ((2, 0), Value (OName (js "A B")))].

Lemma updated_file_reopens_witness : exists bytes pos w,
    incrementalUpdate 5 (fun _ _ _ => Ok None) (fun _ => replicate 16 0) (fun _ => None) [] 5 (Some sample_cipher) None
      (js "%PDF-1.4") sample_info sample_changes (new_Dict false) (1, 0) false false (mkWriter [] None 0) = (Ok bytes, w) /\
    take (length (js "%PDF-1.4")) bytes = js "%PDF-1.4" /\
    forall fuel' turns recoveryMode, (length bytes < fuel')%nat -> (0 < turns)%nat -> len bytes < 2 ^ 53 ->
    let s := new_Stream bytes None None in
    (forall p, linearization fuel' s = (Ok None, set_pos p s) -> fst (Document.startXRef fuel' s) = Ok pos) /\
    exists d r x, readXRef (fun _ _ _ => Ok None) fuel' turns s recoveryMode (setStartXRef pos new_XRef) = (r, x) /\
      (r = Ok (Some d) \/ r = OutOfFuel /\ startXRef sample_info <> None) /\ topDict x = Some d /\
      (forall k, getRaw d k = trailer_entry 5 pos sample_info k) /\
      (forall num gen v, ((num, gen), Value v) ∈ sample_changes ->
        exists e, getEntry x num = Some e /\
          fetchUncompressed (fun _ _ _ => Ok None) (fun _ => OutOfFuel) false (Some sample_cipher) fuel' s num gen e false = Ok v) /\
      (forall num gen, ((num, gen), Deleted) ∈ sample_changes ->
        exists e, entries x !! num = Some e /\ e_free e = true).
Proof.
  apply (updated_file_reopens 5 (fun _ _ _ => Ok None) (fun _ => replicate 16 0) (fun _ => None) [] 5 (Some sample_cipher)
    None (Some (ClassARCFour [1; 2; 3; 4; 5])) (fun _ => OutOfFuel) false sample_info sample_changes (new_Dict false) (1, 0)
    (js "%PDF-1.4")).
  - intros n. split; [reflexivity|]. repeat constructor; unfold is_byte; lia.
  - split_and!; [repeat constructor; cbn; lia|split_and!; [reflexivity|reflexivity|cbn; lia]|exists 116; by split|cbn; lia|cbn; lia|lia].
  - apply literal_bytes.
  - repeat constructor; cbn; try lia; try done.
  - apply (bool_decide_unpack _). vm_compute. exact I.
Defined.

(** The text of a list of changes of a small file, and its table read. *)
Definition update_and_read (changes : RefMap Payload) (pos : Z) : option XRef :=
  match incrementalUpdate 5 (fun _ _ _ => Ok None) (fun _ => []) (fun _ => None) [] 5 None None
      (js "%PDF-1.4" ++ [0x0a]) (mkXRefInfo None None None (9, 0) None None None []) changes (new_Dict false) (1, 0)
      false false (mkWriter [] None 0) with
  | (Ok bytes, _) =>
      match readXRef (fun _ _ _ => Ok None) (length bytes) 2 (new_Stream bytes None None) false (setStartXRef pos new_XRef) with
      | (Ok (Some _), x) => Some x
      | _ => None
      end
  | _ => None
  end.

(** An update that deletes object 1 is misread: its section starts with a free
    entry for object 1, which [readXRefTable] takes for object 0, and all the
    entries of the subsection move down by one.  The new object 2 gets no entry,
    object 1, which was deleted, has the place of object 2, and the reader does
    not notice. *)
Example deleted_first_object_shifts :
  exists x, update_and_read [((1, 0), Deleted); ((2, 0), Value (OInt 5))] 26 = Some x /\
    getEntry x 1 = Some (mkEntry 9 0 false true) /\ entries x !! 2 = None /\ xrefSectionsComplete x = true.
Proof. eexists. split; [vm_compute; reflexivity|]. split_and!; reflexivity. Qed.
