(* ===== verification/XrefStreamSpec.v ===== *)
(** * A cross-reference stream is read back

    The rows [getXRefStreamTable] writes into its stream are the entries
    [readXRefStream] reads from any byte source that holds them.  A field is
    written and read with 32-bit operators, so that a number comes back as its
    low 32 bits with a sign. *)
From stdpp Require Import gmap.
From S2P Require Import Prelude JsBits ByteStream DecodeStream Predictor Primitives Crypto CryptoSpec Lexer Writer.
From S2P Require Import Xref XrefTable Update UpdateSpec Reopen.
Local Open Scope js_scope.

(** ** A field *)

(** The last [w] bytes of an integer, the most significant first. *)
Fixpoint field_bytes (w : nat) (v : Z) : list Z :=
  match w with O => [] | S w => field_bytes w (v / 256) ++ [v mod 256] end.

Lemma length_field_bytes w v : length (field_bytes w v) = w.
Proof. revert v. induction w as [|w IH]; intros v; cbn; [done|]. rewrite length_app, IH. cbn. lia. Qed.

Lemma field_bytes_bytes w v : Forall is_byte (field_bytes w v).
Proof.
  revert v. induction w as [|w IH]; intros v; cbn; [constructor|]. apply Forall_app. split; [done|].
  apply Forall_singleton. unfold is_byte. apply Z.mod_pos_bound. lia.
Qed.

Lemma js_sar_8 v : v .>> 8 = to_int32 v / 256.
Proof. unfold js_sar. by rewrite Z.shiftr_div_pow2 by done. Qed.

Lemma to_int32_idem v : to_int32 (to_int32 v) = to_int32 v.
Proof. apply to_int32_small, to_int32_range. Qed.

Lemma arr_set_last (pre : list Z) x v post : arr_set (pre ++ x :: post) (len pre) v = pre ++ v :: post.
Proof.
  unfold arr_set. rewrite (proj2 (Z.ltb_ge _ 0)) by (apply len_nonneg). unfold len. rewrite Nat2Z.id.
  rewrite insert_app_r_alt by lia. by rewrite Nat.sub_diag.
Qed.

(** [writeInt] writes the last bytes of the number as a 32-bit integer. *)
Lemma write_int_loop_bytes w v pre old post : length old = w ->
  write_int_loop w v (len pre) (pre ++ old ++ post) = pre ++ field_bytes w (to_int32 v) ++ post.
Proof.
  revert v old post. induction w as [|w IH]; intros v old post Hl.
  - by destruct old.
  - destruct (exists_last (l := old)) as (old' & x & ->); [by intros ->|].
    rewrite length_app in Hl. cbn in Hl. cbn [write_int_loop field_bytes].
    assert (E : arr_set (pre ++ (old' ++ [x]) ++ post) (len pre + Z.of_nat w) (v .& 0xff) =
      pre ++ old' ++ (v mod 256 :: post)).
    { rewrite <- app_assoc. cbn [app]. rewrite (app_assoc pre old').
      replace (len pre + Z.of_nat w) with (len (pre ++ old')) by (rewrite len_app; unfold len; lia).
      rewrite arr_set_last, js_and_255. by rewrite <- app_assoc. }
    rewrite E, IH by lia. rewrite js_sar_8, <- !app_assoc. cbn [app].
    assert (Hr : to_int32 (to_int32 v / 256) = to_int32 v / 256).
    { pose proof (to_int32_range v). apply to_int32_small. split; [apply Z.div_le_lower_bound|apply Z.div_lt_upper_bound]; lia. }
    rewrite Hr. do 3 f_equal. pose proof (to_int32_mod v 8 ltac:(lia)) as H8. by change (2 ^ 8) with 256 in H8.
Qed.

Lemma to_int32_unique x y k : - 2 ^ 31 <= x < 2 ^ 31 -> x = y + k * 2 ^ 32 -> x = to_int32 y.
Proof. intros Hx E. destruct (to_int32_eqm y) as [j Hj]. pose proof (to_int32_range y). nia. Qed.

Lemma to_int32_plus x k : to_int32 (x + k * 2 ^ 32) = to_int32 x.
Proof.
  destruct (to_int32_eqm (x + k * 2 ^ 32)) as [j Hj]. apply (to_int32_unique _ _ (k + j)); [apply to_int32_range|lia].
Qed.

(** A byte shifted into a 32-bit integer. *)
Lemma shift_in a b : 0 <= b < 256 -> (a .<< 8) .| b = to_int32 (a * 256 + b).
Proof.
  intros Hb. unfold js_or, js_shl. change (8 mod 32) with 8. rewrite to_int32_idem, Z.shiftl_mul_pow2 by lia.
  rewrite (to_int32_small b) by lia. change (2 ^ 8) with 256.
  destruct (to_int32_eqm (to_int32 a * 256)) as [k Ek]. destruct (to_int32_eqm a) as [j Ej].
  pose proof (to_int32_range (to_int32 a * 256)) as Hr.
  assert (E : to_int32 (to_int32 a * 256) = (to_int32 a + k * 2 ^ 24) * 256) by lia.
  set (q := to_int32 a + k * 2 ^ 24) in *. rewrite E in *.
  assert (Hlor : Z.lor (q * 256) b = q * 256 + b).
  { pose proof (lor_shiftl_add b q 8 ltac:(lia) Hb) as L. rewrite Z.shiftl_mul_pow2 in L by lia.
    change (2 ^ 8) with 256 in L. rewrite Z.lor_comm. lia. }
  rewrite Hlor. apply (to_int32_unique _ _ (j * 256 + k)); lia.
Qed.

(** The bytes of a field read one after the other. *)
Definition read_bytes (acc : Z) (l : list Z) : Z := fold_left (fun acc b => (acc .<< 8) .| b) l acc.

Lemma read_bytes_field w v acc : (0 < w)%nat ->
  read_bytes acc (field_bytes w v) = to_int32 (acc * 256 ^ Z.of_nat w + v mod 256 ^ Z.of_nat w).
Proof.
  revert v. induction w as [|w IH]; intros v Hw; [lia|]. cbn [field_bytes]. unfold read_bytes. rewrite fold_left_app. cbn [fold_left].
  fold (read_bytes acc (field_bytes w (v / 256))). rewrite shift_in by (apply Z.mod_pos_bound; lia).
  assert (Hs : v mod 256 ^ Z.of_nat (S w) = (v / 256) mod 256 ^ Z.of_nat w * 256 + v mod 256).
  { rewrite Nat2Z.inj_succ, Z.pow_succ_r by lia. rewrite Z.rem_mul_r by lia. lia. }
  rewrite Hs, (Nat2Z.inj_succ w), Z.pow_succ_r by lia. destruct (decide (w = 0%nat)) as [->|Hne].
  - cbn [field_bytes read_bytes fold_left]. change (256 ^ Z.of_nat 0) with 1. rewrite Z.mod_1_r. f_equal; lia.
  - rewrite IH by lia. destruct (to_int32_eqm (acc * 256 ^ Z.of_nat w + (v / 256) mod 256 ^ Z.of_nat w)) as [k ->].
    rewrite <- (to_int32_plus _ (- k * 256)). f_equal. lia.
Qed.

(** The bytes that a number below [2^31] needs, and all of its 32 bits for a
    greater one. *)
Lemma size_bound x : 0 <= x -> x < 256 ^ getSizeInBytes x.
Proof.
  intros Hx. unfold getSizeInBytes. pose proof (Z.log2_up_nonneg (1 + x)).
  assert (Hl : 1 + x <= 2 ^ Z.log2_up (1 + x)).
  { destruct (decide (x = 0)) as [->|]; [done|]. apply Z.log2_up_spec. lia. }
  assert (Hp : 2 ^ Z.log2_up (1 + x) <= 256 ^ ((Z.log2_up (1 + x) + 7) / 8)).
  { change 256 with (2 ^ 8). rewrite <- Z.pow_mul_r by (try apply Z.div_pos; lia). apply Z.pow_le_mono_r; [lia|].
    pose proof (Z.div_mod (Z.log2_up (1 + x) + 7) 8 ltac:(lia)). pose proof (Z.mod_pos_bound (Z.log2_up (1 + x) + 7) 8 ltac:(lia)). lia. }
  lia.
Qed.

Lemma size_nonneg x : 0 <= getSizeInBytes x.
Proof. apply Z.div_pos; [|lia]. pose proof (Z.log2_up_nonneg (1 + x)). lia. Qed.

(** A number that was written into a field of enough bytes, as it is read. *)
Lemma field_read x w : 0 <= x < 256 ^ w -> 0 <= w ->
  read_bytes 0 (field_bytes (Z.to_nat w) (to_int32 x)) = to_int32 x.
Proof.
  intros Hx Hw. destruct (decide (w = 0)) as [->|Hne].
  - change (256 ^ 0) with 1 in Hx. by replace x with 0 by lia.
  - rewrite read_bytes_field, Z2Nat.id by lia. rewrite Z.mul_0_l, Z.add_0_l. destruct (decide (w <= 3)).
    + assert (256 ^ w <= 2 ^ 24) by (change (2 ^ 24) with (256 ^ 3); apply Z.pow_le_mono_r; lia).
      rewrite (to_int32_small x) by lia. rewrite Z.mod_small by lia. apply to_int32_small. lia.
    + replace w with (4 + (w - 4)) by lia. rewrite Z.pow_add_r by lia. change (256 ^ 4) with (2 ^ 32).
      set (p := 256 ^ (w - 4)). assert (0 < p) by (apply Z.pow_pos_nonneg; lia).
      rewrite Z.rem_mul_r by lia. rewrite (Z.mul_comm (2 ^ 32)), to_int32_plus.
      rewrite (to_int32_mod x 32) by lia. symmetry.
      rewrite (Z.div_mod x (2 ^ 32)) at 1 by lia. rewrite (Z.add_comm (_ * _)), (Z.mul_comm (2 ^ 32)). apply to_int32_plus.
Qed.

(** ** The rows *)

Definition row_of (r : NewRef) (off : Z) : Z * Z * Z :=
  match nr_objStream r, nr_data r with
  | Some (objStreamNum, index), _ => (2, objStreamNum, index)
  | None, Some _ => (1, off, Z.min (nr_gen r) 0xffff)
  | None, None => (0, 0, Z.min (nr_gen r + 1) 0xffff)
  end.
(** Where the next object starts. *)
Definition row_end (off : Z) (r : NewRef) : Z :=
  match nr_objStream r with Some _ => off | None => next_offset off r end.
Definition rows_end (l : list NewRef) (off : Z) : Z := fold_left row_end l off.
Fixpoint rows_of (l : list NewRef) (off : Z) : list (Z * Z * Z) :=
  match l with [] => [] | r :: l => row_of r off :: rows_of l (row_end off r) end.

Definition row_bytes (w1 w2 : Z) (row : Z * Z * Z) : list Z :=
  let '(type, offset, gen) := row in
  field_bytes 1 (to_int32 type) ++ field_bytes (Z.to_nat w1) (to_int32 offset) ++ field_bytes (Z.to_nat w2) (to_int32 gen).

Lemma length_row w1 w2 row : length (row_bytes w1 w2 row) = (1 + Z.to_nat w1 + Z.to_nat w2)%nat.
Proof. destruct row as [[t o] g]. unfold row_bytes. rewrite !length_app, !length_field_bytes. lia. Qed.

Lemma row_bytes_bytes w1 w2 row : Forall is_byte (row_bytes w1 w2 row).
Proof. destruct row as [[t o] g]. unfold row_bytes. rewrite !Forall_app. split_and!; apply field_bytes_bytes. Qed.

Lemma write_field v w pre old post : 0 <= w -> length old = Z.to_nat w ->
  writeInt v w (len pre) (pre ++ old ++ post) =
  (len (pre ++ field_bytes (Z.to_nat w) (to_int32 v)), (pre ++ field_bytes (Z.to_nat w) (to_int32 v)) ++ post).
Proof.
  intros Hw Hl. unfold writeInt. rewrite write_int_loop_bytes by done.
  rewrite len_app, app_assoc. f_equal. unfold len at 3. rewrite length_field_bytes. lia.
Qed.

Lemma take_drop_app (n : nat) (l : list Z) : (n <= length l)%nat -> exists a b, l = a ++ b /\ length a = n.
Proof. intros Hn. exists (take n l), (drop n l). by rewrite take_drop, length_take_le. Qed.

Lemma write_rows_bytes rows w1 w2 pre old : 0 <= w1 -> 0 <= w2 ->
  length old = (length rows * (1 + Z.to_nat w1 + Z.to_nat w2))%nat ->
  write_rows rows 1 w1 w2 (len pre) (pre ++ old) = pre ++ concat (map (row_bytes w1 w2) rows).
Proof.
  intros H1 H2. revert pre old. induction rows as [|[[t o] g] rows IH]; intros pre old Hl.
  - cbn in Hl. by destruct old.
  - cbn [length] in Hl. destruct (take_drop_app 1 old) as (a & old1 & -> & Ha); [lia|]. rewrite length_app in Hl.
    destruct (take_drop_app (Z.to_nat w1) old1) as (b & old2 & -> & Hb); [lia|]. rewrite length_app in Hl.
    destruct (take_drop_app (Z.to_nat w2) old2) as (c & old3 & -> & Hc); [lia|]. rewrite length_app in Hl.
    cbn [write_rows]. rewrite (write_field t 1) by (done || lia). cbv iota beta.
    rewrite (write_field o w1) by done. cbv iota beta. rewrite (write_field g w2) by done. cbv iota beta.
    rewrite IH by lia. cbn [map concat]. unfold row_bytes. by rewrite <- !app_assoc.
Qed.

Lemma table_rows_row r l off mo mg rows :
  table_rows (r :: l) off mo mg rows =
  table_rows l (row_end off r) (Z.max mo off) (Z.max mg (row_of r off).2) (rows ++ [row_of r off]).
Proof.
  cbn [table_rows]. unfold row_end, row_of, next_offset.
  destruct (nr_objStream r) as [[n i]|]; [done|]. destruct (nr_data r); [done|].
  cbn [default from_option id snd]. change (len ([] : jstr)) with 0. by rewrite (Z.add_0_r off).
Qed.

Lemma row_end_le off r : off <= row_end off r.
Proof. unfold row_end. pose proof (next_offset_le off r). destruct (nr_objStream r); lia. Qed.

Lemma row_offset r off : 0 <= off -> (row_of r off).1.1 <> 2 -> 0 <= (row_of r off).1.2 <= off.
Proof.
  intros Hoff. unfold row_of. destruct (nr_objStream r) as [[n i]|]; [done|]. destruct (nr_data r); cbn; lia.
Qed.

(** [table_rows], and the greatest numbers of its fields. *)
Lemma table_rows_of l off mo mg rows : 0 <= off ->
  exists mo' mg', table_rows l off mo mg rows = (rows_end l off, mo', mg', rows ++ rows_of l off) /\
    mo <= mo' /\ mg <= mg' /\ (l <> [] -> off <= mo') /\ Forall (fun row => row.2 <= mg' /\ (row.1.1 <> 2 -> 0 <= row.1.2 <= mo')) (rows_of l off).
Proof.
  revert off mo mg rows. induction l as [|r l IH]; intros off mo mg rows Hoff.
  { exists mo, mg. cbn. rewrite app_nil_r. by split_and!. }
  rewrite table_rows_row. pose proof (row_end_le off r) as Hn.
  destruct (IH (row_end off r) (Z.max mo off) (Z.max mg (row_of r off).2) (rows ++ [row_of r off]))
    as (mo' & mg' & -> & Ho & Hg & _ & Hall); [lia|].
  exists mo', mg'. split_and!; [by rewrite <- app_assoc|lia|lia|lia|]. cbn [rows_of]. constructor; [|done].
  split; [lia|]. intros Ht. pose proof (row_offset r off Hoff Ht). lia.
Qed.

(** ** Reading the rows *)

Definition row_entry (row : Z * Z * Z) : XRefEntry :=
  let '(type, offset, gen) := row in mkEntry (to_int32 offset) (to_int32 gen) (type =? 0) (type =? 1).
Definition row_ok (w1 w2 : Z) (row : Z * Z * Z) : Prop :=
  0 <= row.1.1 <= 2 /\ 0 <= row.1.2 < 256 ^ w1 /\ 0 <= row.2 < 256 ^ w2.

(** The entries of the changed objects, the first of a number wins. *)
Fixpoint add_rows (l : list NewRef) (off : Z) (x : XRef) : XRef :=
  match l with
  | [] => x
  | r :: l => add_rows l (row_end off r) (add_entry (nr_num r) (row_entry (row_of r off)) x)
  end.

Lemma add_rows_app l l' off x : add_rows (l ++ l') off x = add_rows l' (rows_end l off) (add_rows l off x).
Proof. revert off x. induction l as [|r l IH]; intros off x; [done|]. apply IH. Qed.

Lemma rows_of_app l l' off : rows_of (l ++ l') off = rows_of l off ++ rows_of l' (rows_end l off).
Proof. revert off. induction l as [|r l IH]; intros off; [done|]. cbn [app rows_of]. by rewrite IH. Qed.

Section Read.
Context {S : Type} `{SourceSpec S} `{Seekable S}.

(** The table [x], but for how far reading is, and the bytes [r] to come. *)
Definition at_row (x : XRef) (r : list Z) (st : XRef * S) : Prop :=
  set_streamState None st.1 = x /\ rest st.2 r.
Definition reads_rows {A} (m : M (XRef * S) A) x r (a : A) x' r' : Prop :=
  forall st, at_row x r st -> exists st', m st = (Ok a, st') /\ at_row x' r' st'.

Lemma reads_rows_bind {A B} (m : M (XRef * S) A) (k : A -> M (XRef * S) B) x r a x1 r1 b x2 r2 :
  reads_rows m x r a x1 r1 -> reads_rows (k a) x1 r1 b x2 r2 -> reads_rows (mbind m k) x r b x2 r2.
Proof. intros Hm Hk st Hst. destruct (Hm st Hst) as (st1 & E & Hst1). unfold mbind. rewrite E. by apply Hk. Qed.

Lemma reads_rows_ret {A} (a : A) x r : reads_rows (mret a) x r a x r.
Proof. intros st Hst. by exists st. Qed.

Lemma reads_row_byte b r x : reads_rows (on_src getByte) x (b :: r) (Some b) x r.
Proof.
  intros [y s] [Hy Hr]. destruct (rest_cons s b r Hr) as (s' & E & Hs & _).
  unfold on_src, zoom. cbn [snd fst]. rewrite E. eexists. split; [reflexivity|]. by split.
Qed.

Lemma reads_field l r x acc name : Forall is_byte l ->
  reads_rows (read_field (length l) acc name) x (l ++ r) (read_bytes acc l) x r.
Proof.
  intros Hl. revert acc. induction Hl as [|b l Hb Hl IH]; intros acc; [apply reads_rows_ret|].
  cbn [length read_field app]. eapply reads_rows_bind; [apply reads_row_byte|].
  unfold is_byte in Hb. assert (E : jn_is (Some b) (-1) = false) by (apply Z.eqb_neq; lia).
  rewrite E. apply IH.
Qed.

Lemma reads_number w v r x name : 0 <= w -> 0 <= v < 256 ^ w ->
  reads_rows (read_field (Z.to_nat w) 0 name) x (field_bytes (Z.to_nat w) (to_int32 v) ++ r) (to_int32 v) x r.
Proof.
  intros Hw Hv st Hst. pose proof (reads_field _ r x 0 name (field_bytes_bytes (Z.to_nat w) (to_int32 v)) st Hst) as Hf.
  by rewrite length_field_bytes, field_read in Hf.
Qed.

Lemma reads_row w1 w2 row r x : 0 <= w1 -> 0 <= w2 -> row_ok w1 w2 row ->
  reads_rows (read_stream_entry 1 w1 w2) x (row_bytes w1 w2 row ++ r) (row_entry row) x r.
Proof.
  intros Hw1 Hw2. destruct row as [[t o] g]. intros (Ht & Ho & Hg). cbn [fst snd] in *.
  unfold read_stream_entry, row_bytes. rewrite <- !app_assoc.
  eapply reads_rows_bind; [apply (reads_number 1); [lia|change (256 ^ 1) with 256; lia]|].
  rewrite to_int32_small by lia. change (1 =? 0) with false. cbv iota.
  eapply reads_rows_bind; [by apply reads_number|].
  eapply reads_rows_bind; [by apply reads_number|]. unfold row_entry.
  assert (Hc : t = 0 \/ t = 1 \/ t = 2) by lia.
  destruct Hc as [->|[->| ->]]; apply reads_rows_ret.
Qed.

Lemma reads_set_stream t x r : reads_rows (set_stream t) x r tt x r.
Proof. intros [y s] [Hy Hr]. eexists. split; [reflexivity|]. split; [|done]. by rewrite <- Hy. Qed.

Lemma reads_add_row n v x r : reads_rows (on_table (modify (add_entry n v))) x r tt (add_entry n v x) r.
Proof.
  intros [y s] [Hy Hr]. eexists. split; [reflexivity|]. split; [|done]. rewrite <- Hy.
  unfold add_entry. cbn. by destruct (entries y !! n).
Qed.

Lemma reads_position {A} (k : S -> M (XRef * S) A) x r a x' r' :
  (forall s, reads_rows (k s) x r a x' r') -> reads_rows (s <- gets snd ;; k s) x r a x' r'.
Proof. intros Hk st Hst. by apply Hk. Qed.

Definition rows_bytes (w1 w2 : Z) (l : list NewRef) (off : Z) : list Z := concat (map (row_bytes w1 w2) (rows_of l off)).

Context (w1 w2 : Z) (Hw1 : 0 <= w1) (Hw2 : 0 <= w2).

Lemma reads_run l i first off r x t :
  Forall (row_ok w1 w2) (rows_of l off) -> consecutive (first + i) l ->
  reads_rows (read_stream_entries (length l) i first 1 w1 w2 t) x (rows_bytes w1 w2 l off ++ r) tt (add_rows l off x) r.
Proof.
  revert i off x. induction l as [|q l IH]; intros i off x Hok Hc; [apply reads_rows_ret|].
  cbn [rows_of] in Hok. apply Forall_cons in Hok as [Hq Hok].
  cbn [length read_stream_entries add_rows]. unfold rows_bytes. cbn [rows_of map concat]. rewrite <- app_assoc.
  apply reads_position. intros s. eapply reads_rows_bind; [apply reads_set_stream|].
  eapply reads_rows_bind; [by apply reads_row|]. eapply reads_rows_bind; [apply reads_add_row|].
  replace (first + i) with (nr_num q) by (rewrite (Hc 0%nat q eq_refl); lia).
  apply IH; [done|]. intros k q' Hk. rewrite (Hc (Datatypes.S k) q' Hk). lia.
Qed.

Lemma reads_ranges rl off r x t turns :
  Forall (fun run => consecutive (run_first run) run) rl -> Forall (row_ok w1 w2) (rows_of (concat rl) off) ->
  s_entryNum t = 0 -> (length rl <= turns)%nat ->
  reads_rows (read_ranges turns (map OInt (flat_map run_index rl)) (Some (OInt 1)) (Some (OInt w1)) (Some (OInt w2)) t)
    x (rows_bytes w1 w2 (concat rl) off ++ r) tt (add_rows (concat rl) off x) r.
Proof.
  intros Hrl. revert off x t turns. induction Hrl as [|run rl Hc _ IH]; intros off x t turns Hok Ht Hn.
  { destruct turns; apply reads_rows_ret. }
  destruct turns as [|turns]; [cbn in Hn; lia|]. cbn [concat] in *. rewrite rows_of_app in Hok.
  apply Forall_app in Hok as [Hok1 Hok2]. unfold rows_bytes. rewrite rows_of_app, map_app, concat_app, <- app_assoc, add_rows_app.
  cbn [flat_map run_index app map read_ranges head]. rewrite is_int_OInt, !int_of_OInt, Ht, Z.sub_0_r.
  replace (Z.to_nat (len run)) with (length run) by (unfold len; lia).
  eapply reads_rows_bind; [apply reads_run; [done|by rewrite Z.add_0_r]|].
  apply reads_position. intros s. eapply reads_rows_bind; [apply reads_set_stream|].
  apply IH; [done|done|cbn in Hn; lia].
Qed.

(** The whole data, from the position the state keeps. *)
Lemma reads_stream t l base r x s : streamState x = None ->
  entryRanges t = Some (OArr (map OInt (flat_map run_index (runs l)))) ->
  byteWidths t = Some (OArr [OInt 1; OInt w1; OInt w2]) -> s_entryNum t = 0 ->
  Forall (row_ok w1 w2) (rows_of l base) -> rest (seek (s_streamPos t) s) (rows_bytes w1 w2 l base ++ r) ->
  exists x' s', readXRefStream t (set_streamState (Some t) x, s) = (Ok tt, (x', s')) /\
    set_streamState None x' = add_rows l base x /\ rest s' r.
Proof.
  intros Hx Hranges Hwidths Ht Hok Hr. unfold readXRefStream. rewrite Hwidths, Hranges. cbn [three lookup list_lookup].
  unfold mbind at 1, on_src at 1, zoom at 1, modify at 1. cbn [snd fst]. unfold mbind at 1, lift at 1.
  pose proof (reads_ranges (runs l) base r x t (length (map OInt (flat_map run_index (runs l))))) as Hread.
  rewrite concat_runs in Hread. destruct Hread with (st := (set_streamState (Some t) x, seek (s_streamPos t) s))
    as ([x' s'] & E & Hx' & Hs'); [|done|done| |split; [by destruct x; cbn in Hx; subst|done]|by exists x', s'].
  - eapply Forall_impl; [apply runs_consecutive|]. by intros run [_ Hc].
  - rewrite length_map. clear. induction (runs l) as [|run rl IH]; cbn [flat_map run_index app length]; lia.
Qed.
End Read.

(** ** The section *)

(** A change whose fields fit: the number of an object stream is not greater
    than the length of the file. *)
Definition objStream_ok (base : Z) (r : NewRef) : Prop :=
  match nr_objStream r with
  | Some (objStreamNum, index) => 0 <= objStreamNum <= base /\ 0 <= index
  | None => 0 <= nr_gen r
  end.

Lemma rows_fit l off base mo mg : Forall (objStream_ok base) l -> (l <> [] -> base <= mo) ->
  Forall (fun row => row.2 <= mg /\ (row.1.1 <> 2 -> 0 <= row.1.2 <= mo)) (rows_of l off) ->
  Forall (row_ok (getSizeInBytes mo) (getSizeInBytes mg)) (rows_of l off).
Proof.
  intros Hl Hb. assert (Hm : Forall (fun _ => base <= mo) l) by (destruct l; [constructor|apply Forall_true; intros; by apply Hb]).
  clear Hb. revert off Hm. induction Hl as [|r l Hr Hl IH]; intros off Hm Hrows; [constructor|].
  apply Forall_cons in Hm as [Hbase Hm]. cbn [rows_of] in *. apply Forall_cons in Hrows as [[Hg Ho] Hrows].
  constructor; [|by apply IH]. unfold row_ok, objStream_ok, row_of in *.
  destruct (nr_objStream r) as [[n i]|]; [|destruct (nr_data r)]; cbn [fst snd] in *.
  - pose proof (size_bound mo). pose proof (size_bound mg). lia.
  - specialize (Ho ltac:(lia)). pose proof (size_bound mo). pose proof (size_bound mg). lia.
  - specialize (Ho ltac:(lia)). pose proof (size_bound mo). pose proof (size_bound mg). lia.
Qed.

Lemma length_rows_of l off : length (rows_of l off) = length l.
Proof. revert off. induction l as [|r l IH]; intros off; cbn; [done|by rewrite IH]. Qed.

Section Time.
Context (time : Z).

(** The dictionary and the data of the section. *)
Lemma xref_stream_data info base l d : 0 <= base -> Forall (objStream_ok base) l ->
  exists w1 w2 dict, xref_stream time info base l d = (rows_end l base, dict, rows_bytes w1 w2 l base) /\
    0 <= w1 /\ 0 <= w2 /\ Forall (row_ok w1 w2) (rows_of l base) /\
    getRaw dict (js "Index") = Some (OArr (map OInt (flat_map run_index (runs l)))) /\
    getRaw dict (js "W") = Some (OArr [OInt 1; OInt w1; OInt w2]).
Proof.
  intros Hb Hl. unfold xref_stream.
  destruct (table_rows_of l base 0 0 [] Hb) as (mo & mg & -> & _ & _ & Hmo & Hrows). cbn [app].
  exists (getSizeInBytes mo), (getSizeInBytes mg).
  pose proof (size_nonneg mo) as H1. pose proof (size_nonneg mg) as H2.
  eexists. split; [|split_and!; [exact H1|exact H2|by apply (rows_fit l base base)|..]].
  - f_equal. pose proof (write_rows_bytes (rows_of l base) (getSizeInBytes mo) (getSizeInBytes mg) []
      (zeros ((1 + getSizeInBytes mo + getSizeInBytes mg) * len (rows_of l base))) H1 H2) as Hw.
    cbn [app] in Hw. apply Hw. unfold zeros, len. rewrite length_replicate. nia.
  - rewrite getIndexes_runs, computeIDs_get by done. unfold getRaw, dict_set, dict_upd. cbn [d_map].
    by rewrite map_get_set, bool_decide_eq_false_2, map_get_set, bool_decide_eq_true_2 by done.
  - rewrite computeIDs_get by done. unfold getRaw, dict_set, dict_upd. cbn [d_map].
    by rewrite map_get_set, bool_decide_eq_true_2 by done.
Qed.
End Time.

(** From any byte source that holds the data the entries are added, and reading
    stops exactly at the end of the data. *)
Lemma xref_stream_read {S} `{SourceSpec S} `{Seekable S} fetch time info base l d (s : S) r (x : XRef) :
  0 <= base -> Forall (objStream_ok base) l -> streamState x = None ->
  let '(pos, dict, data) := xref_stream time info base l d in
  rest (seek (tell s) s) (data ++ r) ->
  exists s', processXRefStream fetch dict (x, s) = (Ok dict, (add_rows l base x, s')) /\ rest s' r.
Proof.
  intros Hb Hl Hx. destruct (xref_stream_data time info base l d Hb Hl) as (w1 & w2 & dict & -> & Hw1 & Hw2 & Hok & Hi & Hw).
  intros Hr. unfold processXRefStream, ranges_of, dict_get, dict_get2. rewrite Hi, Hw. cbn [resolve truthy]. m_red.
  cbn [fst snd]. rewrite Hx. set (t := mkStreamState (Some (OArr (map OInt (flat_map run_index (runs l))))) (Some (OArr [OInt 1; OInt w1; OInt w2])) 0 (tell s)).
  destruct (reads_stream w1 w2 Hw1 Hw2 t l base r x s Hx eq_refl eq_refl eq_refl Hok Hr) as (x' & s' & E & Hx' & Hs').
  unfold lift, set_stream, on_table, zoom, modify. cbv beta iota. cbn [fst snd]. fold t. cbv beta iota. rewrite E. cbv beta iota. cbn [fst snd]. rewrite Hx'. by exists s'.
Qed.

Lemma add_rows_present l off x m u : entries x !! m = Some u -> entries (add_rows l off x) !! m = Some u.
Proof.
  revert off x. induction l as [|r l IH]; intros off x Hm; [done|]. cbn [add_rows]. apply IH.
  by rewrite add_entry_lookup, Hm.
Qed.

Lemma add_rows_absent l off x m : m ∉ map nr_num l -> entries (add_rows l off x) !! m = entries x !! m.
Proof.
  revert off x. induction l as [|r l IH]; intros off x Hm; [done|]. cbn [map] in Hm.
  rewrite not_elem_of_cons in Hm. cbn [add_rows]. rewrite IH by apply Hm. rewrite add_entry_lookup.
  rewrite bool_decide_eq_false_2 by (destruct Hm; congruence). by destruct (entries x !! m).
Qed.

Lemma add_rows_at l1 q l2 off x : nr_num q ∉ map nr_num l1 -> entries x !! nr_num q = None ->
  entries (add_rows (l1 ++ q :: l2) off x) !! nr_num q = Some (row_entry (row_of q (rows_end l1 off))).
Proof.
  intros Hq Hx. rewrite add_rows_app. cbn [add_rows]. apply add_rows_present.
  by rewrite add_entry_lookup, add_rows_absent, Hx, bool_decide_eq_true_2.
Qed.

(** The entry of an object at offset [off] of the file. *)
Definition stream_entry (q : NewRef) (off : Z) : XRefEntry :=
  match nr_objStream q, nr_data q with
  | Some (objStreamNum, index), _ => mkEntry (to_int32 objStreamNum) (to_int32 index) false false
  | None, Some _ => mkEntry (if off mod 2 ^ 32 <? 2 ^ 31 then off mod 2 ^ 32 else off mod 2 ^ 32 - 2 ^ 32)
      (Z.min (nr_gen q) 0xffff) false true
  | None, None => mkEntry 0 (Z.min (nr_gen q + 1) 0xffff) true false
  end.

Lemma row_stream_entry base q off : objStream_ok base q -> row_entry (row_of q off) = stream_entry q off.
Proof.
  unfold objStream_ok, row_entry, row_of, stream_entry. destruct (nr_objStream q) as [[n i]|]; [done|]. intros Hg.
  destruct (nr_data q); [|by rewrite !to_int32_small by lia].
  by rewrite (to_int32_small (Z.min (nr_gen q) 65535)) by lia.
Qed.

(** C3. The data [getXRefStreamTable] puts into its stream is read back by
    [processXRefStream]: from any byte source that holds it, the first change of
    every number that has no entry yet gets the entry that was written: free,
    in an object stream, or at the offset of its text; reading stops exactly at
    the end of the data.  The offset is that of the file while it is below
    [2 ^ 31]; from there on it wraps around as a signed 32-bit integer. *)
Theorem xref_stream_reads_back {S} `{SourceSpec S} `{Seekable S} fetch time info base l d (s : S) r (x : XRef) :
  0 <= base -> Forall (objStream_ok base) l -> streamState x = None ->
  let '(pos, dict, data) := xref_stream time info base l d in
  rest (seek (tell s) s) (data ++ r) ->
  exists x' s', processXRefStream fetch dict (x, s) = (Ok dict, (x', s')) /\ rest s' r /\ pos = rows_end l base /\
    forall l1 q l2, l = l1 ++ q :: l2 -> nr_num q ∉ map nr_num l1 -> entries x !! nr_num q = None ->
    entries x' !! nr_num q = Some (stream_entry q (rows_end l1 base)).
Proof.
  intros Hb Hl Hx. pose proof (xref_stream_read fetch time info base l d s r x Hb Hl Hx) as Hread.
  destruct (xref_stream_data time info base l d Hb Hl) as (w1 & w2 & dict & E & _). rewrite E in *. intros Hr.
  destruct (Hread Hr) as (s' & Hs & Hs'). exists (add_rows l base x), s'. split_and!; [done|done|done|].
  intros l1 q l2 -> Hq Hn. rewrite add_rows_at by done. f_equal. apply (row_stream_entry base).
  apply Forall_app in Hl as [_ Hl]. by apply Forall_cons in Hl as [Hl _].
Qed.

(** Three changes: an object, a deletion, an entry of an object stream. *)
Definition changes3 : list NewRef :=
  [mkNewRef 4 0 (Some (js "4 0 obj")) None; mkNewRef 5 2 None None; mkNewRef 7 0 None (Some (6, 3))].
Definition no_info : XRefInfo := mkXRefInfo None None None (8, 0) None None None [].
Definition data3 : list Z := (xref_stream 0 no_info 0x12345 changes3 (new_Dict false)).2.

Lemma xref_stream_reads_back_witness :
  data3 = [1; 1; 0x23; 0x45; 0; 0; 0; 0; 0; 3; 2; 0; 0; 6; 3] /\
  let '(pos, dict, data) := xref_stream 0 no_info 0x12345 changes3 (new_Dict false) in
  exists x' s', processXRefStream (S := Stream) (fun _ _ _ => Ok None) dict (new_XRef, new_Stream data3 None None) = (Ok dict, (x', s')) /\
    rest s' [] /\ pos = rows_end changes3 0x12345 /\
    forall l1 q l2, changes3 = l1 ++ q :: l2 -> nr_num q ∉ map nr_num l1 -> entries new_XRef !! nr_num q = None ->
    entries x' !! nr_num q = Some (stream_entry q (rows_end l1 0x12345)).
Proof.
  assert (E : data3 = [1; 1; 0x23; 0x45; 0; 0; 0; 0; 0; 3; 2; 0; 0; 6; 3]) by (vm_compute; reflexivity).
  split; [exact E|].
  pose proof (xref_stream_reads_back (S := Stream) (fun _ _ _ => Ok None) 0 no_info 0x12345 changes3 (new_Dict false)
    (new_Stream data3 None None) [] new_XRef ltac:(lia)) as Hthm.
  unfold data3 in *. destruct (xref_stream 0 no_info 0x12345 changes3 (new_Dict false)) as [[pos dict] data].
  apply Hthm; [|reflexivity|].
  - repeat constructor; cbn; lia.
  - rewrite app_nil_r. cbn [snd] in *. subst data. apply new_Stream_rest. repeat (constructor; [unfold is_byte; lia|]). constructor.
Defined.
