(* ===== verification/Viewport.v ===== *)
(** * Viewports

    [PageViewport] of pdf.mjs and the transforms of [Util] it uses: the map
    from the coordinates of a page to the pixels it is shown at. *)
From Stdlib Require Import SpecFloat.
From S2P Require Import Prelude Number64.

(** The six numbers of an affine map. *)
Record Transform := mkTransform { m0 : float; m1 : float; m2 : float; m3 : float; m4 : float; m5 : float }.

Definition applyTransform (p : float * float) (m : Transform) : float * float :=
  (fadd (fadd (fmul (fst p) (m0 m)) (fmul (snd p) (m2 m))) (m4 m),
   fadd (fadd (fmul (fst p) (m1 m)) (fmul (snd p) (m3 m))) (m5 m)).

Definition applyInverseTransform (p : float * float) (m : Transform) : float * float :=
  let '(p0, p1) := p in
  let d := fsub (fmul (m0 m) (m3 m)) (fmul (m1 m) (m2 m)) in
  (fdiv (fsub (fadd (fsub (fmul p0 (m3 m)) (fmul p1 (m2 m))) (fmul (m2 m) (m5 m))) (fmul (m4 m) (m3 m))) d,
   fdiv (fsub (fadd (fadd (fmul (fopp p0) (m1 m)) (fmul p1 (m0 m))) (fmul (m4 m) (m1 m))) (fmul (m5 m) (m0 m))) d).

(** The lower left and the upper right corner of a page. *)
Record ViewBox := mkViewBox { v0 : float; v1 : float; v2 : float; v3 : float }.

Record PageViewport := mkViewport {
  viewBox : ViewBox;
  userUnit : float;
  scale : float;
  rotation : Z;
  offsetX : float;
  offsetY : float;
  transform : Transform;
  width : float;
  height : float
}.

(** [rotateA], [rotateB], [rotateC] and [rotateD]. *)
Definition rotate_matrix (rotation : Z) : option (Z * Z * Z * Z) :=
  let rotation := Z.rem rotation 360 in
  let rotation := if rotation <? 0 then rotation + 360 else rotation in
  if rotation =? 180 then Some (-1, 0, 0, 1)
  else if rotation =? 90 then Some (0, 1, 1, 0)
  else if rotation =? 270 then Some (0, -1, -1, 0)
  else if rotation =? 0 then Some (1, 0, 0, -1)
  else None.

(** [-n] of an integer constant; [-0] is the negative zero. *)
Definition flip (dontFlip : bool) (n : float) : float := if dontFlip then fopp n else n.

Definition new_PageViewport (viewBox : ViewBox) (userUnit scale : float) (rotation : Z) (offsetX offsetY : float)
    (dontFlip : bool) : res PageViewport :=
  let size := fmul scale userUnit in
  let centerX := fdiv (fadd (v2 viewBox) (v0 viewBox)) (of_Z 2) in
  let centerY := fdiv (fadd (v3 viewBox) (v1 viewBox)) (of_Z 2) in
  match rotate_matrix rotation with
  | None => Throw (JsError "PageViewport: Invalid rotation, must be a multiple of 90 degrees.")
  | Some (a, b, c, d) =>
      let rotateA := of_Z a in
      let rotateB := of_Z b in
      let rotateC := flip dontFlip (of_Z c) in
      let rotateD := flip dontFlip (of_Z d) in
      let spanX := math_abs (fsub centerX (v0 viewBox)) in
      let spanY := math_abs (fsub centerY (v1 viewBox)) in
      let sizeX := fmul (fsub (v2 viewBox) (v0 viewBox)) size in
      let sizeY := fmul (fsub (v3 viewBox) (v1 viewBox)) size in
      let '(offsetCanvasX, offsetCanvasY, width, height) :=
        if a =? 0 then (fadd (fmul spanY size) offsetX, fadd (fmul spanX size) offsetY, sizeY, sizeX)
        else (fadd (fmul spanX size) offsetX, fadd (fmul spanY size) offsetY, sizeX, sizeY) in
      let t := mkTransform (fmul rotateA size) (fmul rotateB size) (fmul rotateC size) (fmul rotateD size)
        (fsub (fsub offsetCanvasX (fmul (fmul rotateA size) centerX)) (fmul (fmul rotateC size) centerY))
        (fsub (fsub offsetCanvasY (fmul (fmul rotateB size) centerX)) (fmul (fmul rotateD size) centerY)) in
      Ok (mkViewport viewBox userUnit scale rotation offsetX offsetY t width height)
  end.

(** [viewport.clone({ scale, rotation, offsetX, offsetY, dontFlip })] *)
Definition viewport_clone (v : PageViewport) (scale' : option float) (rotation' : option Z)
    (offsetX' offsetY' : option float) (dontFlip : bool) : res PageViewport :=
  new_PageViewport (viewBox v) (userUnit v) (default (scale v) scale') (default (rotation v) rotation')
    (default (offsetX v) offsetX') (default (offsetY v) offsetY') dontFlip.

Definition convertToViewportPoint (v : PageViewport) (x y : float) : float * float :=
  applyTransform (x, y) (transform v).
Definition convertToPdfPoint (v : PageViewport) (x y : float) : float * float :=
  applyInverseTransform (x, y) (transform v).

(** The page of a document as [getViewport] sees it. *)
Record PageInfo := mkPageInfo { p_view : ViewBox; p_userUnit : float; p_rotate : Z }.

(** [page.getViewport({ scale })] *)
Definition getViewport (page : PageInfo) (scale : float) : res PageViewport :=
  new_PageViewport (p_view page) (p_userUnit page) scale (p_rotate page) (of_Z 0) (of_Z 0) false.

Definition letter : PageInfo := mkPageInfo (mkViewBox (of_Z 0) (of_Z 0) (of_Z 612) (of_Z 792)) (of_Z 1) 0.

(** Half an inch from the top left corner of a page of 8.5 by 11 inches, at
    twice the size, upright and turned. *)
Example viewport_sample :
  (exists v, getViewport letter (of_Z 2) = Ok v /\ width v = of_Z 1224 /\ height v = of_Z 1584 /\
     convertToViewportPoint v (of_Z 36) (of_Z 756) = (of_Z 72, of_Z 72) /\
     convertToPdfPoint v (of_Z 72) (of_Z 72) = (of_Z 36, of_Z 756)) /\
  (exists v, getViewport (mkPageInfo (p_view letter) (of_Z 1) (-90)) (of_Z 2) = Ok v /\ width v = of_Z 1584 /\
     convertToViewportPoint v (of_Z 36) (of_Z 756) = (of_Z 72, of_Z 1152)) /\
  getViewport (mkPageInfo (p_view letter) (of_Z 1) 45) (of_Z 1) =
    Throw (JsError "PageViewport: Invalid rotation, must be a multiple of 90 degrees.").
Proof. split_and!; [eexists; split; [reflexivity|]; vm_compute; done..|reflexivity]. Qed.

(** ** The size of a viewport *)

(** A page turned by any multiple of 90 degrees has a viewport; at a quarter
    turn its width and its height change places. *)
Lemma viewport_size page scale v : getViewport page scale = Ok v ->
  let size := fmul scale (p_userUnit page) in
  let sizeX := fmul (fsub (v2 (p_view page)) (v0 (p_view page))) size in
  let sizeY := fmul (fsub (v3 (p_view page)) (v1 (p_view page))) size in
  (width v, height v) = if Z.even (p_rotate page ÷ 90) then (sizeX, sizeY) else (sizeY, sizeX).
Proof.
  unfold getViewport, new_PageViewport, rotate_matrix. intros E.
  pose proof (Z.quot_rem' (p_rotate page) 360) as Hq. pose proof (Z.rem_bound_abs (p_rotate page) 360 ltac:(lia)) as Hb.
  set (r := Z.rem (p_rotate page) 360) in *. set (q := p_rotate page ÷ 360) in *.
  assert (Hr : forall k, (if r <? 0 then r + 360 else r) = 90 * k -> (if r <? 0 then r + 360 else r) <> 0 \/ k = 0 ->
    Z.even (p_rotate page ÷ 90) = Z.even k).
  { intros k Hk Hk'. assert (exists j, p_rotate page = 90 * (k + 4 * j)) as [j Hj].
    { destruct (r <? 0); [exists (q - 1)|exists q]; lia. }
    rewrite Hj, Z.mul_comm, Z.quot_mul by lia. rewrite Z.even_add_mul_even; [done|]. by exists 2. }
  repeat match type of E with context [if ?b then Some _ else _] => destruct b eqn:? end; bool_hyps; try discriminate;
    cbn in E; injection E as <-; cbn.
  - by rewrite (Hr 2) by lia.
  - by rewrite (Hr 1) by lia.
  - by rewrite (Hr 3) by lia.
  - by rewrite (Hr 0) by lia.
Qed.
