(* ===== verification/Highlight.v ===== *)
(** * The data of the highlight page

    The functions of web/highlight.mjs that compute: the parameters of the
    page, the boxes in the answer of the boxes route, the scale of the page and
    the rectangles that are drawn over it.  The page itself, with its events,
    is in HighlightPage. *)
From Stdlib Require Import SpecFloat.
From S2P Require Import Prelude Primitives Number64 Viewport.
Local Open Scope js_scope.

(** ** JSON *)

(** What [response.json()] gives; the keys of an object are all different. *)
Inductive json :=
| JNull
| JBool (b : bool)
| JNum (x : float)
| JStr (s : jstr)
| JArr (l : list json)
| JObj (fields : list (jstr * json)).

(** [v?.key], for keys that only objects of the answer have. *)
Definition prop (v : json) (key : string) : option json :=
  match v with JObj fields => map_get fields (js key) | _ => None end.

Definition truthy_json (v : json) : bool :=
  match v with
  | JNull => false
  | JBool b => b
  | JNum x => truthy_num x
  | JStr s => match s with [] => false | _ => true end
  | JArr _ | JObj _ => true
  end.

(** An object with a [toString] of its own cannot be made a string: a value of
    JSON is no function.  An array joins the strings of its elements. *)
Definition shadows_toString (fields : list (jstr * json)) : bool :=
  bool_decide (is_Some (map_get fields (js "toString"))).
Fixpoint no_string (v : json) : bool :=
  match v with
  | JArr l => existsb no_string l
  | JObj fields => shadows_toString fields
  | _ => false
  end.
Definition no_primitive : exn := TypeError "Cannot convert object to primitive value".

(** The number of the string an element of an array stands for in the string of
    the array: an empty string for [null], no number for a boolean, an object or
    several elements. *)
Fixpoint element_number (v : json) : float :=
  match v with
  | JNull | JNum (S754_zero _) => S754_zero false
  | JNum x => x
  | JStr s => string_to_number s
  | JArr [] => S754_zero false
  | JArr [v] => element_number v
  | JBool _ | JArr _ | JObj _ => S754_nan
  end.

(** [Number(v)] *)
Definition Number (v : option json) : res float :=
  match v with
  | None => Ok S754_nan
  | Some JNull => Ok (S754_zero false)
  | Some (JBool b) => Ok (of_Z (if b then 1 else 0))
  | Some (JNum x) => Ok x
  | Some (JStr s) => Ok (string_to_number s)
  | Some (JArr l) => if no_string (JArr l) then Throw no_primitive else Ok (element_number (JArr l))
  | Some (JObj fields) => if shadows_toString fields then Throw no_primitive else Ok S754_nan
  end.

(** ** Boxes *)

Record Box := mkBox { x0 : float; y0 : float; x1 : float; y1 : float }.

(** The four corners of an entry, [None] for an entry that is none. *)
Definition corners (entry : json) : option (option json * option json * option json * option json) :=
  match entry with
  | JArr (a :: b :: c :: d :: _) => Some (Some a, Some b, Some c, Some d)
  | JArr _ | JObj _ => Some (prop entry "x0", prop entry "y0", prop entry "x1", prop entry "y1")
  | _ => None
  end.

Definition half : float := lit 1 2.

(** A box of numbers that is at least half a unit wide and high. *)
Definition accept (b : Box) : bool :=
  forallb isFinite [x0 b; y0 b; x1 b; y1 b] &&
  negb (flt (math_abs (fsub (x1 b) (x0 b))) half || flt (math_abs (fsub (y1 b) (y0 b))) half).

(** The callback of [raw.flatMap]. *)
Definition box_of (entry : json) : res (list Box) :=
  match corners entry with
  | None => Ok []
  | Some (a, b, c, d) =>
      match Number a, Number b, Number c, Number d with
      | Ok x0, Ok y0, Ok x1, Ok y1 =>
          let box := mkBox x0 y0 x1 y1 in Ok (if accept box then [box] else [])
      | Throw e, _, _, _ | _, Throw e, _, _ | _, _, Throw e, _ | _, _, _, Throw e => Throw e
      | _, _, _, _ => OutOfFuel
      end
  end.

Fixpoint flatMap {A B} (f : A -> res (list B)) (l : list A) : res (list B) :=
  match l with
  | [] => Ok []
  | x :: l =>
      match f x with
      | Ok y => match flatMap f l with Ok ys => Ok (y ++ ys) | r => r end
      | r => r
      end
  end.

(** The entries of an answer, in whatever envelope. *)
Definition raw_boxes (payload : json) : list json :=
  match payload with
  | JArr l => l
  | _ =>
      match prop payload "boxes" with
      | Some (JArr l) => l
      | _ => match prop payload "rects" with Some (JArr l) => l | _ => [] end
      end
  end.

(** [payload && !Array.isArray(payload) && payload.section ? ... : null] *)
Definition section_of (payload : json) : option json :=
  match prop payload "section" with
  | Some v => if truthy_json v then Some v else None
  | None => None
  end.

Definition normalizeBoxes (payload : json) : res (list Box * option json) :=
  match flatMap box_of (raw_boxes payload) with
  | Ok boxes => Ok (boxes, section_of payload)
  | Throw e => Throw e
  | OutOfFuel => OutOfFuel
  end.

(** ** Parameters *)

(** [(parameters.get('source') ?? '').trim()] *)
Definition parameter (value : option jstr) : jstr := trim (default [] value).

(** [requestedPage] and [pageNumber] *)
Definition page_number (value : option jstr) : float :=
  let requestedPage := parse_int (default (js "1") value) in
  if isFinite requestedPage && flt (of_Z 0) requestedPage then requestedPage else of_Z 1.

(** The line under the title: the title of the section, [None] for none. *)
Definition section_title (section : option json) : option jstr :=
  match section with
  | Some v =>
      match prop v "title" with
      | Some (JStr s) => match trim s with [] => None | s => Some s end
      | _ => None
      end
  | None => None
  end.

(** ** The size of the page *)

Definition MIN_SCALE : float := lit 4 10.
Definition MAX_SCALE : float := of_Z 2.
Definition STAGE_GUTTER : float := of_Z 2.

Definition fit_scale (stageWidth pageWidth : float) : float :=
  let usable := math_max (fsub stageWidth STAGE_GUTTER) (of_Z 240) in
  math_min MAX_SCALE (math_max MIN_SCALE (fdiv usable pageWidth)).

Definition fitViewport (page : PageInfo) (stageWidth : float) : res PageViewport :=
  match getViewport page (of_Z 1) with
  | Ok unscaled => getViewport page (fit_scale stageWidth (width unscaled))
  | r => r
  end.

(** ** The rectangles *)

Record Rect := mkRect { left : float; top : float; r_width : float; r_height : float }.

(** The turn of the loop on a box: no rectangle when it is too small to see. *)
Definition rect_of (viewport : PageViewport) (box : Box) : option Rect :=
  let '(left0, top0) := convertToViewportPoint viewport (x0 box) (y0 box) in
  let '(left1, top1) := convertToViewportPoint viewport (x1 box) (y1 box) in
  let width := math_abs (fsub left1 left0) in
  let height := math_abs (fsub top1 top0) in
  if flt width half || flt height half then None
  else Some (mkRect (math_min left0 left1) (math_min top0 top1) width height).

(** The children [drawHighlights] leaves in the overlay. *)
Definition highlight_rects (viewport : option PageViewport) (boxes : list Box) : list Rect :=
  match viewport with
  | Some viewport => omap (rect_of viewport) boxes
  | None => []
  end.

Definition num (n : Z) : json := JNum (of_Z n).

(** An array, an object with numbers in text, one too thin, one that is no
    box; the section without a title.  Then the page at the width of a phone,
    and the rectangle of the first box on it. *)
Definition sample_answer : json :=
  JObj [(js "section", JObj [(js "title", JStr (js "  Methods "))]);
        (js "boxes", JArr [JArr [num 72; num 700; num 540; num 712];
          JObj [(js "x0", JStr (js " 72")); (js "y0", num 680); (js "x1", JStr (js "1e2")); (js "y1", JArr [num 692])];
          JArr [num 72; num 660; num 540; num 660]; JStr (js "x"); JArr [num 1]])].

Example highlight_sample :
  normalizeBoxes sample_answer =
    Ok ([mkBox (of_Z 72) (of_Z 700) (of_Z 540) (of_Z 712); mkBox (of_Z 72) (of_Z 680) (of_Z 100) (of_Z 692)],
        Some (JObj [(js "title", JStr (js "  Methods "))])) /\
  section_title (section_of sample_answer) = Some (js "Methods") /\
  page_number (Some (js "7th")) = of_Z 7 /\ page_number (Some (js "0")) = of_Z 1 /\
  normalizeBoxes (JArr [JObj [(js "x0", JObj [(js "toString", JNull)])]]) = Throw no_primitive /\
  fit_scale (of_Z 308) (of_Z 612) = half /\
  exists v, fitViewport letter (of_Z 308) = Ok v /\
    highlight_rects (Some v) [mkBox (of_Z 72) (of_Z 700) (of_Z 540) (of_Z 712)] =
      [mkRect (of_Z 36) (of_Z 40) (of_Z 234) (of_Z 6)].
Proof. split_and!; [vm_compute; done..|eexists; split; [reflexivity|vm_compute; done]]. Qed.

(** ** Boxes that come out *)

(** What the viewport and the drawing rely on: four finite numbers that span at
    least half a unit each way. *)
Definition box_ok (b : Box) : Prop :=
  isFinite (x0 b) = true /\ isFinite (y0 b) = true /\ isFinite (x1 b) = true /\ isFinite (y1 b) = true /\
  fle half (math_abs (fsub (x1 b) (x0 b))) = true /\ fle half (math_abs (fsub (y1 b) (y0 b))) = true.

(** Rounding a number that is not negative gives a number. *)
Lemma shr_1_pos r : 0 <= shr_m r -> 0 <= shr_m (shr_1 r).
Proof. destruct r as [m ? ?]. by destruct m as [|[]|]. Qed.

Lemma iter_pos_inv {A} (P : A -> Prop) f n x : (forall x, P x -> P (f x)) -> P x -> P (SpecFloat.iter_pos f n x).
Proof. intros Hf. revert x. induction n as [n IH|n IH|]; intros x Hx; cbn; auto. Qed.

Lemma shr_fexp_pos m e l : 0 <= m -> 0 <= shr_m (fst (shr_fexp 53 1024 m e l)).
Proof.
  intros Hm. unfold shr_fexp, shr. assert (0 <= shr_m (shr_record_of_loc m l)) by (by destruct l as [|[]]).
  destruct (fexp 53 1024 (Zdigits2 m + e) - e) eqn:E; cbn [fst]; try done. by apply iter_pos_inv; [apply shr_1_pos|].
Qed.

Lemma round_number s m e l : 0 <= m -> is_nan (binary_round_aux 53 1024 s m e l) = false.
Proof.
  intros Hm. unfold binary_round_aux. pose proof (shr_fexp_pos m e l Hm) as H1.
  destruct (shr_fexp 53 1024 m e l) as [r1 e1]. cbn [fst] in H1.
  assert (H2 : 0 <= round_nearest_even (shr_m r1) (loc_of_shr_record r1)).
  { unfold round_nearest_even. destruct (loc_of_shr_record r1) as [|[]]; [|destruct (Z.even (shr_m r1))| |]; lia. }
  pose proof (shr_fexp_pos _ e1 loc_Exact H2) as H3.
  destruct (shr_fexp 53 1024 (round_nearest_even (shr_m r1) (loc_of_shr_record r1)) e1 loc_Exact) as [r2 e2].
  cbn [fst] in H3.
  destruct (shr_m r2); [done|by destruct (e2 <=? _)|lia].
Qed.

Lemma normalize_number m e s : is_nan (binary_normalize 53 1024 m e s) = false.
Proof.
  unfold binary_normalize, binary_round. destruct m as [|m|m]; [done|..];
    destruct (shl_align _ _ _) as [mz ez]; by apply round_number.
Qed.

Lemma sub_number x y : isFinite x = true -> isFinite y = true -> is_nan (fsub x y) = false.
Proof.
  intros Hx Hy. unfold fsub. destruct x as [[]|[]| |[] mx ex], y as [[]|[]| |[] my ey]; try done; apply normalize_number.
Qed.

Lemma abs_number x : is_nan (math_abs x) = is_nan x.
Proof. by destruct x. Qed.

Lemma half_number : is_nan half = false.
Proof. reflexivity. Qed.

#[local] Opaque half fsub math_abs flt fle.

Lemma accept_ok b : accept b = true <-> box_ok b.
Proof.
  unfold accept, box_ok. cbn [forallb]. rewrite !andb_true_iff, negb_orb, andb_true_iff.
  assert (H : forall x y, isFinite x = true -> isFinite y = true ->
    negb (flt (math_abs (fsub x y)) half) = fle half (math_abs (fsub x y))).
  { intros x y Hx Hy. symmetry. apply fle_not_flt; [apply half_number|]. rewrite abs_number. by apply sub_number. }
  split.
  - intros ([Hx0 [Hy0 [Hx1 [Hy1 _]]]] & Hw & Hh). rewrite H in Hw, Hh by done. split_and!; assumption.
  - intros (Hx0 & Hy0 & Hx1 & Hy1 & Hw & Hh). rewrite !H by done. split_and!; (assumption || reflexivity).
Qed.

(** ** The answer of the boxes route *)

(** The list of entries an answer carries: it is the answer itself, or is found
    under "boxes", or under "rects" when "boxes" has no list; else there is none. *)
Inductive carries : json -> list json -> Prop :=
| bare_list l : carries (JArr l) l
| under_boxes fields l : map_get fields (js "boxes") = Some (JArr l) -> carries (JObj fields) l
| under_rects fields l : (forall l', map_get fields (js "boxes") <> Some (JArr l')) ->
    map_get fields (js "rects") = Some (JArr l) -> carries (JObj fields) l
| no_list payload : (forall l, payload <> JArr l) ->
    (forall key fields l, key = js "boxes" \/ key = js "rects" -> payload = JObj fields -> map_get fields key <> Some (JArr l)) ->
    carries payload [].

(** The section an answer names: the value under "section" of an object. *)
Inductive names_section : json -> option json -> Prop :=
| section_given fields v : map_get fields (js "section") = Some v -> truthy_json v = true -> names_section (JObj fields) (Some v)
| section_empty fields v : map_get fields (js "section") = Some v -> truthy_json v = false -> names_section (JObj fields) None
| section_missing fields : map_get fields (js "section") = None -> names_section (JObj fields) None
| no_object payload : (forall fields, payload <> JObj fields) -> names_section payload None.

(** The two forms of an entry with numbers, or what [Number] makes numbers of. *)
Inductive spells_box : json -> Box -> Prop :=
| array_box a b c d rest x0 y0 x1 y1 : Number (Some a) = Ok x0 -> Number (Some b) = Ok y0 -> Number (Some c) = Ok x1 -> Number (Some d) = Ok y1 ->
    spells_box (JArr (a :: b :: c :: d :: rest)) (mkBox x0 y0 x1 y1)
| object_box fields x0 y0 x1 y1 :
    Number (map_get fields (js "x0")) = Ok x0 -> Number (map_get fields (js "y0")) = Ok y0 ->
    Number (map_get fields (js "x1")) = Ok x1 -> Number (map_get fields (js "y1")) = Ok y1 ->
    spells_box (JObj fields) (mkBox x0 y0 x1 y1).

(** What an entry contributes: its box if that is one, and nothing when it
    spells no box at all. *)
Inductive contributes : json -> list Box -> Prop :=
| good_box entry b : spells_box entry b -> box_ok b -> contributes entry [b]
| bad_box entry b : spells_box entry b -> ~ box_ok b -> contributes entry []
| short_array l : (length l < 4)%nat -> contributes (JArr l) []
| no_entry entry : (forall l, entry <> JArr l) -> (forall fields, entry <> JObj fields) -> contributes entry [].

Lemma box_of_ok entry boxes : box_of entry = Ok boxes -> Forall box_ok boxes.
Proof.
  unfold box_of. destruct (corners entry) as [[[[a b] c] d]|]; [|by intros [= <-]].
  destruct (Number a), (Number b), (Number c), (Number d); try discriminate. intros [= <-].
  destruct (accept _) eqn:E; [|constructor]. apply Forall_singleton. by apply accept_ok.
Qed.

Lemma flatMap_Forall {A B} (P : B -> Prop) (f : A -> res (list B)) l r :
  (forall x y, f x = Ok y -> Forall P y) -> flatMap f l = Ok r -> Forall P r.
Proof.
  intros Hf. revert r. induction l as [|x l IH]; intros r; cbn [flatMap]; [by intros [= <-]|].
  destruct (f x) as [y| |] eqn:E; [|discriminate..]. destruct (flatMap f l) as [ys| |]; [|discriminate..].
  intros [= <-]. apply Forall_app. split; [by eapply Hf|by apply IH].
Qed.

Lemma box_of_spelled entry b : spells_box entry b -> box_of entry = Ok (if accept b then [b] else []).
Proof.
  intros [a1 b1 c1 d1 rest u v w x H1 H2 H3 H4|fields u v w x H1 H2 H3 H4]; unfold box_of; cbn [corners prop]; by rewrite H1, H2, H3, H4.
Qed.

Lemma box_of_contributes entry boxes : contributes entry boxes -> box_of entry = Ok boxes.
Proof.
  intros [e b Hs Hb|e b Hs Hb|l Hl|e Ha Ho].
  - rewrite (box_of_spelled e b Hs). apply accept_ok in Hb. by rewrite Hb.
  - rewrite (box_of_spelled e b Hs). destruct (accept b) eqn:E; [|done]. by apply accept_ok in E.
  - destruct l as [|? [|? [|? [|]]]]; [done..|cbn in Hl; lia].
  - destruct e as [| | | |l|fields]; [done..|by destruct (Ha l)|by destruct (Ho fields)].
Qed.

Lemma flatMap_contributes l boxes : Forall2 contributes l boxes -> flatMap box_of l = Ok (concat boxes).
Proof. induction 1 as [|x b l boxes Hx _ IH]; cbn [flatMap]; [done|]. by rewrite (box_of_contributes _ _ Hx), IH. Qed.

Lemma raw_boxes_carried payload l : carries payload l -> raw_boxes payload = l.
Proof.
  intros [l1|fields l1 H|fields l1 H1 H2|p Hn Hf]; unfold raw_boxes; cbn [prop]; [done|by rewrite H| |].
  - rewrite H2. destruct (map_get fields (js "boxes")) as [[]|] eqn:E; try done. by destruct (H1 _ eq_refl).
  - destruct p as [| | | |l1|fields]; try done; [by destruct (Hn l1)|]. cbn [prop].
    destruct (map_get fields (js "boxes")) as [[]|] eqn:E; try (by destruct (Hf (js "boxes") fields _ (or_introl eq_refl) eq_refl E));
      destruct (map_get fields (js "rects")) as [[]|] eqn:E'; try done; by destruct (Hf (js "rects") fields _ (or_intror eq_refl) eq_refl E').
Qed.

Lemma section_of_named payload v : names_section payload v -> section_of payload = v.
Proof.
  intros [fields w H Ht|fields w H Ht|fields H|p Hn]; unfold section_of; cbn [prop]; [by rewrite H, Ht..|by rewrite H|].
  destruct p as [| | | | |fields]; [done..|by destruct (Hn fields)].
Qed.

(** C37. What the page takes out of an answer are boxes: four finite numbers
    that span at least half a unit in each direction, whatever the answer was.
    From the list of entries the answer carries, bare or under "boxes" or
    "rects", it takes every such box, in order, spelled as an array of four or as
    an object, its numbers as [Number] makes them; all other entries are passed
    over, and the section is the one the answer names. *)
Theorem normalizeBoxes_boxes payload :
  (forall boxes section, normalizeBoxes payload = Ok (boxes, section) -> Forall box_ok boxes) /\
  (forall entries boxes section, carries payload entries -> names_section payload section -> Forall2 contributes entries boxes ->
    normalizeBoxes payload = Ok (concat boxes, section)).
Proof.
  unfold normalizeBoxes. split.
  - intros boxes section. destruct (flatMap box_of (raw_boxes payload)) as [l| |] eqn:E; [|discriminate..].
    intros [= <- _]. by apply (flatMap_Forall box_ok box_of _ _ box_of_ok E).
  - intros entries boxes section Hc Hn Hb. by rewrite (raw_boxes_carried _ _ Hc), (flatMap_contributes _ _ Hb), (section_of_named _ _ Hn).
Qed.

(** Entries under "rects": a box, one too thin, a text, an array of one. *)
Definition rects_answer : json :=
  JObj [(js "section", JNum (of_Z 7)); (js "boxes", JNull);
        (js "rects", JArr [JArr [num 72; JStr (js " 7e2"); num 540; num 712]; JArr [num 72; num 660; num 540; num 660]; JStr (js "x"); JArr [num 1]])].

Lemma normalizeBoxes_boxes_witness :
  normalizeBoxes rects_answer = Ok (concat [[mkBox (of_Z 72) (of_Z 700) (of_Z 540) (of_Z 712)]; []; []; []], Some (JNum (of_Z 7))).
Proof.
  apply (proj2 (normalizeBoxes_boxes rects_answer)
    [JArr [num 72; JStr (js " 7e2"); num 540; num 712]; JArr [num 72; num 660; num 540; num 660]; JStr (js "x"); JArr [num 1]]).
  - apply under_rects; [intros l'; vm_compute; discriminate|vm_compute; reflexivity].
  - apply section_given; vm_compute; reflexivity.
  - constructor; [|constructor; [|constructor; [|constructor; [|constructor]]]].
    + apply (good_box _ (mkBox (of_Z 72) (of_Z 700) (of_Z 540) (of_Z 712))); [apply array_box|apply accept_ok]; vm_compute; reflexivity.
    + apply (bad_box _ (mkBox (of_Z 72) (of_Z 660) (of_Z 540) (of_Z 660))); [apply array_box; vm_compute; reflexivity|].
      rewrite <- accept_ok. vm_compute. discriminate.
    + apply no_entry; discriminate.
    + apply short_array. cbn. lia.
Defined.

(** ** The scale *)

Lemma quotient_number x y : isFinite x = true -> truthy_num x = true -> is_nan y = false -> is_nan (fdiv x y) = false.
Proof.
  intros Hf Ht Hy. unfold fdiv. destruct x as [?|?| |sx mx ex]; [discriminate Ht|discriminate Hf|discriminate Hf|].
  destruct y as [?|?| |sy my ey]; [reflexivity|reflexivity|discriminate Hy|]. cbn [SFdiv].
  destruct (SFdiv_core_binary 53 1024 (Z.pos mx) ex (Z.pos my) ey) as [[q e] l] eqn:E. apply round_number.
  unfold SFdiv_core_binary in E. set (m' := match _ with Z0 => _ | Z.pos _ => _ | Z.neg _ => _ end) in E.
  assert (Hm : 0 <= m').
  { unfold m'. destruct (_ - _); [lia|apply Z.shiftl_nonneg; lia|lia]. }
  assert (Hq : fst (Z.div_eucl m' (Z.pos my)) = m' / Z.pos my) by reflexivity.
  destruct (Z.div_eucl m' (Z.pos my)) as [q' r']. injection E as <- _ _. cbn [fst] in Hq. subst q'.
  apply Z.div_pos; lia.
Qed.

Lemma SFcompare_finite_pos x y : isFinite y = true -> truthy_num y = true -> fle (of_Z 0) y = true -> isFinite x = true ->
  flt y x = true -> truthy_num x = true.
Proof.
  destruct x as [s|s| |s m e]; try done. intros Hy Ht Hle _. destruct y as [[]|[]| |[] my ey]; done.
Qed.

(** The width that is used, at least 240 pixels, is a finite number above 0. *)
Lemma usable_number a : isFinite a = true ->
  let u := math_max a (of_Z 240) in isFinite u = true /\ truthy_num u = true.
Proof.
  intros Ha u. unfold u, math_max. assert (Hn : is_nan a = false) by (by destruct a).
  assert (H240 : is_nan (of_Z 240) = false /\ isFinite (of_Z 240) = true /\ truthy_num (of_Z 240) = true /\
    fle (of_Z 0) (of_Z 240) = true) by (vm_compute; done).
  destruct H240 as (H1 & H2 & H3 & H4). rewrite Hn, H1. cbn [orb].
  destruct (flt a (of_Z 240)) eqn:E0; [done|]. destruct (flt (of_Z 240) a) eqn:E.
  - split; [done|]. by apply (SFcompare_finite_pos a (of_Z 240)).
  - destruct a as [s|s| |s m e]; (discriminate || done).
Qed.

(** C38. The page is shown at a scale between 0.4 and 2: for a page whose width
    is a number, whatever it is, and any stage, [fitViewport] gives a viewport
    of such a scale. *)
Theorem fitViewport_bounds page stageWidth unscaled (Hu : getViewport page (of_Z 1) = Ok unscaled)
  (Hw : is_nan (width unscaled) = false) (Hs : isFinite (fsub stageWidth STAGE_GUTTER) = true) :
  exists v, fitViewport page stageWidth = Ok v /\ scale v = fit_scale stageWidth (width unscaled) /\
    fle MIN_SCALE (scale v) = true /\ fle (scale v) MAX_SCALE = true.
Proof.
  unfold fitViewport. rewrite Hu.
  assert (Hv : exists v, getViewport page (fit_scale stageWidth (width unscaled)) = Ok v /\
    scale v = fit_scale stageWidth (width unscaled)).
  { revert Hu. unfold getViewport, new_PageViewport. destruct (rotate_matrix (p_rotate page)) as [[[[a b] c] d]|]; [|discriminate].
    intros _. destruct (if a =? 0 then _ else _) as [[[x y] w] h]. by eexists. }
  destruct Hv as (v & Ev & Es). exists v. rewrite Es. split; [exact Ev|]. split; [reflexivity|].
  unfold fit_scale. destruct (usable_number _ Hs) as [Hf Ht].
  apply clamp_bounds; [vm_compute; reflexivity..| |vm_compute; reflexivity|vm_compute; reflexivity].
  by apply quotient_number.
Qed.

Lemma fitViewport_bounds_witness : exists v, fitViewport letter (of_Z 5000) = Ok v /\
  fle MIN_SCALE (scale v) = true /\ fle (scale v) MAX_SCALE = true.
Proof.
  destruct (getViewport letter (of_Z 1)) as [u|e|] eqn:E; [|discriminate E|discriminate E].
  assert (Hw : is_nan (width u) = false) by (vm_compute in E; injection E as <-; reflexivity).
  destruct (fitViewport_bounds letter (of_Z 5000) u E Hw ltac:(vm_compute; reflexivity)) as (v & Ev & _ & H).
  exists v. split; [exact Ev|exact H].
Defined.
