(* ===== verification/RenderTask.v ===== *)
(** * Rendering a page

    [PDFPageProxy.render] and [InternalRenderTask] of pdf.mjs: a page whose list
    of operations comes in chunks is drawn on a canvas in slices, one an
    animation frame, and a drawing can be cancelled at any time.  The state is
    what the objects hold, and an [Event] is one callback: a message from the
    worker, a frame, a promise that settles.  Which operations a frame executes
    is the canvas's business; only how far it gets and why it stops is part of
    the event.  Rendering is for display (no printing, no debugger), so the
    states of the page have one key.  The page is not destroyed. *)
From stdpp Require Import gmap.
From S2P Require Import Prelude.
Local Open Scope js_scope.

(** How the promise of a task ended. *)
Inductive Outcome := Resolved | Rejected (error : RenderError)
with RenderError := RenderingCancelledException | OtherError (e : exn).

#[export] Instance Outcome_eq_dec : EqDecision Outcome.
Proof.
  assert (EqDecision exn) by solve_decision. assert (EqDecision RenderError) by solve_decision. solve_decision.
Defined.

Record Task := mkTask {
  canvas : Z;
  t_intent : nat;
  starting : bool;              (** it waits for the page's [displayReadyCapability] *)
  cancelled : bool;
  running : bool;
  graphicsReady : bool;
  graphicsReadyCallback : bool; (** set to [_continueBound] *)
  drawing : bool;               (** between [beginDrawing] and [endDrawing] *)
  operatorListIdx : nat;
  frames : nat;                 (** frames that were asked for *)
  rAF : bool;                   (** [#rAF] holds the last of them *)
  waiting : bool;               (** an object it waits for calls [_continueBound] *)
  failed : bool;                (** [_next] threw, [_cancelBound] is still to be called *)
  outcome : option Outcome
}.

(** The operations of a page for one purpose, and who draws them. *)
Record Intent := mkIntent {
  displayReady : option bool;   (** [displayReadyCapability]: pending, resolved or rejected *)
  operations : nat;             (** [operatorList.argsArray.length] *)
  lastChunk : bool;
  streamReader : bool;
  cancelTimeout : bool;
  renderTasks : list nat
}.

Record Display := mkDisplay {
  canvasInUse : gset Z;
  tasks : list Task;
  intents : list Intent;
  intentState : option nat;     (** the one in [_intentStates] *)
  pendingCleanup : bool
}.

Definition new_Display : Display := mkDisplay ∅ [] [] None false.

Definition set_canvases f d := mkDisplay (f (canvasInUse d)) (tasks d) (intents d) (intentState d) (pendingCleanup d).
Definition set_tasks f d := mkDisplay (canvasInUse d) (f (tasks d)) (intents d) (intentState d) (pendingCleanup d).
Definition set_intents f d := mkDisplay (canvasInUse d) (tasks d) (f (intents d)) (intentState d) (pendingCleanup d).
Definition set_intentState i d := mkDisplay (canvasInUse d) (tasks d) (intents d) i (pendingCleanup d).
Definition set_pendingCleanup b d := mkDisplay (canvasInUse d) (tasks d) (intents d) (intentState d) b.

Definition set_running b t := mkTask (canvas t) (t_intent t) (starting t) (cancelled t) b (graphicsReady t) (graphicsReadyCallback t) (drawing t) (operatorListIdx t) (frames t) (rAF t) (waiting t) (failed t) (outcome t).
Definition set_starting b t := mkTask (canvas t) (t_intent t) b (cancelled t) (running t) (graphicsReady t) (graphicsReadyCallback t) (drawing t) (operatorListIdx t) (frames t) (rAF t) (waiting t) (failed t) (outcome t).
Definition set_callback t := mkTask (canvas t) (t_intent t) (starting t) (cancelled t) (running t) (graphicsReady t) true (drawing t) (operatorListIdx t) (frames t) (rAF t) (waiting t) (failed t) (outcome t).
Definition set_drawing b t := mkTask (canvas t) (t_intent t) (starting t) (cancelled t) (running t) (graphicsReady t) (graphicsReadyCallback t) b (operatorListIdx t) (frames t) (rAF t) (waiting t) (failed t) (outcome t).
Definition set_ready t := mkTask (canvas t) (t_intent t) (starting t) (cancelled t) (running t) true (graphicsReadyCallback t) (drawing t) (operatorListIdx t) (frames t) (rAF t) (waiting t) (failed t) (outcome t).
Definition set_idx n t := mkTask (canvas t) (t_intent t) (starting t) (cancelled t) (running t) (graphicsReady t) (graphicsReadyCallback t) (drawing t) n (frames t) (rAF t) (waiting t) (failed t) (outcome t).
Definition set_frames n b t := mkTask (canvas t) (t_intent t) (starting t) (cancelled t) (running t) (graphicsReady t) (graphicsReadyCallback t) (drawing t) (operatorListIdx t) n b (waiting t) (failed t) (outcome t).
Definition set_waiting b t := mkTask (canvas t) (t_intent t) (starting t) (cancelled t) (running t) (graphicsReady t) (graphicsReadyCallback t) (drawing t) (operatorListIdx t) (frames t) (rAF t) b (failed t) (outcome t).
Definition set_failed b t := mkTask (canvas t) (t_intent t) (starting t) (cancelled t) (running t) (graphicsReady t) (graphicsReadyCallback t) (drawing t) (operatorListIdx t) (frames t) (rAF t) (waiting t) b (outcome t).
Definition set_cancelled t := mkTask (canvas t) (t_intent t) (starting t) true (running t) (graphicsReady t) (graphicsReadyCallback t) (drawing t) (operatorListIdx t) (frames t) (rAF t) (waiting t) (failed t) (outcome t).
Definition set_outcome o t := mkTask (canvas t) (t_intent t) (starting t) (cancelled t) (running t) (graphicsReady t) (graphicsReadyCallback t) (drawing t) (operatorListIdx t) (frames t) (rAF t) (waiting t) (failed t) o.

Definition set_displayReady b i := mkIntent b (operations i) (lastChunk i) (streamReader i) (cancelTimeout i) (renderTasks i).
Definition set_operations n last i := mkIntent (displayReady i) n last (streamReader i) (cancelTimeout i) (renderTasks i).
Definition set_streamReader b i := mkIntent (displayReady i) (operations i) (lastChunk i) b (cancelTimeout i) (renderTasks i).
Definition set_cancelTimeout b i := mkIntent (displayReady i) (operations i) (lastChunk i) (streamReader i) b (renderTasks i).
Definition set_renderTasks l i := mkIntent (displayReady i) (operations i) (lastChunk i) (streamReader i) (cancelTimeout i) l.

(** The object with an index; there is a step of the code only when it is one. *)
Abbreviation D := (M Display).
Definition the_task (t : nat) : D Task := fun d =>
  match tasks d !! t with Some task => (Ok task, d) | None => (OutOfFuel, d) end.
Definition the_intent (i : nat) : D Intent := fun d =>
  match intents d !! i with Some intent => (Ok intent, d) | None => (OutOfFuel, d) end.
Definition on_task (t : nat) (f : Task -> Task) : D unit := modify (set_tasks (alter f t)).
Definition on_intent (i : nat) (f : Intent -> Intent) : D unit := modify (set_intents (alter f i)).

(** ** Ending a task *)

(** [#tryCleanup()] *)
Definition tryCleanup : D unit :=
  d <- get ;;
  if negb (pendingCleanup d) then mret tt
  else
    let busy :=
      match i ← intentState d; intents d !! i with
      | Some intent => negb (bool_decide (renderTasks intent = [])) || negb (lastChunk intent)
      | None => false
      end in
    if busy then mret tt
    else modify (set_intentState None) ;;; modify (set_pendingCleanup false).

(** [_abortOperatorList({ intentState, reason, force })] *)
Definition abortOperatorList (i : nat) (reason : RenderError) (force : bool) : D unit :=
  intent <- the_intent i ;;
  if negb (streamReader intent) then mret tt
  else
    on_intent i (set_cancelTimeout false) ;;;
    if negb force && negb (bool_decide (renderTasks intent = [])) then mret tt
    else if negb force && match reason with RenderingCancelledException => true | OtherError _ => false end then
      on_intent i (set_cancelTimeout true)
    else
      on_intent i (set_streamReader false) ;;;
      d <- get ;;
      (if bool_decide (intentState d = Some i) then modify (set_intentState None) else mret tt) ;;;
      modify (set_pendingCleanup true) ;;;
      tryCleanup.

(** A promise keeps its first outcome. *)
Definition settle (o : Outcome) (task : Task) : Task :=
  match outcome task with Some _ => task | None => set_outcome (Some o) task end.

(** [complete(error)] of [render] *)
Definition complete (t : nat) (error : option RenderError) : D unit :=
  task <- the_task t ;;
  let i := t_intent task in
  on_intent i (fun intent => set_renderTasks (filter (fun t' => t' <> t) (renderTasks intent)) intent) ;;;
  tryCleanup ;;;
  match error with
  | Some e => on_task t (settle (Rejected e)) ;;; abortOperatorList i e false
  | None => on_task t (settle Resolved)
  end.

(** [cancel(error)]; the frame that was asked for last is cancelled. *)
Definition cancel (t : nat) (error : option RenderError) : D unit :=
  task <- the_task t ;;
  on_task t (fun task => set_drawing false (set_cancelled (set_running false task))) ;;;
  (if rAF task then on_task t (set_frames (frames task - 1) false) else mret tt) ;;;
  modify (set_canvases (fun s => s ∖ {[canvas task]})) ;;;
  complete t (Some (default RenderingCancelledException error)).

(** ** Drawing *)

Definition scheduleNext (t : nat) : D unit := on_task t (fun task => set_frames (S (frames task)) true task).

(** [_continue()], without a listener for [onContinue] *)
Definition continue (t : nat) : D unit :=
  task <- the_task t ;;
  on_task t (set_running true) ;;;
  if cancelled task then mret tt else scheduleNext t.

Definition operatorListChanged (t : nat) : D unit :=
  task <- the_task t ;;
  if negb (graphicsReady task) then on_task t set_callback
  else if running task then mret tt
  else continue t.

Definition same_canvas : exn := JsError "Cannot use the same canvas during multiple render() operations.".

(** [begins]: whether the canvas can be drawn on. *)
Definition initializeGraphics (t : nat) (begins : bool) : D unit :=
  task <- the_task t ;;
  if cancelled task then mret tt
  else
    d <- get ;;
    if bool_decide (canvas task ∈ canvasInUse d) then throw same_canvas
    else
      modify (set_canvases (fun s => {[canvas task]} ∪ s)) ;;;
      if begins then
        on_task t (fun task => set_ready (set_idx 0 (set_drawing true task))) ;;;
        if graphicsReadyCallback task then continue t else mret tt
      else throw (JsError "beginDrawing").

(** How far [executeOperatorList] got: the end of the list so far, a pause
    when its time is over, an object that is not there yet, or an exception. *)
Inductive Execution := Reached | Paused (i : nat) | Waits (i : nat) | Raised (e : exn).

(** [_next()] *)
Definition next (t : nat) (r : Execution) : D unit :=
  task <- the_task t ;;
  if cancelled task then mret tt
  else
    intent <- the_intent (t_intent task) ;;
    let stop i := (operatorListIdx task <=? i)%nat && (i <? operations intent)%nat in
    match r with
    | Reached =>
        on_task t (fun task => set_running false (set_idx (operations intent) task)) ;;;
        if lastChunk intent then
          on_task t (set_drawing false) ;;;
          modify (set_canvases (fun s => s ∖ {[canvas task]})) ;;;
          complete t None
        else mret tt
    | Paused i => if stop i then continue t ;;; on_task t (set_idx i) else out_of_fuel
    | Waits i => if stop i then on_task t (fun task => set_waiting true (set_idx i task)) else out_of_fuel
    | Raised e => on_task t (set_failed true)
    end.

(** ** What the client calls *)

Definition new_Task (c : Z) (i : nat) : Task := mkTask c i true false false false false false 0 0 false false false None.
Definition new_Intent : Intent := mkIntent None 0 false true false [].

(** [page.render({ canvas })] *)
Definition render (c : Z) : D nat :=
  modify (set_pendingCleanup false) ;;;
  d <- get ;;
  i <- (match intentState d with
        | Some i => mret i
        | None =>
            let i := length (intents d) in
            modify (set_intents (fun l => l ++ [new_Intent])) ;;;
            modify (set_intentState (Some i)) ;;; mret i
        end) ;;
  on_intent i (set_cancelTimeout false) ;;;
  let t := length (tasks d) in
  modify (set_tasks (fun l => l ++ [new_Task c i])) ;;;
  on_intent i (fun intent => set_renderTasks (renderTasks intent ++ [t]) intent) ;;;
  mret t.

(** ** Events *)

Inductive Event :=
| DisplayReady                            (** the message [StartRenderPage] *)
| Chunk (i : nat) (n : nat) (last : bool) (** operations from the worker *)
| ReadDone (i : nat)
| ReadError (i : nat) (e : exn)
| Timeout (i : nat)                       (** the delay after a cancellation is over *)
| Ready (t : nat) (begins : bool)         (** what a task waited for is there *)
| Refused (t : nat) (e : exn)             (** the optional content fails to come, or is for another intent *)
| Frame (t : nat) (r : Execution)
| Dependency (t : nat)                    (** an object is there *)
| Caught (t : nat) (e : exn).

Fixpoint each (f : nat -> D unit) (l : list nat) : D unit :=
  match l with
  | [] => mret tt
  | t :: l => f t ;;; each f l
  end.

(** The step happens when its condition holds. *)
Definition when {S A} (b : bool) (m : M S A) : M S A := if b then m else out_of_fuel.

(** What [Promise.all(...).then(...).catch(complete)] of [render] calls when the
    display is ready (or reading it failed) and the optional content is there. *)
Definition ready (t : nat) (begins : bool) : D unit :=
  task <- the_task t ;;
  intent <- the_intent (t_intent task) ;;
  match displayReady intent with
  | Some true =>
      when (starting task)
        (on_task t (set_starting false) ;;;
         try_catch (initializeGraphics t begins ;;; operatorListChanged t)
           (fun e => complete t (Some (OtherError e))))
  | Some false =>
      when (starting task)
        (on_task t (set_starting false) ;;; complete t (Some (OtherError (JsError "GetOperatorList"))))
  | None => out_of_fuel
  end.

(** The same when the optional content does not come, which the promise does not
    await the display for, or is for another intent. *)
Definition refused (t : nat) (e : exn) : D unit :=
  task <- the_task t ;;
  when (starting task) (on_task t (set_starting false) ;;; complete t (Some (OtherError e))).

Definition step (e : Event) : D unit :=
  match e with
  | DisplayReady =>
      d <- get ;;
      match intentState d with
      | Some i =>
          on_intent i (fun intent =>
            match displayReady intent with None => set_displayReady (Some true) intent | Some _ => intent end)
      | None => mret tt
      end
  | Chunk i n last =>
      intent <- the_intent i ;;
      when (streamReader intent)
        (on_intent i (fun intent => set_operations (operations intent + n) last intent) ;;;
         each operatorListChanged (renderTasks intent) ;;;
         if last then tryCleanup else mret tt)
  | ReadDone i =>
      intent <- the_intent i ;;
      when (streamReader intent && lastChunk intent) (on_intent i (set_streamReader false))
  | ReadError i e =>
      intent <- the_intent i ;;
      when (streamReader intent)
        (on_intent i (fun intent => set_operations (operations intent) true (set_streamReader false intent)) ;;;
         each operatorListChanged (renderTasks intent) ;;;
         tryCleanup ;;;
         on_intent i (fun intent =>
           match displayReady intent with None => set_displayReady (Some false) intent | Some _ => intent end))
  | Timeout i =>
      intent <- the_intent i ;;
      when (cancelTimeout intent)
        (on_intent i (set_cancelTimeout false) ;;; abortOperatorList i RenderingCancelledException true)
  | Ready t begins => ready t begins
  | Refused t e => refused t e
  | Frame t r =>
      task <- the_task t ;;
      when (0 <? frames task)%nat (on_task t (set_frames (frames task - 1) false) ;;; next t r)
  | Dependency t =>
      task <- the_task t ;;
      when (waiting task) (on_task t (set_waiting false) ;;; continue t)
  | Caught t e =>
      task <- the_task t ;;
      when (failed task) (on_task t (set_failed false) ;;; cancel t (Some (OtherError e)))
  end.
