(* ===== verification/RenderTaskSpec.v ===== *)
(** * Drawing never gets stuck

    An invariant of every state that [PDFPageProxy.render], [cancel] and the
    events lead to, whatever the client does: a task that has begun and has not
    ended either waits for exactly one thing that will call it, or has executed
    all the operations there are and more will come. *)
From stdpp Require Import gmap.
From S2P Require Import Prelude RenderTask.
Local Open Scope js_scope.

(** What will call a task back. *)
Definition pending (k : Task) : nat :=
  frames k + (if waiting k then 1 else 0) + (if failed k then 1 else 0).

Record task_ok (it : Intent) (k : Task) : Prop := {
  ok_frames : (frames k <= 1)%nat /\ (rAF k = true <-> frames k = 1%nat);
  ok_pending : (pending k <= 1)%nat;
  ok_unready : graphicsReady k = false -> pending k = 0%nat /\ running k = false;
  ok_starting : starting k = true -> graphicsReady k = false;
  ok_waits : starting k = true -> cancelled k = false -> outcome k = None;
  ok_begun : outcome k = None -> graphicsReady k = true \/ starting k = true;
  ok_cancelled : cancelled k = true -> outcome k <> None /\ frames k = 0%nat;
  ok_settled : outcome k <> None -> cancelled k = false -> pending k = 0%nat;
  ok_drawing : drawing k = true <-> graphicsReady k = true /\ outcome k = None;
  ok_running : graphicsReady k = true -> outcome k = None -> running k = true -> pending k = 1%nat;
  ok_idle : graphicsReady k = true -> outcome k = None -> running k = false ->
    pending k = 0%nat /\ operatorListIdx k = operations it /\ lastChunk it = false
}.

Record display_ok (d : Display) : Prop := {
  ok_tasks : forall t k, tasks d !! t = Some k ->
    exists it, intents d !! t_intent k = Some it /\ task_ok it k /\ (outcome k = None -> t ∈ renderTasks it);
  ok_intents : forall i it, intents d !! i = Some it ->
    NoDup (renderTasks it) /\
    (forall t, t ∈ renderTasks it -> exists k, tasks d !! t = Some k /\ t_intent k = i /\ outcome k = None) /\
    (renderTasks it <> [] -> cancelTimeout it = false /\ intentState d = Some i);
  ok_state : forall i, intentState d = Some i ->
    exists it, intents d !! i = Some it /\ (streamReader it = true \/ lastChunk it = true)
}.

Lemma display_ok_new : display_ok new_Display.
Proof. by split. Qed.

(** ** Changes of one task *)

Lemma alter_insert {A} (l : list A) i x (f : A -> A) : l !! i = Some x -> alter f i l = <[i := f x]> l.
Proof.
  intros H. apply list_eq. intros j. destruct (decide (i = j)) as [<-|Hne].
  - rewrite list_lookup_alter_eq, H, list_lookup_insert_eq; [done|]. by eapply lookup_lt_Some.
  - by rewrite list_lookup_alter_ne, list_lookup_insert_ne.
Qed.

(** A change that keeps the intent and the outcome of a task, and its part of
    the invariant. *)
Lemma ok_task d d' t k k' : display_ok d -> tasks d !! t = Some k ->
  intents d' = intents d -> intentState d' = intentState d -> tasks d' = <[t := k']> (tasks d) ->
  t_intent k' = t_intent k -> outcome k' = outcome k ->
  (forall it, intents d !! t_intent k = Some it -> task_ok it k -> task_ok it k') -> display_ok d'.
Proof.
  intros [HT HI HS] Hk EI ES ET Ei Eo H. pose proof (lookup_lt_Some _ _ _ Hk) as Hlt. split; rewrite ?EI, ?ES, ?ET.
  - intros t1 k1. destruct (decide (t = t1)) as [<-|Hne].
    + rewrite list_lookup_insert_eq by done. intros [= <-]. destruct (HT _ _ Hk) as (it & Hit & Hok & Hin).
      exists it. rewrite Ei, Eo. eauto.
    + rewrite list_lookup_insert_ne by done. apply HT.
  - intros i it Hit. destruct (HI i it Hit) as (Hnd & Hmem & Hne). split_and!; [done| |done].
    intros t1 H1. destruct (Hmem t1 H1) as (k1 & Hk1 & Hi1 & Ho1). destruct (decide (t = t1)) as [<-|Hne1].
    + exists k'. rewrite list_lookup_insert_eq by done. rewrite Ei, Eo. by simplify_eq.
    + exists k1. by rewrite list_lookup_insert_ne.
  - apply HS.
Qed.

(** ** The end of a task *)

(** What the page keeps of an intent when drawing ends, and of which intent is
    the current one: it is only forgotten when nobody draws it. *)
Record kept (d d' : Display) (i : nat) (it it' : Intent) : Prop := {
  kept_intents : intents d' = <[i := it']> (intents d);
  kept_canvas : canvasInUse d' = canvasInUse d;
  kept_operations : operations it' = operations it;
  kept_lastChunk : lastChunk it' = lastChunk it;
  kept_ready : displayReady it' = displayReady it;
  kept_timeout : renderTasks it' <> [] -> cancelTimeout it = false -> cancelTimeout it' = false;
  kept_reader : intentState d' = Some i -> streamReader it' = streamReader it;
  kept_state : intentState d' = intentState d \/
    intentState d' = None /\ forall j jt, intentState d = Some j -> intents d' !! j = Some jt -> renderTasks jt = []
}.

Lemma tryCleanup_spec d i it : intents d !! i = Some it ->
  exists d', tryCleanup d = (Ok tt, d') /\ tasks d' = tasks d /\ kept d d' i it it.
Proof.
  intros Hit. unfold tryCleanup. m_red. destruct (pendingCleanup d); cbn [negb].
  2:{ eexists. split_and!; [reflexivity|done|]. split; try done; [by rewrite list_insert_id|by left]. }
  destruct (match _ with Some _ => _ | None => _ end) eqn:E; cbv beta iota; eexists;
    (split_and!; [reflexivity|done|]); split; try done; cbn; rewrite ?list_insert_id by done; try done; [by left|].
  right. split; [done|]. intros j jt Hj Hjt. rewrite Hj in E. cbn in E. rewrite Hjt in E.
  apply orb_false_iff in E as [E _]. apply negb_false_iff, bool_decide_eq_true in E. done.
Qed.

Lemma kept_trans d d1 d2 i it it1 it2 : kept d d1 i it it1 -> kept d1 d2 i it1 it2 -> renderTasks it2 = renderTasks it1 ->
  kept d d2 i it it2.
Proof.
  intros [A1 A2 A3 A4 A5 A6 A7 A8] [B1 B2 B3 B4 B5 B6 B7 B8] Hr. split; try congruence.
  - by rewrite B1, A1, list_insert_insert_eq.
  - rewrite Hr in *. auto.
  - intros H. rewrite (B7 H). apply A7. destruct B8 as [E|[E _]]; congruence.
  - destruct B8 as [E8|[E8 F8]].
    + rewrite E8. destruct A8 as [?|[E F]]; [by left|]. right. split; [done|]. intros j jt Hj. rewrite B1.
      destruct (decide (i = j)) as [<-|Hne]; [|rewrite list_lookup_insert_ne by done; by apply F].
      intros Hjt. apply list_lookup_insert_Some in Hjt as [(_ & <- & Hl)|[? _]]; [|done]. rewrite Hr. apply (F i); [done|].
      rewrite A1 in Hl |- *. rewrite length_insert in Hl. by rewrite list_lookup_insert_eq.
    + right. split; [done|]. destruct A8 as [E|[E F]]; [by rewrite <- E|].
      intros j jt Hj. rewrite B1. destruct (decide (i = j)) as [<-|Hne].
      * intros Hjt. apply list_lookup_insert_Some in Hjt as [(_ & <- & Hl)|[? _]]; [|done]. rewrite Hr. apply (F i); [done|].
        rewrite A1 in Hl |- *. rewrite length_insert in Hl. by rewrite list_lookup_insert_eq.
      * rewrite list_lookup_insert_ne by done. by apply F.
Qed.

(** A change of an intent that keeps what the others rely on. *)
Lemma kept_change d i it (f : Intent -> Intent) : intents d !! i = Some it ->
  operations (f it) = operations it -> lastChunk (f it) = lastChunk it -> displayReady (f it) = displayReady it ->
  (renderTasks (f it) <> [] -> cancelTimeout it = false -> cancelTimeout (f it) = false) ->
  streamReader (f it) = streamReader it ->
  kept d (set_intents (alter f i) d) i it (f it).
Proof. intros Hit. split; try done; [cbn; by apply alter_insert|by left]. Qed.

Lemma abort_spec i e force d it : intents d !! i = Some it -> (force = true -> renderTasks it = []) ->
  exists d' it', abortOperatorList i e force d = (Ok tt, d') /\ tasks d' = tasks d /\
    renderTasks it' = renderTasks it /\ kept d d' i it it'.
Proof.
  intros Hit Hforce. unfold abortOperatorList, the_intent, on_intent. m_red. rewrite Hit.
  destruct (streamReader it) eqn:Er; cbn [negb].
  2:{ eexists _, it. split_and!; try done. split; try done; [by rewrite list_insert_id|by left]. }
  set (it1 := set_cancelTimeout false it).
  assert (K1 : kept d (set_intents (alter (set_cancelTimeout false) i) d) i it it1) by (by apply kept_change).
  assert (H1 : intents (set_intents (alter (set_cancelTimeout false) i) d) !! i = Some it1).
  { cbn. by rewrite list_lookup_alter_eq, Hit. }
  set (d1 := set_intents (alter (set_cancelTimeout false) i) d) in *.
  destruct (negb force && negb (bool_decide (renderTasks it = []))) eqn:E1; [by eexists _, it1|].
  assert (Hnil : renderTasks it = []).
  { destruct force; [by apply Hforce|]. cbn in E1. by apply negb_false_iff, bool_decide_eq_true in E1. }
  clear E1. destruct (negb force && _) eqn:E2.
  { eexists _, (set_cancelTimeout true it1). split_and!; try done.
    eapply kept_trans; [exact K1| |done]. apply kept_change; try done. }
  clear E2. set (it2 := set_streamReader false it1).
  set (d2 := set_intents (alter (set_streamReader false) i) d1).
  assert (H2 : intents d2 !! i = Some it2).
  { change (intents d2) with (alter (set_streamReader false) i (intents d1)). by rewrite list_lookup_alter_eq, H1. }
  assert (E2 : intents d2 = <[i := it2]> (intents d)).
  { change (intents d2) with (alter (set_streamReader false) i (intents d1)).
    by rewrite (alter_insert _ _ _ _ H1), (kept_intents _ _ _ _ _ K1), list_insert_insert_eq. }
  set (d3 := set_pendingCleanup true (if bool_decide (intentState d2 = Some i) then set_intentState None d2 else d2)).
  assert (F3 : intents d3 = intents d2 /\ canvasInUse d3 = canvasInUse d /\
    (intentState d = Some i /\ intentState d3 = None \/ intentState d <> Some i /\ intentState d3 = intentState d)).
  { unfold d3. change (intentState d2) with (intentState d). case_bool_decide; split_and!; try done; (by left) || (by right). }
  destruct F3 as (F3 & C3 & S3).
  assert (K3 : kept d d3 i it it2).
  { split; try done; [by rewrite F3| |].
    - intros H. destruct S3 as [[_ S3]|[S3 S3']]; congruence.
    - destruct S3 as [[S3 S3']|[S3 S3']]; [|by left]. right. split; [done|]. intros j jt Hj.
      rewrite S3 in Hj. injection Hj as <-. rewrite F3, H2. by intros [= <-]. }
  assert (H3 : intents d3 !! i = Some it2) by (unfold d3; by case_bool_decide).
  destruct (tryCleanup_spec d3 i it2 H3) as (d' & E' & Et & K').
  exists d', it2. split_and!; [| |done|].
  - rewrite <- E'. unfold d3, d2. cbn [intentState set_intents]. by case_bool_decide.
  - rewrite Et. unfold d3. by case_bool_decide.
  - by eapply kept_trans.
Qed.

(** What [complete] does. *)
Lemma complete_spec t error d k it : tasks d !! t = Some k -> intents d !! t_intent k = Some it ->
  exists d' it', complete t error d = (Ok tt, d') /\
    tasks d' = <[t := settle (match error with Some e => Rejected e | None => Resolved end) k]> (tasks d) /\
    renderTasks it' = filter (fun t' => t' <> t) (renderTasks it) /\ kept d d' (t_intent k) it it'.
Proof.
  intros Hk Hit. unfold complete, the_task. m_red. rewrite Hk. unfold on_intent. m_red.
  set (f := fun intent => set_renderTasks _ intent). set (it1 := f it).
  set (d1 := set_intents (alter f (t_intent k)) d).
  assert (K1 : kept d d1 (t_intent k) it it1) by (by apply kept_change).
  assert (H1 : intents d1 !! t_intent k = Some it1) by (cbn; by rewrite list_lookup_alter_eq, Hit).
  destruct (tryCleanup_spec d1 _ it1 H1) as (d2 & E2 & Et2 & K2). rewrite E2.
  assert (H2 : intents d2 !! t_intent k = Some it1).
  { rewrite (kept_intents _ _ _ _ _ K2), list_lookup_insert_eq; [done|]. by eapply lookup_lt_Some. }
  assert (Hk2 : tasks d2 !! t = Some k) by (by rewrite Et2).
  unfold on_task. m_red. destruct error as [e|].
  - set (d3 := set_tasks (alter (settle (Rejected e)) t) d2).
    destruct (abort_spec (t_intent k) e false d3 it1 H2 ltac:(done)) as (d' & it' & E' & Et' & Er & K').
    exists d', it'. split_and!; [done| |by rewrite Er|].
    + rewrite Et'. cbn. by rewrite (alter_insert _ _ _ _ Hk2), Et2.
    + eapply kept_trans; [eapply kept_trans; [exact K1|exact K2|done]| |done].
      destruct K'. split; done.
  - eexists _, it1. split_and!; [done|cbn; by rewrite (alter_insert _ _ _ _ Hk2), Et2|done|].
    eapply kept_trans; [exact K1| |done]. destruct K2. by split.
Qed.

Lemma task_ok_intent it it' k : operations it' = operations it -> lastChunk it' = lastChunk it -> task_ok it k -> task_ok it' k.
Proof. intros Eo El []. split; try done. by rewrite Eo, El. Qed.

Lemma settle_intent o k : t_intent (settle o k) = t_intent k.
Proof. unfold settle. by destruct (outcome k). Qed.
Lemma settle_outcome o k : outcome (settle o k) <> None.
Proof. unfold settle. by destruct (outcome k) eqn:E; cbn; rewrite ?E. Qed.

(** A task ends: its last change, then [complete]. *)
Lemma ok_complete d d1 t k k1 error : display_ok d -> tasks d !! t = Some k ->
  intents d1 = intents d -> intentState d1 = intentState d -> tasks d1 = <[t := k1]> (tasks d) ->
  t_intent k1 = t_intent k ->
  (forall it, intents d !! t_intent k = Some it -> task_ok it k ->
    task_ok it (settle (match error with Some e => Rejected e | None => Resolved end) k1)) ->
  exists d', complete t error d1 = (Ok tt, d') /\ display_ok d' /\ canvasInUse d' = canvasInUse d1 /\
    tasks d' = <[t := settle (match error with Some e => Rejected e | None => Resolved end) k1]> (tasks d).
Proof.
  intros [HT HI HS] Hk EI ES ET Ei H. pose proof (lookup_lt_Some _ _ _ Hk) as Hlt.
  destruct (HT t k Hk) as (it & Hit & Hok & Hin).
  assert (Hk1 : tasks d1 !! t = Some k1) by (by rewrite ET, list_lookup_insert_eq).
  destruct (complete_spec t error d1 k1 it Hk1) as (d' & it' & E & ET' & Er & K); [by rewrite EI, Ei|].
  rewrite ET, list_insert_insert_eq in ET'. rewrite Ei in K.
  assert (HI' : forall j jt, intents d' !! j = Some jt -> exists jt0, intents d !! j = Some jt0 /\
    (j = t_intent k /\ jt = it' /\ jt0 = it \/ j <> t_intent k /\ jt = jt0)).
  { intros j jt. rewrite (kept_intents _ _ _ _ _ K), EI. intros [(<- & <- & _)|[Hne Hj]]%list_lookup_insert_Some;
      [exists it; split; [done|by left]|exists jt; split; [done|right; split; [congruence|done]]]. }
  exists d'. split; [done|]. split; [|split; [apply K|done]]. split.
  - intros t1 k2. rewrite ET'. intros [(<- & <- & _)|[Hne Hk2]]%list_lookup_insert_Some.
    + exists it'. rewrite settle_intent, Ei, (kept_intents _ _ _ _ _ K), EI, list_lookup_insert_eq by (by eapply lookup_lt_Some).
      split_and!; [done| |by intros []%settle_outcome].
      eapply task_ok_intent; [apply K|apply K|]. by apply H.
    + destruct (HT t1 k2 Hk2) as (jt & Hjt & Hok2 & Hin2). destruct (decide (t_intent k2 = t_intent k)) as [Ej|Hj].
      * rewrite Ej in Hjt |- *. simplify_eq. exists it'.
        rewrite (kept_intents _ _ _ _ _ K), EI, list_lookup_insert_eq by (by eapply lookup_lt_Some).
        split_and!; [done|eapply task_ok_intent; [apply K|apply K|done]|].
        intros Ho. rewrite Er. apply list_elem_of_filter. auto.
      * exists jt. rewrite (kept_intents _ _ _ _ _ K), EI, list_lookup_insert_ne by done. auto.
  - intros j jt Hjt. destruct (HI' j jt Hjt) as (jt0 & Hj0 & Hcase). destruct (HI j jt0 Hj0) as (Hnd & Hmem & Hne).
    assert (Hsub : NoDup (renderTasks jt) /\ (forall x, x ∈ renderTasks jt -> x ∈ renderTasks jt0) /\
      (j = t_intent k -> t ∉ renderTasks jt) /\ (renderTasks jt0 = [] -> renderTasks jt = [])).
    { destruct Hcase as [(-> & -> & ->)|(Hj & ->)]; [rewrite Er|done]. split_and!.
      - by apply NoDup_filter.
      - intros x [_ Hx]%list_elem_of_filter. done.
      - intros _ [? _]%list_elem_of_filter. done.
      - by intros ->. }
    destruct Hsub as (Hnd' & Hsub & Ht & Hnil). split_and!; [done| |].
    + intros x Hx. destruct (Hmem x (Hsub x Hx)) as (kx & Hkx & Hix & Hox). exists kx. rewrite ET'.
      rewrite list_lookup_insert_ne; [done|]. intros <-. simplify_eq. by apply Ht.
    + intros Hn. destruct Hne as [Hto Hcur]; [by intros ?%Hnil|]. split.
      * destruct Hcase as [(-> & -> & ->)|(Hj & ->)]; [by apply K|done].
      * destruct (kept_state _ _ _ _ _ K) as [->|[_ F]]; [by rewrite ES|]. rewrite ES in F. by destruct Hn; apply (F j jt).
  - intros j Hj. assert (Hj' : intentState d = Some j).
    { destruct (kept_state _ _ _ _ _ K) as [E'|[E' _]]; congruence. }
    destruct (HS j Hj') as (jt & Hjt & Hor). destruct (decide (j = t_intent k)) as [->|Hne].
    + simplify_eq. exists it'. rewrite (kept_intents _ _ _ _ _ K), EI, list_lookup_insert_eq by (by eapply lookup_lt_Some).
      by rewrite (kept_reader _ _ _ _ _ K Hj), (kept_lastChunk _ _ _ _ _ K).
    + exists jt. by rewrite (kept_intents _ _ _ _ _ K), EI, list_lookup_insert_ne.
Qed.

(** ** Changes of an intent *)

(** A change that keeps the operations, who draws them, and that more will come
    for the current intent. *)
Lemma ok_kept d d' i it it' : display_ok d -> intents d !! i = Some it -> kept d d' i it it' ->
  tasks d' = tasks d -> renderTasks it' = renderTasks it -> display_ok d'.
Proof.
  intros [HT HI HS] Hit K ET Er. pose proof (lookup_lt_Some _ _ _ Hit) as Hlt.
  assert (Hl : forall j jt, intents d !! j = Some jt -> exists jt', intents d' !! j = Some jt' /\
    renderTasks jt' = renderTasks jt /\ operations jt' = operations jt /\ lastChunk jt' = lastChunk jt /\
    (renderTasks jt' <> [] -> cancelTimeout jt = false -> cancelTimeout jt' = false) /\
    (intentState d' = Some j -> streamReader jt' = streamReader jt)).
  { intros j jt Hj. rewrite (kept_intents _ _ _ _ _ K). destruct (decide (i = j)) as [<-|Hne].
    - simplify_eq. exists it'. rewrite list_lookup_insert_eq by done. destruct K. eauto 10.
    - exists jt. rewrite list_lookup_insert_ne by done. eauto 10. }
  split.
  - rewrite ET. intros t k Hk. destruct (HT t k Hk) as (jt & Hjt & Hok & Hin).
    destruct (Hl _ _ Hjt) as (jt' & Hjt' & Er' & Eo & El & _). exists jt'. rewrite Er'.
    split_and!; [done|by eapply task_ok_intent|done].
  - intros j jt' Hjt'. destruct (lookup_lt_is_Some_2 (intents d) j) as [jt Hjt].
    { apply lookup_lt_Some in Hjt'. by rewrite (kept_intents _ _ _ _ _ K), length_insert in Hjt'. }
    destruct (Hl _ _ Hjt) as (jt1 & Hjt1 & Er' & _ & _ & Hto & _). simplify_eq. rewrite Er', ET in *.
    destruct (HI j jt Hjt) as (Hnd & Hmem & Hne). split_and!; [done|done|].
    intros Hn. destruct (Hne Hn) as [Hc Hs]. split; [auto|].
    destruct (kept_state _ _ _ _ _ K) as [->|[_ F]]; [done|]. specialize (F j _ Hs Hjt'). by rewrite Er' in F.
  - intros j Hj. assert (Hj' : intentState d = Some j) by (destruct (kept_state _ _ _ _ _ K) as [E'|[E' _]]; congruence).
    destruct (HS j Hj') as (jt & Hjt & Hor). destruct (Hl _ _ Hjt) as (jt' & Hjt' & _ & _ & El & _ & Hr).
    exists jt'. by rewrite El, (Hr Hj).
Qed.

Lemma ok_cleanup d : display_ok d -> exists d', tryCleanup d = (Ok tt, d') /\ display_ok d' /\ tasks d' = tasks d /\
  intents d' = intents d /\ canvasInUse d' = canvasInUse d.
Proof.
  intros Hok. destruct (intentState d) as [i|] eqn:E.
  - destruct (ok_state d Hok i E) as (it & Hit & _). destruct (tryCleanup_spec d i it Hit) as (d' & E' & ET & K).
    exists d'. split_and!; [done|by eapply ok_kept|done| |by apply K].
    rewrite (kept_intents _ _ _ _ _ K). by apply list_insert_id.
  - unfold tryCleanup. m_red. rewrite E. cbn. destruct (pendingCleanup d); cbn; eexists; split_and!; try done.
    destruct Hok. split; try done. rewrite E in *. done.
Qed.

(** The same for a change that brings operations, an error or an end, the
    tasks being as the change needs them. *)
Lemma ok_intent d d' i it it' : display_ok d -> intents d !! i = Some it ->
  intents d' = <[i := it']> (intents d) -> intentState d' = intentState d ->
  renderTasks it' = renderTasks it -> cancelTimeout it' = cancelTimeout it ->
  (streamReader it' = true \/ lastChunk it' = true \/ intentState d <> Some i) ->
  (forall t k', tasks d' !! t = Some k' -> exists k, tasks d !! t = Some k /\ t_intent k' = t_intent k /\ outcome k' = outcome k /\
     (t_intent k <> i -> k' = k) /\ (t_intent k = i -> task_ok it k -> task_ok it' k')) ->
  length (tasks d') = length (tasks d) -> display_ok d'.
Proof.
  intros [HT HI HS] Hit EI ES Er Ec Hs Ht Hlen. pose proof (lookup_lt_Some _ _ _ Hit) as Hlt. split; rewrite ?EI, ?ES.
  - intros t k' Hk'. destruct (Ht t k' Hk') as (k & Hk & Ei & Eo & Hsame & Hchg).
    destruct (HT t k Hk) as (jt & Hjt & Hok & Hin). rewrite Ei, Eo. destruct (decide (t_intent k = i)) as [E|E].
    + rewrite E in *. simplify_eq. exists it'. rewrite list_lookup_insert_eq, Er by done. auto.
    + rewrite (Hsame E). exists jt. by rewrite list_lookup_insert_ne.
  - intros j jt [(<- & <- & _)|[Hne Hj]]%list_lookup_insert_Some.
    + destruct (HI i it Hit) as (Hnd & Hmem & Hne). rewrite Er, Ec. split_and!; [done| |done].
      intros t Hin. destruct (Hmem t Hin) as (k & Hk & Ei & Eo).
      destruct (lookup_lt_is_Some_2 (tasks d') t) as [k' Hk']; [rewrite Hlen; by eapply lookup_lt_Some|].
      destruct (Ht t k' Hk') as (k2 & Hk2 & Ei2 & Eo2 & _). simplify_eq. exists k'. by rewrite Ei2, Eo2.
    + destruct (HI j jt Hj) as (Hnd & Hmem & Hn). split_and!; [done| |done].
      intros t Hin. destruct (Hmem t Hin) as (k & Hk & Ei & Eo).
      destruct (lookup_lt_is_Some_2 (tasks d') t) as [k' Hk']; [rewrite Hlen; by eapply lookup_lt_Some|].
      destruct (Ht t k' Hk') as (k2 & Hk2 & Ei2 & Eo2 & _). simplify_eq. exists k'. by rewrite Ei2, Eo2.
  - intros j Hj. destruct (decide (i = j)) as [<-|Hne].
    + exists it'. rewrite list_lookup_insert_eq by done. split; [done|]. by destruct Hs as [?|[?|?]]; [left|right|].
    + rewrite list_lookup_insert_ne by done. by apply HS.
Qed.

(** ** The operations as functions of a task *)

Definition continued (k : Task) : Task :=
  let k' := set_running true k in if cancelled k then k' else set_frames (S (frames k)) true k'.
Definition changed (k : Task) : Task :=
  if negb (graphicsReady k) then set_callback k else if running k then k else continued k.

(** The display with another task in the place of [t]. *)
Definition put_task (t : nat) (k : Task) (d : Display) : Display := set_tasks (fun l => <[t := k]> l) d.

Lemma put_put t k k' d : put_task t k' (put_task t k d) = put_task t k' d.
Proof. unfold put_task, set_tasks. cbn. by rewrite list_insert_insert_eq. Qed.

Lemma put_same t k d : tasks d !! t = Some k -> put_task t k d = d.
Proof. intros H. unfold put_task, set_tasks. destruct d. cbn in *. by rewrite list_insert_id. Qed.

Lemma put_lookup t k d : is_Some (tasks d !! t) -> tasks (put_task t k d) !! t = Some k.
Proof. intros [k0 H]. cbn. apply list_lookup_insert_eq. by eapply lookup_lt_Some. Qed.

Lemma on_task_eq t f d k : tasks d !! t = Some k -> on_task t f d = (Ok tt, put_task t (f k) d).
Proof. intros H. unfold on_task, put_task, set_tasks. m_red. by rewrite (alter_insert _ _ _ _ H). Qed.

Lemma the_task_eq t d k : tasks d !! t = Some k -> the_task t d = (Ok k, d).
Proof. intros H. unfold the_task. by rewrite H. Qed.

Lemma continue_eq t d k : tasks d !! t = Some k -> continue t d = (Ok tt, put_task t (continued k) d).
Proof.
  intros H. unfold continue, scheduleNext, continued. rewrite (mbind_ok _ _ _ _ _ (the_task_eq t d k H)).
  rewrite (mbind_ok _ _ _ _ _ (on_task_eq t _ d k H)). destruct (cancelled k); [done|].
  rewrite (on_task_eq t _ _ (set_running true k)) by (by apply put_lookup; eexists). by rewrite put_put.
Qed.

Lemma changed_eq t d k : tasks d !! t = Some k -> operatorListChanged t d = (Ok tt, put_task t (changed k) d).
Proof.
  intros H. unfold operatorListChanged, changed. rewrite (mbind_ok _ _ _ _ _ (the_task_eq t d k H)).
  destruct (graphicsReady k); cbn [negb]; [|by apply on_task_eq].
  destruct (running k); [by rewrite put_same|by apply continue_eq].
Qed.

(** Every task of a list without repetitions. *)
Lemma each_eq l : forall d, NoDup l -> (forall t, t ∈ l -> is_Some (tasks d !! t)) ->
  exists l', each operatorListChanged l d = (Ok tt, set_tasks (fun _ => l') d) /\ length l' = length (tasks d) /\
    forall t, l' !! t = if decide (t ∈ l) then changed <$> tasks d !! t else tasks d !! t.
Proof.
  induction l as [|t l IH]; intros d Hnd Hin.
  - exists (tasks d). split_and!; [by destruct d|done|intros t; by rewrite decide_False by apply not_elem_of_nil].
  - apply NoDup_cons in Hnd as [Ht Hnd]. destruct (Hin t ltac:(left)) as [k Hk].
    assert (Hlook : forall t', t' ∈ l -> tasks (put_task t (changed k) d) !! t' = tasks d !! t').
    { intros t' H'. cbn. apply list_lookup_insert_ne. congruence. }
    destruct (IH (put_task t (changed k) d) Hnd) as (l' & E & Hl & Hlk).
    { intros t' H'. rewrite Hlook by done. apply Hin. by right. }
    exists l'. cbn [each]. rewrite (mbind_ok _ _ _ _ _ (changed_eq t d k Hk)), E. split_and!; [done|by rewrite Hl; apply length_insert|].
    intros t'. rewrite Hlk. destruct (decide (t' ∈ l)) as [H'|H'].
    + rewrite decide_True by (by right). by rewrite Hlook.
    + destruct (decide (t' = t)) as [->|Hne].
      * rewrite decide_True by left. rewrite put_lookup by (by eexists). by rewrite Hk.
      * rewrite decide_False by (by intros [->|?]%elem_of_cons). cbn. by rewrite list_lookup_insert_ne.
Qed.

(** ** The invariant and a task *)

Ltac task_ok_tac :=
  unfold pending in *; cbn in *;
  repeat match goal with
  | |- context [if ?b then 1%nat else 0%nat] => destruct b eqn:?
  | H : context [if ?b then 1%nat else 0%nat] |- _ => destruct b eqn:?
  end;
  intuition (try congruence; try lia).

Lemma task_ok_settled it it' k : task_ok it k -> outcome k <> None -> task_ok it' k.
Proof. intros [] Ho. split; try done. Qed.

Lemma changed_ok it it' k : task_ok it k -> outcome k = None -> task_ok it' (changed k).
Proof.
  intros Hok Ho. unfold changed, continued.
  assert (Hc : cancelled k = false) by (destruct Hok; destruct (cancelled k); intuition).
  rewrite Hc. destruct k as [c i st ca ru gr cb dr ix fr ra wa fa ou]; cbn in *; subst. destruct Hok; cbn in *.
  destruct gr; cbn [negb]; [destruct ru|]; split; task_ok_tac.
Qed.

Lemma changed_kept k : t_intent (changed k) = t_intent k /\ outcome (changed k) = outcome k.
Proof. unfold changed, continued. by destruct (negb _), (running k), (cancelled k). Qed.

(** A task in a step keeps the invariant: the fields, then the cases. *)
Ltac step_ok k Hok :=
  destruct k as [cv ti st ca ru gr cb dr ix fr ra wa fa ou]; unfold settle, continued in *; cbn in *; subst;
  destruct Hok; unfold pending in *; cbn in *;
  try destruct ca; try destruct ru; try destruct gr; try destruct st; try destruct ou; cbn in *; try (exfalso; intuition (congruence || lia)); split; task_ok_tac.

Lemma dependency_ok it k : task_ok it k -> waiting k = true -> task_ok it (continued (set_waiting false k)).
Proof. intros Hok Hw. step_ok k Hok. Qed.

Section Frame.
Context (it : Intent) (k : Task) (Hok : task_ok it k) (Hf : (0 < frames k)%nat).

(** A task with a frame is being drawn. *)
Lemma frame_active : cancelled k = false /\ outcome k = None /\ graphicsReady k = true /\ running k = true /\ frames k = 1%nat.
Proof.
  destruct Hok. assert (Hc : cancelled k = false) by (destruct (cancelled k); [intuition lia|done]).
  assert (Ho : outcome k = None).
  { destruct (outcome k) eqn:E; [|done]. unfold pending in *. exfalso. assert (frames k = 0%nat); [|lia].
    assert (Some o <> None) by done. intuition lia. }
  unfold pending in *. destruct (graphicsReady k) eqn:Eg; [|intuition lia].
  destruct (running k) eqn:Er; [|exfalso; intuition lia]. intuition lia.
Qed.

Definition k1 : Task := set_frames (frames k - 1) false k.

Lemma reached_idle_ok : lastChunk it = false -> task_ok it (set_running false (set_idx (operations it) k1)).
Proof. destruct frame_active as (?&?&?&?&?). unfold k1. intros. step_ok k Hok. Qed.

Lemma reached_done_ok :
  task_ok it (settle Resolved (set_drawing false (set_running false (set_idx (operations it) k1)))).
Proof. destruct frame_active as (?&?&?&?&?). unfold k1. step_ok k Hok. Qed.

Lemma paused_ok i : task_ok it (set_idx i (continued k1)).
Proof. destruct frame_active as (?&?&?&?&?). unfold k1. step_ok k Hok. Qed.

Lemma waits_ok i : task_ok it (set_waiting true (set_idx i k1)).
Proof. destruct frame_active as (?&?&?&?&?). unfold k1. step_ok k Hok. Qed.

Lemma raised_ok : task_ok it (set_failed true k1).
Proof. destruct frame_active as (?&?&?&?&?). unfold k1. step_ok k Hok. Qed.
End Frame.

(** The task as [cancel] leaves it. *)
Definition cancel_task (k : Task) : Task :=
  let k' := set_drawing false (set_cancelled (set_running false k)) in
  if rAF k then set_frames (frames k - 1) false k' else k'.

Lemma cancel_task_ok it k e : task_ok it k -> task_ok it (settle (Rejected e) (cancel_task k)).
Proof.
  intros Hok. unfold cancel_task. destruct (rAF k) eqn:Hr; step_ok k Hok.
Qed.

Lemma cancel_failed_ok it k e : task_ok it k -> failed k = true ->
  task_ok it (settle (Rejected e) (cancel_task (set_failed false k))).
Proof.
  intros Hok Hf. unfold cancel_task. cbn [rAF set_failed]. destruct (rAF k) eqn:Hr; step_ok k Hok.
Qed.

Section Start.
Context (it : Intent) (k : Task) (Hok : task_ok it k) (Hs : starting k = true).

Lemma start_cancelled_ok : cancelled k = true -> task_ok it (set_callback (set_starting false k)).
Proof. intros Hc. step_ok k Hok. Qed.

Lemma start_failed_ok e : cancelled k = false -> task_ok it (settle (Rejected e) (set_starting false k)).
Proof. intros Hc. step_ok k Hok. Qed.

Lemma start_settled_ok e : task_ok it (settle (Rejected e) (set_starting false k)).
Proof. step_ok k Hok. Qed.

Lemma start_ok : cancelled k = false ->
  task_ok it (continued (set_ready (set_idx 0 (set_drawing true (set_starting false k))))).
Proof. intros Hc. step_ok k Hok. Qed.
End Start.
