(* ===== verification/Rendering.v ===== *)
(** * Every operation keeps the invariant of rendering

    [render], [cancel] and the events of RenderTask keep [display_ok] of
    RenderTaskSpec; so drawing goes on in every state they lead to, whoever
    calls them. *)
From stdpp Require Import gmap.
From S2P Require Import Prelude RenderTask RenderTaskSpec.
Local Open Scope js_scope.

(** ** Every operation keeps the invariant *)

Lemma ok_put d t k k' : display_ok d -> tasks d !! t = Some k -> t_intent k' = t_intent k -> outcome k' = outcome k ->
  (forall it, task_ok it k -> task_ok it k') -> display_ok (put_task t k' d).
Proof. intros Hok Hk Hi Ho H. apply (ok_task d _ t k k'); try done. auto. Qed.

Lemma cancel_eq t e d k : tasks d !! t = Some k ->
  cancel t e d = complete t (Some (default RenderingCancelledException e))
    (set_canvases (fun s => s ∖ {[canvas k]}) (put_task t (cancel_task k) d)).
Proof.
  intros H. unfold cancel, cancel_task. rewrite (mbind_ok _ _ _ _ _ (the_task_eq t d k H)).
  rewrite (mbind_ok _ _ _ _ _ (on_task_eq t _ d k H)). destruct (rAF k); [|done].
  erewrite mbind_ok by (apply on_task_eq; by apply put_lookup; eexists). by rewrite put_put.
Qed.

(** [cancel] by a client, at any time. *)
Lemma ok_cancel d t k e : display_ok d -> tasks d !! t = Some k ->
  exists d', cancel t e d = (Ok tt, d') /\ display_ok d' /\ canvasInUse d' = canvasInUse d ∖ {[canvas k]} /\
    tasks d' = <[t := settle (Rejected (default RenderingCancelledException e)) (cancel_task k)]> (tasks d).
Proof.
  intros Hok Hk. rewrite (cancel_eq t e d k Hk).
  destruct (ok_complete d (set_canvases (fun s => s ∖ {[canvas k]}) (put_task t (cancel_task k) d)) t k (cancel_task k)
    (Some (default RenderingCancelledException e))) as (d' & H); try done.
  - unfold cancel_task. by destruct (rAF k).
  - intros it _ H. by apply cancel_task_ok.
  - by exists d'.
Qed.

Lemma ok_caught d t k e : display_ok d -> tasks d !! t = Some k -> failed k = true ->
  exists d', (on_task t (set_failed false) ;;; cancel t (Some (OtherError e))) d = (Ok tt, d') /\ display_ok d' /\
    canvasInUse d' = canvasInUse d ∖ {[canvas k]} /\
    tasks d' = <[t := settle (Rejected (OtherError e)) (cancel_task (set_failed false k))]> (tasks d).
Proof.
  intros Hok Hk Hf. rewrite (mbind_ok _ _ _ _ _ (on_task_eq t _ d k Hk)).
  rewrite (cancel_eq t _ _ (set_failed false k)) by (by apply put_lookup; eexists). rewrite put_put.
  destruct (ok_complete d (set_canvases (fun s => s ∖ {[canvas k]}) (put_task t (cancel_task (set_failed false k)) d)) t k (cancel_task (set_failed false k))
    (Some (OtherError e))) as (d' & H); try done.
  - unfold cancel_task. by destruct (rAF (set_failed false k)).
  - intros it _ H. by apply cancel_failed_ok.
  - by exists d'.
Qed.

(** A new task of the current intent, or of a new one. *)
Lemma ok_new_task d d' i it c : display_ok d -> intentState d' = Some i -> intents d' !! i = Some it ->
  streamReader it = true \/ lastChunk it = true ->
  (intents d' = intents d \/ i = length (intents d) /\ intents d' = intents d ++ [it] /\ renderTasks it = []) ->
  (renderTasks it <> [] -> intentState d = Some i) -> intentState d = None \/ intentState d = Some i -> tasks d' = tasks d ->
  let t := length (tasks d) in
  display_ok (set_intents (alter (fun intent => set_renderTasks (renderTasks intent ++ [t]) (set_cancelTimeout false intent)) i)
    (set_tasks (fun l => l ++ [new_Task c i]) d')).
Proof.
  intros [HT HI HS] Es Hit Hor EI Hcur Hst ET t.
  assert (Hold : forall j jt, intents d !! j = Some jt -> intents d' !! j = Some jt).
  { intros j jt Hj. destruct EI as [->|(_ & -> & _)]; [done|]. by apply lookup_app_l_Some. }
  assert (Hnew : forall j jt, intents d' !! j = Some jt -> intents d !! j = Some jt \/ j = i /\ renderTasks jt = []).
  { intros j jt. destruct EI as [->|(-> & -> & Hn)]; [by left|]. intros [?|[Hl Hj]]%lookup_app_Some; [by left|].
    apply list_lookup_singleton_Some in Hj as [Hj <-]. right. split; [lia|done]. }
  split; cbn [tasks intents intentState set_tasks set_intents]; rewrite ?ET.
  - intros t1 k [Hk|[Hl Hk]]%lookup_app_Some.
    + destruct (HT t1 k Hk) as (jt & Hjt & Hok & Hin). apply Hold in Hjt. destruct (decide (i = t_intent k)) as [E|E].
      * rewrite <- E in *. assert (jt = it) as -> by congruence. eexists. rewrite list_lookup_alter_eq, Hit. split_and!; [done| |].
        { by eapply task_ok_intent; [..|exact Hok]. }
        intros Ho. cbn. apply elem_of_app. left. auto.
      * exists jt. by rewrite list_lookup_alter_ne.
    + apply list_lookup_singleton_Some in Hk as [Hk <-]. eexists. cbn [t_intent new_Task].
      rewrite list_lookup_alter_eq, Hit. split_and!; [done| |].
      * split; unfold pending; cbn; intuition (congruence || lia).
      * intros _. cbn. apply elem_of_app. right. apply list_elem_of_singleton. unfold t. lia.
  - intros j jt'. destruct (decide (i = j)) as [<-|E].
    + rewrite list_lookup_alter_eq, Hit. intros [= <-]. cbn.
      assert (Hmem : NoDup (renderTasks it) /\ forall t1, t1 ∈ renderTasks it -> exists k, tasks d !! t1 = Some k /\
        t_intent k = i /\ outcome k = None).
      { destruct (Hnew _ _ Hit) as [H|[_ ->]]; [|split; [constructor|by intros ? ?%not_elem_of_nil]].
        destruct (HI i it H) as (Hnd & Hm & _). done. }
      destruct Hmem as [Hnd Hm]. split_and!; [| |done].
      * apply NoDup_app. split_and!; [done| |apply NoDup_singleton]. intros x Hx ->%list_elem_of_singleton.
        destruct (Hm _ Hx) as (k & Hk & _). apply lookup_lt_Some in Hk. unfold t in Hk. lia.
      * intros x [Hx|Hx%list_elem_of_singleton]%elem_of_app.
        { destruct (Hm _ Hx) as (k & Hk & ? & ?). exists k. split_and!; [|done..]. by apply lookup_app_l_Some. }
        subst x. exists (new_Task c i). split_and!; [|done..]. unfold t. rewrite lookup_app_r by lia. by rewrite Nat.sub_diag.
    + rewrite list_lookup_alter_ne by done. intros Hjt. destruct (Hnew _ _ Hjt) as [H|[? _]]; [|done].
      destruct (HI j jt' H) as (Hnd & Hm & Hne). split_and!; [done| |].
      * intros x Hx. destruct (Hm x Hx) as (k & Hk & ? & ?). exists k. split_and!; [|done..]. by apply lookup_app_l_Some.
      * intros Hn. destruct (Hne Hn) as [Hc Hs]. split; [done|]. destruct Hst as [Hst|Hst]; congruence.
  - intros j Hj. rewrite Es in Hj. injection Hj as <-. eexists. by rewrite list_lookup_alter_eq, Hit.
Qed.

Lemma ok_render d c : display_ok d ->
  exists d', render c d = (Ok (length (tasks d)), d') /\ display_ok d' /\ canvasInUse d' = canvasInUse d /\
    exists i, tasks d' = tasks d ++ [new_Task c i].
Proof.
  intros Hok. unfold render, on_intent. m_red. destruct (intentState d) as [i|] eqn:Es; cbn [intentState set_pendingCleanup];
    rewrite ?Es; eexists; (split; [reflexivity|]).
  - destruct (ok_state d Hok i Es) as (it & Hit & Hor).
    pose proof (ok_new_task d (set_pendingCleanup false d) i it c Hok Es Hit Hor ltac:(by left) ltac:(done) ltac:(by right) eq_refl) as H.
    split_and!; [|done|by exists i]. cbn in H. unfold set_intents, set_tasks in *. cbn in *.
    by rewrite list_alter_alter_eq.
  - pose proof (ok_new_task d (set_intentState (Some (length (intents d))) (set_intents (fun l => l ++ [new_Intent])
      (set_pendingCleanup false d))) (length (intents d)) new_Intent c Hok eq_refl) as H.
    cbn in H. split_and!; [|done|by eexists]. unfold set_intents, set_tasks in *. cbn in *.
    rewrite list_alter_alter_eq. apply H; try done; [|by left|right|by left].
    + rewrite lookup_app_r by lia. by rewrite Nat.sub_diag.
    + done.
Qed.

(** The tasks after a change of their operations. *)
Lemma ok_each d i it it' : display_ok d -> intents d !! i = Some it -> renderTasks it' = renderTasks it ->
  cancelTimeout it' = cancelTimeout it -> (streamReader it' = true \/ lastChunk it' = true) ->
  exists d', each operatorListChanged (renderTasks it) (set_intents (fun _ => <[i := it']> (intents d)) d) = (Ok tt, d') /\
    display_ok d' /\ canvasInUse d' = canvasInUse d /\ intents d' = <[i := it']> (intents d) /\
    length (tasks d') = length (tasks d) /\
    forall t k', tasks d' !! t = Some k' -> exists k, tasks d !! t = Some k /\ (k' = k \/ outcome k = None /\ k' = changed k).
Proof.
  intros Hok Hit Er Ec Hs. destruct (ok_intents d Hok i it Hit) as (Hnd & Hmem & Hne).
  set (d1 := set_intents _ d). destruct (each_eq (renderTasks it) d1 Hnd) as (l' & E & Hl & Hlk).
  { intros t Hin. destruct (Hmem t Hin) as (k & Hk & _). by exists k. }
  change (tasks d1) with (tasks d) in *. exists (set_tasks (fun _ => l') d1).
  assert (Htask : forall t k', l' !! t = Some k' -> exists k, tasks d !! t = Some k /\
    (t ∈ renderTasks it /\ k' = changed k \/ (t ∉ renderTasks it) /\ k' = k)).
  { intros t k'. rewrite Hlk. destruct (decide _) as [Hin|Hin]; [|eauto 10].
    intros (k & -> & Hk)%fmap_Some. eauto 10. }
  split_and!; [done| |done|done|done|].
  - apply (ok_intent d _ i it it'); try done; [tauto|].
    intros t k' Hk'. destruct (Htask t k' Hk') as (k & Hk & [(Hin & ->)|(Hin & ->)]); exists k.
    + destruct (changed_kept k) as [Ei Eo]. destruct (Hmem t Hin) as (k2 & Hk2 & Ei2 & Eo2). simplify_eq.
      split_and!; try done. intros _ Hok2. by apply (changed_ok it).
    + split_and!; try done. intros Hi Hok2. apply (task_ok_settled it); [done|]. intros Ho.
      destruct (ok_tasks d Hok t k Hk) as (it2 & Hit2 & _ & Hin2). rewrite Hi, Hit in Hit2. injection Hit2 as <-. auto.
  - intros t k' Hk'. destruct (Htask t k' Hk') as (k & Hk & [(Hin & ->)|(Hin & ->)]); exists k; (split; [done|]).
    + right. destruct (Hmem t Hin) as (k2 & Hk2 & _ & Eo2). by simplify_eq.
    + by left.
Qed.

(** ** Steps *)

(** A step keeps the canvas of a task, and the outcome it has. *)
Definition evolves (k k' : Task) : Prop := canvas k' = canvas k /\ (outcome k <> None -> outcome k' = outcome k).

Lemma evolves_refl k : evolves k k.
Proof. done. Qed.

Lemma evolves_trans k k1 k2 : evolves k k1 -> evolves k1 k2 -> evolves k k2.
Proof. intros [E1 H1] [E2 H2]. split; [congruence|]. intros H. rewrite <- (H1 H). apply H2. by rewrite H1. Qed.

Lemma evolves_settle o k k' : evolves k k' -> evolves k (settle o k').
Proof. intros H. eapply evolves_trans; [exact H|]. unfold settle. destruct (outcome k') eqn:E; split; try done; cbn; congruence. Qed.

Lemma evolves_all l : Forall2 evolves l l.
Proof. induction l; constructor; done. Qed.

Lemma evolves_insert l t k k' : l !! t = Some k -> evolves k k' -> Forall2 evolves l (<[t := k']> l).
Proof.
  intros Hk Hev. apply Forall2_same_length_lookup. split; [by rewrite length_insert|].
  intros i x y Hx [(<- & <- & _)|[_ Hy]]%list_lookup_insert_Some; simplify_eq; done.
Qed.

(** The invariant after a step, and the tasks. *)
Definition kept_ok (d d' : Display) : Prop := display_ok d' /\ Forall2 evolves (tasks d) (tasks d').

Lemma kept_put d t k k' : display_ok d -> tasks d !! t = Some k -> t_intent k' = t_intent k -> outcome k' = outcome k ->
  canvas k' = canvas k -> (forall it, intents d !! t_intent k = Some it -> task_ok it k -> task_ok it k') ->
  kept_ok d (put_task t k' d).
Proof.
  intros Hok Hk Hi Ho Hc H. split; [by apply (ok_task d _ t k k')|].
  apply (evolves_insert _ _ k); [done|]. by split; [|intros _].
Qed.

Lemma kept_complete d d1 t k k1 error d' : display_ok d -> tasks d !! t = Some k ->
  intents d1 = intents d -> intentState d1 = intentState d -> tasks d1 = <[t := k1]> (tasks d) ->
  t_intent k1 = t_intent k -> evolves k k1 ->
  (forall it, intents d !! t_intent k = Some it -> task_ok it k ->
    task_ok it (settle (match error with Some e => Rejected e | None => Resolved end) k1)) ->
  complete t error d1 = (Ok tt, d') -> kept_ok d d'.
Proof.
  intros Hok Hk EI ES ET Ei Hev H E. destruct (ok_complete d d1 t k k1 error Hok Hk EI ES ET Ei H) as (d2 & E2 & Hok2 & _ & ET2).
  rewrite E2 in E. injection E as <-. split; [done|]. rewrite ET2. apply (evolves_insert _ _ k); [done|].
  by apply evolves_settle.
Qed.

(** The operation after a lookup that succeeds. *)
Lemma found_task t d {A} (m : Task -> D A) a d' : (task <- the_task t ;; m task) d = (Ok a, d') ->
  exists k, tasks d !! t = Some k /\ m k d = (Ok a, d').
Proof. unfold the_task. m_red. destruct (tasks d !! t); [eauto|done]. Qed.

Lemma found_intent i d {A} (m : Intent -> D A) a d' : (intent <- the_intent i ;; m intent) d = (Ok a, d') ->
  exists it, intents d !! i = Some it /\ m it d = (Ok a, d').
Proof. unfold the_intent. m_red. destruct (intents d !! i); [eauto|done]. Qed.

Lemma when_true {A} b (m : D A) a d d' : when b m d = (Ok a, d') -> b = true /\ m d = (Ok a, d').
Proof. by destruct b. Qed.

Lemma on_intent_eq i f d it : intents d !! i = Some it ->
  on_intent i f d = (Ok tt, set_intents (fun _ => <[i := f it]> (intents d)) d).
Proof. intros H. unfold on_intent. m_red. unfold set_intents. by rewrite (alter_insert _ _ _ _ H). Qed.

(** A change of an intent that its tasks do not see. *)
Lemma kept_intent d i it it' : display_ok d -> intents d !! i = Some it -> renderTasks it' = renderTasks it ->
  operations it' = operations it -> lastChunk it' = lastChunk it -> cancelTimeout it' = cancelTimeout it ->
  (streamReader it' = true \/ lastChunk it' = true \/ intentState d <> Some i) ->
  kept_ok d (set_intents (fun _ => <[i := it']> (intents d)) d).
Proof.
  intros Hok Hit Er Eo El Ec Hs. split; [|apply evolves_all]. apply (ok_intent d _ i it it'); try done.
  intros t k Hk. exists k. split_and!; try done. intros _ H. by eapply task_ok_intent; [..|exact H].
Qed.

Lemma on_put t f k k0 d : tasks d !! t = Some k0 -> on_task t f (put_task t k d) = (Ok tt, put_task t (f k) d).
Proof. intros H. rewrite (on_task_eq t f _ k) by (apply put_lookup; by eexists). by rewrite put_put. Qed.

Lemma kept_next t k d r d' : display_ok d -> tasks d !! t = Some k -> (0 < frames k)%nat ->
  next t r (put_task t (k1 k) d) = (Ok tt, d') -> kept_ok d d'.
Proof.
  intros Hok Hk Hf E. destruct (ok_tasks d Hok t k Hk) as (it & Hit & Htask & _).
  destruct (frame_active it k Htask Hf) as (Hc & Ho & Hg & Hr & Hf1).
  assert (Hk1 : tasks (put_task t (k1 k) d) !! t = Some (k1 k)) by (apply put_lookup; by eexists).
  assert (Hin : forall it', intents d !! t_intent k = Some it' -> it' = it) by congruence.
  unfold next in E. rewrite (mbind_ok _ _ _ _ _ (the_task_eq _ _ _ Hk1)) in E. cbn [cancelled k1 set_frames] in E. rewrite Hc in E.
  apply found_intent in E as (it' & Hit' & E). cbn in Hit'. apply Hin in Hit' as ->.
  destruct r as [|i|i|e].
  - rewrite (mbind_ok _ _ _ _ _ (on_put t _ _ _ d Hk)) in E.
    destruct (lastChunk it) eqn:El.
    + rewrite (mbind_ok _ _ _ _ _ (on_put t _ _ _ d Hk)) in E.
      set (k2 := set_drawing false (set_running false (set_idx (operations it) (k1 k)))) in *.
      apply (kept_complete d (set_canvases (fun s => s ∖ {[canvas k]}) (put_task t k2 d)) t k k2 None); try done.
      intros it' H _. rewrite (Hin it' H). by apply reached_done_ok.
    + injection E as <-. eapply kept_put; try done. intros it' H _. rewrite (Hin it' H). by apply reached_idle_ok.
  - destruct (_ && _); [|done]. rewrite (mbind_ok _ _ _ _ _ (continue_eq t _ _ Hk1)), put_put in E.
    rewrite (on_put t _ _ _ d Hk) in E. injection E as <-.
    eapply kept_put; try done; [by unfold continued; cbn; rewrite Hc..|].
    intros it' H _. rewrite (Hin it' H). by apply paused_ok.
  - destruct (_ && _); [|done]. rewrite (on_put t _ _ _ d Hk) in E. injection E as <-.
    eapply kept_put; try done. intros it' H _. rewrite (Hin it' H). by apply waits_ok.
  - rewrite (on_put t _ _ _ d Hk) in E. injection E as <-.
    eapply kept_put; try done. intros it' H _. rewrite (Hin it' H). by apply raised_ok.
Qed.

(** Operations, or none any more, for the tasks of an intent; then perhaps a
    cleanup. *)
Lemma kept_each d i it it' cleanup d' : display_ok d -> intents d !! i = Some it -> renderTasks it' = renderTasks it ->
  cancelTimeout it' = cancelTimeout it -> (streamReader it' = true \/ lastChunk it' = true) ->
  (each operatorListChanged (renderTasks it) ;;; (if cleanup : bool then tryCleanup else mret tt))
    (set_intents (fun _ => <[i := it']> (intents d)) d) = (Ok tt, d') ->
  kept_ok d d' /\ intents d' = <[i := it']> (intents d).
Proof.
  intros Hok Hit Er Ec Hs E. destruct (ok_each d i it it' Hok Hit Er Ec Hs) as (d1 & E1 & Hok1 & _ & EI & Hl & Ht).
  rewrite (mbind_ok _ _ _ _ _ E1) in E.
  assert (Hev : Forall2 evolves (tasks d) (tasks d1)).
  { apply Forall2_same_length_lookup. split; [done|]. intros t k k' Hk Hk'.
    destruct (Ht t k' Hk') as (k2 & Hk2 & [->|[Ho ->]]); simplify_eq; [done|].
    destruct (changed_kept k) as [_ Eo]. split; [|done]. unfold changed, continued. by destruct (negb _), (running k), (cancelled k). }
  destruct cleanup.
  - destruct (ok_cleanup d1 Hok1) as (d2 & E2 & Hok2 & ET & EI2 & _). rewrite E2 in E. injection E as <-.
    unfold kept_ok. by rewrite ET, EI2.
  - by injection E as <-.
Qed.

(** The end of the list when reading it failed. *)
Lemma kept_error d i it it' d' : display_ok d -> intents d !! i = Some it -> renderTasks it' = renderTasks it ->
  cancelTimeout it' = cancelTimeout it -> streamReader it' = true \/ lastChunk it' = true ->
  (each operatorListChanged (renderTasks it) ;;; tryCleanup ;;;
   on_intent i (fun intent =>
     match displayReady intent with None => set_displayReady (Some false) intent | Some _ => intent end))
    (set_intents (fun _ => <[i := it']> (intents d)) d) = (Ok tt, d') -> kept_ok d d'.
Proof.
  intros Hok Hit Er Ec Hs E. set (d0 := set_intents _ d) in E. unfold mbind at 1 in E.
  destruct (each operatorListChanged (renderTasks it) d0) as [[[]|e0|] d1] eqn:E1; [|done..].
  unfold mbind at 1 in E. destruct (tryCleanup d1) as [[[]|e0|] d2] eqn:E2; [|done..].
  destruct (kept_each d i it it' true d2 Hok Hit Er Ec Hs) as ([Hok2 Hev] & EI); [by rewrite (mbind_ok _ _ _ _ _ E1)|].
  assert (Hit2 : intents d2 !! i = Some it').
  { rewrite EI. apply list_lookup_insert_eq. by eapply lookup_lt_Some. }
  rewrite (on_intent_eq _ _ _ _ Hit2) in E. injection E as <-.
  assert (Hsame : forall f, (forall x, f x = x \/ f x = set_displayReady (Some false) x) ->
    kept_ok d2 (set_intents (fun _ => <[i := f it']> (intents d2)) d2)).
  { intros f Hf. apply (kept_intent d2 i it'); try done; destruct (Hf it') as [->| ->]; try done; cbn; tauto. }
  destruct (Hsame (fun intent => match displayReady intent with None => set_displayReady (Some false) intent | Some _ => intent end))
    as [Hok3 _]; [|by split].
  intros x. destruct (displayReady x); [by left|by right].
Qed.

(** What [initializeGraphics] and [operatorListChanged] do to a task that
    starts. *)
Lemma start_eq t k begins d : tasks d !! t = Some k -> running k = false ->
  (initializeGraphics t begins ;;; operatorListChanged t) d =
    if cancelled k then (Ok tt, put_task t (changed k) d)
    else if bool_decide (canvas k ∈ canvasInUse d) then (Throw same_canvas, d)
    else
      let d' := set_canvases (fun s => {[canvas k]} ∪ s) d in
      if begins then (Ok tt, put_task t (continued (set_ready (set_idx 0 (set_drawing true k)))) d')
      else (Throw (JsError "beginDrawing"), d').
Proof.
  intros Hk Hr. unfold initializeGraphics. unfold mbind at 1. rewrite (mbind_ok _ _ _ _ _ (the_task_eq t d k Hk)).
  destruct (cancelled k) eqn:Hc; [by apply changed_eq|]. unfold mbind at 1, get. case_bool_decide; [done|].
  unfold mbind at 1, modify. set (d1 := set_canvases _ d). destruct begins; [|done].
  set (kr := set_ready (set_idx 0 (set_drawing true k))).
  rewrite (mbind_ok _ _ _ _ _ (on_task_eq t _ d1 k Hk)). fold kr.
  assert (Hkr : tasks (put_task t kr d1) !! t = Some kr) by (apply put_lookup; by exists k).
  destruct (graphicsReadyCallback k).
  - rewrite (continue_eq t _ kr Hkr), put_put.
    rewrite (changed_eq t _ (continued kr)) by (apply put_lookup; by exists k). rewrite put_put.
    unfold changed, continued. cbn. rewrite Hc. done.
  - cbn. rewrite (changed_eq t _ kr Hkr), put_put. unfold changed. cbn. by rewrite Hr.
Qed.

Lemma kept_start t k begins d d' : display_ok d -> tasks d !! t = Some k -> starting k = true ->
  try_catch (initializeGraphics t begins ;;; operatorListChanged t) (fun e => complete t (Some (OtherError e)))
    (put_task t (set_starting false k) d) = (Ok tt, d') -> kept_ok d d'.
Proof.
  intros Hok Hk Hs E. set (k0 := set_starting false k) in *.
  destruct (ok_tasks d Hok t k Hk) as (it & _ & Htask & _).
  assert (Hg : graphicsReady k = false) by (by apply (ok_starting _ _ Htask)).
  assert (Hr : running k = false) by (by apply (ok_unready _ _ Htask)).
  assert (Hcomplete : forall d1 e, intents d1 = intents d -> intentState d1 = intentState d ->
    tasks d1 = <[t := k0]> (tasks d) -> complete t (Some e) d1 = (Ok tt, d') -> kept_ok d d').
  { intros d1 e EI ES ET E'. apply (kept_complete d d1 t k k0 (Some e) d'); try done.
    intros it' _ H. by apply start_settled_ok. }
  unfold try_catch in E. rewrite (start_eq t k0) in E by (done || apply put_lookup; by exists k).
  change (cancelled k0) with (cancelled k) in E. change (canvas k0) with (canvas k) in E.
  destruct (cancelled k) eqn:Hc.
  - rewrite put_put in E. injection E as <-. unfold changed. change (graphicsReady k0) with (graphicsReady k).
    rewrite Hg. cbn [negb]. apply (kept_put d t k); try done. intros it' _ H. by apply start_cancelled_ok.
  - destruct (bool_decide _); [by refine (Hcomplete _ _ _ _ _ E)|].
    destruct begins; [|by refine (Hcomplete _ _ _ _ _ E)].
    injection E as <-. set (kr := continued _).
    replace (put_task t kr _) with (set_canvases (fun s => {[canvas k]} ∪ s) (put_task t kr d)) by
      (unfold put_task, set_tasks, set_canvases; cbn; by rewrite list_insert_insert_eq).
    assert (Hp : kept_ok d (put_task t kr d)).
    { apply (kept_put d t k); try done; [by unfold kr, continued; cbn; rewrite Hc..|]. intros it' _ H. by apply start_ok. }
    destruct Hp as [[H1 H2 H3] Hev]. split; [by split|done].
Qed.

(** ** The theorem on steps *)

Lemma kept_step e d d' : display_ok d -> step e d = (Ok tt, d') -> kept_ok d d'.
Proof.
  intros Hok E. destruct e as [|i n last|i|i e|i|t begins|t e|t r|t|t e]; cbn [step] in E; unfold ready, refused in E.
  - unfold mbind, get in E. destruct (intentState d) as [i|] eqn:Es; [|injection E as <-; split; [done|apply evolves_all]].
    destruct (ok_state d Hok i Es) as (it & Hit & Hor). rewrite (on_intent_eq _ _ _ _ Hit) in E. injection E as <-.
    apply (kept_intent d i it); try done; destruct (displayReady it); try done; cbn; tauto.
  - apply found_intent in E as (it & Hit & E). apply when_true in E as [Hr E].
    rewrite (mbind_ok _ _ _ _ _ (on_intent_eq _ _ _ _ Hit)) in E.
    eapply (kept_each d i it _ last); [done|done| | | |exact E]; cbn; auto.
  - apply found_intent in E as (it & Hit & E). apply when_true in E as [[Hr Hl]%andb_true_iff E].
    rewrite (on_intent_eq _ _ _ _ Hit) in E. injection E as <-. apply (kept_intent d i it); try done. cbn. tauto.
  - apply found_intent in E as (it & Hit & E). apply when_true in E as [Hr E].
    rewrite (mbind_ok _ _ _ _ _ (on_intent_eq _ _ _ _ Hit)) in E. set (it' := set_operations _ true _) in E.
    apply (kept_error d i it it' d'); try done. by right.
  - apply found_intent in E as (it & Hit & E). apply when_true in E as [Hc E].
    rewrite (mbind_ok _ _ _ _ _ (on_intent_eq _ _ _ _ Hit)) in E.
    assert (Hn : renderTasks it = []).
    { destruct (ok_intents d Hok i it Hit) as (_ & _ & Hne). destruct (renderTasks it); [done|]. destruct Hne; [done|congruence]. }
    set (it1 := set_cancelTimeout false it) in *. set (d1 := set_intents _ d) in E.
    assert (H1 : intents d1 !! i = Some it1) by (apply list_lookup_insert_eq; by eapply lookup_lt_Some).
    destruct (abort_spec i RenderingCancelledException true d1 it1 H1 ltac:(done)) as (d2 & it2 & E2 & ET & Er & K).
    rewrite E2 in E. injection E as <-. split; [|rewrite ET; apply evolves_all].
    apply (ok_kept d d2 i it it2); try done. eapply kept_trans; [|exact K|done].
    split; try done. by left.
  - apply found_task in E as (k & Hk & E). apply found_intent in E as (it & Hit & E).
    destruct (displayReady it) as [[]|]; [..|done]; apply when_true in E as [Hs E];
      rewrite (mbind_ok _ _ _ _ _ (on_task_eq _ _ _ _ Hk)) in E; [by apply (kept_start t k begins d d')|].
    eapply (kept_complete d (put_task t (set_starting false k) d) t k (set_starting false k) (Some _)); try done.
    intros it' _ H. by apply start_settled_ok.
  - apply found_task in E as (k & Hk & E). apply when_true in E as [Hs E].
    rewrite (mbind_ok _ _ _ _ _ (on_task_eq _ _ _ _ Hk)) in E.
    eapply (kept_complete d (put_task t (set_starting false k) d) t k (set_starting false k) (Some _)); try done.
    intros it' _ H. by apply start_settled_ok.
  - apply found_task in E as (k & Hk & E). apply when_true in E as [Hf%Nat.ltb_lt E].
    rewrite (mbind_ok _ _ _ _ _ (on_task_eq _ _ _ _ Hk)) in E. by apply (kept_next t k d r d').
  - apply found_task in E as (k & Hk & E). apply when_true in E as [Hw E].
    rewrite (mbind_ok _ _ _ _ _ (on_task_eq _ _ _ _ Hk)) in E.
    rewrite (continue_eq t _ (set_waiting false k)), put_put in E by (apply put_lookup; by exists k). injection E as <-.
    apply (kept_put d t k); try done; [by unfold continued; cbn; destruct (cancelled k)..|].
    intros it _ H. by apply dependency_ok.
  - apply found_task in E as (k & Hk & E). apply when_true in E as [Hf E].
    destruct (ok_caught d t k e Hok Hk Hf) as (d2 & E2 & Hok2 & _ & ET). rewrite E2 in E. injection E as <-.
    split; [done|]. rewrite ET. apply (evolves_insert _ _ k); [done|]. apply evolves_settle.
    unfold cancel_task. by destruct (rAF _).
Qed.

(** ** What holds in every state *)

(** The states that the client's calls and the events lead to. *)
Inductive reached : Display -> Prop :=
| reached_new : reached new_Display
| reached_render d c t d' : reached d -> render c d = (Ok t, d') -> reached d'
| reached_cancel d t d' : reached d -> cancel t None d = (Ok tt, d') -> reached d'
| reached_step d e d' : reached d -> step e d = (Ok tt, d') -> reached d'.

Lemma reached_ok d : reached d -> display_ok d.
Proof.
  induction 1 as [|d c t d' _ IH E|d t d' _ IH E|d e d' _ IH E].
  - apply display_ok_new.
  - destruct (ok_render d c IH) as (d2 & E2 & H & _). rewrite E2 in E. by injection E as <- <-.
  - destruct (tasks d !! t) as [k|] eqn:Hk.
    + destruct (ok_cancel d t k None IH Hk) as (d2 & E2 & H & _). rewrite E2 in E. by injection E as <-.
    + unfold cancel, the_task in E. unfold mbind at 1 in E. by rewrite Hk in E.
  - by apply (kept_step e d d').
Qed.

(** The events that call a task. *)
Definition calls (d : Display) (t : nat) (k : Task) (e : Event) : Prop :=
  match e with
  | DisplayReady => intentState d = Some (t_intent k) /\ starting k = true
  | Chunk i _ _ => i = t_intent k /\ graphicsReady k = true
  | Ready t' _ | Refused t' _ | Frame t' _ | Dependency t' | Caught t' _ => t' = t
  | _ => False
  end.

(** The step of the event can be taken. *)
Definition can (e : Event) (d : Display) : Prop := exists d', step e d = (Ok tt, d').

Lemma can_frame d t k : display_ok d -> tasks d !! t = Some k -> (0 < frames k)%nat -> can (Frame t Reached) d.
Proof.
  intros Hok Hk Hf. destruct (ok_tasks d Hok t k Hk) as (it & Hit & Htask & _).
  destruct (frame_active it k Htask Hf) as (Hc & _).
  unfold can, step. rewrite (mbind_ok _ _ _ _ _ (the_task_eq t d k Hk)). unfold when. rewrite (proj2 (Nat.ltb_lt _ _) Hf).
  rewrite (mbind_ok _ _ _ _ _ (on_task_eq t _ d k Hk)). unfold next.
  rewrite (mbind_ok _ _ _ _ _ (the_task_eq t _ (k1 k) ltac:(apply put_lookup; by exists k))).
  change (cancelled (k1 k)) with (cancelled k). rewrite Hc. unfold the_intent. unfold mbind at 1. cbn [intents put_task set_tasks].
  change (t_intent (k1 k)) with (t_intent k). rewrite Hit.
  rewrite (mbind_ok _ _ _ _ _ (on_put t _ _ _ d Hk)). destruct (lastChunk it) eqn:El; [|by eexists].
  rewrite (mbind_ok _ _ _ _ _ (on_put t _ _ _ d Hk)). set (k2 := set_drawing false _).
  destruct (ok_complete d (set_canvases (fun s => s ∖ {[canvas k]}) (put_task t k2 d)) t k k2 None Hok Hk)
    as (d' & E & _); try done; [|by exists d'].
  intros it' Hit' _. assert (it' = it) as -> by congruence. by apply reached_done_ok.
Qed.

Lemma can_start d t k it : display_ok d -> tasks d !! t = Some k -> intents d !! t_intent k = Some it ->
  starting k = true -> displayReady it <> None -> can (Ready t true) d.
Proof.
  intros Hok Hk Hit Hs Hd. destruct (ok_tasks d Hok t k Hk) as (it0 & Hit0 & Htask & _).
  assert (Hg : graphicsReady k = false) by (by apply (ok_starting _ _ Htask)).
  assert (Hr : running k = false) by (by apply (ok_unready _ _ Htask)).
  assert (Hcomplete : forall d1 e, intents d1 = intents d -> intentState d1 = intentState d ->
    tasks d1 = <[t := set_starting false k]> (tasks d) -> exists d', complete t (Some e) d1 = (Ok tt, d')).
  { intros d1 e EI ES ET. destruct (ok_complete d d1 t k (set_starting false k) (Some e) Hok Hk EI ES ET) as (d' & E & _);
      [done| |by exists d']. intros it' _ H. by apply start_settled_ok. }
  unfold can, step, ready. rewrite (mbind_ok _ _ _ _ _ (the_task_eq t d k Hk)). unfold the_intent. unfold mbind at 1. rewrite Hit.
  unfold when. rewrite Hs. destruct (displayReady it) as [[]|]; [..|done];
    rewrite (mbind_ok _ _ _ _ _ (on_task_eq t _ d k Hk)); [|by apply Hcomplete].
  unfold try_catch. rewrite (start_eq t (set_starting false k)) by (done || apply put_lookup; by exists k).
  cbn [cancelled set_starting]. destruct (cancelled k); [by eexists|].
  destruct (bool_decide _); [by apply Hcomplete|by eexists].
Qed.

Lemma can_chunk d i it : display_ok d -> intents d !! i = Some it -> streamReader it = true -> can (Chunk i 0 true) d.
Proof.
  intros Hok Hit Hr. unfold can, step. unfold the_intent. unfold mbind at 1. rewrite Hit. unfold when. rewrite Hr.
  rewrite (mbind_ok _ _ _ _ _ (on_intent_eq _ _ _ _ Hit)).
  destruct (ok_each d i it (set_operations (operations it + 0) true it) Hok Hit) as (d1 & E1 & Hok1 & _); try done; [by right|].
  rewrite (mbind_ok _ _ _ _ _ E1). destruct (ok_cleanup d1 Hok1) as (d2 & E2 & _). by exists d2.
Qed.

(** C10. Drawing goes on.  In every state that the calls of a client and the
    events lead to, a task that has not ended waits for at most one frame,
    object or exception at a time, and some event that calls it can come: the
    page, a frame, an object, an exception, or more operations when it has
    executed all there are. *)
Theorem rendering_goes_on d t k (Hd : reached d) (Hk : tasks d !! t = Some k) (Ho : outcome k = None) :
  (pending k <= 1)%nat /\ exists e, calls d t k e /\ can e d.
Proof.
  apply reached_ok in Hd. destruct (ok_tasks d Hd t k Hk) as (it & Hit & Htask & Hin).
  destruct (ok_intents d Hd _ it Hit) as (_ & _ & Hne).
  assert (Hcur : intentState d = Some (t_intent k)).
  { apply Hne. intros E. specialize (Hin Ho). rewrite E in Hin. by apply not_elem_of_nil in Hin. }
  split; [apply Htask|]. destruct (graphicsReady k) eqn:Hg.
  - destruct (running k) eqn:Hr.
    + pose proof (ok_running _ _ Htask Hg Ho Hr) as Hp. unfold pending in Hp.
      destruct (waiting k) eqn:Hw; [|destruct (failed k) eqn:Hf].
      * exists (Dependency t). split; [done|]. unfold can, step. rewrite (mbind_ok _ _ _ _ _ (the_task_eq t d k Hk)), Hw.
        unfold when. rewrite (mbind_ok _ _ _ _ _ (on_task_eq t _ d k Hk)).
        eexists. apply (continue_eq t _ (set_waiting false k)). apply put_lookup. by exists k.
      * exists (Caught t same_canvas). split; [done|]. unfold can, step.
        rewrite (mbind_ok _ _ _ _ _ (the_task_eq t d k Hk)), Hf. unfold when.
        destruct (ok_caught d t k same_canvas Hd Hk Hf) as (d' & E & _). by exists d'.
      * exists (Frame t Reached). split; [done|]. apply (can_frame d t k); try done. lia.
    + destruct (ok_idle _ _ Htask Hg Ho Hr) as (_ & _ & Hl).
      destruct (ok_state d Hd _ Hcur) as (it' & Hit' & Hor). assert (it' = it) as -> by congruence.
      exists (Chunk (t_intent k) 0 true). split; [done|]. apply (can_chunk d _ it); try done. by destruct Hor; [|congruence].
  - destruct (ok_begun _ _ Htask Ho) as [?|Hs]; [congruence|]. destruct (displayReady it) eqn:Hdr.
    + exists (Ready t true). split; [done|]. apply (can_start d t k it); try done. congruence.
    + exists DisplayReady. split; [done|]. unfold can, step. unfold mbind, get. rewrite Hcur.
      eexists. by apply (on_intent_eq _ _ _ it).
Qed.

(** A run of calls and events. *)
Inductive Call := Render (c : Z) | Cancel (t : nat) | Event_ (e : Event).
Fixpoint run (l : list Call) (d : Display) : option Display :=
  match l with
  | [] => Some d
  | c :: l =>
      match c with
      | Render c => match render c d with (Ok _, d) => run l d | _ => None end
      | Cancel t => match cancel t None d with (Ok _, d) => run l d | _ => None end
      | Event_ e => match step e d with (Ok _, d) => run l d | _ => None end
      end
  end.

Lemma run_reached l : forall d d', reached d -> run l d = Some d' -> reached d'.
Proof.
  induction l as [|[c|t|e] l IH]; intros d d' Hd; cbn [run]; [by intros [= <-]|..].
  - destruct (render c d) as [[t|?|] d1] eqn:E; [|done..]. apply IH. by eapply reached_render.
  - destruct (cancel t None d) as [[[]|?|] d1] eqn:E; [|done..]. apply IH. by eapply reached_cancel.
  - destruct (step e d) as [[[]|?|] d1] eqn:E; [|done..]. apply IH. by eapply reached_step.
Qed.

(** A page drawn in two chunks: the second frame pauses at the third of five
    operations. *)
Definition two_frames : list Call :=
  [Render 0; Event_ DisplayReady; Event_ (Chunk 0 2 false); Event_ (Ready 0 true); Event_ (Frame 0 Reached);
   Event_ (Chunk 0 3 true); Event_ (Frame 0 (Paused 3))].

Lemma rendering_goes_on_witness : exists d k, run two_frames new_Display = Some d /\ tasks d !! 0%nat = Some k /\
  outcome k = None /\ (pending k <= 1)%nat /\ exists e, calls d 0 k e /\ can e d.
Proof.
  destruct (run two_frames new_Display) as [d|] eqn:E; [|vm_compute in E; discriminate].
  destruct (tasks d !! 0%nat) as [k|] eqn:Hk; [|vm_compute in E; injection E as <-; vm_compute in Hk; discriminate].
  assert (Ho : outcome k = None).
  { vm_compute in E. injection E as <-. vm_compute in Hk. injection Hk as <-. reflexivity. }
  exists d, k. split; [reflexivity|]. split; [exact Hk|]. split; [exact Ho|].
  apply (rendering_goes_on d 0 k); [|exact Hk|exact Ho].
  exact (run_reached _ _ _ reached_new E).
Defined.

(** The guard against two drawings on one canvas has a hole: cancelling a
    task that has not begun gives the canvas free, although another task is
    drawing on it, and the next task begins to draw on it too. *)
Theorem cancelled_task_frees_canvas : exists d k0 k2, reached d /\
  tasks d !! 0%nat = Some k0 /\ tasks d !! 2%nat = Some k2 /\ canvas k0 = canvas k2 /\
  drawing k0 = true /\ drawing k2 = true /\ frames k0 = 1%nat /\ frames k2 = 1%nat.
Proof.
  destruct (run [Render 7; Event_ DisplayReady; Event_ (Ready 0 true); Render 7; Cancel 1; Render 7; Event_ (Ready 2 true)]
    new_Display) as [d|] eqn:E; [|vm_compute in E; discriminate].
  pose proof (run_reached _ _ _ reached_new E) as Hd. vm_compute in E. injection E as E.
  eexists d, _, _. rewrite <- E in *. split; [exact Hd|]. split_and!; vm_compute; reflexivity.
Qed.
