(* ===== verification/HighlightPage.v ===== *)
(** * The highlight page

    The page of web/highlight.mjs with its events: [start] loads the document,
    the page and the boxes, [renderPage] draws the page and the rectangles, and
    a change of the width of the stage draws them again.  An event is one
    callback or the end of one [await]; what the browser and the worker answer
    is part of the event.  The continuation of [await renderTask.promise] runs
    when the promise is settled, with what awaits [renderPage] after it. *)
From stdpp Require Import gmap.
From S2P Require Import Prelude Primitives Number64 Viewport Highlight RenderTask.
Local Open Scope js_scope.

(** The texts of the status line, and what they are made of. *)
Inductive Message :=
| MissingSource                            (** Missing source in the viewer URL. *)
| LoadingDocument                          (** Loading the document *)
| DocumentNotLoaded                        (** The document could not be loaded. *)
| NoSuchPage                               (** Page n is not in this document. *)
| LookupFailed                             (** Page n rendered; the highlight lookup failed. *)
| Highlights (count : nat)                 (** Page n: k highlights for the cited excerpt. *)
| NoMatch                                  (** Page n: the cited excerpt did not match here. *)
| PlainPage                                (** Page n. *)
| NotRendered.                             (** The page could not be rendered. *)

Inductive Tone := Info | Warn | Error | OkTone.

(** Where [start] is: what it awaits, or how it ended. *)
Inductive Phase := AwaitDocument | AwaitPage | AwaitBoxes | AwaitRender | Finished | Stopped.

(** Who awaits [renderPage]. *)
Inductive Caller := ByStart | ByTimer.

Record Page := mkPage {
  display : Display;
  clientWidth : Z;                         (** of the stage *)
  devicePixelRatio : float;
  phase : Phase;
  status : option (Message * Tone);
  meta : option (option jstr);             (** the title in the meta line, when there is one *)
  page : option PageInfo;
  boxes : list Box;
  section : option json;
  renderTask : option nat;
  stageWidth : Z;
  observing : bool;
  resizeTimer : bool;
  viewport : option PageViewport;
  canvasSize : float * float;
  cssSize : float * float;
  overlay : list Rect;
  highlightFailure : bool;
  requests : list (PageViewport * option float);  (** [viewport] and scale of each [page.render] *)
  awaiting : list (nat * Caller)
}.

Definition set_display v p := mkPage v (clientWidth p) (devicePixelRatio p) (phase p) (status p) (meta p) (page p) (boxes p) (section p) (renderTask p) (stageWidth p) (observing p) (resizeTimer p) (viewport p) (canvasSize p) (cssSize p) (overlay p) (highlightFailure p) (requests p) (awaiting p).
Definition set_layout w r p := mkPage (display p) w r (phase p) (status p) (meta p) (page p) (boxes p) (section p) (renderTask p) (stageWidth p) (observing p) (resizeTimer p) (viewport p) (canvasSize p) (cssSize p) (overlay p) (highlightFailure p) (requests p) (awaiting p).
Definition set_phase v p := mkPage (display p) (clientWidth p) (devicePixelRatio p) v (status p) (meta p) (page p) (boxes p) (section p) (renderTask p) (stageWidth p) (observing p) (resizeTimer p) (viewport p) (canvasSize p) (cssSize p) (overlay p) (highlightFailure p) (requests p) (awaiting p).
Definition setStatus m t p := mkPage (display p) (clientWidth p) (devicePixelRatio p) (phase p) (Some (m, t)) (meta p) (page p) (boxes p) (section p) (renderTask p) (stageWidth p) (observing p) (resizeTimer p) (viewport p) (canvasSize p) (cssSize p) (overlay p) (highlightFailure p) (requests p) (awaiting p).
Definition renderMeta p := mkPage (display p) (clientWidth p) (devicePixelRatio p) (phase p) (status p) (Some (section_title (section p))) (page p) (boxes p) (section p) (renderTask p) (stageWidth p) (observing p) (resizeTimer p) (viewport p) (canvasSize p) (cssSize p) (overlay p) (highlightFailure p) (requests p) (awaiting p).
Definition set_page v p := mkPage (display p) (clientWidth p) (devicePixelRatio p) (phase p) (status p) (meta p) v (boxes p) (section p) (renderTask p) (stageWidth p) (observing p) (resizeTimer p) (viewport p) (canvasSize p) (cssSize p) (overlay p) (highlightFailure p) (requests p) (awaiting p).
Definition set_boxes b s f p := mkPage (display p) (clientWidth p) (devicePixelRatio p) (phase p) (status p) (meta p) (page p) b s (renderTask p) (stageWidth p) (observing p) (resizeTimer p) (viewport p) (canvasSize p) (cssSize p) (overlay p) f (requests p) (awaiting p).
Definition set_renderTask v p := mkPage (display p) (clientWidth p) (devicePixelRatio p) (phase p) (status p) (meta p) (page p) (boxes p) (section p) v (stageWidth p) (observing p) (resizeTimer p) (viewport p) (canvasSize p) (cssSize p) (overlay p) (highlightFailure p) (requests p) (awaiting p).
Definition set_stageWidth v p := mkPage (display p) (clientWidth p) (devicePixelRatio p) (phase p) (status p) (meta p) (page p) (boxes p) (section p) (renderTask p) v (observing p) (resizeTimer p) (viewport p) (canvasSize p) (cssSize p) (overlay p) (highlightFailure p) (requests p) (awaiting p).
Definition set_observing v p := mkPage (display p) (clientWidth p) (devicePixelRatio p) (phase p) (status p) (meta p) (page p) (boxes p) (section p) (renderTask p) (stageWidth p) v (resizeTimer p) (viewport p) (canvasSize p) (cssSize p) (overlay p) (highlightFailure p) (requests p) (awaiting p).
Definition set_resizeTimer v p := mkPage (display p) (clientWidth p) (devicePixelRatio p) (phase p) (status p) (meta p) (page p) (boxes p) (section p) (renderTask p) (stageWidth p) (observing p) v (viewport p) (canvasSize p) (cssSize p) (overlay p) (highlightFailure p) (requests p) (awaiting p).
Definition set_sizes v c s p := mkPage (display p) (clientWidth p) (devicePixelRatio p) (phase p) (status p) (meta p) (page p) (boxes p) (section p) (renderTask p) (stageWidth p) (observing p) (resizeTimer p) v c s (overlay p) (highlightFailure p) (requests p) (awaiting p).
Definition set_overlay v p := mkPage (display p) (clientWidth p) (devicePixelRatio p) (phase p) (status p) (meta p) (page p) (boxes p) (section p) (renderTask p) (stageWidth p) (observing p) (resizeTimer p) (viewport p) (canvasSize p) (cssSize p) v (highlightFailure p) (requests p) (awaiting p).
Definition set_awaiting r a p := mkPage (display p) (clientWidth p) (devicePixelRatio p) (phase p) (status p) (meta p) (page p) (boxes p) (section p) (renderTask p) (stageWidth p) (observing p) (resizeTimer p) (viewport p) (canvasSize p) (cssSize p) (overlay p) (highlightFailure p) r a.

Abbreviation W := (M Page).
Definition on_display {A} (m : D A) : W A := zoom display set_display m.

(** ** The functions of the page *)

Section Functions.
(** The parameters of the address: [source] and [excerpt]. *)
Context (source excerpt : jstr).

Definition drawHighlights : W unit := modify (fun p => set_overlay (highlight_rects (viewport p) (boxes p)) p).

(** The only canvas of the page. *)
Definition the_canvas : Z := 0.

Definition floor_size (v : PageViewport) (s : float) : float * float :=
  (math_floor (fmul (width v) s), math_floor (fmul (height v) s)).

(** [renderPage] up to its [await]; [false] when there is nothing to await. *)
Definition begin_render (caller : Caller) : W bool :=
  p <- get ;;
  match page p with
  | None => mret false
  | Some page =>
      v <- (fun s => (fitViewport page (of_Z (clientWidth p)), s)) ;;
      let outputScale := if truthy_num (devicePixelRatio p) then devicePixelRatio p else of_Z 1 in
      modify (set_sizes (Some v) (floor_size v outputScale) (math_floor (width v), math_floor (height v))) ;;;
      let transform := if feq outputScale (of_Z 1) then None else Some outputScale in
      (match renderTask p with Some t => on_display (cancel t None) | None => mret tt end) ;;;
      t <- on_display (render the_canvas) ;;
      modify (set_renderTask (Some t)) ;;;
      modify (fun p => set_awaiting (requests p ++ [(v, transform)]) (awaiting p ++ [(t, caller)]) p) ;;;
      mret true
  end.

Definition reportRenderFailure : W unit := modify (setStatus NotRendered Error).

(** The end of [start] after the page was rendered. *)
Definition final_status (p : Page) : Message * Tone :=
  if highlightFailure p then (LookupFailed, Warn)
  else if (0 <? length (boxes p))%nat then (Highlights (length (boxes p)), OkTone)
  else match excerpt with [] => (PlainPage, Info) | _ => (NoMatch, Info) end.
Definition finish_start : W unit :=
  modify (fun p => let '(m, t) := final_status p in setStatus m t p) ;;; modify (set_phase Finished).

(** What awaits [renderPage] goes on, or gets its exception. *)
Definition after_render (caller : Caller) : W unit :=
  match caller with ByStart => finish_start | ByTimer => mret tt end.
Definition after_failure (caller : Caller) : W unit :=
  (match caller with ByStart => modify (set_phase Stopped) | ByTimer => mret tt end) ;;; reportRenderFailure.

(** [renderPage()], awaited by its caller. *)
Definition renderPage (caller : Caller) : W unit := fun p =>
  match begin_render caller p with
  | (Ok true, p) => (Ok tt, p)
  | (Ok false, p) => after_render caller p
  | (Throw _, p) => after_failure caller p
  | (OutOfFuel, p) => (OutOfFuel, p)
  end.

(** The rest of [renderPage] when the promise of task [t] is settled. *)
Definition resume (t : nat) (caller : Caller) (o : Outcome) : W unit :=
  modify (fun p => if bool_decide (renderTask p = Some t) then set_renderTask None p else p) ;;;
  match o with
  | Resolved => drawHighlights ;;; after_render caller
  | Rejected RenderingCancelledException => after_render caller
  | Rejected (OtherError _) => after_failure caller
  end.

(** [start()] up to its first [await] *)
Definition start : W unit :=
  match source with
  | [] => modify (setStatus MissingSource Error) ;;; modify (set_phase Stopped)
  | _ => modify renderMeta ;;; modify (setStatus LoadingDocument Info) ;;; modify (set_phase AwaitDocument)
  end.

(** The boxes of the answer; [None] is an answer that is an error or no JSON. *)
Definition fetched_boxes (answer : option json) : W unit :=
  match answer with
  | Some payload =>
      match normalizeBoxes payload with
      | Ok (boxes, section) => modify (set_boxes boxes section false)
      | Throw _ => modify (set_boxes [] None true)
      | OutOfFuel => out_of_fuel
      end
  | None => modify (set_boxes [] None true)
  end.

(** ** Events *)

Inductive PageEvent :=
| DocumentLoaded (ok : bool)
| PageLoaded (page : option PageInfo)
| BoxesFetched (answer : option json)
| Layout (clientWidth : Z) (devicePixelRatio : float)
| Resized                                  (** the [ResizeObserver] *)
| TimerFired
| OnDisplay (e : Event)
| Resumed.                                 (** the end of the first [await] whose promise is settled *)

Definition is_phase (a b : Phase) : bool :=
  match a, b with
  | AwaitDocument, AwaitDocument | AwaitPage, AwaitPage | AwaitBoxes, AwaitBoxes | AwaitRender, AwaitRender => true
  | _, _ => false
  end.

(** The first of the awaited tasks that has ended, and the others. *)
Fixpoint settled (d : Display) (l : list (nat * Caller)) : option (nat * Caller * Outcome * list (nat * Caller)) :=
  match l with
  | [] => None
  | (t, c) :: l =>
      match k ← tasks d !! t; outcome k with
      | Some o => Some (t, c, o, l)
      | None =>
          match settled d l with
          | Some (t', c', o, l') => Some (t', c', o, (t, c) :: l')
          | None => None
          end
      end
  end.

(** A callback runs when the ones that wait for a settled promise have run. *)
Definition quiet (p : Page) : bool := match settled (display p) (awaiting p) with None => true | Some _ => false end.

Definition page_step (e : PageEvent) : W unit :=
  p <- get ;;
  match e with
  | DocumentLoaded ok =>
      when (is_phase (phase p) AwaitDocument)
        (if ok then modify (set_phase AwaitPage)
         else modify (setStatus DocumentNotLoaded Error) ;;; modify (set_phase Stopped))
  | PageLoaded page =>
      when (is_phase (phase p) AwaitPage)
        match page with
        | Some page => modify (set_page (Some page)) ;;; modify (set_phase AwaitBoxes)
        | None => modify (setStatus NoSuchPage Error) ;;; modify (set_phase Stopped)
        end
  | BoxesFetched answer =>
      when (is_phase (phase p) AwaitBoxes)
        (fetched_boxes answer ;;;
         modify renderMeta ;;;
         modify (set_stageWidth (clientWidth p)) ;;;
         modify (set_observing true) ;;;
         modify (set_phase AwaitRender) ;;;
         renderPage ByStart)
  | Layout w r => modify (set_layout w r)
  | Resized =>
      when (observing p)
        (if clientWidth p =? stageWidth p then mret tt
         else modify (set_stageWidth (clientWidth p)) ;;; modify (set_resizeTimer true))
  | TimerFired => when (resizeTimer p && quiet p) (modify (set_resizeTimer false) ;;; renderPage ByTimer)
  | OnDisplay e => when (quiet p) (on_display (step e))
  | Resumed =>
      match settled (display p) (awaiting p) with
      | Some (t, caller, o, rest) => modify (set_awaiting (requests p) rest) ;;; resume t caller o
      | None => out_of_fuel
      end
  end.

Definition new_Page (clientWidth : Z) (devicePixelRatio : float) : Page :=
  mkPage new_Display clientWidth devicePixelRatio AwaitDocument None None None [] None None 0 false false None
    (of_Z 300, of_Z 150) (of_Z 0, of_Z 0) [] false [] [].

(** The page after [start()] and a list of events. *)
Fixpoint page_run (l : list PageEvent) : W unit :=
  match l with
  | [] => mret tt
  | e :: l => page_step e ;;; page_run l
  end.
End Functions.
