(* ===== verification/HighlightSpec.v ===== *)
(** * What the highlight page shows

    Invariants of the page of web/highlight.mjs over every order of its events:
    one drawing at a time, and rectangles that belong to the page that is
    shown; and the status line that stays wrong. *)
From Stdlib Require Import SpecFloat.
From stdpp Require Import gmap.
From S2P Require Import Prelude Primitives Number64 Viewport Highlight RenderTask RenderTaskSpec Rendering HighlightPage.
Local Open Scope js_scope.

Section Page.
Context (source excerpt : jstr).

(** The pages that [start] and the events lead to. *)
Inductive page_reached : Page -> Prop :=
| page_start w r p : start source (new_Page w r) = (Ok tt, p) -> page_reached p
| page_event e p p' : page_reached p -> page_step excerpt e p = (Ok tt, p') -> page_reached p'.

Definition before_boxes (ph : Phase) : Prop := ph = AwaitDocument \/ ph = AwaitPage \/ ph = AwaitBoxes.

(** The sizes of the canvas and of its box for a viewport. *)
Definition sized (p : Page) (v : PageViewport) (transform : option float) : Prop :=
  viewport p = Some v /\ canvasSize p = floor_size v (default (of_Z 1) transform) /\
  cssSize p = (math_floor (width v), math_floor (height v)).

(** How many of the awaiting callers are [start]. *)
Fixpoint starts (l : list (nat * Caller)) : nat :=
  match l with
  | [] => 0
  | (_, ByStart) :: l => S (starts l)
  | _ :: l => starts l
  end.

Lemma starts_app l1 l2 : starts (l1 ++ l2) = (starts l1 + starts l2)%nat.
Proof. induction l1 as [|[t []] l1 IH]; cbn; lia. Qed.

(** The drawing: a task that has not ended is the last one, it is in
    [renderTask] and somebody awaits it; what is shown belongs together. *)
Record drawing_ok (p : Page) : Prop := {
  p_display : reached (display p);
  p_requests : length (requests p) = length (tasks (display p));
  p_canvas : forall t k, tasks (display p) !! t = Some k -> canvas k = the_canvas;
  p_active : forall t k, tasks (display p) !! t = Some k -> outcome k = None ->
    renderTask p = Some t /\ S t = length (tasks (display p)) /\ t ∈ (awaiting p).*1;
  p_task : forall t, renderTask p = Some t -> (t < length (tasks (display p)))%nat;
  p_awaiting : forall t c, (t, c) ∈ awaiting p -> (t < length (tasks (display p)))%nat;
  p_sizes : forall v tr, last (requests p) = Some (v, tr) -> sized p v tr;
  p_shown : forall t k, S t = length (tasks (display p)) -> tasks (display p) !! t = Some k -> outcome k = Some Resolved ->
    t ∉ (awaiting p).*1 -> overlay p = highlight_rects (viewport p) (boxes p)
}.

(** And where [start] is. *)
Record page_ok (p : Page) : Prop := {
  p_drawing : drawing_ok p;
  p_before : before_boxes (phase p) -> requests p = [] /\ observing p = false /\ resizeTimer p = false;
  p_start : starts (awaiting p) = if is_phase (phase p) AwaitRender then 1%nat else 0%nat
}.

(** A step that leaves the drawing alone. *)
Lemma drawing_ok_same p p' : drawing_ok p -> display p' = display p -> requests p' = requests p ->
  awaiting p' = awaiting p -> renderTask p' = renderTask p -> viewport p' = viewport p ->
  canvasSize p' = canvasSize p -> cssSize p' = cssSize p ->
  (overlay p' = overlay p /\ boxes p' = boxes p \/ requests p = []) -> drawing_ok p'.
Proof.
  intros [H1 H2 H3 H4 H5 H6 H7 H8] Ed Er Ea Et Ev Ec Es Hov.
  split; unfold sized in *; rewrite ?Ed, ?Er, ?Ea, ?Et, ?Ev, ?Ec, ?Es; try done.
  intros t k Hl Hk Ho Hn. destruct Hov as [[-> ->]|Hov]; [by apply (H8 t k)|].
  rewrite Hov in H2. cbn in H2. lia.
Qed.

(** The tasks before and after a step. *)
Lemma evolves_back l l' t k' : Forall2 evolves l l' -> l' !! t = Some k' ->
  exists k, l !! t = Some k /\ canvas k' = canvas k /\ (outcome k = None \/ outcome k' = outcome k).
Proof.
  intros H Hk'. destruct (Forall2_lookup_r _ _ _ _ _ H Hk') as (k & Hk & Hc & Ho). exists k. split_and!; [done|done|].
  destruct (outcome k); [right; by apply Ho|by left].
Qed.

Lemma drawing_ok_step p e d' : drawing_ok p -> step e (display p) = (Ok tt, d') -> drawing_ok (set_display d' p).
Proof.
  intros [H1 H2 H3 H4 H5 H6 H7 H8] E. destruct (kept_step e _ _ (reached_ok _ H1) E) as [_ Hev].
  pose proof (Forall2_length _ _ _ Hev) as Hl. split; cbn; rewrite <- ?Hl; try done.
  - by eapply reached_step.
  - intros t k' Hk'. destruct (evolves_back _ _ _ _ Hev Hk') as (k & Hk & -> & _). by apply (H3 t).
  - intros t k' Hk' Ho. destruct (evolves_back _ _ _ _ Hev Hk') as (k & Hk & _ & [Hn|Hn]); apply (H4 t k Hk); congruence.
  - intros t k' Ht Hk' Ho Hn. destruct (evolves_back _ _ _ _ Hev Hk') as (k & Hk & _ & [Hno|Hno]).
    + by destruct (H4 t k Hk Hno) as (_ & _ & ?).
    + apply (H8 t k); congruence.
Qed.

(** ** [renderPage] *)

(** Numbers that are equal for [===] and not zero are the same. *)
Lemma feq_finite x m e : feq x (S754_finite false m e) = true -> x = S754_finite false m e.
Proof.
  unfold feq, SFeqb. destruct x as [[]|[]| |[] m' e']; cbn [SFcompare]; try discriminate.
  destruct (e' ?= e) eqn:E; try discriminate. apply Z.compare_eq in E as ->.
  change (Pos.compare_cont Eq m' m) with (Pos.compare m' m).
  destruct (m' ?= m)%positive eqn:E'; try discriminate. apply Pos.compare_eq in E' as ->. reflexivity.
Qed.

Lemma feq_one x : feq x (of_Z 1) = true -> x = of_Z 1.
Proof.
  assert (E : of_Z 1 = S754_finite false 4503599627370496 (-52)) by (vm_compute; reflexivity).
  rewrite E. apply feq_finite.
Qed.

(** The new task, all the others having ended. *)
Lemma drawing_ok_render p d1 d2 v tr c t cs ss : drawing_ok p -> reached d1 -> Forall2 evolves (tasks (display p)) (tasks d1) ->
  (forall t k, tasks d1 !! t = Some k -> outcome k <> None) -> render the_canvas d1 = (Ok t, d2) ->
  cs = floor_size v (default (of_Z 1) tr) -> ss = (math_floor (width v), math_floor (height v)) ->
  drawing_ok (set_awaiting (requests p ++ [(v, tr)]) (awaiting p ++ [(t, c)])
    (set_renderTask (Some t) (set_display d2 (set_sizes (Some v) cs ss p)))).
Proof.
  intros [H1 H2 H3 H4 H5 H6 H7 H8] Hd1 Hev Hall E -> ->. pose proof (Forall2_length _ _ _ Hev) as Hl.
  destruct (ok_render d1 the_canvas (reached_ok _ Hd1)) as (d & E' & _ & _ & i & ET).
  rewrite E' in E. injection E as <- <-.
  assert (Hlook : forall t k, tasks d !! t = Some k ->
    tasks d1 !! t = Some k /\ outcome k <> None \/ t = length (tasks d1) /\ k = new_Task the_canvas i).
  { intros t k. rewrite ET. intros [Hk|[Hge Hk]]%lookup_app_Some; [left; split; [done|by eapply Hall]|right].
    apply list_lookup_singleton_Some in Hk as [Hk <-]. split; [lia|done]. }
  assert (Hlen : length (tasks d) = S (length (tasks d1))) by (rewrite ET, length_app; cbn; lia).
  split; cbn; rewrite ?Hlen.
  - by eapply reached_render.
  - rewrite length_app. cbn. lia.
  - intros t k Hk. destruct (Hlook t k Hk) as [[Hk1 _]|[_ ->]]; [|done].
    destruct (evolves_back _ _ _ _ Hev Hk1) as (k0 & Hk0 & -> & _). by apply (H3 t).
  - intros t k Hk Ho. destruct (Hlook t k Hk) as [[_ ?]|[-> ->]]; [done|]. split_and!; [done|done|].
    rewrite fmap_app. apply elem_of_app. right. by apply list_elem_of_singleton.
  - intros t [= <-]. lia.
  - intros t c' [Hin|Hin%list_elem_of_singleton]%elem_of_app; [specialize (H6 _ _ Hin); lia|]. injection Hin as -> ->. lia.
  - intros v' tr'. rewrite last_snoc. by intros [= <- <-].
  - intros t k Ht Hk Ho Hn. destruct (Hlook t k Hk) as [[Hk1 _]|[-> ->]]; [|done].
    apply lookup_lt_Some in Hk1. lia.
Qed.

(** The drawing that [renderPage] cancels has ended, and no other is left. *)
Lemma cancel_active p : drawing_ok p ->
  exists d1, (match renderTask p with Some t => cancel t None | None => mret tt end) (display p) = (Ok tt, d1) /\
    reached d1 /\ Forall2 evolves (tasks (display p)) (tasks d1) /\
    forall t k, tasks d1 !! t = Some k -> outcome k <> None.
Proof.
  intros [H1 H2 H3 H4 H5 _ _ _]. destruct (renderTask p) as [t|] eqn:Et.
  - destruct (lookup_lt_is_Some_2 _ _ (H5 t eq_refl)) as [k Hk].
    destruct (ok_cancel _ t k None (reached_ok _ H1) Hk) as (d1 & E & _ & _ & ET).
    assert (Hev : evolves k (settle (Rejected RenderingCancelledException) (cancel_task k))).
    { apply evolves_settle. unfold cancel_task. by destruct (rAF k). }
    exists d1. split_and!; [done|by eapply reached_cancel| |].
    + rewrite ET. by apply (evolves_insert _ _ k).
    + intros t' k'. rewrite ET. intros [(<- & <- & _)|[Hne Hk']]%list_lookup_insert_Some; [apply settle_outcome|].
      intros Ho. destruct (H4 t' k' Hk' Ho) as [E' _]. congruence.
  - eexists. split_and!; [done|done|apply evolves_all|]. intros t k Hk Ho. by destruct (H4 t k Hk Ho).
Qed.

(** What [begin_render] does. *)
Lemma begin_render_ok caller p : drawing_ok p ->
  match begin_render caller p with
  | (Ok true, p') => drawing_ok p' /\ (exists t, awaiting p' = awaiting p ++ [(t, caller)]) /\
      phase p' = phase p /\ status p' = status p
  | (_, p') => p' = p
  end.
Proof.
  intros Hp. unfold begin_render. unfold mbind at 1, get. destruct (page p) as [pg|]; [|done].
  unfold mbind at 1. destruct (fitViewport pg (of_Z (clientWidth p))) as [v|e|]; [|done..].
  unfold mbind at 1, modify at 1. set (out := if truthy_num _ then _ else _).
  set (cs := floor_size v out). set (ss := (math_floor (width v), math_floor (height v))).
  destruct (cancel_active p Hp) as (d1 & E1 & Hd1 & Hev & Hall).
  destruct (ok_render d1 the_canvas (reached_ok _ Hd1)) as (d2 & E2 & _).
  set (p1 := set_sizes (Some v) cs ss p).
  assert (Ec : (match renderTask p with Some t => on_display (cancel t None) | None => mret tt end) p1 = (Ok tt, set_display d1 p1)).
  { destruct (renderTask p) as [t|]; [unfold on_display, zoom; change (display p1) with (display p); by rewrite E1|].
    injection E1 as <-. by destruct p. }
  rewrite (mbind_ok _ _ _ _ _ Ec). unfold on_display at 1, zoom at 1. unfold mbind at 1. cbn [display set_display p1].
  rewrite E2. unfold mbind, modify. split; [|cbn; eauto].
  assert (Hout : out = default (of_Z 1) (if feq out (of_Z 1) then None else Some out)).
  { destruct (feq out (of_Z 1)) eqn:E; [by apply feq_one|done]. }
  apply (drawing_ok_render p d1 d2 v _ caller _ cs ss Hp Hd1 Hev Hall E2); [|done]. by rewrite <- Hout.
Qed.

(** ** The steps of the page *)

(** What runs after [renderPage] changes only the status and the phase. *)
Lemma page_ok_status p m tn : page_ok p -> page_ok (setStatus m tn p).
Proof. intros [Hd Hb Hs]. split; [|done..]. apply (drawing_ok_same p); try done. by left. Qed.

Lemma page_ok_end p m tn ph : drawing_ok p -> starts (awaiting p) = 0%nat -> ph = Finished \/ ph = Stopped ->
  page_ok (set_phase ph (setStatus m tn p)) /\ page_ok (setStatus m tn (set_phase ph p)).
Proof.
  intros Hd Hs Hph. assert (Hnb : forall q, phase q = ph -> before_boxes (phase q) -> False).
  { intros q -> [?|[?|?]]; destruct Hph; congruence. }
  split; (split; [apply (drawing_ok_same p); try done; by left|intros []%Hnb; done|cbn; destruct Hph as [->| ->]; done]).
Qed.

Definition caller_starts (c : Caller) : nat := match c with ByStart => 1 | ByTimer => 0 end.

(** The end of [renderPage], one way or the other. *)
Lemma after_ok caller p : drawing_ok p -> ~ before_boxes (phase p) ->
  (starts (awaiting p) + caller_starts caller)%nat = (if is_phase (phase p) AwaitRender then 1 else 0)%nat ->
  (exists p', after_render excerpt caller p = (Ok tt, p') /\ page_ok p') /\
  (exists p', after_failure caller p = (Ok tt, p') /\ page_ok p').
Proof.
  intros Hd Hb Hs. destruct caller; cbn [caller_starts] in Hs.
  - assert (H0 : starts (awaiting p) = 0%nat) by (destruct (is_phase _ _); lia). split; eexists; (split; [reflexivity|]).
    + destruct (final_status excerpt p) as [m tn] eqn:E.
      change (page_ok (set_phase Finished (let '(m, t) := final_status excerpt p in setStatus m t p))). rewrite E.
      apply (page_ok_end p m tn Finished); [done|done|by left].
    + apply (page_ok_end p NotRendered Error Stopped); [done|done|by right].
  - rewrite Nat.add_0_r in Hs. assert (Hp : page_ok p) by (by split; [|intros []%Hb|]).
    split; eexists; (split; [reflexivity|]); [done|by apply page_ok_status].
Qed.

Lemma renderPage_ok caller p p' : drawing_ok p -> ~ before_boxes (phase p) ->
  (starts (awaiting p) + caller_starts caller)%nat = (if is_phase (phase p) AwaitRender then 1 else 0)%nat ->
  renderPage excerpt caller p = (Ok tt, p') -> page_ok p'.
Proof.
  intros Hd Hb Hs E. unfold renderPage in E. pose proof (begin_render_ok caller p Hd) as H.
  destruct (after_ok caller p Hd Hb Hs) as ((q & Eq & Hq) & (q' & Eq' & Hq')).
  destruct (begin_render caller p) as [[[]|e|] p1].
  - destruct H as (Hd1 & (t & Ea) & Ep & _). injection E as <-. split; [done|by rewrite Ep; intros []%Hb|].
    rewrite Ea, Ep, starts_app. destruct caller; cbn in *; lia.
  - subst p1. rewrite Eq in E. by injection E as <-.
  - subst p1. rewrite Eq' in E. by injection E as <-.
  - done.
Qed.

(** ** A promise that is settled *)

Lemma when_true' {S A} b (m : M S A) a s s' : when b m s = (Ok a, s') -> b = true /\ m s = (Ok a, s').
Proof. by destruct b. Qed.

Lemma settled_spec d l t c o rest : settled d l = Some (t, c, o, rest) ->
  exists l1 l2 k, l = l1 ++ (t, c) :: l2 /\ rest = l1 ++ l2 /\ tasks d !! t = Some k /\ outcome k = Some o.
Proof.
  revert rest. induction l as [|[t0 c0] l IH]; intros rest; cbn [settled]; [done|].
  destruct (tasks d !! t0) as [k|] eqn:Hk; cbn.
  - destruct (outcome k) as [o0|] eqn:Ho.
    + intros [= <- <- <- <-]. by exists [], l, k.
    + destruct (settled d l) as [[[[t' c'] o'] l']|]; [|done]. intros [= -> -> -> <-].
      destruct (IH _ eq_refl) as (l1 & l2 & k' & -> & -> & ? & ?). by exists ((t0, c0) :: l1), l2, k'.
  - destruct (settled d l) as [[[[t' c'] o'] l']|]; [|done]. intros [= -> -> -> <-].
    destruct (IH _ eq_refl) as (l1 & l2 & k' & -> & -> & ? & ?). by exists ((t0, c0) :: l1), l2, k'.
Qed.

(** The state after the [finally] of [renderPage], and after the drawing of the
    rectangles when there is one. *)
Lemma drawing_ok_resumed p t c o rest : drawing_ok p -> settled (display p) (awaiting p) = Some (t, c, o, rest) ->
  let p1 := set_awaiting (requests p) rest p in
  let p2 := if bool_decide (renderTask p1 = Some t) then set_renderTask None p1 else p1 in
  let p3 := if bool_decide (o = Resolved) then set_overlay (highlight_rects (viewport p2) (boxes p2)) p2 else p2 in
  drawing_ok p3 /\ phase p3 = phase p /\ awaiting p3 = rest.
Proof.
  intros [H1 H2 H3 H4 H5 H6 H7 H8] E p1 p2 p3. apply settled_spec in E as (l1 & l2 & k & Ea & Er & Hk & Ho).
  assert (F : display p3 = display p /\ requests p3 = requests p /\ awaiting p3 = rest /\ viewport p3 = viewport p /\
    canvasSize p3 = canvasSize p /\ cssSize p3 = cssSize p /\ boxes p3 = boxes p /\ phase p3 = phase p /\
    (renderTask p3 = renderTask p \/ renderTask p = Some t /\ renderTask p3 = None) /\
    (o = Resolved /\ overlay p3 = highlight_rects (viewport p) (boxes p) \/ o <> Resolved /\ overlay p3 = overlay p)).
  { unfold p3, p2. change (renderTask p1) with (renderTask p). repeat case_bool_decide; split_and!; try done; cbn; auto. }
  destruct F as (Fd & Fr & Fa & Fv & Fc & Fs & Fb & Fp & Ft & Fo). split; [|done].
  assert (Hin : forall x, x ∈ (awaiting p).*1 -> x <> t -> x ∈ rest.*1).
  { intros x. rewrite Ea, Er, !fmap_app. cbn. rewrite !elem_of_app, elem_of_cons. tauto. }
  split; rewrite ?Fd, ?Fr, ?Fa, ?Fv, ?Fb; try done.
  - intros x kx Hx Hox. destruct (H4 x kx Hx Hox) as (Hrt & Hl & Hax).
    assert (x <> t) by (intros ->; congruence). split_and!; [destruct Ft as [->|[? _]]; congruence|done|by apply Hin].
  - intros x Hx. destruct Ft as [Ft|[_ Ft]]; [|congruence]. apply H5. congruence.
  - intros x c' Hx. apply (H6 x c'). rewrite Ea. rewrite Er in Hx. rewrite elem_of_app in *. rewrite elem_of_cons. tauto.
  - intros v tr Hv. destruct (H7 v tr Hv) as (Hv1 & Hv2 & Hv3). unfold sized. by rewrite Fv, Fc, Fs.
  - intros x kx Hl Hx Hox Hn. destruct Fo as [[_ ->]|[Hne ->]]; [done|]. destruct (decide (x = t)) as [->|Hxt]; [congruence|].
    apply (H8 x kx); try done. intros Hx'. by apply Hn, Hin.
Qed.
Lemma resume_ok p t c o rest p' : page_ok p -> settled (display p) (awaiting p) = Some (t, c, o, rest) ->
  resume excerpt t c o (set_awaiting (requests p) rest p) = (Ok tt, p') -> page_ok p'.
Proof.
  intros [Hd Hb Hs] Hset E. destruct (drawing_ok_resumed p t c o rest Hd Hset) as (Hd3 & Hp3 & Ha3).
  set (p1 := set_awaiting (requests p) rest p) in *.
  set (p2 := if bool_decide (renderTask p1 = Some t) then set_renderTask None p1 else p1) in *.
  apply settled_spec in Hset as (l1 & l2 & k & Ea & Er & _ & _).
  assert (Hcount : starts (awaiting p) = (starts rest + caller_starts c)%nat).
  { rewrite Ea, Er, !starts_app. destruct c; cbn; lia. }
  assert (Hne : ~ before_boxes (phase p)).
  { intros H. destruct (Hb H) as (Hr & _ & _). destruct Hd as [_ Hreq _ _ _ Hin _ _].
    specialize (Hin t c). rewrite Hr in Hreq. cbn in Hreq. rewrite <- Hreq in Hin.
    assert ((t < 0)%nat) by (apply Hin; rewrite Ea; apply elem_of_app; right; left). lia. }
  unfold resume, drawHighlights in E. unfold mbind at 1, modify at 1 in E. fold p2 in E.
  assert (Hafter : forall q, drawing_ok q -> phase q = phase p -> awaiting q = rest ->
    (after_render excerpt c q = (Ok tt, p') \/ after_failure c q = (Ok tt, p')) -> page_ok p').
  { intros q Hq Hpq Haq Hor. destruct (after_ok c q Hq) as ((q1 & E1 & H1) & (q2 & E2 & H2)).
    - by rewrite Hpq.
    - by rewrite Hpq, Haq, <- Hcount.
    - destruct Hor as [E'|E']; [rewrite E1 in E'|rewrite E2 in E']; by injection E' as <-. }
  destruct o as [|[|e]]; cbn [bool_decide] in Hd3, Hp3, Ha3.
  - rewrite (bool_decide_eq_true_2 (Resolved = Resolved)) in Hd3, Hp3, Ha3 by done.
    apply (Hafter _ Hd3 Hp3 Ha3). left. exact E.
  - rewrite bool_decide_eq_false_2 in Hd3, Hp3, Ha3 by done. apply (Hafter _ Hd3 Hp3 Ha3). by left.
  - rewrite bool_decide_eq_false_2 in Hd3, Hp3, Ha3 by done. apply (Hafter _ Hd3 Hp3 Ha3). by right.
Qed.

(** Steps of [start] before anything is drawn, and of the browser. *)
Lemma page_ok_change p p' : page_ok p -> drawing_ok p' -> awaiting p' = awaiting p ->
  (before_boxes (phase p') -> requests p' = [] /\ observing p' = false /\ resizeTimer p' = false) ->
  is_phase (phase p') AwaitRender = is_phase (phase p) AwaitRender -> page_ok p'.
Proof. intros [_ _ Hs] Hd Ea Hb Hph. split; [done|done|]. by rewrite Ea, Hph. Qed.

Lemma fetched_boxes_eq answer p : (exists b s f, fetched_boxes answer p = (Ok tt, set_boxes b s f p)) \/
  exists p', fetched_boxes answer p = (OutOfFuel, p').
Proof.
  unfold fetched_boxes. destruct answer as [payload|]; [destruct (normalizeBoxes payload) as [[b s]|e|]|];
    try (left; by eexists _, _, _). right. by eexists.
Qed.

Lemma boxes_ok p answer p' : page_ok p -> phase p = AwaitBoxes ->
  (fetched_boxes answer ;;; modify renderMeta ;;; modify (set_stageWidth (clientWidth p)) ;;;
   modify (set_observing true) ;;; modify (set_phase AwaitRender) ;;; renderPage excerpt ByStart) p = (Ok tt, p') -> page_ok p'.
Proof.
  intros [Hd Hb Hs] Hph E. destruct (Hb ltac:(by right; right)) as (Hr & _ & _).
  destruct (fetched_boxes_eq answer p) as [(b & s & f & Ef)|(p1 & Ef)]; unfold mbind at 1 in E; rewrite Ef in E; [|done].
  set (q := set_phase AwaitRender (set_observing true (set_stageWidth (clientWidth p) (renderMeta (set_boxes b s f p))))).
  change (renderPage excerpt ByStart q = (Ok tt, p')) in E.
  apply (renderPage_ok ByStart q p'); [|by intros [?|[?|?]]| |exact E].
  - apply (drawing_ok_same p); try done. by right.
  - cbn. rewrite Hs, Hph. done.
Qed.

Lemma page_step_ok e p p' : page_ok p -> page_step excerpt e p = (Ok tt, p') -> page_ok p'.
Proof.
  intros Hp E. pose proof Hp as [Hd Hb Hs]. unfold page_step in E. unfold mbind at 1, get in E.
  assert (Hphase : forall ph, is_phase (phase p) ph = true -> ph = phase p) by (intros []; by destruct (phase p)).
  assert (Hstop : forall m tn, phase p = AwaitDocument \/ phase p = AwaitPage ->
    page_ok (set_phase Stopped (setStatus m tn p))).
  { intros m tn Hph. apply (page_ok_end p m tn Stopped); [done| |by right]. rewrite Hs. by destruct Hph as [->| ->]. }
  destruct e as [ok|pg|answer|w r| | |e|].
  - apply when_true' in E as [Hph%Hphase E]. destruct ok; injection E as <-; [|apply Hstop; auto].
    apply (page_ok_change p); try done; [apply (drawing_ok_same p); try done; by left| |by rewrite <- Hph].
    intros _. apply Hb. rewrite <- Hph. by left.
  - apply when_true' in E as [Hph%Hphase E]. destruct pg; injection E as <-; [|apply Hstop; auto].
    apply (page_ok_change p); try done; [apply (drawing_ok_same p); try done; by left| |by rewrite <- Hph].
    intros _. apply Hb. rewrite <- Hph. by right; left.
  - apply when_true' in E as [Hph%Hphase E]. by apply (boxes_ok p answer).
  - injection E as <-. apply (page_ok_change p); try done. apply (drawing_ok_same p); try done. by left.
  - apply when_true' in E as [Ho E]. destruct (_ =? _); injection E as <-; [done|].
    apply (page_ok_change p); try done; [apply (drawing_ok_same p); try done; by left|].
    intros H. destruct (Hb H) as (_ & ? & _). congruence.
  - apply when_true' in E as [[Ht _]%andb_true_iff E]. unfold mbind, modify in E.
    apply (renderPage_ok ByTimer (set_resizeTimer false p) p'); [apply (drawing_ok_same p); try done; by left| | |done].
    + intros H. destruct (Hb H) as (_ & _ & ?). congruence.
    + cbn. by rewrite Hs, Nat.add_0_r.
  - apply when_true' in E as [_ E]. unfold on_display, zoom in E. destruct (step e (display p)) as [r d'] eqn:Ed.
    injection E as -> <-. by apply (page_ok_change p); try done; apply (drawing_ok_step p e).
  - destruct (settled (display p) (awaiting p)) as [[[[t c] o] rest]|] eqn:Hset; [|done].
    unfold mbind at 1, modify at 1 in E. by apply (resume_ok p t c o rest).
Qed.

Lemma page_reached_ok p : page_reached p -> page_ok p.
Proof.
  induction 1 as [w r p E|e p p' _ IH E]; [|by eapply page_step_ok].
  assert (H : drawing_ok (new_Page w r)).
  { split; cbn; try done; [apply reached_new|by intros ? ? ?%not_elem_of_nil]. }
  unfold start in E. destruct source.
  - injection E as <-. by apply (page_ok_end (new_Page w r)); [| |right].
  - injection E as <-. split; [|done..]. by apply (drawing_ok_same (new_Page w r)); try done; left.
Qed.
End Page.

(** ** Runs of a page *)

(** The page for a source and a cited excerpt, 308 pixels wide, after some
    events. *)
Definition page_after (l : list PageEvent) : option Page :=
  match (start (js "paper") ;;; page_run (js "we found") l) (new_Page 308 (of_Z 1)) with
  | (Ok _, p) => Some p
  | _ => None
  end.

Lemma page_run_reached source excerpt l : forall p p', page_reached source excerpt p ->
  page_run excerpt l p = (Ok tt, p') -> page_reached source excerpt p'.
Proof.
  induction l as [|e l IH]; intros p p' Hp; cbn [page_run]; [by intros [= <-]|]. unfold mbind.
  destruct (page_step excerpt e p) as [[[]|?|] p1] eqn:E; [|done..]. apply IH. by eapply page_event.
Qed.

Lemma page_after_reached l p : page_after l = Some p -> page_reached (js "paper") (js "we found") p.
Proof.
  unfold page_after, mbind. destruct (start (js "paper") (new_Page 308 (of_Z 1))) as [[[]|?|] p1] eqn:E; [|done..].
  destruct (page_run (js "we found") l p1) as [[[]|?|] p2] eqn:E2; [|done..]. intros [= <-].
  eapply page_run_reached; [|exact E2]. by eapply page_start.
Qed.

(** The document opens and its first page begins to draw. *)
Definition opening : list PageEvent :=
  [DocumentLoaded true; PageLoaded (Some letter); BoxesFetched (Some sample_answer);
   OnDisplay DisplayReady; OnDisplay (Ready 0 true); OnDisplay (Chunk 0 3 true)].
(** The stage is made wider before it is done. *)
Definition resizing : list PageEvent :=
  opening ++ [Layout 500 (of_Z 2); Resized; TimerFired; Resumed; OnDisplay (Ready 1 true)].

(** ** The theorems *)

(** The request of the last task. *)
Lemma last_request p t : drawing_ok p -> S t = length (tasks (display p)) ->
  exists v tr, requests p !! t = Some (v, tr) /\ sized p v tr.
Proof.
  intros Hd Ht. pose proof (p_requests p Hd) as Hl.
  destruct (lookup_lt_is_Some_2 (requests p) t) as [[v tr] Hv]; [lia|]. exists v, tr. split; [done|].
  apply (p_sizes p Hd). rewrite last_lookup. by replace (pred (length (requests p))) with t by lia.
Qed.

(** C8. One drawing at a time.  Whatever the order of the events, the page
    never has two tasks that draw: when two tasks are drawing they are the same,
    and what it was asked to draw is the viewport of the page, for which the
    canvas and the box around it have their sizes. *)
Theorem one_render_draws source excerpt p t1 t2 k1 k2 (Hp : page_reached source excerpt p)
  (H1 : tasks (display p) !! t1 = Some k1) (H2 : tasks (display p) !! t2 = Some k2)
  (D1 : drawing k1 = true) (D2 : drawing k2 = true) :
  t1 = t2 /\ exists v tr, requests p !! t1 = Some (v, tr) /\ sized p v tr.
Proof.
  destruct (page_reached_ok source excerpt p Hp) as [Hd _ _]. pose proof (reached_ok _ (p_display p Hd)) as Hok.
  assert (Hact : forall t k, tasks (display p) !! t = Some k -> drawing k = true -> S t = length (tasks (display p))).
  { intros t k Hk Hdr. destruct (ok_tasks _ Hok t k Hk) as (it & _ & Htask & _).
    apply (ok_drawing _ _ Htask) in Hdr as [_ Ho]. by apply (p_active p Hd t k Hk Ho). }
  pose proof (Hact _ _ H1 D1) as E1. pose proof (Hact _ _ H2 D2) as E2. split; [lia|]. by apply last_request.
Qed.

(** C9. When the last drawing has ended well and nothing waits for it any
    more, the rectangles over the page are those of the boxes in the viewport
    that was drawn, and the canvas has its size. *)
Theorem page_shows_highlights source excerpt p t k (Hp : page_reached source excerpt p)
  (Ht : S t = length (tasks (display p))) (Hk : tasks (display p) !! t = Some k)
  (Ho : outcome k = Some Resolved) (Hn : t ∉ (awaiting p).*1) :
  exists v tr, requests p !! t = Some (v, tr) /\ sized p v tr /\ overlay p = highlight_rects (Some v) (boxes p).
Proof.
  destruct (page_reached_ok source excerpt p Hp) as [Hd _ _].
  destruct (last_request p t Hd Ht) as (v & tr & Hr & Hs). exists v, tr. split_and!; [done|done|].
  rewrite (p_shown p Hd t k Ht Hk Ho Hn). by destruct Hs as [-> _].
Qed.

(** [start] is never left waiting for the page to be drawn: while it
    waits, its own continuation can run, or an event of the drawing it waits
    for can come. *)
Theorem start_goes_on source excerpt p (Hp : page_reached source excerpt p) (Hph : phase p = AwaitRender) :
  (exists p', page_step excerpt Resumed p = (Ok tt, p')) \/
  exists t k e p', (t, ByStart) ∈ awaiting p /\ tasks (display p) !! t = Some k /\ calls (display p) t k e /\
    page_step excerpt (OnDisplay e) p = (Ok tt, p').
Proof.
  pose proof (page_reached_ok source excerpt p Hp) as Hok. destruct Hok as [Hd Hb Hs].
  destruct (settled (display p) (awaiting p)) as [[[[t c] o] rest]|] eqn:Hset.
  - left. destruct (drawing_ok_resumed p t c o rest Hd Hset) as (Hd3 & Hp3 & Ha3).
    unfold page_step. unfold mbind at 1, get. rewrite Hset. unfold mbind at 1, modify at 1.
    unfold resume, drawHighlights. unfold mbind at 1, modify at 1.
    destruct o as [|[|e]]; unfold mbind, modify; destruct c; by eexists.
  - right. rewrite Hph in Hs. cbn in Hs.
    assert (Hst : exists t, (t, ByStart) ∈ awaiting p).
    { clear -Hs. induction (awaiting p) as [|[t []] l IH]; cbn in Hs; [done|exists t; left|].
      destruct (IH Hs) as [t' H]. exists t'. by right. }
    destruct Hst as [t Hin]. destruct (lookup_lt_is_Some_2 _ _ (p_awaiting p Hd _ _ Hin)) as [k Hk].
    assert (Ho : outcome k = None).
    { clear -Hset Hin Hk. induction (awaiting p) as [|[t0 c0] l IH]; [by apply not_elem_of_nil in Hin|].
      cbn in Hset. apply elem_of_cons in Hin as [[= <- _]|Hin].
      - rewrite Hk in Hset. cbn in Hset. by destruct (outcome k).
      - destruct (tasks (display p) !! t0) as [k0|]; cbn in Hset;
          [destruct (outcome k0); [done|]|]; destruct (settled (display p) l) as [[[[? ?] ?] ?]|]; auto; done. }
    destruct (rendering_goes_on _ t k (p_display p Hd) Hk Ho) as (_ & e & He & d' & E).
    exists t, k, e. eexists. split_and!; [done|done|done|]. unfold page_step. unfold mbind at 1, get, quiet. rewrite Hset.
    unfold when, on_display, zoom. by rewrite E.
Qed.

(** Take the page after a run, and facts about it that are computed. *)
Ltac at_page l p E :=
  destruct (page_after l) as [p|] eqn:E; [|vm_compute in E; discriminate].
Ltac computed E := vm_compute in E; injection E as <-; vm_compute; reflexivity.

Lemma one_render_draws_witness : exists p k, page_after resizing = Some p /\ tasks (display p) !! 1%nat = Some k /\
  drawing k = true /\ (1 = 1)%nat /\ exists v tr, requests p !! 1%nat = Some (v, tr) /\ sized p v tr.
Proof.
  at_page resizing p E. destruct (tasks (display p) !! 1%nat) as [k|] eqn:Hk.
  2:{ exfalso. vm_compute in E. injection E as <-. vm_compute in Hk. discriminate. }
  assert (Hd : drawing k = true).
  { vm_compute in E. injection E as <-. vm_compute in Hk. injection Hk as <-. reflexivity. }
  exists p, k. split; [reflexivity|]. split; [exact Hk|]. split; [exact Hd|].
  exact (one_render_draws (js "paper") (js "we found") p 1 1 k k (page_after_reached _ _ E) Hk Hk Hd Hd).
Defined.

Definition opened : list PageEvent := opening ++ [OnDisplay (Frame 0 Reached); Resumed].

Lemma page_shows_highlights_witness : exists p v tr, page_after opened = Some p /\
  status p = Some (Highlights 2, OkTone) /\
  requests p !! 0%nat = Some (v, tr) /\ sized p v tr /\ overlay p = highlight_rects (Some v) (boxes p).
Proof.
  at_page opened p E. destruct (tasks (display p) !! 0%nat) as [k|] eqn:Hk.
  2:{ exfalso. vm_compute in E. injection E as <-. vm_compute in Hk. discriminate. }
  assert (Hall : status p = Some (Highlights 2, OkTone) /\ 1%nat = length (tasks (display p)) /\
    outcome k = Some Resolved /\ 0%nat ∉ (awaiting p).*1).
  { vm_compute in E. injection E as <-. vm_compute in Hk. injection Hk as <-. repeat split. apply not_elem_of_nil. }
  destruct Hall as (Hs & Hl & Ho & Hn).
  destruct (page_shows_highlights (js "paper") (js "we found") p 0 k (page_after_reached _ _ E) Hl Hk Ho Hn) as (v & tr & H).
  exists p, v, tr. split; [reflexivity|]. split; [exact Hs|exact H].
Defined.

Lemma start_goes_on_witness : exists p, page_after opening = Some p /\
  ((exists p', page_step (js "we found") Resumed p = (Ok tt, p')) \/
   exists t k e p', (t, ByStart) ∈ awaiting p /\ tasks (display p) !! t = Some k /\ calls (display p) t k e /\
     page_step (js "we found") (OnDisplay e) p = (Ok tt, p')).
Proof.
  at_page opening p E. assert (Hp : phase p = AwaitRender) by computed E.
  exists p. split; [reflexivity|]. exact (start_goes_on (js "paper") (js "we found") p (page_after_reached _ _ E) Hp).
Defined.

(** The status line can stay wrong: when the first drawing fails, the page
    says that it could not be rendered, and goes on saying so when a change of
    the width has drawn it, with its highlights, without a fault. *)
Theorem failure_stays_in_status : exists p v k, page_reached (js "paper") (js "we found") p /\
  tasks (display p) !! 1%nat = Some k /\ length (tasks (display p)) = 2%nat /\ outcome k = Some Resolved /\
  awaiting p = [] /\ viewport p = Some v /\ overlay p = highlight_rects (Some v) (boxes p) /\ length (overlay p) = 2%nat /\
  status p = Some (NotRendered, Error).
Proof.
  at_page (opening ++ [OnDisplay (Frame 0 (Raised same_canvas)); OnDisplay (Caught 0 same_canvas); Resumed;
    Layout 500 (of_Z 1); Resized; TimerFired; OnDisplay DisplayReady; OnDisplay (Ready 1 true); OnDisplay (Chunk 1 3 true);
    OnDisplay (Frame 1 Reached); Resumed]) p E.
  pose proof (page_after_reached _ _ E) as Hp.
  destruct (tasks (display p) !! 1%nat) as [k|] eqn:Hk.
  2:{ exfalso. vm_compute in E. injection E as <-. vm_compute in Hk. discriminate. }
  destruct (viewport p) as [v|] eqn:Hv.
  2:{ exfalso. vm_compute in E. injection E as <-. vm_compute in Hv. discriminate. }
  exists p, v, k. split; [exact Hp|]. split; [exact Hk|].
  assert (Hshown : overlay p = highlight_rects (viewport p) (boxes p)) by computed E.
  rewrite Hv in Hshown. vm_compute in E. injection E as <-. vm_compute in Hk. injection Hk as <-.
  split_and!; first [exact Hshown|exact Hv|reflexivity].
Qed.
