(* ===== verification/ViewerUtils.v ===== *)
(** * The pages on the screen

    [binarySearchFirstItem], [backtrackBeforeAllVisibleElements] and
    [getVisibleElements] of web/viewer.mjs: which pages of the viewer can be
    seen, how much of them, and in which order they are to be drawn.  The layout
    is given by what the code reads of the elements, in whole pixels; the shares
    of a page are computed with doubles. *)
From Stdlib Require Import SpecFloat.
From stdpp Require Import gmap.
From S2P Require Import Prelude JsBits Primitives Number64.
Local Open Scope js_scope.

(** ** Search *)

(** [while (minIndex < maxIndex)]; an item out of range is [undefined]. *)
Fixpoint search_loop {A} (items : list A) (condition : option A -> bool) (turns : nat) (minIndex maxIndex : Z) : res Z :=
  match turns with
  | O => OutOfFuel
  | S turns =>
      if minIndex <? maxIndex then
        let currentIndex := minIndex + maxIndex .>> 1 in
        if condition (arr_get items currentIndex)
        then search_loop items condition turns minIndex currentIndex
        else search_loop items condition turns (currentIndex + 1) maxIndex
      else Ok minIndex
  end.

Definition binarySearchFirstItem {A} (items : list A) (condition : option A -> bool) (start : Z) : res Z :=
  let minIndex := start in
  let maxIndex := len items - 1 in
  if (maxIndex <? 0) || negb (condition (arr_get items maxIndex)) then Ok (len items)
  else if condition (arr_get items minIndex) then Ok minIndex
  else search_loop items condition (S (length items)) minIndex maxIndex.

(** ** Layout *)

(** [view.div] and [view.id]. *)
Record View := mkView {
  view_id : Z;
  offsetTop : Z;
  offsetLeft : Z;
  clientTop : Z;
  clientLeft : Z;
  clientWidth : Z;
  clientHeight : Z
}.

Record ScrollElement := mkScroll {
  scrollTop : Z;
  scrollLeft : Z;
  scrollWidth : Z;                         (** [scrollEl.clientWidth] *)
  scrollHeight : Z                         (** [scrollEl.clientHeight] *)
}.

Definition view_top (v : View) : Z := offsetTop v + clientTop v.
Definition view_left (v : View) : Z := offsetLeft v + clientLeft v.
Definition view_bottom (v : View) : Z := view_top v + clientHeight v.
Definition view_right (v : View) : Z := view_left v + clientWidth v.

(** The loop goes down from [i]. *)
Fixpoint backtrack_loop (views : list View) (pageTop : Z) (i : nat) (index : Z) : res Z :=
  match views !! i with
  | None => Throw (TypeError "views[i] is undefined")
  | Some elt =>
      if view_bottom elt <=? pageTop then Ok index
      else match i with O => Ok 0 | S i' => backtrack_loop views pageTop i' (Z.of_nat i) end
  end.

Definition backtrackBeforeAllVisibleElements (index : Z) (views : list View) (top : Z) : res Z :=
  if index <? 2 then Ok index
  else
    match arr_get views index, arr_get views (index - 1) with
    | Some elt, Some prev =>
        let pageTop := if top <=? view_top elt then view_top prev else view_top elt in
        backtrack_loop views pageTop (Z.to_nat (index - 2)) index
    | _, _ => Throw (TypeError "views[index] is undefined")
    end.

(** The share of a page that is seen, and the corner of it. *)
Record VisibleArea := mkArea { minX : Z; minY : Z; maxX : Z; maxY : Z }.
Record Visible := mkVisible {
  v_view : View;
  v_area : option VisibleArea;             (** [null] for all of it *)
  percent : Z;
  widthPercent : Z
}.

(** [x | 0] *)
Definition float_int32 (x : float) : Z :=
  match x with
  | S754_finite s m e =>
      to_int32 (if 0 <=? e then floor_Z s m e
                else (if s then - (Z.pos m / 2 ^ (- e)) else Z.pos m / 2 ^ (- e)))
  | _ => 0
  end.

(** [a.percent - b.percent], then [a.id - b.id]: the sign of the comparison. *)
Definition visibleSort (a b : Visible) : Z :=
  let pc := percent a - percent b in
  if flt (lit 1 1000) (of_Z (Z.abs pc)) then - pc else view_id (v_view a) - view_id (v_view b).
(** [visible.sort(visibleSort)] *)
Fixpoint insert_visible (v : Visible) (l : list Visible) : list Visible :=
  match l with
  | [] => [v]
  | u :: l' => if visibleSort v u <=? 0 then v :: l else u :: insert_visible v l'
  end.
Definition sort_visible (l : list Visible) : list Visible := fold_right insert_visible [] l.

Section Visible.
Context (scrollEl : ScrollElement) (horizontal rtl : bool).

Definition s_top : Z := scrollTop scrollEl.
Definition s_bottom : Z := s_top + scrollHeight scrollEl.
Definition s_left : Z := scrollLeft scrollEl.
Definition s_right : Z := s_left + scrollWidth scrollEl.

Definition isElementBottomAfterViewTop (view : option View) : bool :=
  match view with Some v => s_top <? view_bottom v | None => false end.
Definition isElementNextAfterViewHorizontally (view : option View) : bool :=
  match view with
  | Some v => if rtl then view_left v <? s_right else s_left <? view_right v
  | None => false
  end.

(** [(whole - hidden) / whole] *)
Definition fraction (whole hidden : Z) : float := fdiv (of_Z (whole - hidden)) (of_Z whole).

Definition visible_of (v : View) : Visible :=
  let currentWidth := view_left v in
  let currentHeight := view_top v in
  let minY := Z.max 0 (s_top - currentHeight) in
  let minX := Z.max 0 (s_left - currentWidth) in
  let hiddenHeight := minY + Z.max 0 (view_bottom v - s_bottom) in
  let hiddenWidth := minX + Z.max 0 (view_right v - s_right) in
  let fractionHeight := fraction (clientHeight v) hiddenHeight in
  let fractionWidth := fraction (clientWidth v) hiddenWidth in
  let percent := float_int32 (fmul (fmul fractionHeight fractionWidth) (of_Z 100)) in
  mkVisible v
    (if percent =? 100 then None
     else Some (mkArea minX minY (Z.min (view_right v) s_right - currentWidth) (Z.min (view_bottom v) s_bottom - currentHeight)))
    percent (float_int32 (fmul fractionWidth (of_Z 100))).

(** Outside of what is shown. *)
Definition outside (v : View) : bool :=
  (view_bottom v <=? s_top) || (s_bottom <=? view_top v) || (view_right v <=? s_left) || (s_right <=? view_left v).

(** [for (let i = firstVisibleElementInd; i < numViews; i++)] *)
Fixpoint visible_loop (views : list View) (lastEdge : Z) : list Visible :=
  match views with
  | [] => []
  | view :: views =>
      let seen := if outside view then [] else [visible_of view] in
      if lastEdge =? -1 then
        seen ++ visible_loop views (if s_bottom <=? view_bottom view then view_bottom view else lastEdge)
      else if lastEdge <? (if horizontal then view_left view else view_top view) then []
      else seen ++ visible_loop views lastEdge
  end.

Record VisibleElements := mkElements {
  first : option Visible;
  last_el : option Visible;                (** [last] *)
  views_of : list Visible;                 (** [views] *)
  ids : gset Z
}.

Definition getVisibleElements (views : list View) (sortByVisibility : bool) : res VisibleElements :=
  let numViews := len views in
  match binarySearchFirstItem views (if horizontal then isElementNextAfterViewHorizontally else isElementBottomAfterViewTop) 0 with
  | Ok ind =>
      match (if (0 <? ind) && (ind <? numViews) && negb horizontal
             then backtrackBeforeAllVisibleElements ind views s_top else Ok ind) with
      | Ok firstVisibleElementInd =>
          let visible := visible_loop (drop (Z.to_nat firstVisibleElementInd) views) (if horizontal then s_right else -1) in
          Ok (mkElements (head visible) (last visible)
                (if sortByVisibility then sort_visible visible else visible)
                (list_to_set (map (fun v => view_id (v_view v)) visible)))
      | Throw e => Throw e
      | OutOfFuel => OutOfFuel
      end
  | Throw e => Throw e
  | OutOfFuel => OutOfFuel
  end.
End Visible.

(** ** The binary search ends

    On every array, sorted or not; and what it finds has the property, after an
    item that has not. *)

Lemma half_below a b : -1 <= a -> a < b -> b < 2 ^ 30 -> a <= (a + b .>> 1) < b.
Proof.
  intros Ha Hb Hm. unfold js_sar. change (1 mod 32) with 1. rewrite to_int32_small by lia.
  rewrite Z.shiftr_div_pow2 by lia. change (2 ^ 1) with 2. split; [apply Z.div_le_lower_bound|apply Z.div_lt_upper_bound]; lia.
Qed.

Lemma search_loop_ends {A} (items : list A) condition turns lo hi :
  -1 <= lo -> hi < 2 ^ 30 -> (0 < turns)%nat -> hi - lo < Z.of_nat turns ->
  exists i, search_loop items condition turns lo hi = Ok i /\ -1 <= i.
Proof.
  revert lo hi. induction turns as [|turns IH]; intros lo hi Hlo Hhi H0 Ht; [lia|]. cbn [search_loop].
  destruct (Z.ltb_spec lo hi) as [Hlt|Hge]; [|by exists lo].
  pose proof (half_below lo hi Hlo Hlt Hhi) as Hmid. destruct (condition _); apply IH; lia.
Qed.

(** [binarySearchFirstItem] ends on every array, sorted or not. *)
Lemma binarySearch_ends {A} (items : list A) condition start : -1 <= start -> len items < 2 ^ 30 ->
  exists i, binarySearchFirstItem items condition start = Ok i /\ -1 <= i.
Proof.
  intros Hs Hl. unfold binarySearchFirstItem. pose proof (len_nonneg items).
  destruct (_ || _); [exists (len items); split; [done|lia]|]. destruct (condition _); [by exists start|].
  apply search_loop_ends; [done|lia|lia|unfold len; lia].
Qed.

(** What the search promises without any order of the items: an item that has
    the property, after one that has not. *)
Definition found {A} (items : list A) (condition : option A -> bool) (start i : Z) : Prop :=
  start <= i < len items /\ condition (arr_get items i) = true /\
  (i = start \/ condition (arr_get items (i - 1)) = false).

Lemma search_loop_finds {A} (items : list A) condition turns start lo hi :
  0 <= start <= lo -> lo <= hi < len items -> len items < 2 ^ 30 -> hi - lo < Z.of_nat turns ->
  condition (arr_get items hi) = true -> (lo = start \/ condition (arr_get items (lo - 1)) = false) ->
  exists i, search_loop items condition turns lo hi = Ok i /\ found items condition start i.
Proof.
  revert lo hi. induction turns as [|turns IH]; intros lo hi Hs Hlo Hlen Ht Hhi Hbefore; [lia|].
  cbn [search_loop]. destruct (Z.ltb_spec lo hi) as [Hlt|Hge].
  - pose proof (half_below lo hi ltac:(lia) Hlt ltac:(lia)) as Hmid.
    destruct (condition (arr_get items (lo + hi .>> 1))) eqn:E.
    + by apply IH; [lia|lia|done|lia|..].
    + apply IH; [lia|lia|done|lia|done|]. right. by replace (lo + hi .>> 1) with ((lo + hi .>> 1) + 1 - 1) in E by lia.
  - assert (lo = hi) as -> by lia. exists hi. split; [done|]. split_and!; [lia|lia|done|done].
Qed.

Lemma binarySearch_finds {A} (items : list A) condition start :
  0 <= start -> (start < len items \/ items = []) -> len items < 2 ^ 30 ->
  exists i, binarySearchFirstItem items condition start = Ok i /\
    (found items condition start i \/ i = len items /\ (items = [] \/ condition (arr_get items (len items - 1)) = false)).
Proof.
  intros Hs Hlt Hlen. unfold binarySearchFirstItem. destruct Hlt as [Hlt| ->]; [|by exists 0; split; [|right; split; [|left]]].
  rewrite (proj2 (Z.ltb_ge _ _)) by lia. cbn [orb].
  destruct (condition (arr_get items (len items - 1))) eqn:E; cbn [negb]; [|exists (len items); split; [done|right; split; [done|by right]]].
  destruct (condition (arr_get items start)) eqn:E0.
  - exists start. split; [done|]. left. split_and!; [lia|lia|done|by left].
  - destruct (search_loop_finds items condition (S (length items)) start start (len items - 1)) as (i & Hi & Hf);
      [lia|lia|done|unfold len; lia|done|by left|]. exists i. split; [done|by left].
Qed.
