(* ===== verification/VisibleSpec.v ===== *)
(** * All visible pages, and no others

    When the pages are laid out in rows, [getVisibleElements] finds exactly the
    pages that can be seen, unless the last page ends above the others of its
    row. *)
From Stdlib Require Import SpecFloat.
From stdpp Require Import gmap sorting.
From S2P Require Import Prelude Primitives Number64 FloatLaws ViewerUtils.
Local Open Scope js_scope.

(** ** Rows *)

(** The pages from left to right in rows from the top down: the pages of a row
    overlap in height, those of a lower row start below. *)
Definition in_rows (row : nat -> nat) (views : list View) : Prop :=
  forall i j a b, (i <= j)%nat -> views !! i = Some a -> views !! j = Some b ->
  (row i <= row j)%nat /\
  (row i = row j -> view_top b < view_bottom a /\ view_top a < view_bottom b) /\
  ((row i < row j)%nat -> view_bottom a <= view_top b).

(** No page of the last row ends below the last page. *)
Definition last_lowest (row : nat -> nat) (views : list View) : Prop :=
  forall i a b, views !! i = Some a -> last views = Some b -> row i = row (length views - 1)%nat ->
  view_bottom a <= view_bottom b.

Section Rows.
Context (scrollEl : ScrollElement) (rtl : bool) (row : nat -> nat) (views : list View).
Context (Hrows : in_rows row views).
Abbreviation top := (s_top scrollEl).
Abbreviation bottom := (s_bottom scrollEl).
Abbreviation out := (outside scrollEl).

Lemma above_outside v : view_bottom v <= top -> out v = true.
Proof. intros Hv. unfold outside. by rewrite (proj2 (Z.leb_le _ _) Hv). Qed.
Lemma below_outside v : bottom <= view_top v -> out v = true.
Proof. intros Hv. unfold outside. rewrite (proj2 (Z.leb_le _ _) Hv). by rewrite orb_true_r. Qed.

(** All pages before [k] end above the top. *)
Definition nothing_before (k : Z) : Prop :=
  forall j v, views !! j = Some v -> Z.of_nat j < k -> view_bottom v <= top.

Lemma backtrack_loop_stops pageTop i index :
  (i < length views)%nat -> Z.of_nat i < index ->
  exists k, backtrack_loop views pageTop i index = Ok k /\ 0 <= k <= index /\
    (k = 0 \/ exists j v, views !! j = Some v /\ (j <= i)%nat /\ view_bottom v <= pageTop /\
       (k = Z.of_nat j + 1 \/ k = index /\ j = i)).
Proof.
  revert index. induction i as [|i IH]; intros index Hi Hind; cbn [backtrack_loop];
    destruct (lookup_lt_is_Some_2 views _ Hi) as [v Hv]; rewrite Hv; (destruct (Z.leb_spec (view_bottom v) pageTop) as [Hle|Hgt];
      [exists index; split; [done|]; split; [lia|]; right; eexists _, v; split_and!; [done|lia|done|right; done]|]).
  - exists 0. split; [done|]. split; [lia|by left].
  - destruct (IH (Z.of_nat (S i)) ltac:(lia) ltac:(lia)) as (k & E & Hk & Hj). exists k. split; [done|]. split; [lia|].
    destruct Hj as [->|(j & u & Hu & Hji & Hb & Hkj)]; [by left|]. right. exists j, u. split_and!; [done|lia|done|]. left. lia.
Qed.

Lemma backtrack_reaches index v u :
  (2 <= index < length views)%nat -> views !! index = Some v -> top < view_bottom v ->
  views !! (index - 1)%nat = Some u -> view_bottom u <= top ->
  exists k, backtrackBeforeAllVisibleElements (Z.of_nat index) views top = Ok k /\
    0 <= k <= Z.of_nat index /\ nothing_before k.
Proof.
  intros Hi Hv Hvb Hu Hub. unfold backtrackBeforeAllVisibleElements.
  rewrite (proj2 (Z.ltb_ge _ _)) by lia. replace (Z.of_nat index - 1) with (Z.of_nat (index - 1)) by lia.
  rewrite !arr_get_nat, Hv, Hu. replace (Z.to_nat (Z.of_nat index - 2)) with (index - 2)%nat by lia.
  set (pageTop := if top <=? view_top v then view_top u else view_top v).
  destruct (backtrack_loop_stops pageTop (index - 2) (Z.of_nat index)) as (k & E & Hk & Hj); [lia|lia|].
  exists k. split; [done|]. split; [done|]. intros j w Hw Hlt.
  destruct Hj as [->|(m & x & Hx & Hm & Hbx & Hkm)]; [lia|].
  assert (Hjm : (j <= m)%nat \/ j = (index - 1)%nat) by lia.
  destruct Hjm as [Hjm| ->]; [|rewrite Hu in Hw; by injection Hw as <-].
  destruct (Hrows j m w x Hjm Hw Hx) as (Hr & _ & _).
  unfold pageTop in Hbx. destruct (Z.leb_spec top (view_top v)) as [Ht|Ht].
  - destruct (Hrows m (index - 1)%nat x u ltac:(lia) Hx Hu) as (Hr1 & Hr2 & _).
    assert (row m <> row (index - 1)%nat) by (intros Heq; specialize (Hr2 Heq); lia).
    destruct (Hrows j (index - 1)%nat w u ltac:(lia) Hw Hu) as (_ & _ & Hr3). specialize (Hr3 ltac:(lia)).
    destruct (Hrows (index - 1)%nat (index - 1)%nat u u ltac:(lia) Hu Hu) as (_ & Hr4 & _). specialize (Hr4 eq_refl). lia.
  - destruct (Hrows m index x v ltac:(lia) Hx Hv) as (Hr1 & Hr2 & _).
    assert (row m <> row index) by (intros Heq; specialize (Hr2 Heq); lia).
    destruct (Hrows j index w v ltac:(lia) Hw Hv) as (_ & _ & Hr3). specialize (Hr3 ltac:(lia)). lia.
Qed.

(** ** The loop over the pages *)

Definition shown (l : list View) : list Visible := map (visible_of scrollEl) (List.filter (fun v => negb (out v)) l).

Lemma shown_cons v l : shown (v :: l) = (if out v then [] else [visible_of scrollEl v]) ++ shown l.
Proof. unfold shown. cbn [List.filter]. by destruct (out v). Qed.

Lemma shown_outside l : Forall (fun v => out v = true) l -> shown l = [].
Proof. induction 1 as [|v l Hv _ IH]; [done|]. rewrite shown_cons, Hv. exact IH. Qed.

Lemma shown_app l l' : shown (l ++ l') = shown l ++ shown l'.
Proof. unfold shown. by rewrite List.filter_app, map_app. Qed.

Lemma drop_cons_lookup (m : nat) v l : drop m views = v :: l -> views !! m = Some v /\ drop (S m) views = l.
Proof.
  intros E. split.
  - by rewrite <- (Nat.add_0_r m), <- lookup_drop, E.
  - replace (S m) with (m + 1)%nat by lia. by rewrite <- drop_drop, E.
Qed.

(** [lastEdge] is unset, or the end of a page before that ends at the bottom or
    below. *)
Definition edge_ok (m : nat) (lastEdge : Z) : Prop :=
  lastEdge = -1 \/ exists i a, views !! i = Some a /\ (i < m)%nat /\ lastEdge = view_bottom a /\ bottom <= lastEdge.

Lemma visible_loop_shows l m lastEdge : 0 <= bottom -> drop m views = l -> edge_ok m lastEdge ->
  visible_loop scrollEl false l lastEdge = shown l.
Proof.
  intros Hb. revert m lastEdge. induction l as [|v l IH]; intros m lastEdge Hl He; [done|].
  destruct (drop_cons_lookup m v l Hl) as [Hv Hl']. cbn [visible_loop]. rewrite shown_cons.
  assert (Hkeep : edge_ok (S m) lastEdge).
  { destruct He as [->|(i & a & Ha & Hi & E & Hba)]; [by left|]. right. exists i, a. split_and!; [done|lia|done|done]. }
  destruct (Z.eqb_spec lastEdge (-1)) as [->|Hne].
  - f_equal. apply (IH (S m)); [done|]. destruct (Z.leb_spec bottom (view_bottom v)) as [Hvb|Hvb]; [|done].
    right. exists m, v. split_and!; [done|lia|done|done].
  - destruct He as [->|(i & a & Ha & Hi & -> & Hba)]; [done|].
    destruct (Z.ltb_spec (view_bottom a) (view_top v)) as [Hbreak|Hgo]; [|f_equal; by apply (IH (S m))].
    rewrite <- shown_cons. symmetry. apply shown_outside. rewrite <- Hl. apply Forall_forall.
    intros w Hw. apply list_elem_of_lookup in Hw as [j Hj]. rewrite lookup_drop in Hj. apply below_outside.
    destruct (Hrows i m a v ltac:(lia) Ha Hv) as (Hr1 & Hr2 & _).
    assert (row i <> row m) by (intros Heq; specialize (Hr2 Heq); lia).
    destruct (Hrows m (m + j)%nat v w ltac:(lia) Hv Hj) as (Hr3 & _ & _).
    destruct (Hrows i (m + j)%nat a w ltac:(lia) Ha Hj) as (_ & _ & Hr4). specialize (Hr4 ltac:(lia)). lia.
Qed.

Lemma shown_drop k : nothing_before k -> 0 <= k -> shown (drop (Z.to_nat k) views) = shown views.
Proof.
  intros Hk H0. rewrite <- (take_drop (Z.to_nat k) views) at 2. rewrite shown_app.
  rewrite (shown_outside (take _ _)); [done|]. apply Forall_forall. intros v Hv.
  apply list_elem_of_lookup in Hv as [j Hj]. apply lookup_take_Some in Hj as [Hj Hlt].
  apply above_outside, (Hk j); [done|lia].
Qed.

(** The first page the loop starts from. *)
Lemma first_page : len views < 2 ^ 30 -> last_lowest row views ->
  exists ind k, binarySearchFirstItem views (isElementBottomAfterViewTop scrollEl) 0 = Ok ind /\
    (if (0 <? ind) && (ind <? len views) && negb false then backtrackBeforeAllVisibleElements ind views top else Ok ind) = Ok k /\
    0 <= k /\ nothing_before k.
Proof.
  intros Hlen Hlast.
  destruct (binarySearch_finds views (isElementBottomAfterViewTop scrollEl) 0 ltac:(lia)) as (ind & E & Hind);
    [destruct views; [by right|left; rewrite len_cons; pose proof (len_nonneg l); lia]|done|].
  exists ind. destruct Hind as [(Hi & Hc & Hb)|[-> Hend]].
  - destruct (decide (ind = 0)) as [->|Hne].
    { exists 0. split_and!; [done|done|lia|]. intros j v _ Hj. lia. }
    destruct Hb as [|Hb]; [done|]. assert (Hpos : 0 < ind) by lia. rewrite (proj2 (Z.ltb_lt 0 ind)), (proj2 (Z.ltb_lt ind (len views))) by lia. cbn [andb negb].
    rewrite <- (Z2Nat.id ind) in Hc, Hb, Hi |- * by lia. set (n := Z.to_nat ind) in *.
    assert (Hn0 : n <> 0%nat) by (subst n; lia).
    replace (Z.of_nat n - 1) with (Z.of_nat (n - 1)) in Hb by lia. rewrite arr_get_nat in Hc, Hb.
    destruct (views !! n) as [v|] eqn:Hv; [|done]. apply Z.ltb_lt in Hc.
    destruct (views !! (n - 1)%nat) as [u|] eqn:Hu; [|apply lookup_ge_None in Hu; unfold len in Hi; lia].
    apply Z.ltb_ge in Hb. destruct (decide (n = 1%nat)) as [Hn|Hn].
    + exists 1. split_and!; [rewrite E; f_equal; lia|by rewrite Hn|lia|]. intros j w Hw Hj.
      assert (j = (n - 1)%nat) as -> by lia. rewrite Hu in Hw. by injection Hw as <-.
    + destruct (backtrack_reaches n v u ltac:(unfold len in Hi; lia) Hv Hc Hu Hb) as (k & Ek & Hk & Hnb).
      exists k. split_and!; [rewrite E; f_equal; lia|done|lia|done].
  - exists (len views). rewrite (proj2 (Z.ltb_ge (len views) (len views))) by lia. rewrite andb_false_r.
    split_and!; [done|done|apply len_nonneg|]. intros j v Hv _. destruct Hend as [Hnil|Hend]; [by rewrite Hnil in Hv|].
    assert (Hj : (j < length views)%nat) by (by apply lookup_lt_Some in Hv).
    destruct (views !! (length views - 1)%nat) as [w|] eqn:Hw; [|apply lookup_ge_None in Hw; lia].
    replace (len views - 1) with (Z.of_nat (length views - 1)) in Hend by (unfold len; lia).
    rewrite arr_get_nat, Hw in Hend. apply Z.ltb_ge in Hend.
    destruct (Hrows j (length views - 1)%nat v w ltac:(lia) Hv Hw) as (Hr1 & _ & Hr3).
    destruct (decide (row j = row (length views - 1)%nat)) as [Heq|Hne].
    + assert (Hl : last views = Some w) by (rewrite last_lookup; by replace (pred (length views)) with (length views - 1)%nat by lia).
      pose proof (Hlast j v w Hv Hl Heq). lia.
    + specialize (Hr3 ltac:(lia)).
      destruct (Hrows (length views - 1)%nat (length views - 1)%nat w w ltac:(lia) Hw Hw) as (_ & Hr4 & _). specialize (Hr4 eq_refl). lia.
Qed.
End Rows.

(** ** The sort by visibility *)

(** The page with the greater share comes first, of equal ones the page with
    the smaller id. *)
Definition comes_first (a b : Visible) : Prop :=
  percent b < percent a \/ percent a = percent b /\ view_id (v_view a) <= view_id (v_view b).

#[global] Instance comes_first_trans : Transitive comes_first.
Proof. intros a b c. unfold comes_first. lia. Qed.

(** Shares are integers: the comparison with a thousandth asks whether they
    differ at all. *)
Lemma above_thousandth z : 0 <= z < 2 ^ 53 -> flt (lit 1 1000) (of_Z z) = (0 <? z).
Proof.
  intros Hz. destruct z as [|n|n]; [vm_compute; reflexivity| |lia].
  destruct (of_Z_pos n ltac:(lia)) as (_ & E & _). rewrite E.
  replace (lit 1 1000) with (S754_finite false 4611686018427388 (-62)) by (vm_compute; reflexivity).
  unfold flt, SFltb. cbn [SFcompare]. assert (Hc : (-62 ?= Z.pos (digits2_pos n) - 53) = Lt) by (apply Z.compare_lt_iff; lia).
  by rewrite Hc.
Qed.

Definition int32_percent (a : Visible) : Prop := - 2 ^ 31 <= percent a < 2 ^ 31.

Lemma visible_percent scrollEl v : int32_percent (visible_of scrollEl v).
Proof.
  unfold int32_percent, visible_of. cbn [percent]. unfold float_int32. destruct (fmul _ _); try (cbn; lia). apply to_int32_range.
Qed.

Lemma visibleSort_first a b : int32_percent a -> int32_percent b -> (visibleSort a b <=? 0) = true <-> comes_first a b.
Proof.
  intros Ha Hb. unfold int32_percent in *. unfold visibleSort, comes_first. rewrite above_thousandth by lia.
  destruct (Z.ltb_spec 0 (Z.abs (percent a - percent b))); rewrite Z.leb_le; lia.
Qed.

Lemma insert_visible_perm v l : insert_visible v l ≡ₚ v :: l.
Proof.
  induction l as [|u l IH]; [done|]. cbn [insert_visible]. destruct (visibleSort v u <=? 0); [done|].
  rewrite IH. apply Permutation_swap.
Qed.
Lemma sort_visible_perm l : sort_visible l ≡ₚ l.
Proof. induction l as [|v l IH]; [done|]. unfold sort_visible in *. cbn [fold_right]. by rewrite insert_visible_perm, IH. Qed.

Lemma insert_visible_sorted v l : int32_percent v -> Forall int32_percent l -> StronglySorted comes_first l ->
  StronglySorted comes_first (insert_visible v l).
Proof.
  intros Hv. induction l as [|u l IH]; intros Hl Hs; cbn [insert_visible]; [by repeat constructor|].
  apply Forall_cons in Hl as [Hu Hl]. apply StronglySorted_inv in Hs as [Hs Hfirst]. destruct (visibleSort v u <=? 0) eqn:E.
  - apply (visibleSort_first v u Hv Hu) in E. constructor; [by constructor|]. constructor; [done|].
    eapply Forall_impl; [exact Hfirst|]. intros w Hw. by trans u.
  - constructor; [by apply IH|]. rewrite insert_visible_perm. constructor; [|done].
    assert (Hn : ~ comes_first v u) by (rewrite <- (visibleSort_first v u Hv Hu), E; discriminate). unfold comes_first in *. lia.
Qed.

Lemma sort_visible_sorted l : Forall int32_percent l -> StronglySorted comes_first (sort_visible l).
Proof.
  induction 1 as [|v l Hv Hl IH]; [constructor|]. change (sort_visible (v :: l)) with (insert_visible v (sort_visible l)).
  apply insert_visible_sorted; [done| |done]. by rewrite sort_visible_perm.
Qed.

(** C23. When the pages are in rows from the top down and no page of the last row
    ends below the last page, [getVisibleElements] of a vertical view (not of a
    horizontal one) returns, wherever it is scrolled to, exactly the pages that
    can be seen, each with its visible share: in the order of the document or,
    when asked for, sorted, the greatest share first and equal shares by the id.
    For a last page that ends above others see [nothing_below_last_page]. *)
Theorem getVisibleElements_exact (scrollEl : ScrollElement) rtl row views (sortByVisibility : bool) :
  in_rows row views -> last_lowest row views -> len views < 2 ^ 30 ->
  0 <= scrollTop scrollEl -> 0 <= scrollHeight scrollEl ->
  let seen := map (visible_of scrollEl) (List.filter (fun v => negb (outside scrollEl v)) views) in
  exists el, getVisibleElements scrollEl false rtl views sortByVisibility = Ok el /\
    first el = head seen /\ last_el el = last seen /\ views_of el ≡ₚ seen /\
    (if sortByVisibility then StronglySorted comes_first (views_of el) else views_of el = seen) /\
    ids el = list_to_set (map (fun v => view_id (v_view v)) seen).
Proof.
  intros Hrows Hlast Hlen Htop Hheight seen. unfold getVisibleElements.
  destruct (first_page scrollEl row views Hrows Hlen Hlast) as (ind & k & -> & -> & Hk & Hnb).
  rewrite (visible_loop_shows scrollEl row views Hrows _ (Z.to_nat k) (-1)); [|unfold s_bottom, s_top; lia|done|by left].
  rewrite shown_drop by done. eexists. split; [reflexivity|]. cbn [first last_el views_of ids]. split_and!; [done|done| | |done].
  - destruct sortByVisibility; [apply sort_visible_perm|done].
  - destruct sortByVisibility; [|done]. apply sort_visible_sorted, Forall_map, Forall_true. intros v. apply visible_percent.
Qed.

(** A view of 300 by 200 pixels, 180 pixels down. *)
Definition scroll180 : ScrollElement := mkScroll 180 0 300 200.
(** A page with the given height below the given top, left or right. *)
Definition page_at (id left top height : Z) : View := mkView id top left 0 0 100 height.
(** A row with a short page beside a long one, which the search takes for the
    start of the next row. *)
Definition spreads : list View :=
  [page_at 1 0 0 10; page_at 2 100 0 10; page_at 3 0 20 200; page_at 4 100 60 100;
   page_at 5 0 230 200; page_at 6 100 230 200; page_at 7 0 440 50].
Definition spread_row (i : nat) : nat := Nat.div2 i.

Lemma getVisibleElements_exact_witness :
  (len spreads < 2 ^ 30 /\
   map (fun v => view_id (v_view v)) (map (visible_of scroll180) (List.filter (fun v => negb (outside scroll180 v)) spreads)) = [3; 5; 6]) /\
  let seen := map (visible_of scroll180) (List.filter (fun v => negb (outside scroll180 v)) spreads) in
  exists el, getVisibleElements scroll180 false false spreads true = Ok el /\
    first el = head seen /\ last_el el = last seen /\ views_of el ≡ₚ seen /\
    StronglySorted comes_first (views_of el) /\
    ids el = list_to_set (map (fun v => view_id (v_view v)) seen).
Proof.
  split; [split; vm_compute; reflexivity|].
  apply (getVisibleElements_exact scroll180 false spread_row spreads true).
  - intros i j a b Hij Ha Hb. assert (Hj : (j < 7)%nat) by (by apply lookup_lt_Some in Hb).
    do 7 (destruct j as [|j]; [do 7 (destruct i as [|i]; [cbn in Ha, Hb; injection Ha as <-; injection Hb as <-;
      unfold view_bottom, view_top; cbn; lia|]); lia|]).
    lia.
  - intros i a b Ha Hb Hi. injection Hb as <-. assert (Hl : (i < 7)%nat) by (by apply lookup_lt_Some in Ha).
    do 6 (destruct i as [|i]; [discriminate Hi|]). destruct i; [injection Ha as <-; reflexivity|lia].
  - vm_compute. reflexivity.
  - discriminate.
  - discriminate.
Defined.

(** When the last page ends above the top of the view, [getVisibleElements]
    of a vertical view returns no page at all, whatever else can be seen: a
    longer page beside it in the last row is not drawn while the view shows the
    part of it below the last page. *)
Theorem nothing_below_last_page (scrollEl : ScrollElement) rtl views v (sortByVisibility : bool) :
  last views = Some v -> view_bottom v <= scrollTop scrollEl ->
  getVisibleElements scrollEl false rtl views sortByVisibility = Ok (mkElements None None [] ∅).
Proof.
  intros Hl Hv. unfold getVisibleElements.
  assert (E : binarySearchFirstItem views (isElementBottomAfterViewTop scrollEl) 0 = Ok (len views)).
  { unfold binarySearchFirstItem. rewrite last_lookup in Hl. assert (0 < length views)%nat by (by destruct views; [|cbn; lia]).
    replace (len views - 1) with (Z.of_nat (pred (length views))) by (unfold len; lia).
    rewrite arr_get_nat, Hl. cbn [isElementBottomAfterViewTop]. rewrite (proj2 (Z.ltb_ge (s_top scrollEl) (view_bottom v))) by done.
    by rewrite orb_true_r. }
  rewrite E, (proj2 (Z.ltb_ge (len views) (len views))) by lia. rewrite andb_false_r. cbn [andb].
  unfold len. rewrite Nat2Z.id, drop_all. by destruct sortByVisibility.
Qed.

(** A long page and a short one beside the middle of it; the view shows the
    lower part of the long one. *)
Definition long_and_short : list View := [page_at 1 0 0 1000; page_at 2 100 400 200].
Definition scroll700 : ScrollElement := mkScroll 700 0 300 200.

Lemma nothing_below_last_page_witness :
  outside scroll700 (page_at 1 0 0 1000) = false /\
  getVisibleElements scroll700 false false long_and_short true = Ok (mkElements None None [] ∅).
Proof. split; [reflexivity|]. apply (nothing_below_last_page scroll700 false long_and_short (page_at 2 100 400 200) true); [reflexivity|discriminate]. Defined.
