(* ===== verification/PageBuffer.v ===== *)
(** * The buffer of drawn pages

    [PDFPageViewBuffer] of web/viewer.mjs: the pages that keep their canvas, the
    least recently drawn first.  The buffer is a JavaScript [Set], the list of
    its elements in insertion order; a view is given by its identity and its
    [id].  [destroyed] lists the views whose [destroy] was called. *)
From stdpp Require Import gmap.
From S2P Require Import Prelude.
Local Open Scope js_scope.

Section Buffer.
Context {V : Type} `{EqDecision V} (view_id : V -> Z).

Record Buffer := mkBuffer { buf : list V; size : Z; destroyed : list V }.
Definition new_Buffer (size : Z) : Buffer := mkBuffer [] size [].

(** ** The set *)

Definition set_has (l : list V) (v : V) : bool := bool_decide (v ∈ l).
Definition set_delete (l : list V) (v : V) : list V := List.filter (fun u => negb (bool_decide (u = v))) l.
Definition set_add (l : list V) (v : V) : list V := if set_has l v then l else l ++ [v].

(** ** Operations *)

(** [keys().next().value] of an empty set is [undefined]. *)
Definition destroyFirstView (b : Buffer) : Buffer :=
  match buf b with
  | [] => b
  | firstView :: _ => mkBuffer (set_delete (buf b) firstView) (size b) (destroyed b ++ [firstView])
  end.

Definition push (view : V) (b : Buffer) : Buffer :=
  let l := if set_has (buf b) view then set_delete (buf b) view else buf b in
  let b := mkBuffer (set_add l view) (size b) (destroyed b) in
  if size b <? len (buf b) then destroyFirstView b else b.

(** [for (const view of buf)], stopped after [ii] turns: [before] are the elements
    the iterator has passed and that are still there, [rest] those to come. *)
Fixpoint keep_loop (idsToKeep : gset Z) (turns : nat) (before rest : list V) : list V :=
  match turns, rest with
  | S turns, view :: rest =>
      if bool_decide (view_id view ∈ idsToKeep)
      then keep_loop idsToKeep turns before (rest ++ [view])
      else keep_loop idsToKeep turns (before ++ [view]) rest
  | _, _ => before ++ rest
  end.

(** [while (buf.size > this.#size)] *)
Fixpoint shrink (turns : nat) (b : Buffer) : res Buffer :=
  if size b <? len (buf b) then
    match turns with
    | O => OutOfFuel
    | S turns => shrink turns (destroyFirstView b)
    end
  else Ok b.

Definition resize (newSize : Z) (idsToKeep : option (gset Z)) (b : Buffer) : res Buffer :=
  let l :=
    match idsToKeep with
    | Some ids => keep_loop ids (length (buf b)) [] (buf b)
    | None => buf b
    end in
  shrink (length l) (mkBuffer l newSize (destroyed b)).

Definition has (view : V) (b : Buffer) : bool := set_has (buf b) view.

(** ** Lemmas *)

Lemma set_delete_absent l v : v ∉ l -> set_delete l v = l.
Proof.
  induction l as [|u l IH]; intros Hv; [done|]. rewrite not_elem_of_cons in Hv. cbn [set_delete List.filter].
  rewrite bool_decide_eq_false_2 by (intros ->; by destruct Hv). cbn [negb]. f_equal. by apply IH, Hv.
Qed.

Lemma set_delete_head v l : NoDup (v :: l) -> set_delete (v :: l) v = l.
Proof.
  intros Hn. apply NoDup_cons in Hn as [Hv _]. cbn [set_delete List.filter]. rewrite bool_decide_eq_true_2 by done.
  by apply set_delete_absent.
Qed.

Lemma elem_set_delete l v u : u ∈ set_delete l v <-> u ∈ l /\ u <> v.
Proof.
  unfold set_delete. rewrite !list_elem_of_In, filter_In. case_bool_decide; cbn; intuition congruence.
Qed.

Lemma NoDup_set_delete l v : NoDup l -> NoDup (set_delete l v).
Proof.
  induction 1 as [|u l Hu Hn IH]; [constructor|]. cbn [set_delete List.filter].
  case_bool_decide; cbn [negb]; [done|]. constructor; [|done]. intros Hin. by apply elem_set_delete in Hin as [Hin _].
Qed.

(** A buffer without double elements, not longer than its size. *)
Definition buffer_ok (b : Buffer) : Prop := NoDup (buf b) /\ len (buf b) <= size b.

Lemma push_list b v : NoDup (buf b) ->
  set_add (if set_has (buf b) v then set_delete (buf b) v else buf b) v = set_delete (buf b) v ++ [v].
Proof.
  intros Hn. unfold set_add, set_has. destruct (decide (v ∈ buf b)) as [Hv|Hv].
  - rewrite (bool_decide_eq_true_2 (v ∈ buf b)) by done. rewrite bool_decide_eq_false_2; [done|].
    rewrite elem_set_delete. tauto.
  - rewrite (bool_decide_eq_false_2 (v ∈ buf b)) by done. rewrite bool_decide_eq_false_2 by done.
    by rewrite set_delete_absent.
Qed.

Lemma length_set_delete l v : NoDup l -> v ∈ l -> length (set_delete l v) = (length l - 1)%nat.
Proof.
  induction 1 as [|u l Hu Hn IH]; intros Hv; [by apply elem_of_nil in Hv|]. cbn [set_delete List.filter].
  apply elem_of_cons in Hv as [->|Hv].
  - rewrite bool_decide_eq_true_2 by done. cbn [negb]. change (List.filter _ l) with (set_delete l u).
    rewrite set_delete_absent by done. cbn. lia.
  - rewrite bool_decide_eq_false_2 by congruence. cbn [negb length]. change (List.filter _ l) with (set_delete l v).
    rewrite IH by done. destruct l; [by apply elem_of_nil in Hv|cbn; lia].
Qed.

(** [push] keeps the buffer, whose last element is the view pushed; only when the
    view is new and the buffer full its first element is destroyed. *)
Lemma push_ok v b : buffer_ok b -> 1 <= size b ->
  buffer_ok (push v b) /\ size (push v b) = size b /\ has v (push v b) = true /\
  (has v b = true \/ len (buf b) < size b ->
     buf (push v b) = set_delete (buf b) v ++ [v] /\ destroyed (push v b) = destroyed b) /\
  (has v b = false -> len (buf b) = size b ->
     buf (push v b) = drop 1 (buf b) ++ [v] /\ destroyed (push v b) = destroyed b ++ take 1 (buf b)).
Proof.
  intros [Hn Hlen] Hs. unfold push, has. rewrite push_list by done. cbn [buf size destroyed].
  assert (Hn' : NoDup (set_delete (buf b) v ++ [v])).
  { apply NoDup_app. split_and!; [by apply NoDup_set_delete| |apply NoDup_singleton].
    intros u Hu ->%list_elem_of_singleton. apply elem_set_delete in Hu as [_ Hu]. done. }
  assert (Hin : forall l, set_has (l ++ [v]) v = true).
  { intros l. apply bool_decide_eq_true_2. apply elem_of_app. right. by apply list_elem_of_singleton. }
  rewrite len_app. change (len [v]) with 1. unfold set_has at 2 3. case_bool_decide as Hv.
  - pose proof (length_set_delete (buf b) v Hn Hv) as Hl. assert (0 < length (buf b))%nat by (destruct (buf b); [by apply elem_of_nil in Hv|cbn; lia]).
    unfold len in *. rewrite (proj2 (Z.ltb_ge _ _)) by lia. cbn [buf size destroyed].
    split; [split; [done|unfold len; cbn [buf size]; rewrite length_app, Hl; cbn; lia]|]. by split_and!.
  - rewrite set_delete_absent in * by done. destruct (Z.ltb_spec (size b) (len (buf b) + 1)) as [Hfull|Hroom].
    + unfold destroyFirstView. cbn [buf]. destruct (buf b) as [|u l] eqn:E; [rewrite len_nil in Hfull; lia|].
      cbn [app]. cbn [app] in Hn'. rewrite (set_delete_head u (l ++ [v]) Hn'). cbn [buf size destroyed drop take].
      apply NoDup_cons in Hn' as [_ Hn']. rewrite len_cons in *.
      split; [split; [done|cbn [buf size]; rewrite len_app; change (len [v]) with 1; lia]|].
      split_and!; [done|apply Hin|intros [|]; [done|lia]|done].
    + cbn [buf size destroyed]. split; [split; [done|cbn [buf size]; rewrite len_app; change (len [v]) with 1; lia]|].
      split_and!; [done|apply Hin|done|lia].
Qed.

Lemma keep_loop_spec ids l : forall before after,
  keep_loop ids (length l) before (l ++ after) =
  before ++ List.filter (fun v => negb (bool_decide (view_id v ∈ ids))) l ++ after ++
  List.filter (fun v => bool_decide (view_id v ∈ ids)) l.
Proof.
  induction l as [|v l IH]; intros before after; [cbn [length keep_loop List.filter app]; by rewrite app_nil_r|].
  cbn [length keep_loop app List.filter]. case_bool_decide; cbn [negb].
  - rewrite <- app_assoc, IH. by rewrite <- !app_assoc.
  - rewrite IH. by rewrite <- !app_assoc.
Qed.

Lemma shrink_spec turns b : NoDup (buf b) -> 0 <= size b -> (length (buf b) <= turns)%nat ->
  let k := Z.to_nat (len (buf b) - size b) in
  shrink turns b = Ok (mkBuffer (drop k (buf b)) (size b) (destroyed b ++ take k (buf b))).
Proof.
  revert b. induction turns as [|turns IH]; intros b Hn Hs Ht k.
  - destruct (buf b) as [|] eqn:E; [|cbn in Ht; lia]. cbn [shrink]. rewrite E, len_nil.
    rewrite (proj2 (Z.ltb_ge _ _)) by lia. subst k. rewrite drop_nil, take_nil, app_nil_r. by destruct b; cbn in *; subst.
  - cbn [shrink]. destruct (Z.ltb_spec (size b) (len (buf b))) as [Hlt|Hge].
    + unfold destroyFirstView. destruct (buf b) as [|v l] eqn:E; [rewrite len_nil in Hlt; lia|].
      rewrite set_delete_head by done. apply NoDup_cons in Hn as [_ Hn]. rewrite IH by (cbn in *; done || lia).
      cbn [buf size destroyed]. subst k. rewrite len_cons in Hlt |- *.
      replace (Z.to_nat (len l + 1 - size b)) with (S (Z.to_nat (len l - size b))) by lia.
      cbn [drop take]. by rewrite <- app_assoc.
    + subst k. replace (Z.to_nat (len (buf b) - size b)) with 0%nat by lia. cbn [drop take].
      rewrite app_nil_r. by destruct b.
Qed.

(** The views to keep come last, so that the others go first. *)
Definition kept_last (ids : gset Z) (l : list V) : list V :=
  List.filter (fun v => negb (bool_decide (view_id v ∈ ids))) l ++ List.filter (fun v => bool_decide (view_id v ∈ ids)) l.

Lemma kept_last_perm ids l : kept_last ids l ≡ₚ l.
Proof.
  unfold kept_last. induction l as [|v l IH]; [done|]. cbn [List.filter]. case_bool_decide; cbn [negb app].
  - rewrite <- Permutation_middle. by constructor.
  - by constructor.
Qed.

Lemma keep_loop_all ids l : keep_loop ids (length l) [] l = kept_last ids l.
Proof.
  pose proof (keep_loop_spec ids l [] []) as E. by rewrite app_nil_r in E.
Qed.

Lemma resize_spec newSize ids b : NoDup (buf b) -> 0 <= newSize ->
  let l := kept_last ids (buf b) in
  let k := Z.to_nat (len l - newSize) in
  resize newSize (Some ids) b = Ok (mkBuffer (drop k l) newSize (destroyed b ++ take k l)).
Proof.
  intros Hn Hs l k. unfold resize. rewrite keep_loop_all. fold l.
  assert (Hnl : NoDup l) by (unfold l; by rewrite kept_last_perm).
  by rewrite (shrink_spec (length l) (mkBuffer l newSize (destroyed b))).
Qed.

(** C36. [resize] ends for every size that is not negative, with a buffer of at
    most that many of its views, in the order they were drawn but for the views
    to keep, which come last; a view to keep is destroyed only when more views are
    to be kept than the buffer may hold, and the views that go, the first ones of
    this order, are each destroyed once. *)
Theorem resize_keeps newSize ids b : NoDup (buf b) -> 0 <= newSize ->
  exists b', resize newSize (Some ids) b = Ok b' /\ buffer_ok b' /\
    (exists gone, destroyed b' = destroyed b ++ gone /\
       gone ++ buf b' = List.filter (fun v => negb (bool_decide (view_id v ∈ ids))) (buf b) ++ List.filter (fun v => bool_decide (view_id v ∈ ids)) (buf b)) /\
    (len (buf b) <= newSize -> destroyed b' = destroyed b) /\
    (len (List.filter (fun v => bool_decide (view_id v ∈ ids)) (buf b)) <= newSize ->
     forall v, v ∈ buf b -> view_id v ∈ ids -> has v b' = true).
Proof.
  intros Hn Hs. rewrite resize_spec by done. set (l := kept_last ids (buf b)). set (k := Z.to_nat (len l - newSize)).
  assert (Hnl : NoDup l) by (unfold l; by rewrite kept_last_perm).
  eexists. split; [reflexivity|]. cbn [buf size destroyed]. split_and!.
  - split; cbn [buf size]; [by apply (NoDup_app (take k l)); rewrite take_drop|]. unfold len. rewrite length_drop. unfold len in k. lia.
  - exists (take k l). split; [done|]. by rewrite take_drop.
  - intros Hfit. assert (Hl : length l = length (buf b)) by (unfold l; by rewrite kept_last_perm).
    replace k with 0%nat by (unfold k, len in *; lia). by rewrite take_0, app_nil_r.
  - intros Hfit v Hv Hid. unfold has, set_has. cbn [buf]. apply bool_decide_eq_true_2.
    set (u := List.filter (fun v => negb (bool_decide (view_id v ∈ ids))) (buf b)) in *.
    set (w := List.filter (fun v => bool_decide (view_id v ∈ ids)) (buf b)) in *.
    assert (Hw : v ∈ w). { apply list_elem_of_In, filter_In. split; [by apply list_elem_of_In|by apply bool_decide_eq_true_2]. }
    change l with (u ++ w). rewrite drop_app_le; [|unfold k; change l with (u ++ w); rewrite len_app; unfold len in *; lia].
    apply elem_of_app. by right.
Qed.
End Buffer.
Arguments Buffer : clear implicits.

(** Pages 1 to 5 are in the buffer, in this order; pages 1 and 2 are on the
    screen. *)
Definition five : Buffer Z := mkBuffer [1; 2; 3; 4; 5] 10 [].

Lemma resize_keeps_witness :
  resize (fun n => n) 3 (Some {[1; 2]}) five = Ok (mkBuffer [5; 1; 2] 3 [3; 4]) /\
  exists b', resize (fun n => n) 3 (Some {[1; 2]}) five = Ok b' /\ buffer_ok b' /\
    (exists gone, destroyed b' = destroyed five ++ gone /\ gone ++ buf b' =
       List.filter (fun v => negb (bool_decide (v ∈ ({[1; 2]} : gset Z)))) (buf five) ++ List.filter (fun v => bool_decide (v ∈ ({[1; 2]} : gset Z))) (buf five)) /\
    (len (buf five) <= 3 -> destroyed b' = destroyed five) /\
    (len (List.filter (fun v => bool_decide (v ∈ ({[1; 2]} : gset Z))) (buf five)) <= 3 ->
     forall v, v ∈ buf five -> v ∈ ({[1; 2]} : gset Z) -> has v b' = true).
Proof.
  split; [vm_compute; reflexivity|]. apply (resize_keeps (fun n => n) 3 {[1; 2]} five); [|discriminate].
  repeat (constructor; [rewrite ?elem_of_cons, elem_of_nil; lia|]). constructor.
Defined.
