(* ===== verification/FindQuery.v ===== *)
(** * From a query to the matches of a page

    The text part of [PDFFindController] of web/viewer.mjs: a query becomes the
    source of a regular expression, the expression is run over the text of a
    page, and the matches are led back from the normalized text to the text of
    the page.  The engine of regular expressions, the character classes of
    Unicode and the segmentation of words are those of the platform: [Engine]. *)
From S2P Require Import Prelude Primitives Lexer Number64 ViewerUtils.
Local Open Scope js_scope.

(** What the platform gives; a character is one code point, as its code units. *)
Record Engine := mkEngine {
  is_punctuation : jstr -> bool;           (** [\p{P}] *)
  is_mark : jstr -> bool;                  (** [\p{M}] *)
  is_letter : jstr -> bool;                (** [\p{L}] *)
  (** [new RegExp(pattern, flags).exec(content)] from [lastIndex] on: the index
      and the length of the match. *)
  exec : jstr -> jstr -> jstr -> Z -> option (Z * Z);
  isWordBreakAt : jstr -> Z -> bool
}.

(** ** The expression *)

(** The characters of a string. *)
Definition high_surrogate (c : Z) : bool := (0xd800 <=? c) && (c <? 0xdc00).
Definition low_surrogate (c : Z) : bool := (0xdc00 <=? c) && (c <? 0xe000).
Fixpoint chars (s : jstr) : list jstr :=
  match s with
  | [] => []
  | c :: s =>
      match s with
      | d :: s' => if high_surrogate c && low_surrogate d then [c; d] :: chars s' else [c] :: chars s
      | [] => [[c]]
      end
  end.

Fixpoint span {A} (p : A -> bool) (l : list A) : list A * list A :=
  match l with
  | x :: l' => if p x then let '(a, b) := span p l' in (x :: a, b) else ([], l)
  | [] => ([], [])
  end.

Definition starts_with (s prefix : jstr) : bool := bool_decide (take (length prefix) s = prefix).
Definition ends_with (s suffix : jstr) : bool := bool_decide (drop (length s - length suffix) s = suffix).

(** [RegExp.escape] of one code unit, not the first of the string. *)
Definition escape_unit (c : Z) : jstr :=
  if bool_decide (c ∈ js "^$\.*+?()[]{}|/") then [0x5c; c]
  else if c =? 0x09 then js "\t" else if c =? 0x0a then js "\n" else if c =? 0x0b then js "\v"
  else if c =? 0x0c then js "\f" else if c =? 0x0d then js "\r"
  else if bool_decide (c ∈ js ",-=<>#&!%:;@~'`" ++ [0x22]) || is_space c || high_surrogate c || low_surrogate c then
    if c <? 0x100 then js "\x" ++ hex2 c
    else [0x5c; 0x75] ++ replicate (4 - length (hex_units c)) 0x30 ++ hex_units c
  else [c].
(** The surrogates of a pair stay. *)
Definition escape_char (c : jstr) : jstr := match c with [u] => escape_unit u | _ => c end.
Definition regexp_escape (s : list jstr) : jstr :=
  match s with
  | [u] :: s' =>
      (if is_digit u || bool_decide (10 <= digit_value u < 36) then js "\x" ++ hex2 u else escape_unit u)
      ++ concat (map escape_char s')
  | _ => concat (map escape_char s)
  end.

Definition DIACRITICS_EXCEPTION : list Z :=
  [0x3099; 0x309a; 0x094d; 0x09cd; 0x0a4d; 0x0acd; 0x0b4d; 0x0bcd; 0x0c4d; 0x0ccd; 0x0d3b; 0x0d3c; 0x0d4d; 0x0dca;
   0x0e3a; 0x0eba; 0x0f84; 0x1039; 0x103a; 0x1714; 0x1734; 0x17d2; 0x1a60; 0x1b44; 0x1baa; 0x1bab; 0x1bf2; 0x1bf3;
   0x2d7f; 0xa806; 0xa82c; 0xa8c4; 0xa953; 0xa9c0; 0xaaf6; 0xabed; 0x0c56; 0x0f71; 0x0f72; 0x0f7a; 0x0f7b; 0x0f7c;
   0x0f7d; 0x0f80; 0x0f74].

(** The options of a search. *)
Record Options := mkOptions { caseSensitive : bool; entireWord : bool; matchDiacritics : bool }.

Section Match.
Context (e : Engine).

Section Convert.
Context (options : Options) (hasDiacritics : bool) (query : jstr).

Definition addExtraWhitespaces (original fixed : jstr) : jstr :=
  if bool_decide (original = query) then fixed
  else if starts_with query original then fixed ++ js "[ ]*"
  else if ends_with query original then js "[ ]*" ++ fixed
  else js "[ ]*" ++ fixed ++ js "[ ]*".

(** [replaceAll(SPECIAL_CHARS_REG_EXP, ...)]: whether the expression needs the
    flag [u], and its source. *)
Fixpoint replace_special (turns : nat) (s : list jstr) : bool * jstr :=
  match turns, s with
  | S turns, c :: s' =>
      if bool_decide (c ∈ [js "+"; js "^"; js "$"; js "|"]) then
        let '(u, r) := replace_special turns s' in (u, addExtraWhitespaces c (regexp_escape [c]) ++ r)
      else if is_punctuation e c then
        let '(p, s') := span (is_punctuation e) s in
        let '(u, r) := replace_special turns s' in (u, addExtraWhitespaces (concat p) (regexp_escape p) ++ r)
      else if forallb is_space c then
        let '(_, s') := span (forallb is_space) s in
        let '(u, r) := replace_special turns s' in (u, js "[ ]+" ++ r)
      else
        let '(u, r) := replace_special turns s' in
        if is_mark e c then
          if matchDiacritics options then (u, c ++ r)
          else (u, (if bool_decide (head c ∈ map Some DIACRITICS_EXCEPTION) then c else []) ++ r)
        else if is_letter e c then
          if matchDiacritics options then (u, c ++ r)
          else if hasDiacritics then (true, c ++ js "\p{M}*" ++ r)
          else (u, c ++ r)
        else (u, c ++ r)
  | _, _ => (false, [])
  end.

Definition trailingSpaces : jstr := js "[ ]*".

Definition convertToRegExpString : bool * jstr :=
  let '(isUnicode, q) := replace_special (length query) (chars query) in
  let q := if ends_with q trailingSpaces then take (length q - length trailingSpaces) q else q in
  if matchDiacritics options && hasDiacritics
  then (true, q ++ js "(?=[" ++ DIACRITICS_EXCEPTION ++ js "]|[^\p{M}]|$)")
  else (isUnicode, q).
End Convert.

(** ** Matching *)

(** The query after [normalize]: one text, or the texts that are not empty. *)
Inductive Query := Text (s : jstr) | Words (l : list jstr).

(** [a < b] of strings. *)
Fixpoint str_ltb (a b : jstr) : bool :=
  match a, b with
  | [], _ :: _ => true
  | x :: a, y :: b => if x =? y then str_ltb a b else x <? y
  | _, [] => false
  end.
(** [l.sort().reverse()] *)
Fixpoint insert_word (w : jstr) (l : list jstr) : list jstr :=
  match l with
  | [] => [w]
  | v :: l' => if str_ltb v w then w :: l else v :: insert_word w l'
  end.
Definition sort_reverse (l : list jstr) : list jstr := fold_right insert_word [] l.

Fixpoint join (sep : jstr) (l : list jstr) : jstr :=
  match l with
  | [] => []
  | [s] => s
  | s :: l => s ++ sep ++ join sep l
  end.

Definition isEntireWord (content : jstr) (startIdx length : Z) : bool :=
  let endIdx := startIdx + length in
  ((startIdx =? 0) || isWordBreakAt e content startIdx) && ((endIdx =? len content) || isWordBreakAt e content endIdx).

(** The source of the expression, and whether it needs the flag [u]. *)
Definition pattern_of (options : Options) (query : Query) (hasDiacritics : bool) : bool * jstr :=
  match query with
  | Text s => convertToRegExpString options hasDiacritics s
  | Words l =>
      let parts := map (convertToRegExpString options hasDiacritics) (sort_reverse l) in
      (existsb fst parts, join (js "|") (map (fun p => js "(" ++ snd p ++ js ")") parts))
  end.

Definition flags_of (options : Options) (isUnicode : bool) : jstr :=
  js "g" ++ (if isUnicode then js "u" else []) ++ (if caseSensitive options then [] else js "i").

(** [while ((match = query.exec(pageContent)) !== null)]: after a match
    [lastIndex] is its end. *)
Fixpoint exec_loop (turns : nat) (pattern flags pageContent : jstr) (entire : bool) (lastIndex : Z) : res (list (Z * Z)) :=
  match exec e pattern flags pageContent lastIndex with
  | None => Ok []
  | Some (index, length) =>
      match turns with
      | O => OutOfFuel
      | S turns =>
          match exec_loop turns pattern flags pageContent entire (index + length) with
          | Ok l => Ok (if entire && negb (isEntireWord pageContent index length) then l else (index, length) :: l)
          | r => r
          end
      end
  end.

(** [match(query, pageContent, pageIndex)]; an empty expression is not run.  A text
    has no more matches than characters, when none is empty. *)
Definition match_query (options : Options) (query : Query) (pageContent : jstr) (hasDiacritics : bool)
    : res (list (Z * Z)) :=
  let '(isUnicode, pattern) := pattern_of options query hasDiacritics in
  match pattern with
  | [] => Ok []
  | _ => exec_loop (S (length pageContent)) pattern (flags_of options isUnicode) pageContent (entireWord options) 0
  end.

(** ** Back to the text of the page *)

(** [_pageContents[i]], [_pageDiffs[i]] and [_hasDiacritics[i]]. *)
Record PageText := mkText { content : jstr; diffs : option (list Z * list Z); hasDiacritics : bool }.

Definition getOriginalIndex (diffs : option (list Z * list Z)) (pos len : Z) : res (jsnum * jsnum) :=
  match diffs with
  | None => Ok (Some pos, Some len)
  | Some (starts, shifts) =>
      let start := pos in
      let end_ := pos + len - 1 in
      match binarySearchFirstItem starts (fun x => jn_le (Some start) x) 0 with
      | Ok i =>
          let i := if jn_lt (Some start) (arr_get starts i) then i - 1 else i in
          match binarySearchFirstItem starts (fun x => jn_le (Some end_) x) i with
          | Ok j =>
              let j := if jn_lt (Some end_) (arr_get starts j) then j - 1 else j in
              let oldStart := jn_add (Some start) (arr_get shifts i) in
              let oldEnd := jn_add (Some end_) (arr_get shifts j) in
              Ok (oldStart, jn_sub (jn_add oldEnd (Some 1)) oldStart)
          | Throw ex => Throw ex
          | OutOfFuel => OutOfFuel
          end
      | Throw ex => Throw ex
      | OutOfFuel => OutOfFuel
      end
  end.

(** The matches that [#calculateMatch] keeps, as positions and lengths. *)
Fixpoint original_matches (diffs : option (list Z * list Z)) (l : list (Z * Z)) : res (list (Z * Z)) :=
  match l with
  | [] => Ok []
  | (index, length) :: l =>
      match getOriginalIndex diffs index length, original_matches diffs l with
      | Ok (Some matchPos, Some matchLen), Ok r => Ok (if matchLen =? 0 then r else (matchPos, matchLen) :: r)
      | Ok _, Ok r => Ok r
      | Ok _, r => r
      | Throw ex, _ => Throw ex
      | OutOfFuel, _ => OutOfFuel
      end
  end.

Definition page_matches (options : Options) (query : Query) (text : PageText) : res (list (Z * Z)) :=
  match match_query options query (content text) (hasDiacritics text) with
  | Ok l => original_matches (diffs text) l
  | r => r
  end.
End Match.
