(* ===== verification/FindQuerySpec.v ===== *)
(** * The matches of a page

    The loop over the matches ends when no match is empty, and then gives them in
    the order of the text without overlap; with an expression that matches nothing
    it never ends. *)
From S2P Require Import Prelude Primitives ViewerUtils FindQuery.
Local Open Scope js_scope.

(** ** Back to the text of the page *)

(** Diffs of an array of a length that a page can have. *)
Definition text_ok (t : PageText) : Prop := match diffs t with Some (starts, _) => len starts < 2 ^ 30 | None => True end.

Lemma getOriginalIndex_ends d pos n : match d with Some (starts, _) => len starts < 2 ^ 30 | None => True end ->
  exists r, getOriginalIndex d pos n = Ok r.
Proof.
  intros Hd. unfold getOriginalIndex. destruct d as [[starts shifts]|]; [|by eexists].
  destruct (binarySearch_ends starts (fun x => jn_le (Some pos) x) 0 ltac:(lia) Hd) as (i & E & Hi). rewrite E.
  set (i' := if jn_lt (Some pos) (arr_get starts i) then i - 1 else i).
  assert (Hi' : -1 <= i').
  { unfold i'. destruct (decide (i = -1)) as [->|]; [done|]. destruct (jn_lt _ _); lia. }
  destruct (binarySearch_ends starts (fun x => jn_le (Some (pos + n - 1)) x) i' Hi' Hd) as (j & Ej & _). rewrite Ej. by eexists.
Qed.

Lemma original_matches_ends d l : match d with Some (starts, _) => len starts < 2 ^ 30 | None => True end ->
  exists r, original_matches d l = Ok r.
Proof.
  intros Hd. induction l as [|[index n] l (r & IH)]; [by eexists|]. cbn [original_matches].
  destruct (getOriginalIndex_ends d index n Hd) as ([[a|] [b|]] & E); rewrite E, IH; [destruct (b =? 0)|..]; by eexists.
Qed.

(** ** The loop over the matches *)

(** What the language says of [exec] with the flag [g]: a match begins at
    [lastIndex] or behind it and ends inside the text; it may be empty. *)
Definition engine_ok (e : Engine) : Prop := forall pattern flags text k i n, 0 <= k ->
  exec e pattern flags text k = Some (i, n) -> k <= i /\ 0 <= n /\ i + n <= len text.

(** A query whose expression, as [convertToRegExpString] builds it, has no empty
    match in any text.  Others exist: see [empty_word_never_ends]. *)
Definition no_empty_match (e : Engine) (options : Options) (query : Query) : Prop :=
  forall hasDiacritics text k i n, 0 <= k ->
  let '(isUnicode, pattern) := pattern_of e options query hasDiacritics in
  pattern <> [] -> exec e pattern (flags_of options isUnicode) text k = Some (i, n) -> 0 < n.

(** Matches from [k] on, one after the other. *)
Fixpoint in_order (k size : Z) (l : list (Z * Z)) : Prop :=
  match l with
  | [] => True
  | (i, n) :: l => k <= i /\ 0 < n /\ i + n <= size /\ in_order (i + n) size l
  end.

Lemma in_order_from k k' size l : in_order k size l -> k' <= k -> in_order k' size l.
Proof. destruct l as [|[i n] l]; [done|]. cbn. intuition lia. Qed.

Section Match.
Context (e : Engine).

Lemma exec_loop_in_order turns pattern flags text entire k : engine_ok e ->
  (forall k i n, 0 <= k -> exec e pattern flags text k = Some (i, n) -> 0 < n) -> 0 <= k -> len text - k <= Z.of_nat turns ->
  exists l, exec_loop e turns pattern flags text entire k = Ok l /\ in_order k (len text) l.
Proof.
  intros He Hne. revert k. induction turns as [|turns IH]; intros k Hk Ht; cbn [exec_loop];
    destruct (exec e pattern flags text k) as [[i n]|] eqn:E; try (by exists []); destruct (He _ _ _ _ _ _ Hk E) as (Hi & _ & Hin);
    pose proof (Hne _ _ _ Hk E) as Hn; [lia|].
  destruct (IH (i + n) ltac:(lia) ltac:(lia)) as (l & El & Hl). rewrite El. eexists. split; [reflexivity|].
  destruct (_ && _); [apply (in_order_from (i + n)); [done|lia]|by cbn].
Qed.

Lemma match_query_in_order options query text hasDiacritics : engine_ok e -> no_empty_match e options query ->
  exists l, match_query e options query text hasDiacritics = Ok l /\ in_order 0 (len text) l.
Proof.
  intros He Hne. specialize (Hne hasDiacritics text). unfold match_query.
  destruct (pattern_of e options query hasDiacritics) as [u [|c p]]; [by exists []|].
  apply exec_loop_in_order; [done|intros k i n Hk; by apply (Hne k i n Hk)|lia|unfold len; lia].
Qed.

Lemma page_matches_ends options query t : engine_ok e -> no_empty_match e options query -> text_ok t ->
  exists l, page_matches e options query t = Ok l.
Proof.
  intros He Hne Ht. unfold page_matches. destruct (match_query_in_order options query (content t) (hasDiacritics t) He Hne) as (l & -> & _).
  by apply original_matches_ends.
Qed.

Lemma exec_empty_loops turns pattern flags text entire k :
  exec e pattern flags text k = Some (k, 0) -> exec_loop e turns pattern flags text entire k = OutOfFuel.
Proof.
  intros E. induction turns as [|turns IH]; cbn [exec_loop]; rewrite E; [done|]. by rewrite Z.add_0_r, IH.
Qed.
End Match.

Lemma in_order_original k size l : in_order k size l -> original_matches None l = Ok l.
Proof.
  revert k. induction l as [|[i n] l IH]; intros k Hl; [done|]. destruct Hl as (_ & Hn & _ & Hl).
  cbn [original_matches getOriginalIndex]. rewrite (IH _ Hl). by rewrite (proj2 (Z.eqb_neq n 0)) by lia.
Qed.

(** The diffs of a normalized text of length [size]: the starts of its pieces, in
    order from 0 on; only the end of the text can be there twice. *)
Definition diffs_ok (starts : list Z) (size : Z) : Prop :=
  len starts < 2 ^ 30 /\ arr_get starts 0 = Some 0 /\ arr_get starts (len starts - 1) = Some size /\
  (forall i j a b, i < j -> arr_get starts i = Some a -> arr_get starts j = Some b -> a < b \/ a = size /\ b = size).

(** The shift of the last piece that starts before or at a position. *)
Fixpoint shift_at (starts shifts : list Z) (x : Z) (shift : jsnum) : jsnum :=
  match starts, shifts with
  | s :: starts, h :: shifts => if s <=? x then shift_at starts shifts x (Some h) else shift
  | _, _ => shift
  end.

(** The [i]th piece is the one of [x]. *)
Definition in_piece (starts : list Z) (i x : Z) : Prop :=
  exists a, arr_get starts i = Some a /\ a <= x /\ forall j b, i < j -> arr_get starts j = Some b -> x < b.

Lemma arr_get_tail {A} (x : A) l i : 0 <= i -> arr_get (x :: l) (i + 1) = arr_get l i.
Proof.
  intros Hi. change (x :: l) with ([x] ++ l). rewrite arr_get_app_r by (change (len [x]) with 1; lia). f_equal.
  change (len [x]) with 1. lia.
Qed.

Lemma shift_at_piece starts shifts i x d : length starts = length shifts -> in_piece starts i x ->
  (forall j b, 0 <= j <= i -> arr_get starts j = Some b -> b <= x) -> shift_at starts shifts x d = arr_get shifts i.
Proof.
  intros Hl (a & Ha & Hax & Hlater) Hbefore. assert (Hi : exists k, i = Z.of_nat k).
  { unfold arr_get in Ha. destruct (Z.ltb_spec i 0) as [|Hi]; [done|]. exists (Z.to_nat i). lia. }
  destruct Hi as [k ->]. rewrite arr_get_nat in Ha. rewrite arr_get_nat. revert k shifts d Hl Hlater Hbefore Ha.
  induction starts as [|s starts IH]; intros i [|h shifts] d Hl Hlater Hbefore Ha; try done. cbn [shift_at].
  assert (Hs : s <= x) by (apply (Hbefore 0); [lia|done]). rewrite (proj2 (Z.leb_le _ _) Hs). destruct i as [|i]; cbn in *.
  - clear IH. destruct starts as [|s' starts]; [by destruct shifts|]. destruct shifts as [|h' shifts]; [done|]. cbn [shift_at].
    by rewrite (proj2 (Z.leb_gt _ _)) by (apply (Hlater 1); [lia|done]).
  - apply IH; [lia| | |done].
    + intros j b Hj Hb. apply (Hlater (j + 1)); [lia|]. by rewrite arr_get_tail by lia.
    + intros j b Hj Hb. apply (Hbefore (j + 1)); [lia|]. by rewrite arr_get_tail by lia.
Qed.

(** The search for the piece of a position, from the piece of one before it. *)
Lemma piece_found starts size x k a : diffs_ok starts size -> arr_get starts k = Some a -> a <= x < size ->
  exists i0, binarySearchFirstItem starts (fun y => jn_le (Some x) y) k = Ok i0 /\
    in_piece starts (if jn_lt (Some x) (arr_get starts i0) then i0 - 1 else i0) x /\
    k <= (if jn_lt (Some x) (arr_get starts i0) then i0 - 1 else i0).
Proof.
  intros (Hlen & _ & Hlast & Hinc) Hk Hx. assert (Hkr : 0 <= k < len starts).
  { revert Hk. unfold arr_get. destruct (Z.ltb_spec k 0); [done|]. intros Hk%lookup_lt_Some. unfold len. lia. }
  destruct (binarySearch_finds starts (fun y => jn_le (Some x) y) k) as (i0 & E & Hor); [lia|left; lia|done|].
  exists i0. split; [exact E|]. destruct Hor as [(Hr & Hc & Hb)|(_ & [->|Hc])]; [|done|cbn in Hc; rewrite Hlast in Hc; cbn in Hc; bool_hyps; lia].
  destruct (arr_get starts i0) as [b|] eqn:Ei; [|done]. cbn [jn_le jn_lt] in *. bool_hyps.
  assert (Hlt : forall j c, i0 < j -> arr_get starts j = Some c -> x < c).
  { intros j c Hj Ecj. destruct (Hinc i0 j b c Hj Ei Ecj); lia. }
  destruct (Z.ltb_spec x b) as [Hxb|Hxb].
  - destruct (decide (i0 = k)) as [->|Hne]; [assert (b = a) by congruence; lia|]. destruct Hb as [->|Hb]; [done|].
    destruct (arr_get starts (i0 - 1)) as [c|] eqn:Ec.
    + cbn [jn_le] in Hb. bool_hyps. split; [|lia]. exists c. split; [done|]. split; [lia|]. intros j d Hj Hd.
      destruct (decide (j = i0)) as [->|]; [assert (d = b) by congruence; lia|apply (Hlt j d); [lia|done]].
    + revert Ec. unfold arr_get. rewrite (proj2 (Z.ltb_ge _ _)) by lia. intros Ec%lookup_ge_None. unfold len in Hr. lia.
  - split; [|lia]. exists b. split; [done|]. split; [lia|exact Hlt].
Qed.

(** The two searches find the pieces of the ends of a match. *)
Lemma original_pieces starts shifts size pos n : diffs_ok starts size -> 0 <= pos -> 0 < n -> pos + n <= size ->
  exists i j, in_piece starts i pos /\ in_piece starts j (pos + n - 1) /\
    getOriginalIndex (Some (starts, shifts)) pos n =
    let oldStart := jn_add (Some pos) (arr_get shifts i) in
    Ok (oldStart, jn_sub (jn_add (jn_add (Some (pos + n - 1)) (arr_get shifts j)) (Some 1)) oldStart).
Proof.
  intros Hd Hpos Hn Hsize. pose proof Hd as (_ & H0 & _). unfold getOriginalIndex.
  destruct (piece_found starts size pos 0 0 Hd H0 ltac:(lia)) as (i0 & -> & Hi & _).
  set (i := if jn_lt (Some pos) (arr_get starts i0) then i0 - 1 else i0) in *. pose proof Hi as (a & Ha & Hax & _).
  destruct (piece_found starts size (pos + n - 1) i a Hd Ha ltac:(lia)) as (j0 & -> & Hj & _). by eexists _, _.
Qed.

(** C26. A position in the normalized text is led back to the text of the page by
    the shift of its piece: the two binary searches, the second one from where the
    first ended, agree with a walk over the pieces. *)
Theorem getOriginalIndex_shifts starts shifts size pos n : diffs_ok starts size -> length starts = length shifts ->
  0 <= pos -> 0 < n -> pos + n <= size ->
  let oldStart := jn_add (Some pos) (shift_at starts shifts pos None) in
  let oldEnd := jn_add (Some (pos + n - 1)) (shift_at starts shifts (pos + n - 1) None) in
  getOriginalIndex (Some (starts, shifts)) pos n = Ok (oldStart, jn_sub (jn_add oldEnd (Some 1)) oldStart).
Proof.
  intros Hd Hl Hpos Hn Hsize. destruct (original_pieces starts shifts size pos n Hd Hpos Hn Hsize) as (i & j & Hi & Hj & ->).
  destruct Hd as (_ & _ & _ & Hinc).
  assert (Hpiece : forall i x, in_piece starts i x -> x < size -> shift_at starts shifts x None = arr_get shifts i).
  { clear i j Hi Hj. intros i x Hi Hx. apply shift_at_piece; [done|done|]. destruct Hi as (a & Ha & Hax & _). intros j b Hj Hb.
    destruct (decide (j = i)) as [->|]; [assert (b = a) by congruence; lia|]. destruct (Hinc j i b a ltac:(lia) Hb Ha); lia. }
  by rewrite (Hpiece _ _ Hi ltac:(lia)), (Hpiece _ _ Hj ltac:(lia)).
Qed.

(** "ﬀx": the ligature is two characters of the normalized text. *)
Lemma getOriginalIndex_shifts_witness :
  getOriginalIndex (Some ([0; 1; 3], [0; -1; -1])) 1 2 = Ok (Some 0, Some 2) /\
  let oldStart := jn_add (Some 1) (shift_at [0; 1; 3] [0; -1; -1] 1 None) in
  let oldEnd := jn_add (Some (1 + 2 - 1)) (shift_at [0; 1; 3] [0; -1; -1] (1 + 2 - 1) None) in
  getOriginalIndex (Some ([0; 1; 3], [0; -1; -1])) 1 2 = Ok (oldStart, jn_sub (jn_add oldEnd (Some 1)) oldStart).
Proof.
  split; [vm_compute; reflexivity|]. apply (getOriginalIndex_shifts [0; 1; 3] [0; -1; -1] 3 1 2); [|reflexivity|lia..].
  split; [vm_compute; reflexivity|]. split; [vm_compute; reflexivity|]. split; [vm_compute; reflexivity|].
  intros i j a b Hij Ha Hb. unfold arr_get in *. destruct (Z.ltb_spec i 0); [discriminate|]. destruct (Z.ltb_spec j 0); [discriminate|].
  assert (Hi : (Z.to_nat i < Z.to_nat j)%nat) by lia. revert Ha Hb Hi. generalize (Z.to_nat i) (Z.to_nat j).
  intros [|[|[|?]]] [|[|[|?]]]; cbn; intros [= <-] [= <-]; lia.
Defined.

(** A text that normalizing does not change. *)
Definition unchanged (t : PageText) : Prop := diffs t = None \/ diffs t = Some ([0; len (content t)], [0; 0]).

Lemma in_order_unchanged k t l : unchanged t -> 0 <= k -> in_order k (len (content t)) l -> original_matches (diffs t) l = Ok l.
Proof.
  intros [-> | ->] Hk Hl; [by apply (in_order_original k (len (content t)))|]. revert k Hk Hl. generalize (len (content t)) as size. intros size.
  induction l as [|[pos n] l IH]; intros k Hk Hl; [done|]. destruct Hl as (H1 & H2 & H3 & Hl). cbn [original_matches].
  destruct (original_pieces [0; size] [0; 0] size pos n) as (i & j & Hi & Hj & ->); [|lia|lia|lia|].
  { split; [done|]. split; [done|]. split; [done|]. intros i j a b Hij Ha Hb. unfold arr_get in *.
    destruct (Z.ltb_spec i 0); [done|]. destruct (Z.ltb_spec j 0); [done|]. assert (Hn : (Z.to_nat i < Z.to_nat j)%nat) by lia.
    revert Ha Hb Hn. generalize (Z.to_nat i) (Z.to_nat j). intros [|[|?]] [|[|?]]; cbn; intros [= <-] [= <-]; lia. }
  assert (Hz : forall i x, in_piece [0; size] i x -> x < size -> arr_get [0; 0] i = Some 0).
  { clear. intros i x (a & Ha & Hax & _) Hx. unfold arr_get in *. destruct (i <? 0); [done|]. revert Ha.
    destruct (Z.to_nat i) as [|[|?]]; cbn; [done|intros [= <-]; lia|done]. }
  rewrite (Hz i pos Hi ltac:(lia)), (Hz j _ Hj ltac:(lia)), (IH (pos + n) ltac:(lia) Hl). cbn.
  destruct (Z.eqb_spec (pos + n - 1 + 0 + 1 - (pos + 0)) 0); [lia|]. do 3 f_equal; lia.
Qed.

(** For a query whose expression has no empty match the loop of [match] ends,
    and the matches come in the order of the text, inside it
    and without overlap; they are led back to the text of the page, and are the
    same there when normalizing changed nothing. *)
Theorem matches_in_order e options query t : engine_ok e -> no_empty_match e options query -> text_ok t ->
  exists l r, match_query e options query (content t) (hasDiacritics t) = Ok l /\ in_order 0 (len (content t)) l /\
    page_matches e options query t = Ok r /\ (unchanged t -> r = l).
Proof.
  intros He Hne Ht. destruct (match_query_in_order e options query (content t) (hasDiacritics t) He Hne) as (l & E & Hl).
  destruct (page_matches_ends e options query t He Hne Ht) as (r & Er). exists l, r. split_and!; [done|done|done|].
  intros Hd. unfold page_matches in Er. rewrite E, (in_order_unchanged 0 t l Hd ltac:(done) Hl) in Er. congruence.
Qed.

(** A search for several words of which one becomes an empty expression (a
    lone combining mark does, unless diacritics are matched) never ends when that
    word comes first in the expression: the empty alternative matches everywhere
    and [lastIndex] does not move on. *)
Theorem empty_word_never_ends e options l w l' text hasDiacritics u :
  sort_reverse l = w :: l' -> l' <> [] -> convertToRegExpString e options hasDiacritics w = (u, []) ->
  (forall pattern flags, exec e (js "()|" ++ pattern) flags text 0 = Some (0, 0)) ->
  let '(isUnicode, pattern) := pattern_of e options (Words l) hasDiacritics in
  forall turns, exec_loop e turns pattern (flags_of options isUnicode) text (entireWord options) 0 = OutOfFuel.
Proof.
  intros Hl Hne Hw He. cbn [pattern_of]. rewrite Hl. cbn [map]. rewrite Hw. intros turns. apply exec_empty_loops.
  destruct l' as [|v l']; [done|]. cbn [map join snd]. apply (He _).
Qed.

(** Finding a plain text, and an empty alternative. *)
Fixpoint find_from (pattern text : jstr) (k : Z) : option (Z * Z) :=
  if starts_with text pattern then Some (k, len pattern)
  else match text with [] => None | _ :: text => find_from pattern text (k + 1) end.
Definition plain_engine : Engine :=
  mkEngine (fun c => bool_decide (c ∈ [[0x2d]; [0x28]; [0x29]])) (fun c => bool_decide (c = [0x301]))
    (fun c => match c with [u] => (0x61 <=? u) && (u <=? 0x7a) | _ => false end)
    (fun pattern _ text k =>
       if starts_with pattern (js "()|") then Some (k, 0)
       else match pattern with [] => None | _ => find_from pattern (drop (Z.to_nat k) text) k end)
    (fun _ _ => true).
Definition no_options : Options := mkOptions false false false.

(** "a" and a combining acute accent. *)
Lemma empty_word_never_ends_witness :
  pattern_of plain_engine no_options (Words [js "a"; [0x301]]) false = (false, js "()|(a)") /\
  let '(isUnicode, pattern) := pattern_of plain_engine no_options (Words [js "a"; [0x301]]) false in
  forall turns, exec_loop plain_engine turns pattern (flags_of no_options isUnicode) (js "banana") (entireWord no_options) 0 = OutOfFuel.
Proof.
  split; [vm_compute; reflexivity|].
  apply (empty_word_never_ends plain_engine no_options [js "a"; [0x301]] [0x301] [js "a"] (js "banana") false false);
    [vm_compute; reflexivity|discriminate|vm_compute; reflexivity|].
  intros pattern flags. reflexivity.
Defined.

(** An engine for plain texts only. *)
Definition text_engine : Engine :=
  mkEngine (is_punctuation plain_engine) (is_mark plain_engine) (is_letter plain_engine)
    (fun pattern _ text k => match pattern with [] => None | _ => find_from pattern (drop (Z.to_nat k) text) k end)
    (fun _ _ => true).

Lemma find_from_ok pattern text k i n : pattern <> [] -> find_from pattern text k = Some (i, n) ->
  k <= i /\ 0 < n /\ i + n <= k + len text.
Proof.
  intros Hp. revert k. induction text as [|c text IH]; intros k; cbn [find_from].
  - unfold starts_with. rewrite take_nil. by rewrite bool_decide_eq_false_2 by congruence.
  - destruct (starts_with (c :: text) pattern) eqn:E.
    + intros [= <- <-]. apply bool_decide_eq_true_1 in E. assert (Hlen : (length pattern <= length (c :: text))%nat).
      { rewrite <- E, length_take. lia. }
      unfold len. assert (0 < length pattern)%nat by (destruct pattern; [done|cbn; lia]). lia.
    + intros Hf. destruct (IH _ Hf). rewrite len_cons. lia.
Qed.

Lemma text_engine_ok : engine_ok text_engine.
Proof.
  intros [|c pattern] flags text k i n Hk E; [done|]. destruct (find_from_ok (c :: pattern) _ _ _ _ ltac:(done) E) as (? & ? & Hn).
  split_and!; [done|lia|]. assert (0 <= k <= len text \/ len text < k) as [Hin|Hout] by (pose proof (len_nonneg text); lia).
  - unfold len in Hn. rewrite length_drop in Hn. unfold len in *. lia.
  - unfold len in Hn, Hout. rewrite length_drop in Hn. unfold len. lia.
Qed.

Lemma text_engine_moves options query : no_empty_match text_engine options query.
Proof.
  intros d text k i n Hk. destruct (pattern_of text_engine options query d) as [u [|c p]]; [done|]. intros _ E.
  by destruct (find_from_ok (c :: p) _ _ _ _ ltac:(done) E) as (? & ? & ?).
Qed.

(** The text "banana" of a page, and "banana" where a character was put in front. *)
Definition banana : PageText := mkText (js "banana") (Some ([0; 6], [0; 0])) false.
Lemma matches_in_order_witness :
  (match_query text_engine no_options (Text (js "an")) (js "banana") false = Ok [(1, 2); (3, 2)] /\
   page_matches text_engine no_options (Text (js "an")) (mkText (js "banana") (Some ([0; 2; 6], [0; -1; -1])) false) = Ok [(1, 1); (2, 2)]) /\
  exists l r, match_query text_engine no_options (Text (js "an")) (js "banana") false = Ok l /\ in_order 0 (len (js "banana")) l /\
    page_matches text_engine no_options (Text (js "an")) banana = Ok r /\ (unchanged banana -> r = l).
Proof.
  split; [split; vm_compute; reflexivity|]. apply (matches_in_order text_engine no_options (Text (js "an")) banana); [exact text_engine_ok|apply text_engine_moves|vm_compute; reflexivity].
Defined.
