(* ===== verification/FindController.v ===== *)
(** * The search of the viewer

    [PDFFindController] of web/viewer.mjs for one document: the search state,
    the texts of the pages that arrive one after the other, and the search for
    the next match, which waits when it comes to a page whose matches are not
    known.  An event is a call from outside, a timer, or a callback of a promise;
    [jobs] are the callbacks of [_firstPageCapability.promise], in order, and a
    page in [pendingFindMatches] has a callback that waits for its text.  What the
    code dispatches is kept in [sent]. *)
From stdpp Require Import gmap.
From S2P Require Import Prelude Primitives FindQuery.
Local Open Scope js_scope.

Inductive FindState := FOUND | NOT_FOUND | WRAPPED | PENDING.

(** [state.type] of the event [find]. *)
Inductive FindType := Plain | Again | HighlightAllChange | OtherChange.
Record SearchState := mkSearch {
  type : FindType;
  query : Query;                           (** before it is normalized *)
  options : Options;
  findPrevious : bool;
  highlightAll : bool
}.

Record Offset := mkOffset { o_pageIdx : Z; o_matchIdx : option Z; wrapped : bool }.
Record MatchesCount := mkCount { current : Z; total : Z }.

Inductive Dispatch :=
| UpdateTextLayerMatches (pageIndex : Z)
| UpdateFindMatchesCount (count : MatchesCount)
| UpdateFindControlState (state : FindState) (previous : bool) (count : MatchesCount).

(** A callback of [_firstPageCapability.promise]. *)
Inductive Job := FindJob (type : FindType) | CloseJob.

Record Find := mkFind {
  page : Z;                                (** [linkService.page] *)
  state : option SearchState;
  highlightMatches : bool;
  scrollMatches : bool;
  pageMatches : gmap Z (list (Z * Z));     (** [_pageMatches] and [_pageMatchesLength] *)
  visitedPagesCount : Z;
  selected : Z * Z;
  offset : Offset;
  extracting : bool;                       (** [_extractTextPromises] is filled *)
  texts : gmap Z PageText;
  matchesCountTotal : Z;
  pagesToSearch : Z;                       (** [null] counts as 0 *)
  pendingFindMatches : gset Z;
  resumePageIdx : option Z;
  dirtyMatch : bool;
  findTimeout : bool;
  rawQuery : option jstr;
  normalizedQuery : jstr;
  jobs : list Job;
  sent : list Dispatch
}.

Definition set_page v f := mkFind v (state f) (highlightMatches f) (scrollMatches f) (pageMatches f) (visitedPagesCount f) (selected f) (offset f) (extracting f) (texts f) (matchesCountTotal f) (pagesToSearch f) (pendingFindMatches f) (resumePageIdx f) (dirtyMatch f) (findTimeout f) (rawQuery f) (normalizedQuery f) (jobs f) (sent f).
Definition set_state v f := mkFind (page f) v (highlightMatches f) (scrollMatches f) (pageMatches f) (visitedPagesCount f) (selected f) (offset f) (extracting f) (texts f) (matchesCountTotal f) (pagesToSearch f) (pendingFindMatches f) (resumePageIdx f) (dirtyMatch f) (findTimeout f) (rawQuery f) (normalizedQuery f) (jobs f) (sent f).
Definition set_highlightMatches v f := mkFind (page f) (state f) v (scrollMatches f) (pageMatches f) (visitedPagesCount f) (selected f) (offset f) (extracting f) (texts f) (matchesCountTotal f) (pagesToSearch f) (pendingFindMatches f) (resumePageIdx f) (dirtyMatch f) (findTimeout f) (rawQuery f) (normalizedQuery f) (jobs f) (sent f).
Definition set_scrollMatches v f := mkFind (page f) (state f) (highlightMatches f) v (pageMatches f) (visitedPagesCount f) (selected f) (offset f) (extracting f) (texts f) (matchesCountTotal f) (pagesToSearch f) (pendingFindMatches f) (resumePageIdx f) (dirtyMatch f) (findTimeout f) (rawQuery f) (normalizedQuery f) (jobs f) (sent f).
Definition set_pageMatches v f := mkFind (page f) (state f) (highlightMatches f) (scrollMatches f) v (visitedPagesCount f) (selected f) (offset f) (extracting f) (texts f) (matchesCountTotal f) (pagesToSearch f) (pendingFindMatches f) (resumePageIdx f) (dirtyMatch f) (findTimeout f) (rawQuery f) (normalizedQuery f) (jobs f) (sent f).
Definition set_counts v t f := mkFind (page f) (state f) (highlightMatches f) (scrollMatches f) (pageMatches f) v (selected f) (offset f) (extracting f) (texts f) t (pagesToSearch f) (pendingFindMatches f) (resumePageIdx f) (dirtyMatch f) (findTimeout f) (rawQuery f) (normalizedQuery f) (jobs f) (sent f).
Definition set_selected v f := mkFind (page f) (state f) (highlightMatches f) (scrollMatches f) (pageMatches f) (visitedPagesCount f) v (offset f) (extracting f) (texts f) (matchesCountTotal f) (pagesToSearch f) (pendingFindMatches f) (resumePageIdx f) (dirtyMatch f) (findTimeout f) (rawQuery f) (normalizedQuery f) (jobs f) (sent f).
Definition set_offset v f := mkFind (page f) (state f) (highlightMatches f) (scrollMatches f) (pageMatches f) (visitedPagesCount f) (selected f) v (extracting f) (texts f) (matchesCountTotal f) (pagesToSearch f) (pendingFindMatches f) (resumePageIdx f) (dirtyMatch f) (findTimeout f) (rawQuery f) (normalizedQuery f) (jobs f) (sent f).
Definition set_texts e v f := mkFind (page f) (state f) (highlightMatches f) (scrollMatches f) (pageMatches f) (visitedPagesCount f) (selected f) (offset f) e v (matchesCountTotal f) (pagesToSearch f) (pendingFindMatches f) (resumePageIdx f) (dirtyMatch f) (findTimeout f) (rawQuery f) (normalizedQuery f) (jobs f) (sent f).
Definition set_pagesToSearch v f := mkFind (page f) (state f) (highlightMatches f) (scrollMatches f) (pageMatches f) (visitedPagesCount f) (selected f) (offset f) (extracting f) (texts f) (matchesCountTotal f) v (pendingFindMatches f) (resumePageIdx f) (dirtyMatch f) (findTimeout f) (rawQuery f) (normalizedQuery f) (jobs f) (sent f).
Definition set_pending v f := mkFind (page f) (state f) (highlightMatches f) (scrollMatches f) (pageMatches f) (visitedPagesCount f) (selected f) (offset f) (extracting f) (texts f) (matchesCountTotal f) (pagesToSearch f) v (resumePageIdx f) (dirtyMatch f) (findTimeout f) (rawQuery f) (normalizedQuery f) (jobs f) (sent f).
Definition set_resume v f := mkFind (page f) (state f) (highlightMatches f) (scrollMatches f) (pageMatches f) (visitedPagesCount f) (selected f) (offset f) (extracting f) (texts f) (matchesCountTotal f) (pagesToSearch f) (pendingFindMatches f) v (dirtyMatch f) (findTimeout f) (rawQuery f) (normalizedQuery f) (jobs f) (sent f).
Definition set_dirty v f := mkFind (page f) (state f) (highlightMatches f) (scrollMatches f) (pageMatches f) (visitedPagesCount f) (selected f) (offset f) (extracting f) (texts f) (matchesCountTotal f) (pagesToSearch f) (pendingFindMatches f) (resumePageIdx f) v (findTimeout f) (rawQuery f) (normalizedQuery f) (jobs f) (sent f).
Definition set_findTimeout v f := mkFind (page f) (state f) (highlightMatches f) (scrollMatches f) (pageMatches f) (visitedPagesCount f) (selected f) (offset f) (extracting f) (texts f) (matchesCountTotal f) (pagesToSearch f) (pendingFindMatches f) (resumePageIdx f) (dirtyMatch f) v (rawQuery f) (normalizedQuery f) (jobs f) (sent f).
Definition set_rawQuery r n f := mkFind (page f) (state f) (highlightMatches f) (scrollMatches f) (pageMatches f) (visitedPagesCount f) (selected f) (offset f) (extracting f) (texts f) (matchesCountTotal f) (pagesToSearch f) (pendingFindMatches f) (resumePageIdx f) (dirtyMatch f) (findTimeout f) r n (jobs f) (sent f).
Definition set_jobs v f := mkFind (page f) (state f) (highlightMatches f) (scrollMatches f) (pageMatches f) (visitedPagesCount f) (selected f) (offset f) (extracting f) (texts f) (matchesCountTotal f) (pagesToSearch f) (pendingFindMatches f) (resumePageIdx f) (dirtyMatch f) (findTimeout f) (rawQuery f) (normalizedQuery f) v (sent f).
Definition send d f := mkFind (page f) (state f) (highlightMatches f) (scrollMatches f) (pageMatches f) (visitedPagesCount f) (selected f) (offset f) (extracting f) (texts f) (matchesCountTotal f) (pagesToSearch f) (pendingFindMatches f) (resumePageIdx f) (dirtyMatch f) (findTimeout f) (rawQuery f) (normalizedQuery f) (jobs f) (sent f ++ [d]).

Abbreviation F := (M Find).
Definition dispatch (d : Dispatch) : F unit := modify (send d).

(** After [#reset] and [setDocument]. *)
Definition new_Find (page : Z) : Find :=
  mkFind page None false false ∅ 0 (-1, -1) (mkOffset 0 None false) false ∅ 0 0 ∅ None false false None [] [] [].

Section Controller.
Context (e : Engine) (normalize : jstr -> jstr).
(** [linkService.pagesCount] and [#updateMatchesCountOnProgress]. *)
Context (pagesCount : Z) (updateMatchesCountOnProgress : bool).

(** ** Counts *)

Definition requestMatchesCount (f : Find) : MatchesCount :=
  let '(pageIdx, matchIdx) := selected f in
  let current :=
    if matchIdx =? -1 then 0
    else fold_left (fun n i => n + len (default [] (pageMatches f !! i))) (map Z.of_nat (seq 0 (Z.to_nat pageIdx))) 0 + matchIdx + 1 in
  let total := matchesCountTotal f in
  if (current <? 1) || (total <? current) then mkCount 0 0 else mkCount current total.

Definition updateUIResultsCount : F unit := fun f => dispatch (UpdateFindMatchesCount (requestMatchesCount f)) f.

Definition updateUIState (s : FindState) (previous : bool) : F unit := fun f =>
  if negb updateMatchesCountOnProgress && (negb (visitedPagesCount f =? pagesCount) || match s with PENDING => true | _ => false end)
  then (Ok tt, f)
  else dispatch (UpdateFindControlState s previous (requestMatchesCount f)) f.

Definition updatePage (index : Z) : F unit :=
  modify (fun f => if scrollMatches f && (fst (selected f) =? index) then set_page (index + 1) f else f) ;;;
  dispatch (UpdateTextLayerMatches index).
Definition updateAllPages : F unit := dispatch (UpdateTextLayerMatches (-1)).

(** [this.#state.findPrevious] throws without a state. *)
Definition get_state : F SearchState := fun f =>
  match state f with
  | Some s => (Ok s, f)
  | None => (Throw (TypeError "this.#state is null"), f)
  end.

(** [get #query()] *)
Definition get_query : F Query :=
  s <- get_state ;;
  match query s with
  | Text q =>
      modify (fun f => if bool_decide (rawQuery f = Some q) then f else set_rawQuery (Some q) (normalize q) f) ;;;
      gets (fun f => Text (normalizedQuery f))
  | Words l => mret (Words (map normalize (List.filter (fun w => negb (bool_decide (w = []))) l)))
  end.
Definition query_empty (q : Query) : bool :=
  match q with Text [] | Words [] => true | _ => false end.

(** ** The next match *)

Definition updateMatch (found : bool) : F unit :=
  f <- get ;;
  let w := wrapped (offset f) in
  modify (fun f => set_offset (mkOffset (o_pageIdx (offset f)) (o_matchIdx (offset f)) false) f) ;;;
  (if found then
     let previousPage := fst (selected f) in
     modify (set_selected (o_pageIdx (offset f), default (-1) (o_matchIdx (offset f)))) ;;;
     if negb (previousPage =? -1) && negb (previousPage =? o_pageIdx (offset f)) then updatePage previousPage else mret tt
   else mret tt) ;;;
  s <- get_state ;;
  updateUIState (if found then if w then WRAPPED else FOUND else NOT_FOUND) (findPrevious s) ;;;
  f <- get ;;
  if fst (selected f) =? -1 then mret tt
  else modify (set_scrollMatches true) ;;; updatePage (fst (selected f)).

Definition advanceOffsetPage (previous : bool) (f : Find) : Find :=
  let pageIdx := if previous then o_pageIdx (offset f) - 1 else o_pageIdx (offset f) + 1 in
  let out := (pagesCount <=? pageIdx) || (pageIdx <? 0) in
  let o :=
    if out then mkOffset (if previous then pagesCount - 1 else 0) None true
    else mkOffset pageIdx None (wrapped (offset f)) in
  set_pagesToSearch (pagesToSearch f - 1) (set_offset o f).

Definition matchesReady (matches : list (Z * Z)) : F bool :=
  s <- get_state ;;
  let previous := findPrevious s in
  if 0 <? len matches then
    modify (fun f => set_offset (mkOffset (o_pageIdx (offset f)) (Some (if previous then len matches - 1 else 0)) (wrapped (offset f))) f) ;;;
    updateMatch true ;;; mret true
  else
    modify (advanceOffsetPage previous) ;;;
    f <- get ;;
    if wrapped (offset f) then
      modify (fun f => set_offset (mkOffset (o_pageIdx (offset f)) None (wrapped (offset f))) f) ;;;
      if pagesToSearch f <? 0 then updateMatch false ;;; mret true else mret false
    else mret false.

(** [do ... while (!this.#matchesReady(matches))]; a second pending page is only
    reported on the console. *)
Fixpoint nextPageMatch_loop (turns : nat) : F unit := fun f =>
  match turns with
  | O => (OutOfFuel, f)
  | S turns =>
      let pageIdx := o_pageIdx (offset f) in
      match pageMatches f !! pageIdx with
      | None => (Ok tt, set_resume (Some pageIdx) f)
      | Some matches =>
          (ready <- matchesReady matches ;;
           if ready then mret tt else nextPageMatch_loop turns) f
      end
  end.
Definition nextPageMatch : F unit := nextPageMatch_loop (Z.to_nat pagesCount + 2).

(** A number as a condition. *)
Definition truthy_index (i : option Z) : bool := match i with Some n => negb (n =? 0) | None => false end.

(** The part of [#nextMatch] for a new search. *)
Definition start_search : F unit :=
  modify (fun f =>
    set_dirty false (set_selected (-1, -1) (set_offset (mkOffset (page f - 1) None false) (set_resume None
      (set_pageMatches ∅ (set_counts 0 0 f)))))) ;;;
  updateAllPages ;;;
  modify (fun f => set_pending (pendingFindMatches f ∪ list_to_set (map Z.of_nat (seq 0 (Z.to_nat pagesCount)))) f).

Definition nextMatch : F unit :=
  s <- get_state ;;
  let previous := findPrevious s in
  modify (set_highlightMatches true) ;;;
  dirty <- gets dirtyMatch ;;
  (if dirty then start_search else mret tt) ;;;
  q <- get_query ;;
  if query_empty q then updateUIState FOUND false
  else
    f <- get ;;
    if truthy_index (resumePageIdx f) then mret tt
    else
      modify (set_pagesToSearch pagesCount) ;;;
      match o_matchIdx (offset f) with
      | Some matchIdx =>
          match pageMatches f !! o_pageIdx (offset f) with
          | None => throw (TypeError "this._pageMatches[offset.pageIdx] is undefined")
          | Some matches =>
              let numPageMatches := len matches in
              if (negb previous && (matchIdx + 1 <? numPageMatches)) || (previous && (0 <? matchIdx)) then
                modify (set_offset (mkOffset (o_pageIdx (offset f)) (Some (if previous then matchIdx - 1 else matchIdx + 1)) (wrapped (offset f)))) ;;;
                updateMatch true
              else modify (advanceOffsetPage previous) ;;; nextPageMatch
          end
      | None => nextPageMatch
      end.

(** ** The text of a page *)

(** [this.match(...)] with the options of the state. *)
Definition find_matches (s : SearchState) (q : Query) (text : PageText) : res (list (Z * Z)) :=
  page_matches e (options s) q text.

Definition calculateMatch (pageIndex : Z) : F unit := fun f =>
  match state f with
  | None => (Ok tt, f)
  | Some s =>
      (q <- get_query ;;
       if query_empty q then mret tt
       else
         text <- gets (fun f => default (mkText [] None false) (texts f !! pageIndex)) ;;
         matches <- (fun f => (find_matches s q text, f)) ;;
         modify (fun f => set_pageMatches (<[pageIndex := matches]> (pageMatches f)) f) ;;;
         (if highlightAll s then updatePage pageIndex else mret tt) ;;;
         resume <- gets resumePageIdx ;;
         (if bool_decide (resume = Some pageIndex) then modify (set_resume None) ;;; nextPageMatch else mret tt) ;;;
         let pageMatchesCount := len matches in
         modify (fun f => set_counts (visitedPagesCount f) (matchesCountTotal f + pageMatchesCount) f) ;;;
         if updateMatchesCountOnProgress then
           if 0 <? pageMatchesCount then updateUIResultsCount else mret tt
         else
           modify (fun f => set_counts (visitedPagesCount f + 1) (matchesCountTotal f) f) ;;;
           f <- get ;;
           if visitedPagesCount f =? pagesCount then updateUIResultsCount else mret tt) f
  end.

(** ** Calls *)

(** [newQuery !== prevQuery] of two strings, their JSON of two arrays. *)
Definition same_query (a b : Query) : bool :=
  match a, b with
  | Text a, Text b => bool_decide (a = b)
  | Words a, Words b => bool_decide (a = b)
  | _, _ => false
  end.

(** [isPageVisible] is [onIsPageVisible], true when there is none. *)
Definition shouldDirtyMatch (isPageVisible : Z -> bool) (new prev : SearchState) (f : Find) : bool :=
  if negb (same_query (query new) (query prev)) then true
  else
    match type new with
    | Again =>
        let pageNumber := fst (selected f) + 1 in
        (1 <=? pageNumber) && (pageNumber <=? pagesCount) && negb (pageNumber =? page f) && negb (isPageVisible pageNumber)
    | HighlightAllChange => false
    | _ => true
    end.

Definition onFind (isPageVisible : Z -> bool) (s : SearchState) : F unit :=
  modify (fun f =>
    let dirty := match state f with None => true | Some prev => shouldDirtyMatch isPageVisible s prev f end in
    set_state (Some s) (if dirty then set_dirty true f else f)) ;;;
  (match type s with HighlightAllChange => mret tt | _ => updateUIState PENDING false end) ;;;
  modify (fun f => set_jobs (jobs f ++ [FindJob (type s)]) f).

Definition extractText : F unit := modify (fun f => if extracting f then f else set_texts true (texts f) f).

(** The callback of [#onFind]. *)
Definition find_job (t : FindType) : F unit :=
  extractText ;;;
  f <- get ;;
  let findbarClosed := negb (highlightMatches f) in
  let pendingTimeout := findTimeout f in
  modify (set_findTimeout false) ;;;
  match t with
  | Plain => modify (set_findTimeout true)
  | _ =>
      if dirtyMatch f then nextMatch
      else
        match t with
        | Again =>
            nextMatch ;;;
            s <- get_state ;;
            if findbarClosed && highlightAll s then updateAllPages else mret tt
        | HighlightAllChange =>
            (if pendingTimeout then nextMatch else modify (set_highlightMatches true)) ;;; updateAllPages
        | _ => nextMatch
        end
  end.

Definition onFindBarClose : F unit := modify (fun f => set_jobs (jobs f ++ [CloseJob]) f).
Definition close_job : F unit :=
  modify (set_findTimeout false) ;;;
  modify (fun f => if truthy_index (resumePageIdx f) then set_dirty true (set_resume None f) else f) ;;;
  updateUIState FOUND false ;;;
  modify (set_highlightMatches false) ;;;
  updateAllPages.

(** ** Events *)

Inductive FindEvent :=
| CallFind (isPageVisible : Z -> bool) (s : SearchState)
| CallClose
| RunJob                                   (** the first callback of [jobs] *)
| TimerFires
| TextArrives (text : option PageText)     (** of the next page; [None] after an exception *)
| PageReady (pageIndex : Z)                (** the callback that waited for the text of a page *)
| UserTurnsTo (page : Z)
| ScrolledIntoView.                        (** [scrollMatchIntoView] found its element *)

Definition find_step (ev : FindEvent) : F unit := fun f =>
  match ev with
  | CallFind visible s => onFind visible s f
  | CallClose => onFindBarClose f
  | RunJob =>
      match jobs f with
      | FindJob t :: js => find_job t (set_jobs js f)
      | CloseJob :: js => close_job (set_jobs js f)
      | [] => (Ok tt, f)
      end
  | TimerFires => if findTimeout f then (nextMatch ;;; modify (set_findTimeout false)) f else (Ok tt, f)
  | TextArrives text =>
      let i := Z.of_nat (size (texts f)) in
      if extracting f && (i <? pagesCount)
      then (Ok tt, set_texts true (<[i := default (mkText [] None false) text]> (texts f)) f)
      else (Ok tt, f)
  | PageReady i =>
      if bool_decide (i ∈ pendingFindMatches f) && bool_decide (is_Some (texts f !! i))
      then (modify (fun f => set_pending (pendingFindMatches f ∖ {[i]}) f) ;;; calculateMatch i) f
      else (Ok tt, f)
  | UserTurnsTo p => if (1 <=? p) && (p <=? pagesCount) then (Ok tt, set_page p f) else (Ok tt, f)
  | ScrolledIntoView => (Ok tt, set_scrollMatches false f)
  end.
End Controller.
