(* ===== verification/FindSpec.v ===== *)
(** * What the search of the viewer keeps

    The invariant of the find controller over every order of its events: what is
    selected is a match, and a search that waits for a page is taken up again
    when the text of that page has come. *)
From stdpp Require Import gmap.
From S2P Require Import Prelude Primitives FindQuery FindQuerySpec FindController.
Local Open Scope js_scope.

Section Search.
Context (e : Engine) (normalize : jstr -> jstr) (pagesCount : Z) (progress : bool).
Context (Hpages : 1 <= pagesCount) (Hengine : engine_ok e).

(** The query of a state, normalized. *)
Definition query_of (s : SearchState) : Query :=
  match query s with
  | Text q => Text (normalize q)
  | Words l => Words (map normalize (List.filter (fun w => negb (bool_decide (w = []))) l))
  end.

Definition is_match (f : Find) (m : Z * Z) : Prop :=
  exists l, pageMatches f !! m.1 = Some l /\ 0 <= m.2 < len l.

(** ** The parts of the state that the search for the next match leaves alone *)

Definition framed (f f' : Find) : Prop :=
  state f' = state f /\ pageMatches f' = pageMatches f /\ visitedPagesCount f' = visitedPagesCount f /\
  matchesCountTotal f' = matchesCountTotal f /\ extracting f' = extracting f /\ texts f' = texts f /\
  pendingFindMatches f' = pendingFindMatches f /\ dirtyMatch f' = dirtyMatch f /\ findTimeout f' = findTimeout f /\
  rawQuery f' = rawQuery f /\ normalizedQuery f' = normalizedQuery f /\ jobs f' = jobs f.

Lemma framed_refl f : framed f f.
Proof. by split_and!. Qed.
Lemma framed_trans f1 f2 f3 : framed f1 f2 -> framed f2 f3 -> framed f1 f3.
Proof. unfold framed. intuition congruence. Qed.

(** What was last said of the search. *)
Definition said (f : Find) : option FindState :=
  fold_left (fun r d => match d with UpdateFindControlState s _ _ => Some s | _ => r end) (sent f) None.

Definition quiet (d : Dispatch) : Prop := match d with UpdateFindControlState _ _ _ => False | _ => True end.

Lemma said_send d f : said (send d f) = match d with UpdateFindControlState s _ _ => Some s | _ => said f end.
Proof. unfold said. cbn [sent send]. rewrite fold_left_app. by destruct d. Qed.

(** ** Steps of the search *)

(** What [updatePage] changes. *)
Lemma updatePage_does index f : exists f', updatePage index f = (Ok tt, f') /\ framed f f' /\
  offset f' = offset f /\ selected f' = selected f /\ pagesToSearch f' = pagesToSearch f /\
  resumePageIdx f' = resumePageIdx f /\ said f' = said f /\
  page f' = (if scrollMatches f && (fst (selected f) =? index) then index + 1 else page f).
Proof.
  unfold updatePage, dispatch. m_red. eexists. split; [reflexivity|]. rewrite said_send.
  destruct (scrollMatches f && (fst (selected f) =? index)) eqn:E; bool_hyps; (split; [by split_and!|]); by split_and!.
Qed.

Lemma updateUIState_does s previous f : exists f', updateUIState pagesCount progress s previous f = (Ok tt, f') /\ framed f f' /\
  offset f' = offset f /\ selected f' = selected f /\ pagesToSearch f' = pagesToSearch f /\
  resumePageIdx f' = resumePageIdx f /\ page f' = page f /\ (progress = true -> said f' = Some s).
Proof.
  unfold updateUIState, dispatch, modify. destruct (negb progress && _) eqn:E; eexists; (split; [reflexivity|]).
  - split; [apply framed_refl|]. split_and!; [done..|]. intros ->. discriminate E.
  - split; [by split_and!|]. split_and!; [done..|]. intros _. by rewrite said_send.
Qed.

(** The state after [updateMatch]. *)
Lemma updateMatch_does (found : bool) f s : state f = Some s ->
  exists f', updateMatch pagesCount progress found f = (Ok tt, f') /\ framed f f' /\
  offset f' = mkOffset (o_pageIdx (offset f)) (o_matchIdx (offset f)) false /\
  selected f' = (if found then (o_pageIdx (offset f), default (-1) (o_matchIdx (offset f))) else selected f) /\
  pagesToSearch f' = pagesToSearch f /\ resumePageIdx f' = resumePageIdx f /\
  (progress = true -> said f' = Some (if found then if wrapped (offset f) then WRAPPED else FOUND else NOT_FOUND)) /\
  page f' = (if (selected f').1 =? -1 then page f else (selected f').1 + 1).
Proof.
  intros Hs. unfold updateMatch. unfold mbind at 1, get at 1, mbind at 1, modify at 1.
  set (f1 := set_offset (mkOffset (o_pageIdx (offset f)) (o_matchIdx (offset f)) false) f).
  assert (Hsel : exists f2, (if found
    then modify (set_selected (o_pageIdx (offset f), default (-1) (o_matchIdx (offset f)))) ;;;
      (if negb (fst (selected f) =? -1) && negb (fst (selected f) =? o_pageIdx (offset f)) then updatePage (fst (selected f)) else mret tt)
    else mret tt) f1 = (Ok tt, f2) /\ framed f f2 /\ offset f2 = offset f1 /\
    selected f2 = (if found then (o_pageIdx (offset f), default (-1) (o_matchIdx (offset f))) else selected f) /\
    pagesToSearch f2 = pagesToSearch f /\ resumePageIdx f2 = resumePageIdx f /\ page f2 = page f).
  { destruct found; [|eexists; split; [reflexivity|]; split; [by split_and!|]; by split_and!].
    unfold mbind at 1, modify at 1. destruct (negb (fst (selected f) =? -1) && negb (fst (selected f) =? o_pageIdx (offset f))) eqn:E.
    - destruct (updatePage_does (fst (selected f)) (set_selected (o_pageIdx (offset f), default (-1) (o_matchIdx (offset f))) f1))
        as (f2 & E2 & Hf & Ho & Hse & Hpt & Hr & _ & Hp). exists f2. split; [exact E2|].
      split; [exact Hf|]. split_and!; [done..|]. rewrite Hp. bool_hyps. cbn [selected set_selected fst page].
      rewrite (proj2 (Z.eqb_neq (o_pageIdx (offset f)) (fst (selected f)))) by congruence. by rewrite andb_false_r.
    - eexists. split; [reflexivity|]. split; [by split_and!|]. by split_and!. }
  destruct Hsel as (f2 & E2 & Hf2 & Ho2 & Hs2 & Hpt2 & Hr2 & Hp2). unfold mbind at 1. rewrite E2.
  change (offset f1) with (mkOffset (o_pageIdx (offset f)) (o_matchIdx (offset f)) false) in Ho2. clearbody f1.
  assert (Hst : state f2 = Some s) by (destruct Hf2 as [-> _]; done).
  unfold mbind at 1, get_state at 1. rewrite Hst. 
  destruct (updateUIState_does (if found then if wrapped (offset f) then WRAPPED else FOUND else NOT_FOUND) (findPrevious s) f2)
    as (f3 & E3 & Hf3 & Ho3 & Hs3 & Hpt3 & Hr3 & Hp3 & Hsaid3). unfold mbind at 1. rewrite E3. unfold mbind at 1, get at 1.
  destruct (fst (selected f3) =? -1) eqn:En; bool_hyps.
  - exists f3. split; [reflexivity|]. split; [by eapply framed_trans|]. split_and!; [congruence|congruence|congruence|congruence|done|].
    rewrite (proj2 (Z.eqb_eq _ _) En). congruence.
  - unfold mbind at 1, modify at 1. destruct (updatePage_does (fst (selected f3)) (set_scrollMatches true f3))
      as (f4 & E4 & Hf4 & Ho4 & Hs4 & Hpt4 & Hr4 & Hsaid4 & Hp4). cbn [selected set_scrollMatches] in *. exists f4. split; [exact E4|].
    split; [eapply framed_trans; [exact Hf2|eapply framed_trans; [exact Hf3|exact Hf4]]|].
    change (offset (set_scrollMatches true f3)) with (offset f3) in Ho4.
    change (selected (set_scrollMatches true f3)) with (selected f3) in Hs4.
    change (pagesToSearch (set_scrollMatches true f3)) with (pagesToSearch f3) in Hpt4.
    change (resumePageIdx (set_scrollMatches true f3)) with (resumePageIdx f3) in Hr4.
    change (said (set_scrollMatches true f3)) with (said f3) in Hsaid4.
    split_and!; [congruence|congruence|congruence|congruence|intros Hpr; rewrite Hsaid4; by apply Hsaid3|].
    rewrite Hs4, (proj2 (Z.eqb_neq _ _) En), Hp4. cbn [scrollMatches set_scrollMatches selected]. by rewrite Z.eqb_refl.
Qed.

(** ** The invariant *)

Record find_ok (f : Find) : Prop := {
  ok_query : forall s, state f = Some s -> no_empty_match e (options s) (query_of s);
  ok_page : 1 <= page f <= pagesCount;
  ok_selected : selected f = (-1, -1) \/ is_match f (selected f);
  ok_keys : forall i l, pageMatches f !! i = Some l -> 0 <= i < pagesCount;
  ok_offpage : 0 <= o_pageIdx (offset f) < pagesCount;
  ok_offset : forall m, o_matchIdx (offset f) = Some m ->
    wrapped (offset f) = false /\ selected f = (o_pageIdx (offset f), m) /\ is_match f (selected f);
  ok_pts : pagesToSearch f <= pagesCount;
  ok_pending : forall i, i ∈ pendingFindMatches f -> 0 <= i < pagesCount /\ pageMatches f !! i = None;
  ok_state : state f = None -> pendingFindMatches f = ∅ /\ findTimeout f = false /\ (forall t, FindJob t ∉ jobs f);
  ok_texts : forall i t, texts f !! i = Some t -> text_ok t;
  ok_cache : forall q, rawQuery f = Some q -> normalizedQuery f = normalize q;
  ok_known : forall s, state f = Some s -> dirtyMatch f = false -> query_empty (query_of s) = false ->
    forall p, 0 <= p < pagesCount -> is_Some (pageMatches f !! p) \/ p ∈ pendingFindMatches f;
  ok_resume : forall p, resumePageIdx f = Some p -> o_pageIdx (offset f) = p /\ o_matchIdx (offset f) = None /\
    (dirtyMatch f = true \/ p ∈ pendingFindMatches f /\ exists s, state f = Some s /\ query_empty (query_of s) = false)
}.

(** What else a step of the search must keep. *)
Record search_ok (f : Find) : Prop := {
  so_page : 1 <= page f <= pagesCount;
  so_selected : selected f = (-1, -1) \/ is_match f (selected f);
  so_offpage : 0 <= o_pageIdx (offset f) < pagesCount;
  so_offset : forall m, o_matchIdx (offset f) = Some m ->
    wrapped (offset f) = false /\ selected f = (o_pageIdx (offset f), m) /\ is_match f (selected f);
  so_pts : pagesToSearch f <= pagesCount;
  so_resume : forall p, resumePageIdx f = Some p -> o_pageIdx (offset f) = p /\ o_matchIdx (offset f) = None /\
    (dirtyMatch f = true \/ p ∈ pendingFindMatches f /\ exists s, state f = Some s /\ query_empty (query_of s) = false)
}.

Lemma find_search f : find_ok f -> search_ok f.
Proof. intros []. by constructor. Qed.

Lemma framed_ok f f' : framed f f' -> find_ok f -> search_ok f' -> find_ok f'.
Proof.
  intros (Hst & Hpm & _ & _ & _ & Hx & Hpe & Hd & Ht & Hr & Hn & Hj) [] [].
  constructor; rewrite ?Hst, ?Hpm, ?Hx, ?Hpe, ?Hd, ?Ht, ?Hr, ?Hn, ?Hj; try done.
  intros p Hp. rewrite <- Hst, <- Hpe, <- Hd. by apply so_resume0.
Qed.

(** The page of a match is a page. *)
Lemma match_page f m : find_ok f -> is_match f m -> 0 <= m.1 < pagesCount.
Proof. intros Hf (l & Hl & _). by eapply ok_keys. Qed.

Lemma match_framed f f' m : framed f f' -> is_match f m -> is_match f' m.
Proof. intros (_ & Hpm & _). unfold is_match. by rewrite Hpm. Qed.

(** Where the matches are found. *)
Definition at_match (f : Find) : Prop :=
  exists m, o_matchIdx (offset f) = Some m /\ is_match f (o_pageIdx (offset f), m).

Lemma updateMatch_keeps (found : bool) f s : find_ok (set_offset (mkOffset (o_pageIdx (offset f)) None (wrapped (offset f))) f) ->
  state f = Some s -> resumePageIdx f = None -> (if found then at_match f else o_matchIdx (offset f) = None) ->
  exists f', updateMatch pagesCount progress found f = (Ok tt, f') /\ framed f f' /\ find_ok f' /\ resumePageIdx f' = None.
Proof.
  intros Hf Hs Hr Hat. destruct (updateMatch_does found f s Hs) as (f' & E & Hfr & Ho & Hsel & Hpts & Hres & _ & Hpage).
  exists f'. split; [exact E|]. split; [exact Hfr|]. split; [|congruence].
  apply (framed_ok (set_offset (mkOffset (o_pageIdx (offset f)) None (wrapped (offset f))) f)); [exact Hfr|exact Hf|].
  pose proof Hf as []. cbn [offset o_pageIdx o_matchIdx wrapped set_offset selected page pagesToSearch resumePageIdx dirtyMatch pendingFindMatches state] in *.
  assert (Hm : found = true -> is_match f' (selected f')).
  { intros ->. destruct Hat as (m & Hm & Hmatch). rewrite Hsel, Hm. by apply (match_framed f). }
  assert (Hsel' : selected f' = (-1, -1) \/ is_match f' (selected f')).
  { destruct found; [right; by apply Hm|]. rewrite Hsel. destruct ok_selected0 as [->|H]; [by left|right].
    by apply (match_framed f). }
  pose proof Hfr as (Hst & Hpm & _ & _ & _ & _ & Hpe & Hd & _). constructor.
  - rewrite Hpage. destruct (Z.eqb_spec (selected f').1 (-1)) as [|Hne]; [done|].
    destruct Hsel' as [Hx|(l & Hl & _)]; [by rewrite Hx in Hne|]. rewrite Hpm in Hl. apply ok_keys0 in Hl. lia.
  - done.
  - by rewrite Ho.
  - rewrite Ho. cbn [o_matchIdx wrapped o_pageIdx]. intros m Hmi. destruct found; [|congruence].
    split_and!; [done| |by apply Hm]. rewrite Hsel, Hmi. done.
  - by rewrite Hpts.
  - congruence.
Qed.

(** The turns [#nextPageMatch] may take. *)
Definition to_wrap (previous : bool) (p : Z) : Z := if previous then p + 1 else pagesCount - p.
Definition enough (k : nat) (previous : bool) (f : Find) : Prop :=
  (1 <= k)%nat /\ pagesToSearch f + 1 <= Z.of_nat k /\
  (wrapped (offset f) = false -> to_wrap previous (o_pageIdx (offset f)) <= Z.of_nat k /\
     to_wrap previous (o_pageIdx (offset f)) + 1 <= Z.of_nat k).

Lemma advance_keeps previous f : find_ok f -> resumePageIdx f = None -> find_ok (advanceOffsetPage pagesCount previous f) /\
  framed f (advanceOffsetPage pagesCount previous f) /\ o_matchIdx (offset (advanceOffsetPage pagesCount previous f)) = None.
Proof.
  intros Hf Hr. assert (Hfr : framed f (advanceOffsetPage pagesCount previous f)) by (by split_and!).
  assert (Ho : o_matchIdx (offset (advanceOffsetPage pagesCount previous f)) = None).
  { unfold advanceOffsetPage. cbn [offset set_offset set_pagesToSearch]. by destruct (_ || _). }
  split_and!; [|done|done]. apply (framed_ok f); [done|done|]. destruct Hf. constructor; try done.
  - unfold advanceOffsetPage. cbn [offset set_offset set_pagesToSearch].
    destruct (_ || _) eqn:E; cbn [o_pageIdx]; destruct previous; bool_hyps; lia.
  - by rewrite Ho.
  - cbn. lia.
  - cbn. congruence.
Qed.

(** A page whose matches are known. *)
Lemma matchesReady_keeps f s l : find_ok f -> state f = Some s -> resumePageIdx f = None -> o_matchIdx (offset f) = None ->
  pageMatches f !! o_pageIdx (offset f) = Some l ->
  exists (ready : bool) f', matchesReady pagesCount progress l f = (Ok ready, f') /\ framed f f' /\ find_ok f' /\
  (ready = false -> o_matchIdx (offset f') = None /\ resumePageIdx f' = None /\
     forall k, enough (S k) (findPrevious s) f -> enough k (findPrevious s) f').
Proof.
  intros Hf Hs Hr Hm Hl. unfold matchesReady. unfold mbind at 1, get_state at 1. rewrite Hs.
  destruct (Z.ltb_spec 0 (len l)) as [Hlen|Hlen].
  - unfold mbind at 1, modify at 1. set (m := if findPrevious s then len l - 1 else 0).
    set (f1 := set_offset (mkOffset (o_pageIdx (offset f)) (Some m) (wrapped (offset f))) f).
    assert (Hback : set_offset (mkOffset (o_pageIdx (offset f1)) None (wrapped (offset f1))) f1 = f).
    { unfold f1. cbn. destruct f as [? ? ? ? ? ? ? [? o ?]]; cbn in *. by subst o. }
    destruct (updateMatch_keeps true f1 s) as (f2 & E2 & Hfr & Hok & _).
    + by rewrite Hback.
    + exact Hs.
    + exact Hr.
    + exists m. split; [done|]. exists l. split; [done|]. unfold m. cbn. destruct (findPrevious s); lia.
    + unfold mbind at 1. rewrite E2. exists true, f2. by split_and!.
  - unfold mbind at 1, modify at 1, mbind at 1, get at 1.
    destruct (advance_keeps (findPrevious s) f Hf Hr) as (Hok & Hfr & Ho).
    set (f1 := advanceOffsetPage pagesCount (findPrevious s) f) in *.
    assert (Hst1 : state f1 = Some s) by done.
    destruct (wrapped (offset f1)) eqn:Hw.
    + unfold mbind at 1, modify at 1.
      assert (Hsame : set_offset (mkOffset (o_pageIdx (offset f1)) None true) f1 = f1).
      { destruct f1 as [? ? ? ? ? ? ? [? o ?]]; cbn in *. by subst. }
      rewrite Hw, Hsame. destruct (Z.ltb_spec (pagesToSearch f1) 0) as [Hneg|Hpos].
      * destruct (updateMatch_keeps false f1 s) as (f2 & E2 & Hfr2 & Hok2 & _); [by rewrite Hw, Hsame|exact Hst1|exact Hr|exact Ho|].
        unfold mbind at 1. rewrite E2. exists true, f2. split_and!; [done|by eapply framed_trans|done|done].
      * exists false, f1. split_and!; [done|done|done|]. intros _. split; [exact Ho|]. split; [exact Hr|]. intros k (Hk & Hp & _).
        split; [|split; [|by rewrite Hw]]; change (pagesToSearch f1) with (pagesToSearch f - 1) in *; lia.
    + exists false, f1. split_and!; [done|done|done|]. intros _. split; [exact Ho|]. split; [exact Hr|]. intros k (Hk & Hp & Hwrap).
      assert (Hw0 : wrapped (offset f) = false /\ to_wrap (findPrevious s) (o_pageIdx (offset f1)) = to_wrap (findPrevious s) (o_pageIdx (offset f)) - 1 /\
        1 <= to_wrap (findPrevious s) (o_pageIdx (offset f1))).
      { clear Hwrap. destruct Hok. revert Hw ok_offpage0. unfold f1, advanceOffsetPage, to_wrap. cbn [offset set_offset set_pagesToSearch].
        destruct (_ || _) eqn:Eo; [done|]. cbn [wrapped o_pageIdx]. destruct (findPrevious s); intros; split_and!; done || lia. }
      destruct Hw0 as (Hw0 & Hto & H1). destruct (Hwrap Hw0) as [Hk1 Hk2].
      split; [lia|]. split; [change (pagesToSearch f1) with (pagesToSearch f - 1); lia|]. intros _. lia.
Qed.

(** [#nextPageMatch] ends. *)
Lemma nextPageMatch_loop_keeps k f s : find_ok f -> state f = Some s -> query_empty (query_of s) = false ->
  resumePageIdx f = None -> o_matchIdx (offset f) = None -> enough k (findPrevious s) f ->
  exists f', nextPageMatch_loop pagesCount progress k f = (Ok tt, f') /\ framed f f' /\ find_ok f'.
Proof.
  revert f. induction k as [|k IH]; intros f Hf Hs Hq Hr Hm Hk; [destruct Hk; lia|]. cbn [nextPageMatch_loop].
  destruct (pageMatches f !! o_pageIdx (offset f)) as [l|] eqn:Hl.
  - destruct (matchesReady_keeps f s l Hf Hs Hr Hm Hl) as (ready & f1 & E & Hfr & Hok & Hnext).
    unfold mbind. rewrite E. destruct ready; [by exists f1|]. destruct (Hnext eq_refl) as (Hm1 & Hr1 & Hk1).
    destruct (IH f1 Hok) as (f2 & E2 & Hfr2 & Hok2); [destruct Hfr as [-> _]; exact Hs|done|done|done|by apply Hk1|].
    exists f2. split_and!; [exact E2|by eapply framed_trans|done].
  - eexists. split; [reflexivity|]. split; [by split_and!|]. apply (framed_ok f); [by split_and!|done|].
    destruct Hf. constructor; try done. cbn. intros p [= <-]. split_and!; [done|done|]. destruct (dirtyMatch f) eqn:Hd; [by left|right].
    destruct (ok_known0 s Hs eq_refl Hq (o_pageIdx (offset f)) ok_offpage0) as [[l' Hl']|Hp]; [congruence|].
    split; [done|]. by exists s.
Qed.

Lemma nextPageMatch_keeps f s : find_ok f -> state f = Some s -> query_empty (query_of s) = false ->
  o_matchIdx (offset f) = None -> resumePageIdx f = None \/ pageMatches f !! o_pageIdx (offset f) = None ->
  exists f', nextPageMatch pagesCount progress f = (Ok tt, f') /\ framed f f' /\ find_ok f'.
Proof.
  intros Hf Hs Hq Hm Hr. assert (He : forall f, find_ok f -> enough (Z.to_nat pagesCount + 2) (findPrevious s) f).
  { intros f1 []. unfold enough, to_wrap. split; [lia|]. split; [lia|]. intros _. destruct (findPrevious s); lia. }
  unfold nextPageMatch. destruct (resumePageIdx f) as [p|] eqn:Hp.
  - destruct Hr as [|Hr]; [done|]. replace (Z.to_nat pagesCount + 2)%nat with (S (Z.to_nat pagesCount + 1)) by lia.
    cbn [nextPageMatch_loop]. rewrite Hr. eexists. split; [reflexivity|]. split; [by split_and!|].
    destruct (ok_resume f Hf p Hp) as (<- & _ & Hd). apply (framed_ok f); [by split_and!|done|].
    destruct Hf. constructor; try done. cbn. by intros p [= <-].
  - apply (nextPageMatch_loop_keeps _ _ s); try done. by apply He.
Qed.

(** ** Operations *)

(** The pages of the document. *)
Definition all_pages : gset Z := list_to_set (map Z.of_nat (seq 0 (Z.to_nat pagesCount))).
Lemma elem_all_pages p : p ∈ all_pages <-> 0 <= p < pagesCount.
Proof.
  unfold all_pages. rewrite elem_of_list_to_set, list_elem_of_In, in_map_iff. split.
  - intros (k & <- & Hk). apply in_seq in Hk. lia.
  - intros Hp. exists (Z.to_nat p). rewrite in_seq. lia.
Qed.

(** [#query] does not change what the invariant speaks of. *)
Definition cached (f : Find) : Prop := forall q, rawQuery f = Some q -> normalizedQuery f = normalize q.
Lemma get_query_does f s : cached f -> state f = Some s ->
  exists r n, get_query normalize f = (Ok (query_of s), set_rawQuery r n f) /\ cached (set_rawQuery r n f).
Proof.
  intros Hf Hs. unfold get_query, mbind, get_state. rewrite Hs. unfold query_of.
  assert (Hsame : f = set_rawQuery (rawQuery f) (normalizedQuery f) f) by (by destruct f).
  destruct (query s) as [q|l].
  - unfold modify, gets. case_bool_decide as E.
    + exists (rawQuery f), (normalizedQuery f). rewrite <- Hsame. by rewrite (Hf q E).
    + exists (Some q), (normalize q). split; [reflexivity|]. by intros q' [= <-].
  - exists (rawQuery f), (normalizedQuery f). by rewrite <- Hsame.
Qed.

Lemma rawQuery_ok r n f : find_ok f -> cached (set_rawQuery r n f) -> find_ok (set_rawQuery r n f).
Proof. intros [] Hc. by constructor. Qed.

(** A step that changes none of the parts of the search. *)
Lemma same_ok f f' : find_ok f -> framed f f' -> offset f' = offset f -> selected f' = selected f ->
  pagesToSearch f' = pagesToSearch f -> resumePageIdx f' = resumePageIdx f -> 1 <= page f' <= pagesCount -> find_ok f'.
Proof.
  intros Hf Hfr Ho Hse Hpt Hr Hp. apply (framed_ok f); [done|done|]. pose proof (find_search f Hf) as [].
  constructor; rewrite ?Ho, ?Hse, ?Hpt, ?Hr; try done.
  - destruct so_selected0; [by left|right; by apply (match_framed f)].
  - intros m Hm. destruct (so_offset0 m Hm) as (? & ? & ?). split_and!; [done|done|by apply (match_framed f)].
  - intros p Hpp. destruct Hfr as (-> & _ & _ & _ & _ & _ & -> & -> & _). by apply so_resume0.
Qed.

Lemma updateUIState_keeps st previous f : find_ok f ->
  exists f', updateUIState pagesCount progress st previous f = (Ok tt, f') /\ find_ok f' /\ framed f f' /\
    resumePageIdx f' = resumePageIdx f.
Proof.
  intros Hf. destruct (updateUIState_does st previous f) as (f' & E & Hfr & Ho & Hse & Hpt & Hr & Hp & _).
  exists f'. split_and!; [done| |done|done]. apply (same_ok f); try done. rewrite Hp. apply Hf.
Qed.

Lemma start_search_keeps f s : find_ok f -> state f = Some s ->
  exists f', start_search pagesCount f = (Ok tt, f') /\ find_ok f' /\ state f' = Some s /\ dirtyMatch f' = false /\
    o_matchIdx (offset f') = None /\ resumePageIdx f' = None.
Proof.
  intros Hf Hs. unfold start_search, updateAllPages, dispatch. m_red. eexists. split; [reflexivity|]. split; [|by split_and!].
  destruct Hf. constructor; cbn [page state selected offset o_pageIdx o_matchIdx pageMatches pagesToSearch pendingFindMatches
    findTimeout jobs rawQuery normalizedQuery dirtyMatch resumePageIdx set_pending send set_dirty set_selected set_offset
    set_resume set_pageMatches set_counts]; try done.
  - by left.
  - lia.
  - intros i Hi. apply elem_of_union in Hi as [Hi|Hi]; [by apply ok_pending0 in Hi as [Hi _]|]. split; [by apply elem_all_pages|done].
  - congruence.
  - intros s' _ _ _ p Hp. right. apply elem_of_union. right. by apply elem_all_pages.
Qed.

Lemma set_highlightMatches_ok v f : find_ok f -> find_ok (set_highlightMatches v f).
Proof. intros []. by constructor. Qed.
Lemma set_pagesToSearch_ok f : find_ok f -> find_ok (set_pagesToSearch pagesCount f).
Proof. intros []. by constructor. Qed.

Lemma nextMatch_keeps f s : find_ok f -> state f = Some s ->
  exists f', nextMatch normalize pagesCount progress f = (Ok tt, f') /\ find_ok f' /\ state f' = Some s.
Proof.
  intros Hf Hs. unfold nextMatch. unfold mbind at 1, get_state at 1. rewrite Hs. unfold mbind at 1, modify at 1.
  unfold mbind at 1, gets at 1. pose proof (set_highlightMatches_ok true f Hf) as Hf1. set (f1 := set_highlightMatches true f) in *.
  assert (Hs1 : state f1 = Some s) by done. clearbody f1.
  assert (H2 : exists f2, (if dirtyMatch f1 then start_search pagesCount else mret tt) f1 = (Ok tt, f2) /\ find_ok f2 /\
    state f2 = Some s /\ dirtyMatch f2 = false).
  { destruct (dirtyMatch f1) eqn:Hd; [|by exists f1]. destruct (start_search_keeps f1 s Hf1 Hs1) as (f2 & E & Hok & Hst & Hd2 & _). by exists f2. }
  destruct H2 as (f2 & E2 & Hf2 & Hs2 & Hd2). unfold mbind at 1. rewrite E2.
  destruct (get_query_does f2 s (ok_cache f2 Hf2) Hs2) as (r & n & E3 & Hc3). unfold mbind at 1. rewrite E3.
  pose proof (rawQuery_ok r n f2 Hf2 Hc3) as Hf3. set (f3 := set_rawQuery r n f2) in *.
  assert (Hs3 : state f3 = Some s) by done. assert (Hd3 : dirtyMatch f3 = false) by done. clearbody f3.
  destruct (query_empty (query_of s)) eqn:Hq.
  { destruct (updateUIState_keeps FOUND false f3 Hf3) as (f4 & E4 & Hok & Hfr & _). exists f4. split_and!; [exact E4|done|].
    destruct Hfr as [-> _]. exact Hs3. }
  unfold mbind at 1, get at 1. destruct (truthy_index (resumePageIdx f3)); [by exists f3|].
  unfold mbind at 1, modify at 1. pose proof (set_pagesToSearch_ok f3 Hf3) as Hf4. set (f4 := set_pagesToSearch pagesCount f3) in *.
  change (offset f3) with (offset f4). change (pageMatches f3) with (pageMatches f4). assert (Hs4 : state f4 = Some s) by done.
  assert (Hd4 : dirtyMatch f4 = false) by done. clearbody f4.
  assert (Hdone : forall f5, framed f4 f5 -> find_ok f5 -> find_ok f5 /\ state f5 = Some s).
  { intros f5 Hfr Hok. split; [done|]. destruct Hfr as [-> _]. exact Hs4. }
  destruct (o_matchIdx (offset f4)) as [m|] eqn:Hm.
  - assert (Hr4 : resumePageIdx f4 = None).
    { destruct (resumePageIdx f4) eqn:Hr; [|done]. destruct (ok_resume f4 Hf4 _ Hr) as (_ & ? & _). congruence. }
    destruct (ok_offset f4 Hf4 m Hm) as (Hw & Hsel & l & Hl & Hrange). rewrite Hsel in Hl, Hrange. cbn [fst snd] in Hl, Hrange. rewrite Hl.
    destruct ((negb (findPrevious s) && (m + 1 <? len l)) || (findPrevious s && (0 <? m))) eqn:Hin.
    + unfold mbind at 1, modify at 1. set (m' := if findPrevious s then m - 1 else m + 1).
      set (f5 := set_offset (mkOffset (o_pageIdx (offset f4)) (Some m') (wrapped (offset f4))) f4).
      destruct (updateMatch_keeps true f5 s) as (f6 & E6 & Hfr & Hok & _); [|exact Hs4|exact Hr4| |].
      * apply (framed_ok f4); [by split_and!|done|]. pose proof (find_search f4 Hf4) as []. constructor; try done.
        cbn. congruence.
      * exists m'. split; [done|]. exists l. split; [exact Hl|]. cbn [snd]. unfold m'. apply orb_true_iff in Hin as [Hin|Hin]; bool_hyps;
          destruct (findPrevious s); try done; lia.
      * exists f6. split; [exact E6|]. by apply Hdone.
    + unfold mbind at 1, modify at 1. destruct (advance_keeps (findPrevious s) f4 Hf4 Hr4) as (Hok & Hfr & Ho).
      destruct (nextPageMatch_keeps (advanceOffsetPage pagesCount (findPrevious s) f4) s Hok Hs4 Hq Ho (or_introl Hr4)) as (f5 & E5 & Hfr5 & Hok5).
      exists f5. split; [exact E5|]. by apply Hdone.
  - destruct (nextPageMatch_keeps f4 s Hf4 Hs4 Hq Hm) as (f5 & E5 & Hfr5 & Hok5); [|exists f5; split; [exact E5|by apply Hdone]].
    destruct (resumePageIdx f4) as [p|] eqn:Hr; [right|by left]. destruct (ok_resume f4 Hf4 p Hr) as (-> & _ & Hp).
    destruct Hp as [Hp|[Hp _]]; [congruence|]. by apply (ok_pending f4 Hf4).
Qed.

(** ** The matches of a page *)

Definition with_matches (i : Z) (l : list (Z * Z)) (f : Find) : Find :=
  set_pageMatches (<[i := l]> (pageMatches f)) (set_pending (pendingFindMatches f ∖ {[i]}) f).

Lemma with_matches_ok i l f r : find_ok f -> i ∈ pendingFindMatches f ->
  r = None \/ r = resumePageIdx f /\ r <> Some i -> find_ok (set_resume r (with_matches i l f)).
Proof.
  intros Hf Hi Hr. destruct (ok_pending f Hf i Hi) as [Hrange Hnone].
  assert (Hmatch : forall m, is_match f m -> is_match (with_matches i l f) m).
  { intros m (l' & Hl' & Hm). exists l'. split; [|done]. cbn. rewrite lookup_insert_ne; [done|]. congruence. }
  destruct Hf. constructor; cbn [page selected offset pagesToSearch pendingFindMatches state findTimeout jobs rawQuery
    normalizedQuery dirtyMatch resumePageIdx pageMatches set_resume with_matches set_pageMatches set_pending]; try done.
  - destruct ok_selected0; [by left|right; by apply Hmatch].
  - intros j l' Hj. destruct (decide (i = j)) as [->|Hne]; [done|]. rewrite lookup_insert_ne in Hj by done. by eapply ok_keys0.
  - intros m Hm. destruct (ok_offset0 m Hm) as (? & ? & ?). split_and!; [done|done|by apply Hmatch].
  - intros j Hj. apply elem_of_difference in Hj as [Hj Hne]. rewrite elem_of_singleton in Hne.
    destruct (ok_pending0 j Hj). split; [done|]. by rewrite lookup_insert_ne.
  - intros Hs. destruct (ok_state0 Hs) as (-> & ? & ?). split_and!; [set_solver|done|done].
  - intros s Hs Hd Hq p Hp. destruct (decide (p = i)) as [->|Hne]; [left; by rewrite lookup_insert_eq|].
    rewrite lookup_insert_ne by done. destruct (ok_known0 s Hs Hd Hq p Hp); [by left|right; set_solver].
  - intros p Hp. destruct Hr as [->|[-> Hne]]; [done|]. destruct (ok_resume0 p Hp) as (? & ? & Hd).
    split_and!; [done|done|]. destruct Hd as [|[? ?]]; [by left|right]. split; [|done]. set_solver.
Qed.

Lemma mbind_assoc3 {S A B C D} (m : M S A) (g : M S B) (k : B -> M S C) (h : M S D) s :
  (m ;;; x <- g ;; k x ;;; h) s = ((m ;;; x <- g ;; k x) ;;; h) s.
Proof. unfold mbind. destruct (m s) as [[] s1]; try done. by destruct (g s1) as [[] s2]. Qed.

Lemma set_counts_ok v t f : find_ok f -> find_ok (set_counts v t f).
Proof. intros []. by constructor. Qed.
Lemma send_ok d f : find_ok f -> find_ok (send d f).
Proof. intros []. by constructor. Qed.

(** The pages in [pendingFindMatches] are waited for with a state. *)
Lemma pending_state i f : find_ok f -> i ∈ pendingFindMatches f -> exists s, state f = Some s.
Proof. intros Hf Hi. destruct (state f) as [s|] eqn:E; [by exists s|]. destruct (ok_state f Hf E) as (Hp & _). set_solver. Qed.

(** The end of [#calculateMatch]. *)
Lemma count_matches n f : find_ok f ->
  exists f', (modify (fun f => set_counts (visitedPagesCount f) (matchesCountTotal f + n) f) ;;;
     if progress then if 0 <? n then updateUIResultsCount else mret tt
     else modify (fun f => set_counts (visitedPagesCount f + 1) (matchesCountTotal f) f) ;;;
       f <- get ;; if visitedPagesCount f =? pagesCount then updateUIResultsCount else mret tt) f = (Ok tt, f') /\
    find_ok f' /\ state f' = state f /\ pageMatches f' = pageMatches f /\ pendingFindMatches f' = pendingFindMatches f /\ dirtyMatch f' = dirtyMatch f.
Proof.
  intros Hf. unfold updateUIResultsCount, dispatch. m_red. destruct progress; [destruct (0 <? n)|destruct (_ =? pagesCount)];
    eexists; (split; [reflexivity|]); (split; [|by split_and!]); repeat apply send_ok; repeat apply set_counts_ok; exact Hf.
Qed.

(** The wait of a search for the page, if it is that one. *)
Lemma resume_search i l f s : find_ok f -> state f = Some s -> query_empty (query_of s) = false -> i ∈ pendingFindMatches f ->
  exists f', ((if highlightAll s then updatePage i else mret tt) ;;;
     resume <- gets resumePageIdx ;;
     (if bool_decide (resume = Some i) then modify (set_resume None) ;;; nextPageMatch pagesCount progress else mret tt))
     (with_matches i l f) = (Ok tt, f') /\ find_ok f' /\ framed (with_matches i l f) f'.
Proof.
  intros Hf Hs Hq Hi. destruct (ok_pending f Hf i Hi) as [Hrange _].
  assert (H1 : exists f1, (if highlightAll s then updatePage i else mret tt) (with_matches i l f) = (Ok tt, f1) /\
    framed (with_matches i l f) f1 /\ offset f1 = offset f /\ selected f1 = selected f /\ pagesToSearch f1 = pagesToSearch f /\
    resumePageIdx f1 = resumePageIdx f /\ 1 <= page f1 <= pagesCount).
  { pose proof (ok_page f Hf). destruct (highlightAll s); [|eexists; split; [reflexivity|]; split_and!; try done; cbn; lia].
    destruct (updatePage_does i (with_matches i l f)) as (f1 & E & Hfr & ? & ? & ? & ? & _ & Hp). exists f1.
    split_and!; try done; rewrite Hp; destruct (_ && _); cbn; lia. }
  destruct H1 as (f1 & E1 & Hfr & Ho & Hse & Hpt & Hr & Hp). unfold mbind at 1. rewrite E1. unfold mbind at 1, gets at 1.
  assert (Hst : state f1 = Some s) by (destruct Hfr as [-> _]; exact Hs). rewrite Hr. case_bool_decide as Hres.
  - unfold mbind at 1, modify at 1. set (f2 := set_resume None f1).
    assert (Hf2 : find_ok f2) by (apply (same_ok (set_resume None (with_matches i l f))); try done; apply with_matches_ok; [done|done|by left]).
    destruct (nextPageMatch_keeps f2 s Hf2 Hst Hq) as (f3 & E3 & Hfr3 & Hok3); [|by left|].
    { unfold f2. cbn. rewrite Ho. by apply (ok_resume f Hf i Hres). }
    exists f3. split_and!; [exact E3|done|]. eapply framed_trans; [exact Hfr|exact Hfr3].
  - exists f1. split_and!; [done| |done]. apply (same_ok (set_resume (resumePageIdx f) (with_matches i l f))); try done.
    apply with_matches_ok; [done|done|by right].
Qed.

(** The callback of a page whose text has come. *)
Lemma calculateMatch_keeps i f : find_ok f -> i ∈ pendingFindMatches f ->
  exists f', calculateMatch e normalize pagesCount progress i (set_pending (pendingFindMatches f ∖ {[i]}) f) = (Ok tt, f') /\
    find_ok f' /\ state f' = state f /\ pendingFindMatches f' = pendingFindMatches f ∖ {[i]} /\ dirtyMatch f' = dirtyMatch f /\
    (forall s, state f = Some s -> query_empty (query_of s) = false -> is_Some (pageMatches f' !! i)).
Proof.
  intros Hf Hi. destruct (pending_state i f Hf Hi) as [s Hs].
  set (f1 := set_pending (pendingFindMatches f ∖ {[i]}) f). unfold calculateMatch. change (state f1) with (state f). rewrite Hs.
  destruct (get_query_does f1 s (ok_cache f Hf) Hs) as (r & n & E & Hc). unfold mbind at 1. rewrite E.
  destruct (query_empty (query_of s)) eqn:Hq.
  - eexists. split; [reflexivity|]. split; [|split_and!; try done; intros s' Hs' Hq'; congruence]. destruct Hf. constructor; cbn; try done.
    + intros j Hj. apply ok_pending0. set_solver.
    + congruence.
    + intros s' Hs' Hd Hq'. congruence.
    + intros p Hp. destruct (ok_resume0 p Hp) as (? & ? & Hd). split_and!; [done|done|]. left.
      destruct Hd as [|(_ & s' & Hs' & Hq')]; [done|]. congruence.
  - unfold mbind at 1, gets at 1. 
    assert (Ht : text_ok (default (mkText [] None false) (texts (set_rawQuery r n f1) !! i))).
    { change (texts (set_rawQuery r n f1)) with (texts f). destruct (texts f !! i) as [t|] eqn:Et; [by apply (ok_texts f Hf i)|exact I]. }
    destruct (page_matches_ends e (options s) (query_of s) _ Hengine (ok_query f Hf s Hs) Ht) as [l El].
    unfold mbind at 1, find_matches. rewrite El. unfold mbind at 1, modify at 1.
    change (set_pageMatches _ (set_rawQuery r n f1)) with (with_matches i l (set_rawQuery r n f)).
    destruct (resume_search i l (set_rawQuery r n f) s (rawQuery_ok r n f Hf Hc) Hs Hq Hi) as (f2 & E2 & Hok2 & Hfr2).
    destruct (count_matches (len l) f2 Hok2) as (f3 & E3 & Hok3 & Hs3 & Hm3 & Hp3 & Hd3). exists f3.
    destruct Hfr2 as (G1 & G2 & _ & _ & _ & _ & G3 & G4 & _). split; [rewrite mbind_assoc3, (mbind_ok _ _ _ _ _ E2); exact E3|].
    split; [done|]. rewrite Hs3, Hp3, Hd3, Hm3, G1, G2, G3, G4. split_and!; try done.
    intros s' _ _. cbn. rewrite lookup_insert_eq. by eexists.
Qed.

(** ** Calls and events *)

Lemma set_jobs_ok js f : find_ok f -> (forall t, FindJob t ∈ js -> is_Some (state f)) -> find_ok (set_jobs js f).
Proof.
  intros [] Hj. constructor; try done. intros Hs. destruct (ok_state0 Hs) as (? & ? & _). split_and!; [done|done|].
  intros t Ht. destruct (Hj t Ht) as [s Hs']. cbn in Hs. congruence.
Qed.
Lemma set_findTimeout_ok v f : find_ok f -> is_Some (state f) -> find_ok (set_findTimeout v f).
Proof. intros [] [s Hs]. constructor; try done. cbn. congruence. Qed.
Lemma set_texts_ok ex t f : find_ok f -> (forall i u, t !! i = Some u -> text_ok u) -> find_ok (set_texts ex t f).
Proof. intros [] Ht. by constructor. Qed.

(** The texts that arrive are those of pages of a length that can be, and the
    expression of a query that is searched has no empty match. *)
Definition event_ok (ev : FindEvent) : Prop :=
  match ev with
  | TextArrives (Some t) => text_ok t
  | CallFind _ s => no_empty_match e (options s) (query_of s)
  | _ => True
  end.
Lemma set_page_ok p f : find_ok f -> 1 <= p <= pagesCount -> find_ok (set_page p f).
Proof. intros [] Hp. by constructor. Qed.
Lemma set_scrollMatches_ok v f : find_ok f -> find_ok (set_scrollMatches v f).
Proof. intros []. by constructor. Qed.

Lemma same_query_of s s' : same_query (query s) (query s') = true -> query_of s = query_of s'.
Proof.
  unfold same_query, query_of. destruct (query s), (query s'); try done; intros H%bool_decide_eq_true_1; by subst.
Qed.

(** The new state of [#onFind]. *)
Lemma new_state_ok visible s f : find_ok f -> no_empty_match e (options s) (query_of s) ->
  find_ok (set_state (Some s)
    (if match state f with None => true | Some prev => shouldDirtyMatch pagesCount visible s prev f end
     then set_dirty true f else f)).
Proof.
  intros Hf Hmoves. set (dirty := match state f with None => true | Some prev => _ end).
  assert (Hsame : dirty = false -> exists prev, state f = Some prev /\ query_of s = query_of prev).
  { unfold dirty. destruct (state f) as [prev|]; [|done]. intros Hd. exists prev. split; [done|]. apply same_query_of.
    unfold shouldDirtyMatch in Hd. by destruct (same_query (query s) (query prev)). }
  destruct dirty; [|destruct (Hsame eq_refl) as (prev & Hprev & Hq)]; destruct Hf; constructor; try done; try (by intros s' [= <-]).
  - intros p Hp. destruct (ok_resume0 p Hp) as (? & ? & _). split_and!; [done|done|by left].
  - intros s' [= <-] Hd He. apply (ok_known0 prev Hprev Hd). by rewrite <- Hq.
  - intros p Hp. destruct (ok_resume0 p Hp) as (? & ? & Hd). split_and!; [done|done|]. destruct Hd as [|(? & s' & Hs' & He)]; [by left|right].
    split; [done|]. exists s. split; [done|]. rewrite Hq. congruence.
Qed.

Lemma find_step_job f j js : find_ok f -> jobs f = j :: js -> find_ok (set_jobs js f).
Proof.
  intros Hf Hj. apply set_jobs_ok; [done|]. intros t Ht. destruct (state f) as [s|] eqn:E; [by exists s|].
  destruct (ok_state f Hf E) as (_ & _ & Hn). destruct (Hn t). rewrite Hj. by right.
Qed.

Lemma find_job_keeps t f : find_ok f -> is_Some (state f) ->
  exists f', find_job normalize pagesCount progress t f = (Ok tt, f') /\ find_ok f'.
Proof.
  intros Hf [s Hs]. unfold find_job, extractText. unfold mbind at 1, modify at 1.
  assert (Hf1 : find_ok (if extracting f then f else set_texts true (texts f) f)) by (destruct (extracting f); [done|by apply set_texts_ok, Hf]).
  set (f1 := if extracting f then f else _) in *. assert (Hs1 : state f1 = Some s) by (unfold f1; by destruct (extracting f)). clearbody f1.
  unfold mbind at 1, get at 1, mbind at 1, modify at 1.
  pose proof (set_findTimeout_ok false f1 Hf1 ltac:(by exists s)) as Hf2. set (f2 := set_findTimeout false f1) in *.
  assert (Hs2 : state f2 = Some s) by done.
  destruct (nextMatch_keeps f2 s Hf2 Hs2) as (f3 & E3 & Hf3 & Hs3).
  assert (Hall : forall f4, find_ok f4 -> exists f', updateAllPages f4 = (Ok tt, f') /\ find_ok f').
  { intros f4 Hf4. unfold updateAllPages, dispatch, modify. eexists. split; [reflexivity|]. by apply send_ok. }
  destruct t.
  - eexists. split; [reflexivity|]. apply set_findTimeout_ok; [done|by exists s].
  - destruct (dirtyMatch f1); [by exists f3|]. rewrite (mbind_ok _ _ _ _ _ E3). unfold mbind, get_state. rewrite Hs3.
    destruct (_ && _); [by apply Hall|by exists f3].
  - destruct (dirtyMatch f1); [by exists f3|]. destruct (findTimeout f1).
    + rewrite (mbind_ok _ _ _ _ _ E3). by apply Hall.
    + apply (Hall (set_highlightMatches true f2)). by apply set_highlightMatches_ok.
  - destruct (dirtyMatch f1); by exists f3.
Qed.

Lemma close_job_keeps f : find_ok f -> exists f', close_job pagesCount progress f = (Ok tt, f') /\ find_ok f'.
Proof.
  intros Hf. unfold close_job. unfold mbind at 1, modify at 1, mbind at 1, modify at 1.
  assert (Hf1 : find_ok (set_findTimeout false f)).
  { destruct Hf. constructor; try done. intros Hs. destruct (ok_state0 Hs) as (? & _ & ?). by split_and!. }
  set (f1 := set_findTimeout false f) in *. clearbody f1.
  assert (Hf2 : find_ok (if truthy_index (resumePageIdx f1) then set_dirty true (set_resume None f1) else f1)).
  { destruct (truthy_index _); [|done]. destruct Hf1. by constructor. }
  set (f2 := if truthy_index (resumePageIdx f1) then _ else f1) in *. clearbody f2.
  destruct (updateUIState_keeps FOUND false f2 Hf2) as (f3 & E3 & Hf3 & _).
  rewrite (mbind_ok _ _ _ _ _ E3). unfold updateAllPages, dispatch. m_red. eexists. split; [reflexivity|].
  by apply send_ok, set_highlightMatches_ok.
Qed.

Lemma find_step_keeps ev f : find_ok f -> event_ok ev ->
  exists f', find_step e normalize pagesCount progress ev f = (Ok tt, f') /\ find_ok f'.
Proof.
  intros Hf Hev. destruct ev as [visible s| | | |text|i|p|]; cbn [find_step].
  - unfold onFind. unfold mbind at 1, modify at 1. pose proof (new_state_ok visible s f Hf Hev) as Hf1.
    set (f1 := set_state (Some s) _) in *. assert (Hs1 : state f1 = Some s) by done. clearbody f1.
    assert (H2 : exists f2, (match type s with HighlightAllChange => mret tt | _ => updateUIState pagesCount progress PENDING false end) f1 = (Ok tt, f2) /\
      find_ok f2 /\ state f2 = Some s).
    { destruct (updateUIState_keeps PENDING false f1 Hf1) as (f2 & E & Hok & Hfr & _).
      assert (Hs2 : state f2 = Some s) by (destruct Hfr as [-> _]; exact Hs1). destruct (type s); first [by exists f2|by exists f1]. }
    destruct H2 as (f2 & E2 & Hf2 & Hs2). rewrite (mbind_ok _ _ _ _ _ E2). eexists. split; [reflexivity|].
    apply set_jobs_ok; [done|]. intros t _. by exists s.
  - eexists. split; [reflexivity|]. apply set_jobs_ok; [done|]. intros t Ht. apply elem_of_app in Ht as [Ht|Ht%list_elem_of_singleton]; [|done].
    destruct (state f) as [s|] eqn:E; [by exists s|]. destruct (ok_state f Hf E) as (_ & _ & Hn). by destruct (Hn t).
  - destruct (jobs f) as [|[t|] js] eqn:Hj; [by exists f|..]; pose proof (find_step_job f _ js Hf Hj) as Hf1.
    + apply find_job_keeps; [done|]. change (state (set_jobs js f)) with (state f). destruct (state f) as [s|] eqn:E; [by exists s|].
      destruct (ok_state f Hf E) as (_ & _ & Hn). destruct (Hn t). rewrite Hj. by left.
    + by apply close_job_keeps.
  - destruct (findTimeout f) eqn:Ht; [|by exists f]. destruct (state f) as [s|] eqn:Hs; [|by destruct (ok_state f Hf Hs) as (_ & Hno & _); rewrite Hno in Ht].
    destruct (nextMatch_keeps f s Hf Hs) as (f1 & E1 & Hf1 & Hs1). rewrite (mbind_ok _ _ _ _ _ E1). eexists. split; [reflexivity|].
    apply set_findTimeout_ok; [done|by exists s].
  - destruct (extracting f && _); [|by exists f]. eexists. split; [reflexivity|]. apply set_texts_ok; [done|].
    intros i u Hi. apply lookup_insert_Some in Hi as [[_ <-]|[_ Hi]]; [by destruct text|by apply (ok_texts f Hf i)].
  - destruct (bool_decide (i ∈ pendingFindMatches f)) eqn:Hi; [|by exists f]. apply bool_decide_eq_true_1 in Hi.
    destruct (bool_decide (is_Some _)); [|by exists f]. cbn [andb].
    destruct (calculateMatch_keeps i f Hf Hi) as (f1 & E1 & Hf1 & _). by exists f1.
  - destruct ((1 <=? p) && (p <=? pagesCount)) eqn:Hp; [|by exists f]. bool_hyps. eexists. split; [reflexivity|]. by apply set_page_ok.
  - eexists. split; [reflexivity|]. by apply set_scrollMatches_ok.
Qed.

Lemma new_Find_ok p : 1 <= p <= pagesCount -> find_ok (new_Find p).
Proof.
  intros Hp. constructor; try done; cbn.
  - by left.
  - lia.
  - lia.
  - intros _. split_and!; [done|done|]. intros t Ht. by apply elem_of_nil in Ht.
Qed.

(** The states that the events lead to. *)
Inductive find_reached : Find -> Prop :=
| reached_new p : 1 <= p <= pagesCount -> find_reached (new_Find p)
| reached_step ev f f' : find_reached f -> event_ok ev ->
    find_step e normalize pagesCount progress ev f = (Ok tt, f') -> find_reached f'.

Lemma find_reached_ok f : find_reached f -> find_ok f.
Proof.
  induction 1 as [p Hp|ev f f' _ IH Hev E]; [by apply new_Find_ok|].
  destruct (find_step_keeps ev f IH Hev) as (f1 & E1 & Hok). congruence.
Qed.
End Search.
