(* ===== verification/FindNext.v ===== *)
(** * Where the search of the viewer goes

    [#nextPageMatch] passes the pages without a match in the order of the
    document, once around, and stops at the first page with one; the match it
    selects is the next one of the document, whichever page it is on. *)
From stdpp Require Import gmap.
From S2P Require Import Prelude Primitives FindQuery FindController FindSpec.
Local Open Scope js_scope.

Section Next.
Context (normalize : jstr -> jstr) (pagesCount : Z) (progress : bool).
Context (Hpages : 1 <= pagesCount).

(** ** Pages in turn *)

(** The page [d] pages further, and whether the end of the document is passed. *)
Definition passes (previous : bool) (p d : Z) : bool := if previous then p - d <? 0 else pagesCount <=? p + d.
Definition nth_page (previous : bool) (p d : Z) : Z :=
  if previous then (if passes previous p d then p - d + pagesCount else p - d)
  else (if passes previous p d then p + d - pagesCount else p + d).

Lemma nth_page_0 previous p : 0 <= p < pagesCount -> nth_page previous p 0 = p /\ passes previous p 0 = false.
Proof.
  intros Hp. unfold nth_page, passes. destruct previous.
  - rewrite (proj2 (Z.ltb_ge _ _)) by lia. split; [lia|done].
  - rewrite (proj2 (Z.leb_gt _ _)) by lia. split; [lia|done].
Qed.

Lemma nth_page_range previous p d : 0 <= p < pagesCount -> 0 <= d <= pagesCount -> 0 <= nth_page previous p d < pagesCount.
Proof. intros Hp Hd. unfold nth_page, passes. destruct previous; [destruct (Z.ltb_spec (p - d) 0)|destruct (Z.leb_spec pagesCount (p + d))]; lia. Qed.

Lemma nth_page_add previous p a b : 0 <= p < pagesCount -> 0 <= a -> 0 <= b -> a + b <= pagesCount ->
  nth_page previous (nth_page previous p a) b = nth_page previous p (a + b) /\
  passes previous p a || passes previous (nth_page previous p a) b = passes previous p (a + b).
Proof.
  intros Hp Ha Hb Hab. unfold nth_page, passes. destruct previous.
  - destruct (Z.ltb_spec (p - a) 0), (Z.ltb_spec (p - (a + b)) 0);
      destruct (Z.ltb_spec (p - a + pagesCount - b) 0), (Z.ltb_spec (p - a - b) 0); split; try lia; done.
  - destruct (Z.leb_spec pagesCount (p + a)), (Z.leb_spec pagesCount (p + (a + b)));
      destruct (Z.leb_spec pagesCount (p + a - pagesCount + b)), (Z.leb_spec pagesCount (p + a + b)); split; try lia; done.
Qed.

Lemma nth_page_all previous p q : 0 <= p < pagesCount -> 0 <= q < pagesCount -> exists d, 0 <= d < pagesCount /\ nth_page previous p d = q.
Proof.
  intros Hp Hq. unfold nth_page, passes. destruct previous.
  - destruct (decide (q <= p)); [exists (p - q)|exists (p - q + pagesCount)]; (split; [lia|]);
      destruct (Z.ltb_spec (p - (p - q)) 0), (Z.ltb_spec (p - (p - q + pagesCount)) 0); lia.
  - destruct (decide (p <= q)); [exists (q - p)|exists (q - p + pagesCount)]; (split; [lia|]);
      destruct (Z.leb_spec pagesCount (p + (q - p))), (Z.leb_spec pagesCount (p + (q - p + pagesCount))); lia.
Qed.

(** [#advanceOffsetPage] *)
Lemma advance_next previous f : 0 <= o_pageIdx (offset f) < pagesCount ->
  advanceOffsetPage pagesCount previous f =
  set_pagesToSearch (pagesToSearch f - 1) (set_offset (mkOffset (nth_page previous (o_pageIdx (offset f)) 1) None
    (wrapped (offset f) || passes previous (o_pageIdx (offset f)) 1)) f).
Proof.
  intros Hp. unfold advanceOffsetPage, nth_page, passes. do 2 f_equal. destruct previous.
  - rewrite (proj2 (Z.leb_gt pagesCount (o_pageIdx (offset f) - 1))) by lia. cbn [orb].
    destruct (Z.ltb_spec (o_pageIdx (offset f) - 1) 0); [|by rewrite orb_false_r]. rewrite orb_true_r. f_equal; lia.
  - rewrite (proj2 (Z.ltb_ge (o_pageIdx (offset f) + 1) 0)) by lia. rewrite orb_false_r.
    destruct (Z.leb_spec pagesCount (o_pageIdx (offset f) + 1)); [|by rewrite orb_false_r]. rewrite orb_true_r. f_equal; lia.
Qed.

(** ** Passing empty pages *)

(** [d] pages on. *)
Definition moved (previous : bool) (d : Z) (f : Find) : Find :=
  set_pagesToSearch (pagesToSearch f - d) (set_offset (mkOffset (nth_page previous (o_pageIdx (offset f)) d) None
    (wrapped (offset f) || passes previous (o_pageIdx (offset f)) d)) f).

Definition empty_at (f : Find) (p : Z) : Prop := pageMatches f !! p = Some [].

Lemma moved_0 previous f : 0 <= o_pageIdx (offset f) < pagesCount -> o_matchIdx (offset f) = None -> moved previous 0 f = f.
Proof.
  intros Hp Hm. unfold moved. destruct (nth_page_0 previous _ Hp) as [-> ->]. rewrite orb_false_r, Z.sub_0_r.
  destruct f as [? ? ? ? ? ? ? [? o ?]]; cbn in *. by subst o.
Qed.

Lemma moved_add previous a b f : 0 <= o_pageIdx (offset f) < pagesCount -> 0 <= a -> 0 <= b -> a + b <= pagesCount ->
  moved previous b (moved previous a f) = moved previous (a + b) f.
Proof.
  intros Hp Ha Hb Hab. destruct (nth_page_add previous _ a b Hp Ha Hb Hab) as [E1 E2]. unfold moved.
  cbn [offset set_offset set_pagesToSearch o_pageIdx wrapped pagesToSearch]. rewrite E1, <- orb_assoc, E2.
  unfold set_pagesToSearch, set_offset. cbn. f_equal. lia.
Qed.

(** The matches of an empty page are not ready, unless all pages were passed. *)
Lemma empty_not_ready f s : state f = Some s -> 0 <= o_pageIdx (offset f) < pagesCount -> 0 <= pagesToSearch f - 1 ->
  matchesReady pagesCount progress [] f = (Ok false, moved (findPrevious s) 1 f).
Proof.
  intros Hs Hp Hpts. unfold matchesReady. unfold mbind at 1, get_state at 1. rewrite Hs. change (0 <? len []) with false. cbv iota.
  unfold mbind at 1, modify at 1, mbind at 1, get at 1. rewrite advance_next by done. fold (moved (findPrevious s) 1 f).
  destruct (wrapped (offset (moved (findPrevious s) 1 f))) eqn:Hw; [|done].
  unfold mbind at 1, modify at 1. rewrite (proj2 (Z.ltb_ge _ _)) by (cbn; lia). unfold mret. do 2 f_equal.
Qed.

Lemma scan_step k f s : state f = Some s -> 0 <= o_pageIdx (offset f) < pagesCount -> 0 <= pagesToSearch f - 1 ->
  empty_at f (o_pageIdx (offset f)) ->
  nextPageMatch_loop pagesCount progress (S k) f = nextPageMatch_loop pagesCount progress k (moved (findPrevious s) 1 f).
Proof.
  intros Hs Hp Hpts He. cbn [nextPageMatch_loop]. rewrite He. unfold mbind. by rewrite (empty_not_ready f s).
Qed.

Lemma scan d k f s : state f = Some s -> 0 <= o_pageIdx (offset f) < pagesCount -> o_matchIdx (offset f) = None ->
  Z.of_nat d <= pagesCount -> ((0 < d)%nat -> Z.of_nat d <= pagesToSearch f) ->
  (forall j, 0 <= j < Z.of_nat d -> empty_at f (nth_page (findPrevious s) (o_pageIdx (offset f)) j)) ->
  nextPageMatch_loop pagesCount progress (d + k) f = nextPageMatch_loop pagesCount progress k (moved (findPrevious s) (Z.of_nat d) f).
Proof.
  intros Hs Hp Hm. revert k. induction d as [|d IH]; intros k Hd Ht He.
  - by rewrite moved_0.
  - replace (S d + k)%nat with (d + S k)%nat by lia. rewrite IH by (lia || (intros j Hj; apply He; lia)).
    rewrite (scan_step k _ s); [|done| | |].
    + rewrite moved_add by lia. do 2 f_equal. lia.
    + apply nth_page_range; [done|lia].
    + cbn. lia.
    + apply He. lia.
Qed.

(** The three ends of the search. *)
Lemma scan_unknown d f s : state f = Some s -> 0 <= o_pageIdx (offset f) < pagesCount -> o_matchIdx (offset f) = None ->
  0 <= d <= pagesCount -> d <= pagesToSearch f ->
  (forall j, 0 <= j < d -> empty_at f (nth_page (findPrevious s) (o_pageIdx (offset f)) j)) ->
  pageMatches f !! nth_page (findPrevious s) (o_pageIdx (offset f)) d = None ->
  nextPageMatch pagesCount progress f =
  (Ok tt, set_resume (Some (nth_page (findPrevious s) (o_pageIdx (offset f)) d)) (moved (findPrevious s) d f)).
Proof.
  intros Hs Hp Hm Hd Ht He Hn. unfold nextPageMatch.
  replace (Z.to_nat pagesCount + 2)%nat with (Z.to_nat d + S (Z.to_nat (pagesCount - d) + 1))%nat by lia.
  rewrite (scan _ _ f s); rewrite ?Z2Nat.id by lia; try done; try lia.
  cbn [nextPageMatch_loop]. change (pageMatches (moved (findPrevious s) d f)) with (pageMatches f).
  change (o_pageIdx (offset (moved (findPrevious s) d f))) with (nth_page (findPrevious s) (o_pageIdx (offset f)) d). by rewrite Hn.
Qed.

Lemma scan_found d f s l : state f = Some s -> 0 <= o_pageIdx (offset f) < pagesCount -> o_matchIdx (offset f) = None ->
  0 <= d <= pagesCount -> (0 < d -> d <= pagesToSearch f) ->
  (forall j, 0 <= j < d -> empty_at f (nth_page (findPrevious s) (o_pageIdx (offset f)) j)) ->
  pageMatches f !! nth_page (findPrevious s) (o_pageIdx (offset f)) d = Some l -> l <> [] ->
  let m := if findPrevious s then len l - 1 else 0 in
  exists f', nextPageMatch pagesCount progress f = (Ok tt, f') /\ framed f f' /\ resumePageIdx f' = resumePageIdx f /\
    selected f' = (nth_page (findPrevious s) (o_pageIdx (offset f)) d, m) /\
    page f' = nth_page (findPrevious s) (o_pageIdx (offset f)) d + 1 /\
    (progress = true -> said f' = Some (if wrapped (offset f) || passes (findPrevious s) (o_pageIdx (offset f)) d then WRAPPED else FOUND)).
Proof.
  intros Hs Hp Hm Hd Ht He Hn Hl m. unfold nextPageMatch.
  replace (Z.to_nat pagesCount + 2)%nat with (Z.to_nat d + S (Z.to_nat (pagesCount - d) + 1))%nat by lia.
  rewrite (scan _ _ f s); rewrite ?Z2Nat.id by lia; try done; try lia.
  cbn [nextPageMatch_loop]. change (pageMatches (moved (findPrevious s) d f)) with (pageMatches f).
  change (o_pageIdx (offset (moved (findPrevious s) d f))) with (nth_page (findPrevious s) (o_pageIdx (offset f)) d). rewrite Hn.
  unfold matchesReady. unfold mbind at 1 2, get_state at 1. change (state (moved (findPrevious s) d f)) with (state f). rewrite Hs.
  assert (Hlen : (0 <? len l) = true) by (apply Z.ltb_lt; destruct l; [done|rewrite len_cons; pose proof (len_nonneg l); lia]).
  rewrite Hlen. unfold mbind at 1, modify at 1. fold m.
  match goal with |- context [mbind (updateMatch pagesCount progress true) _ ?g] => set (f1 := g) end.
  destruct (updateMatch_does pagesCount progress true f1 s Hs) as (f2 & E2 & Hfr & _ & Hsel & _ & Hr & Hsaid & Hpage).
  rewrite (mbind_ok _ _ _ _ _ E2). exists f2. split_and!; [done|exact Hfr|exact Hr|exact Hsel| |exact Hsaid].
  rewrite Hpage, Hsel. cbn [o_pageIdx offset set_offset f1 moved set_pagesToSearch fst].
  pose proof (nth_page_range (findPrevious s) _ d Hp Hd). by rewrite (proj2 (Z.eqb_neq _ _)) by lia.
Qed.

Lemma scan_exhausted f s : state f = Some s -> 0 <= o_pageIdx (offset f) < pagesCount -> o_matchIdx (offset f) = None ->
  0 <= pagesToSearch f <= pagesCount ->
  (forall j, 0 <= j <= pagesToSearch f -> empty_at f (nth_page (findPrevious s) (o_pageIdx (offset f)) j)) ->
  wrapped (offset f) || passes (findPrevious s) (o_pageIdx (offset f)) (pagesToSearch f) = true ->
  exists f', nextPageMatch pagesCount progress f = (Ok tt, f') /\ framed f f' /\ resumePageIdx f' = resumePageIdx f /\
    selected f' = selected f /\ (progress = true -> said f' = Some NOT_FOUND).
Proof.
  intros Hs Hp Hm Ht He Hw. unfold nextPageMatch. set (d := pagesToSearch f) in *.
  replace (Z.to_nat pagesCount + 2)%nat with (Z.to_nat d + S (Z.to_nat (pagesCount - d) + 1))%nat by lia.
  rewrite (scan _ _ f s); rewrite ?Z2Nat.id by lia; try done; try (subst d; lia); [|intros j Hj; apply He; lia].
  cbn [nextPageMatch_loop]. change (pageMatches (moved (findPrevious s) d f)) with (pageMatches f).
  change (o_pageIdx (offset (moved (findPrevious s) d f))) with (nth_page (findPrevious s) (o_pageIdx (offset f)) d).
  rewrite (He d ltac:(lia)). unfold matchesReady. unfold mbind at 1 2, get_state at 1.
  change (state (moved (findPrevious s) d f)) with (state f). rewrite Hs. change (0 <? len []) with false. cbv iota.
  unfold mbind at 1, modify at 1, mbind at 1, get at 1. set (f1 := advanceOffsetPage pagesCount (findPrevious s) _).
  assert (Hw1 : wrapped (offset f1) = true).
  { unfold f1. rewrite advance_next by (by apply nth_page_range). cbn [offset set_offset set_pagesToSearch wrapped moved]. by rewrite Hw. }
  rewrite Hw1. unfold mbind at 1, modify at 1. rewrite (proj2 (Z.ltb_lt _ _)) by (cbn; subst d; lia).
  match goal with |- context [mbind (updateMatch pagesCount progress false) _ ?g] => set (f2 := g) end.
  destruct (updateMatch_does pagesCount progress false f2 s Hs) as (f3 & E3 & Hfr & _ & Hsel & _ & Hr & Hsaid & _).
  rewrite (mbind_ok _ _ _ _ _ E3). exists f3. split_and!; [done|exact Hfr|exact Hr|exact Hsel|exact Hsaid].
Qed.

(** ** The next match of the document *)

(** The order of the matches in the document, or the reverse. *)
Definition before (previous : bool) (a b : Z * Z) : Prop :=
  if previous then b.1 < a.1 \/ b.1 = a.1 /\ b.2 < a.2 else a.1 < b.1 \/ a.1 = b.1 /\ a.2 < b.2.

(** [new] comes next after [cur]; with [around] there is none after it, and [new]
    is the first of all. *)
Definition comes_next (previous : bool) (f : Find) (cur new : Z * Z) (around : bool) : Prop :=
  is_match f new /\
  (if around then (forall m, is_match f m -> ~ before previous cur m) /\ (forall m, is_match f m -> ~ before previous m new)
  else before previous cur new /\ (forall m, is_match f m -> before previous cur m -> ~ before previous m new)).

(** The first or last match of a page. *)
Definition end_match (previous : bool) (l : list (Z * Z)) : Z := if previous then len l - 1 else 0.

(** The first page with a match among those that follow. *)
Lemma next_page (previous : bool) f p m l d : 0 <= p < pagesCount -> 1 <= d <= pagesCount ->
  (forall q l, pageMatches f !! q = Some l -> 0 <= q < pagesCount) ->
  (forall l', pageMatches f !! p = Some l' -> if previous then m <= 0 else len l' <= m + 1) ->
  (forall j, 1 <= j < d -> empty_at f (nth_page previous p j)) ->
  pageMatches f !! nth_page previous p d = Some l -> l <> [] ->
  comes_next previous f (p, m) (nth_page previous p d, end_match previous l) (passes previous p d).
Proof.
  intros Hp Hd Hkeys Hedge He Hl Hne. assert (Hlen : 0 < len l) by (destruct l; [done|rewrite len_cons; pose proof (len_nonneg l); lia]).
  split; [exists l; split; [exact Hl|]; cbn [snd]; unfold end_match; destruct previous; lia|].
  assert (Hno : forall x j, is_match f x -> 1 <= j < d -> nth_page previous p j = x.1 -> False).
  { intros x j (lx & Hlx & Hx) Hj E. specialize (He j Hj). unfold empty_at in He. rewrite E, Hlx in He. injection He as Hnil. subst lx.
    unfold len in Hx. cbn in Hx. lia. }
  assert (Hsame : forall x, is_match f x -> x.1 = p -> before previous (p, m) x -> False).
  { intros x (lx & Hlx & Hx) E Hb. rewrite E in Hlx. specialize (Hedge lx Hlx). unfold before in Hb. cbn [fst snd] in Hb. destruct previous; lia. }
  assert (Hend : forall x, is_match f x -> x.1 = nth_page previous p d -> before previous x (nth_page previous p d, end_match previous l) -> False).
  { intros x (lx & Hlx & Hx) E Hb. rewrite E, Hl in Hlx. injection Hlx as <-. unfold before, end_match in Hb. cbn [fst snd] in Hb. destruct previous; lia. }
  assert (Hrange : forall x, is_match f x -> 0 <= x.1 < pagesCount) by (intros x (lx & Hlx & _); by eapply Hkeys).
  unfold before in Hsame, Hend |- *. unfold nth_page, passes in *. cbn [fst snd] in *. destruct previous.
  - destruct (Z.ltb_spec (p - d) 0) as [Hw|Hw]; split.
    + intros x Hx Hb. specialize (Hrange x Hx). destruct (decide (x.1 = p)); [by apply (Hsame x)|].
      apply (Hno x (p - x.1)); [done|lia|]. destruct (Z.ltb_spec (p - (p - x.1)) 0); lia.
    + intros x Hx Hb. specialize (Hrange x Hx). destruct (decide (x.1 = p - d + pagesCount)); [by apply (Hend x)|].
      apply (Hno x (p - x.1 + pagesCount)); [done|lia|]. destruct (Z.ltb_spec (p - (p - x.1 + pagesCount)) 0); lia.
    + left. lia.
    + intros x Hx Hb1 Hb2. specialize (Hrange x Hx). destruct (decide (x.1 = p)); [by apply (Hsame x)|].
      destruct (decide (x.1 = p - d)); [by apply (Hend x)|].
      apply (Hno x (p - x.1)); [done|lia|]. destruct (Z.ltb_spec (p - (p - x.1)) 0); lia.
  - destruct (Z.leb_spec pagesCount (p + d)) as [Hw|Hw]; split.
    + intros x Hx Hb. specialize (Hrange x Hx). destruct (decide (x.1 = p)); [by apply (Hsame x)|].
      apply (Hno x (x.1 - p)); [done|lia|]. destruct (Z.leb_spec pagesCount (p + (x.1 - p))); lia.
    + intros x Hx Hb. specialize (Hrange x Hx). destruct (decide (x.1 = p + d - pagesCount)); [by apply (Hend x)|].
      apply (Hno x (x.1 - p + pagesCount)); [done|lia|]. destruct (Z.leb_spec pagesCount (p + (x.1 - p + pagesCount))); lia.
    + left. lia.
    + intros x Hx Hb1 Hb2. specialize (Hrange x Hx). destruct (decide (x.1 = p)); [by apply (Hsame x)|].
      destruct (decide (x.1 = p + d)); [by apply (Hend x)|].
      apply (Hno x (x.1 - p)); [done|lia|]. destruct (Z.leb_spec pagesCount (p + (x.1 - p))); lia.
Qed.

(** Where a walk over the first [n] pages stops. *)
Lemma walk (P : Z -> Prop) `{forall j, Decision (P j)} n : 0 <= n ->
  (forall j, 0 <= j < n -> P j) \/ exists d, 0 <= d < n /\ ~ P d /\ forall j, 0 <= j < d -> P j.
Proof.
  intros Hn. pattern n. apply natlike_ind; [left; lia| |done]. intros k Hk [Hall|(d & Hd & Hnd & Hj)].
  - destruct (decide (P k)) as [HP|HP]; [left; intros j Hj; destruct (decide (j = k)) as [->|]; [done|apply Hall; lia]|].
    right. exists k. split_and!; [lia|lia|done|done].
  - right. exists d. split_and!; [lia|lia|done|done].
Qed.

#[global] Instance empty_at_dec f p : Decision (empty_at f p).
Proof. unfold empty_at. apply _. Defined.

(** [#nextMatch] in a search that goes on. *)
Lemma nextMatch_continues f s : state f = Some s -> cached normalize f -> dirtyMatch f = false ->
  query_empty (query_of normalize s) = false -> resumePageIdx f = None ->
  exists f4, framed f (set_rawQuery (rawQuery f) (normalizedQuery f) f4) /\ offset f4 = offset f /\ selected f4 = selected f /\
    resumePageIdx f4 = None /\ pagesToSearch f4 = pagesCount /\ said f4 = said f /\ cached normalize f4 /\
    nextMatch normalize pagesCount progress f =
    match o_matchIdx (offset f4) with
    | Some matchIdx =>
        match pageMatches f4 !! o_pageIdx (offset f4) with
        | None => throw (TypeError "this._pageMatches[offset.pageIdx] is undefined")
        | Some matches =>
            if (negb (findPrevious s) && (matchIdx + 1 <? len matches)) || (findPrevious s && (0 <? matchIdx)) then
              modify (set_offset (mkOffset (o_pageIdx (offset f4)) (Some (if findPrevious s then matchIdx - 1 else matchIdx + 1)) (wrapped (offset f4)))) ;;;
              updateMatch pagesCount progress true
            else modify (advanceOffsetPage pagesCount (findPrevious s)) ;;; nextPageMatch pagesCount progress
        end
    | None => nextPageMatch pagesCount progress
    end f4.
Proof.
  intros Hs Hc Hd Hq Hr. unfold nextMatch. unfold mbind at 1, get_state at 1. rewrite Hs. unfold mbind at 1, modify at 1.
  unfold mbind at 1, gets at 1. change (dirtyMatch (set_highlightMatches true f)) with (dirtyMatch f). rewrite Hd. unfold mbind at 1, mret at 1.
  destruct (get_query_does normalize (set_highlightMatches true f) s Hc Hs) as (r & n & E & Hc'). rewrite (mbind_ok _ _ _ _ _ E), Hq.
  unfold mbind at 1, get at 1. change (resumePageIdx (set_rawQuery r n (set_highlightMatches true f))) with (resumePageIdx f). rewrite Hr.
  unfold truthy_index. unfold mbind at 1, modify at 1.
  exists (set_pagesToSearch pagesCount (set_rawQuery r n (set_highlightMatches true f))).
  split; [by split_and!|]. by split_and!.
Qed.

(** The next match of the same page. *)
Lemma next_in_page (previous : bool) f p m l : pageMatches f !! p = Some l ->
  0 <= (if previous then m - 1 else m + 1) < len l ->
  comes_next previous f (p, m) (p, if previous then m - 1 else m + 1) false.
Proof.
  intros Hl Hm. split; [by exists l|]. unfold before. cbn [fst snd]. destruct previous; (split; [lia|]); intros [q k] _ H1 H2; cbn in *; lia.
Qed.

(** The first page that follows with a match, the page itself at last. *)
Lemma first_following (previous : bool) f p l : 0 <= p < pagesCount -> pageMatches f !! p = Some l -> l <> [] ->
  (forall q, 0 <= q < pagesCount -> is_Some (pageMatches f !! q)) ->
  exists d l', 1 <= d <= pagesCount /\ (forall j, 1 <= j < d -> empty_at f (nth_page previous p j)) /\
    pageMatches f !! nth_page previous p d = Some l' /\ l' <> [].
Proof.
  intros Hp Hl Hne Hall.
  assert (Hn : nth_page previous p pagesCount = p) by (unfold nth_page, passes; destruct previous; [ztest|ztest]; lia).
  destruct (walk (fun j => empty_at f (nth_page previous p (j + 1))) (pagesCount - 1) ltac:(lia)) as [Hw|(d & Hd & Hd1 & Hd2)].
  - exists pagesCount, l. rewrite Hn. split_and!; [lia|lia| |done|done]. intros j Hj. specialize (Hw (j - 1) ltac:(lia)).
    by replace (j - 1 + 1) with j in Hw by lia.
  - destruct (Hall (nth_page previous p (d + 1)) ltac:(apply nth_page_range; lia)) as [l' Hl'].
    exists (d + 1), l'. split_and!; [lia|lia| |done|intros ->; by apply Hd1]. intros j Hj. specialize (Hd2 (j - 1) ltac:(lia)).
    by replace (j - 1 + 1) with j in Hd2 by lia.
Qed.

(** From one match to the next. *)
Lemma nextMatch_next e f s m : find_ok e normalize pagesCount f -> state f = Some s -> dirtyMatch f = false ->
  query_empty (query_of normalize s) = false -> o_matchIdx (offset f) = Some m ->
  (forall p, 0 <= p < pagesCount -> is_Some (pageMatches f !! p)) ->
  exists f' around, nextMatch normalize pagesCount progress f = (Ok tt, f') /\
    comes_next (findPrevious s) f (selected f) (selected f') around /\
    (progress = true -> said f' = Some (if around then WRAPPED else FOUND)).
Proof.
  intros Hf Hs Hd Hq Hm Hall.
  assert (Hr : resumePageIdx f = None).
  { destruct (resumePageIdx f) eqn:E; [|done]. destruct (ok_resume _ _ _ f Hf _ E) as (_ & ? & _). congruence. }
  destruct (nextMatch_continues f s Hs (ok_cache _ _ _ f Hf) Hd Hq Hr) as (f4 & Hfr4 & Ho4 & Hsel4 & Hr4 & Hpt4 & _ & _ & ->).
  destruct Hfr4 as (Hst4 & Hpm4 & _). cbn [state pageMatches set_rawQuery] in Hst4, Hpm4.
  assert (Hs4 : state f4 = Some s) by congruence.
  destruct (ok_offset _ _ _ f Hf m Hm) as (Hw & Hsel & l & Hl & Hlen). rewrite Hsel in *. cbn [fst snd] in Hl, Hlen.
  pose proof (ok_offpage _ _ _ f Hf) as Hp. rewrite Ho4, Hm, Hpm4, Hl, Hw. set (p := o_pageIdx (offset f)) in *.
  destruct ((negb (findPrevious s) && (m + 1 <? len l)) || (findPrevious s && (0 <? m))) eqn:Hin.
  - unfold mbind, modify. match goal with |- context [updateMatch pagesCount progress true ?g] => set (f5 := g) end.
    destruct (updateMatch_does pagesCount progress true f5 s Hs4) as (f6 & E6 & _ & _ & Hsel6 & _ & _ & Hsaid & _).
    exists f6, false. split; [exact E6|]. rewrite Hsel6. split; [|exact Hsaid]. apply (next_in_page _ f p m l Hl).
    apply orb_true_iff in Hin as [Hin|Hin]; bool_hyps; destruct (findPrevious s); try done; lia.
  - unfold mbind, modify. rewrite advance_next by (rewrite Ho4; done). fold (moved (findPrevious s) 1 f4).
    assert (Hne : l <> []) by (intros Hnil; rewrite Hnil in Hlen; unfold len in Hlen; cbn in Hlen; lia).
    destruct (first_following (findPrevious s) f p l Hp Hl Hne Hall) as (d & l' & Hdr & He & Hl' & Hne').
    destruct (nth_page_add (findPrevious s) p 1 (d - 1) Hp ltac:(lia) ltac:(lia) ltac:(lia)) as [E1 E2].
    replace (1 + (d - 1)) with d in * by lia.
    assert (Hoff : offset (moved (findPrevious s) 1 f4) = mkOffset (nth_page (findPrevious s) p 1) None (passes (findPrevious s) p 1)).
    { unfold moved. cbn. by rewrite Ho4, Hw. }
    destruct (scan_found (d - 1) (moved (findPrevious s) 1 f4) s l') as (f5 & E5 & _ & _ & Hsel5 & _ & Hsaid5); rewrite ?Hoff; cbn [o_pageIdx o_matchIdx].
    + exact Hs4.
    + apply nth_page_range; lia.
    + done.
    + lia.
    + cbn. lia.
    + intros j Hj. change (empty_at (moved (findPrevious s) 1 f4)) with (empty_at f4). unfold empty_at. rewrite Hpm4.
      destruct (nth_page_add (findPrevious s) p 1 j Hp ltac:(lia) ltac:(lia) ltac:(lia)) as [-> _]. apply He. lia.
    + change (pageMatches (moved (findPrevious s) 1 f4)) with (pageMatches f4). by rewrite Hpm4, E1.
    + done.
    + exists f5, (passes (findPrevious s) p d). rewrite Hoff in Hsel5, Hsaid5. cbn [o_pageIdx wrapped] in Hsel5, Hsaid5.
      rewrite E1 in Hsel5. rewrite E2 in Hsaid5. split; [exact E5|]. rewrite Hsel5. split; [|exact Hsaid5].
      apply (next_page (findPrevious s) f p m l' d); try done; [by apply (ok_keys _ _ _ f Hf)|].
      intros l2 Hl2. assert (l2 = l) as -> by congruence. apply orb_false_iff in Hin as [H1 H2].
      destruct (findPrevious s); bool_hyps; cbn in *; bool_hyps; lia.
Qed.
End Next.
