(* ===== verification/FindRun.v ===== *)
(** * The search of the viewer, page by page

    The texts of the pages may come in any order: the search selects the same
    match, the nearest one to the page that is shown.  In every state that
    events lead to, what is selected is a match and a search that waits is taken
    up; but closing the find bar misses a search that waits for the first page. *)
From stdpp Require Import gmap.
From S2P Require Import Prelude Primitives FindQuery FindQuerySpec FindController FindSpec FindNext.
Local Open Scope js_scope.

Section Run.
Context (e : Engine) (normalize : jstr -> jstr) (pagesCount : Z) (progress : bool).
Context (Hpages : 1 <= pagesCount) (Hengine : engine_ok e).

Fixpoint run_events (evs : list FindEvent) : M Find unit :=
  match evs with
  | [] => mret tt
  | ev :: evs => find_step e normalize pagesCount progress ev ;;; run_events evs
  end.

Lemma events_reached evs f f' : find_reached e normalize pagesCount progress f -> Forall (event_ok e normalize) evs ->
  run_events evs f = (Ok tt, f') -> find_reached e normalize pagesCount progress f'.
Proof.
  intros Hf Hevs. revert f Hf. induction Hevs as [|ev evs Hev _ IH]; intros f Hf; cbn [run_events]; [by intros [= <-]|].
  unfold mbind. destruct (find_step e normalize pagesCount progress ev f) as [[[]| |] f1] eqn:E; try done.
  apply IH. by apply (reached_step _ _ _ _ ev f).
Qed.

Lemma run_app evs evs' f f' : run_events evs f = (Ok tt, f') -> run_events (evs ++ evs') f = run_events evs' f'.
Proof.
  revert f. induction evs as [|ev evs IH]; intros f; cbn [run_events app]; [by intros [= ->]|]. unfold mbind.
  destruct (find_step e normalize pagesCount progress ev f) as [[[]| |] f1]; [apply IH|done..].
Qed.

(** The same search, but for what is shown of it. *)
Definition alike (f f' : Find) : Prop :=
  state f' = state f /\ pageMatches f' = pageMatches f /\ offset f' = offset f /\ selected f' = selected f /\
  texts f' = texts f /\ pagesToSearch f' = pagesToSearch f /\ pendingFindMatches f' = pendingFindMatches f /\
  resumePageIdx f' = resumePageIdx f /\ dirtyMatch f' = dirtyMatch f /\ said f' = said f.

Lemma alike_refl f : alike f f.
Proof. by split_and!. Qed.
Lemma alike_trans f1 f2 f3 : alike f1 f2 -> alike f2 f3 -> alike f1 f3.
Proof. unfold alike. intuition congruence. Qed.

(** The end of [#calculateMatch]: only numbers. *)
Lemma count_matches_alike n f :
  exists f', (modify (fun f => set_counts (visitedPagesCount f) (matchesCountTotal f + n) f) ;;;
     if progress then if 0 <? n then updateUIResultsCount else mret tt
     else modify (fun f => set_counts (visitedPagesCount f + 1) (matchesCountTotal f) f) ;;;
       f <- get ;; if visitedPagesCount f =? pagesCount then updateUIResultsCount else mret tt) f = (Ok tt, f') /\
    alike f f' /\ page f' = page f.
Proof.
  assert (Hsaid : forall d f1, quiet d -> said (send d f1) = said f1) by (intros d f1 Hd; rewrite said_send; by destruct d).
  unfold updateUIResultsCount, dispatch. m_red. destruct progress; [destruct (0 <? n)|destruct (_ =? pagesCount)];
    eexists; (split; [reflexivity|]); (split; [|done]); split_and!; try done; by rewrite Hsaid.
Qed.

(** The matches of a page in a search. *)
Definition matches_of (f : Find) (s : SearchState) (i : Z) : list (Z * Z) :=
  match find_matches e s (query_of normalize s) (default (mkText [] None false) (texts f !! i)) with Ok l => l | _ => [] end.

Lemma matches_of_ok f s i : find_ok e normalize pagesCount f -> state f = Some s ->
  find_matches e s (query_of normalize s) (default (mkText [] None false) (texts f !! i)) = Ok (matches_of f s i).
Proof.
  intros Hf Hs. unfold matches_of, find_matches.
  assert (Ht : text_ok (default (mkText [] None false) (texts f !! i))) by (destruct (texts f !! i) as [t|] eqn:Et; [by apply (ok_texts _ _ _ f Hf i)|exact I]).
  destruct (page_matches_ends e (options s) (query_of normalize s) _ Hengine (ok_query _ _ _ f Hf s Hs) Ht) as [l ->]. done.
Qed.

(** A page that the search does not wait for, and the page it waits for. *)
Lemma page_ready f s i : find_ok e normalize pagesCount f -> state f = Some s -> query_empty (query_of normalize s) = false ->
  i ∈ pendingFindMatches f -> is_Some (texts f !! i) ->
  exists f1 f', find_step e normalize pagesCount progress (PageReady i) f = (Ok tt, f') /\
    alike (with_matches i (matches_of f s i) f) f1 /\
    (resumePageIdx f <> Some i -> alike f1 f') /\
    (resumePageIdx f = Some i -> exists f2, nextPageMatch pagesCount progress (set_resume None f1) = (Ok tt, f2) /\ alike f2 f' /\ page f' = page f2).
Proof.
  intros Hf Hs Hq Hi Ht. destruct (find_step_keeps e normalize pagesCount progress Hpages Hengine (PageReady i) f Hf I) as (f' & E & _).
  enough (Hdone : exists f1, alike (with_matches i (matches_of f s i) f) f1 /\ (resumePageIdx f <> Some i -> alike f1 f') /\
    (resumePageIdx f = Some i -> exists f2, nextPageMatch pagesCount progress (set_resume None f1) = (Ok tt, f2) /\ alike f2 f' /\ page f' = page f2)).
  { destruct Hdone as (f1 & Hdone). by exists f1, f'. }
  revert E. cbn [find_step]. rewrite !bool_decide_eq_true_2 by done. cbn [andb]. unfold mbind at 1, modify at 1.
  set (f0 := set_pending (pendingFindMatches f ∖ {[i]}) f). unfold calculateMatch. change (state f0) with (state f). rewrite Hs.
  destruct (get_query_does normalize f0 s (ok_cache _ _ _ f Hf) Hs) as (r & n & Eq & Hc). rewrite (mbind_ok _ _ _ _ _ Eq), Hq.
  unfold mbind at 1, gets at 1. change (texts (set_rawQuery r n f0)) with (texts f). unfold mbind at 1. rewrite (matches_of_ok f s i Hf Hs).
  unfold mbind at 1, modify at 1. set (l := matches_of f s i). change (set_pageMatches _ (set_rawQuery r n f0)) with (with_matches i l (set_rawQuery r n f)).
  assert (H1 : exists f1, (if highlightAll s then updatePage i else mret tt) (with_matches i l (set_rawQuery r n f)) = (Ok tt, f1) /\
    alike (with_matches i l f) f1).
  { destruct (highlightAll s); [|eexists; split; [reflexivity|]; by split_and!].
    destruct (updatePage_does i (with_matches i l (set_rawQuery r n f))) as (f1 & E1 & Hfr & ? & ? & ? & ? & ? & _). exists f1. split; [exact E1|].
    unfold framed in Hfr. unfold alike. intuition. }
  destruct H1 as (f1 & E1 & Ha1). rewrite (mbind_ok _ _ _ _ _ E1). unfold mbind at 1, gets at 1.
  assert (Hr1 : resumePageIdx f1 = resumePageIdx f) by (by destruct Ha1 as (_ & _ & _ & _ & _ & _ & _ & -> & _)). rewrite Hr1.
  intros E. exists f1. split; [exact Ha1|]. destruct (decide (resumePageIdx f = Some i)) as [Hres|Hres].
  - rewrite bool_decide_eq_true_2 in E by done. unfold mbind at 1 2, modify at 1 in E.
    destruct (nextPageMatch pagesCount progress (set_resume None f1)) as [[[]| |] f2] eqn:E2; try done.
    destruct (count_matches_alike (len l) f2) as (f3 & E3 & Ha3 & Hp3). rewrite E3 in E. injection E as <-.
    split; [done|]. intros _. by exists f2.
  - rewrite bool_decide_eq_false_2 in E by done. unfold mbind at 1, mret at 1 in E.
    destruct (count_matches_alike (len l) f1) as (f3 & E3 & Ha3 & _). rewrite E3 in E. injection E as <-. by split.
Qed.

(** ** A search over the pages *)

Section Search.
Context (s : SearchState) (page0 : Z) (found_on : Z -> list (Z * Z)).
Context (Hquery : query_empty (query_of normalize s) = false) (Hpage0 : 0 <= page0 < pagesCount).
Abbreviation nth := (nth_page pagesCount (findPrevious s) page0).
Abbreviation around := (passes pagesCount (findPrevious s) page0).

(** How far the search has come when the pages [D] are done. *)
Inductive phase (D : gset Z) (f : Find) : Prop :=
| Waiting d : 0 <= d < pagesCount -> resumePageIdx f = Some (nth d) -> offset f = mkOffset (nth d) None (around d) ->
    pagesToSearch f = pagesCount - d -> (forall j, 0 <= j < d -> nth j ∈ D /\ found_on (nth j) = []) -> nth d ∉ D ->
    selected f = (-1, -1) -> phase D f
| Found d : 0 <= d < pagesCount -> resumePageIdx f = None -> (forall j, 0 <= j < d -> found_on (nth j) = []) ->
    found_on (nth d) <> [] -> selected f = (nth d, end_match (findPrevious s) (found_on (nth d))) ->
    (progress = true -> said f = Some (if around d then WRAPPED else FOUND)) -> phase D f
| Exhausted : resumePageIdx f = None -> (forall j, 0 <= j < pagesCount -> found_on (nth j) = []) ->
    selected f = (-1, -1) -> (progress = true -> said f = Some NOT_FOUND) -> phase D f.

Definition known_on (D : gset Z) (f : Find) : Prop :=
  forall p, 0 <= p < pagesCount -> pageMatches f !! p = if bool_decide (p ∈ D) then Some (found_on p) else None.

Lemma nth_add a b : 0 <= a -> 0 <= b -> a + b <= pagesCount ->
  nth_page pagesCount (findPrevious s) (nth a) b = nth (a + b) /\
  around a || passes pagesCount (findPrevious s) (nth a) b = around (a + b).
Proof. intros. by apply nth_page_add. Qed.

Lemma nth_whole : nth pagesCount = nth 0 /\ around pagesCount = true.
Proof.
  destruct (nth_page_0 pagesCount (findPrevious s) page0 Hpage0) as [-> _]. unfold nth_page, passes.
  destruct (findPrevious s); [rewrite (proj2 (Z.ltb_lt _ _)) by lia|rewrite (proj2 (Z.leb_le _ _)) by lia]; split; lia || done.
Qed.

(** The search goes on from a page that is known now. *)
Lemma search_on D f d : state f = Some s -> known_on D f -> 0 <= d < pagesCount ->
  offset f = mkOffset (nth d) None (around d) -> pagesToSearch f = pagesCount - d -> resumePageIdx f = None ->
  (forall j, 0 <= j < d -> nth j ∈ D /\ found_on (nth j) = []) -> selected f = (-1, -1) ->
  exists f', nextPageMatch pagesCount progress f = (Ok tt, f') /\ framed f f' /\ phase D f'.
Proof.
  intros Hs Hk Hd Ho Hpts Hr Hj Hsel.
  pose proof (nth_page_range pagesCount (findPrevious s) page0 d Hpage0 ltac:(lia)) as Hrange.
  assert (Hp : 0 <= o_pageIdx (offset f) < pagesCount) by (by rewrite Ho).
  assert (Hm : o_matchIdx (offset f) = None) by (by rewrite Ho).
  assert (Hempty : forall j, 0 <= j <= pagesCount - d -> empty_at f (nth_page pagesCount (findPrevious s) (o_pageIdx (offset f)) j) ->
    nth (d + j) ∈ D /\ found_on (nth (d + j)) = []).
  { intros j Hjr He. rewrite Ho in He. cbn [o_pageIdx] in He. destruct (nth_add d j ltac:(lia) ltac:(lia) ltac:(lia)) as [E _].
    rewrite E in He. unfold empty_at in He. rewrite Hk in He by (apply nth_page_range; lia). case_bool_decide; [|done]. split; [done|congruence]. }
  destruct (walk (fun j => empty_at f (nth_page pagesCount (findPrevious s) (o_pageIdx (offset f)) j)) (pagesCount - d) ltac:(lia)) as [Hall|(k & Hkr & Hk1 & Hk2)].
  - assert (Hnone : forall j, 0 <= j < pagesCount -> nth j ∈ D /\ found_on (nth j) = []).
    { intros j Hjr. destruct (decide (j < d)); [by apply Hj; lia|]. destruct (Hempty (j - d) ltac:(lia) (Hall (j - d) ltac:(lia))) as [? ?].
      by replace (d + (j - d)) with j in * by lia. }
    destruct nth_whole as [Hn0 Hn1]. destruct (nth_add d (pagesCount - d) ltac:(lia) ltac:(lia) ltac:(lia)) as [E1 E2].
    replace (d + (pagesCount - d)) with pagesCount in * by lia.
    destruct (scan_exhausted pagesCount progress Hpages f s) as (f' & E & Hfr & Hr' & Hsel' & Hsaid); [done|done|done|lia| | |].
    + intros j Hjr. destruct (decide (j = pagesCount - d)) as [->|]; [|apply Hall; lia].
      rewrite Ho. cbn [o_pageIdx]. rewrite E1, Hn0. destruct (Hnone 0 ltac:(lia)) as [H0 H1]. unfold empty_at.
      rewrite Hk by (apply nth_page_range; lia). by rewrite bool_decide_eq_true_2, H1.
    + rewrite Hpts, Ho. cbn [wrapped o_pageIdx]. by rewrite E2.
    + exists f'. split_and!; [done|done|]. apply Exhausted; [congruence| |congruence|done]. intros j Hjr. by apply Hnone.
  - destruct (nth_add d k ltac:(lia) ltac:(lia) ltac:(lia)) as [E1 E2]. rewrite Ho in Hk1. cbn [o_pageIdx] in Hk1. rewrite E1 in Hk1.
    assert (Hbefore : forall j, 0 <= j < d + k -> nth j ∈ D /\ found_on (nth j) = []).
    { intros j Hjr. destruct (decide (j < d)); [by apply Hj; lia|]. destruct (Hempty (j - d) ltac:(lia) (Hk2 (j - d) ltac:(lia))) as [? ?].
      by replace (d + (j - d)) with j in * by lia. }
    pose proof (nth_page_range pagesCount (findPrevious s) page0 (d + k) Hpage0 ltac:(lia)) as Hr2. pose proof (Hk _ Hr2) as Hat.
    case_bool_decide as Hin.
    + destruct (scan_found pagesCount progress Hpages k f s (found_on (nth (d + k)))) as (f' & E & Hfr & Hr' & Hsel' & _ & Hsaid);
        [done|done|done|lia|lia|done|by rewrite Ho; cbn [o_pageIdx]; rewrite E1|intros He; apply Hk1; unfold empty_at; by rewrite Hat, He|].
      rewrite Ho in Hsel', Hsaid. cbn [o_pageIdx wrapped] in Hsel', Hsaid. rewrite E1 in Hsel'. rewrite E2 in Hsaid.
      exists f'. split_and!; [done|done|]. apply (Found D f' (d + k)); [lia|congruence| |intros He; apply Hk1; unfold empty_at; by rewrite Hat, He|done|done].
      intros j Hjr. by apply Hbefore.
    + pose proof (scan_unknown pagesCount progress Hpages k f s Hs Hp Hm ltac:(lia) ltac:(lia) Hk2) as E.
      rewrite Ho in E. cbn [o_pageIdx] in E. rewrite E1 in E. eexists. split; [by apply E|]. split; [by split_and!|].
      apply (Waiting D _ (d + k)); try done; [lia| |cbn; lia]. unfold moved. cbn [offset set_resume set_pagesToSearch set_offset].
      rewrite Ho. cbn [o_pageIdx wrapped]. by rewrite E1, E2.
Qed.

(** The search when the pages [D] are done. *)
Record run_at (t : gmap Z PageText) (D : gset Z) (f : Find) : Prop := {
  run_ok : find_ok e normalize pagesCount f;
  run_state : state f = Some s;
  run_texts : texts f = t;
  run_dirty : dirtyMatch f = false;
  run_pending : pendingFindMatches f = all_pages pagesCount ∖ D;
  run_known : known_on D f;
  run_phase : phase D f
}.

Lemma phase_alike D f f' : alike f f' -> phase D f -> phase D f'.
Proof.
  intros (_ & _ & Ho & Hse & _ & Hpt & _ & Hr & _ & Hsaid) [d|d|].
  - by apply (Waiting D f' d); rewrite ?Hr, ?Ho, ?Hpt, ?Hse.
  - by apply (Found D f' d); rewrite ?Hr, ?Hse, ?Hsaid.
  - by apply Exhausted; rewrite ?Hr, ?Hse, ?Hsaid.
Qed.

Lemma run_page t D f i : run_at t D f -> 0 <= i < pagesCount -> i ∉ D -> is_Some (t !! i) -> found_on i = matches_of f s i ->
  exists f', find_step e normalize pagesCount progress (PageReady i) f = (Ok tt, f') /\ run_at t (D ∪ {[i]}) f'.
Proof.
  intros [Hok Hs Ht Hdirty Hpend Hk Hph] Hi Hn Htext Hfound.
  assert (Hip : i ∈ pendingFindMatches f) by (rewrite Hpend; apply elem_of_difference; split; [by apply elem_all_pages|done]).
  destruct (page_ready f s i Hok Hs Hquery Hip ltac:(by rewrite Ht)) as (f1 & f' & E & Ha & Hother & Hthis).
  destruct (find_step_keeps e normalize pagesCount progress Hpages Hengine (PageReady i) f Hok I) as (f'' & E'' & Hok').
  assert (f'' = f') as -> by congruence. clear E''. rewrite <- Hfound in Ha. exists f'. split; [exact E|].
  assert (Hk1 : known_on (D ∪ {[i]}) f1).
  { intros p Hp. destruct Ha as (_ & -> & _). cbn. destruct (decide (p = i)) as [->|Hne].
    - rewrite lookup_insert_eq. by rewrite bool_decide_eq_true_2 by set_solver.
    - rewrite lookup_insert_ne by done. rewrite (Hk p Hp). by rewrite (bool_decide_ext (p ∈ D ∪ {[i]}) (p ∈ D)) by set_solver. }
  assert (Hrest : forall g, state g = state f1 -> texts g = texts f1 -> dirtyMatch g = dirtyMatch f1 ->
    pendingFindMatches g = pendingFindMatches f1 -> pageMatches g = pageMatches f1 -> phase (D ∪ {[i]}) g -> find_ok e normalize pagesCount g ->
    run_at t (D ∪ {[i]}) g).
  { intros g G1 G2 G3 G4 G5 Hg Hokg. pose proof Ha as (A1 & _ & _ & _ & A2 & _ & A3 & _ & A4 & _). constructor; try done.
    - by rewrite G1, A1.
    - by rewrite G2, A2.
    - by rewrite G3, A4.
    - rewrite G4, A3. cbn. rewrite Hpend. set_solver.
    - intros p Hp. rewrite G5. by apply Hk1. }
  pose proof Ha as (A1 & A2 & A3 & A4 & A5 & A6 & A7 & A8 & A9 & A10).
  destruct (decide (resumePageIdx f = Some i)) as [Hres|Hres].
  - destruct (Hthis Hres) as (f2 & E2 & Ha2 & _). destruct Hph as [d Hd Hw Ho Hpt Hj Hnd Hsel|d _ Hw|Hw]; [|congruence..].
    assert (i = nth d) as -> by congruence.
    destruct (search_on (D ∪ {[nth d]}) (set_resume None f1) d) as (f3 & E3 & Hfr & Hph3).
    + cbn. by rewrite A1.
    + exact Hk1.
    + done.
    + cbn. by rewrite A3.
    + cbn. by rewrite A6.
    + done.
    + intros j Hjr. destruct (Hj j Hjr). split; [set_solver|done].
    + cbn. by rewrite A4.
    + assert (f3 = f2) as -> by congruence. destruct Hfr as (F1 & F2 & _ & _ & _ & F3 & F4 & F5 & _).
      cbn [state pageMatches texts pendingFindMatches dirtyMatch set_resume] in F1, F2, F3, F4, F5.
      pose proof Ha2 as (B1 & B2 & _ & _ & B3 & _ & B4 & _ & B5 & _).
      apply Hrest; [congruence|congruence|congruence|congruence|congruence|by apply (phase_alike _ f2)|done].
  - pose proof (Hother Hres) as Ho. pose proof Ho as (B1 & B2 & _ & _ & B3 & _ & B4 & _ & B5 & _).
    apply Hrest; [congruence|congruence|congruence|congruence|congruence| |done]. apply (phase_alike _ f1); [done|].
    destruct Hph as [d Hd Hw Ho' Hpt Hj Hnd Hsel|d Hd Hw Hj Hf Hsel Hsaid|Hw Hf Hsel Hsaid].
    + apply (Waiting _ f1 d); [done|by rewrite A8|by rewrite A3|by rewrite A6| | |by rewrite A4].
      * intros j Hjr. destruct (Hj j Hjr). split; [set_solver|done].
      * assert (nth d <> i) by congruence. set_solver.
    + apply (Found _ f1 d); [done|by rewrite A8|done|done|by rewrite A4|]. intros Hpr. rewrite A10. by apply Hsaid.
    + apply Exhausted; [by rewrite A8|done|by rewrite A4|]. intros Hpr. rewrite A10. by apply Hsaid.
Qed.

(** The callbacks of the pages of a list, in its order. *)
Lemma run_pages t order D f : run_at t D f -> NoDup order -> (forall i, i ∈ order -> 0 <= i < pagesCount /\ i ∉ D /\ is_Some (t !! i)) ->
  (forall f i, texts f = t -> found_on i = matches_of f s i) ->
  exists f', run_events (map PageReady order) f = (Ok tt, f') /\ run_at t (D ∪ list_to_set order) f'.
Proof.
  intros Hrun Hnd. revert D f Hrun. induction Hnd as [|i order Hi Hnd IH]; intros D f Hrun Hin Hg.
  - exists f. split; [done|]. assert (E0 : D ∪ list_to_set [] = D) by set_solver. by rewrite E0.
  - destruct (Hin i ltac:(by left)) as (Hir & HiD & Ht).
    destruct (run_page t D f i Hrun Hir HiD Ht) as (f1 & E1 & Hrun1); [by apply Hg, (run_texts t D f)|].
    destruct (IH (D ∪ {[i]}) f1 Hrun1) as (f2 & E2 & Hrun2); [|done|].
    + intros j Hj. destruct (Hin j ltac:(by right)) as (? & ? & ?). split; [done|]. split; [set_solver|done].
    + exists f2. cbn [map run_events]. rewrite (mbind_ok _ _ _ _ _ E1). split; [exact E2|].
      cbn [list_to_set]. by replace (D ∪ ({[i]} ∪ list_to_set order)) with (D ∪ {[i]} ∪ list_to_set order) by set_solver.
Qed.
End Search.

(** A new search waits for the page that is shown. *)
Lemma nextMatch_starts f s : find_ok e normalize pagesCount f -> state f = Some s -> dirtyMatch f = true ->
  query_empty (query_of normalize s) = false ->
  exists f', nextMatch normalize pagesCount progress f = (Ok tt, f') /\ texts f' = texts f /\
    run_at s (page f - 1) (fun i => matches_of f s i) (texts f) ∅ f'.
Proof.
  intros Hf Hs Hd Hq. destruct (nextMatch_keeps e normalize pagesCount progress Hpages f s Hf Hs) as (f' & E & Hok & _).
  exists f'. split; [exact E|]. assert (Hp : 0 <= page f - 1 < pagesCount) by (destruct (ok_page _ _ _ f Hf); lia).
  revert E. unfold nextMatch. unfold mbind at 1, get_state at 1. rewrite Hs. unfold mbind at 1, modify at 1. unfold mbind at 1, gets at 1.
  change (dirtyMatch (set_highlightMatches true f)) with (dirtyMatch f). rewrite Hd.
  destruct (start_search_keeps e normalize pagesCount Hpages (set_highlightMatches true f) s ltac:(by apply set_highlightMatches_ok) Hs)
    as (f1 & E1 & Hok1 & Hs1 & Hd1 & Hm1 & Hr1). rewrite (mbind_ok _ _ _ _ _ E1).
  destruct (get_query_does normalize f1 s (ok_cache _ _ _ f1 Hok1) Hs1) as (r & n & Eq & _). rewrite (mbind_ok _ _ _ _ _ Eq), Hq.
  unfold mbind at 1, get at 1. change (resumePageIdx (set_rawQuery r n f1)) with (resumePageIdx f1). rewrite Hr1. unfold truthy_index.
  unfold mbind at 1, modify at 1. change (offset (set_rawQuery r n f1)) with (offset f1). rewrite Hm1.
  set (f2 := set_pagesToSearch pagesCount (set_rawQuery r n f1)).
  assert (Hf1 : offset f1 = mkOffset (page f - 1) None false /\ selected f1 = (-1, -1) /\ pageMatches f1 = ∅ /\ texts f1 = texts f /\
    pendingFindMatches f1 = pendingFindMatches f ∪ all_pages pagesCount).
  { revert E1. unfold start_search, updateAllPages, dispatch. m_red. intros [= <-]. by split_and!. }
  destruct Hf1 as (Ho & Hsel & Hpm & Ht & Hpend).
  destruct (nth_page_0 pagesCount (findPrevious s) (page f - 1) Hp) as [Hn0 Ha0].
  pose proof (scan_unknown pagesCount progress Hpages 0 f2 s) as Hscan. change (offset f2) with (offset f1) in Hscan.
  change (pageMatches f2) with (pageMatches f1) in Hscan. rewrite Ho, Hpm in Hscan. cbn [o_pageIdx o_matchIdx] in Hscan.
  rewrite Hscan; [|done|done|done|lia|cbn; lia|intros j Hj; lia|by rewrite lookup_empty].
  intros [= <-]. split; [exact Ht|]. constructor; try done.
  - change (pendingFindMatches f1 = all_pages pagesCount ∖ ∅). rewrite Hpend. apply set_eq. intros p. rewrite elem_of_difference, elem_of_union.
    split; [|intros [? _]; by right]. intros Hin. split; [|apply not_elem_of_empty]. destruct Hin as [Hin|]; [|done].
    apply elem_all_pages; [done|]. destruct (ok_pending _ _ _ f Hf p Hin) as [Hr _]. exact Hr.
  - intros p Hpr. change (pageMatches f1 !! p = if bool_decide (p ∈ (∅ : gset Z)) then Some (matches_of f s p) else None).
    rewrite Hpm, lookup_empty. by rewrite bool_decide_eq_false_2 by set_solver.
  - apply (Waiting s (page f - 1) _ ∅ _ 0); cbn; [lia|done| |lia|intros j Hj; lia|apply not_elem_of_empty|done].
    rewrite Ho. cbn. by rewrite Hn0, Ha0.
Qed.

(** [f'] selects the match of [f] nearest to the page shown, if there is one. *)
Definition nearest_selected (s : SearchState) (f f' : Find) : Prop :=
  let nth := nth_page pagesCount (findPrevious s) (page f - 1) in
  ((forall i, 0 <= i < pagesCount -> matches_of f s i = []) /\ selected f' = (-1, -1) /\ (progress = true -> said f' = Some NOT_FOUND)) \/
  (exists d, 0 <= d < pagesCount /\ (forall j, 0 <= j < d -> matches_of f s (nth j) = []) /\ matches_of f s (nth d) <> [] /\
    selected f' = (nth d, end_match (findPrevious s) (matches_of f s (nth d))) /\
    (progress = true -> said f' = Some (if passes pagesCount (findPrevious s) (page f - 1) d then WRAPPED else FOUND))).

(** C5. A new search selects the match nearest to the page that is shown: the
    first match of the first page that has one, from the page shown on and around
    the end of the document (the last match of the last such page when it goes
    backwards); it says whether it went around, or that there is no match.  The
    order in which the matches of the pages are computed does not matter.  The
    states are those reached by searching for queries whose expression has no
    empty match ([event_ok]); with one that has, the search of a page never ends. *)
Theorem search_finds_nearest f s order : find_reached e normalize pagesCount progress f ->
  state f = Some s -> dirtyMatch f = true -> query_empty (query_of normalize s) = false ->
  (forall i, 0 <= i < pagesCount -> is_Some (texts f !! i)) -> order ≡ₚ map Z.of_nat (seq 0 (Z.to_nat pagesCount)) ->
  exists f', (nextMatch normalize pagesCount progress ;;;
      run_events (map PageReady order)) f = (Ok tt, f') /\
    resumePageIdx f' = None /\ nearest_selected s f f'.
Proof.
  intros Hreach Hs Hd Hq Htexts Horder. pose proof (find_reached_ok e normalize pagesCount progress Hpages Hengine f Hreach) as Hf.
  assert (Hp : 0 <= page f - 1 < pagesCount) by (destruct (ok_page _ _ _ f Hf); lia).
  destruct (nextMatch_starts f s Hf Hs Hd Hq) as (f1 & E1 & Ht & Hrun). rewrite (mbind_ok _ _ _ _ _ E1).
  assert (Hnd : NoDup order). { rewrite Horder. apply NoDup_fmap_2_strong; [intros; lia|apply NoDup_seq]. }
  assert (Hin : forall i, i ∈ order <-> 0 <= i < pagesCount). { intros i. rewrite Horder, <- (elem_all_pages pagesCount Hpages). unfold all_pages. by rewrite elem_of_list_to_set. }
  destruct (run_pages s (page f - 1) (fun i => matches_of f s i) Hq Hp (texts f) order ∅ f1 Hrun Hnd) as (f2 & E2 & Hrun2).
  - intros i Hi. apply Hin in Hi. split; [lia|]. split; [set_solver|by apply Htexts].
  - intros g i Hg. unfold matches_of. by rewrite Hg.
  - exists f2. split; [exact E2|]. destruct (run_phase _ _ _ _ _ _ Hrun2) as [d Hdr Hw _ _ _ Hn _|d Hdr Hw Hj Hfound Hsel Hsaid|Hw Hj Hsel Hsaid].
    + exfalso. apply Hn. apply elem_of_union. right. apply elem_of_list_to_set, Hin. apply nth_page_range; lia.
    + split; [done|]. right. by exists d.
    + split; [done|]. left. split_and!; [|done|done]. intros i Hi.
      destruct (nth_page_all pagesCount Hpages (findPrevious s) (page f - 1) i Hp Hi) as (d & Hdr & <-). by apply Hj.
Qed.
End Run.

(** A search for "an" in a document of three pages, the last one shown. *)
Definition search_an (t : FindType) (previous : bool) : SearchState := mkSearch t (Text (js "an")) no_options previous false.
Definition three_pages : list FindEvent := [TextArrives None; TextArrives (Some banana); TextArrives (Some (mkText (js "x") (Some ([0; 1], [0; 0])) false))].
Definition after_events (p : Z) (evs : list FindEvent) : Find := snd (run_events text_engine (fun q => q) 3 true evs (new_Find p)).

(** The sample events: the text engine finds no empty match. *)
Ltac events_ok := cbn [app map]; repeat constructor; try apply text_engine_moves.

Lemma after_reached p evs : 1 <= p <= 3 -> Forall (event_ok text_engine (fun q => q)) evs ->
  fst (run_events text_engine (fun q => q) 3 true evs (new_Find p)) = Ok tt ->
  find_reached text_engine (fun q => q) 3 true (after_events p evs).
Proof.
  intros Hp Hevs E. unfold after_events. destruct (run_events _ _ _ _ evs (new_Find p)) as [r f'] eqn:E'. cbn [fst snd] in *. subst r.
  apply (events_reached text_engine (fun q => q) 3 true evs (new_Find p)); [by apply reached_new|done|done].
Qed.

Lemma search_finds_nearest_witness :
  let f := after_events 3 ([CallFind (fun _ => true) (search_an Plain false); RunJob] ++ three_pages) in
  (findTimeout f = true /\ page f = 3 /\ map (matches_of text_engine (fun q => q) f (search_an Plain false)) [0; 1; 2] = [[]; [(1, 2); (3, 2)]; []]) /\
  exists f', (nextMatch (fun q => q) 3 true ;;; run_events text_engine (fun q => q) 3 true (map PageReady [1; 2; 0])) f = (Ok tt, f') /\
    resumePageIdx f' = None /\ nearest_selected text_engine (fun q => q) 3 true (search_an Plain false) f f'.
Proof.
  split; [split_and!; vm_compute; reflexivity|].
  apply (search_finds_nearest text_engine (fun q => q) 3 true ltac:(lia) text_engine_ok
    (after_events 3 ([CallFind (fun _ => true) (search_an Plain false); RunJob] ++ three_pages)) (search_an Plain false) [1; 2; 0]).
  - apply after_reached; [lia|events_ok|vm_compute; reflexivity].
  - vm_compute. reflexivity.
  - vm_compute. reflexivity.
  - vm_compute. reflexivity.
  - intros i Hi. assert (i = 0 \/ i = 1 \/ i = 2) as [-> | [-> | ->]] by lia; vm_compute; eexists; reflexivity.
  - change (map Z.of_nat (seq 0 (Z.to_nat 3))) with ([] ++ [0] ++ [1; 2]). apply (Permutation_app_comm [1; 2] [0]).
Defined.

(** ** What the search promises

    In every state that its events lead to, and what goes wrong when the find bar
    is closed early. *)

Section Claims.
Context (e : Engine) (normalize : jstr -> jstr) (pagesCount : Z) (progress : bool).
Context (Hpages : 1 <= pagesCount) (Hengine : engine_ok e).
Abbreviation reached := (find_reached e normalize pagesCount progress).

(** C21. In every state that calls and events lead to, the queries searched for
    being ones whose expression has no empty match ([event_ok]; with an empty
    match the search of a page never ends, see [empty_word_never_ends]), the next
    event neither throws nor loops: [nextPageMatch] ends, the page of the offset has matches
    when one is selected there, and afterwards what is selected is a match of a
    page of the document, or nothing. *)
Theorem selection_is_match f ev : reached f -> event_ok e normalize ev ->
  exists f', find_step e normalize pagesCount progress ev f = (Ok tt, f') /\
    (selected f' = (-1, -1) \/ is_match f' (selected f') /\ 0 <= (selected f').1 < pagesCount) /\ 1 <= page f' <= pagesCount.
Proof.
  intros Hf Hev. pose proof (find_reached_ok e normalize pagesCount progress Hpages Hengine f Hf) as Hok.
  destruct (find_step_keeps e normalize pagesCount progress Hpages Hengine ev f Hok Hev) as (f' & E & Hok').
  exists f'. split_and!; [done| |apply (ok_page _ _ _ f' Hok')..]. destruct (ok_selected _ _ _ f' Hok') as [Hs|Hs]; [by left|right].
  split; [done|]. by apply (match_page e normalize pagesCount f').
Qed.

(** C22. While a search waits for a page, in a state reached by searching for
    queries whose expression has no empty match ([event_ok]; with an empty match
    the callback never ends), a callback for that page is pending, and once the text of the page has come this callback takes the search up: the
    matches of the page are known then, and the search waits for it no more. *)
Theorem search_is_taken_up f p : reached f -> resumePageIdx f = Some p -> dirtyMatch f = false ->
  p ∈ pendingFindMatches f /\
  (is_Some (texts f !! p) -> exists f', find_step e normalize pagesCount progress (PageReady p) f = (Ok tt, f') /\
     is_Some (pageMatches f' !! p) /\ resumePageIdx f' <> Some p).
Proof.
  intros Hf Hr Hd. pose proof (find_reached_ok e normalize pagesCount progress Hpages Hengine f Hf) as Hok.
  destruct (ok_resume _ _ _ f Hok p Hr) as (_ & _ & [|(Hp & s & Hs & Hq)]); [congruence|]. split; [done|]. intros Ht.
  destruct (calculateMatch_keeps e normalize pagesCount progress Hpages Hengine p f Hok Hp) as (f' & E & Hok' & _ & Hp' & Hd' & Hm').
  exists f'. split; [|split; [by apply (Hm' s)|]].
  - cbn [find_step]. by rewrite !bool_decide_eq_true_2.
  - intros Hr'. destruct (ok_resume _ _ _ f' Hok' p Hr') as (_ & _ & [|[Hin _]]); [congruence|]. rewrite Hp' in Hin. set_solver.
Qed.

(** C20. When the matches of all pages are known, [#nextMatch] goes from the
    selected match to the next one of the document (backwards: to the one before),
    whichever pages are between, and only when there is none to the first of all;
    it says WRAPPED then and FOUND else.  As above the searches are for queries
    whose expression has no empty match. *)
Theorem nextMatch_cycles f s m : reached f -> state f = Some s -> dirtyMatch f = false ->
  query_empty (query_of normalize s) = false -> o_matchIdx (offset f) = Some m ->
  (forall p, 0 <= p < pagesCount -> is_Some (pageMatches f !! p)) ->
  exists f' around, nextMatch normalize pagesCount progress f = (Ok tt, f') /\
    comes_next (findPrevious s) f (selected f) (selected f') around /\
    (progress = true -> said f' = Some (if around then WRAPPED else FOUND)).
Proof.
  intros Hf. apply (nextMatch_next normalize pagesCount progress Hpages e f s m).
  by apply (find_reached_ok e normalize pagesCount progress Hpages Hengine).
Qed.

(** What closing the find bar changes. *)
Lemma close_does f : find_ok e normalize pagesCount f -> jobs f = [] ->
  exists f', run_events e normalize pagesCount progress [CallClose; RunJob] f = (Ok tt, f') /\ find_ok e normalize pagesCount f' /\
    state f' = state f /\ pageMatches f' = pageMatches f /\ texts f' = texts f /\ pendingFindMatches f' = pendingFindMatches f /\
    offset f' = offset f /\ selected f' = selected f /\
    resumePageIdx f' = (if truthy_index (resumePageIdx f) then None else resumePageIdx f).
Proof.
  intros Hf Hj. cbn [run_events]. unfold mbind at 1. cbn [find_step]. unfold onFindBarClose, modify at 1. rewrite Hj. cbn [app].
  unfold mbind, mret. cbn [find_step jobs set_jobs]. set (f0 := set_jobs [] (set_jobs [CloseJob] f)).
  assert (Hf0 : find_ok e normalize pagesCount f0) by (apply set_jobs_ok; [apply set_jobs_ok; [done|]|]; set_solver).
  destruct (close_job_keeps e normalize pagesCount progress f0 Hf0) as (f1 & E & Hok). rewrite E. exists f1. split; [done|]. split; [done|].
  revert E. unfold close_job. unfold mbind at 1, modify at 1, mbind at 1, modify at 1. cbn [resumePageIdx set_findTimeout].
  change (resumePageIdx f0) with (resumePageIdx f). set (f2 := if truthy_index (resumePageIdx f) then _ else _).
  assert (Hf2 : state f2 = state f /\ pageMatches f2 = pageMatches f /\ texts f2 = texts f /\ pendingFindMatches f2 = pendingFindMatches f /\
    offset f2 = offset f /\ selected f2 = selected f /\ resumePageIdx f2 = (if truthy_index (resumePageIdx f) then None else resumePageIdx f))
    by (unfold f2; destruct (truthy_index _); by split_and!). clearbody f2.
  destruct (updateUIState_does pagesCount progress FOUND false f2) as (f3 & E3 & Hfr & Ho & Hse & _ & Hr & _). rewrite (mbind_ok _ _ _ _ _ E3).
  unfold updateAllPages, dispatch. m_red. intros [= <-]. destruct Hfr as (F0 & F1 & _ & _ & _ & F2 & F3 & _).
  cbn. rewrite Ho, Hse, Hr, F0, F1, F2, F3. exact Hf2.
Qed.

(** C40. Closing the find bar while the search waits for the text of a page ends
    the search, so that the callback of the page selects nothing any more; but
    when the search waits for the first page, its index 0 counts as none: the
    search goes on, selects a match there and turns to the first page after the
    find bar was closed. *)
Theorem closing_misses_first_page f s p : reached f -> state f = Some s -> dirtyMatch f = false -> jobs f = [] ->
  resumePageIdx f = Some p -> is_Some (texts f !! p) -> matches_of e normalize f s p <> [] ->
  exists f', run_events e normalize pagesCount progress [CallClose; RunJob; PageReady p] f = (Ok tt, f') /\
    resumePageIdx f' = None /\
    if p =? 0 then selected f' = (0, end_match (findPrevious s) (matches_of e normalize f s 0)) /\ page f' = 1
    else selected f' = selected f.
Proof.
  intros Hreach Hs Hd Hj Hr Ht Hne. pose proof (find_reached_ok e normalize pagesCount progress Hpages Hengine f Hreach) as Hf.
  destruct (ok_resume _ _ _ f Hf p Hr) as (Ho & Hm & [|(Hp & s' & Hs' & Hq)]); [congruence|]. assert (s' = s) as -> by congruence.
  destruct (close_does f Hf Hj) as (f1 & E1 & Hok1 & S1 & P1 & T1 & N1 & O1 & L1 & R1).
  destruct (page_ready e normalize pagesCount progress Hpages Hengine f1 s p Hok1) as (f2 & f3 & E3 & Ha & Hother & Hthis); [congruence|done|congruence|congruence|].
  exists f3. split.
  { change [CallClose; RunJob; PageReady p] with ([CallClose; RunJob] ++ [PageReady p]). rewrite (run_app _ _ _ _ _ _ _ _ E1).
    cbn [run_events]. by rewrite (mbind_ok _ _ _ _ _ E3). }
  assert (Hsame : matches_of e normalize f1 s p = matches_of e normalize f s p) by (unfold matches_of; by rewrite T1).
  rewrite Hsame in Ha. destruct Ha as (A1 & A2 & A3 & A4 & _ & _ & _ & A8 & _). cbn in A1, A2, A3, A4, A8.
  rewrite Hr in R1. unfold truthy_index in R1. destruct (Z.eqb_spec p 0) as [->|Hp0]; cbn [negb] in R1.
  - destruct (Hthis R1) as (f4 & E4 & Ha4 & Hpg).
    destruct (scan_found pagesCount progress Hpages 0 (set_resume None f2) s (matches_of e normalize f s 0)) as (f5 & E5 & _ & Hr5 & Hsel & Hpage & _).
    + cbn. congruence.
    + cbn. rewrite A3, O1. apply (ok_offpage _ _ _ f Hf).
    + cbn. congruence.
    + lia.
    + lia.
    + intros j Hjr. lia.
    + destruct (nth_page_0 pagesCount (findPrevious s) (o_pageIdx (offset (set_resume None f2)))) as [-> _]; cbn; rewrite A3, O1, ?Ho; [lia|].
      rewrite A2. apply lookup_insert_eq.
    + done.
    + assert (f5 = f4) as -> by congruence. destruct (nth_page_0 pagesCount (findPrevious s) (o_pageIdx (offset (set_resume None f2)))) as [En _].
      { cbn. rewrite A3, O1, Ho. lia. }
      rewrite En in Hsel, Hpage. cbn in Hsel, Hpage. rewrite A3, O1, Ho in Hsel, Hpage. destruct Ha4 as (_ & _ & _ & -> & _ & _ & _ & -> & _).
      split_and!; [done|done|lia].
  - destruct (Hother ltac:(congruence)) as (_ & _ & _ & -> & _ & _ & _ & -> & _). split; congruence.
Qed.
End Claims.

(** ** The document of three pages *)

Definition running : Find :=
  after_events 3 ([CallFind (fun _ => true) (search_an Plain false); RunJob] ++ three_pages ++ [TimerFires]).
Definition found_there : Find :=
  after_events 3 ([CallFind (fun _ => true) (search_an Plain false); RunJob] ++ three_pages ++ TimerFires :: map PageReady [1; 2; 0]).
(** The search waits for page [p], which has the text "banana". *)
Definition waiting_at (p : Z) : Find :=
  after_events (p + 1) [CallFind (fun _ => true) (search_an OtherChange false); RunJob; TextArrives (Some banana); TextArrives (Some banana)].

Ltac reached_ok := apply after_reached; [lia|events_ok|vm_compute; reflexivity].

Lemma running_reached : find_reached text_engine (fun q => q) 3 true running.
Proof. reached_ok. Qed.

Lemma found_reached : find_reached text_engine (fun q => q) 3 true found_there.
Proof. reached_ok. Qed.

Lemma waiting_reached p : 0 <= p <= 1 -> find_reached text_engine (fun q => q) 3 true (waiting_at p).
Proof. intros Hp. assert (p = 0 \/ p = 1) as [-> | ->] by lia; reached_ok. Qed.

Lemma selection_is_match_witness :
  selected found_there = (1, 0) /\
  exists f', find_step text_engine (fun q => q) 3 true (CallFind (fun _ => false) (search_an Again true)) found_there = (Ok tt, f') /\
    (selected f' = (-1, -1) \/ is_match f' (selected f') /\ 0 <= (selected f').1 < 3) /\ 1 <= page f' <= 3.
Proof.
  split; [vm_compute; reflexivity|].
  apply (selection_is_match text_engine (fun q => q) 3 true ltac:(lia) text_engine_ok found_there
    (CallFind (fun _ => false) (search_an Again true)) found_reached (text_engine_moves _ _)).
Defined.

Lemma search_is_taken_up_witness :
  is_Some (texts running !! 2) /\ 2 ∈ pendingFindMatches running /\
  (is_Some (texts running !! 2) -> exists f', find_step text_engine (fun q => q) 3 true (PageReady 2) running = (Ok tt, f') /\
     is_Some (pageMatches f' !! 2) /\ resumePageIdx f' <> Some 2).
Proof.
  split; [vm_compute; eexists; reflexivity|].
  apply (search_is_taken_up text_engine (fun q => q) 3 true ltac:(lia) text_engine_ok running 2 running_reached); vm_compute; reflexivity.
Defined.

Lemma nextMatch_cycles_witness :
  selected found_there = (1, 0) /\ selected (snd (nextMatch (fun q => q) 3 true found_there)) = (1, 1) /\
  exists f' around, nextMatch (fun q => q) 3 true found_there = (Ok tt, f') /\
    comes_next false found_there (selected found_there) (selected f') around /\
    (true = true -> said f' = Some (if around then WRAPPED else FOUND)).
Proof.
  split; [vm_compute; reflexivity|]. split; [vm_compute; reflexivity|].
  apply (nextMatch_cycles text_engine (fun q => q) 3 true ltac:(lia) text_engine_ok found_there (search_an Plain false) 0 found_reached);
    [vm_compute; reflexivity..|].
  intros p Hp. assert (p = 0 \/ p = 1 \/ p = 2) as [-> | [-> | ->]] by lia; vm_compute; eexists; reflexivity.
Defined.

Lemma closing_misses_first_page_witness :
  (selected (waiting_at 0) = (-1, -1) /\ highlightMatches (waiting_at 0) = true) /\
  exists f', run_events text_engine (fun q => q) 3 true [CallClose; RunJob; PageReady 0] (waiting_at 0) = (Ok tt, f') /\
    resumePageIdx f' = None /\
    if 0 =? 0 then selected f' = (0, end_match false (matches_of text_engine (fun q => q) (waiting_at 0) (search_an OtherChange false) 0)) /\ page f' = 1
    else selected f' = selected (waiting_at 0).
Proof.
  split; [split; vm_compute; reflexivity|].
  apply (closing_misses_first_page text_engine (fun q => q) 3 true ltac:(lia) text_engine_ok (waiting_at 0) (search_an OtherChange false) 0);
    [apply (waiting_reached 0); lia|vm_compute; reflexivity..|vm_compute; eexists; reflexivity|vm_compute; discriminate].
Defined.
