(* ===== verification/TextHighlighter.v ===== *)
(** * The matches in the text layer

    [TextHighlighter] of web/viewer.mjs: the matches of a page become positions
    in the divs of its text layer, and the divs are taken apart into spans.  A
    div is its class and what it contains, in order: texts, each with the class
    of the span around it if there is one.  [asked] lists the matches for which
    [findController.scrollMatchIntoView] was called, and whether with an element. *)
From stdpp Require Import gmap.
From S2P Require Import Prelude Primitives FindQuery FindController.
Local Open Scope js_scope.

Record Point := mkPoint { divIdx : Z; p_offset : Z }.
Record Match := mkMatch { begin : Point; end_ : Point }.

(** A text node has no class; one that is not in an element yet has no pieces
    but its own text. *)
Record Div := mkDiv { is_text_node : bool; className : jstr; pieces : list (option jstr * jstr) }.

Record Highlighter := mkHighlighter {
  enabled : bool;
  mapped : bool;                           (** [textDivs] and [textContentItemsStr] are set *)
  textDivs : list Div;
  textContentItemsStr : list jstr;
  matches : list Match;
  asked : list (Z * bool)
}.
Definition set_enabled v h := mkHighlighter v (mapped h) (textDivs h) (textContentItemsStr h) (matches h) (asked h).
Definition set_textDivs v h := mkHighlighter (enabled h) (mapped h) v (textContentItemsStr h) (matches h) (asked h).
Definition set_matches v h := mkHighlighter (enabled h) (mapped h) (textDivs h) (textContentItemsStr h) v (asked h).
Definition ask a h := mkHighlighter (enabled h) (mapped h) (textDivs h) (textContentItemsStr h) (matches h) (asked h ++ [a]).
Abbreviation H := (M Highlighter).

Definition new_TextHighlighter : Highlighter := mkHighlighter false false [] [] [] [].
Definition setTextMapping (divs : list Div) (texts : list jstr) (h : Highlighter) : Highlighter :=
  mkHighlighter (enabled h) true divs texts (matches h) (asked h).

(** ** From matches to divs *)

(** [while (i !== end && past(iIndex + textContentItemsStr[i].length))] *)
Fixpoint skip_divs (items : list jstr) (past : Z -> bool) (turns : nat) (i iIndex : Z) : res (Z * Z) :=
  if i =? len items - 1 then Ok (i, iIndex)
  else
    match arr_get items i with
    | None => Throw (TypeError "textContentItemsStr[i] is undefined")
    | Some s =>
        if past (iIndex + len s) then
          match turns with
          | O => OutOfFuel
          | S turns => skip_divs items past turns (i + 1) (iIndex + len s)
          end
        else Ok (i, iIndex)
    end.

Fixpoint convert_loop (items : list jstr) (ms : list (Z * Z)) (i iIndex : Z) : res (list Match) :=
  match ms with
  | [] => Ok []
  | (pos, n) :: ms =>
      match skip_divs items (fun e => e <=? pos) (length items) i iIndex with
      | Ok (i, iIndex) =>
          let b := mkPoint i (pos - iIndex) in
          match skip_divs items (fun e => e <? pos + n) (length items) i iIndex with
          | Ok (i, iIndex) =>
              let m := mkMatch b (mkPoint i (pos + n - iIndex)) in
              match convert_loop items ms i iIndex with Ok l => Ok (m :: l) | r => r end
          | Throw ex => Throw ex
          | OutOfFuel => OutOfFuel
          end
      | Throw ex => Throw ex
      | OutOfFuel => OutOfFuel
      end
  end.
Definition convertMatches (items : list jstr) (ms : option (list (Z * Z))) : res (list Match) :=
  match ms with
  | None => Ok []
  | Some ms => convert_loop items ms 0 0
  end.

(** ** Divs *)

(** [s.substring(from, to)]; without [to] up to the end. *)
Definition substring (s : jstr) (from : Z) (to : option Z) : jstr :=
  let a := Z.max 0 (Z.min from (len s)) in
  let b := match to with Some t => Z.max 0 (Z.min t (len s)) | None => len s end in
  subarray s (Z.min a b) (Z.max a b).

(** [s.includes(word)] *)
Fixpoint includes (s word : jstr) : bool :=
  starts_with s word || match s with [] => false | _ :: s => includes s word end.

Definition set_textContent (s : jstr) (d : Div) : Div :=
  mkDiv (is_text_node d) (className d) (match s with [] => [] | _ => [(None, s)] end).
Definition set_className (c : jstr) (d : Div) : Div :=
  mkDiv (is_text_node d) (if is_text_node d then className d else c) (pieces d).
(** [div.append(node)], the node in a span if there is a class. *)
Definition append_piece (p : option jstr * jstr) (d : Div) : Div :=
  mkDiv (is_text_node d) (className d) (pieces d ++ [p]).
(** A text node is put into a new span. *)
Definition in_span (d : Div) : Div := if is_text_node d then mkDiv false [] (pieces d) else d.

Definition get_div (n : Z) : H Div := fun h =>
  match arr_get (textDivs h) n with
  | Some d => (Ok d, h)
  | None => (Throw (TypeError "textDivs[divIdx] is undefined"), h)
  end.
Definition put_div (n : Z) (d : Div) : H unit := modify (fun h => set_textDivs (arr_set (textDivs h) n d) h).

(** ** The divs of a match *)

(** True for a span that holds the selected match. *)
Definition appendTextToDiv (n fromOffset : Z) (toOffset : option Z) (cls : option jstr) : H bool :=
  div <- get_div n ;;
  let div := in_span div in
  put_div n div ;;;
  item <- gets (fun h => arr_get (textContentItemsStr h) n) ;;
  match item with
  | None => throw (TypeError "textContentItemsStr[divIdx] is undefined")
  | Some s =>
      let content := substring s fromOffset toOffset in
      match cls with
      | Some c => put_div n (append_piece (Some (c ++ js " appended"), content) div) ;;; mret (includes c (js "selected"))
      | None => put_div n (append_piece (None, content) div) ;;; mret false
      end
  end.

Definition beginText (b : Point) (cls : option jstr) : H bool :=
  div <- get_div (divIdx b) ;;
  put_div (divIdx b) (set_textContent [] div) ;;;
  appendTextToDiv (divIdx b) 0 (Some (p_offset b)) cls.

(** [for (let n0 = begin.divIdx + 1, n1 = end.divIdx; n0 < n1; n0++)] *)
Fixpoint middle_loop (turns : nat) (n0 : Z) (c : jstr) : H unit :=
  match turns with
  | O => mret tt
  | S turns =>
      div <- get_div n0 ;;
      put_div n0 (set_className c div) ;;; middle_loop turns (n0 + 1) c
  end.

(** One match, after what is between it and the one before. *)
Definition render_match (prevEnd : option Point) (m : Match) (highlightSuffix : jstr) : H bool :=
  let b := begin m in
  let e := end_ m in
  (match prevEnd with
   | Some p =>
       if divIdx b =? divIdx p then appendTextToDiv (divIdx p) (p_offset p) (Some (p_offset b)) None
       else appendTextToDiv (divIdx p) (p_offset p) None None ;;; beginText b None
   | None => beginText b None
   end) ;;;
  if divIdx b =? divIdx e then
    appendTextToDiv (divIdx b) (p_offset b) (Some (p_offset e)) (Some (js "highlight" ++ highlightSuffix))
  else
    selectedSpan <- appendTextToDiv (divIdx b) (p_offset b) None (Some (js "highlight begin" ++ highlightSuffix)) ;;
    middle_loop (Z.to_nat (divIdx e - (divIdx b + 1))) (divIdx b + 1) (js "highlight middle" ++ highlightSuffix) ;;;
    beginText e (Some (js "highlight end" ++ highlightSuffix)) ;;;
    mret selectedSpan.

(** [for (let i = i0; i < i1; i++)]; a match that begins where the last one began
    is passed over. *)
Fixpoint render_loop (isSelectedPage : bool) (selectedMatchIdx : Z) (ms : list Match)
    (turns : nat) (i : Z) (last : Point) (prevEnd : option Point) : H (option Point) :=
  match turns with
  | O => mret prevEnd
  | S turns =>
      match arr_get ms i with
      | None => throw (TypeError "matches[i] is undefined")
      | Some m =>
          let b := begin m in
          if (divIdx b =? divIdx last) && (p_offset b =? p_offset last)
          then render_loop isSelectedPage selectedMatchIdx ms turns (i + 1) last prevEnd
          else
            let isSelected := isSelectedPage && (i =? selectedMatchIdx) in
            selectedSpan <- render_match prevEnd m (if isSelected then js " selected" else []) ;;
            (if isSelected then modify (ask (selectedMatchIdx, selectedSpan)) else mret tt) ;;;
            render_loop isSelectedPage selectedMatchIdx ms turns (i + 1) b (Some (end_ m))
      end
  end.

Section Page.
Context (pageIdx : Z).

Definition renderMatches (f : Find) (ms : list Match) : H unit :=
  if len ms =? 0 then mret tt
  else
    let isSelectedPage := pageIdx =? fst (selected f) in
    let selectedMatchIdx := snd (selected f) in
    match state f with
    | None => throw (TypeError "findController.state is null")
    | Some s =>
        let '(i0, i1) := if highlightAll s then (0, len ms) else (selectedMatchIdx, selectedMatchIdx + 1) in
        if negb (highlightAll s) && negb isSelectedPage then mret tt
        else
          prevEnd <- render_loop isSelectedPage selectedMatchIdx ms (Z.to_nat (i1 - i0)) i0 (mkPoint (-1) (-1)) None ;;
          match prevEnd with
          | Some p => appendTextToDiv (divIdx p) (p_offset p) None None ;;; mret tt
          | None => mret tt
          end
    end.

(** [for (let n = begin, end = match.end.divIdx; n <= end; n++)] *)
Fixpoint clear_divs (turns : nat) (n : Z) : H unit :=
  match turns with
  | O => mret tt
  | S turns =>
      div <- get_div n ;;
      item <- gets (fun h => arr_get (textContentItemsStr h) n) ;;
      put_div n (set_className [] (set_textContent (default [] item) div)) ;;;
      clear_divs turns (n + 1)
  end.
Fixpoint clear_matches (ms : list Match) (clearedUntilDivIdx : Z) : H unit :=
  match ms with
  | [] => mret tt
  | m :: ms =>
      let b := Z.max clearedUntilDivIdx (divIdx (begin m)) in
      clear_divs (Z.to_nat (divIdx (end_ m) - b + 1)) b ;;;
      clear_matches ms (divIdx (end_ m) + 1)
  end.

Definition updateMatches (f : Find) (reset : bool) : H unit := fun h =>
  if negb (enabled h) && negb reset then (Ok tt, h)
  else
    (clear_matches (matches h) (-1) ;;;
     if negb (highlightMatches f) || reset then mret tt
     else
       ms <- (fun h => (convertMatches (textContentItemsStr h) (pageMatches f !! pageIdx), h)) ;;
       modify (set_matches ms) ;;;
       renderMatches f ms) h.

(** ** Events *)

Definition enable (f : Find) : H unit := fun h =>
  if negb (mapped h) then (Throw (JsError "Text divs and strings have not been set."), h)
  else if enabled h then (Throw (JsError "TextHighlighter is already enabled."), h)
  else updateMatches f false (set_enabled true h).

Definition disable (f : Find) : H unit := fun h =>
  if negb (enabled h) then (Ok tt, h) else updateMatches f true (set_enabled false h).

(** The listener of "updatetextlayermatches", there as long as it is enabled. *)
Definition on_updatetextlayermatches (pageIndex : Z) (f : Find) : H unit := fun h =>
  if enabled h && ((pageIndex =? pageIdx) || (pageIndex =? -1)) then updateMatches f false h else (Ok tt, h).
End Page.
