(* ===== verification/TextHighlighterSpec.v ===== *)
(** * What the text layer shows

    After each update the divs of the text layer hold the text of the page, with
    exactly the characters of the current matches marked, whatever was marked
    before. *)
From stdpp Require Import gmap.
From S2P Require Import Prelude Primitives FindQuery FindQuerySpec FindController FindSpec TextHighlighter.
Local Open Scope js_scope.

(** ** What is seen of a div *)

(** The mark of a class: none, or whether it is that of the selected match. *)
Definition mark_of (c : jstr) : option bool :=
  if includes c (js "highlight") then Some (includes c (js "selected")) else None.
(** The characters of a div with their marks. *)
Definition shown (d : Div) : list (Z * option bool) :=
  concat (map (fun '(c, t) => map (fun u => (u, mark_of (default (className d) c))) t) (pieces d)).
(** A div that nothing was done to. *)
Definition whole (s : jstr) : Div := mkDiv false [] (match s with [] => [] | _ => [(None, s)] end).

(** A text from position [x] on, and texts one after the other. *)
Fixpoint marked (mk : Z -> option bool) (x : Z) (s : jstr) : list (Z * option bool) :=
  match s with [] => [] | u :: s => (u, mk x) :: marked mk (x + 1) s end.
Fixpoint mark_divs (mk : Z -> option bool) (x : Z) (items : list jstr) : list (list (Z * option bool)) :=
  match items with [] => [] | s :: items => marked mk x s :: mark_divs mk (x + len s) items end.

(** The mark of a position: matches, and whether they are selected. *)
Fixpoint mark (l : list (Z * Z * bool)) (x : Z) : option bool :=
  match l with
  | [] => None
  | (p, n, sel) :: l => if (p <=? x) && (x <? p + n) then Some sel else mark l x
  end.

Lemma marked_app mk x s t : marked mk x (s ++ t) = marked mk x s ++ marked mk (x + len s) t.
Proof.
  revert x. induction s as [|u s IH]; intros x; cbn [marked app]; [by rewrite len_nil, Z.add_0_r|].
  rewrite IH, len_cons. do 3 f_equal. lia.
Qed.

Lemma marked_const mk x s m : (forall y, x <= y < x + len s -> mk y = m) -> marked mk x s = map (fun u => (u, m)) s.
Proof.
  revert x. induction s as [|u s IH]; intros x Hm; cbn [marked map]; [done|]. rewrite len_cons in Hm. pose proof (len_nonneg s).
  rewrite Hm by lia. f_equal. apply IH. intros y Hy. apply Hm. lia.
Qed.

Lemma shown_whole s : shown (whole s) = map (fun u => (u, None)) s.
Proof. destruct s; [done|]. unfold shown, whole. cbn [pieces map concat]. by rewrite app_nil_r. Qed.

Lemma shown_class c s : shown (set_className c (whole s)) = map (fun u => (u, mark_of c)) s.
Proof. destruct s; [done|]. unfold shown, whole, set_className. cbn [pieces map concat is_text_node className default]. by rewrite app_nil_r. Qed.

Lemma shown_append p d : shown (append_piece p d) = shown d ++ map (fun u => (u, mark_of (default (className d) p.1))) p.2.
Proof. unfold shown, append_piece. cbn [pieces className]. destruct p as [c t]. rewrite map_app, concat_app. cbn. by rewrite app_nil_r. Qed.

Lemma substring_some s a b : 0 <= a <= b -> b <= len s -> substring s a (Some b) = subarray s a b.
Proof. intros. unfold substring. rewrite !Z.max_r by lia. f_equal; lia. Qed.
Lemma substring_none s a : 0 <= a <= len s -> substring s a None = subarray s a (len s).
Proof. intros. unfold substring. rewrite !Z.max_r by lia. f_equal; lia. Qed.

Lemma get_range {A} (l : list A) i x : arr_get l i = Some x -> 0 <= i < len l.
Proof.
  unfold arr_get. destruct (Z.ltb_spec i 0); [done|]. intros Hx%lookup_lt_Some. unfold len. lia.
Qed.
Lemma get_some {A} (l : list A) i : 0 <= i < len l -> exists x, arr_get l i = Some x.
Proof.
  intros Hi. unfold arr_get. ztest. destruct (lookup_lt_is_Some_2 l (Z.to_nat i)) as [x Hx]; [unfold len in Hi; lia|by exists x].
Qed.

Section Text.
Context (items : list jstr).

(** ** Positions *)

Definition start (k : Z) : Z := len (concat (take (Z.to_nat k) items)).

Lemma start_0 : start 0 = 0.
Proof. done. Qed.
Lemma start_next k s : arr_get items k = Some s -> start (k + 1) = start k + len s.
Proof.
  intros Hk. pose proof (get_range _ _ _ Hk) as Hr. unfold start. replace (Z.to_nat (k + 1)) with (S (Z.to_nat k)) by lia.
  unfold arr_get in Hk. rewrite (proj2 (Z.ltb_ge _ _)) in Hk by lia.
  rewrite (take_S_r _ _ _ Hk), concat_app, len_app. cbn. by rewrite app_nil_r.
Qed.
Lemma start_all : start (len items) = len (concat items).
Proof. unfold start, len. rewrite Nat2Z.id. by rewrite take_ge. Qed.
Lemma start_mono j k : 0 <= j <= k -> start j <= start k.
Proof.
  intros Hjk. unfold start. replace (Z.to_nat k) with (Z.to_nat j + (Z.to_nat (k - j)))%nat by lia.
  rewrite <- take_take_drop, concat_app, len_app. pose proof (len_nonneg (concat (take (Z.to_nat (k - j)) (drop (Z.to_nat j) items)))). lia.
Qed.

Definition starts_at (x : Z) (p : Point) : Prop :=
  exists s, arr_get items (divIdx p) = Some s /\ start (divIdx p) + p_offset p = x /\ 0 <= p_offset p < len s.
Definition ends_at (x : Z) (p : Point) : Prop :=
  exists s, arr_get items (divIdx p) = Some s /\ start (divIdx p) + p_offset p = x /\ 0 < p_offset p <= len s.
Definition conv (m : Z * Z) (c : Match) : Prop := starts_at m.1 (begin c) /\ ends_at (m.1 + m.2) (end_ c).

Lemma end_before_begin y p x q : ends_at y p -> starts_at x q -> y <= x ->
  divIdx p <= divIdx q /\ (divIdx p = divIdx q -> p_offset p <= p_offset q).
Proof.
  intros (s & Hs & Hy & Ho) (t & Ht & Hx & Ho') Hle. pose proof (get_range _ _ _ Hs). pose proof (get_range _ _ _ Ht). split.
  - destruct (Z.le_gt_cases (divIdx p) (divIdx q)) as [|Hgt]; [done|]. pose proof (start_next _ _ Ht). pose proof (start_mono (divIdx q + 1) (divIdx p) ltac:(lia)). lia.
  - intros E. rewrite E in *. lia.
Qed.
Lemma begin_before_end x p y q : starts_at x p -> ends_at y q -> x < y ->
  divIdx p <= divIdx q /\ (divIdx p = divIdx q -> p_offset p < p_offset q).
Proof.
  intros (s & Hs & Hx & Ho) (t & Ht & Hy & Ho') Hle. pose proof (get_range _ _ _ Hs). pose proof (get_range _ _ _ Ht). split.
  - destruct (Z.le_gt_cases (divIdx p) (divIdx q)) as [|Hgt]; [done|]. pose proof (start_next _ _ Ht). pose proof (start_mono (divIdx q + 1) (divIdx p) ltac:(lia)). lia.
  - intros E. rewrite E in *. lia.
Qed.

(** ** Conversion *)

Lemma skip_ok past turns i s : arr_get items i = Some s -> past (len (concat items)) = false ->
  len items - 1 - i <= Z.of_nat turns ->
  exists i' s', skip_divs items past turns i (start i) = Ok (i', start i') /\ arr_get items i' = Some s' /\
    past (start i' + len s') = false /\ (i' = i \/ past (start i') = true).
Proof.
  intros Hs Hp. revert i s Hs. induction turns as [|turns IH]; intros i s Hs Ht; pose proof (get_range _ _ _ Hs) as Hr; cbn [skip_divs];
    destruct (Z.eqb_spec i (len items - 1)) as [E|E].
  1, 3: (exists i, s; split_and!; [done|done| |by left]; rewrite <- (start_next i s Hs); replace (i + 1) with (len items) by lia; by rewrite start_all).
  - lia.
  - rewrite Hs. destruct (past (start i + len s)) eqn:Ep; [|exists i, s; by split_and!; [..|left]].
    rewrite <- (start_next i s Hs) in *. destruct (get_some items (i + 1) ltac:(lia)) as [s1 Hs1].
    destruct (IH (i + 1) s1 Hs1 ltac:(lia)) as (i' & s' & E' & Hi' & Hpast & Hor). exists i', s'. split_and!; try done. right. by destruct Hor as [->|].
Qed.

Lemma convert_ok ms i s k : in_order k (len (concat items)) ms -> arr_get items i = Some s -> start i <= k ->
  exists l, convert_loop items ms i (start i) = Ok l /\ Forall2 conv ms l.
Proof.
  revert i s k. induction ms as [|[pos n] ms IH]; intros i s k Ho Hi Hk; [by exists []|]. destruct Ho as (Hpos & Hn & Hend & Ho).
  pose proof (get_range _ _ _ Hi) as Hr. cbn [convert_loop].
  destruct (skip_ok (fun e => e <=? pos) (length items) i s Hi) as (i1 & s1 & E1 & Hi1 & Hp1 & Hor1);
    [apply Z.leb_gt; lia|unfold len; lia|]. rewrite E1. apply Z.leb_gt in Hp1.
  assert (H1 : start i1 <= pos) by (destruct Hor1 as [->|Hor1]; [lia|by apply Z.leb_le in Hor1]).
  pose proof (get_range _ _ _ Hi1) as Hr1.
  destruct (skip_ok (fun e => e <? pos + n) (length items) i1 s1 Hi1) as (i2 & s2 & E2 & Hi2 & Hp2 & Hor2);
    [apply Z.ltb_ge; lia|unfold len in *; lia|]. rewrite E2. apply Z.ltb_ge in Hp2.
  assert (H2 : start i2 < pos + n) by (destruct Hor2 as [->|Hor2]; [lia|by apply Z.ltb_lt in Hor2]).
  destruct (IH i2 s2 (pos + n) Ho Hi2 ltac:(lia)) as (l & -> & Hl). eexists. split; [done|]. constructor; [|done].
  split; [exists s1|exists s2]; cbn; split_and!; done || lia.
Qed.

(** ** Drawing *)

(** What may have changed: the divs in [P], and the calls [A]. *)
Record same_but (P : Z -> Prop) (A : list (Z * bool)) (h h' : Highlighter) : Prop := {
  sb_enabled : enabled h' = enabled h;
  sb_mapped : mapped h' = mapped h;
  sb_items : textContentItemsStr h' = textContentItemsStr h;
  sb_matches : matches h' = matches h;
  sb_asked : asked h' = asked h ++ A;
  sb_len : len (textDivs h') = len (textDivs h);
  sb_divs : forall j, ~ P j -> arr_get (textDivs h') j = arr_get (textDivs h) j
}.

Lemma same_refl P h : same_but P [] h h.
Proof. constructor; try done. by rewrite app_nil_r. Qed.
Lemma same_trans P Q A B h1 h2 h3 : same_but P A h1 h2 -> same_but Q B h2 h3 -> same_but (fun j => P j \/ Q j) (A ++ B) h1 h3.
Proof.
  intros [] []. constructor; try congruence. - by rewrite sb_asked1, sb_asked0, app_assoc.
  - intros j Hj. rewrite sb_divs1, sb_divs0; [done|tauto..].
Qed.
Lemma same_weaken (P Q : Z -> Prop) A h h' : same_but P A h h' -> (forall j, P j -> Q j) -> same_but Q A h h'.
Proof. intros [] HPQ. constructor; try done. intros j Hj. apply sb_divs0. auto. Qed.

(** The divs before the [k]th show the marks, the others are whole. *)
Definition ready (mk : Z -> option bool) (h : Highlighter) (k : Z) : Prop :=
  textContentItemsStr h = items /\ forall j s, arr_get items j = Some s ->
    exists d, arr_get (textDivs h) j = Some d /\ is_text_node d = false /\
      (j < k -> shown d = marked mk (start j) s) /\ (k <= j -> d = whole s).
(** The same, and the div of [p] shows the marks up to [p]. *)
Definition drawn (mk : Z -> option bool) (h : Highlighter) (p : Point) : Prop :=
  textContentItemsStr h = items /\ forall j s, arr_get items j = Some s ->
    exists d, arr_get (textDivs h) j = Some d /\ is_text_node d = false /\
      (j < divIdx p -> shown d = marked mk (start j) s) /\
      (j = divIdx p -> className d = [] /\ shown d = marked mk (start j) (subarray s 0 (p_offset p))) /\
      (divIdx p < j -> d = whole s).

Lemma drawn_end mk h k s : drawn mk h (mkPoint k (len s)) -> arr_get items k = Some s -> ready mk h (k + 1).
Proof.
  intros [Hi Hd] Hs. split; [done|]. intros j t Ht. destruct (Hd j t Ht) as (d & Hg & Hn & H1 & H2 & H3). cbn in *.
  exists d. split_and!; [done|done| |intros; apply H3; lia]. intros Hj. destruct (decide (j = k)) as [->|]; [|apply H1; lia].
  destruct (H2 eq_refl) as [_ ->]. assert (t = s) as -> by congruence. f_equal. rewrite subarray_in by (pose proof (len_nonneg s); lia).
  cbn. apply take_ge. unfold len. lia.
Qed.

(** Divs without a mark need nothing done. *)
Lemma ready_plain mk h k k' : ready mk h k -> k <= k' -> (forall x, start k <= x < start k' -> mk x = None) -> 0 <= k -> ready mk h k'.
Proof.
  intros [Hi Hd] Hk Hm H0. split; [done|]. intros j s Hs. destruct (Hd j s Hs) as (d & Hg & Hn & H1 & H2). exists d.
  split_and!; [done|done| |intros; apply H2; lia]. intros Hj. destruct (decide (j < k)); [by apply H1|].
  rewrite (H2 ltac:(lia)), shown_whole. symmetry. apply marked_const. intros y Hy. apply Hm.
  pose proof (get_range _ _ _ Hs). pose proof (start_next _ _ Hs). pose proof (start_mono k j ltac:(lia)). pose proof (start_mono (j + 1) k' ltac:(lia)). lia.
Qed.

Lemma get_div_some n d h : arr_get (textDivs h) n = Some d -> get_div n h = (Ok d, h).
Proof. intros E. unfold get_div. by rewrite E. Qed.

Lemma put_div_same n d h : 0 <= n < len (textDivs h) -> same_but (fun j => j = n) [] h (set_textDivs (arr_set (textDivs h) n d) h).
Proof.
  intros Hn. constructor; cbn; try done; [by rewrite app_nil_r|by apply len_arr_set|].
  intros j Hj. apply get_set_other; [done|lia].
Qed.

Lemma append_drawn mk h p s to to' cls : drawn mk h p -> arr_get items (divIdx p) = Some s ->
  match to with Some t => to' = t | None => to' = len s end -> 0 <= p_offset p <= to' -> to' <= len s ->
  (forall x, start (divIdx p) + p_offset p <= x < start (divIdx p) + to' -> mk x = mark_of (match cls with Some c => c ++ js " appended" | None => [] end)) ->
  exists h', appendTextToDiv (divIdx p) (p_offset p) to cls h = (Ok (match cls with Some c => includes c (js "selected") | None => false end), h') /\
    drawn mk h' (mkPoint (divIdx p) to') /\ same_but (fun j => j = divIdx p) [] h h'.
Proof.
  intros [Hi Hd] Hs Hto Ho Hle Hm. destruct (Hd _ s Hs) as (d & Hg & Hn & _ & H2 & _). destruct (H2 eq_refl) as [Hc Hsh].
  set (c := match cls with Some c => Some (c ++ js " appended") | None => None end).
  set (d' := append_piece (c, subarray s (p_offset p) to') d). pose proof (get_range _ _ _ Hg) as Hr.
  assert (Hsub : substring s (p_offset p) to = subarray s (p_offset p) to').
  { destruct to; subst to'; [by apply substring_some|by apply substring_none]. }
  assert (Hdiv : in_span d = d) by (unfold in_span; by rewrite Hn).
  exists (set_textDivs (arr_set (textDivs h) (divIdx p) d') h). split; [|split; [split; [done|]|by apply put_div_same]].
  - unfold appendTextToDiv. rewrite (mbind_ok _ _ _ _ _ (get_div_some _ _ _ Hg)), Hdiv. unfold put_div, modify, gets, mbind, mret. cbn.
    rewrite Hi, Hs, Hsub. assert (Hset : forall v, arr_set (arr_set (textDivs h) (divIdx p) d) (divIdx p) v = arr_set (textDivs h) (divIdx p) v).
    { intros v. unfold arr_set. ztest. by rewrite list_insert_insert_eq. }
    unfold d', c, set_textDivs. destruct cls; cbn; by rewrite Hset.
  - intros j t Ht. cbn [textDivs set_textDivs divIdx p_offset]. destruct (decide (j = divIdx p)) as [->|Hne].
    + exists d'. rewrite get_set_same by done. assert (t = s) as -> by congruence. split_and!; [done|done|lia| |lia].
      intros _. split; [done|]. unfold d'. rewrite shown_append. cbn [fst snd]. rewrite Hsh.
      rewrite (subarray_split s 0 (p_offset p) to') by lia. rewrite marked_app. f_equal. rewrite len_subarray by lia.
      symmetry. rewrite Hc. transitivity (map (fun u => (u, mark_of (match cls with Some c => c ++ js " appended" | None => [] end))) (subarray s (p_offset p) to')).
      * apply marked_const. rewrite len_subarray by lia. intros y Hy. apply Hm. lia.
      * unfold c. by destruct cls.
    + destruct (Hd j t Ht) as (d1 & Hg1 & Hn1 & J1 & J2 & J3). exists d1. rewrite get_set_other by (done || lia).
      by split_and!.
Qed.

Lemma begin_drawn mk h k s off cls : ready mk h k -> arr_get items k = Some s -> 0 <= off <= len s ->
  (forall x, start k <= x < start k + off -> mk x = mark_of (match cls with Some c => c ++ js " appended" | None => [] end)) ->
  exists r h', beginText (mkPoint k off) cls h = (Ok r, h') /\ drawn mk h' (mkPoint k off) /\ same_but (fun j => j = k) [] h h'.
Proof.
  intros [Hi Hd] Hs Ho Hm. destruct (Hd k s Hs) as (d & Hg & Hn & _ & Hw). pose proof (get_range _ _ _ Hg) as Hr.
  unfold beginText. cbn [divIdx p_offset]. rewrite (mbind_ok _ _ _ _ _ (get_div_some _ _ _ Hg)). unfold put_div, modify. unfold mbind at 1.
  set (h1 := set_textDivs _ h). assert (Hd1 : drawn mk h1 (mkPoint k 0)).
  { split; [done|]. intros j t Ht. cbn [divIdx p_offset]. unfold h1. cbn [textDivs set_textDivs]. destruct (decide (j = k)) as [->|Hne].
    - rewrite get_set_same by done. eexists. split; [done|]. rewrite (Hw ltac:(lia)). split_and!; [done|lia| |lia].
      intros _. split; [done|]. by rewrite subarray_nil.
    - destruct (Hd j t Ht) as (d1 & Hg1 & Hn1 & J1 & J2). exists d1. rewrite get_set_other by (done || lia).
      split_and!; try done; intros; apply J2; lia. }
  destruct (append_drawn mk h1 (mkPoint k 0) s (Some off) off cls Hd1 Hs eq_refl) as (h2 & E2 & Hd2 & Hs2); cbn; [lia|lia| |].
  - intros x Hx. apply Hm. lia.
  - eexists _, h2. cbn in E2. split; [exact E2|]. split; [exact Hd2|]. rewrite <- (app_nil_r (@nil (Z * bool))).
    apply (same_weaken (fun j => j = k \/ j = k)); [|tauto]. apply (same_trans _ _ [] [] h h1); [by apply put_div_same|exact Hs2].
Qed.

Lemma middle_ready mk h k turns c : ready mk h k -> 0 <= k -> k + Z.of_nat turns <= len items ->
  (forall x, start k <= x < start (k + Z.of_nat turns) -> mk x = mark_of c) ->
  exists h', middle_loop turns k c h = (Ok tt, h') /\ ready mk h' (k + Z.of_nat turns) /\
    same_but (fun j => k <= j < k + Z.of_nat turns) [] h h'.
Proof.
  revert h k. induction turns as [|turns IH]; intros h k Hrd H0 Hle Hm.
  - exists h. split; [done|]. rewrite Z.add_0_r. split; [done|apply same_refl].
  - destruct (get_some items k ltac:(lia)) as [s Hs]. pose proof Hrd as [Hi Hd]. destruct (Hd k s Hs) as (d & Hg & Hn & _ & Hw).
    pose proof (get_range _ _ _ Hg) as Hr. rewrite (Hw ltac:(lia)) in *. pose proof (start_next k s Hs) as Hnext.
    pose proof (start_mono (k + 1) (k + Z.of_nat (S turns)) ltac:(lia)) as Hmono. pose proof (start_mono k (k + 1) ltac:(lia)) as Hmono1.
    cbn [middle_loop]. rewrite (mbind_ok _ _ _ _ _ (get_div_some _ _ _ Hg)). unfold put_div, modify. unfold mbind at 1. set (h1 := set_textDivs _ h).
    destruct (IH h1 (k + 1)) as (h2 & E2 & Hr2 & Hs2); [|lia|lia| |].
    + split; [done|]. intros j t Ht. unfold h1. cbn [textDivs set_textDivs]. destruct (decide (j = k)) as [->|Hne].
      * rewrite get_set_same by done. eexists. split; [done|]. assert (t = s) as -> by congruence. split_and!; [done| |lia].
        intros _. rewrite shown_class. symmetry. apply marked_const. intros y Hy. apply Hm. lia.
      * destruct (Hd j t Ht) as (d1 & Hg1 & Hn1 & J1 & J2). exists d1. rewrite get_set_other by (done || lia).
        split_and!; try done; intros; [apply J1|apply J2]; lia.
    + intros x Hx. apply Hm. replace (k + Z.of_nat (S turns)) with (k + 1 + Z.of_nat turns) by lia. lia.
    + exists h2. replace (k + Z.of_nat (S turns)) with (k + 1 + Z.of_nat turns) by lia. split; [exact E2|]. split; [exact Hr2|].
      rewrite <- (app_nil_r (@nil (Z * bool))). apply (same_weaken (fun j => j = k \/ k + 1 <= j < k + 1 + Z.of_nat turns)); [|intros; lia].
      apply (same_trans _ _ [] [] h h1); [by apply put_div_same|exact Hs2].
Qed.
End Text.
