(* ===== verification/TextLayer.v ===== *)
(** * The text layer follows the search

    An update of the highlighter in any state of the find controller: first the
    divs of the old matches become whole again, then those of the new ones are
    drawn. *)
From stdpp Require Import gmap.
From S2P Require Import Prelude Primitives FindQuery FindQuerySpec FindController FindSpec FindNext FindRun TextHighlighter TextHighlighterSpec.
Local Open Scope js_scope.

Section Layer.
Context (items : list jstr).
Abbreviation total := (len (concat items)).

(** ** One match *)

(** The suffix of the classes of the selected match. *)
Definition suffix (sel : bool) : jstr := if sel then js " selected" else [].

Lemma class_marks sel :
  mark_of ((js "highlight" ++ suffix sel) ++ js " appended") = Some sel /\ includes (js "highlight" ++ suffix sel) (js "selected") = sel /\
  mark_of ((js "highlight begin" ++ suffix sel) ++ js " appended") = Some sel /\ includes (js "highlight begin" ++ suffix sel) (js "selected") = sel /\
  mark_of (js "highlight middle" ++ suffix sel) = Some sel /\
  mark_of ((js "highlight end" ++ suffix sel) ++ js " appended") = Some sel.
Proof. destruct sel; vm_compute; by split_and!. Qed.

(** Where the drawing is: at the end of the last match, or before all divs. *)
Definition prev_ok (prevEnd : option Point) (p : Point) (x : Z) : Prop :=
  match prevEnd with Some q => p = q /\ ends_at items x q | None => p = mkPoint (-1) 0 /\ x = 0 end.

Definition touches (prevEnd : option Point) (j : Z) : Prop := match prevEnd with Some p => j = divIdx p | None => False end.
Definition covers (m : Match) (j : Z) : Prop := divIdx (begin m) <= j <= divIdx (end_ m).

(** The texts before a match. *)
Lemma before_match mk h prevEnd p x pos b : drawn items mk h p -> prev_ok prevEnd p x -> starts_at items pos b -> x <= pos ->
  (forall y, x <= y < pos -> mk y = None) ->
  exists r h', (match prevEnd with
     | Some p => if divIdx b =? divIdx p then appendTextToDiv (divIdx p) (p_offset p) (Some (p_offset b)) None
                 else appendTextToDiv (divIdx p) (p_offset p) None None ;;; beginText b None
     | None => beginText b None
     end) h = (Ok r, h') /\ drawn items mk h' b /\ same_but (fun j => touches prevEnd j \/ j = divIdx b) [] h h'.
Proof.
  intros Hd Hp Hb Hx Hm. pose proof Hb as (s & Hs & Hst & Ho). pose proof (get_range _ _ _ Hs) as Hr.
  assert (Hbegin : forall h k, ready items mk h k -> 0 <= k <= divIdx b -> x <= start items k ->
    exists r h', beginText b None h = (Ok r, h') /\ drawn items mk h' b /\ same_but (fun j => j = divIdx b) [] h h').
  { intros h1 k Hrd Hk Hxk. destruct b as [bd bo]. cbn [divIdx p_offset] in *. pose proof (start_mono items k bd Hk) as Hmono.
    apply (begin_drawn items mk h1 bd s bo None); [|done|lia|].
    - apply (ready_plain items mk h1 k bd Hrd); [lia| |lia]. intros y Hy. apply Hm. lia.
    - intros y Hy. change (mark_of []) with (@None bool). apply Hm. lia. }
  destruct prevEnd as [q|].
  - destruct Hp as [-> Hq]. destruct (end_before_begin items x q pos b Hq Hb Hx) as [Hle Heq]. pose proof Hq as (t & Ht & Hxt & Hot).
    destruct (Z.eqb_spec (divIdx b) (divIdx q)) as [E|E].
    + rewrite E in *. assert (t = s) as -> by congruence.
      destruct (append_drawn items mk h q s (Some (p_offset b)) (p_offset b) None Hd Ht eq_refl) as (h' & E1 & Hd1 & Hs1); [lia|lia| |].
      * intros y Hy. change (mark_of []) with (@None bool). apply Hm. lia.
      * eexists _, h'. split; [exact E1|]. split; [by destruct b as [bd bo]; cbn [divIdx p_offset] in *; rewrite E|].
        apply (same_weaken _ _ _ _ _ Hs1). intros j ->. by left.
    + destruct (append_drawn items mk h q t None (len t) None Hd Ht eq_refl) as (h1 & E1 & Hd1 & Hs1); [lia|lia| |].
      * intros y Hy. change (mark_of []) with (@None bool). apply Hm. pose proof (start_next items _ _ Ht).
        pose proof (get_range _ _ _ Ht). pose proof (start_mono items (divIdx q + 1) (divIdx b) ltac:(lia)). lia.
      * pose proof (start_next items _ _ Ht) as Hn. pose proof (get_range _ _ _ Ht).
        destruct (Hbegin h1 (divIdx q + 1)) as (r & h2 & E2 & Hd2 & Hs2); [by apply (drawn_end items mk h1 _ t)|lia|lia|].
        exists r, h2. rewrite (mbind_ok _ _ _ _ _ E1). split; [exact E2|]. split; [exact Hd2|].
        apply (same_trans _ _ [] [] h h1 h2 Hs1 Hs2).
  - destruct Hp as [-> ->]. destruct (Hbegin h 0) as (r & h1 & E1 & Hd1 & Hs1); [|lia|done|].
    + destruct Hd as [Hi Hd]. split; [done|]. intros j u Hu. destruct (Hd j u Hu) as (d & Hg & Hn & _ & _ & Hw). pose proof (get_range _ _ _ Hu).
      exists d. split_and!; [done|done|lia|]. intros _. apply Hw. cbn. lia.
    + exists r, h1. split; [exact E1|]. split; [exact Hd1|]. apply (same_weaken _ _ _ _ _ Hs1). intros j ->. by right.
Qed.

(** The texts of a match. *)
Lemma match_drawn mk h b e pos n sel : drawn items mk h b -> starts_at items pos b -> ends_at items (pos + n) e -> 0 < n ->
  (forall y, pos <= y < pos + n -> mk y = Some sel) ->
  exists h', (if divIdx b =? divIdx e then
      appendTextToDiv (divIdx b) (p_offset b) (Some (p_offset e)) (Some (js "highlight" ++ suffix sel))
    else
      selectedSpan <- appendTextToDiv (divIdx b) (p_offset b) None (Some (js "highlight begin" ++ suffix sel)) ;;
      middle_loop (Z.to_nat (divIdx e - (divIdx b + 1))) (divIdx b + 1) (js "highlight middle" ++ suffix sel) ;;;
      beginText e (Some (js "highlight end" ++ suffix sel)) ;;;
      mret selectedSpan) h = (Ok sel, h') /\ drawn items mk h' e /\ same_but (fun j => divIdx b <= j <= divIdx e) [] h h'.
Proof.
  intros Hd Hb He Hn Hm. destruct (begin_before_end items pos b (pos + n) e Hb He ltac:(lia)) as [Hle Heq].
  pose proof Hb as (s & Hs & Hst & Ho). pose proof He as (t & Ht & Het & Hoe). pose proof (get_range _ _ _ Hs). pose proof (get_range _ _ _ Ht).
  destruct (class_marks sel) as (C1 & C2 & C3 & C4 & C5 & C6). destruct (Z.eqb_spec (divIdx b) (divIdx e)) as [E|E].
  - rewrite <- E in *. assert (t = s) as -> by congruence.
    destruct (append_drawn items mk h b s (Some (p_offset e)) (p_offset e) (Some (js "highlight" ++ suffix sel)) Hd Hs eq_refl) as (h1 & E1 & Hd1 & Hs1).
    + lia.
    + lia.
    + intros y Hy. rewrite C1. apply Hm. lia.
    + rewrite C2 in E1. exists h1. split; [exact E1|]. split; [by destruct e as [ed eo]; cbn [divIdx p_offset] in *; rewrite <- E|].
      apply (same_weaken _ _ _ _ _ Hs1). intros; lia.
  - pose proof (start_next items _ _ Hs) as Hnext. pose proof (start_mono items (divIdx b + 1) (divIdx e) ltac:(lia)) as Hmono.
    destruct (append_drawn items mk h b s None (len s) (Some (js "highlight begin" ++ suffix sel)) Hd Hs eq_refl) as (h1 & E1 & Hd1 & Hs1).
    + lia.
    + lia.
    + intros y Hy. rewrite C3. apply Hm. lia.
    + rewrite C4 in E1. rewrite (mbind_ok _ _ _ _ _ E1).
      destruct (middle_ready items mk h1 (divIdx b + 1) (Z.to_nat (divIdx e - (divIdx b + 1))) (js "highlight middle" ++ suffix sel)) as (h2 & E2 & Hr2 & Hs2).
      * by apply (drawn_end items mk h1 _ s).
      * lia.
      * lia.
      * rewrite Z2Nat.id by lia. replace (divIdx b + 1 + (divIdx e - (divIdx b + 1))) with (divIdx e) by lia. intros y Hy. rewrite C5. apply Hm. lia.
      * rewrite (mbind_ok _ _ _ _ _ E2). rewrite Z2Nat.id in Hr2, Hs2 by lia. replace (divIdx b + 1 + (divIdx e - (divIdx b + 1))) with (divIdx e) in Hr2, Hs2 by lia.
        destruct e as [ed eo]. cbn [divIdx p_offset] in *.
        destruct (begin_drawn items mk h2 ed t eo (Some (js "highlight end" ++ suffix sel)) Hr2 Ht) as (r & h3 & E3 & Hd3 & Hs3); [lia| |].
        -- intros y Hy. rewrite C6. apply Hm. lia.
        -- exists h3. rewrite (mbind_ok _ _ _ _ _ E3). split; [done|]. split; [exact Hd3|].
           apply (same_weaken (fun j => (j = divIdx b \/ divIdx b + 1 <= j < ed) \/ j = ed)); [|intros; lia].
           apply (same_trans _ _ [] [] h h2 h3); [exact (same_trans _ _ [] [] h h1 h2 Hs1 Hs2)|exact Hs3].
Qed.

Lemma render_match_draws mk h prevEnd p x pos n m sel : drawn items mk h p -> prev_ok prevEnd p x -> conv items (pos, n) m -> x <= pos -> 0 < n ->
  (forall y, x <= y < pos -> mk y = None) -> (forall y, pos <= y < pos + n -> mk y = Some sel) ->
  exists h', render_match prevEnd m (suffix sel) h = (Ok sel, h') /\ drawn items mk h' (end_ m) /\
    same_but (fun j => touches prevEnd j \/ covers m j) [] h h'.
Proof.
  intros Hd Hp [Hb He] Hx Hn Hm1 Hm2. cbn [fst snd] in *. unfold render_match.
  destruct (before_match mk h prevEnd p x pos (begin m) Hd Hp Hb Hx Hm1) as (r & h1 & E1 & Hd1 & Hs1). rewrite (mbind_ok _ _ _ _ _ E1).
  destruct (match_drawn mk h1 (begin m) (end_ m) pos n sel Hd1 Hb He Hn Hm2) as (h2 & E2 & Hd2 & Hs2).
  exists h2. split; [exact E2|]. split; [exact Hd2|]. destruct (begin_before_end items pos _ _ _ Hb He ltac:(lia)) as [Hle _].
  apply (same_weaken _ _ _ _ _ (same_trans _ _ [] [] h h1 h2 Hs1 Hs2)). unfold covers. intros j [[Hj|Hj]|Hj]; [by left|right; lia|by right].
Qed.

(** ** The matches one after the other *)

(** The matches with their marks; [i] is the index of the first one. *)
Fixpoint tag (isSelectedPage : bool) (selectedMatchIdx i : Z) (rs : list (Z * Z)) : list (Z * Z * bool) :=
  match rs with
  | [] => []
  | m :: rs => (m, isSelectedPage && (i =? selectedMatchIdx)) :: tag isSelectedPage selectedMatchIdx (i + 1) rs
  end.
Definition asks (selectedMatchIdx : Z) (l : list (Z * Z * bool)) : list (Z * bool) :=
  map (fun _ => (selectedMatchIdx, true)) (List.filter snd l).

Lemma mark_before sp si i rs k x : in_order k total rs -> x < k -> mark (tag sp si i rs) x = None.
Proof.
  revert k i. induction rs as [|[p n] rs IH]; intros k i; cbn [tag mark in_order]; [done|]. intros (H1 & H2 & H3 & Ho) Hx.
  rewrite (proj2 (Z.leb_gt p x)) by lia. apply (IH (p + n)); [done|lia].
Qed.

Lemma drawn_ask mk h p a : drawn items mk h p -> drawn items mk (ask a h) p.
Proof. intros [Hi Hd]. by split. Qed.

Lemma same_ask h a : same_but (fun _ => False) [a] h (ask a h).
Proof. by constructor. Qed.

Lemma render_loop_draws mk sp si ms : forall rs cs, Forall2 (conv items) rs cs -> forall i last prevEnd p x h,
  (forall j m, cs !! j = Some m -> arr_get ms (i + Z.of_nat j) = Some m) -> in_order x total rs ->
  drawn items mk h p -> prev_ok prevEnd p x -> (forall y, x <= y -> mk y = mark (tag sp si i rs) y) ->
  (last = mkPoint (-1) (-1) \/ exists xl, starts_at items xl last /\ xl < x) ->
  exists h' pe p' x', render_loop sp si ms (length cs) i last prevEnd h = (Ok pe, h') /\
    drawn items mk h' p' /\ prev_ok pe p' x' /\ (forall y, x' <= y -> mk y = None) /\
    (forall j, touches pe j -> touches prevEnd j \/ exists m, m ∈ cs /\ covers m j) /\
    same_but (fun j => touches prevEnd j \/ exists m, m ∈ cs /\ covers m j) (asks si (tag sp si i rs)) h h'.
Proof.
  induction 1 as [|[pos n] m rs cs Hc _ IH]; intros i last prevEnd p x h Hms Ho Hd Hp Hmk Hlast.
  - exists h, prevEnd, p, x. split_and!; try done; [intros j; by left|apply same_refl].
  - destruct Ho as (Hx & Hn & Hend & Ho). cbn [length render_loop].
    pose proof (Hms 0%nat m eq_refl) as Hm0. change (Z.of_nat 0) with 0 in Hm0. rewrite Z.add_0_r in Hm0. rewrite Hm0.
    assert (Hne : (divIdx (begin m) =? divIdx last) && (p_offset (begin m) =? p_offset last) = false).
    { destruct Hc as [(s & Hs & Hst & Hoff) _]. cbn in Hst. pose proof (get_range _ _ _ Hs). apply andb_false_iff.
      destruct (Z.eqb_spec (divIdx (begin m)) (divIdx last)) as [E|]; [right|by left]. apply Z.eqb_neq. intros E2.
      destruct Hlast as [->|(xl & (t & Ht & Hxl & _) & Hlt)]; [cbn in *; lia|]. rewrite E, E2 in *. lia. }
    rewrite Hne. set (sel := sp && (i =? si)).
    assert (Hsel : forall y, pos <= y < pos + n -> mk y = Some sel).
    { intros y Hy. rewrite Hmk by lia. cbn [tag mark]. by rewrite (proj2 (Z.leb_le pos y)), (proj2 (Z.ltb_lt y (pos + n))) by lia. }
    destruct (render_match_draws mk h prevEnd p x pos n m sel Hd Hp Hc Hx Hn) as (h1 & E1 & Hd1 & Hs1); [|exact Hsel|].
    { intros y Hy. rewrite Hmk by lia. cbn [tag mark]. rewrite (proj2 (Z.leb_gt pos y)) by lia. apply (mark_before sp si _ rs (pos + n)); [done|lia]. }
    fold (suffix sel). rewrite (mbind_ok _ _ _ _ _ E1).
    assert (H2 : exists h2, (if sel then modify (ask (si, sel)) else mret tt) h1 = (Ok tt, h2) /\ drawn items mk h2 (end_ m) /\
      same_but (fun _ => False) (if sel then [(si, true)] else []) h1 h2).
    { destruct sel; eexists; (split; [reflexivity|]); (split; [|apply same_ask || apply same_refl]); [by apply drawn_ask|done]. }
    destruct H2 as (h2 & E2 & Hd2 & Hs2). rewrite (mbind_ok _ _ _ _ _ E2).
    destruct (IH (i + 1) (begin m) (Some (end_ m)) (end_ m) (pos + n) h2) as (h3 & pe & p' & x' & E3 & Hd3 & Hp3 & Hm3 & Ht3 & Hs3).
    + intros j m' Hj. rewrite <- (Hms (S j) m' Hj). f_equal. lia.
    + exact Ho.
    + exact Hd2.
    + split; [done|]. apply Hc.
    + intros y Hy. rewrite Hmk by lia. cbn [tag mark]. by rewrite (proj2 (Z.ltb_ge y (pos + n))), andb_false_r by lia.
    + right. exists pos. split; [apply Hc|lia].
    + assert (Hcov : covers m (divIdx (end_ m))).
      { destruct Hc as [Hb He]. destruct (begin_before_end items _ _ _ _ Hb He) as [Hle _]; [cbn; lia|]. unfold covers. lia. }
      assert (Hwid : forall j, touches (Some (end_ m)) j \/ (exists m', m' ∈ cs /\ covers m' j) -> exists m', m' ∈ m :: cs /\ covers m' j).
      { intros j [Hj|(m' & Hm' & Hj)]; [exists m; cbn in Hj; subst j; split; [by left|done]|exists m'; split; [by right|done]]. }
      exists h3, pe, p', x'. split_and!; [exact E3|done|done|done|intros j Hj; right; by apply Hwid, Ht3|].
      assert (Hasks : asks si (tag sp si i ((pos, n) :: rs)) = ([] ++ (if sel then [(si, true)] else [])) ++ asks si (tag sp si (i + 1) rs)).
      { unfold asks. cbn [tag List.filter snd]. fold sel. by destruct sel. }
      rewrite Hasks. apply (same_weaken _ _ _ _ _ (same_trans _ _ _ _ _ _ _ (same_trans _ _ _ _ _ _ _ Hs1 Hs2) Hs3)).
      intros j [[[Hj|Hj]|Hj]|Hj]; [by left|right; exists m; split; [by left|done]|done|right; by apply Hwid].
Qed.

(** ** All divs *)

Lemma mark_divs_lookup mk x l (j : nat) : mark_divs mk x l !! j = (fun s => marked mk (x + start l (Z.of_nat j)) s) <$> l !! j.
Proof.
  revert x j. induction l as [|s l IH]; intros x j; [done|]. destruct j as [|j]; cbn [mark_divs lookup list_lookup fmap option_fmap].
  - cbn. by rewrite Z.add_0_r.
  - cbn. rewrite IH. destruct (l !! j); [|done]. cbn. do 2 f_equal. unfold start. rewrite !Nat2Z.id. cbn [take concat].
    replace (Z.to_nat (Z.of_nat (S j))) with (S j) by lia. cbn [take concat]. rewrite len_app. lia.
Qed.

Lemma ready_shown mk h : ready items mk h (len items) -> len (textDivs h) = len items -> map shown (textDivs h) = mark_divs mk 0 items.
Proof.
  intros [_ Hd] Hl. apply list_eq. intros j. rewrite mark_divs_lookup, list_lookup_fmap. destruct (items !! j) as [s|] eqn:Hs.
  - rewrite <- arr_get_nat in Hs. destruct (Hd _ s Hs) as (d & Hg & _ & Hsh & _). rewrite arr_get_nat in Hg. rewrite Hg. cbn. f_equal.
    apply Hsh. apply get_range in Hs; lia.
  - apply lookup_ge_None in Hs. rewrite lookup_ge_None_2; [done|]. unfold len in Hl. lia.
Qed.

Lemma drawn_none mk h k : drawn items mk h (mkPoint (-1) 0) -> 0 <= k -> (forall y, 0 <= y -> mk y = None) -> ready items mk h k.
Proof.
  intros [Hi Hd] Hk Hm. apply (ready_plain items mk h 0 k); [|lia| |lia].
  - split; [done|]. intros j s Hs. pose proof (get_range _ _ _ Hs). destruct (Hd j s Hs) as (d & Hg & Hn & _ & _ & Hw). exists d.
    split_and!; [done|done|lia|intros _; apply Hw; cbn; lia].
  - intros y Hy. apply Hm. pose proof (start_mono items 0 k ltac:(lia)). rewrite start_0 in Hy. lia.
Qed.

(** After the last match. *)
Lemma last_text mk h pe p x : drawn items mk h p -> prev_ok pe p x -> (forall y, x <= y -> mk y = None) ->
  exists h', (match pe with
     | Some p => appendTextToDiv (divIdx p) (p_offset p) None None ;;; mret tt
     | None => mret tt
     end) h = (Ok tt, h') /\ ready items mk h' (len items) /\ same_but (touches pe) [] h h'.
Proof.
  intros Hd Hp Hm. destruct pe as [q|].
  - destruct Hp as [-> (s & Hs & Hst & Ho)]. pose proof (get_range _ _ _ Hs) as Hr. pose proof (start_next items _ _ Hs) as Hn.
    destruct (append_drawn items mk h q s None (len s) None Hd Hs eq_refl) as (h1 & E1 & Hd1 & Hs1); [lia|lia| |].
    { intros y Hy. change (mark_of []) with (@None bool). apply Hm. lia. }
    exists h1. rewrite (mbind_ok _ _ _ _ _ E1). split; [done|]. split; [|exact Hs1].
    apply (ready_plain items mk h1 (divIdx q + 1)); [by apply (drawn_end items mk h1 _ s)|lia| |lia]. intros y Hy. apply Hm. lia.
  - destruct Hp as [-> ->]. exists h. split; [done|]. split; [|apply same_refl]. apply drawn_none; [done|pose proof (len_nonneg items); lia|done].
Qed.

(** ** Clearing *)

(** The divs that are not whole are in [P]. *)
Definition dirty_in (P : Z -> Prop) (h : Highlighter) : Prop :=
  textContentItemsStr h = items /\ forall j s, arr_get items j = Some s ->
    exists d, arr_get (textDivs h) j = Some d /\ is_text_node d = false /\ (d = whole s \/ P j).

Lemma dirty_weaken (P Q : Z -> Prop) h : dirty_in P h -> (forall j, P j -> Q j) -> dirty_in Q h.
Proof. intros [Hi Hd] HPQ. split; [done|]. intros j s Hs. destruct (Hd j s Hs) as (d & Hg & Hn & Hor). exists d. intuition. Qed.

Lemma clear_divs_ok P turns n h : dirty_in P h -> 0 <= n -> n + Z.of_nat turns <= len items ->
  exists h', clear_divs turns n h = (Ok tt, h') /\ dirty_in (fun j => P j /\ ~ n <= j < n + Z.of_nat turns) h' /\
    same_but (fun _ => True) [] h h'.
Proof.
  revert P n h. induction turns as [|turns IH]; intros P n h Hd H0 Hle.
  - exists h. split; [done|]. split; [|apply same_refl]. apply (dirty_weaken P); [done|]. intros j Hj. split; [done|lia].
  - destruct (get_some items n ltac:(lia)) as [s Hs]. pose proof Hd as [Hi Hall]. destruct (Hall n s Hs) as (d & Hg & Hn & _).
    pose proof (get_range _ _ _ Hg) as Hr. cbn [clear_divs]. rewrite (mbind_ok _ _ _ _ _ (get_div_some _ _ _ Hg)).
    unfold gets, put_div, modify. unfold mbind at 1 2. rewrite Hi, Hs. cbv beta. change (default [] (Some s)) with s.
    assert (Hw : set_className [] (set_textContent s d) = whole s) by (unfold set_className, set_textContent, whole; cbn; by rewrite Hn).
    rewrite Hw. set (h1 := set_textDivs _ h).
    destruct (IH (fun j => P j /\ j <> n) (n + 1) h1) as (h2 & E2 & Hd2 & Hs2); [|lia|lia|].
    + split; [done|]. intros j t Ht. unfold h1. cbn [textDivs set_textDivs]. destruct (decide (j = n)) as [->|Hne].
      * rewrite get_set_same by done. eexists. split; [done|]. assert (t = s) as -> by congruence. split; [done|by left].
      * destruct (Hall j t Ht) as (d1 & Hg1 & Hn1 & Hor). exists d1. rewrite get_set_other by (done || lia). intuition.
    + exists h2. split; [exact E2|]. split.
      * apply (dirty_weaken _ _ _ Hd2). intros j [[Hj Hne] Hout]. split; [done|lia].
      * apply (same_weaken (fun j => j = n \/ True)); [|done]. apply (same_trans _ _ [] [] h h1 h2); [by apply put_div_same|exact Hs2].
Qed.

(** The matches come in the order of the divs. *)
Lemma later_matches rs cs x p : Forall2 (conv items) rs cs -> in_order x total rs -> ends_at items x p ->
  forall m, m ∈ cs -> divIdx p <= divIdx (begin m).
Proof.
  intros Hc. revert x p. induction Hc as [|[pos n] m rs cs Hm _ IH]; intros x p Ho Hp m' Hin; [by apply elem_of_nil in Hin|].
  destruct Ho as (H1 & H2 & H3 & Ho), Hm as [Hb He]. cbn [fst snd] in *. pose proof (end_before_begin items _ _ _ _ Hp Hb H1) as [Hle _].
  apply elem_of_cons in Hin as [->|Hin]; [done|]. pose proof (IH (pos + n) (end_ m) Ho He m' Hin).
  pose proof (begin_before_end items _ _ _ _ Hb He ltac:(lia)) as [? _]. lia.
Qed.

Lemma clear_matches_ok rs cs : Forall2 (conv items) rs cs -> forall x c h, in_order x total rs -> -1 <= c <= len items ->
  dirty_in (fun j => c <= j /\ exists m, m ∈ cs /\ covers m j) h ->
  exists h', clear_matches cs c h = (Ok tt, h') /\ dirty_in (fun _ => False) h' /\ same_but (fun _ => True) [] h h'.
Proof.
  induction 1 as [|[pos n] m rs cs Hm Hc IH]; intros x c h Ho Hcr Hd.
  - exists h. split; [done|]. split; [|apply same_refl]. apply (dirty_weaken _ _ _ Hd). intros j (_ & m & Hin & _). by apply elem_of_nil in Hin.
  - destruct Ho as (H1 & H2 & H3 & Ho). pose proof Hm as [Hb He]. cbn [fst snd] in *. cbn [clear_matches].
    pose proof (begin_before_end items _ _ _ _ Hb He ltac:(lia)) as [Hle _]. pose proof Hb as (s & Hs & _). pose proof He as (t & Ht & _).
    pose proof (get_range _ _ _ Hs). pose proof (get_range _ _ _ Ht). set (b := Z.max c (divIdx (begin m))).
    destruct (clear_divs_ok _ (Z.to_nat (divIdx (end_ m) - b + 1)) b h Hd) as (h1 & E1 & Hd1 & Hs1); [lia|lia|].
    rewrite (mbind_ok _ _ _ _ _ E1). destruct (IH (pos + n) (divIdx (end_ m) + 1) h1 Ho) as (h2 & E2 & Hd2 & Hs2); [lia| |].
    + apply (dirty_weaken _ _ _ Hd1). intros j ((Hcj & m' & Hin & Hcov) & Hout). unfold covers in *.
      apply elem_of_cons in Hin as [->|Hin]; [lia|]. pose proof (later_matches rs cs _ _ Hc Ho He m' Hin). split; [lia|]. by exists m'.
    + exists h2. split; [exact E2|]. split; [exact Hd2|]. apply (same_weaken (fun j => True \/ True)); [|done].
      exact (same_trans _ _ [] [] h h1 h2 Hs1 Hs2).
Qed.

(** ** An update *)

(** The divs that are not whole are those of the matches last drawn. *)
Record layer_ok (h : Highlighter) : Prop := {
  layer_len : len (textDivs h) = len items;
  layer_matches : exists rs, in_order 0 total rs /\ Forall2 (conv items) rs (matches h);
  layer_dirty : dirty_in (fun j => exists m, m ∈ matches h /\ covers m j) h
}.

(** A layer that was just made. *)
Lemma new_layer_ok b : layer_ok (set_enabled b (setTextMapping (map whole items) items new_TextHighlighter)).
Proof.
  constructor; cbn; [by unfold len; rewrite length_map|exists []; split; [done|constructor]|].
  split; [done|]. intros j s Hs. exists (whole s). split; [|split; [done|by left]]. unfold arr_get in *. cbn.
  destruct (j <? 0); [done|]. rewrite list_lookup_fmap. by rewrite Hs.
Qed.

(** All divs are whole. *)
Lemma clear_ok h : layer_ok h -> exists h', clear_matches (matches h) (-1) h = (Ok tt, h') /\ dirty_in (fun _ => False) h' /\
  same_but (fun _ => True) [] h h'.
Proof.
  intros [Hl (rs & Ho & Hc) Hd]. apply (clear_matches_ok rs (matches h) Hc 0 (-1) h Ho); [pose proof (len_nonneg items); lia|].
  destruct Hd as [Hi Hd]. split; [done|]. intros j s Hs. destruct (Hd j s Hs) as (d & Hg & Hn & Hor). pose proof (get_range _ _ _ Hs).
  exists d. split_and!; [done|done|]. destruct Hor as [|?]; [by left|right; split; [lia|done]].
Qed.

Lemma clean_drawn mk h : dirty_in (fun _ => False) h -> drawn items mk h (mkPoint (-1) 0).
Proof.
  intros [Hi Hd]. split; [done|]. intros j s Hs. destruct (Hd j s Hs) as (d & Hg & Hn & [Hw|[]]). pose proof (get_range _ _ _ Hs).
  exists d. cbn. split_and!; try done; lia.
Qed.

(** The matches of the page that the search shows, and whether they are selected. *)
Definition to_mark (pageIdx : Z) (f : Find) : list (Z * Z * bool) :=
  if highlightMatches f then
    match state f, pageMatches f !! pageIdx with
    | Some s, Some l =>
        let isSelectedPage := pageIdx =? fst (selected f) in
        if highlightAll s then tag isSelectedPage (snd (selected f)) 0 l
        else if isSelectedPage then
          match arr_get l (snd (selected f)) with Some m => [(m, true)] | None => [] end
        else []
    | _, _ => []
    end
  else [].

(** The matches drawn are part of those of the page. *)
Lemma in_order_one k size l j m : in_order k size l -> l !! j = Some m -> in_order k size [m].
Proof.
  revert j k. induction l as [|[p n] l IH]; intros j k Ho Hj; [done|]. destruct Ho as (H1 & H2 & H3 & Ho).
  destruct j as [|j]; [injection Hj as <-; by split_and!|]. destruct m as [q r]. destruct (IH j (p + n) Ho Hj) as (? & ? & ? & _).
  cbn. split_and!; try done; lia.
Qed.
End Layer.
