(* ===== verification/TextLayerClaims.v ===== *)
(** * The text layer and the find controller

    In every state of the search in which the matches of a page are in order its
    text layer can be updated, and shows then what the search found on this page;
    and what happens to matches that were led back to the same character. *)
From stdpp Require Import gmap.
From S2P Require Import Prelude Primitives FindQuery FindQuerySpec FindController FindSpec FindNext FindRun TextHighlighter TextHighlighterSpec TextLayer.
Local Open Scope js_scope.

(** ** Only [onFind] sets the state of the search *)

Definition keeps_state {A} (m : M Find A) : Prop := forall f, state (snd (m f)) = state f.

Lemma keeps_ret {A} (a : A) : keeps_state (mret a).
Proof. done. Qed.
Lemma keeps_throw {A} ex : keeps_state (A := A) (throw ex).
Proof. done. Qed.
Lemma keeps_get : keeps_state get.
Proof. done. Qed.
Lemma keeps_gets {A} (g : Find -> A) : keeps_state (gets g).
Proof. done. Qed.
Lemma keeps_modify g : (forall f, state (g f) = state f) -> keeps_state (modify g).
Proof. done. Qed.
Lemma keeps_bind {A B} (m : M Find A) (k : A -> M Find B) : keeps_state m -> (forall a, keeps_state (k a)) -> keeps_state (mbind m k).
Proof.
  intros Hm Hk f. unfold mbind. specialize (Hm f). destruct (m f) as [[a| |] f1]; cbn in *; [|done..]. by rewrite (Hk a f1).
Qed.
Create HintDb keeps discriminated.
#[export] Hint Resolve keeps_ret keeps_throw keeps_get keeps_gets : keeps.

Ltac keeps :=
  repeat first
    [ solve [eauto with keeps]
    | apply keeps_bind; [|intros ?]
    | apply keeps_modify; intros ?; repeat case_match; reflexivity
    | case_match ].

Section Keeps.
Context (e : Engine) (normalize : jstr -> jstr) (pagesCount : Z) (progress : bool).

Lemma keeps_get_state : keeps_state get_state.
Proof. intros f. unfold get_state. destruct (state f) eqn:E; by rewrite <- E. Qed.
Lemma keeps_updateUIState s previous : keeps_state (updateUIState pagesCount progress s previous).
Proof. intros f. unfold updateUIState. by destruct (_ && _). Qed.
#[local] Hint Resolve keeps_get_state keeps_updateUIState : keeps.
Lemma keeps_updatePage i : keeps_state (updatePage i).
Proof. unfold updatePage, dispatch. keeps. Qed.
Lemma keeps_updateAllPages : keeps_state updateAllPages.
Proof. unfold updateAllPages, dispatch. keeps. Qed.
Lemma keeps_get_query : keeps_state (get_query normalize).
Proof. unfold get_query. keeps. Qed.
#[local] Hint Resolve keeps_updatePage keeps_updateAllPages keeps_get_query : keeps.
Lemma keeps_updateMatch found : keeps_state (updateMatch pagesCount progress found).
Proof. unfold updateMatch. keeps. Qed.
#[local] Hint Resolve keeps_updateMatch : keeps.
Lemma keeps_matchesReady l : keeps_state (matchesReady pagesCount progress l).
Proof. unfold matchesReady. keeps. Qed.
#[local] Hint Resolve keeps_matchesReady : keeps.

Lemma keeps_nextPageMatch : keeps_state (nextPageMatch pagesCount progress).
Proof.
  unfold nextPageMatch. generalize (Z.to_nat pagesCount + 2)%nat. intros turns f. revert f. induction turns as [|turns IH]; intros f; [done|].
  cbn [nextPageMatch_loop]. destruct (pageMatches f !! _); [|done]. revert f. fold (keeps_state (nextPageMatch_loop pagesCount progress turns)) in IH.
  enough (Hk : keeps_state (ready <- matchesReady pagesCount progress l ;; if ready then mret tt else nextPageMatch_loop pagesCount progress turns)) by (intros f; apply Hk).
  keeps.
Qed.
#[local] Hint Resolve keeps_nextPageMatch : keeps.

Lemma keeps_nextMatch : keeps_state (nextMatch normalize pagesCount progress).
Proof. unfold nextMatch, start_search. keeps. Qed.
#[local] Hint Resolve keeps_nextMatch : keeps.

Lemma keeps_find_job t : keeps_state (find_job normalize pagesCount progress t).
Proof. unfold find_job, extractText. keeps. Qed.

Lemma keeps_close_job : keeps_state (close_job pagesCount progress).
Proof. unfold close_job. keeps. Qed.

Lemma keeps_calculateMatch i : keeps_state (calculateMatch e normalize pagesCount progress i).
Proof.
  intros f. unfold calculateMatch. destruct (state f) as [s|] eqn:Hs; [|done]. rewrite <- Hs. revert f Hs.
  match goal with |- forall f, _ -> state (snd (?m f)) = _ => enough (Hk : keeps_state m) by (intros f _; apply Hk) end.
  assert (Hfm : forall q t, keeps_state (fun f => (find_matches e s q t, f))) by done.
  unfold updateUIResultsCount, dispatch. keeps; intros f; done.
Qed.

(** An event leaves a state of the search. *)
Lemma step_state ev f : match ev with CallFind _ _ => False | _ => True end ->
  state (snd (find_step e normalize pagesCount progress ev f)) = state f.
Proof.
  intros Hev. destruct ev as [visible s| | | |text|i|p|]; cbn [find_step]; try done.
  - destruct (jobs f) as [|[t|] js]; [done|by rewrite keeps_find_job|by rewrite keeps_close_job].
  - destruct (findTimeout f); [|done]. assert (Hk : keeps_state (nextMatch normalize pagesCount progress ;;; modify (set_findTimeout false))) by keeps. apply Hk.
  - by destruct (_ && _).
  - destruct (_ && _); [|done].
    assert (Hk : keeps_state (modify (fun f => set_pending (pendingFindMatches f ∖ {[i]}) f) ;;; calculateMatch e normalize pagesCount progress i)).
    { apply keeps_bind; [by apply keeps_modify|intros _; apply keeps_calculateMatch]. }
    apply Hk.
  - by destruct (_ && _).
Qed.

Context (Hpages : 1 <= pagesCount) (Hengine : engine_ok e).

Lemma close_job_hides f f' : close_job pagesCount progress f = (Ok tt, f') -> highlightMatches f' = false.
Proof.
  unfold close_job, updateAllPages, dispatch. unfold mbind, modify. destruct (updateUIState _ _ _ _ _) as [[[]| |] f1]; [|done..]. by intros [= <-].
Qed.

(** Matches are shown only in a search. *)
Lemma shown_in_search f : find_reached e normalize pagesCount progress f -> highlightMatches f = true -> is_Some (state f).
Proof.
  intros Hf. enough (Hn : state f = None -> highlightMatches f = false) by (destruct (state f); [by eexists|intros; by rewrite Hn in *]).
  induction Hf as [p Hp|ev f f' Hf IH Hev E]; [done|]. intros Hn.
  pose proof (find_reached_ok e normalize pagesCount progress Hpages Hengine f Hf) as Hok.
  assert (Hcall : match ev with CallFind _ _ => False | _ => True end).
  { destruct ev as [visible s| | | | | | |]; try done. revert E. cbn [find_step]. unfold onFind. unfold mbind at 1, modify at 1.
    set (f1 := set_state (Some s) _). assert (Hs1 : state f1 = Some s) by done. clearbody f1.
    assert (Hk : keeps_state (match type s with HighlightAllChange => mret tt | _ => updateUIState pagesCount progress PENDING false end ;;;
      modify (fun f => set_jobs (jobs f ++ [FindJob (type s)]) f))).
    { apply keeps_bind; [case_match; apply keeps_updateUIState || apply keeps_ret|intros _; by apply keeps_modify]. }
    intros E. specialize (Hk f1). rewrite E in Hk. cbn in Hk. congruence. }
  pose proof (step_state ev f Hcall) as Hs. rewrite E in Hs. cbn in Hs. rewrite Hn in Hs. symmetry in Hs. specialize (IH Hs).
  destruct (ok_state _ _ _ f Hok Hs) as (Hpend & Hto & Hjobs). revert E. destruct ev as [visible s| | | |text|i|p|]; cbn [find_step]; try done.
  - by intros [= <-].
  - destruct (jobs f) as [|[t|] js] eqn:Hj; [by intros [= <-]|destruct (Hjobs t); rewrite ?Hj; by left|apply close_job_hides].
  - rewrite Hto. by intros [= <-].
  - destruct (_ && _); by intros [= <-].
  - rewrite Hpend, bool_decide_eq_false_2 by set_solver. by intros [= <-].
  - destruct (_ && _); by intros [= <-].
  - by intros [= <-].
Qed.
End Keeps.

(** ** Updates *)

Section Update.
Context (e : Engine) (normalize : jstr -> jstr) (pagesCount : Z) (progress : bool).
Context (Hpages : 1 <= pagesCount) (Hengine : engine_ok e).
Context (items : list jstr) (pageIdx : Z).
Abbreviation total := (len (concat items)).
Abbreviation reached := (find_reached e normalize pagesCount progress).

(** Matches drawn on whole divs. *)
Lemma draw_list sp si ms i rs cs h : dirty_in items (fun _ => False) h -> Forall2 (conv items) rs cs -> in_order 0 total rs ->
  (forall j m, cs !! j = Some m -> arr_get ms (i + Z.of_nat j) = Some m) ->
  exists h', (prevEnd <- render_loop sp si ms (length cs) i (mkPoint (-1) (-1)) None ;;
      match prevEnd with
      | Some p => appendTextToDiv (divIdx p) (p_offset p) None None ;;; mret tt
      | None => mret tt
      end) h = (Ok tt, h') /\ ready items (mark (tag sp si i rs)) h' (len items) /\
    same_but (fun j => exists m, m ∈ cs /\ covers m j) (asks si (tag sp si i rs)) h h'.
Proof.
  intros Hd Hc Ho Hms.
  destruct (render_loop_draws items (mark (tag sp si i rs)) sp si ms rs cs Hc i (mkPoint (-1) (-1)) None (mkPoint (-1) 0) 0 h)
    as (h1 & pe & p & x & E1 & Hd1 & Hp1 & Hm1 & Ht1 & Hs1); [exact Hms|exact Ho|by apply clean_drawn|done|done|by left|].
  rewrite (mbind_ok _ _ _ _ _ E1). destruct (last_text items _ h1 pe p x Hd1 Hp1 Hm1) as (h2 & E2 & Hr2 & Hs2).
  exists h2. split; [exact E2|]. split; [exact Hr2|]. rewrite <- (app_nil_r (asks _ _)).
  apply (same_weaken _ _ _ _ _ (same_trans _ _ _ [] _ _ _ Hs1 Hs2)). intros j [[Hj|Hj]|Hj]; [done|done|]. by destruct (Ht1 j Hj) as [?|].
Qed.

Lemma render_ok f l cs h : reached f -> highlightMatches f = true -> pageMatches f !! pageIdx = Some l -> in_order 0 total l ->
  dirty_in items (fun _ => False) h -> Forall2 (conv items) l cs ->
  exists h', renderMatches pageIdx f cs h = (Ok tt, h') /\ ready items (mark (to_mark pageIdx f)) h' (len items) /\
    same_but (fun j => exists m, m ∈ cs /\ covers m j) (asks (snd (selected f)) (to_mark pageIdx f)) h h'.
Proof.
  intros Hf Hh Hl Ho Hd Hc. destruct (shown_in_search e normalize pagesCount progress Hpages Hengine f Hf Hh) as [s Hs].
  pose proof (find_reached_ok e normalize pagesCount progress Hpages Hengine f Hf) as Hok.
  assert (Hnone : exists h', (Ok tt, h) = (Ok tt, h') /\ ready items (mark []) h' (len items) /\
    same_but (fun j => exists m, m ∈ cs /\ covers m j) (asks (snd (selected f)) []) h h').
  { exists h. split; [done|]. split; [|apply same_refl]. apply drawn_none; [by apply clean_drawn|apply len_nonneg|done]. }
  unfold renderMatches, to_mark. rewrite Hh, Hs, Hl. pose proof (Forall2_length _ _ _ Hc) as Hlen. destruct (Z.eqb_spec (len cs) 0) as [E|E].
  - assert (Hln : l = []) by (destruct l; [done|unfold len in E; cbn in Hlen; lia]). rewrite Hln. destruct (highlightAll s); [exact Hnone|].
    destruct (pageIdx =? _); [|exact Hnone]. by destruct (arr_get [] _) eqn:En; [apply get_range in En; unfold len in En; cbn in En; lia|].
  - destruct (highlightAll s); cbn [negb andb].
    + replace (Z.to_nat (len cs - 0)) with (length cs) by (unfold len; lia).
      apply (draw_list (pageIdx =? fst (selected f)) (snd (selected f)) cs 0 l cs h Hd Hc Ho). intros j m Hj. by rewrite Z.add_0_l, arr_get_nat.
    + destruct (Z.eqb_spec pageIdx (fst (selected f))) as [Ep|Ep]; cbn [negb]; [|exact Hnone].
      assert (Hm : is_match f (selected f)).
      { destruct (ok_selected _ _ _ f Hok) as [Hsel|]; [|done]. rewrite Hsel in Ep. pose proof (ok_keys _ _ _ f Hok _ _ Hl). cbn in Ep. lia. }
      destruct Hm as (l' & Hl' & Hi). rewrite <- Ep, Hl in Hl'. injection Hl' as <-. destruct (get_some l _ Hi) as [m Em]. rewrite Em.
      pose proof Em as Em'. unfold arr_get in Em'. rewrite (proj2 (Z.ltb_ge _ _)) in Em' by lia.
      destruct (Forall2_lookup_l _ _ _ _ _ Hc Em') as (c & Ec & Hconv).
      replace (Z.to_nat (snd (selected f) + 1 - snd (selected f))) with (length [c]) by (cbn; lia).
      replace [(m, true)] with (tag true (snd (selected f)) (snd (selected f)) [m]) by (cbn [tag]; by rewrite Z.eqb_refl).
      destruct (draw_list true (snd (selected f)) cs (snd (selected f)) [m] [c] h Hd) as (h' & E' & Hr' & Hs').
      * constructor; [exact Hconv|constructor].
      * by apply (in_order_one 0 total l (Z.to_nat (snd (selected f)))).
      * intros j m' Hj. destruct j as [|j]; [|done]. injection Hj as <-. rewrite Z.add_0_r. unfold arr_get. by rewrite (proj2 (Z.ltb_ge _ _)) by lia.
      * exists h'. split; [exact E'|]. split; [exact Hr'|]. apply (same_weaken _ _ _ _ _ Hs'). intros j (m' & Hin & Hcov).
        apply list_elem_of_singleton in Hin as ->. exists c. split; [by eapply list_elem_of_lookup_2|done].
Qed.

(** A layer on which matches were drawn. *)
Lemma drawn_layer_ok mk l cs h1 h2 : in_order 0 total l -> Forall2 (conv items) l cs -> matches h2 = cs -> len (textDivs h2) = len items ->
  dirty_in items (fun _ => False) h1 -> ready items mk h2 (len items) ->
  (forall j, ~ (exists m, m ∈ cs /\ covers m j) -> arr_get (textDivs h2) j = arr_get (textDivs h1) j) -> layer_ok items h2.
Proof.
  intros Ho Hc Hm Hl [_ Hd1] [Hi2 Hd2] Hdivs. constructor; [done|exists l; by rewrite Hm|]. rewrite Hm. split; [done|].
  intros j s Hj. destruct (Hd2 j s Hj) as (d & Hg & Hn & _). exists d. split; [done|]. split; [done|].
  destruct (decide (Exists (fun m => covers m j) cs)) as [Hex|Hno]; [right; by apply Exists_exists|left].
  rewrite Hdivs in Hg by (intros Hx; apply Hno; by apply Exists_exists). destruct (Hd1 j s Hj) as (d' & Hg' & _ & [Hw|[]]). congruence.
Qed.

(** Without matches to mark all divs are whole. *)
Lemma clean_ready h : dirty_in items (fun _ => False) h -> ready items (mark []) h (len items).
Proof. intros Hd. apply drawn_none; [by apply clean_drawn|apply len_nonneg|done]. Qed.

Lemma convert_page l : in_order 0 total l -> exists cs, convertMatches items (Some l) = Ok cs /\ Forall2 (conv items) l cs.
Proof.
  intros Ho. unfold convertMatches. destruct l as [|[p n] l]; [exists []; split; [done|constructor]|].
  destruct items as [|s its] eqn:Ei; [destruct Ho as (H1 & H2 & H3 & _); unfold len in H3; cbn in H3; lia|].
  by apply (convert_ok (s :: its) ((p, n) :: l) 0 s 0).
Qed.

(** C4. Whatever the text layer of a page showed before, an update in a state
    that calls and events lead to (with queries whose expression has no empty
    match, as in FindRun), in which the matches of the page stand in
    order in the text of its divs, each behind the one before ([in_order]),
    neither throws nor loops, and afterwards each div shows its own text, all of
    it and nothing else, with exactly the characters of the matches of this page
    marked (of all matches or of the selected one, as the search asks), the
    selected match with its own mark; the find controller is asked once to scroll
    to it.  Matches of a normalized text that are led back to the same character
    are not in order: for these see [repeated_match_not_selected]. *)
Theorem text_layer_shows_matches f h : reached f -> layer_ok items h -> enabled h = true ->
  (forall l, pageMatches f !! pageIdx = Some l -> in_order 0 total l) ->
  exists h', on_updatetextlayermatches pageIdx pageIdx f h = (Ok tt, h') /\ layer_ok items h' /\ enabled h' = true /\
    map shown (textDivs h') = mark_divs (mark (to_mark pageIdx f)) 0 items /\
    asked h' = asked h ++ asks (snd (selected f)) (to_mark pageIdx f).
Proof.
  intros Hf Hlay He Ho. unfold on_updatetextlayermatches, updateMatches. rewrite He, Z.eqb_refl. cbn [andb orb negb].
  destruct (clear_ok items h Hlay) as (h1 & E1 & Hd1 & [S1 _ _ S4 S5 S6 _]). rewrite (mbind_ok _ _ _ _ _ E1), orb_false_r.
  pose proof (layer_len items h Hlay) as Hlen. rewrite app_nil_r in S5.
  assert (Hempty : forall h2, textDivs h2 = textDivs h1 -> textContentItemsStr h2 = textContentItemsStr h1 -> asked h2 = asked h1 -> to_mark pageIdx f = [] ->
    map shown (textDivs h2) = mark_divs (mark (to_mark pageIdx f)) 0 items /\ asked h2 = asked h ++ asks (snd (selected f)) (to_mark pageIdx f)).
  { intros h2 E2 E3 E4 ->. rewrite E2. split; [|unfold asks; cbn; rewrite app_nil_r; congruence]. apply ready_shown; [by apply clean_ready|congruence]. }
  destruct (highlightMatches f) eqn:Hh; cbn [negb].
  - unfold mbind at 1. destruct Hd1 as [Hi1 Hall1]. rewrite Hi1. destruct (pageMatches f !! pageIdx) as [l|] eqn:Hl.
    + destruct (convert_page l (Ho _ eq_refl)) as (cs & -> & Hc). unfold mbind at 1, modify.
      destruct (render_ok f l cs (set_matches cs h1) Hf Hh Hl (Ho _ eq_refl)) as (h2 & E2 & Hr2 & [T1 _ _ T4 T5 T6 T7]); [by split|exact Hc|].
      cbn in T1, T4, T5, T6. exists h2. split_and!; [exact E2| |congruence| |congruence].
      * by apply (drawn_layer_ok (mark (to_mark pageIdx f)) l cs (set_matches cs h1) h2 (Ho _ eq_refl) Hc T4 ltac:(congruence)).
      * apply ready_shown; [exact Hr2|congruence].
    + unfold convertMatches, mbind at 1, modify. exists (set_matches [] h1).
      assert (Hn : to_mark pageIdx f = []) by (unfold to_mark; rewrite Hl; by destruct (highlightMatches f), (state f)).
      destruct (Hempty (set_matches [] h1)) as (Hsh & Ha); [done..|]. split_and!; [done| |cbn; congruence|done|done].
      apply (drawn_layer_ok (mark []) [] [] h1 (set_matches [] h1)); [done|constructor|done|cbn; congruence|by split| |done].
      exact (clean_ready h1 (conj Hi1 Hall1)).
  - assert (Hn : to_mark pageIdx f = []) by (unfold to_mark; by rewrite Hh). destruct (Hempty h1) as (Hsh & Ha); [done..|].
    exists h1. split_and!; [done| |congruence|done|done].
    constructor; [congruence|rewrite S4; apply (layer_matches items h Hlay)|]. by apply (dirty_weaken items (fun _ => False)).
Qed.

(** A search for the div of a position that ends where it starts. *)
Lemma skip_stays past turns i s : arr_get items i = Some s -> past (start items i + len s) = false ->
  skip_divs items past turns i (start items i) = Ok (i, start items i).
Proof. intros Hs Hp. destruct turns; cbn [skip_divs]; destruct (i =? _); [done|by rewrite Hs, Hp|done|by rewrite Hs, Hp]. Qed.

(** When two matches of the normalized text are led back to the same character
    (an "f" found twice in the ligature "ff") and all matches are marked, only the
    first of them is drawn: when the second one is selected no character has the
    mark of the selected match, and the find controller is not asked to scroll. *)
Theorem repeated_match_not_selected f h s p : reached f -> layer_ok items h -> enabled h = true -> highlightMatches f = true ->
  state f = Some s -> highlightAll s = true -> pageMatches f !! pageIdx = Some [(p, 1); (p, 1)] -> selected f = (pageIdx, 1) ->
  0 <= p < total ->
  exists h', on_updatetextlayermatches pageIdx pageIdx f h = (Ok tt, h') /\
    map shown (textDivs h') = mark_divs (mark [(p, 1, false)]) 0 items /\ asked h' = asked h.
Proof.
  intros Hf Hlay He Hh Hs Hall Hl Hsel Hp. unfold on_updatetextlayermatches, updateMatches. rewrite He, Z.eqb_refl. cbn [andb orb negb].
  destruct (clear_ok items h Hlay) as (h1 & E1 & Hd1 & [S1 _ _ S4 S5 S6 _]). rewrite (mbind_ok _ _ _ _ _ E1), orb_false_r, Hh. cbn [negb].
  assert (Hone : in_order 0 total [(p, 1)]) by (cbn; split_and!; lia || done). destruct (convert_page _ Hone) as (cs & Ec & Hc).
  assert (Hm : exists m, cs = [m] /\ conv items (p, 1) m /\ convertMatches items (Some [(p, 1); (p, 1)]) = Ok [m; m]).
  { revert Ec. unfold convertMatches. cbn [convert_loop].
    destruct (get_some items 0) as [s0 Hs0]. { clear -Hp. destruct items as [|u its]; [unfold len in Hp; cbn in Hp; lia|rewrite len_cons; pose proof (len_nonneg its); lia]. }
    destruct (skip_ok items (fun e => e <=? p) (length items) 0 s0 Hs0) as (i & t & Ei & Ht & Hpast & _); [apply Z.leb_gt; lia|unfold len; lia|].
    change (start items 0) with 0 in Ei. rewrite Ei. apply Z.leb_gt in Hpast.
    rewrite (skip_stays (fun e => e <? p + 1) _ i t Ht) by (apply Z.ltb_ge; lia). cbn [convert_loop].
    rewrite (skip_stays (fun e => e <=? p) _ i t Ht) by (apply Z.leb_gt; lia).
    rewrite (skip_stays (fun e => e <? p + 1) _ i t Ht) by (apply Z.ltb_ge; lia). cbn [convert_loop].
    intros [= <-]. eexists. split; [done|]. split; [by inversion Hc|done]. }
  destruct Hm as (m & -> & Hm & Em). unfold mbind at 1. destruct Hd1 as [Hi1 Hall1]. rewrite Hi1, Hl, Em. unfold mbind at 1, modify.
  set (h2 := set_matches [m; m] h1). assert (Hd2 : dirty_in items (fun _ => False) h2) by (by split).
  unfold renderMatches. change (len [m; m] =? 0) with false. cbv iota. rewrite Hs, Hall, Hsel. cbn [fst snd negb andb]. rewrite Z.eqb_refl.
  change (Z.to_nat (len [m; m] - 0)) with 2%nat.
  destruct (render_match_draws items (mark [(p, 1, false)]) h2 None (mkPoint (-1) 0) 0 p 1 m false) as (h3 & E3 & Hd3 & [_ _ _ _ T5 T6 _]);
    [by apply clean_drawn|done|done|lia|lia|intros y Hy; cbn [mark]; by rewrite (proj2 (Z.leb_gt p y)) by lia|
     intros y Hy; cbn [mark]; by rewrite (proj2 (Z.leb_le p y)), (proj2 (Z.ltb_lt y (p + 1))) by lia|].
  assert (Hloop : render_loop true 1 [m; m] 2 0 (mkPoint (-1) (-1)) None h2 = (Ok (Some (end_ m)), h3)).
  { assert (Hne : (divIdx (begin m) =? -1) = false).
    { destruct Hm as [(u & Hu & _) _]. apply get_range in Hu. apply Z.eqb_neq. lia. }
    cbn [render_loop]. change (arr_get [m; m] 0) with (Some m). change (arr_get [m; m] (0 + 1)) with (Some m). cbn [divIdx p_offset].
    rewrite Hne. cbn [andb]. change (0 =? 1) with false. cbn [andb]. rewrite (mbind_ok _ _ _ _ _ E3). unfold mbind at 1, mret at 1.
    by rewrite !Z.eqb_refl. }
  rewrite (mbind_ok _ _ _ _ _ Hloop).
  destruct (last_text items (mark [(p, 1, false)]) h3 (Some (end_ m)) (end_ m) (p + 1) Hd3) as (h4 & E4 & Hr4 & [_ _ _ _ U5 U6 _]);
    [by split; [|apply Hm]|intros y Hy; cbn [mark]; by rewrite (proj2 (Z.ltb_ge y (p + 1))), andb_false_r by lia|].
  exists h4. split; [exact E4|]. cbn in T5, T6. rewrite app_nil_r in *. pose proof (layer_len items h Hlay).
  split; [apply ready_shown; [exact Hr4|congruence]|congruence].
Qed.
End Update.

(** ** The pages of examples *)

(** "an" found in "b", "a" and "nana": the first match ends in the next div. *)
Definition find_all (t : FindType) (q : jstr) : SearchState := mkSearch t (Text q) no_options false true.
Definition all_found : Find :=
  after_events 2 ([CallFind (fun _ => true) (find_all Plain (js "an")); RunJob] ++ three_pages ++ TimerFires :: map PageReady [1; 2; 0]).
Definition layer_of (items : list jstr) : Highlighter := set_enabled true (setTextMapping (map whole items) items new_TextHighlighter).

Lemma all_found_reached : find_reached text_engine (fun q => q) 3 true all_found.
Proof. reached_ok. Qed.

Lemma text_layer_shows_matches_witness :
  to_mark 1 all_found = [(1, 2, true); (3, 2, false)] /\
  exists h', on_updatetextlayermatches 1 1 all_found (layer_of [js "b"; js "a"; js "nana"]) = (Ok tt, h') /\
    layer_ok [js "b"; js "a"; js "nana"] h' /\ enabled h' = true /\
    map shown (textDivs h') = mark_divs (mark (to_mark 1 all_found)) 0 [js "b"; js "a"; js "nana"] /\
    asked h' = asked (layer_of [js "b"; js "a"; js "nana"]) ++ asks (snd (selected all_found)) (to_mark 1 all_found).
Proof.
  split; [vm_compute; reflexivity|].
  apply (text_layer_shows_matches text_engine (fun q => q) 3 true ltac:(lia) text_engine_ok [js "b"; js "a"; js "nana"] 1 all_found
    (layer_of [js "b"; js "a"; js "nana"]) all_found_reached (new_layer_ok [js "b"; js "a"; js "nana"] true) eq_refl).
  intros l Hl. assert (l = [(1, 2); (3, 2)]) as -> by (vm_compute in Hl; congruence). vm_compute. intuition congruence.
Defined.

(** The ligature "ff" on the second page; the search went to its second "f". *)
Definition ligature : PageText := mkText (js "ff") (Some ([0; 1; 2], [0; -1; -1])) false.
Definition second_found : Find :=
  after_events 2 ([CallFind (fun _ => true) (find_all Plain (js "f")); RunJob; TextArrives None; TextArrives (Some ligature); TextArrives None;
    TimerFires] ++ map PageReady [1; 2; 0] ++ [CallFind (fun _ => true) (find_all Again (js "f")); RunJob]).

Lemma second_found_reached : find_reached text_engine (fun q => q) 3 true second_found.
Proof. reached_ok. Qed.

Lemma repeated_match_not_selected_witness :
  (pageMatches second_found !! 1 = Some [(0, 1); (0, 1)] /\ selected second_found = (1, 1)) /\
  exists h', on_updatetextlayermatches 1 1 second_found (layer_of [[0xfb00]]) = (Ok tt, h') /\
    map shown (textDivs h') = mark_divs (mark [(0, 1, false)]) 0 [[0xfb00]] /\ asked h' = asked (layer_of [[0xfb00]]).
Proof.
  split; [split; vm_compute; reflexivity|].
  apply (repeated_match_not_selected text_engine (fun q => q) 3 true [[0xfb00]] 1 second_found
    (layer_of [[0xfb00]]) (find_all Again (js "f")) 0 second_found_reached (new_layer_ok [[0xfb00]] true)); [vm_compute; reflexivity..|].
  vm_compute. split; [discriminate|reflexivity].
Defined.
