(* ===== verification/RenderingQueue.v ===== *)
(** * Which page is drawn next

    [PDFRenderingQueue] of web/viewer.mjs with [forceRendering] and
    [#getScrollAhead] of [PDFViewer]: of the pages on the screen, the holes
    between them and the pages next to them, the first one that is not drawn is
    drawn next.  Page views are known by their [id]; [views] is [_pages], in whose
    place [id - 1] a view is.  [draw] and [resume] are the calls of the page view,
    of which only the change of its state is kept. *)
From stdpp Require Import gmap.
From S2P Require Import Prelude Primitives Number64 ViewerUtils.
Local Open Scope js_scope.

Inductive RenderingState := INITIAL | RUNNING | PAUSED | FINISHED.
#[global] Instance rendering_state_dec : EqDecision RenderingState.
Proof. solve_decision. Defined.

(** [view.renderingId] of a page and of the detail view of a page. *)
Inductive RenderingId := PageId (id : Z) | DetailId (id : Z).
#[global] Instance rendering_id_dec : EqDecision RenderingId.
Proof. solve_decision. Defined.

Record Queue := mkQueue {
  renderingState : gmap Z RenderingState;  (** of the page views; INITIAL when they are not there *)
  detailState : gmap Z RenderingState;     (** of the detail views there are *)
  highestPriorityPage : option RenderingId;
  idleTimeout : bool;
  isThumbnailViewEnabled : bool;
  printing : bool;
  onIdle : bool
}.
Definition set_states s d q := mkQueue s d (highestPriorityPage q) (idleTimeout q) (isThumbnailViewEnabled q) (printing q) (onIdle q).
Definition set_highest v q := mkQueue (renderingState q) (detailState q) v (idleTimeout q) (isThumbnailViewEnabled q) (printing q) (onIdle q).
Definition set_idleTimeout v q := mkQueue (renderingState q) (detailState q) (highestPriorityPage q) v (isThumbnailViewEnabled q) (printing q) (onIdle q).

Definition state_of (q : Queue) (v : RenderingId) : RenderingState :=
  match v with
  | PageId id => default INITIAL (renderingState q !! id)
  | DetailId id => default INITIAL (detailState q !! id)
  end.
Definition set_state_of (v : RenderingId) (s : RenderingState) (q : Queue) : Queue :=
  match v with
  | PageId id => set_states (<[id := s]> (renderingState q)) (detailState q) q
  | DetailId id => set_states (renderingState q) (<[id := s]> (detailState q)) q
  end.

Definition isHighestPriority (v : RenderingId) (q : Queue) : bool := bool_decide (highestPriorityPage q = Some v).
Definition isViewFinished (q : Queue) (v : RenderingId) : bool := bool_decide (state_of q v = FINISHED).

(** ** The choice *)

Section Choice.
Context (q : Queue).

(** [for (let i = 0; i < numVisible; i++)], for the pages and for their detail views. *)
Fixpoint unfinished_page (l : list Visible) : option RenderingId :=
  match l with
  | [] => None
  | v :: l =>
      let view := PageId (view_id (v_view v)) in
      if negb (isViewFinished q view) then Some view else unfinished_page l
  end.
Fixpoint unfinished_detail (l : list Visible) : option RenderingId :=
  match l with
  | [] => None
  | v :: l =>
      let id := view_id (v_view v) in
      match detailState q !! id with
      | Some _ => if negb (isViewFinished q (DetailId id)) then Some (DetailId id) else unfinished_detail l
      | None => unfinished_detail l
      end
  end.

(** [for (let i = 1, ii = lastId - firstId; i < ii; i++)] *)
Fixpoint hole_loop (visibleIds : gset Z) (views : list View) (scrolledDown : bool) (firstId lastId : Z) (turns : nat) (i : Z)
    : res (option RenderingId) :=
  match turns with
  | O => Ok None
  | S turns =>
      let holeId := if scrolledDown then firstId + i else lastId - i in
      if bool_decide (holeId ∈ visibleIds) then hole_loop visibleIds views scrolledDown firstId lastId turns (i + 1)
      else
        match arr_get views (holeId - 1) with
        | None => Throw (TypeError "view is undefined")
        | Some holeView =>
            if negb (isViewFinished q (PageId (view_id holeView))) then Ok (Some (PageId (view_id holeView)))
            else hole_loop visibleIds views scrolledDown firstId lastId turns (i + 1)
        end
  end.

(** [preRenderView && !this.isViewFinished(preRenderView)] *)
Definition pre_render (views : list View) (preRenderIndex : Z) : option RenderingId :=
  match arr_get views preRenderIndex with
  | Some v => if negb (isViewFinished q (PageId (view_id v))) then Some (PageId (view_id v)) else None
  | None => None
  end.

Definition getHighestPriority (visible : VisibleElements) (views : list View) (scrolledDown preRenderExtra ignoreDetailViews : bool)
    : res (option RenderingId) :=
  let numVisible := len (views_of visible) in
  if numVisible =? 0 then Ok None
  else
    match unfinished_page (views_of visible) with
    | Some view => Ok (Some view)
    | None =>
        match (if ignoreDetailViews then None else unfinished_detail (views_of visible)) with
        | Some view => Ok (Some view)
        | None =>
            match first visible, last_el visible with
            | Some a, Some b =>
                let firstId := view_id (v_view a) in
                let lastId := view_id (v_view b) in
                match (if numVisible <? lastId - firstId + 1
                       then hole_loop (ids visible) views scrolledDown firstId lastId (Z.to_nat (lastId - firstId - 1)) 1
                       else Ok None) with
                | Ok None =>
                    let preRenderIndex := if scrolledDown then lastId else firstId - 2 in
                    match pre_render views preRenderIndex with
                    | Some view => Ok (Some view)
                    | None =>
                        if preRenderExtra then Ok (pre_render views (preRenderIndex + (if scrolledDown then 1 else -1)))
                        else Ok None
                    end
                | r => r
                end
            | _, _ => Throw (TypeError "visible.first is undefined")
            end
        end
    end.
End Choice.

(** ** Drawing *)

(** [draw] of a view in the state INITIAL and [resume] of a paused one set it to
    RUNNING. *)
Definition renderView (v : RenderingId) : M Queue bool := fun q =>
  match state_of q v with
  | FINISHED => (Ok false, q)
  | PAUSED => (Ok true, set_state_of v RUNNING (set_highest (Some v) q))
  | RUNNING => (Ok true, set_highest (Some v) q)
  | INITIAL => (Ok true, set_state_of v RUNNING (set_highest (Some v) q))
  end.

(** ** The viewer *)

Inductive ScrollMode := PAGE_MODE | HORIZONTAL | OTHER_MODE.
(** What [forceRendering] reads of the viewer. *)
Record Scrolling := mkScrolling {
  scrollMode : ScrollMode;
  page_scrollDown : bool;                  (** [#scrollModePageState.scrollDown] *)
  scroll_right : bool;
  scroll_down : bool;
  spread : bool;                           (** [_spreadMode !== SpreadMode.NONE] *)
  scaleTimeout : bool;
  scrollTimeout : bool;
  renderingCancelled : Z -> bool           (** of the detail view of a page *)
}.

Definition getScrollAhead (pagesCount : Z) (sc : Scrolling) (visible : VisibleElements) : bool :=
  if bool_decide ((fun v => view_id (v_view v)) <$> first visible = Some 1) then true
  else if bool_decide ((fun v => view_id (v_view v)) <$> last_el visible = Some pagesCount) then false
  else
    match scrollMode sc with
    | PAGE_MODE => page_scrollDown sc
    | HORIZONTAL => scroll_right sc
    | OTHER_MODE => scroll_down sc
    end.

(** The view that is to be drawn once its page is loaded. *)
Definition forceRendering (sc : Scrolling) (visible : VisibleElements) (views : list View) (q : Queue) : res (option RenderingId) :=
  let scrollAhead := getScrollAhead (len views) sc visible in
  let preRenderExtra := spread sc && negb (match scrollMode sc with HORIZONTAL => true | _ => false end) in
  let ignoreDetailViews := scaleTimeout sc ||
    (scrollTimeout sc && existsb (fun v => renderingCancelled sc (view_id (v_view v))) (views_of visible)) in
  getHighestPriority q visible views scrollAhead preRenderExtra ignoreDetailViews.

(** The view chosen, of the pages or of the thumbnails, and the timer of [onIdle]. *)
Definition renderHighestPriority (sc : Scrolling) (visible : VisibleElements) (views : list View)
    (thumbnails : option bool) : M Queue (option RenderingId) := fun q =>
  let q := set_idleTimeout false q in
  match forceRendering sc visible views q with
  | Ok (Some v) => (Ok (Some v), q)
  | Ok None =>
      if isThumbnailViewEnabled q && default false thumbnails then (Ok None, q)
      else if printing q then (Ok None, q)
      else (Ok None, if onIdle q then set_idleTimeout true q else q)
  | Throw e => (Throw e, q)
  | OutOfFuel => (OutOfFuel, q)
  end.
