(* ===== verification/RenderingQueueSpec.v ===== *)
(** * The order in which pages are drawn

    The choice of the queue is the first view that is not drawn in one list: the
    visible pages, their detail views, the holes between the visible pages, the
    pages that come next. *)
From stdpp Require Import gmap sorting.
From S2P Require Import Prelude Primitives Number64 ViewerUtils VisibleSpec RenderingQueue.
Local Open Scope js_scope.

(** The pages are numbered from 1. *)
Definition numbered (views : list View) : Prop := forall i v, views !! i = Some v -> view_id v = Z.of_nat i + 1.

Definition id_of (v : Visible) : Z := view_id (v_view v).

(** ** What is visible *)

(** The ids of what is visible are in the order of the pages. *)
Lemma visible_loop_ids (scrollEl : ScrollElement) horizontal views lastEdge :
  sublist (map id_of (visible_loop scrollEl horizontal views lastEdge)) (map view_id views).
Proof.
  revert lastEdge. induction views as [|v views IH]; intros lastEdge; cbn [visible_loop map]; [constructor|].
  assert (Hseen : forall edge, sublist (map id_of ((if outside scrollEl v then [] else [visible_of scrollEl v]) ++ visible_loop scrollEl horizontal views edge))
    (view_id v :: map view_id views)).
  { intros edge. destruct (outside scrollEl v); cbn [app map]; [apply sublist_cons, IH|apply sublist_skip, IH]. }
  destruct (lastEdge =? -1); [apply Hseen|]. destruct (lastEdge <? _); [apply sublist_nil_l|apply Hseen].
Qed.

Lemma numbered_increasing views k : numbered views -> StronglySorted Z.lt (map view_id (drop k views)).
Proof.
  intros Hn. assert (Hgen : forall l j, (forall i v, l !! i = Some v -> view_id v = Z.of_nat (j + i) + 1) -> StronglySorted Z.lt (map view_id l)).
  { induction l as [|v l IH]; intros j Hl; cbn [map]; [constructor|]. constructor.
    - apply (IH (S j)). intros i u Hu. rewrite (Hl (S i) u Hu). lia.
    - apply Forall_forall. intros x Hx. apply list_elem_of_In, in_map_iff in Hx as (u & <- & Hu). apply list_elem_of_In, list_elem_of_lookup in Hu as [i Hi].
      rewrite (Hl 0%nat v eq_refl), (Hl (S i) u Hi). lia. }
  apply (Hgen _ k). intros i v Hv. rewrite lookup_drop in Hv. by rewrite (Hn _ _ Hv).
Qed.

Lemma sorted_sublist (l k : list Z) : sublist l k -> StronglySorted Z.lt k -> StronglySorted Z.lt l.
Proof.
  induction 1 as [|x l k Hs IH|x l k Hs IH]; intros Hk; [done| |].
  - apply StronglySorted_inv in Hk as [Hk Hx]. constructor; [by apply IH|].
    rewrite Forall_forall in Hx. apply Forall_forall. intros y Hy. apply Hx. eapply elem_of_submseteq; [exact Hy|by apply sublist_submseteq].
  - apply StronglySorted_inv in Hk as [Hk _]. by apply IH.
Qed.

(** The elements that [getVisibleElements] gives. *)
Record visible_ok (views : list View) (E : VisibleElements) : Prop := {
  vo_list : exists vis, StronglySorted Z.lt (map id_of vis) /\ views_of E ≡ₚ vis /\ first E = head vis /\ last_el E = last vis;
  vo_ids : forall i, i ∈ ids E <-> i ∈ map id_of (views_of E);
  vo_range : forall v, v ∈ views_of E -> 1 <= id_of v <= len views
}.

Lemma getVisibleElements_ok (scrollEl : ScrollElement) horizontal rtl views sortByVisibility E : numbered views ->
  getVisibleElements scrollEl horizontal rtl views sortByVisibility = Ok E -> visible_ok views E.
Proof.
  intros Hn. unfold getVisibleElements. destruct (binarySearchFirstItem _ _ _) as [ind| |]; [|done..].
  match goal with |- match ?r with _ => _ end = _ -> _ => destruct r as [k| |]; [|done..] end. intros [= <-]. set (vis := visible_loop _ _ _ _).
  assert (Hperm : (if sortByVisibility then sort_visible vis else vis) ≡ₚ vis) by (destruct sortByVisibility; [apply sort_visible_perm|done]).
  pose proof (visible_loop_ids scrollEl horizontal (drop (Z.to_nat k) views) (if horizontal then s_right scrollEl else -1)) as Hsub. fold vis in Hsub.
  constructor; cbn [views_of first last_el ids].
  - exists vis. split_and!; [|done|done|done]. by apply (sorted_sublist _ _ Hsub), numbered_increasing.
  - intros i. rewrite elem_of_list_to_set. unfold id_of. by rewrite Hperm.
  - intros v Hv. rewrite Hperm in Hv. assert (Hid : id_of v ∈ map view_id (drop (Z.to_nat k) views)).
    { eapply elem_of_submseteq; [|by apply sublist_submseteq]. apply list_elem_of_In, in_map, list_elem_of_In, Hv. }
    apply list_elem_of_In, in_map_iff in Hid as (u & <- & Hu). apply list_elem_of_In, list_elem_of_lookup in Hu as [i Hi].
    rewrite lookup_drop in Hi. rewrite (Hn _ _ Hi). apply lookup_lt_Some in Hi. unfold len. lia.
Qed.

(** ** The list of candidates *)

(** The ids between the first and the last one, in the direction of the scrolling. *)
Definition between (scrolledDown : bool) (firstId lastId : Z) : list Z :=
  map (fun k => if scrolledDown then firstId + (1 + Z.of_nat k) else lastId - (1 + Z.of_nat k)) (seq 0 (Z.to_nat (lastId - firstId - 1))).

Definition candidates (n : Z) (E : VisibleElements) (scrolledDown preRenderExtra ignoreDetailViews : bool) : list RenderingId :=
  match first E, last_el E with
  | Some a, Some b =>
      map (fun v => PageId (id_of v)) (views_of E) ++
      (if ignoreDetailViews then [] else map (fun v => DetailId (id_of v)) (views_of E)) ++
      map PageId (List.filter (fun i => bool_decide (i ∉ ids E)) (between scrolledDown (id_of a) (id_of b))) ++
      map PageId (List.filter (fun i => (1 <=? i) && (i <=? n))
        ((if scrolledDown then id_of b + 1 else id_of a - 1) ::
         if preRenderExtra then [if scrolledDown then id_of b + 2 else id_of a - 2] else []))
  | _, _ => []
  end.

Definition unfinished (q : Queue) (v : RenderingId) : bool :=
  match v with
  | PageId _ => negb (isViewFinished q v)
  | DetailId id => match detailState q !! id with Some _ => negb (isViewFinished q v) | None => false end
  end.

Section Order.
Context (q : Queue) (views : list View) (Hnum : numbered views).

Lemma find_app {A} (p : A -> bool) l k : List.find p (l ++ k) = match List.find p l with Some x => Some x | None => List.find p k end.
Proof. induction l as [|x l IH]; cbn; [done|]. by destruct (p x). Qed.

Lemma unfinished_page_find l : unfinished_page q l = List.find (unfinished q) (map (fun v => PageId (id_of v)) l).
Proof. induction l as [|v l IH]; [done|]. cbn [unfinished_page map List.find unfinished]. rewrite IH. by destruct (negb _). Qed.

Lemma unfinished_detail_find l : unfinished_detail q l = List.find (unfinished q) (map (fun v => DetailId (id_of v)) l).
Proof.
  induction l as [|v l IH]; [done|]. cbn [unfinished_detail map List.find unfinished]. rewrite IH. unfold id_of.
  destruct (detailState q !! _); [|done]. by destruct (negb _).
Qed.

Lemma numbered_get i : 1 <= i <= len views -> exists v, arr_get views (i - 1) = Some v /\ view_id v = i.
Proof.
  intros Hi. unfold arr_get. ztest. destruct (lookup_lt_is_Some_2 views (Z.to_nat (i - 1))) as [v Hv]; [unfold len in Hi; lia|].
  exists v. split; [done|]. rewrite (Hnum _ _ Hv). lia.
Qed.

Lemma hole_loop_find (visibleIds : gset Z) (scrolledDown : bool) firstId lastId turns i :
  (forall k, (k < turns)%nat -> 1 <= (if scrolledDown then firstId + (i + Z.of_nat k) else lastId - (i + Z.of_nat k)) <= len views) ->
  hole_loop q visibleIds views scrolledDown firstId lastId turns i =
  Ok (List.find (unfinished q) (map PageId (List.filter (fun j => bool_decide (j ∉ visibleIds))
    (map (fun k => if scrolledDown then firstId + (i + Z.of_nat k) else lastId - (i + Z.of_nat k)) (seq 0 turns))))).
Proof.
  revert i. induction turns as [|turns IH]; intros i Hr; [done|]. cbn [hole_loop seq map List.filter].
  rewrite <- seq_shift, map_map. rewrite (IH (i + 1)).
  2: { intros k Hk. specialize (Hr (S k) ltac:(lia)). destruct scrolledDown; lia. }
  pose proof (Hr 0%nat ltac:(lia)) as H0. change (Z.of_nat 0) with 0 in *. rewrite Z.add_0_r in *.
  set (holeId := if scrolledDown then firstId + i else lastId - i) in *.
  assert (Hext : map (fun k => if scrolledDown then firstId + (i + 1 + Z.of_nat k) else lastId - (i + 1 + Z.of_nat k)) (seq 0 turns) =
    map (fun k => if scrolledDown then firstId + (i + Z.of_nat (S k)) else lastId - (i + Z.of_nat (S k))) (seq 0 turns)).
  { apply map_ext. intros k. destruct scrolledDown; lia. }
  rewrite Hext. destruct (decide (holeId ∈ visibleIds)) as [Hin|Hout].
  - rewrite bool_decide_eq_true_2 by done. by rewrite bool_decide_eq_false_2 by tauto.
  - rewrite bool_decide_eq_false_2 by done. rewrite bool_decide_eq_true_2 by done. destruct (numbered_get holeId H0) as (v & -> & Hv).
    rewrite Hv. cbn [map List.find unfinished]. by destruct (negb _).
Qed.

Lemma pre_render_find i : pre_render q views (i - 1) = List.find (unfinished q) (map PageId (List.filter (fun i => (1 <=? i) && (i <=? len views)) [i])).
Proof.
  unfold pre_render. cbn [List.filter]. destruct ((1 <=? i) && (i <=? len views)) eqn:E; bool_hyps.
  - destruct (numbered_get i ltac:(lia)) as (v & -> & ->). cbn. by destruct (negb _).
  - assert (Hnone : arr_get views (i - 1) = None).
    { unfold arr_get. destruct (Z.ltb_spec (i - 1) 0); [done|]. apply lookup_ge_None_2. apply andb_false_iff in E as [E|E]; bool_hyps; unfold len in *; lia. }
    by rewrite Hnone.
Qed.

Lemma sorted_range l a b : StronglySorted Z.lt l -> head l = Some a -> last l = Some b -> NoDup l /\ forall x, x ∈ l -> a <= x <= b.
Proof.
  revert a. induction l as [|y l IH]; intros a Hs Ha Hb; [done|]. injection Ha as <-. apply StronglySorted_inv in Hs as [Hs Hy].
  rewrite Forall_forall in Hy. destruct l as [|z l]; [injection Hb as <-; split; [apply NoDup_singleton|intros x ->%list_elem_of_singleton; lia]|].
  destruct (IH z Hs eq_refl Hb) as [Hnd Hr]. split.
  - constructor; [|done]. intros Hin. specialize (Hy y Hin). lia.
  - pose proof (Hy z ltac:(by left)). pose proof (Hr z ltac:(by left)). intros x [->|Hx]%elem_of_cons; [lia|]. specialize (Hr x Hx). lia.
Qed.

(** The ids of the visible pages, from the first to the last. *)
Lemma visible_range E a b : visible_ok views E -> first E = Some a -> last_el E = Some b ->
  1 <= id_of a <= len views /\ 1 <= id_of b <= len views /\ NoDup (map id_of (views_of E)) /\
  forall x, x ∈ map id_of (views_of E) -> id_of a <= x <= id_of b.
Proof.
  intros [(vis & Hsort & Hperm & Hfirst & Hlast) _ Hr] Ha Hb. rewrite Hfirst in Ha. rewrite Hlast in Hb.
  destruct (sorted_range (map id_of vis) (id_of a) (id_of b) Hsort) as [Hnd Hx].
  - by destruct vis; [|injection Ha as ->].
  - change (map id_of vis) with (id_of <$> vis). by rewrite fmap_last, Hb.
  - assert (Hin : a ∈ vis /\ b ∈ vis).
    { split; [destruct vis; [done|injection Ha as ->; by left]|]. apply last_Some in Hb as [l ->]. apply elem_of_app. right. by left. }
    split; [apply Hr; rewrite Hperm; apply Hin|]. split; [apply Hr; rewrite Hperm; apply Hin|].
    split; [by rewrite Hperm|]. intros x. rewrite Hperm. apply Hx.
Qed.

(** As many visible pages as ids from the first to the last: no holes. *)
Lemma no_holes E a b scrolledDown : visible_ok views E -> first E = Some a -> last_el E = Some b ->
  id_of b - id_of a + 1 <= len (views_of E) ->
  List.filter (fun i => bool_decide (i ∉ ids E)) (between scrolledDown (id_of a) (id_of b)) = [].
Proof.
  intros Hok Ha Hb Hcount. destruct (visible_range E a b Hok Ha Hb) as (_ & _ & Hnd & Hx).
  assert (Hall : map id_of (views_of E) ≡ₚ seqZ (id_of a) (id_of b - id_of a + 1)).
  { apply submseteq_length_Permutation.
    - apply NoDup_submseteq; [done|]. intros x Hin. apply elem_of_seqZ. specialize (Hx x Hin). lia.
    - rewrite length_seqZ, length_map. unfold len in Hcount. lia. }
  assert (Hin : forall i, i ∈ between scrolledDown (id_of a) (id_of b) -> i ∈ ids E).
  { intros i Hi. apply (vo_ids _ _ Hok). rewrite Hall. apply elem_of_seqZ. unfold between in Hi.
    apply list_elem_of_In, in_map_iff in Hi as (k & <- & Hk%in_seq). destruct scrolledDown; lia. }
  induction (between _ _ _) as [|i l IH]; [done|]. cbn [List.filter]. rewrite bool_decide_eq_false_2 by (pose proof (Hin i ltac:(by left)); tauto).
  apply IH. intros j Hj. apply Hin. by right.
Qed.
End Order.

(** The choice among elements that are as [getVisibleElements] gives them. *)
Lemma choice_first views E q scrolledDown preRenderExtra ignoreDetailViews : numbered views -> visible_ok views E ->
  getHighestPriority q E views scrolledDown preRenderExtra ignoreDetailViews =
  Ok (List.find (unfinished q) (candidates (len views) E scrolledDown preRenderExtra ignoreDetailViews)).
Proof.
  intros Hnum Hok. unfold getHighestPriority, candidates.
  destruct (vo_list _ _ Hok) as (vis & _ & Hperm & Hfirst & Hlast). destruct (Z.eqb_spec (len (views_of E)) 0) as [E0|E0].
  { assert (Hnil : vis = []) by (apply Permutation_length in Hperm; destruct vis; [done|unfold len in E0; cbn in Hperm; lia]).
    rewrite Hfirst, Hnil. done. }
  assert (Hsome : exists a b, first E = Some a /\ last_el E = Some b).
  { rewrite Hfirst, Hlast. destruct vis as [|v vis]; [apply Permutation_length in Hperm; unfold len in E0; cbn in Hperm; lia|].
    destruct (last (v :: vis)) as [b|] eqn:El; [by exists v, b|]. by apply last_None in El. }
  destruct Hsome as (a & b & Ha & Hb). rewrite Ha, Hb. destruct (visible_range views E a b Hok Ha Hb) as (Hra & Hrb & _ & _).
  rewrite !find_app, <- unfinished_page_find. destruct (unfinished_page q (views_of E)); [done|].
  assert (Hdetail : (if ignoreDetailViews then None else unfinished_detail q (views_of E)) =
    List.find (unfinished q) (if ignoreDetailViews then [] else map (fun v => DetailId (id_of v)) (views_of E)))
    by (destruct ignoreDetailViews; [done|apply unfinished_detail_find]).
  rewrite Hdetail. destruct (List.find _ _); [done|]. fold (id_of a) (id_of b).
  assert (Hholes : (if len (views_of E) <? id_of b - id_of a + 1
      then hole_loop q (ids E) views scrolledDown (id_of a) (id_of b) (Z.to_nat (id_of b - id_of a - 1)) 1 else Ok None) =
    Ok (List.find (unfinished q) (map PageId (List.filter (fun i => bool_decide (i ∉ ids E)) (between scrolledDown (id_of a) (id_of b)))))).
  { destruct (Z.ltb_spec (len (views_of E)) (id_of b - id_of a + 1)); [|by rewrite no_holes with (views := views)].
    apply hole_loop_find; [done|]. intros k Hk. destruct scrolledDown; lia. }
  rewrite Hholes. destruct (List.find _ (map PageId (List.filter _ (between _ _ _)))); [done|].
  set (next := if scrolledDown then id_of b + 1 else id_of a - 1). set (next2 := if scrolledDown then id_of b + 2 else id_of a - 2).
  replace (if scrolledDown then id_of b else id_of a - 2) with (next - 1) by (unfold next; destruct scrolledDown; lia).
  replace (next - 1 + (if scrolledDown then 1 else -1)) with (next2 - 1) by (unfold next, next2; destruct scrolledDown; lia).
  change (next :: (if preRenderExtra then [next2] else [])) with ([next] ++ (if preRenderExtra then [next2] else [])).
  rewrite List.filter_app, map_app, find_app, <- (pre_render_find q views Hnum). destruct (pre_render q views (next - 1)); [done|].
  destruct preRenderExtra; [by rewrite <- (pre_render_find q views Hnum)|done].
Qed.

(** C24. For the elements that [getVisibleElements] finds on any layout of pages
    numbered from 1, the queue draws the first view that is not drawn of one list:
    the visible pages in their order (the best visible first), their detail views,
    every hole between the first and the last visible page, the pages that come
    next in the direction of the scrolling; it draws nothing only when all of
    these are drawn, and it never throws: the count of the visible pages tells
    exactly whether there is a hole. *)
Theorem queue_draws_first_unfinished (scrollEl : ScrollElement) horizontal rtl views sortByVisibility E q
    scrolledDown preRenderExtra ignoreDetailViews : numbered views ->
  getVisibleElements scrollEl horizontal rtl views sortByVisibility = Ok E ->
  getHighestPriority q E views scrolledDown preRenderExtra ignoreDetailViews =
  Ok (List.find (unfinished q) (candidates (len views) E scrolledDown preRenderExtra ignoreDetailViews)).
Proof. intros Hnum HE. apply choice_first; [done|]. by eapply getVisibleElements_ok. Qed.

(** The layout of [spreads]: of the pages 3, 5 and 6 on the screen all are drawn,
    and the page 4 between them is not. *)
Definition three_drawn : Queue :=
  mkQueue {[ 3 := FINISHED; 5 := FINISHED; 6 := FINISHED ]} ∅ None false false false true.
Definition spreads_seen : VisibleElements :=
  match getVisibleElements scroll180 false false spreads true with Ok E => E | _ => mkElements None None [] ∅ end.

Lemma numbered_spreads : numbered spreads.
Proof. intros i v Hv. assert (Hl : (i < 7)%nat) by (by apply lookup_lt_Some in Hv). do 7 (destruct i as [|i]; [by injection Hv as <-|]). lia. Qed.

Lemma queue_draws_first_unfinished_witness :
  getHighestPriority three_drawn spreads_seen spreads true true false = Ok (Some (PageId 4)) /\
  getHighestPriority three_drawn spreads_seen spreads true true false =
    Ok (List.find (unfinished three_drawn) (candidates (len spreads) spreads_seen true true false)).
Proof.
  split; [vm_compute; reflexivity|].
  apply (queue_draws_first_unfinished scroll180 false false spreads true spreads_seen three_drawn true true false numbered_spreads).
  vm_compute. reflexivity.
Defined.

(** ** One view after the other *)

(** The views drawn: each time the queue chooses a view and draws it; when the
    drawing has ended the queue is called again.  Nothing is scrolled. *)
Fixpoint draw_rounds (sc : Scrolling) (E : VisibleElements) (views : list View) (turns : nat) : M Queue (list RenderingId) :=
  match turns with
  | O => out_of_fuel
  | S turns =>
      choice <- renderHighestPriority sc E views None ;;
      match choice with
      | None => mret []
      | Some v =>
          started <- renderView v ;;
          if started : bool then
            modify (set_state_of v FINISHED) ;;;
            drawn <- draw_rounds sc E views turns ;;
            mret (v :: drawn)
          else mret []
      end
  end.

Section Rounds.
Context (sc : Scrolling) (E : VisibleElements) (views : list View).
Context (Hnum : numbered views) (Hok : visible_ok views E).

Lemma NoDup_app_ids {A} (l k : list A) : NoDup l -> NoDup k -> (forall x, x ∈ l -> x ∉ k) -> NoDup (l ++ k).
Proof. intros. by apply NoDup_app. Qed.

Lemma NoDup_page_ids (l : list Z) : NoDup l -> NoDup (map PageId l).
Proof. intros. apply NoDup_fmap_2; [|done]. by intros ? ? [= ->]. Qed.

Lemma elem_map_page (l : list Z) x : PageId x ∈ map PageId l <-> x ∈ l.
Proof. rewrite !list_elem_of_In, in_map_iff. split; [by intros (y & [= ->] & ?)|by exists x]. Qed.

Lemma elem_filter (p : Z -> bool) l x : x ∈ List.filter p l <-> x ∈ l /\ p x = true.
Proof. by rewrite !list_elem_of_In, filter_In. Qed.

Lemma NoDup_list_filter (p : Z -> bool) l : NoDup l -> NoDup (List.filter p l).
Proof. rewrite !NoDup_ListNoDup. apply List.NoDup_filter. Qed.

Lemma between_range scrolledDown a b x : x ∈ between scrolledDown a b -> a < x < b.
Proof. unfold between. rewrite list_elem_of_In, in_map_iff. intros (k & <- & Hk%in_seq). destruct scrolledDown; lia. Qed.

Lemma NoDup_between scrolledDown a b : NoDup (between scrolledDown a b).
Proof.
  unfold between. apply NoDup_fmap_2_strong; [|apply NoDup_seq]. intros i j _ _ Hij. destruct scrolledDown; lia.
Qed.

Lemma NoDup_candidates scrolledDown preRenderExtra ignoreDetailViews :
  NoDup (candidates (len views) E scrolledDown preRenderExtra ignoreDetailViews).
Proof.
  unfold candidates. destruct (first E) as [a|] eqn:Ha; [|constructor]. destruct (last_el E) as [b|] eqn:Hb; [|constructor].
  destruct (visible_range views E a b Hok Ha Hb) as (_ & _ & Hnd & Hr). set (seen := map id_of (views_of E)) in *.
  assert (Hpages : map (fun v => PageId (id_of v)) (views_of E) = map PageId seen) by (unfold seen; by rewrite map_map).
  assert (Hdetails : map (fun v => DetailId (id_of v)) (views_of E) = map DetailId seen) by (unfold seen; by rewrite map_map).
  rewrite Hpages, Hdetails. set (D := if ignoreDetailViews then [] else map DetailId seen).
  set (holes := List.filter _ (between _ _ _)). set (nexts := List.filter _ _).
  assert (HD : NoDup D /\ forall x, PageId x ∉ D).
  { unfold D. destruct ignoreDetailViews; [split; [constructor|intros x; apply not_elem_of_nil]|]. split.
    - apply NoDup_fmap_2; [|done]. by intros ? ? [= ->].
    - intros x. rewrite list_elem_of_In, in_map_iff. by intros (y & ? & _). }
  assert (Hseen : forall x, x ∈ seen -> id_of a <= x <= id_of b) by done.
  assert (Hh : forall x, x ∈ holes -> id_of a < x < id_of b /\ x ∉ seen).
  { intros x Hx. apply elem_filter in Hx as [Hx Hn%bool_decide_eq_true_1]. split; [by apply (between_range scrolledDown)|].
    intros Hin. apply Hn, (vo_ids _ _ Hok). exact Hin. }
  assert (Hx : forall x, x ∈ nexts -> x < id_of a \/ id_of b < x).
  { intros x Hx. apply elem_filter in Hx as [Hx _]. destruct scrolledDown, preRenderExtra; set_unfold; lia. }
  assert (Hnn : NoDup nexts).
  { apply NoDup_list_filter. destruct scrolledDown, preRenderExtra; repeat constructor; set_unfold; lia. }
  destruct HD as [HD1 HD2]. apply NoDup_app_ids; [by apply NoDup_page_ids|apply NoDup_app_ids; [done|apply NoDup_app_ids|]|].
  - apply NoDup_page_ids, NoDup_list_filter, NoDup_between.
  - by apply NoDup_page_ids.
  - intros x Hin1 Hin2. destruct x as [x|x]; [|by apply list_elem_of_In, in_map_iff in Hin1 as (y & ? & _)].
    rewrite elem_map_page in Hin1, Hin2. destruct (Hh x Hin1) as [? _]. destruct (Hx x Hin2); lia.
  - intros x Hin1 Hin2. destruct x as [x|x]; [by apply (HD2 x)|]. apply elem_of_app in Hin2 as [Hin2|Hin2];
      by apply list_elem_of_In, in_map_iff in Hin2 as (y & ? & _).
  - intros x Hin1 Hin2. destruct x as [x|x]; [|by apply list_elem_of_In, in_map_iff in Hin1 as (y & ? & _)]. rewrite elem_map_page in Hin1.
    apply elem_of_app in Hin2 as [Hin2|Hin2]; [by apply (HD2 x)|]. apply elem_of_app in Hin2 as [Hin2|Hin2]; rewrite elem_map_page in Hin2.
    + by destruct (Hh x Hin2).
    + pose proof (Hseen x Hin1). destruct (Hx x Hin2); lia.
Qed.

(** A view that was drawn is finished, the others are as before. *)
Lemma state_after q v st x : state_of (set_state_of v st q) x = if decide (x = v) then st else state_of q x.
Proof.
  destruct v as [i|i], x as [j|j]; cbn; case_decide as Hd; try done; try (injection Hd as ->).
  - by rewrite lookup_insert_eq.
  - by rewrite lookup_insert_ne by congruence.
  - by rewrite lookup_insert_eq.
  - by rewrite lookup_insert_ne by congruence.
Qed.

Lemma unfinished_after q v st x : unfinished q v = true ->
  unfinished (set_state_of v st q) x = if decide (x = v) then negb (bool_decide (st = FINISHED)) else unfinished q x.
Proof.
  intros Hv. pose proof (state_after q v st x) as Hs. case_decide as Hd.
  - subst x. unfold unfinished, isViewFinished in *. rewrite Hs. destruct v as [i|i]; [done|]. cbn. by rewrite lookup_insert_eq.
  - unfold unfinished, isViewFinished in *. rewrite Hs. destruct v as [i|i], x as [j|j]; try done. cbn.
    by rewrite lookup_insert_ne by congruence.
Qed.

Lemma find_filter {A} (p : A -> bool) l : List.find p l = head (List.filter p l).
Proof. induction l as [|x l IH]; cbn; [done|]. by destruct (p x). Qed.

(** What is left when the first view that passed is taken out. *)
Lemma filter_after {A} `{EqDecision A} (p p' : A -> bool) l v rest : NoDup l -> List.filter p l = v :: rest ->
  (forall x, x <> v -> p' x = p x) -> p' v = false -> List.filter p' l = rest.
Proof.
  intros Hnd. revert rest. induction Hnd as [|x l Hx Hnd IH]; intros rest Ef Hp Hv; [done|]. cbn [List.filter] in *. destruct (p x) eqn:Ex.
  - injection Ef as -> <-. rewrite Hv. apply filter_ext_in. intros y Hy%list_elem_of_In. apply Hp. by intros ->.
  - destruct (decide (x = v)) as [->|Hne]; [|rewrite (Hp x Hne), Ex; by apply IH].
    exfalso. apply Hx. assert (Hin : v ∈ List.filter p l) by (rewrite Ef; by left). by apply list_elem_of_In, filter_In in Hin as [Hin%list_elem_of_In _].
Qed.

Lemma renderView_starts q v : unfinished q v = true ->
  exists q1, renderView v q = (Ok true, q1) /\ (forall x, unfinished q1 x = unfinished q x) /\
    onIdle q1 = onIdle q /\ printing q1 = printing q.
Proof.
  intros Hv. unfold renderView. assert (Hs : state_of q v <> FINISHED).
  { intros Hs. unfold unfinished, isViewFinished in Hv. rewrite Hs in Hv. destruct v; [done|]. by destruct (detailState q !! id). }
  assert (Hrun : exists q1, (Ok true, set_state_of v RUNNING (set_highest (Some v) q)) = (Ok true, q1) /\ (forall x, unfinished q1 x = unfinished q x) /\
    onIdle q1 = onIdle q /\ printing q1 = printing q).
  { eexists. split; [done|]. split; [|by destruct v]. intros x. rewrite unfinished_after by done. case_decide; [by subst|done]. }
  destruct (state_of q v); [exact Hrun|by eexists|exact Hrun|done].
Qed.

(** The candidates for the viewer as it is scrolled. *)
Definition queue_of : list RenderingId :=
  candidates (len views) E (getScrollAhead (len views) sc E)
    (spread sc && negb (match scrollMode sc with HORIZONTAL => true | _ => false end))
    (scaleTimeout sc || (scrollTimeout sc && existsb (fun v => renderingCancelled sc (view_id (v_view v))) (views_of E))).

Lemma rounds_draw turns q : (length (List.filter (unfinished q) queue_of) < turns)%nat ->
  exists q', draw_rounds sc E views turns q = (Ok (List.filter (unfinished q) queue_of), q') /\
    (forall v, v ∈ queue_of -> unfinished q' v = false) /\ idleTimeout q' = onIdle q && negb (printing q).
Proof.
  revert q. induction turns as [|turns IH]; intros q Ht; [lia|]. cbn [draw_rounds]. unfold mbind at 1, renderHighestPriority, forceRendering.
  rewrite (choice_first views E _ _ _ _ Hnum Hok). fold queue_of. rewrite find_filter.
  change (unfinished (set_idleTimeout false q)) with (unfinished q). destruct (List.filter (unfinished q) queue_of) as [|v rest] eqn:Ef; cbn [head].
  - cbn [default]. rewrite andb_false_r. assert (Hall : forall v, v ∈ queue_of -> unfinished q v = false).
    { intros v Hv. destruct (unfinished q v) eqn:Eu; [|done]. assert (Hin : v ∈ List.filter (unfinished q) queue_of).
      { apply list_elem_of_In, filter_In. split; [by apply list_elem_of_In|done]. } rewrite Ef in Hin. by apply elem_of_nil in Hin. }
    destruct (printing (set_idleTimeout false q)) eqn:Ep; cbn in Ep; rewrite Ep; (eexists; split; [reflexivity|]; split; [|cbn]).
    + exact Hall.
    + by rewrite andb_false_r.
    + cbn. by destruct (onIdle q).
    + cbn. by destruct (onIdle q) eqn:Eo; cbn; rewrite ?Eo.
  - assert (Hv : unfinished q v = true).
    { assert (Hin : v ∈ List.filter (unfinished q) queue_of) by (rewrite Ef; by left). by apply list_elem_of_In, filter_In in Hin as [_ Hin]. }
    destruct (renderView_starts (set_idleTimeout false q) v Hv) as (q1 & E1 & Hu1 & Ho1 & Hp1). rewrite (mbind_ok _ _ _ _ _ E1).
    unfold mbind at 1, modify. assert (Hrest : List.filter (unfinished (set_state_of v FINISHED q1)) queue_of = rest).
    { apply (filter_after (unfinished q) _ queue_of v rest (NoDup_candidates _ _ _) Ef).
      - intros x Hx. rewrite unfinished_after by (rewrite Hu1; exact Hv). rewrite decide_False by done. apply Hu1.
      - rewrite unfinished_after by (rewrite Hu1; exact Hv). by rewrite decide_True. }
    destruct (IH (set_state_of v FINISHED q1)) as (q' & E' & Hall & Hidle); [rewrite Hrest; cbn in Ht; lia|].
    rewrite Hrest in E'. rewrite (mbind_ok _ _ _ _ _ E'). exists q'. split; [done|]. split; [exact Hall|]. rewrite Hidle.
    destruct v; cbn; by rewrite Ho1, Hp1.
Qed.
End Rounds.

(** C25. When nothing is scrolled the queue comes to rest: called again after each
    drawing, it draws every view of its list that was not drawn, each once and in
    the order of the list, and then sets the timer of [onIdle], unless the
    document is printed. *)
Theorem queue_comes_to_rest sc (scrollEl : ScrollElement) horizontal rtl views sortByVisibility E q : numbered views ->
  getVisibleElements scrollEl horizontal rtl views sortByVisibility = Ok E ->
  let todo := List.filter (unfinished q) (queue_of sc E views) in
  exists q', draw_rounds sc E views (S (length todo)) q = (Ok todo, q') /\
    (forall v, v ∈ queue_of sc E views -> unfinished q' v = false) /\ idleTimeout q' = onIdle q && negb (printing q).
Proof.
  intros Hnum HE todo. unfold todo. apply rounds_draw; [done|by eapply getVisibleElements_ok|lia].
Qed.

(** The page 4, then the pages 7 and 8 in spreads; page 8 does not exist. *)
Lemma queue_comes_to_rest_witness :
  let sc := mkScrolling OTHER_MODE true true true true false false (fun _ => false) in
  List.filter (unfinished three_drawn) (queue_of sc spreads_seen spreads) = [PageId 4; PageId 7] /\
  let todo := List.filter (unfinished three_drawn) (queue_of sc spreads_seen spreads) in
  exists q', draw_rounds sc spreads_seen spreads (S (length todo)) three_drawn = (Ok todo, q') /\
    (forall v, v ∈ queue_of sc spreads_seen spreads -> unfinished q' v = false) /\
    idleTimeout q' = onIdle three_drawn && negb (printing three_drawn).
Proof.
  intros sc. split; [vm_compute; reflexivity|].
  apply (queue_comes_to_rest sc scroll180 false false spreads true spreads_seen three_drawn numbered_spreads).
  vm_compute. reflexivity.
Defined.
