(* ===== verification/PsParser.v ===== *)
(** * Calculator functions: from text to program

    The PostScript calculator functions of a PDF file, as pdf.worker.mjs reads
    them: [lexer_Lexer] cuts the text into tokens and [ast_Parser] makes a
    program of them.  A lexer is what is left of its text: [data] from [pos] on.
    The regular expressions of the lexer are sticky and need no backtracking
    over what they matched, so they are functions on the text that is left. *)
From stdpp Require Import strings.
From Stdlib Require Import SpecFloat.
From S2P Require Import Prelude Primitives Number64.
Local Open Scope js_scope.

(** ** Tokens *)

Module TOKEN.
Inductive t : Set :=
| number | lbrace | rbrace | true | false | add | sub | mul | div | idiv | mod_ | exp
| eq | ne | gt | ge | lt | le | and | or | xor | bitshift
| abs | neg | ceiling | floor | round | truncate | not | sqrt | sin | cos | ln | log | atan | cvi | cvr
| dup | exch | pop | copy | index | roll | if_ | ifelse | eof | min | max.

#[global] Instance t_eq : EqDecision t.
Proof. solve_decision. Defined.

(** The entries of [TOKEN], with their names and in the order of their numbers. *)
Definition entries : list (string * t) :=
  [("number", number); ("lbrace", lbrace); ("rbrace", rbrace); ("true", true); ("false", false); ("add", add);
   ("sub", sub); ("mul", mul); ("div", div); ("idiv", idiv); ("mod", mod_); ("exp", exp); ("eq", eq); ("ne", ne);
   ("gt", gt); ("ge", ge); ("lt", lt); ("le", le); ("and", and); ("or", or); ("xor", xor); ("bitshift", bitshift);
   ("abs", abs); ("neg", neg); ("ceiling", ceiling); ("floor", floor); ("round", round); ("truncate", truncate);
   ("not", not); ("sqrt", sqrt); ("sin", sin); ("cos", cos); ("ln", ln); ("log", log); ("atan", atan); ("cvi", cvi);
   ("cvr", cvr); ("dup", dup); ("exch", exch); ("pop", pop); ("copy", copy); ("index", index); ("roll", roll);
   ("if", if_); ("ifelse", ifelse); ("eof", eof); ("min", min); ("max", max)]%string.

(** The number of a token. *)
Definition id (tok : t) : Z :=
  match list_find (fun e => e.2 = tok) entries with Some (i, _) => Z.of_nat i | None => -1 end.

(** [id >= TOKEN.true && id <= TOKEN.ifelse]: the tokens with an operator. *)
Definition is_operator (tok : t) : bool := (id true <=? id tok) && (id tok <=? id ifelse).
End TOKEN.

(** [Token]: the value is a number for a number; for an operator it is its name,
    which only the messages use. *)
Record Token := mkToken { token_id : TOKEN.t; token_value : float }.
Definition no_number : float := S754_zero false.
Definition singleton (id : TOKEN.t) : Token := mkToken id no_number.
Definition number_token (value : float) : Token := mkToken TOKEN.number value.

(** [#operatorSingletons[op]] *)
Definition operatorSingletons (op : jstr) : option Token :=
  e ← snd <$> list_find (fun e => TOKEN.is_operator e.2 = true /\ js e.1 = op) TOKEN.entries; Some (singleton e.2).

(** ** The lexer *)

(** The exponent of [_numberPattern], when there is one. *)
Definition match_exponent (s : jstr) : jstr * jstr :=
  match s with
  | c :: s' =>
      if (c =? 0x65) || (c =? 0x45) then
        let '(sign, s'') :=
          match s' with
          | c' :: r => if (c' =? 0x2b) || (c' =? 0x2d) then ([c'], r) else ([], s')
          | [] => ([], s')
          end in
        match span_digits s'' with
        | ([], _) => ([], s)
        | (d, rest) => (c :: sign ++ d, rest)
        end
      else ([], s)
  | [] => ([], s)
  end.

(** The digits of [_numberPattern]: some before a point and any after it, or a
    point and some after it. *)
Definition match_mantissa (s : jstr) : option (jstr * jstr) :=
  match span_digits s with
  | ([], c :: s') =>
      if c =? 0x2e then
        match span_digits s' with
        | ([], _) => None
        | (d, rest) => Some (c :: d, rest)
        end
      else None
  | ([], []) => None
  | (d, c :: s') =>
      if c =? 0x2e then let '(f, rest) := span_digits s' in Some (d ++ c :: f, rest) else Some (d, c :: s')
  | (d, []) => Some (d, [])
  end.

(** [_numberPattern.exec]: what matches, and what follows it. *)
Definition match_number (s : jstr) : option (jstr * jstr) :=
  let '(sign, s') :=
    match s with
    | c :: r => if (c =? 0x2b) || (c =? 0x2d) then ([c], r) else ([], s)
    | [] => ([], s)
    end in
  '(m, rest) ← match_mantissa s';
  let '(e, rest) := match_exponent rest in
  Some (sign ++ m ++ e, rest).

(** [parseFloat] of a number as the pattern finds it. *)
Definition parseFloat (s : jstr) : float :=
  match s with
  | 0x2d :: s => decimal_literal true s
  | 0x2b :: s => decimal_literal false s
  | s => decimal_literal false s
  end.

(** [_identifierPattern] *)
Definition is_lower (c : Z) : bool := (0x61 <=? c) && (c <=? 0x7a).
Fixpoint match_identifier (s : jstr) : jstr * jstr :=
  match s with
  | c :: s' => if is_lower c then let '(i, r) := match_identifier s' in (c :: i, r) else ([], s)
  | [] => ([], [])
  end.

(** The text after the next end of a line. *)
Fixpoint _skipComment (s : jstr) : jstr :=
  match s with
  | c :: s' => if (c =? 0x0a) || (c =? 0x0d) then s' else _skipComment s'
  | [] => []
  end.

Definition _getNumber (s : jstr) : Token * jstr :=
  match match_number s with
  | None => (number_token no_number, s)
  | Some (m, rest) =>
      let number := parseFloat m in
      if negb (isFinite number) then (number_token no_number, s) else (number_token number, rest)
  end.

Definition _getOperator (s : jstr) : Token * jstr :=
  match match_identifier s with
  | ([], _) => (number_token no_number, s)
  | (op, rest) =>
      match operatorSingletons op with
      | None => (number_token no_number, rest)
      | Some token => (token, rest)
      end
  end.

Definition is_blank (ch : Z) : bool := bool_decide (ch ∈ [0x00; 0x09; 0x0a; 0x0c; 0x0d; 0x20]).

(** The loop of [next] over the text that is left. *)
Fixpoint next_loop (turns : nat) (s : jstr) : Token * jstr :=
  match turns with
  | O => (singleton TOKEN.eof, [])
  | S turns =>
      match s with
      | [] => (singleton TOKEN.eof, [])
      | ch :: s' =>
          if is_blank ch then next_loop turns s'
          else if ch =? 0x25 then next_loop turns (_skipComment s')
          else if ch =? 0x7b then (singleton TOKEN.lbrace, s')
          else if ch =? 0x7d then (singleton TOKEN.rbrace, s')
          else if (ch =? 0x2b) || (ch =? 0x2d) then _getNumber s
          else if ch =? 0x2e then _getNumber s
          else if (0x30 <=? ch) && (ch <=? 0x39) then _getNumber s
          else if (0x61 <=? ch) && (ch <=? 0x7a) then _getOperator s
          else (number_token no_number, s')
      end
  end.
(** Each turn takes a character away, so that there are enough of them. *)
Definition next (s : jstr) : Token * jstr := next_loop (S (length s)) s.

(** ** Programs *)

(** The nodes of the syntax: a block is its [instructions], in order. *)
Inductive PsInstr :=
| PsNumber (value : float)
| PsOperator (op : TOKEN.t)
| PsIf (then_ : PsBlock)
| PsIfElse (then_ otherwise : PsBlock)
with PsBlock :=
| Done
| Then (first : PsInstr) (rest : PsBlock).

Scheme PsInstr_mut := Induction for PsInstr Sort Prop
  with PsBlock_mut := Induction for PsBlock Sort Prop.
Combined Scheme Ps_ind from PsInstr_mut, PsBlock_mut.

(** [new PsBlock(instructions)] *)
Definition block_of (instructions : list PsInstr) : PsBlock := fold_right Then Done instructions.

Record PsProgram := mkPsProgram { body : PsBlock }.

(** ** The parser *)

Record ast_Parser := mkParser { lexer : jstr; _token : Token }.
Definition new_Parser (source : jstr) : ast_Parser := mkParser source (singleton TOKEN.eof).

Definition _isRegularOperator (id : TOKEN.t) : bool :=
  (TOKEN.id TOKEN.true <=? TOKEN.id id) && (TOKEN.id id <? TOKEN.id TOKEN.if_).

Definition _advance : M ast_Parser unit := modify (fun p => let '(tok, rest) := next (lexer p) in mkParser rest tok).

Definition current : M ast_Parser Token := gets _token.

Definition _expect (id : TOKEN.t) : M ast_Parser Token :=
  tok <- current;;
  if decide (token_id tok = id) then _advance ;;; mret tok
  else throw (FormatError "PostScript function: unexpected token id").

(** The loop of [_parseBlock]; [instructions] is what it has pushed so far. *)
Fixpoint _parseBlock (turns : nat) (instructions : list PsInstr) : M ast_Parser PsBlock :=
  match turns with
  | O => out_of_fuel
  | S turns =>
      tok <- current;;
      match token_id tok with
      | TOKEN.number => _advance ;;; _parseBlock turns (instructions ++ [PsNumber (token_value tok)])
      | TOKEN.lbrace =>
          _advance ;;;
          thenBlock <- _parseBlock turns [];;
          _expect TOKEN.rbrace ;;;
          tok <- current;;
          if decide (token_id tok = TOKEN.if_) then
            _advance ;;; _parseBlock turns (instructions ++ [PsIf thenBlock])
          else if decide (token_id tok = TOKEN.lbrace) then
            _advance ;;;
            elseBlock <- _parseBlock turns [];;
            _expect TOKEN.rbrace ;;;
            _expect TOKEN.ifelse ;;;
            _parseBlock turns (instructions ++ [PsIfElse thenBlock elseBlock])
          else throw (FormatError "PostScript function: a procedure block must be followed by 'if' or an 'ifelse' block.")
      | TOKEN.rbrace | TOKEN.eof => mret (block_of instructions)
      | TOKEN.if_ | TOKEN.ifelse => throw (FormatError "PostScript function: unexpected operator.")
      | id =>
          if _isRegularOperator id then _advance ;;; _parseBlock turns (instructions ++ [PsOperator id])
          else throw (FormatError "PostScript function: unexpected token id.")
      end
  end.

(** [parse]: what follows the last brace is only warned of. *)
Definition parse (turns : nat) : M ast_Parser PsProgram :=
  _advance ;;;
  _expect TOKEN.lbrace ;;;
  block <- _parseBlock turns [];;
  _expect TOKEN.rbrace ;;;
  mret (mkPsProgram block).

(** [parsePostScriptFunction], with as many turns as there are tokens at most. *)
Definition parsePostScriptFunction (source : jstr) : res PsProgram :=
  (parse (S (length source)) (new_Parser source)).1.

Example parse_sample :
  parsePostScriptFunction (js "{ 2 copy gt % larger
    { pop -.5e1 mul } { exch neg } ifelse }") =
  Ok (mkPsProgram (block_of [PsNumber (of_Z 2); PsOperator TOKEN.copy; PsOperator TOKEN.gt;
    PsIfElse (block_of [PsOperator TOKEN.pop; PsNumber (of_Z (-5)); PsOperator TOKEN.mul])
      (block_of [PsOperator TOKEN.exch; PsOperator TOKEN.neg])])) /\
  parsePostScriptFunction (js "{ 1 {") = Throw (FormatError "PostScript function: unexpected token id") /\
  parsePostScriptFunction (js "{ + }") = OutOfFuel /\ parsePostScriptFunction (js "{ 1e999 }") = OutOfFuel.
Proof. vm_compute. done. Qed.
