(* ===== verification/PsParserSpec.v ===== *)
(** * Calculator functions: what the parser reads

    A program that is printed, its tokens apart by blanks, is read back.  The
    parser answers on every text whose tokens the lexer can pass, and never when
    it comes inside a block to a sign, a point or an overflowing number that the
    lexer cannot pass. *)
From Stdlib Require Import SpecFloat.
From S2P Require Import Prelude Primitives Number64 PsParser.
Local Open Scope js_scope.

(** ** The lexer goes on *)

(** Text that the lexer never leaves: [_getNumber] gives the number 0 there and
    keeps the position. *)
Definition stuck (s : jstr) : bool :=
  match s with
  | ch :: _ =>
      ((ch =? 0x2b) || (ch =? 0x2d) || (ch =? 0x2e) || ((0x30 <=? ch) && (ch <=? 0x39))) &&
      match match_number s with Some (m, _) => negb (isFinite (parseFloat m)) | None => true end
  | [] => false
  end.

(** The lexer passes all tokens of the text. *)
Fixpoint lexes (turns : nat) (s : jstr) : bool :=
  match turns with
  | O => false
  | S turns =>
      let '(tok, rest) := next s in
      bool_decide (token_id tok = TOKEN.eof) || ((len rest <? len s) && lexes turns rest)
  end.

Lemma skipComment_length s : (length (_skipComment s) <= length s)%nat.
Proof. induction s as [|c s IH]; cbn; [done|]. destruct (_ || _); lia. Qed.

(** More turns than characters change nothing. *)
Lemma next_loop_turns n m s : (length s < n)%nat -> (length s < m)%nat -> next_loop n s = next_loop m s.
Proof.
  revert m s. induction n as [|n IH]; intros m s Hn Hm; [lia|]. destruct m as [|m]; [lia|]. cbn [next_loop].
  destruct s as [|ch s]; [done|]. cbn [length] in *. pose proof (skipComment_length s).
  destruct (is_blank ch); [apply IH; lia|]. destruct (ch =? 0x25); [apply IH; lia|done].
Qed.

Lemma next_blank c s : is_blank c = true -> next (c :: s) = next s.
Proof.
  intros Hc. unfold next. cbn [length]. generalize (S (length s)). intros n. cbn [next_loop]. by rewrite Hc.
Qed.

Lemma next_blanks sep s : Forall (fun c => is_blank c = true) sep -> next (sep ++ s) = next s.
Proof. induction 1 as [|c sep Hc _ IH]; [done|]. cbn [app]. by rewrite next_blank. Qed.

Lemma operatorSingletons_no_eof op tok : operatorSingletons op = Some tok -> token_id tok <> TOKEN.eof.
Proof.
  unfold operatorSingletons. destruct (list_find _ _) as [[i e]|] eqn:E; [|done]. cbn. intros [= <-].
  apply list_find_Some in E as (_ & [He _] & _). cbn. intros Ee. rewrite Ee in He. by vm_compute in He.
Qed.

(** The end of the text is where nothing is left. *)
Lemma next_eof s : token_id (next s).1 = TOKEN.eof -> (next s).2 = [].
Proof.
  unfold next. generalize (S (length s)) as n. intros n. revert s. induction n as [|n IH]; intros s; [done|]. cbn [next_loop].
  destruct s as [|ch s]; [done|]. destruct (is_blank ch); [apply IH|]. destruct (ch =? 0x25); [apply IH|].
  unfold _getNumber, _getOperator. repeat case_match; try done; cbn; try done.
  all: intros He; exfalso; by eapply operatorSingletons_no_eof.
Qed.

(** Where the lexer is stuck it stays. *)
Lemma next_stuck s : stuck s = true -> next s = (number_token no_number, s).
Proof.
  unfold stuck, next. destruct s as [|ch s]; [done|]. intros H. apply andb_true_iff in H as [Hc Hm].
  assert (Hn : _getNumber (ch :: s) = (number_token no_number, ch :: s)).
  { unfold _getNumber. destruct (match_number (ch :: s)) as [[m r]|]; [|done]. cbn in *. by rewrite Hm. }
  cbn [next_loop].
  assert (is_blank ch = false) as ->. { apply bool_decide_eq_false_2. rewrite !elem_of_cons, elem_of_nil. lia. }
  rewrite (proj2 (Z.eqb_neq ch 0x25)), (proj2 (Z.eqb_neq ch 0x7b)), (proj2 (Z.eqb_neq ch 0x7d)) by lia.
  destruct (_ || _) eqn:E1 at 1; [done|]. destruct (ch =? 0x2e) eqn:E2; [done|]. destruct (_ && _) eqn:E3 at 1; [done|]. lia.
Qed.

(** ** The tokens of printed text *)

(** A way of writing a number, and a character that no number or name goes on with. *)
Definition numeral (t : jstr) (v : float) : bool :=
  bool_decide (match_number t = Some (t, [])) && bool_decide (parseFloat t = v) && isFinite v.
Definition op_name (op : TOKEN.t) : jstr :=
  match list_find (fun e => e.2 = op) TOKEN.entries with Some (_, e) => js e.1 | None => [] end.

Lemma blank_cases c : is_blank c = true -> c = 0 \/ c = 9 \/ c = 10 \/ c = 12 \/ c = 13 \/ c = 32.
Proof. unfold is_blank. rewrite bool_decide_eq_true, !elem_of_cons, elem_of_nil. lia. Qed.

Lemma span_digits_blank t c s : is_digit c = false ->
  span_digits (t ++ c :: s) = let '(d, r) := span_digits t in (d, r ++ c :: s).
Proof.
  intros Hc. induction t as [|x t IH]; cbn; [by rewrite Hc|]. destruct (is_digit x); [|done]. rewrite IH.
  by destruct (span_digits t).
Qed.

Section Blank.
Context (c : Z) (s : jstr) (Hc : is_blank c = true).

Lemma blank_no_digit : is_digit c = false.
Proof. unfold is_digit. destruct (blank_cases c Hc) as [->|[->|[->|[->|[->| ->]]]]]; done. Qed.

(** The blank is none of the characters that the pattern asks for. *)
Ltac blank_test := repeat rewrite (proj2 (Z.eqb_neq c _)) by (destruct (blank_cases c Hc) as [?|[?|[?|[?|[?|?]]]]]; lia).

Lemma match_exponent_blank t :
  match_exponent (t ++ c :: s) = let '(e, r) := match_exponent t in (e, r ++ c :: s).
Proof.
  unfold match_exponent. destruct t as [|x t]; cbn [app]; [by blank_test|].
  destruct (_ || _); [|done]. destruct t as [|y t]; cbn [app].
  - blank_test. cbn [orb]. cbn [span_digits]. by rewrite blank_no_digit.
  - destruct ((y =? 43) || (y =? 45)).
    + rewrite (span_digits_blank t c s blank_no_digit). by destruct (span_digits t) as [[|] ?].
    + change (y :: t ++ c :: s) with ((y :: t) ++ c :: s). rewrite (span_digits_blank (y :: t) c s blank_no_digit). by destruct (span_digits (y :: t)) as [[|] ?].
Qed.

Lemma match_mantissa_blank t m r : match_mantissa t = Some (m, r) -> match_mantissa (t ++ c :: s) = Some (m, r ++ c :: s).
Proof.
  unfold match_mantissa. rewrite (span_digits_blank t c s blank_no_digit).
  destruct (span_digits t) as [[|d0 d] [|x t']]; cbn [app]; try done.
  - destruct (x =? 0x2e); [|done]. rewrite (span_digits_blank t' c s blank_no_digit).
    destruct (span_digits t') as [[|] ?]; [done|]. by intros [= <- <-].
  - intros [= <- <-]. by blank_test.
  - destruct (x =? 0x2e); [|by intros [= <- <-]]. rewrite (span_digits_blank t' c s blank_no_digit).
    destruct (span_digits t') as [f ?]. by intros [= <- <-].
Qed.

Lemma match_number_blank t : match_number t = Some (t, []) -> match_number (t ++ c :: s) = Some (t, c :: s).
Proof.
  assert (H : forall sign t', (('(m, rest) ← match_mantissa t'; let '(e, rest) := match_exponent rest in
      Some ((sign ++ m ++ e)%list, rest)) = Some (t, @nil Z)) ->
    ('(m, rest) ← match_mantissa (t' ++ c :: s); let '(e, rest) := match_exponent rest in
      Some ((sign ++ m ++ e)%list, rest)) = Some (t, c :: s)).
  { intros sign t'. destruct (match_mantissa t') as [[m r]|] eqn:E; cbn; [|by intros [=]]. rewrite (match_mantissa_blank _ _ _ E). cbn.
    rewrite match_exponent_blank. destruct (match_exponent r) as [e r']. by intros [= -> ->]. }
  unfold match_number. destruct t as [|x t]; [done|]. cbn [app]. destruct ((x =? 43) || (x =? 45)); intros E.
  - by apply (H [x]).
  - by apply (H [] (x :: t)).
Qed.

Lemma match_identifier_blank i : forallb is_lower i = true -> match_identifier (i ++ c :: s) = (i, c :: s).
Proof.
  induction i as [|x i IH]; cbn.
  - intros _. replace (is_lower c) with false; [done|]. unfold is_lower.
    by destruct (blank_cases c Hc) as [->|[->|[->|[->|[->| ->]]]]].
  - intros H. apply andb_true_iff in H as [-> H]. by rewrite IH.
Qed.
End Blank.

(** What a number begins with. *)
Lemma match_number_first x s : is_Some (match_number (x :: s)) ->
  x = 0x2b \/ x = 0x2d \/ x = 0x2e \/ 0x30 <= x <= 0x39.
Proof.
  unfold match_number. destruct ((x =? 43) || (x =? 45)) eqn:E; [lia|]. intros [? H].
  destruct (match_mantissa (x :: s)) as [[m r]|] eqn:Em; [|done]. clear H. unfold match_mantissa in Em. cbn [span_digits] in Em.
  unfold is_digit in Em. destruct ((48 <=? x) && (x <=? 57)) eqn:Ed; [lia|]. destruct (x =? 0x2e) eqn:E2; [lia|done].
Qed.

Lemma next_numeral t v c s : numeral t v = true -> is_blank c = true ->
  next (t ++ c :: s) = (number_token v, c :: s).
Proof.
  unfold numeral. rewrite !andb_true_iff, !bool_decide_eq_true. intros [[Hm <-] Hf] Hc.
  pose proof (match_number_blank c s Hc t Hm) as Hn. unfold next. destruct t as [|x t]; [by vm_compute in Hm|].
  assert (Hx : x = 0x2b \/ x = 0x2d \/ x = 0x2e \/ 0x30 <= x <= 0x39) by (by eapply match_number_first; eexists).
  assert (Hg : _getNumber ((x :: t) ++ c :: s) = (number_token (parseFloat (x :: t)), c :: s)).
  { unfold _getNumber. rewrite Hn. by rewrite Hf. }
  cbn [app next_loop]. cbn [app] in Hg. rewrite Hg.
  assert (is_blank x = false) as ->. { apply bool_decide_eq_false_2. rewrite !elem_of_cons, elem_of_nil. lia. }
  rewrite (proj2 (Z.eqb_neq x 0x25)), (proj2 (Z.eqb_neq x 0x7b)), (proj2 (Z.eqb_neq x 0x7d)) by lia.
  destruct (_ || _) eqn:E1 at 1; [done|]. destruct (x =? 0x2e) eqn:E2; [done|]. destruct (_ && _) eqn:E3 at 1; [done|]. lia.
Qed.

(** The names of the operators are words of small letters that the lexer knows. *)
Lemma op_name_known op : TOKEN.is_operator op = true ->
  operatorSingletons (op_name op) = Some (singleton op) /\ forallb is_lower (op_name op) = true /\ op_name op <> [].
Proof. by destruct op; vm_compute. Qed.

Lemma next_operator op c s : TOKEN.is_operator op = true -> is_blank c = true ->
  next (op_name op ++ c :: s) = (singleton op, c :: s).
Proof.
  intros Ho Hc. destruct (op_name_known op Ho) as (Hs & Hl & Hne). unfold next. destruct (op_name op) as [|x i] eqn:En; [done|].
  assert (Hg : _getOperator ((x :: i) ++ c :: s) = (singleton op, c :: s)).
  { unfold _getOperator. rewrite (match_identifier_blank c s Hc _ Hl). by rewrite Hs. }
  cbn [app next_loop]. cbn [app] in Hg. rewrite Hg.
  assert (Hx : 0x61 <= x <= 0x7a) by (cbn in Hl; unfold is_lower in Hl; lia).
  assert (is_blank x = false) as ->. { apply bool_decide_eq_false_2. rewrite !elem_of_cons, elem_of_nil. lia. }
  repeat ztest. done.
Qed.

#[local] Arguments next : simpl never.

(** ** Printed programs *)

Section Print.
Context (num : float -> jstr) (sep : jstr).

Fixpoint print_instr (i : PsInstr) : jstr :=
  match i with
  | PsNumber v => num v ++ sep
  | PsOperator op => op_name op ++ sep
  | PsIf b => [0x7b] ++ sep ++ print_block b ++ [0x7d] ++ sep ++ op_name TOKEN.if_ ++ sep
  | PsIfElse b1 b2 =>
      [0x7b] ++ sep ++ print_block b1 ++ [0x7d] ++ sep ++ [0x7b] ++ sep ++ print_block b2 ++ [0x7d] ++ sep ++
      op_name TOKEN.ifelse ++ sep
  end
with print_block (b : PsBlock) : jstr :=
  match b with
  | Done => []
  | Then i rest => print_instr i ++ print_block rest
  end.
Definition print (p : PsProgram) : jstr := [0x7b] ++ sep ++ print_block (body p) ++ [0x7d].

(** The operators are those of a program, and the numbers are written as numbers. *)
Fixpoint printable_instr (i : PsInstr) : bool :=
  match i with
  | PsNumber v => numeral (num v) v
  | PsOperator op => _isRegularOperator op
  | PsIf b => printable b
  | PsIfElse b1 b2 => printable b1 && printable b2
  end
with printable (b : PsBlock) : bool :=
  match b with
  | Done => true
  | Then i rest => printable_instr i && printable rest
  end.

(** How many turns the loops over the instructions take. *)
Fixpoint turns_instr (i : PsInstr) : nat :=
  match i with
  | PsNumber _ | PsOperator _ => 1
  | PsIf b => S (turns_block b)
  | PsIfElse b1 b2 => S (turns_block b1 + turns_block b2)
  end
with turns_block (b : PsBlock) : nat :=
  match b with
  | Done => 0
  | Then i rest => turns_instr i + turns_block rest
  end.

Fixpoint instructions (b : PsBlock) : list PsInstr :=
  match b with
  | Done => []
  | Then i rest => i :: instructions rest
  end.

Context (Hsep : Forall (fun c => is_blank c = true) sep) (Hne : sep <> []).

(** The parser when the lexer is before a text. *)
Definition before (s : jstr) : ast_Parser := mkParser (next s).2 (next s).1.

Lemma block_of_instructions b : block_of (instructions b) = b.
Proof. induction b as [|i b IH]; cbn; [done|]. by f_equal. Qed.

Lemma advance_before s tok : _advance (mkParser s tok) = (Ok tt, before s).
Proof. unfold _advance, modify, before. cbn. by destruct (next s). Qed.

Lemma before_sep s : before (sep ++ s) = before s.
Proof. unfold before. by rewrite next_blanks. Qed.

Lemma before_token text tok s : (forall c s, is_blank c = true -> next (text ++ c :: s) = (tok, c :: s)) ->
  before (text ++ sep ++ s) = mkParser (sep ++ s) tok.
Proof.
  intros H. unfold before. destruct sep as [|c sep']; [done|]. cbn [app]. rewrite H; [done|].
  by inversion Hsep.
Qed.

Lemma before_number v s : numeral (num v) v = true -> before (num v ++ sep ++ s) = mkParser (sep ++ s) (number_token v).
Proof. intros H. apply before_token. intros c s' Hc. by apply next_numeral. Qed.

Lemma before_operator op s : TOKEN.is_operator op = true -> before (op_name op ++ sep ++ s) = mkParser (sep ++ s) (singleton op).
Proof. intros H. apply before_token. intros c s' Hc. by apply next_operator. Qed.

Lemma before_lbrace s : before ([0x7b] ++ s) = mkParser s (singleton TOKEN.lbrace).
Proof. done. Qed.
Lemma before_rbrace s : before ([0x7d] ++ s) = mkParser s (singleton TOKEN.rbrace).
Proof. done. Qed.

(** One token further in the parser. *)
Ltac advance := rewrite ?advance_before, ?before_sep; cbv beta iota.

Lemma expect_token id s : _expect id (mkParser s (singleton id)) = (Ok (singleton id), before s).
Proof.
  unfold _expect, mbind, current, gets, mret. cbn [_token token_id singleton]. rewrite decide_True by done. by advance.
Qed.

Lemma regular_is_operator op : _isRegularOperator op = true -> TOKEN.is_operator op = true.
Proof. by destruct op; vm_compute. Qed.

Lemma parse_step_number t acc s v : numeral (num v) v = true ->
  _parseBlock (S t) acc (before (num v ++ sep ++ s)) = _parseBlock t (acc ++ [PsNumber v]) (before s).
Proof.
  intros H. rewrite (before_number _ _ H). cbn [_parseBlock]. unfold mbind at 1, current, gets. cbn [_token token_id number_token].
  unfold mbind. by advance.
Qed.

Lemma parse_step_operator t acc s op : _isRegularOperator op = true ->
  _parseBlock (S t) acc (before (op_name op ++ sep ++ s)) = _parseBlock t (acc ++ [PsOperator op]) (before s).
Proof.
  intros H. rewrite (before_operator _ _ (regular_is_operator _ H)). cbn [_parseBlock]. unfold mbind at 1, current, gets.
  cbn [_token token_id singleton]. destruct op; try (by vm_compute in H); rewrite H; unfold mbind; by advance.
Qed.

Lemma parse_end t acc s : _parseBlock (S t) acc (before ([0x7d] ++ s)) = (Ok (block_of acc), before ([0x7d] ++ s)).
Proof. done. Qed.

Lemma turns_instr_pos i : (0 < turns_instr i)%nat.
Proof. destruct i; cbn; lia. Qed.

Lemma parse_printed_mut :
  (forall i t acc s, printable_instr i = true -> (turns_instr i < S t)%nat ->
    _parseBlock (S t) acc (before (print_instr i ++ s)) = _parseBlock t (acc ++ [i]) (before s)) /\
  (forall b t acc s, printable b = true -> (turns_block b < t)%nat ->
    _parseBlock t acc (before (print_block b ++ [0x7d] ++ s)) = (Ok (block_of (acc ++ instructions b)), before ([0x7d] ++ s))).
Proof.
  apply Ps_ind.
  - intros v t acc s H _. cbn [print_instr]. rewrite <- app_assoc. by apply parse_step_number.
  - intros op t acc s H _. cbn [print_instr]. rewrite <- app_assoc. by apply parse_step_operator.
  - intros b IH t acc s H Ht. cbn [print_instr printable_instr turns_instr] in *. rewrite <- !app_assoc, before_lbrace.
    cbn [_parseBlock]. unfold mbind, current, gets. cbn [_token token_id singleton]. advance.
    rewrite IH by (done || lia). rewrite before_rbrace, expect_token. advance.
    rewrite (before_operator TOKEN.if_) by done. cbn [_token token_id singleton]. rewrite decide_True by done. advance.
    by rewrite app_nil_l, block_of_instructions.
  - intros b1 IH1 b2 IH2 t acc s H Ht. cbn [print_instr printable_instr turns_instr] in *. apply andb_true_iff in H as [H1 H2].
    rewrite <- !app_assoc, before_lbrace. cbn [_parseBlock]. unfold mbind, current, gets. cbn [_token token_id singleton]. advance.
    rewrite IH1 by (done || lia). rewrite before_rbrace, expect_token. advance.
    rewrite before_lbrace. cbn [_token token_id singleton]. rewrite decide_False, decide_True by done. advance.
    rewrite IH2 by (done || lia). rewrite before_rbrace, expect_token. advance.
    rewrite (before_operator TOKEN.ifelse) by done. rewrite expect_token. advance.
    by rewrite !app_nil_l, !block_of_instructions.
  - intros t acc s _ Ht. destruct t as [|t]; [cbn in Ht; lia|]. cbn [print_block instructions app]. rewrite app_nil_r. apply parse_end.
  - intros i IHi b IHb t acc s H Ht. cbn [print_block printable turns_block instructions] in *. apply andb_true_iff in H as [Hi Hb].
    pose proof (turns_instr_pos i). destruct t as [|t]; [lia|]. rewrite <- app_assoc, IHi by (done || lia). rewrite IHb by (done || lia). by rewrite <- app_assoc.
Qed.

Lemma turns_printed : (forall i, printable_instr i = true -> (turns_instr i <= length (print_instr i))%nat) /\
  (forall b, printable b = true -> (turns_block b <= length (print_block b))%nat).
Proof.
  assert (Hs : (0 < length sep)%nat) by (destruct sep; [done|cbn; lia]).
  apply Ps_ind; intros; cbn [print_instr print_block printable printable_instr turns_instr turns_block] in *;
    repeat match goal with H : _ && _ = true |- _ => apply andb_true_iff in H as [? ?] end; rewrite ?length_app; cbn [length]; try lia.
  - specialize (H ltac:(assumption)). lia.
  - specialize (H ltac:(assumption)). specialize (H0 ltac:(assumption)). lia.
  - specialize (H ltac:(assumption)). specialize (H0 ltac:(assumption)). lia.
Qed.

(** ** Texts that break off

    With any number of turns: they run out, or what is printed is read. *)

Definition passes_over (t : nat) (acc acc' : list PsInstr) (text s : jstr) : Prop :=
  (_parseBlock t acc (before (text ++ s))).1 = OutOfFuel \/
  exists t', _parseBlock t acc (before (text ++ s)) = _parseBlock t' acc' (before s).

Lemma mbind_fuel {S A B} (m : M S A) (f : A -> M S B) (st : S) : (m st).1 = OutOfFuel -> (mbind m f st).1 = OutOfFuel.
Proof. unfold mbind. destruct (m st) as [[?|?|] ?]; done. Qed.

Lemma bind_current {A} (f : Token -> M ast_Parser A) p : mbind current f p = f (_token p) p.
Proof. done. Qed.
Lemma bind_advance {A} (f : unit -> M ast_Parser A) s tok : mbind _advance f (mkParser s tok) = f tt (before s).
Proof. apply mbind_ok, advance_before. Qed.
Lemma bind_expect {A} (f : Token -> M ast_Parser A) id s : mbind (_expect id) f (mkParser s (singleton id)) = f (singleton id) (before s).
Proof. apply mbind_ok, expect_token. Qed.

(** The steps at a token that is known. *)
Ltac known := repeat first [rewrite bind_current; cbn [_token token_id singleton] | rewrite bind_advance | rewrite bind_expect |
  rewrite before_lbrace | rewrite before_rbrace | rewrite before_sep | rewrite (before_operator TOKEN.if_) by done |
  rewrite (before_operator TOKEN.ifelse) by done | rewrite decide_False by done | rewrite decide_True by done].

(** A block that is printed with its brace. *)
Lemma parse_closed t b s : (forall acc s, passes_over t acc (acc ++ instructions b) (print_block b) s) ->
  (_parseBlock t [] (before (print_block b ++ [0x7d] ++ s))).1 = OutOfFuel \/
  _parseBlock t [] (before (print_block b ++ [0x7d] ++ s)) = (Ok b, before ([0x7d] ++ s)).
Proof.
  intros H. destruct (H [] ([0x7d] ++ s)) as [E|[[|t'] E]]; [by left|left; by rewrite E|right].
  by rewrite E, parse_end, app_nil_l, block_of_instructions.
Qed.

Lemma parse_prefix_mut :
  (forall i, printable_instr i = true -> forall t acc s, passes_over t acc (acc ++ [i]) (print_instr i) s) /\
  (forall b, printable b = true -> forall t acc s, passes_over t acc (acc ++ instructions b) (print_block b) s).
Proof.
  apply Ps_ind.
  - intros v H [|t] acc s; [by left|right]. exists t. cbn [print_instr]. rewrite <- app_assoc. by apply parse_step_number.
  - intros op H [|t] acc s; [by left|right]. exists t. cbn [print_instr]. rewrite <- app_assoc. by apply parse_step_operator.
  - intros b IH H [|t] acc s; [by left|]. unfold passes_over. cbn [print_instr printable_instr] in *. rewrite <- !app_assoc, before_lbrace.
    cbn [_parseBlock]. known. destruct (parse_closed t b (sep ++ op_name TOKEN.if_ ++ sep ++ s) (IH H t)) as [E|E]; [left; by apply mbind_fuel|right].
    exists t. rewrite (mbind_ok _ _ _ _ _ E). by known.
  - intros b1 IH1 b2 IH2 H [|t] acc s; [by left|]. unfold passes_over. cbn [print_instr printable_instr] in *. apply andb_true_iff in H as [H1 H2].
    rewrite <- !app_assoc, before_lbrace. cbn [_parseBlock]. known.
    match goal with |- context [print_block b1 ++ [0x7d] ++ ?r] => destruct (parse_closed t b1 r (IH1 H1 t)) as [E|E] end; [left; by apply mbind_fuel|].
    rewrite (mbind_ok _ _ _ _ _ E). known.
    match goal with |- context [print_block b2 ++ [0x7d] ++ ?r] => destruct (parse_closed t b2 r (IH2 H2 t)) as [E2|E2] end; [left; by apply mbind_fuel|].
    right. exists t. rewrite (mbind_ok _ _ _ _ _ E2). by known.
  - intros _ t acc s. right. exists t. cbn [print_block instructions app]. by rewrite app_nil_r.
  - intros i IHi b IHb H t acc s. cbn [print_block printable instructions] in *. apply andb_true_iff in H as [Hi Hb]. unfold passes_over.
    rewrite <- app_assoc. destruct (IHi Hi t acc (print_block b ++ s)) as [E|[t1 E]]; [by left|]. rewrite E.
    specialize (IHb Hb t1 (acc ++ [i]) s). rewrite <- app_assoc in IHb. exact IHb.
Qed.

(** A place in a program: behind the instructions of a block, which is the body
    or lies in a block that is opened there, the first of its [if] or the second
    of its [ifelse]. *)
Inductive Place :=
| Behind (b : PsBlock)
| InFirst (b : PsBlock) (inner : Place)
| InSecond (b first : PsBlock) (inner : Place).

Fixpoint print_to (at_ : Place) : jstr :=
  match at_ with
  | Behind b => print_block b
  | InFirst b inner => print_block b ++ [0x7b] ++ sep ++ print_to inner
  | InSecond b first inner => print_block b ++ [0x7b] ++ sep ++ print_block first ++ [0x7d] ++ sep ++ [0x7b] ++ sep ++ print_to inner
  end.
Fixpoint printable_to (at_ : Place) : bool :=
  match at_ with
  | Behind b => printable b
  | InFirst b inner => printable b && printable_to inner
  | InSecond b first inner => printable b && printable first && printable_to inner
  end.

(** A text on which the parser loops lets it loop at any place. *)
Lemma loops_at s (Hs : forall t acc, (_parseBlock t acc (before s)).1 = OutOfFuel) at_ : printable_to at_ = true ->
  forall t acc, (_parseBlock t acc (before (print_to at_ ++ s))).1 = OutOfFuel.
Proof.
  destruct parse_prefix_mut as [_ Hb]. induction at_ as [b|b inner IH|b first inner IH]; cbn [printable_to print_to]; rewrite ?andb_true_iff.
  - intros H t acc. destruct (Hb b H t acc s) as [E|[t' E]]; [done|]. by rewrite E.
  - intros [H Hi] t acc. rewrite <- !app_assoc. destruct (Hb b H t acc ([0x7b] ++ sep ++ print_to inner ++ s)) as [E|[[|t'] ->]]; [done..|].
    rewrite before_lbrace. cbn [_parseBlock]. known. by apply mbind_fuel, IH.
  - intros [[H Hf] Hi] t acc. rewrite <- !app_assoc.
    match goal with |- context [before (print_block b ++ ?r)] => destruct (Hb b H t acc r) as [E|[[|t'] ->]] end; [done..|].
    rewrite before_lbrace. cbn [_parseBlock]. known.
    match goal with |- context [print_block first ++ [0x7d] ++ ?r] => destruct (parse_closed t' first r (Hb first Hf t')) as [E|E] end; [by apply mbind_fuel|].
    rewrite (mbind_ok _ _ _ _ _ E). known. by apply mbind_fuel, IH.
Qed.

End Print.

(** C12. A program that is printed with blanks between its tokens, its numbers
    written in any way that the number pattern takes, is what
    parsePostScriptFunction reads, whatever stands after its last brace. *)
Theorem parse_printed num sep p after : Forall (fun c => is_blank c = true) sep -> sep <> [] -> printable num (body p) = true ->
  parsePostScriptFunction (print num sep p ++ after) = Ok p.
Proof.
  intros Hsep Hne Hp. unfold parsePostScriptFunction, print. rewrite <- !app_assoc.
  destruct (turns_printed num sep Hsep Hne) as [_ Hl]. specialize (Hl _ Hp).
  set (n := length _). assert (Hn : (turns_block (body p) < S n)%nat) by (unfold n; rewrite !length_app; cbn [length]; lia).
  clearbody n. unfold parse, new_Parser. rewrite (mbind_ok _ _ _ _ _ (advance_before _ _)), before_lbrace.
  rewrite (mbind_ok _ _ _ _ _ (expect_token _ _)), (before_sep _ Hsep).
  rewrite (mbind_ok _ _ _ _ _ (proj2 (parse_printed_mut num sep Hsep Hne) _ _ _ _ Hp Hn)), before_rbrace.
  rewrite (mbind_ok _ _ _ _ _ (expect_token _ _)). cbn. rewrite block_of_instructions. by destruct p.
Qed.

Definition sample_num (v : float) : jstr := if bool_decide (v = of_Z 2) then js "+2." else js ".5E0".
Definition sample_program : PsProgram :=
  mkPsProgram (block_of [PsNumber (of_Z 2); PsOperator TOKEN.copy; PsOperator TOKEN.gt;
    PsIfElse (block_of [PsNumber (lit 1 2); PsOperator TOKEN.mul]) (block_of [PsOperator TOKEN.exch; PsIf (block_of [])])]).
Lemma parse_printed_witness :
  parsePostScriptFunction (js "{ +2. copy gt { .5E0 mul } { exch { } if } ifelse } % end") = Ok sample_program.
Proof.
  apply (parse_printed sample_num [0x20] sample_program (js " % end")); [by repeat constructor|done|by vm_compute].
Defined.

(** ** The parser answers *)

(** The tokens still to come, the current one with them. *)
Definition tokens_left (p : ast_Parser) : nat :=
  if decide (token_id (_token p) = TOKEN.eof) then 0 else S (length (lexer p)).
Definition passes (p : ast_Parser) : Prop := token_id (_token p) = TOKEN.eof \/ exists turns, lexes turns (lexer p) = true.

(** The outcome is a result that leaves no more tokens than before, or a
    FormatError. *)
Definition answers {A} (m : M ast_Parser A) (p : ast_Parser) : Prop :=
  match m p with
  | (Ok _, p') => passes p' /\ (tokens_left p' <= tokens_left p)%nat
  | (Throw e, _) => exists msg, e = FormatError msg
  | (OutOfFuel, _) => False
  end.

Lemma answers_then {A B} (m : M ast_Parser A) (k : A -> M ast_Parser B) p :
  answers m p -> (forall a p', m p = (Ok a, p') -> passes p' -> (tokens_left p' <= tokens_left p)%nat -> answers (k a) p') ->
  answers (mbind m k) p.
Proof.
  unfold answers, mbind. destruct (m p) as [[a|e|] p'] eqn:E; try done. intros [Hp Hl] H. specialize (H a p' eq_refl Hp Hl).
  destruct (k a p') as [[b|e|] p'']; try done. destruct H. split; [done|lia].
Qed.

Lemma advance_left p : token_id (_token p) <> TOKEN.eof -> passes p ->
  exists p', _advance p = (Ok tt, p') /\ passes p' /\ (tokens_left p' < tokens_left p)%nat.
Proof.
  intros Hne [He|[turns Hl]]; [done|]. destruct turns as [|turns]; [done|]. cbn [lexes] in Hl.
  unfold _advance, modify, passes, tokens_left. pose proof (next_eof (lexer p)) as Heof. rewrite decide_False by done.
  destruct (next (lexer p)) as [tok rest] eqn:E. eexists. split; [done|]. cbn [_token lexer fst snd] in *.
  apply orb_true_iff in Hl as [Hl|Hl].
  - apply bool_decide_eq_true in Hl. split; [by left|]. rewrite decide_True by done. lia.
  - apply andb_true_iff in Hl as [Hlt Hl]. unfold len in Hlt. split; [right; by exists turns|]. destruct (decide _); lia.
Qed.

Lemma expect_answers id p : id <> TOKEN.eof -> passes p -> answers (_expect id) p.
Proof.
  intros Hid Hp. unfold answers, _expect, mbind, current, gets. destruct (decide (token_id (_token p) = id)) as [E|E].
  - destruct (advance_left p) as (p' & -> & Hp' & Hl); [by rewrite E|done|]. unfold mret. split; [done|lia].
  - unfold throw. eauto.
Qed.

Lemma answers_advance {B} (k : M ast_Parser B) p : token_id (_token p) <> TOKEN.eof -> passes p ->
  (forall p', passes p' -> (tokens_left p' < tokens_left p)%nat -> answers k p') -> answers (_advance ;;; k) p.
Proof.
  intros Hne Hp H. destruct (advance_left p Hne Hp) as (p' & E & Hp' & Hl). specialize (H p' Hp' Hl).
  unfold answers, mbind in *. rewrite E. destruct (k p') as [[b|e|] p'']; try done. destruct H. split; [done|lia].
Qed.

Lemma answers_error {A} msg p : answers (throw (A := A) (FormatError msg)) p.
Proof. unfold answers, throw. eauto. Qed.

Lemma parseBlock_answers turns : forall acc p, passes p -> (tokens_left p < turns)%nat -> answers (_parseBlock turns acc) p.
Proof.
  induction turns as [|turns IH]; intros acc p Hp Ht; [lia|]. cbn [_parseBlock].
  apply answers_then; [by unfold answers, current, gets|]. intros tok p' [= <- <-] _ _.
  assert (Hret : forall b : PsBlock, answers (mret b) p) by (intros; by unfold answers, mret).
  assert (Hgo : token_id (_token p) <> TOKEN.eof -> forall acc, answers (_advance ;;; _parseBlock turns acc) p).
  { intros Hne acc'. apply answers_advance; [done|done|]. intros p' Hp' Hl. apply IH; [done|lia]. }
  destruct (token_id (_token p)) eqn:Etok; try apply Hret; try apply answers_error; try (by apply Hgo; rewrite ?Etok).
  - apply answers_advance; [by rewrite Etok|done|]. intros p1 Hp1 Hl1.
    apply answers_then; [apply IH; [done|lia]|]. intros b p2 _ Hp2 Hl2.
    apply answers_then; [by apply expect_answers|]. intros t p3 _ Hp3 Hl3.
    apply answers_then; [by unfold answers, current, gets|]. intros tok p' [= <- <-] _ _.
    destruct (decide (token_id (_token p3) = TOKEN.if_)) as [E|_].
    { apply answers_advance; [by rewrite E|done|]. intros p4 Hp4 Hl4. apply IH; [done|lia]. }
    destruct (decide (token_id (_token p3) = TOKEN.lbrace)) as [E|_]; [|apply answers_error].
    apply answers_advance; [by rewrite E|done|]. intros p4 Hp4 Hl4.
    apply answers_then; [apply IH; [done|lia]|]. intros b2 p5 _ Hp5 Hl5.
    apply answers_then; [by apply expect_answers|]. intros t5 p6 _ Hp6 Hl6.
    apply answers_then; [by apply expect_answers|]. intros t6 p7 _ Hp7 Hl7. apply IH; [done|lia].
Qed.

(** C29. parsePostScriptFunction returns a program or throws a FormatError on
    every text whose tokens the lexer can pass, with as many turns as there are
    characters. *)
Theorem parse_answers source : lexes (S (length source)) source = true ->
  exists r, parsePostScriptFunction source = r /\ match r with Ok _ => True | Throw e => exists msg, e = FormatError msg | OutOfFuel => False end.
Proof.
  intros Hl. eexists. split; [done|]. unfold parsePostScriptFunction.
  assert (H : answers (parse (S (length source))) (mkParser source (number_token no_number))).
  { unfold parse. apply answers_advance; [done|right; by eexists|]. intros p1 Hp1 Hl1. change (tokens_left (mkParser source (number_token no_number))) with (S (length source)) in Hl1.
    apply answers_then; [by apply expect_answers|]. intros t p2 _ Hp2 Hl2.
    apply answers_then; [apply parseBlock_answers; [done|lia]|]. intros b p3 _ Hp3 Hl3.
    apply answers_then; [by apply expect_answers|]. intros t' p4 _ Hp4 Hl4. by unfold answers, mret. }
  assert (E : parse (S (length source)) (new_Parser source) = parse (S (length source)) (mkParser source (number_token no_number))) by done.
  rewrite E. unfold answers in H. by destruct (parse _ _) as [[?|?|] ?].
Qed.

Lemma parse_answers_witness :
  exists r, parsePostScriptFunction (js "{ 2 {exch sub if 1e5 }} ]") = r /\
    match r with Ok _ => True | Throw e => exists msg, e = FormatError msg | OutOfFuel => False end.
Proof. apply (parse_answers (js "{ 2 {exch sub if 1e5 }} ]")). by vm_compute. Defined.

(** C39. When the text of a program comes, at any place of a block, to a sign or a
    point that begins no number, or to a number that overflows, the parser never
    ends: it adds the number 0 to that block for ever. *)
Theorem stuck_number_loops num sep at_ s turns : Forall (fun c => is_blank c = true) sep -> sep <> [] ->
  printable_to num at_ = true -> stuck s = true ->
  (parse turns (new_Parser ([0x7b] ++ sep ++ print_to num sep at_ ++ s))).1 = OutOfFuel.
Proof.
  intros Hb Hne Hat Hs. unfold parse, new_Parser. rewrite (mbind_ok _ _ _ _ _ (advance_before _ _)), before_lbrace.
  rewrite (mbind_ok _ _ _ _ _ (expect_token _ _)), (before_sep _ Hb). apply mbind_fuel, loops_at; [done..| |done].
  clear turns. intros turns. unfold before. rewrite (next_stuck s Hs). cbn [fst snd].
  induction turns as [|turns IH]; intros acc; [done|]. cbn [_parseBlock].
  unfold mbind, current, gets. cbn [_token token_id number_token]. rewrite advance_before. unfold before. rewrite (next_stuck s Hs).
  apply IH.
Qed.

(** In the second block of an [ifelse], behind an operator. *)
Definition second_block : Place :=
  InSecond (Then (PsOperator TOKEN.dup) Done) (Then (PsOperator TOKEN.pop) Done) (Behind (Then (PsOperator TOKEN.neg) Done)).

Lemma stuck_number_loops_witness :
  stuck (js "- 1 } ifelse }") = true /\ forall turns, (parse turns (new_Parser (js "{ dup { pop } { neg - 1 } ifelse }"))).1 = OutOfFuel.
Proof.
  split; [done|]. intros turns.
  apply (stuck_number_loops (fun _ => []) [0x20] second_block (js "- 1 } ifelse }")); [by repeat constructor|done|vm_compute; reflexivity|done].
Defined.
