(* ===== verification/PsTree.v ===== *)
(** * Calculator functions: from program to expressions

    [PSStackToTree] of pdf.worker.mjs runs a program on a stack of expressions
    and simplifies them on the way.  Expressions are shared, and compared by
    identity first, so that they live on a heap: the list of the nodes that were
    made, a node being known by its index.  A stack is the list of its nodes,
    the top first.  The sines, logarithms and powers of [Math], which the
    language leaves to the platform, are the class [MathLib]. *)
From stdpp Require Import gmap.
From Stdlib Require Import SpecFloat.
From S2P Require Import Prelude Number64 PsParser.
Local Open Scope js_scope.

Class MathLib := {
  math_sin : float -> float; math_cos : float -> float; math_log : float -> float; math_log10 : float -> float;
  math_pow : float -> float -> float; math_atan2 : float -> float -> float
}.

(** ** Values *)

(** The value of a constant: a number or a truth value. *)
Inductive jsval := Num (f : float) | Bool (b : bool).

(** The number that the operators of the language make of it, and [v | 0]. *)
Definition to_num (v : jsval) : float := match v with Num f => f | Bool b => if b then fone else fzero end.
Definition to_int (v : jsval) : Z := float_int (to_num v).
(** The value as a condition. *)
Definition truthy (v : jsval) : bool := match v with Num f => truthy_num f | Bool b => b end.
(** [a === b] *)
Definition strict_eq (a b : jsval) : bool :=
  match a, b with Num x, Num y => feq x y | Bool x, Bool y => eqb x y | _, _ => false end.
Definition is_number (v : jsval) (x : float) : bool := strict_eq v (Num x).
Definition is_bool (v : jsval) (b : bool) : bool := strict_eq v (Bool b).

Definition math_pi : float := lit 7074237752028440 (2 ^ 51).
Definition degrees : float := of_Z 180.

Section Fold.
Context `{MathLib}.

(** A number, when it is finite. *)
Definition finite_num (r : float) : option jsval := if isFinite r then Some (Num r) else None.

Definition _evalBinaryConst (op : TOKEN.t) (a b : jsval) : option jsval :=
  let x := to_num a in let y := to_num b in
  match op with
  | TOKEN.add => Some (Num (fadd x y))
  | TOKEN.sub => Some (Num (fsub x y))
  | TOKEN.mul => Some (Num (fmul x y))
  | TOKEN.div => Some (Num (if negb (is_number b fzero) then fdiv x y else fzero))
  | TOKEN.idiv => Some (Num (if negb (is_number b fzero) then math_trunc (fdiv x y) else fzero))
  | TOKEN.mod_ => Some (Num (if negb (is_number b fzero) then fsub x (fmul (math_trunc (fdiv x y)) y) else fzero))
  | TOKEN.exp => finite_num (math_pow x y)
  | TOKEN.atan =>
      let deg := fmul (math_atan2 x y) (fdiv degrees math_pi) in
      Some (Num (if flt deg fzero then fadd deg (of_Z 360) else deg))
  | TOKEN.eq => Some (Bool (strict_eq a b))
  | TOKEN.ne => Some (Bool (negb (strict_eq a b)))
  | TOKEN.gt => Some (Bool (flt y x))
  | TOKEN.ge => Some (Bool (fle y x))
  | TOKEN.lt => Some (Bool (flt x y))
  | TOKEN.le => Some (Bool (fle x y))
  | TOKEN.and => Some (match a with Bool t => if t then b else a | Num _ => Num (of_Z (js_or (to_int a .& to_int b) 0)) end)
  | TOKEN.or => Some (match a with Bool t => if t then a else b | Num _ => Num (of_Z (js_or (to_int a .| to_int b) 0)) end)
  | TOKEN.xor => Some (match a with Bool _ => Bool (negb (strict_eq a b)) | Num _ => Num (of_Z (js_or (to_int a .^ to_int b) 0)) end)
  | TOKEN.bitshift =>
      Some (Num (of_Z (if fle fzero y then js_or (to_int a .<< to_int b) 0 else js_or (to_int a .>> float_int (fopp y)) 0)))
  | TOKEN.min => Some (Num (math_min x y))
  | TOKEN.max => Some (Num (math_max x y))
  | _ => None
  end.

Definition _evalUnaryConst (op : TOKEN.t) (v : jsval) : option jsval :=
  let x := to_num v in
  match op with
  | TOKEN.abs => Some (Num (math_abs x))
  | TOKEN.neg => Some (Num (fopp x))
  | TOKEN.ceiling => Some (Num (math_ceil x))
  | TOKEN.floor => Some (Num (math_floor x))
  | TOKEN.round => Some (Num (math_round x))
  | TOKEN.truncate => Some (Num (math_trunc x))
  | TOKEN.sqrt => finite_num (math_sqrt x)
  | TOKEN.sin => Some (Num (math_sin (fdiv (fmul (fmod x (of_Z 360)) math_pi) degrees)))
  | TOKEN.cos => Some (Num (math_cos (fdiv (fmul (fmod x (of_Z 360)) math_pi) degrees)))
  | TOKEN.ln => finite_num (math_log x)
  | TOKEN.log => finite_num (math_log10 x)
  | TOKEN.cvi => Some (Num (math_trunc x))
  | TOKEN.cvr => Some v
  | TOKEN.not => Some (match v with Bool b => Bool (negb b) | Num _ => Num (of_Z (js_not (to_int v))) end)
  | _ => None
  end.
End Fold.

(** ** Nodes *)

Inductive PsValueType := numeric | boolean | unknown.
#[global] Instance PsValueType_eq : EqDecision PsValueType.
Proof. solve_decision. Defined.

Inductive PsNode :=
| PsArgNode (index : Z)
| PsConstNode (value : jsval)
| PsUnaryNode (op : TOKEN.t) (operand : nat) (valueType : PsValueType)
| PsBinaryNode (op : TOKEN.t) (first second : nat) (valueType : PsValueType)
| PsTernaryNode (cond then_ otherwise : nat) (valueType : PsValueType).

Abbreviation heap := (list PsNode).

(** [new] of a node *)
Definition alloc (node : PsNode) : M heap nat := fun h => (Ok (length h), h ++ [node]).

Definition value_type (h : heap) (n : nat) : PsValueType :=
  match h !! n with
  | Some (PsConstNode (Bool _)) => boolean
  | Some (PsConstNode (Num _)) | Some (PsArgNode _) => numeric
  | Some (PsUnaryNode _ _ t) | Some (PsBinaryNode _ _ _ t) | Some (PsTernaryNode _ _ _ t) => t
  | None => unknown
  end.

(** [node.value] of a constant. *)
Definition const_value (h : heap) (n : nat) : option jsval :=
  match h !! n with Some (PsConstNode v) => Some v | _ => None end.

(** [_nodesEqual]: an operand was made before its node, so that a node has fewer
    levels than its index plus one. *)
Fixpoint nodes_equal_loop (levels : nat) (h : heap) (a b : nat) : bool :=
  match levels with
  | O => false
  | S levels =>
      if Nat.eqb a b then true
      else
        match h !! a, h !! b with
        | Some (PsArgNode i), Some (PsArgNode j) => i =? j
        | Some (PsConstNode v), Some (PsConstNode w) => strict_eq v w
        | Some (PsUnaryNode op x _), Some (PsUnaryNode op' x' _) =>
            bool_decide (op = op') && nodes_equal_loop levels h x x'
        | Some (PsBinaryNode op x y _), Some (PsBinaryNode op' x' y' _) =>
            bool_decide (op = op') && nodes_equal_loop levels h x x' && nodes_equal_loop levels h y y'
        | Some (PsTernaryNode c t e _), Some (PsTernaryNode c' t' e' _) =>
            nodes_equal_loop levels h c c' && nodes_equal_loop levels h t t' && nodes_equal_loop levels h e e'
        | _, _ => false
        end
  end.
Definition _nodesEqual (h : heap) (a b : nat) : bool := nodes_equal_loop (S a) h a b.

Definition MAX_STACK_SIZE : nat := 100.

Definition _unaryValueType (op : TOKEN.t) (operandType : PsValueType) : PsValueType :=
  match op with TOKEN.not => operandType | _ => numeric end.

Definition _binaryValueType (op : TOKEN.t) (firstType secondType : PsValueType) : PsValueType :=
  match op with
  | TOKEN.eq | TOKEN.ne | TOKEN.gt | TOKEN.ge | TOKEN.lt | TOKEN.le => boolean
  | TOKEN.and | TOKEN.or | TOKEN.xor =>
      if decide (firstType = secondType /\ firstType <> unknown) then firstType else unknown
  | _ => numeric
  end.

(** ** Simplified nodes *)

Definition binaryOps (op : TOKEN.t) : bool := bool_decide (op ∈
  [TOKEN.add; TOKEN.sub; TOKEN.mul; TOKEN.div; TOKEN.idiv; TOKEN.mod_; TOKEN.exp; TOKEN.atan; TOKEN.eq; TOKEN.ne; TOKEN.gt;
   TOKEN.ge; TOKEN.lt; TOKEN.le; TOKEN.and; TOKEN.or; TOKEN.xor; TOKEN.bitshift]).
Definition unaryOps (op : TOKEN.t) : bool := bool_decide (op ∈
  [TOKEN.abs; TOKEN.neg; TOKEN.ceiling; TOKEN.floor; TOKEN.round; TOKEN.truncate; TOKEN.sqrt; TOKEN.sin; TOKEN.cos; TOKEN.ln;
   TOKEN.log; TOKEN.cvi; TOKEN.cvr; TOKEN.not]).
Definition idempotentUnary (op : TOKEN.t) : bool := bool_decide (op ∈
  [TOKEN.abs; TOKEN.ceiling; TOKEN.cvi; TOKEN.cvr; TOKEN.floor; TOKEN.round; TOKEN.truncate]).
Definition negatedComparison (op : TOKEN.t) : option TOKEN.t :=
  match op with
  | TOKEN.eq => Some TOKEN.ne | TOKEN.ne => Some TOKEN.eq
  | TOKEN.lt => Some TOKEN.ge | TOKEN.le => Some TOKEN.gt
  | TOKEN.gt => Some TOKEN.le | TOKEN.ge => Some TOKEN.lt
  | _ => None
  end.

Section Make.
Context `{MathLib}.

(** Both operands are constants. *)
Definition fold_binary (h : heap) (op : TOKEN.t) (first second : nat) : option jsval :=
  match const_value h first, const_value h second with
  | Some f, Some s => _evalBinaryConst op s f
  | _, _ => None
  end.

(** The operands are equal. *)
Definition equal_operands (h : heap) (op : TOKEN.t) (first : nat) : option (M heap nat) :=
  match op with
  | TOKEN.sub => Some (alloc (PsConstNode (Num fzero)))
  | TOKEN.xor => Some (alloc (PsConstNode (if decide (value_type h first = boolean) then Bool false else Num fzero)))
  | TOKEN.and | TOKEN.or | TOKEN.min | TOKEN.max => Some (mret first)
  | TOKEN.eq | TOKEN.ge | TOKEN.le => Some (alloc (PsConstNode (Bool true)))
  | TOKEN.ne | TOKEN.gt | TOKEN.lt => Some (alloc (PsConstNode (Bool false)))
  | _ => None
  end.

(** The calls of [_makeBinary] and [_makeUnary] by themselves and each other. *)
Section Rules.
Context (makeBinary : TOKEN.t -> nat -> nat -> M heap nat) (makeUnary : TOKEN.t -> nat -> M heap nat).

(** [second] is an [op'] node over a constant that passes [test]. *)
Definition clamps (h : heap) (op' : TOKEN.t) (test : jsval -> bool) (second : nat) : bool :=
  match h !! second with
  | Some (PsBinaryNode o f _ _) => bool_decide (o = op') && match const_value h f with Some c => test c | None => false end
  | _ => false
  end.

(** [first] is the constant [b]. *)
Definition first_const (h : heap) (op : TOKEN.t) (b : jsval) (first second : nat) : option (M heap nat) :=
  match op with
  | TOKEN.add | TOKEN.sub => if is_number b fzero then Some (mret second) else None
  | TOKEN.mul =>
      if is_number b fone then Some (mret second)
      else if is_number b fzero then Some (mret first)
      else if is_number b (of_Z (-1)) then Some (makeUnary TOKEN.neg second)
      else None
  | TOKEN.div =>
      if negb (is_number b fzero)
      then Some (c <- alloc (PsConstNode (Num (fdiv fone (to_num b))));; makeBinary TOKEN.mul c second)
      else None
  | TOKEN.idiv => if is_number b fone then Some (mret second) else None
  | TOKEN.exp =>
      if is_number b fone then Some (mret second)
      else if is_number b (of_Z (-1)) then Some (c <- alloc (PsConstNode (Num fone));; makeBinary TOKEN.div second c)
      else if is_number b (lit 1 2) then Some (makeUnary TOKEN.sqrt second)
      else if is_number b (lit 1 4) then Some (sqrtOnce <- makeUnary TOKEN.sqrt second;; makeUnary TOKEN.sqrt sqrtOnce)
      else if is_number b (of_Z 2) then Some (makeBinary TOKEN.mul second second)
      else if is_number b (of_Z 3) then Some (square <- makeBinary TOKEN.mul second second;; makeBinary TOKEN.mul square second)
      else if is_number b (of_Z 4) then Some (square <- makeBinary TOKEN.mul second second;; makeBinary TOKEN.mul square square)
      else if is_number b fzero then Some (alloc (PsConstNode (Num fone)))
      else None
  | TOKEN.and => if is_bool b true then Some (mret second) else if is_bool b false then Some (mret first) else None
  | TOKEN.or => if is_bool b false then Some (mret second) else if is_bool b true then Some (mret first) else None
  | TOKEN.min => if clamps h TOKEN.max (fun c => fle (to_num b) (to_num c)) second then Some (mret first) else None
  | TOKEN.max => if clamps h TOKEN.min (fun c => fle (to_num c) (to_num b)) second then Some (mret first) else None
  | _ => None
  end.

(** [second] is the constant [a]. *)
Definition second_const (op : TOKEN.t) (a : jsval) (first second : nat) : option (M heap nat) :=
  match op with
  | TOKEN.add => if is_number a fzero then Some (mret first) else None
  | TOKEN.sub => if is_number a fzero then Some (makeUnary TOKEN.neg first) else None
  | TOKEN.mul =>
      if is_number a fone then Some (mret first)
      else if is_number a fzero then Some (mret second)
      else if is_number a (of_Z (-1)) then Some (makeUnary TOKEN.neg first)
      else None
  | TOKEN.and => if is_bool a true then Some (mret first) else if is_bool a false then Some (mret second) else None
  | TOKEN.or => if is_bool a false then Some (mret first) else if is_bool a true then Some (mret second) else None
  | _ => None
  end.

(** What [_makeBinary] does with operands that are not both constant. *)
Definition simplify_binary (h : heap) (op : TOKEN.t) (first second : nat) : option (M heap nat) :=
  match (if _nodesEqual h first second then equal_operands h op first else None) with
  | Some m => Some m
  | None =>
      match b ← const_value h first; first_const h op b first second with
      | Some m => Some m
      | None => a ← const_value h second; second_const op a first second
      end
  end.

(** What [_makeUnary] does with an operand that is not constant. *)
Definition simplify_unary (h : heap) (op : TOKEN.t) (operand : nat) : option (M heap nat) :=
  match op, h !! operand with
  | TOKEN.not, Some (PsBinaryNode o first second _) =>
      negated ← negatedComparison o; Some (alloc (PsBinaryNode negated first second boolean))
  | TOKEN.neg, Some (PsBinaryNode TOKEN.sub first second _) => Some (makeBinary TOKEN.sub second first)
  | TOKEN.neg, Some (PsUnaryNode TOKEN.neg inner _) => Some (mret inner)
  | TOKEN.not, Some (PsUnaryNode TOKEN.not inner _) => Some (mret inner)
  | TOKEN.abs, Some (PsUnaryNode TOKEN.neg inner _) => Some (makeUnary TOKEN.abs inner)
  | _, Some (PsUnaryNode o _ _) => if idempotentUnary op && bool_decide (op = o) then Some (mret operand) else None
  | _, _ => None
  end.
End Rules.

Fixpoint make_binary (turns : nat) (op : TOKEN.t) (first second : nat) : M heap nat :=
  match turns with
  | O => out_of_fuel
  | S turns =>
      h <- get;;
      match fold_binary h op first second with
      | Some v => alloc (PsConstNode v)
      | None =>
          match simplify_binary (make_binary turns) (make_unary turns) h op first second with
          | Some m => m
          | None => alloc (PsBinaryNode op first second (_binaryValueType op (value_type h first) (value_type h second)))
          end
      end
  end
with make_unary (turns : nat) (op : TOKEN.t) (operand : nat) : M heap nat :=
  match turns with
  | O => out_of_fuel
  | S turns =>
      h <- get;;
      match v ← const_value h operand; _evalUnaryConst op v with
      | Some v => alloc (PsConstNode v)
      | None =>
          match simplify_unary (make_binary turns) (make_unary turns) h op operand with
          | Some m => m
          | None => alloc (PsUnaryNode op operand (_unaryValueType op (value_type h operand)))
          end
      end
  end.

(** A call goes down to the operands of its operand within two calls, and the
    powers and divisions are at most four calls above that. *)
Definition enough (h : heap) : nat := 2 * length h + 10.
Definition _makeBinary (op : TOKEN.t) (first second : nat) : M heap nat := fun h => make_binary (enough h) op first second h.
Definition _makeUnary (op : TOKEN.t) (operand : nat) : M heap nat := fun h => make_unary (enough h) op operand h.

Definition _makeTernary (cond then_ otherwise : nat) : M heap nat :=
  h <- get;;
  let node := alloc (PsTernaryNode cond then_ otherwise
    (if decide (value_type h then_ = value_type h otherwise) then value_type h then_ else unknown)) in
  match const_value h cond with
  | Some c => mret (if truthy c then then_ else otherwise)
  | None =>
      if _nodesEqual h then_ otherwise then mret then_
      else
        match const_value h then_, const_value h otherwise with
        | Some (Bool true), Some (Bool false) => mret cond
        | Some (Bool false), Some (Bool true) => _makeUnary TOKEN.not cond
        | _, _ =>
            match h !! cond with
            | Some (PsBinaryNode cop cf cs _) =>
                let straight := _nodesEqual h then_ cf && _nodesEqual h otherwise cs in
                let crossed := _nodesEqual h then_ cs && _nodesEqual h otherwise cf in
                match cop with
                | TOKEN.gt | TOKEN.ge =>
                    if straight then _makeBinary TOKEN.min cf cs else if crossed then _makeBinary TOKEN.max cf cs else node
                | TOKEN.lt | TOKEN.le =>
                    if straight then _makeBinary TOKEN.max cf cs else if crossed then _makeBinary TOKEN.min cf cs else node
                | _ => node
                end
            | _ => node
            end
        end
  end.
End Make.

(** ** Shared nodes *)

(** [#markShared]: how often a node other than an argument or a constant is
    met; its operands are visited the first time. *)
Fixpoint visit (levels : nat) (h : heap) (node : nat) (refCount : gmap nat nat) : gmap nat nat :=
  match levels with
  | O => refCount
  | S levels =>
      match h !! node with
      | None | Some (PsArgNode _) | Some (PsConstNode _) => refCount
      | Some n =>
          let prev := default 0%nat (refCount !! node) in
          let refCount := <[node := S prev]> refCount in
          if Nat.ltb 0 prev then refCount
          else
            match n with
            | PsUnaryNode _ operand _ => visit levels h operand refCount
            | PsBinaryNode _ first second _ => visit levels h second (visit levels h first refCount)
            | PsTernaryNode cond then_ otherwise _ =>
                visit levels h otherwise (visit levels h then_ (visit levels h cond refCount))
            | _ => refCount
            end
      end
  end.
(** [node.shared] of the nodes that are met more than once. *)
Definition markShared (h : heap) (outputs : list nat) : gmap nat nat :=
  filter (fun e : nat * nat => (1 < e.2)%nat) (fold_left (fun rc n => visit (S n) h n rc) outputs ∅).

(** What [evaluate] returns: the nodes of the stack from the bottom on, the
    nodes they are made of and those that are shared. *)
Record Tree := mkTree { nodes : heap; shared : gmap nat nat; outputs : list nat }.

(** ** The program on a stack of nodes *)

Section Evaluate.
Context `{MathLib}.

(** [_failed] ends the evaluation; [evaluate] turns it into [null]. *)
Definition failed {A} : M heap A := throw (JsError "_failed").
Definition require (ok : bool) : M heap unit := if ok then mret tt else failed.

(** The value of a constant, [| 0]; other nodes make the evaluation fail. *)
Definition const_int (n : nat) : M heap Z :=
  h <- get;; match const_value h n with Some v => mret (to_int v) | None => failed end.

(** A push that keeps within MAX_STACK_SIZE. *)
Definition push_checked (n : nat) (stack : list nat) : M heap (list nat) :=
  require (Nat.leb (S (length stack)) MAX_STACK_SIZE) ;;; mret (n :: stack).

Definition _evalOp (op : TOKEN.t) (stack : list nat) : M heap (list nat) :=
  if binaryOps op then
    match stack with
    | first :: second :: stack => n <- _makeBinary op first second;; mret (n :: stack)
    | _ => failed
    end
  else if unaryOps op then
    match stack with
    | operand :: stack => n <- _makeUnary op operand;; mret (n :: stack)
    | _ => failed
    end
  else
    match op, stack with
    | TOKEN.true, _ => n <- alloc (PsConstNode (Bool true));; push_checked n stack
    | TOKEN.false, _ => n <- alloc (PsConstNode (Bool false));; push_checked n stack
    | TOKEN.dup, n :: _ => push_checked n stack
    | TOKEN.exch, a :: b :: stack => mret (b :: a :: stack)
    | TOKEN.pop, _ :: stack => mret stack
    | TOKEN.copy, nNode :: stack =>
        n <- const_int nNode;;
        if n =? 0 then mret stack
        else if (n <? 0) || (len stack <? n) then failed
        else
          require (Nat.leb (Z.to_nat n + length stack) MAX_STACK_SIZE) ;;;
          mret (take (Z.to_nat n) stack ++ stack)
    | TOKEN.index, nNode :: stack =>
        n <- const_int nNode;;
        if (n <? 0) || (len stack <=? n) then failed
        else match stack !! Z.to_nat n with Some m => mret (m :: stack) | None => failed end
    | TOKEN.roll, jNode :: nNode :: stack =>
        h <- get;;
        match const_value h nNode, const_value h jNode with
        | Some nv, Some jv =>
            let n := to_int nv in
            if n =? 0 then mret stack
            else if (n <? 0) || (len stack <? n) then failed
            else
              let j := Z.to_nat (Z.rem (Z.rem (to_int jv) n + n) n) in
              let slice := take (Z.to_nat n) stack in
              mret (drop j slice ++ take j slice ++ drop (Z.to_nat n) stack)
        | _, _ => failed
        end
    | _, _ => failed
    end.

(** The code fills up a stack when two branches leave different heights.  To
    tell the programs where it never does, there is a [strict] evaluation, which
    fails instead; the one of the code is [evaluate] below. *)
Context (strict : bool).

(** The shorter stack is filled up with one zero, on the top. *)
Definition pad (zero : nat) (height : nat) (stack : list nat) : list nat := replicate (height - length stack) zero ++ stack.
Definition even_out (trueStack falseStack : list nat) : M heap (list nat * list nat) :=
  if Nat.eqb (length trueStack) (length falseStack) then mret (trueStack, falseStack)
  else if strict then failed
  else
    zero <- alloc (PsConstNode (Num fzero));;
    mret (pad zero (length falseStack) trueStack, pad zero (length trueStack) falseStack).

(** The stacks of the branches become one, from the bottom. *)
Fixpoint merge (changed_only : bool) (cond : nat) (trueStack falseStack : list nat) : M heap (list nat) :=
  match trueStack, falseStack with
  | t :: trueStack, f :: falseStack =>
      stack <- merge changed_only cond trueStack falseStack;;
      n <- (if changed_only && Nat.eqb t f then mret t else _makeTernary cond t f);;
      mret (n :: stack)
  | _, _ => mret []
  end.

(** [_evalBlockFrom]: the instructions from one on. *)
Fixpoint _evalBlock (block : PsBlock) (stack : list nat) : M heap (list nat) :=
  match block with
  | Done => mret stack
  | Then (PsNumber value) rest =>
      n <- alloc (PsConstNode (Num value));;
      stack <- push_checked n stack;;
      _evalBlock rest stack
  | Then (PsOperator op) rest => stack <- _evalOp op stack;; _evalBlock rest stack
  | Then (PsIf then_) rest =>
      match stack with
      | [] => failed
      | cond :: saved =>
          stack <- _evalBlock then_ saved;;
          if Nat.eqb (length stack) (length saved) then
            stack <- merge true cond stack saved;; _evalBlock rest stack
          else if Nat.ltb (length saved) (length stack) then
            h <- get;;
            match const_value h cond with
            | Some c => _evalBlock rest (if negb (truthy c) then saved else stack)
            | None =>
                trueStack <- _evalBlock rest stack;;
                falseStack <- _evalBlock rest saved;;
                stacks <- even_out trueStack falseStack;;
                merge false cond stacks.1 stacks.2
            end
          else failed
      end
  | Then (PsIfElse then_ otherwise) rest =>
      match stack with
      | [] => failed
      | cond :: snapshot =>
          thenStack <- _evalBlock then_ snapshot;;
          elseStack <- _evalBlock otherwise snapshot;;
          stacks <- even_out thenStack elseStack;;
          stack <- merge false cond stacks.1 stacks.2;;
          _evalBlock rest stack
      end
  end.

(** The arguments on the stack. *)
Fixpoint push_args (i : Z) (count : nat) (stack : list nat) : M heap (list nat) :=
  match count with
  | O => mret stack
  | S count => n <- alloc (PsArgNode i);; push_args (i + 1) count (n :: stack)
  end.

Definition evaluate_with (program : PsProgram) (numInputs : nat) : res (option Tree) :=
  if Nat.ltb MAX_STACK_SIZE numInputs then Ok None
  else
    match (stack <- push_args 0 numInputs [];; _evalBlock (body program) stack) [] with
    | (Ok stack, h) => let outputs := rev stack in Ok (Some (mkTree h (markShared h outputs) outputs))
    | (Throw _, _) => Ok None
    | (OutOfFuel, _) => OutOfFuel
    end.
End Evaluate.

(** [evaluate] *)
Definition evaluate `{MathLib} : PsProgram -> nat -> res (option Tree) := evaluate_with false.

#[local] Instance no_math : MathLib := {| math_sin := id; math_cos := id; math_log := id; math_log10 := id;
  math_pow := fun x _ => x; math_atan2 := fun x _ => x |}.

(** The larger of two numbers and its square. *)
Example evaluate_sample :
  evaluate (mkPsProgram (block_of [PsNumber (of_Z 2); PsOperator TOKEN.copy; PsOperator TOKEN.gt;
    PsIfElse (block_of [PsOperator TOKEN.pop]) (block_of [PsOperator TOKEN.exch; PsOperator TOKEN.pop]);
    PsOperator TOKEN.dup; PsNumber (of_Z 2); PsOperator TOKEN.exp])) 2 =
  Ok (Some (mkTree [PsArgNode 0; PsArgNode 1; PsConstNode (Num (of_Z 2)); PsBinaryNode TOKEN.gt 1 0 boolean;
    PsBinaryNode TOKEN.max 1 0 numeric; PsConstNode (Num (of_Z 2)); PsBinaryNode TOKEN.mul 4 4 numeric]
    {[4%nat := 3%nat]} [4%nat; 6%nat])).
Proof. vm_compute. done. Qed.
