(* ===== verification/PsCompiler.v ===== *)
(** * Calculator functions: from expressions to code, and its execution

    [PsJsCompiler] of pdf.worker.mjs turns expressions into the code of a stack
    machine and runs it.  The code is an array of numbers: opcodes, slots and
    targets are integers, constants and bounds are doubles.  The two typed
    arrays of the machine belong to the class and keep their contents from one
    run to the next. *)
From stdpp Require Import gmap.
From Stdlib Require Import SpecFloat.
From S2P Require Import Prelude Number64 PsParser PsTree.
Local Open Scope js_scope.

Module OP.
Inductive t : Set :=
| ARG | CONST | STORE | IF | JUMP | ABS | NEG | CEIL | FLOOR | ROUND | TRUNC | NOT_B | NOT_N | SQRT | SIN | COS | LN
| LOG10 | CVI | SHIFT | ADD | SUB | MUL | DIV | IDIV | MOD | POW | EQ | NE | GT | GE | LT | LE | AND | OR | XOR | ATAN
| MIN | MAX | TEE_TMP | LOAD_TMP.

#[global] Instance t_eq : EqDecision t.
Proof. solve_decision. Defined.

(** In the order of their numbers. *)
Definition all : list t :=
  [ARG; CONST; STORE; IF; JUMP; ABS; NEG; CEIL; FLOOR; ROUND; TRUNC; NOT_B; NOT_N; SQRT; SIN; COS; LN; LOG10; CVI; SHIFT;
   ADD; SUB; MUL; DIV; IDIV; MOD; POW; EQ; NE; GT; GE; LT; LE; AND; OR; XOR; ATAN; MIN; MAX; TEE_TMP; LOAD_TMP].
Definition code (op : t) : Z := match list_find (fun o => o = op) all with Some (i, _) => Z.of_nat i | None => -1 end.
Definition of_code (z : Z) : option t := arr_get all z.
End OP.

(** ** Code *)

Inductive cell := Int (z : Z) | Dbl (f : float).

Record Compiler := mkCompiler { ir : list cell; _tmpMap : gmap nat Z; _nextTmp : Z }.
Definition new_Compiler : Compiler := mkCompiler [] ∅ 0.

(** [this.ir.push(...)] *)
Definition emit (cells : list cell) : M Compiler unit :=
  modify (fun c => mkCompiler (ir c ++ cells) (_tmpMap c) (_nextTmp c)).
Definition emit_op (op : OP.t) : M Compiler unit := emit [Int (OP.code op)].
(** [this.ir[patch] = this.ir.length] *)
Definition patch_here (patch : Z) : M Compiler unit :=
  modify (fun c => mkCompiler (arr_set (ir c) patch (Int (len (ir c)))) (_tmpMap c) (_nextTmp c)).
Definition here : M Compiler Z := gets (fun c => len (ir c)).
(** [return false], which [compile] turns into [null]. *)
Definition unsupported : M Compiler unit := throw (JsError "false").

(** The instruction of a unary operator. *)
Definition unary_code (op : TOKEN.t) (valueType : PsValueType) : option OP.t :=
  match op with
  | TOKEN.abs => Some OP.ABS | TOKEN.neg => Some OP.NEG | TOKEN.ceiling => Some OP.CEIL | TOKEN.floor => Some OP.FLOOR
  | TOKEN.round => Some OP.ROUND | TOKEN.truncate => Some OP.TRUNC | TOKEN.sqrt => Some OP.SQRT | TOKEN.sin => Some OP.SIN
  | TOKEN.cos => Some OP.COS | TOKEN.ln => Some OP.LN | TOKEN.log => Some OP.LOG10 | TOKEN.cvi => Some OP.CVI
  | TOKEN.not => match valueType with boolean => Some OP.NOT_B | numeric => Some OP.NOT_N | unknown => None end
  | _ => None
  end.

(** The instruction of a binary operator. *)
Definition binary_code (op : TOKEN.t) : option OP.t :=
  match op with
  | TOKEN.add => Some OP.ADD | TOKEN.sub => Some OP.SUB | TOKEN.mul => Some OP.MUL | TOKEN.div => Some OP.DIV
  | TOKEN.idiv => Some OP.IDIV | TOKEN.mod_ => Some OP.MOD | TOKEN.exp => Some OP.POW | TOKEN.eq => Some OP.EQ
  | TOKEN.ne => Some OP.NE | TOKEN.gt => Some OP.GT | TOKEN.ge => Some OP.GE | TOKEN.lt => Some OP.LT | TOKEN.le => Some OP.LE
  | TOKEN.and => Some OP.AND | TOKEN.or => Some OP.OR | TOKEN.xor => Some OP.XOR | TOKEN.atan => Some OP.ATAN
  | TOKEN.min => Some OP.MIN | TOKEN.max => Some OP.MAX
  | _ => None
  end.

Definition emit_code (code : option OP.t) : M Compiler unit :=
  match code with Some op => emit_op op | None => unsupported end.

Section Compile.
Context (tree : Tree).

(** [_compileTernary], given the calls for its parts. *)
Definition _compileTernary (cond then_ otherwise : M Compiler unit) : M Compiler unit :=
  cond ;;;
  emit [Int (OP.code OP.IF); Int 0] ;;;
  n <- here;;
  let ifPatch := n - 1 in
  then_ ;;;
  emit [Int (OP.code OP.JUMP); Int 0] ;;;
  n <- here;;
  let jumpPatch := n - 1 in
  patch_here ifPatch ;;;
  otherwise ;;;
  patch_here jumpPatch.

(** [_compileNodeImpl], [compile] being [_compileNode] for the operands. *)
Definition _compileNodeImpl (compile : nat -> M Compiler unit) (node : nat) : M Compiler unit :=
  match nodes tree !! node with
  | Some (PsArgNode index) => emit [Int (OP.code OP.ARG); Int index]
  | Some (PsConstNode v) => emit [Int (OP.code OP.CONST); Dbl (to_num v)]
  | Some (PsUnaryNode op operand valueType) =>
      compile operand ;;;
      if decide (op = TOKEN.cvr) then mret tt else emit_code (unary_code op valueType)
  | Some (PsBinaryNode TOKEN.bitshift first second _) =>
      match const_value (nodes tree) first with
      | Some (Num amount) =>
          if isInteger amount then compile second ;;; emit [Int (OP.code OP.SHIFT); Dbl amount] else unsupported
      | _ => unsupported
      end
  | Some (PsBinaryNode op first second _) => compile second ;;; compile first ;;; emit_code (binary_code op)
  | Some (PsTernaryNode cond then_ otherwise _) => _compileTernary (compile cond) (compile then_) (compile otherwise)
  | None => unsupported
  end.

(** [_compileNode]: operands were made before their node, so that there are
    fewer levels than the index of the node plus one. *)
Fixpoint compile_node (levels : nat) (node : nat) : M Compiler unit :=
  match levels with
  | O => out_of_fuel
  | S levels =>
      match shared tree !! node with
      | None => _compileNodeImpl (compile_node levels) node
      | Some _ =>
          c <- get;;
          match _tmpMap c !! node with
          | Some cached => emit [Int (OP.code OP.LOAD_TMP); Int cached]
          | None =>
              _compileNodeImpl (compile_node levels) node ;;;
              c <- get;;
              put (mkCompiler (ir c) (<[node := _nextTmp c]> (_tmpMap c)) (_nextTmp c + 1)) ;;;
              emit [Int (OP.code OP.TEE_TMP); Int (_nextTmp c)]
          end
      end
  end.
Definition _compileNode (node : nat) : M Compiler unit := compile_node (S node) node.

(** The loop of [compile] over the outputs, from the [i]-th on. *)
Fixpoint compile_outputs (range : list float) (i : Z) (outs : list nat) : M Compiler unit :=
  match outs with
  | [] => mret tt
  | out :: outs =>
      _compileNode out ;;;
      emit [Int (OP.code OP.STORE); Int i; Dbl (default S754_nan (arr_get range (i * 2)));
            Dbl (default S754_nan (arr_get range (i * 2 + 1)))] ;;;
      compile_outputs range (i + 1) outs
  end.
End Compile.

(** [compile]: [None] is [null]. *)
Definition compile `{MathLib} (domain range : list float) (program : PsProgram) : res (option (list cell)) :=
  let nIn := len domain .>> 1 in
  let nOut := len range .>> 1 in
  match evaluate program (Z.to_nat nIn) with
  | Ok (Some tree) =>
      if len (outputs tree) <? nOut then Ok None
      else
        match compile_outputs tree range 0 (take (Z.to_nat nOut) (outputs tree)) new_Compiler with
        | (Ok _, c) => Ok (Some (ir c))
        | (Throw _, _) => Ok None
        | (OutOfFuel, _) => OutOfFuel
        end
  | Ok None => Ok None
  | Throw e => Throw e
  | OutOfFuel => OutOfFuel
  end.

(** ** Numbers of the machine *)

Definition MathClamp (v lo hi : float) : float := math_min (math_max v lo) hi.

Definition _DEG_TO_RAD : float := fdiv math_pi degrees.
Definition _RAD_TO_DEG : float := fdiv degrees math_pi.

Definition num_of_bool (b : bool) : float := if b then fone else fzero.

Section Numbers.
Context `{MathLib}.

(** What an instruction does to the number on the top. *)
Definition exec_unary (op : OP.t) (x : float) : float :=
  match op with
  | OP.ABS => math_abs x
  | OP.NEG => fopp x
  | OP.CEIL => math_ceil x
  | OP.FLOOR => math_floor x
  | OP.ROUND => math_floor (fadd x (lit 1 2))
  | OP.TRUNC => math_trunc x
  | OP.NOT_B => if negb (feq x fzero) then fzero else fone
  | OP.NOT_N => of_Z (js_not (js_or (float_int x) 0))
  | OP.SQRT => math_sqrt x
  | OP.SIN => math_sin (fmul (fmod x (of_Z 360)) _DEG_TO_RAD)
  | OP.COS => math_cos (fmul (fmod x (of_Z 360)) _DEG_TO_RAD)
  | OP.LN => math_log x
  | OP.LOG10 => math_log10 x
  | OP.CVI => of_Z (float_int (math_trunc x))
  | _ => x
  end.

(** What it does to the two numbers on the top, [b] being the upper one. *)
Definition exec_binary (op : OP.t) (a b : float) : float :=
  match op with
  | OP.ADD => fadd a b
  | OP.SUB => fsub a b
  | OP.MUL => fmul a b
  | OP.DIV => if negb (feq b fzero) then fdiv a b else fzero
  | OP.IDIV => if negb (feq b fzero) then math_trunc (fdiv a b) else fzero
  | OP.MOD => if negb (feq b fzero) then fmod a b else fzero
  | OP.POW => math_pow a b
  | OP.EQ => num_of_bool (feq a b)
  | OP.NE => num_of_bool (negb (feq a b))
  | OP.GT => num_of_bool (flt b a)
  | OP.GE => num_of_bool (fle b a)
  | OP.LT => num_of_bool (flt a b)
  | OP.LE => num_of_bool (fle a b)
  | OP.AND => of_Z (float_int a .& float_int b)
  | OP.OR => of_Z (float_int a .| float_int b)
  | OP.XOR => of_Z (float_int a .^ float_int b)
  | OP.ATAN =>
      let deg := fmul (math_atan2 a b) _RAD_TO_DEG in
      if flt deg fzero then fadd deg (of_Z 360) else deg
  | OP.MIN => math_min a b
  | OP.MAX => math_max a b
  | _ => a
  end.

Definition exec_shift (amt x : float) : float :=
  let v := float_int x in
  of_Z (if flt fzero amt then v .<< float_int amt
        else if flt amt fzero then v .>> float_int (fopp amt)
        else v).
End Numbers.

(** ** The machine *)

Record Machine := mkMachine {
  ip : Z; sp : Z;
  stack : list float;  (* [#stack] *)
  tmp : list float;    (* [#tmp] *)
  writes : list (Z * float)  (* the assignments to [dest], in order *)
}.

(** An element of a typed array of doubles as an operand. *)
Definition slot (l : list float) (i : Z) : float := default S754_nan (arr_get l i).

(** [stack[sp++] = v], [stack[sp - 1] = f(stack[sp - 1])], and the same with
    [b = stack[--sp]] before it. *)
Definition push (v : float) (m : Machine) : Machine :=
  mkMachine (ip m) (sp m + 1) (arr_set (stack m) (sp m) v) (tmp m) (writes m).
Definition on_top (f : float -> float) (m : Machine) : Machine :=
  mkMachine (ip m) (sp m) (arr_set (stack m) (sp m - 1) (f (slot (stack m) (sp m - 1)))) (tmp m) (writes m).
Definition on_two (f : float -> float -> float) (m : Machine) : Machine :=
  let b := slot (stack m) (sp m - 1) in
  on_top (fun a => f a b) (mkMachine (ip m) (sp m - 1) (stack m) (tmp m) (writes m)).
Definition at_ip (i : Z) (m : Machine) : Machine := mkMachine i (sp m) (stack m) (tmp m) (writes m).

Section Execute.
Context `{MathLib} (code : list cell) (src : list float) (srcOffset destOffset : Z).

(** [ir[ip]] as a number and as an integer. *)
Definition cell_num (i : Z) : float :=
  match arr_get code i with Some (Int z) => of_Z z | Some (Dbl f) => f | None => S754_nan end.
Definition cell_int (i : Z) : Z :=
  match arr_get code i with Some (Int z) => to_int32 z | Some (Dbl f) => float_int f | None => 0 end.
(** A target: [compile] only writes integers there. *)
Definition cell_target (i : Z) : Z :=
  match arr_get code i with Some (Int z) => z | Some (Dbl f) => float_int f | None => len code end.

(** One turn of the loop of [execute]. *)
Definition execute_step (m : Machine) : Machine :=
  let i := ip m + 1 in
  let one := at_ip i m in
  let two := at_ip (i + 1) m in
  match OP.of_code (cell_int (ip m)) with
  | None => one
  | Some op =>
      match op with
      | OP.ARG => push (slot src (srcOffset + cell_int i)) two
      | OP.CONST => push (cell_num i) two
      | OP.STORE =>
          mkMachine (i + 3) (sp m - 1) (stack m) (tmp m)
            (writes m ++ [(destOffset + cell_int i,
              MathClamp (slot (stack m) (sp m - 1)) (cell_num (i + 1)) (cell_num (i + 2)))])
      | OP.IF =>
          let tgt := cell_target i in
          mkMachine (if feq (slot (stack m) (sp m - 1)) fzero then tgt else i + 1) (sp m - 1) (stack m) (tmp m) (writes m)
      | OP.JUMP => at_ip (cell_target i) m
      | OP.SHIFT => on_top (exec_shift (cell_num i)) two
      | OP.TEE_TMP =>
          mkMachine (i + 1) (sp m) (stack m) (arr_set (tmp m) (cell_int i) (slot (stack m) (sp m - 1))) (writes m)
      | OP.LOAD_TMP => push (slot (tmp m) (cell_int i)) two
      | OP.ABS | OP.NEG | OP.CEIL | OP.FLOOR | OP.ROUND | OP.TRUNC | OP.NOT_B | OP.NOT_N | OP.SQRT | OP.SIN | OP.COS
      | OP.LN | OP.LOG10 | OP.CVI => on_top (exec_unary op) one
      | _ => on_two (exec_binary op) one
      end
  end.

Fixpoint execute_loop (turns : nat) (m : Machine) : res Machine :=
  if ip m <? len code then
    match turns with
    | O => OutOfFuel
    | S turns => execute_loop turns (execute_step m)
    end
  else Ok m.

(** [execute]: code that [compile] made only jumps forward, so that there are
    at most as many turns as cells.  [stack0] and [tmp0] is what the arrays
    hold from the last run. *)
Definition execute (stack0 tmp0 : list float) : res Machine :=
  execute_loop (length code) (mkMachine 0 0 stack0 tmp0 []).
End Execute.
