(* ===== verification/PsInterpreter.v ===== *)
(** * Calculator functions: the interpreter

    [PSStackBasedInterpreter] of pdf.worker.mjs runs the programs that the
    compiler gives up, on a typed array of a hundred doubles; and
    [buildPostScriptJsFunction], which chooses between the two. *)
From Stdlib Require Import SpecFloat.
From S2P Require Import Prelude Number64 PsParser PsTree PsCompiler.
Local Open Scope js_scope.

Record Interp := mkInterp { istack : list float; isp : Z }.

(** A number without its fraction, when it is finite. *)
Definition whole (x : float) : option Z :=
  match x with
  | S754_zero _ => Some 0
  | S754_finite s m e => Some (trunc_Z s m e)
  | _ => None
  end.
Definition is_plus_infinity (x : float) : bool := match x with S754_infinity false => true | _ => false end.

Section Interpreter.
Context `{MathLib}.

(** [#push]: a full stack stays as it is. *)
Definition ipush (v : float) : M Interp unit :=
  modify (fun m => if isp m <? len (istack m) then mkInterp (arr_set (istack m) (isp m) v) (isp m + 1) else m).
(** [stack[--this.#sp]] *)
Definition ipop : M Interp float := fun m => (Ok (slot (istack m) (isp m - 1)), mkInterp (istack m) (isp m - 1)).
Definition top : M Interp float := gets (fun m => slot (istack m) (isp m - 1)).
(** [stack[this.#sp - 1] = v] *)
Definition set_top (v : float) : M Interp unit := modify (fun m => mkInterp (arr_set (istack m) (isp m - 1) v) (isp m)).

Definition unary (f : float -> float) : M Interp unit := v <- top;; set_top (f v).
Definition binary (f : float -> float -> float) : M Interp unit := b <- ipop;; a <- top;; set_top (f a b).

Fixpoint copy_loop (count : nat) (base k : Z) : M Interp unit :=
  match count with
  | O => mret tt
  | S count => v <- gets (fun m => slot (istack m) (base + k));; ipush v ;;; copy_loop count base (k + 1)
  end.

(** The loop of [roll]; [shift] is [None] when [mod] is [NaN]. *)
Fixpoint roll_loop (count : nat) (sub : list float) (base n : Z) (shift : option Z) (k : Z) : M Interp unit :=
  match count with
  | O => mret tt
  | S count =>
      let v := match shift with Some s => slot sub (Z.rem (k - s + n) n) | None => S754_nan end in
      modify (fun m => mkInterp (arr_set (istack m) (base + k) v) (isp m)) ;;;
      roll_loop count sub base n shift (k + 1)
  end.

(** [#execOp]; counting up to an infinite number never ends. *)
Definition execOp (op : TOKEN.t) : M Interp unit :=
  match op with
  | TOKEN.true => ipush fone
  | TOKEN.false => ipush fzero
  | TOKEN.abs => unary (exec_unary OP.ABS)
  | TOKEN.neg => unary (exec_unary OP.NEG)
  | TOKEN.ceiling => unary (exec_unary OP.CEIL)
  | TOKEN.floor => unary (exec_unary OP.FLOOR)
  | TOKEN.round => unary (exec_unary OP.ROUND)
  | TOKEN.truncate => unary (exec_unary OP.TRUNC)
  | TOKEN.sqrt => unary (exec_unary OP.SQRT)
  | TOKEN.sin => unary (exec_unary OP.SIN)
  | TOKEN.cos => unary (exec_unary OP.COS)
  | TOKEN.ln => unary (exec_unary OP.LN)
  | TOKEN.log => unary (exec_unary OP.LOG10)
  | TOKEN.cvi => unary (exec_unary OP.CVI)
  | TOKEN.cvr => mret tt
  | TOKEN.not => unary (fun v => if feq v fzero || feq v fone then fsub fone v else of_Z (js_not (js_or (float_int v) 0)))
  | TOKEN.add => binary (exec_binary OP.ADD)
  | TOKEN.sub => binary (exec_binary OP.SUB)
  | TOKEN.mul => binary (exec_binary OP.MUL)
  | TOKEN.div => binary (exec_binary OP.DIV)
  | TOKEN.idiv => binary (exec_binary OP.IDIV)
  | TOKEN.mod_ => binary (exec_binary OP.MOD)
  | TOKEN.exp => binary (exec_binary OP.POW)
  | TOKEN.atan => binary (exec_binary OP.ATAN)
  | TOKEN.eq => binary (exec_binary OP.EQ)
  | TOKEN.ne => binary (exec_binary OP.NE)
  | TOKEN.gt => binary (exec_binary OP.GT)
  | TOKEN.ge => binary (exec_binary OP.GE)
  | TOKEN.lt => binary (exec_binary OP.LT)
  | TOKEN.le => binary (exec_binary OP.LE)
  | TOKEN.and => binary (exec_binary OP.AND)
  | TOKEN.or => binary (exec_binary OP.OR)
  | TOKEN.xor => binary (exec_binary OP.XOR)
  | TOKEN.bitshift =>
      binary (fun v amt => let amt := float_int amt in
        of_Z (if 0 <? amt then float_int v .<< amt else float_int v .>> (- amt)))
  | TOKEN.min => binary (exec_binary OP.MIN)
  | TOKEN.max => binary (exec_binary OP.MAX)
  | TOKEN.dup => v <- top;; ipush v
  | TOKEN.exch => a <- ipop;; b <- ipop;; ipush a ;;; ipush b
  | TOKEN.pop => ipop ;;; mret tt
  | TOKEN.copy =>
      n <- ipop;;
      if is_plus_infinity n then out_of_fuel
      else
        match whole n with
        | Some n => s <- gets isp;; copy_loop (Z.to_nat n) (s - n) 0
        | None => mret tt
        end
  | TOKEN.index =>
      i <- ipop;;
      v <- gets (fun m => match whole i with Some i => slot (istack m) (isp m - 1 - i) | None => S754_nan end);;
      ipush v
  | TOKEN.roll =>
      j <- ipop;;
      n <- ipop;;
      let j_is_0 := match whole j with Some j => j =? 0 | None => false end in
      if is_plus_infinity n then if j_is_0 then mret tt else out_of_fuel
      else
        match whole n with
        | Some n =>
            if (1 <? n) && negb j_is_0 then
              let shift := j ← whole j; Some (Z.rem (Z.rem j n + n) n) in
              if match shift with Some s => s =? 0 | None => false end then mret tt
              else
                m <- get;;
                let base := isp m - n in
                let sub := subarray (istack m) base (isp m) in
                roll_loop (Z.to_nat n) sub base n shift 0
            else mret tt
        | None => mret tt
        end
  | _ => mret tt
  end.

(** [#execBlock] *)
Fixpoint execBlock (block : PsBlock) : M Interp unit :=
  match block with
  | Done => mret tt
  | Then instr rest =>
      match instr with
      | PsNumber value => ipush value
      | PsOperator op => execOp op
      | PsIf then_ => c <- ipop;; if negb (feq c fzero) then execBlock then_ else mret tt
      | PsIfElse then_ otherwise => c <- ipop;; if negb (feq c fzero) then execBlock then_ else execBlock otherwise
      end ;;;
      execBlock rest
  end.

Fixpoint push_all (values : list float) : M Interp unit :=
  match values with
  | [] => mret tt
  | v :: values => ipush v ;;; push_all values
  end.

(** The function that [build] returns, run once: the assignments to [dest].
    [stack0] is what the stack holds from the last run. *)
Definition interpret (program : PsProgram) (domain range : list float)
    (src : list float) (srcOffset destOffset : Z) (stack0 : list float) : res (list (Z * float)) :=
  let nIn := len domain .>> 1 in
  let nOut := len range .>> 1 in
  match (push_all (map (fun i => slot src (srcOffset + Z.of_nat i)) (seq 0 (Z.to_nat nIn))) ;;; execBlock (body program))
      (mkInterp stack0 0) with
  | (Ok _, m) =>
      let base := isp m - nOut in
      Ok (map (fun i =>
        let i := Z.of_nat i in
        let v := if 0 <=? base + i then slot (istack m) (base + i) else fzero in
        (destOffset + i, MathClamp v (slot range (i * 2)) (slot range (i * 2 + 1)))) (seq 0 (Z.to_nat nOut)))
  | (Throw e, _) => Throw e
  | (OutOfFuel, _) => OutOfFuel
  end.

(** The function that [buildPostScriptJsFunction] returns, run once with what
    the three arrays hold. *)
Definition buildPostScriptJsFunction (source : list Z) (domain range : list float) (forceInterpreter : bool)
    (src : list float) (srcOffset destOffset : Z) (stack0 tmp0 istack0 : list float) : res (list (Z * float)) :=
  match parsePostScriptFunction source with
  | Ok program =>
      match (if forceInterpreter then Ok None else compile domain range program) with
      | Ok (Some code) =>
          match execute code src srcOffset destOffset stack0 tmp0 with
          | Ok m => Ok (writes m)
          | Throw e => Throw e
          | OutOfFuel => OutOfFuel
          end
      | Ok None => interpret program domain range src srcOffset destOffset istack0
      | Throw e => Throw e
      | OutOfFuel => OutOfFuel
      end
  | Throw e => Throw e
  | OutOfFuel => OutOfFuel
  end.
End Interpreter.
