(* ===== verification/PsCompilerSpec.v ===== *)
(** * Calculator functions: the code computes the expressions

    The code that [PsJsCompiler] makes of expressions leaves their values on the
    stack of the machine, if the stack and the slots for shared nodes are large
    enough and no slot is read on a path that did not fill it. *)
From stdpp Require Import gmap fin_map_dom.
From Stdlib Require Import SpecFloat.
From S2P Require Import Prelude JsBits Number64 PsParser PsTree PsCompiler.
Local Open Scope js_scope.

(** ** Values of expressions *)

(** Operands were made before their node. *)
Definition node_ok (h : heap) (n : nat) (node : PsNode) : Prop :=
  match node with
  | PsArgNode i => 0 <= i < 2 ^ 31
  | PsConstNode _ => True
  | PsUnaryNode _ x _ => (x < n)%nat
  | PsBinaryNode _ x y _ => (x < n)%nat /\ (y < n)%nat
  | PsTernaryNode c t e _ => (c < n)%nat /\ (t < n)%nat /\ (e < n)%nat
  end.
Definition heap_ok (h : heap) : Prop := forall n node, h !! n = Some node -> node_ok h n node.

Section Value.
Context `{MathLib} (h : heap) (src : list float) (srcOffset : Z).

(** The value of a node from the values of its operands.  (A [not] of a value
    whose type is unknown is never compiled.) *)
Definition value_step (value : nat -> float) (node : PsNode) : float :=
  match node with
  | PsArgNode i => slot src (srcOffset + i)
  | PsConstNode v => to_num v
  | PsUnaryNode op x t =>
      if decide (op = TOKEN.cvr) then value x
      else match unary_code op t with Some o => exec_unary o (value x) | None => exec_unary OP.NOT_B (value x) end
  | PsBinaryNode TOKEN.bitshift f s _ => exec_shift (value f) (value s)
  | PsBinaryNode op f s _ =>
      match binary_code op with Some o => exec_binary o (value s) (value f) | None => S754_nan end
  | PsTernaryNode c t e _ => if feq (value c) fzero then value e else value t
  end.
Fixpoint value_loop (levels : nat) (n : nat) : float :=
  match levels with
  | O => S754_nan
  | S levels => match h !! n with Some node => value_step (value_loop levels) node | None => S754_nan end
  end.
Definition value (n : nat) : float := value_loop (S n) n.

Lemma value_step_ext f g n node : node_ok h n node -> (forall m, (m < n)%nat -> f m = g m) -> value_step f node = value_step g node.
Proof.
  intros Hn Hfg. destruct node as [i|v|op x t|op x y t|c t e ty]; cbn in *; try done.
  - by rewrite Hfg.
  - destruct Hn. destruct op; rewrite ?Hfg by done; done.
  - destruct Hn as (? & ? & ?). by rewrite !Hfg.
Qed.

Lemma value_levels (Hok : heap_ok h) l l' n : (n < l)%nat -> (n < l')%nat -> value_loop l n = value_loop l' n.
Proof.
  revert l' n. induction l as [|l IH]; intros l' n Hl Hl'; [lia|]. destruct l' as [|l']; [lia|]. cbn.
  destruct (h !! n) as [node|] eqn:E; [|done]. apply (value_step_ext _ _ n); [by apply Hok|]. intros m Hm. apply IH; lia.
Qed.

Lemma value_eq (Hok : heap_ok h) n node : h !! n = Some node -> value n = value_step value node.
Proof.
  intros E. unfold value at 1. cbn. rewrite E. apply (value_step_ext _ _ n); [by apply Hok|].
  intros m Hm. apply value_levels; [done|lia|lia].
Qed.
End Value.

(** ** What the code needs *)

Section Needs.
Context (tree : Tree).

(** The height of the stack that the code of a node takes. *)
Fixpoint depth (levels : nat) (n : nat) : Z :=
  match levels with
  | O => 0
  | S levels =>
      match nodes tree !! n with
      | Some (PsUnaryNode _ x _) => depth levels x
      | Some (PsBinaryNode TOKEN.bitshift _ s _) => depth levels s
      | Some (PsBinaryNode _ f s _) => Z.max (depth levels s) (1 + depth levels f)
      | Some (PsTernaryNode c t e _) => Z.max (depth levels c) (Z.max (depth levels t) (depth levels e))
      | _ => 1
      end
  end.

(** What [loads] below finds in the code of [_compileNodeImpl], given what it
    finds for the operands. *)
Definition loads_inside (loads : nat -> gset nat -> gset nat -> option (gset nat * gset nat))
    (n : nat) (seen filled : gset nat) : option (gset nat * gset nat) :=
  match nodes tree !! n with
  | Some (PsUnaryNode _ x _) => loads x seen filled
  | Some (PsBinaryNode TOKEN.bitshift _ s _) => loads s seen filled
  | Some (PsBinaryNode _ f s _) => '(seen, filled) ← loads s seen filled; loads f seen filled
  | Some (PsTernaryNode c t e _) =>
      '(seen, filled) ← loads c seen filled;
      '(seen, _) ← loads t seen filled;
      '(seen, _) ← loads e seen filled;
      Some (seen, filled)
  | _ => Some (seen, filled)
  end.

(** The nodes that have a slot ([seen]) and those whose slot is filled on every
    path ([filled]), after the code of a node; [None] when the code reads a
    slot that is not. *)
Fixpoint loads (levels : nat) (n : nat) (seen filled : gset nat) : option (gset nat * gset nat) :=
  match levels with
  | O => None
  | S levels =>
      match shared tree !! n with
      | None => loads_inside (loads levels) n seen filled
      | Some _ =>
          if decide (n ∈ seen) then if decide (n ∈ filled) then Some (seen, filled) else None
          else '(seen, filled) ← loads_inside (loads levels) n seen filled; Some ({[n]} ∪ seen, {[n]} ∪ filled)
      end
  end.

(** The same for the outputs, one after the other. *)
Fixpoint loads_outputs (outs : list nat) (seen filled : gset nat) : option (gset nat * gset nat) :=
  match outs with
  | [] => Some (seen, filled)
  | out :: outs => '(seen, filled) ← loads (S out) out seen filled; loads_outputs outs seen filled
  end.

(** The code of the outputs fits into the machine: its two arrays have 64
    elements, and it reads no slot that may not be filled. *)
Definition fits (outs : list nat) : bool :=
  forallb (fun n => depth (S n) n <=? 64) outs &&
  match loads_outputs outs ∅ ∅ with Some (seen, _) => Z.of_nat (size seen) <=? 64 | None => false end.
End Needs.

(** ** Runs of the machine *)

Lemma of_code_code op : OP.of_code (to_int32 (OP.code op)) = Some op.
Proof. by destruct op; vm_compute. Qed.

Lemma slot_set l i v k : 0 <= i < len l -> slot (arr_set l i v) k = if k =? i then v else slot l k.
Proof. intros Hi. unfold slot. rewrite arr_get_set by done. by destruct (k =? i). Qed.

Section Runs.
Context `{MathLib} (code : list cell) (src : list float) (srcOffset destOffset : Z).
Local Abbreviation step := (execute_step code src srcOffset destOffset).
Local Abbreviation loop := (execute_loop code src srcOffset destOffset).

(** From [m] to [m'] in at most as many turns as cells were passed. *)
Definition goes (m m' : Machine) : Prop :=
  ip m <= ip m' /\ exists turns, Z.of_nat turns <= ip m' - ip m /\ forall more, loop (turns + more) m = loop more m'.

Lemma goes_refl m : goes m m.
Proof. split; [lia|]. exists 0%nat. split; [lia|done]. Qed.

Lemma goes_trans m1 m2 m3 : goes m1 m2 -> goes m2 m3 -> goes m1 m3.
Proof.
  intros [H1 (t1 & Ht1 & E1)] [H2 (t2 & Ht2 & E2)]. split; [lia|]. exists (t1 + t2)%nat. split; [lia|]. intros more.
  by rewrite <- Nat.add_assoc, E1, E2.
Qed.

Lemma goes_step m : ip m < len code -> ip m < ip (step m) -> goes m (step m).
Proof.
  intros Hl Hlt. split; [lia|]. exists 1%nat. split; [lia|]. intros more. cbn [Nat.add execute_loop]. by rewrite (proj2 (Z.ltb_lt _ _)).
Qed.

(** The operation at the instruction pointer. *)
Definition op_at (i : Z) (op : OP.t) : Prop := arr_get code i = Some (Int (OP.code op)).

Lemma op_at_decode i op : op_at i op -> OP.of_code (cell_int code i) = Some op /\ i < len code.
Proof.
  unfold op_at, cell_int. intros E. rewrite E. split; [apply of_code_code|]. unfold arr_get in E. destruct (i <? 0) eqn:Hi; [done|].
  apply lookup_lt_Some in E. unfold len. lia.
Qed.

Lemma goes_op m op m' : op_at (ip m) op -> step m = m' -> ip m < ip m' -> goes m m'.
Proof. intros Hop <- Hlt. apply op_at_decode in Hop as [_ Hl]. by apply goes_step. Qed.

(** The machine [m'] has one number more on its stack, [v]. *)
Definition pushed (v : float) (m m' : Machine) : Prop :=
  sp m' = sp m + 1 /\ slot (stack m') (sp m) = v /\ (forall i, i < sp m -> slot (stack m') i = slot (stack m) i) /\
  len (stack m') = len (stack m) /\ len (tmp m') = len (tmp m) /\ writes m' = writes m.

Lemma push_pushed v m : 0 <= sp m < len (stack m) -> pushed v m (push v m).
Proof.
  intros Hs. unfold pushed, push. cbn. rewrite len_arr_set, slot_set by done. rewrite Z.eqb_refl. repeat split; try done.
  intros i Hi. rewrite slot_set by done. by rewrite (proj2 (Z.eqb_neq i (sp m))) by lia.
Qed.

Lemma on_top_pushed f v m m' : pushed v m m' -> 0 <= sp m < len (stack m) -> pushed (f v) m (on_top f m').
Proof.
  intros (Es & Ev & Hb & El & Et & Ew) Hs. unfold pushed, on_top. cbn. rewrite Es. replace (sp m + 1 - 1) with (sp m) by lia.
  rewrite len_arr_set, slot_set, Z.eqb_refl, Ev by lia. repeat split; try done.
  intros i Hi. rewrite slot_set by lia. rewrite (proj2 (Z.eqb_neq i (sp m))) by lia. by apply Hb.
Qed.

Lemma on_two_pushed f a b m m1 m2 : pushed a m m1 -> pushed b m1 m2 -> 0 <= sp m -> sp m + 1 < len (stack m) ->
  pushed (f a b) m (on_two f m2).
Proof.
  intros (Es & Ev & Hb & El & Et & Ew) (Es2 & Ev2 & Hb2 & El2 & Et2 & Ew2) Hs Hs2. unfold pushed, on_two, on_top. cbn.
  rewrite Es2. replace (sp m1 + 1 - 1) with (sp m1) by lia. rewrite Ev2, Es. replace (sp m + 1 - 1) with (sp m) by lia.
  rewrite len_arr_set, slot_set, Z.eqb_refl by lia. rewrite (Hb2 (sp m)), Ev by lia. repeat split; try congruence.
  intros i Hi. rewrite slot_set by lia. rewrite (proj2 (Z.eqb_neq i (sp m))) by lia. rewrite Hb2 by lia. by apply Hb.
Qed.

Lemma pushed_ip v m m' i : pushed v m m' -> pushed v m (at_ip i m').
Proof. done. Qed.
Lemma pushed_from_ip v m m' i : pushed v (at_ip i m) m' -> pushed v m m'.
Proof. done. Qed.
End Runs.

(** ** Code for nodes *)

Lemma mbind_inv {S A B} (m : M S A) (k : A -> M S B) s b s' :
  mbind m k s = (Ok b, s') -> exists a s1, m s = (Ok a, s1) /\ k a s1 = (Ok b, s').
Proof. unfold mbind. destruct (m s) as [[a|e|] s1]; intros E; try done. by exists a, s1. Qed.

(** The compiler's state after more code: what was written stays, nodes keep
    their slots. *)
Definition grows (c c' : Compiler) : Prop :=
  (exists seg, ir c' = ir c ++ seg) /\ _tmpMap c ⊆ _tmpMap c' /\ _nextTmp c <= _nextTmp c'.
Definition compiler_ok (c : Compiler) : Prop :=
  _nextTmp c = Z.of_nat (size (_tmpMap c)) /\ forall n s, _tmpMap c !! n = Some s -> 0 <= s < _nextTmp c.
(** The finished code has what was written between [c] and [c']. *)
Definition covers (c c' : Compiler) (code : list cell) : Prop :=
  forall i x, len (ir c) <= i -> arr_get (ir c') i = Some x -> arr_get code i = Some x.

#[global] Instance grows_preorder : PreOrder grows.
Proof.
  split.
  - intros c. split; [by exists []; rewrite app_nil_r|]. split; [done|lia].
  - intros c1 c2 c3 ([s1 E1] & H1 & L1) ([s2 E2] & H2 & L2). split; [exists (s1 ++ s2); by rewrite E2, E1, app_assoc|].
    split; [by etransitivity|lia].
Qed.

Lemma grows_len c c' : grows c c' -> len (ir c) <= len (ir c').
Proof. intros ([seg ->] & _). rewrite len_app. pose proof (len_nonneg seg). lia. Qed.

Lemma arr_get_app_l {A} (l l' : list A) i x : arr_get l i = Some x -> arr_get (l ++ l') i = Some x.
Proof. unfold arr_get. destruct (i <? 0); [done|]. intros E. by rewrite lookup_app_l by (by eapply lookup_lt_Some). Qed.

Lemma covers_before c c1 c' code : grows c1 c' -> covers c c' code -> covers c c1 code.
Proof. intros ([seg E] & _) Hc i x Hi Ex. apply Hc; [done|]. rewrite E. by apply arr_get_app_l. Qed.

Lemma covers_after c c1 c' code : grows c c1 -> covers c c' code -> covers c1 c' code.
Proof. intros Hg Hc i x Hi. apply Hc. apply grows_len in Hg. lia. Qed.

(** The cells that [emit] adds, in the finished code. *)
Lemma covers_emit c c1 cells code k x : covers c (mkCompiler (ir c1 ++ cells) (_tmpMap c1) (_nextTmp c1)) code -> grows c c1 ->
  cells !! k = Some x -> arr_get code (len (ir c1) + Z.of_nat k) = Some x.
Proof.
  intros Hc Hg E. apply grows_len in Hg. apply Hc; [lia|]. cbn [ir]. rewrite arr_get_app_r by lia.
  replace (_ - _) with (Z.of_nat k) by lia. by rewrite arr_get_nat.
Qed.

Lemma grows_emit c cells : grows c (mkCompiler (ir c ++ cells) (_tmpMap c) (_nextTmp c)).
Proof. split; [by eexists|]. split; [done|cbn; lia]. Qed.

(** The instruction pointer after code. *)
Ltac cells := cbn [ip sp ir stack tmp writes push at_ip on_top on_two _nextTmp]; repeat first [rewrite len_app | rewrite len_cons | rewrite len_nil]; lia.

(** ** The cells of a conditional *)

Lemma arr_get_cons {A} (x : A) l i : 1 <= i -> arr_get (x :: l) i = arr_get l (i - 1).
Proof. intros Hi. change (x :: l) with ([x] ++ l). by rewrite arr_get_app_r. Qed.

Lemma arr_get_lt {A} (l : list A) i x : arr_get l i = Some x -> i < len l.
Proof. unfold arr_get, len. destruct (i <? 0); [done|]. intros E. apply lookup_lt_Some in E. lia. Qed.

Lemma patch_cells (pre post : list cell) a b x : arr_set (pre ++ a :: b :: post) (len pre + 1) x = pre ++ a :: x :: post.
Proof.
  unfold arr_set, len. rewrite (proj2 (Z.ltb_ge _ _)) by lia. replace (Z.to_nat _) with (length pre + 1)%nat by lia.
  by rewrite insert_app_r.
Qed.

Section Ternary.
Context (c1 c3 c6 : Compiler) (T E : list cell).
(** After the code of the condition, of the first branch and of the second one,
    with what [_compileTernary] writes between them. *)
Definition after_if : Compiler := mkCompiler (ir c1 ++ [Int (OP.code OP.IF); Int 0]) (_tmpMap c1) (_nextTmp c1).
Definition after_jump : Compiler :=
  mkCompiler (arr_set (ir c3 ++ [Int (OP.code OP.JUMP); Int 0]) (len (ir after_if) - 1) (Int (len (ir c3) + 2)))
    (_tmpMap c3) (_nextTmp c3).
Definition after_ternary : Compiler :=
  mkCompiler (arr_set (ir c6) (len (ir c3) + 1) (Int (len (ir c6)))) (_tmpMap c6) (_nextTmp c6).

Hypothesis (E3 : ir c3 = ir after_if ++ T) (E6 : ir c6 = ir after_jump ++ E).

Lemma len_c3 : len (ir c3) = len (ir c1) + 2 + len T.
Proof. rewrite E3. unfold after_if. cells. Qed.

Lemma ir_after_jump : ir after_jump = ir c1 ++ Int (OP.code OP.IF) :: Int (len (ir c3) + 2) :: T ++ [Int (OP.code OP.JUMP); Int 0].
Proof.
  cbn [ir after_jump]. rewrite E3 at 1. replace (len (ir after_if) - 1) with (len (ir c1) + 1) by (unfold after_if; cells).
  cbn [ir after_if]. rewrite <- !app_assoc. apply patch_cells.
Qed.

Lemma len_c6 : len (ir c6) = len (ir c3) + 2 + len E.
Proof. pose proof len_c3. rewrite E6, ir_after_jump. cells. Qed.

Lemma ir_after_ternary : ir after_ternary =
  ir c1 ++ Int (OP.code OP.IF) :: Int (len (ir c3) + 2) :: T ++ Int (OP.code OP.JUMP) :: Int (len (ir c6)) :: E.
Proof.
  pose proof (patch_cells (ir c1 ++ Int (OP.code OP.IF) :: Int (len (ir c3) + 2) :: T) E (Int (OP.code OP.JUMP)) (Int 0) (Int (len (ir c6)))) as Hp.
  replace (len (ir c1 ++ _)) with (len (ir c3)) in Hp by (rewrite len_c3; cells).
  rewrite <- !app_assoc in Hp. cbn [app] in Hp. cbn [ir after_ternary]. rewrite <- Hp. f_equal.
  rewrite E6, ir_after_jump, <- app_assoc. cbn [app]. by rewrite <- app_assoc.
Qed.

Lemma len_after_ternary : len (ir after_ternary) = len (ir c6).
Proof. cbn [ir after_ternary]. by rewrite len_arr_set. Qed.

(** The finished code has the two jumps and the code of the three parts. *)
Lemma ternary_covers c code : grows c c1 -> covers c after_ternary code ->
  covers c c1 code /\ covers after_if c3 code /\ covers after_jump c6 code /\
  arr_get code (len (ir c1)) = Some (Int (OP.code OP.IF)) /\ arr_get code (len (ir c1) + 1) = Some (Int (len (ir c3) + 2)) /\
  arr_get code (len (ir c3)) = Some (Int (OP.code OP.JUMP)) /\ arr_get code (len (ir c3) + 1) = Some (Int (len (ir c6))).
Proof.
  intros Hg Hcov. apply grows_len in Hg. pose proof len_c3 as L3. pose proof (len_nonneg T). pose proof (len_nonneg E).
  assert (Hat : forall i x, len (ir c1) <= i -> arr_get (Int (OP.code OP.IF) :: Int (len (ir c3) + 2) :: T ++
      Int (OP.code OP.JUMP) :: Int (len (ir c6)) :: E) (i - len (ir c1)) = Some x -> arr_get code i = Some x).
  { intros i x Hi Ex. apply Hcov; [lia|]. by rewrite ir_after_ternary, arr_get_app_r. }
  split; [|split; [|split; [|split; [|split; [|split]]]]].
  - intros i x Hi Ex. apply Hcov; [done|]. rewrite ir_after_ternary. by apply arr_get_app_l.
  - intros i x Hi Ex. assert (len (ir c1) + 2 <= i) by (cbn [ir after_if] in Hi; rewrite len_app, !len_cons, len_nil in Hi; lia).
    apply Hat; [lia|]. rewrite E3 in Ex. cbn [ir after_if] in Ex. rewrite <- app_assoc, arr_get_app_r in Ex by lia. cbn [app] in Ex.
    rewrite !arr_get_cons in Ex |- * by lia. by apply arr_get_app_l.
  - intros i x Hi Ex. assert (Hi' : len (ir c3) + 2 <= i) by (rewrite ir_after_jump in Hi; rewrite len_app, !len_cons, len_app, !len_cons, len_nil in Hi; lia).
    apply Hat; [lia|]. rewrite E6, arr_get_app_r in Ex by done. rewrite !arr_get_cons, arr_get_app_r, !arr_get_cons by lia.
    rewrite <- Ex. f_equal. rewrite ir_after_jump. rewrite len_app, !len_cons, len_app, !len_cons, len_nil. lia.
  - apply Hat; [lia|]. by rewrite Z.sub_diag.
  - apply Hat; [lia|]. by replace (_ - _) with 1 by lia.
  - apply Hat; [lia|]. rewrite !arr_get_cons, arr_get_app_r by lia. by replace (_ - _ - _ - _ - _) with 0 by lia.
  - apply Hat; [lia|]. rewrite !arr_get_cons, arr_get_app_r by lia. by replace (_ - _ - _ - _ - _) with 1 by lia.
Qed.
End Ternary.

Section Compiled.
Context `{MathLib} (tree : Tree) (Hok : heap_ok (nodes tree)) (src : list float) (srcOffset destOffset : Z).
Local Abbreviation val := (value (nodes tree) src srcOffset).
Local Abbreviation goes_in code := (goes code src srcOffset destOffset).

(** The slots of the nodes [filled] hold their values. *)
Definition slots_hold (c : Compiler) (filled : gset nat) (m : Machine) : Prop :=
  forall n s, n ∈ filled -> _tmpMap c !! n = Some s -> slot (tmp m) s = val n.
Definition arrays_ok (m : Machine) : Prop := len (stack m) = 64 /\ len (tmp m) = 64.

(** The code between [c] and [c'] computes [v] at height [d]. *)
Definition computes (c c' : Compiler) (filled filled' : gset nat) (d : Z) (v : float) : Prop :=
  forall code m, covers c c' code -> ip m = len (ir c) -> 0 <= sp m -> sp m + d <= 64 -> arrays_ok m -> _nextTmp c' <= 64 ->
    slots_hold c filled m ->
    exists m', goes_in code m m' /\ ip m' = len (ir c') /\ pushed v m m' /\ slots_hold c' filled' m'.

Definition compiled (c c' : Compiler) (seen' filled filled' : gset nat) (d : Z) (v : float) : Prop :=
  grows c c' /\ compiler_ok c' /\ seen' = dom (_tmpMap c') /\ filled ⊆ filled' /\ filled' ⊆ seen' /\ computes c c' filled filled' d v.

Lemma slots_hold_grows c c' filled m : _tmpMap c ⊆ _tmpMap c' -> filled ⊆ dom (_tmpMap c) -> slots_hold c filled m -> slots_hold c' filled m.
Proof.
  intros Hsub Hd H0 n s Hn E. apply H0; [done|]. apply Hd, elem_of_dom in Hn as [s' E'].
  pose proof (lookup_weaken _ _ _ _ E' Hsub). congruence.
Qed.

Lemma slots_hold_tmp c filled m m' : tmp m' = tmp m -> slots_hold c filled m -> slots_hold c filled m'.
Proof. intros E H0 n s. rewrite E. apply H0. Qed.

Lemma slots_hold_sub c f f' m : f ⊆ f' -> slots_hold c f' m -> slots_hold c f m.
Proof. intros Hs H0 n s Hn. apply H0. by apply Hs. Qed.

Lemma arrays_ok_pushed v m m' : pushed v m m' -> arrays_ok m -> arrays_ok m'.
Proof. intros (_ & _ & _ & E1 & E2 & _) [? ?]. split; congruence. Qed.

(** Code that only pushes a number. *)
Lemma compiled_push c op x filled v : compiler_ok c -> filled ⊆ dom (_tmpMap c) ->
  (forall code m, arr_get code (ip m) = Some (Int (OP.code op)) -> arr_get code (ip m + 1) = Some x ->
    _nextTmp c <= 64 -> slots_hold c filled m -> execute_step code src srcOffset destOffset m = push v (at_ip (ip m + 1 + 1) m)) ->
  compiled c (mkCompiler (ir c ++ [Int (OP.code op); x]) (_tmpMap c) (_nextTmp c)) (dom (_tmpMap c)) filled filled 1 v.
Proof.
  intros Hc Hf Hstep. split; [apply grows_emit|]. split; [done|]. split; [done|]. split; [done|]. split; [done|].
  intros code m Hcov Hip Hs Hd [Hst Htm] Ht Hsl.
  pose proof (covers_emit _ _ _ _ 0 _ Hcov ltac:(done) eq_refl) as E0. pose proof (covers_emit _ _ _ _ 1 _ Hcov ltac:(done) eq_refl) as E1.
  change (Z.of_nat 0) with 0 in E0. change (Z.of_nat 1) with 1 in E1. rewrite <- Hip in E0, E1. rewrite Z.add_0_r in E0. specialize (Hstep code m E0 E1 Ht Hsl).
  eexists. split; [eapply (goes_op _ _ _ _ _ op); [done|exact Hstep|cbn; lia]|]. split; [cells|].
  split; [apply (push_pushed v (at_ip (ip m + 1 + 1) m)); cbn; lia|]. done.
Qed.

(** A unary instruction after the code of its operand. *)
Lemma compiled_unary c c1 seen filled filled1 d v op cells g : compiled c c1 seen filled filled1 d v -> 1 <= d ->
  (forall code m, (forall k x, (Int (OP.code op) :: cells) !! k = Some x -> arr_get code (ip m + Z.of_nat k) = Some x) ->
    execute_step code src srcOffset destOffset m = on_top g (at_ip (ip m + 1 + len cells) m)) ->
  compiled c (mkCompiler (ir c1 ++ Int (OP.code op) :: cells) (_tmpMap c1) (_nextTmp c1)) seen filled filled1 d (g v).
Proof.
  intros (Hg & Hok1 & Hseen & Hf & Hf1 & Hrun) Hd1 Hstep. split; [etransitivity; [done|apply grows_emit]|].
  split; [done|]. split; [done|]. split; [done|]. split; [done|].
  intros code m Hcov Hip Hs Hd Harr Ht Hsl.
  destruct (Hrun code m) as (m1 & Hgo & Hip1 & Hp & Hsl1); try done; [by eapply covers_before; [apply grows_emit|]|].
  assert (Hcells : forall k x, (Int (OP.code op) :: cells) !! k = Some x -> arr_get code (ip m1 + Z.of_nat k) = Some x).
  { intros k x E. rewrite Hip1. by apply (covers_emit _ _ _ _ _ _ Hcov Hg). }
  pose proof (Hstep code m1 Hcells) as Es. pose proof (len_nonneg cells).
  pose proof (Hcells 0%nat _ eq_refl) as E0. change (Z.of_nat 0) with 0 in E0. rewrite Z.add_0_r in E0.
  eexists. split; [eapply goes_trans; [exact Hgo|]; eapply (goes_op _ _ _ _ _ op); [done|exact Es|cbn; lia]|].
  destruct Harr as [Hst Htm].
  split; [cells|]. split; [|done]. apply on_top_pushed; [done|lia].
Qed.

(** A binary instruction after the code of its operands. *)
Lemma compiled_binary c c1 c2 seen1 seen2 filled filled1 filled2 d1 d2 a b op g :
  compiled c c1 seen1 filled filled1 d1 a -> compiled c1 c2 seen2 filled1 filled2 d2 b -> 1 <= d2 ->
  (forall code m, arr_get code (ip m) = Some (Int (OP.code op)) ->
    execute_step code src srcOffset destOffset m = on_two g (at_ip (ip m + 1) m)) ->
  compiled c (mkCompiler (ir c2 ++ [Int (OP.code op)]) (_tmpMap c2) (_nextTmp c2)) seen2 filled filled2 (Z.max d1 (1 + d2)) (g a b).
Proof.
  intros (Hg & Hok1 & Hseen & Hf & Hf1 & Hrun) (Hg2 & Hok2 & Hseen2 & Hf2 & Hf22 & Hrun2) Hd2 Hstep.
  split; [etransitivity; [done|]; etransitivity; [done|apply grows_emit]|].
  split; [done|]. split; [done|]. split; [by etransitivity|]. split; [done|].
  intros code m Hcov Hip Hs Hd Harr Ht Hsl. cbn in Ht.
  assert (Hcov2 : covers c c2 code) by (by eapply covers_before; [apply grows_emit|]).
  assert (Ht1 : _nextTmp c1 <= 64) by (destruct Hg2 as (_ & _ & ?); lia).
  destruct (Hrun code m) as (m1 & Hgo & Hip1 & Hp & Hsl1); try done; [by eapply covers_before|lia|].
  pose proof (arrays_ok_pushed _ _ _ Hp Harr) as Harr1. pose proof Hp as (Hsp1 & _).
  destruct (Hrun2 code m1) as (m2 & Hgo2 & Hip2 & Hp2 & Hsl2); try done; [by eapply covers_after|lia|lia|].
  pose proof (covers_emit _ _ _ _ 0 _ Hcov ltac:(by etransitivity) eq_refl) as E0. change (Z.of_nat 0) with 0 in E0. rewrite Z.add_0_r, <- Hip2 in E0.
  eexists. split; [eapply goes_trans; [exact Hgo|]; eapply goes_trans; [exact Hgo2|];
    eapply (goes_op _ _ _ _ _ op); [done|exact (Hstep code m2 E0)|cbn; lia]|].
  destruct Harr as [Hst Htm]. split; [cells|]. split; [|done].
  apply (on_two_pushed g a b m m1 (at_ip (ip m2 + 1) m2)); [done|done|lia|lia].
Qed.

(** A shared node gets the next slot, filled from the top of the stack. *)
Lemma compiled_tee c c1 seen filled filled1 d v n : compiled c c1 seen filled filled1 d v -> 1 <= d -> n ∉ seen -> val n = v ->
  compiled c (mkCompiler (ir c1 ++ [Int (OP.code OP.TEE_TMP); Int (_nextTmp c1)]) (<[n := _nextTmp c1]> (_tmpMap c1)) (_nextTmp c1 + 1))
    ({[n]} ∪ seen) filled ({[n]} ∪ filled1) d v.
Proof.
  intros (Hg & [Hn1 Hsl1] & -> & Hf & Hf1 & Hrun) Hd1 Hnew Hv. apply not_elem_of_dom in Hnew.
  assert (Hg1 : grows c1 (mkCompiler (ir c1 ++ [Int (OP.code OP.TEE_TMP); Int (_nextTmp c1)]) (<[n := _nextTmp c1]> (_tmpMap c1)) (_nextTmp c1 + 1))).
  { split; [by eexists|]. split; [by apply insert_subseteq|cbn; lia]. }
  split; [by etransitivity|]. split; [|split; [cbn [_tmpMap]; by rewrite dom_insert_L|split; [set_solver|split; [set_solver|]]]].
  { split; [cbn; rewrite map_size_insert_None by done; lia|]. intros k s. cbn. destruct (decide (k = n)) as [->|Hne].
    - rewrite lookup_insert_eq. intros [= <-]. lia.
    - rewrite lookup_insert_ne by done. intros E. apply Hsl1 in E. lia. }
  intros code m Hcov Hip Hs Hd Harr Ht Hsl. cbn in Ht.
  destruct (Hrun code m) as (m1 & Hgo & Hip1 & Hp & Hsl'); try done; [by eapply covers_before|lia|].
  pose proof (covers_emit _ c1 _ _ 0 _ Hcov Hg eq_refl) as E0. pose proof (covers_emit _ c1 _ _ 1 _ Hcov Hg eq_refl) as E1.
  change (Z.of_nat 0) with 0 in E0. change (Z.of_nat 1) with 1 in E1. rewrite <- Hip1 in E0, E1. rewrite Z.add_0_r in E0.
  pose proof (arrays_ok_pushed _ _ _ Hp Harr) as [Hst1 Htm1]. pose proof Hp as (Hsp1 & Hval & Hbelow & Hl1 & Hl2 & Hw).
  assert (Es : execute_step code src srcOffset destOffset m1 =
    mkMachine (ip m1 + 1 + 1) (sp m1) (stack m1) (arr_set (tmp m1) (_nextTmp c1) v) (writes m1)).
  { unfold execute_step, cell_int at 1. rewrite E0, of_code_code. unfold cell_int. rewrite E1, to_int32_small by lia.
    rewrite Hsp1. replace (sp m + 1 - 1) with (sp m) by lia. by rewrite Hval. }
  eexists. split; [eapply goes_trans; [exact Hgo|]; eapply (goes_op _ _ _ _ _ OP.TEE_TMP); [done|exact Es|cbn; lia]|].
  split; [cells|]. split.
  { repeat split; cbn; try done. rewrite len_arr_set. congruence. }
  intros k s Hk. cbn [_tmpMap tmp]. destruct (decide (k = n)) as [->|Hne].
  - rewrite lookup_insert_eq. intros [= <-]. rewrite slot_set by lia. by rewrite Z.eqb_refl.
  - rewrite lookup_insert_ne by done. intros E. pose proof (Hsl1 _ _ E). rewrite slot_set by lia.
    rewrite (proj2 (Z.eqb_neq s (_nextTmp c1))) by lia. apply Hsl'; [set_solver|done].
Qed.

(** The slot of a shared node that is filled. *)
Lemma compiled_load c filled n s : compiler_ok c -> filled ⊆ dom (_tmpMap c) -> n ∈ filled -> _tmpMap c !! n = Some s ->
  compiled c (mkCompiler (ir c ++ [Int (OP.code OP.LOAD_TMP); Int s]) (_tmpMap c) (_nextTmp c)) (dom (_tmpMap c)) filled filled 1 (val n).
Proof.
  intros Hc Hf Hn Es. apply compiled_push; [done|done|]. intros code m E0 E1 Ht Hsl.
  unfold execute_step, cell_int at 1. rewrite E0, of_code_code. unfold cell_int. rewrite E1.
  pose proof (proj2 Hc _ _ Es). rewrite to_int32_small by lia. by rewrite (Hsl _ _ Hn Es).
Qed.

(** More room is no harm. *)
Lemma compiled_depth c c1 seen filled filled1 d d' v : compiled c c1 seen filled filled1 d v -> d <= d' -> compiled c c1 seen filled filled1 d' v.
Proof.
  intros (Hg & Hok1 & Hseen & Hf & Hf1 & Hrun) Hd. repeat (split; [done|]). intros code m Hcov Hip Hs Hd' Harr Ht Hsl.
  apply Hrun; try done. lia.
Qed.

(** The jump over the first branch. *)
Lemma step_if code m v tgt m1 : arr_get code (ip m1) = Some (Int (OP.code OP.IF)) -> arr_get code (ip m1 + 1) = Some (Int tgt) ->
  pushed v m m1 -> execute_step code src srcOffset destOffset m1 =
    mkMachine (if feq v fzero then tgt else ip m1 + 1 + 1) (sp m) (stack m1) (tmp m1) (writes m1).
Proof.
  intros E0 E1 (Hsp1 & Hval1 & _). unfold execute_step, cell_int at 1. rewrite E0, of_code_code. unfold cell_target. rewrite E1, Hsp1.
  replace (sp m + 1 - 1) with (sp m) by lia. by rewrite Hval1.
Qed.

(** The number of the condition is taken from the stack before the next one comes. *)
Lemma pushed_again v v' m m1 m2 m' : pushed v m m1 -> sp m2 = sp m -> stack m2 = stack m1 -> tmp m2 = tmp m1 -> writes m2 = writes m1 ->
  pushed v' m2 m' -> pushed v' m m'.
Proof.
  intros (_ & _ & Hb & E1 & E2 & E3) Es Est Et Ew (P1 & P2 & P3 & P4 & P5 & P6). rewrite Es in *. rewrite Est in *. repeat split; try congruence.
  intros i Hi. rewrite P3 by done. by apply Hb.
Qed.

(** The conditional: the targets of its jumps are filled in when they are
    known; only what the condition filled is filled on both paths. *)
Lemma compiled_ternary c c1 c3 c6 seen1 seen3 seen6 filled f1 f3 f6 dc dt de vc vt ve :
  compiled c c1 seen1 filled f1 dc vc -> compiled (after_if c1) c3 seen3 f1 f3 dt vt -> compiled (after_jump c1 c3) c6 seen6 f1 f6 de ve ->
  compiled c (after_ternary c3 c6) seen6 filled f1 (Z.max dc (Z.max dt de)) (if feq vc fzero then ve else vt).
Proof.
  intros (Hg1 & Hok1 & -> & Hf & Hf1 & Hrun1) (Hg3 & Hok3 & -> & Hf3 & Hf33 & Hrun3) (Hg6 & Hok6 & -> & Hf6 & Hf66 & Hrun6).
  pose proof Hg1 as ([S E1] & Hm1 & Hn1). pose proof Hg3 as ([T E3] & Hm3 & Hn3). pose proof Hg6 as ([E E6] & Hm6 & Hn6).
  pose proof (len_c3 _ _ _ E3) as L3. pose proof (len_c6 _ _ _ _ _ E3 E6) as L6. pose proof (len_after_ternary c3 c6) as L7.
  pose proof (len_nonneg T). pose proof (len_nonneg E). cbn [_tmpMap _nextTmp after_if after_jump] in *.
  assert (Hm16 : _tmpMap c1 ⊆ _tmpMap c6) by (by etransitivity).
  split; [|split; [done|split; [done|split; [done|split]]]].
  { split; [eexists; by rewrite (ir_after_ternary _ _ _ _ _ E3 E6), E1, <- app_assoc|]. split; [by etransitivity|cbn; lia]. }
  { transitivity (dom (_tmpMap c1)); [done|]. by apply subseteq_dom. }
  intros code m Hcov Hip Hs Hd Harr Ht Hsl. cbn in Ht.
  destruct (ternary_covers _ _ _ _ _ E3 E6 _ _ Hg1 Hcov) as (Hc1 & Hc3 & Hc6 & Aif & Atgt & Aj & Aend).
  destruct (Hrun1 code m) as (m1 & Hgo1 & Hip1 & Hp1 & Hsl1); try done; [lia|lia|].
  pose proof (arrays_ok_pushed _ _ _ Hp1 Harr) as Harr1. rewrite <- Hip1 in Aif, Atgt.
  pose proof (step_if _ _ _ _ _ Aif Atgt Hp1) as Es2. set (m2 := mkMachine _ _ _ _ _) in Es2.
  assert (Hgo2 : goes_in code m1 m2) by (eapply (goes_op _ _ _ _ _ OP.IF); [done|exact Es2|cbn [ip m2]; destruct (feq vc fzero); lia]).
  destruct (feq vc fzero).
  - destruct (Hrun6 code m2) as (m3 & Hgo3 & Hip3 & Hp3 & Hsl3); try done; try (cbn [sp m2]; lia).
    + rewrite (ir_after_jump _ _ _ E3). unfold m2. cells.
    + by apply (slots_hold_grows c1).
    + exists m3. split; [by do 2 (eapply goes_trans; [eassumption|])|]. split; [congruence|].
      split; [by apply (pushed_again vc _ m m1 m2)|]. by apply (slots_hold_sub _ _ f6).
  - destruct (Hrun3 code m2) as (m3 & Hgo3 & Hip3 & Hp3 & Hsl3); try done; try (cbn [sp m2]; lia); [unfold m2, after_if; cells|].
    rewrite <- Hip3 in Aj, Aend.
    assert (Es4 : execute_step code src srcOffset destOffset m3 = at_ip (len (ir c6)) m3).
    { unfold execute_step, cell_int at 1. rewrite Aj, of_code_code. unfold cell_target. by rewrite Aend. }
    exists (at_ip (len (ir c6)) m3). split.
    { do 3 (eapply goes_trans; [eassumption|]). eapply (goes_op _ _ _ _ _ OP.JUMP); [done|exact Es4|cbn [ip at_ip]; lia]. }
    split; [done|]. split; [by apply (pushed_again vc _ m m1 m2)|].
    apply (slots_hold_grows c3); [done|by transitivity f3|]. by apply (slots_hold_sub _ _ f3).
Qed.

Lemma depth_pos l n : (n < l)%nat -> 1 <= depth tree l n.
Proof.
  revert n. induction l as [|l IH]; intros n Hn; [lia|]. cbn [depth]. destruct (nodes tree !! n) as [node|] eqn:E; [|done].
  apply Hok in E. destruct node as [i|v|op x t|op x y t|c t e ty]; cbn [node_ok] in E; try done.
  - apply IH. lia.
  - pose proof (IH y ltac:(lia)). destruct op; lia.
  - pose proof (IH c ltac:(lia)). lia.
Qed.

(** Only the node and what it is made of get a slot. *)
Lemma loads_inside_seen l (IH : forall n s f s' f', loads tree l n s f = Some (s', f') -> forall k, k ∈ s' -> k ∈ s \/ (k <= n)%nat) :
  forall n s f s' f', loads_inside tree (loads tree l) n s f = Some (s', f') -> forall k, k ∈ s' -> k ∈ s \/ (k < n)%nat.
Proof.
  intros n s f s' f' Hl k Hk. unfold loads_inside in Hl. destruct (nodes tree !! n) as [node|] eqn:En; [|injection Hl as <- <-; by left].
  pose proof (Hok _ _ En) as Hnode. destruct node as [i|v|op x t|op x y t|i t e ty]; cbn [node_ok] in Hnode; try (injection Hl as <- <-; by left).
  - destruct (IH _ _ _ _ _ Hl k Hk); [by left|right; lia].
  - destruct (decide (op = TOKEN.bitshift)) as [->|Hne]; [destruct (IH _ _ _ _ _ Hl k Hk); [by left|right; lia]|].
    assert (Hl' : ('(s, f) ← loads tree l y s f; loads tree l x s f) = Some (s', f')) by (rewrite <- Hl; by destruct op).
    destruct (loads tree l y s f) as [[s1 f1]|] eqn:L1; [|done]. cbn in Hl'.
    destruct (IH _ _ _ _ _ Hl' k Hk) as [Hk1|]; [|right; lia]. destruct (IH _ _ _ _ _ L1 k Hk1); [by left|right; lia].
  - destruct (loads tree l i s f) as [[s1 f1]|] eqn:L1; [|done]. cbn in Hl. destruct (loads tree l t s1 f1) as [[s3 f3]|] eqn:L3; [|done].
    cbn in Hl. destruct (loads tree l e s3 f1) as [[s6 f6]|] eqn:L6; [|done]. injection Hl as <- <-.
    destruct (IH _ _ _ _ _ L6 k Hk) as [Hk3|]; [|right; lia]. destruct (IH _ _ _ _ _ L3 k Hk3) as [Hk1|]; [|right; lia].
    destruct (IH _ _ _ _ _ L1 k Hk1); [by left|right; lia].
Qed.

Lemma loads_seen l : forall n s f s' f', loads tree l n s f = Some (s', f') -> forall k, k ∈ s' -> k ∈ s \/ (k <= n)%nat.
Proof.
  induction l as [|l IH]; intros n s f s' f' Hl k Hk; [done|]. cbn [loads] in Hl.
  destruct (shared tree !! n).
  - destruct (decide (n ∈ s)); [destruct (decide (n ∈ f)); [injection Hl as <- <-; by left|done]|].
    destruct (loads_inside _ _ _ _ _) as [[s1 f1]|] eqn:L1; [|done]. injection Hl as <- <-. apply elem_of_union in Hk as [Hk|Hk].
    + apply elem_of_singleton in Hk. right. lia.
    + destruct (loads_inside_seen l IH _ _ _ _ _ L1 k Hk); [by left|right; lia].
  - destruct (loads_inside_seen l IH _ _ _ _ _ Hl k Hk); [by left|right; lia].
Qed.

(** The instruction of an operator takes the step that its name says. *)
Lemma unary_step op t o code m : unary_code op t = Some o -> arr_get code (ip m) = Some (Int (OP.code o)) ->
  execute_step code src srcOffset destOffset m = on_top (exec_unary o) (at_ip (ip m + 1) m).
Proof.
  intros Eo E. unfold execute_step, cell_int at 1. rewrite E, of_code_code.
  destruct op; try discriminate Eo; cbn in Eo; try destruct t; try discriminate Eo; by injection Eo as <-.
Qed.

Lemma binary_step op o code m : binary_code op = Some o -> arr_get code (ip m) = Some (Int (OP.code o)) ->
  execute_step code src srcOffset destOffset m = on_two (exec_binary o) (at_ip (ip m + 1) m).
Proof.
  intros Eo E. unfold execute_step, cell_int at 1. rewrite E, of_code_code. destruct op; try discriminate Eo; by injection Eo as <-.
Qed.

Section Impl.
Context (l : nat) (IH : forall n c c' filled seen' filled', compile_node tree l n c = (Ok tt, c') ->
  loads tree l n (dom (_tmpMap c)) filled = Some (seen', filled') -> (n < l)%nat -> compiler_ok c -> filled ⊆ dom (_tmpMap c) ->
  compiled c c' seen' filled filled' (depth tree l n) (val n)).
Context (n : nat) (Hn : (n < S l)%nat) (c c' : Compiler) (filled seen' filled' : gset nat).
Hypothesis (Hloads : loads_inside tree (loads tree l) n (dom (_tmpMap c)) filled = Some (seen', filled'))
  (Hc : compiler_ok c) (Hf : filled ⊆ dom (_tmpMap c))
  (Hcomp : _compileNodeImpl tree (compile_node tree l) n c = (Ok tt, c')).

Lemma impl_leaf op x v node : nodes tree !! n = Some node -> c' = mkCompiler (ir c ++ [Int (OP.code op); x]) (_tmpMap c) (_nextTmp c) ->
  loads_inside tree (loads tree l) n (dom (_tmpMap c)) filled = Some (dom (_tmpMap c), filled) -> depth tree (S l) n = 1 -> val n = v ->
  (forall code m, arr_get code (ip m) = Some (Int (OP.code op)) -> arr_get code (ip m + 1) = Some x ->
    execute_step code src srcOffset destOffset m = push v (at_ip (ip m + 1 + 1) m)) ->
  compiled c c' seen' filled filled' (depth tree (S l) n) (val n).
Proof.
  intros En -> Hl Hd Hv Hstep. rewrite Hloads in Hl. injection Hl as -> ->. rewrite Hd, Hv. apply compiled_push; [done|done|].
  intros code m E0 E1 _ _. by apply Hstep.
Qed.

Lemma impl_unary op x t : nodes tree !! n = Some (PsUnaryNode op x t) -> compiled c c' seen' filled filled' (depth tree (S l) n) (val n).
Proof.
  intros En. pose proof (Hok _ _ En) as Hx. cbn in Hx. rewrite (value_eq _ _ _ Hok _ _ En). cbn [depth value_step]. rewrite En.
  unfold loads_inside in Hloads. unfold _compileNodeImpl in Hcomp. rewrite En in Hloads, Hcomp.
  apply mbind_inv in Hcomp as ([] & c1 & E1 & E2). pose proof (IH _ _ _ _ _ _ E1 Hloads ltac:(lia) Hc Hf) as H1.
  destruct (decide (op = TOKEN.cvr)); [by injection E2 as <-|]. unfold emit_code in E2.
  destruct (unary_code op t) as [o|] eqn:Eo; [|done]. injection E2 as <-. apply (compiled_unary _ _ _ _ _ _ _ o []); [done|apply depth_pos; lia|].
  intros code m Hcells. rewrite Z.add_0_r. apply (unary_step op t); [done|]. specialize (Hcells 0%nat _ eq_refl).
  by rewrite Z.add_0_r in Hcells.
Qed.

Lemma impl_shift x y t : nodes tree !! n = Some (PsBinaryNode TOKEN.bitshift x y t) ->
  compiled c c' seen' filled filled' (depth tree (S l) n) (val n).
Proof.
  intros En. pose proof (Hok _ _ En) as [Hx Hy]. rewrite (value_eq _ _ _ Hok _ _ En). cbn [depth value_step]. rewrite En.
  unfold loads_inside in Hloads. unfold _compileNodeImpl in Hcomp. rewrite En in Hloads, Hcomp. unfold const_value in Hcomp.
  destruct (nodes tree !! x) as [[|[amount|]| | |]|] eqn:Ex; try done. destruct (isInteger amount); [|done].
  apply mbind_inv in Hcomp as ([] & c1 & E1 & E2). injection E2 as <-. pose proof (IH _ _ _ _ _ _ E1 Hloads ltac:(lia) Hc Hf) as H1.
  rewrite (value_eq _ _ _ Hok _ _ Ex). cbn [value_step to_num].
  apply (compiled_unary _ _ _ _ _ _ _ OP.SHIFT [Dbl amount]); [done|apply depth_pos; lia|].
  intros code m Hcells. pose proof (Hcells 0%nat _ eq_refl) as E0. pose proof (Hcells 1%nat _ eq_refl) as E2.
  change (Z.of_nat 0) with 0 in E0. change (Z.of_nat 1) with 1 in E2. rewrite Z.add_0_r in E0.
  unfold execute_step, cell_int at 1. rewrite E0, of_code_code. unfold cell_num. by rewrite E2.
Qed.

Lemma impl_binary op x y t : op <> TOKEN.bitshift -> nodes tree !! n = Some (PsBinaryNode op x y t) ->
  compiled c c' seen' filled filled' (depth tree (S l) n) (val n).
Proof.
  intros Hop En. pose proof (Hok _ _ En) as [Hx Hy].
  assert (Hd : depth tree (S l) n = Z.max (depth tree l y) (1 + depth tree l x)) by (cbn [depth]; rewrite En; by destruct op).
  assert (Hv : val n = match binary_code op with Some o => exec_binary o (val y) (val x) | None => S754_nan end).
  { rewrite (value_eq _ _ _ Hok _ _ En). by destruct op. }
  assert (Hl : ('(seen, filled) ← loads tree l y (dom (_tmpMap c)) filled; loads tree l x seen filled) = Some (seen', filled')).
  { rewrite <- Hloads. unfold loads_inside. rewrite En. by destruct op. }
  assert (Hcp : (compile_node tree l y ;;; compile_node tree l x ;;; emit_code (binary_code op)) c = (Ok tt, c')).
  { rewrite <- Hcomp. unfold _compileNodeImpl. rewrite En. by destruct op. }
  rewrite Hd, Hv. destruct (loads tree l y (dom (_tmpMap c)) filled) as [[seen1 filled1]|] eqn:L1; [|done]. cbn in Hl.
  apply mbind_inv in Hcp as ([] & c1 & E1 & Hcp). apply mbind_inv in Hcp as ([] & c2 & E2 & E3).
  pose proof (IH _ _ _ _ _ _ E1 L1 ltac:(lia) Hc Hf) as H1. pose proof H1 as (_ & Hc1 & -> & _ & Hf1 & _).
  pose proof (IH _ _ _ _ _ _ E2 Hl ltac:(lia) Hc1 Hf1) as H2.
  destruct (binary_code op) as [o|] eqn:Eo; [|done]. injection E3 as <-. eapply compiled_binary; [done|done|apply depth_pos; lia|].
  intros code m Hm. by apply (binary_step op).
Qed.

Lemma impl_ternary i t e ty : nodes tree !! n = Some (PsTernaryNode i t e ty) ->
  compiled c c' seen' filled filled' (depth tree (S l) n) (val n).
Proof.
  intros En. pose proof (Hok _ _ En) as (Hi & Ht & He). rewrite (value_eq _ _ _ Hok _ _ En). cbn [depth value_step]. rewrite En.
  unfold loads_inside in Hloads. unfold _compileNodeImpl, _compileTernary in Hcomp. rewrite En in Hloads, Hcomp.
  destruct (loads tree l i _ _) as [[seen1 filled1]|] eqn:L1; [|done]. cbn in Hloads.
  destruct (loads tree l t _ _) as [[seen3 filled3]|] eqn:L3; [|done]. cbn in Hloads.
  destruct (loads tree l e _ _) as [[seen6 filled6]|] eqn:L6; [|done]. cbn in Hloads. injection Hloads as <- <-.
  apply mbind_inv in Hcomp as ([] & c1 & E1 & Hcp). apply mbind_inv in Hcp as ([] & c2 & E2 & Hcp). injection E2 as <-.
  apply mbind_inv in Hcp as (k & c2 & Ek & Hcp). injection Ek as <- <-. apply mbind_inv in Hcp as ([] & c3 & E3 & Hcp).
  apply mbind_inv in Hcp as ([] & c4 & E4 & Hcp). injection E4 as <-. apply mbind_inv in Hcp as (k & c4 & Ek & Hcp).
  injection Ek as <- <-. apply mbind_inv in Hcp as ([] & c5 & E5 & Hcp). injection E5 as <-. apply mbind_inv in Hcp as ([] & c6 & E6 & E7).
  injection E7 as <-. cbn [ir _tmpMap _nextTmp] in *.
  pose proof (IH _ _ _ _ _ _ E1 L1 ltac:(lia) Hc Hf) as H1. pose proof H1 as (_ & Hc1 & -> & _ & Hf1 & _).
  pose proof (IH _ _ _ _ _ _ E3 L3 ltac:(lia) Hc1 Hf1) as H3. pose proof H3 as (Hg3 & Hc3 & -> & Hff3 & Hf3 & _).
  replace (len (ir c3 ++ [Int (OP.code OP.JUMP); Int 0]) - 1) with (len (ir c3) + 1) by cells.
  replace (len (ir c3 ++ [Int (OP.code OP.JUMP); Int 0])) with (len (ir c3) + 2) in E6 by cells.
  pose proof (IH _ _ _ _ _ _ E6 L6 ltac:(lia) Hc3 ltac:(by transitivity filled3)) as H6.
  apply (compiled_ternary _ _ _ _ _ _ _ _ _ _ _ _ _ _ _ _ _ H1 H3 H6).
Qed.

Lemma impl_compiled : compiled c c' seen' filled filled' (depth tree (S l) n) (val n).
Proof.
  destruct (nodes tree !! n) as [node|] eqn:En; [|exfalso; by unfold _compileNodeImpl in Hcomp; rewrite En in Hcomp].
  pose proof (Hok _ _ En) as Hnode. destruct node as [i|v|op x t|op x y t|i t e ty].
  - pose proof Hcomp as Hcp. unfold _compileNodeImpl in Hcp. rewrite En in Hcp. injection Hcp as Ec.
    apply (impl_leaf OP.ARG (Int i) (slot src (srcOffset + i)) (PsArgNode i)); try done; unfold loads_inside; cbn [depth]; rewrite ?En; try done.
    + by rewrite (value_eq _ _ _ Hok _ _ En).
    + intros code m E0 E1. unfold execute_step, cell_int at 1. rewrite E0, of_code_code. unfold cell_int. rewrite E1.
      cbn [node_ok] in Hnode. by rewrite to_int32_small by lia.
  - pose proof Hcomp as Hcp. unfold _compileNodeImpl in Hcp. rewrite En in Hcp. injection Hcp as Ec.
    apply (impl_leaf OP.CONST (Dbl (to_num v)) (to_num v) (PsConstNode v)); try done; unfold loads_inside; cbn [depth]; rewrite ?En; try done.
    + by rewrite (value_eq _ _ _ Hok _ _ En).
    + intros code m E0 E1. unfold execute_step, cell_int at 1. rewrite E0, of_code_code. unfold cell_num. by rewrite E1.
  - by eapply impl_unary.
  - destruct (decide (op = TOKEN.bitshift)) as [->|Hne]; [by eapply impl_shift|by eapply impl_binary].
  - by eapply impl_ternary.
Qed.
End Impl.

(** The code of a node leaves its value on the stack. *)
Lemma compile_node_compiled l : forall n c c' filled seen' filled', compile_node tree l n c = (Ok tt, c') ->
  loads tree l n (dom (_tmpMap c)) filled = Some (seen', filled') -> (n < l)%nat -> compiler_ok c -> filled ⊆ dom (_tmpMap c) ->
  compiled c c' seen' filled filled' (depth tree l n) (val n).
Proof.
  induction l as [|l IH]; intros n c c' filled seen' filled' Hcp Hl Hn Hc Hf; [lia|]. cbn [compile_node loads] in *.
  destruct (shared tree !! n); [|by apply (impl_compiled l IH)].
  destruct (_tmpMap c !! n) as [s|] eqn:Es; apply mbind_inv in Hcp as (c0 & c0' & E0 & Hcp); injection E0 as <- <-; rewrite Es in Hcp.
  - rewrite decide_True in Hl by (by apply elem_of_dom_2 in Es). destruct (decide (n ∈ filled)) as [Hin|]; [|done].
    injection Hl as <- <-. injection Hcp as <-. apply (compiled_depth _ _ _ _ _ 1); [|apply depth_pos; lia]. by apply compiled_load.
  - rewrite decide_False in Hl by (by apply not_elem_of_dom).
    destruct (loads_inside _ _ _ _ _) as [[seen1 filled1]|] eqn:L1; [|done]. cbn in Hl. injection Hl as <- <-.
    apply mbind_inv in Hcp as ([] & c1 & E1 & Hcp). apply mbind_inv in Hcp as (c2 & c2' & E2 & Hcp). injection E2 as <- <-.
    apply mbind_inv in Hcp as ([] & c2 & E2 & E3). injection E2 as <-. injection E3 as <-. cbn [ir _tmpMap _nextTmp].
    pose proof (impl_compiled l IH n Hn c c1 filled seen1 filled1 L1 Hc Hf E1) as H1.
    apply compiled_tee; [done|by apply depth_pos| |done].
    intros Hin. destruct (loads_inside_seen l (loads_seen l) n _ _ _ _ L1 n Hin) as [Hd|Hlt]; [|lia].
    by apply not_elem_of_dom in Es.
Qed.

(** ** Code for the outputs *)

(** The assignment of an output. *)
Definition written (range : list float) (i : Z) (out : nat) : Z * float :=
  (destOffset + i, MathClamp (val out) (slot range (i * 2)) (slot range (i * 2 + 1))).
Fixpoint all_written (range : list float) (i : Z) (outs : list nat) : list (Z * float) :=
  match outs with
  | [] => []
  | out :: outs => written range i out :: all_written range (i + 1) outs
  end.

(** The machine between two outputs, with an empty stack. *)
Definition between (c : Compiler) (filled : gset nat) (m : Machine) : Prop :=
  ip m = len (ir c) /\ sp m = 0 /\ arrays_ok m /\ slots_hold c filled m.

Lemma store_step range i out code m0 m : 0 <= i < 2 ^ 31 -> pushed (val out) m0 m -> sp m0 = 0 ->
  arr_get code (ip m) = Some (Int (OP.code OP.STORE)) -> arr_get code (ip m + 1) = Some (Int i) ->
  arr_get code (ip m + 2) = Some (Dbl (slot range (i * 2))) -> arr_get code (ip m + 3) = Some (Dbl (slot range (i * 2 + 1))) ->
  execute_step code src srcOffset destOffset m =
    mkMachine (ip m + 4) 0 (stack m) (tmp m) (writes m ++ [written range i out]).
Proof.
  intros Hi (Hsp & Hv & _) Hsp0 E0 E1 E2 E3. unfold execute_step, cell_int at 1. rewrite E0, of_code_code. unfold cell_int, cell_num.
  rewrite E1, to_int32_small by lia. replace (ip m + 1 + 1) with (ip m + 2) by lia. replace (ip m + 1 + 2) with (ip m + 3) by lia.
  rewrite E2, E3, Hsp. replace (sp m0 + 1 - 1) with (sp m0) by lia. rewrite Hv. unfold written. f_equal; lia.
Qed.

Lemma outputs_compiled range outs : forall i c c' filled seen' filled', compile_outputs tree range i outs c = (Ok tt, c') ->
  loads_outputs tree outs (dom (_tmpMap c)) filled = Some (seen', filled') -> forallb (fun n => depth tree (S n) n <=? 64) outs = true ->
  compiler_ok c -> filled ⊆ dom (_tmpMap c) -> 0 <= i -> i + len outs < 2 ^ 31 ->
  grows c c' /\ compiler_ok c' /\ seen' = dom (_tmpMap c') /\
  forall code m, covers c c' code -> _nextTmp c' <= 64 -> between c filled m ->
    exists m', goes_in code m m' /\ ip m' = len (ir c') /\ writes m' = writes m ++ all_written range i outs.
Proof.
  induction outs as [|out outs IH]; intros i c c' filled seen' filled' Hcp Hl Hd Hc Hf Hi Hlen; cbn [compile_outputs loads_outputs forallb all_written] in *.
  - injection Hcp as <-. injection Hl as <- <-. split; [done|]. split; [done|]. split; [done|]. intros code m _ _ (Hip & _).
    exists m. split; [apply goes_refl|]. by rewrite app_nil_r.
  - rewrite len_cons in Hlen. apply andb_true_iff in Hd as [Hd1 Hd].
    destruct (loads tree (S out) out _ _) as [[seen1 filled1]|] eqn:L1; [|done]. cbn in Hl.
    apply mbind_inv in Hcp as ([] & c1 & E1 & Hcp). apply mbind_inv in Hcp as ([] & c2 & E2 & Hcp). injection E2 as <-.
    destruct (compile_node_compiled _ _ _ _ _ _ _ E1 L1 ltac:(lia) Hc Hf) as (Hg1 & Hc1 & -> & Hff1 & Hf1 & Hrun).
    set (c2 := mkCompiler _ _ _) in Hcp. assert (Hg12 : grows c1 c2) by apply grows_emit.
    destruct (IH (i + 1) c2 c' filled1 seen' filled' Hcp Hl Hd Hc1 Hf1 ltac:(lia) ltac:(lia)) as (Hg2 & Hc' & Hseen & Hruns).
    assert (Hg : grows c c2) by (by etransitivity). split; [by etransitivity|]. split; [done|]. split; [done|].
    intros code m Hcov Ht (Hip & Hsp & Harr & Hsl).
    assert (Hcov2 : covers c c2 code) by (by eapply covers_before).
    assert (Ht1 : _nextTmp c1 <= 64) by (destruct Hg2 as (_ & _ & H2); cbn in H2; lia).
    destruct (Hrun code m) as (m1 & Hgo & Hip1 & Hp & Hsl1); try done; [by eapply covers_before|lia|lia|].
    pose proof (fun k x => covers_emit _ _ _ _ k x Hcov2 Hg1) as Hcells. rewrite <- Hip1 in Hcells.
    pose proof (Hcells 0%nat _ eq_refl) as A0. change (Z.of_nat 0) with 0 in A0. rewrite Z.add_0_r in A0.
    pose proof (store_step range i out code m m1 ltac:(pose proof (len_nonneg outs); lia) Hp Hsp A0
      (Hcells 1%nat _ eq_refl) (Hcells 2%nat _ eq_refl) (Hcells 3%nat _ eq_refl)) as Es.
    set (m2 := mkMachine _ _ _ _ _) in Es. assert (Hgo1 : goes_in code m1 m2) by (eapply (goes_op _ _ _ _ _ OP.STORE); [done|exact Es|cbn; lia]).
    destruct (Hruns code m2 ltac:(by eapply covers_after) Ht) as (m' & Hgo' & Hip' & Hw'); [|exists m'].
    { split; [unfold c2, m2; cells|]. split; [done|]. split; [exact (arrays_ok_pushed _ _ _ Hp Harr)|done]. }
    split; [by do 2 (eapply goes_trans; [eassumption|])|]. split; [done|]. rewrite Hw'. cbn [writes m2].
    destruct Hp as (_ & _ & _ & _ & _ & ->). by rewrite <- app_assoc.
Qed.

(** The code of the outputs assigns their values, cut off at the bounds. *)
Lemma execute_outputs range outs c stack0 tmp0 : compile_outputs tree range 0 outs new_Compiler = (Ok tt, c) -> fits tree outs = true ->
  len outs < 2 ^ 31 -> len stack0 = 64 -> len tmp0 = 64 ->
  exists m, execute (ir c) src srcOffset destOffset stack0 tmp0 = Ok m /\ writes m = all_written range 0 outs.
Proof.
  intros Hcp Hfits Hlen Hs Ht. unfold fits in Hfits. apply andb_true_iff in Hfits as [Hd Hl].
  destruct (loads_outputs tree outs ∅ ∅) as [[seen filled]|] eqn:L; [|done].
  assert (L' : loads_outputs tree outs (dom (_tmpMap new_Compiler)) ∅ = Some (seen, filled)) by (rewrite <- L; f_equal; apply dom_empty_L).
  destruct (outputs_compiled range outs 0 new_Compiler c ∅ seen filled Hcp L' Hd) as (Hg & [Hn Hsl] & -> & Hrun); [|apply empty_subseteq|done|done|].
  { split; [by vm_compute|]. intros n s Hns. change (_tmpMap new_Compiler) with (∅ : gmap nat Z) in Hns. by rewrite lookup_empty in Hns. }
  rewrite size_dom in Hl.
  destruct (Hrun (ir c) (mkMachine 0 0 stack0 tmp0 [])) as (m' & [_ (turns & Hturns & Hgo)] & Hip & Hw).
  - by intros i x _.
  - lia.
  - split; [done|]. split; [done|]. split; [done|]. intros n s Hn0. set_solver.
  - exists m'. split; [|done]. unfold execute. cbn [ip] in Hturns. unfold len in *. rewrite Hip in Hturns.
    replace (length (ir c)) with (turns + (length (ir c) - turns))%nat by lia. rewrite Hgo.
    destruct (length (ir c) - turns)%nat; cbn; rewrite Hip; unfold len; by rewrite Z.ltb_irrefl.
Qed.
End Compiled.
