(* ===== verification/PsSpec.v ===== *)
(** * Calculator functions: what a program computes

    The meaning of a program, after the specification of PDF: a stack of at most
    a hundred typed values, arithmetic on numbers, logic on truth values.  It is
    left undefined where the specification calls for an error (a missing operand,
    an operand of the wrong type, a result that is no finite number, a stack that
    is too high), and for the operators whose results the platform or the kind of
    execution decides (powers, sines, logarithms, quotients and remainders of
    integers, rounding to the nearest, [not] of integers).  Integers have 32 bits
    and are shifted by less than that.  A quotient is defined when the product
    with the reciprocal is the same number, as for divisors that are powers of
    two. *)
From Stdlib Require Import SpecFloat.
From S2P Require Import Prelude Number64 FloatLaws PsParser PsTree PsCompiler.
Local Open Scope js_scope.

(** ** Values up to the sign of zero *)

Definition vequiv (v w : jsval) : Prop :=
  match v, w with
  | Num x, Num y => x ≈ y
  | Bool a, Bool b => a = b
  | _, _ => False
  end.
Infix "≃" := vequiv (at level 70) : js_scope.

#[global] Instance vequiv_equivalence : Equivalence vequiv.
Proof.
  split.
  - intros []; cbn; reflexivity.
  - intros [] [] H; cbn in *; try done; by symmetry.
  - intros [] [] [] H1 H2; cbn in *; try done; by etransitivity.
Qed.

Definition double_value (v : jsval) : Prop := match v with Num x => is_double x = true | Bool _ => True end.

(** ** Operators *)

(** A number as a result. *)
Definition num (x : float) : option jsval := if is_double x then Some (Num x) else None.

(** An integer of 32 bits as an operand. *)
Definition spec_int (v : jsval) : option Z :=
  match v with
  | Num x => if isInteger x && (float_int x =? match x with S754_finite s m e => trunc_Z s m e | _ => 0 end) then Some (float_int x) else None
  | Bool _ => None
  end.
#[global] Arguments spec_int v : simpl never.
(** An integer as a result. *)
Definition int (z : Z) : jsval := Num (of_Z z).

Definition spec_unary (op : TOKEN.t) (v : jsval) : option jsval :=
  match op, v with
  | TOKEN.abs, Num x => num (math_abs x)
  | TOKEN.neg, Num x => num (fopp x)
  | TOKEN.ceiling, Num x => num (math_ceil x)
  | TOKEN.floor, Num x => num (math_floor x)
  | TOKEN.truncate, Num x => num (math_trunc x)
  | TOKEN.sqrt, Num x => num (math_sqrt x)
  | TOKEN.cvr, Num x => num x
  | TOKEN.cvi, Num x => z ← spec_int (Num (math_trunc x)); Some (int z)
  | TOKEN.not, Bool b => Some (Bool (negb b))
  | _, _ => None
  end.

(** Division by [y] is multiplication by its reciprocal. *)
Definition exact_quotient (x y : float) : bool :=
  negb (feq y fzero) && is_double (fdiv fone y) && is_double (fdiv x y) && feq (fmul x (fdiv fone y)) (fdiv x y).

(** An operator on the bits of two integers. *)
Definition on_bits (f : Z -> Z -> Z) (v w : jsval) : option jsval := a ← spec_int v; b ← spec_int w; Some (int (f a b)).
#[global] Arguments on_bits f v w : simpl never.

(** The shift by a distance with a sign. *)
Definition shifted (v n : Z) : Z := if 0 <=? n then v .<< n else v .>> (- n).

(** [b] is the upper operand. *)
Definition spec_binary (op : TOKEN.t) (a b : jsval) : option jsval :=
  match op, a, b with
  | TOKEN.add, Num x, Num y => num (fadd x y)
  | TOKEN.sub, Num x, Num y => num (fsub x y)
  | TOKEN.mul, Num x, Num y => num (fmul x y)
  | TOKEN.div, Num x, Num y => if exact_quotient x y then num (fdiv x y) else None
  | TOKEN.eq, Num x, Num y => Some (Bool (feq x y))
  | TOKEN.eq, Bool x, Bool y => Some (Bool (eqb x y))
  | TOKEN.ne, Num x, Num y => Some (Bool (negb (feq x y)))
  | TOKEN.ne, Bool x, Bool y => Some (Bool (negb (eqb x y)))
  | TOKEN.gt, Num x, Num y => Some (Bool (flt y x))
  | TOKEN.ge, Num x, Num y => Some (Bool (fle y x))
  | TOKEN.lt, Num x, Num y => Some (Bool (flt x y))
  | TOKEN.le, Num x, Num y => Some (Bool (fle x y))
  | TOKEN.and, Bool x, Bool y => Some (Bool (x && y))
  | TOKEN.or, Bool x, Bool y => Some (Bool (x || y))
  | TOKEN.and, Num _, Num _ => on_bits js_and a b
  | TOKEN.or, Num _, Num _ => on_bits js_or a b
  | TOKEN.xor, Num _, Num _ => on_bits js_xor a b
  | TOKEN.bitshift, Num _, Num _ =>
      n ← spec_int b;
      if (-31 <=? n) && (n <=? 31) then on_bits shifted a b else None
  | _, _, _ => None
  end.

(** A stack that is not too high. *)
Definition within (stack : list jsval) : option (list jsval) :=
  if Nat.leb (length stack) MAX_STACK_SIZE then Some stack else None.

Definition spec_op (op : TOKEN.t) (stack : list jsval) : option (list jsval) :=
  if binaryOps op then
    match stack with b :: a :: stack => v ← spec_binary op a b; Some (v :: stack) | _ => None end
  else if unaryOps op then
    match stack with a :: stack => v ← spec_unary op a; Some (v :: stack) | _ => None end
  else
    match op, stack with
    | TOKEN.true, _ => within (Bool true :: stack)
    | TOKEN.false, _ => within (Bool false :: stack)
    | TOKEN.dup, v :: _ => within (v :: stack)
    | TOKEN.exch, b :: a :: stack => Some (a :: b :: stack)
    | TOKEN.pop, _ :: stack => Some stack
    | TOKEN.copy, nv :: stack =>
        n ← spec_int nv;
        if (0 <=? n) && (n <=? len stack) then within (take (Z.to_nat n) stack ++ stack) else None
    | TOKEN.index, iv :: stack =>
        i ← spec_int iv;
        if 0 <=? i then v ← stack !! Z.to_nat i; Some (v :: stack) else None
    | TOKEN.roll, jv :: nv :: stack =>
        j ← spec_int jv;
        n ← spec_int nv;
        if (1 <=? n) && (n <=? len stack) then
          let j := Z.to_nat (j mod n) in
          let rolled := take (Z.to_nat n) stack in
          Some (drop j rolled ++ take j rolled ++ drop (Z.to_nat n) stack)
        else None
    | _, _ => None
    end.

(** ** Programs *)

Fixpoint spec_block (block : PsBlock) (stack : list jsval) : option (list jsval) :=
  match block with
  | Done => Some stack
  | Then (PsNumber value) rest => if is_double value then stack ← within (Num value :: stack); spec_block rest stack else None
  | Then (PsOperator op) rest => stack ← spec_op op stack; spec_block rest stack
  | Then (PsIf then_) rest =>
      match stack with
      | Bool c :: stack => stack ← (if c then spec_block then_ stack else Some stack); spec_block rest stack
      | _ => None
      end
  | Then (PsIfElse then_ otherwise) rest =>
      match stack with
      | Bool c :: stack => stack ← (if c then spec_block then_ stack else spec_block otherwise stack); spec_block rest stack
      | _ => None
      end
  end.

(** The results of a program, the first output first. *)
Definition spec_run (program : PsProgram) (inputs : list float) : option (list jsval) :=
  if forallb is_double inputs && Nat.leb (length inputs) MAX_STACK_SIZE
  then stack ← spec_block (body program) (rev (map Num inputs)); Some (rev stack)
  else None.

(** The inputs of a function: the numbers of an array from an offset on. *)
Definition inputs (src : list float) (srcOffset : Z) (count : nat) : list float :=
  map (fun i => slot src (srcOffset + Z.of_nat i)) (seq 0 count).

(** The results, cut off at the bounds of the range, at their places in the
    array of the outputs. *)
Fixpoint assigned (range : list float) (destOffset i : Z) (outs : list jsval) : list (Z * float) :=
  match outs with
  | [] => []
  | v :: outs =>
      (destOffset + i, MathClamp (to_num v) (slot range (i * 2)) (slot range (i * 2 + 1))) :: assigned range destOffset (i + 1) outs
  end.

(** ** The operators respect the equivalence of values *)

Lemma num_cong x y v : x ≈ y -> num x = Some v -> exists w, num y = Some w /\ v ≃ w.
Proof. intros Hxy. unfold num. rewrite Hxy. destruct (is_double y); [|done]. intros [= <-]. by eexists. Qed.

Lemma num_inv x v : num x = Some v -> v = Num x /\ is_double x = true.
Proof. unfold num. destruct (is_double x); [|done]. by intros [= <-]. Qed.

Lemma spec_int_cong v w n : v ≃ w -> spec_int v = Some n -> spec_int w = Some n.
Proof. destruct v as [x|], w as [y|]; cbn; try done. intros H. unfold spec_int. by fcases H. Qed.

Lemma on_bits_cong f a a' b b' : a ≃ a' -> b ≃ b' -> forall r, on_bits f a b = Some r -> on_bits f a' b' = Some r.
Proof.
  unfold on_bits. intros Ha Hb r. destruct (spec_int a) as [x|] eqn:Ex; [|done]. destruct (spec_int b) as [y|] eqn:Ey; [|done].
  by rewrite (spec_int_cong _ _ _ Ha Ex), (spec_int_cong _ _ _ Hb Ey).
Qed.

Lemma spec_unary_cong op v v' r : v ≃ v' -> spec_unary op v = Some r -> exists r', spec_unary op v' = Some r' /\ r ≃ r'.
Proof.
  destruct v as [x|a], v' as [y|b]; cbn; try done; intros H; destruct op; cbn; try done.
  all: try (apply num_cong; by rewrite H). 2: { subst. intros [= <-]. by eexists. }
  destruct (spec_int (Num (math_trunc x))) as [z|] eqn:Ez; [|done]. intros [= <-].
  rewrite (spec_int_cong (Num (math_trunc x)) (Num (math_trunc y)) z (math_trunc_proper _ _ H) Ez). by eexists.
Qed.

Lemma fdiv_proper_l x x' y : x ≈ x' -> feq y fzero = false -> fdiv x y ≈ fdiv x' y.
Proof. intros H Hy. fcases H; [done|]. destruct y as [[]|[]| |]; done. Qed.

Lemma exact_quotient_cong x x' y : x ≈ x' -> feq y fzero = false -> exact_quotient x y = exact_quotient x' y.
Proof. intros H Hy. pose proof (fdiv_proper_l x x' y H Hy) as Hq. unfold exact_quotient. by rewrite (is_double_proper _ _ Hq), (feq_proper _ _ (fmul_proper _ _ H _ _ (reflexivity _)) _ _ Hq). Qed.

Lemma spec_binary_cong op a a' b b' r : a ≃ a' -> b ≃ b' -> spec_binary op a b = Some r ->
  exists r', spec_binary op a' b' = Some r' /\ r ≃ r'.
Proof.
  destruct a as [x|x], a' as [x'|x'], b as [y|y], b' as [y'|y']; cbn; try done; intros Hx Hy; destruct op; cbn; try done.
  all: try (apply num_cong; by rewrite Hx, Hy).
  all: try (subst; intros [= <-]; by eexists).
  all: try (intros [= <-]; eexists; split; [done|]; cbn; by rewrite Hx, Hy).
  (* operators on bits *)
  2-4: intros E; exists r; split; [exact (on_bits_cong _ (Num x) (Num x') (Num y) (Num y') Hx Hy _ E)|reflexivity].
  2: { intros E. exists r. split; [|reflexivity]. destruct (spec_int (Num y)) as [n|] eqn:En; [|done].
       rewrite (spec_int_cong (Num y) (Num y') n Hy En). cbn [base.mbind option_bind] in *. destruct (_ && _); [|done].
       exact (on_bits_cong _ (Num x) (Num x') (Num y) (Num y') Hx Hy _ E). }
  (* the quotient *)
  destruct (exact_quotient x y) eqn:E; [|done]. assert (Hy0 : feq y fzero = false) by (unfold exact_quotient in E; by destruct (feq y fzero)).
  assert (Hyy : y = y') by (apply fequiv_cases in Hy as [?|(s & t & -> & ->)]; [done|by destruct s]). subst y'.
  rewrite <- (exact_quotient_cong x x' y Hx Hy0), E. apply num_cong. by apply fdiv_proper_l.
Qed.

Lemma within_length stack stack' : within stack = Some stack' -> stack' = stack /\ (length stack <= MAX_STACK_SIZE)%nat.
Proof. unfold within. destruct (Nat.leb _ _) eqn:E; [|done]. intros [= <-]. split; [done|by apply Nat.leb_le]. Qed.

(** The rotation that [roll] computes with the remainders of the language. *)
Lemma rem_mod_pos j n : 1 <= n -> Z.rem (Z.rem j n + n) n = j mod n.
Proof.
  intros Hn. pose proof (Z.rem_bound_abs j n ltac:(lia)). rewrite Z.rem_mod_nonneg by lia.
  rewrite <- Z.add_mod_idemp_r, Z.mod_same, Z.add_0_r by lia. pose proof (Z.quot_rem' j n) as Hq.
  symmetry. rewrite Hq at 1. rewrite Z.mul_comm, Z.add_comm. apply Z_mod_plus_full.
Qed.

(** ** Integers *)

Definition is_int32 (z : Z) : Prop := - 2 ^ 31 <= z < 2 ^ 31.

Lemma trunc_sign s m e : isInteger (S754_finite s m e) = true -> if s then trunc_Z s m e < 0 else 0 < trunc_Z s m e.
Proof.
  intros Hi. assert (Hn : 0 < if 0 <=? e then Z.pos m * 2 ^ e else Z.pos m / 2 ^ (- e)).
  { destruct (0 <=? e) eqn:He; [apply Z.leb_le in He|apply Z.leb_gt in He].
    - pose proof (Z.pow_pos_nonneg 2 e ltac:(lia) ltac:(lia)). nia.
    - cbn [isInteger] in Hi. rewrite (proj2 (Z.leb_gt 0 e)) in Hi by done. apply Z.eqb_eq in Hi.
      pose proof (Z.pow_pos_nonneg 2 (- e) ltac:(lia) ltac:(lia)) as Hp. pose proof (Z.div_mod (Z.pos m) (2 ^ (- e)) ltac:(lia)) as Hd.
      rewrite Hi in Hd. nia. }
  unfold trunc_Z. destruct s; lia.
Qed.

(** What the code reads of a number that is an integer: its bits and its sign. *)
Lemma spec_int_reads x z : spec_int (Num x) = Some z ->
  is_int32 z /\ float_int x = z /\ flt fzero x = (0 <? z) /\ flt x fzero = (z <? 0) /\ fle fzero x = (0 <=? z) /\ float_int (fopp x) = to_int32 (- z).
Proof.
  unfold spec_int, is_int32. destruct (isInteger x && _) eqn:E; [|done]. intros [= <-]. apply andb_true_iff in E as [Hi E]. apply Z.eqb_eq in E.
  destruct x as [s|s| |s m e]; try done; cbn [float_int] in *. pose proof (to_int32_range (trunc_Z s m e)) as Hr. rewrite E in *.
  split; [done|]. split; [done|]. pose proof (trunc_sign s m e Hi) as Hs.
  assert (Eo : trunc_Z (negb s) m e = - trunc_Z s m e) by (unfold trunc_Z; destruct s; cbn [negb]; lia).
  cbn [fopp SFopp float_int]. rewrite Eo. revert Hs. generalize (trunc_Z s m e). intros z Hs.
  destruct s; cbn [flt fle SFltb SFleb SFcompare fzero]; repeat split; symmetry;
    first [apply Z.ltb_lt; lia | apply Z.ltb_ge; lia | apply Z.leb_le; lia | apply Z.leb_gt; lia].
Qed.

(** A double that is an integer is the double of that integer. *)
Lemma spec_int_double x z : is_double x = true -> spec_int (Num x) = Some z -> Num x ≃ int z.
Proof.
  intros Hd Hz. destruct (spec_int_reads x z Hz) as (Hr & Ef & _). unfold spec_int in Hz. destruct (isInteger x && _) eqn:E; [|done].
  apply andb_true_iff in E as [Hi E]. apply Z.eqb_eq in E. rewrite E in Ef. destruct x as [s|s| |s m e]; try done; [by subst|].
  unfold is_double in Hd. apply andb_true_iff in Hd as [_ Hb]. unfold is_int32 in Hr.
  destruct (of_Z_trunc s m e Hb Hi) as [Ez _]; [lia|]. rewrite <- Ef. unfold int. by rewrite Ez.
Qed.

Lemma spec_int_int z : is_int32 z -> spec_int (int z) = Some z /\ math_trunc (of_Z z) = of_Z z /\ double_value (int z).
Proof.
  intros Hz. destruct (of_Z_int z Hz) as (Hi & Hf & Ht). unfold is_int32 in Hz.
  assert (Hd : is_double (of_Z z) = true) by (apply is_double_of_Z; lia). split; [|split; [|done]].
  - unfold spec_int, int. rewrite Hi, Hf. cbn [andb]. destruct (of_Z z); try done; by rewrite Ht, ?Z.eqb_refl.
  - destruct (of_Z z) as [s|s| |s m e] eqn:E; try done. unfold is_double in Hd. apply andb_true_iff in Hd as [_ Hb].
    apply math_trunc_int; [done|done|lia].
Qed.

(** The integers on which an operator on bits works. *)
Lemma on_bits_inv f x y v : on_bits f (Num x) (Num y) = Some v ->
  exists a b, spec_int (Num x) = Some a /\ spec_int (Num y) = Some b /\ float_int x = a /\ float_int y = b /\ is_int32 a /\ is_int32 b /\ v = int (f a b).
Proof.
  unfold on_bits. destruct (spec_int (Num x)) as [a|] eqn:Ea; [|done]. destruct (spec_int (Num y)) as [b|] eqn:Eb; [|done].
  cbn. intros [= <-]. destruct (spec_int_reads x a Ea) as (Ha & Efa & _). destruct (spec_int_reads y b Eb) as (Hb & Efb & _). by exists a, b.
Qed.

(** The results of the operators on bits are integers of 32 bits. *)
Lemma is_int32_bits a b : is_int32 (a .& b) /\ is_int32 (a .| b) /\ is_int32 (a .^ b) /\ is_int32 (a .<< b) /\ is_int32 (a .>> b).
Proof.
  destruct (int32_bits a b) as (H1 & H2 & H3). split; [done|]. split; [done|]. split; [done|]. split; [apply to_int32_range|apply int32_sar].
Qed.

Lemma is_int32_shifted v n : is_int32 (shifted v n).
Proof. unfold shifted. destruct (0 <=? n); apply is_int32_bits. Qed.

Lemma shifted_0 v : is_int32 v -> shifted v 0 = v /\ v .>> 0 = v.
Proof.
  intros Hv. unfold shifted, js_shl, js_sar. change (0 mod 32) with 0. cbn [Z.leb Z.compare]. rewrite Z.shiftl_0_r, Z.shiftr_0_r.
  by rewrite !to_int32_small by (done || by rewrite to_int32_small).
Qed.

Lemma spec_shift_inv a b r : spec_binary TOKEN.bitshift a b = Some r ->
  exists x y v n, a = Num x /\ b = Num y /\ spec_int (Num x) = Some v /\ spec_int (Num y) = Some n /\ - 31 <= n <= 31 /\ r = int (shifted v n).
Proof.
  destruct a as [x|], b as [y|]; try done. cbn. destruct (spec_int (Num y)) as [n|] eqn:En; [|done]. cbn.
  destruct (_ && _) eqn:E; [|done]. intros H. apply on_bits_inv in H as (v & n' & Ev & En' & _ & _ & _ & _ & ->).
  exists x, y, v, n. assert (n' = n) as -> by congruence. do 4 (split; [done|]). split; [lia|done].
Qed.
