(* ===== verification/PsSimplify.v ===== *)
(** * Calculator functions: what expressions mean, and that simplifying is right

    The meaning of a node, after the specification in PsSpec, in a heap where
    every node was made after its operands and has the type of what it computes.
    Nodes that are equal mean the same, and the code of a node computes what it
    means.  [_makeUnary] and [_makeBinary], but for divisions and powers, end
    within the turns they are given, keep the heap well formed, and return a node
    that stands for what the operator makes of its operands. *)
From stdpp Require Import gmap.
From Stdlib Require Import SpecFloat.
From S2P Require Import Prelude Number64 FloatLaws PsParser PsTree PsSpec PsCompiler PsCompilerSpec.
Local Open Scope js_scope.

(** ** Heaps *)

(** The type that a node has been given. *)
Definition node_typed (h : heap) (node : PsNode) : Prop :=
  match node with
  | PsUnaryNode op x t => t = _unaryValueType op (value_type h x)
  | PsBinaryNode op f s t => t = _binaryValueType op (value_type h f) (value_type h s)
  | PsTernaryNode _ t e ty => ty = if decide (value_type h t = value_type h e) then value_type h t else unknown
  | _ => True
  end.
Definition wf (h : heap) : Prop := heap_ok h /\ forall n node, h !! n = Some node -> node_typed h node.

(** A heap after more nodes were made. *)
Definition extends (h h' : heap) : Prop := exists more, h' = h ++ more.

#[global] Instance extends_preorder : PreOrder extends.
Proof.
  split; [intros h; exists []; by rewrite app_nil_r|]. intros h1 h2 h3 [m1 ->] [m2 ->]. exists (m1 ++ m2). by rewrite app_assoc.
Qed.

Lemma extends_lookup h h' n node : extends h h' -> h !! n = Some node -> h' !! n = Some node.
Proof. intros [more ->] E. by apply lookup_app_l_Some. Qed.

Lemma extends_length h h' : extends h h' -> (length h <= length h')%nat.
Proof. intros [more ->]. rewrite length_app. lia. Qed.

Lemma extends_alloc h node : extends h (h ++ [node]).
Proof. by eexists. Qed.

Lemma value_type_extends h h' n : extends h h' -> (n < length h)%nat -> value_type h' n = value_type h n.
Proof. intros [more ->] Hn. unfold value_type. by rewrite lookup_app_l. Qed.

Lemma const_value_extends h h' n v : extends h h' -> const_value h n = Some v -> const_value h' n = Some v.
Proof.
  intros He. unfold const_value. destruct (h !! n) as [[]|] eqn:E; try done. intros [= ->]. by rewrite (extends_lookup _ _ _ _ He E).
Qed.

Lemma node_typed_extends h h' n node : extends h h' -> (n <= length h)%nat -> node_ok h n node -> node_typed h node -> node_typed h' node.
Proof.
  intros He Hn Hok. destruct node; cbn in *; try done; rewrite !(value_type_extends h h') by (done || lia); done.
Qed.

(** A new node of the right type. *)
Lemma wf_alloc h node : wf h -> node_ok h (length h) node -> node_typed h node -> wf (h ++ [node]).
Proof.
  intros [Hok Hty] Hn Ht. split.
  - intros n nd E. apply lookup_app_Some in E as [E|[Hl E]]; [by apply Hok in E|]. apply list_lookup_singleton_Some in E as [E <-].
    by replace n with (length h) by lia.
  - intros n nd E. pose proof (extends_alloc h node) as He. apply lookup_app_Some in E as [E|[Hl E]].
    + apply (node_typed_extends h _ n); [done| |by apply Hok in E|by apply (Hty n)]. apply lookup_lt_Some in E. lia.
    + apply list_lookup_singleton_Some in E as [E <-]. by apply (node_typed_extends h _ (length h)).
Qed.

Lemma wf_operands h n node : wf h -> h !! n = Some node -> node_ok h n node.
Proof. intros [Hok _]. apply Hok. Qed.

(** ** The meaning of nodes *)

(** The operators that only simplification makes. *)
Definition node_binary (op : TOKEN.t) (a b : jsval) : option jsval :=
  match op, a, b with
  | TOKEN.min, Num x, Num y => num (math_min x y)
  | TOKEN.max, Num x, Num y => num (math_max x y)
  | _, _, _ => spec_binary op a b
  end.

Lemma node_binary_cong op a a' b b' r : a ≃ a' -> b ≃ b' -> node_binary op a b = Some r ->
  exists r', node_binary op a' b' = Some r' /\ r ≃ r'.
Proof.
  destruct (decide (op = TOKEN.min)) as [->|Hmin]; [|destruct (decide (op = TOKEN.max)) as [->|Hmax]].
  1, 2: destruct a as [x|], a' as [x'|], b as [y|], b' as [y'|]; cbn; try done; intros Hx Hy; apply num_cong; by rewrite Hx, Hy.
  intros Ha Hb H. assert (E : forall a b, node_binary op a b = spec_binary op a b) by (intros; by destruct op).
  rewrite E in H. setoid_rewrite E. by apply (spec_binary_cong op a a' b b').
Qed.

Section Means.
Context (args : Z -> float).

Inductive means (h : heap) : nat -> jsval -> Prop :=
| means_arg n i : h !! n = Some (PsArgNode i) -> is_double (args i) = true -> means h n (Num (args i))
| means_const n v : h !! n = Some (PsConstNode v) -> double_value v -> means h n v
| means_unary n op x t a v : h !! n = Some (PsUnaryNode op x t) -> means h x a -> spec_unary op a = Some v -> means h n v
| means_binary n op f s t a b v : h !! n = Some (PsBinaryNode op f s t) -> means h s a -> means h f b ->
    node_binary op a b = Some v -> means h n v
| means_then n c t e ty v : h !! n = Some (PsTernaryNode c t e ty) -> means h c (Bool true) -> means h t v -> means h n v
| means_else n c t e ty v : h !! n = Some (PsTernaryNode c t e ty) -> means h c (Bool false) -> means h e v -> means h n v.

(** The node stands for the value, up to the sign of zero. *)
Definition stands (h : heap) (n : nat) (v : jsval) : Prop := exists w, means h n w /\ w ≃ v.

Lemma means_extends h h' n v : extends h h' -> means h n v -> means h' n v.
Proof.
  intros He Hm. induction Hm as [n i E|n v E|n op x t a v E|n op f s t a b v E|n c t e ty v E|n c t e ty v E];
    apply (extends_lookup _ _ _ _ He) in E; by econstructor.
Qed.
Lemma stands_extends h h' n v : extends h h' -> stands h n v -> stands h' n v.
Proof. intros He (w & Hw & E). exists w. split; [by eapply means_extends|done]. Qed.

Lemma means_stands h n v : means h n v -> stands h n v.
Proof. intros Hm. by exists v. Qed.
Lemma stands_cong h n v w : stands h n v -> v ≃ w -> stands h n w.
Proof. intros (u & Hu & E) E'. exists u. split; [done|by etransitivity]. Qed.

Lemma means_det h n v w : means h n v -> means h n w -> v = w.
Proof.
  intros Hv. revert w. induction Hv; intros w Hw; inversion Hw; simplify_eq; try done.
  - match goal with H : means h _ _ |- _ => apply IHHv in H; congruence end.
  - repeat match goal with H : means h s _ |- _ => apply IHHv1 in H | H : means h f _ |- _ => apply IHHv2 in H end. congruence.
  - match goal with H : means h t _ |- _ => by apply IHHv2 end.
  - match goal with H : means h c _ |- _ => apply IHHv1 in H end. done.
  - match goal with H : means h c _ |- _ => apply IHHv1 in H end. done.
  - match goal with H : means h e _ |- _ => by apply IHHv2 end.
Qed.

Lemma means_lt h n v : means h n v -> (n < length h)%nat.
Proof. destruct 1; by eapply lookup_lt_Some. Qed.

(** ** Types *)

Definition of_type (t : PsValueType) (v : jsval) : Prop :=
  match t, v with numeric, Bool _ | boolean, Num _ => False | _, _ => True end.

Lemma spec_unary_type op v r t : spec_unary op v = Some r -> of_type t v -> of_type (_unaryValueType op t) r.
Proof.
  destruct op, v as [x|b]; cbn; try done; intros H; try (apply num_inv in H as [-> _]; done).
  - injection H as <-. by destruct t.
  - destruct (spec_int _); [|done]. by injection H as <-.
Qed.

Lemma on_bits_number f a b r : on_bits f a b = Some r -> exists x y z, a = Num x /\ b = Num y /\ r = int z.
Proof.
  unfold on_bits. destruct (spec_int a) as [m|] eqn:Ea; [|done]. destruct (spec_int b) as [n|] eqn:Eb; [|done].
  intros [= <-]. destruct a as [x|], b as [y|]; try done. by eexists _, _, _.
Qed.

Lemma node_binary_type op a b r s t : node_binary op a b = Some r -> of_type t a -> of_type s b -> of_type (_binaryValueType op s t) r.
Proof.
  destruct op, a as [x|x], b as [y|y]; cbn; try done; intros H; try (apply num_inv in H as [-> _]; done); try (injection H as <-; try done).
  all: try (apply on_bits_number in H as (? & ? & ? & _ & _ & ->)).
  all: try (intros Ht Hs; destruct (decide _) as [[_ Hu]|]; [|done]; by destruct s).
  - destruct (exact_quotient x y); [|done]. by apply num_inv in H as [-> _].
  - destruct (spec_int (Num y)) as [n|]; [|done]. cbn in H. destruct (_ && _); [|done]. by apply on_bits_number in H as (? & ? & ? & _ & _ & ->).
Qed.

(** A node means a value of its type. *)
Lemma means_type h n v : wf h -> means h n v -> of_type (value_type h n) v.
Proof.
  intros [Hok Hty]. induction 1 as [n i E|n v E|n op x t a v E Hx IHx Hs|n op f s t a b v E Hs IHs Hf IHf Hb|
    n c t e ty v E Hc IHc Ht IHt|n c t e ty v E Hc IHc He IHe]; pose proof (Hty _ _ E) as T; unfold value_type; rewrite E; cbn in T.
  - done.
  - by destruct v.
  - rewrite T. by eapply spec_unary_type.
  - rewrite T. by eapply node_binary_type.
  - subst ty. by destruct (decide _).
  - subst ty. destruct (decide _) as [->|]; done.
Qed.

(** ** Equal nodes *)

Lemma strict_eq_equiv v w : double_value v -> strict_eq v w = true -> double_value w /\ v ≃ w.
Proof.
  destruct v as [x|a], w as [y|b]; try done; cbn; intros Hx H.
  - assert (x ≈ y) as E; [|by rewrite <- E]. unfold feq, SFeqb in H.
    destruct x as [sx|sx| |sx mx ex], y as [sy|sy| |sy my ey]; try done; cbn in H; try (by destruct sx); try (by destruct sy);
      try (by destruct sx, sy).
    destruct sx, sy; try done; destruct (ex ?= ey) eqn:Ee; try done; apply Z.compare_eq in Ee as ->;
      change (Pos.compare_cont Eq mx my) with (mx ?= my)%positive in H; destruct (mx ?= my)%positive eqn:Em; try done;
      by apply Pos.compare_eq in Em as ->.
  - split; [done|]. by apply eqb_prop in H.
Qed.

Lemma strict_eq_sym v w : strict_eq v w = strict_eq w v.
Proof.
  destruct v as [x|[]], w as [y|[]]; try done. cbn. unfold feq, SFeqb. rewrite (SFcompare_antisym x y).
  by destruct (SFcompare x y) as [[]|].
Qed.

(** What one of two equal nodes means, the other means up to the sign of zero. *)
Lemma nodes_equal_means h levels : forall a b v, nodes_equal_loop levels h a b = true ->
  (means h a v -> stands h b v) /\ (means h b v -> stands h a v).
Proof.
  induction levels as [|levels IH]; intros a b v H; [done|]. cbn in H. destruct (Nat.eqb_spec a b) as [->|_].
  { split; intros Hm; by apply means_stands. }
  destruct (h !! a) as [na|] eqn:Ea; [|done].
  destruct na as [i|va|op x t|op f s t|c t e ty], (h !! b) as [[j|vb|op' x' t'|op' f' s' t'|c' t' e' ty']|] eqn:Eb; try done.
  - apply Z.eqb_eq in H as <-. split; intros Hm; inversion Hm; simplify_eq; apply means_stands; by apply means_arg.
  - split; intros Hm; inversion Hm; simplify_eq.
    + apply strict_eq_equiv in H as [Hd E]; [|done]. exists vb. split; [by apply means_const|by symmetry].
    + rewrite strict_eq_sym in H. apply strict_eq_equiv in H as [Hd E]; [|done]. exists va. split; [by apply means_const|by symmetry].
  - apply andb_true_iff in H as [Hop H]. apply bool_decide_eq_true in Hop as <-.
    split; intros Hm; inversion Hm; simplify_eq.
    + destruct (proj1 (IH _ _ _ H) ltac:(eassumption)) as (w & Hw & E). destruct (spec_unary_cong op a0 w v) as (r & Hr & Er); [by symmetry|done|].
      exists r. split; [by eapply means_unary|by symmetry].
    + destruct (proj2 (IH _ _ _ H) ltac:(eassumption)) as (w & Hw & E). destruct (spec_unary_cong op a0 w v) as (r & Hr & Er); [by symmetry|done|].
      exists r. split; [by eapply means_unary|by symmetry].
  - apply andb_true_iff in H as [H Hs]. apply andb_true_iff in H as [Hop Hf]. apply bool_decide_eq_true in Hop as <-.
    split; intros Hm; inversion Hm; simplify_eq.
    + destruct (proj1 (IH _ _ _ Hf) ltac:(eassumption)) as (w & Hw & E). destruct (proj1 (IH _ _ _ Hs) ltac:(eassumption)) as (u & Hu & E').
      destruct (node_binary_cong op a0 u b0 w v) as (r & Hr & Er); [by symmetry|by symmetry|done|].
      exists r. split; [by eapply means_binary|by symmetry].
    + destruct (proj2 (IH _ _ _ Hf) ltac:(eassumption)) as (w & Hw & E). destruct (proj2 (IH _ _ _ Hs) ltac:(eassumption)) as (u & Hu & E').
      destruct (node_binary_cong op a0 u b0 w v) as (r & Hr & Er); [by symmetry|by symmetry|done|].
      exists r. split; [by eapply means_binary|by symmetry].
  - apply andb_true_iff in H as [H He]. apply andb_true_iff in H as [Hc Ht].
    split; intros Hm; inversion Hm; simplify_eq.
    + destruct (proj1 (IH _ _ _ Hc) ltac:(eassumption)) as ([|q] & Hq & Eq); [done|]. cbn in Eq. subst q.
      destruct (proj1 (IH _ _ _ Ht) ltac:(eassumption)) as (w & Hw & E). exists w. split; [by eapply means_then|done].
    + destruct (proj1 (IH _ _ _ Hc) ltac:(eassumption)) as ([|q] & Hq & Eq); [done|]. cbn in Eq. subst q.
      destruct (proj1 (IH _ _ _ He) ltac:(eassumption)) as (w & Hw & E). exists w. split; [by eapply means_else|done].
    + destruct (proj2 (IH _ _ _ Hc) ltac:(eassumption)) as ([|q] & Hq & Eq); [done|]. cbn in Eq. subst q.
      destruct (proj2 (IH _ _ _ Ht) ltac:(eassumption)) as (w & Hw & E). exists w. split; [by eapply means_then|done].
    + destruct (proj2 (IH _ _ _ Hc) ltac:(eassumption)) as ([|q] & Hq & Eq); [done|]. cbn in Eq. subst q.
      destruct (proj2 (IH _ _ _ He) ltac:(eassumption)) as (w & Hw & E). exists w. split; [by eapply means_else|done].
Qed.
End Means.

(** ** Meaning and value *)

Lemma num_of_bool_value b : to_num (Bool b) = num_of_bool b.
Proof. done. Qed.

Lemma feq_bools a b : feq (num_of_bool a) (num_of_bool b) = eqb a b.
Proof. by destruct a, b; vm_compute. Qed.

Lemma unary_value `{MathLib} op t a r o : op <> TOKEN.cvr -> unary_code op t = Some o -> spec_unary op a = Some r -> of_type t r ->
  exec_unary o (to_num a) = to_num r.
Proof.
  intros Hne Ho Hs Ht. destruct op, a as [x|b]; try done; cbn in Hs; try (apply num_inv in Hs as [-> _]; cbn in Ho; by injection Ho as <-).
  - injection Hs as <-. destruct t; try done. injection Ho as <-. by destruct b; vm_compute.
  - destruct (spec_int _) as [z|] eqn:Ez; [|done]. injection Hs as <-. injection Ho as <-. apply spec_int_reads in Ez as (_ & Ef & _).
    cbn [exec_unary to_num int]. by rewrite Ef.
Qed.

(** The shift with a constant distance, and the one of the interpreter. *)
Lemma shift_value a b r : spec_binary TOKEN.bitshift a b = Some r -> exec_shift (to_num b) (to_num a) = to_num r.
Proof.
  intros Hs. apply spec_shift_inv in Hs as (x & y & v & n & -> & -> & Ev & En & Hn & ->).
  apply spec_int_reads in Ev as (Hv & Efv & _). apply spec_int_reads in En as (_ & Efn & H1 & H2 & _ & H3).
  unfold exec_shift. cbn [to_num int]. rewrite Efv, Efn, H1, H2, H3, to_int32_small by lia. f_equal. destruct (shifted_0 v Hv) as [H0 _].
  unfold shifted in *. destruct (Z.ltb_spec 0 n), (Z.ltb_spec n 0), (Z.leb_spec 0 n); try lia; try done. by replace n with 0 by lia.
Qed.

Lemma binary_value `{MathLib} op a b r : node_binary op a b = Some r -> op <> TOKEN.bitshift ->
  exists o, binary_code op = Some o /\ exec_binary o (to_num a) (to_num b) = to_num r.
Proof.
  intros Hs Hne. destruct op, a as [x|x], b as [y|y]; try done; eexists; (split; [reflexivity|]); cbn in Hs;
    try (apply on_bits_inv in Hs as (m & n & _ & _ & <- & <- & _ & _ & ->); done);
    try (apply num_inv in Hs as [-> _]; done); try (injection Hs as <-; done);
    try (injection Hs as <-; cbn [exec_binary to_num]; fold (num_of_bool x) (num_of_bool y); rewrite ?feq_bools; done);
    try (injection Hs as <-; by destruct x, y; vm_compute).
  destruct (exact_quotient x y) eqn:E; [|done]. apply num_inv in Hs as [-> _]. unfold exact_quotient in E. cbn [exec_binary to_num].
  by destruct (feq y fzero).
Qed.

Lemma means_value `{MathLib} h src srcOffset n v : wf h -> means (fun i => slot src (srcOffset + i)) h n v -> value h src srcOffset n = to_num v.
Proof.
  intros Hwf Hm. pose proof Hwf as [Hok Hty]. induction Hm as [n i E Hd|n v E Hd|n op x t a v E Hx IHx Hs|n op f s t a b v E Hs IHs Hf IHf Hb|
      n c t e ty v E Hc IHc Ht IHt|n c t e ty v E Hc IHc He IHe]; rewrite (value_eq _ _ _ Hok _ _ E); cbn [value_step].
  - done.
  - done.
  - rewrite IHx. destruct (decide (op = TOKEN.cvr)) as [->|Hne].
    + destruct a; cbn in Hs; [|done]. by apply num_inv in Hs as [-> _].
    + assert (Ht : of_type t v).
      { rewrite (Hty _ _ E). eapply spec_unary_type; [done|]. by eapply means_type. }
      destruct (unary_code op t) as [o|] eqn:Eo; [by eapply unary_value|].
      destruct op, a as [y|b]; try done. cbn in Hs. injection Hs as <-. by destruct b; vm_compute.
  - destruct (decide (op = TOKEN.bitshift)) as [->|Hne]; [rewrite IHs, IHf; by apply shift_value|].
    destruct (binary_value op a b v Hb Hne) as (o & Eo & Ev). rewrite <- Ev, Eo, IHs, IHf. by destruct op.
  - by rewrite IHc.
  - by rewrite IHc.
Qed.

(** ** Simplification *)

Section Simplify.
Context `{MathLib} (args : Z -> float).
Local Abbreviation means := (means args).
Local Abbreviation stands := (stands args).

(** The call returns a node of a larger heap, with at most [bound] nodes, that
    stands for every value the operands call for. *)
Definition made (h : heap) (bound : nat) (sem : jsval -> Prop) (m : M heap nat) : Prop :=
  exists n h', m h = (Ok n, h') /\ extends h h' /\ wf h' /\ (n < length h')%nat /\ (length h' <= bound)%nat /\
    forall v, sem v -> stands h' n v.

(** What a unary and a binary operator make of their operands. *)
Definition unary_of (h : heap) (op : TOKEN.t) (x : nat) (v : jsval) : Prop := exists a, means h x a /\ spec_unary op a = Some v.
Definition binary_of (h : heap) (op : TOKEN.t) (f s : nat) (v : jsval) : Prop :=
  exists a b, means h s a /\ means h f b /\ node_binary op a b = Some v.

Lemma made_ret h bound sem n : wf h -> (n < length h)%nat -> (length h <= bound)%nat -> (forall v, sem v -> stands h n v) ->
  made h bound sem (mret n).
Proof. intros Hwf Hn Hb Hs. exists n, h. split; [done|]. split; [reflexivity|]. done. Qed.

Lemma made_alloc h bound sem node : wf h -> node_ok h (length h) node -> node_typed h node -> (S (length h) <= bound)%nat ->
  (forall v, sem v -> stands (h ++ [node]) (length h) v) -> made h bound sem (alloc node).
Proof.
  intros Hwf Hok Hty Hb Hs. exists (length h), (h ++ [node]). rewrite length_app. cbn [length].
  split; [done|]. split; [by eexists|]. split; [by apply wf_alloc|]. split; [lia|]. split; [lia|]. done.
Qed.

Lemma made_const h bound (sem : jsval -> Prop) c : wf h -> (S (length h) <= bound)%nat -> (forall v, sem v -> double_value c /\ c ≃ v) ->
  made h bound sem (alloc (PsConstNode c)).
Proof.
  intros Hwf Hb Hs. apply made_alloc; try done. intros v Hv. destruct (Hs v Hv) as [Hd E]. exists c. split; [|done].
  apply means_const; [|done]. by rewrite lookup_app_r, Nat.sub_diag.
Qed.

Lemma made_sem h bound bound' (sem sem' : jsval -> Prop) m : (forall v, sem v -> exists w, sem' w /\ w ≃ v) -> (bound' <= bound)%nat ->
  made h bound' sem' m -> made h bound sem m.
Proof.
  intros Hs Hb (n & h' & E & He & Hwf & Hn & Hl & Hst). exists n, h'. do 4 (split; [done|]). split; [lia|].
  intros v Hv. destruct (Hs v Hv) as (w & Hw & Ew). by eapply stands_cong; [apply Hst|].
Qed.

(** ** Constants *)

Lemma means_const_value h n c v : const_value h n = Some c -> means h n v -> v = c.
Proof. unfold const_value. intros E Hm. destruct (h !! n) as [[]|] eqn:En; try done. injection E as ->. inversion Hm; simplify_eq; done. Qed.

Lemma int_double z : is_int32 z -> double_value (int z).
Proof. intros Hz. apply is_double_of_Z. unfold is_int32 in Hz. lia. Qed.

Lemma node_binary_double op a b v : node_binary op a b = Some v -> double_value v.
Proof.
  destruct (decide (op = TOKEN.bitshift)) as [->|Hne].
  { intros E. apply spec_shift_inv in E as (_ & _ & m & n & _ & _ & _ & _ & _ & ->). apply int_double, is_int32_shifted. }
  destruct op, a, b; cbn; try done; intros E; try (apply num_inv in E as [-> E]; exact E); try (by injection E as <-);
    try (apply on_bits_inv in E as (m & n & _ & _ & _ & _ & _ & _ & ->); apply int_double, is_int32_bits).
  destruct (exact_quotient f f0); [|done]. by apply num_inv in E as [-> E].
Qed.
Lemma spec_unary_double op a v : spec_unary op a = Some v -> double_value v.
Proof.
  destruct op, a; cbn; try done; intros E; try (apply num_inv in E as [-> E]; exact E); [by injection E as <-|].
  destruct (spec_int _) as [z|] eqn:Ez; [|done]. injection E as <-. apply int_double. by apply spec_int_reads in Ez as (Hz & _).
Qed.

Lemma fold_shift_sound a b v w : node_binary TOKEN.bitshift a b = Some v -> _evalBinaryConst TOKEN.bitshift a b = Some w -> w = v.
Proof.
  intros E. apply spec_shift_inv in E as (x & y & m & n & -> & -> & Em & En & Hn & ->). cbn [_evalBinaryConst]. intros [= <-].
  apply spec_int_reads in Em as (_ & Efm & _). apply spec_int_reads in En as (_ & Efn & _ & _ & Hs & Ho).
  cbn [to_num to_int] in *. unfold to_int. cbn [to_num]. rewrite Efm, Efn, Hs, Ho, to_int32_small by lia. unfold int, shifted. do 2 f_equal.
  destruct (0 <=? n); apply js_or_0, is_int32_bits.
Qed.

Lemma fold_binary_sound op a b v w : node_binary op a b = Some v -> _evalBinaryConst op a b = Some w -> w = v.
Proof.
  destruct (decide (op = TOKEN.bitshift)) as [->|Hne]; [apply fold_shift_sound|].
  destruct op, a as [x|[]], b as [y|[]]; cbn; try done; intros E [= <-]; try (apply num_inv in E as [-> _]); try (injection E as <-); try done;
    try (apply on_bits_inv in E as (m & n & _ & _ & Em & En & _ & _ & ->); unfold to_int; cbn [to_num]; rewrite Em, En;
         unfold int; do 2 f_equal; apply js_or_0, is_int32_bits).
  destruct (exact_quotient x y) eqn:Eq; [|done]. apply num_inv in E as [-> _]. unfold exact_quotient in Eq. by destruct (feq y fzero).
Qed.
Lemma fold_unary_sound op a v w : double_value a -> spec_unary op a = Some v -> _evalUnaryConst op a = Some w -> double_value w /\ w ≃ v.
Proof.
  destruct (decide (op = TOKEN.cvi)) as [->|Hne].
  { destruct a as [x|]; [|done]. cbn. intros Hd E [= <-]. destruct (spec_int _) as [z|] eqn:Ez; [|done]. injection E as <-.
    assert (Hdt : is_double (math_trunc x) = true) by (by apply is_double_trunc).
    split; [done|]. by apply spec_int_double. }
  intros _ Hv Hw. assert (Hd : double_value v) by (by eapply spec_unary_double). assert (w = v) as ->; [|split; [done|reflexivity]].
  revert Hv Hw. clear Hd. destruct op, a as [x|b]; cbn; try done; intros E E';
    first [ injection E as <-; by injection E' as <-
          | apply (num_inv _ _) in E as [-> Hd]; first [by injection E' as <- | unfold finite_num in E'; by destruct (isFinite _); [injection E' as <-|]] ].
Qed.

Lemma fold_binary_made h op f s v : wf h -> fold_binary h op f s = Some v -> made h (S (length h)) (binary_of h op f s) (alloc (PsConstNode v)).
Proof.
  intros Hwf E. apply made_const; [done|done|]. intros w (a & b & Ha & Hb & Ew). unfold fold_binary in E.
  destruct (const_value h f) as [cf|] eqn:Ef; [|done]. destruct (const_value h s) as [cs|] eqn:Es; [|done].
  apply (means_const_value _ _ _ _ Ef) in Hb as ->. apply (means_const_value _ _ _ _ Es) in Ha as ->.
  apply (fold_binary_sound _ _ _ _ _ Ew) in E as ->. split; [by eapply node_binary_double|reflexivity].
Qed.

Lemma means_double h n v : means h n v -> double_value v.
Proof. induction 1; try done; [by eapply spec_unary_double|by eapply node_binary_double]. Qed.

Lemma stands_lt h n v : stands h n v -> (n < length h)%nat.
Proof. intros (w & Hw & _). by eapply means_lt. Qed.

(** ** Equal operands *)

(** What an operator makes, as [v], of an operand [b] and itself. *)
Definition of_equals (op : TOKEN.t) (b v : jsval) : Prop :=
  match op with
  | TOKEN.sub => v ≃ Num fzero
  | TOKEN.and | TOKEN.or | TOKEN.min | TOKEN.max => b ≃ v
  | TOKEN.eq | TOKEN.ge | TOKEN.le => v = Bool true
  | TOKEN.ne | TOKEN.gt | TOKEN.lt => v = Bool false
  | TOKEN.xor => v ≃ Num fzero /\ exists y, b = Num y
  | _ => True
  end.

Lemma on_bits_equals f x y v : y ≈ x -> is_double y = true -> on_bits f (Num x) (Num y) = Some v ->
  exists n, is_int32 n /\ Num y ≃ int n /\ v = int (f n n).
Proof.
  intros Hxy Hd E. apply on_bits_inv in E as (a & b & Ea & Eb & _ & _ & Ha & Hb & ->). exists b. split; [done|].
  split; [by apply spec_int_double|]. assert (a = b) as ->; [|done]. apply (spec_int_cong _ (Num x)) in Eb; [|done]. congruence.
Qed.

Lemma int32_equals n : is_int32 n -> n .& n = n /\ n .| n = n /\ n .^ n = 0.
Proof.
  intros Hn. unfold js_and, js_or, js_xor. by rewrite Z.land_diag, Z.lor_diag, Z.lxor_nilpotent, to_int32_small.
Qed.

Lemma equal_operands_value op a b v : node_binary op a b = Some v -> b ≃ a -> double_value b -> of_equals op b v.
Proof.
  destruct op, a as [x|x], b as [y|y]; try done; cbn; intros E H1 Hd; try (apply num_inv in E as [-> Hr]); try (injection E as <-); subst; cbn; rewrite <- ?H1.
  all: try (apply (on_bits_equals _ _ _ _ H1 Hd) in E as (n & Hn & Ey & ->); destruct (int32_equals n Hn) as (E1 & E2 & E3); rewrite ?E1, ?E2, ?E3; first [exact Ey | split; [done|by eexists]]).
  all: try pose proof (is_double_not_nan _ Hd) as Hnan.
  all: try (rewrite ?flt_irrefl, ?feq_refl, ?fle_refl by done; done).
  all: try (by destruct x).
  - apply fsub_diag. by apply is_double_finite.
  - by rewrite math_min_diag.
  - by rewrite math_max_diag.
Qed.

Lemma equal_made h op f s m : wf h -> (f < length h)%nat -> _nodesEqual h f s = true -> equal_operands h op f = Some m ->
  made h (S (length h)) (binary_of h op f s) m.
Proof.
  intros Hwf Hf Heq Em.
  assert (Hsem : forall v, binary_of h op f s v -> exists b, means h f b /\ double_value b /\ of_equals op b v).
  { intros v (a & b & Ha & Hb & Ev). exists b. split; [done|]. split; [by eapply means_double|].
    apply (equal_operands_value _ a b); [done| |by eapply means_double].
    destruct (proj1 (nodes_equal_means args h _ _ _ b Heq) Hb) as (w & Hw & E).
    pose proof (means_det args _ _ _ _ Ha Hw) as ->. by symmetry. }
  destruct op; try discriminate Em; injection Em as <-;
    try (apply made_ret; [done|done|lia|]; intros v Hv; destruct (Hsem v Hv) as (b & Hb & Hd & E); by exists b);
    apply made_const; try done; try lia; intros v Hv; destruct (Hsem v Hv) as (b & Hb & Hd & E); try done; try (by rewrite E);
    try (split; [done|by symmetry]).
  destruct E as [E (y & ->)]. apply (means_type _ _ _ _ Hwf) in Hb. destruct (decide _) as [Ht|]; [by rewrite Ht in Hb|].
  split; [done|by symmetry].
Qed.

(** ** Constant operands *)

Lemma is_number_inv v x : is_double x = true -> is_number v x = true -> exists y, v = Num y /\ y ≈ x.
Proof.
  intros Hx E. unfold is_number in E. rewrite strict_eq_sym in E. apply strict_eq_equiv in E as [_ E]; [|done].
  destruct v as [y|]; [|done]. exists y. split; [done|]. by symmetry.
Qed.
Lemma is_bool_inv v b : is_bool v b = true -> v = Bool b.
Proof. unfold is_bool. destruct v as [|c]; cbn; [done|]. intros E. by apply eqb_prop in E as ->. Qed.

Lemma is_zero v : is_number v fzero = true -> exists s, v = Num (S754_zero s).
Proof. intros E. apply is_number_inv in E as (y & -> & E); [|done]. destruct y; try done. by eexists. Qed.
Lemma is_one v : is_number v fone = true -> v = Num (of_Z 1).
Proof. intros E. apply is_number_inv in E as (y & -> & E); [|by vm_compute]. apply fequiv_cases in E as [->|(? & ? & _ & E)]; [done|by vm_compute in E]. Qed.
Lemma is_minus_one v : is_number v (of_Z (-1)) = true -> v = Num (of_Z (-1)).
Proof. intros E. apply is_number_inv in E as (y & -> & E); [|by vm_compute]. apply fequiv_cases in E as [->|(? & ? & _ & E)]; [done|by vm_compute in E]. Qed.

(** The constants that do nothing, and those that decide. *)
Lemma const_add x s v : node_binary TOKEN.add x (Num (S754_zero s)) = Some v -> x ≃ v.
Proof. destruct x; [|done]. cbn [node_binary spec_binary vequiv spec_unary]. intros E. apply num_inv in E as [-> _]. cbn [node_binary spec_binary vequiv spec_unary]. by rewrite fadd_zero_r. Qed.
Lemma const_add' x s v : node_binary TOKEN.add (Num (S754_zero s)) x = Some v -> x ≃ v.
Proof. destruct x; [|done]. cbn [node_binary spec_binary vequiv spec_unary]. intros E. apply num_inv in E as [-> _]. cbn [node_binary spec_binary vequiv spec_unary]. by rewrite fadd_zero_l. Qed.
Lemma const_sub x s v : node_binary TOKEN.sub x (Num (S754_zero s)) = Some v -> x ≃ v.
Proof. destruct x; [|done]. cbn [node_binary spec_binary vequiv spec_unary]. intros E. apply num_inv in E as [-> _]. cbn [node_binary spec_binary vequiv spec_unary]. by rewrite fsub_zero_r. Qed.
Lemma const_sub' x s v : double_value x -> node_binary TOKEN.sub (Num (S754_zero s)) x = Some v ->
  exists w, spec_unary TOKEN.neg x = Some w /\ w ≃ v.
Proof.
  intros Hd. destruct x as [x|]; [|done]. cbn [node_binary spec_binary vequiv spec_unary]. intros E. apply num_inv in E as [-> _]. unfold num. rewrite is_double_fopp, Hd.
  eexists. split; [done|]. cbn [node_binary spec_binary vequiv spec_unary]. by rewrite fsub_zero_l.
Qed.
Lemma const_mul_one x v : double_value x -> node_binary TOKEN.mul x (Num (of_Z 1)) = Some v -> v = x.
Proof. intros Hd. destruct x as [x|]; [|done]. cbn [node_binary spec_binary vequiv spec_unary]. intros E. apply num_inv in E as [-> _]. by rewrite fmul_one_r. Qed.
Lemma const_mul_zero x s v : double_value x -> node_binary TOKEN.mul x (Num (S754_zero s)) = Some v -> Num (S754_zero s) ≃ v.
Proof.
  intros Hd. destruct x as [x|]; [|done]. cbn [node_binary spec_binary vequiv spec_unary]. intros E. apply num_inv in E as [-> _]. cbn [node_binary spec_binary vequiv spec_unary]. rewrite fmul_zero_r by (by apply is_double_finite).
  done.
Qed.
Lemma const_mul_minus_one x v : double_value x -> node_binary TOKEN.mul x (Num (of_Z (-1))) = Some v -> spec_unary TOKEN.neg x = Some v.
Proof. intros Hd. destruct x as [x|]; [|done]. cbn [node_binary spec_binary vequiv spec_unary]. by rewrite fmul_minus_one_r. Qed.
Lemma mul_comm_value x y v : node_binary TOKEN.mul x y = Some v -> node_binary TOKEN.mul y x = Some v.
Proof. destruct x, y; try done. cbn [node_binary spec_binary vequiv spec_unary]. by rewrite fmul_comm. Qed.

Section Consts.
Context (h : heap) (Hwf : wf h) (f s : nat) (Hf : (f < length h)%nat) (Hs : (s < length h)%nat).
Context (makeBinary : TOKEN.t -> nat -> nat -> M heap nat) (makeUnary : TOKEN.t -> nat -> M heap nat).

(** The result is one of the operands. *)
Lemma made_operand op n : (n < length h)%nat -> (forall a b v, means h s a -> means h f b -> node_binary op a b = Some v -> stands h n v) ->
  made h (S (length h)) (binary_of h op f s) (mret n).
Proof. intros Hn Hst. apply made_ret; [done|done|lia|]. intros v (a & b & Ha & Hb & Ev). by eapply Hst. Qed.

(** The result is the opposite of an operand. *)
Lemma made_negated op n : made h (S (length h)) (unary_of h TOKEN.neg n) (makeUnary TOKEN.neg n) ->
  (forall a b v, means h s a -> means h f b -> node_binary op a b = Some v -> exists w, unary_of h TOKEN.neg n w /\ w ≃ v) ->
  made h (S (length h)) (binary_of h op f s) (makeUnary TOKEN.neg n).
Proof.
  intros Hm Hst. apply (made_sem _ _ (S (length h)) _ (unary_of h TOKEN.neg n)); [|done|done].
  intros v (a & b & Ha & Hb & Ev). by eapply Hst.
Qed.

Lemma clamps_inv op' test : clamps h op' test s = true -> exists f' s' t c, h !! s = Some (PsBinaryNode op' f' s' t) /\
  const_value h f' = Some c /\ test c = true.
Proof.
  unfold clamps. destruct (h !! s) as [[]|]; try done. intros E. apply andb_true_iff in E as [E1 E2]. apply bool_decide_eq_true in E1 as ->.
  destruct (const_value h first) as [c|] eqn:Ec; [|done]. by eexists _, _, _, c.
Qed.

Lemma first_const_made op b m : op <> TOKEN.div -> op <> TOKEN.exp -> const_value h f = Some b ->
  made h (S (length h)) (unary_of h TOKEN.neg s) (makeUnary TOKEN.neg s) ->
  first_const makeBinary makeUnary h op b f s = Some m -> made h (S (length h)) (binary_of h op f s) m.
Proof.
  intros Hdiv Hexp Eb Hneg Em.
  assert (Hb : forall b', means h f b' -> b' = b) by (intros b'; by apply means_const_value).
  destruct op; try done; cbn [first_const] in Em.
  - destruct (is_number b fzero) eqn:E; [|done]. injection Em as <-. apply is_zero in E as [sg ->].
    apply made_operand; [done|]. intros a b' v Ha Hb' Ev. apply Hb in Hb' as ->. exists a. split; [done|]. by apply const_add in Ev.
  - destruct (is_number b fzero) eqn:E; [|done]. injection Em as <-. apply is_zero in E as [sg ->].
    apply made_operand; [done|]. intros a b' v Ha Hb' Ev. apply Hb in Hb' as ->. exists a. split; [done|]. by apply const_sub in Ev.
  - destruct (is_number b fone) eqn:E1; [|destruct (is_number b fzero) eqn:E0; [|destruct (is_number b (of_Z (-1))) eqn:E2; [|done]]]; injection Em as <-.
    + apply is_one in E1 as ->. apply made_operand; [done|]. intros a b' v Ha Hb' Ev. apply Hb in Hb' as ->.
      apply const_mul_one in Ev as ->; [by apply means_stands|by eapply means_double].
    + apply is_zero in E0 as [sg ->]. apply made_operand; [done|]. intros a b' v Ha Hb' Ev. pose proof (Hb _ Hb') as ->.
      exists (Num (S754_zero sg)). split; [done|]. apply const_mul_zero in Ev; [done|by eapply means_double].
    + apply is_minus_one in E2 as ->. apply made_negated; [done|]. intros a b' v Ha Hb' Ev. apply Hb in Hb' as ->.
      exists v. split; [|done]. exists a. split; [done|]. apply const_mul_minus_one; [by eapply means_double|done].
  - destruct (is_number b fone); [|done]. injection Em as <-. apply made_operand; [done|]. by intros [] [] v _ _.
  - destruct (is_bool b true) eqn:E1; [|destruct (is_bool b false) eqn:E2; [|done]]; injection Em as <-.
    + apply is_bool_inv in E1 as ->. apply made_operand; [done|]. intros a b' v Ha Hb' Ev. apply Hb in Hb' as ->.
      destruct a as [|[]]; try done; injection Ev as <-; by apply means_stands.
    + apply is_bool_inv in E2 as ->. apply made_operand; [done|]. intros a b' v Ha Hb' Ev. pose proof (Hb _ Hb') as ->.
      destruct a as [|[]]; try done; injection Ev as <-; by apply means_stands.
  - destruct (is_bool b false) eqn:E1; [|destruct (is_bool b true) eqn:E2; [|done]]; injection Em as <-.
    + apply is_bool_inv in E1 as ->. apply made_operand; [done|]. intros a b' v Ha Hb' Ev. apply Hb in Hb' as ->.
      destruct a as [|[]]; try done; injection Ev as <-; by apply means_stands.
    + apply is_bool_inv in E2 as ->. apply made_operand; [done|]. intros a b' v Ha Hb' Ev. pose proof (Hb _ Hb') as ->.
      destruct a as [|[]]; try done; injection Ev as <-; by apply means_stands.
  - destruct (clamps _ _ _ _) eqn:E; [|done]. injection Em as <-. apply clamps_inv in E as (f' & s' & t & c & Es & Ec & Hc).
    apply made_operand; [done|]. intros a b' v Ha Hb' Ev. pose proof (Hb _ Hb') as ->. exists b. split; [done|].
    inversion Ha; simplify_eq. match goal with H1 : means h f' ?w |- _ => pose proof (means_const_value _ _ _ _ Ec H1) as -> end.
    apply means_double in Hb' as Hdb. repeat match goal with H1 : means h _ _ |- _ => apply means_double in H1 end.
    destruct a0 as [y|], c as [z|]; try done. match goal with H1 : node_binary _ _ _ = Some a |- _ => apply num_inv in H1 as [-> _] end.
    destruct b as [w|]; [|done]. cbn in Ev, Hc. apply num_inv in Ev as [-> _]. cbn. symmetry. apply min_of_max; try by apply is_double_not_nan. done.
  - destruct (clamps _ _ _ _) eqn:E; [|done]. injection Em as <-. apply clamps_inv in E as (f' & s' & t & c & Es & Ec & Hc).
    apply made_operand; [done|]. intros a b' v Ha Hb' Ev. pose proof (Hb _ Hb') as ->. exists b. split; [done|].
    inversion Ha; simplify_eq. match goal with H1 : means h f' ?w |- _ => pose proof (means_const_value _ _ _ _ Ec H1) as -> end.
    apply means_double in Hb' as Hdb. repeat match goal with H1 : means h _ _ |- _ => apply means_double in H1 end.
    destruct a0 as [y|], c as [z|]; try done. match goal with H1 : node_binary _ _ _ = Some a |- _ => apply num_inv in H1 as [-> _] end.
    destruct b as [w|]; [|done]. cbn in Ev, Hc. apply num_inv in Ev as [-> _]. cbn. symmetry. apply max_of_min; try by apply is_double_not_nan. done.
Qed.

Lemma second_const_made op a m : const_value h s = Some a ->
  made h (S (length h)) (unary_of h TOKEN.neg f) (makeUnary TOKEN.neg f) ->
  second_const makeUnary op a f s = Some m -> made h (S (length h)) (binary_of h op f s) m.
Proof.
  intros Ea Hneg Em.
  assert (Ha : forall a', means h s a' -> a' = a) by (intros a'; by apply means_const_value).
  destruct op; try done; cbn [second_const] in Em.
  - destruct (is_number a fzero) eqn:E; [|done]. injection Em as <-. apply is_zero in E as [sg ->].
    apply made_operand; [done|]. intros a' b v Ha' Hb Ev. apply Ha in Ha' as ->. exists b. split; [done|]. by apply const_add' in Ev.
  - destruct (is_number a fzero) eqn:E; [|done]. injection Em as <-. apply is_zero in E as [sg ->].
    apply made_negated; [done|]. intros a' b v Ha' Hb Ev. apply Ha in Ha' as ->.
    apply const_sub' in Ev as (w & Ew & E); [|by eapply means_double]. exists w. split; [|done]. by exists b.
  - destruct (is_number a fone) eqn:E1; [|destruct (is_number a fzero) eqn:E0; [|destruct (is_number a (of_Z (-1))) eqn:E2; [|done]]]; injection Em as <-.
    + apply is_one in E1 as ->. apply made_operand; [done|]. intros a' b v Ha' Hb Ev. apply Ha in Ha' as ->. apply mul_comm_value in Ev.
      apply const_mul_one in Ev as ->; [by apply means_stands|by eapply means_double].
    + apply is_zero in E0 as [sg ->]. apply made_operand; [done|]. intros a' b v Ha' Hb Ev. pose proof (Ha _ Ha') as ->. apply mul_comm_value in Ev.
      exists (Num (S754_zero sg)). split; [done|]. apply const_mul_zero in Ev; [done|by eapply means_double].
    + apply is_minus_one in E2 as ->. apply made_negated; [done|]. intros a' b v Ha' Hb Ev. apply Ha in Ha' as ->. apply mul_comm_value in Ev.
      exists v. split; [|done]. exists b. split; [done|]. apply const_mul_minus_one; [by eapply means_double|done].
  - destruct (is_bool a true) eqn:E1; [|destruct (is_bool a false) eqn:E2; [|done]]; injection Em as <-.
    + apply is_bool_inv in E1 as ->. apply made_operand; [done|]. intros a' b v Ha' Hb Ev. apply Ha in Ha' as ->.
      destruct b as [|[]]; try done; injection Ev as <-; by apply means_stands.
    + apply is_bool_inv in E2 as ->. apply made_operand; [done|]. intros a' b v Ha' Hb Ev. pose proof (Ha _ Ha') as ->.
      destruct b as [|[]]; try done; injection Ev as <-; by apply means_stands.
  - destruct (is_bool a false) eqn:E1; [|destruct (is_bool a true) eqn:E2; [|done]]; injection Em as <-.
    + apply is_bool_inv in E1 as ->. apply made_operand; [done|]. intros a' b v Ha' Hb Ev. apply Ha in Ha' as ->.
      destruct b as [|[]]; try done; injection Ev as <-; by apply means_stands.
    + apply is_bool_inv in E2 as ->. apply made_operand; [done|]. intros a' b v Ha' Hb Ev. pose proof (Ha _ Ha') as ->.
      destruct b as [|[]]; try done; injection Ev as <-; by apply means_stands.
Qed.
End Consts.

(** ** Operands that are operators *)

Lemma cvi_idempotent a r v : spec_unary TOKEN.cvi a = Some r -> spec_unary TOKEN.cvi r = Some v -> v = r.
Proof.
  destruct a as [x|]; [|done]. cbn. destruct (spec_int _) as [z|] eqn:Ez; [|done]. intros [= <-].
  apply spec_int_reads in Ez as (Hz & _). destruct (spec_int_int z Hz) as (E & Et & _). cbn [int]. rewrite Et.
  change (Num (of_Z z)) with (int z). rewrite E. by intros [= <-].
Qed.

Lemma idempotent_value op a r v : idempotentUnary op = true -> spec_unary op a = Some r -> spec_unary op r = Some v -> v = r.
Proof.
  destruct (decide (op = TOKEN.cvi)) as [->|Hne]; [intros _; apply cvi_idempotent|].
  destruct op; try done; intros _; destruct a as [x|]; try done; cbn [spec_unary]; intros E; apply num_inv in E as [-> _]; cbn [spec_unary];
    intros E; apply num_inv in E as [-> _]; by rewrite ?math_abs_idem, ?math_floor_idem, ?math_ceil_idem, ?math_trunc_idem.
Qed.

Lemma negated_value o o' a b c v : negatedComparison o = Some o' -> double_value a -> double_value b -> node_binary o a b = Some c ->
  spec_unary TOKEN.not c = Some v -> node_binary o' a b = Some v.
Proof.
  destruct o; try discriminate; intros [= <-]; destruct a as [x|x], b as [y|y]; try done; cbn [node_binary spec_binary double_value]; intros Hx Hy [= <-] [= <-];
    apply is_double_not_nan in Hx || idtac; rewrite ?negb_involutive; try done.
  all: apply is_double_not_nan in Hy; rewrite ?fle_not_flt, ?negb_involutive by done; done.
Qed.

Lemma neg_sub_value a b c v : node_binary TOKEN.sub a b = Some c -> spec_unary TOKEN.neg c = Some v ->
  exists w, node_binary TOKEN.sub b a = Some w /\ w ≃ v.
Proof.
  destruct a as [x|], b as [y|]; try done. cbn [node_binary spec_binary]. intros E. apply num_inv in E as [-> Hd]. cbn [spec_unary].
  intros E. apply num_inv in E as [-> Hd']. unfold num. rewrite (is_double_proper _ _ (fsub_opp x y)), Hd'. eexists. split; [done|].
  cbn. apply fsub_opp.
Qed.

Section Unary.
Context (h : heap) (Hwf : wf h) (x : nat) (Hx : (x < length h)%nat).
Context (makeBinary : TOKEN.t -> nat -> nat -> M heap nat) (makeUnary : TOKEN.t -> nat -> M heap nat).
Hypothesis (Hsub : forall f s t, h !! x = Some (PsBinaryNode TOKEN.sub f s t) ->
  made h (S (length h)) (binary_of h TOKEN.sub s f) (makeBinary TOKEN.sub s f)).
Hypothesis (Habs : forall i t, h !! x = Some (PsUnaryNode TOKEN.neg i t) ->
  made h (S (length h)) (unary_of h TOKEN.abs i) (makeUnary TOKEN.abs i)).

Lemma made_inner op n : (n < length h)%nat -> (forall a v, means h x a -> spec_unary op a = Some v -> stands h n v) ->
  made h (S (length h)) (unary_of h op x) (mret n).
Proof. intros Hn Hs. apply made_ret; [done|done|lia|]. intros v (a & Ha & Ev). by eapply Hs. Qed.

Lemma idempotent_made op o i t m : h !! x = Some (PsUnaryNode o i t) ->
  (if idempotentUnary op && bool_decide (op = o) then Some (mret x) else None) = Some m ->
  made h (S (length h)) (unary_of h op x) m.
Proof.
  intros En. destruct (idempotentUnary op) eqn:Ei; [|done]. cbn [andb]. destruct (decide (op = o)) as [<-|Hne]; [|by rewrite bool_decide_false].
  rewrite bool_decide_true by done. intros [= <-]. apply made_inner; [done|]. intros a v Ha Ev. inversion Ha; simplify_eq.
  match goal with Hi : spec_unary op ?b = Some a |- _ => apply (idempotent_value op b a v Ei Hi) in Ev as -> end. by apply means_stands.
Qed.

(** Twice the same operator that undoes itself. *)
Lemma involutive_made op i t : h !! x = Some (PsUnaryNode op i t) -> (op = TOKEN.neg \/ op = TOKEN.not) ->
  made h (S (length h)) (unary_of h op x) (mret i).
Proof.
  intros En Hop. pose proof (wf_operands _ _ _ Hwf En) as Hi. cbn in Hi. apply made_inner; [lia|]. intros a v Ha Ev. inversion Ha; simplify_eq.
  match goal with Hb : means h i ?b |- _ => exists b; split; [done|]; destruct Hop as [-> | ->], b as [y|[]] end; try done;
    cbn [spec_unary] in *; try (match goal with H1 : num _ = Some _ |- _ => apply num_inv in H1 as [-> _] end; cbn [spec_unary] in *;
    match goal with H1 : num _ = Some _ |- _ => apply num_inv in H1 as [-> _] end; cbn; by rewrite fopp_involutive).
  all: simplify_eq; cbn in *; by simplify_eq.
Qed.

Lemma simplify_unary_made op m : simplify_unary makeBinary makeUnary h op x = Some m -> made h (S (length h)) (unary_of h op x) m.
Proof.
  intros Em. unfold simplify_unary in Em. destruct (h !! x) as [node|] eqn:En; [|by destruct op].
  destruct node as [|v|o i t|o f s t|c t e ty]; try by destruct op.
  - pose proof (fun op => idempotent_made op _ _ _ m En) as Hidem. specialize (Hidem op). destruct op; try exact (Hidem Em);
      (destruct o; try exact (Hidem Em)); injection Em as <-.
    + destruct (Habs _ _ eq_refl) as (n & h' & E & He & Hwf' & Hn & Hl & Hst). exists n, h'. do 5 (split; [done|]). intros v (a & Ha & Ev).
      inversion Ha; simplify_eq. apply Hst. eexists. split; [eassumption|]. destruct a0 as [y|]; try done. cbn [spec_unary] in *.
      match goal with H1 : num _ = Some a |- _ => apply num_inv in H1 as [-> _] end. cbn [spec_unary] in Ev. by rewrite math_abs_fopp in Ev.
    + by apply (involutive_made TOKEN.neg _ _ En); left.
    + by apply (involutive_made TOKEN.not _ _ En); right.
  - pose proof (wf_operands _ _ _ Hwf En) as [Hf Hs]. destruct op; try done.
    + (* the opposite of a difference *)
      destruct o; try done. injection Em as <-. apply (made_sem _ _ (S (length h)) _ (binary_of h TOKEN.sub s f)); [|done|by apply (Hsub _ _ _ eq_refl)].
      intros v (a & Ha & Ev). inversion Ha; simplify_eq.
      match goal with H1 : node_binary _ ?a1 ?b1 = Some a |- _ => destruct (neg_sub_value _ _ _ _ H1 Ev) as (w & Ew & E); exists w; split; [by exists b1, a1|done] end.
    + (* a comparison the other way around *)
      destruct (negatedComparison o) as [o'|] eqn:Eo; [|done]. injection Em as <-. apply made_alloc; [done|cbn; lia| |done|].
      * cbn. destruct o; try done; injection Eo as <-; done.
      * intros v (a & Ha & Ev). apply means_stands. inversion Ha; simplify_eq.
        eapply means_binary; [by rewrite lookup_app_r, Nat.sub_diag|by eapply means_extends; [apply extends_alloc|]|
          by eapply means_extends; [apply extends_alloc|]|].
        eapply negated_value; [exact Eo| | |eassumption|exact Ev]; by eapply means_double.
Qed.
End Unary.

(** ** The calls *)

Lemma computes_unary h n op x t : h !! n = Some (PsUnaryNode op x t) -> forall v, unary_of h op x v -> stands h n v.
Proof. intros En v (a & Ha & Ev). apply means_stands. by eapply means_unary. Qed.
Lemma computes_binary h n op f s t : h !! n = Some (PsBinaryNode op f s t) -> forall v, binary_of h op f s v -> stands h n v.
Proof. intros En v (a & b & Ha & Hb & Ev). apply means_stands. by eapply means_binary. Qed.

Lemma unary_of_extends h h' op x v : extends h h' -> unary_of h op x v -> unary_of h' op x v.
Proof. intros He (a & Ha & Ev). exists a. split; [by eapply means_extends|done]. Qed.
Lemma binary_of_extends h h' op f s v : extends h h' -> binary_of h op f s v -> binary_of h' op f s v.
Proof. intros He (a & b & Ha & Hb & Ev). exists a, b. split; [by eapply means_extends|]. split; [by eapply means_extends|done]. Qed.

(** The node that is made when no rule applies. *)
Lemma plain_unary_made h op x : wf h -> (x < length h)%nat ->
  made h (S (length h)) (unary_of h op x) (alloc (PsUnaryNode op x (_unaryValueType op (value_type h x)))).
Proof.
  intros Hwf Hx. apply made_alloc; try done. intros v Hv. eapply computes_unary; [by rewrite lookup_app_r, Nat.sub_diag|].
  eapply unary_of_extends; [apply extends_alloc|done].
Qed.
Lemma plain_binary_made h op f s : wf h -> (f < length h)%nat -> (s < length h)%nat ->
  made h (S (length h)) (binary_of h op f s) (alloc (PsBinaryNode op f s (_binaryValueType op (value_type h f) (value_type h s)))).
Proof.
  intros Hwf Hf Hs. apply made_alloc; try done. intros v Hv. eapply computes_binary; [by rewrite lookup_app_r, Nat.sub_diag|].
  eapply binary_of_extends; [apply extends_alloc|done].
Qed.

Lemma made_at h bound sem (k m : M heap nat) : k h = m h -> made h bound sem m -> made h bound sem k.
Proof. intros E (n & h' & Em & Hr). exists n, h'. split; [by rewrite E|done]. Qed.

(** Every operator but division and powers, which call themselves on new nodes. *)
Lemma make_simple turns :
  (forall op x h, wf h -> (x < length h)%nat -> (2 * x + 2 <= turns)%nat ->
    made h (S (length h)) (unary_of h op x) (make_unary turns op x)) /\
  (forall op f s h, op <> TOKEN.div -> op <> TOKEN.exp -> wf h -> (f < length h)%nat -> (s < length h)%nat ->
    (2 * max f s + 3 <= turns)%nat -> made h (S (length h)) (binary_of h op f s) (make_binary turns op f s)).
Proof.
  induction turns as [|turns [IHu IHb]]; [split; intros; lia|]. split.
  - intros op x h Hwf Hx Ht. eapply made_at; [cbn [make_unary]; unfold mbind at 1, get; reflexivity|].
    destruct (const_value h x) as [c|] eqn:Ec; cbn [base.mbind option_bind].
    { destruct (_evalUnaryConst op c) as [w|] eqn:Ew.
      - apply made_const; [done|done|]. intros v (a & Ha & Ev). apply means_double in Ha as Hd. apply (means_const_value _ _ _ _ Ec) in Ha as ->.
        by apply (fold_unary_sound _ _ _ _ Hd Ev Ew).
      - destruct (simplify_unary _ _ h op x) as [m|] eqn:Es; [|by apply plain_unary_made]. exfalso. unfold const_value in Ec.
        unfold simplify_unary in Es. destruct (h !! x) as [[]|]; try done. by destruct op. }
    destruct (simplify_unary _ _ h op x) as [m|] eqn:Es; [|by apply plain_unary_made].
    eapply simplify_unary_made; [done|done| | |exact Es].
    + intros f s t En. pose proof (wf_operands _ _ _ Hwf En) as [Hf Hs]. apply IHb; try done; lia.
    + intros i t En. pose proof (wf_operands _ _ _ Hwf En) as Hi. cbn in Hi. apply IHu; try done; lia.
  - intros op f s h Hdiv Hexp Hwf Hf Hs Ht. eapply made_at; [cbn [make_binary]; unfold mbind at 1, get; reflexivity|].
    destruct (fold_binary h op f s) as [v|] eqn:Efold; [by apply fold_binary_made|].
    unfold simplify_binary.
    destruct (_nodesEqual h f s) eqn:Eeq; [destruct (equal_operands h op f) as [m|] eqn:Em; [by eapply equal_made|]|].
    all: destruct (const_value h f) as [b|] eqn:Eb; cbn [base.mbind option_bind];
      [destruct (first_const _ _ h op b f s) as [m|] eqn:Em1; [eapply first_const_made; try done; apply IHu; try done; lia|]|];
      (destruct (const_value h s) as [a|] eqn:Ea; cbn [base.mbind option_bind];
        [destruct (second_const _ op a f s) as [m|] eqn:Em2; [eapply second_const_made; try done; apply IHu; try done; lia|]|]);
      by apply plain_binary_made.
Qed.
End Simplify.
