(* ===== verification/PsEvaluate.v ===== *)
(** * Calculator functions: the expressions stand for the results

    [_makeBinary] for divisions and powers, and [_makeTernary], are right as
    well; so every operator and block on a stack of nodes ends, and leaves nodes
    that stand for the values the program computes, when no two branches leave
    stacks of different heights. *)
From stdpp Require Import gmap.
From Stdlib Require Import SpecFloat.
From S2P Require Import Prelude Number64 FloatLaws PsParser PsTree PsSpec PsCompiler PsCompilerSpec PsSimplify.
Local Open Scope js_scope.

Section Evaluate.
Context `{MathLib} (args : Z -> float).
Local Abbreviation means := (means args).
Local Abbreviation stands := (stands args).
Local Abbreviation made := (made args).
Local Abbreviation unary_of := (unary_of args).
Local Abbreviation binary_of := (binary_of args).

(** ** Calls one after the other *)

(** The call on a heap of at most [limit] nodes that was made from [h]. *)
Lemma made_bind h limit bound (sem : jsval -> Prop) (m : M heap nat) (k : nat -> M heap nat) : made h limit (fun _ => False) m ->
  (forall n h', extends h h' -> wf h' -> (n < length h')%nat -> (length h' <= limit)%nat -> made h' bound (fun _ => False) (k n)) ->
  made h bound (fun _ => False) (mbind m k).
Proof.
  intros (n & h1 & E1 & He1 & Hwf1 & Hn1 & Hl1 & _) Hk. destruct (Hk n h1) as (n2 & h2 & E2 & He2 & Hwf2 & Hn2 & Hl2 & _); try done.
  exists n2, h2. split; [unfold mbind; by rewrite E1|]. split; [by etransitivity|]. done.
Qed.

Lemma made_nothing h bound bound' sem m : (bound <= bound')%nat -> made h bound sem m -> made h bound' (fun _ => False) m.
Proof. intros Hb (n & h' & E & He & Hwf & Hn & Hl & _). exists n, h'. do 4 (split; [done|]). split; [lia|done]. Qed.

Lemma made_more h bound bound' sem m : (bound <= bound')%nat -> made h bound sem m -> made h bound' sem m.
Proof. intros Hb (n & h' & E & He & Hwf & Hn & Hl & Hs). exists n, h'. do 4 (split; [done|]). split; [lia|done]. Qed.

(** A constant and a call with it. *)
Lemma made_alloc_bind h bound sem c (k : nat -> M heap nat) : wf h ->
  made (h ++ [PsConstNode c]) bound sem (k (length h)) -> made h bound sem (mbind (alloc (PsConstNode c)) k).
Proof.
  intros Hwf (n & h' & E & He & Hr). exists n, h'. split; [done|]. split; [|done]. etransitivity; [apply extends_alloc|done].
Qed.

Lemma wf_const h c : wf h -> wf (h ++ [PsConstNode c]).
Proof. intros Hwf. by apply wf_alloc. Qed.

(** ** Divisions and powers *)

Lemma make_div turns h f s : wf h -> (f < length h)%nat -> (s < length h)%nat -> (2 * length h + 5 <= turns)%nat ->
  made h (S (S (length h))) (binary_of h TOKEN.div f s) (make_binary turns TOKEN.div f s).
Proof.
  intros Hwf Hf Hs Ht. destruct turns as [|turns]; [lia|]. eapply made_at; [cbn [make_binary]; unfold mbind at 1, get; reflexivity|].
  destruct (fold_binary h TOKEN.div f s) as [v|] eqn:Efold; [eapply made_more, fold_binary_made; [lia|done|done]|].
  unfold simplify_binary, second_const, equal_operands.
  replace (if _nodesEqual h f s then None else None) with (@None (M heap nat)) by (by destruct (_nodesEqual h f s)).
  assert (Hplain : made h (S (S (length h))) (binary_of h TOKEN.div f s)
    (alloc (PsBinaryNode TOKEN.div f s (_binaryValueType TOKEN.div (value_type h f) (value_type h s))))).
  { eapply made_more, plain_binary_made; [lia|done..]. }
  destruct (const_value h f) as [b|] eqn:Eb; cbn [base.mbind option_bind first_const].
  2: { by destruct (const_value h s). }
  destruct (is_number b fzero) eqn:E0; cbn [negb]; [by destruct (const_value h s)|].
  apply made_alloc_bind; [done|]. set (h1 := h ++ _). assert (Hl1 : length h1 = S (length h)) by (unfold h1; rewrite length_app; cbn; lia).
  assert (He : extends h h1) by apply extends_alloc. assert (Hwf1 : wf h1) by (by apply wf_const).
  rewrite <- Hl1. apply (made_sem _ _ _ (S (length h1)) _ (binary_of h1 TOKEN.mul (length h) s)); [|done|].
  - intros v (a & b' & Ha & Hb & Ev). apply (means_const_value _ _ _ _ _ Eb) in Hb as ->.
    destruct a as [x|], b as [y|]; try done. cbn [node_binary spec_binary] in Ev.
    destruct (exact_quotient x y) eqn:Eq; [|done]. apply num_inv in Ev as [-> Hd]. unfold exact_quotient in Eq.
    apply andb_true_iff in Eq as [Eq Hq]. apply andb_true_iff in Eq as [Eq Hd1]. apply andb_true_iff in Eq as [Hy Hd0].
    assert (E : fmul x (fdiv fone y) ≈ fdiv x y).
    { assert (Hv : double_value (Num (fdiv x y))) by done.
      destruct (strict_eq_equiv (Num (fdiv x y)) (Num (fmul x (fdiv fone y))) Hv) as [_ E]; [by rewrite strict_eq_sym|]. by symmetry. }
    exists (Num (fmul x (fdiv fone y))). split; [|done]. exists (Num x), (Num (fdiv fone y)). split; [by eapply means_extends|]. split.
    + apply means_const; [|done]. unfold h1. by rewrite lookup_app_r, Nat.sub_diag.
    + cbn [node_binary spec_binary]. unfold num. by rewrite (is_double_proper _ _ E), Hd.
  - apply make_simple; try done; lia.
Qed.

Lemma binary_nothing h op f s turns : op <> TOKEN.div -> op <> TOKEN.exp -> wf h -> (f < length h)%nat -> (s < length h)%nat ->
  (2 * length h + 1 <= turns)%nat -> made h (S (length h)) (fun _ => False) (make_binary turns op f s).
Proof. intros Hd He Hwf Hf Hs Ht. eapply made_nothing; [done|]. apply make_simple; try done; lia. Qed.
Lemma unary_nothing h op x turns : wf h -> (x < length h)%nat -> (2 * length h <= turns)%nat ->
  made h (S (length h)) (fun _ => False) (make_unary turns op x).
Proof. intros Hwf Hx Ht. eapply made_nothing; [done|]. apply make_simple; try done; lia. Qed.

(** Powers with constant exponents become products, roots and quotients. *)
Lemma power_ends turns h b f s m : wf h -> (f < length h)%nat -> (s < length h)%nat -> (2 * length h + 7 <= turns)%nat ->
  first_const (make_binary turns) (make_unary turns) h TOKEN.exp b f s = Some m -> made h (length h + 3) (fun _ => False) m.
Proof.
  intros Hwf Hf Hs Ht Em. cbn [first_const] in Em.
  repeat match type of Em with (if ?c then _ else _) = _ => destruct c end; try done; injection Em as <-.
  - apply (made_nothing h (S (length h)) _ (fun _ => False)); [lia|]. apply made_ret; try done; lia.
  - apply made_alloc_bind; [done|]. set (h1 := h ++ _).
    assert (Hl1 : length h1 = S (length h)) by (unfold h1; rewrite length_app; cbn; lia).
    eapply made_nothing; [|apply make_div; [by apply wf_const|lia|lia|lia]]. lia.
  - eapply made_nothing; [|by apply unary_nothing; try lia]. lia.
  - apply (made_bind _ (S (length h)) _ (fun _ => False)); [apply unary_nothing; try done; lia|]. intros n h' _ Hwf' Hn Hl.
    eapply made_nothing; [|by apply unary_nothing; try lia]. lia.
  - eapply made_nothing; [|by apply binary_nothing; try lia]. lia.
  - apply (made_bind _ (S (length h)) _ (fun _ => False)); [apply binary_nothing; try done; lia|]. intros n h' He Hwf' Hn Hl.
    apply extends_length in He. eapply made_nothing; [|by apply binary_nothing; try lia]. lia.
  - apply (made_bind _ (S (length h)) _ (fun _ => False)); [apply binary_nothing; try done; lia|]. intros n h' He Hwf' Hn Hl.
    eapply made_nothing; [|by apply binary_nothing; try lia]. lia.
  - apply (made_nothing h (S (length h)) _ (fun _ => False)); [lia|]. by apply made_const.
Qed.

Lemma make_exp turns h f s : wf h -> (f < length h)%nat -> (s < length h)%nat -> (2 * length h + 8 <= turns)%nat ->
  made h (length h + 3) (binary_of h TOKEN.exp f s) (make_binary turns TOKEN.exp f s).
Proof.
  intros Hwf Hf Hs Ht. destruct turns as [|turns]; [lia|]. eapply made_at; [cbn [make_binary]; unfold mbind at 1, get; reflexivity|].
  apply (made_sem _ _ _ (length h + 3) _ (fun _ => False)); [by intros v (a & b & _ & _ & Ev); destruct a, b|done|].
  destruct (fold_binary h TOKEN.exp f s) as [v|] eqn:Efold; [eapply made_nothing, fold_binary_made; [lia|done|done]|].
  unfold simplify_binary, second_const, equal_operands.
  replace (if _nodesEqual h f s then None else None) with (@None (M heap nat)) by (by destruct (_nodesEqual h f s)).
  assert (Hplain : made h (length h + 3) (fun _ => False)
    (alloc (PsBinaryNode TOKEN.exp f s (_binaryValueType TOKEN.exp (value_type h f) (value_type h s))))).
  { eapply made_nothing, plain_binary_made; [lia|done..]. }
  destruct (const_value h f) as [b|] eqn:Eb; cbn [base.mbind option_bind].
  2: { by destruct (const_value h s). }
  destruct (first_const _ _ h TOKEN.exp b f s) as [m|] eqn:Em; [|by destruct (const_value h s)].
  eapply power_ends; [done|exact Hf|exact Hs| |exact Em]. lia.
Qed.

(** ** Every operator *)

Lemma makeBinary_made h op f s : wf h -> (f < length h)%nat -> (s < length h)%nat ->
  made h (length h + 3) (binary_of h op f s) (_makeBinary op f s).
Proof.
  intros Hwf Hf Hs. eapply made_at; [unfold _makeBinary; reflexivity|]. unfold enough.
  destruct (decide (op = TOKEN.div)) as [->|Hdiv]; [eapply made_more, make_div; try done; lia|].
  destruct (decide (op = TOKEN.exp)) as [->|Hexp]; [apply make_exp; try done; lia|].
  eapply made_more; [|apply make_simple; try done]; lia.
Qed.
Lemma makeUnary_made h op x : wf h -> (x < length h)%nat -> made h (length h + 3) (unary_of h op x) (_makeUnary op x).
Proof.
  intros Hwf Hx. eapply made_at; [unfold _makeUnary; reflexivity|]. unfold enough.
  eapply made_more; [|apply make_simple; try done]; lia.
Qed.
End Evaluate.

Section Ternary.
Context `{MathLib} (args : Z -> float).
Local Abbreviation means := (means args).
Local Abbreviation stands := (stands args).
Local Abbreviation made := (made args).

(** ** Conditionals *)

(** What a conditional makes of its parts. *)
Definition ternary_of (h : heap) (c t e : nat) (v : jsval) : Prop :=
  exists b, means h c (Bool b) /\ means h (if b : bool then t else e) v.

Lemma ternary_of_extends h h' c t e v : extends h h' -> ternary_of h c t e v -> ternary_of h' c t e v.
Proof. intros He (b & Hc & Hb). exists b. split; by eapply means_extends. Qed.

(** The order that a comparison tells of, and the extremum it chooses. *)
Definition chosen (least : bool) (x y : float) : float := if least then math_min x y else math_max x y.

Lemma chosen_value (least : bool) (x y v : float) : is_double x = true -> is_double y = true ->
  (if least then v = x /\ fle x y = true \/ v = y /\ fle y x = true else v = y /\ fle x y = true \/ v = x /\ fle y x = true) ->
  chosen least x y ≈ v.
Proof.
  intros Hx Hy Hv. apply is_double_not_nan in Hx, Hy. destruct least; destruct Hv as [[-> Hle]|[-> Hle]]; cbn.
  - by apply math_min_le.
  - by apply math_min_ge.
  - by apply math_max_le.
  - by apply math_max_ge.
Qed.

(** A comparison of two numbers says which one is at most the other. *)
Lemma comparison_order op x y r : is_double x = true -> is_double y = true -> node_binary op (Num x) (Num y) = Some (Bool r) ->
  match op with
  | TOKEN.gt | TOKEN.ge => if r then fle y x = true else fle x y = true
  | TOKEN.lt | TOKEN.le => if r then fle x y = true else fle y x = true
  | _ => True
  end.
Proof.
  intros Hx Hy. apply is_double_not_nan in Hx, Hy. destruct op; try done; cbn; intros [= <-].
  - destruct (flt y x) eqn:E; [by apply flt_fle|by apply not_flt_fle].
  - destruct (fle y x) eqn:E; [done|]. rewrite fle_not_flt, negb_false_iff in E by done. by apply flt_fle.
  - destruct (flt x y) eqn:E; [by apply flt_fle|by apply not_flt_fle].
  - destruct (fle x y) eqn:E; [done|]. rewrite fle_not_flt, negb_false_iff in E by done. by apply flt_fle.
Qed.

(** The branches are the operands of the comparison: [straight] when the first
    branch is its first operand. *)
Lemma extremum_made h c t e cop cf cs ty (least straight : bool) : wf h -> h !! c = Some (PsBinaryNode cop cf cs ty) ->
  cop ∈ [TOKEN.gt; TOKEN.ge; TOKEN.lt; TOKEN.le] ->
  _nodesEqual h t (if straight then cf else cs) && _nodesEqual h e (if straight then cs else cf) = true ->
  (forall x y r, is_double x = true -> is_double y = true -> node_binary cop (Num x) (Num y) = Some (Bool r) ->
    chosen least x y ≈ (if eqb r straight then y else x)) ->
  made h (length h + 3) (ternary_of h c t e) (_makeBinary (if least then TOKEN.min else TOKEN.max) cf cs).
Proof.
  intros Hwf Ec Hcop Heq Hch. apply andb_true_iff in Heq as [Et Ee]. pose proof (wf_operands _ _ _ Hwf Ec) as [Hf Hs].
  apply lookup_lt_Some in Ec as Hc. set (op := if least then TOKEN.min else TOKEN.max).
  apply (made_sem _ _ _ (length h + 3) _ (binary_of args h op cf cs)); [|done|apply makeBinary_made; [done|lia|lia]].
  intros v (b & Hb & Hv). inversion Hb; simplify_eq.
  match goal with H1 : means h cs ?a1, H2 : means h cf ?b1, H3 : node_binary cop _ _ = _ |- _ =>
    rename H1 into Ha, H2 into Hbb, H3 into Hr; apply means_double in Ha as Hda; apply means_double in Hbb as Hdb; destruct a1 as [x|], b1 as [y|] end.
  2, 3, 4: exfalso; set_unfold; by destruct_or!; subst.
  assert (E : v ≃ Num (if eqb b straight then y else x)).
  { destruct b.
    - destruct (proj1 (nodes_equal_means args h _ _ _ v Et) Hv) as (w & Hw & E). symmetry in E. rewrite E. clear E.
      destruct straight; [by rewrite (means_det args _ _ _ _ Hw Hbb)|by rewrite (means_det args _ _ _ _ Hw Ha)].
    - destruct (proj1 (nodes_equal_means args h _ _ _ v Ee) Hv) as (w & Hw & E). symmetry in E. rewrite E. clear E.
      destruct straight; [by rewrite (means_det args _ _ _ _ Hw Ha)|by rewrite (means_det args _ _ _ _ Hw Hbb)]. }
  specialize (Hch x y b Hda Hdb Hr). exists (Num (chosen least x y)). split; [|by symmetry; rewrite E; symmetry].
  exists (Num x), (Num y). split; [done|]. split; [done|].
  assert (Hd : is_double (chosen least x y) = true) by (rewrite Hch; by destruct (eqb b straight)).
  unfold op, chosen in *. destruct least; cbn; unfold num; by rewrite Hd.
Qed.

Lemma gt_chosen cop x y r least straight : is_double x = true -> is_double y = true -> cop = TOKEN.gt \/ cop = TOKEN.ge ->
  least = straight -> node_binary cop (Num x) (Num y) = Some (Bool r) -> chosen least x y ≈ (if eqb r straight then y else x).
Proof.
  intros Hx Hy Hc -> Hr. apply chosen_value; [done|done|]. pose proof (comparison_order _ _ _ _ Hx Hy Hr) as Ho.
  destruct Hc as [-> | ->], straight, r; cbn in *; auto.
Qed.
Lemma lt_chosen cop x y r least straight : is_double x = true -> is_double y = true -> cop = TOKEN.lt \/ cop = TOKEN.le ->
  least = negb straight -> node_binary cop (Num x) (Num y) = Some (Bool r) -> chosen least x y ≈ (if eqb r straight then y else x).
Proof.
  intros Hx Hy Hc -> Hr. apply chosen_value; [done|done|]. pose proof (comparison_order _ _ _ _ Hx Hy Hr) as Ho.
  destruct Hc as [-> | ->], straight, r; cbn in *; auto.
Qed.

(** The node that is made when no rule applies. *)
Lemma plain_ternary_made h c t e : wf h -> (c < length h)%nat -> (t < length h)%nat -> (e < length h)%nat ->
  made h (length h + 3) (ternary_of h c t e)
    (alloc (PsTernaryNode c t e (if decide (value_type h t = value_type h e) then value_type h t else unknown))).
Proof.
  intros Hwf Hc Ht He. apply made_alloc; try done; [lia|]. intros v Hv. apply means_stands.
  eapply ternary_of_extends in Hv as (b & Hb & Hv); [|apply extends_alloc].
  destruct b; [eapply means_then|eapply means_else]; try eassumption; by rewrite lookup_app_r, Nat.sub_diag.
Qed.

Lemma makeTernary_made h c t e : wf h -> (c < length h)%nat -> (t < length h)%nat -> (e < length h)%nat ->
  made h (length h + 3) (ternary_of h c t e) (_makeTernary c t e).
Proof.
  intros Hwf Hc Ht He. eapply made_at; [unfold _makeTernary; unfold mbind at 1, get; reflexivity|].
  pose proof (plain_ternary_made h c t e Hwf Hc Ht He) as Hplain. cbv zeta.
  destruct (const_value h c) as [b|] eqn:Ec.
  { apply made_ret; [done|by destruct (truthy b)|lia|]. intros v (r & Hr & Hv). apply (means_const_value _ _ _ _ _ Ec) in Hr as <-.
    apply means_stands. exact Hv. }
  destruct (_nodesEqual h t e) eqn:Ete.
  { apply made_ret; [done|done|lia|]. intros v ([] & _ & Hv); [by apply means_stands|]. by apply (nodes_equal_means args h _ _ _ v Ete). }
  assert (Hcond : made h (length h + 3) (ternary_of h c t e)
    (match h !! c with
     | Some (PsBinaryNode cop cf cs _) =>
         let straight := _nodesEqual h t cf && _nodesEqual h e cs in
         let crossed := _nodesEqual h t cs && _nodesEqual h e cf in
         let node := alloc (PsTernaryNode c t e (if decide (value_type h t = value_type h e) then value_type h t else unknown)) in
         match cop with
         | TOKEN.gt | TOKEN.ge => if straight then _makeBinary TOKEN.min cf cs else if crossed then _makeBinary TOKEN.max cf cs else node
         | TOKEN.lt | TOKEN.le => if straight then _makeBinary TOKEN.max cf cs else if crossed then _makeBinary TOKEN.min cf cs else node
         | _ => node
         end
     | _ => alloc (PsTernaryNode c t e (if decide (value_type h t = value_type h e) then value_type h t else unknown))
     end)).
  { destruct (h !! c) as [[]|] eqn:En; try exact Hplain. cbv zeta.
    destruct op; try exact Hplain; (destruct (_ && _) eqn:Es; [|clear Es; destruct (_ && _) eqn:Es; [|exact Hplain]]).
    1, 3: apply (extremum_made h c t e _ _ _ _ true true Hwf En); [set_solver|done|intros; eapply gt_chosen; [done|done| |done|eassumption]; auto].
    1, 2: apply (extremum_made h c t e _ _ _ _ false false Hwf En); [set_solver|done|intros; eapply gt_chosen; [done|done| |done|eassumption]; auto].
    1, 3: apply (extremum_made h c t e _ _ _ _ false true Hwf En); [set_solver|done|intros; eapply lt_chosen; [done|done| |done|eassumption]; auto].
    1, 2: apply (extremum_made h c t e _ _ _ _ true false Hwf En); [set_solver|done|intros; eapply lt_chosen; [done|done| |done|eassumption]; auto]. }
  destruct (const_value h t) as [[|[]]|] eqn:Et; try exact Hcond; destruct (const_value h e) as [[|[]]|] eqn:Ee; try exact Hcond.
  - apply made_ret; [done|done|lia|]. intros v ([] & Hb & Hv).
    + apply (means_const_value _ _ _ _ _ Et) in Hv as ->. by apply means_stands.
    + apply (means_const_value _ _ _ _ _ Ee) in Hv as ->. by apply means_stands.
  - apply (made_sem _ _ _ (length h + 3) _ (unary_of args h TOKEN.not c)); [|done|by apply makeUnary_made].
    intros v (b & Hb & Hv). exists v. split; [|done]. exists (Bool b). split; [done|].
    destruct b; [apply (means_const_value _ _ _ _ _ Et) in Hv as ->|apply (means_const_value _ _ _ _ _ Ee) in Hv as ->]; done.
Qed.
End Ternary.

(** ** Stacks of nodes *)

Section Runs.
Context `{MathLib} (args : Z -> float) (strict : bool).
Local Abbreviation means := (means args).
Local Abbreviation stands := (stands args).
Local Abbreviation made := (made args).

Definition below (h : heap) (stack : list nat) : Prop := Forall (fun n => (n < length h)%nat) stack.
Local Abbreviation stand h := (Forall2 (stands h)).

(** The operation ends; the nodes it leaves stand for what [sem] makes of the
    values of the nodes it is given, if branches of different heights are
    failures. *)
Definition runs (h : heap) (stack : list nat) (sem : list jsval -> option (list jsval)) (m : M heap (list nat)) : Prop :=
  match m h with
  | (Ok stack', h') => extends h h' /\ wf h' /\ below h' stack' /\
      (strict = true -> forall vs vs', stand h stack vs -> sem vs = Some vs' -> stand h' stack' vs')
  | (Throw _, _) => True
  | (OutOfFuel, _) => False
  end.

Lemma below_extends h h' stack : extends h h' -> below h stack -> below h' stack.
Proof. intros He Hb. apply extends_length in He. eapply Forall_impl; [exact Hb|]. cbn. intros. lia. Qed.
Lemma stand_extends h h' stack vs : extends h h' -> stand h stack vs -> stand h' stack vs.
Proof. intros He Hs. eapply Forall2_impl; [exact Hs|]. intros n v. by apply stands_extends. Qed.

Lemma runs_ret h stack stack' sem : wf h -> below h stack' ->
  (forall vs vs', stand h stack vs -> sem vs = Some vs' -> stand h stack' vs') -> runs h stack sem (mret stack').
Proof. intros Hwf Hb Hs. split; [reflexivity|]. split; [done|]. split; [done|]. intros _. exact Hs. Qed.

Lemma runs_failed h stack sem : runs h stack sem failed.
Proof. exact I. Qed.

Lemma runs_require h stack sem ok (m : M heap (list nat)) : (ok = true -> runs h stack sem m) -> runs h stack sem (require ok ;;; m).
Proof. intros Hm. unfold require. destruct ok; [by apply Hm|exact I]. Qed.

Lemma runs_made h stack sem bound nsem (m : M heap nat) (k : nat -> M heap (list nat)) : made h bound nsem m ->
  (forall n h', extends h h' -> wf h' -> (n < length h')%nat -> (forall v, nsem v -> stands h' n v) -> runs h' stack sem (k n)) ->
  runs h stack sem (mbind m k).
Proof.
  intros (n & h1 & E & He & Hwf & Hn & _ & Hs) Hk. specialize (Hk n h1 He Hwf Hn Hs). unfold runs, mbind in *. rewrite E.
  destruct (k n h1) as [[stack'|e|] h2]; try done. destruct Hk as (He2 & Hwf2 & Hb2 & Hs2). split; [by etransitivity|].
  do 2 (split; [done|]). intros Hst vs vs' Hvs. apply (Hs2 Hst). by eapply stand_extends.
Qed.

Lemma runs_bind h stack sem1 sem2 (m : M heap (list nat)) k : runs h stack sem1 m ->
  (forall stack' h', extends h h' -> wf h' -> below h' stack' -> runs h' stack' sem2 (k stack')) ->
  runs h stack (fun vs => vs' ← sem1 vs; sem2 vs') (mbind m k).
Proof.
  unfold runs, mbind. destruct (m h) as [[stack1|e|] h1]; try done. intros (He & Hwf & Hb & Hs) Hk.
  specialize (Hk _ _ He Hwf Hb). destruct (k stack1 h1) as [[stack2|e|] h2]; try done. destruct Hk as (He2 & Hwf2 & Hb2 & Hs2).
  split; [by etransitivity|]. do 2 (split; [done|]). intros Hst vs vs' Hvs E. destruct (sem1 vs) as [vs1|] eqn:E1; [|done].
  eapply (Hs2 Hst); [|exact E]. by eapply Hs.
Qed.

Lemma runs_sem h stack (sem sem' : list jsval -> option (list jsval)) m : (forall vs vs', stand h stack vs -> sem vs = Some vs' -> sem' vs = Some vs') ->
  runs h stack sem' m -> runs h stack sem m.
Proof.
  intros Hs. unfold runs. destruct (m h) as [[stack1|e|] h1]; try done. intros (He & Hwf & Hb & Hr). do 3 (split; [done|]).
  intros Hst vs vs' Hvs E. eapply (Hr Hst); [done|]. by apply Hs.
Qed.

(** A new constant. *)
Lemma runs_const h stack sem c (k : nat -> M heap (list nat)) : wf h ->
  (forall n h', extends h h' -> wf h' -> (n < length h')%nat -> (double_value c -> stands h' n c) -> runs h' stack sem (k n)) ->
  runs h stack sem (n <- alloc (PsConstNode c);; k n).
Proof.
  intros Hwf Hk. apply (runs_made _ _ _ (S (length h)) (fun v => v = c /\ double_value c)).
  - apply made_const; [done|done|]. by intros v [-> Hc].
  - intros n h' He Hwf' Hn Hs. apply Hk; try done. intros Hc. by apply Hs.
Qed.

Lemma runs_push h n stack (sem : list jsval -> option (list jsval)) : wf h -> (n < length h)%nat -> below h stack ->
  (forall vs vs', stand h stack vs -> sem vs = Some vs' -> exists v, vs' = v :: vs /\ stands h n v) ->
  runs h stack sem (push_checked n stack).
Proof.
  intros Hwf Hn Hb Hs. apply runs_require. intros _. apply runs_ret; [done|by constructor|]. intros vs vs' Hvs E.
  destruct (Hs vs vs' Hvs E) as (v & -> & Hv). by constructor.
Qed.

(** *** Operators *)

Lemma spec_node_binary op a b v : spec_binary op a b = Some v -> node_binary op a b = Some v.
Proof. by destruct op. Qed.

(** Operands that stand for values stand for their result. *)
Lemma stands_binary h op f s a b v : stands h s a -> stands h f b -> spec_binary op a b = Some v -> exists w, binary_of args h op f s w /\ w ≃ v.
Proof.
  intros (a' & Ha & Ea) (b' & Hb & Eb) E. apply spec_node_binary in E.
  destruct (node_binary_cong op a a' b b' v) as (w & Ew & Evw); [by symmetry|by symmetry|done|].
  exists w. split; [by exists a', b'|by symmetry].
Qed.
Lemma stands_unary h op x a v : stands h x a -> spec_unary op a = Some v -> exists w, unary_of args h op x w /\ w ≃ v.
Proof.
  intros (a' & Ha & Ea) E. destruct (spec_unary_cong op a a' v) as (w & Ew & Evw); [by symmetry|done|].
  exists w. split; [by exists a'|by symmetry].
Qed.

(** The node on the top of a stack. *)
Lemma runs_result h (stack : list nat) rest bound nsem (sem : list jsval -> option (list jsval)) (m : M heap nat) :
  made h bound nsem m -> below h rest ->
  (forall vs vs', stand h stack vs -> sem vs = Some vs' -> exists v vs1 w, vs' = v :: vs1 /\ nsem w /\ w ≃ v /\ stand h rest vs1) ->
  runs h stack sem (n <- m;; mret (n :: rest)).
Proof.
  intros (n & h1 & E & He & Hwf & Hn & _ & Hs) Hb Hv. unfold runs, mbind. rewrite E. cbn. split; [done|]. split; [done|].
  split; [constructor; [done|by eapply below_extends]|]. intros _ vs vs' Hvs Es. destruct (Hv _ _ Hvs Es) as (v & vs1 & w & -> & Hw & Ew & Hrest).
  constructor; [eapply stands_cong; [by apply Hs|done]|by eapply stand_extends].
Qed.

(** A constant that stands for a whole number is that number. *)
Lemma stands_int h n c v z : const_value h n = Some c -> stands h n v -> spec_int v = Some z -> to_int c = z.
Proof.
  intros Ec (w & Hw & E) Hz. apply (means_const_value _ _ _ _ _ Ec) in Hw as ->. apply (spec_int_cong _ c) in Hz; [|by symmetry].
  destruct c as [x|]; [|done]. unfold spec_int in Hz. destruct (_ && _); [|done]. by injection Hz.
Qed.

Lemma runs_get h stack sem (k : heap -> M heap (list nat)) : runs h stack sem (k h) -> runs h stack sem (mbind get k).
Proof. done. Qed.

(** The value of a constant node, or a failure. *)
Lemma runs_const_int h n stack sem (k : Z -> M heap (list nat)) : (forall c, const_value h n = Some c -> runs h stack sem (k (to_int c))) ->
  runs h stack sem (mbind (const_int n) k).
Proof.
  intros Hk. unfold runs, mbind, const_int, mbind, get. destruct (const_value h n) as [c|] eqn:E; [exact (Hk c eq_refl)|exact I].
Qed.

(** The operators on the stack itself are neither binary nor unary. *)
Ltac stack_op E :=
  unfold spec_op in E;
  match type of E with context [binaryOps ?op] => change (binaryOps op) with false in E; change (unaryOps op) with false in E end;
  cbv iota in E.

Lemma copy_runs h nNode stack : wf h -> below h (nNode :: stack) -> runs h (nNode :: stack) (spec_op TOKEN.copy) (_evalOp TOKEN.copy (nNode :: stack)).
Proof.
  intros Hwf Hb. apply Forall_cons in Hb as [Hn Hb]. cbn [_evalOp].
  apply runs_const_int. intros c Ec.
  assert (Hsem : forall vs vs', stand h (nNode :: stack) vs -> spec_op TOKEN.copy vs = Some vs' ->
    exists vs1, stand h stack vs1 /\ vs' = take (Z.to_nat (to_int c)) vs1 ++ vs1).
  { intros vs vs' Hvs E. apply Forall2_cons_inv_l in Hvs as (v & vs1 & Hv & Hvs & ->). stack_op E.
    destruct (spec_int v) as [z|] eqn:Ez; [|done]. cbn in E. apply (stands_int _ _ _ _ _ Ec Hv) in Ez as <-.
    destruct (_ && _); [|done]. apply within_length in E as [-> _]. by exists vs1. }
  destruct (Z.eqb_spec (to_int c) 0) as [Ez|Hz].
  { apply runs_ret; [done|done|]. intros vs vs' Hvs E. destruct (Hsem _ _ Hvs E) as (vs1 & Hvs1 & ->). by rewrite Ez. }
  destruct (_ || _); [exact I|]. apply runs_require. intros _. apply runs_ret; [done|by apply Forall_app; split; [apply Forall_take|]|].
  intros vs vs' Hvs E. destruct (Hsem _ _ Hvs E) as (vs1 & Hvs1 & ->). apply Forall2_app; [by apply Forall2_take|done].
Qed.

Lemma index_runs h nNode stack : wf h -> below h (nNode :: stack) -> runs h (nNode :: stack) (spec_op TOKEN.index) (_evalOp TOKEN.index (nNode :: stack)).
Proof.
  intros Hwf Hb. apply Forall_cons in Hb as [Hn Hb]. cbn [_evalOp].
  apply runs_const_int. intros c Ec.
  destruct (_ || _); [exact I|]. destruct (stack !! _) as [m|] eqn:Em; [|exact I].
  apply runs_ret; [done|constructor; [exact (Forall_lookup_1 _ _ _ _ Hb Em)|done]|].
  intros vs vs' Hvs E. apply Forall2_cons_inv_l in Hvs as (v & vs1 & Hv & Hvs & ->). stack_op E.
  destruct (spec_int v) as [z|] eqn:Ez; [|done]. cbn in E. apply (stands_int _ _ _ _ _ Ec Hv) in Ez as <-.
  destruct (0 <=? to_int c); [|done]. destruct (vs1 !! _) as [w|] eqn:Ew; [|done]. injection E as <-.
  constructor; [|done]. eapply Forall2_lookup_lr; eassumption.
Qed.

Lemma roll_runs h jNode nNode stack : wf h -> below h (jNode :: nNode :: stack) ->
  runs h (jNode :: nNode :: stack) (spec_op TOKEN.roll) (_evalOp TOKEN.roll (jNode :: nNode :: stack)).
Proof.
  intros Hwf Hb. apply Forall_cons in Hb as [Hj Hb]. apply Forall_cons in Hb as [Hn Hb]. cbn [_evalOp]. apply runs_get.
  destruct (const_value h nNode) as [nv|] eqn:En; [|exact I]. destruct (const_value h jNode) as [jv|] eqn:Ej; [|exact I].
  assert (Hsem : forall vs vs', stand h (jNode :: nNode :: stack) vs -> spec_op TOKEN.roll vs = Some vs' ->
    exists vs1, stand h stack vs1 /\ 1 <= to_int nv <= len vs1 /\
      let j := Z.to_nat (to_int jv mod to_int nv) in let rolled := take (Z.to_nat (to_int nv)) vs1 in
      vs' = drop j rolled ++ take j rolled ++ drop (Z.to_nat (to_int nv)) vs1).
  { intros vs vs' Hvs E. apply Forall2_cons_inv_l in Hvs as (w & vs1 & Hw & Hvs & ->).
    apply Forall2_cons_inv_l in Hvs as (v & vs2 & Hv & Hvs & ->). stack_op E.
    destruct (spec_int w) as [j|] eqn:Ejz; [|done]. cbn in E. destruct (spec_int v) as [z|] eqn:Ez; [|done]. cbn in E.
    apply (stands_int _ _ _ _ _ En Hv) in Ez as <-. apply (stands_int _ _ _ _ _ Ej Hw) in Ejz as <-.
    destruct (_ && _) eqn:Er; [|done]. injection E as <-. exists vs2. split; [done|]. split; [lia|done]. }
  cbv zeta. destruct (Z.eqb_spec (to_int nv) 0) as [E0|Hn0].
  { apply runs_ret; [done|done|].
    intros vs vs' Hvs E. destruct (Hsem _ _ Hvs E) as (vs1 & _ & Hr & _). lia. }
  destruct (_ || _) eqn:Er; [exact I|]. set (j := Z.to_nat (Z.rem (Z.rem (to_int jv) (to_int nv) + to_int nv) (to_int nv))).
  set (slice := take _ stack).
  assert (Ejm : j = Z.to_nat (to_int jv mod to_int nv)) by (unfold j; by rewrite rem_mod_pos by lia).
  apply runs_ret; [done| |].
  - unfold below. rewrite !Forall_app. unfold slice. repeat split; eauto using Forall_take, Forall_drop.
  - intros vs vs' Hvs E. destruct (Hsem _ _ Hvs E) as (vs1 & Hvs1 & Hr & ->). cbv zeta. rewrite <- Ejm. unfold slice.
    repeat apply Forall2_app; eauto using Forall2_take, Forall2_drop.
Qed.

Lemma evalOp_runs h op stack : wf h -> below h stack -> runs h stack (spec_op op) (_evalOp op stack).
Proof.
  intros Hwf Hb. unfold _evalOp, spec_op. destruct (binaryOps op) eqn:Ebin.
  { destruct stack as [|f [|s stack]]; try exact I. apply Forall_cons in Hb as [Hf Hb]. apply Forall_cons in Hb as [Hs Hb].
    eapply runs_result; [by apply makeBinary_made|done|]. intros vs vs' Hvs E.
    apply Forall2_cons_inv_l in Hvs as (b & vs1 & Hvb & Hvs & ->). apply Forall2_cons_inv_l in Hvs as (a & vs2 & Hva & Hvs & ->).
    destruct (spec_binary op a b) as [v|] eqn:Ev; [|done]. injection E as <-.
    destruct (stands_binary _ _ _ _ _ _ _ Hva Hvb Ev) as (w & Hw & E). by exists v, vs2, w. }
  destruct (unaryOps op) eqn:Eun.
  { destruct stack as [|x stack]; try exact I. apply Forall_cons in Hb as [Hx Hb].
    eapply runs_result; [by apply makeUnary_made|done|]. intros vs vs' Hvs E.
    apply Forall2_cons_inv_l in Hvs as (a & vs1 & Hva & Hvs & ->).
    destruct (spec_unary op a) as [v|] eqn:Ev; [|done]. injection E as <-.
    destruct (stands_unary _ _ _ _ _ Hva Ev) as (w & Hw & E). by exists v, vs1, w. }
  destruct op; try done; try (by destruct stack).
  - apply runs_const; [done|]. intros n h' He Hwf' Hn Hs. apply runs_push; [done|done|by eapply below_extends|].
    intros vs vs' Hvs E. apply within_length in E as [-> _]. exists (Bool true). split; [done|by apply Hs].
  - apply runs_const; [done|]. intros n h' He Hwf' Hn Hs. apply runs_push; [done|done|by eapply below_extends|].
    intros vs vs' Hvs E. apply within_length in E as [-> _]. exists (Bool false). split; [done|by apply Hs].
  - destruct stack as [|n stack]; [exact I|]. apply runs_push; [done|by apply Forall_cons in Hb as []|done|].
    intros vs vs' Hvs E. apply Forall2_cons_inv_l in Hvs as (v & vs1 & Hv & Hvs & ->). apply within_length in E as [-> _]. by exists v.
  - destruct stack as [|a [|b stack]]; try exact I. apply Forall_cons in Hb as [Ha Hb]. apply Forall_cons in Hb as [Hbb Hb].
    apply runs_ret; [done|by repeat constructor|]. intros vs vs' Hvs E. apply Forall2_cons_inv_l in Hvs as (v & vs1 & Hv & Hvs & ->).
    apply Forall2_cons_inv_l in Hvs as (w & vs2 & Hw & Hvs & ->). injection E as <-. by repeat constructor.
  - destruct stack as [|a stack]; [exact I|]. apply Forall_cons in Hb as [Ha Hb]. apply runs_ret; [done|done|].
    intros vs vs' Hvs E. apply Forall2_cons_inv_l in Hvs as (v & vs1 & Hv & Hvs & ->). by injection E as <-.
  - destruct stack as [|a stack]; [exact I|]. by apply copy_runs.
  - destruct stack as [|a stack]; [exact I|]. by apply index_runs.
  - destruct stack as [|a [|b stack]]; try exact I. by apply roll_runs.
Qed.

(** *** Branches *)

(** The same for values that are known in advance. *)
Definition leaves (h : heap) (P : list jsval -> Prop) (m : M heap (list nat)) : Prop :=
  match m h with
  | (Ok stack', h') => extends h h' /\ wf h' /\ below h' stack' /\ (strict = true -> forall vs', P vs' -> stand h' stack' vs')
  | (Throw _, _) => True
  | (OutOfFuel, _) => False
  end.

Lemma runs_leaves h stack sem m : runs h stack sem m <-> leaves h (fun vs' => exists vs, stand h stack vs /\ sem vs = Some vs') m.
Proof. unfold runs, leaves. destruct (m h) as [[?|?|] ?]; naive_solver. Qed.

Lemma leaves_weaken h (P P' : list jsval -> Prop) m : (strict = true -> forall vs, P vs -> P' vs) -> leaves h P' m -> leaves h P m.
Proof. unfold leaves. destruct (m h) as [[?|?|] ?]; naive_solver. Qed.

Lemma leaves_bind h P1 P m k : leaves h P1 m ->
  (forall stack' h', extends h h' -> wf h' -> below h' stack' -> (strict = true -> forall vs, P1 vs -> stand h' stack' vs) -> leaves h' P (k stack')) ->
  leaves h P (mbind m k).
Proof.
  unfold leaves, mbind. destruct (m h) as [[stack1|e|] h1]; try done. intros (He & Hwf & Hb & Hs) Hk.
  specialize (Hk _ _ He Hwf Hb Hs). destruct (k stack1 h1) as [[stack2|e|] h2]; try done. destruct Hk as (He2 & Hwf2 & Hb2 & Hs2).
  split; [by etransitivity|]. done.
Qed.

(** The stacks of two branches become one. *)
Lemma merge_leaves changed h cond ts fs : wf h -> (cond < length h)%nat -> below h ts -> below h fs -> length ts = length fs ->
  leaves h (fun vs => exists b, stands h cond (Bool b) /\ stand h (if b : bool then ts else fs) vs) (merge changed cond ts fs).
Proof.
  revert fs. induction ts as [|t ts IH]; intros [|f fs] Hwf Hc Ht Hf Hlen; try done.
  { cbn. split; [reflexivity|]. do 2 (split; [done|]). intros _ vs (b & _ & Hvs). by destruct b. }
  cbn [merge]. apply Forall_cons in Ht as [Ht Hts]. apply Forall_cons in Hf as [Hf Hfs]. injection Hlen as Hlen.
  eapply leaves_bind; [by apply IH|]. intros stack h1 He Hwf1 Hb1 Hs1. pose proof (extends_length _ _ He) as Hl.
  assert (Hm : made h1 (length h1 + 3) (ternary_of args h1 cond t f) (if changed && Nat.eqb t f then mret t else _makeTernary cond t f)).
  { destruct (changed && Nat.eqb t f) eqn:E; [|apply makeTernary_made; [done|lia..]].
    apply andb_true_iff in E as [_ E]. apply Nat.eqb_eq in E as <-. apply made_ret; [done|lia|lia|].
    intros v ([] & _ & Hv); by apply means_stands. }
  destruct Hm as (n & h2 & E & He2 & Hwf2 & Hn & _ & Hs2). unfold leaves, mbind. rewrite E. cbn.
  split; [done|]. split; [done|]. split; [constructor; [done|by eapply below_extends]|].
  intros Hst vs (b & Hcb & Hvs). destruct Hcb as ([|c'] & Hcm & Ec); [done|]. cbn in Ec. subst c'.
  assert (Hcons : exists v vs1, vs = v :: vs1 /\ stands h (if b then t else f) v /\ stand h (if b then ts else fs) vs1).
  { destruct b; apply Forall2_cons_inv_l in Hvs as (v & vs1 & Hv & Hvs & ->); by exists v, vs1. }
  destruct Hcons as (v & vs1 & -> & (w & Hw & Ew) & Hvs1). constructor.
  - eapply stands_cong; [|exact Ew]. apply Hs2. exists b. split; by eapply means_extends.
  - eapply stand_extends; [done|]. apply (Hs1 Hst). exists b. split; [by apply means_stands|done].
Qed.

(** Stacks of different heights are evened out, or are a failure. *)
Lemma even_out_leaves h ts fs : wf h -> below h ts -> below h fs ->
  match even_out strict ts fs h with
  | (Ok stacks, h') => extends h h' /\ wf h' /\ below h' stacks.1 /\ below h' stacks.2 /\ length stacks.1 = length stacks.2 /\
      (strict = true -> stacks = (ts, fs))
  | (Throw _, _) => True
  | (OutOfFuel, _) => False
  end.
Proof.
  intros Hwf Ht Hf. unfold even_out. destruct (Nat.eqb_spec (length ts) (length fs)) as [E|E]; [done|].
  destruct strict; [exact I|]. cbn. set (h1 := h ++ _). assert (He : extends h h1) by apply extends_alloc.
  assert (Hwf1 : wf h1) by (by apply wf_const). assert (Hn : (length h < length h1)%nat) by (unfold h1; rewrite length_app; cbn; lia).
  assert (Hpad : forall k stack, below h stack -> below h1 (pad (length h) k stack)).
  { intros k stack Hb. unfold pad. apply Forall_app. split; [by apply Forall_replicate|by eapply below_extends]. }
  split; [done|]. split; [done|]. split; [by apply Hpad|]. split; [by apply Hpad|]. split; [|done].
  unfold pad. rewrite !length_app, !length_replicate. lia.
Qed.

Lemma merged_leaves h cond ts fs : wf h -> (cond < length h)%nat -> below h ts -> below h fs ->
  leaves h (fun vs => exists b, stands h cond (Bool b) /\ stand h (if b : bool then ts else fs) vs)
    (stacks <- even_out strict ts fs;; merge false cond stacks.1 stacks.2).
Proof.
  intros Hwf Hc Ht Hf. pose proof (even_out_leaves h ts fs Hwf Ht Hf) as He. unfold leaves, mbind.
  destruct (even_out strict ts fs h) as [[[ts' fs']|e|] h1]; try done. destruct He as (He & Hwf1 & Ht1 & Hf1 & Hl & Hst).
  cbn [fst snd] in *. pose proof (extends_length _ _ He).
  pose proof (merge_leaves false h1 cond ts' fs' Hwf1 ltac:(lia) Ht1 Hf1 Hl) as Hm. unfold leaves in Hm.
  destruct (merge false cond ts' fs' h1) as [[stack'|e|] h2]; try done. destruct Hm as (He2 & Hwf2 & Hb2 & Hs2).
  split; [by etransitivity|]. do 2 (split; [done|]). intros Hs vs (b & Hcb & Hvs). specialize (Hst Hs). injection Hst as -> ->.
  apply (Hs2 Hs). exists b. split; [by eapply stands_extends|]. eapply stand_extends; [done|]. by destruct b.
Qed.

(** *** Blocks *)

Definition block_runs (block : PsBlock) : Prop :=
  forall h stack, wf h -> below h stack -> runs h stack (spec_block block) (_evalBlock strict block stack).
Definition branches_run (instr : PsInstr) : Prop :=
  match instr with
  | PsIf then_ => block_runs then_
  | PsIfElse then_ otherwise => block_runs then_ /\ block_runs otherwise
  | _ => True
  end.

(** The rest of a block on a stack that stands for values known in advance. *)
Lemma rest_leaves rest h stack (P : list jsval -> Prop) (Q : list jsval -> Prop) : block_runs rest -> wf h -> below h stack ->
  (strict = true -> forall vs, Q vs -> stand h stack vs) -> (strict = true -> forall vs', P vs' -> exists vs, Q vs /\ spec_block rest vs = Some vs') ->
  leaves h P (_evalBlock strict rest stack).
Proof.
  intros Hrest Hwf Hb HQ HP. eapply leaves_weaken; [|apply runs_leaves, Hrest; done].
  intros Hst vs' Hvs'. destruct (HP Hst vs' Hvs') as (vs & Hvs & E). exists vs. split; [by apply HQ|done].
Qed.

(** What [spec_block] does with an [if]. *)
Lemma spec_if_inv h then_ rest cond saved vs' : (exists vs, stand h (cond :: saved) vs /\ spec_block (Then (PsIf then_) rest) vs = Some vs') ->
  exists b vs vs1, stands h cond (Bool b) /\ stand h saved vs /\ (if b then spec_block then_ vs else Some vs) = Some vs1 /\ spec_block rest vs1 = Some vs'.
Proof.
  intros (vs & Hvs & E). apply Forall2_cons_inv_l in Hvs as (v & vs0 & Hv & Hvs & ->). cbn in E.
  destruct v as [|b]; [done|]. destruct (if b then _ else _) as [vs1|] eqn:E1; [|done]. by exists b, vs0, vs1.
Qed.

Lemma if_runs then_ rest : block_runs then_ -> block_runs rest -> block_runs (Then (PsIf then_) rest).
Proof.
  intros Hthen Hrest h stack Hwf Hb. apply runs_leaves. cbn [_evalBlock]. destruct stack as [|cond saved]; [exact I|].
  apply Forall_cons in Hb as [Hc Hb].
  eapply leaves_bind; [apply runs_leaves, Hthen; [done|exact Hb]|]. intros stack h1 He Hwf1 Hb1 Hs1.
  pose proof (extends_length _ _ He) as Hl. pose proof (below_extends _ _ _ He Hb) as Hb0.
  (* the values of both stacks *)
  set (Q := fun (b : bool) vs => stands h1 cond (Bool b) /\ stand h1 (if b then stack else saved) vs).
  assert (HQ : strict = true -> forall vs', (exists vs, stand h (cond :: saved) vs /\ spec_block (Then (PsIf then_) rest) vs = Some vs') ->
    exists b vs, Q b vs /\ spec_block rest vs = Some vs').
  { intros Hst vs' H'. apply spec_if_inv in H' as (b & vs & vs1 & Hcb & Hvs & E1 & E2). exists b, vs1. split; [|done].
    split; [by eapply stands_extends|]. destruct b.
    - apply (Hs1 Hst). by exists vs.
    - injection E1 as <-. by eapply stand_extends. }
  destruct (Nat.eqb_spec (length stack) (length saved)) as [Elen|Elen].
  { eapply leaves_bind; [apply merge_leaves; [done| |exact Hb1|exact Hb0|done]; lia|]. intros stack2 h2 He2 Hwf2 Hb2 Hs2.
    eapply rest_leaves; [done|done|done|exact Hs2|]. intros Hst vs' H'. destruct (HQ Hst vs' H') as (b & vs & Hq & E).
    exists vs. split; [by exists b|done]. }
  destruct (Nat.ltb _ _); [|exact I]. unfold mbind at 1, get, leaves.
  destruct (const_value h1 cond) as [c|] eqn:Ec.
  { refine (rest_leaves rest h1 (if negb (truthy c) then saved else stack) _ (fun vs => exists b, Q b vs) Hrest Hwf1 _ _ _).
    - by destruct (truthy c).
    - intros _ vs (b & (w & Hw & Ew) & Hvs). apply (means_const_value _ _ _ _ _ Ec) in Hw as ->.
      destruct c as [|c]; [done|]. cbn in Ew. subst c. by destruct b.
    - intros Hst vs' H'. destruct (HQ Hst vs' H') as (b & vs & Hq & E). exists vs. split; [by exists b|done]. }
  (* both branches go on to the end *)
  refine (leaves_bind h1 (fun vs' => exists vs, stand h1 stack vs /\ spec_block rest vs = Some vs') _ _ _ _ _).
  { apply runs_leaves. by apply Hrest. }
  intros ts h2 He2 Hwf2 Hb2 Hs2. pose proof (extends_length _ _ He2) as Hl2.
  apply (leaves_bind _ (fun vs' => exists vs, stand h2 saved vs /\ spec_block rest vs = Some vs')).
  { apply runs_leaves, Hrest; [done|]. by eapply below_extends. }
  intros fs h3 He3 Hwf3 Hb3 Hs3. pose proof (extends_length _ _ He3) as Hl3.
  eapply leaves_weaken; [|apply (merged_leaves h3 cond ts fs); [done|lia|by eapply below_extends|done]].
  intros Hst vs' H'. destruct (HQ Hst vs' H') as (b & vs & [Hcb Hvs] & E). exists b.
  split; [eapply stands_extends; [exact He3|]; by eapply stands_extends|]. destruct b.
  - eapply stand_extends; [exact He3|]. apply (Hs2 Hst). by exists vs.
  - apply (Hs3 Hst). exists vs. split; [by eapply stand_extends|done].
Qed.

Lemma ifelse_runs then_ otherwise rest : block_runs then_ -> block_runs otherwise -> block_runs rest ->
  block_runs (Then (PsIfElse then_ otherwise) rest).
Proof.
  intros Hthen Helse Hrest h stack Hwf Hb. apply runs_leaves. cbn [_evalBlock]. destruct stack as [|cond saved]; [exact I|].
  apply Forall_cons in Hb as [Hc Hb].
  eapply leaves_bind; [apply runs_leaves, Hthen; [done|exact Hb]|]. intros ts h1 He Hwf1 Hb1 Hs1.
  pose proof (extends_length _ _ He) as Hl. pose proof (below_extends _ _ _ He Hb) as Hb0.
  eapply leaves_bind; [apply runs_leaves, Helse; [done|exact Hb0]|]. intros fs h2 He2 Hwf2 Hb2 Hs2.
  pose proof (extends_length _ _ He2) as Hl2. pose proof (below_extends _ _ _ He2 Hb1) as Hb1'.
  pose proof (merged_leaves h2 cond ts fs Hwf2 ltac:(lia) Hb1' Hb2) as Hm.
  assert (Hassoc : leaves h2 (fun vs' => exists vs, stand h (cond :: saved) vs /\ spec_block (Then (PsIfElse then_ otherwise) rest) vs = Some vs')
    (stack <- (stacks <- even_out strict ts fs;; merge false cond stacks.1 stacks.2);; _evalBlock strict rest stack)).
  { eapply leaves_bind; [exact Hm|]. intros stack h3 He3 Hwf3 Hb3 Hs3. eapply rest_leaves; [done|done|done|exact Hs3|].
    intros Hst vs' (vs & Hvs & E). apply Forall2_cons_inv_l in Hvs as (v & vs0 & Hv & Hvs & ->). cbn in E.
    destruct v as [|b]; [done|]. destruct (if b then _ else _) as [vs1|] eqn:E1; [|done]. exists vs1. split; [|done]. exists b.
    split; [eapply stands_extends; [exact He2|]; by eapply stands_extends|]. destruct b.
    - eapply stand_extends; [exact He2|]. apply (Hs1 Hst). by exists vs0.
    - apply (Hs2 Hst). exists vs0. split; [by eapply stand_extends|done]. }
  clear -Hassoc. unfold leaves, mbind in *. by destruct (even_out strict ts fs h2) as [[?|?|] ?].
Qed.

Lemma evalBlock_runs : (forall instr, branches_run instr) /\ (forall block, block_runs block).
Proof.
  apply Ps_ind; cbn [branches_run]; try done.
  - intros h stack Hwf Hb. apply runs_ret; [done|done|]. by intros vs vs' Hvs [= <-].
  - intros instr Hinstr rest Hrest. destruct instr as [value|op|then_|then_ otherwise]; cbn [branches_run] in Hinstr.
    + intros h stack Hwf Hb. cbn [_evalBlock]. apply runs_const; [done|]. intros n h1 He Hwf1 Hn Hs.
      eapply runs_sem; [|eapply (runs_bind _ _ (fun vs => if is_double value then within (Num value :: vs) else None) (spec_block rest))].
      * intros vs vs' _. cbn. by destruct (is_double value).
      * apply runs_push; [done|done|by eapply below_extends|]. intros vs vs' Hvs E. destruct (is_double value) eqn:Ed; [|done].
        apply within_length in E as [-> _]. exists (Num value). split; [done|by apply Hs].
      * intros stack' h' _ Hwf' Hb'. by apply Hrest.
    + intros h stack Hwf Hb. cbn [_evalBlock]. eapply runs_sem; [|eapply (runs_bind _ _ (spec_op op) (spec_block rest))].
      * done.
      * by apply evalOp_runs.
      * intros stack' h' _ Hwf' Hb'. by apply Hrest.
    + by apply if_runs.
    + destruct Hinstr. by apply ifelse_runs.
Qed.
End Runs.

(** ** Programs *)

Section Program.
Context `{MathLib} (args : Z -> float) (strict : bool).
Local Abbreviation stands := (stands args).
Local Abbreviation runs := (runs args strict).

Lemma push_args_runs i count h stack : wf h -> below h stack -> Z.of_nat i + Z.of_nat count < 2 ^ 31 ->
  let values := map (fun k => args (Z.of_nat k)) (seq i count) in
  runs h stack (fun vs => if forallb is_double values then Some (rev (map Num values) ++ vs) else None) (push_args (Z.of_nat i) count stack).
Proof.
  revert i h stack. induction count as [|count IH]; intros i h stack Hwf Hb Hi; cbn [push_args seq map forallb rev].
  - apply runs_ret; [done|done|]. by intros vs vs' Hvs [= <-].
  - apply (runs_made _ _ _ _ _ (S (length h)) (fun v => v = Num (args (Z.of_nat i)) /\ is_double (args (Z.of_nat i)) = true)).
    + apply made_alloc; try done; [cbn; lia|]. intros v [-> Hd]. apply means_stands, means_arg; [|done]. by rewrite lookup_app_r, Nat.sub_diag.
    + intros n h1 He Hwf1 Hn Hs. apply runs_leaves. eapply leaves_weaken; [|apply runs_leaves].
      2: { replace (Z.of_nat i + 1) with (Z.of_nat (S i)) by lia. apply IH; [done|constructor; [done|by eapply below_extends]|lia]. }
      cbn beta. intros _ vs' (vs & Hvs & E). destruct (is_double (args (Z.of_nat i))) eqn:Ed; [|done]. cbn [andb] in E.
      exists (Num (args (Z.of_nat i)) :: vs). split; [constructor; [by apply Hs|done]|].
      destruct (forallb _ _); [|done]. injection E as <-. by rewrite <- app_assoc.
Qed.

(** The evaluation answers; its nodes are well formed, and stand for the results
    of the program if no two branches leave stacks of different heights. *)
Lemma evaluate_with_stands program n : exists r, evaluate_with strict program n = Ok r /\
  forall tree, r = Some tree -> wf (nodes tree) /\ below (nodes tree) (outputs tree) /\ shared tree = markShared (nodes tree) (outputs tree) /\
    (strict = true -> forall vs, spec_run program (map (fun k => args (Z.of_nat k)) (seq 0 n)) = Some vs -> Forall2 (stands (nodes tree)) (outputs tree) vs).
Proof.
  unfold evaluate_with. destruct (Nat.ltb_spec MAX_STACK_SIZE n) as [|Hn]; [by exists None|]. change MAX_STACK_SIZE with 100%nat in Hn.
  assert (Hwf0 : wf []) by (split; intros k node E; done).
  pose proof (push_args_runs 0 n [] [] Hwf0 ltac:(by constructor) ltac:(lia)) as Hargs. cbv zeta in Hargs. set (values := map _ _) in *.
  assert (Hr : runs [] [] (fun vs => vs1 ← (if forallb is_double values then Some (rev (map Num values) ++ vs) else None); spec_block (body program) vs1)
    (stack <- push_args 0 n [];; _evalBlock strict (body program) stack)).
  { apply runs_bind; [exact Hargs|]. intros stack' h' _ Hwf' Hb'. by apply evalBlock_runs. }
  unfold PsEvaluate.runs in Hr. destruct (mbind _ _ []) as [[stack|e|] h]; [|by exists None|done].
  eexists. split; [reflexivity|]. intros tree [= <-]. cbn [nodes outputs shared]. destruct Hr as (_ & Hwf & Hb & Hs).
  split; [done|]. split; [by apply Forall_rev|]. split; [done|]. intros Hst vs E. unfold spec_run in E.
  destruct (forallb is_double values) eqn:Ed; [|done]. destruct (Nat.leb _ _); [|done]. cbn [andb] in E.
  destruct (spec_block (body program) (rev (map Num values))) as [vs1|] eqn:E1; [|done]. injection E as <-.
  rewrite !rev_alt. apply Forall2_reverse, (Hs Hst []); [by constructor|]. rewrite app_nil_r. exact E1.
Qed.
End Program.

(** ** Strict evaluation *)

(** When no branches are uneven, the code does what the strict evaluation does. *)
Section Strict.
Context `{MathLib}.

Lemma even_out_strict ts fs h r h' : even_out true ts fs h = (Ok r, h') -> even_out false ts fs h = (Ok r, h').
Proof. unfold even_out. by destruct (Nat.eqb _ _). Qed.

Definition same_block (block : PsBlock) : Prop :=
  forall h stack r h', _evalBlock true block stack h = (Ok r, h') -> _evalBlock false block stack h = (Ok r, h').

Lemma evalBlock_strict : (forall instr, match instr with
  | PsIf then_ => same_block then_
  | PsIfElse then_ otherwise => same_block then_ /\ same_block otherwise
  | _ => True end) /\ (forall block, same_block block).
Proof.
  apply Ps_ind; cbn iota; try done.
  { by intros h stack r h' E. }
  intros instr Hinstr rest Hrest h stack r h' E.
  destruct instr as [value|op|then_|then_ otherwise]; cbn [_evalBlock] in *.
  - apply mbind_inv in E as (n & h1 & E1 & E). apply mbind_inv in E as (stack1 & h2 & E2 & E).
    rewrite (mbind_ok _ _ _ _ _ E1), (mbind_ok _ _ _ _ _ E2). by apply Hrest.
  - apply mbind_inv in E as (stack1 & h1 & E1 & E). rewrite (mbind_ok _ _ _ _ _ E1). by apply Hrest.
  - destruct stack as [|cond saved]; [done|]. apply mbind_inv in E as (stack1 & h1 & E1 & E).
    rewrite (mbind_ok _ _ _ _ _ (Hinstr _ _ _ _ E1)). destruct (Nat.eqb _ _).
    { apply mbind_inv in E as (stack2 & h2 & E2 & E). rewrite (mbind_ok _ _ _ _ _ E2). by apply Hrest. }
    destruct (Nat.ltb _ _); [|done]. unfold mbind at 1, get in E. unfold mbind at 1, get.
    destruct (const_value h1 cond); [by apply Hrest|].
    apply mbind_inv in E as (ts & h2 & E2 & E). rewrite (mbind_ok _ _ _ _ _ (Hrest _ _ _ _ E2)).
    apply mbind_inv in E as (fs & h3 & E3 & E). rewrite (mbind_ok _ _ _ _ _ (Hrest _ _ _ _ E3)).
    apply mbind_inv in E as (stacks & h4 & E4 & E). by rewrite (mbind_ok _ _ _ _ _ (even_out_strict _ _ _ _ _ E4)).
  - destruct Hinstr as [Hthen Helse]. destruct stack as [|cond saved]; [done|]. apply mbind_inv in E as (ts & h1 & E1 & E).
    rewrite (mbind_ok _ _ _ _ _ (Hthen _ _ _ _ E1)). apply mbind_inv in E as (fs & h2 & E2 & E).
    rewrite (mbind_ok _ _ _ _ _ (Helse _ _ _ _ E2)). apply mbind_inv in E as (stacks & h3 & E3 & E).
    rewrite (mbind_ok _ _ _ _ _ (even_out_strict _ _ _ _ _ E3)). apply mbind_inv in E as (stack1 & h4 & E4 & E).
    rewrite (mbind_ok _ _ _ _ _ E4). by apply Hrest.
Qed.

Lemma evaluate_strict program n tree : evaluate_with true program n = Ok (Some tree) -> evaluate program n = Ok (Some tree).
Proof.
  unfold evaluate, evaluate_with. destruct (Nat.ltb _ _); [done|]. unfold mbind. destruct (push_args 0 n [] []) as [[stack|e|] h]; try done.
  destruct (_evalBlock true (body program) stack h) as [[r|e|] h'] eqn:E; try done. by rewrite (proj2 evalBlock_strict _ _ _ _ _ E).
Qed.
End Strict.
