(* ===== verification/PsInterpreterSpec.v ===== *)
(** * Calculator functions: the interpreter computes the specification

    The stack of the interpreter holds the numbers of the values that the
    specification has on its stack, operator by operator. *)
From stdpp Require Import list.
From Stdlib Require Import SpecFloat.
From S2P Require Import Prelude Number64 FloatLaws PsParser PsTree PsCompiler PsInterpreter PsSpec PsSimplify.
Local Open Scope js_scope.

(** ** Stacks *)

(** The machine's stack, from the bottom. *)
Definition contains (s : Interp) (numbers : list float) : Prop :=
  isp s = len numbers /\ length (istack s) = MAX_STACK_SIZE /\ take (length numbers) (istack s) = numbers.
Definition holds (s : Interp) (vs : list jsval) : Prop := contains s (map to_num (rev vs)).

Lemma contains_length s l : contains s l -> (length l <= MAX_STACK_SIZE)%nat.
Proof. intros (_ & Hl & Ht). rewrite <- Ht, length_take. lia. Qed.

Lemma contains_slot s l i x : contains s l -> l !! i = Some x -> slot (istack s) (Z.of_nat i) = x.
Proof.
  intros (_ & _ & Ht) Hi. unfold slot. rewrite arr_get_nat. rewrite <- Ht in Hi.
  assert (i < length l)%nat by (apply lookup_lt_Some in Hi; rewrite length_take in Hi; lia).
  rewrite lookup_take in Hi. destruct (decide _); [by rewrite Hi|done].
Qed.

Lemma contains_set s l x : contains s l -> (length l < MAX_STACK_SIZE)%nat ->
  contains (mkInterp (arr_set (istack s) (len l) x) (len l + 1)) (l ++ [x]).
Proof.
  intros (Hs & Hl & Ht) Hlt. split; [cbn; rewrite len_app; done|]. cbn [istack]. unfold arr_set, len.
  rewrite (proj2 (Z.ltb_ge _ _)), Nat2Z.id by lia. split; [by rewrite length_insert|].
  rewrite length_app, Nat.add_1_r. rewrite (take_S_r _ _ x) by (apply list_lookup_insert_eq; lia).
  f_equal. rewrite take_insert_ge by done. exact Ht.
Qed.

Section Steps.
Context `{MathLib}.

(** From a stack to another one. *)
Definition steps (vs vs' : list jsval) (m : M Interp unit) : Prop :=
  forall s, holds s vs -> exists s', m s = (Ok tt, s') /\ holds s' vs'.

Lemma steps_ret vs : steps vs vs (mret tt).
Proof. intros s Hs. by exists s. Qed.

Lemma steps_then vs vs1 vs' m m' : steps vs vs1 m -> steps vs1 vs' m' -> steps vs vs' (m ;;; m').
Proof. intros H1 H2 s Hs. destruct (H1 s Hs) as (s1 & E & Hs1). unfold mbind. rewrite E. by apply H2. Qed.

(** An operation that gives a number, and goes on with it. *)
Lemma ipop_steps v vs vs' k : steps vs vs' (k (to_num v)) -> steps (v :: vs) vs' (mbind ipop k).
Proof.
  intros Hk s Hs. unfold mbind, ipop. unfold holds in Hs. cbn [rev] in Hs. rewrite map_app in Hs. cbn [map] in Hs.
  set (l := map to_num (rev vs)) in *. pose proof Hs as (Hsp & Hl & Ht). rewrite len_app in Hsp. change (len [to_num v]) with 1 in Hsp.
  rewrite Hsp. replace (len l + 1 - 1) with (len l) by lia.
  assert (E : slot (istack s) (len l) = to_num v).
  { apply (contains_slot s _ _ _ Hs). by rewrite lookup_app_r, Nat.sub_diag. }
  rewrite E. apply Hk. split; [done|]. split; [done|]. cbn [istack]. change (map to_num (rev vs)) with l.
  apply (f_equal (take (length l))) in Ht. rewrite take_take, length_app, take_app_length in Ht. rewrite Nat.min_l in Ht by lia. exact Ht.
Qed.

Lemma ipush_steps v vs : (length vs < MAX_STACK_SIZE)%nat -> steps vs (v :: vs) (ipush (to_num v)).
Proof.
  intros Hlt s Hs. eexists. split; [reflexivity|]. pose proof Hs as (Hsp & Hl & _). unfold holds. cbn [rev]. rewrite map_app.
  set (l := map to_num (rev vs)) in *. assert (Hll : length l = length vs) by (unfold l; by rewrite length_map, length_rev).
  rewrite Hsp. rewrite (proj2 (Z.ltb_lt _ _)) by (unfold len; lia). apply contains_set; [exact Hs|lia].
Qed.

Lemma steps_length vs vs' m : ((length vs <= MAX_STACK_SIZE)%nat -> steps vs vs' m) -> steps vs vs' m.
Proof.
  intros Hm s Hs. apply Hm; [|done]. apply contains_length in Hs. by rewrite length_map, length_rev in Hs.
Qed.

(** An operation on the numbers on the top is one that pops and pushes. *)
Lemma unary_steps f a v vs : f (to_num a) = to_num v -> steps (a :: vs) (v :: vs) (unary f).
Proof.
  intros E. apply steps_length. cbn [length]. intros Hlen.
  assert (Hp : steps (a :: vs) (v :: vs) (x <- ipop;; ipush (f x))) by (apply ipop_steps; rewrite E; apply ipush_steps; lia).
  intros s Hs. destruct (Hp s Hs) as (s' & E' & Hs'). exists s'. split; [|done]. rewrite <- E'. destruct Hs as (Hsp & Hl & _).
  cbn [rev] in Hsp. rewrite map_app, len_app in Hsp. change (len (map to_num [a])) with 1 in Hsp. pose proof (len_nonneg (map to_num (rev vs))).
  assert (len (map to_num (rev vs)) < 100) by (unfold len; rewrite length_map, length_rev; change MAX_STACK_SIZE with 100%nat in Hlen; lia).
  unfold unary, top, set_top, ipop, ipush, mbind, gets, modify. cbn [istack isp]. unfold len at 1. rewrite Hl.
  rewrite (proj2 (Z.ltb_lt _ _)) by (change (Z.of_nat MAX_STACK_SIZE) with 100; lia). f_equal. f_equal. lia.
Qed.
Lemma binary_steps f a b v vs : f (to_num a) (to_num b) = to_num v -> steps (b :: a :: vs) (v :: vs) (binary f).
Proof. intros E. unfold binary. apply ipop_steps. by apply (unary_steps (fun x => f x (to_num b))). Qed.

(** ** Operators *)

Lemma spec_binary_node op a b v : spec_binary op a b = Some v -> node_binary op a b = Some v.
Proof. by destruct op. Qed.

Lemma execOp_binary op o : op <> TOKEN.bitshift -> binary_code op = Some o -> execOp op = binary (exec_binary o).
Proof. destruct op; try done; by intros _ [= <-]. Qed.

Lemma unary_op_steps op a v vs : unaryOps op = true -> spec_unary op a = Some v -> steps (a :: vs) (v :: vs) (execOp op).
Proof.
  intros Hop E. destruct (decide (op = TOKEN.cvr)) as [->|Hcvr].
  { destruct a as [x|]; [|done]. apply num_inv in E as [-> _]. apply steps_ret. }
  destruct (decide (op = TOKEN.not)) as [->|Hnot].
  { destruct a as [|b]; [done|]. injection E as <-. apply unary_steps. by destruct b; vm_compute. }
  destruct (unary_code op numeric) as [o|] eqn:Eo.
  2: { by destruct op. }
  assert (Ex : execOp op = unary (exec_unary o)) by (destruct op; try done; by injection Eo as <-).
  rewrite Ex. apply unary_steps. apply (unary_value op numeric); try done.
  destruct op, a; try done; cbn in E; try (apply num_inv in E as [-> _]; done). destruct (spec_int _); [|done]. by injection E as <-.
Qed.

(** The interpreter shifts by the sign of the distance as well. *)
Lemma shift_steps a b v vs : spec_binary TOKEN.bitshift a b = Some v -> steps (b :: a :: vs) (v :: vs) (execOp TOKEN.bitshift).
Proof.
  intros E. apply spec_shift_inv in E as (x & y & m & n & -> & -> & Em & En & _ & ->). cbn [execOp]. apply binary_steps. cbn [to_num int].
  apply spec_int_reads in Em as (Hm & -> & _). apply spec_int_reads in En as (_ & -> & _). f_equal.
  destruct (shifted_0 m Hm) as [E0 E1]. unfold shifted in *.
  destruct (Z.ltb_spec 0 n), (Z.leb_spec 0 n); try lia; try done. replace n with 0 by lia. exact (eq_trans E1 (eq_sym E0)).
Qed.

(** A whole number as the code reads it. *)
Lemma spec_int_whole v z : spec_int v = Some z -> whole (to_num v) = Some z /\ is_plus_infinity (to_num v) = false.
Proof.
  destruct v as [x|]; [|done]. unfold spec_int. cbn [to_num]. destruct (isInteger x && _) eqn:E; [|done]. intros [= <-]. apply andb_true_iff in E as [E1 E2].
  apply Z.eqb_eq in E2. destruct x; try done. cbn in *. by rewrite E2.
Qed.

Lemma copy_loop_contains count k base l s : contains s (l ++ take k (drop base l)) -> (base <= length l)%nat ->
  (k + count = length l - base)%nat -> (length l + (length l - base) <= MAX_STACK_SIZE)%nat ->
  exists s', copy_loop count (Z.of_nat base) (Z.of_nat k) s = (Ok tt, s') /\ contains s' (l ++ drop base l).
Proof.
  revert k s. induction count as [|count IH]; intros k s Hs Hb Hk Hlen; cbn [copy_loop].
  { exists s. split; [done|]. by rewrite take_ge in Hs by (rewrite length_drop; lia). }
  destruct (lookup_lt_is_Some_2 l (base + k) ltac:(lia)) as [x Hx].
  assert (E : slot (istack s) (Z.of_nat base + Z.of_nat k) = x).
  { replace (_ + _) with (Z.of_nat (base + k)) by lia. apply (contains_slot _ _ _ _ Hs). by apply lookup_app_l_Some. }
  unfold mbind at 1, gets. rewrite E. set (l' := l ++ take k (drop base l)) in *.
  assert (Hl' : length l' = (length l + k)%nat) by (unfold l'; rewrite length_app, length_take, length_drop; lia).
  assert (Ep : ipush x s = (Ok tt, mkInterp (arr_set (istack s) (len l') x) (len l' + 1))).
  { unfold ipush, modify. pose proof Hs as (Hsp & Hl & _). rewrite Hsp. rewrite (proj2 (Z.ltb_lt _ _)); [done|]. unfold len. lia. }
  unfold mbind at 1. rewrite Ep. replace (Z.of_nat k + 1) with (Z.of_nat (S k)) by lia. apply IH; try done; [|lia].
  replace (l ++ take (S k) (drop base l)) with (l' ++ [x]); [apply contains_set; [done|lia]|].
  unfold l'. rewrite <- app_assoc. f_equal. symmetry. apply take_S_r. by rewrite lookup_drop.
Qed.

Lemma copy_steps nv vs vs' : spec_op TOKEN.copy (nv :: vs) = Some vs' -> steps (nv :: vs) vs' (execOp TOKEN.copy).
Proof.
  intros E. unfold spec_op in E. change (binaryOps TOKEN.copy) with false in E. change (unaryOps TOKEN.copy) with false in E. cbv iota in E.
  destruct (spec_int nv) as [z|] eqn:Ez; [|done]. cbn [base.mbind option_bind] in E. destruct (_ && _) eqn:Er; [|done].
  apply within_length in E as [-> Hlen]. apply spec_int_whole in Ez as [Ew Ei]. cbn [execOp]. apply ipop_steps. rewrite Ei, Ew.
  intros s Hs. unfold mbind at 1, gets. unfold holds in *. set (l := map to_num (rev vs)) in *.
  assert (Hl : length l = length vs) by (unfold l; by rewrite length_map, length_rev).
  pose proof Hs as (Hsp & _ & _). rewrite Hsp. unfold len in *. rewrite length_app, length_take in Hlen.
  set (n := Z.to_nat z) in *. replace (Z.of_nat (length l) - z) with (Z.of_nat (length l - n)) by lia. change 0 with (Z.of_nat 0).
  destruct (copy_loop_contains n 0 (length l - n) l s) as (s' & E & Hs'); [by rewrite app_nil_r|lia|lia|lia|].
  exists s'. split; [exact E|]. rewrite rev_app_distr, map_app. fold l. replace (map to_num (rev (take n vs))) with (drop (length l - n) l); [done|].
  unfold l at 2. rewrite skipn_map, skipn_rev. do 3 f_equal. lia.
Qed.

Lemma index_steps iv vs vs' : spec_op TOKEN.index (iv :: vs) = Some vs' -> steps (iv :: vs) vs' (execOp TOKEN.index).
Proof.
  intros E. unfold spec_op in E. change (binaryOps TOKEN.index) with false in E. change (unaryOps TOKEN.index) with false in E. cbv iota in E.
  destruct (spec_int iv) as [z|] eqn:Ez; [|done]. cbn [base.mbind option_bind] in E. destruct (Z.leb_spec 0 z) as [Hz|]; [|done].
  destruct (vs !! Z.to_nat z) as [v|] eqn:Ev; [|done]. injection E as <-. apply spec_int_whole in Ez as [Ew Ei]. cbn [execOp].
  apply steps_length. cbn [length]. intros Hlen. apply ipop_steps. rewrite Ew. intros s Hs.
  unfold mbind at 1, gets. apply lookup_lt_Some in Ev as Hlt.
  assert (Hr : map to_num (rev vs) !! (length vs - 1 - Z.to_nat z)%nat = Some (to_num v)).
  { change (map to_num (rev vs)) with (to_num <$> rev vs). rewrite list_lookup_fmap, rev_alt. fold (reverse vs). rewrite reverse_lookup by lia.
    replace (length vs - S _)%nat with (Z.to_nat z) by lia. by rewrite Ev. }
  assert (E : slot (istack s) (isp s - 1 - z) = to_num v).
  { pose proof Hs as (Hsp & _ & _). rewrite Hsp. unfold len. rewrite length_map, length_rev.
    replace (_ - 1 - z) with (Z.of_nat (length vs - 1 - Z.to_nat z)) by lia. exact (contains_slot _ _ _ _ Hs Hr). }
  rewrite E. apply ipush_steps; [lia|done].
Qed.

(** The loop of [roll] writes the numbers of [sub], turned by [shift]. *)
Lemma roll_loop_writes count sub base n shift k s : 0 <= base -> 0 <= k -> base + k + Z.of_nat count <= len (istack s) ->
  exists st, roll_loop count sub base n (Some shift) k s = (Ok tt, mkInterp st (isp s)) /\ length st = length (istack s) /\
    forall i, arr_get st i = if (base + k <=? i) && (i <? base + k + Z.of_nat count)
      then Some (slot sub (Z.rem (i - base - shift + n) n)) else arr_get (istack s) i.
Proof.
  revert k s. induction count as [|count IH]; intros k s Hb Hk Hle.
  { exists (istack s). split; [by destruct s|]. split; [done|]. intros i.
    destruct (Z.leb_spec (base + k) i), (Z.ltb_spec i (base + k + Z.of_nat 0)); try done; lia. }
  cbn [roll_loop]. unfold mbind, modify. set (x := slot sub _).
  destruct (IH (k + 1) (mkInterp (arr_set (istack s) (base + k) x) (isp s))) as (st & E & Hl & Hg); [done|lia|cbn [istack]; rewrite len_arr_set; lia|].
  exists st. split; [exact E|]. cbn [istack] in *. split; [rewrite Hl; pose proof (len_arr_set (istack s) (base + k) x) as H'; unfold len in H'; lia|].
  intros i. rewrite Hg, arr_get_set by lia.
  destruct (Z.eqb_spec i (base + k)) as [->|Hne].
  - rewrite (proj2 (Z.leb_gt _ _)) by lia. cbn [andb]. rewrite (proj2 (Z.leb_le _ _)), (proj2 (Z.ltb_lt _ _)) by lia. cbn [andb].
    unfold x. do 4 f_equal. lia.
  - replace (base + k + Z.of_nat (S count)) with (base + (k + 1) + Z.of_nat count) by lia.
    destruct (Z.leb_spec (base + k) i), (Z.leb_spec (base + (k + 1)) i); try done; lia.
Qed.

(** A list turned by [shift] places. *)
Lemma turned_lookup (l : list float) shift i : (shift < length l)%nat -> (i < length l)%nat ->
  (drop (length l - shift) l ++ take (length l - shift) l) !! i =
  l !! Z.to_nat (Z.rem (Z.of_nat i - Z.of_nat shift + Z.of_nat (length l)) (Z.of_nat (length l))).
Proof.
  intros Hs Hi. rewrite Z.rem_mod_nonneg by lia. destruct (decide (i < shift)%nat) as [Hlt|Hge].
  - rewrite lookup_app_l by (rewrite length_drop; lia). rewrite lookup_drop, Z.mod_small by lia. f_equal. lia.
  - rewrite lookup_app_r by (rewrite length_drop; lia). rewrite length_drop, lookup_take_lt by lia.
    rewrite <- Z.add_mod_idemp_r, Z.mod_same, Z.add_0_r, Z.mod_small by lia. f_equal. lia.
Qed.

Lemma roll_contains s below_ l shift : contains s (below_ ++ l) -> (shift < length l)%nat ->
  exists s', roll_loop (length l) l (len below_) (len l) (Some (Z.of_nat shift)) 0 s = (Ok tt, s') /\
    contains s' (below_ ++ drop (length l - shift) l ++ take (length l - shift) l).
Proof.
  intros Hs Hlt. pose proof Hs as (Hsp & Hl & Ht). pose proof (contains_length _ _ Hs) as Hle. rewrite length_app in Hle.
  destruct (roll_loop_writes (length l) l (len below_) (len l) (Z.of_nat shift) 0 s) as (st & E & Hlst & Hg); [apply len_nonneg|done|unfold len; lia|].
  exists (mkInterp st (isp s)). split; [exact E|]. set (turned := drop _ _ ++ take _ _).
  assert (Htl : length turned = length l) by (unfold turned; rewrite length_app, length_drop, length_take; lia).
  split; [cbn [isp]; rewrite Hsp; unfold len; rewrite !length_app, Htl; done|]. cbn [istack]. split; [by rewrite Hlst|].
  apply list_eq. intros i. destruct (decide (i < length (below_ ++ turned))%nat) as [Hi|Hi].
  2: { rewrite lookup_take_ge by lia. symmetry. apply lookup_ge_None. lia. }
  rewrite lookup_take_lt by done. rewrite <- arr_get_nat, Hg. rewrite length_app, Htl in Hi. unfold len.
  destruct (decide (i < length below_)%nat) as [Hlo|Hhi].
  - rewrite (proj2 (Z.leb_gt _ _)) by lia. cbn [andb]. rewrite arr_get_nat, lookup_app_l by done.
    rewrite <- Ht in Hs. apply (f_equal (.!! i)) in Ht. rewrite lookup_take_lt, lookup_app_l in Ht by (rewrite ?length_app; lia). exact Ht.
  - rewrite (proj2 (Z.leb_le _ _)), (proj2 (Z.ltb_lt _ _)) by lia. cbn [andb]. rewrite lookup_app_r by lia. unfold turned.
    rewrite turned_lookup by lia. unfold slot, arr_get.
    replace (Z.of_nat i - Z.of_nat (length below_)) with (Z.of_nat (i - length below_)) by lia. set (r := Z.rem _ _).
    assert (Hr : 0 <= r < Z.of_nat (length l)) by (apply Z.rem_bound_pos; lia).
    rewrite (proj2 (Z.ltb_ge _ _)) by lia. destruct (l !! Z.to_nat r) as [y|] eqn:Ey; [done|]. apply lookup_ge_None in Ey. lia.
Qed.

(** The turn from the bottom of the stack. *)
Lemma rev_turned {A} (vs : list A) j n : (j <= n)%nat -> (n <= length vs)%nat ->
  rev (drop j (take n vs) ++ take j (take n vs) ++ drop n vs) =
  take (length vs - n) (rev vs) ++ drop (n - j) (drop (length vs - n) (rev vs)) ++ take (n - j) (drop (length vs - n) (rev vs)).
Proof.
  intros Hj Hn. assert (Er : drop (length vs - n) (rev vs) = rev (take n vs)) by (rewrite skipn_rev; do 2 f_equal; lia).
  rewrite Er, firstn_rev, skipn_rev, firstn_rev, !rev_app_distr, <- app_assoc, length_take.
  replace (length vs - (length vs - n))%nat with n by lia. replace (Nat.min n (length vs) - (n - j))%nat with j by lia. done.
Qed.

Lemma roll_steps jv nv vs vs' : spec_op TOKEN.roll (jv :: nv :: vs) = Some vs' -> steps (jv :: nv :: vs) vs' (execOp TOKEN.roll).
Proof.
  intros E. unfold spec_op in E. change (binaryOps TOKEN.roll) with false in E. change (unaryOps TOKEN.roll) with false in E. cbv iota in E.
  destruct (spec_int jv) as [j|] eqn:Ej; [|done]. cbn [base.mbind option_bind] in E.
  destruct (spec_int nv) as [n|] eqn:En; [|done]. cbn [base.mbind option_bind] in E.
  destruct (_ && _) eqn:Er; [|done]. apply andb_true_iff in Er as [H1 H2]. apply Z.leb_le in H1, H2. injection E as <-.
  apply spec_int_whole in Ej as [Ejw _]. apply spec_int_whole in En as [Enw Eni].
  cbn [execOp]. apply ipop_steps, ipop_steps. rewrite Ejw, Enw, Eni. cbv zeta. cbn [base.mbind option_bind]. rewrite rem_mod_pos by done.
  assert (Hmod : 0 <= j mod n < n) by (apply Z.mod_pos_bound; lia).
  assert (Hid : j mod n = 0 -> drop (Z.to_nat (j mod n)) (take (Z.to_nat n) vs) ++ take (Z.to_nat (j mod n)) (take (Z.to_nat n) vs) ++ drop (Z.to_nat n) vs = vs).
  { intros ->. apply take_drop. }
  destruct ((1 <? n) && negb (j =? 0)) eqn:Eroll.
  2: { rewrite Hid; [apply steps_ret|]. apply andb_false_iff in Eroll as [E|E]; [|rewrite negb_false_iff in E; apply Z.eqb_eq in E as ->; by rewrite Z.mod_0_l by lia].
       apply Z.ltb_ge in E. replace n with 1 by lia. apply Z.mod_1_r. }
  destruct (Z.eqb_spec (j mod n) 0) as [E0|Hne]; [rewrite Hid by done; apply steps_ret|].
  intros s Hs. unfold mbind at 1, get. unfold holds in *. set (l := map to_num (rev vs)) in *.
  assert (Hl : length l = length vs) by (unfold l; by rewrite length_map, length_rev).
  pose proof Hs as (Hsp & Hls & Ht). unfold len in *. set (b := (length vs - Z.to_nat n)%nat).
  assert (Esub : subarray (istack s) (isp s - n) (isp s) = drop b l).
  { rewrite subarray_in by (unfold len; apply contains_length in Hs; lia). transitivity (drop b (take (length l) (istack s))); [|by rewrite Ht]. rewrite skipn_firstn_comm, Hsp.
    replace (Z.of_nat (length l) - n) with (Z.of_nat b) by (unfold b; lia). rewrite Nat2Z.id. f_equal. unfold b. lia. }
  rewrite Esub, Hsp. set (turn := Z.to_nat (j mod n)).
  assert (Hlen : length (drop b l) = Z.to_nat n) by (rewrite length_drop; unfold b; lia).
  assert (Hlb : length (take b l) = b) by (rewrite length_take; unfold b; lia).
  assert (Hs' : contains s (take b l ++ drop b l)) by (by rewrite take_drop).
  destruct (roll_contains s (take b l) (drop b l) turn Hs' ltac:(lia)) as (s' & E & Hc). exists s'.
  unfold len in E. rewrite Hlen, Hlb in E. rewrite Hlen in Hc. split.
  - rewrite <- E. unfold turn. rewrite !Z2Nat.id by lia. replace (Z.of_nat (length l) - n) with (Z.of_nat b) by (unfold b; lia). done.
  - rewrite rev_turned by lia. fold b. rewrite !map_app, <- !firstn_map, <- !skipn_map. exact Hc.
Qed.

Lemma execOp_steps op vs vs' : spec_op op vs = Some vs' -> steps vs vs' (execOp op).
Proof.
  intros E. pose proof E as E'. unfold spec_op in E. destruct (binaryOps op) eqn:Ebin.
  { destruct vs as [|b [|a vs]]; try done. destruct (spec_binary op a b) as [v|] eqn:Ev; [|done]. injection E as <-.
    destruct (decide (op = TOKEN.bitshift)) as [->|Hne]; [by apply shift_steps|].
    destruct (binary_value op a b v (spec_binary_node _ _ _ _ Ev) Hne) as (o & Eo & Ex).
    rewrite (execOp_binary op o) by done. by apply binary_steps. }
  destruct (unaryOps op) eqn:Eun.
  { destruct vs as [|a vs]; [done|]. destruct (spec_unary op a) as [v|] eqn:Ev; [|done]. injection E as <-. by apply unary_op_steps. }
  destruct op; try done; try (by destruct vs).
  - apply within_length in E as [-> Hl]. apply (ipush_steps (Bool true)). cbn in Hl |- *. lia.
  - apply within_length in E as [-> Hl]. apply (ipush_steps (Bool false)). cbn in Hl |- *. lia.
  - destruct vs as [|v vs]; [done|]. apply within_length in E as [-> Hl].
    intros s Hs. cbn [execOp]. unfold mbind at 1, top, gets.
    assert (Et : slot (istack s) (isp s - 1) = to_num v).
    { pose proof Hs as (Hsp & _ & _). rewrite Hsp. unfold len. rewrite length_map, length_rev. cbn [length].
      replace (Z.of_nat (S (length vs)) - 1) with (Z.of_nat (length vs)) by lia. apply (contains_slot _ _ _ _ Hs). cbn [rev].
      rewrite map_app, lookup_app_r by (by rewrite length_map, length_rev). by rewrite length_map, length_rev, Nat.sub_diag. }
    rewrite Et. apply ipush_steps; [cbn in Hl |- *; lia|done].
  - destruct vs as [|b [|a vs]]; try done. injection E as <-. cbn [execOp]. apply steps_length. cbn [length]. intros Hl. apply ipop_steps, ipop_steps.
    apply (steps_then _ (b :: vs)); apply ipush_steps; cbn [length]; lia.
  - destruct vs as [|v vs]; [done|]. injection E as <-. cbn [execOp]. apply ipop_steps, steps_ret.
  - destruct vs as [|v vs]; [done|]. by apply copy_steps.
  - destruct vs as [|v vs]; [done|]. by apply index_steps.
  - destruct vs as [|v [|w vs]]; try done. by apply roll_steps.
Qed.

(** ** Programs *)

Definition block_steps (block : PsBlock) : Prop := forall vs vs', spec_block block vs = Some vs' -> steps vs vs' (execBlock block).

Lemma execBlock_steps : (forall instr, match instr with
  | PsIf then_ => block_steps then_
  | PsIfElse then_ otherwise => block_steps then_ /\ block_steps otherwise
  | _ => True end) /\ (forall block, block_steps block).
Proof.
  apply Ps_ind; cbn iota; try done.
  { intros vs vs' [= <-]. apply steps_ret. }
  intros instr Hinstr rest Hrest vs vs' E. destruct instr as [value|op|then_|then_ otherwise]; cbn [spec_block] in E; cbn [execBlock].
  - destruct (is_double value); [|done]. destruct (within _) as [vs1|] eqn:Ew; [|done]. cbn [base.mbind option_bind] in E.
    apply within_length in Ew as [-> Hl]. eapply steps_then; [apply (ipush_steps (Num value)); cbn in Hl |- *; lia|by apply Hrest].
  - destruct (spec_op op vs) as [vs1|] eqn:Eo; [|done]. eapply steps_then; [by apply execOp_steps|by apply Hrest].
  - destruct vs as [|[|b] vs]; try done. destruct (if b then _ else _) as [vs1|] eqn:Eb; [|done].
    eapply steps_then; [|by apply Hrest]. apply ipop_steps. destruct b; [by apply Hinstr|]. injection Eb as <-. apply steps_ret.
  - destruct Hinstr as [Hthen Helse]. destruct vs as [|[|b] vs]; try done. destruct (if b then _ else _) as [vs1|] eqn:Eb; [|done].
    eapply steps_then; [|by apply Hrest]. apply ipop_steps. destruct b; [by apply Hthen|by apply Helse].
Qed.

Lemma push_all_steps values vs : (length values + length vs <= MAX_STACK_SIZE)%nat -> steps vs (rev (map Num values) ++ vs) (push_all values).
Proof.
  revert vs. induction values as [|x values IH]; intros vs Hl; cbn [push_all map rev length] in *; [apply steps_ret|].
  eapply steps_then; [apply (ipush_steps (Num x)); lia|]. rewrite <- app_assoc. apply IH. cbn [app length]. lia.
Qed.

Lemma assigned_read range destOffset i outs f : (forall k v, outs !! k = Some v -> f (i + Z.of_nat k) = to_num v) ->
  map (fun k => (destOffset + (i + Z.of_nat k), MathClamp (f (i + Z.of_nat k)) (slot range ((i + Z.of_nat k) * 2)) (slot range ((i + Z.of_nat k) * 2 + 1))))
    (seq 0 (length outs)) = assigned range destOffset i outs.
Proof.
  revert i. induction outs as [|v outs IH]; intros i Hf; [done|]. cbn [length seq map assigned]. rewrite Z.add_0_r. f_equal.
  - specialize (Hf 0%nat v eq_refl). rewrite Z.add_0_r in Hf. by rewrite Hf.
  - rewrite <- IH.
    + rewrite <- seq_shift, map_map. apply map_ext. intros k. by replace (i + Z.of_nat (S k)) with (i + 1 + Z.of_nat k) by lia.
    + intros k w Hk. replace (i + 1 + Z.of_nat k) with (i + Z.of_nat (S k)) by lia. by apply Hf.
Qed.

(** The interpreter writes what the program computes. *)
Lemma interpret_spec program domain range src srcOffset destOffset stack0 outs :
  spec_run program (inputs src srcOffset (Z.to_nat (len domain .>> 1))) = Some outs -> len outs = len range .>> 1 ->
  length stack0 = MAX_STACK_SIZE ->
  interpret program domain range src srcOffset destOffset stack0 = Ok (assigned range destOffset 0 outs).
Proof.
  unfold spec_run, interpret. fold (inputs src srcOffset (Z.to_nat (len domain .>> 1))). set (values := inputs _ _ _). intros E Hlen Hst.
  destruct (forallb is_double values); [|done]. destruct (Nat.leb_spec (length values) MAX_STACK_SIZE) as [Hv|]; [|done].
  cbn [andb] in E. destruct (spec_block (body program) (rev (map Num values))) as [vs|] eqn:Eb; [|done]. injection E as <-.
  assert (Hrun : steps [] vs (push_all values ;;; execBlock (body program))).
  { eapply steps_then; [apply push_all_steps; cbn; lia|]. rewrite app_nil_r. by apply execBlock_steps. }
  destruct (Hrun (mkInterp stack0 0)) as (s & Es & Hs); [done|]. rewrite Es. f_equal.
  assert (Hsp : isp s = len (rev vs)).
  { destruct Hs as (-> & _ & _). unfold len. by rewrite length_map. }
  rewrite Hsp, Hlen, Z.sub_diag. rewrite <- Hlen. unfold len at 1. rewrite Nat2Z.id.
  rewrite <- (assigned_read range destOffset 0 (rev vs) (fun i => slot (istack s) i)).
  - apply map_ext_in. intros k Hk. cbn zeta. rewrite !Z.add_0_l. by rewrite (proj2 (Z.leb_le 0 (Z.of_nat k))) by lia.
  - intros k v Hk. rewrite Z.add_0_l. apply (contains_slot _ _ _ _ Hs). change (map to_num (rev vs)) with (to_num <$> rev vs).
    by rewrite list_lookup_fmap, Hk.
Qed.
End Steps.
