(* ===== verification/PsFunction.v ===== *)
(** * Calculator functions: what the functions write

    The functions that [buildPostScriptJsFunction] returns write the results of
    the specification, cut off at the bounds of the range: the interpreted ones
    exactly, the compiled ones up to the sign of zero and within the limits of
    the compiler, which are stated; and programs beyond them. *)
From stdpp Require Import gmap strings.
From Stdlib Require Import SpecFloat.
From S2P Require Import Prelude Primitives Number64 FloatLaws PsParser PsTree PsCompiler PsInterpreter.
From S2P Require Import PsCompilerSpec PsSpec PsSimplify PsEvaluate PsInterpreterSpec.
Local Open Scope js_scope.

(** ** The compiler ends *)

Section Total.
Context (tree : Tree) (Hok : heap_ok (nodes tree)).

(** The operation returns or throws, from every state. *)
Definition settles {A} (m : M Compiler A) : Prop := forall c, (m c).1 <> OutOfFuel.

Lemma settles_bind {A B} (m : M Compiler A) (k : A -> M Compiler B) : settles m -> (forall a, settles (k a)) -> settles (mbind m k).
Proof.
  intros Hm Hk c. specialize (Hm c). unfold mbind. destruct (m c) as [[a|e|] c']; [apply Hk|done|done].
Qed.
Lemma settles_then {A} (m : M Compiler unit) (k : M Compiler A) : settles m -> settles k -> settles (m ;;; k).
Proof. intros Hm Hk. by apply settles_bind. Qed.
Lemma settles_emit cells : settles (emit cells).
Proof. done. Qed.
Lemma settles_code code : settles (emit_code code).
Proof. by destruct code. Qed.

Lemma settles_ternary cond then_ otherwise : settles cond -> settles then_ -> settles otherwise -> settles (_compileTernary cond then_ otherwise).
Proof. intros Hc Ht He. unfold _compileTernary. repeat (first [apply settles_then; [done|] | apply settles_bind; [done|intros ?]]). done. Qed.

Lemma settles_impl compile n : (forall m, (m < n)%nat -> settles (compile m)) -> settles (_compileNodeImpl tree compile n).
Proof.
  intros Hc. unfold _compileNodeImpl. destruct (nodes tree !! n) as [node|] eqn:En; [|done]. pose proof (Hok _ _ En) as Hn.
  destruct node as [i|v|op x t|op f s t|c t e ty]; cbn in Hn; try done.
  - apply settles_then; [by apply Hc|]. destruct (decide _); [done|apply settles_code].
  - destruct Hn as [Hf Hs]. assert (Hb : settles (compile s ;;; compile f ;;; emit_code (binary_code op))).
    { apply settles_then; [by apply Hc|]. apply settles_then; [by apply Hc|apply settles_code]. }
    destruct op; try exact Hb. destruct (const_value _ f) as [[amount|]|]; try done. destruct (isInteger amount); [|done].
    apply settles_then; [by apply Hc|done].
  - destruct Hn as (Hi & Ht & He). apply settles_ternary; by apply Hc.
Qed.

Lemma settles_node levels n : (n < levels)%nat -> settles (compile_node tree levels n).
Proof.
  revert n. induction levels as [|levels IH]; intros n Hn; [lia|]. cbn [compile_node].
  assert (Hi : settles (_compileNodeImpl tree (compile_node tree levels) n)) by (apply settles_impl; intros m Hm; apply IH; lia).
  destruct (shared tree !! n); [|done]. apply settles_bind; [done|]. intros c. destruct (_tmpMap c !! n); [done|].
  apply settles_then; [done|]. apply settles_bind; [done|]. intros c'. by apply settles_then.
Qed.

Lemma settles_outputs range i outs : settles (compile_outputs tree range i outs).
Proof.
  revert i. induction outs as [|out outs IH]; intros i; cbn [compile_outputs]; [done|].
  apply settles_then; [apply settles_node; lia|]. by apply settles_then.
Qed.
End Total.

Lemma compile_total `{MathLib} domain range program : exists r, compile domain range program = Ok r.
Proof.
  unfold compile. unfold evaluate. destruct (evaluate_with_stands (fun _ => fzero) false program (Z.to_nat (len domain .>> 1))) as (r & -> & Htree).
  destruct r as [tree|]; [|by eexists]. destruct (Htree tree eq_refl) as ([Hok _] & _). destruct (_ <? _); [by eexists|].
  pose proof (settles_outputs tree Hok range 0 (take (Z.to_nat (len range .>> 1)) (outputs tree)) new_Compiler) as Hs.
  destruct (compile_outputs _ _ _ _ _) as [[?|?|] ?]; [by eexists|by eexists|done].
Qed.

(** ** The compiled code *)

(** The same place, and the same number up to the sign of zero. *)
Definition same_write (a b : Z * float) : Prop := a.1 = b.1 /\ a.2 ≈ b.2.

#[global] Instance MathClamp_proper : Proper (fequiv ==> eq ==> eq ==> fequiv) MathClamp.
Proof. intros x y E lo ? <- hi ? <-. unfold MathClamp. by rewrite E. Qed.

#[global] Instance to_num_proper : Proper (vequiv ==> fequiv) to_num.
Proof. intros [x|a] [y|b] E; cbn in E; try done. by subst. Qed.

(** The program leaves the same height on all its branches, and its code fits
    into the two arrays of the machine and reads no slot that may not be filled. *)
Definition compiles_well `{MathLib} (domain : list float) (program : PsProgram) : bool :=
  match evaluate_with true program (Z.to_nat (len domain .>> 1)) with
  | Ok (Some tree) => fits tree (outputs tree)
  | _ => false
  end.

Section Compiled.
Context `{MathLib} (src : list float) (srcOffset destOffset : Z).

Lemma assigned_stands tree range i ns vs : wf (nodes tree) -> Forall2 (stands (fun i => slot src (srcOffset + i)) (nodes tree)) ns vs ->
  Forall2 same_write (all_written tree src srcOffset destOffset range i ns) (assigned range destOffset i vs).
Proof.
  intros Hwf Hs. revert i. induction Hs as [|n v ns vs (w & Hw & Ew) _ IH]; intros i; [by constructor|]. cbn [all_written assigned].
  constructor; [|apply IH]. split; [done|]. unfold written. cbn [fst snd]. by rewrite (means_value _ _ _ _ _ Hwf Hw), Ew.
Qed.

Lemma shifted_bound n : n .>> 1 < 2 ^ 31.
Proof.
  unfold js_sar. change (1 mod 32) with 1. rewrite Z.shiftr_div_pow2 by done. pose proof (to_int32_range n). apply Z.div_lt_upper_bound; [done|]. lia.
Qed.

Lemma compiled_writes program domain range code outs stack0 tmp0 :
  compile domain range program = Ok (Some code) -> compiles_well domain program = true ->
  spec_run program (inputs src srcOffset (Z.to_nat (len domain .>> 1))) = Some outs -> len outs = len range .>> 1 ->
  len stack0 = 64 -> len tmp0 = 64 ->
  exists m, execute code src srcOffset destOffset stack0 tmp0 = Ok m /\ Forall2 same_write (writes m) (assigned range destOffset 0 outs).
Proof.
  intros Hcompile Hwell Hspec Hlen Hs0 Ht0. unfold compiles_well in Hwell. set (nIn := Z.to_nat _) in *.
  destruct (evaluate_with_stands (fun i => slot src (srcOffset + i)) true program nIn) as (r & Er & Htree).
  rewrite Er in Hwell. destruct r as [tree|]; [|done]. destruct (Htree tree eq_refl) as (Hwf & _ & _ & Hst).
  specialize (Hst eq_refl outs Hspec). unfold compile in Hcompile. fold nIn in Hcompile. rewrite (evaluate_strict _ _ _ Er) in Hcompile.
  assert (Hn : length (outputs tree) = length outs) by (by eapply Forall2_length).
  destruct (Z.ltb_spec (len (outputs tree)) (len range .>> 1)) as [|Hle]; [done|].
  rewrite take_ge in Hcompile by (rewrite <- Hlen; unfold len; lia).
  destruct (compile_outputs tree range 0 (outputs tree) new_Compiler) as [[[]|e|] c] eqn:Ec; try done. injection Hcompile as <-.
  pose proof (shifted_bound (len range)).
  destruct (execute_outputs tree (proj1 Hwf) src srcOffset destOffset range (outputs tree) c stack0 tmp0 Ec Hwell) as (m & Em & Ew);
    [unfold len in *; lia|done|done|].
  exists m. split; [done|]. rewrite Ew. by apply assigned_stands.
Qed.
End Compiled.

Lemma same_writes_refl ws : Forall2 same_write ws ws.
Proof. induction ws; constructor; [split; [done|reflexivity]|done]. Qed.

#[local] Instance no_math : MathLib := {| math_sin := id; math_cos := id; math_log := id; math_log10 := id;
  math_pow := fun x _ => x; math_atan2 := fun x _ => x |}.

(** ** Claims *)

(** C7. Calculator functions compute what the specification says: when a source
    text is the program of a calculator function, and the program is defined on
    the inputs and leaves as many results as the range has intervals, then the
    function that buildPostScriptJsFunction returns ends and writes the results,
    cut off at the bounds, up to the sign of zero, whatever the arrays of the
    machines hold from the last run.  A program that the compiler takes has to
    leave the same height on all branches and to fit into its machine. *)
Theorem function_computes `{MathLib} source program domain range forceInterpreter src srcOffset destOffset stack0 tmp0 istack0 outs :
  parsePostScriptFunction source = Ok program ->
  spec_run program (inputs src srcOffset (Z.to_nat (len domain .>> 1))) = Some outs ->
  len outs = len range .>> 1 ->
  len stack0 = 64 -> len tmp0 = 64 -> length istack0 = MAX_STACK_SIZE ->
  (forceInterpreter = false -> compile domain range program <> Ok None -> compiles_well domain program = true) ->
  exists w, buildPostScriptJsFunction source domain range forceInterpreter src srcOffset destOffset stack0 tmp0 istack0 = Ok w /\
    Forall2 same_write w (assigned range destOffset 0 outs).
Proof.
  intros Hparse Hspec Hlen Hs0 Ht0 Hi0 Hwell. unfold buildPostScriptJsFunction. rewrite Hparse.
  assert (Hint : exists w, interpret program domain range src srcOffset destOffset istack0 = Ok w /\ Forall2 same_write w (assigned range destOffset 0 outs)).
  { eexists. split; [by apply interpret_spec|]. apply same_writes_refl. }
  destruct forceInterpreter; [exact Hint|]. destruct (compile_total domain range program) as [[code|] E]; rewrite E in *; [|exact Hint].
  destruct (compiled_writes src srcOffset destOffset _ _ _ _ _ stack0 tmp0 E (Hwell eq_refl ltac:(done)) Hspec Hlen Hs0 Ht0) as (m & -> & Hw).
  by exists (writes m).
Qed.

(** The square of the smaller of two numbers, plus one, and the number itself. *)
Definition smaller_squared : PsProgram :=
  mkPsProgram (block_of ([PsNumber (of_Z 2)] ++ map PsOperator [TOKEN.copy; TOKEN.gt] ++
    [PsIfElse (block_of [PsOperator TOKEN.exch; PsOperator TOKEN.pop]) (block_of [PsOperator TOKEN.pop])] ++
    map PsOperator [TOKEN.dup; TOKEN.dup; TOKEN.mul] ++ [PsNumber (of_Z 1)] ++ map PsOperator [TOKEN.add; TOKEN.exch])).

Lemma function_computes_witness : exists w,
  buildPostScriptJsFunction (js "{ 2 copy gt {exch pop} {pop} ifelse dup dup mul 1 add exch }") [fzero; fone; fzero; fone]
    [fzero; of_Z 8; fzero; of_Z 8] false [of_Z 3; of_Z 2] 0 5 (replicate 64 fone) (replicate 64 fone) (replicate 100 fone) = Ok w /\
  Forall2 same_write w (assigned [fzero; of_Z 8; fzero; of_Z 8] 5 0 [Num (of_Z 5); Num (of_Z 2)]).
Proof.
  apply (function_computes _ smaller_squared); vm_compute; done.
Defined.

(** C11. The interpreted function computes exactly what the specification says,
    signs of zeros included, for every program: no limit but the height of the
    stack, which is the one of the specification. *)
Theorem interpreted_function_exact `{MathLib} source program domain range src srcOffset destOffset stack0 tmp0 istack0 outs :
  parsePostScriptFunction source = Ok program ->
  spec_run program (inputs src srcOffset (Z.to_nat (len domain .>> 1))) = Some outs ->
  len outs = len range .>> 1 -> length istack0 = MAX_STACK_SIZE ->
  buildPostScriptJsFunction source domain range true src srcOffset destOffset stack0 tmp0 istack0 = Ok (assigned range destOffset 0 outs).
Proof. intros Hparse Hspec Hlen Hi0. unfold buildPostScriptJsFunction. rewrite Hparse. by apply interpret_spec. Qed.

Lemma interpreted_function_exact_witness :
  buildPostScriptJsFunction (js "{ 2 copy gt {exch pop} {pop} ifelse dup dup mul 1 add exch }") [fzero; fone; fzero; fone]
    [fzero; of_Z 8; fzero; of_Z 8] true [of_Z 3; of_Z 2] 0 5 [] [] (replicate 100 fone) =
  Ok (assigned [fzero; of_Z 8; fzero; of_Z 8] 5 0 [Num (of_Z 5); Num (of_Z 2)]).
Proof. apply (interpreted_function_exact _ smaller_squared); vm_compute; done. Defined.

(** C28. The compiler ends on every program, with code or with null: the
    simplifications and the walk over the shared nodes of the expressions
    terminate. *)
Theorem compile_answers `{MathLib} domain range program :
  exists code, compile domain range program = Ok code.
Proof. apply compile_total. Qed.

(** ** Beyond the limits *)

Definition wide : list float := [of_Z (-100); of_Z 100].

(** A function whose compiled code reads a slot that it does not always fill. *)
Definition stale_source : jstr := js "{ dup 5 add abs exch 0 gt { dup 1 add } {0} ifelse exch }".
Definition stale_program : PsProgram :=
  Eval vm_compute in match parsePostScriptFunction stale_source with Ok p => p | _ => mkPsProgram Done end.
Definition stale_code : list cell :=
  Eval vm_compute in match @compile no_math wide (wide ++ wide) stale_program with Ok (Some code) => code | _ => [] end.

Lemma stale_run `{MathLib} t : buildPostScriptJsFunction stale_source wide (wide ++ wide) false [of_Z (-6)] 0 0
  (replicate 64 fzero) (t :: replicate 63 fzero) (replicate 100 fzero) = Ok [(0, fzero); (1, MathClamp t (of_Z (-100)) (of_Z 100))].
Proof.
  assert (Ep : parsePostScriptFunction stale_source = Ok stale_program) by (vm_compute; reflexivity).
  assert (Ec : compile wide (wide ++ wide) stale_program = Ok (Some stale_code)) by (vm_compute; reflexivity).
  unfold buildPostScriptJsFunction. rewrite Ep, Ec. lazy -[MathClamp]. reflexivity.
Qed.

(** Compiled code can read the slot of a shared node on a path that did not
    fill it: the second result of the first program is then whatever number [t]
    the slot holds from the last run, where the interpreted function gives 1.  And
    the branches of different heights of the second program are filled up with
    zeros at the wrong end: -1 instead of 4. *)
Example compiled_function_differs `{MathLib} t :
  let slots := t :: replicate 63 fzero in
  let build source domain range force src := buildPostScriptJsFunction source domain range force src 0 0 (replicate 64 fzero) slots (replicate 100 fzero) in
  let stale := js "{ dup 5 add abs exch 0 gt { dup 1 add } {0} ifelse exch }" in
  let uneven := js "{ dup 0 gt {1 2} {5} ifelse add }" in
  build stale wide (wide ++ wide) false [of_Z (-6)] = Ok [(0, fzero); (1, MathClamp t (of_Z (-100)) (of_Z 100))] /\
  build stale wide (wide ++ wide) true [of_Z (-6)] = Ok [(0, fzero); (1, fone)] /\
  build uneven wide wide false [of_Z (-1)] = Ok [(0, of_Z (-1))] /\
  build uneven wide wide true [of_Z (-1)] = Ok [(0, of_Z 4)].
Proof. cbv zeta. split; [apply stale_run|]. split; [|split]; vm_compute; reflexivity. Qed.
